(* ===== verification/_CoqProject ===== *)
-Q . S2P
Prelude.v
Bytes.v
F64.v
Json.v
Errors.v
Externals.v
Filter.v
Secondary.v
Sort.v
Cursor.v
Parser.v
Backend.v
Index.v
Storage.v
Document.v
Consistency.v
Refinement.v
Updates.v
Locks.v
Mutations.v
Bulk.v
Catalog.v
Indexing.v
Recovery.v
History.v
Concurrency.v
Guarantees.v
Page.v
Planner.v
Executor.v
Compound.v
Execution.v
Plans.v
Walks.v
Queries.v
Answers.v
Bitmap.v
Bitmaps.v
Accelerated.v
Rebuild.v
Aggregate.v
Grouping.v
Pipelines.v
Distinct.v
Reports.v
Counts.v
Arbiter.v
Sse.v
Calc.v
Text.v
Paths.v
Jail.v
Atomic.v
Patch.v
Escapes.v
FileTools.v
ReadWindow.v
Limits.v
Soul.v
Supervisor.v
Reconcile.v
Boot.v
Access.v
Edges.v
Traversal.v
Hops.v
Addresses.v
Secrets.v
HtmlText.v
Caps.v
Egress.v
ToolStore.v
Lifecycle.v
Approval.v
Invoke.v
Client.v
Derive.v
Merge.v
Decided.v
Merged.v
