(* ===== verification/Prelude.v ===== *)
(** * embraOS in Rocq: the database, the agent's tools and memory, the boot

    embraOS is an operating system image around an AI agent. Its state lives
    in WardSONDB ([crates/wardsondb]), a JSON document database over an
    embedded key-value engine; the agent ([crates/embra-brain]) works on a
    workspace of files through tools; the other crates are services, front
    ends and clients of model APIs. This development models the database from
    the stored bytes up to the queries, aggregations and writes of its
    clients, the file tools of the agent from the kernel's walk of a path up
    to the tool calls, the walks over its graph of memories, the broker that
    acts for the tools it writes itself, the boot of the machine with its
    supervisor and the verification of its soul, the gate of the web console,
    and some self-contained parts of the other crates.

    ** Parts and files

    - [Prelude] (this file): results, generic lemmas on lists and orders, a
      stable sort. [Bytes]: bytes, strings, UTF-8. [F64]: IEEE doubles as bit
      patterns. [Json]: serde_json's values and the class [SerdeJson] of the
      operations of that crate. [Errors]: [error.rs]. [Externals]: the regex
      and base64 crates as classes, with reference instances for witnesses.
    - Requests: [Filter] ([query/filter.rs]), [Sort] ([query/sort.rs]),
      [Cursor] ([query/cursor.rs]), [Parser] ([query/parser.rs]), [Page] (the
      pages of [query/executor.rs]).
    - Index keys and indexes: [Secondary] ([index/secondary.rs]) encodes
      values to bytes whose order is the total order of values; [Index]
      ([index/mod.rs]) keeps the registry, stages entries, answers lookups.
    - Storage: [Backend] ([engine/backend/mod.rs], [query/cancel.rs]) is the
      engine as a class [StorageBackend] with the laws [BackendLaws], which
      the reference instance [RefBackend] meets. [Storage]
      ([engine/storage.rs], [engine/collection.rs]) is the shared state as a
      record and the operations on collections as state-passing functions;
      [Document] ([engine/document.rs], [engine/ttl.rs]) those on documents.
      An operation composes the calls of the code in the code's order, an
      early return being an error that keeps the state reached.
    - Proofs about storage: [Consistency] (the invariant: documents, index
      entries, catalog, caches and counters agree), [Refinement],
      [Mutations], [Bulk], [Catalog], [Indexing] (each operation against its
      specification on a map of maps), [Recovery] (reopening), [Updates]
      ([$set] and merge patches), [History] (sequences of requests).
    - Threads: [Locks] (the shards of the write lock), [Concurrency]
      (single-document requests in phases, interleaved).
    - Queries: [Planner] ([query/planner.rs]) chooses a plan, [Executor]
      ([query/executor.rs]) runs it. [Compound] (keys of compound indexes),
      [Execution] (each path against what a query asks for), [Plans] (the
      scan and residual filter of each plan select the matches), [Walks]
      (sorted walks of an index), [Queries] (all plans together, paging) and
      [Answers] (the properties) prove them exact.
    - Bitmaps: [Bitmap] ([engine/bitmap.rs], the profiler included) is the
      accelerator, [Bitmaps] its invariant and scans, [Accelerated] its hooks
      along any writes, [Rebuild] its rebuild beside writers. The rest of the
      database sees it through the classes [ScanAccelerator], [BitmapScans]
      and [BitmapCounts].
    - Aggregation: [Aggregate] ([query/aggregate.rs], [query/distinct.rs]),
      [Grouping] (the group stage and the accumulators), [Pipelines] (counts
      from an index, pipelines), [Distinct], [Reports] (the properties) and
      [Counts] (counts from bitmaps).
    - [Guarantees]: the theorems a client of the storage relies on, with
      witnesses that run the database on reference instances. [Limits]:
      behaviours they exclude.
    - [Text]: the operations on [str] outside the database.
    - File tools ([embra-brain/src/tools]): [Paths] models paths and a tree
      of directories, files and links with the kernel's walk and system
      calls; [Jail] ([jail.rs], with the read list of [media/store.rs]) the
      checks on paths; [Atomic] and [Patch] ([file_patch.rs]) the atomic
      writer, with faults at every step, and the edit planner; [Escapes] the
      expansion of escapes; [FileTools] ([engineering/files.rs]) the tools
      themselves and their dispatch; [ReadWindow] the windows of file_read.
      Module [ToolLimits] of [Limits]: behaviours their theorems exclude.
    - Knowledge graph ([embra-brain/src/knowledge]): [Edges] ([types.rs],
      [traversal.rs]) has the edges, the filters of the queries of a hop, the
      merge of their windows, and the window the database answers, which is
      the [Filter] and [Sort] of the parts above; [Traversal] the node store
      and the breadth-first walk; [Hops] joins them: what a hop reads of a
      database, and how far a walk goes. [Client] ([db/client.rs]) has
      the agent's calls over the specification of the database, with lost
      requests, lost replies and other clients in between; [Derive]
      ([edges.rs]) the automatic edges of a new document and [Merge]
      ([merge.rs], [embedding/write.rs]) the merge of two nodes, both made of
      those calls. [Decided] proves what the plan of a merge decides,
      [Merged] what its runs do to the stored edges.
    - Guardian ([embra-guardian]): [Addresses] (std's IP addresses and the
      classes of [caps.rs]), [Secrets] ([embra-tools-core/src/lib.rs],
      [mask.rs]: the stored secrets in all their forms, redaction, masking),
      [HtmlText] ([guest/html_text.rs]), [Caps] ([caps.rs]: the guards of
      fetches, requests and searches, with the transport and the resolver as
      arguments) and [Egress], their theorems. [ToolStore] ([store.rs],
      [overlay.rs], [shipped.rs], the decisions of
      [embra-brain/src/guardian/mod.rs]) has the records of tools, [Lifecycle]
      (the same file) the commands on them, the builds, batches and the boot
      as a step function, [Approval] their invariant, [Invoke] the grant of a
      call (with [embra-brain/src/secrets.rs]) joined to all of these.
    - Boot: [Soul] ([embra-trustd/src/soul.rs] and the gate of
      [embrad/src/supervisor.rs]) verifies the sealed soul; [Supervisor]
      (the same file) has the operations on one service, cut at their
      [await]s; [Reconcile] ([embrad/src/reconcile.rs]) composes them to a
      pass and to a step relation; [Boot] registers and starts the services
      and joins the gate to it.
    - Web console: [Access] ([embra-web/src/access.rs]) decides which
      requests are answered.
    - Other crates: [Arbiter] (the single-writer token of the web console,
      [embra-web/src/arbiter.rs]), [Sse] (the line buffer of the provider
      streams, [embra-brain/src/provider/sse.rs]), [Calc] (the calculator
      tool, [embra-brain/src/tools/calc.rs]).

    ** What the theorems show

    The encoding of index keys is an order isomorphism and its scan windows
    are exact. A query answers what its definition says, without condition by
    a scan and by any other plan where the keys of the indexes agree with the
    filter and the compound indexes hold every match ([query_ok] of
    [Queries]), so there indexes and bitmaps change no answer; its cursors page
    through the sorted matches completely. What the code answers outside these
    conditions is in [Limits]. A pipeline is its stages run over
    the documents; groups partition them and each accumulator computes what
    it names; counts taken from an index or from bitmaps are those of the
    documents that have the field; a distinct lists every value once. Every
    sequence of requests answers what the specification answers and leaves a
    state that represents the specification's, so indexes, counters and
    catalog never drift, errors have no effect, and reopening the engine
    recovers the same database. Bulk insertion is a sequence of insertions.
    Every interleaving of single-document requests is a sequential history;
    no update is lost; the shards never deadlock. Bitmaps stay exact through
    the hooks of writes that fit them and through a rebuild beside such
    writes, as far as their keys tell values apart like the filter.

    No tool call changes anything outside the workspace or inside its fence,
    if no written path ends in a slash or is the workspace itself and the
    temporary name is free; paths the jails answer lead where they say. A
    patch is applied as a whole or not at all, also when a step of the writer
    fails or the machine stops, if the temporary name is free; the planner accepts exactly the
    edits whose anchors are found as often as asked and do not overlap, and
    replaces exactly their occurrences, in whatever order they are listed;
    chunked reads of a file give the file. The calculator evaluates the
    grammar of expressions; lines do not depend on chunks; the console has
    one writer.

    A walk over the graph of memories visits exactly the nodes within its
    depth, each at its distance, until the node budget cuts it, and reads a
    bounded number of edges; what it sees of one node is the heaviest edges
    that touch it, as a query over all of them would rank them. Deriving the
    edges of a document adds automatic edges of that document to the database
    and changes nothing else, whatever calls fail and whatever others add, and
    none that was stored before, while the limits keep its check below the
    server's cap. A merge decides
    every edge of the node that goes once and keeps the heavier edge of a
    conflict; no run of it loses a relation, wherever it is cut or however
    often it is repeated; one that ends well leaves no edge of that node,
    unless another client writes one after the last sweep has read.

    Every fetch and request the broker sends for a guest has passed the
    policy: https, no user information, an allowed host that resolved to
    public addresses or to private ones the operator allowed, and the
    operator's credentials only on their own host. The raw input, the URL, the
    header values and the body hold no secret of the configuration that was
    loaded; header names and the unescaped query of a search are not checked. A
    guest that runs was built from a source the operator pasted or approved,
    or the image ships, and is granted what that source declares; these need
    that a tool is not redefined or deleted while it builds: what happens
    otherwise are examples of [Approval]. Every build but that of a tool of
    the image has passed the check against the soul, where one was ever sealed;
    a boot loads only the
    bytes on record, of the newest thousand records. The class of an address is
    that of the documented ranges. A redacted text holds no secret in any
    form, a masked command line nothing of its secret.

    The boot passes the soul gate exactly when the soul matches its hash or
    none was ever sealed, and nothing past it starts otherwise. Under any
    answers of the kernel and a shutdown at any wait, a service has at most
    one process and stays within its restart budget, which is a limit on the
    failures since the last stable run. The console answers exactly the
    requests that carry the token from its own origin.

    ** Choices

    Integers are [Z] with wrap-around written out where the width matters
    (revisions and counts [u64], counters [i64], positions [u32]). Recursion
    is structural or on fuel that the theorems show to suffice ([chunks] uses
    the length of the list, the filter parser the depth limit of the code,
    the walk of a path the kernel's bound on links). Clocks and generated
    identifiers are arguments of the operations; the iteration order of hash
    maps and sets is a parameter. Requests are [admissible] when names are as
    the HTTP layer validates them, less ['#'] and [':'], text is UTF-8,
    generated identifiers are fresh and stored documents read back as written
    (serde_json does not promise the last for nesting beyond its limit). A
    phase of a request is atomic in [Concurrency]: the commit, the counter
    and the accelerator hook of one write are one step. The reads of one
    query see one state. A file tool runs alone: nothing else changes the
    tree between its checks and its system calls. What the kernel, the
    network and the database answer the supervisor and the gates is an
    argument, one answer per call; a health check runs through a list of
    looks and waits when the list ends. The documents do not change during
    one walk of the graph. A client of the database follows a schedule, which
    says of each call whether its request or its reply is lost and what other
    clients write before it; generated identifiers are not among the stored
    ones; chrono's times are nanoseconds, and its texts and the provider of
    embeddings are arguments. The resolver, the clock and the transport of the
    broker answer by the number of the call; the url crate is the class
    [UrlLib]. A command line is its list of characters. A command on a guest
    tool runs up to its model call in one step and to its end in another;
    a build ends in a step of its own.

    ** Not modelled

    The engines behind the trait (third-party stores), the HTTP server, its
    configuration and metrics; of the accelerator the statistics, memory
    estimates and snapshot files; of the file tools the texts of reports; of
    the boot the mounts, the CA bundle and the PKI; of the knowledge graph
    the promotion, removal and scoring of memories, the seeds, the in-memory
    index of vectors and the tools over them;
    of the Guardian the validator of guest sources (over syn's trees; the
    class [Validator] says what is relied on), the WebAssembly host, what
    cargo does in a build, and the judge's model call. The broker's transport
    resolves a name again when it connects: that its answer is the one
    checked is not claimed. The other crates are sockets, terminals, HTTP
    clients and asynchronous services around them,
    apart from the parts above. *)

From stdpp Require Export base tactics option list strings gmap sorting pretty.
From Stdlib Require Export ZArith Lia.

#[global] Open Scope Z_scope.

Declare Scope embra_scope.
Delimit Scope embra_scope with embra.
#[global] Open Scope embra_scope.

(** ** Fallible code: Rust's [Result], with [?] as the monadic bind. *)

Inductive result (E A : Type) : Type :=
| Ok (a : A)
| Err (e : E).
Arguments Ok {E A} a.
Arguments Err {E A} e.

#[export] Instance result_ret {E} : MRet (result E) := fun A => Ok.
#[export] Instance result_bind {E} : MBind (result E) := fun A B f r =>
  match r with Ok a => f a | Err e => Err e end.
#[export] Instance result_fmap {E} : FMap (result E) := fun A B f r =>
  match r with Ok a => Ok (f a) | Err e => Err e end.

Notation "'let?' x := e 'in' k" := (mbind (fun x => k) e)
  (at level 10, x pattern, e at level 200, k at level 200) : embra_scope.

Definition is_ok {E A} (r : result E A) : bool := match r with Ok _ => true | Err _ => false end.
(** [Option::ok_or] *)
Definition ok_or {E A} (o : option A) (e : E) : result E A :=
  match o with Some a => Ok a | None => Err e end.

(** [Result::map_err] *)
Definition map_err {E F A} (f : E -> F) (r : result E A) : result F A :=
  match r with Ok a => Ok a | Err e => Err (f e) end.

Lemma bind_ok {E A B} (r : result E A) (f : A -> result E B) b :
  (let? x := r in f x) = Ok b <-> exists a, r = Ok a /\ f a = Ok b.
Proof. destruct r as [a|e]; cbn; split; [eauto|by intros (? & [= ->] & ?)|done|by intros (? & ? & ?)]. Qed.

(** [iter().map(f).collect::<Result<Vec<_>, _>>()]: the first error wins. *)
Lemma mapM_ok_Forall2 {E A B} (f : A -> result E B) l k :
  mapM f l = Ok k <-> Forall2 (fun x y => f x = Ok y) l k.
Proof.
  revert k; induction l as [|x l IH]; intros k; cbn.
  - split; [by intros [= <-] | by intros ->%Forall2_nil_inv_l].
  - split.
    + intros (y & Hy & H)%bind_ok.
      apply bind_ok in H as (ys & Hys & [= <-]). constructor; [done | by apply IH].
    + intros H; inversion H as [|? y ? ys Hy Hys]; subst. rewrite Hy; cbn.
      apply IH in Hys. by rewrite Hys.
Qed.

Lemma mapM_err {E A B} (f : A -> result E B) l e :
  mapM f l = Err e -> exists x, x ∈ l /\ f x = Err e.
Proof.
  induction l as [|x l IH]; cbn; [done|].
  destruct (f x) as [y|e'] eqn:Hx; cbn.
  - destruct (mapM f l); cbn; [done|]. intros [= ->].
    destruct IH as (z & Hz & Hf); [done|]. exists z. split; [by right|done].
  - intros [= ->]. exists x. split; [by left|done].
Qed.

(** ** Rust's [ControlFlow] and the visitors of a scan. *)

Inductive control_flow := Continue | Break.

(** ** Comparators: [Ordering] is [comparison]. *)

(** A comparator that is a total preorder. [Eq] need not be equality: two
    JSON numbers of different encodings may compare equal. *)
Class CmpOrder {A} (cmp : A -> A -> comparison) : Prop := {
  cmp_opp : forall a b, cmp a b = CompOpp (cmp b a);
  cmp_le_trans : forall a b c, cmp a b <> Gt -> cmp b c <> Gt -> cmp a c <> Gt;
}.

Arguments cmp_opp {A} cmp {_} a b.
Arguments cmp_le_trans {A} cmp {_} a b c.

(** [Ordering::reverse] is [CompOpp]; [Ordering::then]: *)
Definition then_cmp (a b : comparison) : comparison :=
  match a with Eq => b | _ => a end.

Section cmp_order.
Context {A} (cmp : A -> A -> comparison) `{!CmpOrder cmp}.

Lemma cmp_refl a : cmp a a = Eq.
Proof. pose proof (cmp_opp cmp a a). by destruct (cmp a a). Qed.

Lemma cmp_gt_lt a b : cmp a b = Gt <-> cmp b a = Lt.
Proof. rewrite (cmp_opp cmp a b). by destruct (cmp b a). Qed.

Lemma cmp_eq_sym a b : cmp a b = Eq <-> cmp b a = Eq.
Proof. rewrite (cmp_opp cmp a b). by destruct (cmp b a). Qed.

Lemma cmp_le_flip a b : cmp a b <> Gt <-> cmp b a <> Lt.
Proof. rewrite cmp_gt_lt. done. Qed.

Lemma cmp_not_lt a b : cmp a b <> Lt <-> cmp b a <> Gt.
Proof. by rewrite cmp_gt_lt. Qed.

Lemma cmp_lt_le_trans a b c : cmp a b = Lt -> cmp b c <> Gt -> cmp a c = Lt.
Proof.
  intros Hab Hbc. destruct (decide (cmp a c = Lt)) as [|Hn]; [done|exfalso].
  apply cmp_not_lt in Hn. pose proof (cmp_le_trans cmp b c a Hbc Hn) as H.
  by rewrite cmp_gt_lt in H.
Qed.

Lemma cmp_le_lt_trans a b c : cmp a b <> Gt -> cmp b c = Lt -> cmp a c = Lt.
Proof.
  intros Hab Hbc. destruct (decide (cmp a c = Lt)) as [|Hn]; [done|exfalso].
  apply cmp_not_lt in Hn. pose proof (cmp_le_trans cmp c a b Hn Hab) as H.
  by rewrite cmp_gt_lt in H.
Qed.

(** Equal keys are interchangeable. *)
Lemma cmp_eq_l a b c : cmp a b = Eq -> cmp a c = cmp b c.
Proof.
  intros Hab. assert (Hba : cmp b a = Eq) by (by apply cmp_eq_sym).
  destruct (cmp a c) eqn:Hac, (cmp b c) eqn:Hbc; try done; exfalso.
  - assert (cmp a c = Lt) by (apply (cmp_le_lt_trans a b c); by rewrite ?Hab). congruence.
  - apply cmp_gt_lt in Hbc.
    assert (cmp c a = Lt) by (apply (cmp_lt_le_trans c b a); by rewrite ?Hba).
    apply cmp_gt_lt in H. congruence.
  - assert (cmp b c = Lt) by (apply (cmp_le_lt_trans b a c); by rewrite ?Hba). congruence.
  - assert (cmp b c = Lt) by (apply (cmp_le_lt_trans b a c); by rewrite ?Hba). congruence.
  - apply cmp_gt_lt in Hac.
    assert (cmp c b = Lt) by (apply (cmp_lt_le_trans c a b); by rewrite ?Hab).
    apply cmp_gt_lt in H. congruence.
  - assert (cmp a c = Lt) by (apply (cmp_le_lt_trans a b c); by rewrite ?Hab). congruence.
Qed.

Lemma cmp_eq_r a b c : cmp a b = Eq -> cmp c a = cmp c b.
Proof. intros H. rewrite (cmp_opp cmp c a), (cmp_opp cmp c b). f_equal. by apply cmp_eq_l. Qed.
End cmp_order.

(** Comparators are closed under pulling back, reversing, lexicographic
    combination, [Option] ([None] first) and lists. *)
#[export] Instance Z_compare_order : CmpOrder Z.compare.
Proof.
  split; intros *.
  - apply Z.compare_antisym.
  - change (a <= b -> b <= c -> a <= c). lia.
Qed.

Definition cmp_on {A B} (f : A -> B) (cmp : B -> B -> comparison) : A -> A -> comparison :=
  fun a b => cmp (f a) (f b).
#[export] Instance cmp_on_order {A B} (f : A -> B) cmp :
  CmpOrder cmp -> CmpOrder (cmp_on f cmp).
Proof.
  intros H; split; unfold cmp_on; [intros a b; apply (cmp_opp cmp)|].
  intros a b c; apply (cmp_le_trans cmp).
Qed.

Definition cmp_dir (asc : bool) (o : comparison) : comparison :=
  if asc then o else CompOpp o.
#[export] Instance cmp_dir_order {A} asc (cmp : A -> A -> comparison) :
  CmpOrder cmp -> CmpOrder (fun a b => cmp_dir asc (cmp a b)).
Proof.
  intros H; destruct asc; cbn; [done|]. split; intros a b.
  - f_equal. apply (cmp_opp cmp).
  - intros c. rewrite <- !(cmp_opp cmp). intros H1 H2. by apply (cmp_le_trans cmp c b a).
Qed.

#[export] Instance then_cmp_order {A} (c1 c2 : A -> A -> comparison) :
  CmpOrder c1 -> CmpOrder c2 -> CmpOrder (fun a b => then_cmp (c1 a b) (c2 a b)).
Proof.
  intros H1 H2; split; intros a b.
  - rewrite (cmp_opp c1 a b), (cmp_opp c2 a b). by destruct (c1 b a).
  - intros c. destruct (c1 a b) eqn:Hab; cbn; [| |done].
    + rewrite (cmp_eq_l c1 _ _ c Hab). destruct (c1 b c); cbn; try done. apply (cmp_le_trans c2).
    + intros _. destruct (c1 b c) eqn:Hbc; cbn; [| |done]; intros _.
      all: rewrite (cmp_lt_le_trans c1 _ _ _ Hab); [done|by rewrite Hbc].
Qed.

Definition option_cmp {A} (cmp : A -> A -> comparison) (a b : option A) : comparison :=
  match a, b with
  | None, None => Eq
  | None, Some _ => Lt
  | Some _, None => Gt
  | Some a, Some b => cmp a b
  end.
#[export] Instance option_cmp_order {A} (cmp : A -> A -> comparison) :
  CmpOrder cmp -> CmpOrder (option_cmp cmp).
Proof.
  intros H; split; [intros [] []|intros [] [] []]; cbn; try done;
    [apply (cmp_opp cmp) | apply (cmp_le_trans cmp)].
Qed.

(** Lexicographic order of slices ([Ord for \[T\]]). *)
Fixpoint lex_cmp {A} (cmp : A -> A -> comparison) (l k : list A) : comparison :=
  match l, k with
  | [], [] => Eq
  | [], _ :: _ => Lt
  | _ :: _, [] => Gt
  | x :: l, y :: k => then_cmp (cmp x y) (lex_cmp cmp l k)
  end.
#[export] Instance lex_cmp_order {A} (cmp : A -> A -> comparison) :
  CmpOrder cmp -> CmpOrder (lex_cmp cmp).
Proof.
  intros H; split.
  - intros a; induction a as [|x a IH]; intros [|y b]; cbn; try done.
    rewrite (cmp_opp cmp x y), (IH b). by destruct (cmp y x).
  - intros a; induction a as [|x a IH]; intros [|y b] [|z c]; cbn; try done.
    destruct (cmp x y) eqn:Hxy; cbn; [| |done].
    + rewrite (cmp_eq_l cmp _ _ z Hxy). destruct (cmp y z); cbn; try done. apply IH.
    + intros _. destruct (cmp y z) eqn:Hyz; cbn; [| |done]; intros _.
      all: rewrite (cmp_lt_le_trans cmp _ _ _ Hxy); [done|by rewrite Hyz].
Qed.

(** ** Slices and windows with machine-width indices. *)

(** [Vec::truncate], [iter().take(n)] and [iter().skip(n)] with a [usize]
    index kept in [Z], so that [usize::MAX] stays computable. *)
Fixpoint takeZ {A} (n : Z) (l : list A) : list A :=
  match l with
  | [] => []
  | x :: l => if n <=? 0 then [] else x :: takeZ (n - 1) l
  end.
Fixpoint dropZ {A} (n : Z) (l : list A) : list A :=
  match l with
  | [] => []
  | x :: l' => if n <=? 0 then l else dropZ (n - 1) l'
  end.
Definition lenZ {A} (l : list A) : Z := Z.of_nat (length l).

Lemma takeZ_take {A} n (l : list A) : takeZ n l = take (Z.to_nat n) l.
Proof.
  revert n; induction l as [|x l IH]; intros n; cbn; [by rewrite take_nil|].
  destruct (Z.leb_spec n 0).
  - by replace (Z.to_nat n) with 0%nat by lia.
  - replace (Z.to_nat n) with (S (Z.to_nat (n - 1))) by lia. by rewrite IH.
Qed.
Lemma dropZ_drop {A} n (l : list A) : dropZ n l = drop (Z.to_nat n) l.
Proof.
  revert n; induction l as [|x l IH]; intros n; cbn; [by rewrite drop_nil|].
  destruct (Z.leb_spec n 0).
  - by replace (Z.to_nat n) with 0%nat by lia.
  - replace (Z.to_nat n) with (S (Z.to_nat (n - 1))) by lia. by rewrite IH.
Qed.

(** [usize::saturating_add] / [saturating_mul] on a 64-bit target. *)
Definition usize_max : Z := 2 ^ 64 - 1.
Definition sat_add (a b : Z) : Z := Z.min usize_max (a + b).
Definition sat_mul (a b : Z) : Z := Z.min usize_max (a * b).

(** ** Stable sorting: [slice::sort_by]. *)

(** Insert after every element that does not compare greater. *)
Fixpoint insert_by {A} (cmp : A -> A -> comparison) (x : A) (l : list A) : list A :=
  match l with
  | [] => [x]
  | y :: l' => match cmp x y with Lt => x :: l | _ => y :: insert_by cmp x l' end
  end.
Definition insert_all {A} (cmp : A -> A -> comparison) (acc l : list A) : list A :=
  foldl (fun acc x => insert_by cmp x acc) acc l.
Definition sort_by {A} (cmp : A -> A -> comparison) (l : list A) : list A :=
  insert_all cmp [] l.

Section sort_by.
Context {A} (cmp : A -> A -> comparison).
Implicit Types (x y : A) (l k : list A).

Definition cmp_le x y : Prop := cmp x y <> Gt.

Lemma insert_by_perm x l : insert_by cmp x l ≡ₚ x :: l.
Proof.
  induction l as [|y l IH]; cbn; [done|].
  destruct (cmp x y); [|done|]; rewrite IH; apply Permutation_swap.
Qed.
Lemma insert_all_perm l k : insert_all cmp l k ≡ₚ k ++ l.
Proof.
  revert l; induction k as [|x k IH]; intros l; cbn; [done|].
  change (insert_all cmp (insert_by cmp x l) k ≡ₚ x :: k ++ l).
  rewrite IH, insert_by_perm. by rewrite Permutation_middle.
Qed.
Lemma sort_by_perm l : sort_by cmp l ≡ₚ l.
Proof. unfold sort_by. rewrite insert_all_perm. by rewrite app_nil_r. Qed.
Lemma sort_by_app l k : sort_by cmp (l ++ k) = insert_all cmp (sort_by cmp l) k.
Proof. unfold sort_by, insert_all. by rewrite foldl_app. Qed.

(** The first [n] elements of a sorted list depend only on the first [n]
    elements so far: what lets a bounded buffer replace the full sort. *)
Lemma take_insert_by n x l :
  take n (insert_by cmp x (take n l)) = take n (insert_by cmp x l).
Proof.
  revert n; induction l as [|y l IH]; intros [|n]; cbn; [done..|].
  destruct (cmp x y); cbn; f_equal; [apply IH| |apply IH].
  destruct n; cbn; [done|]. f_equal. by rewrite take_take, Nat.min_l by lia.
Qed.
Lemma take_insert_all n l k :
  take n (insert_all cmp (take n l) k) = take n (insert_all cmp l k).
Proof.
  revert l; induction k as [|x k IH]; intros l; cbn; [by rewrite take_take, Nat.min_id|].
  change (take n (insert_all cmp (insert_by cmp x (take n l)) k) =
    take n (insert_all cmp (insert_by cmp x l) k)).
  by rewrite <- IH, take_insert_by, IH.
Qed.
End sort_by.

Section sort_by_order.
Context {A} (cmp : A -> A -> comparison) `{!CmpOrder cmp}.
Implicit Types (x y : A) (l k : list A).
#[local] Abbreviation le := (cmp_le cmp).

Lemma insert_by_hd y x l : le y x -> HdRel le y l -> HdRel le y (insert_by cmp x l).
Proof.
  intros Hx Hl; destruct l as [|z l]; cbn; [by constructor|].
  inversion Hl; subst. destruct (cmp x z); by constructor.
Qed.
Lemma insert_by_sorted x l : Sorted le l -> Sorted le (insert_by cmp x l).
Proof.
  induction l as [|y l IH]; intros Hl; cbn; [by repeat constructor|].
  inversion Hl as [|? ? Hs Hh]; subst. destruct (cmp x y) eqn:Hxy.
  - constructor; [by apply IH|]. apply insert_by_hd; [|done].
    unfold cmp_le. apply (cmp_eq_sym cmp) in Hxy. by rewrite Hxy.
  - constructor; [done|]. constructor. unfold cmp_le. by rewrite Hxy.
  - constructor; [by apply IH|]. apply insert_by_hd; [|done].
    unfold cmp_le. apply (cmp_gt_lt cmp) in Hxy. by rewrite Hxy.
Qed.
Lemma insert_all_sorted l k : Sorted le l -> Sorted le (insert_all cmp l k).
Proof.
  revert l; induction k as [|x k IH]; intros l Hl; cbn; [done|].
  by apply IH, insert_by_sorted.
Qed.
Lemma sort_by_sorted l : Sorted le (sort_by cmp l).
Proof. apply insert_all_sorted. constructor. Qed.

#[export] Instance cmp_le_trans_inst : Transitive le.
Proof. intros a b c. apply (cmp_le_trans cmp). Qed.
Lemma sort_by_strongly l : StronglySorted le (sort_by cmp l).
Proof. apply Sorted_StronglySorted; [apply cmp_le_trans_inst|apply sort_by_sorted]. Qed.

(** An element not smaller than any is appended. *)
Lemma insert_by_last x l : Forall (fun y => le y x) l -> insert_by cmp x l = l ++ [x].
Proof.
  induction 1 as [|y l Hy Hl IH]; cbn; [done|].
  destruct (cmp x y) eqn:Hxy; [by rewrite IH| |by rewrite IH].
  unfold cmp_le in Hy. by apply (cmp_gt_lt cmp) in Hxy.
Qed.
Lemma insert_all_app_sorted l k : StronglySorted le (l ++ k) -> insert_all cmp l k = l ++ k.
Proof.
  revert l; induction k as [|x k IH]; intros l Hl; cbn; [by rewrite app_nil_r|].
  assert (insert_by cmp x l = l ++ [x]) as ->.
  { apply insert_by_last, Forall_forall. intros y Hy.
    by eapply (StronglySorted_app_1_elem_of le l (x :: k)); [..|left]. }
  change (insert_all cmp (l ++ [x]) k = l ++ x :: k).
  rewrite IH; by rewrite <- app_assoc.
Qed.
(** Sorting a sorted list changes nothing. *)
Lemma sort_by_id l : StronglySorted le l -> sort_by cmp l = l.
Proof. apply (insert_all_app_sorted []). Qed.

(** An element greater than the [n]-th of a sorted list never reaches the
    first [n]. *)
Lemma take_insert_by_gt n x c l :
  StronglySorted le l -> l !! n = Some c -> cmp x c = Gt ->
  take (S n) (insert_by cmp x l) = take (S n) l.
Proof.
  intros Hs Hc Hx.
  rewrite <- take_insert_by, insert_by_last.
  - rewrite take_app_le; [by rewrite take_take, Nat.min_id|].
    rewrite length_take. apply lookup_lt_Some in Hc. lia.
  - apply Forall_forall. intros y Hy.
    rewrite (take_S_r _ _ c Hc) in Hy.
    assert (Hcx : cmp c x = Lt) by (by apply (cmp_gt_lt cmp)).
    apply elem_of_app in Hy as [Hy| ->%list_elem_of_singleton];
      [|unfold cmp_le; by rewrite Hcx].
    rewrite <- (take_drop_middle l n c Hc) in Hs.
    apply (cmp_le_trans cmp y c x); [|by rewrite Hcx].
    apply (StronglySorted_app_1_elem_of le _ _ y c Hs Hy). by left.
Qed.

(** Sorting is insensitive to the arrival order when only equal elements
    compare equal. *)
Lemma cmp_le_antisym x y : le x y -> le y x -> cmp x y = Eq.
Proof.
  unfold cmp_le. intros H1 H2. rewrite (cmp_opp cmp) in H2.
  by destruct (cmp x y).
Qed.
Lemma sort_by_unique l k :
  (forall x y, x ∈ l -> y ∈ l -> cmp x y = Eq -> x = y) -> l ≡ₚ k ->
  sort_by cmp l = sort_by cmp k.
Proof.
  intros Heq Hp. apply (StronglySorted_unique_strong le).
  - intros x y Hx Hy H1 H2. rewrite sort_by_perm in Hx, Hy. rewrite <- Hp in Hy.
    apply Heq; [done|done|]. by apply cmp_le_antisym.
  - apply sort_by_strongly.
  - apply sort_by_strongly.
  - by rewrite !sort_by_perm.
Qed.
End sort_by_order.

Lemma NoDup_fmap_inj_on {A B} (f : A -> B) (l : list A) x y :
  NoDup (f <$> l) -> x ∈ l -> y ∈ l -> f x = f y -> x = y.
Proof.
  intros Hnd Hx Hy Hf. apply list_elem_of_lookup in Hx as [i Hi]. apply list_elem_of_lookup in Hy as [j Hj].
  assert (i = j) as ->; [|congruence].
  apply (NoDup_lookup (f <$> l) i j (f x)); [done|..]; rewrite list_lookup_fmap.
  - by rewrite Hi.
  - by rewrite Hj, Hf.
Qed.

(** Sorting commutes with a map that respects the comparators. *)
Lemma insert_by_fmap {A B} (g : A -> B) (cmp : B -> B -> comparison) (cmp' : A -> A -> comparison) x l :
  (forall x y, cmp (g x) (g y) = cmp' x y) ->
  insert_by cmp (g x) (g <$> l) = g <$> insert_by cmp' x l.
Proof.
  intros Hg. induction l as [|y l IH]; cbn; [done|]. rewrite Hg.
  destruct (cmp' x y); cbn; by rewrite ?IH.
Qed.
Lemma insert_all_fmap {A B} (g : A -> B) (cmp : B -> B -> comparison) (cmp' : A -> A -> comparison) l k :
  (forall x y, cmp (g x) (g y) = cmp' x y) ->
  insert_all cmp (g <$> l) (g <$> k) = g <$> insert_all cmp' l k.
Proof.
  intros Hg. revert l; induction k as [|x k IH]; intros l; [done|].
  change (insert_all cmp (insert_by cmp (g x) (g <$> l)) (g <$> k) = g <$> insert_all cmp' (insert_by cmp' x l) k).
  by rewrite (insert_by_fmap g cmp cmp'), IH by done.
Qed.
Lemma sort_by_fmap {A B} (g : A -> B) (cmp : B -> B -> comparison) (cmp' : A -> A -> comparison) l :
  (forall x y, cmp (g x) (g y) = cmp' x y) ->
  sort_by cmp (g <$> l) = g <$> sort_by cmp' l.
Proof. apply (insert_all_fmap g cmp cmp' []). Qed.

(** Inserting an element can only lower the [n]-th one. *)
Lemma insert_by_nth_le {A} (cmp : A -> A -> comparison) `{!CmpOrder cmp} x l n y :
  StronglySorted (cmp_le cmp) l -> l !! n = Some y ->
  exists z, insert_by cmp x l !! n = Some z /\ cmp_le cmp z y.
Proof.
  intros Hs. revert n; induction Hs as [|w l Hs IH Hw]; intros n Hn; [done|]. cbn.
  assert (Hrefl : forall a, cmp_le cmp a a) by (intros a; unfold cmp_le; by rewrite cmp_refl by done).
  destruct (cmp x w) eqn:E.
  - destruct n as [|n]; [naive_solver|]. cbn in Hn |- *. by apply IH.
  - destruct n as [|n]; cbn in Hn |- *.
    + injection Hn as ->. exists x. unfold cmp_le. by rewrite E.
    + assert (exists z, (w :: l) !! n = Some z) as [z Hz].
      { apply lookup_lt_is_Some. apply lookup_lt_Some in Hn. cbn. lia. }
      exists z. split; [done|]. destruct n as [|n]; cbn in Hz.
      * injection Hz as ->. rewrite Forall_forall in Hw. apply Hw. by apply list_elem_of_lookup_2 in Hn.
      * assert (Hll : StronglySorted (cmp_le cmp) (take (S n) l ++ drop (S n) l)) by (by rewrite take_drop).
        eapply (StronglySorted_app_1_elem_of (cmp_le cmp)); [exact Hll|..].
        { apply list_elem_of_lookup_2 with n. rewrite lookup_take_lt by lia. done. }
        { apply list_elem_of_lookup_2 with 0%nat. by rewrite lookup_drop, Nat.add_0_r. }
  - destruct n as [|n]; [naive_solver|]. cbn in Hn |- *. by apply IH.
Qed.

Lemma Forall2_in_r {A B} (P : A -> B -> Prop) l k y :
  Forall2 P l k -> y ∈ k -> exists x, x ∈ l /\ P x y.
Proof.
  induction 1 as [|x z l k Hxz _ IH]; [by intros ?%elem_of_nil|].
  intros [->|Hin]%elem_of_cons; [exists x; split; [by left|done]|].
  destruct (IH Hin) as (w & Hw & Hp). exists w. split; [by right|done].
Qed.

Lemma lenZ_app {A} (l k : list A) : lenZ (l ++ k) = lenZ l + lenZ k.
Proof. unfold lenZ. rewrite length_app. lia. Qed.
Lemma lenZ_fmap {A B} (f : A -> B) (l : list A) : lenZ (f <$> l) = lenZ l.
Proof. unfold lenZ. by rewrite length_fmap. Qed.

Lemma filter_filter_and {A} (f g : A -> bool) (l : list A) :
  List.filter f (List.filter g l) = List.filter (fun x => g x && f x) l.
Proof. induction l as [|x l IH]; cbn; [done|]. destruct (g x); cbn; by rewrite IH. Qed.
Lemma elem_of_List_filter {A} (f : A -> bool) x l : x ∈ List.filter f l <-> x ∈ l /\ f x = true.
Proof. rewrite !list_elem_of_In. apply List.filter_In. Qed.
Lemma NoDup_filter_bool {A} (P : A -> bool) (l : list A) : NoDup l -> NoDup (List.filter P l).
Proof. induction 1 as [|x l Hx Hnd IH]; cbn; [constructor|]. destruct (P x); [|done]. constructor; [|done]. intros [? _]%elem_of_List_filter. done. Qed.
Lemma length_omap_le {A B} (f : A -> option B) (l : list A) : (length (omap f l) <= length l)%nat.
Proof. induction l as [|x l IH]; cbn; [done|]. destruct (f x); cbn; lia. Qed.
