(* ===== verification/Bytes.v ===== *)
(** * Byte strings

    Rust's [str] and [Vec<u8>] as the database uses them: a [string] is the
    UTF-8 text byte by byte, [bytes] is a list of byte values. Slice order,
    prefixes, separators, UTF-8 validation and [char] classification. *)

From S2P Require Import Prelude.
From Stdlib Require Import Ascii.

Abbreviation bytes := (list Z).

(** [str::as_bytes] and back. *)
Definition byte_of (a : ascii) : Z := Z.of_N (N_of_ascii a).
Definition ascii_of (b : Z) : ascii := ascii_of_N (Z.to_N b).

Fixpoint str_bytes (s : string) : bytes :=
  match s with
  | EmptyString => []
  | String a s => byte_of a :: str_bytes s
  end.
Fixpoint bytes_str (b : bytes) : string :=
  match b with
  | [] => EmptyString
  | x :: b => String (ascii_of x) (bytes_str b)
  end.

(** A double quote, for the messages. *)
Definition quote : string := String (Ascii.ascii_of_nat 34) EmptyString.

(** [str::len] counts bytes. *)
Definition str_len (s : string) : Z := lenZ (str_bytes s).

(** [Ord] for slices and for [str]. *)
Definition bytes_cmp : bytes -> bytes -> comparison := lex_cmp Z.compare.
Definition str_cmp : string -> string -> comparison := cmp_on str_bytes bytes_cmp.

#[export] Instance bytes_cmp_order : CmpOrder bytes_cmp := _.
#[export] Instance str_cmp_order : CmpOrder str_cmp := _.

#[global] Arguments str_cmp : simpl never.

Definition bytes_ltb (a b : bytes) : bool :=
  match bytes_cmp a b with Lt => true | _ => false end.
Definition bytes_leb (a b : bytes) : bool :=
  match bytes_cmp a b with Gt => false | _ => true end.

(** [slice::starts_with] *)
Fixpoint starts_with (l p : bytes) : bool :=
  match p, l with
  | [], _ => true
  | _ :: _, [] => false
  | y :: p, x :: l => (x =? y) && starts_with l p
  end.

(** [iter().rposition(|&b| b == x)] split at the hit: what is before and what
    is after the last [x]. *)
Fixpoint rsplit_at (x : Z) (l : bytes) : option (bytes * bytes) :=
  match l with
  | [] => None
  | y :: l =>
      match rsplit_at x l with
      | Some (a, b) => Some (y :: a, b)
      | None => if y =? x then Some ([], l) else None
      end
  end.

(** [str::from_utf8]: the well-formed byte sequences of RFC 3629. *)
Definition utf8_cont (b : Z) : bool := (128 <=? b) && (b <=? 191).
Fixpoint utf8_valid (l : bytes) : bool :=
  match l with
  | [] => true
  | b0 :: l1 =>
      if (0 <=? b0) && (b0 <=? 127) then utf8_valid l1 else
      match l1 with
      | [] => false
      | b1 :: l2 =>
          if (194 <=? b0) && (b0 <=? 223) then utf8_cont b1 && utf8_valid l2 else
          match l2 with
          | [] => false
          | b2 :: l3 =>
              if (224 <=? b0) && (b0 <=? 239) then
                utf8_cont b1 && utf8_cont b2 &&
                implb (b0 =? 224) (160 <=? b1) && implb (b0 =? 237) (b1 <=? 159) &&
                utf8_valid l3
              else
              match l3 with
              | [] => false
              | b3 :: l4 =>
                  (240 <=? b0) && (b0 <=? 244) &&
                  utf8_cont b1 && utf8_cont b2 && utf8_cont b3 &&
                  implb (b0 =? 240) (144 <=? b1) && implb (b0 =? 244) (b1 <=? 143) &&
                  utf8_valid l4
              end
          end
      end
  end.
Definition from_utf8 (l : bytes) : option string :=
  if utf8_valid l then Some (bytes_str l) else None.

(** [char::is_control] on UTF-8 text: C0 and DEL are single bytes, the C1
    block U+0080..U+009F is [C2 80..9F]. *)
Fixpoint has_control (l : bytes) : bool :=
  match l with
  | [] => false
  | b :: l' =>
      (b <? 32) || (b =? 127) ||
      ((b =? 194) && match l' with b1 :: _ => (128 <=? b1) && (b1 <=? 159) | [] => false end) ||
      has_control l'
  end.

(** [str::split] on a one-byte separator, and [matches(c).count()]. *)
Fixpoint split_on (c : ascii) (s : string) : list string :=
  match s with
  | EmptyString => [EmptyString]
  | String a s =>
      if Ascii.eqb a c then EmptyString :: split_on c s
      else match split_on c s with
           | x :: l => String a x :: l
           | [] => [String a EmptyString]
           end
  end.
Fixpoint count_char (c : ascii) (s : string) : Z :=
  match s with
  | EmptyString => 0
  | String a s => (if Ascii.eqb a c then 1 else 0) + count_char c s
  end.

(** ** Facts *)

Lemma byte_of_range a : 0 <= byte_of a < 256.
Proof. unfold byte_of. pose proof (N_ascii_bounded a). lia. Qed.
Lemma ascii_of_byte_of a : ascii_of (byte_of a) = a.
Proof. unfold ascii_of, byte_of. rewrite N2Z.id. apply ascii_N_embedding. Qed.
Lemma byte_of_ascii_of b : 0 <= b < 256 -> byte_of (ascii_of b) = b.
Proof. intros. unfold ascii_of, byte_of. rewrite N_ascii_embedding; lia. Qed.
Lemma bytes_str_str_bytes s : bytes_str (str_bytes s) = s.
Proof. induction s as [|a s IH]; cbn; [done|]. by rewrite ascii_of_byte_of, IH. Qed.
#[export] Instance str_bytes_inj : Inj (=) (=) str_bytes.
Proof. intros s t H. rewrite <- (bytes_str_str_bytes s), H. apply bytes_str_str_bytes. Qed.
Lemma str_bytes_app a b : str_bytes (a +:+ b) = str_bytes a ++ str_bytes b.
Proof. induction a as [|x a IH]; [done|]. change (byte_of x :: str_bytes (a +:+ b) = byte_of x :: (str_bytes a ++ str_bytes b)). by rewrite IH. Qed.
Lemma str_bytes_range s : Forall (fun b => 0 <= b < 256) (str_bytes s).
Proof. induction s; cbn; constructor; [apply byte_of_range|done]. Qed.
Lemma str_bytes_bytes_str l :
  Forall (fun b => 0 <= b < 256) l -> str_bytes (bytes_str l) = l.
Proof. induction 1; cbn; [done|]. by rewrite byte_of_ascii_of, IHForall. Qed.

Lemma lex_cmp_eq (a b : bytes) : bytes_cmp a b = Eq <-> a = b.
Proof.
  revert b; induction a as [|x a IH]; intros [|y b]; cbn; try done.
  destruct (x ?= y) eqn:Hxy; cbn.
  - apply Z.compare_eq in Hxy as ->. rewrite IH. naive_solver.
  - split; [done|]. intros [= -> ->]. by rewrite Z.compare_refl in Hxy.
  - split; [done|]. intros [= -> ->]. by rewrite Z.compare_refl in Hxy.
Qed.
Lemma str_cmp_eq (a b : string) : str_cmp a b = Eq <-> a = b.
Proof. unfold str_cmp, cmp_on. rewrite lex_cmp_eq. split; [apply (inj str_bytes)|by intros ->]. Qed.

Lemma bytes_cmp_app p a b : bytes_cmp (p ++ a) (p ++ b) = bytes_cmp a b.
Proof. induction p as [|x p IH]; cbn; [done|]. by rewrite Z.compare_refl. Qed.

(** Two byte strings either diverge at a first position, or one extends the
    other. *)
Inductive lex_split : bytes -> bytes -> Prop :=
| lex_diverge p x y a b : x <> y -> lex_split (p ++ x :: a) (p ++ y :: b)
| lex_same p : lex_split p p
| lex_left p x a : lex_split (p ++ x :: a) p
| lex_right p y b : lex_split p (p ++ y :: b).
Lemma lex_split_total a b : lex_split a b.
Proof.
  revert b; induction a as [|x a IH]; intros [|y b].
  - apply (lex_same []).
  - apply (lex_right []).
  - apply (lex_left []).
  - destruct (decide (x = y)) as [->|Hne]; [|by apply (lex_diverge [])].
    destruct (IH b) as [p|p|p|p].
    + by apply (lex_diverge (y :: p)).
    + apply (lex_same (y :: p)).
    + apply (lex_left (y :: p)).
    + apply (lex_right (y :: p)).
Qed.

Lemma starts_with_spec l p : starts_with l p = true <-> exists r, l = p ++ r.
Proof.
  revert l; induction p as [|y p IH]; intros [|x l]; cbn; try naive_solver.
  rewrite andb_true_iff, Z.eqb_eq, IH. naive_solver.
Qed.
Lemma starts_with_app p r : starts_with (p ++ r) p = true.
Proof. apply starts_with_spec. eauto. Qed.

Lemma rsplit_at_app x a b :
  x ∉ b -> rsplit_at x (a ++ x :: b) = Some (a, b).
Proof.
  intros Hb. assert (Hn : rsplit_at x b = None).
  { induction b as [|y b IH]; cbn; [done|].
    apply not_elem_of_cons in Hb as [Hy Hb]. rewrite IH by done.
    destruct (Z.eqb_spec y x); congruence. }
  induction a as [|y a IH]; cbn; [by rewrite Hn, Z.eqb_refl|by rewrite IH].
Qed.

Lemma utf8_cont_lt b : utf8_cont b = true -> 0 <= b < 245.
Proof. unfold utf8_cont. lia. Qed.

(** UTF-8 text never contains a byte of 245 or more: what lets the index use
    [0xFF] as a sentinel above every id. *)
Lemma utf8_valid_bound l : utf8_valid l = true -> Forall (fun b => 0 <= b < 245) l.
Proof.
  revert l. fix IH 1. intros [|b0 l1]; [constructor|]. cbn [utf8_valid].
  destruct ((0 <=? b0) && (b0 <=? 127)) eqn:H0.
  { intros H. constructor; [lia|by apply IH]. }
  destruct l1 as [|b1 l2]; [done|].
  destruct ((194 <=? b0) && (b0 <=? 223)) eqn:H1.
  { intros [Hc H]%andb_prop. constructor; [lia|constructor; [by apply utf8_cont_lt|by apply IH]]. }
  destruct l2 as [|b2 l3]; [done|].
  destruct ((224 <=? b0) && (b0 <=? 239)) eqn:H2.
  { intros [Hc H]%andb_prop. repeat apply andb_prop in Hc as [Hc ?].
    repeat (constructor; [first [lia|by apply utf8_cont_lt]|]). by apply IH. }
  destruct l3 as [|b3 l4]; [done|].
  intros [Hc H]%andb_prop. repeat apply andb_prop in Hc as [Hc ?].
  repeat (constructor; [first [lia|by apply utf8_cont_lt]|]). by apply IH.
Qed.
