(* ===== verification/F64.v ===== *)
(** * IEEE 754 binary64 as the Rust code uses it

    An [f64] is its 64-bit pattern ([to_bits]). Comparison, subtraction,
    [abs], addition, division and the conversions from the integer types are
    the executable operations of the Standard Library's [SpecFloat];
    [total_cmp] is written out on the bits, as in [core]. *)

From S2P Require Import Prelude Bytes.
From Stdlib Require Import SpecFloat.

Definition f64 := Z.
Definition f64_wf (x : f64) : Prop := 0 <= x < 2 ^ 64.

Definition u64_max : Z := 2 ^ 64 - 1.
Definition wrap64 (x : Z) : Z := x mod 2 ^ 64.
Definition wrap32 (x : Z) : Z := x mod 2 ^ 32.
Definition as_i64 (x : Z) : Z := if x <? 2 ^ 63 then x else x - 2 ^ 64.
Definition not_u64 (x : Z) : Z := Z.lxor x (Z.ones 64).

(** ** Decoding and encoding *)

Definition f64_sign (x : f64) : bool := Z.testbit x 63.
Definition f64_exp (x : f64) : Z := Z.land (Z.shiftr x 52) 2047.
Definition f64_man (x : f64) : Z := Z.land x (Z.ones 52).

Definition f64_to_sf (x : f64) : spec_float :=
  let s := f64_sign x in
  let e := f64_exp x in
  let m := f64_man x in
  if e =? 2047 then if m =? 0 then S754_infinity s else S754_nan
  else if e =? 0 then
    match m with Zpos p => S754_finite s p (-1074) | _ => S754_zero s end
  else match m + 2 ^ 52 with Zpos p => S754_finite s p (e - 1075) | _ => S754_nan end.

Definition f64_of_sf (x : spec_float) : f64 :=
  match x with
  | S754_zero s => if s then 2 ^ 63 else 0
  | S754_infinity s => (if s then 2 ^ 63 else 0) + Z.shiftl 2047 52
  | S754_nan => Z.shiftl 4095 51
  | S754_finite s m e =>
      (if s then 2 ^ 63 else 0) +
      (if Zpos m <? 2 ^ 52 then Zpos m else Z.shiftl (e + 1075) 52 + (Zpos m - 2 ^ 52))
  end.

(** ** Operations *)

Definition f64_prec : Z := 53.
Definition f64_emax : Z := 1024.

Definition f64_add (x y : f64) : f64 :=
  f64_of_sf (SFadd f64_prec f64_emax (f64_to_sf x) (f64_to_sf y)).
Definition f64_sub (x y : f64) : f64 :=
  f64_of_sf (SFsub f64_prec f64_emax (f64_to_sf x) (f64_to_sf y)).
Definition f64_div (x y : f64) : f64 :=
  f64_of_sf (SFdiv f64_prec f64_emax (f64_to_sf x) (f64_to_sf y)).
(** [f64::abs] clears the sign bit. *)
Definition f64_abs (x : f64) : f64 := Z.land x (Z.ones 63).
(** [PartialOrd::partial_cmp]: [None] on a NaN. *)
Definition f64_partial_cmp (x y : f64) : option comparison :=
  SFcompare (f64_to_sf x) (f64_to_sf y).
Definition f64_lt (x y : f64) : bool :=
  match f64_partial_cmp x y with Some Lt => true | _ => false end.
Definition f64_eqb (x y : f64) : bool :=
  match f64_partial_cmp x y with Some Eq => true | _ => false end.

(** [n as f64] for an integer [n]: rounded to nearest, ties to even. *)
Definition int_as_f64 (n : Z) : f64 :=
  f64_of_sf (binary_normalize f64_prec f64_emax n 0 false).

(** [f64::EPSILON] is [2^-52]. *)
Definition f64_epsilon : f64 := Z.shiftl 971 52.
Definition f64_zero : f64 := 0.
Definition f64_one : f64 := Z.shiftl 1023 52.
Definition f64_minus_one : f64 := 2 ^ 63 + Z.shiftl 1023 52.
Definition f64_infinity : f64 := Z.shiftl 2047 52.
Definition f64_neg_infinity : f64 := 2 ^ 63 + Z.shiftl 2047 52.

(** [f64::total_cmp] as [core] writes it:
    [left ^= (((left >> 63) as u64) >> 1) as i64], then [i64::cmp]. *)
Definition f64_total_key (x : f64) : Z :=
  let l := as_i64 x in
  Z.lxor l (Z.shiftr (wrap64 (Z.shiftr l 63)) 1).
Definition f64_total_cmp (x y : f64) : comparison :=
  f64_total_key x ?= f64_total_key y.

(** [u64::to_be_bytes]: the [n] low bytes, most significant first. *)
Fixpoint be_bytes (n : nat) (x : Z) : bytes :=
  match n with
  | O => []
  | S n => be_bytes n (x / 256) ++ [x mod 256]
  end.
(** [u64::from_be_bytes] *)
Definition from_be_bytes (l : bytes) : Z := foldl (fun acc b => 256 * acc + b) 0 l.
(** [u32::to_le_bytes] *)
Definition le_bytes32 (x : Z) : bytes := rev (be_bytes 4 x).

(** ** Sanity checks against known patterns *)
Example epsilon_ok : f64_sub (f64_add f64_one f64_epsilon) f64_one = f64_epsilon.
Proof. vm_compute. reflexivity. Qed.
Example int_two_pow_53 : int_as_f64 (2 ^ 53 + 1) = int_as_f64 (2 ^ 53).
Proof. vm_compute. reflexivity. Qed.
Example int_minus_two : int_as_f64 (-2) = 2 ^ 63 + Z.shiftl 1024 52.
Proof. vm_compute. reflexivity. Qed.

(** ** Facts *)

Lemma lxor_ones n y : 0 < n -> 0 <= y < 2 ^ n -> Z.lxor y (Z.ones n) = Z.ones n - y.
Proof.
  intros Hn Hy. rewrite Z.sub_nocarry_ldiff.
  - apply Z.bits_inj'. intros i Hi. rewrite Z.lxor_spec, Z.ldiff_spec.
    destruct (Z.ltb_spec i n).
    + rewrite Z.ones_spec_low by lia. by destruct (Z.testbit y i).
    + rewrite Z.ones_spec_high by lia. cbn.
      destruct (Z.eq_dec y 0) as [->|]; [by rewrite Z.bits_0|].
      rewrite Z.bits_above_log2; [done|lia|].
      assert (Z.log2 y < n) by (apply Z.log2_lt_pow2; lia). lia.
  - rewrite Z.ldiff_ones_r_low; [done|lia|].
    destruct (Z.eq_dec y 0) as [->|Hy0]; [|apply Z.log2_lt_pow2; lia].
    cbn; lia.
Qed.

Lemma not_u64_spec x : f64_wf x -> not_u64 x = 2 ^ 64 - 1 - x.
Proof. intros H. unfold not_u64. rewrite lxor_ones by (unfold f64_wf in H; lia). by rewrite Z.ones_equiv. Qed.

Lemma lxor_bit63 x : 0 <= x < 2 ^ 63 -> Z.lxor x (2 ^ 63) = x + 2 ^ 63.
Proof.
  intros H. symmetry. apply Z.add_nocarry_lxor. apply Z.bits_inj'. intros i Hi.
  rewrite Z.land_spec, Z.bits_0, Z.pow2_bits_eqb by lia.
  destruct (Z.eqb_spec 63 i) as [<-|]; [|by rewrite andb_false_r].
  destruct (Z.eq_dec x 0) as [->|]; [by rewrite Z.bits_0|].
  rewrite Z.bits_above_log2; [done|lia|]. apply Z.log2_lt_pow2; lia.
Qed.

Lemma f64_sign_spec x : f64_wf x -> f64_sign x = (2 ^ 63 <=? x).
Proof.
  intros H. unfold f64_sign. rewrite Z.testbit_odd, Z.shiftr_div_pow2 by lia.
  unfold f64_wf in H. destruct (Z.leb_spec (2 ^ 63) x).
  - assert (x / 2 ^ 63 = 1) as -> by (symmetry; apply (Z.div_unique x (2^63) 1 (x - 2^63)); lia). done.
  - by rewrite Z.div_small by lia.
Qed.

Lemma f64_total_key_spec x : f64_wf x ->
  f64_total_key x = if 2 ^ 63 <=? x then 2 ^ 63 - 1 - x else x.
Proof.
  intros H. unfold f64_total_key, as_i64. unfold f64_wf in H.
  destruct (Z.leb_spec (2 ^ 63) x), (Z.ltb_spec x (2 ^ 63)); try lia; cbv zeta.
  - assert (Z.shiftr (x - 2 ^ 64) 63 = -1) as ->.
    { rewrite Z.shiftr_div_pow2 by lia. symmetry.
      apply (Z.div_unique _ (2^63) (-1) (x - 2^63)); lia. }
    change (Z.shiftr (wrap64 (-1)) 1) with (Z.ones 63).
    rewrite <- (Z.lnot_involutive (Z.lxor _ _)), Z.lnot_lxor_l.
    rewrite lxor_ones; rewrite ?Z.ones_equiv; unfold Z.lnot; lia.
  - rewrite (Z.shiftr_div_pow2 x) by lia. rewrite Z.div_small by lia.
    change (Z.shiftr (wrap64 0) 1) with 0. by rewrite Z.lxor_0_r.
Qed.

Lemma be_bytes_length n x : length (be_bytes n x) = n.
Proof.
  revert x; induction n as [|n IH]; intros x; cbn [be_bytes]; [done|].
  rewrite length_app, IH. cbn. lia.
Qed.
Lemma be_bytes_range n x : Forall (fun b => 0 <= b < 256) (be_bytes n x).
Proof.
  revert x; induction n as [|n IH]; intros x; cbn [be_bytes]; [constructor|].
  apply Forall_app; split; [apply IH|]. repeat constructor; by apply Z.mod_pos_bound.
Qed.

Lemma lex_cmp_snoc (a b : bytes) x y : length a = length b ->
  bytes_cmp (a ++ [x]) (b ++ [y]) = then_cmp (bytes_cmp a b) (x ?= y).
Proof.
  revert b; induction a as [|z a IH]; intros [|w b]; cbn; try done.
  - intros _. by destruct (x ?= y).
  - intros [= H]. rewrite IH by done. by destruct (z ?= w).
Qed.

Lemma compare_div_mod x y m : 0 < m ->
  (x ?= y) = then_cmp (x / m ?= y / m) (x mod m ?= y mod m).
Proof.
  intros Hm. pose proof (Z.div_mod x m ltac:(lia)). pose proof (Z.div_mod y m ltac:(lia)).
  pose proof (Z.mod_pos_bound x m Hm). pose proof (Z.mod_pos_bound y m Hm).
  destruct (Z.compare_spec (x / m) (y / m)) as [E|E|E]; cbn.
  - rewrite E in *. destruct (Z.compare_spec (x mod m) (y mod m)); first
      [apply Z.compare_eq_iff | apply Z.compare_lt_iff | apply Z.compare_gt_iff]; lia.
  - apply Z.compare_lt_iff. nia.
  - apply Z.compare_gt_iff. nia.
Qed.

(** Big-endian bytes of one width order like the numbers. *)
Lemma be_bytes_cmp n x y :
  0 <= x < 256 ^ Z.of_nat n -> 0 <= y < 256 ^ Z.of_nat n ->
  bytes_cmp (be_bytes n x) (be_bytes n y) = (x ?= y).
Proof.
  revert x y; induction n as [|n IH]; intros x y Hx Hy.
  - cbn in Hx, Hy. replace x with 0 by lia. by replace y with 0 by lia.
  - cbn [be_bytes]. rewrite lex_cmp_snoc by (by rewrite !be_bytes_length).
    rewrite (compare_div_mod x y 256) by lia. f_equal.
    rewrite Nat2Z.inj_succ, Z.pow_succ_r in Hx, Hy by lia.
    apply IH; split; first [apply Z.div_pos; lia | apply Z.div_lt_upper_bound; lia].
Qed.

Lemma from_be_bytes_be_bytes n x :
  0 <= x < 256 ^ Z.of_nat n -> from_be_bytes (be_bytes n x) = x.
Proof.
  unfold from_be_bytes.
  revert x; induction n as [|n IH]; intros x Hx.
  - cbn in Hx |- *. lia.
  - cbn [be_bytes]. rewrite foldl_app, IH; cbn.
    + pose proof (Z.div_mod x 256). lia.
    + rewrite Nat2Z.inj_succ, Z.pow_succ_r in Hx by lia.
      split; first [apply Z.div_pos; lia | apply Z.div_lt_upper_bound; lia].
Qed.

(** ** Partial and total comparison *)

(** Sign and magnitude: [x = (-1)^s] at bit 63, then the 63 low bits. *)
Definition f64_mag (x : f64) : Z := if 2 ^ 63 <=? x then x - 2 ^ 63 else x.
Definition f64_is_nan (x : f64) : bool := Z.shiftl 2047 52 <? f64_mag x.
Definition f64_is_zero (x : f64) : bool := f64_mag x =? 0.

Lemma f64_mag_range x : f64_wf x -> 0 <= f64_mag x < 2 ^ 63.
Proof. unfold f64_wf, f64_mag. destruct (Z.leb_spec (2 ^ 63) x); lia. Qed.
Lemma f64_key_mag x : f64_wf x ->
  f64_total_key x = if f64_sign x then -1 - f64_mag x else f64_mag x.
Proof.
  intros Hx. rewrite f64_total_key_spec, f64_sign_spec by done. unfold f64_mag.
  destruct (Z.leb_spec (2 ^ 63) x); lia.
Qed.

Lemma f64_fields x : f64_wf x ->
  f64_exp x = f64_mag x / 2 ^ 52 /\ f64_man x = f64_mag x mod 2 ^ 52.
Proof.
  intros Hx. unfold f64_exp, f64_man. change 2047 with (Z.ones 11).
  rewrite !Z.land_ones, Z.shiftr_div_pow2 by lia. unfold f64_mag, f64_wf in *.
  destruct (Z.leb_spec (2 ^ 63) x) as [H|H].
  - replace x with ((x - 2 ^ 63) + 2 ^ 11 * 2 ^ 52) at 1 3 by lia.
    rewrite Z.div_add, Z.mod_add by lia. split; [|done].
    replace ((x - 2 ^ 63) / 2 ^ 52 + 2 ^ 11) with ((x - 2 ^ 63) / 2 ^ 52 + 1 * 2 ^ 11) by lia.
    rewrite Z.mod_add by lia. apply Z.mod_small.
    split; [apply Z.div_pos; lia|apply Z.div_lt_upper_bound; lia].
  - split; [|done]. apply Z.mod_small.
    split; [apply Z.div_pos; lia|apply Z.div_lt_upper_bound; lia].
Qed.

(** The [spec_float] of a number that is not NaN, by its magnitude. *)
Inductive sf_view (s : bool) : Z -> spec_float -> Prop :=
| view_zero : sf_view s 0 (S754_zero s)
| view_inf : sf_view s (Z.shiftl 2047 52) (S754_infinity s)
| view_fin g m e : 0 < g < Z.shiftl 2047 52 ->
    (e = -1074 /\ g = Zpos m /\ g < 2 ^ 52 \/
     -1074 <= e /\ g = (e + 1075) * 2 ^ 52 + (Zpos m - 2 ^ 52) /\ 2 ^ 52 <= Zpos m < 2 ^ 53) ->
    sf_view s g (S754_finite s m e).

Lemma f64_to_sf_view x : f64_wf x -> f64_is_nan x = false ->
  sf_view (f64_sign x) (f64_mag x) (f64_to_sf x).
Proof.
  intros Hx. unfold f64_is_nan, f64_to_sf. destruct (f64_fields x Hx) as [-> ->].
  pose proof (f64_mag_range x Hx) as Hr. pose proof (Z.div_mod (f64_mag x) (2 ^ 52) ltac:(lia)) as Hdm.
  pose proof (Z.mod_pos_bound (f64_mag x) (2 ^ 52) ltac:(lia)) as Hm.
  change (Z.shiftl 2047 52) with (2047 * 2 ^ 52). intros Hn%Z.ltb_ge.
  set (g := f64_mag x) in *. set (e := g / 2 ^ 52) in *. set (m := g mod 2 ^ 52) in *.
  clearbody g e m. destruct (Z.eqb_spec e 2047) as [->|He].
  - assert (m = 0) as -> by lia. replace g with (Z.shiftl 2047 52) by (rewrite Hdm; reflexivity).
    constructor.
  - assert (e < 2047) by lia. destruct (Z.eqb_spec e 0) as [->|He0].
    + assert (g = m) as -> by lia. destruct m; [constructor| |lia].
      constructor; [change (Z.shiftl 2047 52) with (2047 * 2 ^ 52); lia|left; lia].
    + destruct (m + 2 ^ 52) eqn:E; [lia| |lia].
      constructor; [change (Z.shiftl 2047 52) with (2047 * 2 ^ 52); lia|right; lia].
Qed.

Lemma sf_fin_cmp g1 m1 e1 g2 m2 e2 s1 s2 :
  sf_view s1 g1 (S754_finite s1 m1 e1) -> sf_view s2 g2 (S754_finite s2 m2 e2) ->
  match e1 ?= e2 with Eq => Pos.compare_cont Eq m1 m2 | o => o end = (g1 ?= g2).
Proof.
  intros V1 V2. inversion V1 as [| |? ? ? _ F1]; inversion V2 as [| |? ? ? _ F2]; subst.
  change (Pos.compare_cont Eq m1 m2) with (Zpos m1 ?= Zpos m2).
  symmetry. destruct (Z.compare_spec e1 e2).
  - destruct (Z.compare_spec (Zpos m1) (Zpos m2)); first
      [apply Z.compare_eq_iff; lia|apply Z.compare_lt_iff; lia|apply Z.compare_gt_iff; lia].
  - apply Z.compare_lt_iff. lia.
  - apply Z.compare_gt_iff. lia.
Qed.

Ltac solve_compare :=
  symmetry; first [apply Z.compare_eq_iff; lia | apply Z.compare_lt_iff; lia | apply Z.compare_gt_iff; lia].

(** Away from NaN and from the two zeros, [partial_cmp] is [total_cmp]. *)
Lemma f64_partial_total x y :
  f64_wf x -> f64_wf y -> f64_is_nan x = false -> f64_is_nan y = false ->
  f64_is_zero x && f64_is_zero y = false ->
  f64_partial_cmp x y = Some (f64_total_cmp x y).
Proof.
  intros Hx Hy Nx Ny Hz. unfold f64_partial_cmp, f64_total_cmp.
  rewrite (f64_key_mag x), (f64_key_mag y) by done.
  pose proof (f64_to_sf_view x Hx Nx) as Vx. pose proof (f64_to_sf_view y Hy Ny) as Vy.
  unfold f64_is_zero in Hz. generalize dependent (f64_mag x). generalize dependent (f64_mag y).
  generalize (f64_sign x) (f64_sign y) (f64_to_sf x) (f64_to_sf y). clear.
  intros sx sy fx fy gy Vy gx Hz Vx.
  change (Z.shiftl 2047 52) with (2047 * 2 ^ 52) in *.
  destruct fx as [|s1| |s1 m1 e1]; [..|by inversion Vx|].
  3: destruct fy as [|s2| |s2 m2 e2]; [..|by inversion Vy|].
  5: { assert (s1 = sx) as -> by (by inversion Vx). assert (s2 = sy) as -> by (by inversion Vy).
       pose proof (sf_fin_cmp _ _ _ _ _ _ _ _ Vx Vy) as Hc.
       inversion Vx; inversion Vy; subst. cbn [SFcompare]. f_equal.
       destruct sx, sy; cycle 1; try solve_compare; [done|].
       replace (-1 - gx ?= -1 - gy) with (gy ?= gx)
         by (destruct (Z.compare_spec gy gx); solve_compare).
       rewrite (Z.compare_antisym gx gy), <- Hc. by destruct (e1 ?= e2). }
  all: try (destruct fy as [|s2| |s2 m2 e2]; [..|by inversion Vy|]).
  all: inversion Vx; inversion Vy; subst; cbn [SFcompare]; f_equal;
    try (by cbn in Hz); change (Z.shiftl 2047 52) with (2047 * 2 ^ 52) in *;
    repeat match goal with b : bool |- _ => destruct b end; try done; solve_compare.
Qed.
