(* ===== verification/Json.v ===== *)
(** * JSON values

    [serde_json::Value] as the database handles it. A JSON object is the
    [BTreeMap] serde_json uses without [preserve_order]: an association list
    in ascending key order. Everything serde_json computes (number
    conversions, text) is a parameter, gathered in the class [SerdeJson]; what
    the code relies on is stated in [SerdeLaws] or as a hypothesis where it is
    used. *)

From S2P Require Import Prelude Bytes F64.

(** A JSON number: an unsigned integer, a negative integer, or a float. *)
Inductive number :=
| PosInt (n : Z)
| NegInt (n : Z)
| Float (x : f64).

Inductive Value :=
| VNull
| VBool (b : bool)
| VNumber (n : number)
| VString (s : string)
| VArray (l : list Value)
| VObject (m : list (string * Value)).

Section Value_ind.
Context (P : Value -> Prop).
Context (Hnull : P VNull) (Hbool : forall b, P (VBool b)) (Hnum : forall n, P (VNumber n))
  (Hstr : forall s, P (VString s))
  (Harr : forall l, Forall P l -> P (VArray l))
  (Hobj : forall m, Forall (fun kv => P kv.2) m -> P (VObject m)).
Fixpoint Value_ind' (v : Value) : P v :=
  match v with
  | VNull => Hnull
  | VBool b => Hbool b
  | VNumber n => Hnum n
  | VString s => Hstr s
  | VArray l => Harr l ((fix go l : Forall P l :=
      match l with [] => @Forall_nil_2 _ _ | x :: l => @Forall_cons_2 _ _ _ _ (Value_ind' x) (go l) end) l)
  | VObject m => Hobj m ((fix go m : Forall (fun kv => P kv.2) m :=
      match m with
      | [] => @Forall_nil_2 _ _
      | kv :: m => @Forall_cons_2 _ (fun kv => P kv.2) kv m (Value_ind' kv.2) (go m)
      end) m)
  end.
End Value_ind.

(** Induction for functions that look through an array inside an object. *)
Lemma Value_ind_deep (Q : Value -> Prop) :
  (forall v, (forall m, v <> VObject m) -> Q v) ->
  (forall m, Forall (fun kv => Q kv.2 /\ forall l, kv.2 = VArray l -> Forall Q l) m -> Q (VObject m)) ->
  forall v, Q v.
Proof.
  intros Hother Hobj v.
  cut (Q v /\ forall l, v = VArray l -> Forall Q l); [by intros []|].
  induction v as [| | | |l IH|m IH] using Value_ind'; split; try done; try (by apply Hother).
  - intros ? [= <-]. eapply Forall_impl; [exact IH|]. by intros ? [].
  - by apply Hobj.
Qed.

(** ** Parameters: the serde_json functions the code calls *)

Class SerdeJson := {
  (** [Number::as_f64] (the bits), [as_u64], [from_f64], [PartialEq], [Display] *)
  num_as_f64 : number -> option f64;
  num_as_u64 : number -> option Z;
  num_from_f64 : f64 -> option number;
  num_eqb : number -> number -> bool;
  num_display : number -> string;
  (** [serde_json::to_string], [to_vec]: [None] is the error *)
  to_string : Value -> option string;
  to_vec : Value -> option bytes;
  (** [serde_json::from_str], [from_slice] *)
  from_str : string -> option Value;
  from_slice : bytes -> option Value;
}.

(** [as_f64] returns an [f64], [as_u64] a [u64], and an unsigned integer is
    its own [u64]. *)
Class SerdeLaws `{SerdeJson} : Prop := {
  num_as_f64_wf : forall n x, num_as_f64 n = Some x -> f64_wf x;
  num_as_u64_range : forall n x, num_as_u64 n = Some x -> 0 <= x < 2 ^ 64;
  num_as_u64_pos : forall n, 0 <= n < 2 ^ 64 -> num_as_u64 (PosInt n) = Some n;
}.

(** ** [serde_json::Map] *)

Fixpoint map_get (k : string) (m : list (string * Value)) : option Value :=
  match m with
  | [] => None
  | (k', v) :: m => if decide (k = k') then Some v else map_get k m
  end.
Fixpoint map_insert (k : string) (v : Value) (m : list (string * Value)) : list (string * Value) :=
  match m with
  | [] => [(k, v)]
  | (k', v') :: m' =>
      match str_cmp k k' with
      | Lt => (k, v) :: m
      | Eq => (k, v) :: m'
      | Gt => (k', v') :: map_insert k v m'
      end
  end.
Definition map_remove (k : string) (m : list (string * Value)) : list (string * Value) :=
  filter (fun kv => kv.1 <> k) m.

(** The [BTreeMap] invariant, at every level. *)
Definition keys_sorted (m : list (string * Value)) : Prop :=
  StronglySorted (fun a b => str_cmp a.1 b.1 = Lt) m.
Inductive value_wf : Value -> Prop :=
| wf_null : value_wf VNull
| wf_bool b : value_wf (VBool b)
| wf_num n : value_wf (VNumber n)
| wf_str s : value_wf (VString s)
| wf_arr l : Forall value_wf l -> value_wf (VArray l)
| wf_obj m : keys_sorted m -> Forall (fun kv => value_wf kv.2) m -> value_wf (VObject m).

(** ** [Value] accessors *)

Definition as_str (v : Value) : option string :=
  match v with VString s => Some s | _ => None end.
Definition as_bool (v : Value) : option bool :=
  match v with VBool b => Some b | _ => None end.
Definition as_array (v : Value) : option (list Value) :=
  match v with VArray l => Some l | _ => None end.
Definition as_object (v : Value) : option (list (string * Value)) :=
  match v with VObject m => Some m | _ => None end.
Definition is_null (v : Value) : bool := match v with VNull => true | _ => false end.
(** [Value::get] with a string index: [None] unless an object. *)
Definition get (v : Value) (k : string) : option Value :=
  match v with VObject m => map_get k m | _ => None end.

Section accessors.
Context `{SerdeJson}.
Definition as_f64 (v : Value) : option f64 :=
  match v with VNumber n => num_as_f64 n | _ => None end.
Definition as_u64 (v : Value) : option Z :=
  match v with VNumber n => num_as_u64 n | _ => None end.

(** [PartialEq for Value]: structural, numbers by their own equality. *)
Fixpoint value_eqb (a b : Value) : bool :=
  match a, b with
  | VNull, VNull => true
  | VBool x, VBool y => Bool.eqb x y
  | VNumber x, VNumber y => num_eqb x y
  | VString x, VString y => bool_decide (x = y)
  | VArray l, VArray k =>
      (fix go l k := match l, k with
       | [], [] => true
       | x :: l, y :: k => value_eqb x y && go l k
       | _, _ => false
       end) l k
  | VObject l, VObject k =>
      (fix go l k := match l, k with
       | [], [] => true
       | (a, x) :: l, (b, y) :: k => bool_decide (a = b) && value_eqb x y && go l k
       | _, _ => false
       end) l k
  | _, _ => false
  end.
End accessors.

(** ** Facts *)

Lemma map_get_insert_eq k v m : map_get k (map_insert k v m) = Some v.
Proof.
  induction m as [|[k' v'] m IH]; cbn; [by rewrite decide_True|].
  destruct (str_cmp k k') eqn:E; cbn; [by rewrite decide_True..|].
  rewrite decide_False; [done|]. intros ->. rewrite (cmp_refl str_cmp) in E. done.
Qed.
Lemma map_get_insert_ne k k' v m : k <> k' -> map_get k' (map_insert k v m) = map_get k' m.
Proof.
  intros Hne. induction m as [|[j w] m IH]; cbn; [by rewrite decide_False|].
  destruct (str_cmp k j) eqn:E; cbn.
  - apply str_cmp_eq in E as ->. by rewrite !decide_False.
  - by rewrite decide_False.
  - by rewrite IH.
Qed.
Lemma map_get_remove_eq k m : map_get k (map_remove k m) = None.
Proof.
  unfold map_remove. induction m as [|[j w] m IH]; [done|].
  rewrite filter_cons. cbn. destruct (decide (j <> k)) as [Hj|Hj]; cbn; [|done].
  by rewrite decide_False.
Qed.
Lemma map_get_remove_ne k k' m : k <> k' -> map_get k' (map_remove k m) = map_get k' m.
Proof.
  intros Hne. unfold map_remove. induction m as [|[j w] m IH]; [done|].
  rewrite filter_cons. cbn. destruct (decide (j <> k)) as [Hj|Hj]; cbn; [by rewrite IH|].
  assert (j = k) as -> by (by apply dec_stable). by rewrite decide_False.
Qed.
Lemma map_get_elem k v m : map_get k m = Some v -> (k, v) ∈ m.
Proof.
  induction m as [|[j w] m IH]; cbn; [done|].
  case_decide as E; [|by right; apply IH]. intros [= ->]. subst. by left.
Qed.
#[export] Hint Rewrite map_get_insert_eq map_get_remove_eq : json.
#[export] Hint Rewrite map_get_insert_ne map_get_remove_ne using congruence : json.

Lemma map_insert_hd k v m j :
  str_cmp j k = Lt -> Forall (fun kv => str_cmp j kv.1 = Lt) m ->
  Forall (fun kv => str_cmp j kv.1 = Lt) (map_insert k v m).
Proof.
  intros Hk. induction 1 as [|[k' v'] m Hm Hms IH]; cbn; [by repeat constructor|].
  destruct (str_cmp k k'); by repeat constructor.
Qed.
Lemma map_insert_sorted k v m : keys_sorted m -> keys_sorted (map_insert k v m).
Proof.
  unfold keys_sorted. induction 1 as [|[k' v'] m Hs IH Hh]; cbn; [by repeat constructor|].
  destruct (str_cmp k k') eqn:E.
  - apply str_cmp_eq in E as ->. by constructor.
  - constructor; [by constructor|]. constructor; [done|].
    eapply Forall_impl; [exact Hh|]. cbn. intros [j w] Hj. cbn in *.
    apply (cmp_lt_le_trans str_cmp _ k'); [done|by rewrite Hj].
  - constructor; [done|]. apply map_insert_hd; [|done]. by apply (cmp_gt_lt str_cmp).
Qed.
Lemma map_remove_sorted k m : keys_sorted m -> keys_sorted (map_remove k m).
Proof.
  unfold keys_sorted, map_remove. induction 1 as [|[k' v'] m Hs IH Hh]; [constructor|].
  rewrite filter_cons. case_decide; [|done]. constructor; [done|].
  rewrite Forall_forall in Hh |- *. intros x [_ Hx]%list_elem_of_filter. by apply Hh.
Qed.

(** ** Decidable equality and countability *)

#[export] Instance number_eq_dec : EqDecision number.
Proof. solve_decision. Defined.
#[export] Program Instance number_countable : Countable number :=
  inj_countable' (fun n => match n with PosInt n => inl (inl n) | NegInt n => inl (inr n) | Float x => inr x end)
    (fun s => match s with inl (inl n) => PosInt n | inl (inr n) => NegInt n | inr x => Float x end) _.
Next Obligation. by intros []. Qed.

Section countable.
(** A value as a tree: leaves carry scalars and object keys. *)
Definition leaf : Type := unit + bool + number + string.
Fixpoint value_tree (v : Value) : gen_tree leaf :=
  match v with
  | VNull => GenLeaf (inl (inl (inl tt)))
  | VBool b => GenLeaf (inl (inl (inr b)))
  | VNumber n => GenLeaf (inl (inr n))
  | VString s => GenLeaf (inr s)
  | VArray l => GenNode 0 (map value_tree l)
  | VObject m => GenNode 1 (map (fun kv => GenNode 2 [GenLeaf (inr kv.1); value_tree kv.2]) m)
  end.
Fixpoint tree_value (t : gen_tree leaf) : Value :=
  match t with
  | GenLeaf (inl (inl (inl _))) => VNull
  | GenLeaf (inl (inl (inr b))) => VBool b
  | GenLeaf (inl (inr n)) => VNumber n
  | GenLeaf (inr s) => VString s
  | GenNode 0 l => VArray (map tree_value l)
  | GenNode _ l => VObject (map (fun t =>
      match t with
      | GenNode _ [GenLeaf (inr k); t] => (k, tree_value t)
      | _ => (EmptyString, VNull)
      end) l)
  end.
Lemma tree_value_tree v : tree_value (value_tree v) = v.
Proof.
  induction v as [| | | |l IH|m IH] using Value_ind'; cbn; try done; f_equal.
  - induction IH as [|v l Hv Hl IHl]; cbn; [done|]. by rewrite Hv, IHl.
  - induction IH as [|[k v] m Hv Hm IHm]; cbn; [done|]. cbn in Hv. by rewrite Hv, IHm.
Qed.
End countable.
#[export] Instance value_tree_inj : Inj (=) (=) value_tree.
Proof. intros v w H. by rewrite <- (tree_value_tree v), H, tree_value_tree. Qed.
#[export] Instance Value_eq_dec : EqDecision Value := inj_eq_dec value_tree.
#[export] Program Instance Value_countable : Countable Value := inj_countable' value_tree tree_value _.
Next Obligation. apply tree_value_tree. Qed.
