(* ===== verification/Errors.v ===== *)
(** * The database's error type ([crates/wardsondb/src/error.rs])

    Every fallible operation returns [result AppError]; the HTTP layer maps an
    error to a status, a code and a message. *)

From S2P Require Import Prelude Bytes.

Inductive AppError :=
| CollectionNotFound (s : string)
| DocumentNotFound (s : string)
| CollectionExists (s : string)
| IndexExists (s : string)
| InvalidDocument (s : string)
| InvalidQuery (s : string)
| InvalidIndex (s : string)
| IndexNotFound (s : string)
| SchemaViolation (s : string)
| DocumentConflict (s : string)
| InvalidPipeline (s : string)
| DocumentTooLarge
| QueryTimeout (secs : Z)
| StoragePoisoned
| Internal (s : string).

(** The [thiserror] display of an error. *)
Definition app_error_display (e : AppError) : string :=
  match e with
  | CollectionNotFound s => "Collection not found: " +:+ s
  | DocumentNotFound s => "Document not found: " +:+ s
  | CollectionExists s => "Collection already exists: " +:+ s
  | IndexExists s => "Index already exists: " +:+ s
  | InvalidDocument s => "Invalid document: " +:+ s
  | InvalidQuery s => "Invalid query: " +:+ s
  | InvalidIndex s => "Invalid index: " +:+ s
  | IndexNotFound s => "Index not found: " +:+ s
  | SchemaViolation s => "Schema violation: " +:+ s
  | DocumentConflict s => "Document conflict: " +:+ s
  | InvalidPipeline s => "Invalid pipeline: " +:+ s
  | DocumentTooLarge => "Document too large"
  | QueryTimeout n => "Query exceeded timeout of " +:+ pretty n +:+ " seconds"
  | StoragePoisoned => "Storage engine poisoned: a fatal flush/compaction error occurred. Server must be restarted."
  | Internal s => "Internal error: " +:+ s
  end.

(** HTTP status and error code. *)
Definition status_and_code (e : AppError) : Z * string :=
  match e with
  | CollectionNotFound _ => (404, "COLLECTION_NOT_FOUND")
  | DocumentNotFound _ => (404, "DOCUMENT_NOT_FOUND")
  | CollectionExists _ => (409, "COLLECTION_EXISTS")
  | IndexExists _ => (409, "INDEX_EXISTS")
  | InvalidDocument _ => (400, "INVALID_DOCUMENT")
  | InvalidQuery _ => (400, "INVALID_QUERY")
  | InvalidIndex _ => (400, "INVALID_INDEX")
  | IndexNotFound _ => (404, "INDEX_NOT_FOUND")
  | SchemaViolation _ => (400, "SCHEMA_VIOLATION")
  | DocumentConflict _ => (409, "DOCUMENT_CONFLICT")
  | InvalidPipeline _ => (400, "INVALID_PIPELINE")
  | DocumentTooLarge => (413, "DOCUMENT_TOO_LARGE")
  | QueryTimeout _ => (408, "QUERY_TIMEOUT")
  | StoragePoisoned => (503, "STORAGE_POISONED")
  | Internal _ => (500, "INTERNAL_ERROR")
  end.

Abbreviation res := (result AppError).
