(* ===== verification/Externals.v ===== *)
(** * Third-party code as parameters

    The crates the database calls ([serde_json] is in [Json], [regex] and
    [base64] here) are type classes. The reference instances below are used by
    the witnesses only: they show that the classes and their laws can be
    inhabited by computable functions. *)

From S2P Require Import Prelude Bytes F64 Json.
From Stdlib Require Import Ascii.

(** The [regex] crate: compilation and matching. *)
Class RegexLib := {
  regex : Type;
  regex_new : string -> option regex;
  is_match : regex -> string -> bool;
}.

(** The [base64] engine [URL_SAFE_NO_PAD]. *)
Class Base64Lib := {
  base64_encode : bytes -> string;
  base64_decode : string -> option bytes;
}.
Class Base64Laws `{Base64Lib} : Prop := {
  base64_decode_encode : forall b, Forall (fun x => 0 <= x < 256) b ->
    base64_decode (base64_encode b) = Some b;
}.

(** ** Reference instances *)

Module Ref.
(** Any injective text will do for the witnesses: the value's code in
    binary. *)
Fixpoint pos_string (p : positive) : string :=
  match p with
  | xH => EmptyString
  | xO p => String "0"%char (pos_string p)
  | xI p => String "1"%char (pos_string p)
  end.
Fixpoint string_pos (s : string) : positive :=
  match s with
  | EmptyString => xH
  | String c s => if Ascii.eqb c "1"%char then xI (string_pos s) else xO (string_pos s)
  end.
Lemma string_pos_string p : string_pos (pos_string p) = p.
Proof. induction p; cbn; congruence. Qed.

Definition as_f64 (n : number) : f64 :=
  match n with PosInt n | NegInt n => wrap64 (int_as_f64 n) | Float x => wrap64 x end.
Definition finite (x : f64) : bool := negb (f64_exp x =? 2047).

#[export] Instance serde : SerdeJson := {
  num_as_f64 n := Some (as_f64 n);
  num_as_u64 n := match n with
    | PosInt n => if (0 <=? n) && (n <? 2 ^ 64) then Some n else None
    | _ => None end;
  num_from_f64 x := if finite x then Some (Float x) else None;
  num_eqb a b := match a, b with
    | PosInt x, PosInt y | NegInt x, NegInt y => x =? y
    | Float x, Float y => f64_eqb x y
    | _, _ => false end;
  num_display n := match n with PosInt n | NegInt n => pretty n | Float x => "f" +:+ pretty x end;
  to_string v := Some (pos_string (encode v));
  to_vec v := Some (str_bytes (pos_string (encode v)));
  from_str s := decode (string_pos s);
  from_slice b := decode (string_pos (bytes_str b));
}.
#[export] Instance serde_laws : SerdeLaws.
Proof.
  split.
  - intros n x [= <-]. unfold f64_wf, as_f64, wrap64. destruct n; by apply Z.mod_pos_bound.
  - intros [n|n|y] x; cbn; [|done..]. destruct (Z.leb_spec 0 n), (Z.ltb_spec n (2 ^ 64)); cbn; [|done..].
    intros [= <-]. lia.
  - intros n Hn. cbn. by rewrite (proj2 (Z.leb_le _ _)), (proj2 (Z.ltb_lt _ _)) by lia.
Qed.
Lemma from_slice_to_vec v b : to_vec v = Some b -> from_slice b = Some v.
Proof.
  intros [= <-]. cbn. by rewrite bytes_str_str_bytes, string_pos_string, decode_encode.
Qed.

(** Substring search stands in for regular expressions. *)
#[export] Instance regexes : RegexLib := {
  regex := string;
  regex_new s := Some s;
  is_match r s := match String.index 0 r s with Some _ => true | None => false end;
}.
#[export] Instance base64 : Base64Lib := {
  base64_encode := bytes_str;
  base64_decode s := Some (str_bytes s);
}.
#[export] Instance base64_laws : Base64Laws.
Proof. split. intros b Hb. cbn. by rewrite str_bytes_bytes_str. Qed.
End Ref.
