(* ===== verification/Filter.v ===== *)
(** * Query filters ([crates/wardsondb/src/query/filter.rs])

    The filter tree, its evaluation on a document, the dotted-path resolver
    and the parser from the JSON filter language. The [regex] crate is a
    parameter ([RegexLib]). The reference semantics [filter_sem] reads a JSON
    filter directly; [parse_filter_refines] relates the two. *)

From S2P Require Import Prelude Bytes F64 Json Errors Externals.
From Stdlib Require Import Ascii.

Definition MAX_FILTER_DEPTH : Z := 20.
Definition MAX_FILTER_BRANCHES : Z := 1000.
Definition MAX_REGEX_PATTERN_LEN : Z := 1024.
Definition MAX_DOT_DEPTH : Z := 20.

Definition dot : ascii := Ascii.ascii_of_nat 46.

Inductive FilterOp :=
| Eq_ | Ne | Gt_ | Gte | Lt_ | Lte | In | Nin | Exists_ | Regex_ | Contains.

Section filter.
Context `{SerdeJson} `{RegexLib}.

Inductive FilterNode :=
| Comparison (field : string) (op : FilterOp) (value : Value)
| Regex (field : string) (re : regex)
| And (nodes : list FilterNode)
| Or (nodes : list FilterNode)
| Not (node : FilterNode).

(** ** Path resolution *)

Fixpoint walk_path (i : Z) (segments : list string) (current : Value) : option Value :=
  match segments with
  | [] => Some current
  | segment :: segments =>
      if MAX_DOT_DEPTH <=? i then None
      else match get current segment with
           | None => None
           | Some v => walk_path (i + 1) segments v
           end
  end.
Definition resolve_json_path (doc : Value) (path : string) : option Value :=
  if count_char dot path =? 0 then get doc path
  else walk_path 0 (split_on dot path) doc.

Definition validate_path_depth (path : string) : res unit :=
  if MAX_DOT_DEPTH <=? count_char dot path then
    Err (InvalidQuery ("Field path depth exceeds maximum of " +:+ pretty MAX_DOT_DEPTH))
  else Ok tt.

(** ** Evaluation *)

Definition values_equal (a b : Value) : bool :=
  match a, b with
  | VNumber a, VNumber b =>
      match num_as_f64 a, num_as_f64 b with
      | Some af, Some bf => f64_lt (f64_abs (f64_sub af bf)) f64_epsilon
      | _, _ => num_eqb a b
      end
  | _, _ => value_eqb a b
  end.

Definition compare_values (a b : Value) : option comparison :=
  match a, b with
  | VNumber a, VNumber b =>
      match num_as_f64 a, num_as_f64 b with
      | Some af, Some bf => f64_partial_cmp af bf
      | _, _ => None
      end
  | VString a, VString b => Some (str_cmp a b)
  | VBool a, VBool b => Some (Bool.compare a b)
  | _, _ => None
  end.

Definition evaluate_op (op : FilterOp) (field_val : option Value) (operand : Value) : bool :=
  match op with
  | Exists_ =>
      let should_exist := default true (as_bool operand) in
      Bool.eqb (bool_decide (is_Some field_val)) should_exist
  | _ =>
      match field_val with
      | None => false
      | Some field_val =>
          match op with
          | Eq_ => values_equal field_val operand
          | Ne => negb (values_equal field_val operand)
          | Gt_ => match compare_values field_val operand with Some Gt => true | _ => false end
          | Gte => match compare_values field_val operand with Some (Gt | Eq) => true | _ => false end
          | Lt_ => match compare_values field_val operand with Some Lt => true | _ => false end
          | Lte => match compare_values field_val operand with Some (Lt | Eq) => true | _ => false end
          | In => match operand with
                  | VArray arr => existsb (fun v => values_equal field_val v) arr
                  | _ => false
                  end
          | Nin => match operand with
                   | VArray arr => negb (existsb (fun v => values_equal field_val v) arr)
                   | _ => true
                   end
          | Regex_ => false
          | Contains => match field_val with
                        | VArray arr => existsb (fun v => values_equal v operand) arr
                        | _ => false
                        end
          | Exists_ => false
          end
      end
  end.

Fixpoint matches (node : FilterNode) (doc : Value) : bool :=
  match node with
  | Comparison field op value => evaluate_op op (resolve_json_path doc field) value
  | Regex field re =>
      match resolve_json_path doc field with
      | Some (VString s) => is_match re s
      | _ => false
      end
  | And nodes => forallb (fun n => matches n doc) nodes
  | Or nodes => existsb (fun n => matches n doc) nodes
  | Not node => negb (matches node doc)
  end.

(** ** Parsing *)

Definition parse_op (op : string) : option FilterOp :=
  if decide (op = "$eq") then Some Eq_
  else if decide (op = "$ne") then Some Ne
  else if decide (op = "$gt") then Some Gt_
  else if decide (op = "$gte") then Some Gte
  else if decide (op = "$lt") then Some Lt_
  else if decide (op = "$lte") then Some Lte
  else if decide (op = "$in") then Some In
  else if decide (op = "$nin") then Some Nin
  else if decide (op = "$exists") then Some Exists_
  else if decide (op = "$regex") then Some Regex_
  else if decide (op = "$contains") then Some Contains
  else None.

Definition parse_field_op (field op : string) (operand : Value) : res FilterNode :=
  match parse_op op, operand with
  | Some Regex_, VString pat =>
      if MAX_REGEX_PATTERN_LEN <? str_len pat then
        Err (InvalidQuery ("Regex pattern exceeds maximum length of " +:+ pretty MAX_REGEX_PATTERN_LEN))
      else match regex_new pat with
           | Some re => Ok (Regex field re)
           | None => Err (InvalidQuery ("Invalid regex pattern: " +:+ pat))
           end
  | Some filter_op, _ => Ok (Comparison field filter_op operand)
  | None, _ => Err (InvalidQuery ("Unknown operator: " +:+ op))
  end.

Definition parse_field_filter (field : string) (value : Value) : res (list FilterNode) :=
  match value with
  | VObject ops => mapM (fun '(op, operand) => parse_field_op field op operand) ops
  | _ => Ok [Comparison field Eq_ value]
  end.

Definition combine_conditions (conditions : list FilterNode) : FilterNode :=
  match conditions with
  | [c] => c
  | _ => And conditions
  end.

(** The arms of [$and] and [$or], parsed one level deeper. *)
Definition parse_branches (parse : Value -> res FilterNode) (name : string) (value : Value)
    (mk : list FilterNode -> FilterNode) : res (list FilterNode) :=
  match value with
  | VArray arr =>
      if MAX_FILTER_BRANCHES <? lenZ arr then
        Err (InvalidQuery ("Filter branch count exceeds maximum of " +:+ pretty MAX_FILTER_BRANCHES))
      else
        let? nodes := mapM parse arr in
        Ok [mk nodes]
  | _ => Err (InvalidQuery (name +:+ " must be an array"))
  end.

Fixpoint parse_filter_node (filter : Value) (depth : Z) : res FilterNode :=
  if MAX_FILTER_DEPTH <? depth then
    Err (InvalidQuery ("Filter nesting depth exceeds maximum of " +:+ pretty MAX_FILTER_DEPTH))
  else
    match filter with
    | VObject obj =>
        let? conditions := mapM (fun '(key, value) =>
          if decide (key = "$and") then
            parse_branches (fun v => parse_filter_node v (depth + 1)) "$and" value And
          else if decide (key = "$or") then
            parse_branches (fun v => parse_filter_node v (depth + 1)) "$or" value Or
          else if decide (key = "$not") then
            let? node := parse_filter_node value (depth + 1) in Ok [Not node]
          else
            let? _ := validate_path_depth key in
            parse_field_filter key value) obj in
        Ok (combine_conditions (concat conditions))
    | _ => Err (InvalidQuery "Filter must be a JSON object")
    end.

Definition parse_filter (filter : Value) : res FilterNode := parse_filter_node filter 0.

(** ** Reference semantics of the JSON filter language *)

Definition op_sem (op : string) (operand : Value) (field_val : option Value) : bool :=
  match parse_op op, operand with
  | Some Regex_, VString pat =>
      match regex_new pat, field_val with
      | Some re, Some (VString s) => is_match re s
      | _, _ => false
      end
  | Some o, _ => evaluate_op o field_val operand
  | None, _ => false
  end.
Definition field_sem (value : Value) (field_val : option Value) : bool :=
  match value with
  | VObject ops => forallb (fun '(op, operand) => op_sem op operand field_val) ops
  | _ => evaluate_op Eq_ field_val value
  end.
Fixpoint filter_sem (doc filter : Value) : bool :=
  match filter with
  | VObject obj =>
      forallb (fun '(key, value) =>
        if decide (key = "$and") then
          match value with VArray arr => forallb (filter_sem doc) arr | _ => false end
        else if decide (key = "$or") then
          match value with VArray arr => existsb (filter_sem doc) arr | _ => false end
        else if decide (key = "$not") then negb (filter_sem doc value)
        else field_sem value (resolve_json_path doc key)) obj
  | _ => false
  end.

(** Nesting of a filter tree: the recursion depth of [matches]. *)
Fixpoint node_depth (n : FilterNode) : nat :=
  match n with
  | Comparison _ _ _ | Regex _ _ => 1
  | And ns | Or ns => S (list_max (map node_depth ns))
  | Not n => S (node_depth n)
  end.
End filter.
Arguments FilterNode {_}.

(** ** Helper lemmas *)

Lemma count_char_nonneg c s : 0 <= count_char c s.
Proof. induction s as [|a s IH]; cbn [count_char]; [done|]. destruct (Ascii.eqb a c); lia. Qed.
Lemma split_on_no_char c s : count_char c s = 0 -> split_on c s = [s].
Proof.
  induction s as [|a s IH]; cbn [count_char split_on]; [done|]. intros Hc.
  pose proof (count_char_nonneg c s).
  destruct (Ascii.eqb a c); [lia|]. by rewrite IH by lia.
Qed.
Lemma length_split_on c s : lenZ (split_on c s) = count_char c s + 1.
Proof.
  unfold lenZ. induction s as [|a s IH]; cbn [count_char split_on]; [done|].
  pose proof (count_char_nonneg c s).
  destruct (Ascii.eqb a c); cbn [length]; [lia|].
  destruct (split_on c s); cbn [length] in *; lia.
Qed.
Lemma concat_forallb {A} (p : A -> bool) (l : list (list A)) :
  forallb p (concat l) = forallb (forallb p) l.
Proof. induction l as [|x l IH]; cbn; [done|]. by rewrite forallb_app, IH. Qed.
Lemma Forall2_forallb {A B} (f : A -> bool) (g : B -> bool) l k :
  Forall2 (fun x y => f x = g y) l k -> forallb f l = forallb g k.
Proof. induction 1; cbn; congruence. Qed.
Lemma Forall2_existsb {A B} (f : A -> bool) (g : B -> bool) l k :
  Forall2 (fun x y => f x = g y) l k -> existsb f l = existsb g k.
Proof. induction 1; cbn; congruence. Qed.
Section filter_facts.
Context `{SerdeJson} `{RegexLib}.

(** Following a dotted path with no depth limit. *)
Definition walk_unbounded (segments : list string) (doc : Value) : option Value :=
  foldl (fun o seg => o ≫= (fun v => get v seg)) (Some doc) segments.

Lemma walk_unbounded_None segs :
  foldl (fun o seg => o ≫= (fun v => get v seg)) None segs = None.
Proof. by induction segs. Qed.

Lemma walk_path_unbounded i segs doc :
  i + lenZ segs <= MAX_DOT_DEPTH -> walk_path i segs doc = walk_unbounded segs doc.
Proof.
  unfold walk_unbounded, lenZ.
  revert i doc; induction segs as [|seg segs IH]; intros i doc Hi; cbn in *; [done|].
  destruct (Z.leb_spec MAX_DOT_DEPTH i); [lia|].
  destruct (get doc seg) as [v|]; [apply IH; lia|by rewrite walk_unbounded_None].
Qed.

Lemma resolve_walk doc path :
  resolve_json_path doc path = walk_path 0 (split_on dot path) doc.
Proof.
  unfold resolve_json_path. destruct (Z.eqb_spec (count_char dot path) 0) as [E|]; [|done].
  rewrite (split_on_no_char _ _ E). cbn. by destruct (get doc path).
Qed.

Lemma parse_field_op_sem field op operand n doc :
  parse_field_op field op operand = Ok n ->
  matches n doc = op_sem op operand (resolve_json_path doc field).
Proof.
  unfold parse_field_op, op_sem.
  destruct (parse_op op) as [o|]; [|done].
  destruct o; try (intros [= <-]; cbn; done).
  destruct operand; try (intros [= <-]; cbn; done).
  destruct (Z.ltb _ _); [done|]. destruct (regex_new s); intros [= <-]. cbn.
  by destruct (resolve_json_path doc field) as [[]|].
Qed.

Lemma parse_field_filter_sem field value ns doc :
  parse_field_filter field value = Ok ns ->
  forallb (fun n => matches n doc) ns = field_sem value (resolve_json_path doc field).
Proof.
  unfold parse_field_filter, field_sem.
  destruct value; try (intros [= <-]; cbn; by rewrite andb_true_r).
  intros HF%mapM_ok_Forall2. symmetry. apply Forall2_forallb.
  eapply Forall2_impl; [exact HF|]. intros [op operand] n Hn. symmetry. by apply parse_field_op_sem.
Qed.

(** One entry of a filter object, as the parser reads it. *)
Definition entry_sem (doc : Value) (kv : string * Value) : bool :=
  let '(key, value) := kv in
  if decide (key = "$and") then
    match value with VArray arr => forallb (filter_sem doc) arr | _ => false end
  else if decide (key = "$or") then
    match value with VArray arr => existsb (filter_sem doc) arr | _ => false end
  else if decide (key = "$not") then negb (filter_sem doc value)
  else field_sem value (resolve_json_path doc key).
Lemma filter_sem_object doc obj : filter_sem doc (VObject obj) = forallb (entry_sem doc) obj.
Proof. done. Qed.

Lemma conditions_match (cs : list FilterNode) doc :
  matches (combine_conditions cs) doc = forallb (fun n => matches n doc) cs.
Proof. destruct cs as [|c [|]]; cbn; by rewrite ?andb_true_r. Qed.
Lemma conditions_depth (cs : list FilterNode) :
  (node_depth (combine_conditions cs) <= S (list_max (map node_depth cs)))%nat.
Proof. destruct cs as [|c [|]]; cbn; lia. Qed.
End filter_facts.

Section parse_facts.
Context `{SerdeJson} `{RegexLib}.

Lemma branches_ok parse name value (mk : list FilterNode -> FilterNode) ns :
  parse_branches parse name value mk = Ok ns ->
  exists arr nodes, value = VArray arr /\ lenZ arr <= MAX_FILTER_BRANCHES /\
    Forall2 (fun v n => parse v = Ok n) arr nodes /\ ns = [mk nodes].
Proof.
  destruct value; try done. unfold parse_branches.
  destruct (Z.ltb_spec MAX_FILTER_BRANCHES (lenZ l)); [done|].
  intros (nodes & HF & [= <-])%bind_ok. apply mapM_ok_Forall2 in HF. eauto 10.
Qed.
Lemma branches_err parse name value (mk : list FilterNode -> FilterNode) e :
  (forall arr v e, value = VArray arr -> v ∈ arr -> parse v = Err e -> exists m, e = InvalidQuery m) ->
  parse_branches parse name value mk = Err e -> exists m, e = InvalidQuery m.
Proof.
  intros Hp. destruct value; try (intros [= <-]; by eauto). unfold parse_branches.
  destruct (Z.ltb _ _); [intros [= <-]; by eauto|].
  destruct (mapM parse l) as [|e'] eqn:HF; cbn; [done|]. intros [= ->].
  apply mapM_err in HF as (v & Hv & Hpv). by eapply Hp.
Qed.

Lemma Forall_Forall2_impl {A B} (P : A -> Prop) (Q R : A -> B -> Prop) l k :
  Forall P l -> Forall2 Q l k -> (forall x y, P x -> Q x y -> R x y) -> Forall2 R l k.
Proof. intros HP HQ HR. revert HP. induction HQ; inversion 1; subst; constructor; auto. Qed.

Lemma parse_filter_node_sem doc filter : forall depth n,
  parse_filter_node filter depth = Ok n -> matches n doc = filter_sem doc filter.
Proof.
  induction filter as [v Hv|obj IH] using Value_ind_deep; intros depth n.
  { destruct v; cbn; try (by destruct (MAX_FILTER_DEPTH <? depth)). by edestruct Hv. }
  cbn [parse_filter_node]. destruct (MAX_FILTER_DEPTH <? depth); [done|].
  intros (conds & HF & [= <-])%bind_ok. apply mapM_ok_Forall2 in HF.
  rewrite filter_sem_object, conditions_match, concat_forallb. symmetry.
  apply Forall2_forallb. eapply Forall_Forall2_impl; [exact IH|exact HF|].
  intros [key value] cs [IHv IHarr]. cbn in IHv, IHarr. unfold entry_sem. repeat case_decide.
  - intros (arr & nodes & -> & _ & HF' & ->)%branches_ok. cbn. rewrite andb_true_r.
    apply Forall2_forallb. eapply Forall_Forall2_impl; [by apply IHarr|exact HF'|].
    intros v m IHm Hm. symmetry. exact (IHm _ _ Hm).
  - intros (arr & nodes & -> & _ & HF' & ->)%branches_ok. cbn. rewrite andb_true_r.
    apply Forall2_existsb. eapply Forall_Forall2_impl; [by apply IHarr|exact HF'|].
    intros v m IHm Hm. symmetry. exact (IHm _ _ Hm).
  - intros (m & Hm & [= <-])%bind_ok. cbn. rewrite andb_true_r. f_equal.
    symmetry. exact (IHv _ _ Hm).
  - intros (_ & _ & Hf)%bind_ok. symmetry. by apply parse_field_filter_sem.
Qed.

Lemma parse_field_op_depth field op operand n :
  parse_field_op field op operand = Ok n -> node_depth n = 1%nat.
Proof. unfold parse_field_op. repeat case_match; intros [= <-]; done. Qed.
Lemma parse_field_filter_depth field value ns :
  parse_field_filter field value = Ok ns -> Forall (fun n => node_depth n = 1%nat) ns.
Proof.
  unfold parse_field_filter. destruct value; try (intros [= <-]; by repeat constructor).
  intros HF%mapM_ok_Forall2. induction HF as [|[op operand] n l k Hn HF IH]; constructor; [|done].
  by eapply parse_field_op_depth.
Qed.

Lemma list_max_repeat l k : Forall (fun x => x <= k)%nat l -> (list_max l <= k)%nat.
Proof. apply List.list_max_le. Qed.

Lemma parse_filter_node_depth filter : forall depth n,
  parse_filter_node filter depth = Ok n ->
  Z.of_nat (node_depth n) <= 2 * (MAX_FILTER_DEPTH + 1 - depth).
Proof.
  induction filter as [v Hv|obj IH] using Value_ind_deep; intros depth n.
  { destruct v; cbn; try (by destruct (MAX_FILTER_DEPTH <? depth)). by edestruct Hv. }
  cbn [parse_filter_node]. destruct (Z.ltb_spec MAX_FILTER_DEPTH depth) as [|Hd]; [done|].
  intros (conds & HF & [= <-])%bind_ok. apply mapM_ok_Forall2 in HF.
  pose proof (conditions_depth (concat conds)) as Hn.
  set (k := Z.to_nat (2 * (MAX_FILTER_DEPTH + 1 - depth) - 1)).
  enough (Forall (fun m => node_depth m <= k)%nat (concat conds)) as Hk.
  { assert (list_max (map node_depth (concat conds)) <= k)%nat.
    { apply list_max_repeat. by apply Forall_fmap. }
    unfold k in *. lia. }
  assert (Hsub : forall ns, Forall (fun m => Z.of_nat (node_depth m) <= 2 * (MAX_FILTER_DEPTH + 1 - (depth + 1))) ns ->
    (S (list_max (map node_depth ns)) <= k)%nat).
  { intros ns Hns. assert (list_max (map node_depth ns) <= k - 1)%nat; [|unfold k in *; lia].
    apply list_max_repeat, Forall_fmap. eapply Forall_impl; [exact Hns|]. cbn. unfold k. lia. }
  clear Hn. induction HF as [|[key value] cs obj conds Hkv HF IHF]; cbn; [constructor|].
  inversion IH as [|? ? [IHv IHarr] IHobj]; subst. cbn in IHv, IHarr.
  apply Forall_app; split; [|by apply IHF]. clear IHF IHobj IH HF.
  repeat case_decide.
  - apply branches_ok in Hkv as (arr & nodes & -> & _ & HF & ->).
    repeat constructor. cbn [node_depth]. apply Hsub.
    specialize (IHarr _ eq_refl). clear -IHarr HF.
    induction HF; inversion IHarr; subst; constructor; eauto.
  - apply branches_ok in Hkv as (arr & nodes & -> & _ & HF & ->).
    repeat constructor. cbn [node_depth]. apply Hsub.
    specialize (IHarr _ eq_refl). clear -IHarr HF.
    induction HF; inversion IHarr; subst; constructor; eauto.
  - apply bind_ok in Hkv as (m & Hm & [= <-]). repeat constructor.
    apply IHv in Hm. cbn. unfold k. lia.
  - apply bind_ok in Hkv as (_ & _ & Hf). apply parse_field_filter_depth in Hf.
    eapply Forall_impl; [exact Hf|]. intros m ->. unfold k. lia.
Qed.

Lemma parse_filter_node_err filter : forall depth e,
  parse_filter_node filter depth = Err e -> exists m, e = InvalidQuery m.
Proof.
  induction filter as [v Hv|obj IH] using Value_ind_deep; intros depth e.
  { destruct v; cbn; try (destruct (MAX_FILTER_DEPTH <? depth); intros [= <-]; eauto). by edestruct Hv. }
  cbn [parse_filter_node]. destruct (MAX_FILTER_DEPTH <? depth); [intros [= <-]; eauto|].
  destruct (mapM _ obj) as [conds|e'] eqn:HF; cbn.
  { done. }
  intros [= ->]. apply mapM_err in HF as ([key value] & Hin & Hkv).
  rewrite Forall_forall in IH. destruct (IH _ Hin) as [IHv IHarr]. cbn [snd] in IHv, IHarr.
  assert (Harr : forall arr v e, value = VArray arr -> v ∈ arr ->
    parse_filter_node v (depth + 1) = Err e -> exists m, e = InvalidQuery m).
  { intros arr v e' -> Hv Hpv. specialize (IHarr _ eq_refl).
    rewrite Forall_forall in IHarr. by eapply IHarr. }
  repeat case_decide; [exact (branches_err _ _ _ _ _ Harr Hkv)..| |].
  - destruct (parse_filter_node value (depth + 1)) eqn:Hp; cbn in Hkv; [done|].
    simplify_eq. by eapply IHv.
  - unfold validate_path_depth in Hkv. destruct (MAX_DOT_DEPTH <=? _); cbn in Hkv; [simplify_eq; eauto|].
    unfold parse_field_filter in Hkv. destruct value; try done.
    apply mapM_err in Hkv as ([op operand] & _ & Hop). unfold parse_field_op in Hop.
    repeat case_match; simplify_eq; eauto.
Qed.
End parse_facts.

(** ** Properties *)

Section filter_properties.
Context `{SerdeJson} `{RegexLib}.

(** C39: the parser implements the filter language: when [parse_filter]
    accepts a JSON filter, evaluating the tree it built on any document gives
    exactly the reference meaning of the JSON text ([filter_sem]): a
    conjunction over the object's entries, [$and]/[$or]/[$not] by their
    arms, any other key a dotted path with its operators. *)
Theorem parse_filter_refines (filter : Value) (n : FilterNode) :
  parse_filter filter = Ok n -> forall doc, matches n doc = filter_sem doc filter.
Proof. intros Hp doc. by apply (parse_filter_node_sem doc filter 0). Qed.

(** every filter parses to a tree of bounded depth or is refused with a
    client error: the tree [matches] recurses on is at most 42 deep (two
    levels per JSON level, 21 levels), and the only error is
    [InvalidQuery], HTTP 400. *)
Theorem parse_filter_bounded (filter : Value) :
  match parse_filter filter with
  | Ok n => (node_depth n <= 42)%nat
  | Err e => status_and_code e = (400, "INVALID_QUERY")
  end.
Proof.
  destruct (parse_filter filter) as [n|e] eqn:Hp.
  - apply parse_filter_node_depth in Hp. unfold MAX_FILTER_DEPTH in Hp. lia.
  - apply parse_filter_node_err in Hp as [m ->]. done.
Qed.

(** A path that passed [validate_path_depth] is followed segment by
    segment to its end: the depth cut-off inside [resolve_json_path] never
    hides a value of a validated path. *)
Theorem validated_path_resolves (path : string) :
  validate_path_depth path = Ok () ->
  forall doc, resolve_json_path doc path = walk_unbounded (split_on dot path) doc.
Proof.
  unfold validate_path_depth. destruct (Z.leb_spec MAX_DOT_DEPTH (count_char dot path)) as [|Hd]; [done|].
  intros _ doc. rewrite resolve_walk. apply walk_path_unbounded. rewrite length_split_on. lia.
Qed.
End filter_properties.

(** ** Witnesses *)

Import Ref.

Definition example_filter : Value :=
  VObject [("$or", VArray [VObject [("a.b", VObject [("$gte", VNumber (PosInt 3))])];
                           VObject [("name", VObject [("$regex", VString "em")])]])].
Definition example_doc : Value := VObject [("a", VObject [("b", VNumber (PosInt 4))])].

Lemma parse_filter_refines_witness :
  match parse_filter example_filter with
  | Ok n => matches n example_doc = true
  | Err _ => False
  end.
Proof.
  destruct (parse_filter example_filter) as [n|e] eqn:Hp; [|vm_compute in Hp; discriminate Hp].
  rewrite (parse_filter_refines example_filter n Hp example_doc). vm_compute. reflexivity.
Defined.

Lemma validated_path_resolves_witness :
  resolve_json_path example_doc "a.b" = Some (VNumber (PosInt 4)).
Proof.
  rewrite (validated_path_resolves "a.b"); [vm_compute; reflexivity|vm_compute; reflexivity].
Defined.
