(* ===== verification/Secondary.v ===== *)
(** * Secondary index keys ([crates/wardsondb/src/index/secondary.rs])

    The order-preserving byte encoding of JSON values, the database's one
    total order over values, index keys, and the byte windows that equality
    and range scans read. *)

From S2P Require Import Prelude Bytes F64 Json Externals.

Record IndexDef := {
  idx_name : string;
  idx_collection : string;
  idx_fields : list string;
  idx_created_at : string;
  idx_field : string;
}.

Definition IndexDef_new (name collection : string) (fields : list string) (created_at : string) : IndexDef :=
  {| idx_name := name; idx_collection := collection; idx_fields := fields;
     idx_field := default EmptyString (head fields); idx_created_at := created_at |}.

Definition is_compound (d : IndexDef) : bool := 1 <? lenZ (idx_fields d).

(** The type prefix byte. *)
Definition type_prefix_byte (v : Value) : Z :=
  match v with
  | VNull => 0
  | VBool false => 1
  | VBool true => 2
  | VNumber _ => 3
  | VString _ => 4
  | VArray _ | VObject _ => 5
  end.

Section encoding.
Context `{SerdeJson}.

(** [serde_json::to_string(v).unwrap_or_default()] *)
Definition json_text (v : Value) : string := default EmptyString (to_string v).
(** [n.as_f64().unwrap_or(0.0)] *)
Definition num_f64 (n : number) : f64 := default f64_zero (num_as_f64 n).

(** The sign-flip transform: the bits order like the floats. *)
Definition sortable_bits (bits : f64) : Z :=
  if f64_sign bits then not_u64 bits else Z.lxor bits (2 ^ 63).

Definition value_to_sortable_bytes_append (value : Value) (out : bytes) : bytes :=
  match value with
  | VNull => out ++ [0]
  | VBool false => out ++ [1]
  | VBool true => out ++ [2]
  | VNumber n => (out ++ [3]) ++ be_bytes 8 (sortable_bits (num_f64 n))
  | VString s => (out ++ [4]) ++ str_bytes s
  | other => (out ++ [5]) ++ str_bytes (json_text other)
  end.
Definition value_to_sortable_bytes (value : Value) : bytes :=
  value_to_sortable_bytes_append value [].

Definition compare_values_total (a b : Value) : comparison :=
  match a, b with
  | VNull, VNull => Eq
  | VBool x, VBool y => Bool.compare x y
  | VNumber x, VNumber y => f64_total_cmp (num_f64 x) (num_f64 y)
  | VString x, VString y => str_cmp x y
  | (VArray _ | VObject _), (VArray _ | VObject _) => str_cmp (json_text a) (json_text b)
  | _, _ => type_prefix_byte a ?= type_prefix_byte b
  end.

(** ** Keys *)

(** [out] is cleared first: the buffer is only reused storage. *)
Definition make_index_key_into (value : Value) (doc_id : string) (out : bytes) : bytes :=
  let out := value_to_sortable_bytes_append value [] in
  let out := out ++ [0] in
  out ++ str_bytes doc_id.
Definition make_index_key (value : Value) (doc_id : string) : bytes :=
  make_index_key_into value doc_id [].

Fixpoint compound_fields_append (i : nat) (values : list Value) (out : bytes) : bytes :=
  match values with
  | [] => out
  | value :: values =>
      let out := if (0 <? Z.of_nat i) then out ++ [1] else out in
      compound_fields_append (S i) values (value_to_sortable_bytes_append value out)
  end.
Definition make_compound_index_key_into (values : list Value) (doc_id : string) (out : bytes) : bytes :=
  let out := compound_fields_append 0 values [] in
  let out := out ++ [0] in
  out ++ str_bytes doc_id.
Definition make_compound_index_key (values : list Value) (doc_id : string) : bytes :=
  make_compound_index_key_into values doc_id [].

(** ** Decoding *)

Definition decode_sortable_bytes (b : bytes) : option Value :=
  match b with
  | [] => None
  | t :: rest =>
      if t =? 0 then Some VNull
      else if t =? 1 then Some (VBool false)
      else if t =? 2 then Some (VBool true)
      else if t =? 3 then
        if lenZ b <? 9 then None
        else
          let sortable := from_be_bytes (take 8 rest) in
          let bits :=
            if negb (Z.land sortable (2 ^ 63) =? 0) then Z.lxor sortable (2 ^ 63)
            else not_u64 sortable in
          VNumber <$> num_from_f64 bits
      else if t =? 4 then VString <$> from_utf8 rest
      else if t =? 5 then s ← from_utf8 rest; from_str s
      else None
  end.
End encoding.

(** Everything after the last NUL, if it is not empty and is UTF-8. *)
Definition extract_doc_id_from_key (key : bytes) : option string :=
  match rsplit_at 0 key with
  | Some (_, []) => None
  | Some (_, id) => from_utf8 id
  | None => None
  end.

(** ** Scan windows *)

(** The [while let Some(last)] loop, on the reversed prefix. *)
Fixpoint successor_rev (r : bytes) : option bytes :=
  match r with
  | [] => None
  | last :: r => if last =? 255 then successor_rev r else Some (last + 1 :: r)
  end.
Definition prefix_successor (prefix : bytes) : bytes :=
  match successor_rev (reverse prefix) with
  | Some p => reverse p
  | None => replicate (length prefix + 1) 255
  end.

Definition type_bracket (first_byte : Z) : option (Z * Z) :=
  if (first_byte =? 1) || (first_byte =? 2) then Some (1, 3)
  else if first_byte =? 3 then Some (3, 4)
  else if first_byte =? 4 then Some (4, 5)
  else None.

Inductive RangeScanBounds :=
| RangeEmpty
| RangeSpan (start : bytes) (end_ : bytes).

Definition bracket_of (bound : option (bytes * bool)) : option (option (Z * Z)) :=
  (fun '(b, _) => head b ≫= type_bracket) <$> bound.

Definition range_start (prefix : bytes) (lower : option (bytes * bool)) (bracket : option (Z * Z)) : bytes :=
  match lower with
  | Some (b, true) => prefix ++ b
  | Some (b, false) => prefix_successor ((prefix ++ b) ++ [0])
  | None => match bracket with Some (lo, _) => prefix ++ [lo] | None => prefix end
  end.
Definition range_end (prefix : bytes) (upper : option (bytes * bool)) (bracket : option (Z * Z)) : bytes :=
  match upper with
  | Some (b, false) => prefix ++ b
  | Some (b, true) => ((prefix ++ b) ++ [0]) ++ replicate 37 255
  | None => match bracket with Some (_, hi) => prefix ++ [hi] | None => prefix_successor prefix end
  end.

Definition range_scan_bounds (prefix : bytes) (lower upper : option (bytes * bool)) : RangeScanBounds :=
  match bracket_of lower, bracket_of upper with
  | Some None, _ => RangeEmpty
  | _, Some None => RangeEmpty
  | l, u =>
      let lower_bracket := mjoin l in
      let upper_bracket := mjoin u in
      match lower_bracket, upper_bracket with
      | Some l', Some u' =>
          if bool_decide (l' = u') then
            RangeSpan (range_start prefix lower (Some l')) (range_end prefix upper (Some l'))
          else RangeEmpty
      | _, _ =>
          let bracket := match lower_bracket with Some b => Some b | None => upper_bracket end in
          RangeSpan (range_start prefix lower bracket) (range_end prefix upper bracket)
      end
  end.

(** The keys a scan of the window visits. *)
Definition in_window (b : RangeScanBounds) (key : bytes) : bool :=
  match b with
  | RangeEmpty => false
  | RangeSpan s e => bytes_leb s key && bytes_ltb key e
  end.

(** ** Facts about the encoding *)

Section encoding_facts.
Context `{SerdeJson}.

(** What follows the type prefix byte. *)
Definition enc_payload (v : Value) : bytes :=
  match v with
  | VNumber n => be_bytes 8 (sortable_bits (num_f64 n))
  | VString s => str_bytes s
  | VArray _ | VObject _ => str_bytes (json_text v)
  | _ => []
  end.
Lemma append_enc v out :
  value_to_sortable_bytes_append v out = out ++ value_to_sortable_bytes v.
Proof. destruct v as [|[]| | | |]; cbn; by rewrite <- ?app_assoc. Qed.
Lemma enc_cons v : value_to_sortable_bytes v = type_prefix_byte v :: enc_payload v.
Proof. by destruct v as [|[]| | | |]. Qed.

Lemma make_index_key_spec v id :
  make_index_key v id = value_to_sortable_bytes v ++ 0 :: str_bytes id.
Proof.
  unfold make_index_key, make_index_key_into. rewrite append_enc. cbn. by rewrite <- app_assoc.
Qed.

(** The fields of a compound key, separated by [0x01]. *)
Fixpoint compound_fields (vs : list Value) : bytes :=
  match vs with
  | [] => []
  | [v] => value_to_sortable_bytes v
  | v :: vs => value_to_sortable_bytes v ++ 1 :: compound_fields vs
  end.
Lemma compound_fields_append_S i vs out :
  compound_fields_append (S i) vs out =
    match vs with [] => out | _ => out ++ 1 :: compound_fields vs end.
Proof.
  revert i out; induction vs as [|v vs IH]; intros i out; [done|].
  cbn [compound_fields_append]. rewrite IH.
  rewrite (proj2 (Z.ltb_lt 0 (Z.of_nat (S i)))) by lia. rewrite append_enc.
  destruct vs; cbn [compound_fields]; by rewrite <- ?app_assoc.
Qed.
Lemma make_compound_index_key_spec vs id :
  make_compound_index_key vs id = compound_fields vs ++ 0 :: str_bytes id.
Proof.
  unfold make_compound_index_key, make_compound_index_key_into.
  assert (compound_fields_append 0 vs [] = compound_fields vs) as ->; [|by rewrite <- app_assoc].
  destruct vs as [|v vs]; [done|]. cbn [compound_fields_append]. rewrite compound_fields_append_S.
  cbn [Z.of_nat Z.ltb Z.compare].
  destruct vs; [done|]. by cbn [compound_fields].
Qed.

Context `{!SerdeLaws}.

Lemma num_f64_wf n : f64_wf (num_f64 n).
Proof.
  unfold num_f64. destruct (num_as_f64 n) eqn:E; cbn; [by eapply num_as_f64_wf|].
  unfold f64_wf, f64_zero. lia.
Qed.
Lemma sortable_bits_spec x : f64_wf x -> sortable_bits x = f64_total_key x + 2 ^ 63.
Proof.
  intros Hx. unfold sortable_bits. rewrite f64_sign_spec, f64_total_key_spec by done.
  destruct (Z.leb_spec (2 ^ 63) x).
  - rewrite not_u64_spec by done. lia.
  - rewrite lxor_bit63; unfold f64_wf in Hx; lia.
Qed.
Lemma sortable_bits_range x : f64_wf x -> 0 <= sortable_bits x < 2 ^ 64.
Proof.
  intros Hx. rewrite sortable_bits_spec, f64_total_key_spec by done.
  unfold f64_wf in Hx. destruct (Z.leb_spec (2 ^ 63) x); lia.
Qed.

Lemma enc_cmp a b :
  bytes_cmp (value_to_sortable_bytes a) (value_to_sortable_bytes b) =
  then_cmp (type_prefix_byte a ?= type_prefix_byte b) (bytes_cmp (enc_payload a) (enc_payload b)).
Proof. by rewrite !enc_cons. Qed.

Lemma total_cmp_enc x y :
  f64_total_cmp (num_f64 x) (num_f64 y) =
  bytes_cmp (enc_payload (VNumber x)) (enc_payload (VNumber y)).
Proof.
  cbn [enc_payload]. rewrite be_bytes_cmp by (apply sortable_bits_range, num_f64_wf).
  rewrite !sortable_bits_spec by apply num_f64_wf.
  unfold f64_total_cmp. rewrite !(Z.add_comm _ (2 ^ 63)). by rewrite Z.add_compare_mono_l.
Qed.

Lemma lockstep a b :
  compare_values_total a b =
  bytes_cmp (value_to_sortable_bytes a) (value_to_sortable_bytes b).
Proof.
  rewrite enc_cmp. destruct a as [|[]|x|s|l|m], b as [|[]|y|t|k|n]; try done.
  cbn [compare_values_total type_prefix_byte]. by rewrite Z.compare_refl, total_cmp_enc.
Qed.
#[export] Instance compare_values_total_order : CmpOrder compare_values_total.
Proof.
  pose proof (cmp_on_order value_to_sortable_bytes bytes_cmp _) as Ho.
  split; intros *; rewrite !lockstep; [apply (@cmp_opp _ _ Ho)|apply (@cmp_le_trans _ _ Ho)].
Qed.
End encoding_facts.

(** ** Separators and windows *)

Section windows.
(** Neither string extends the other by a NUL. *)
Definition nul_apart (a b : bytes) : Prop :=
  (forall t, a <> b ++ 0 :: t) /\ (forall t, b <> a ++ 0 :: t).
Definition is_byte (x : Z) : Prop := 0 <= x < 256.

(** A key compared with a window bound is the two values compared first. *)
Lemma sep_cmp a b s t :
  Forall is_byte a -> Forall is_byte b -> nul_apart a b ->
  (t = [] \/ t = [1] \/ exists t', t = 0 :: t') ->
  bytes_cmp (a ++ 0 :: s) (b ++ t) = then_cmp (bytes_cmp a b) (bytes_cmp (0 :: s) t).
Proof.
  intros Ha Hb [Hab Hba] Ht. destruct (lex_split_total a b) as [p x y a b Hxy|p|p x a|p y b].
  - rewrite <- !app_assoc, !bytes_cmp_app. cbn.
    destruct (x ?= y) eqn:E; try done. by apply Z.compare_eq in E.
  - by rewrite bytes_cmp_app, (cmp_refl bytes_cmp).
  - rewrite <- app_assoc, bytes_cmp_app. apply Forall_app in Ha as [_ Ha].
    inversion Ha as [|? ? Hx _]; subst. assert (x <> 0) by (intros ->; by eapply Hab).
    rewrite <- (app_nil_r p) at 2. rewrite bytes_cmp_app. unfold is_byte in Hx. cbn [app then_cmp].
    change (bytes_cmp (x :: a) []) with Gt. cbn [then_cmp].
    destruct Ht as [->|[->|[t' ->]]]; [done| |]; cbn; unfold then_cmp.
    + destruct (Z.compare_spec x 1); [by destruct a|lia|done].
    + destruct (Z.compare_spec x 0); [lia|lia|done].
  - rewrite <- app_assoc, bytes_cmp_app. apply Forall_app in Hb as [_ Hb].
    inversion Hb as [|? ? Hy _]; subst. assert (y <> 0) by (intros ->; by eapply Hba).
    rewrite <- (app_nil_r p) at 1. rewrite bytes_cmp_app. unfold is_byte in Hy. cbn.
    destruct y; [lia|done|lia].
Qed.

Lemma starts_with_sep a b s :
  nul_apart a b -> starts_with (a ++ 0 :: s) (b ++ [0]) = bool_decide (a = b).
Proof.
  intros [Hab Hba]. apply eq_bool_prop_intro. rewrite bool_decide_spec, Is_true_true, starts_with_spec.
  split.
  - intros [r Hr]. rewrite <- app_assoc in Hr. cbn in Hr.
    destruct (lex_split_total a b) as [p x y a b Hxy|p|p x a|p y b]; [|done| |];
      rewrite <- ?app_assoc in Hr; apply app_inv_head in Hr; cbn in Hr; simplify_eq.
    + by edestruct Hab.
    + by edestruct Hba.
  - intros ->. exists s. by rewrite <- app_assoc.
Qed.

Lemma successor_rev_spec r :
  match successor_rev r with
  | Some q => exists n x r', r = replicate n 255 ++ x :: r' /\ x <> 255 /\ q = x + 1 :: r'
  | None => r = replicate (length r) 255
  end.
Proof.
  induction r as [|x r IH]; cbn; [done|]. destruct (Z.eqb_spec x 255) as [->|Hx].
  - destruct (successor_rev r) as [q|].
    + destruct IH as (n & x & r' & -> & Hx & ->). by exists (S n), x, r'.
    + by f_equal.
  - by exists 0%nat, x, r.
Qed.
Lemma prefix_successor_spec q x n :
  x <> 255 -> prefix_successor (q ++ x :: replicate n 255) = q ++ [x + 1].
Proof.
  intros Hx. unfold prefix_successor.
  assert (successor_rev (reverse (q ++ x :: replicate n 255)) = Some (x + 1 :: reverse q)) as ->.
  { rewrite reverse_app, reverse_cons, <- app_assoc. cbn.
    rewrite reverse_replicate.
    induction n as [|n IH]; cbn [replicate app successor_rev].
    - by destruct (Z.eqb_spec x 255).
    - by rewrite Z.eqb_refl. }
  by rewrite reverse_cons, reverse_involutive.
Qed.
Lemma prefix_successor_sep b : prefix_successor (b ++ [0]) = b ++ [1].
Proof. by apply (prefix_successor_spec b 0 0). Qed.

Lemma ones_prefix n k : Forall is_byte k ->
  starts_with k (replicate n 255) = bytes_leb (replicate n 255) k.
Proof.
  revert k; induction n as [|n IH]; intros k Hk; [by destruct k|].
  destruct k as [|y k]; [done|]. inversion Hk as [|? ? Hy Hk']; subst. unfold is_byte in Hy.
  cbn [replicate starts_with]. rewrite IH by done. unfold bytes_leb. cbn [bytes_cmp lex_cmp].
  destruct (Z.compare_spec 255 y), (Z.eqb_spec y 255); by lia || done.
Qed.
Lemma prefix_window_split q x n k : Forall is_byte k -> 0 <= x < 255 ->
  starts_with k (q ++ x :: replicate n 255) =
  bytes_leb (q ++ x :: replicate n 255) k && bytes_ltb k (q ++ [x + 1]).
Proof.
  intros Hk Hx. revert k Hk; induction q as [|z q IH]; intros [|y k] Hk; try done;
    inversion Hk as [|? ? Hy Hk']; subst; cbn [app starts_with].
  - rewrite ones_prefix by done. unfold bytes_leb, bytes_ltb, bytes_cmp. cbn [lex_cmp].
    destruct (Z.compare_spec x y), (Z.eqb_spec y x); try lia; cbn [then_cmp andb].
    + destruct (Z.compare_spec y (x + 1)); try lia. cbn. by rewrite andb_true_r.
    + destruct (Z.compare_spec y (x + 1)); try lia; [|done]. cbn. by destruct k.
    + done.
  - rewrite IH by done. unfold bytes_leb, bytes_ltb, bytes_cmp. cbn [lex_cmp].
    destruct (Z.compare_spec z y), (Z.eqb_spec y z); try lia; cbn [then_cmp andb]; [|..|done].
    + subst. by rewrite Z.compare_refl.
    + by rewrite (proj2 (Z.compare_gt_iff y z)).
Qed.
End windows.

Section key_theorems.
Context `{SerdeJson} `{!SerdeLaws}.

(** Text without NUL: what keeps the [0x00] separator unambiguous. *)
Definition index_safe (v : Value) : Prop :=
  match v with
  | VString s => 0 ∉ str_bytes s
  | VArray _ | VObject _ => 0 ∉ str_bytes (json_text v)
  | _ => True
  end.
(** What [validate_custom_id] and generated ids guarantee. *)
Definition id_safe (id : string) : Prop :=
  id <> EmptyString /\ 0 ∉ str_bytes id /\ utf8_valid (str_bytes id) = true.

Lemma enc_bytes v : Forall is_byte (value_to_sortable_bytes v).
Proof.
  rewrite enc_cons. constructor; [by destruct v as [|[]| | | |]|].
  destruct v; cbn [enc_payload]; first [apply be_bytes_range | apply str_bytes_range | constructor].
Qed.
Lemma enc_no_ext v w t : index_safe v -> index_safe w ->
  value_to_sortable_bytes v <> value_to_sortable_bytes w ++ 0 :: t.
Proof.
  intros Hv Hw. rewrite !enc_cons. cbn. intros [= Ht Hp].
  assert (0 ∈ enc_payload v) as Hin by (rewrite Hp; set_solver).
  destruct v as [|[]|n|s|l|m]; try done; cbn in Hin; try by apply elem_of_nil in Hin.
  (* two numbers: the payloads have one width *)
  by destruct w as [|[]| | | |].
Qed.
Lemma enc_apart v w : index_safe v -> index_safe w ->
  nul_apart (value_to_sortable_bytes v) (value_to_sortable_bytes w).
Proof. split; intros t; by apply enc_no_ext. Qed.

Lemma enc_eq_iff v w :
  value_to_sortable_bytes v = value_to_sortable_bytes w <-> compare_values_total v w = Eq.
Proof. by rewrite lockstep, lex_cmp_eq. Qed.

Lemma extract_spec p id : id_safe id ->
  extract_doc_id_from_key (p ++ 0 :: str_bytes id) = Some id.
Proof.
  intros (Hne & Hnul & Hutf). unfold extract_doc_id_from_key. rewrite rsplit_at_app by done.
  unfold from_utf8. rewrite Hutf, bytes_str_str_bytes. by destruct id.
Qed.

(** The value a stored encoding decodes to: numbers through [f64], containers
    through their text. *)
Definition decode_sem (v : Value) : option Value :=
  match v with
  | VNumber n => VNumber <$> num_from_f64 (num_f64 n)
  | VArray _ | VObject _ => from_str (json_text v)
  | _ => Some v
  end.

Lemma decode_number_bits x : f64_wf x ->
  let s := sortable_bits x in
  (if negb (Z.land s (2 ^ 63) =? 0) then Z.lxor s (2 ^ 63) else not_u64 s) = x.
Proof.
  intros Hx. cbv zeta.
  assert (Hbit : negb (Z.land (sortable_bits x) (2 ^ 63) =? 0) = Z.testbit (sortable_bits x) 63).
  { pose proof (Z.land_ones (Z.shiftr (sortable_bits x) 63) 1 ltac:(lia)) as Ho.
    assert (Z.land (sortable_bits x) (2 ^ 63) =
      if Z.testbit (sortable_bits x) 63 then 2 ^ 63 else 0) as ->; [|by destruct (Z.testbit _ _)].
    apply Z.bits_inj'. intros i Hi. rewrite Z.land_spec, Z.pow2_bits_eqb by lia.
    destruct (Z.eqb_spec 63 i) as [<-|Hne].
    - destruct (Z.testbit (sortable_bits x) 63); [|by rewrite Z.bits_0]. done.
    - destruct (Z.testbit (sortable_bits x) 63); rewrite ?Z.bits_0, andb_false_r; [|done].
      symmetry. apply Z.pow2_bits_false. lia. }
  rewrite Hbit. clear Hbit. pose proof (sortable_bits_range x Hx) as Hr.
  change (Z.testbit (sortable_bits x) 63) with (f64_sign (sortable_bits x)).
  rewrite f64_sign_spec by done. revert Hr.
  rewrite sortable_bits_spec, f64_total_key_spec by done. unfold f64_wf in Hx.
  destruct (Z.leb_spec (2 ^ 63) x).
  - intros Hr. destruct (Z.leb_spec (2 ^ 63) (2 ^ 63 - 1 - x + 2 ^ 63)); [lia|].
    rewrite not_u64_spec by (unfold f64_wf; lia). lia.
  - intros Hr. destruct (Z.leb_spec (2 ^ 63) (x + 2 ^ 63)); [|lia].
    rewrite <- lxor_bit63 by lia. by rewrite Z.lxor_assoc, Z.lxor_nilpotent, Z.lxor_0_r.
Qed.

(** What the index windows promise for one stored value. *)
Definition bound_bytes (b : option (Value * bool)) : option (bytes * bool) :=
  (fun '(v, incl) => (value_to_sortable_bytes v, incl)) <$> b.
Definition value_bracket (v : Value) : option (Z * Z) := type_bracket (type_prefix_byte v).
Definition le_ok (incl : bool) (o : comparison) : bool :=
  match o with Lt => true | Eq => incl | Gt => false end.
Definition lower_sem (b : option (Value * bool)) (w : Value) : bool :=
  match b with
  | None => true
  | Some (v, incl) =>
      bool_decide (is_Some (value_bracket v) /\ value_bracket v = value_bracket w) &&
      le_ok incl (compare_values_total v w)
  end.
Definition upper_sem (b : option (Value * bool)) (w : Value) : bool :=
  match b with
  | None => true
  | Some (v, incl) =>
      bool_decide (is_Some (value_bracket v) /\ value_bracket v = value_bracket w) &&
      le_ok incl (compare_values_total w v)
  end.
Definition bounds_safe (b : option (Value * bool)) : Prop :=
  match b with Some (v, _) => index_safe v | None => True end.

Lemma start_ok v incl w id r : index_safe v -> index_safe w ->
  bytes_leb (range_start [] (Some (value_to_sortable_bytes v, incl)) r) (make_index_key w id) =
  le_ok incl (compare_values_total v w).
Proof.
  intros Hv Hw. rewrite make_index_key_spec, lockstep. unfold bytes_leb.
  rewrite (cmp_opp bytes_cmp). destruct incl; cbn [range_start app].
  - rewrite <- (app_nil_r (value_to_sortable_bytes v)) at 1.
    rewrite sep_cmp by (apply enc_bytes || (by apply enc_apart) || by left).
    rewrite (cmp_opp bytes_cmp (value_to_sortable_bytes w)).
    by destruct (bytes_cmp (value_to_sortable_bytes v) (value_to_sortable_bytes w)).
  - rewrite prefix_successor_sep.
    rewrite sep_cmp by (apply enc_bytes || (by apply enc_apart) || by right; left).
    rewrite (cmp_opp bytes_cmp (value_to_sortable_bytes w)).
    by destruct (bytes_cmp (value_to_sortable_bytes v) (value_to_sortable_bytes w)).
Qed.

Lemma sentinel_above id : id_safe id ->
  bytes_cmp (0 :: str_bytes id) (0 :: replicate 37 255) = Lt.
Proof.
  intros (Hne & _ & Hu%utf8_valid_bound). cbn.
  destruct (str_bytes id) as [|x l] eqn:E; [done|]. cbn.
  inversion Hu; subst. by rewrite (proj2 (Z.compare_lt_iff x 255)) by lia.
Qed.
Lemma end_ok v incl w id r : index_safe v -> index_safe w -> id_safe id ->
  bytes_ltb (make_index_key w id) (range_end [] (Some (value_to_sortable_bytes v, incl)) r) =
  le_ok incl (compare_values_total w v).
Proof.
  intros Hv Hw Hid. rewrite make_index_key_spec, lockstep. unfold bytes_ltb.
  destruct incl; cbn [range_end app].
  - rewrite <- app_assoc. cbn [app].
    rewrite sep_cmp by (apply enc_bytes || (by apply enc_apart) || right; right; eauto).
    rewrite sentinel_above by done.
    by destruct (bytes_cmp (value_to_sortable_bytes w) (value_to_sortable_bytes v)).
  - rewrite <- (app_nil_r (value_to_sortable_bytes v)) at 1.
    rewrite sep_cmp by (apply enc_bytes || (by apply enc_apart) || by left).
    by destruct (bytes_cmp (value_to_sortable_bytes w) (value_to_sortable_bytes v)).
Qed.

Lemma bracket_of_bound b :
  bracket_of (bound_bytes b) = (fun '(v, _) => value_bracket v) <$> b.
Proof. by destruct b as [[v i]|]; cbn; rewrite ?enc_cons. Qed.

Lemma value_bracket_range v lo hi :
  value_bracket v = Some (lo, hi) -> forall w,
  lo <= type_prefix_byte w < hi <-> value_bracket w = Some (lo, hi).
Proof.
  intros Hv w. destruct v as [|[]| | | |]; try done; injection Hv as <- <-;
    destruct w as [|[]| | | |]; cbn; split; (lia || done).
Qed.
Lemma total_le_prefix incl v w :
  le_ok incl (compare_values_total v w) = true -> type_prefix_byte v <= type_prefix_byte w.
Proof.
  rewrite lockstep, enc_cmp.
  destruct (Z.compare_spec (type_prefix_byte v) (type_prefix_byte w)); cbn; (lia || done).
Qed.

Lemma open_start_ok lo hi w id :
  bytes_leb (range_start [] None (Some (lo, hi))) (make_index_key w id) =
  (lo <=? type_prefix_byte w).
Proof.
  rewrite make_index_key_spec, enc_cons. unfold bytes_leb, range_start, bytes_cmp. cbn [app lex_cmp].
  destruct (Z.compare_spec lo (type_prefix_byte w)), (Z.leb_spec lo (type_prefix_byte w));
    try lia; cbn; [|done..]. by destruct (enc_payload w).
Qed.
Lemma open_end_ok lo hi w id :
  bytes_ltb (make_index_key w id) (range_end [] None (Some (lo, hi))) =
  (type_prefix_byte w <? hi).
Proof.
  rewrite make_index_key_spec, enc_cons. unfold bytes_ltb, range_end, bytes_cmp. cbn [app lex_cmp].
  destruct (Z.compare_spec (type_prefix_byte w) hi), (Z.ltb_spec (type_prefix_byte w) hi);
    try lia; cbn; [|done..]. by destruct (enc_payload w).
Qed.

(** A value past a bracketed bound needs one more test to be in the bracket. *)
Lemma lower_sem_alt v i w r : value_bracket v = Some r ->
  lower_sem (Some (v, i)) w = le_ok i (compare_values_total v w) && (type_prefix_byte w <? r.2).
Proof.
  intros Hv. destruct r as [lo hi]. pose proof (value_bracket_range _ _ _ Hv) as R.
  pose proof (proj2 (R v) Hv). unfold lower_sem.
  destruct (le_ok i (compare_values_total v w)) eqn:E; [|by rewrite andb_false_r].
  apply total_le_prefix in E. rewrite andb_true_r, Hv. cbn.
  apply eq_bool_prop_intro. rewrite bool_decide_spec, Is_true_true, Z.ltb_lt. specialize (R w).
  split; [intros [_ E']; symmetry in E'; apply R in E'; lia|].
  intros; split; [done|symmetry; apply R; lia].
Qed.
Lemma upper_sem_alt v i w r : value_bracket v = Some r ->
  upper_sem (Some (v, i)) w = (r.1 <=? type_prefix_byte w) && le_ok i (compare_values_total w v).
Proof.
  intros Hv. destruct r as [lo hi]. pose proof (value_bracket_range _ _ _ Hv) as R.
  pose proof (proj2 (R v) Hv). unfold upper_sem.
  destruct (le_ok i (compare_values_total w v)) eqn:E; [|by rewrite !andb_false_r].
  apply total_le_prefix in E. rewrite !andb_true_r, Hv. cbn.
  apply eq_bool_prop_intro. rewrite bool_decide_spec, Is_true_true, Z.leb_le. specialize (R w).
  split; [intros [_ E']; symmetry in E'; apply R in E'; lia|].
  intros; split; [done|symmetry; apply R; lia].
Qed.
(** An operand without a bracket matches nothing, and two bounds of
    different brackets match nothing together. *)
Lemma no_bracket_sem v i w : value_bracket v = None ->
  lower_sem (Some (v, i)) w = false /\ upper_sem (Some (v, i)) w = false.
Proof. intros Hv. unfold lower_sem, upper_sem. rewrite Hv. by rewrite bool_decide_false by (by intros [[] _]). Qed.
Lemma mixed_brackets v i u j w : value_bracket v <> value_bracket u ->
  lower_sem (Some (v, i)) w && upper_sem (Some (u, j)) w = false.
Proof.
  intros Hne. unfold lower_sem, upper_sem. apply not_true_iff_false.
  rewrite !andb_true_iff, !bool_decide_eq_true. intros (((_ & H1) & _) & ((_ & H2) & _)).
  congruence.
Qed.

Lemma range_window_spec lower upper w id :
  (is_Some lower \/ is_Some upper) ->
  bounds_safe lower -> bounds_safe upper -> index_safe w -> id_safe id ->
  in_window (range_scan_bounds [] (bound_bytes lower) (bound_bytes upper)) (make_index_key w id) =
  lower_sem lower w && upper_sem upper w.
Proof.
  intros Hsome Hl Hu Hw Hid. unfold range_scan_bounds. rewrite !bracket_of_bound.
  destruct lower as [[v i]|], upper as [[u j]|]; cbn [fmap option_fmap option_map bounds_safe] in *;
    [| | |by destruct Hsome as [[]|[]]].
  - destruct (value_bracket v) as [r|] eqn:Ev; [|by destruct (no_bracket_sem v i w Ev) as [-> _]].
    destruct (value_bracket u) as [r'|] eqn:Eu;
      [|destruct (no_bracket_sem u j w Eu) as [_ ->]; by rewrite andb_false_r].
    cbn [mjoin option_join]. case_bool_decide as Heq.
    + subst r'. rewrite (lower_sem_alt v i w r), (upper_sem_alt u j w r) by done.
      cbn [in_window bound_bytes fmap option_fmap option_map]. rewrite start_ok, end_ok by done.
      destruct r as [lo hi]. pose proof (proj2 (value_bracket_range _ _ _ Ev v) Ev).
      pose proof (proj2 (value_bracket_range _ _ _ Eu u) Eu). cbn [fst snd].
      destruct (le_ok i _) eqn:E1; [|done]. destruct (le_ok j _) eqn:E2; [|by rewrite !andb_false_r].
      apply total_le_prefix in E1. apply total_le_prefix in E2. lia.
    + rewrite mixed_brackets; [done|congruence].
  - destruct (value_bracket v) as [[lo hi]|] eqn:Ev; [|by destruct (no_bracket_sem v i w Ev) as [-> _]].
    rewrite (lower_sem_alt v i w _ Ev), andb_true_r. cbn [in_window bound_bytes fmap option_fmap option_map mjoin option_join fst snd].
    by rewrite (start_ok v i w id (Some (lo, hi))), open_end_ok by done.
  - destruct (value_bracket u) as [[lo hi]|] eqn:Eu; [|by destruct (no_bracket_sem u j w Eu) as [_ ->]].
    rewrite (upper_sem_alt u j w _ Eu). cbn [in_window bound_bytes fmap option_fmap option_map mjoin option_join fst snd].
    by rewrite (end_ok u j w id (Some (lo, hi))), open_start_ok by done.
Qed.
End key_theorems.

(** ** Properties *)

Section secondary_properties.
Context `{SerdeJson} `{!SerdeLaws}.

(** the in-memory collation and the key encoding are one order:
    [compare_values_total] of two JSON values is the byte order of their
    encodings, for every pair of values (the lockstep invariant of
    secondary.rs), and it is a total preorder. *)
Theorem compare_values_total_lockstep :
  (forall a b, compare_values_total a b =
     bytes_cmp (value_to_sortable_bytes a) (value_to_sortable_bytes b)) /\
  CmpOrder compare_values_total.
Proof. split; [apply lockstep|apply compare_values_total_order]. Qed.

(** An index key, single-field or compound, gives back the document id
    it was built with, whatever the indexed values. *)
Theorem index_key_doc_id (v : Value) (vs : list Value) (id : string) :
  id_safe id ->
  extract_doc_id_from_key (make_index_key v id) = Some id /\
  extract_doc_id_from_key (make_compound_index_key vs id) = Some id.
Proof.
  intros Hid. rewrite make_index_key_spec, make_compound_index_key_spec.
  split; by apply extract_spec.
Qed.

(** [decode_sortable_bytes] inverts the encoding: nulls, booleans and
    strings exactly, a number up to its [f64] value, a container through its
    JSON text. *)
Theorem decode_encode (v : Value) :
  utf8_valid (str_bytes (match v with VString s => s | _ => json_text v end)) = true ->
  decode_sortable_bytes (value_to_sortable_bytes v) = decode_sem v.
Proof.
  intros Hutf. destruct v as [|[]|n|s|l|m]; try done.
  - cbn [value_to_sortable_bytes value_to_sortable_bytes_append app].
    unfold decode_sortable_bytes. change (3 =? 0) with false. change (3 =? 1) with false.
    change (3 =? 2) with false. change (3 =? 3) with true. cbv iota.
    destruct (Z.ltb_spec (lenZ (3 :: be_bytes 8 (sortable_bits (num_f64 n)))) 9) as [Hlt|_].
    { unfold lenZ in Hlt. cbn [length] in Hlt. rewrite be_bytes_length in Hlt. lia. }
    rewrite take_ge by (by rewrite be_bytes_length).
    rewrite from_be_bytes_be_bytes by (apply sortable_bits_range, num_f64_wf).
    cbv zeta. cbn [decode_sem]. f_equal. f_equal. apply (decode_number_bits (num_f64 n)), num_f64_wf.
  - cbn in Hutf |- *. unfold from_utf8. by rewrite Hutf, bytes_str_str_bytes.
  - cbn in Hutf |- *. unfold from_utf8. by rewrite Hutf, bytes_str_str_bytes.
  - cbn in Hutf |- *. unfold from_utf8. by rewrite Hutf, bytes_str_str_bytes.
Qed.

(** The window of an index range scan is exact: a stored key lies in
    [range_scan_bounds] of the (one or two) bounds exactly when its value has
    the bounds' type bracket and passes each bound in the total order, strict
    or inclusive as asked; operands without a bracket (null, containers) and
    bounds of two brackets select nothing. *)
Theorem range_scan_bounds_exact (lower upper : option (Value * bool)) (w : Value) (id : string) :
  is_Some lower \/ is_Some upper ->
  bounds_safe lower -> bounds_safe upper -> index_safe w -> id_safe id ->
  in_window (range_scan_bounds [] (bound_bytes lower) (bound_bytes upper)) (make_index_key w id) =
  lower_sem lower w && upper_sem upper w.
Proof. apply range_window_spec. Qed.
End secondary_properties.

(** [prefix_successor p] closes the window of the keys that begin with
    [p]: a key has the prefix exactly when it is in [[p, successor)], for every
    prefix that is not all [0xFF]. *)
Theorem prefix_successor_window (q k : bytes) (x : Z) (n : nat) :
  Forall is_byte k -> 0 <= x < 255 ->
  starts_with k (q ++ x :: replicate n 255) =
  bytes_leb (q ++ x :: replicate n 255) k && bytes_ltb k (prefix_successor (q ++ x :: replicate n 255)).
Proof. intros Hk Hx. rewrite prefix_successor_spec by lia. by apply prefix_window_split. Qed.

(** ** Witnesses *)

Import Ref.

Lemma compare_values_total_lockstep_witness :
  compare_values_total (VNumber (PosInt 1)) (VString "a") = Lt.
Proof. rewrite (proj1 compare_values_total_lockstep). vm_compute. reflexivity. Defined.

Lemma id_safe_example : id_safe "doc-1".
Proof. split; [done|]. split; [by apply (bool_decide_unpack _)|done]. Qed.

Lemma index_key_doc_id_witness :
  extract_doc_id_from_key (make_index_key (VString "k") "doc-1") = Some "doc-1".
Proof. apply (index_key_doc_id (VString "k") [VNull]), id_safe_example. Defined.

Lemma decode_encode_witness :
  decode_sortable_bytes (value_to_sortable_bytes (VString "k")) = Some (VString "k").
Proof. apply (decode_encode (VString "k")). vm_compute. reflexivity. Defined.

Lemma range_scan_bounds_exact_witness :
  in_window (range_scan_bounds [] (bound_bytes (Some (VNumber (PosInt 5), false))) (bound_bytes None))
    (make_index_key (VNumber (PosInt 7)) "doc-1") = true.
Proof.
  rewrite (range_scan_bounds_exact (Some (VNumber (PosInt 5), false)) None (VNumber (PosInt 7)) "doc-1").
  - vm_compute. reflexivity.
  - left. by eexists.
  - done.
  - done.
  - done.
  - apply id_safe_example.
Defined.

Lemma prefix_successor_window_witness :
  starts_with [3; 7; 255; 9] [3; 7; 255] = true /\
  bytes_ltb [3; 7; 255; 9] (prefix_successor [3; 7; 255]) = true.
Proof.
  pose proof (prefix_successor_window [3] [3; 7; 255; 9] 7 1) as Hw.
  split; [|vm_compute; reflexivity].
  change [3; 7; 255] with ([3] ++ 7 :: replicate 1 255). rewrite Hw.
  - vm_compute. reflexivity.
  - repeat constructor; (done || (unfold is_byte; lia)).
  - lia.
Defined.
