(* ===== verification/Sort.v ===== *)
(** * Sorting ([crates/wardsondb/src/query/sort.rs])

    Sort specifications, the comparator of two documents with its [_id]
    tiebreak, and the decorated comparator of the streaming sorts. *)

From S2P Require Import Prelude Bytes F64 Json Errors Externals Filter Secondary.

Record SortField := { field : string; ascending : bool }.

Section sort.
Context `{SerdeJson}.

(** ** The specification's parser *)

Definition parse_direction (field : string) (direction : Value) : result string bool :=
  let invalid :=
    "direction for field '" +:+ field +:+ "' must be " +:+ quote +:+ "asc" +:+ quote +:+ ", "
      +:+ quote +:+ "desc" +:+ quote +:+ ", 1, or -1 (got "
      +:+ default "?" (to_string direction) +:+ ")" in
  match direction with
  | VString s =>
      if decide (s = "asc") then Ok true
      else if decide (s = "desc") then Ok false
      else Err invalid
  | VNumber n =>
      match num_as_f64 n with
      | Some x =>
          if f64_eqb x f64_one then Ok true
          else if f64_eqb x f64_minus_one then Ok false
          else Err invalid
      | None => Err invalid
      end
  | _ => Err invalid
  end.

Definition parse_sort_field (kv : string * Value) : result string SortField :=
  let '(field, direction) := kv in
  let? asc := parse_direction field direction in
  Ok {| field := field; ascending := asc |}.

Definition parse_sort_item (i : nat) (item : Value) : result string SortField :=
  match item with
  | VObject [kv] => parse_sort_field kv
  | VObject obj =>
      Err ("element " +:+ pretty i +:+ " must have exactly one field (got "
           +:+ pretty (length obj) +:+ "); use one object per field")
  | _ => Err ("element " +:+ pretty i +:+ " must be an object with exactly one field")
  end.
Fixpoint parse_sort_items (i : nat) (items : list Value) : result string (list SortField) :=
  match items with
  | [] => Ok []
  | item :: items =>
      let? f := parse_sort_item i item in
      let? fs := parse_sort_items (S i) items in
      Ok (f :: fs)
  end.

Definition parse_sort_spec (spec : Value) : result string (list SortField) :=
  match spec with
  | VArray items => parse_sort_items 0 items
  | VObject [kv] => let? f := parse_sort_field kv in Ok [f]
  | VObject [] => Err "must not be an empty object"
  | VObject obj =>
      Err ("object with " +:+ pretty (length obj)
           +:+ " fields is ambiguous (JSON object key order is not preserved); use the array form")
  | _ => Err "must be an array of single-field objects or a single-field object"
  end.

(** ** Comparators *)

(** The direction of the implicit [_id] tiebreak: the last field's. *)
Definition tiebreak_ascending (sort_fields : list SortField) : bool :=
  default true (ascending <$> last sort_fields).

(** Missing sorts before every present value. *)
Definition compare_json_values (a b : option Value) : comparison :=
  match a, b with
  | None, None => Eq
  | None, Some _ => Lt
  | Some _, None => Gt
  | Some a, Some b => compare_values_total a b
  end.

Definition doc_id (d : Value) : option string := get d "_id" ≫= as_str.
Definition compare_ids (a b : option string) : comparison := option_cmp str_cmp a b.

(** The loop over the fields, then the tiebreak, whose direction is that of
    the whole specification [spec]. *)
Fixpoint compare_docs_from (spec sort_fields : list SortField) (a b : Value) : comparison :=
  match sort_fields with
  | [] => cmp_dir (tiebreak_ascending spec) (compare_ids (doc_id a) (doc_id b))
  | sf :: sort_fields =>
      let va := resolve_json_path a (field sf) in
      let vb := resolve_json_path b (field sf) in
      let ordering := cmp_dir (ascending sf) (compare_json_values va vb) in
      match ordering with
      | Eq => compare_docs_from spec sort_fields a b
      | _ => ordering
      end
  end.
Definition compare_docs (sort_fields : list SortField) (a b : Value) : comparison :=
  compare_docs_from sort_fields sort_fields a b.

Definition sort_documents (docs : list Value) (sort_fields : list SortField) : list Value :=
  match sort_fields with
  | [] => docs
  | _ => sort_by (compare_docs sort_fields) docs
  end.

(** ** Decorated keys *)

Record DocSortKey := { vals : list (option Value); id : option string }.

Definition extract_sort_key (doc : Value) (sort_fields : list SortField) : DocSortKey :=
  {| vals := (fun sf => resolve_json_path doc (field sf)) <$> sort_fields;
     id := doc_id doc |}.

(** [a.vals[i]] is in range for a key of the same specification; the model
    reads a missing slot as [None]. *)
Fixpoint compare_decorated_from (spec : list SortField) (i : nat) (sort_fields : list SortField)
    (a b : DocSortKey) : comparison :=
  match sort_fields with
  | [] => cmp_dir (tiebreak_ascending spec) (compare_ids (id a) (id b))
  | sf :: sort_fields =>
      let ordering := cmp_dir (ascending sf)
        (compare_json_values (mjoin (vals a !! i)) (mjoin (vals b !! i))) in
      match ordering with
      | Eq => compare_decorated_from spec (S i) sort_fields a b
      | _ => ordering
      end
  end.
Definition compare_decorated (sort_fields : list SortField) (a b : DocSortKey) : comparison :=
  compare_decorated_from sort_fields 0 sort_fields a b.
End sort.

(** ** Facts *)

Section sort_facts.
Context `{SerdeJson} `{!SerdeLaws}.
Implicit Types (sfs spec : list SortField).

#[export] Instance compare_json_values_order : CmpOrder compare_json_values.
Proof. apply (option_cmp_order compare_values_total), _. Qed.

Lemma compare_docs_from_cons spec sf sfs a b :
  compare_docs_from spec (sf :: sfs) a b =
  then_cmp (cmp_dir (ascending sf)
      (cmp_on (fun d => resolve_json_path d (field sf)) compare_json_values a b))
    (compare_docs_from spec sfs a b).
Proof. cbn. by destruct (cmp_dir _ _). Qed.

#[export] Instance compare_docs_from_order spec sfs : CmpOrder (compare_docs_from spec sfs).
Proof.
  induction sfs as [|sf sfs IH].
  - apply (cmp_dir_order _ (cmp_on doc_id (option_cmp str_cmp))), _.
  - pose proof (then_cmp_order
      (fun a b => cmp_dir (ascending sf)
        (cmp_on (fun d => resolve_json_path d (field sf)) compare_json_values a b))
      (compare_docs_from spec sfs) _ IH) as Ho.
    split; intros *; rewrite !compare_docs_from_cons;
      [apply (@cmp_opp _ _ Ho)|apply (@cmp_le_trans _ _ Ho)].
Qed.
#[export] Instance compare_docs_order sfs : CmpOrder (compare_docs sfs).
Proof. apply compare_docs_from_order. Qed.

Lemma compare_decorated_from_spec pre sfs a b :
  compare_decorated_from (pre ++ sfs) (length pre) sfs
    (extract_sort_key a (pre ++ sfs)) (extract_sort_key b (pre ++ sfs)) =
  compare_docs_from (pre ++ sfs) sfs a b.
Proof.
  revert pre; induction sfs as [|sf sfs IH]; intros pre; [done|].
  cbn [compare_decorated_from compare_docs_from].
  assert (Hl : forall d, mjoin (vals (extract_sort_key d (pre ++ sf :: sfs)) !! length pre) =
    resolve_json_path d (field sf)).
  { intros d. cbn. rewrite list_lookup_fmap, list_lookup_middle by done. done. }
  rewrite !Hl. specialize (IH (pre ++ [sf])). rewrite <- app_assoc, length_app in IH. cbn in IH.
  rewrite Nat.add_1_r in IH. rewrite IH. done.
Qed.

(** Two documents compare equal only when their ids do. *)
Lemma compare_docs_from_eq spec sfs a b :
  compare_docs_from spec sfs a b = Eq -> doc_id a = doc_id b.
Proof.
  induction sfs as [|sf sfs IH]; cbn.
  - unfold compare_ids. destruct (doc_id a) as [x|], (doc_id b) as [y|], (tiebreak_ascending spec);
      cbn; try done; destruct (str_cmp x y) eqn:E; try done; by apply str_cmp_eq in E as ->.
  - by destruct (cmp_dir _ _).
Qed.

(** Documents with distinct ids are strictly ordered. *)
Definition ids_distinct (docs : list Value) : Prop := NoDup (doc_id <$> docs).

Lemma sort_documents_perm docs sfs : sort_documents docs sfs ≡ₚ docs.
Proof. destruct sfs; cbn; [done|apply sort_by_perm]. Qed.
End sort_facts.

(** ** Properties *)

Section sort_properties.
Context `{SerdeJson} `{!SerdeLaws}.

(** The decorate-sort-undecorate comparator is [compare_docs]: comparing
    the keys extracted once per document gives, for every specification and
    every pair of documents, the order of the documents themselves. *)
Theorem decorated_matches_compare_docs (spec : list SortField) (a b : Value) :
  compare_decorated spec (extract_sort_key a spec) (extract_sort_key b spec) =
  compare_docs spec a b.
Proof. apply (compare_decorated_from_spec [] spec). Qed.

(** [sort_documents] sorts, and the order is deterministic: the result is
    a permutation of the input, sorted by [compare_docs] (a total preorder),
    and two lists of the same documents with distinct ids sort to the same
    list, whatever order they arrive in. *)
Theorem sort_documents_sorts (docs docs' : list Value) (sf : SortField) (sfs : list SortField) :
  ids_distinct docs -> docs ≡ₚ docs' ->
  CmpOrder (compare_docs (sf :: sfs)) /\
  sort_documents docs (sf :: sfs) ≡ₚ docs /\
  StronglySorted (cmp_le (compare_docs (sf :: sfs))) (sort_documents docs (sf :: sfs)) /\
  sort_documents docs (sf :: sfs) = sort_documents docs' (sf :: sfs).
Proof.
  intros Hnd Hp. split; [apply _|]. split; [apply sort_documents_perm|].
  split; [apply sort_by_strongly, _|]. cbn [sort_documents].
  apply sort_by_unique; [apply _| |done].
  intros x y Hx Hy Hxy. apply compare_docs_from_eq in Hxy.
  by apply (NoDup_fmap_inj_on doc_id docs).
Qed.
End sort_properties.

(** ** Witnesses *)

Import Ref.

Definition example_docs : list Value :=
  [VObject [("_id", VString "b"); ("n", VNumber (PosInt 2))];
   VObject [("_id", VString "a"); ("n", VNumber (PosInt 2))];
   VObject [("_id", VString "c"); ("n", VNumber (PosInt 1))]].
Definition by_n : SortField := {| field := "n"; ascending := false |}.

Lemma decorated_matches_compare_docs_witness :
  compare_decorated [by_n] (extract_sort_key (VObject []) [by_n]) (extract_sort_key (VObject [("n", VNull)]) [by_n])
  = Gt.
Proof. rewrite decorated_matches_compare_docs. vm_compute. reflexivity. Defined.

Lemma sort_documents_sorts_witness :
  doc_id <$> sort_documents example_docs [by_n] = [Some "b"; Some "a"; Some "c"] /\
  sort_documents example_docs [by_n] = sort_documents (reverse example_docs) [by_n].
Proof.
  split; [vm_compute; reflexivity|].
  apply (sort_documents_sorts example_docs (reverse example_docs) by_n []).
  - apply (bool_decide_unpack _). vm_compute. exact I.
  - symmetry. apply reverse_Permutation.
Defined.
