(* ===== verification/Cursor.v ===== *)
(** * Keyset-pagination cursors ([crates/wardsondb/src/query/cursor.rs])

    The opaque token of a page's last document, its validation, and where a
    document sits relative to it. The JSON text of the payload struct is
    serde's (a parameter); the fingerprint is computed here. *)

From S2P Require Import Prelude Bytes F64 Json Errors Externals Filter Secondary Sort.

Definition MAX_CURSOR_LEN : Z := 4096.

Inductive CursorValue :=
| Missing
| Present (v : Value).

Record Cursor := {
  sort_values : list CursorValue;
  last_id : string;
}.

(** The wire format. [s] holds one entry per sort field: [[]] for a missing
    field, [[value]] for a present one. *)
Record CursorPayloadV1 := {
  pv : Z;
  pf : Z;
  ps : list Value;
  pi : string;
}.

(** serde's derived (de)serialization of the payload. *)
Class PayloadSerde := {
  payload_to_vec : CursorPayloadV1 -> option bytes;
  payload_from_slice : bytes -> option CursorPayloadV1;
}.

(** FNV-1a, 32 bits, over length-prefixed components. *)
Definition feed (h : Z) (b : bytes) : Z :=
  foldl (fun h x => wrap32 (Z.lxor h x * 16777619)) h b.
Definition cursor_fingerprint (collection : string) (sort_fields : list SortField) : Z :=
  let h := 2166136261 in
  let h := feed h (le_bytes32 (wrap32 (str_len collection))) in
  let h := feed h (str_bytes collection) in
  foldl (fun h sf =>
    let h := feed h (le_bytes32 (wrap32 (str_len (field sf)))) in
    let h := feed h (str_bytes (field sf)) in
    feed h [if ascending sf then 97 else 100]) h sort_fields.

Section cursor.
Context `{SerdeJson} `{Base64Lib} `{PayloadSerde}.

Definition cursor_entry (doc : Value) (sf : SortField) : Value :=
  match resolve_json_path doc (field sf) with
  | Some v => VArray [v]
  | None => VArray []
  end.
Definition cursor_payload (doc : Value) (id : string) (sort_fields : list SortField) (collection : string)
    : CursorPayloadV1 :=
  {| pv := 1; pf := cursor_fingerprint collection sort_fields;
     ps := cursor_entry doc <$> sort_fields; pi := id |}.

Definition encode_cursor (doc : Value) (sort_fields : list SortField) (collection : string) : option string :=
  id ← get doc "_id" ≫= as_str;
  b ← payload_to_vec (cursor_payload doc id sort_fields collection);
  let token := base64_encode b in
  if MAX_CURSOR_LEN <? str_len token then None else Some token.

Definition malformed : AppError := InvalidQuery "invalid cursor: malformed or corrupted token".
Definition mismatch : AppError :=
  InvalidQuery "cursor does not match this query: a cursor must be reused with the same collection and the same sort specification".

Definition decode_entry (entry : Value) : res CursorValue :=
  match entry with
  | VArray [] => Ok Missing
  | VArray [v] => Ok (Present v)
  | _ => Err malformed
  end.

Definition decode_cursor (token collection : string) (sort_fields : list SortField) : res Cursor :=
  if MAX_CURSOR_LEN <? str_len token then Err malformed else
  let? b := ok_or (base64_decode token) malformed in
  let? payload := ok_or (payload_from_slice b) malformed in
  if negb (pv payload =? 1) || negb (lenZ (ps payload) =? lenZ sort_fields) then Err malformed else
  if negb (pf payload =? cursor_fingerprint collection sort_fields) then Err mismatch else
  let? sort_values := mapM decode_entry (ps payload) in
  Ok {| sort_values := sort_values; last_id := pi payload |}.

(** The loop over the fields zipped with the cursor's values. *)
Fixpoint compare_to_values (fields : list (SortField * CursorValue)) (doc : Value) (tail : comparison) : comparison :=
  match fields with
  | [] => tail
  | (sf, cv) :: fields =>
      let dv := resolve_json_path doc (field sf) in
      let cvv := match cv with Missing => None | Present v => Some v end in
      let ordering := cmp_dir (ascending sf) (compare_json_values dv cvv) in
      match ordering with
      | Eq => compare_to_values fields doc tail
      | _ => ordering
      end
  end.
Definition compare_doc_to_cursor (doc : Value) (cursor : Cursor) (sort_fields : list SortField) : comparison :=
  compare_to_values (zip sort_fields (sort_values cursor)) doc
    (cmp_dir (tiebreak_ascending sort_fields) (compare_ids (doc_id doc) (Some (last_id cursor)))).
End cursor.

(** ** Facts *)

Section cursor_facts.
Context `{SerdeJson} `{Base64Lib} `{PayloadSerde}.

Definition entry_value (o : option Value) : CursorValue :=
  match o with Some v => Present v | None => Missing end.
(** The position of a document in a sort order. *)
Definition cursor_of (doc : Value) (id : string) (sfs : list SortField) : Cursor :=
  {| sort_values := (fun sf => entry_value (resolve_json_path doc (field sf))) <$> sfs; last_id := id |}.

Lemma decode_entries doc sfs :
  mapM decode_entry (cursor_entry doc <$> sfs) = Ok (sort_values (cursor_of doc EmptyString sfs)).
Proof.
  apply mapM_ok_Forall2, Forall2_fmap, Forall_Forall2_diag, Forall_forall. intros sf _.
  unfold cursor_entry. by destruct (resolve_json_path doc (field sf)).
Qed.

Lemma compare_cursor_of d doc id spec sfs :
  doc_id doc = Some id ->
  compare_to_values (zip sfs (sort_values (cursor_of doc id sfs))) d
    (cmp_dir (tiebreak_ascending spec) (compare_ids (doc_id d) (Some id))) =
  compare_docs_from spec sfs d doc.
Proof.
  intros Hid. induction sfs as [|sf sfs IH]; cbn; [by rewrite Hid|].
  cbn in IH. rewrite IH. by destruct (resolve_json_path doc (field sf)).
Qed.
Lemma compare_cursor_docs d doc id sfs :
  doc_id doc = Some id ->
  compare_doc_to_cursor d (cursor_of doc id sfs) sfs = compare_docs sfs d doc.
Proof. apply (compare_cursor_of d doc id sfs sfs). Qed.

Lemma feed_range h b : 0 <= h < 2 ^ 32 -> 0 <= feed h b < 2 ^ 32.
Proof.
  revert h; induction b as [|x b IH]; intros h Hh; cbn; [done|].
  apply IH. by apply Z.mod_pos_bound.
Qed.
Lemma fingerprint_range collection sfs : 0 <= cursor_fingerprint collection sfs < 2 ^ 32.
Proof.
  unfold cursor_fingerprint.
  assert (Hh : 0 <= feed (feed 2166136261 (le_bytes32 (wrap32 (str_len collection)))) (str_bytes collection) < 2 ^ 32)
    by (do 2 apply feed_range; lia).
  revert Hh. generalize (feed (feed 2166136261 (le_bytes32 (wrap32 (str_len collection)))) (str_bytes collection)).
  induction sfs as [|sf sfs IH]; intros h Hh; cbn [foldl]; [done|].
  apply IH. by do 3 apply feed_range.
Qed.

(** A token decodes to the position it was made from. *)
Lemma encode_decode doc sfs collection token `{!Base64Laws} :
  (forall id b, payload_to_vec (cursor_payload doc id sfs collection) = Some b ->
     Forall (fun x => 0 <= x < 256) b /\ payload_from_slice b = Some (cursor_payload doc id sfs collection)) ->
  encode_cursor doc sfs collection = Some token ->
  exists id, doc_id doc = Some id /\ decode_cursor token collection sfs = Ok (cursor_of doc id sfs).
Proof.
  intros Hser. unfold encode_cursor, doc_id.
  destruct (get doc "_id" ≫= as_str) as [id|]; cbn; [|done].
  destruct (payload_to_vec _) as [b|] eqn:Hb; cbn; [|done].
  destruct (Z.ltb MAX_CURSOR_LEN _) eqn:Hlen; [done|]. intros [= <-].
  exists id. split; [done|]. unfold decode_cursor. rewrite Hlen.
  apply Hser in Hb as [Hrange Hfrom]. rewrite base64_decode_encode by done. cbn. rewrite Hfrom. cbn.
  unfold lenZ. rewrite length_fmap, !Z.eqb_refl. cbn. by rewrite decode_entries.
Qed.

Lemma decode_cursor_err token collection sfs e :
  decode_cursor token collection sfs = Err e -> e = malformed \/ e = mismatch.
Proof.
  unfold decode_cursor. destruct (Z.ltb _ _); [intros [= <-]; by left|].
  destruct (base64_decode token) as [b|]; cbn; [|intros [= <-]; by left].
  destruct (payload_from_slice b) as [p|]; cbn; [|intros [= <-]; by left].
  destruct (negb _ || negb _); [intros [= <-]; by left|].
  destruct (negb _); [intros [= <-]; by right|].
  destruct (mapM decode_entry (ps p)) as [|e'] eqn:Hm; cbn; [done|]. intros [= ->].
  apply mapM_err in Hm as (v & _ & Hv). left.
  destruct v as [| | | |[|? []]|]; cbn in Hv; congruence.
Qed.
End cursor_facts.

(** ** Properties *)

Section cursor_properties.
Context `{SerdeJson} `{Base64Lib} `{!Base64Laws} `{PayloadSerde}.

(** cursors resume exactly after the page they end. If the payload's
    bytes parse back, the token emitted for a page's last document decodes,
    for the same collection and sort, to a position that splits the
    documents as the sort order does: a document is on a later page
    ([Greater]) exactly when it sorts after that document. *)
Theorem cursor_round_trip (doc : Value) (sfs : list SortField) (collection token : string) :
  (forall id b, payload_to_vec (cursor_payload doc id sfs collection) = Some b ->
     Forall (fun x => 0 <= x < 256) b /\ payload_from_slice b = Some (cursor_payload doc id sfs collection)) ->
  encode_cursor doc sfs collection = Some token ->
  exists cur, decode_cursor token collection sfs = Ok cur /\
    Some (last_id cur) = doc_id doc /\
    forall d, compare_doc_to_cursor d cur sfs = compare_docs sfs d doc.
Proof.
  intros Hser (id & Hid & Hdec)%encode_decode; [|done..].
  exists (cursor_of doc id sfs). split; [done|]. split; [done|].
  intros d. by apply compare_cursor_docs.
Qed.

(** A cursor is refused, never misread: [decode_cursor] either fails
    with a client error (HTTP 400) that carries nothing of the token, or the
    token is at most 4096 bytes long, is version 1, has one value per sort
    field, and carries the fingerprint of exactly this collection and sort
    specification, a 32-bit number. *)
Theorem decode_cursor_guarded (token collection : string) (sfs : list SortField) :
  match decode_cursor token collection sfs with
  | Err e => (e = malformed \/ e = mismatch) /\ status_and_code e = (400, "INVALID_QUERY")
  | Ok cur =>
      str_len token <= MAX_CURSOR_LEN /\ length (sort_values cur) = length sfs /\
      exists b p, base64_decode token = Some b /\ payload_from_slice b = Some p /\
        pv p = 1 /\ pf p = cursor_fingerprint collection sfs /\ 0 <= pf p < 2 ^ 32 /\ pi p = last_id cur
  end.
Proof.
  destruct (decode_cursor token collection sfs) as [cur|e] eqn:Hd.
  - unfold decode_cursor in Hd. destruct (Z.ltb_spec MAX_CURSOR_LEN (str_len token)) as [|Hlen]; [done|].
    split; [done|]. destruct (base64_decode token) as [b|]; cbn in Hd; [|done].
    destruct (payload_from_slice b) as [p|] eqn:Hp; cbn in Hd; [|done].
    destruct (Z.eqb_spec (pv p) 1) as [Hv|]; cbn in Hd; [|done].
    destruct (Z.eqb_spec (lenZ (ps p)) (lenZ sfs)) as [Hn|]; cbn in Hd; [|done].
    destruct (Z.eqb_spec (pf p) (cursor_fingerprint collection sfs)) as [Hf|]; cbn in Hd; [|done].
    apply bind_ok in Hd as (vs & Hm & [= <-]). cbn. split.
    + apply mapM_ok_Forall2, Forall2_length in Hm. unfold lenZ in Hn. lia.
    + exists b, p. rewrite Hf. eauto 10 using fingerprint_range.
  - apply decode_cursor_err in Hd. split; [done|]. by destruct Hd as [-> | ->].
Qed.
End cursor_properties.

(** ** Witnesses *)

Import Ref.

(** A payload as a JSON value, through the reference text codec. *)
Module RefPayload.
Definition to_value (p : CursorPayloadV1) : Value :=
  VArray [VNumber (PosInt (pv p)); VNumber (PosInt (pf p)); VArray (ps p); VString (pi p)].
Definition of_value (v : Value) : option CursorPayloadV1 :=
  match v with
  | VArray [VNumber (PosInt v); VNumber (PosInt f); VArray s; VString i] =>
      Some {| pv := v; pf := f; ps := s; pi := i |}
  | _ => None
  end.
#[export] Instance payload_serde : PayloadSerde := {
  payload_to_vec p := to_vec (to_value p);
  payload_from_slice b := from_slice b ≫= of_value;
}.
Lemma round_trip p b : payload_to_vec p = Some b ->
  Forall (fun x => 0 <= x < 256) b /\ payload_from_slice b = Some p.
Proof.
  intros Hb. split.
  - injection Hb as <-. apply str_bytes_range.
  - cbn [payload_from_slice payload_serde]. unfold payload_to_vec, payload_serde in Hb.
    rewrite (from_slice_to_vec _ _ Hb). cbn. by destruct p.
Qed.
End RefPayload.
Import RefPayload.

Lemma cursor_round_trip_witness :
  match encode_cursor (VObject [("_id", VString "b")]) [] "c" with
  | Some token => exists cur, decode_cursor token "c" [] = Ok cur /\ Some (last_id cur) = Some "b" /\
      forall d, compare_doc_to_cursor d cur [] = compare_docs [] d (VObject [("_id", VString "b")])
  | None => False
  end.
Proof.
  destruct (encode_cursor (VObject [("_id", VString "b")]) [] "c") as [token|] eqn:E.
  - apply (cursor_round_trip (VObject [("_id", VString "b")]) [] "c" token); [|exact E].
    intros id b. apply round_trip.
  - vm_compute in E. discriminate E.
Defined.
