(* ===== verification/Parser.v ===== *)
(** * Query requests ([crates/wardsondb/src/query/parser.rs])

    The validated form of a [/query] request. *)

From S2P Require Import Prelude Bytes F64 Json Errors Externals Filter Secondary Sort Cursor.

Record QueryRequest := {
  rq_filter : option Value;
  rq_sort : option Value;
  rq_limit : option Z;
  rq_offset : option Z;
  rq_fields : option (list string);
  rq_count_only : option bool;
  rq_cursor : option string;
}.

Record ParsedQuery `{RegexLib} := {
  q_filter : option FilterNode;
  q_sort : list SortField;
  q_limit : Z;
  q_offset : Z;
  q_fields : option (list string);
  q_count_only : bool;
  q_cursor : option Cursor;
}.

Section parser.
Context `{SerdeJson} `{RegexLib} `{Base64Lib} `{PayloadSerde}.

Definition parse_cursor (cursor : option string) (limit : option Z) (offset : Z) (count_only : bool)
    (collection : string) (sort : list SortField) : res (option Cursor) :=
  match cursor with
  | Some token =>
      if 0 <? offset then
        Err (InvalidQuery "cursor and offset are mutually exclusive; use one pagination mechanism")
      else if count_only then Err (InvalidQuery "cursor cannot be combined with count_only")
      else if bool_decide (limit = Some 0) then
        Err (InvalidQuery "limit must be at least 1 when using a cursor")
      else let? c := decode_cursor token collection sort in Ok (Some c)
  | None => Ok None
  end.

Definition parse_query (req : QueryRequest) (max_limit : Z) (collection : string) : res ParsedQuery :=
  let? filter := match rq_filter req with
    | Some f => let? n := parse_filter f in Ok (Some n)
    | None => Ok None
    end in
  let? sort := match rq_sort req with
    | Some s => map_err (fun e => InvalidQuery ("sort " +:+ e)) (parse_sort_spec s)
    | None => Ok []
    end in
  let offset := default 0 (rq_offset req) in
  let count_only := default false (rq_count_only req) in
  let? cursor := parse_cursor (rq_cursor req) (rq_limit req) offset count_only collection sort in
  Ok {| q_filter := filter; q_sort := sort;
        q_limit := Z.min (default 100 (rq_limit req)) max_limit;
        q_offset := offset; q_fields := rq_fields req;
        q_count_only := count_only; q_cursor := cursor |}.
End parser.

(** ** Properties *)

Section parser_properties.
Context `{SerdeJson} `{RegexLib} `{Base64Lib} `{PayloadSerde}.

(** Request validation. A request is refused only with
    [InvalidQuery] (HTTP 400); an accepted one never asks for more than
    [max_limit] documents, and one with a cursor has no offset, is not a
    count, and asks for at least one document (if the server's limit does),
    so that every cursor page can advance. *)
Theorem parse_query_validates (req : QueryRequest) (max_limit : Z) (collection : string) :
  match parse_query req max_limit collection with
  | Err e => status_and_code e = (400, "INVALID_QUERY")
  | Ok q =>
      q_limit q <= max_limit /\
      (is_Some (q_cursor q) ->
         q_offset q <= 0 /\ q_count_only q = false /\ rq_limit req <> Some 0 /\
         exists token cur, rq_cursor req = Some token /\ q_cursor q = Some cur /\
           decode_cursor token collection (q_sort q) = Ok cur)
  end.
Proof.
  unfold parse_query.
  destruct (rq_filter req) as [f|]; [destruct (parse_filter f) as [n|e] eqn:Hf; cbn|cbn].
  2:{ by apply parse_filter_node_err in Hf as [m ->]. }
  all: destruct (rq_sort req) as [s|]; [destruct (parse_sort_spec s) as [sfs|e]; cbn; [|done]|cbn];
    unfold parse_cursor; (destruct (rq_cursor req) as [token|]; cbn;
      [|split; [lia|by intros [? ?]]]);
    (destruct (Z.ltb_spec 0 (default 0 (rq_offset req))); cbn; [done|]);
    (destruct (default false (rq_count_only req)) eqn:Hc; cbn; [done|]);
    (case_bool_decide as Hl; cbn; [done|]);
    match goal with |- context [decode_cursor ?t ?c ?k] =>
      let Hd := fresh "Hd" in destruct (decode_cursor t c k) eqn:Hd end; cbn;
    first [by match goal with Hd : decode_cursor _ _ _ = Err _ |- _ => apply decode_cursor_err in Hd as [-> | ->] end
          |split; [lia|]; intros _; eauto 10].
Qed.
End parser_properties.
