(* ===== verification/Backend.v ===== *)
(** * The storage interface ([crates/wardsondb/src/engine/backend/mod.rs]) and
    cooperative cancellation ([query/cancel.rs])

    The key-value engines (fjall, RocksDB) are third-party code. What the
    database promises itself about them is the documented contract of the
    [StorageBackend] trait, stated here as a type class over an abstract view,
    [contents], of each partition. [RefBackend] is a reference instance for the
    witnesses. Scans call a visitor on each entry: [visit_entries] is that
    loop, [visit_checked] the loop with the timeout checkpoint. *)

From S2P Require Import Prelude Bytes Errors.

Inductive BackendError :=
| BInternal (m : string)
| BPoisoned (m : string).

Abbreviation BackendResult := (result BackendError).

(** [From<BackendError> for AppError] *)
Definition from_backend (e : BackendError) : AppError :=
  match e with
  | BPoisoned _ => StoragePoisoned
  | BInternal m => Internal ("Storage error: " +:+ m)
  end.
Definition lift_be {A} (r : BackendResult A) : res A := map_err from_backend r.

(** One staged mutation of a write batch. *)
Inductive batch_op (P : Type) :=
| BPut (p : P) (k v : bytes)
| BDel (p : P) (k : bytes).
Arguments BPut {P} p k v.
Arguments BDel {P} p k.

Abbreviation entry := (bytes * bytes)%type.
(** What a scan yields: the entries it visits, then the end or an error. *)
Abbreviation scan := (list entry * option BackendError)%type.

Class StorageBackend := {
  engine : Type;
  PartitionId : Type;
  partition_eq_dec :: EqDecision PartitionId;
  be_create_or_open_partition : engine -> string -> BackendResult (engine * PartitionId);
  be_get : engine -> PartitionId -> bytes -> BackendResult (option bytes);
  be_get_many : engine -> PartitionId -> list bytes -> BackendResult (list (option bytes));
  be_scan_prefix : engine -> PartitionId -> bytes -> scan;
  be_scan_range : engine -> PartitionId -> bytes -> bytes -> scan;
  be_scan_range_rev : engine -> PartitionId -> bytes -> bytes -> scan;
  be_scan_full : engine -> PartitionId -> scan;
  be_count_prefix : engine -> PartitionId -> bytes -> BackendResult Z;
  be_count_range : engine -> PartitionId -> bytes -> bytes -> BackendResult Z;
  be_first_key : engine -> PartitionId -> BackendResult (option bytes);
  be_last_key : engine -> PartitionId -> BackendResult (option bytes);
  be_commit_batch : engine -> list (batch_op PartitionId) -> BackendResult engine;
  be_is_poisoned : engine -> bool;
  be_flush : engine -> BackendResult unit;
}.

(** ** The contract *)

Definition entry_lt (a b : entry) : Prop := bytes_cmp a.1 b.1 = Lt.
Definition key_get (k : bytes) (l : list entry) : option bytes :=
  snd <$> List.find (fun e => bool_decide (e.1 = k)) l.
Definition has_prefix (p : bytes) (e : entry) : bool := starts_with e.1 p.
Definition in_range (s t : bytes) (e : entry) : bool := bytes_leb s e.1 && bytes_ltb e.1 t.

(** Sorted insertion and removal: the view of a put and of a delete. *)
Fixpoint key_put (k v : bytes) (l : list entry) : list entry :=
  match l with
  | [] => [(k, v)]
  | e :: l' =>
      match bytes_cmp k e.1 with
      | Lt => (k, v) :: l
      | Eq => (k, v) :: l'
      | Gt => e :: key_put k v l'
      end
  end.
Definition key_del (k : bytes) (l : list entry) : list entry :=
  List.filter (fun e => negb (bool_decide (e.1 = k))) l.
Definition apply_op {P} `{EqDecision P} (p : P) (l : list entry) (o : batch_op P) : list entry :=
  match o with
  | BPut q k v => if decide (q = p) then key_put k v l else l
  | BDel q k => if decide (q = p) then key_del k l else l
  end.

(** On a healthy engine every call succeeds and reads one consistent view;
    scans are ascending (descending for [_rev]) in key order, windows are
    half-open, counts are exact and a batch commits as a whole, in order. *)
Class BackendLaws `{StorageBackend} := {
  contents : engine -> PartitionId -> list entry;
  healthy : engine -> Prop;
  (** The handle of a name: opening a partition is idempotent and distinct
      names are distinct partitions. *)
  partition_of : string -> PartitionId;
  partition_of_inj :: Inj (=) (=) partition_of;
  open_spec : forall e n, healthy e -> exists e',
    be_create_or_open_partition e n = Ok (e', partition_of n) /\ healthy e' /\
    forall p, contents e' p = contents e p;
  contents_sorted : forall e p, healthy e -> StronglySorted entry_lt (contents e p);
  get_spec : forall e p k, healthy e -> be_get e p k = Ok (key_get k (contents e p));
  get_many_spec : forall e p ks, healthy e ->
    be_get_many e p ks = Ok ((fun k => key_get k (contents e p)) <$> ks);
  scan_prefix_spec : forall e p q, healthy e ->
    be_scan_prefix e p q = (List.filter (has_prefix q) (contents e p), None);
  scan_range_spec : forall e p s t, healthy e ->
    be_scan_range e p s t = (List.filter (in_range s t) (contents e p), None);
  scan_range_rev_spec : forall e p s t, healthy e ->
    be_scan_range_rev e p s t = (reverse (List.filter (in_range s t) (contents e p)), None);
  scan_full_spec : forall e p, healthy e -> be_scan_full e p = (contents e p, None);
  count_prefix_spec : forall e p q, healthy e ->
    be_count_prefix e p q = Ok (lenZ (List.filter (has_prefix q) (contents e p)));
  count_range_spec : forall e p s t, healthy e ->
    be_count_range e p s t = Ok (lenZ (List.filter (in_range s t) (contents e p)));
  first_key_spec : forall e p, healthy e -> be_first_key e p = Ok (fst <$> head (contents e p));
  last_key_spec : forall e p, healthy e -> be_last_key e p = Ok (fst <$> last (contents e p));
  commit_spec : forall e ops, healthy e -> exists e',
    be_commit_batch e ops = Ok e' /\ healthy e' /\
    forall p, contents e' p = foldl (apply_op p) (contents e p) ops;
  poisoned_spec : forall e, healthy e -> be_is_poisoned e = false;
  flush_spec : forall e, healthy e -> be_flush e = Ok tt;
}.

(** ** Cancellation *)

Definition CHECK_EVERY : Z := 1000.

(** The read's token. The flag is set by another thread at any time: what the
    loop sees at its [seen]-th entry is an arbitrary function of [seen]. *)
Record CancelToken := { cancelled : Z -> bool; timeout_secs : Z }.

(** [checkpoint]: the new count, and the timeout error when a look at the
    thread's token finds it cancelled. *)
Definition checkpoint (current : option CancelToken) (seen : Z) : Z * res unit :=
  let seen := seen + 1 in
  if negb (seen mod CHECK_EVERY =? 0) then (seen, Ok tt)
  else match current with
       | Some token => if cancelled token seen then (seen, Err (QueryTimeout (timeout_secs token))) else (seen, Ok tt)
       | None => (seen, Ok tt)
       end.

(** ** Driving a visitor *)

Section visit.
Context {S : Type}.

(** The visitor over a scan's entries, stopped by [Break]; an error of the
    engine is met only if the scan gets that far. *)
Fixpoint visit_entries (visit : bytes -> bytes -> S -> S * control_flow)
    (entries : list entry) (err : option BackendError) (s : S) : S * option BackendError :=
  match entries with
  | [] => (s, err)
  | (k, v) :: entries =>
      match visit k v s with
      | (s, Break) => (s, None)
      | (s, Continue) => visit_entries visit entries err s
      end
  end.
Definition visit_scan (visit : bytes -> bytes -> S -> S * control_flow) (sc : scan) (s : S) : res S :=
  let '(s, err) := visit_entries visit sc.1 sc.2 s in
  match err with Some e => Err (from_backend e) | None => Ok s end.
End visit.

(** The loop of every scan: checkpoint, then the visitor. The timeout is
    remembered in the closure's [scan_err] and returned after the scan. *)
Definition checked {S} (current : option CancelToken) (visit : bytes -> bytes -> S -> S * control_flow)
    : bytes -> bytes -> Z * option AppError * S -> (Z * option AppError * S) * control_flow :=
  fun k v '(seen, scan_err, s) =>
    match checkpoint current seen with
    | (seen, Err e) => ((seen, Some e, s), Break)
    | (seen, Ok _) => let '(s, flow) := visit k v s in ((seen, scan_err, s), flow)
    end.
Definition visit_checked {S} (current : option CancelToken) (visit : bytes -> bytes -> S -> S * control_flow)
    (sc : scan) (s : S) : res S :=
  let? out := visit_scan (checked current visit) sc (0, None, s) in
  match out with
  | (_, Some e, _) => Err e
  | (_, None, s) => Ok s
  end.

(** [collect_keys]: every key of a partition, values never copied. *)
Definition collect_keys `{StorageBackend} (e : engine) (p : PartitionId) : BackendResult (list bytes) :=
  let sc := be_scan_full e p in
  match visit_entries (fun k _ keys => (keys ++ [k], Continue)) sc.1 sc.2 [] with
  | (keys, None) => Ok keys
  | (_, Some err) => Err err
  end.

(** ** Facts *)

(** A token that is never seen cancelled, or no token. *)
Definition live (current : option CancelToken) : Prop :=
  match current with Some t => forall n, cancelled t n = false | None => True end.

Lemma checkpoint_live current seen : live current -> checkpoint current seen = (seen + 1, Ok tt).
Proof. unfold checkpoint. destruct current as [t|]; cbn; [intros ->|]; by destruct (negb _). Qed.

(** The pure fold a scan performs when nothing interrupts it. *)
Fixpoint fold_entries {S} (visit : bytes -> bytes -> S -> S * control_flow) (entries : list entry) (s : S) : S :=
  match entries with
  | [] => s
  | (k, v) :: entries =>
      match visit k v s with
      | (s, Break) => s
      | (s, Continue) => fold_entries visit entries s
      end
  end.

Lemma visit_checked_live {S} current (visit : bytes -> bytes -> S -> S * control_flow) entries s :
  live current -> visit_checked current visit (entries, None) s = Ok (fold_entries visit entries s).
Proof.
  intros Hl. unfold visit_checked, visit_scan. cbn [fst snd]. generalize 0.
  revert s; induction entries as [|[k v] entries IH]; intros s n; cbn; [done|].
  rewrite checkpoint_live by done. destruct (visit k v s) as [s' []]; cbn; [apply IH|done].
Qed.

(** Without checkpoints. *)
Lemma visit_scan_ok {S} (visit : bytes -> bytes -> S -> S * control_flow) entries s :
  visit_scan visit (entries, None) s = Ok (fold_entries visit entries s).
Proof.
  unfold visit_scan. cbn [fst snd].
  revert s; induction entries as [|[k v] entries IH]; intros s; cbn; [done|].
  destruct (visit k v s) as [s' []]; [apply IH|done].
Qed.

Lemma fold_entries_app {S} (visit : bytes -> bytes -> S -> S * control_flow) l k s :
  (forall key v s, (visit key v s).2 = Continue) ->
  fold_entries visit (l ++ k) s = fold_entries visit k (fold_entries visit l s).
Proof.
  intros Hc. revert s; induction l as [|[a b] l IH]; intros s; cbn; [done|].
  specialize (Hc a b s). destruct (visit a b s) as [s' []]; [apply IH|done].
Qed.

(** A visitor that never breaks is a left fold. *)
Lemma fold_entries_foldl {S} (f : S -> entry -> S) entries s :
  fold_entries (fun k v s => (f s (k, v), Continue)) entries s = foldl f s entries.
Proof. revert s; induction entries as [|[k v] l IH]; intros s; cbn; [done|apply IH]. Qed.

#[export] Instance entry_lt_trans : Transitive entry_lt.
Proof.
  intros a b c Hab Hbc. unfold entry_lt in *.
  apply (cmp_lt_le_trans bytes_cmp _ b.1); [done|by rewrite Hbc].
Qed.

Lemma sorted_filter {A} (R : relation A) (f : A -> bool) l :
  StronglySorted R l -> StronglySorted R (List.filter f l).
Proof.
  induction 1 as [|x l Hs IH Hx]; cbn; [constructor|]. destruct (f x); [|done].
  constructor; [done|]. rewrite Forall_forall in Hx |- *. intros y [Hy _]%elem_of_List_filter. by apply Hx.
Qed.

Lemma key_put_sorted k v l : StronglySorted entry_lt l -> StronglySorted entry_lt (key_put k v l).
Proof.
  induction 1 as [|e l Hs IH Hx]; cbn; [by repeat constructor|].
  destruct (bytes_cmp k e.1) eqn:E.
  - apply lex_cmp_eq in E as ->. constructor; [done|]. eapply Forall_impl; [exact Hx|]. done.
  - constructor; [by constructor|]. constructor; [done|]. eapply Forall_impl; [exact Hx|].
    intros e' He'. by eapply (entry_lt_trans (k, v) e e').
  - constructor; [done|]. apply (cmp_gt_lt bytes_cmp) in E.
    clear -Hx E. induction Hx as [|e' l He' Hx IH]; cbn; [by repeat constructor|].
    destruct (bytes_cmp k e'.1) eqn:E'; repeat constructor; try done.
Qed.
Lemma key_del_sorted k l : StronglySorted entry_lt l -> StronglySorted entry_lt (key_del k l).
Proof. apply sorted_filter. Qed.
Lemma apply_op_sorted {P} `{EqDecision P} (p : P) l o :
  StronglySorted entry_lt l -> StronglySorted entry_lt (apply_op p l o).
Proof. destruct o; cbn; case_decide; auto using key_put_sorted, key_del_sorted. Qed.

(** *** Point views *)

#[export] Instance batch_op_eq_dec {P} `{EqDecision P} : EqDecision (batch_op P).
Proof. solve_decision. Defined.

Lemma key_get_put k' k v l : key_get k' (key_put k v l) = if decide (k = k') then Some v else key_get k' l.
Proof.
  unfold key_get. induction l as [|e l IH]; cbn.
  - rewrite bool_decide_decide. by destruct (decide (k = k')).
  - destruct (bytes_cmp k e.1) eqn:E; cbn.
    + apply lex_cmp_eq in E as ->. rewrite bool_decide_decide. by destruct (decide (e.1 = k')).
    + rewrite (bool_decide_decide (k = k')). by destruct (decide (k = k')).
    + assert (k <> e.1) by (intros ->; by rewrite (cmp_refl bytes_cmp) in E).
      rewrite !bool_decide_decide. destruct (decide (e.1 = k')) as [<-|]; [by rewrite decide_False|exact IH].
Qed.
Lemma key_get_del k' k l : key_get k' (key_del k l) = if decide (k = k') then None else key_get k' l.
Proof.
  unfold key_get, key_del. induction l as [|e l IH]; cbn; [by case_decide|].
  rewrite (bool_decide_decide (e.1 = k)). destruct (decide (e.1 = k)) as [->|Hne]; cbn.
  - rewrite IH, bool_decide_decide. by destruct (decide (k = k')).
  - rewrite bool_decide_decide. destruct (decide (e.1 = k')) as [E|]; [|exact IH].
    by rewrite decide_False by congruence.
Qed.
Lemma key_get_elem k v l : StronglySorted entry_lt l -> key_get k l = Some v <-> (k, v) ∈ l.
Proof.
  unfold key_get. induction 1 as [|e l Hs IH Hx]; cbn; [split; [done|by intros ?%elem_of_nil]|].
  rewrite bool_decide_decide, elem_of_cons. destruct (decide (e.1 = k)) as [<-|Hne]; cbn.
  - split; [intros [= <-]; left; by destruct e|]. intros [<-|Hin]; [done|].
    rewrite Forall_forall in Hx. specialize (Hx _ Hin). unfold entry_lt in Hx. cbn in Hx.
    by rewrite (cmp_refl bytes_cmp) in Hx.
  - rewrite IH. split; [by right|]. intros [<-|]; done.
Qed.

(** What one staged mutation does to the value at a key. *)
Definition op_effect {P} `{EqDecision P} (p : P) (k : bytes) (cur : option bytes) (o : batch_op P) : option bytes :=
  match o with
  | BPut q k' v => if decide (q = p /\ k' = k) then Some v else cur
  | BDel q k' => if decide (q = p /\ k' = k) then None else cur
  end.
Lemma key_get_batch {P} `{EqDecision P} (p : P) k ops l :
  key_get k (foldl (apply_op p) l ops) = foldl (op_effect p k) (key_get k l) ops.
Proof.
  revert l; induction ops as [|o ops IH]; intros l; cbn [foldl]; [done|]. rewrite IH. f_equal.
  destruct o as [q k' v|q k']; cbn [apply_op op_effect].
  - destruct (decide (q = p)) as [->|].
    + rewrite key_get_put. destruct (decide (k' = k)) as [->|]; [by rewrite decide_True|].
      by rewrite decide_False by naive_solver.
    + by rewrite decide_False by naive_solver.
  - destruct (decide (q = p)) as [->|].
    + rewrite key_get_del. destruct (decide (k' = k)) as [->|]; [by rewrite decide_True|].
      by rewrite decide_False by naive_solver.
    + by rewrite decide_False by naive_solver.
Qed.

(** The target of a staged mutation; a batch leaves other keys alone. *)
Definition op_target {P} (o : batch_op P) : P * bytes :=
  match o with BPut q k _ | BDel q k => (q, k) end.
Lemma op_effect_other {P} `{EqDecision P} (p : P) k cur o : op_target o <> (p, k) -> op_effect p k cur o = cur.
Proof. destruct o; cbn; intros; by rewrite decide_False by naive_solver. Qed.
Lemma batch_other {P} `{EqDecision P} (p : P) k cur ops :
  Forall (fun o => op_target o <> (p, k)) ops -> foldl (op_effect p k) cur ops = cur.
Proof. intros H. revert cur. induction H; intros cur; cbn; [done|]. by rewrite op_effect_other. Qed.
Lemma batch_dels {P} `{EqDecision P} (p : P) k cur ops :
  Forall (fun o => exists q j, o = BDel q j) ops ->
  foldl (op_effect p k) cur ops = if decide (BDel p k ∈ ops) then None else cur.
Proof.
  intros H. revert cur. induction H as [|o ops (q & j & ->) _ IH]; intros cur; cbn [foldl].
  - by rewrite decide_False by (intros ?%elem_of_nil; done).
  - rewrite IH. cbn. destruct (decide (BDel p k ∈ ops)) as [Hin|Hin].
    { by rewrite decide_True by (by right). }
    destruct (decide (q = p /\ j = k)) as [[-> ->]|Hne].
    + by rewrite decide_True by (by left).
    + rewrite decide_False; [done|]. intros [|]%elem_of_cons; naive_solver.
Qed.
Lemma batch_puts {P} `{EqDecision P} (p : P) k w cur ops :
  Forall (fun o => exists q j, o = BPut q j w) ops ->
  foldl (op_effect p k) cur ops = if decide (BPut p k w ∈ ops) then Some w else cur.
Proof.
  intros H. revert cur. induction H as [|o ops (q & j & ->) _ IH]; intros cur; cbn [foldl].
  - by rewrite decide_False by (intros ?%elem_of_nil; done).
  - rewrite IH. cbn. destruct (decide (BPut p k w ∈ ops)) as [Hin|Hin].
    { by rewrite decide_True by (by right). }
    destruct (decide (q = p /\ j = k)) as [[-> ->]|Hne].
    + by rewrite decide_True by (by left).
    + rewrite decide_False; [done|]. intros [|]%elem_of_cons; naive_solver.
Qed.

(** ** A reference backend: one sorted association list per partition *)

Module RefBackend.
Definition store := string -> list entry.
Record db := { data : store; sorted : forall p, StronglySorted entry_lt (data p) }.

Lemma ops_sorted (p : string) ops l :
  StronglySorted entry_lt l -> StronglySorted entry_lt (foldl (apply_op p) l ops).
Proof. revert l; induction ops as [|o ops IH]; intros l Hl; cbn; [done|]. by apply IH, apply_op_sorted. Qed.
Definition commit (d : db) (ops : list (batch_op string)) : db :=
  {| data p := foldl (apply_op p) (data d p) ops;
     sorted p := ops_sorted p ops (data d p) (sorted d p) |}.
Definition empty_db : db := {| data _ := []; sorted _ := SSorted_nil _ |}.

#[export] Instance backend : StorageBackend := {
  engine := db;
  PartitionId := string;
  be_create_or_open_partition d n := Ok (d, n);
  be_get d p k := Ok (key_get k (data d p));
  be_get_many d p ks := Ok ((fun k => key_get k (data d p)) <$> ks);
  be_scan_prefix d p q := (List.filter (has_prefix q) (data d p), None);
  be_scan_range d p s t := (List.filter (in_range s t) (data d p), None);
  be_scan_range_rev d p s t := (reverse (List.filter (in_range s t) (data d p)), None);
  be_scan_full d p := (data d p, None);
  be_count_prefix d p q := Ok (lenZ (List.filter (has_prefix q) (data d p)));
  be_count_range d p s t := Ok (lenZ (List.filter (in_range s t) (data d p)));
  be_first_key d p := Ok (fst <$> head (data d p));
  be_last_key d p := Ok (fst <$> last (data d p));
  be_commit_batch d ops := Ok (commit d ops);
  be_is_poisoned _ := false;
  be_flush _ := Ok tt;
}.
#[export] Program Instance laws : BackendLaws := {
  contents := data;
  healthy _ := True;
  partition_of n := n;
}.
Next Obligation. intros d n _. by exists d. Qed.
Next Obligation. intros d p _. apply sorted. Qed.
Solve Obligations with (intros; done).
Next Obligation. intros d ops _. by exists (commit d ops). Qed.
End RefBackend.

(** ** Properties *)

Lemma cancelled_fold {S} t (visit : bytes -> bytes -> S -> S * control_flow) pre rest err seen s :
  (forall k v s, (visit k v s).2 = Continue) ->
  pre <> [] -> 0 <= seen -> (seen + lenZ pre) mod CHECK_EVERY = 0 -> cancelled t (seen + lenZ pre) = true ->
  exists seen' s', visit_entries (checked (Some t) visit) (pre ++ rest) err (seen, None, s) =
    ((seen', Some (QueryTimeout (timeout_secs t)), s'), None).
Proof.
  intros Hv. revert seen s; induction pre as [|[k v] pre IH]; intros seen s Hne Hs Hm Hc; [done|].
  cbn [app visit_entries checked]. unfold checkpoint.
  assert (Hl : seen + lenZ ((k, v) :: pre) = seen + 1 + lenZ pre) by (unfold lenZ; cbn [length]; lia).
  rewrite Hl in Hm, Hc. specialize (Hv k v s) as Hvs. destruct pre as [|e pre].
  { unfold lenZ in Hm, Hc. cbn [length Z.of_nat] in Hm, Hc. rewrite Z.add_0_r in Hm, Hc.
    rewrite Hm, Hc. cbn. by do 2 eexists. }
  destruct (negb ((seen + 1) mod CHECK_EVERY =? 0)); [|destruct (cancelled t (seen + 1)); [by do 2 eexists|]];
    destruct (visit k v s) as [s' []]; try done; (apply IH; [done|lia|done..]).
Qed.

(** cooperative cancellation. A scan whose token is found cancelled at a
    multiple of [CHECK_EVERY] entries answers the token's timeout without
    reading a further entry (whatever follows, an engine error included); a
    scan with no token, or a token never cancelled, runs exactly the visitor's
    fold over all entries. *)
Theorem cancelled_scan_stops {S} (t : CancelToken) (current : option CancelToken)
    (visit : bytes -> bytes -> S -> S * control_flow) (pre rest : list entry)
    (err : option BackendError) (s : S) :
  (forall k v s, (visit k v s).2 = Continue) -> live current ->
  pre <> [] -> lenZ pre mod CHECK_EVERY = 0 -> cancelled t (lenZ pre) = true ->
  visit_checked (Some t) visit (pre ++ rest, err) s = Err (QueryTimeout (timeout_secs t)) /\
  visit_checked current visit (pre ++ rest, None) s = Ok (fold_entries visit (pre ++ rest) s).
Proof.
  intros Hv Hl Hne Hm Hc. split; [|by apply visit_checked_live].
  destruct (cancelled_fold t visit pre rest err 0 s Hv Hne) as (n & s' & E); [lia|done|done|].
  unfold visit_checked, visit_scan. cbn [fst snd]. by rewrite E.
Qed.

Lemma cancelled_scan_stops_witness :
  visit_checked (Some {| cancelled n := 500 <=? n; timeout_secs := 7 |})
    (fun _ _ n => (n + 1, Continue)) (replicate 1000 ([], []) ++ [([1], [])], Some (BInternal "io")) 0
  = Err (QueryTimeout 7).
Proof.
  apply (cancelled_scan_stops {| cancelled n := 500 <=? n; timeout_secs := 7 |} None
    (fun _ _ n => (n + 1, Continue)) (replicate 1000 ([], [])) [([1], [])] (Some (BInternal "io")) 0);
    [done|exact I|discriminate|vm_compute; reflexivity..].
Defined.
