(* ===== verification/Index.v ===== *)
(** * The index manager ([crates/wardsondb/src/index/mod.rs])

    The registry of a database's secondary indexes, the choice of an index
    for a query, the entries a document write stages, and the equality, range
    and [$in] lookups with their counts. The registry is a [HashMap]: the
    model keeps its entries as a list in iteration order. The theorems about a
    state hold for every order; along a history a new entry goes to the end,
    which only the choice among indexes that serve a request alike can tell. *)

From S2P Require Import Prelude Bytes F64 Json Errors Externals Filter Secondary Backend.

(** One backend scan over an index partition. *)
Inductive IndexScanShape :=
| ShapePrefix (p : bytes)
| ShapeRange (start end_ : bytes).

Section index.
Context `{SerdeJson} `{StorageBackend}.

Definition shape_entries (shape : IndexScanShape) (e : engine) (partition : PartitionId) : scan :=
  match shape with
  | ShapePrefix p => be_scan_prefix e partition p
  | ShapeRange start end_ => be_scan_range e partition start end_
  end.
(** [IndexScanShape::scan]: the visitor behind the timeout checkpoint. *)
Definition shape_scan {S} (current : option CancelToken) (shape : IndexScanShape) (e : engine)
    (partition : PartitionId) (visit : bytes -> bytes -> S -> S * control_flow) (s : S) : res S :=
  visit_checked current visit (shape_entries shape e partition) s.

(** ** The registry *)

Record IndexEntry := { entry_def : IndexDef; entry_partition : PartitionId }.
Definition IndexManager : Type := list ((string * string) * IndexEntry).

Definition register (m : IndexManager) (def : IndexDef) (partition : PartitionId) : IndexManager :=
  let key := (idx_collection def, idx_name def) in
  List.filter (fun kv => negb (bool_decide (kv.1 = key))) m ++
    [(key, {| entry_def := def; entry_partition := partition |})].
Definition unregister (m : IndexManager) (collection name : string) : IndexManager :=
  List.filter (fun kv => negb (bool_decide (kv.1 = (collection, name)))) m.

Definition get_indexes_for_collection (m : IndexManager) (collection : string) : list IndexDef :=
  (fun kv => entry_def kv.2) <$> List.filter (fun kv => bool_decide (kv.1.1 = collection)) m.

(** Single-field indexes only, never a compound one whose first field
    matches. *)
Definition get_index_for_field (m : IndexManager) (collection field : string)
    : option (IndexDef * PartitionId) :=
  (fun kv => (entry_def kv.2, entry_partition kv.2)) <$>
  List.find (fun kv =>
    bool_decide (kv.1.1 = collection) &&
    match idx_fields (entry_def kv.2) with [f] => bool_decide (f = field) | _ => false end) m.

(** How many leading fields of an index carry an equality. *)
Fixpoint count_matched (eq_field_names idx_fields : list string) : nat :=
  match idx_fields with
  | [] => 0
  | f :: idx_fields =>
      if bool_decide (f ∈ eq_field_names) then S (count_matched eq_field_names idx_fields) else 0
  end.

Abbreviation best := (option (IndexDef * PartitionId * nat)).
(** [best.as_ref().is_none_or(|(_, _, bm)| matched > *bm)] *)
Definition improves (b : best) (matched : nat) : bool :=
  match b with None => true | Some (_, _, bm) => bool_decide (bm < matched)%nat end.

Definition compound_candidate (collection : string) (eq_field_names sort_fields : list string)
    (b : best) (kv : (string * string) * IndexEntry) : best :=
  let '((col, _), entry) := kv in
  if negb (bool_decide (col = collection)) || negb (is_compound (entry_def entry)) then b else
  let fields := idx_fields (entry_def entry) in
  let matched := count_matched eq_field_names fields in
  if bool_decide (matched = 0%nat) then b else
  match sort_fields with
  | [] =>
      if bool_decide (2 <= matched)%nat && improves b matched
      then Some (entry_def entry, entry_partition entry, matched) else b
  | _ =>
      let need := (matched + length sort_fields)%nat in
      if bool_decide (need <= length fields)%nat &&
         bool_decide (take (length sort_fields) (drop matched fields) = sort_fields) &&
         improves b matched
      then Some (entry_def entry, entry_partition entry, matched) else b
  end.
Definition find_compound_index (m : IndexManager) (collection : string)
    (eq_field_names sort_fields : list string) : best :=
  foldl (compound_candidate collection eq_field_names sort_fields) None m.

Definition compound_range_candidate (collection : string) (eq_field_names : list string)
    (range_field : string) (b : best) (kv : (string * string) * IndexEntry) : best :=
  let '((col, _), entry) := kv in
  if negb (bool_decide (col = collection)) || negb (is_compound (entry_def entry)) then b else
  let fields := idx_fields (entry_def entry) in
  let matched := count_matched eq_field_names fields in
  if bool_decide (matched = 0%nat) then b else
  if bool_decide (fields !! matched = Some range_field) && improves b matched
  then Some (entry_def entry, entry_partition entry, matched) else b.
Definition find_compound_range_index (m : IndexManager) (collection : string)
    (eq_field_names : list string) (range_field : string) : best :=
  foldl (compound_range_candidate collection eq_field_names range_field) None m.

Definition get_index_partition (m : IndexManager) (collection name : string) : option PartitionId :=
  (fun kv => entry_partition kv.2) <$> List.find (fun kv => bool_decide (kv.1 = (collection, name))) m.

(** ** Entries of a document *)

(** The key an index holds for a document: none when a field is missing. An
    index without fields cannot be created; the code would panic on one. *)
Definition index_entry_key (def : IndexDef) (doc_id : string) (doc : Value) : option bytes :=
  if is_compound def then
    let values := omap (fun f => resolve_json_path doc f) (idx_fields def) in
    if lenZ values =? lenZ (idx_fields def)
    then Some (make_compound_index_key values doc_id) else None
  else
    f ← head (idx_fields def);
    field_val ← resolve_json_path doc f;
    Some (make_index_key field_val doc_id).

Definition stage_entries (mk : PartitionId -> bytes -> batch_op PartitionId) (m : IndexManager)
    (batch : list (batch_op PartitionId)) (collection doc_id : string) (doc : Value) : list (batch_op PartitionId) :=
  foldl (fun batch kv =>
    if negb (bool_decide (kv.1.1 = collection)) then batch
    else match index_entry_key (entry_def kv.2) doc_id doc with
         | Some key => batch ++ [mk (entry_partition kv.2) key]
         | None => batch
         end) batch m.
Definition add_index_entries_to_batch : IndexManager -> list (batch_op PartitionId) -> string -> string -> Value -> list (batch_op PartitionId) :=
  stage_entries (fun p key => BPut p key []).
Definition remove_index_entries_from_batch : IndexManager -> list (batch_op PartitionId) -> string -> string -> Value -> list (batch_op PartitionId) :=
  stage_entries (fun p key => BDel p key).

(** ** Scans *)

Definition separator (def : IndexDef) : Z := if is_compound def then 1 else 0.

Definition eq_scan (m : IndexManager) (collection field : string) (value : Value)
    : option (PartitionId * bytes) :=
  '(def, partition) ← get_index_for_field m collection field;
  Some (partition, value_to_sortable_bytes value ++ [separator def]).

Definition range_scan (m : IndexManager) (collection field : string)
    (lower upper : option (Value * bool)) : option (PartitionId * RangeScanBounds) :=
  '(_, partition) ← get_index_for_field m collection field;
  let lower_bytes := (fun '(v, inclusive) => (value_to_sortable_bytes v, inclusive)) <$> lower in
  let upper_bytes := (fun '(v, inclusive) => (value_to_sortable_bytes v, inclusive)) <$> upper in
  Some (partition, range_scan_bounds [] lower_bytes upper_bytes).

(** One prefix per value, deduplicated, in first-occurrence order. *)
Fixpoint in_prefixes (sep : Z) (values : list Value) (seen prefixes : list bytes) : list bytes :=
  match values with
  | [] => prefixes
  | value :: values =>
      let prefix := value_to_sortable_bytes value ++ [sep] in
      if bool_decide (prefix ∈ seen) then in_prefixes sep values seen prefixes
      else in_prefixes sep values (prefix :: seen) (prefixes ++ [prefix])
  end.
Definition in_scan (m : IndexManager) (collection field : string) (values : list Value)
    : option (PartitionId * list bytes) :=
  '(def, partition) ← get_index_for_field m collection field;
  Some (partition, in_prefixes (separator def) values [] []).

(** The id collector shared by the lookups. *)
Definition push_id (k v : bytes) (ids : list string) : list string * control_flow :=
  (match extract_doc_id_from_key k with Some id => ids ++ [id] | None => ids end, Continue).

Definition lookup_eq (current : option CancelToken) (m : IndexManager) (e : engine)
    (collection field : string) (value : Value) : res (option (list string)) :=
  match eq_scan m collection field value with
  | None => Ok None
  | Some (partition, prefix) =>
      let? ids := shape_scan current (ShapePrefix prefix) e partition push_id [] in
      Ok (Some ids)
  end.

Definition lookup_range (current : option CancelToken) (m : IndexManager) (e : engine)
    (collection field : string) (lower upper : option (Value * bool)) : res (option (list string)) :=
  match range_scan m collection field lower upper with
  | None => Ok None
  | Some (_, RangeEmpty) => Ok (Some [])
  | Some (partition, RangeSpan start end_) =>
      let? ids := shape_scan current (ShapeRange start end_) e partition push_id [] in
      Ok (Some ids)
  end.

Fixpoint scan_prefixes (current : option CancelToken) (e : engine) (partition : PartitionId)
    (prefixes : list bytes) (all_ids : list string) : res (list string) :=
  match prefixes with
  | [] => Ok all_ids
  | prefix :: prefixes =>
      let? all_ids := shape_scan current (ShapePrefix prefix) e partition push_id all_ids in
      scan_prefixes current e partition prefixes all_ids
  end.
Definition lookup_in (current : option CancelToken) (m : IndexManager) (e : engine)
    (collection field : string) (values : list Value) : res (option (list string)) :=
  match in_scan m collection field values with
  | None => Ok None
  | Some (partition, prefixes) =>
      let? ids := scan_prefixes current e partition prefixes [] in
      Ok (Some ids)
  end.

(** [.ok()] *)
Definition ok {E A} (r : result E A) : option A := match r with Ok a => Some a | Err _ => None end.

Definition count_eq (m : IndexManager) (e : engine) (collection field : string) (value : Value) : option Z :=
  '(def, partition) ← get_index_for_field m collection field;
  let prefix := value_to_sortable_bytes value ++ [separator def] in
  ok (be_count_prefix e partition prefix).

Definition count_range (m : IndexManager) (e : engine) (collection field : string)
    (lower upper : option (Value * bool)) : option Z :=
  '(_, partition) ← get_index_for_field m collection field;
  let lower_bytes := (fun '(v, inclusive) => (value_to_sortable_bytes v, inclusive)) <$> lower in
  let upper_bytes := (fun '(v, inclusive) => (value_to_sortable_bytes v, inclusive)) <$> upper in
  match range_scan_bounds [] lower_bytes upper_bytes with
  | RangeEmpty => Some 0
  | RangeSpan start end_ => ok (be_count_range e partition start end_)
  end.
End index.

(** ** Facts: collecting ids *)

Section collect.
Context `{SerdeJson} `{StorageBackend}.

(** The ids of a list of index entries, in order. *)
Definition entry_ids (l : list entry) : list string := omap (fun e => extract_doc_id_from_key e.1) l.

Lemma push_id_fold l ids : fold_entries push_id l ids = ids ++ entry_ids l.
Proof.
  revert ids; induction l as [|[k v] l IH]; intros ids; cbn; [by rewrite app_nil_r|].
  unfold entry_ids in *. cbn. rewrite IH. destruct (extract_doc_id_from_key k); [|done].
  by rewrite <- app_assoc.
Qed.

Lemma NoDup_omap {A B} (f : A -> option B) (l : list A) :
  NoDup l -> (forall x y b, x ∈ l -> y ∈ l -> f x = Some b -> f y = Some b -> x = y) ->
  NoDup (omap f l).
Proof.
  induction 1 as [|x l Hx Hnd IH]; intros Hinj; cbn; [constructor|].
  assert (NoDup (omap f l)) as IH'.
  { apply IH. intros ????? ; apply Hinj; by right. }
  destruct (f x) as [b|] eqn:Hf; [|done]. constructor; [|done].
  rewrite list_elem_of_omap. intros (y & Hy & Hfy). apply Hx.
  rewrite (Hinj x y b); [done|by left|by right|done..].
Qed.
Lemma length_omap_all {A B} (f : A -> option B) (l : list A) :
  Forall (fun x => is_Some (f x)) l -> length (omap f l) = length l.
Proof. induction 1 as [|x l [b Hb] Hl IH]; cbn; [done|]. rewrite Hb. cbn. by rewrite IH. Qed.

Lemma sorted_NoDup (l : list entry) : StronglySorted entry_lt l -> NoDup l.
Proof.
  induction 1 as [|x l Hs IH Hx]; constructor; [|done]. intros Hin.
  rewrite Forall_forall in Hx. specialize (Hx _ Hin). unfold entry_lt in Hx.
  by rewrite (cmp_refl bytes_cmp) in Hx.
Qed.
End collect.

Section contents_facts.
Context `{SerdeJson} `{!SerdeLaws} `{BackendLaws}.

(** An index partition holds exactly the entries of the collection's
    documents. *)
Definition index_holds (e : engine) (def : IndexDef) (p : PartitionId) (docs : gmap string Value) : Prop :=
  forall k v, (k, v) ∈ contents e p <->
    v = [] /\ exists id doc, docs !! id = Some doc /\ index_entry_key def id doc = Some k.
(** Ids as validated, and indexed values without NUL. *)
Definition docs_safe (docs : gmap string Value) (field : string) : Prop :=
  forall id doc, docs !! id = Some doc -> id_safe id /\
    forall w, resolve_json_path doc field = Some w -> index_safe w.
(** The documents whose value at [field] satisfies [P]. *)
Definition field_selects (docs : gmap string Value) (field : string) (P : Value -> bool) (id : string) : Prop :=
  exists doc w, docs !! id = Some doc /\ resolve_json_path doc field = Some w /\ P w = true.

Lemma index_for_field_single m collection field def p :
  get_index_for_field m collection field = Some (def, p) -> idx_fields def = [field].
Proof.
  unfold get_index_for_field. destruct (List.find _ m) as [[key ent]|] eqn:E; [|done].
  apply List.find_some in E as [_ E]. cbn. intros [= <- <-]. cbn in E.
  apply andb_prop in E as [_ E]. destruct (idx_fields (entry_def ent)) as [|f [|]]; try done.
  by apply bool_decide_eq_true in E as ->.
Qed.
Lemma index_for_field_in m collection field def p : get_index_for_field m collection field = Some (def, p) ->
  exists kv, kv ∈ m /\ kv.1.1 = collection /\ entry_def kv.2 = def /\ entry_partition kv.2 = p.
Proof.
  unfold get_index_for_field. destruct (List.find _ m) as [kv|] eqn:E; [|done]. cbn. intros [= <- <-].
  apply List.find_some in E as [Hin E]. apply andb_prop in E as [E _]. apply bool_decide_eq_true in E.
  exists kv. split; [by apply list_elem_of_In|done].
Qed.
Lemma single_entry_key def field id doc : idx_fields def = [field] ->
  index_entry_key def id doc = (fun w => make_index_key w id) <$> resolve_json_path doc field.
Proof.
  intros Hf. unfold index_entry_key, is_compound. rewrite Hf. cbn.
  by destruct (resolve_json_path doc field).
Qed.

Context (e : engine) (def : IndexDef) (p : PartitionId) (docs : gmap string Value) (field : string).
Context (Hh : healthy e) (Hf : idx_fields def = [field]) (Hix : index_holds e def p docs)
  (Hsafe : docs_safe docs field).

Lemma index_entry_view k v : (k, v) ∈ contents e p ->
  exists id doc w, docs !! id = Some doc /\ resolve_json_path doc field = Some w /\
    k = make_index_key w id /\ v = [] /\ extract_doc_id_from_key k = Some id.
Proof.
  intros (-> & id & doc & Hd & Hk)%Hix. rewrite (single_entry_key _ field) in Hk by done.
  destruct (resolve_json_path doc field) as [w|] eqn:Hw; [|done]. injection Hk as <-.
  exists id, doc, w. rewrite make_index_key_spec. split_and!; try done.
  apply extract_spec. by destruct (Hsafe _ _ Hd).
Qed.

(** Every selection of an index's entries by key gives each selected
    document once. *)
Lemma collect_spec (sel : entry -> bool) (P : Value -> bool) :
  (forall id w, id_safe id -> index_safe w -> sel (make_index_key w id, []) = P w) ->
  let entries := List.filter sel (contents e p) in
  NoDup (entry_ids entries) /\ length (entry_ids entries) = length entries /\
  forall id, id ∈ entry_ids entries <-> field_selects docs field P id.
Proof.
  intros Hsel entries. split; [|split].
  - apply NoDup_omap.
    + apply sorted_NoDup, sorted_filter, contents_sorted, Hh.
    + intros [k v] [k' v'] id [Hx _]%elem_of_List_filter [Hy _]%elem_of_List_filter Ek Ek'.
      apply index_entry_view in Hx as (i & d & w & Hd & Hw & -> & -> & Hi).
      apply index_entry_view in Hy as (i' & d' & w' & Hd' & Hw' & -> & -> & Hi').
      cbn in *. assert (i = id) as -> by congruence. assert (i' = id) as -> by congruence. congruence.
  - apply length_omap_all, Forall_forall. intros [k v] [Hx _]%elem_of_List_filter.
    apply index_entry_view in Hx as (i & d & w & _ & _ & _ & _ & Hi). by exists i.
  - intros id. unfold entry_ids. rewrite list_elem_of_omap. split.
    + intros ([k v] & [Hx Hs]%elem_of_List_filter & Ek).
      apply index_entry_view in Hx as (i & d & w & Hd & Hw & -> & -> & Hi). cbn in Ek.
      assert (i = id) as -> by congruence. exists d, w. split_and!; try done.
      destruct (Hsafe _ _ Hd) as [? Hws]. by rewrite Hsel in Hs by auto.
    + intros (d & w & Hd & Hw & HP). destruct (Hsafe _ _ Hd) as [? Hws].
      exists (make_index_key w id, []). split.
      * apply elem_of_List_filter. rewrite Hsel by auto. split; [|done].
        apply Hix. split; [done|]. exists id, d. rewrite (single_entry_key _ field), Hw by done. done.
      * cbn. rewrite make_index_key_spec. by apply extract_spec.
Qed.

(** The window of one equality. *)
Definition eq_total (v w : Value) : bool := bool_decide (compare_values_total w v = Eq).
Lemma eq_window v id w : index_safe v -> index_safe w ->
  has_prefix (value_to_sortable_bytes v ++ [0]) (make_index_key w id, []) = eq_total v w.
Proof.
  intros Hv Hw. unfold has_prefix, eq_total. cbn. rewrite make_index_key_spec.
  rewrite starts_with_sep by (by apply enc_apart). apply bool_decide_ext. apply enc_eq_iff.
Qed.
End contents_facts.

Section in_facts.
Context `{SerdeJson}.

(** [$in] scans each encoded value once, in first-occurrence order. *)
Lemma in_prefixes_spec sep values seen prefixes :
  NoDup prefixes -> (forall q, q ∈ seen <-> q ∈ prefixes) ->
  NoDup (in_prefixes sep values seen prefixes) /\
  forall q, q ∈ in_prefixes sep values seen prefixes <->
    q ∈ prefixes \/ exists v, v ∈ values /\ q = value_to_sortable_bytes v ++ [sep].
Proof.
  revert seen prefixes; induction values as [|v values IH]; intros seen prefixes Hnd Hseen; cbn.
  - split; [done|]. intros q. split; [by left|]. intros [?|(? & []%elem_of_nil & _)]; done.
  - case_bool_decide as Hin.
    + destruct (IH seen prefixes Hnd Hseen) as [H1 H2]. split; [done|]. intros q. rewrite H2.
      apply Hseen in Hin. set_solver.
    + destruct (IH ((value_to_sortable_bytes v ++ [sep]) :: seen) (prefixes ++ [value_to_sortable_bytes v ++ [sep]])) as [H1 H2].
      * apply NoDup_app. split; [done|]. split; [|apply NoDup_singleton].
        rewrite Hseen in Hin. set_solver.
      * set_solver.
      * split; [done|]. intros q. rewrite H2. set_solver.
Qed.
End in_facts.

(** ** Properties *)

Section lookup_properties.
Context `{SerdeJson} `{!SerdeLaws} `{BackendLaws}.

(** What an equality lookup answers. *)
Lemma lookup_eq_ids (current : option CancelToken) (m : IndexManager) (e : engine)
    (collection field : string) (v : Value) (def : IndexDef) (p : PartitionId) (docs : gmap string Value) :
  live current -> healthy e ->
  get_index_for_field m collection field = Some (def, p) -> index_holds e def p docs ->
  docs_safe docs field -> index_safe v ->
  exists ids, lookup_eq current m e collection field v = Ok (Some ids) /\ NoDup ids /\
    count_eq m e collection field v = Some (lenZ ids) /\
    forall id, id ∈ ids <-> field_selects docs field (eq_total v) id.
Proof.
  intros Hl Hh Hm Hix Hsafe Hv. pose proof (index_for_field_single _ _ _ _ _ Hm) as Hf.
  destruct (collect_spec e def p docs field Hh Hf Hix Hsafe
    (has_prefix (value_to_sortable_bytes v ++ [0])) (eq_total v)) as (Hnd & Hlen & Hin).
  { intros id w _ Hw. by apply eq_window. }
  exists (entry_ids (List.filter (has_prefix (value_to_sortable_bytes v ++ [0])) (contents e p))).
  assert (Hsep : separator def = 0) by (unfold separator, is_compound; by rewrite Hf).
  split_and!; [|done| |done].
  - unfold lookup_eq, eq_scan. rewrite Hm. cbn. rewrite Hsep. unfold shape_scan, shape_entries.
    rewrite scan_prefix_spec by done. rewrite visit_checked_live by done. cbn. by rewrite push_id_fold.
  - unfold count_eq. rewrite Hm. cbn. rewrite Hsep, count_prefix_spec by done. cbn.
    unfold lenZ. by rewrite Hlen.
Qed.

(** An equality lookup through a single-field index is exact. On a
    healthy engine whose index partition holds the entries of the
    collection's documents, [lookup_eq] answers the ids of exactly the
    documents whose value at the field is equal in the total order, each
    once, and [count_eq] their number. *)
Theorem lookup_eq_exact (current : option CancelToken) (m : IndexManager) (e : engine)
    (collection field : string) (v : Value) (def : IndexDef) (p : PartitionId) (docs : gmap string Value) :
  live current -> healthy e ->
  get_index_for_field m collection field = Some (def, p) -> index_holds e def p docs ->
  docs_safe docs field -> index_safe v ->
  exists ids, lookup_eq current m e collection field v = Ok (Some ids) /\ NoDup ids /\
    count_eq m e collection field v = Some (lenZ ids) /\
    forall id, id ∈ ids <-> field_selects docs field (eq_total v) id.
Proof. apply lookup_eq_ids. Qed.

Lemma lookup_range_ids (current : option CancelToken) (m : IndexManager) (e : engine)
    (collection field : string) (lower upper : option (Value * bool)) (def : IndexDef) (p : PartitionId)
    (docs : gmap string Value) :
  live current -> healthy e ->
  get_index_for_field m collection field = Some (def, p) -> index_holds e def p docs ->
  docs_safe docs field -> is_Some lower \/ is_Some upper -> bounds_safe lower -> bounds_safe upper ->
  exists ids, lookup_range current m e collection field lower upper = Ok (Some ids) /\ NoDup ids /\
    count_range m e collection field lower upper = Some (lenZ ids) /\
    forall id, id ∈ ids <-> field_selects docs field (fun w => lower_sem lower w && upper_sem upper w) id.
Proof.
  intros Hl Hh Hm Hix Hsafe Hb Hlo Hup. pose proof (index_for_field_single _ _ _ _ _ Hm) as Hf.
  set (bounds := range_scan_bounds [] (bound_bytes lower) (bound_bytes upper)).
  destruct (collect_spec e def p docs field Hh Hf Hix Hsafe
    (fun x => in_window bounds x.1) (fun w => lower_sem lower w && upper_sem upper w)) as (Hnd & Hlen & Hin).
  { intros id w Hid Hw. by apply range_window_spec. }
  exists (entry_ids (List.filter (fun x => in_window bounds x.1) (contents e p))).
  unfold lookup_range, count_range, range_scan. rewrite Hm. cbn.
  change (range_scan_bounds [] _ _) with bounds.
  destruct bounds as [|s t]; cbn [in_window] in *.
  - assert (Hnil : forall l : list entry, List.filter (fun _ => false) l = []) by (induction l; done).
    rewrite Hnil in *. done.
  - split_and!; [|done| |done].
    + unfold shape_scan, shape_entries. rewrite scan_range_spec by done.
      rewrite visit_checked_live by done. cbn. by rewrite push_id_fold.
    + rewrite count_range_spec by done. cbn. unfold lenZ. by rewrite Hlen.
Qed.

(** A range lookup is exact and type-bracketed: [lookup_range] answers,
    in index order, the ids of exactly the documents whose value at the
    field passes the bounds in the total order and has their type, each once;
    [count_range] their number. *)
Theorem lookup_range_exact (current : option CancelToken) (m : IndexManager) (e : engine)
    (collection field : string) (lower upper : option (Value * bool)) (def : IndexDef) (p : PartitionId)
    (docs : gmap string Value) :
  live current -> healthy e ->
  get_index_for_field m collection field = Some (def, p) -> index_holds e def p docs ->
  docs_safe docs field -> is_Some lower \/ is_Some upper -> bounds_safe lower -> bounds_safe upper ->
  exists ids, lookup_range current m e collection field lower upper = Ok (Some ids) /\ NoDup ids /\
    count_range m e collection field lower upper = Some (lenZ ids) /\
    forall id, id ∈ ids <-> field_selects docs field (fun w => lower_sem lower w && upper_sem upper w) id.
Proof. apply lookup_range_ids. Qed.

Lemma scan_prefixes_ids current e p prefixes acc : live current -> healthy e ->
  scan_prefixes current e p prefixes acc =
  Ok (acc ++ (prefixes ≫= fun q => entry_ids (List.filter (has_prefix q) (contents e p)))).
Proof.
  intros Hl Hh. revert acc; induction prefixes as [|q prefixes IH]; intros acc; cbn; [by rewrite app_nil_r|].
  unfold shape_scan, shape_entries. rewrite scan_prefix_spec by done.
  rewrite visit_checked_live by done. cbn. rewrite push_id_fold, IH. by rewrite <- app_assoc.
Qed.

Lemma union_ids e def p docs field prefixes :
  healthy e -> idx_fields def = [field] -> index_holds e def p docs -> docs_safe docs field ->
  NoDup prefixes ->
  Forall (fun q => exists v, index_safe v /\ q = value_to_sortable_bytes v ++ [0]) prefixes ->
  let ids := prefixes ≫= fun q => entry_ids (List.filter (has_prefix q) (contents e p)) in
  NoDup ids /\
  forall id, id ∈ ids <->
    exists q, q ∈ prefixes /\ field_selects docs field (fun w => bool_decide (q = value_to_sortable_bytes w ++ [0])) id.
Proof.
  intros Hh Hf Hix Hsafe. induction 1 as [|q prefixes Hq Hnd IH]; intros Hall; cbn.
  { split; [constructor|]. intros id. split; [by intros ?%elem_of_nil|by intros (? & ?%elem_of_nil & _)]. }
  inversion Hall as [|? ? (v & Hv & Hqv) Hall']; subst.
  destruct (IH Hall') as [IHnd IHin]. clear IH.
  set (q := value_to_sortable_bytes v ++ [0]) in *.
  destruct (collect_spec e def p docs field Hh Hf Hix Hsafe (has_prefix q)
    (fun w => bool_decide (q = value_to_sortable_bytes w ++ [0]))) as (Hnd1 & _ & Hin1).
  { intros id w _ Hw. unfold q. rewrite (eq_window v) by done. apply bool_decide_ext.
    rewrite <- enc_eq_iff. split; [by intros ->|by intros ?%app_inj_tail_iff; intuition]. }
  split.
  - apply NoDup_app. split; [done|]. split; [|done]. intros id Hid Hid'.
    apply Hin1 in Hid as (d & w & Hd & Hw & E%bool_decide_eq_true).
    apply IHin in Hid' as (q' & Hq' & d' & w' & Hd' & Hw' & E'%bool_decide_eq_true).
    apply Hq. assert (d' = d) as -> by congruence. assert (w' = w) as -> by congruence.
    rewrite E, <- E'. done.
  - intros id. rewrite elem_of_app, Hin1, IHin. set_solver.
Qed.

Lemma lookup_in_ids (current : option CancelToken) (m : IndexManager) (e : engine)
    (collection field : string) (values : list Value) (def : IndexDef) (p : PartitionId)
    (docs : gmap string Value) :
  live current -> healthy e ->
  get_index_for_field m collection field = Some (def, p) -> index_holds e def p docs ->
  docs_safe docs field -> Forall index_safe values ->
  exists ids, lookup_in current m e collection field values = Ok (Some ids) /\ NoDup ids /\
    forall id, id ∈ ids <-> field_selects docs field (fun w => existsb (fun v => eq_total v w) values) id.
Proof.
  intros Hl Hh Hm Hix Hsafe Hvs. pose proof (index_for_field_single _ _ _ _ _ Hm) as Hf.
  destruct (in_prefixes_spec 0 values [] []) as [Hnd Hin]; [constructor|done|].
  assert (Hsep : separator def = 0) by (unfold separator, is_compound; by rewrite Hf).
  destruct (union_ids e def p docs field (in_prefixes 0 values [] [])) as [Hnd' Hin']; try done.
  { apply Forall_forall. intros q [[]%elem_of_nil|(v & Hv & ->)]%Hin.
    exists v. split; [|done]. by eapply (proj1 (Forall_forall _ _)) in Hvs. }
  eexists. split; [|split; [exact Hnd'|]].
  - unfold lookup_in, in_scan. rewrite Hm. cbn. rewrite Hsep, scan_prefixes_ids by done. done.
  - intros id. rewrite Hin'. unfold field_selects. split.
    + intros (q & Hq & d & w & Hd & Hw & E%bool_decide_eq_true).
      apply Hin in Hq as [[]%elem_of_nil|(v & Hv & ->)]. exists d, w. split_and!; try done.
      apply existsb_exists. exists v. split; [by apply list_elem_of_In|].
      apply bool_decide_eq_true, enc_eq_iff. apply app_inj_tail_iff in E. by destruct E.
    + intros (d & w & Hd & Hw & (v & Hv & E%bool_decide_eq_true)%existsb_exists).
      exists (value_to_sortable_bytes v ++ [0]). split.
      * apply Hin. right. exists v. split; [by apply list_elem_of_In|done].
      * exists d, w. split_and!; try done. apply bool_decide_eq_true.
        apply enc_eq_iff in E. by rewrite E.
Qed.

(** A [$in] lookup is the union of the equality lookups, each document
    once whatever duplicates the list has: [lookup_in] answers the ids of
    exactly the documents whose value at the field equals some listed value
    in the total order. *)
Theorem lookup_in_exact (current : option CancelToken) (m : IndexManager) (e : engine)
    (collection field : string) (values : list Value) (def : IndexDef) (p : PartitionId)
    (docs : gmap string Value) :
  live current -> healthy e ->
  get_index_for_field m collection field = Some (def, p) -> index_holds e def p docs ->
  docs_safe docs field -> Forall index_safe values ->
  exists ids, lookup_in current m e collection field values = Ok (Some ids) /\ NoDup ids /\
    forall id, id ∈ ids <-> field_selects docs field (fun w => existsb (fun v => eq_total v w) values) id.
Proof. apply lookup_in_ids. Qed.
End lookup_properties.

Section agreement.
Context `{SerdeJson} `{!SerdeLaws}.

(** Numbers on which [partial_cmp] and the key order agree: all but the two
    zeros ([as_f64] of a JSON number is never NaN). *)
Definition num_agrees (a b : number) : Prop :=
  exists x y, num_as_f64 a = Some x /\ num_as_f64 b = Some y /\
    f64_is_nan x = false /\ f64_is_nan y = false /\ f64_is_zero x && f64_is_zero y = false.
Definition values_agree (v w : Value) : Prop :=
  match v, w with VNumber a, VNumber b => num_agrees a b | _, _ => True end.

Lemma compare_values_total_partial w v :
  values_agree w v ->
  compare_values w v =
    if bool_decide (is_Some (value_bracket v) /\ value_bracket v = value_bracket w)
    then Some (compare_values_total w v) else None.
Proof.
  destruct w as [|[]|a|s|l|m], v as [|[]|b|t|k|n]; cbn; try done.
  intros (x & y & Hx & Hy & Nx & Ny & Hz). rewrite Hx, Hy. unfold num_f64. rewrite Hx, Hy. cbn.
  apply f64_partial_total; try done; by eapply num_as_f64_wf.
Qed.

(** The in-memory range operators are the index windows' semantics. *)
Lemma range_ops_agree w v : values_agree w v ->
  evaluate_op Gt_ (Some w) v = lower_sem (Some (v, false)) w /\
  evaluate_op Gte (Some w) v = lower_sem (Some (v, true)) w /\
  evaluate_op Lt_ (Some w) v = upper_sem (Some (v, false)) w /\
  evaluate_op Lte (Some w) v = upper_sem (Some (v, true)) w.
Proof.
  intros Ha. cbn [evaluate_op]. rewrite compare_values_total_partial by done.
  unfold lower_sem, upper_sem. rewrite (cmp_opp compare_values_total v w).
  case_bool_decide; [|done]. by destruct (compare_values_total w v).
Qed.
End agreement.

Section agreement_properties.
Context `{SerdeJson} `{!SerdeLaws} `{BackendLaws}.

(** The range operator as index bounds. *)
Definition op_bounds (op : FilterOp) (v : Value) : option (option (Value * bool) * option (Value * bool)) :=
  match op with
  | Gt_ => Some (Some (v, false), None)
  | Gte => Some (Some (v, true), None)
  | Lt_ => Some (None, Some (v, false))
  | Lte => Some (None, Some (v, true))
  | _ => None
  end.

(** An indexed range query answers what the full scan would. For a
    range operator, the ids [lookup_range] finds through the index are
    exactly those of the documents the in-memory filter accepts (missing
    fields and other types never match), as long as no stored number and the
    operand are the two zeros of opposite sign. *)
Theorem lookup_range_agrees_with_filter `{RegexLib} (current : option CancelToken) (m : IndexManager) (e : engine)
    (collection field : string) (op : FilterOp) (v : Value) lower upper (def : IndexDef) (p : PartitionId)
    (docs : gmap string Value) :
  op_bounds op v = Some (lower, upper) ->
  live current -> healthy e ->
  get_index_for_field m collection field = Some (def, p) -> index_holds e def p docs ->
  docs_safe docs field -> index_safe v ->
  (forall id doc w, docs !! id = Some doc -> resolve_json_path doc field = Some w -> values_agree w v) ->
  exists ids, lookup_range current m e collection field lower upper = Ok (Some ids) /\ NoDup ids /\
    forall id, id ∈ ids <-> exists doc, docs !! id = Some doc /\ matches (Comparison field op v) doc = true.
Proof.
  intros Hop Hl Hh Hm Hix Hsafe Hv Hagree.
  assert (Hb : (is_Some lower \/ is_Some upper) /\ bounds_safe lower /\ bounds_safe upper /\
    forall w, values_agree w v -> evaluate_op op (Some w) v = lower_sem lower w && upper_sem upper w).
  { destruct op; try done; injection Hop as <- <-; split_and!; try (by eauto); intros w Hw;
      destruct (range_ops_agree w v Hw) as (E1 & E2 & E3 & E4);
      rewrite ?E1, ?E2, ?E3, ?E4; cbn [lower_sem upper_sem]; by rewrite ?andb_true_r. }
  destruct Hb as (Hsome & Hlo & Hup & Heval).
  destruct (lookup_range_ids current m e collection field lower upper def p docs)
    as (ids & Hids & Hnd & _ & Hin); try done.
  exists ids. split_and!; [done|done|].
  - intros id. rewrite Hin. unfold field_selects. cbn [matches]. split.
    + intros (d & w & Hd & Hw & HP). exists d. split; [done|]. rewrite Hw, Heval; eauto.
    + intros (d & Hd & HP). destruct (resolve_json_path d field) as [w|] eqn:Hw.
      * exists d, w. rewrite <- Heval; eauto.
      * by destruct op.
Qed.
End agreement_properties.

(** ** Witnesses *)

Import Ref RefBackend.

Module IndexExample.
Definition def : IndexDef := IndexDef_new "idx_n" "c" ["n"] "t0".
Definition registry : IndexManager := register [] def "c#idx#idx_n".
Definition doc : Value := VObject [("_id", VString "a"); ("n", VNumber (PosInt 7))].
Definition docs : gmap string Value := {["a" := doc]}.
Definition db : engine := commit empty_db (add_index_entries_to_batch registry [] "c" "a" doc).

Lemma docs_a : docs !! "a" = Some doc.
Proof. unfold docs. apply lookup_singleton_eq. Qed.
Lemma docs_inv id d : docs !! id = Some d -> id = "a" /\ d = doc.
Proof. unfold docs. by intros [<- <-]%lookup_singleton_Some. Qed.
Lemma holds : index_holds db def "c#idx#idx_n" docs.
Proof.
  intros k v. replace (contents db "c#idx#idx_n") with [(make_index_key (VNumber (PosInt 7)) "a", [] : bytes)]
    by (vm_compute; reflexivity).
  rewrite list_elem_of_singleton. split.
  - intros [= -> ->]. split; [done|]. exists "a", doc. split; [apply docs_a|].
    vm_compute. reflexivity.
  - intros (-> & id & d & [-> ->]%docs_inv & Hk). revert Hk. vm_compute. by intros [= <-].
Qed.
Lemma safe : docs_safe docs "n".
Proof.
  intros id d [-> ->]%docs_inv. split.
  - split; [done|]. split; [by apply (bool_decide_unpack _)|done].
  - intros w Hw. revert Hw. vm_compute. by intros [= <-].
Qed.
End IndexExample.
Import IndexExample.

Lemma lookup_eq_exact_witness :
  exists ids, lookup_eq None registry db "c" "n" (VNumber (PosInt 7)) = Ok (Some ids) /\ "a" ∈ ids.
Proof.
  destruct (lookup_eq_exact None registry db "c" "n" (VNumber (PosInt 7)) def "c#idx#idx_n" docs)
    as (ids & Hids & _ & _ & Hin); [exact I|exact I|reflexivity|apply holds|apply safe|exact I|].
  exists ids. split; [exact Hids|]. apply Hin. exists doc, (VNumber (PosInt 7)).
  split; [apply docs_a|]. split; vm_compute; reflexivity.
Defined.

Lemma lookup_range_exact_witness :
  exists ids, lookup_range None registry db "c" "n" (Some (VNumber (PosInt 5), false)) None = Ok (Some ids) /\ "a" ∈ ids.
Proof.
  destruct (lookup_range_exact None registry db "c" "n" (Some (VNumber (PosInt 5), false)) None def "c#idx#idx_n" docs)
    as (ids & Hids & _ & _ & Hin);
    [exact I|exact I|reflexivity|apply holds|apply safe|left; eexists; reflexivity|exact I|exact I|].
  exists ids. split; [exact Hids|]. apply Hin. exists doc, (VNumber (PosInt 7)).
  split; [apply docs_a|]. split; vm_compute; reflexivity.
Defined.

Lemma lookup_in_exact_witness :
  exists ids, lookup_in None registry db "c" "n" [VNumber (PosInt 7); VNumber (PosInt 7)] = Ok (Some ids) /\ "a" ∈ ids.
Proof.
  destruct (lookup_in_exact None registry db "c" "n" [VNumber (PosInt 7); VNumber (PosInt 7)] def "c#idx#idx_n" docs)
    as (ids & Hids & _ & Hin);
    [exact I|exact I|reflexivity|apply holds|apply safe|repeat constructor|].
  exists ids. split; [exact Hids|]. apply Hin. exists doc, (VNumber (PosInt 7)).
  split; [apply docs_a|]. split; vm_compute; reflexivity.
Defined.

Lemma lookup_range_agrees_with_filter_witness :
  exists ids, lookup_range None registry db "c" "n" (Some (VNumber (PosInt 5), false)) None = Ok (Some ids) /\ "a" ∈ ids.
Proof.
  destruct (lookup_range_agrees_with_filter None registry db "c" "n" Gt_ (VNumber (PosInt 5))
    (Some (VNumber (PosInt 5), false)) None def "c#idx#idx_n" docs) as (ids & Hids & _ & Hin);
    [reflexivity|exact I|exact I|reflexivity|apply holds|apply safe|exact I| |].
  - intros id d w [-> ->]%docs_inv Hw.
    assert (Some w = Some (VNumber (PosInt 7))) as [= ->] by (rewrite <- Hw; vm_compute; reflexivity).
    do 2 eexists. split; [reflexivity|]. split; [reflexivity|]. split_and!; vm_compute; reflexivity.
  - exists ids. split; [exact Hids|]. apply Hin. exists doc.
    split; [apply docs_a|]. vm_compute. reflexivity.
Defined.
