(* ===== verification/Storage.v ===== *)
(** * Storage: collections, counters, partitions, start-up
    ([crates/wardsondb/src/engine/storage.rs], [engine/collection.rs],
    [IndexManager::load_indexes])

    [Storage] is the shared state every request works on. An operation is a
    state-passing function [Op]: [?] on an error returns it with the state as
    the operation left it. The in-memory parts behind [RwLock]s are fields of
    the record; the lock of each document is in [Locks]. *)

From S2P Require Import Prelude Bytes F64 Json Errors Externals Filter Secondary Backend Index.

(** ** Third-party text: serde's derived structs, error messages, clocks *)

Record CollectionMeta := { cm_name : string; cm_created_at : string }.
Record TtlConfig := { retention_days : Z; ttl_field : string; enabled : bool }.

Class StorageSerde := {
  collection_meta_to_vec : CollectionMeta -> option bytes;
  index_def_to_vec : IndexDef -> option bytes;
  index_def_from_slice : bytes -> option IndexDef;
  ttl_to_vec : TtlConfig -> option bytes;
  ttl_from_slice : bytes -> option TtlConfig;
  (** [Display] of the errors of [to_vec], [from_slice], [from_utf8] *)
  ser_error : string;
  de_error : bytes -> string;
  utf8_error : bytes -> string;
  (** [Uuid::parse_str], its timestamp, as RFC 3339 *)
  uuid_timestamp : string -> option string;
}.
(** Serializing a struct of strings cannot fail, and a stored definition reads
    back. *)
Class StorageSerdeLaws `{StorageSerde} : Prop := {
  collection_meta_ser : forall m, is_Some (collection_meta_to_vec m);
  index_def_ser : forall d, is_Some (index_def_to_vec d);
  index_def_round_trip : forall d b, index_def_to_vec d = Some b -> index_def_from_slice b = Some d;
}.

(** [From<serde_json::Error> for AppError] *)
Definition from_serde (e : string) : AppError := InvalidDocument ("JSON error: " +:+ e).

(** ** The bitmap accelerator, as the document operations use it *)

Class ScanAccelerator := {
  accel : Type;
  accel_new : accel;
  on_insert : accel -> string -> string -> Value -> accel;
  on_update : accel -> string -> string -> Value -> Value -> accel;
  on_delete : accel -> string -> string -> Value -> accel;
  on_drop_collection : accel -> string -> accel;
  has_columns : accel -> bool;
  set_ready : accel -> bool -> accel;
}.

(** ** Document counters: [AtomicI64] per collection *)

Definition wrap_i64 (x : Z) : Z := (x + 2 ^ 63) mod 2 ^ 64 - 2 ^ 63.
Abbreviation DocCounters := (gmap string Z).
Definition counters_initialize (c : DocCounters) (collection : string) (count : Z) : DocCounters :=
  <[collection := wrap_i64 count]> c.
Definition counters_increment (c : DocCounters) (collection : string) (delta : Z) : DocCounters :=
  match c !! collection with
  | Some n => <[collection := wrap_i64 (n + delta)]> c
  | None => <[collection := wrap_i64 delta]> c
  end.
Definition counters_get (c : DocCounters) (collection : string) : Z := default 0 (c !! collection).
Definition counters_remove (c : DocCounters) (collection : string) : DocCounters := delete collection c.

Definition WRITE_SHARDS : Z := 65536.

Section storage.
Context `{SerdeJson} `{StorageBackend} `{StorageSerde} `{ScanAccelerator}.

Record Storage := {
  eng : engine;
  meta : PartitionId;
  index_manager : IndexManager;
  doc_counts : DocCounters;
  scan_accelerator : accel;
  collections : gset string;
  partitions : gmap string PartitionId;
}.
Definition set_eng (s : Storage) (e : engine) : Storage :=
  {| eng := e; meta := meta s; index_manager := index_manager s; doc_counts := doc_counts s;
     scan_accelerator := scan_accelerator s; collections := collections s; partitions := partitions s |}.
Definition set_indexes (s : Storage) (m : IndexManager) : Storage :=
  {| eng := eng s; meta := meta s; index_manager := m; doc_counts := doc_counts s;
     scan_accelerator := scan_accelerator s; collections := collections s; partitions := partitions s |}.
Definition set_counts (s : Storage) (c : DocCounters) : Storage :=
  {| eng := eng s; meta := meta s; index_manager := index_manager s; doc_counts := c;
     scan_accelerator := scan_accelerator s; collections := collections s; partitions := partitions s |}.
Definition set_accel (s : Storage) (a : accel) : Storage :=
  {| eng := eng s; meta := meta s; index_manager := index_manager s; doc_counts := doc_counts s;
     scan_accelerator := a; collections := collections s; partitions := partitions s |}.
Definition set_collections (s : Storage) (c : gset string) : Storage :=
  {| eng := eng s; meta := meta s; index_manager := index_manager s; doc_counts := doc_counts s;
     scan_accelerator := scan_accelerator s; collections := c; partitions := partitions s |}.
Definition set_partitions (s : Storage) (p : gmap string PartitionId) : Storage :=
  {| eng := eng s; meta := meta s; index_manager := index_manager s; doc_counts := doc_counts s;
     scan_accelerator := scan_accelerator s; collections := collections s; partitions := p |}.

(** ** Operations *)

Definition Op (A : Type) : Type := Storage -> res A * Storage.
Definition op_ret {A} (a : A) : Op A := fun s => (Ok a, s).
Definition op_fail {A} (e : AppError) : Op A := fun s => (Err e, s).
Definition op_bind {A B} (m : Op A) (f : A -> Op B) : Op B := fun s =>
  match m s with
  | (Ok a, s) => f a s
  | (Err e, s) => (Err e, s)
  end.
Definition op_lift {A} (r : res A) : Op A := fun s => (r, s).
Definition op_modify (f : Storage -> Storage) : Op unit := fun s => (Ok tt, f s).
Definition op_gets {A} (f : Storage -> A) : Op A := fun s => (Ok (f s), s).
(** A read of the engine, its error converted by [?]. *)
Definition op_engine {A} (f : engine -> BackendResult A) : Op A := fun s => (lift_be (f (eng s)), s).
End storage.

Notation "'let!' x := m 'in' k" := (op_bind m (fun x => k))
  (at level 10, x pattern, m at level 200, k at level 200) : embra_scope.

Section operations.
Context `{SerdeJson} `{StorageBackend} `{StorageSerde} `{ScanAccelerator}.

Definition is_poisoned (s : Storage) : bool := be_is_poisoned (eng s).
Definition check_not_poisoned : Op unit := fun s =>
  if is_poisoned s then (Err StoragePoisoned, s) else (Ok tt, s).

(** Through the cache of handles: a partition, once opened, stays. *)
Definition create_partition (name : string) : Op PartitionId := fun s =>
  match partitions s !! name with
  | Some p => (Ok p, s)
  | None =>
      match be_create_or_open_partition (eng s) name with
      | Ok (e, p) => (Ok p, set_partitions (set_eng s e) (<[name := p]> (partitions s)))
      | Err err => (Err (from_backend err), s)
      end
  end.
Definition docs_name (collection : string) : string := collection +:+ "#docs".
Definition index_name (collection name : string) : string := collection +:+ "#idx#" +:+ name.
Definition get_docs_partition (collection : string) : Op PartitionId := create_partition (docs_name collection).

Definition commit_batch (batch : list (batch_op PartitionId)) : Op unit := fun s =>
  match be_commit_batch (eng s) batch with
  | Ok e => (Ok tt, set_eng s e)
  | Err err => (Err (from_backend err), s)
  end.
Definition persist : Op unit := op_engine be_flush.

(** ** Collections *)

Record CollectionInfo := { ci_name : string; ci_doc_count : Z; ci_indexes : list string }.
Definition collection_key (name : string) : bytes := str_bytes ("collection:" +:+ name).
Definition index_key (collection name : string) : bytes := str_bytes ("index:" +:+ collection +:+ ":" +:+ name).
Definition ttl_key (collection : string) : bytes := str_bytes ("ttl:" +:+ collection).
Definition meta_get (key : bytes) : Op (option bytes) := fun s =>
  op_engine (fun e => be_get e (meta s) key) s.

Definition create_collection (now name : string) : Op CollectionInfo :=
  let! _ := check_not_poisoned in
  let! found := meta_get (collection_key name) in
  if found then op_fail (CollectionExists name) else
  let! _ := create_partition (docs_name name) in
  let! meta_bytes := op_lift (ok_or (collection_meta_to_vec {| cm_name := name; cm_created_at := now |})
    (from_serde ser_error)) in
  let! m := op_gets meta in
  let batch := [BPut m (collection_key name) meta_bytes] in
  (* seeded before the commit makes the collection visible *)
  let! _ := op_modify (fun s => set_counts s (counters_initialize (doc_counts s) name 0)) in
  let! _ := commit_batch batch in
  let! _ := op_modify (fun s => set_collections s ({[name]} ∪ collections s)) in
  let! _ := persist in
  let! _ := op_modify (fun s =>
    if has_columns (scan_accelerator s) then set_accel s (set_ready (scan_accelerator s) true) else s) in
  op_ret {| ci_name := name; ci_doc_count := 0; ci_indexes := [] |}.

(** The visitor of [collection_names]; an invalid key stops the scan. *)
Definition strip_prefix (p s : string) : option string :=
  if starts_with (str_bytes s) (str_bytes p)
  then Some (bytes_str (drop (length (str_bytes p)) (str_bytes s))) else None.
Definition names_visit (key _v : bytes) (st : list string * option AppError)
    : (list string * option AppError) * control_flow :=
  match from_utf8 key with
  | Some s => ((st.1 ++ [default s (strip_prefix "collection:" s)], st.2), Continue)
  | None => ((st.1, Some (Internal ("Invalid key: " +:+ utf8_error key))), Break)
  end.
Definition collection_names : Op (list string) := fun s =>
  op_lift (let? out := visit_scan names_visit (be_scan_prefix (eng s) (meta s) (str_bytes "collection:")) ([], None) in
    match out with (_, Some e) => Err e | (names, None) => Ok names end) s.

Definition collection_info (s : Storage) (name : string) : CollectionInfo :=
  {| ci_name := name; ci_doc_count := Z.max (counters_get (doc_counts s) name) 0;
     ci_indexes := idx_name <$> get_indexes_for_collection (index_manager s) name |}.
Definition list_collections : Op (list CollectionInfo) :=
  let! names := collection_names in
  fun s => (Ok (collection_info s <$> names), s).
Definition get_collection_info (name : string) : Op CollectionInfo :=
  let! found := meta_get (collection_key name) in
  if found then op_gets (fun s => collection_info s name) else op_fail (CollectionNotFound name).

(** The removals of one index of a dropped collection. *)
Fixpoint stage_index_drops (collection : string) (defs : list IndexDef) (batch : list (batch_op PartitionId))
    : Op (list (batch_op PartitionId)) :=
  match defs with
  | [] => op_ret batch
  | def :: defs => fun s =>
      (let! batch :=
         match get_index_partition (index_manager s) collection (idx_name def) with
         | Some p =>
             let! keys := op_engine (fun e => collect_keys e p) in
             op_ret (batch ++ ((fun k => BDel p k) <$> keys))
         | None => op_ret batch
         end in
       stage_index_drops collection defs (batch ++ [BDel (meta s) (index_key collection (idx_name def))])) s
  end.

Definition drop_collection (name : string) : Op unit :=
  let! _ := check_not_poisoned in
  let! found := meta_get (collection_key name) in
  if negb (bool_decide (is_Some found)) then op_fail (CollectionNotFound name) else
  let! docs_partition := get_docs_partition name in
  let! keys := op_engine (fun e => collect_keys e docs_partition) in
  let! index_defs := op_gets (fun s => get_indexes_for_collection (index_manager s) name) in
  let! batch := stage_index_drops name index_defs ((fun k => BDel docs_partition k) <$> keys) in
  let! m := op_gets meta in
  let batch := batch ++ [BDel m (collection_key name); BDel m (ttl_key name)] in
  (* uncached before the commit, cached again if the commit fails *)
  let! _ := op_modify (fun s => set_collections s (collections s ∖ {[name]})) in
  let! _ := (fun s => match commit_batch batch s with
                      | (Ok _, s) => (Ok tt, s)
                      | (Err e, s) => (Err e, set_collections s ({[name]} ∪ collections s))
                      end) in
  let! _ := op_modify (fun s => set_indexes s
    (foldl (fun m def => unregister m name (idx_name def)) (index_manager s) index_defs)) in
  let! _ := op_modify (fun s => set_counts s (counters_remove (doc_counts s) name)) in
  let! _ := op_modify (fun s => set_accel s (on_drop_collection (scan_accelerator s) name)) in
  persist.

(** Cached existence; a miss asks [_meta] and caches a hit. *)
Definition collection_exists (name : string) : Op bool := fun s =>
  if bool_decide (name ∈ collections s) then (Ok true, s) else
  (let! found := meta_get (collection_key name) in
   if found then
     let! _ := op_modify (fun s => set_collections s ({[name]} ∪ collections s)) in op_ret true
   else op_ret false) s.
Definition ensure_collection_exists (collection : string) : Op unit :=
  let! ex := collection_exists collection in
  if negb ex then op_fail (CollectionNotFound collection) else op_ret tt.
Definition collection_doc_count (name : string) : Op Z :=
  op_gets (fun s => Z.max (counters_get (doc_counts s) name) 0).

(** ** The time range of a collection's keys *)

Definition key_to_timestamp (key : bytes) (partition : PartitionId) (e : engine) : option string :=
  key_str ← from_utf8 key;
  match uuid_timestamp key_str with
  | Some t => Some t
  | None =>
      match be_get e partition (str_bytes key_str) with
      | Ok (Some doc_bytes) => doc ← from_slice doc_bytes; get doc "_received_at" ≫= as_str
      | _ => None
      end
  end.
Definition get_doc_time_range (collection : string) : Op (option string * option string) := fun s =>
  if counters_get (doc_counts s) collection <=? 0 then (Ok (None, None), s) else
  (let! p := get_docs_partition collection in
   let! first := op_engine (fun e => be_first_key e p) in
   let! oldest := op_gets (fun s => first ≫= fun k => key_to_timestamp k p (eng s)) in
   let! last := op_engine (fun e => be_last_key e p) in
   let! newest := op_gets (fun s => last ≫= fun k => key_to_timestamp k p (eng s)) in
   op_ret (oldest, newest)) s.

(** ** Start-up *)

Definition defs_visit (key value : bytes) (st : list IndexDef * option AppError)
    : (list IndexDef * option AppError) * control_flow :=
  match from_utf8 key with
  | None => ((st.1, Some (Internal ("Invalid index meta key: " +:+ utf8_error key))), Break)
  | Some _ =>
      match index_def_from_slice value with
      | Some def =>
          (* old definitions stored [field] but not [fields] *)
          let def := match idx_fields def with
                     | [] => if bool_decide (idx_field def = EmptyString) then def else
                         {| idx_name := idx_name def; idx_collection := idx_collection def;
                            idx_field := idx_field def; idx_fields := [idx_field def];
                            idx_created_at := idx_created_at def |}
                     | _ => def
                     end in
          ((st.1 ++ [def], st.2), Continue)
      | None => ((st.1, Some (Internal ("Invalid index meta value: " +:+ de_error value))), Break)
      end
  end.
(** The definitions are inserted with a handle each; this path opens the
    engine's partitions without the [Storage] cache. *)
Fixpoint load_defs (defs : list IndexDef) : Op unit :=
  match defs with
  | [] => op_ret tt
  | def :: defs =>
      let! _ := (fun s =>
        match be_create_or_open_partition (eng s) (index_name (idx_collection def) (idx_name def)) with
        | Ok (e, p) => (Ok tt, set_indexes (set_eng s e) (register (index_manager s) def p))
        | Err err => (Err (from_backend err), s)
        end) in
      load_defs defs
  end.
Definition load_indexes : Op unit :=
  let! defs := (fun s =>
    op_lift (let? out := visit_scan defs_visit (be_scan_prefix (eng s) (meta s) (str_bytes "index:")) ([], None) in
      match out with (_, Some e) => Err e | (defs, None) => Ok defs end) s) in
  load_defs defs.

Fixpoint seed_counts (names : list string) : Op unit :=
  match names with
  | [] => op_ret tt
  | name :: names =>
      let! p := create_partition (docs_name name) in
      let! count := op_engine (fun e => be_count_prefix e p []) in
      let! _ := op_modify (fun s => set_counts s (counters_initialize (doc_counts s) name count)) in
      let! _ := op_modify (fun s => set_collections s ({[name]} ∪ collections s)) in
      seed_counts names
  end.
Definition initialize_doc_counts : Op unit :=
  let! names := collection_names in seed_counts names.

(** The marker file of a data directory: never open one engine's data with
    the other. [marker] is [None] for a missing file, else its trimmed text or
    the error of reading it; [written] is what writing a new marker gives. *)
Definition check_engine_marker (marker : option (result string string)) (engine_type : string) : res unit :=
  match marker with
  | None => Ok tt
  | Some (Err e) => Err (Internal ("Failed to read engine marker: " +:+ e))
  | Some (Ok existing) =>
      if bool_decide (existing = engine_type) then Ok tt else
      Err (Internal ("Data directory was created with engine '" +:+ existing +:+ "' but '" +:+ engine_type +:+
        "' was requested. Cannot switch engines on existing data; use a different --data-dir or re-create with the desired engine."))
  end.
Definition write_engine_marker (marker : option (result string string)) (written : result string unit) : res unit :=
  match marker with
  | Some _ => Ok tt
  | None => map_err (fun e => Internal ("Failed to write engine marker: " +:+ e)) written
  end.

(** [open_with_config]: the marker, the engine, the registry, the counts. *)
Definition open_with_config (marker : option (result string string)) (written : result string unit)
    (engine_type : string) (open : BackendResult engine) : res Storage :=
  let? _ := check_engine_marker marker engine_type in
  let? e := lift_be open in
  let? _ := write_engine_marker marker written in
  let? opened := lift_be (be_create_or_open_partition e "_meta") in
  let storage := {| eng := opened.1; meta := opened.2; index_manager := []; doc_counts := ∅;
    scan_accelerator := accel_new; collections := ∅; partitions := ∅ |} in
  match (let! _ := load_indexes in initialize_doc_counts) storage with
  | (Ok _, s) => Ok s
  | (Err e, _) => Err e
  end.
End operations.
