(* ===== verification/Document.v ===== *)
(** * Documents ([crates/wardsondb/src/engine/document.rs], [engine/ttl.rs])

    Every operation of the database on documents and indexes: identifiers,
    insertion, replacement with its revision check, merge patches, deletion,
    bulk insertion, mutations by query, index creation and the TTL policies.
    The document lock each of them holds is modelled in [Locks]; here an
    operation is what it does to the state while it holds it. *)

From S2P Require Import Prelude Bytes F64 Json Errors Externals Filter Secondary Backend Index Storage.

Definition MAX_DOCUMENT_SIZE : Z := 16 * 1024 * 1024.
Definition MAX_BULK_INSERT : Z := 10000.
Definition MAX_CUSTOM_ID_LENGTH : Z := 512.
Definition BULK_MUTATION_CHUNK : nat := 256.

(** ** Identifiers *)

(** Why a text cannot name a collection, a document or an index. *)
Definition segment_fault (value : string) : option string :=
  let b := str_bytes value in
  if bool_decide (value = EmptyString) then Some "cannot be empty" else
  if bool_decide (value = ".") || bool_decide (value = "..") then Some "cannot be '.' or '..'" else
  if existsb (fun c => (c =? 47) || (c =? 92)) b then Some "cannot contain a path separator" else
  if has_control b then Some "cannot contain a control character" else None.

Definition validate_custom_id (value : Value) : res string :=
  match value with
  | VString EmptyString => Err (InvalidDocument "_id must be a non-empty string")
  | VString s =>
      if MAX_CUSTOM_ID_LENGTH <? str_len s then
        Err (InvalidDocument "_id exceeds maximum length of 512 bytes") else
      if starts_with (str_bytes s) (str_bytes "_") then
        Err (InvalidDocument "_id must not start with underscore") else
      if bool_decide (0 ∈ str_bytes s) then Err (InvalidDocument "_id contains invalid characters") else
      match segment_fault s with
      | Some why => Err (InvalidDocument ("_id " +:+ why))
      | None => Ok s
      end
  | _ => Err (InvalidDocument "_id must be a non-empty string")
  end.

(** ** Updates of a JSON object *)

(** [json_merge_patch]: a null removes the key, an object merges into an
    object, anything else replaces. *)
Fixpoint json_merge_patch (patch target : Value) {struct patch} : Value :=
  match patch, target with
  | VObject patch_obj, VObject target_obj =>
      VObject
        ((fix go (ps : list (string * Value)) (acc : list (string * Value)) : list (string * Value) :=
            match ps with
            | [] => acc
            | (key, value) :: ps =>
                if is_null value then go ps (map_remove key acc)
                else go ps (map_insert key (json_merge_patch value (default VNull (map_get key acc))) acc)
            end) patch_obj target_obj)
  | _, _ => patch
  end.

(** [set_nested_field]: the segments of a dotted path, intermediate objects
    created, a non-object on the way overwritten by one. *)
Fixpoint set_segments (obj : list (string * Value)) (part : string) (parts : list string) (value : Value)
    : list (string * Value) :=
  match parts with
  | [] => map_insert part value obj
  | next :: rest =>
      let inner := match map_get part obj with Some (VObject inner) => inner | _ => [] end in
      map_insert part (VObject (set_segments inner next rest value)) obj
  end.
Definition set_nested_field (obj : list (string * Value)) (path : string) (value : Value)
    : list (string * Value) :=
  if 20 <=? count_char dot path then obj else
  match split_on dot path with
  | part :: parts => set_segments obj part parts value
  | [] => obj
  end.

Definition parse_set_updates (update : Value) : res (list (string * Value)) :=
  let? obj := ok_or (as_object update) (InvalidQuery "Update must be a JSON object") in
  ok_or (map_get "$set" obj ≫= as_object) (InvalidQuery "Update must contain a '$set' object").

(** Slices of at most [n] elements: [ids.chunks(n)]. *)
Fixpoint chunks_fuel {A} (fuel n : nat) (l : list A) : list (list A) :=
  match fuel, l with
  | _, [] | O, _ => []
  | S fuel, _ => take n l :: chunks_fuel fuel n (drop n l)
  end.
Definition chunks {A} (n : nat) (l : list A) : list (list A) := chunks_fuel (length l) n l.

(** A document of a bulk insertion that passed the first checks: its position,
    identifier, bytes, value, and whether the identifier is its own. *)
Record Pending := { p_index : nat; p_id : string; p_bytes : bytes; p_doc : Value; p_custom : bool }.
Abbreviation pass_state := (list (nat * string) * list Pending * list string)%type.

Section documents.
Context `{SerdeJson} `{StorageBackend} `{StorageSerde} `{ScanAccelerator} `{RegexLib}.

(** ** Stamps *)

Definition rev_of (doc : Value) : option Z := get doc "_rev" ≫= as_u64.
Definition text_of (doc : Value) (field : string) : string :=
  default EmptyString (get doc field ≫= as_str).

(** The system fields of a new document. *)
Definition stamp_new (id now : string) (obj : list (string * Value)) : list (string * Value) :=
  map_insert "_received_at" (VString now)
    (map_insert "_updated_at" (VString now)
      (map_insert "_created_at" (VString now)
        (map_insert "_rev" (VNumber (PosInt 1)) (map_insert "_id" (VString id) obj)))).

(** The revision check and the stamps of a replacement. The revision is a
    [u64]; its increment wraps in a release build. *)
Definition replacement (existing_doc : Value) (id now : string) (doc : Value) : res Value :=
  let old_rev := default 0 (rev_of existing_doc) in
  match rev_of doc with
  | Some client_rev =>
      if negb (client_rev =? old_rev) then
        Err (DocumentConflict ("Expected rev " +:+ pretty client_rev +:+ ", current is " +:+ pretty old_rev))
      else Ok tt
  | None => Ok tt
  end ≫= fun _ =>
  let created_at := text_of existing_doc "_created_at" in
  let received_at := text_of existing_doc "_received_at" in
  let? obj := ok_or (as_object doc) (InvalidDocument "Document must be a JSON object") in
  Ok (VObject
    (map_insert "_received_at" (VString received_at)
      (map_insert "_updated_at" (VString now)
        (map_insert "_created_at" (VString created_at)
          (map_insert "_rev" (VNumber (PosInt (wrap64 (old_rev + 1))))
            (map_insert "_id" (VString id) obj)))))).

Definition sized_bytes (doc : Value) : res bytes :=
  let? b := ok_or (to_vec doc) (from_serde ser_error) in
  if MAX_DOCUMENT_SIZE <? lenZ b then Err DocumentTooLarge else Ok b.

(** ** Single documents *)

Definition op_get (p : PartitionId) (id : string) : Op (option bytes) :=
  op_engine (fun e => be_get e p (str_bytes id)).
Definition op_parse (b : bytes) : Op Value := op_lift (ok_or (from_slice b) (from_serde (de_error b))).

(** The identifier of a new document: its own [_id] if no document has it,
    else a generated one. *)
Definition resolve_id (docs_partition : PartitionId) (uuid : string) (obj : list (string * Value)) : Op string :=
  match map_get "_id" obj with
  | Some raw_id =>
      let! custom_id := op_lift (validate_custom_id raw_id) in
      let! found := op_get docs_partition custom_id in
      if found then op_fail (DocumentConflict ("Document already exists: " +:+ custom_id))
      else op_ret custom_id
  | None => op_ret uuid
  end.

Definition insert_document (now uuid collection : string) (doc : Value) : Op Value :=
  let! _ := check_not_poisoned in
  let! _ := ensure_collection_exists collection in
  let! obj := op_lift (ok_or (as_object doc) (InvalidDocument "Document must be a JSON object")) in
  let! docs_partition := get_docs_partition collection in
  let! id := resolve_id docs_partition uuid obj in
  let doc := VObject (stamp_new id now (map_remove "_id" obj)) in
  let! b := op_lift (sized_bytes doc) in
  let! m := op_gets index_manager in
  let batch := add_index_entries_to_batch m [BPut docs_partition (str_bytes id) b] collection id doc in
  let! _ := commit_batch batch in
  let! _ := op_modify (fun s => set_counts s (counters_increment (doc_counts s) collection 1)) in
  let! _ := op_modify (fun s => set_accel s (on_insert (scan_accelerator s) collection id doc)) in
  op_ret doc.

Definition get_document (collection id : string) : Op Value :=
  let! _ := ensure_collection_exists collection in
  let! docs_partition := get_docs_partition collection in
  let! found := op_get docs_partition id in
  match found with
  | Some b => op_parse b
  | None => op_fail (DocumentNotFound id)
  end.

Definition read_existing (docs_partition : PartitionId) (id : string) : Op Value :=
  let! found := op_get docs_partition id in
  let! b := op_lift (ok_or found (DocumentNotFound id)) in
  op_parse b.

Definition replace_loaded (now collection id : string) (docs_partition : PartitionId)
    (existing_doc doc : Value) : Op Value :=
  let! doc := op_lift (replacement existing_doc id now doc) in
  let! b := op_lift (sized_bytes doc) in
  let! m := op_gets index_manager in
  let batch := remove_index_entries_from_batch m [] collection id existing_doc in
  let batch := batch ++ [BPut docs_partition (str_bytes id) b] in
  let batch := add_index_entries_to_batch m batch collection id doc in
  let! _ := commit_batch batch in
  let! _ := op_modify (fun s => set_accel s (on_update (scan_accelerator s) collection id existing_doc doc)) in
  op_ret doc.

Definition replace_document (now collection id : string) (doc : Value) : Op Value :=
  let! _ := check_not_poisoned in
  let! _ := ensure_collection_exists collection in
  let! docs_partition := get_docs_partition collection in
  let! existing_doc := read_existing docs_partition id in
  replace_loaded now collection id docs_partition existing_doc doc.

Definition partial_update_document (now collection id : string) (patch : Value) : Op Value :=
  let! _ := check_not_poisoned in
  let! _ := ensure_collection_exists collection in
  let! docs_partition := get_docs_partition collection in
  let! existing_doc := read_existing docs_partition id in
  let merged := json_merge_patch patch existing_doc in
  replace_loaded now collection id docs_partition existing_doc merged.

Definition delete_document (collection id : string) : Op unit :=
  let! _ := check_not_poisoned in
  let! _ := ensure_collection_exists collection in
  let! docs_partition := get_docs_partition collection in
  let! existing_doc := read_existing docs_partition id in
  let! m := op_gets index_manager in
  let batch := remove_index_entries_from_batch m [] collection id existing_doc in
  let batch := batch ++ [BDel docs_partition (str_bytes id)] in
  let! _ := commit_batch batch in
  let! _ := op_modify (fun s => set_counts s (counters_increment (doc_counts s) collection (-1))) in
  let! _ := op_modify (fun s => set_accel s (on_delete (scan_accelerator s) collection id existing_doc)) in
  op_ret tt.

(** ** Bulk insertion *)

Definition doc_error (i : nat) (m : string) : nat * string := (i, "Document " +:+ pretty i +:+ ": " +:+ m).

(** Pass one on document [i]: errors, documents to write, ids seen. *)
Definition bulk_pass_one (now uuid : nat -> string) (st : pass_state) (i : nat) (doc : Value) : pass_state :=
  let '(errors, to_write, seen_ids) := st in
  match doc with
  | VObject obj =>
      let ident : result (nat * string) (string * bool) :=
        match map_get "_id" obj with
        | Some raw_id =>
            match validate_custom_id raw_id with
            | Ok custom_id =>
                if bool_decide (custom_id ∈ seen_ids)
                then Err (doc_error i ("duplicate _id in batch: " +:+ custom_id))
                else Ok (custom_id, true)
            | Err e => Err (doc_error i (app_error_display e))
            end
        | None => Ok (uuid i, false)
        end in
      match ident with
      | Err err => (errors ++ [err], to_write, seen_ids)
      | Ok (id, custom) =>
          let doc := VObject (stamp_new id (now i) (map_remove "_id" obj)) in
          match to_vec doc with
          | Some b =>
              if MAX_DOCUMENT_SIZE <? lenZ b
              then (errors ++ [doc_error i "exceeds 16 MB size limit"], to_write, seen_ids)
              else (errors, to_write ++ [{| p_index := i; p_id := id; p_bytes := b; p_doc := doc; p_custom := custom |}],
                    id :: seen_ids)
          | None => (errors ++ [doc_error i ser_error], to_write, seen_ids)
          end
      end
  | _ => (errors ++ [doc_error i "must be a JSON object"], to_write, seen_ids)
  end.
Fixpoint bulk_passes (now uuid : nat -> string) (st : pass_state) (i : nat) (documents : list Value) : pass_state :=
  match documents with
  | [] => st
  | doc :: documents => bulk_passes now uuid (bulk_pass_one now uuid st i doc) (S i) documents
  end.

Definition backend_display (e : BackendError) : string :=
  match e with
  | BInternal m => "backend internal: " +:+ m
  | BPoisoned m => "backend poisoned: " +:+ m
  end.

(** Pass two's check of the custom ids against the collection: the errors and
    the indexes of the documents that leave the batch. *)
Definition existing_errors (found : BackendResult (list (option bytes))) (custom : list Pending)
    : list (nat * string) :=
  match found with
  | Ok found =>
      omap (fun x : Pending * option bytes =>
        match x.2 with
        | Some _ => Some (doc_error (p_index x.1) ("document already exists: " +:+ p_id x.1))
        | None => None
        end) (zip custom found)
  | Err e => (fun p => doc_error (p_index p) (backend_display e)) <$> custom
  end.

Definition bulk_batch (m : IndexManager) (docs_partition : PartitionId) (collection : string)
    (to_write : list Pending) : list (batch_op PartitionId) :=
  foldl (fun batch p =>
    add_index_entries_to_batch m (batch ++ [BPut docs_partition (str_bytes (p_id p)) (p_bytes p)])
      collection (p_id p) (p_doc p)) [] to_write.

Definition error_order : nat * string -> nat * string -> comparison := fun a b => Nat.compare a.1 b.1.

Definition bulk_insert_documents (now uuid : nat -> string) (collection : string) (documents : list Value)
    : Op (Z * list string) :=
  if MAX_BULK_INSERT <? lenZ documents then
    op_fail (InvalidDocument ("Bulk insert limited to " +:+ pretty MAX_BULK_INSERT +:+ " documents per request"))
  else
  let! _ := check_not_poisoned in
  let! _ := ensure_collection_exists collection in
  let! docs_partition := get_docs_partition collection in
  let '(errors, to_write, _) := bulk_passes now uuid ([], [], []) 0 documents in
  let! existing :=
    (let custom := List.filter p_custom to_write in
     match custom with
     | [] => op_ret []
     | _ => op_gets (fun s => existing_errors
              (be_get_many (eng s) docs_partition ((fun p => str_bytes (p_id p)) <$> custom)) custom)
     end) in
  let to_write := List.filter (fun p => negb (bool_decide (p_index p ∈ existing.*1))) to_write in
  let errors := errors ++ existing in
  let! inserted :=
    match to_write with
    | [] => op_ret 0
    | _ =>
        let! m := op_gets index_manager in
        let! _ := commit_batch (bulk_batch m docs_partition collection to_write) in
        let inserted := lenZ to_write in
        let! _ := op_modify (fun s => set_counts s (counters_increment (doc_counts s) collection inserted)) in
        let! _ := op_modify (fun s => set_accel s
          (foldl (fun a p => on_insert a collection (p_id p) (p_doc p)) (scan_accelerator s) to_write)) in
        op_ret inserted
    end in
  op_ret (inserted, (sort_by error_order errors).*2).

(** ** Streaming the collection *)

(** The scan's visitor: checkpoint, parse, [visit]. The error that stopped it
    is kept and returned after the scan. *)
Definition doc_visit {S} (current : option CancelToken) (visit : Value -> S -> S * control_flow)
    (k v : bytes) (st : Z * option AppError * S) : (Z * option AppError * S) * control_flow :=
  let '(seen, scan_err, s) := st in
  match checkpoint current seen with
  | (seen, Err e) => ((seen, Some e, s), Break)
  | (seen, Ok _) =>
      match from_slice v with
      | Some doc => let '(s, flow) := visit doc s in ((seen, scan_err, s), flow)
      | None => ((seen, Some (from_serde (de_error v)), s), Break)
      end
  end.
Definition for_each_document {S} (current : option CancelToken) (collection : string)
    (visit : Value -> S -> S * control_flow) (s0 : S) : Op S :=
  let! _ := ensure_collection_exists collection in
  let! p := get_docs_partition collection in
  fun s =>
    match visit_scan (doc_visit current visit) (be_scan_full (eng s) p) (0, None, s0) with
    | Err e => (Err e, s)
    | Ok (_, Some e, _) => (Err e, s)
    | Ok (_, None, out) => (Ok out, s)
    end.
Definition scan_all_documents (current : option CancelToken) (collection : string) : Op (list Value) :=
  for_each_document current collection (fun doc docs => (docs ++ [doc], Continue)) [].

Definition match_visit (filter : FilterNode) (doc : Value) (ids : list string) : list string * control_flow :=
  (if matches filter doc then
     match get doc "_id" ≫= as_str with Some id => ids ++ [id] | None => ids end
   else ids, Continue).
Definition matching_ids (current : option CancelToken) (collection : string) (filter : FilterNode)
    : Op (list string) :=
  for_each_document current collection (match_visit filter) [].

(** ** Mutations by query *)

(** One chunk: every id is read and matched again under the locks; the batch
    and the documents it changes. Nothing is committed on an error. *)
Fixpoint chunk_scan {A} (filter : FilterNode) (docs_partition : PartitionId)
    (stage : string -> Value -> res (list (batch_op PartitionId) * A))
    (ids : list string) (batch : list (batch_op PartitionId)) (acc : list A)
    : Op (list (batch_op PartitionId) * list A) :=
  match ids with
  | [] => op_ret (batch, acc)
  | id :: ids =>
      let! found := op_get docs_partition id in
      match found with
      | None => chunk_scan filter docs_partition stage ids batch acc
      | Some b =>
          let! doc := op_parse b in
          if negb (matches filter doc) then chunk_scan filter docs_partition stage ids batch acc else
          let! staged := op_lift (stage id doc) in
          chunk_scan filter docs_partition stage ids (batch ++ staged.1) (acc ++ [staged.2])
      end
  end.

Definition stage_delete (m : IndexManager) (docs_partition : PartitionId) (collection id : string) (doc : Value)
    : res (list (batch_op PartitionId) * (string * Value)) :=
  Ok (remove_index_entries_from_batch m [] collection id doc ++ [BDel docs_partition (str_bytes id)], (id, doc)).

Fixpoint delete_chunks (collection : string) (filter : FilterNode) (docs_partition : PartitionId)
    (cs : list (list string)) (deleted : Z) : Op Z :=
  match cs with
  | [] => op_ret deleted
  | chunk :: cs =>
      let! m := op_gets index_manager in
      let! out := chunk_scan filter docs_partition (stage_delete m docs_partition collection) chunk [] [] in
      let '(batch, removed) := out in
      match removed with
      | [] => delete_chunks collection filter docs_partition cs deleted
      | _ =>
          let! _ := commit_batch batch in
          let! _ := op_modify (fun s =>
            set_counts s (counters_increment (doc_counts s) collection (- lenZ removed))) in
          let! _ := op_modify (fun s => set_accel s
            (foldl (fun a x => on_delete a collection x.1 x.2) (scan_accelerator s) removed)) in
          delete_chunks collection filter docs_partition cs (deleted + lenZ removed)
      end
  end.
Definition delete_by_query (current : option CancelToken) (collection : string) (filter : FilterNode) : Op Z :=
  let! _ := check_not_poisoned in
  let! ids := matching_ids current collection filter in
  match ids with
  | [] => op_ret 0
  | _ =>
      let! docs_partition := get_docs_partition collection in
      delete_chunks collection filter docs_partition (chunks BULK_MUTATION_CHUNK ids) 0
  end.

(** The [$set] of one document: a document that is not an object keeps its
    value. *)
Definition apply_set (set_fields : list (string * Value)) (now : string) (old_doc : Value) : Value :=
  match old_doc with
  | VObject obj =>
      let old_rev := default 0 (rev_of old_doc) in
      let obj := foldl (fun obj f => set_nested_field obj f.1 f.2) obj set_fields in
      VObject (map_insert "_updated_at" (VString now)
        (map_insert "_rev" (VNumber (PosInt (wrap64 (old_rev + 1)))) obj))
  | _ => old_doc
  end.
Definition stage_update (m : IndexManager) (docs_partition : PartitionId) (collection : string)
    (set_fields : list (string * Value)) (now id : string) (old_doc : Value)
    : res (list (batch_op PartitionId) * (string * Value * Value)) :=
  let new_doc := apply_set set_fields now old_doc in
  let batch := remove_index_entries_from_batch m [] collection id old_doc in
  let? b := ok_or (to_vec new_doc) (from_serde ser_error) in
  let batch := batch ++ [BPut docs_partition (str_bytes id) b] in
  Ok (add_index_entries_to_batch m batch collection id new_doc, (id, old_doc, new_doc)).

Fixpoint update_chunks (collection : string) (filter : FilterNode) (set_fields : list (string * Value))
    (now : string) (docs_partition : PartitionId) (cs : list (list string)) (updated : Z) : Op Z :=
  match cs with
  | [] => op_ret updated
  | chunk :: cs =>
      let! m := op_gets index_manager in
      let! out := chunk_scan filter docs_partition (stage_update m docs_partition collection set_fields now) chunk [] [] in
      let '(batch, update_pairs) := out in
      match update_pairs with
      | [] => update_chunks collection filter set_fields now docs_partition cs updated
      | _ =>
          let! _ := commit_batch batch in
          let! _ := op_modify (fun s => set_accel s
            (foldl (fun a x => on_update a collection x.1.1 x.1.2 x.2) (scan_accelerator s) update_pairs)) in
          update_chunks collection filter set_fields now docs_partition cs (updated + lenZ update_pairs)
      end
  end.
Definition update_by_query (current : option CancelToken) (now collection : string) (filter : FilterNode)
    (update : Value) : Op Z :=
  let! _ := check_not_poisoned in
  let! set_fields := op_lift (parse_set_updates update) in
  let! ids := matching_ids current collection filter in
  match ids with
  | [] => op_ret 0
  | _ =>
      let! docs_partition := get_docs_partition collection in
      update_chunks collection filter set_fields now docs_partition (chunks BULK_MUTATION_CHUNK ids) 0
  end.

(** ** Indexes *)

(** The entry the backfill stages for one document. *)
Definition backfill_visit (fields : list string) (doc : Value) (entries : list bytes)
    : list bytes * control_flow :=
  (match get doc "_id" ≫= as_str with
   | Some doc_id =>
       if 1 <? lenZ fields then
         let values := omap (fun f => resolve_json_path doc f) fields in
         if lenZ values =? lenZ fields then entries ++ [make_compound_index_key values doc_id] else entries
       else
         match head fields ≫= resolve_json_path doc with
         | Some field_val => entries ++ [make_index_key field_val doc_id]
         | None => entries
         end
   | None => entries
   end, Continue).

(** The checks, the partition and the backfill scan of [create_index]. *)
Definition prepare_index (current : option CancelToken) (collection name : string) (fields : list string)
    : Op (PartitionId * list bytes) :=
  let! _ := check_not_poisoned in
  let! _ := ensure_collection_exists collection in
  match fields with
  | [] => op_fail (InvalidIndex "Index must have at least one field")
  | field0 :: _ =>
      let! found := meta_get (index_key collection name) in
      if found then op_fail (IndexExists name) else
      let! dup := op_gets (fun s =>
        bool_decide (lenZ fields = 1) &&
        bool_decide (is_Some (get_index_for_field (index_manager s) collection field0))) in
      if dup then op_fail (IndexExists ("An index on field '" +:+ field0 +:+ "' already exists")) else
      let! partition := create_partition (index_name collection name) in
      let! entries := for_each_document current collection (backfill_visit fields) [] in
      op_ret (partition, entries)
  end.
(** The commit of the entries and the definition, then the registration. *)
Definition publish_index (def : IndexDef) (partition : PartitionId) (entries : list bytes) : Op IndexDef :=
  let! meta_bytes := op_lift (ok_or (index_def_to_vec def) (from_serde ser_error)) in
  let! m := op_gets meta in
  let batch := ((fun key => BPut partition key []) <$> entries)
    ++ [BPut m (index_key (idx_collection def) (idx_name def)) meta_bytes] in
  let! _ := commit_batch batch in
  let! _ := op_modify (fun s => set_indexes s (register (index_manager s) def partition)) in
  let! _ := persist in
  op_ret def.
Definition create_index (current : option CancelToken) (now collection name : string) (fields : list string)
    : Op IndexDef :=
  let! out := prepare_index current collection name fields in
  publish_index (IndexDef_new name collection fields now) out.1 out.2.

Definition drop_index (collection name : string) : Op unit :=
  let! _ := check_not_poisoned in
  let! _ := ensure_collection_exists collection in
  let missing := IndexNotFound (collection +:+ "/" +:+ name) in
  let! found := meta_get (index_key collection name) in
  if negb (bool_decide (is_Some found)) then op_fail missing else
  let! registered := op_gets (fun s => get_index_partition (index_manager s) collection name) in
  let! partition := op_lift (ok_or registered missing) in
  let! keys := op_engine (fun e => collect_keys e partition) in
  let! m := op_gets meta in
  let batch := ((fun k => BDel partition k) <$> keys) ++ [BDel m (index_key collection name)] in
  let! _ := commit_batch batch in
  let! _ := op_modify (fun s => set_indexes s (unregister (index_manager s) collection name)) in
  persist.

Definition list_indexes (collection : string) : Op (list IndexDef) :=
  let! _ := ensure_collection_exists collection in
  op_gets (fun s => get_indexes_for_collection (index_manager s) collection).

(** ** TTL policies *)

Definition set_ttl (collection : string) (days : Z) (field : string) : Op TtlConfig :=
  let! _ := check_not_poisoned in
  let! _ := ensure_collection_exists collection in
  let config := {| retention_days := days; ttl_field := field; enabled := true |} in
  let! b := op_lift (ok_or (ttl_to_vec config) (from_serde ser_error)) in
  let! m := op_gets meta in
  let! _ := commit_batch [BPut m (ttl_key collection) b] in
  op_ret config.
Definition get_ttl (collection : string) : Op (option TtlConfig) :=
  let! _ := ensure_collection_exists collection in
  let! found := meta_get (ttl_key collection) in
  match found with
  | Some b => op_lift (let? c := ok_or (ttl_from_slice b) (from_serde (de_error b)) in Ok (Some c))
  | None => op_ret None
  end.
Definition discard_ttl (collection : string) : Op unit :=
  let! _ := check_not_poisoned in
  let! m := op_gets meta in
  commit_batch [BDel m (ttl_key collection)].
Definition delete_ttl (collection : string) : Op unit :=
  let! _ := check_not_poisoned in
  let! _ := ensure_collection_exists collection in
  let! m := op_gets meta in
  commit_batch [BDel m (ttl_key collection)].

Definition ttl_visit (key value : bytes) (st : list (string * TtlConfig) * option AppError)
    : (list (string * TtlConfig) * option AppError) * control_flow :=
  match from_utf8 key with
  | None => ((st.1, Some (Internal ("Invalid key: " +:+ utf8_error key))), Break)
  | Some key_str =>
      let collection := default key_str (strip_prefix "ttl:" key_str) in
      match ttl_from_slice value with
      | Some config => ((st.1 ++ [(collection, config)], st.2), Continue)
      | None => ((st.1, Some (Internal ("TTL policy for '" +:+ collection +:+ "' does not parse: " +:+ de_error value))), Break)
      end
  end.
Definition get_all_ttl_configs : Op (list (string * TtlConfig)) := fun s =>
  op_lift (let? out := visit_scan ttl_visit (be_scan_prefix (eng s) (meta s) (str_bytes "ttl:")) ([], None) in
    match out with (_, Some e) => Err e | (l, None) => Ok l end) s.

(** The sweep: documents whose field is before the cutoff. [cutoff] is the
    clock minus the retention, as RFC 3339 text. *)
Definition run_ttl_cleanup (current : option CancelToken) (cutoff : Z -> string) (collection : string)
    (config : TtlConfig) : Op Z :=
  if negb (enabled config) then op_ret 0 else
  let filter_json := VObject [(ttl_field config, VObject [("$lt", VString (cutoff (retention_days config)))])] in
  let! filter := op_lift (parse_filter filter_json) in
  delete_by_query current collection filter.
End documents.
