(* ===== verification/Consistency.v ===== *)
(** * The storage invariant

    What the database's stored state means: a map from collections to maps
    from identifiers to documents. [storage_inv s db] ties the in-memory
    state and the key-value contents to that map: the documents' partition,
    every index partition, the registry in [_meta], the caches, the
    counters. The lemmas of this file move the invariant across a partition
    opening, a commit and a change of one document; the operations'
    theorems in [Refinement] are built from them. *)

From S2P Require Import Prelude Bytes F64 Json Errors Externals Filter Secondary Backend Index Storage Document.

(** ** Names *)

(** Text without the separators of partition and registry names; Rust text is
    UTF-8. *)
Definition name_safe (c : string) : Prop :=
  35 ∉ str_bytes c /\ 58 ∉ str_bytes c /\ utf8_valid (collection_key c) = true.

Lemma app_sep_inj {A} (x : A) a b s t :
  x ∉ a -> x ∉ b -> a ++ x :: s = b ++ x :: t -> a = b /\ s = t.
Proof.
  revert b; induction a as [|y a IH]; intros [|z b]; cbn.
  - by intros _ _ [= ->].
  - intros _ Hb [= <- _]. set_solver.
  - intros Ha _ [= -> _]. set_solver.
  - intros Ha Hb [= <- E]. destruct (IH b) as [-> ->]; set_solver.
Qed.

Section names.
Context `{SerdeJson} `{StorageBackend} `{StorageSerde} `{ScanAccelerator}.

Lemma docs_name_bytes c : str_bytes (docs_name c) = str_bytes c ++ 35 :: str_bytes "docs".
Proof. unfold docs_name. by rewrite str_bytes_app. Qed.
Lemma index_name_bytes c n : str_bytes (index_name c n) = str_bytes c ++ 35 :: str_bytes "idx#" ++ str_bytes n.
Proof. unfold index_name. by rewrite !str_bytes_app. Qed.
Lemma docs_name_inj c c' : name_safe c -> name_safe c' -> docs_name c = docs_name c' -> c = c'.
Proof.
  intros [Ha _] [Hb _] E%(f_equal str_bytes). rewrite !docs_name_bytes in E.
  apply app_sep_inj in E as [E _]; by try apply (inj str_bytes).
Qed.
Lemma index_name_inj c n c' n' : name_safe c -> name_safe c' ->
  index_name c n = index_name c' n' -> c = c' /\ n = n'.
Proof.
  intros [Ha _] [Hb _] E%(f_equal str_bytes). rewrite !index_name_bytes in E.
  apply app_sep_inj in E as [E E']; [|done..]. apply (inj str_bytes) in E as ->.
  by apply app_inv_head, (inj str_bytes) in E' as ->.
Qed.
Lemma docs_index_name c c' n : name_safe c -> name_safe c' -> docs_name c <> index_name c' n.
Proof.
  intros [Ha _] [Hb _] E%(f_equal str_bytes). rewrite docs_name_bytes, index_name_bytes in E.
  by apply app_sep_inj in E as [_ E'].
Qed.
Lemma docs_meta_name c : docs_name c <> "_meta".
Proof.
  intros E%(f_equal str_bytes). rewrite docs_name_bytes in E.
  assert (35 ∈ str_bytes "_meta") as Hin by (rewrite <- E; set_solver). revert Hin. cbn. set_solver by lia.
Qed.
Lemma index_meta_name c n : index_name c n <> "_meta".
Proof.
  intros E%(f_equal str_bytes). rewrite index_name_bytes in E.
  assert (35 ∈ str_bytes "_meta") as Hin by (rewrite <- E; set_solver). revert Hin. cbn. set_solver by lia.
Qed.

(** Keys of the registry. *)
Lemma collection_key_inj c c' : collection_key c = collection_key c' -> c = c'.
Proof.
  unfold collection_key. rewrite !str_bytes_app. intros E%app_inv_head. by apply (inj str_bytes).
Qed.
Lemma index_key_inj c n c' n' : name_safe c -> name_safe c' ->
  index_key c n = index_key c' n' -> c = c' /\ n = n'.
Proof.
  intros [_ [Ha _]] [_ [Hb _]]. unfold index_key. rewrite !str_bytes_app. intros E%app_inv_head.
  change (str_bytes ":") with [58] in E. cbn in E.
  apply app_sep_inj in E as [E E']; [|done..]. split; by apply (inj str_bytes).
Qed.
End names.

(** ** Views *)

Section views.
Context `{SerdeJson} `{!SerdeLaws} `{BackendLaws} `{StorageSerde} `{ScanAccelerator} `{RegexLib}.

(** The value at a key of a partition. *)
Abbreviation keyview := (PartitionId -> bytes -> option bytes).
Definition view (e : engine) : keyview := fun p k => key_get k (contents e p).
Definition after (V : keyview) (ops : list (batch_op PartitionId)) : keyview :=
  fun p k => foldl (op_effect p k) (V p k) ops.
Lemma after_app V a b p k : after V (a ++ b) p k = after (after V a) b p k.
Proof. unfold after. by rewrite foldl_app. Qed.

(** A document as stored: reads back as itself and knows its identifier. *)
Definition round_trip (doc : Value) : Prop := forall b, to_vec doc = Some b -> from_slice b = Some doc.
Definition doc_ok (id : string) (doc : Value) : Prop :=
  id_safe id /\ is_Some (to_vec doc) /\ round_trip doc /\ get doc "_id" = Some (VString id).

Definition docs_view (V : keyview) (p : PartitionId) (docs : gmap string Value) : Prop :=
  forall k v, V p k = Some v <-> exists id doc, docs !! id = Some doc /\ k = str_bytes id /\ to_vec doc = Some v.
Definition index_view (V : keyview) (p : PartitionId) (def : IndexDef) (docs : gmap string Value) : Prop :=
  forall k v, V p k = Some v <->
    v = [] /\ exists id doc, docs !! id = Some doc /\ index_entry_key def id doc = Some k.

Abbreviation db := (gmap string (gmap string Value)).
Definition docs_of (d : db) (c : string) : gmap string Value := default ∅ (d !! c).

(** The registry: one handle per name, never for a dropped collection. *)
Definition registered (kv : (string * string) * IndexEntry) : Prop :=
  kv.1 = (idx_collection (entry_def kv.2), idx_name (entry_def kv.2)) /\ name_safe kv.1.1 /\
  entry_partition kv.2 = partition_of (index_name kv.1.1 kv.1.2) /\ idx_fields (entry_def kv.2) <> [] /\
  is_Some (index_def_to_vec (entry_def kv.2)) /\ utf8_valid (index_key kv.1.1 kv.1.2) = true.
Definition registry_ok (m : IndexManager) (d : db) : Prop :=
  NoDup m.*1 /\ Forall registered m /\ Forall (fun kv => is_Some (d !! kv.1.1)) m.

Record view_inv (V : keyview) (m : IndexManager) (d : db) : Prop := {
  vi_docs : forall c, name_safe c -> docs_view V (partition_of (docs_name c)) (docs_of d c);
  vi_ok : forall c docs, d !! c = Some docs -> name_safe c /\ map_Forall doc_ok docs;
  vi_idx : forall kv, kv ∈ m -> index_view V (entry_partition kv.2) (entry_def kv.2) (docs_of d kv.1.1);
  vi_noidx : forall c n k, name_safe c -> (c, n) ∉ m.*1 -> V (partition_of (index_name c n)) k = None;
  vi_cols : forall k, starts_with k (str_bytes "collection:") = true ->
    is_Some (V (partition_of "_meta") k) <-> exists c, is_Some (d !! c) /\ k = collection_key c;
  vi_defs : forall k v, starts_with k (str_bytes "index:") = true ->
    V (partition_of "_meta") k = Some v <->
    exists kv, kv ∈ m /\ k = index_key kv.1.1 kv.1.2 /\ index_def_to_vec (entry_def kv.2) = Some v;
  vi_registry : registry_ok m d;
}.

(** The state apart from the counters, and with them. *)
Record core_inv (s : Storage) (d : db) : Prop := {
  ci_healthy : healthy (eng s);
  ci_meta : meta s = partition_of "_meta";
  ci_cache : forall n p, partitions s !! n = Some p -> p = partition_of n;
  ci_known : forall c, c ∈ collections s -> is_Some (d !! c);
  ci_view : view_inv (view (eng s)) (index_manager s) d;
}.
Definition counts_ok (s : Storage) (d : db) : Prop :=
  forall c docs, d !! c = Some docs -> doc_counts s !! c = Some (wrap_i64 (Z.of_nat (size docs))).
Definition storage_inv (s : Storage) (d : db) : Prop := core_inv s d /\ counts_ok s d.

(** States that differ in caches and handles only. *)
Definition same (s s' : Storage) : Prop :=
  index_manager s' = index_manager s /\ doc_counts s' = doc_counts s /\
  scan_accelerator s' = scan_accelerator s /\ forall p k, view (eng s') p k = view (eng s) p k.

(** ** What an engine call gives on a healthy engine *)

Lemma view_commit e ops : healthy e -> exists e', be_commit_batch e ops = Ok e' /\ healthy e' /\
  forall p k, view e' p k = after (view e) ops p k.
Proof.
  intros Hh. destruct (commit_spec e ops Hh) as (e' & He & Hh' & Hc). exists e'. split_and!; [done..|].
  intros p k. unfold view, after. by rewrite Hc, key_get_batch.
Qed.
Lemma view_elem e p k v : healthy e -> (k, v) ∈ contents e p <-> view e p k = Some v.
Proof. intros Hh. unfold view. by rewrite key_get_elem by by apply contents_sorted. Qed.

Lemma index_view_holds e p def docs : healthy e ->
  index_view (view e) p def docs -> index_holds e def p docs.
Proof. intros Hh Hv k v. rewrite view_elem by done. apply Hv. Qed.

Lemma view_inv_ext V V' m d : (forall p k, V' p k = V p k) -> view_inv V m d -> view_inv V' m d.
Proof.
  intros E [Va Vb Vc Vd Ve Vf Vg]. constructor; try done.
  - intros c Hc k v. rewrite E. by apply Va.
  - intros kv Hkv k v. rewrite E. by apply Vc.
  - intros c n k. rewrite E. apply Vd.
  - intros k. rewrite E. apply Ve.
  - intros k v. rewrite E. apply Vf.
Qed.

(** ** Index entries of one document *)

Lemma entry_key_id def id doc k : id_safe id -> index_entry_key def id doc = Some k ->
  extract_doc_id_from_key k = Some id.
Proof.
  intros Hid. unfold index_entry_key. destruct (is_compound def).
  - case_match; [|done]. intros [= <-]. rewrite make_compound_index_key_spec. by apply extract_spec.
  - destruct (head (idx_fields def)) as [f|]; cbn; [|done].
    destruct (resolve_json_path doc f); cbn; [|done]. intros [= <-].
    rewrite make_index_key_spec. by apply extract_spec.
Qed.

(** The staged entries, as a list of their own. *)
Definition staged (mk : PartitionId -> bytes -> batch_op PartitionId) (m : IndexManager)
    (c id : string) (doc : Value) : list (batch_op PartitionId) :=
  omap (fun kv : (string * string) * IndexEntry => if decide (kv.1.1 = c)
    then mk (entry_partition kv.2) <$> index_entry_key (entry_def kv.2) id doc else None) m.
Lemma stage_entries_app mk m batch c id doc :
  stage_entries mk m batch c id doc = batch ++ staged mk m c id doc.
Proof.
  unfold stage_entries, staged. revert batch; induction m as [|kv m IH]; intros batch; cbn; [by rewrite app_nil_r|].
  rewrite IH, bool_decide_decide. destruct (decide (kv.1.1 = c)); cbn; [|done].
  destruct (index_entry_key (entry_def kv.2) id doc); cbn; [|done]. by rewrite <- app_assoc.
Qed.
Lemma elem_staged mk m c id doc o :
  o ∈ staged mk m c id doc <->
  exists kv k, kv ∈ m /\ kv.1.1 = c /\ index_entry_key (entry_def kv.2) id doc = Some k /\ o = mk (entry_partition kv.2) k.
Proof.
  unfold staged. rewrite list_elem_of_omap. split.
  - intros (kv & Hkv & E). case_decide; [|done]. apply fmap_Some in E as (k & Hk & ->). eauto 10.
  - intros (kv & k & Hkv & Hc & Hk & ->). exists kv. split; [done|]. by rewrite decide_True, Hk.
Qed.
End views.

(** ** Primitive operations *)

Section primitives.
Context `{SerdeJson} `{!SerdeLaws} `{BackendLaws} `{StorageSerde} `{ScanAccelerator} `{RegexLib}.
Abbreviation db := (gmap string (gmap string Value)).

#[export] Instance same_refl : Reflexive same.
Proof. by intros s. Qed.
#[export] Instance same_trans : Transitive same.
Proof.
  intros s t u (A1 & A2 & A3 & A4) (B1 & B2 & B3 & B4). split_and!; [congruence..|].
  intros p k. by rewrite B4.
Qed.
Lemma same_counts s s' (d : db) : same s s' -> counts_ok s d -> counts_ok s' d.
Proof. intros (_ & E & _) Hc. unfold counts_ok. by rewrite E. Qed.

Lemma check_ok s (d : db) : core_inv s d -> check_not_poisoned s = (Ok tt, s).
Proof. intros [Hh]. unfold check_not_poisoned, is_poisoned. by rewrite poisoned_spec. Qed.

Lemma create_partition_ok s (d : db) n : core_inv s d -> exists s',
  create_partition n s = (Ok (partition_of n), s') /\ core_inv s' d /\ same s s'.
Proof.
  intros Hi. pose proof Hi as [Hh Hm Hc Hk Hv]. unfold create_partition.
  destruct (partitions s !! n) as [p|] eqn:Ep.
  { exists s. rewrite (Hc n p Ep). by split_and!. }
  destruct (open_spec (eng s) n Hh) as (e' & -> & Hh' & He). eexists; split; [done|].
  assert (E : forall p k, view e' p k = view (eng s) p k) by (intros p k; unfold view; by rewrite He).
  split; [|by split_and!]. constructor; cbn; try done.
  - intros n' p. destruct (decide (n = n')) as [<-|Hn]; [rewrite lookup_insert_eq; congruence|].
    rewrite lookup_insert_ne by done. apply Hc.
  - by eapply view_inv_ext.
Qed.

Lemma meta_get_ok s (d : db) key : core_inv s d ->
  meta_get key s = (Ok (view (eng s) (partition_of "_meta") key), s).
Proof.
  intros [Hh Hm _ _ _]. unfold meta_get, op_engine. rewrite get_spec, Hm by done. done.
Qed.
Lemma collection_key_prefix c : starts_with (collection_key c) (str_bytes "collection:") = true.
Proof. unfold collection_key. rewrite str_bytes_app. apply starts_with_app. Qed.
Lemma meta_collection s (d : db) c : core_inv s d ->
  is_Some (view (eng s) (partition_of "_meta") (collection_key c)) <-> is_Some (d !! c).
Proof.
  intros [_ _ _ _ Hv]. rewrite (vi_cols _ _ _ Hv _ (collection_key_prefix c)).
  split; [|eauto]. by intros (c' & Hc' & ->%collection_key_inj).
Qed.

(** Existence is exact, whatever the cache holds. *)
Lemma collection_exists_ok s (d : db) c : core_inv s d -> exists s',
  collection_exists c s = (Ok (bool_decide (is_Some (d !! c))), s') /\ core_inv s' d /\ same s s'.
Proof.
  intros Hi. pose proof Hi as [Hh Hm Hc Hk Hv]. unfold collection_exists.
  case_bool_decide as Hin.
  { exists s. rewrite bool_decide_true by by apply Hk. by split_and!. }
  unfold op_bind. rewrite (meta_get_ok s d) by done.
  pose proof (meta_collection s d c Hi) as Hiff. destruct (view _ _ _) as [v|].
  - assert (is_Some (d !! c)) by by apply Hiff; eauto. cbn. rewrite bool_decide_true by done.
    eexists. split; [done|]. split; [|by split_and!]. constructor; cbn; try done. set_solver.
  - exists s. rewrite bool_decide_false; [by split_and!|]. rewrite <- Hiff. by intros [].
Qed.
Lemma ensure_ok s (d : db) c : core_inv s d -> exists s',
  ensure_collection_exists c s =
    (if bool_decide (is_Some (d !! c)) then Ok tt else Err (CollectionNotFound c), s') /\
  core_inv s' d /\ same s s'.
Proof.
  intros Hi. destruct (collection_exists_ok s d c Hi) as (s' & E & Hi' & Hs). exists s'.
  unfold ensure_collection_exists, op_bind. rewrite E. by case_bool_decide.
Qed.

Lemma docs_view_lookup V p docs id : docs_view V p docs -> map_Forall doc_ok docs ->
  V p (str_bytes id) = docs !! id ≫= to_vec.
Proof.
  intros Hv Hok. destruct (V p (str_bytes id)) as [v|] eqn:E.
  - apply Hv in E as (i & x & Hx & ->%(inj str_bytes) & Hb). by rewrite Hx.
  - destruct (docs !! id) as [x|] eqn:Hx; [|done]. destruct (Hok _ _ Hx) as (_ & [b Hb] & _).
    cbn. rewrite Hb. exfalso. assert (V p (str_bytes id) = Some b) by (apply Hv; eauto). congruence.
Qed.
Lemma op_get_ok s (d : db) c docs id : core_inv s d -> d !! c = Some docs ->
  op_get (partition_of (docs_name c)) id s = (Ok (docs !! id ≫= to_vec), s).
Proof.
  intros [Hh _ _ _ Hv] Hc. destruct (vi_ok _ _ _ Hv _ _ Hc) as [Hs Hok].
  unfold op_get, op_engine. rewrite get_spec by done. cbn. do 3 f_equal.
  pose proof (vi_docs _ _ _ Hv c Hs) as Hd. unfold docs_of in Hd. rewrite Hc in Hd.
  by apply (docs_view_lookup (view (eng s)) _ docs).
Qed.
Lemma read_existing_ok s (d : db) c docs id : core_inv s d -> d !! c = Some docs ->
  read_existing (partition_of (docs_name c)) id s = (ok_or (docs !! id) (DocumentNotFound id), s).
Proof.
  intros Hi Hc. unfold read_existing, op_bind. rewrite (op_get_ok s d c docs id) by done.
  destruct (docs !! id) as [x|] eqn:Hx; [|done]. destruct Hi as [_ _ _ _ Hv].
  destruct (vi_ok _ _ _ Hv _ _ Hc) as [_ Hok]. destruct (Hok _ _ Hx) as (_ & [b Hb] & Hrt & _).
  cbn. rewrite Hb. cbn. unfold op_parse. by rewrite (Hrt b Hb).
Qed.

Lemma commit_ok s (d d' : db) ops : core_inv s d ->
  view_inv (after (view (eng s)) ops) (index_manager s) d' ->
  (forall c, c ∈ collections s -> is_Some (d' !! c)) ->
  exists e', commit_batch ops s = (Ok tt, set_eng s e') /\ core_inv (set_eng s e') d' /\
    forall p k, view e' p k = after (view (eng s)) ops p k.
Proof.
  intros [Hh Hm Hc Hk Hv] Hv' Hk'. destruct (view_commit (eng s) ops Hh) as (e' & He & Hh' & E).
  exists e'. unfold commit_batch. rewrite He. split; [done|]. split; [|done].
  constructor; cbn; try done. by eapply view_inv_ext.
Qed.
End primitives.

(** ** Changing one document *)

Section change.
Context `{SerdeJson} `{!SerdeLaws} `{BackendLaws} `{StorageSerde} `{ScanAccelerator} `{RegexLib}.
Abbreviation keyview := (PartitionId -> bytes -> option bytes).
Abbreviation db := (gmap string (gmap string Value)).

Definition del_op (p : PartitionId) (k : bytes) : batch_op PartitionId := BDel p k.
Definition put_op (p : PartitionId) (k : bytes) : batch_op PartitionId := BPut p k [].

Lemma partition_inj (m : IndexManager) (d : db) kv kv' : registry_ok m d -> kv ∈ m -> kv' ∈ m ->
  entry_partition kv.2 = entry_partition kv'.2 -> kv = kv'.
Proof.
  intros (Hnd & Hreg & _) Hin Hin' E. rewrite Forall_forall in Hreg.
  destruct (Hreg _ Hin) as (_ & Hs & Hp & _). destruct (Hreg _ Hin') as (_ & Hs' & Hp' & _).
  rewrite Hp, Hp' in E. apply (inj partition_of), index_name_inj in E as [E1 E2]; [|done..].
  apply (NoDup_fmap_inj_on fst m); [done..|]. destruct kv as [[] ?], kv' as [[] ?]; cbn in *. by subst.
Qed.

Lemma after_staged (V : keyview) (m : IndexManager) (d : db) c id doc kv k : registry_ok m d ->
  kv ∈ m -> kv.1.1 = c ->
  let hit := decide (index_entry_key (entry_def kv.2) id doc = Some k) in
  after V (staged del_op m c id doc) (entry_partition kv.2) k = (if hit then None else V (entry_partition kv.2) k) /\
  after V (staged put_op m c id doc) (entry_partition kv.2) k = (if hit then Some [] else V (entry_partition kv.2) k).
Proof.
  intros Hreg Hin Hc hit. unfold after. rewrite batch_dels, (batch_puts _ _ []).
  2,3: apply Forall_forall; intros o (kv' & j & _ & _ & _ & ->)%elem_staged; by do 2 eexists.
  assert (forall mk : PartitionId -> bytes -> batch_op PartitionId, (forall q j q' j', mk q j = mk q' j' -> q = q' /\ j = j') ->
    mk (entry_partition kv.2) k ∈ staged mk m c id doc <-> index_entry_key (entry_def kv.2) id doc = Some k) as Hiff.
  { intros mk Hmk. rewrite elem_staged. split.
    - intros (kv' & j & Hin' & Hc' & Hj & [Ep ->]%Hmk). by rewrite (partition_inj m d kv kv').
    - intros Hk. by exists kv, k. }
  pose proof (Hiff del_op ltac:(naive_solver)) as Hd. pose proof (Hiff put_op ltac:(naive_solver)) as Hp.
  unfold del_op, put_op in *. subst hit.
  split; repeat case_decide; naive_solver.
Qed.
Lemma after_staged_other (V : keyview) mk (m : IndexManager) c id doc p k :
  (forall q j, op_target (mk q j) = (q, j)) ->
  (forall kv, kv ∈ m -> kv.1.1 = c -> entry_partition kv.2 <> p) ->
  after V (staged mk m c id doc) p k = V p k.
Proof.
  intros Hmk Hp. apply batch_other, Forall_forall. intros o (kv & j & Hin & Hc & _ & ->)%elem_staged.
  rewrite Hmk. intros [= E _]. by apply (Hp kv).
Qed.

Definition doc_op (p : PartitionId) (id : string) (new : option (Value * bytes)) : batch_op PartitionId :=
  match new with Some x => BPut p (str_bytes id) x.2 | None => BDel p (str_bytes id) end.
(** The batch of every document write: old entries out, the document, new
    entries in. *)
Definition change_ops (m : IndexManager) (c id : string) (old : option Value) (new : option (Value * bytes))
    : list (batch_op PartitionId) :=
  match old with Some doc => staged del_op m c id doc | None => [] end ++
  [doc_op (partition_of (docs_name c)) id new] ++
  match new with Some x => staged put_op m c id x.1 | None => [] end.

Context (V : keyview) (m : IndexManager) (d : db) (c id : string) (docs : gmap string Value)
  (new : option (Value * bytes)).
Context (HV : view_inv V m d) (Hc : d !! c = Some docs) (Hid : id_safe id)
  (Hnew : forall doc b, new = Some (doc, b) -> doc_ok id doc /\ to_vec doc = Some b).
Let V' := after V (change_ops m c id (docs !! id) new).
Let docs' := partial_alter (fun _ => fst <$> new) id docs.

Lemma registered_in kv : kv ∈ m -> registered kv.
Proof. intros Hin. destruct (vi_registry _ _ _ HV) as (_ & Hr & _). by eapply (proj1 (Forall_forall _ _)) in Hr. Qed.
Lemma safe_c : name_safe c.
Proof. by destruct (vi_ok _ _ _ HV _ _ Hc). Qed.

Lemma change_at_docs k : V' (partition_of (docs_name c)) k =
  if decide (k = str_bytes id) then snd <$> new else V (partition_of (docs_name c)) k.
Proof.
  assert (Hne : forall kv, kv ∈ m -> kv.1.1 = c -> entry_partition kv.2 <> partition_of (docs_name c)).
  { intros kv Hin Hcv. destruct (registered_in _ Hin) as (_ & Hs & Hp & _).
    rewrite Hp. intros E%(inj partition_of). symmetry in E. revert E. by apply docs_index_name; [apply safe_c|]. }
  unfold V', change_ops. rewrite !after_app.
  set (V1 := after (after V _) _).
  trans (V1 (partition_of (docs_name c)) k).
  { destruct new as [x|]; [|done]. by apply after_staged_other. }
  subst V1. unfold doc_op. unfold after at 1. cbn [foldl].
  assert (E : after V match docs !! id with Some doc => staged del_op m c id doc | None => [] end (partition_of (docs_name c)) k
    = V (partition_of (docs_name c)) k) by (destruct (docs !! id); [by apply after_staged_other|done]).
  rewrite E. destruct (decide (k = str_bytes id)) as [->|Hk]; destruct new as [[x b]|]; cbn.
  1,2: by rewrite decide_True.
  all: by rewrite decide_False by naive_solver.
Qed.

Lemma change_at_index kv k : kv ∈ m -> kv.1.1 = c ->
  V' (entry_partition kv.2) k =
  if decide (((fst <$> new) ≫= index_entry_key (entry_def kv.2) id) = Some k) then Some []
  else if decide ((docs !! id ≫= index_entry_key (entry_def kv.2) id) = Some k) then None
  else V (entry_partition kv.2) k.
Proof.
  intros Hin Hcv. pose proof (vi_registry _ _ _ HV) as Hreg.
  destruct (registered_in _ Hin) as (_ & Hs & Hp & _).
  unfold V', change_ops. rewrite !after_app.
  set (V1 := after V _). set (V2 := after V1 _).
  assert (E2 : V2 (entry_partition kv.2) k = V1 (entry_partition kv.2) k).
  { unfold V2, after. cbn [foldl]. apply op_effect_other. unfold doc_op.
    assert (partition_of (docs_name c) <> entry_partition kv.2).
    { rewrite Hp. intros E%(inj partition_of). revert E. by apply docs_index_name; [apply safe_c|]. }
    destruct new; cbn; naive_solver. }
  assert (E1 : V1 (entry_partition kv.2) k =
    if decide ((docs !! id ≫= index_entry_key (entry_def kv.2) id) = Some k) then None else V (entry_partition kv.2) k).
  { unfold V1. destruct (docs !! id) as [doc|]; cbn [mbind option_bind]; [by apply (after_staged V m d)|].
    by rewrite decide_False by naive_solver. }
  destruct new as [[x b]|]; cbn [fmap option_fmap option_map fst mbind option_bind].
  - rewrite (proj2 (after_staged V2 m d c id x kv k Hreg Hin Hcv)), E2, E1. done.
  - rewrite decide_False by naive_solver. trans (V2 (entry_partition kv.2) k); [done|]. by rewrite E2, E1.
Qed.

Lemma change_elsewhere p k : p <> partition_of (docs_name c) ->
  (forall kv, kv ∈ m -> kv.1.1 = c -> entry_partition kv.2 <> p) -> V' p k = V p k.
Proof.
  intros Hp Hm. unfold V', change_ops, after. apply batch_other.
  rewrite !Forall_app. split_and!.
  - destruct (docs !! id); [|constructor]. apply Forall_forall. intros o (kv & j & Hin & Hcv & _ & ->)%elem_staged.
    cbn. intros [= E _]. by apply (Hm kv).
  - repeat constructor. unfold doc_op. destruct new; cbn; naive_solver.
  - destruct new; [|constructor]. apply Forall_forall. intros o (kv & j & Hin & Hcv & _ & ->)%elem_staged.
    cbn. intros [= E _]. by apply (Hm kv).
Qed.
Lemma changed_docs_lookup i : docs' !! i = if decide (i = id) then fst <$> new else docs !! i.
Proof.
  unfold docs'. destruct (decide (i = id)) as [->|E]; [by rewrite lookup_partial_alter_eq|by rewrite lookup_partial_alter_ne].
Qed.
Lemma docs_of_changed c' : docs_of (<[c := docs']> d) c' = if decide (c' = c) then docs' else docs_of d c'.
Proof.
  unfold docs_of. destruct (decide (c' = c)) as [->|E]; [by rewrite lookup_insert_eq|by rewrite lookup_insert_ne].
Qed.
Lemma docs_of_c : docs_of d c = docs.
Proof. unfold docs_of. by rewrite Hc. Qed.

Lemma new_doc x : fst <$> new = Some x -> doc_ok id x /\ to_vec x = snd <$> new.
Proof. intros ([y b] & Hn & ->)%fmap_Some. destruct (Hnew y b Hn). by rewrite Hn. Qed.
Lemma new_bytes b : snd <$> new = Some b -> exists x, fst <$> new = Some x /\ to_vec x = Some b.
Proof. intros ([y b'] & Hn & ->)%fmap_Some. destruct (Hnew y b' Hn). exists y. by rewrite Hn. Qed.

Lemma change_docs_view : docs_view V' (partition_of (docs_name c)) docs'.
Proof.
  intros k v. rewrite change_at_docs. split.
  - destruct (decide (k = str_bytes id)) as [->|Hk]; intros E.
    + apply new_bytes in E as (x & Hx & Hb). exists id, x. by rewrite changed_docs_lookup, decide_True.
    + apply (vi_docs _ _ _ HV c safe_c) in E as (i & x & Hx & -> & Hb). rewrite docs_of_c in Hx.
      exists i, x. rewrite changed_docs_lookup, decide_False by naive_solver. done.
  - intros (i & x & Hx & -> & Hb). rewrite changed_docs_lookup in Hx. destruct (decide (i = id)) as [->|Hi].
    + rewrite decide_True by done. apply new_doc in Hx as [_ Hx]. congruence.
    + rewrite decide_False by (by intros ?%(inj str_bytes)).
      apply (vi_docs _ _ _ HV c safe_c). exists i, x. by rewrite docs_of_c.
Qed.

Lemma change_index_view kv : kv ∈ m -> kv.1.1 = c -> index_view V' (entry_partition kv.2) (entry_def kv.2) docs'.
Proof.
  intros Hin Hcv k v. rewrite change_at_index by done.
  pose proof (vi_idx _ _ _ HV _ Hin k v) as Hold. rewrite Hcv, docs_of_c in Hold.
  assert (Hids : forall i x, docs' !! i = Some x -> index_entry_key (entry_def kv.2) i x = Some k ->
    extract_doc_id_from_key k = Some i).
  { intros i x Hx Hk. eapply entry_key_id; [|exact Hk]. rewrite changed_docs_lookup in Hx.
    case_decide as E; [by subst|]. destruct (vi_ok _ _ _ HV _ _ Hc) as [_ Hok]. by destruct (Hok _ _ Hx). }
  assert (Hnewkey : forall x, docs' !! id = Some x -> ((fst <$> new) ≫= index_entry_key (entry_def kv.2) id) =
    index_entry_key (entry_def kv.2) id x).
  { intros x Hx. rewrite changed_docs_lookup, decide_True in Hx by done. by rewrite Hx. }
  destruct (decide (((fst <$> new) ≫= _) = Some k)) as [Hk|Hk].
  { split; [|by intros (-> & _)]. intros [= <-]. split; [done|]. exists id.
    apply bind_Some in Hk as (x & Hx & Hk). exists x. by rewrite changed_docs_lookup, decide_True. }
  destruct (decide ((docs !! id ≫= _) = Some k)) as [Ho|Ho].
  - split; [done|]. intros (-> & i & x & Hx & Hkx). destruct Hk.
    apply bind_Some in Ho as (y & Hy & Hky).
    assert (i = id) as ->; [|by rewrite (Hnewkey x)].
    destruct (vi_ok _ _ _ HV _ _ Hc) as [_ Hok].
    assert (Some i = Some id) as [= ->]; [|done].
    rewrite <- (Hids _ _ Hx Hkx). by eapply entry_key_id.
  - rewrite Hold. apply and_iff_compat_l. split; intros (i & x & Hx & Hkx); exists i, x.
    + rewrite changed_docs_lookup, decide_False; [done|]. intros ->. apply Ho. by rewrite Hx.
    + destruct (decide (i = id)) as [->|Hi]; [by destruct Hk; rewrite (Hnewkey x)|].
      by rewrite changed_docs_lookup, decide_False in Hx.
Qed.

(** A change of one document keeps the invariant, of the changed map. *)
Lemma view_inv_change : view_inv V' m (<[c := docs']> d).
Proof.
  pose proof (vi_registry _ _ _ HV) as Hreg. pose proof HV as [Vdocs Vok Vidx Vno Vcols Vdefs _].
  assert (Hdom : forall c', is_Some (<[c := docs']> d !! c') <-> is_Some (d !! c')).
  { intros c'. destruct (decide (c' = c)) as [->|E]; [|by rewrite lookup_insert_ne].
    rewrite lookup_insert_eq, Hc. split; eauto. }
  assert (Hmeta : forall k, V' (partition_of "_meta") k = V (partition_of "_meta") k).
  { intros k. apply change_elsewhere.
    - intros E%(inj partition_of). symmetry in E. by apply docs_meta_name in E.
    - intros kv Hin _. destruct (registered_in _ Hin) as (_ & _ & -> & _).
      intros E%(inj partition_of). by apply index_meta_name in E. }
  constructor.
  - intros c' Hs. rewrite docs_of_changed. case_decide as E; [subst; apply change_docs_view|].
    intros k v. rewrite change_elsewhere; [by apply Vdocs| |].
    + intros ?%(inj partition_of)%docs_name_inj; [by subst|done|apply safe_c].
    + intros kv Hin Hcv. destruct (registered_in _ Hin) as (_ & Hs' & -> & _).
      intros E'%(inj partition_of). symmetry in E'. revert E'. by apply docs_index_name.
  - intros c' x. destruct (decide (c' = c)) as [->|E].
    + rewrite lookup_insert_eq. intros [= <-]. split; [apply safe_c|]. intros i x Hx.
      rewrite changed_docs_lookup in Hx. case_decide as E.
      * subst. by apply new_doc in Hx as [].
      * destruct (Vok _ _ Hc) as [_ Hok]. by apply Hok.
    + rewrite lookup_insert_ne by done. apply Vok.
  - intros kv Hin. rewrite docs_of_changed. case_decide as E; [by apply change_index_view|].
    intros k v. rewrite change_elsewhere; [by apply Vidx| |].
    + destruct (registered_in _ Hin) as (_ & Hs' & -> & _). intros E'%(inj partition_of). symmetry in E'.
      revert E'. apply docs_index_name; [apply safe_c|done].
    + intros kv' Hin' Hcv' E'. apply (partition_inj m d) in E'; [|done..]. by subst.
  - intros c' n k Hs Hn. rewrite change_elsewhere; [by apply Vno| |].
    + intros E'%(inj partition_of). symmetry in E'. revert E'. by apply docs_index_name; [apply safe_c|].
    + intros kv Hin Hcv. destruct (registered_in _ Hin) as (_ & Hs' & -> & _).
      intros [<- <-]%(inj partition_of)%index_name_inj; [|done..]. apply Hn.
      apply list_elem_of_fmap. exists kv. by destruct kv as [[] ?].
  - intros k Hk. rewrite Hmeta, (Vcols k Hk). by setoid_rewrite Hdom.
  - intros k v Hk. rewrite Hmeta. by apply Vdefs.
  - destruct Hreg as (Hnd & Hr & Hd). split_and!; [done..|].
    eapply Forall_impl; [exact Hd|]. intros kv. by rewrite Hdom.
Qed.
End change.

(** ** Changing several documents in one batch *)

Section changes.
Context `{SerdeJson} `{!SerdeLaws} `{BackendLaws} `{StorageSerde} `{ScanAccelerator} `{RegexLib}.
Abbreviation keyview := (PartitionId -> bytes -> option bytes).
Abbreviation db := (gmap string (gmap string Value)).

(** The new state of one document: gone, or a value with its bytes. *)
Abbreviation change := (string * option (Value * bytes))%type.
Definition apply_change (docs : gmap string Value) (x : change) : gmap string Value :=
  partial_alter (fun _ => fst <$> x.2) x.1 docs.
Definition change_valid (x : change) : Prop :=
  id_safe x.1 /\ forall doc b, x.2 = Some (doc, b) -> doc_ok x.1 doc /\ to_vec doc = Some b.
(** Every change's old entries are those of the state it finds. *)
Fixpoint changes_ops (m : IndexManager) (c : string) (docs : gmap string Value) (l : list change)
    : list (batch_op PartitionId) :=
  match l with
  | [] => []
  | x :: l => change_ops m c x.1 (docs !! x.1) x.2 ++ changes_ops m c (apply_change docs x) l
  end.

Lemma view_inv_changes (V : keyview) (m : IndexManager) (d : db) c docs l :
  view_inv V m d -> d !! c = Some docs -> Forall change_valid l ->
  view_inv (after V (changes_ops m c docs l)) m (<[c := foldl apply_change docs l]> d).
Proof.
  intros HV Hd Hl. revert V d docs HV Hd. induction Hl as [|x l [Hid Hx] _ IH]; intros V d docs HV Hd; cbn.
  - by rewrite insert_id.
  - rewrite <- (insert_insert_eq d c _ (apply_change docs x)).
    eapply view_inv_ext; [intros p k; apply after_app|].
    apply IH; [|by rewrite lookup_insert_eq]. by apply view_inv_change.
Qed.
(** On distinct documents, the old states are the original ones. *)
Lemma apply_change_ne docs x i : i <> x.1 -> apply_change docs x !! i = docs !! i.
Proof. intros Hne. unfold apply_change. by rewrite lookup_partial_alter_ne. Qed.
Lemma changes_ops_distinct m c (docs docs' : gmap string Value) (l : list change) : NoDup l.*1 ->
  (forall x, x ∈ l -> docs' !! x.1 = docs !! x.1) ->
  changes_ops m c docs' l = l ≫= fun x => change_ops m c x.1 (docs !! x.1) x.2.
Proof.
  revert docs'; induction l as [|x l IH]; intros docs' Hnd Heq; cbn; [done|].
  inversion Hnd as [|? ? Hx Hnd']; subst. rewrite (Heq x) by (by left). f_equal. apply IH; [done|].
  intros y Hy. rewrite apply_change_ne; [apply Heq; by right|]. intros E. apply Hx.
  apply list_elem_of_fmap. by exists y.
Qed.
Lemma foldl_change_lookup docs (l : list change) i : NoDup l.*1 ->
  foldl apply_change docs l !! i =
  match List.find (fun x => bool_decide (x.1 = i)) l with Some x => fst <$> x.2 | None => docs !! i end.
Proof.
  revert docs; induction l as [|x l IH]; intros docs Hnd; cbn; [done|].
  inversion Hnd as [|? ? Hx Hnd']; subst. rewrite IH by done. case_bool_decide as E.
  - destruct (List.find _ l) as [y|] eqn:Ey.
    + apply List.find_some in Ey as [Hy Ey%bool_decide_eq_true]. exfalso. apply Hx.
      apply list_elem_of_fmap. exists y. split; [congruence|by apply list_elem_of_In].
    + unfold apply_change. rewrite E. by rewrite lookup_partial_alter_eq.
  - destruct (List.find _ l); [done|]. by apply apply_change_ne.
Qed.

(** The commit of several changes. *)
Lemma changes_commit s (d : db) c docs l ops : core_inv s d -> d !! c = Some docs -> Forall change_valid l ->
  ops = changes_ops (index_manager s) c docs l ->
  exists e', commit_batch ops s = (Ok tt, set_eng s e') /\
    core_inv (set_eng s e') (<[c := foldl apply_change docs l]> d).
Proof.
  intros Hi Hd Hl ->. pose proof Hi as [_ _ _ Hk Hv].
  destruct (commit_ok s d (<[c := foldl apply_change docs l]> d) (changes_ops (index_manager s) c docs l) Hi)
    as (e' & E & Hi' & _).
  - by apply view_inv_changes.
  - intros c' Hc'. destruct (decide (c = c')) as [<-|Hne]; [rewrite lookup_insert_eq; eauto|].
    rewrite lookup_insert_ne by done. by apply Hk.
  - by exists e'.
Qed.
End changes.
