(* ===== verification/Refinement.v ===== *)
(** * The document operations refine a map of documents

    The abstract database is [gmap collection (gmap id document)]; the
    [spec_*] functions say what each request does to it and what it answers,
    without engine, batches, indexes, caches or counters. The theorems state
    that the operations of [Storage] and [Document] implement them: from a
    state that represents a database, an operation answers what the
    specification answers and leaves a state that represents what the
    specification leaves, every index entry and counter included. *)

From S2P Require Import Prelude Bytes F64 Json Errors Externals Filter Secondary Backend Index Storage Document Consistency.

Abbreviation db := (gmap string (gmap string Value)).

(** ** The specification *)

Section spec.
Context `{SerdeJson} `{StorageSerde} `{RegexLib}.

(** A request on an existing collection. *)
Definition on_docs {A} (c : string) (d : db) (f : gmap string Value -> res A * gmap string Value) : res A * db :=
  match d !! c with
  | None => (Err (CollectionNotFound c), d)
  | Some docs => let '(r, docs') := f docs in (r, <[c := docs']> d)
  end.

Definition spec_id (uuid : string) (obj : list (string * Value)) (docs : gmap string Value) : res string :=
  match map_get "_id" obj with
  | Some raw =>
      let? id := validate_custom_id raw in
      match docs !! id with
      | Some _ => Err (DocumentConflict ("Document already exists: " +:+ id))
      | None => Ok id
      end
  | None => Ok uuid
  end.
Definition insert_docs (now uuid : string) (doc : Value) (docs : gmap string Value)
    : res Value * gmap string Value :=
  match as_object doc with
  | None => (Err (InvalidDocument "Document must be a JSON object"), docs)
  | Some obj =>
      match spec_id uuid obj docs with
      | Err e => (Err e, docs)
      | Ok id =>
          let doc := VObject (stamp_new id now (map_remove "_id" obj)) in
          match sized_bytes doc with
          | Err e => (Err e, docs)
          | Ok _ => (Ok doc, <[id := doc]> docs)
          end
      end
  end.
Definition spec_insert (now uuid c : string) (doc : Value) (d : db) : res Value * db :=
  on_docs c d (insert_docs now uuid doc).

Definition spec_get (c id : string) (d : db) : res Value * db :=
  on_docs c d (fun docs => (ok_or (docs !! id) (DocumentNotFound id), docs)).

(** Replacing [id] by what [f] makes of the stored document. *)
Definition spec_rewrite (now c id : string) (f : Value -> Value) (d : db) : res Value * db :=
  on_docs c d (fun docs =>
    match docs !! id with
    | None => (Err (DocumentNotFound id), docs)
    | Some old =>
        match replacement old id now (f old) with
        | Err e => (Err e, docs)
        | Ok doc =>
            match sized_bytes doc with
            | Err e => (Err e, docs)
            | Ok _ => (Ok doc, <[id := doc]> docs)
            end
        end
    end).
Definition spec_replace (now c id : string) (doc : Value) : db -> res Value * db :=
  spec_rewrite now c id (fun _ => doc).
Definition spec_partial_update (now c id : string) (patch : Value) : db -> res Value * db :=
  spec_rewrite now c id (json_merge_patch patch).

Definition spec_delete (c id : string) (d : db) : res unit * db :=
  on_docs c d (fun docs =>
    match docs !! id with
    | None => (Err (DocumentNotFound id), docs)
    | Some _ => (Ok tt, delete id docs)
    end).
End spec.

(** [m] implements [spec] from the states that represent [d]. *)
Definition refines `{SerdeJson} `{BackendLaws} `{StorageSerde} `{ScanAccelerator}
    {A} (m : Op A) (spec : db -> res A * db) (d : db) : Prop :=
  forall s, storage_inv s d -> exists s', m s = ((spec d).1, s') /\ storage_inv s' (spec d).2.

(** ** Identifiers *)

Lemma segment_fault_none s : segment_fault s = None <->
  s <> EmptyString /\ s <> "." /\ s <> ".." /\ 47 ∉ str_bytes s /\ 92 ∉ str_bytes s /\
  has_control (str_bytes s) = false.
Proof.
  unfold segment_fault.
  assert (E : existsb (fun c => (c =? 47) || (c =? 92)) (str_bytes s) = false <->
    47 ∉ str_bytes s /\ 92 ∉ str_bytes s).
  { rewrite <- not_true_iff_false, existsb_exists. setoid_rewrite <- list_elem_of_In.
    setoid_rewrite orb_true_iff. setoid_rewrite Z.eqb_eq. naive_solver. }
  case_bool_decide; [by split; [|intros []]|]. case_bool_decide; [by split; [|intros (_ & [] & _)]|].
  case_bool_decide; cbn; [by split; [|intros (_ & _ & [] & _)]|].
  destruct (existsb _ _); [split; [done|]; intuition congruence|].
  destruct (has_control _); intuition congruence.
Qed.
Lemma no_control_bytes l : has_control l = false -> 0 ∉ l /\ 1 ∉ l.
Proof.
  induction l as [|b l IH]; cbn; [split; by intros ?%elem_of_nil|].
  intros [[[E1 E2]%orb_false_elim _]%orb_false_elim E3]%orb_false_elim. destruct (IH E3).
  apply Z.ltb_ge in E1. split; intros [|]%elem_of_cons; lia || done.
Qed.
Lemma validate_custom_id_iff v s : validate_custom_id v = Ok s <->
  v = VString s /\ str_len s <= MAX_CUSTOM_ID_LENGTH /\ starts_with (str_bytes s) (str_bytes "_") = false /\
  segment_fault s = None.
Proof.
  destruct v as [| | |t| |]; cbn [validate_custom_id]; try naive_solver.
  destruct t as [|a t]; [split; [done|]; intros ([= <-] & _ & _ & E); done|].
  set (u := String a t). destruct (Z.ltb_spec MAX_CUSTOM_ID_LENGTH (str_len u)) as [Hl|Hl].
  { split; [done|]. intros ([= <-] & ? & _). lia. }
  destruct (starts_with _ _) eqn:Eu; [split; [done|]; intros ([= <-] & _ & E & _); congruence|].
  case_bool_decide as Hz.
  { split; [done|]. intros ([= <-] & _ & _ & E%segment_fault_none). exfalso.
    destruct E as (_ & _ & _ & _ & _ & E%no_control_bytes). naive_solver. }
  destruct (segment_fault u) eqn:Ef.
  - split; [done|]. intros ([= <-] & _ & _ & E). congruence.
  - split; [intros [= <-]; done|]. by intros ([= <-] & _).
Qed.
Lemma validated_id_safe v s : validate_custom_id v = Ok s -> utf8_valid (str_bytes s) = true -> id_safe s.
Proof.
  intros (-> & _ & _ & (Hne & _ & _ & _ & _ & Hc)%segment_fault_none)%validate_custom_id_iff Hu.
  apply no_control_bytes in Hc as [? _]. by split_and!.
Qed.

Section refinement.
Context `{SerdeJson} `{!SerdeLaws} `{BackendLaws} `{StorageSerde} `{ScanAccelerator} `{RegexLib}.

(** ** Running the shared prefix of an operation *)

(** [check_not_poisoned], the collection's existence, then its partition. *)
Lemma prefix_ok s (d : db) c : storage_inv s d ->
  check_not_poisoned s = (Ok tt, s) /\
  exists s1, ensure_collection_exists c s =
    (if bool_decide (is_Some (d !! c)) then Ok tt else Err (CollectionNotFound c), s1) /\ storage_inv s1 d /\
  exists s2, get_docs_partition c s1 = (Ok (partition_of (docs_name c)), s2) /\ storage_inv s2 d.
Proof.
  intros [Hi Hc]. split; [by apply (check_ok s d)|].
  destruct (ensure_ok s d c Hi) as (s1 & E1 & Hi1 & Hs1). exists s1. split; [done|].
  split; [split; [done|by eapply same_counts]|].
  destruct (create_partition_ok s1 d (docs_name c) Hi1) as (s2 & E2 & Hi2 & Hs2).
  exists s2. split; [done|]. split; [done|]. eapply same_counts; [|exact Hc]. by trans s1.
Qed.

(** The commit of a change of one document, with its counter. *)
Lemma change_commit s (d : db) c docs id new : core_inv s d -> d !! c = Some docs -> id_safe id ->
  (forall doc b, new = Some (doc, b) -> doc_ok id doc /\ to_vec doc = Some b) ->
  exists e', commit_batch (change_ops (index_manager s) c id (docs !! id) new) s = (Ok tt, set_eng s e') /\
    core_inv (set_eng s e') (<[c := partial_alter (fun _ => fst <$> new) id docs]> d).
Proof.
  intros Hi Hc Hid Hnew. pose proof Hi as [_ _ _ Hk Hv].
  destruct (commit_ok s d (<[c := partial_alter (fun _ => fst <$> new) id docs]> d)
    (change_ops (index_manager s) c id (docs !! id) new) Hi) as (e' & E & Hi' & _).
  - by apply view_inv_change.
  - intros c' Hc'. destruct (decide (c = c')) as [<-|Hne]; [rewrite lookup_insert_eq; eauto|].
    rewrite lookup_insert_ne by done. by apply Hk.
  - by exists e'.
Qed.

(** The counter moves by the change of the size; wrapping commutes. *)
Lemma wrap_i64_add a b : wrap_i64 (wrap_i64 a + b) = wrap_i64 (a + b).
Proof.
  unfold wrap_i64. f_equal. replace ((a + 2 ^ 63) mod 2 ^ 64 - 2 ^ 63 + b + 2 ^ 63) with ((a + 2 ^ 63) mod 2 ^ 64 + b) by lia.
  replace (a + b + 2 ^ 63) with (a + 2 ^ 63 + b) by lia. by rewrite Zplus_mod_idemp_l.
Qed.
Lemma counts_change s s' (d : db) c docs docs' delta :
  counts_ok s d -> d !! c = Some docs ->
  doc_counts s' = counters_increment (doc_counts s) c delta ->
  Z.of_nat (size docs') = Z.of_nat (size docs) + delta -> counts_ok s' (<[c := docs']> d).
Proof.
  intros Hc Hd Es Hz c' x. rewrite Es. unfold counters_increment. rewrite (Hc _ _ Hd).
  destruct (decide (c = c')) as [<-|Hne].
  - rewrite lookup_insert_eq. intros [= <-]. by rewrite lookup_insert_eq, wrap_i64_add, Hz.
  - rewrite lookup_insert_ne by done. intros E. rewrite lookup_insert_ne by done. by apply Hc.
Qed.
Lemma counts_same_size s s' (d : db) c docs docs' :
  counts_ok s d -> d !! c = Some docs -> doc_counts s' = doc_counts s -> size docs' = size docs ->
  counts_ok s' (<[c := docs']> d).
Proof.
  intros Hc Hd Es Hz c' x. rewrite Es. destruct (decide (c = c')) as [<-|Hne].
  - rewrite lookup_insert_eq. intros [= <-]. by rewrite Hz, (Hc _ _ Hd).
  - rewrite lookup_insert_ne by done. apply Hc.
Qed.
Lemma core_accel s (d : db) a n : core_inv s d -> core_inv (set_accel (set_counts s n) a) d /\ core_inv (set_accel s a) d.
Proof. intros [A1 A2 A3 A4 A5]. by split; constructor. Qed.

Lemma sized_bytes_ok doc b : sized_bytes doc = Ok b -> to_vec doc = Some b.
Proof.
  unfold sized_bytes. destruct (to_vec doc) as [b'|]; cbn; [|done]. case_match; [done|]. by intros [= ->].
Qed.
Lemma batch_shape m c id p b (old : option Value) doc :
  add_index_entries_to_batch m
    (match old with Some o => remove_index_entries_from_batch m [] c id o | None => [] end ++ [BPut p (str_bytes id) b])
    c id doc =
  match old with Some o => staged del_op m c id o | None => [] end ++ [BPut p (str_bytes id) b] ++ staged put_op m c id doc.
Proof.
  unfold add_index_entries_to_batch, remove_index_entries_from_batch.
  rewrite !stage_entries_app. destruct old; cbn; rewrite ?stage_entries_app, <- ?app_assoc; done.
Qed.

Lemma stamp_new_id id now obj : get (VObject (stamp_new id now obj)) "_id" = Some (VString id).
Proof. cbn [get]. unfold stamp_new. by autorewrite with json. Qed.

Lemma resolve_id_ok s (d : db) c docs uuid obj : core_inv s d -> d !! c = Some docs ->
  id_safe uuid -> docs !! uuid = None ->
  (forall t, map_get "_id" obj = Some (VString t) -> utf8_valid (str_bytes t) = true) ->
  resolve_id (partition_of (docs_name c)) uuid obj s = (spec_id uuid obj docs, s) /\
  forall id, spec_id uuid obj docs = Ok id -> id_safe id /\ docs !! id = None.
Proof.
  intros Hi Hd Hu Hf Hutf. unfold resolve_id, spec_id.
  destruct (map_get "_id" obj) as [raw|] eqn:Hraw; [|split; [done|by intros ? [= <-]]].
  unfold op_bind, op_lift. destruct (validate_custom_id raw) as [id|e] eqn:Hv; [|done].
  rewrite (op_get_ok s d c docs id) by done. destruct Hi as [_ _ _ _ Hview].
  destruct (vi_ok _ _ _ Hview _ _ Hd) as [_ Hok]. cbn [mbind result_bind].
  destruct (docs !! id) as [old|] eqn:Hid; cbn.
  - destruct (Hok _ _ Hid) as (_ & [b ->] & _). done.
  - split; [done|]. intros ? [= <-]. split; [|done]. eapply validated_id_safe; [done|].
    apply Hutf. apply validate_custom_id_iff in Hv as [-> _]. done.
Qed.

Lemma insert_refines_aux now uuid c doc (d : db) :
  id_safe uuid -> (forall docs, d !! c = Some docs -> docs !! uuid = None) ->
  (forall obj s, doc = VObject obj -> map_get "_id" obj = Some (VString s) -> utf8_valid (str_bytes s) = true) ->
  (forall doc', (spec_insert now uuid c doc d).1 = Ok doc' -> round_trip doc') ->
  refines (insert_document now uuid c doc) (spec_insert now uuid c doc) d.
Proof.
  intros Hu Hfresh Hutf Hrt s Hs. destruct (prefix_ok s d c Hs) as (E0 & s1 & E1 & Hs1 & s2 & E2 & Hs2).
  unfold insert_document, op_bind. rewrite E0, E1. revert Hrt. unfold spec_insert, insert_docs, on_docs.
  destruct (d !! c) as [docs|] eqn:Hd; [rewrite bool_decide_true by eauto|rewrite bool_decide_false by (by intros []); eauto].
  destruct doc as [| | | | |obj]; cbn [as_object ok_or op_lift fst snd]; try by (intros _; exists s1; rewrite insert_id).
  rewrite E2.
  destruct (resolve_id_ok s2 d c docs uuid obj) as [Eid Hident]; [by destruct Hs2|done|done|eauto|eauto|].
  rewrite Eid. destruct (spec_id uuid obj docs) as [id|e]; [|intros _; exists s2; by rewrite insert_id].
  destruct (Hident id eq_refl) as [Hid Hnone].
  set (new := VObject _). unfold op_lift. destruct (sized_bytes new) as [b|e] eqn:Hb;
    [|intros _; exists s2; by rewrite insert_id].
  cbn [fst snd]. intros Hrt. specialize (Hrt new eq_refl). apply sized_bytes_ok in Hb.
  destruct Hs2 as [Hi2 Hc2]. cbn [op_gets].
  destruct (change_commit s2 d c docs id (Some (new, b))) as (e' & Ec & Hi'); [done..| |].
  { intros ? ? [= <- <-]. split; [|done]. split_and!; [done|by eexists|done|apply stamp_new_id]. }
  rewrite Hnone in Ec. pose proof (batch_shape (index_manager s2) c id (partition_of (docs_name c)) b None new) as Eb.
  cbn [app] in Eb. unfold op_gets. rewrite Eb. unfold change_ops in Ec. cbn [app fst snd doc_op] in Ec.
  rewrite Ec. eexists; split; [done|].
  cbn in Hi'. split.
  - exact (proj1 (core_accel _ _ _ _ Hi')).
  - eapply (counts_change s2 _ d c docs _ 1); [done..|]. rewrite map_size_insert_None by done. lia.
Qed.

(** ** Reading, replacing, deleting one document *)

Lemma get_refines_aux c id (d : db) : refines (get_document c id) (spec_get c id) d.
Proof.
  intros s Hs. destruct (prefix_ok s d c Hs) as (_ & s1 & E1 & Hs1 & s2 & E2 & Hs2).
  unfold get_document, op_bind. rewrite E1. unfold spec_get, on_docs.
  destruct (d !! c) as [docs|] eqn:Hd; [rewrite bool_decide_true by eauto|rewrite bool_decide_false by (by intros []); eauto].
  rewrite E2. pose proof Hs2 as [Hi _]. exists s2. cbn [fst snd]. rewrite insert_id by done. split; [|done].
  pose proof (read_existing_ok s2 d c docs id Hi Hd) as E. unfold read_existing, op_bind in E.
  rewrite (op_get_ok s2 d c docs id) in E |- * by done.
  destruct (docs !! id ≫= to_vec) as [b|]; [exact E|]. by destruct (docs !! id).
Qed.

Lemma replacement_id old id now doc doc' : replacement old id now doc = Ok doc' ->
  get doc' "_id" = Some (VString id).
Proof.
  unfold replacement. intros (_ & _ & Hr)%bind_ok. apply bind_ok in Hr as (obj & _ & [= <-]).
  cbn [get]. by autorewrite with json.
Qed.
Lemma replace_loaded_ok now c id doc s (d : db) docs old :
  storage_inv s d -> d !! c = Some docs -> docs !! id = Some old ->
  (forall doc', replacement old id now doc = Ok doc' -> round_trip doc') ->
  let out := let? doc' := replacement old id now doc in let? _ := sized_bytes doc' in Ok doc' in
  exists s', replace_loaded now c id (partition_of (docs_name c)) old doc s = (out, s') /\
    storage_inv s' (match out with Ok doc' => <[c := <[id := doc']> docs]> d | Err _ => d end).
Proof.
  intros Hs Hd Ho Hrt out. unfold replace_loaded, op_bind, op_lift. subst out.
  destruct (replacement old id now doc) as [new|e] eqn:Hr; [|by exists s]. cbn [mbind result_bind].
  destruct (sized_bytes new) as [b|e] eqn:Hb; [|by exists s]. cbn [mbind result_bind].
  apply sized_bytes_ok in Hb. destruct Hs as [Hi Hc]. unfold op_gets.
  pose proof Hi as [_ _ _ _ Hview]. destruct (vi_ok _ _ _ Hview _ _ Hd) as [_ Hok].
  destruct (Hok _ _ Ho) as (Hid & _). apply replacement_id in Hr as Hnid.
  destruct (change_commit s d c docs id (Some (new, b))) as (e' & Ec & Hi'); [done..| |].
  { intros ? ? [= <- <-]. split; [|done]. split_and!; [done|by eexists|by apply Hrt|done]. }
  rewrite Ho in Ec. pose proof (batch_shape (index_manager s) c id (partition_of (docs_name c)) b (Some old) new) as Eb.
  rewrite Eb. unfold change_ops in Ec. cbn [fst snd doc_op] in Ec.
  rewrite Ec. eexists; split; [done|]. cbn in Hi'. split.
  - exact (proj2 (core_accel _ _ _ ∅ Hi')).
  - eapply (counts_same_size s _ d c docs); [done..|]. by rewrite map_size_insert_Some.
Qed.

(** The common shape of [replace_document] and [partial_update_document]. *)
Lemma rewrite_refines_aux now c id (f : Value -> Value) (d : db) :
  (forall docs old doc', d !! c = Some docs -> docs !! id = Some old ->
     replacement old id now (f old) = Ok doc' -> round_trip doc') ->
  refines (let! _ := check_not_poisoned in let! _ := ensure_collection_exists c in
    let! p := get_docs_partition c in let! old := read_existing p id in
    replace_loaded now c id p old (f old)) (spec_rewrite now c id f) d.
Proof.
  intros Hrt s Hs. destruct (prefix_ok s d c Hs) as (E0 & s1 & E1 & Hs1 & s2 & E2 & Hs2).
  unfold op_bind. rewrite E0, E1. unfold spec_rewrite, on_docs.
  destruct (d !! c) as [docs|] eqn:Hd; [rewrite bool_decide_true by eauto|rewrite bool_decide_false by (by intros []); eauto].
  rewrite E2, (read_existing_ok s2 d c docs id) by (done || by destruct Hs2).
  destruct (docs !! id) as [old|] eqn:Ho; cbn [ok_or]; [|exists s2; by rewrite insert_id].
  destruct (replace_loaded_ok now c id (f old) s2 d docs old Hs2 Hd Ho) as (s' & -> & Hs'); [eauto|].
  exists s'. revert Hs'. destruct (replacement old id now (f old)) as [new|e]; cbn [mbind result_bind].
  - destruct (sized_bytes new); cbn; [done|]. by rewrite insert_id.
  - cbn. by rewrite insert_id.
Qed.

Lemma delete_shape m c id p old :
  remove_index_entries_from_batch m [] c id old ++ [BDel p (str_bytes id)] =
  staged del_op m c id old ++ [BDel p (str_bytes id)] ++ [].
Proof. unfold remove_index_entries_from_batch. by rewrite stage_entries_app. Qed.
Lemma delete_refines_aux c id (d : db) : refines (delete_document c id) (spec_delete c id) d.
Proof.
  intros s Hs. destruct (prefix_ok s d c Hs) as (E0 & s1 & E1 & Hs1 & s2 & E2 & Hs2).
  unfold delete_document, op_bind. rewrite E0, E1. unfold spec_delete, on_docs.
  destruct (d !! c) as [docs|] eqn:Hd; [rewrite bool_decide_true by eauto|rewrite bool_decide_false by (by intros []); eauto].
  rewrite E2, (read_existing_ok s2 d c docs id) by (done || by destruct Hs2).
  destruct (docs !! id) as [old|] eqn:Ho; cbn [ok_or]; [|exists s2; by rewrite insert_id].
  destruct Hs2 as [Hi Hc]. pose proof Hi as [_ _ _ _ Hview].
  destruct (vi_ok _ _ _ Hview _ _ Hd) as [_ Hok]. destruct (Hok _ _ Ho) as (Hid & _).
  destruct (change_commit s2 d c docs id None) as (e' & Ec & Hi'); [done..|].
  rewrite Ho in Ec. unfold change_ops in Ec. cbn [doc_op] in Ec. unfold op_gets.
  rewrite delete_shape, Ec. eexists; split; [done|]. cbn in Hi'. split.
  - exact (proj1 (core_accel _ _ _ _ Hi')).
  - eapply (counts_change s2 _ d c docs _ (-1)); [done..|].
    rewrite map_size_delete_Some by eauto. pose proof (map_size_non_empty_iff docs). assert (size docs <> 0%nat).
    { intros E%map_size_empty_inv. subst. by rewrite lookup_empty in Ho. } lia.
Qed.
End refinement.
