(* ===== verification/Updates.v ===== *)
(** * Updates of a document's value: [$set] paths and merge patches

    [set_nested_field] and [json_merge_patch] of [engine/document.rs] against
    what they are meant to be: the inverse of path resolution, and RFC 7396. *)

From S2P Require Import Prelude Bytes F64 Json Errors Externals Filter Document.

(** ** [$set] *)

(** Neither path of segments is a prefix of the other. *)
Fixpoint diverge (a b : list string) : bool :=
  match a, b with
  | x :: a, y :: b => if bool_decide (x = y) then diverge a b else true
  | _, _ => false
  end.

Lemma walk_set part parts obj value i : i + lenZ (part :: parts) <= MAX_DOT_DEPTH ->
  walk_path i (part :: parts) (VObject (set_segments obj part parts value)) = Some value.
Proof.
  revert i part obj; induction parts as [|next rest IH]; intros i part obj Hi; unfold lenZ in *; cbn [length] in *.
  - cbn. destruct (Z.leb_spec MAX_DOT_DEPTH i); [lia|]. by rewrite map_get_insert_eq.
  - cbn [walk_path set_segments get]. destruct (Z.leb_spec MAX_DOT_DEPTH i); [lia|].
    rewrite map_get_insert_eq. apply IH. lia.
Qed.
Lemma walk_set_other part parts segs obj value i : diverge (part :: parts) segs = true ->
  walk_path i segs (VObject (set_segments obj part parts value)) = walk_path i segs (VObject obj).
Proof.
  revert i part obj segs; induction parts as [|next rest IH]; intros i part obj [|seg segs] Hd; try done;
    cbn [diverge] in Hd; cbn [walk_path set_segments get]; (destruct (MAX_DOT_DEPTH <=? i); [done|]);
    (destruct (decide (part = seg)) as [->|E]; [rewrite bool_decide_true in Hd by done|by rewrite map_get_insert_ne]).
  - done.
  - rewrite map_get_insert_eq, IH by done.
    destruct segs as [|seg' segs]; [done|]. cbn [walk_path].
    destruct (map_get seg obj) as [[| | | | |inner]|]; cbn; by destruct (MAX_DOT_DEPTH <=? i + 1).
Qed.

(** A [$set] writes exactly its path. For a path of fewer than twenty
    dots, resolving the path in the updated object gives the value written
    (intermediate objects created, a scalar on the way replaced), and every
    path that neither extends nor is a prefix of it resolves as before; a
    deeper path changes nothing. *)
Theorem set_field_resolves (obj : list (string * Value)) (path : string) (value : Value) :
  (count_char dot path < 20 ->
   resolve_json_path (VObject (set_nested_field obj path value)) path = Some value /\
   forall other, diverge (split_on dot path) (split_on dot other) = true ->
     resolve_json_path (VObject (set_nested_field obj path value)) other = resolve_json_path (VObject obj) other) /\
  (20 <= count_char dot path -> set_nested_field obj path value = obj).
Proof.
  unfold set_nested_field. split.
  - intros Hc. destruct (Z.leb_spec 20 (count_char dot path)); [lia|].
    pose proof (length_split_on dot path) as Hlen. destruct (split_on dot path) as [|part parts] eqn:E.
    { unfold lenZ in Hlen. cbn in Hlen. pose proof (count_char_nonneg dot path). lia. }
    split.
    + rewrite resolve_walk, E. apply walk_set. unfold MAX_DOT_DEPTH. lia.
    + intros other Hd. rewrite !resolve_walk. by apply walk_set_other.
  - intros Hc. by rewrite (proj2 (Z.leb_le _ _)).
Qed.

Definition set_example : list (string * Value) := [("a", VNumber (PosInt 1)); ("b", VBool true)].
Lemma set_field_resolves_witness :
  resolve_json_path (VObject (set_nested_field set_example "a.x.y" (VString "v"))) "a.x.y" = Some (VString "v") /\
  resolve_json_path (VObject (set_nested_field set_example "a.x.y" (VString "v"))) "b" = Some (VBool true).
Proof.
  destruct (set_field_resolves set_example "a.x.y" (VString "v")) as [[H1 H2] _]; [vm_compute; reflexivity|].
  split; [exact H1|]. rewrite H2; vm_compute; reflexivity.
Defined.

(** ** Merge patches *)

(** RFC 7396, section 2: a non-object target is replaced by an empty object
    before an object patch is merged into it. *)
Fixpoint rfc7396 (patch target : Value) {struct patch} : Value :=
  match patch with
  | VObject patch_obj =>
      VObject
        ((fix go (ps : list (string * Value)) (acc : list (string * Value)) : list (string * Value) :=
            match ps with
            | [] => acc
            | (key, value) :: ps =>
                if is_null value then go ps (map_remove key acc)
                else go ps (map_insert key (rfc7396 value (default VNull (map_get key acc))) acc)
            end) patch_obj (match target with VObject target_obj => target_obj | _ => [] end))
  | _ => patch
  end.

(** No object of the value has a null member. *)
Fixpoint null_free (v : Value) : bool :=
  match v with
  | VObject m => forallb (fun kv => negb (is_null kv.2) && null_free kv.2) m
  | _ => true
  end.

Definition merge_step (f : Value -> Value -> Value) (acc : list (string * Value)) (kv : string * Value) :=
  if is_null kv.2 then map_remove kv.1 acc
  else map_insert kv.1 (f kv.2 (default VNull (map_get kv.1 acc))) acc.
Lemma merge_object ps t : json_merge_patch (VObject ps) (VObject t) =
  VObject (foldl (merge_step json_merge_patch) t ps).
Proof.
  cbn [json_merge_patch]. f_equal. revert t; induction ps as [|[k v] ps IH]; intros t; [done|].
  cbn [foldl]. unfold merge_step at 2. cbn [fst snd]. destruct (is_null v); apply IH.
Qed.
Lemma rfc_object ps t : rfc7396 (VObject ps) t =
  VObject (foldl (merge_step rfc7396) (match t with VObject m => m | _ => [] end) ps).
Proof.
  cbn [rfc7396]. f_equal. generalize (match t with VObject m => m | _ => [] end) as acc.
  induction ps as [|[k v] ps IH]; intros acc; [done|].
  cbn [foldl]. unfold merge_step at 2. cbn [fst snd]. destruct (is_null v); apply IH.
Qed.

Lemma map_insert_last k v m : Forall (fun kv => str_cmp kv.1 k = Lt) m -> map_insert k v m = m ++ [(k, v)].
Proof.
  induction 1 as [|[j w] m Hj _ IH]; [done|]. cbn in *.
  assert (str_cmp k j = Gt) as -> by (by apply (cmp_gt_lt str_cmp)). by rewrite IH.
Qed.
Lemma map_get_last k m : Forall (fun kv => str_cmp kv.1 k = Lt) m -> map_get k m = None.
Proof.
  induction 1 as [|[j w] m Hj _ IH]; [done|]. cbn in *. rewrite decide_False; [done|].
  intros ->. by rewrite (cmp_refl str_cmp) in Hj.
Qed.
(** Merging null-free members into nothing gives them back. *)
Lemma rebuild ps acc : Forall (fun kv => is_null kv.2 = false /\ rfc7396 kv.2 VNull = kv.2) ps ->
  keys_sorted (acc ++ ps) -> foldl (merge_step rfc7396) acc ps = acc ++ ps.
Proof.
  intros Hps. revert acc; induction Hps as [|[k v] ps [Hn Hv] _ IH]; intros acc Hs; [by rewrite app_nil_r|].
  cbn [foldl]. unfold merge_step at 2. cbn [fst snd] in *. rewrite Hn.
  assert (Hlt : Forall (fun kv => str_cmp kv.1 k = Lt) acc).
  { apply Forall_forall. intros x Hx.
    change (str_cmp x.1 (k, v).1 = Lt). eapply (StronglySorted_app_1_elem_of (fun a b : string * Value => str_cmp a.1 b.1 = Lt)); [exact Hs|exact Hx|by left]. }
  rewrite map_get_last, map_insert_last by done. cbn [default]. rewrite Hv.
  rewrite IH; [by rewrite <- app_assoc|]. by rewrite <- app_assoc.
Qed.

Lemma rfc_null_free v : value_wf v -> null_free v = true -> rfc7396 v VNull = v.
Proof.
  induction v as [| | | | |m IH] using Value_ind'; try done.
  intros Hwf Hn. inversion Hwf as [| | | | |? Hs Hw]; subst. rewrite rfc_object. f_equal.
  apply (rebuild m []); [|exact Hs]. cbn [null_free] in Hn.
  rewrite Forall_forall in IH, Hw |- *. intros kv Hin. rewrite forallb_forall in Hn.
  pose proof (Hn kv ltac:(by apply list_elem_of_In)) as [Ha Hb]%andb_prop. apply negb_true_iff in Ha.
  split; [done|]. apply IH; auto.
Qed.

(** Members that are null or null-free merge as the RFC says. *)
Definition shallow_nulls (patch : Value) : bool :=
  match patch with
  | VObject m => forallb (fun kv => is_null kv.2 || null_free kv.2) m
  | _ => true
  end.
Lemma foldl_merge_ext f g ps acc : (forall kv t, kv ∈ ps -> is_null kv.2 = false -> f kv.2 t = g kv.2 t) ->
  foldl (merge_step f) acc ps = foldl (merge_step g) acc ps.
Proof.
  revert acc; induction ps as [|kv ps IH]; intros acc Hfg; [done|]. cbn [foldl].
  rewrite IH by (intros x t Hx; apply Hfg; by right). f_equal. unfold merge_step.
  destruct (is_null kv.2) eqn:E; [done|]. by rewrite Hfg by (done || by left).
Qed.
Lemma merge_null_free v : value_wf v -> null_free v = true -> forall t, json_merge_patch v t = rfc7396 v t.
Proof.
  induction v as [| | | | |m IH] using Value_ind'; try (by intros _ _ []).
  intros Hwf Hn t. pose proof Hwf as Hwf'. inversion Hwf' as [| | | | |? Hs Hw]; subst.
  assert (Hmem : forall kv, kv ∈ m -> value_wf kv.2 /\ null_free kv.2 = true).
  { intros kv Hin. cbn [null_free] in Hn. rewrite forallb_forall in Hn.
    pose proof (Hn kv ltac:(by apply list_elem_of_In)) as [_ Hb]%andb_prop.
    split; [|done]. by apply (proj1 (Forall_forall _ _) Hw). }
  destruct t as [| | | | |t]; try (cbn [json_merge_patch]; rewrite rfc_object, <- (rfc_object m VNull); symmetry; by apply rfc_null_free).
  rewrite merge_object, rfc_object. f_equal. apply foldl_merge_ext. intros kv t' Hin _.
  destruct (Hmem kv Hin). by apply (proj1 (Forall_forall _ _) IH kv Hin).
Qed.

(** a partial update is an RFC 7396 merge patch. On a stored document (an
    object), for every patch whose nulls are top-level members, the merge is
    the RFC's: listed members replaced or merged, nulls removed, everything
    else kept. *)
Theorem merge_patch_rfc7396 (patch : Value) (t : list (string * Value)) :
  value_wf patch -> shallow_nulls patch = true ->
  json_merge_patch patch (VObject t) = rfc7396 patch (VObject t).
Proof.
  intros Hwf Hn. destruct patch as [| | | | |m]; try done.
  inversion Hwf as [| | | | |? Hs Hw]; subst. rewrite merge_object, rfc_object. f_equal.
  apply foldl_merge_ext. intros kv t' Hin Hnull. cbn [shallow_nulls] in Hn. rewrite forallb_forall in Hn.
  pose proof (Hn kv ltac:(by apply list_elem_of_In)) as Hkv. rewrite Hnull in Hkv.
  apply merge_null_free; [|done]. by apply (proj1 (Forall_forall _ _) Hw).
Qed.

Definition merge_patch_example : Value :=
  VObject [("a", VNull); ("b", VObject [("c", VNumber (PosInt 2))])].
Lemma merge_patch_rfc7396_witness :
  json_merge_patch merge_patch_example (VObject [("a", VBool true); ("b", VObject [("d", VNull)])]) =
  VObject [("b", VObject [("c", VNumber (PosInt 2)); ("d", VNull)])].
Proof.
  rewrite (merge_patch_rfc7396 merge_patch_example); [vm_compute; reflexivity| |vm_compute; reflexivity].
  repeat constructor.
Defined.

(** A null below the top level, where the target has no object, is stored: the
    RFC removes it. *)
Lemma merge_patch_keeps_nested_null :
  json_merge_patch (VObject [("a", VObject [("b", VNull)])]) (VObject []) = VObject [("a", VObject [("b", VNull)])] /\
  rfc7396 (VObject [("a", VObject [("b", VNull)])]) (VObject []) = VObject [("a", VObject [])].
Proof. by vm_compute. Qed.
