(* ===== verification/Locks.v ===== *)
(** * The shards of the write lock ([engine/storage.rs])

    A writer holds the shard of its document from the read that decides its
    write to the commit; a bulk mutation takes the shards of a chunk in index
    order, each once. A step relation models threads acquiring shards: they
    exclude each other and never deadlock. What a thread does while it holds
    its shard is in [Concurrency]. *)

From S2P Require Import Prelude Bytes F64 Json Errors Externals Filter Secondary Backend Index Storage Document.

(** ** Shards *)

Section shards.
(** std's [DefaultHasher] over the collection and the identifier. *)
Context (hash : string -> string -> Z).

Definition shard_index (collection id : string) : Z := hash collection id mod WRITE_SHARDS.
(** [Vec::dedup]: consecutive equal elements, the first kept. *)
Fixpoint dedup (l : list Z) : list Z :=
  match l with
  | [] => []
  | x :: l' => match l' with
               | y :: _ => if x =? y then dedup l' else x :: dedup l'
               | [] => [x]
               end
  end.
(** The shards of [lock_documents], in the order it locks them. *)
Definition lock_documents (collection : string) (ids : list string) : list Z :=
  dedup (sort_by Z.compare (shard_index collection <$> ids)).
Definition lock_document (collection id : string) : list Z := [shard_index collection id].

#[export] Instance Z_compare_order : CmpOrder Z.compare.
Proof.
  split.
  - intros a b. apply Z.compare_antisym.
  - intros a b c. unfold not. rewrite !Z.compare_gt_iff. lia.
Qed.

Lemma dedup_elem l x : x ∈ dedup l <-> x ∈ l.
Proof.
  induction l as [|y l IH]; [done|]. cbn [dedup]. destruct l as [|z l]; [done|].
  destruct (Z.eqb_spec y z) as [->|]; [|by rewrite !elem_of_cons, IH, elem_of_cons].
  rewrite IH, !elem_of_cons. naive_solver.
Qed.
Lemma dedup_ascending l : StronglySorted (cmp_le Z.compare) l -> StronglySorted Z.lt (dedup l).
Proof.
  induction 1 as [|y l Hs IH Hy]; [constructor|]. cbn [dedup]. destruct l as [|z l]; [by repeat constructor|].
  destruct (Z.eqb_spec y z) as [|Hne]; [done|]. constructor; [done|]. apply Forall_forall.
  intros x Hx. rewrite dedup_elem in Hx. inversion Hy as [|? ? Hyz Hyl]; subst. unfold cmp_le in Hyz. rewrite Z.compare_gt_iff in Hyz.
  inversion Hs as [|? ? _ Hz]; subst. apply elem_of_cons in Hx as [->|Hx]; [lia|].
  pose proof (proj1 (Forall_forall _ _) Hz x Hx) as Hzx. unfold cmp_le in Hzx. rewrite Z.compare_gt_iff in Hzx. lia.
Qed.
Lemma lock_documents_spec c ids :
  StronglySorted Z.lt (lock_documents c ids) /\
  forall x, x ∈ lock_documents c ids <-> exists id, id ∈ ids /\ x = shard_index c id.
Proof.
  split; [by apply dedup_ascending, (sort_by_strongly _)|]. intros x. unfold lock_documents.
  rewrite dedup_elem, sort_by_perm, list_elem_of_fmap. naive_solver.
Qed.
End shards.

(** ** Acquiring *)

Section acquiring.
(** A holder: the shards it has and those it will still lock, in order. It
    works once it has them all, then drops every guard. *)
Record holder := { held : list Z; wanted : list Z }.
Definition idle (h : holder) : Prop := held h = [] /\ wanted h = [].
Definition free (hs : list holder) (x : Z) : Prop := forall h, h ∈ hs -> x ∉ held h.

Inductive lock_step : list holder -> list holder -> Prop :=
| lock_acquire hs i h x rest : hs !! i = Some h -> wanted h = x :: rest -> free hs x ->
    lock_step hs (<[i := {| held := held h ++ [x]; wanted := rest |}]> hs)
| lock_release hs i h : hs !! i = Some h -> wanted h = [] -> held h <> [] ->
    lock_step hs (<[i := {| held := []; wanted := [] |}]> hs).
Definition lock_start (programs : list (list Z)) : list holder :=
  (fun p => {| held := []; wanted := p |}) <$> programs.
Inductive lock_reachable (programs : list (list Z)) : list holder -> Prop :=
| lr_start : lock_reachable programs (lock_start programs)
| lr_step hs hs' : lock_reachable programs hs -> lock_step hs hs' -> lock_reachable programs hs'.

Definition ladder (h : holder) : Prop := StronglySorted Z.lt (held h ++ wanted h).
Lemma ladder_step hs hs' : lock_step hs hs' -> Forall ladder hs -> Forall ladder hs'.
Proof.
  intros [hs0 i h x rest Hi Hw _|hs0 i h Hi _ _] IH; apply Forall_insert; try done.
  - pose proof (Forall_lookup_1 _ _ _ _ IH Hi) as Hl. unfold ladder in *. cbn. rewrite Hw in Hl. by rewrite <- app_assoc.
  - constructor.
Qed.
Lemma ladder_reachable programs hs : Forall (StronglySorted Z.lt) programs -> lock_reachable programs hs -> Forall ladder hs.
Proof.
  intros Hp. induction 1 as [|hs hs' _ IH Hstep]; [by apply Forall_fmap|]. by eapply ladder_step.
Qed.

(** The head of a nonempty list of numbers that is at least every other. *)
Lemma max_exists {A} (f : A -> Z) (l : list A) : l <> [] -> exists x, x ∈ l /\ forall y, y ∈ l -> f y <= f x.
Proof.
  induction l as [|x l IH]; [done|]. intros _. destruct l as [|z l].
  { exists x. split; [by left|]. by intros y ->%list_elem_of_singleton. }
  destruct IH as (m & Hm & Hmax); [done|]. destruct (Z.le_gt_cases (f m) (f x)).
  - exists x. split; [by left|]. intros y [->|Hy]%elem_of_cons; [lia|]. specialize (Hmax y Hy). lia.
  - exists m. split; [by right|]. intros y [->|Hy]%elem_of_cons; [lia|]. by apply Hmax.
Qed.
Definition next (h : holder) : Z := default 0 (head (wanted h)).

Lemma lock_progress hs : Forall ladder hs -> Forall idle hs \/ exists hs', lock_step hs hs'.
Proof.
  intros Hl. destruct (decide (Forall idle hs)) as [|Hne]; [by left|]. right.
  (* someone can release *)
  destruct (decide (Exists (fun h => wanted h = [] /\ held h <> []) hs)) as [He|He].
  { apply Exists_exists in He as (h & Hin & Hw & Hh). apply list_elem_of_lookup in Hin as [i Hi].
    eexists. by eapply lock_release. }
  assert (Hact : exists h, h ∈ hs /\ wanted h <> []).
  { apply not_Forall_Exists, Exists_exists in Hne as (h & Hin & Hni); [|intros; apply _].
    exists h. split; [done|]. intros Hw. destruct (decide (held h = [])) as [Hh|Hh]; [by apply Hni|].
    apply He, Exists_exists. by exists h. }
  set (act := filter (fun h => wanted h <> []) hs).
  destruct (max_exists next act) as (h & Hh & Hmax).
  { destruct Hact as (h & Hin & Hw). intros E. assert (h ∈ act) as Hin' by (by apply list_elem_of_filter).
    rewrite E in Hin'. by apply elem_of_nil in Hin'. }
  apply list_elem_of_filter in Hh as [Hw Hin]. destruct (wanted h) as [|x rest] eqn:Ew; [done|].
  apply list_elem_of_lookup in Hin as [i Hi]. eexists. eapply lock_acquire; [done..|].
  intros q Hq Hx. pose proof (proj1 (Forall_forall _ _) Hl q Hq) as Hlq.
  assert (Hqw : wanted q <> []).
  { intros E. apply He, Exists_exists. exists q. split; [done|]. split; [done|]. intros E'. rewrite E' in Hx. by apply elem_of_nil in Hx. }
  specialize (Hmax q ltac:(by apply list_elem_of_filter)). unfold next in Hmax. rewrite Ew in Hmax. cbn in Hmax.
  destruct (wanted q) as [|y ys] eqn:Eq; [done|]. cbn in Hmax. unfold ladder in Hlq. rewrite Eq in Hlq.
  assert (x < y); [|lia]. eapply (StronglySorted_app_1_elem_of Z.lt); [exact Hlq|done|by left].
Qed.

(** Work left: acquisitions to make and releases to come. *)
Definition remaining (hs : list holder) : nat :=
  list_sum ((fun h => 2 * length (wanted h) + match held h with [] => 0 | _ => 1 end)%nat <$> hs).
Lemma sum_insert (f : holder -> nat) hs i h h' : hs !! i = Some h -> (f h' < f h)%nat ->
  (list_sum (f <$> <[i := h']> hs) < list_sum (f <$> hs))%nat.
Proof.
  revert i; induction hs as [|k hs IH]; intros [|i] Hi Hf; try done.
  - injection Hi as ->. change (f h' + list_sum (f <$> hs) < f h + list_sum (f <$> hs))%nat. lia.
  - specialize (IH i Hi Hf).
    change (f k + list_sum (f <$> <[i := h']> hs) < f k + list_sum (f <$> hs))%nat. lia.
Qed.
Lemma lock_step_decreases hs hs' : lock_step hs hs' -> (remaining hs' < remaining hs)%nat.
Proof.
  intros [hs0 i h x rest Hi Hw _|hs0 i h Hi Hw Hh]; eapply sum_insert; [exact Hi| |exact Hi|]; cbn; rewrite Hw; cbn.
  - destruct (held h); cbn; lia.
  - destruct (held h); [done|lia].
Qed.

(** No shard is held twice. *)
Definition exclusive (hs : list holder) : Prop :=
  forall i j h k x, hs !! i = Some h -> hs !! j = Some k -> x ∈ held h -> x ∈ held k -> i = j.
Lemma exclusive_reachable programs hs : lock_reachable programs hs -> exclusive hs.
Proof.
  induction 1 as [|hs hs' _ IH Hstep].
  - intros i j h k x (p & -> & _)%list_lookup_fmap_Some _ Hx. by apply elem_of_nil in Hx.
  - destruct Hstep as [hs i0 h0 x0 rest Hi Hw Hfree|hs i0 h0 Hi _ _]; intros i j h k x.
    + pose proof (lookup_lt_Some _ _ _ Hi) as Hlt.
      assert (Hout : forall l q, l <> i0 -> hs !! l = Some q -> x ∈ held q -> x ∉ held h0 ++ [x0]).
      { intros l q Hl Hq Hx [Hx0| ->%list_elem_of_singleton]%elem_of_app; [by apply Hl, (IH l i0 q h0 x)|].
        exact (Hfree q (list_elem_of_lookup_2 _ _ _ Hq) Hx). }
      destruct (decide (i = i0)) as [->|Hni], (decide (j = i0)) as [->|Hnj]; [done|..];
        rewrite ?list_lookup_insert_eq, ?list_lookup_insert_ne by done; try (intros [= <-] Hk; cbn; naive_solver);
        try (intros Hh [= <-]; cbn; naive_solver); eauto.
    + pose proof (lookup_lt_Some _ _ _ Hi) as Hlt.
      destruct (decide (i = i0)) as [->|Hni], (decide (j = i0)) as [->|Hnj]; [done|..];
        rewrite ?list_lookup_insert_eq, ?list_lookup_insert_ne by done; cbn; eauto.
      * intros [= <-] _ Hx. by apply elem_of_nil in Hx.
      * intros _ [= <-] _ Hx. by apply elem_of_nil in Hx.
Qed.

Lemma lock_terminates hs : sn lock_step hs.
Proof.
  induction (well_founded_ltof _ remaining hs) as [hs _ IH]. constructor. intros hs' Hs.
  apply IH. by apply lock_step_decreases.
Qed.
Lemma lock_finishes hs : Forall ladder hs -> exists hs', rtc lock_step hs hs' /\ Forall idle hs'.
Proof.
  induction (lock_terminates hs) as [hs _ IH]. intros Hl. destruct (lock_progress hs Hl) as [Hi|[hs1 Hs]].
  - by exists hs.
  - destruct (IH hs1 Hs) as (hs' & Hr & Hi); [by eapply ladder_step|]. exists hs'. split; [by econstructor|done].
Qed.
End acquiring.

Section deadlock.
Context (hash : string -> string -> Z).

Lemma lock_document_ladder c id : lock_documents hash c [id] = lock_document hash c id.
Proof. done. Qed.

(** C38: Threads that lock the shards of any documents of any collections, one
    ([lock_document]) or many ([lock_documents]), exclude each other, and
    whatever the schedule has done so far they can all still finish: no
    state waits in a cycle, and no schedule goes on for ever. *)
Theorem shards_never_deadlock (calls : list (string * list string)) (hs : list holder) :
  lock_reachable ((fun x => lock_documents hash x.1 x.2) <$> calls) hs ->
  exclusive hs /\ sn lock_step hs /\ exists hs', rtc lock_step hs hs' /\ Forall idle hs'.
Proof.
  intros Hr. split; [by eapply exclusive_reachable|]. split; [apply lock_terminates|].
  apply lock_finishes. eapply ladder_reachable; [|exact Hr]. apply Forall_fmap, Forall_forall.
  intros [c ids] _. apply lock_documents_spec.
Qed.
End deadlock.

(** Two bulk mutations of the same two documents, the second listing them the
    other way, the first half way up. *)
Definition clash : string -> string -> Z := fun _ id => str_len id.
Lemma shards_never_deadlock_witness :
  let hs := [{| held := [1]; wanted := [2] |}; {| held := []; wanted := [1; 2] |}] in
  exclusive hs /\ sn lock_step hs /\ exists hs', rtc lock_step hs hs' /\ Forall idle hs'.
Proof.
  apply (shards_never_deadlock clash [("c", ["a"; "bb"]); ("c", ["bb"; "a"])]).
  set (start := [{| held := []; wanted := [1; 2] |}; {| held := []; wanted := [1; 2] |}]).
  apply (lr_step _ start); [exact (lr_start _)|].
  refine (lock_acquire start 0 {| held := []; wanted := [1; 2] |} 1 [2] eq_refl eq_refl _).
  intros h Hh. apply elem_of_cons in Hh as [->|Hh%list_elem_of_singleton]; [|subst]; apply not_elem_of_nil.
Defined.
