(* ===== verification/Mutations.v ===== *)
(** * Scans and mutations of many documents

    [for_each_document] visits every document once, in identifier order;
    [delete_by_query] and [update_by_query] commit their matches in chunks;
    [bulk_insert_documents] commits one batch. Each is shown to do what the
    map of documents says, chunk boundaries and batching notwithstanding. *)

From S2P Require Import Prelude Bytes F64 Json Errors Externals Filter Secondary Backend Index Storage Document Consistency Refinement.

Section scans.
Context `{SerdeJson} `{!SerdeLaws} `{BackendLaws} `{StorageSerde} `{ScanAccelerator} `{RegexLib}.

(** ** The stream of a collection *)

(** The documents of a collection in the order of its partition's keys. *)
Definition streamed (docs : gmap string Value) (l : list (string * Value)) : Prop :=
  l ≡ₚ map_to_list docs /\ StronglySorted (fun a b => str_cmp a.1 b.1 = Lt) l.

Definition entry_doc (e : entry) : option (string * Value) :=
  doc ← from_slice e.2; id ← get doc "_id" ≫= as_str; Some (id, doc).

Lemma streamed_contents e p docs : healthy e -> docs_view (view e) p docs -> map_Forall doc_ok docs ->
  exists l, streamed docs l /\
    Forall2 (fun x y => x.1 = str_bytes y.1 /\ from_slice x.2 = Some y.2) (contents e p) l.
Proof.
  intros Hh Hv Hok. exists (omap entry_doc (contents e p)).
  assert (Hent : forall x, x ∈ contents e p -> exists id doc, docs !! id = Some doc /\ x.1 = str_bytes id /\
    from_slice x.2 = Some doc /\ entry_doc x = Some (id, doc)).
  { intros [k v] Hin. apply view_elem in Hin; [|done]. apply Hv in Hin as (id & doc & Hd & -> & Hb).
    destruct (Hok _ _ Hd) as (_ & _ & Hrt & Hid). exists id, doc. unfold entry_doc. cbn.
    rewrite (Hrt _ Hb). cbn. by rewrite Hid. }
  assert (Hs := contents_sorted e p Hh).
  assert (Hf2 : Forall2 (fun x y => x.1 = str_bytes y.1 /\ from_slice x.2 = Some y.2)
    (contents e p) (omap entry_doc (contents e p))).
  { clear Hs. induction (contents e p) as [|x L IH]; cbn; [constructor|].
    destruct (Hent x) as (id & doc & _ & Hk & Hp & ->); [by left|]. constructor; [done|].
    apply IH. intros y Hy. apply Hent. by right. }
  split; [|done]. split.
  - apply NoDup_Permutation.
    + apply (NoDup_fmap_1 fst). clear Hent. induction Hf2 as [|x y L l [Hx _] Hf IH]; cbn; [constructor|].
      inversion Hs as [|? ? Hs' Hlt]; subst. constructor; [|by apply IH].
      intros (z & Ez & Hz)%list_elem_of_fmap.
      destruct (Forall2_in_r _ _ _ _ Hf Hz) as (w & Hw & Hwk & _).
      rewrite Forall_forall in Hlt. specialize (Hlt _ Hw). unfold entry_lt in Hlt.
      rewrite Hx, Hwk, Ez, (cmp_refl bytes_cmp) in Hlt. done.
    + apply NoDup_map_to_list.
    + intros [id doc]. rewrite elem_of_map_to_list, list_elem_of_omap. split.
      * intros (x & Hx & E). destruct (Hent x Hx) as (id' & doc' & Hd & _ & _ & E'). congruence.
      * intros Hd. destruct (Hok _ _ Hd) as (_ & [b Hb] & Hrt & Hid). exists (str_bytes id, b).
        split; [apply view_elem; [done|]; apply Hv; eauto|]. unfold entry_doc. cbn. rewrite (Hrt _ Hb). cbn. by rewrite Hid.
  - clear Hent. induction Hf2 as [|x y L l [Hx _] Hf IH]; [constructor|].
    inversion Hs as [|? ? Hs' Hlt]; subst. constructor; [by apply IH|].
    apply Forall_forall. intros z Hz. destruct (Forall2_in_r _ _ _ _ Hf Hz) as (w & Hw & Hwk & _).
    rewrite Forall_forall in Hlt. specialize (Hlt _ Hw). unfold entry_lt in Hlt.
    unfold str_cmp, cmp_on. congruence.
Qed.

Lemma doc_visit_fold {S} current (visit : Value -> S -> S * control_flow) L (l : list (string * Value)) n s0 :
  live current -> (forall doc st, (visit doc st).2 = Continue) ->
  Forall2 (fun x y => x.1 = str_bytes y.1 /\ from_slice x.2 = Some y.2) L l ->
  exists n', fold_entries (doc_visit current visit) L (n, None, s0) =
    (n', None, foldl (fun st x => (visit x.2 st).1) s0 l).
Proof.
  intros Hl Hv Hf. revert n s0. induction Hf as [|[k v] y L l [_ Hp] _ IH]; intros n s0; [by exists n|].
  cbn [fold_entries foldl]. unfold doc_visit at 1. rewrite checkpoint_live by done. cbn in Hp. rewrite Hp.
  specialize (Hv y.2 s0). destruct (visit y.2 s0) as [s1 []] eqn:E; [|done]. cbn. apply IH.
Qed.

Lemma for_each_core {S} current c (visit : Value -> S -> S * control_flow) s0 s (d : db) docs :
  live current -> (forall doc st, (visit doc st).2 = Continue) ->
  core_inv s d -> d !! c = Some docs ->
  exists l s', streamed docs l /\
    for_each_document current c visit s0 s = (Ok (foldl (fun st x => (visit x.2 st).1) s0 l), s') /\
    core_inv s' d /\ same s s'.
Proof.
  intros Hl Hv Hi Hd. destruct (ensure_ok s d c Hi) as (s1 & E1 & Hi1 & Hs1).
  destruct (create_partition_ok s1 d (docs_name c) Hi1) as (s2 & E2 & Hi2 & Hs2).
  rewrite bool_decide_true in E1 by eauto. pose proof Hi2 as [Hh _ _ _ Hview].
  destruct (vi_ok _ _ _ Hview _ _ Hd) as [Hname Hok].
  pose proof (vi_docs _ _ _ Hview c Hname) as Hdv. rewrite (docs_of_c d c docs Hd) in Hdv.
  destruct (streamed_contents _ _ _ Hh Hdv Hok) as (l & Hst & Hf2). exists l, s2. split; [done|].
  unfold for_each_document, op_bind, get_docs_partition. rewrite E1, E2. split; [|split; [done|by trans s1]].
  rewrite scan_full_spec by done. unfold doc_visit.
  rewrite visit_scan_ok. destruct (doc_visit_fold current visit _ l 0 s0 Hl Hv Hf2) as (n' & E).
  unfold doc_visit in E. by rewrite E.
Qed.
Lemma for_each_ok {S} current c (visit : Value -> S -> S * control_flow) s0 s (d : db) docs :
  live current -> (forall doc st, (visit doc st).2 = Continue) ->
  storage_inv s d -> d !! c = Some docs ->
  exists l s', streamed docs l /\
    for_each_document current c visit s0 s = (Ok (foldl (fun st x => (visit x.2 st).1) s0 l), s') /\
    storage_inv s' d.
Proof.
  intros Hl Hv [Hi Hc] Hd. destruct (for_each_core current c visit s0 s d docs) as (l & s' & Hst & E & Hi' & Hs); [done..|].
  exists l, s'. split; [done|]. split; [done|]. split; [done|]. by eapply same_counts.
Qed.
Lemma for_each_missing {S} current c (visit : Value -> S -> S * control_flow) s0 s (d : db) :
  storage_inv s d -> d !! c = None ->
  exists s', for_each_document current c visit s0 s = (Err (CollectionNotFound c), s') /\ storage_inv s' d.
Proof.
  intros Hs Hd. destruct (prefix_ok s d c Hs) as (_ & s1 & E1 & Hs1 & _).
  rewrite bool_decide_false in E1 by (rewrite Hd; by intros []). exists s1.
  unfold for_each_document, op_bind. by rewrite E1.
Qed.

(** The ids of the matches, in identifier order. *)
Definition selected (filter : FilterNode) (l : list (string * Value)) : list (string * Value) :=
  List.filter (fun x => matches filter x.2) l.
Lemma match_fold filter (l : list (string * Value)) acc :
  Forall (fun x => get x.2 "_id" = Some (VString x.1)) l ->
  foldl (fun st x => (match_visit filter x.2 st).1) acc l = acc ++ (selected filter l).*1.
Proof.
  intros Hl. revert acc; induction Hl as [|x l Hx _ IH]; intros acc; cbn; [by rewrite app_nil_r|].
  rewrite IH. unfold match_visit. destruct (matches filter x.2); cbn; [|done].
  rewrite Hx. cbn. by rewrite <- app_assoc.
Qed.
Lemma streamed_ok docs l : streamed docs l -> map_Forall doc_ok docs ->
  NoDup l.*1 /\ Forall (fun x => get x.2 "_id" = Some (VString x.1)) l /\
  forall x, x ∈ l <-> docs !! x.1 = Some x.2.
Proof.
  intros [Hp _] Hok. assert (Hin : forall x, x ∈ l <-> docs !! x.1 = Some x.2).
  { intros [id doc]. by rewrite Hp, elem_of_map_to_list. }
  split_and!; [|apply Forall_forall; intros x Hx%Hin; by destruct (Hok _ _ Hx) as (_ & _ & _ & ?)|done].
  rewrite Hp. apply NoDup_fst_map_to_list.
Qed.
Lemma matching_ids_ok current c filter s (d : db) docs :
  live current -> storage_inv s d -> d !! c = Some docs ->
  exists l s', streamed docs l /\ matching_ids current c filter s = (Ok (selected filter l).*1, s') /\
    storage_inv s' d.
Proof.
  intros Hl Hs Hd. destruct (for_each_ok current c (match_visit filter) [] s d docs) as (l & s' & Hst & E & Hs');
    [done..|]. exists l, s'. split; [done|]. split; [|done]. unfold matching_ids. rewrite E.
  destruct Hs as [[_ _ _ _ Hview] _]. destruct (vi_ok _ _ _ Hview _ _ Hd) as [_ Hok].
  destruct (streamed_ok docs l Hst Hok) as (_ & Hids & _). by rewrite (match_fold filter l []).
Qed.
End scans.

(** ** Chunked mutations *)

Lemma concat_chunks_fuel {A} n fuel (l : list A) : (0 < n)%nat -> (length l <= fuel)%nat ->
  concat (chunks_fuel fuel n l) = l.
Proof.
  intros Hn. revert l; induction fuel as [|fuel IH]; intros [|x l] Hl; cbn in *; try done; [lia|].
  destruct n as [|n]; [lia|]. cbn. f_equal. rewrite IH; [apply take_drop|]. rewrite length_drop. lia.
Qed.
Lemma concat_chunks {A} n (l : list A) : (0 < n)%nat -> concat (chunks n l) = l.
Proof. intros Hn. by apply concat_chunks_fuel. Qed.

Section chunked.
Context `{SerdeJson} `{!SerdeLaws} `{BackendLaws} `{StorageSerde} `{ScanAccelerator} `{RegexLib}.

(** The documents a chunk changes: still there and still matching. *)
Definition hits (filter : FilterNode) (docs : gmap string Value) (ids : list string) : list (string * Value) :=
  omap (fun id => doc ← docs !! id; if matches filter doc then Some (id, doc) else None) ids.
Lemma hits_cons filter docs id ids : hits filter docs (id :: ids) =
  match docs !! id with
  | Some doc => if matches filter doc then (id, doc) :: hits filter docs ids else hits filter docs ids
  | None => hits filter docs ids
  end.
Proof. unfold hits. cbn. destruct (docs !! id) as [doc|]; cbn; [|done]. by destruct (matches filter doc). Qed.
Lemma hits_app filter docs a b : hits filter docs (a ++ b) = hits filter docs a ++ hits filter docs b.
Proof. apply omap_app. Qed.
Lemma elem_hits filter docs ids x : x ∈ hits filter docs ids <->
  x.1 ∈ ids /\ docs !! x.1 = Some x.2 /\ matches filter x.2 = true.
Proof.
  unfold hits. rewrite list_elem_of_omap. split.
  - intros (id & Hid & (doc & Hd & E)%bind_Some). destruct (matches filter doc) eqn:Em; [|done].
    by injection E as <-.
  - intros (Hid & Hd & Em). exists x.1. split; [done|]. rewrite Hd. cbn. rewrite Em. by destruct x.
Qed.
Lemma hits_NoDup filter docs ids : NoDup ids -> NoDup (hits filter docs ids).*1.
Proof.
  induction 1 as [|id ids Hid Hnd IH]; [constructor|]. rewrite hits_cons.
  destruct (docs !! id) as [doc|]; [|done]. destruct (matches filter doc); [|done].
  constructor; [|done]. intros (x & Ex & Hx)%list_elem_of_fmap. apply elem_hits in Hx as [Hx _].
  cbn in Ex. by subst.
Qed.
Lemma hits_ext filter (docs docs' : gmap string Value) ids :
  (forall id, id ∈ ids -> docs' !! id = docs !! id) -> hits filter docs' ids = hits filter docs ids.
Proof.
  induction ids as [|id ids IH]; intros E; [done|]. rewrite !hits_cons, E by (by left).
  rewrite IH; [done|]. intros i Hi. apply E. by right.
Qed.

Context (c : string) (filter : FilterNode) (mk : string -> Value -> option (Value * bytes)).
Definition as_change (x : string * Value) : string * option (Value * bytes) := (x.1, mk x.1 x.2).
Definition after_hits (docs : gmap string Value) (ids : list string) : gmap string Value :=
  foldl apply_change docs (as_change <$> hits filter docs ids).

Lemma as_change_ids l : (as_change <$> l).*1 = l.*1.
Proof. by rewrite <- list_fmap_compose. Qed.
Lemma after_hits_other docs ids i : NoDup ids -> i ∉ ids -> after_hits docs ids !! i = docs !! i.
Proof.
  intros Hnd Hi. unfold after_hits. rewrite foldl_change_lookup by (by rewrite as_change_ids; apply hits_NoDup).
  destruct (List.find _ _) as [x|] eqn:E; [|done]. exfalso. apply Hi.
  apply List.find_some in E as [Hx E%bool_decide_eq_true]. apply list_elem_of_In, list_elem_of_fmap in Hx as (y & -> & Hy).
  apply elem_hits in Hy as [Hy _]. by rewrite <- E.
Qed.
Lemma after_hits_app docs a b : NoDup (a ++ b) -> after_hits docs (a ++ b) = after_hits (after_hits docs a) b.
Proof.
  intros (Ha & Hab & Hb)%NoDup_app. unfold after_hits at 1 2. rewrite hits_app, fmap_app, foldl_app.
  fold (after_hits docs a). f_equal. f_equal. symmetry. apply hits_ext. intros i Hi.
  apply after_hits_other; [done|]. intros Hi'. by apply (Hab i).
Qed.
(** What the mutation makes of every document. *)
Lemma after_hits_lookup docs ids i : NoDup ids -> (forall id doc, docs !! id = Some doc -> matches filter doc = true -> id ∈ ids) ->
  after_hits docs ids !! i = doc ← docs !! i; if matches filter doc then fst <$> mk i doc else Some doc.
Proof.
  intros Hnd Hall. unfold after_hits. rewrite foldl_change_lookup by (by rewrite as_change_ids; apply hits_NoDup).
  destruct (List.find _ _) as [x|] eqn:E.
  - apply List.find_some in E as [Hx E%bool_decide_eq_true].
    apply list_elem_of_In, list_elem_of_fmap in Hx as ([id doc] & -> & Hy). apply elem_hits in Hy as (_ & Hd & Em).
    cbn in *. subst. rewrite Hd. cbn. by rewrite Em.
  - destruct (docs !! i) as [doc|] eqn:Hd; cbn; [|done]. destruct (matches filter doc) eqn:Em; [|done].
    assert (Hin : (i, doc) ∈ hits filter docs ids) by (apply elem_hits; eauto).
    assert (Hc : as_change (i, doc) ∈ as_change <$> hits filter docs ids) by (by apply list_elem_of_fmap_2).
    apply list_elem_of_In in Hc. apply (List.find_none _ _ E) in Hc.
    cbn in Hc. by rewrite bool_decide_eq_true_2 in Hc.
Qed.

(** One chunk's scan, when every staging succeeds. *)
Lemma chunk_scan_ok {A} (stage : string -> Value -> res (list (batch_op PartitionId) * A)) (out : string * Value -> A)
    ids batch acc s (d : db) docs :
  core_inv s d -> d !! c = Some docs ->
  (forall x, x ∈ hits filter docs ids ->
    stage x.1 x.2 = Ok (change_ops (index_manager s) c x.1 (Some x.2) (mk x.1 x.2), out x)) ->
  chunk_scan filter (partition_of (docs_name c)) stage ids batch acc s =
  (Ok (batch ++ (hits filter docs ids ≫= fun x => change_ops (index_manager s) c x.1 (Some x.2) (mk x.1 x.2)),
       acc ++ (out <$> hits filter docs ids)), s).
Proof.
  intros Hi Hd. pose proof Hi as [_ _ _ _ Hview]. destruct (vi_ok _ _ _ Hview _ _ Hd) as [_ Hok].
  revert batch acc; induction ids as [|id ids IH]; intros batch acc Hst; cbn [chunk_scan].
  { unfold hits. cbn. by rewrite !app_nil_r. }
  unfold op_bind at 1. rewrite (op_get_ok s d c docs id) by done.
  assert (Hst' : forall x, x ∈ hits filter docs ids ->
    stage x.1 x.2 = Ok (change_ops (index_manager s) c x.1 (Some x.2) (mk x.1 x.2), out x)).
  { intros x (? & ? & ?)%elem_hits. apply Hst, elem_hits. split_and!; [by right|done..]. }
  rewrite hits_cons in Hst |- *. destruct (docs !! id) as [doc|] eqn:Hdoc; cbn [mbind option_bind]; [|by apply IH].
  destruct (Hok _ _ Hdoc) as (_ & [b Hb] & Hrt & _). rewrite Hb.
  unfold op_bind at 1, op_parse, op_lift. rewrite (Hrt b Hb). cbn [ok_or].
  destruct (matches filter doc); cbn [negb]; [|by apply IH].
  unfold op_bind. pose proof (Hst (id, doc) ltac:(by left)) as E. cbn [fst snd] in E. rewrite E.
  cbn [fst snd]. rewrite IH by done. cbn. by rewrite <- !app_assoc.
Qed.
Lemma hits_changes m docs ids : NoDup ids ->
  (hits filter docs ids ≫= fun x => change_ops m c x.1 (Some x.2) (mk x.1 x.2)) =
  changes_ops m c docs (as_change <$> hits filter docs ids).
Proof.
  intros Hnd. rewrite (changes_ops_distinct m c docs docs) by (done || by rewrite as_change_ids; apply hits_NoDup).
  assert (E : forall x, x ∈ hits filter docs ids -> docs !! x.1 = Some x.2) by (intros x (_ & ? & _)%elem_hits; done).
  induction (hits filter docs ids) as [|x l IH]; cbn; [done|]. rewrite (E x) by (by left). f_equal.
  apply IH. intros y Hy. apply E. by right.
Qed.
End chunked.

Section by_query.
Context `{SerdeJson} `{!SerdeLaws} `{BackendLaws} `{StorageSerde} `{ScanAccelerator} `{RegexLib}.

Definition matching (f : FilterNode) (docs : gmap string Value) : gmap string Value :=
  filter (fun x => matches f x.2 = true) docs.

Definition spec_delete_by_query (c : string) (f : FilterNode) (d : db) : res Z * db :=
  on_docs c d (fun docs =>
    (Ok (Z.of_nat (size (matching f docs))), filter (fun x => matches f x.2 = false) docs)).
Definition spec_update_by_query (now c : string) (f : FilterNode) (update : Value) (d : db) : res Z * db :=
  match parse_set_updates update with
  | Err e => (Err e, d)
  | Ok fields => on_docs c d (fun docs =>
      (Ok (Z.of_nat (size (matching f docs))),
       (fun doc => if matches f doc then apply_set fields now doc else doc) <$> docs))
  end.

Definition del_change (_ : string) (_ : Value) : option (Value * bytes) := None.

Lemma count_hits f docs ids : NoDup ids ->
  (forall id doc, docs !! id = Some doc -> matches f doc = true -> id ∈ ids) ->
  length (hits f docs ids) = size (matching f docs).
Proof.
  intros Hnd Hall. rewrite <- length_map_to_list. apply Permutation_length, NoDup_Permutation.
  - by apply (NoDup_fmap_1 fst), hits_NoDup.
  - apply NoDup_map_to_list.
  - intros [id doc]. rewrite elem_hits, elem_of_map_to_list. unfold matching.
    rewrite map_lookup_filter_Some. cbn. naive_solver.
Qed.
Lemma size_deletes f docs ids : NoDup ids ->
  (size (after_hits f del_change docs ids) + length (hits f docs ids))%nat = size docs.
Proof.
  intros Hnd. unfold after_hits. pose proof (hits_NoDup f docs ids Hnd) as Hnd'.
  assert (Hin : forall x, x ∈ hits f docs ids -> is_Some (docs !! x.1)) by (intros x (_ & ? & _)%elem_hits; eauto).
  assert (Hgen : forall l docs, NoDup l.*1 -> (forall x : string * Value, x ∈ l -> is_Some (docs !! x.1)) ->
    (size (foldl apply_change docs (as_change del_change <$> l)) + length l)%nat = size docs); [|by apply Hgen].
  clear.
  intros l; induction l as [|x l IH]; intros docs Hl Hin; [cbn; lia|].
  rewrite fmap_cons. cbn [foldl length].
  inversion Hl as [|? ? Hx Hl']; subst.
  assert (Hs : is_Some (docs !! x.1)) by (apply Hin; by left).
  assert (E : size docs = S (size (apply_change docs (as_change del_change x)))).
  { unfold apply_change. cbn. change (partial_alter _ x.1 docs) with (delete x.1 docs).
    destruct Hs as [v Hv]. rewrite <- (insert_delete_id docs x.1 v) at 1 by done.
    by rewrite map_size_insert_None by apply lookup_delete_eq. }
  rewrite E, <- (IH (apply_change docs (as_change del_change x))); [lia|done|].
  intros y Hy. rewrite apply_change_ne; [apply Hin; by right|]. cbn. intros Ey. apply Hx.
  apply list_elem_of_fmap. by exists y.
Qed.

Lemma stage_delete_ok m c id doc :
  stage_delete m (partition_of (docs_name c)) c id doc =
  Ok (change_ops m c id (Some doc) (del_change id doc), (id, doc)).
Proof. unfold stage_delete, change_ops. by rewrite delete_shape. Qed.

Lemma delete_chunks_ok c f cs n s (d : db) docs :
  NoDup (concat cs) -> storage_inv s d -> d !! c = Some docs ->
  exists s', delete_chunks c f (partition_of (docs_name c)) cs n s =
    (Ok (n + lenZ (hits f docs (concat cs))), s') /\
    storage_inv s' (<[c := after_hits f del_change docs (concat cs)]> d).
Proof.
  revert n s d docs; induction cs as [|chunk cs IH]; intros n s d docs Hnd Hs Hd.
  { exists s. cbn. unfold lenZ, after_hits. cbn. rewrite Z.add_0_r, insert_id by done. done. }
  cbn [concat delete_chunks] in *. pose proof Hnd as Hnd'. apply NoDup_app in Hnd as (Hc & Hdisj & Hcs).
  pose proof Hs as [Hi Hcount]. pose proof Hi as [_ _ _ _ Hview].
  destruct (vi_ok _ _ _ Hview _ _ Hd) as [_ Hok].
  unfold op_bind at 1, op_gets. cbn [fst snd]. unfold op_bind at 1.
  rewrite (chunk_scan_ok c f del_change _ (fun x => x) chunk [] [] s d docs Hi Hd) by (intros [] _; apply stage_delete_ok).
  rewrite list_fmap_id, !app_nil_l, hits_changes by done.
  rewrite after_hits_app, hits_app by done.
  assert (Hext : hits f (after_hits f del_change docs chunk) (concat cs) = hits f docs (concat cs)).
  { apply hits_ext. intros i Hin. apply after_hits_other; [done|]. intros Hin'. by apply (Hdisj i). }
  rewrite <- Hext.
  rewrite lenZ_app, Z.add_assoc.
  destruct (hits f docs chunk) as [|h hs] eqn:Eh.
  { assert (E : after_hits f del_change docs chunk = docs) by (unfold after_hits; by rewrite Eh).
    rewrite E in *. unfold lenZ at 1. cbn [length Z.of_nat]. rewrite Z.add_0_r. by apply IH. }
  rewrite <- Eh. unfold op_bind, op_modify.
  destruct (changes_commit s d c docs (as_change del_change <$> hits f docs chunk)
    (changes_ops (index_manager s) c docs (as_change del_change <$> hits f docs chunk)) Hi Hd) as (e' & Ec & Hi'); [|done|].
  { apply Forall_fmap, Forall_forall. intros x (_ & Hx & _)%elem_hits.
    split; [by destruct (Hok _ _ Hx)|done]. }
  rewrite Ec. set (s2 := set_accel _ _).
  destruct (IH (n + lenZ (hits f docs chunk)) s2 (<[c := after_hits f del_change docs chunk]> d)
    (after_hits f del_change docs chunk)) as (s' & E & Hs'); [done| |by rewrite lookup_insert_eq|].
  - split; [exact (proj1 (core_accel _ _ _ _ Hi'))|].
    eapply (counts_change s s2 d c docs _ (- lenZ (hits f docs chunk))); [done..|].
    pose proof (size_deletes f docs chunk Hc). unfold lenZ. lia.
  - exists s'. split; [exact E|]. by rewrite insert_insert_eq in Hs'.
Qed.

(** The ids of the scan, as the chunks need them. *)
Lemma scan_ids f docs l : streamed docs l -> map_Forall doc_ok docs ->
  NoDup (selected f l).*1 /\
  forall id doc, docs !! id = Some doc -> matches f doc = true -> id ∈ (selected f l).*1.
Proof.
  intros Hst Hok. destruct (streamed_ok docs l Hst Hok) as (Hnd & _ & Hin). split.
  - unfold selected. clear -Hnd. induction l as [|x l IH]; cbn; [constructor|].
    inversion Hnd as [|? ? Hx Hl]; subst. destruct (matches f x.2); [|by apply IH].
    constructor; [|by apply IH]. intros (y & Ey & [Hy _]%elem_of_List_filter)%list_elem_of_fmap.
    apply Hx, list_elem_of_fmap. by exists y.
  - intros id doc Hdoc Em. apply list_elem_of_fmap. exists (id, doc). split; [done|].
    apply elem_of_List_filter. split; [by apply Hin|done].
Qed.

Lemma delete_by_query_refines_aux current c f (d : db) : live current ->
  refines (delete_by_query current c f) (spec_delete_by_query c f) d.
Proof.
  intros Hl s Hs. unfold delete_by_query, op_bind, spec_delete_by_query, on_docs.
  rewrite (check_ok s d) by by destruct Hs.
  destruct (d !! c) as [docs|] eqn:Hd.
  2:{ destruct (for_each_missing current c (match_visit f) [] s d Hs Hd) as (s' & E & Hs').
      unfold matching_ids. rewrite E. by exists s'. }
  destruct (matching_ids_ok current c f s d docs Hl Hs Hd) as (l & s1 & Hst & E & Hs1). rewrite E.
  pose proof Hs1 as [[_ _ _ _ Hview] _]. destruct (vi_ok _ _ _ Hview _ _ Hd) as [_ Hok].
  destruct (scan_ids f docs l Hst Hok) as [Hidnd Hall].
  set (ids := (selected f l).*1) in *. cbn [fst snd].
  assert (Efinal : after_hits f del_change docs ids = filter (fun x => matches f x.2 = false) docs).
  { apply map_eq. intros i. rewrite after_hits_lookup by done. rewrite map_lookup_filter.
    destruct (docs !! i) as [doc|]; cbn; [|done]. destruct (matches f doc) eqn:Em; cbn.
    - rewrite option_guard_False by congruence. done.
    - by rewrite option_guard_True. }
  rewrite <- Efinal, <- (count_hits f docs ids) by done.
  destruct ids as [|i ids'] eqn:Ei.
  { exists s1. cbn. unfold after_hits. cbn. by rewrite insert_id. }
  rewrite <- Ei in *. destruct Hs1 as [Hi1 Hc1].
  destruct (create_partition_ok s1 d (docs_name c) Hi1) as (s2 & E2 & Hi2 & Hs2).
  unfold get_docs_partition. rewrite E2.
  destruct (delete_chunks_ok c f (chunks BULK_MUTATION_CHUNK ids) 0 s2 d docs) as (s' & E' & Hs').
  { rewrite concat_chunks by (unfold BULK_MUTATION_CHUNK; lia). done. }
  { split; [done|]. by eapply same_counts. }
  { done. }
  rewrite concat_chunks in E', Hs' by (unfold BULK_MUTATION_CHUNK; lia). rewrite E'. eexists; split; [done|]. done.
Qed.

(** *** [$set] *)

Lemma set_nested_get k obj path v : head (split_on dot path) <> Some k ->
  map_get k (set_nested_field obj path v) = map_get k obj.
Proof.
  intros Hne. unfold set_nested_field. case_match; [done|].
  destruct (split_on dot path) as [|part parts]; [done|]. cbn in Hne.
  destruct parts; cbn; apply map_get_insert_ne; congruence.
Qed.
Definition spares_id (fields : list (string * Value)) : Prop :=
  Forall (fun x => head (split_on dot x.1) <> Some "_id") fields.
Lemma apply_set_id fields now doc : spares_id fields -> get (apply_set fields now doc) "_id" = get doc "_id".
Proof.
  intros Hf. destruct doc as [| | | | |obj]; try done. cbn [apply_set get].
  rewrite !map_get_insert_ne by done. revert obj. induction Hf as [|x fields Hx _ IH]; intros obj; cbn; [done|].
  by rewrite IH, set_nested_get.
Qed.

Section set.
Context (fields : list (string * Value)) (now : string) (f : FilterNode).
Definition set_change (_ : string) (doc : Value) : option (Value * bytes) :=
  (fun b => (apply_set fields now doc, b)) <$> to_vec (apply_set fields now doc).
(** Every document the update rewrites can be stored. *)
Definition settable (l : list (string * Value)) : Prop :=
  Forall (fun x => is_Some (to_vec (apply_set fields now x.2)) /\ round_trip (apply_set fields now x.2)) l.

Lemma stage_update_ok m c id doc : is_Some (to_vec (apply_set fields now doc)) ->
  stage_update m (partition_of (docs_name c)) c fields now id doc =
  Ok (change_ops m c id (Some doc) (set_change id doc), (id, doc, apply_set fields now doc)).
Proof.
  intros [b Hb]. unfold stage_update, change_ops, set_change. rewrite Hb. cbn [fmap option_fmap option_map ok_or mbind result_bind].
  by rewrite (batch_shape m c id _ b (Some doc)).
Qed.
Lemma size_updates docs ids : NoDup ids -> settable (hits f docs ids) ->
  size (after_hits f set_change docs ids) = size docs.
Proof.
  intros Hnd Hset. unfold after_hits. pose proof (hits_NoDup f docs ids Hnd) as Hnd'.
  assert (Hin : forall x, x ∈ hits f docs ids -> is_Some (docs !! x.1) /\ is_Some (set_change x.1 x.2)).
  { intros x Hin. pose proof (proj1 (Forall_forall _ _) Hset x Hin) as [[b Hb] _].
    apply elem_hits in Hin as (_ & Hx & _). split; [eauto|]. unfold set_change. rewrite Hb. eauto. }
  assert (Hgen : forall l docs, NoDup l.*1 -> (forall x : string * Value, x ∈ l -> is_Some (docs !! x.1) /\ is_Some (set_change x.1 x.2)) ->
    size (foldl apply_change docs (as_change set_change <$> l)) = size docs); [|by apply Hgen].
  clear. intros l; induction l as [|x l IH]; intros docs Hl Hin; [done|].
  rewrite fmap_cons. cbn [foldl]. inversion Hl as [|? ? Hx Hl']; subst.
  destruct (Hin x ltac:(by left)) as [Hs [[y b] Hy]].
  assert (E : apply_change docs (as_change set_change x) = <[x.1 := y]> docs).
  { unfold apply_change, as_change. cbn. by rewrite Hy. }
  rewrite E, IH; [by rewrite map_size_insert_Some|done|]. intros z Hz.
  rewrite lookup_insert_ne; [apply Hin; by right|]. intros Ez. apply Hx.
  apply list_elem_of_fmap. by exists z.
Qed.

Lemma update_chunks_ok c cs n s (d : db) docs : spares_id fields -> settable (hits f docs (concat cs)) ->
  NoDup (concat cs) -> storage_inv s d -> d !! c = Some docs ->
  exists s', update_chunks c f fields now (partition_of (docs_name c)) cs n s =
    (Ok (n + lenZ (hits f docs (concat cs))), s') /\
    storage_inv s' (<[c := after_hits f set_change docs (concat cs)]> d).
Proof.
  intros Hsp. revert n s d docs; induction cs as [|chunk cs IH]; intros n s d docs Hset Hnd Hs Hd.
  { exists s. cbn. unfold lenZ, after_hits. cbn. rewrite Z.add_0_r, insert_id by done. done. }
  cbn [concat update_chunks] in *. pose proof Hnd as Hnd'. apply NoDup_app in Hnd as (Hc & Hdisj & Hcs).
  pose proof Hs as [Hi Hcount]. pose proof Hi as [_ _ _ _ Hview].
  destruct (vi_ok _ _ _ Hview _ _ Hd) as [_ Hok].
  rewrite hits_app in Hset. apply Forall_app in Hset as [Hset1 Hset2].
  unfold op_bind at 1, op_gets. cbn [fst snd]. unfold op_bind at 1.
  rewrite (chunk_scan_ok c f set_change _ (fun x => (x.1, x.2, apply_set fields now x.2)) chunk [] [] s d docs Hi Hd)
    by (intros x Hx; apply stage_update_ok; by destruct (proj1 (Forall_forall _ _) Hset1 x Hx)).
  rewrite !app_nil_l, hits_changes by done.
  rewrite after_hits_app, hits_app by done.
  assert (Hout : forall i, i ∈ concat cs -> after_hits f set_change docs chunk !! i = docs !! i).
  { intros i Hin. apply after_hits_other; [done|]. intros Hin'. by apply (Hdisj i). }
  pose proof (hits_ext f docs (after_hits f set_change docs chunk) (concat cs) Hout) as Hext.
  rewrite <- Hext in Hset2 |- *. rewrite lenZ_app, Z.add_assoc.
  destruct (hits f docs chunk) as [|h hs] eqn:Eh.
  { assert (E : after_hits f set_change docs chunk = docs) by (unfold after_hits; by rewrite Eh).
    rewrite E in *. unfold lenZ at 1. cbn [length Z.of_nat fmap list_fmap]. rewrite Z.add_0_r. by apply IH. }
  rewrite <- Eh in Hset1 |- *. destruct ((fun x => (x.1, x.2, apply_set fields now x.2)) <$> hits f docs chunk) as [|y ys] eqn:Ey.
  { by rewrite Eh in Ey. }
  rewrite <- Ey. unfold op_bind, op_modify.
  destruct (changes_commit s d c docs (as_change set_change <$> hits f docs chunk)
    (changes_ops (index_manager s) c docs (as_change set_change <$> hits f docs chunk)) Hi Hd) as (e' & Ec & Hi'); [|done|].
  { apply Forall_fmap, Forall_forall. intros x Hin.
    destruct (proj1 (Forall_forall _ _) Hset1 x Hin) as [_ Hrt]. apply elem_hits in Hin as (_ & Hx & _).
    destruct (Hok _ _ Hx) as (Hid & _ & _ & Hg). split; [done|]. cbn. unfold set_change.
    intros doc b (b' & Hb' & E)%fmap_Some. injection E as -> ->.
    split; [|done]. split_and!; [done|by eexists|done|].
    by rewrite apply_set_id. }
  rewrite Ec. set (s2 := set_accel _ _).
  rewrite lenZ_fmap.
  destruct (IH (n + lenZ (hits f docs chunk)) s2 (<[c := after_hits f set_change docs chunk]> d)
    (after_hits f set_change docs chunk)) as (s' & E & Hs'); [done|done| |by rewrite lookup_insert_eq|].
  - split; [exact (proj2 (core_accel _ _ _ ∅ Hi'))|].
    eapply (counts_same_size s s2 d c docs); [done..|]. by apply size_updates.
  - exists s'. split; [exact E|]. by rewrite insert_insert_eq in Hs'.
Qed.
End set.

Lemma update_by_query_refines_aux current now c f update (d : db) : live current ->
  (forall fields docs, parse_set_updates update = Ok fields -> d !! c = Some docs ->
    spares_id fields /\ settable fields now (map_to_list (matching f docs))) ->
  refines (update_by_query current now c f update) (spec_update_by_query now c f update) d.
Proof.
  intros Hl Hset s Hs. unfold update_by_query, op_bind, spec_update_by_query.
  rewrite (check_ok s d) by by destruct Hs. unfold op_lift.
  destruct (parse_set_updates update) as [fields|e] eqn:Hp; [|by exists s].
  unfold on_docs. destruct (d !! c) as [docs|] eqn:Hd.
  2:{ destruct (for_each_missing current c (match_visit f) [] s d Hs Hd) as (s' & E & Hs').
      unfold matching_ids. rewrite E. by exists s'. }
  destruct (Hset fields docs eq_refl eq_refl) as [Hsp Hst'].
  destruct (matching_ids_ok current c f s d docs Hl Hs Hd) as (l & s1 & Hst & E & Hs1). rewrite E.
  pose proof Hs1 as [[_ _ _ _ Hview] _]. destruct (vi_ok _ _ _ Hview _ _ Hd) as [_ Hok].
  destruct (scan_ids f docs l Hst Hok) as [Hidnd Hall]. set (ids := (selected f l).*1) in *. cbn [fst snd].
  assert (Hset' : settable fields now (hits f docs ids)).
  { apply Forall_forall. intros x (_ & Hx & Em)%elem_hits.
    eapply (proj1 (Forall_forall _ _) Hst'). apply elem_of_map_to_list'. unfold matching.
    by apply map_lookup_filter_Some. }
  assert (Efinal : after_hits f (set_change fields now) docs ids =
    (fun doc => if matches f doc then apply_set fields now doc else doc) <$> docs).
  { apply map_eq. intros i. rewrite after_hits_lookup, lookup_fmap by done.
    destruct (docs !! i) as [doc|] eqn:Hi; cbn; [|done]. destruct (matches f doc) eqn:Em; [|done].
    unfold set_change. destruct (proj1 (Forall_forall _ _) Hset' (i, doc)) as [[b Hb] _]; [apply elem_hits; eauto|].
    cbn in Hb. by rewrite Hb. }
  rewrite <- Efinal, <- (count_hits f docs ids) by done.
  destruct ids as [|i ids'] eqn:Ei.
  { exists s1. cbn. unfold after_hits. cbn. by rewrite insert_id. }
  rewrite <- Ei in *. destruct Hs1 as [Hi1 Hc1].
  destruct (create_partition_ok s1 d (docs_name c) Hi1) as (s2 & E2 & Hi2 & Hs2).
  unfold get_docs_partition. rewrite E2.
  destruct (update_chunks_ok fields now f c (chunks BULK_MUTATION_CHUNK ids) 0 s2 d docs) as (s' & E' & Hs');
    rewrite ?concat_chunks in * by (unfold BULK_MUTATION_CHUNK; lia); try done.
  { split; [done|]. by eapply same_counts. }
  rewrite E'. by eexists.
Qed.
End by_query.
