(* ===== verification/Bulk.v ===== *)
(** * Bulk insertion

    [bulk_insert_documents] validates a batch in one pass without reading the
    engine, checks the custom identifiers in a second pass with one multi-get,
    and commits once. It is shown equivalent to inserting the documents one
    after another: the same documents stored, and one error per document the
    sequential run refuses, in document order. *)

From S2P Require Import Prelude Bytes F64 Json Errors Externals Filter Secondary Backend Index Storage Document Consistency Refinement.

Section bulk.
Context `{SerdeJson} `{!SerdeLaws} `{BackendLaws} `{StorageSerde} `{ScanAccelerator} `{RegexLib}.

(** ** The reference: one insertion after another *)

Fixpoint seq_inserts (now uuid : nat -> string) (i : nat) (documents : list Value) (docs : gmap string Value)
    : list (res Value) * gmap string Value :=
  match documents with
  | [] => ([], docs)
  | doc :: documents =>
      let '(r, docs) := insert_docs (now i) (uuid i) doc docs in
      let '(rs, docs) := seq_inserts now uuid (S i) documents docs in
      (r :: rs, docs)
  end.
Definition is_err {A} (r : res A) : bool := match r with Err _ => true | Ok _ => false end.
(** The positions of the refused documents, ascending. *)
Fixpoint failing {A} (i : nat) (rs : list (res A)) : list nat :=
  match rs with
  | [] => []
  | r :: rs => if is_err r then i :: failing (S i) rs else failing (S i) rs
  end.

(** ** What pass one leaves *)

Definition keep (docs0 : gmap string Value) (p : Pending) : bool :=
  negb (p_custom p && bool_decide (is_Some (docs0 !! p_id p))).
Definition ins (docs : gmap string Value) (p : Pending) : gmap string Value := <[p_id p := p_doc p]> docs.
Definition pending_ok (p : Pending) : Prop := doc_ok (p_id p) (p_doc p) /\ to_vec (p_doc p) = Some (p_bytes p).

Context (now uuid : nat -> string) (documents0 : list Value) (docs0 : gmap string Value).
Context (Hsafe : forall j, id_safe (uuid j)) (Hfresh : forall j, docs0 !! uuid j = None) (Hinj : Inj (=) (=) uuid).
Definition custom_ok (doc : Value) : Prop := forall obj t, doc = VObject obj -> map_get "_id" obj = Some (VString t) ->
  utf8_valid (str_bytes t) = true /\ forall j, t <> uuid j.
Definition stamps_round_trip (doc : Value) : Prop := forall obj id t, doc = VObject obj ->
  round_trip (VObject (stamp_new id t (map_remove "_id" obj))).

Record pass_inv (i : nat) (st : pass_state) (fails : list nat) (oks : nat) (docs : gmap string Value) : Prop := {
  pi_docs : docs = foldl ins docs0 (List.filter (keep docs0) st.1.2);
  pi_seen : forall id, id ∈ st.2 <-> id ∈ p_id <$> st.1.2;
  pi_ids : NoDup (p_id <$> st.1.2);
  pi_idx : NoDup (p_index <$> st.1.2) /\ Forall (fun p => (p_index p < i)%nat) st.1.2;
  pi_fails : fails ≡ₚ st.1.1.*1 ++ (p_index <$> List.filter (fun p => negb (keep docs0 p)) st.1.2);
  pi_oks : oks = length (List.filter (keep docs0) st.1.2);
  pi_ok : Forall pending_ok st.1.2;
  pi_gen : Forall (fun p => if p_custom p then forall j, p_id p <> uuid j else exists j, (j < i)%nat /\ p_id p = uuid j) st.1.2;
  pi_errs : Forall (fun x : nat * string => exists m, x = doc_error x.1 m) st.1.1;
}.

Lemma foldl_ins_other W docs id : id ∉ p_id <$> W -> foldl ins docs W !! id = docs !! id.
Proof.
  revert docs; induction W as [|p W IH]; intros docs Hid; cbn; [done|]. rewrite fmap_cons in Hid.
  rewrite IH by set_solver. unfold ins. rewrite lookup_insert_ne by set_solver. done.
Qed.
Lemma foldl_ins_mono W docs id : is_Some (docs !! id) -> is_Some (foldl ins docs W !! id).
Proof.
  revert docs; induction W as [|p W IH]; intros docs Hs; cbn; [done|]. apply IH. unfold ins.
  destruct (decide (p_id p = id)) as [->|]; [rewrite lookup_insert_eq; eauto|by rewrite lookup_insert_ne].
Qed.
Lemma foldl_ins_in W docs id : id ∈ p_id <$> W -> is_Some (foldl ins docs W !! id).
Proof.
  revert docs; induction W as [|p W IH]; intros docs; cbn; [by intros ?%elem_of_nil|].
  rewrite elem_of_cons. intros [->|Hin]; [|by apply IH]. apply foldl_ins_mono. unfold ins. rewrite lookup_insert_eq. eauto.
Qed.
Lemma elem_filter_ids (f : Pending -> bool) W id : id ∈ p_id <$> List.filter f W -> id ∈ p_id <$> W.
Proof. rewrite !list_elem_of_fmap. intros (p & -> & [Hp _]%elem_of_List_filter). eauto. Qed.

(** An id already pending is taken in the sequential run too. *)
Lemma pending_taken i st fails oks docs id : pass_inv i st fails oks docs -> id ∈ p_id <$> st.1.2 -> is_Some (docs !! id).
Proof.
  intros [-> _ _ _ _ _ _ _ _] (p & -> & Hp)%list_elem_of_fmap. destruct (keep docs0 p) eqn:Ek.
  - apply foldl_ins_in, list_elem_of_fmap. exists p. split; [done|]. by apply elem_of_List_filter.
  - apply foldl_ins_mono. unfold keep in Ek. apply negb_false_iff, andb_prop in Ek as [_ Ek].
    by apply bool_decide_eq_true in Ek.
Qed.
Lemma not_pending i st fails oks docs id : pass_inv i st fails oks docs -> id ∉ p_id <$> st.1.2 -> docs !! id = docs0 !! id.
Proof.
  intros [-> _ _ _ _ _ _ _ _] Hid. apply foldl_ins_other. intros Hin. by apply Hid, (elem_filter_ids (keep docs0)).
Qed.

(** A refused document. *)
Lemma pass_refuse i st fails oks docs m : pass_inv i st fails oks docs ->
  pass_inv (S i) (st.1.1 ++ [doc_error i m], st.1.2, st.2) (fails ++ [i]) oks docs.
Proof.
  intros [P1 P2 P3 [P4 P5] P6 P7 P8 P9 P10]. constructor; cbn; try done.
  - split; [done|]. eapply Forall_impl; [exact P5|]. cbn. intros. lia.
  - rewrite fmap_app, P6. cbn. rewrite <- !app_assoc. f_equiv. by rewrite Permutation_app_comm.
  - eapply Forall_impl; [exact P9|]. intros p. cbn. destruct (p_custom p); [done|]. intros (j & ? & ?). exists j. split; [lia|done].
  - apply Forall_app. split; [done|]. apply Forall_singleton. by exists m.
Qed.
(** A document that goes to pass two: stored, or refused there because its
    identifier is taken. *)
Lemma pass_pending i st fails oks docs p : pass_inv i st fails oks docs -> p_index p = i ->
  p_id p ∉ p_id <$> st.1.2 -> pending_ok p ->
  (if p_custom p then forall j, p_id p <> uuid j else p_id p = uuid i) ->
  pass_inv (S i) (st.1.1, st.1.2 ++ [p], p_id p :: st.2)
    (if keep docs0 p then fails else fails ++ [i]) (if keep docs0 p then S oks else oks)
    (if keep docs0 p then ins docs p else docs).
Proof.
  intros [P1 P2 P3 [P4 P5] P6 P7 P8 P9 P10] Hi Hid Hok Hgen.
  constructor; cbn; rewrite ?List.filter_app, ?fmap_app; cbn.
  - destruct (keep docs0 p); cbn; rewrite ?app_nil_r, ?foldl_app; cbn; by rewrite P1.
  - intros id. rewrite elem_of_cons, elem_of_app, list_elem_of_singleton, P2. naive_solver.
  - apply NoDup_app. split; [done|]. split; [|apply NoDup_singleton]. set_solver.
  - split.
    + apply NoDup_app. split; [done|]. split; [|apply NoDup_singleton].
      intros x Hx ->%list_elem_of_singleton. apply list_elem_of_fmap in Hx as (q & Eq & Hq).
      rewrite Forall_forall in P5. specialize (P5 _ Hq). lia.
    + apply Forall_app. split; [eapply Forall_impl; [exact P5|]; cbn; intros; lia|]. apply Forall_singleton. lia.
  - destruct (keep docs0 p); cbn; rewrite ?fmap_app, ?app_nil_r; [done|]. cbn. rewrite P6, Hi. by rewrite app_assoc.
  - destruct (keep docs0 p); cbn; rewrite ?app_nil_r, ?length_app; cbn; lia.
  - apply Forall_app. split; [done|]. by apply Forall_singleton.
  - apply Forall_app. split.
    + eapply Forall_impl; [exact P9|]. intros q. cbn. destruct (p_custom q); [done|]. intros (j & ? & ?). exists j. split; [lia|done].
    + apply Forall_singleton. destruct (p_custom p); [done|]. exists i. split; [lia|done].
  - done.
Qed.

(** Stamping, sizing and keeping a document whose identifier is settled. *)
Lemma pass_sized i (st : pass_state) fails oks docs obj id (custom : bool) : pass_inv i st fails oks docs ->
  id_safe id -> id ∉ p_id <$> st.1.2 -> stamps_round_trip (VObject obj) ->
  (if custom then forall j, id <> uuid j else id = uuid i) ->
  let new := VObject (stamp_new id (now i) (map_remove "_id" obj)) in
  let taken := custom && bool_decide (is_Some (docs0 !! id)) in
  let st' := match to_vec new with
    | Some b => if MAX_DOCUMENT_SIZE <? lenZ b
        then (st.1.1 ++ [doc_error i "exceeds 16 MB size limit"], st.1.2, st.2)
        else (st.1.1, st.1.2 ++ [{| p_index := i; p_id := id; p_bytes := b; p_doc := new; p_custom := custom |}], id :: st.2)
    | None => (st.1.1 ++ [doc_error i ser_error], st.1.2, st.2)
    end in
  let bad := taken || is_err (sized_bytes new) in
  pass_inv (S i) st' (if bad then fails ++ [i] else fails) (if bad then oks else S oks)
    (if bad then docs else <[id := new]> docs).
Proof.
  intros HP Hid Hnew Hrt Hgen new taken st' bad. subst st' bad. unfold sized_bytes.
  destruct (to_vec new) as [b|] eqn:Hb; cbn [ok_or mbind result_bind is_err]; [|rewrite orb_true_r; by apply pass_refuse].
  destruct (MAX_DOCUMENT_SIZE <? lenZ b) eqn:Eb; cbn [is_err]; [rewrite orb_true_r; by apply pass_refuse|].
  rewrite orb_false_r. set (p := {| p_index := i |}).
  pose proof (pass_pending i st fails oks docs p HP eq_refl Hnew) as HP'.
  assert (Ek : keep docs0 p = negb taken) by done. rewrite Ek in HP'.
  assert (Hpok : pending_ok p).
  { split; [|done]. split_and!; [done|by exists b|by eapply Hrt|apply stamp_new_id]. }
  specialize (HP' Hpok). destruct taken; cbn in HP'; apply HP'; exact Hgen.
Qed.

Lemma pass_one_step i st fails oks docs doc : pass_inv i st fails oks docs ->
  custom_ok doc -> stamps_round_trip doc ->
  let out := insert_docs (now i) (uuid i) doc docs in
  pass_inv (S i) (bulk_pass_one now uuid st i doc)
    (if is_err out.1 then fails ++ [i] else fails) (if is_err out.1 then oks else S oks) out.2.
Proof.
  intros HP Hc Hrt out. subst out. destruct st as [[errors to_write] seen]. unfold bulk_pass_one, insert_docs.
  destruct doc as [| | | | |obj]; try by apply (pass_refuse i (errors, to_write, seen)).
  cbn [as_object]. unfold spec_id. destruct (map_get "_id" obj) as [raw|] eqn:Hraw.
  - destruct (validate_custom_id raw) as [id|e] eqn:Hv; cbn [mbind result_bind is_err fst snd];
      [|by apply (pass_refuse i (errors, to_write, seen))].
    pose proof Hv as (-> & _)%validate_custom_id_iff.
    destruct (Hc obj id eq_refl Hraw) as [Hu Hne]. pose proof (validated_id_safe _ _ Hv Hu) as Hid.
    case_bool_decide as Hseen.
    + apply (pi_seen _ _ _ _ _ HP) in Hseen. destruct (pending_taken _ _ _ _ _ _ HP Hseen) as [x ->].
      by apply (pass_refuse i (errors, to_write, seen)).
    + assert (Hnew : id ∉ p_id <$> to_write) by (intros Hin; by apply Hseen, (pi_seen _ _ _ _ _ HP)).
      rewrite (not_pending _ _ _ _ _ id HP Hnew).
      pose proof (pass_sized i _ _ _ _ obj id true HP Hid Hnew Hrt Hne) as HS. cbn zeta in HS. cbn [fst snd] in HS.
      destruct (docs0 !! id) as [x|]; cbn [andb orb is_err fst snd] in HS |- *.
      * rewrite bool_decide_true in HS by eauto. exact HS.
      * rewrite bool_decide_false in HS by (by intros []). cbn [orb] in HS.
        destruct (sized_bytes _); exact HS.
  - cbn [is_err fst snd].
    assert (Hnew : uuid i ∉ p_id <$> to_write).
    { intros (p & Ep & Hp)%list_elem_of_fmap. pose proof (proj1 (Forall_forall _ _) (pi_gen _ _ _ _ _ HP) p Hp) as Hg.
      cbn in Hg. destruct (p_custom p); [by apply (Hg i)|]. destruct Hg as (j & Hj & Ej).
      rewrite Ej in Ep. apply Hinj in Ep. lia. }
    pose proof (pass_sized i _ _ _ _ obj (uuid i) false HP (Hsafe i) Hnew Hrt eq_refl) as HS. cbn zeta in HS.
    cbn [fst snd andb orb] in HS. destruct (sized_bytes _); exact HS.
Qed.

Lemma passes_inv i st fails oks docs documents : pass_inv i st fails oks docs ->
  Forall custom_ok documents -> Forall stamps_round_trip documents ->
  let out := seq_inserts now uuid i documents docs in
  pass_inv (i + length documents) (bulk_passes now uuid st i documents)
    (fails ++ failing i out.1) (oks + (length documents - length (failing i out.1)))%nat out.2 /\
  (length (failing i out.1) <= length documents)%nat.
Proof.
  revert i st fails oks docs; induction documents as [|doc documents IH]; intros i st fails oks docs HP Hc Hrt; cbn.
  { rewrite !Nat.add_0_r, app_nil_r. split; [done|lia]. }
  inversion Hc as [|? ? Hc1 Hc2]; inversion Hrt as [|? ? Hr1 Hr2]; subst.
  pose proof (pass_one_step i st fails oks docs doc HP Hc1 Hr1) as HP1. cbn zeta in HP1.
  destruct (insert_docs (now i) (uuid i) doc docs) as [r docs1]. cbn [fst snd] in HP1.
  specialize (IH (S i) _ _ _ _ HP1 Hc2 Hr2). destruct (seq_inserts now uuid (S i) documents docs1) as [rs docs2].
  cbn [fst snd failing] in *. destruct IH as [IH Hlen]. replace (i + S (length documents))%nat with (S i + length documents)%nat by lia.
  destruct (is_err r); cbn [length] in *.
  - rewrite <- app_assoc in IH. split; [|lia].
    replace (oks + (S (length documents) - S (length (failing (S i) rs))))%nat with (oks + (length documents - length (failing (S i) rs)))%nat by lia.
    exact IH.
  - split; [|lia].
    replace (oks + (S (length documents) - length (failing (S i) rs)))%nat with (S oks + (length documents - length (failing (S i) rs)))%nat by lia.
    exact IH.
Qed.
Lemma pass_inv_start : pass_inv 0 ([], [], []) [] 0 docs0.
Proof. constructor; cbn; try done; try constructor; try done; by constructor. Qed.

(** ** Pass two *)

#[export] Instance nat_compare_order : CmpOrder Nat.compare.
Proof.
  split.
  - intros a b. apply Nat.compare_antisym.
  - intros a b c. rewrite !Nat.compare_le_iff. lia.
Qed.
Lemma failing_sorted {A} i (rs : list (res A)) :
  StronglySorted (cmp_le Nat.compare) (failing i rs) /\ NoDup (failing i rs) /\ Forall (fun j => (i <= j)%nat) (failing i rs).
Proof.
  revert i; induction rs as [|r rs IH]; intros i; cbn; [split_and!; constructor|].
  destruct (IH (S i)) as (I1 & I2 & I3).
  assert (I3' : Forall (fun j => (i <= j)%nat) (failing (S i) rs)) by (eapply Forall_impl; [exact I3|]; cbn; intros; lia).
  destruct (is_err r); [|done]. split_and!.
  - constructor; [done|]. eapply Forall_impl; [exact I3|]. cbn. intros j Hj. unfold cmp_le. rewrite Nat.compare_le_iff. lia.
  - constructor; [|done]. intros Hin. rewrite Forall_forall in I3. specialize (I3 _ Hin). cbn in I3. lia.
  - by constructor.
Qed.
(** The errors of both passes, merged in document order. *)
Lemma errors_in_order (errors : list (nat * string)) {A} (rs : list (res A)) :
  failing 0 rs ≡ₚ errors.*1 -> (sort_by error_order errors).*1 = failing 0 rs.
Proof.
  intros Hp. rewrite <- (sort_by_fmap fst Nat.compare error_order) by done.
  destruct (failing_sorted 0 rs) as (Hs & _ & _).
  rewrite (sort_by_unique Nat.compare _ (failing 0 rs)); [by apply (sort_by_id _ _)| |done].
  intros x y _ _. apply Nat.compare_eq_iff.
Qed.

Lemma existing_errors_ok (W : list Pending) : Forall pending_ok W -> map_Forall doc_ok docs0 ->
  let custom := List.filter p_custom W in
  let existing := existing_errors (Ok ((fun p => docs0 !! p_id p ≫= to_vec) <$> custom)) custom in
  existing.*1 = p_index <$> List.filter (fun p => negb (keep docs0 p)) W /\
  Forall (fun x : nat * string => exists m, x = doc_error x.1 m) existing.
Proof.
  intros _ Hdocs. cbn zeta. unfold existing_errors. induction W as [|p W [IH1 IH2]]; [by split|].
  unfold keep at 1. cbn [List.filter]. rewrite negb_involutive. destruct (p_custom p); cbn; [|done].
  destruct (docs0 !! p_id p) as [x|] eqn:Hx; cbn.
  - destruct (Hdocs _ _ Hx) as (_ & [b ->] & _). cbn.
    split; [by f_equal|]. constructor; [by eexists|done].
  - done.
Qed.
Lemma retained (W : list Pending) : NoDup (p_index <$> W) ->
  List.filter (fun p => negb (bool_decide (p_index p ∈ p_index <$> List.filter (fun p => negb (keep docs0 p)) W))) W =
  List.filter (keep docs0) W.
Proof.
  intros Hnd. apply List.filter_ext_in. intros p Hp. apply list_elem_of_In in Hp.
  destruct (keep docs0 p) eqn:Ek.
  - rewrite bool_decide_false; [done|]. intros (q & Eq & [Hq Hk]%elem_of_List_filter)%list_elem_of_fmap.
    rewrite (NoDup_fmap_inj_on p_index W p q) in Ek by done. by rewrite Ek in Hk.
  - rewrite bool_decide_true; [done|]. apply list_elem_of_fmap. exists p. split; [done|].
    apply elem_of_List_filter. by rewrite Ek.
Qed.

Definition pending_change (p : Pending) : string * option (Value * bytes) := (p_id p, Some (p_doc p, p_bytes p)).
Lemma bulk_batch_ops m c W : NoDup (p_id <$> W) -> (forall p, p ∈ W -> docs0 !! p_id p = None) ->
  bulk_batch m (partition_of (docs_name c)) c W = changes_ops m c docs0 (pending_change <$> W).
Proof.
  intros Hnd Hnone. rewrite (changes_ops_distinct m c docs0 docs0); [|by rewrite <- list_fmap_compose|done].
  assert (Hg : forall acc, foldl (fun batch p => add_index_entries_to_batch m
      (batch ++ [BPut (partition_of (docs_name c)) (str_bytes (p_id p)) (p_bytes p)]) c (p_id p) (p_doc p)) acc W =
    acc ++ ((pending_change <$> W) ≫= fun x => change_ops m c x.1 (docs0 !! x.1) x.2)); [|by apply (Hg [])].
  clear Hnd. revert Hnone. induction W as [|p W IH]; intros Hn acc; [cbn; by rewrite app_nil_r|]. cbn [foldl].
  rewrite IH by (intros q Hq; apply Hn; by right). rewrite fmap_cons. cbn [mbind list_bind]. cbn [pending_change fst snd].
  rewrite (Hn p) by (by left). unfold add_index_entries_to_batch, change_ops.
  rewrite stage_entries_app, <- !app_assoc. done.
Qed.
Lemma foldl_pending (W : list Pending) docs : foldl apply_change docs (pending_change <$> W) = foldl ins docs W.
Proof. revert docs; induction W as [|p W IH]; intros docs; [done|]. rewrite fmap_cons. cbn [foldl]. by rewrite IH. Qed.
Lemma size_pending (W : list Pending) docs : NoDup (p_id <$> W) -> (forall p, p ∈ W -> docs !! p_id p = None) ->
  Z.of_nat (size (foldl ins docs W)) = Z.of_nat (size docs) + lenZ W.
Proof.
  revert docs; induction W as [|p W IH]; intros docs Hnd Hn; cbn [foldl]; [unfold lenZ; cbn; lia|].
  rewrite fmap_cons in Hnd. inversion Hnd as [|? ? Hp Hnd']; subst. rewrite IH; [|done|].
  - unfold ins, lenZ. rewrite map_size_insert_None by (apply Hn; by left). cbn [length]. lia.
  - intros q Hq. unfold ins. rewrite lookup_insert_ne; [apply Hn; by right|]. intros E. apply Hp.
    apply list_elem_of_fmap. by exists q.
Qed.

(** The two passes and the commit, from a state that holds [docs0]. *)
Lemma bulk_ok c documents s (d : db) :
  lenZ documents <= MAX_BULK_INSERT -> storage_inv s d -> d !! c = Some docs0 ->
  Forall custom_ok documents -> Forall stamps_round_trip documents ->
  let out := seq_inserts now uuid 0 documents docs0 in
  exists errors s',
    bulk_insert_documents now uuid c documents s =
      (Ok (lenZ documents - lenZ (failing 0 out.1), (sort_by error_order errors).*2), s') /\
    (sort_by error_order errors).*1 = failing 0 out.1 /\
    Forall (fun x : nat * string => exists m, x = doc_error x.1 m) errors /\
    storage_inv s' (<[c := out.2]> d).
Proof.
  intros Hlen Hs Hd Hc Hrt out.
  destruct (prefix_ok s d c Hs) as (E0 & s1 & E1 & _ & s2 & E2 & Hs2).
  rewrite bool_decide_true in E1 by eauto. unfold bulk_insert_documents.
  replace (MAX_BULK_INSERT <? lenZ documents) with false by (symmetry; apply Z.ltb_ge; lia).
  unfold op_bind at 1 2 3. rewrite E0, E1, E2.
  destruct (passes_inv 0 _ _ _ _ documents pass_inv_start Hc Hrt) as [HP Hfl]. fold out in HP, Hfl.
  destruct (bulk_passes now uuid ([], [], []) 0 documents) as [[errors W] seen].
  destruct HP as [P1 _ P3 [P4 _] P6 P7 P8 Hgen P10]. cbn [fst snd app Nat.add] in *.
  pose proof Hs2 as [Hi2 Hc2]. pose proof Hi2 as [Hh _ _ _ Hview].
  destruct (vi_ok _ _ _ Hview _ _ Hd) as [Hname Hok].
  destruct (existing_errors_ok W P8 Hok) as [Ex1 Ex2].
  set (existing := existing_errors _ _) in *.
  assert (Hex : (match List.filter p_custom W with
    | [] => op_ret []
    | p :: l => op_gets (fun s => existing_errors
        (be_get_many (eng s) (partition_of (docs_name c)) ((fun p => str_bytes (p_id p)) <$> List.filter p_custom W))
        (List.filter p_custom W))
    end) s2 = (Ok existing, s2)).
  { assert (Hf : forall s, s = s2 -> existing_errors (be_get_many (eng s) (partition_of (docs_name c))
      ((fun p => str_bytes (p_id p)) <$> List.filter p_custom W)) (List.filter p_custom W) = existing).
    { intros ? ->. rewrite get_many_spec by done. unfold existing. do 2 f_equal.
      rewrite <- list_fmap_compose. apply list_fmap_ext. intros _ p _. cbn.
      apply (docs_view_lookup (view (eng s2)) _ docs0); [|done].
      pose proof (vi_docs _ _ _ Hview c Hname) as Hdv. unfold docs_of in Hdv. by rewrite Hd in Hdv. }
    unfold op_gets, op_ret. destruct (List.filter p_custom W); [reflexivity|by rewrite (Hf s2)]. }
  unfold op_bind at 1. rewrite Hex, Ex1, retained by done.
  exists (errors ++ existing).
  assert (Hcount : lenZ documents - lenZ (failing 0 out.1) = lenZ (List.filter (keep docs0) W)) by (unfold lenZ; lia).
  assert (Hord : (sort_by error_order (errors ++ existing)).*1 = failing 0 out.1).
  { apply errors_in_order. by rewrite fmap_app, Ex1. }
  assert (Herr : Forall (fun x : nat * string => exists m, x = doc_error x.1 m) (errors ++ existing)) by (by apply Forall_app).
  rewrite Hcount. destruct (List.filter (keep docs0) W) as [|p l] eqn:EW.
  { exists s2. split; [done|]. split; [done|]. split; [done|]. rewrite P1. cbn [foldl]. by rewrite insert_id. }
  rewrite <- EW in *.
  assert (Hnone : forall p, p ∈ List.filter (keep docs0) W -> docs0 !! p_id p = None).
  { intros q [Hq Ek]%elem_of_List_filter. unfold keep in Ek.
    pose proof (proj1 (Forall_forall _ _) Hgen q Hq) as Hg. cbn in Hg.
    destruct (p_custom q); cbn in Ek.
    - apply negb_true_iff, bool_decide_eq_false in Ek. by apply eq_None_not_Some.
    - destruct Hg as (j & _ & ->). apply Hfresh. }
  assert (Hnd : NoDup (p_id <$> List.filter (keep docs0) W)).
  { clear -P3. induction W as [|q W IH]; [constructor|]. rewrite fmap_cons in P3. inversion P3 as [|? ? Hq Hnd]; subst.
    cbn. destruct (keep docs0 q); [|by apply IH]. rewrite fmap_cons. constructor; [|by apply IH].
    intros Hin. by apply Hq, (elem_filter_ids (keep docs0)). }
  destruct (changes_commit s2 d c docs0 (pending_change <$> List.filter (keep docs0) W)
    (bulk_batch (index_manager s2) (partition_of (docs_name c)) c (List.filter (keep docs0) W)) Hi2 Hd) as (e' & Ec & Hi').
  { apply Forall_fmap, Forall_forall. intros q [Hq _]%elem_of_List_filter.
    pose proof (proj1 (Forall_forall _ _) P8 q Hq) as [Hqok Hqb]. split; [by destruct Hqok|].
    intros doc b [= <- <-]. done. }
  { by apply bulk_batch_ops. }
  unfold op_bind, op_gets, op_modify. rewrite Ec. eexists. split; [done|]. split; [done|]. split; [done|].
  rewrite foldl_pending, <- P1 in Hi'. split; [exact (proj1 (core_accel _ _ _ _ Hi'))|].
  eapply (counts_change s2 _ d c docs0); [done..|]. rewrite P1. by apply size_pending.
Qed.
End bulk.
