(* ===== verification/Catalog.v ===== *)
(** * Collections, indexes and start-up keep the invariant

    Creating and dropping collections and indexes change the registry in
    [_meta] and the in-memory caches together; reopening the database rebuilds
    the caches from the registry. *)

From S2P Require Import Prelude Bytes F64 Json Errors Externals Filter Secondary Backend Index Storage Document Consistency Refinement Mutations.

Section catalog.
Context `{SerdeJson} `{!SerdeLaws} `{BackendLaws} `{StorageSerde} `{!StorageSerdeLaws} `{ScanAccelerator} `{RegexLib}.
Abbreviation keyview := (PartitionId -> bytes -> option bytes).
Abbreviation meta_p := (partition_of "_meta").

(** ** Registry keys *)

Lemma index_key_prefix c n : starts_with (index_key c n) (str_bytes "index:") = true.
Proof. unfold index_key. rewrite str_bytes_app. apply starts_with_app. Qed.
Lemma keys_apart p q r : starts_with r (str_bytes p) = true -> starts_with r (str_bytes q) = true ->
  head (str_bytes p) <> None -> head (str_bytes p) = head (str_bytes q) \/ str_bytes q = [].
Proof.
  intros (a & ->)%starts_with_spec (b & E)%starts_with_spec Hp.
  destruct (str_bytes p), (str_bytes q); cbn in *; try done; [by right|]. left. by injection E as ->.
Qed.
Lemma collection_not_index c k : k = collection_key c -> starts_with k (str_bytes "index:") = false.
Proof.
  intros ->. destruct (starts_with _ _) eqn:E; [|done].
  by destruct (keys_apart _ _ _ (collection_key_prefix c) E) as [|].
Qed.
Lemma index_not_collection c n k : k = index_key c n -> starts_with k (str_bytes "collection:") = false.
Proof.
  intros ->. destruct (starts_with _ _) eqn:E; [|done].
  by destruct (keys_apart _ _ _ (index_key_prefix c n) E) as [|].
Qed.
Lemma ttl_not_prefixed c : starts_with (ttl_key c) (str_bytes "index:") = false /\
  starts_with (ttl_key c) (str_bytes "collection:") = false.
Proof.
  assert (Ht : starts_with (ttl_key c) (str_bytes "ttl:") = true).
  { unfold ttl_key. rewrite str_bytes_app. apply starts_with_app. }
  split.
  - destruct (starts_with (ttl_key c) (str_bytes "index:")) eqn:E; [|done]. by destruct (keys_apart _ _ _ Ht E) as [|].
  - destruct (starts_with (ttl_key c) (str_bytes "collection:")) eqn:E; [|done]. by destruct (keys_apart _ _ _ Ht E) as [|].
Qed.

(** A name is registered in [_meta] exactly when it is in memory. *)
Lemma meta_index (V : keyview) m (d : db) c n : view_inv V m d -> name_safe c ->
  is_Some (V meta_p (index_key c n)) <-> (c, n) ∈ m.*1.
Proof.
  intros HV Hc. destruct (vi_registry _ _ _ HV) as (_ & Hr & _). rewrite Forall_forall in Hr. split.
  - intros [v Hv]. apply (vi_defs _ _ _ HV _ _ (index_key_prefix c n)) in Hv as (kv & Hin & E & _).
    destruct (Hr _ Hin) as (_ & Hs & _). apply index_key_inj in E as [-> ->]; [|done..].
    apply list_elem_of_fmap. exists kv. by destruct kv as [[] ?].
  - intros (kv & E & Hin)%list_elem_of_fmap. destruct (Hr _ Hin) as (_ & _ & _ & _ & [b Hb] & _).
    exists b. apply (vi_defs _ _ _ HV _ _ (index_key_prefix c n)). exists kv. by rewrite <- E.
Qed.

(** ** Creating a collection *)

Definition spec_create_collection (c : string) (d : db) : res CollectionInfo * db :=
  match d !! c with
  | Some _ => (Err (CollectionExists c), d)
  | None => (Ok {| ci_name := c; ci_doc_count := 0; ci_indexes := [] |}, <[c := ∅]> d)
  end.

Lemma create_view (V : keyview) m (d : db) c b : view_inv V m d -> name_safe c -> d !! c = None ->
  view_inv (after V [BPut meta_p (collection_key c) b]) m (<[c := ∅]> d).
Proof.
  intros HV Hc Hd. pose proof HV as [V1 V2 V3 V4 V5 V6 (R1 & R2 & R3)].
  assert (E : forall p k, (p, k) <> (meta_p, collection_key c) -> after V [BPut meta_p (collection_key c) b] p k = V p k).
  { intros p k Hne. cbn. by rewrite decide_False by naive_solver. }
  assert (Hdocs : forall c', docs_of (<[c := ∅]> d) c' = docs_of d c').
  { intros c'. unfold docs_of. destruct (decide (c = c')) as [<-|]; [by rewrite lookup_insert_eq, Hd|by rewrite lookup_insert_ne]. }
  constructor.
  - intros c' Hs k v. rewrite Hdocs, E; [by apply V1|]. intros [= E' _].
    by apply (inj partition_of), docs_meta_name in E'.
  - intros c' x. destruct (decide (c = c')) as [<-|]; [|rewrite lookup_insert_ne by done; apply V2].
    rewrite lookup_insert_eq. intros [= <-]. split; [done|]. apply map_Forall_empty.
  - intros kv Hin k v. rewrite Hdocs, E; [by apply V3|]. intros [= E' _].
    rewrite Forall_forall in R2. destruct (R2 _ Hin) as (_ & _ & Hp & _). rewrite Hp in E'.
    by apply (inj partition_of), index_meta_name in E'.
  - intros c' n k Hs Hn. rewrite E; [by apply V4|]. intros [= E' _].
    by apply (inj partition_of), index_meta_name in E'.
  - intros k Hk. destruct (decide (k = collection_key c)) as [->|Hne].
    + cbn. rewrite decide_True by done. split; [|eauto]. intros _. exists c. rewrite lookup_insert_eq. eauto.
    + rewrite E by naive_solver. rewrite (V5 k Hk). split; intros (c' & Hs & ->); exists c'; split; try done.
      * destruct (decide (c = c')) as [<-|]; [by destruct Hne|by rewrite lookup_insert_ne].
      * by rewrite lookup_insert_ne in Hs by (intros <-; by destruct Hne).
  - intros k v Hk. rewrite E; [by apply V6|]. intros [= Ek]. by rewrite (collection_not_index c k) in Hk.
  - split_and!; [done..|]. eapply Forall_impl; [exact R3|]. intros kv [x Hx]. cbn.
    rewrite lookup_insert_ne; [eauto|]. intros Ec. congruence.
Qed.

Lemma create_collection_refines_aux now c (d : db) : name_safe c ->
  refines (create_collection now c) (spec_create_collection c) d.
Proof.
  intros Hname s [Hi Hc]. unfold create_collection, op_bind.
  rewrite (check_ok s d), (meta_get_ok s d) by done. pose proof (meta_collection s d c Hi) as Hiff.
  unfold spec_create_collection. destruct (d !! c) as [docs|] eqn:Hd.
  { destruct (proj2 Hiff) as [v ->]; [eauto|]. by exists s. }
  destruct (view (eng s) meta_p (collection_key c)) as [v|] eqn:Ev.
  { exfalso. assert (is_Some (None : option (gmap string Value))) as []; [by apply Hiff; eauto|done]. }
  destruct (create_partition_ok s d (docs_name c) Hi) as (s1 & E1 & Hi1 & Hs1). rewrite E1.
  destruct (collection_meta_ser {| cm_name := c; cm_created_at := now |}) as [b Hb].
  unfold op_lift, op_gets, op_modify. rewrite Hb. cbn [ok_or].
  set (s2 := set_counts s1 _).
  assert (Hi2 : core_inv s2 d) by (destruct Hi1 as [A1 A2 A3 A4 A5]; by constructor).
  destruct (commit_ok s2 d (<[c := ∅]> d) [BPut (meta s1) (collection_key c) b] Hi2) as (e' & Ec & Hi' & _).
  { rewrite (ci_meta _ _ Hi1). apply create_view; [by destruct Hi2|done..]. }
  { intros c' Hin. apply (ci_known _ _ Hi2) in Hin. destruct (decide (c = c')) as [<-|];
      [rewrite lookup_insert_eq; eauto|by rewrite lookup_insert_ne]. }
  rewrite Ec. unfold persist, op_engine. set (s3 := set_collections _ _).
  assert (Hi3 : core_inv s3 (<[c := ∅]> d)).
  { destruct Hi' as [A1 A2 A3 A4 A5]. constructor; try done. intros c' Hin. unfold s3 in Hin. cbn in Hin.
    apply elem_of_union in Hin as [->%elem_of_singleton|Hin]; [|by apply A4].
    rewrite lookup_insert_eq. eauto. }
  rewrite (flush_spec (eng s3)) by by destruct Hi3. cbn [lift_be map_err].
  eexists. split; [done|]. split.
  - case_match; [|done]. by destruct (core_accel _ _ (set_ready (scan_accelerator s3) true) ∅ Hi3).
  - assert (Hcounts : counts_ok s3 (<[c := ∅]> d)).
    { intros c' x. unfold s3, s2. cbn. unfold counters_initialize. destruct Hs1 as (_ & -> & _).
      destruct (decide (c = c')) as [<-|]; [|rewrite !lookup_insert_ne by done; apply Hc].
      rewrite lookup_insert_eq. intros [= <-]. by rewrite lookup_insert_eq. }
    by case_match.
Qed.

(** ** Dropping a collection *)

Lemma collect_keys_ok e p : healthy e -> collect_keys e p = Ok (fst <$> contents e p).
Proof.
  intros Hh. unfold collect_keys. rewrite scan_full_spec by done. cbn [fst snd].
  assert (E : forall l (keys : list bytes), visit_entries (fun k (_ : bytes) keys => (keys ++ [k], Continue)) l None keys =
    (keys ++ (fst <$> l), None)).
  { intros l; induction l as [|[k v] l IH]; intros keys; cbn; [by rewrite app_nil_r|]. by rewrite IH, <- app_assoc. }
  by rewrite (E (contents e p) []).
Qed.
Lemma elem_keys e p k : healthy e -> k ∈ fst <$> contents e p <-> is_Some (view e p k).
Proof.
  intros Hh. rewrite list_elem_of_fmap. split.
  - intros ([k' v] & -> & Hin). apply view_elem in Hin; [eauto|done].
  - intros [v Hv]. exists (k, v). split; [done|]. by apply view_elem.
Qed.

Lemma index_partition_in m (d : db) kv : registry_ok m d -> kv ∈ m ->
  get_index_partition m kv.1.1 (idx_name (entry_def kv.2)) = Some (entry_partition kv.2).
Proof.
  intros (Hnd & Hr & _) Hin. rewrite Forall_forall in Hr. destruct (Hr _ Hin) as (E & _).
  unfold get_index_partition. destruct (List.find _ m) as [kv'|] eqn:Ef.
  - apply List.find_some in Ef as [Hin' Ek%bool_decide_eq_true]. apply list_elem_of_In in Hin'.
    assert (kv' = kv) as ->; [|done]. apply (NoDup_fmap_inj_on fst m); [done..|]. rewrite Ek, E. by destruct kv as [[] ?].
  - exfalso. apply list_elem_of_In in Hin. apply (List.find_none _ _ Ef) in Hin. cbn in Hin.
    rewrite E in Hin. cbn in Hin. by rewrite bool_decide_eq_true_2 in Hin.
Qed.

(** The removals of the indexes of a collection. *)
Definition drop_entries (e : engine) (c : string) (kv : (string * string) * IndexEntry) : list (batch_op PartitionId) :=
  ((fun k => BDel (entry_partition kv.2) k) <$> (fst <$> contents e (entry_partition kv.2))) ++
  [BDel meta_p (index_key c (idx_name (entry_def kv.2)))].
Lemma stage_drops_ok s (d : db) c (kvs : list ((string * string) * IndexEntry)) batch :
  core_inv s d -> (forall kv, kv ∈ kvs -> kv ∈ index_manager s /\ kv.1.1 = c) ->
  stage_index_drops c ((fun kv => entry_def kv.2) <$> kvs) batch s = (Ok (batch ++ (kvs ≫= drop_entries (eng s) c)), s).
Proof.
  intros Hi. pose proof Hi as [Hh Hm _ _ Hview]. revert batch; induction kvs as [|kv kvs IH]; intros batch Hin.
  { cbn. by rewrite app_nil_r. }
  cbn [fmap list_fmap stage_index_drops]. destruct (Hin kv ltac:(by left)) as [Hkv <-].
  rewrite (index_partition_in _ d kv) by (done || apply (vi_registry _ _ _ Hview)).
  unfold op_bind, op_engine. rewrite collect_keys_ok by done. cbn [lift_be map_err op_ret].
  unfold op_ret. rewrite IH by (intros x Hx; apply Hin; by right).
  cbn [mbind list_bind]. unfold drop_entries at 2. rewrite Hm, <- !app_assoc. done.
Qed.

Definition drop_ops (e : engine) (m : IndexManager) (c : string) : list (batch_op PartitionId) :=
  (((fun k => BDel (partition_of (docs_name c)) k) <$> (fst <$> contents e (partition_of (docs_name c)))) ++
   (List.filter (fun kv => bool_decide (kv.1.1 = c)) m ≫= drop_entries e c)) ++
  [BDel meta_p (collection_key c); BDel meta_p (ttl_key c)].
Lemma elem_drop_ops e m c o : healthy e -> o ∈ drop_ops e m c <->
  (exists k, is_Some (view e (partition_of (docs_name c)) k) /\ o = BDel (partition_of (docs_name c)) k) \/
  (exists kv k, kv ∈ m /\ kv.1.1 = c /\ is_Some (view e (entry_partition kv.2) k) /\ o = BDel (entry_partition kv.2) k) \/
  (exists kv, kv ∈ m /\ kv.1.1 = c /\ o = BDel meta_p (index_key c (idx_name (entry_def kv.2)))) \/
  o = BDel meta_p (collection_key c) \/ o = BDel meta_p (ttl_key c).
Proof.
  intros Hh. unfold drop_ops. rewrite !elem_of_app, list_elem_of_fmap, list_elem_of_bind.
  setoid_rewrite (elem_keys e _ _ Hh). setoid_rewrite elem_of_List_filter. setoid_rewrite bool_decide_eq_true.
  unfold drop_entries. setoid_rewrite elem_of_app. setoid_rewrite list_elem_of_fmap. setoid_rewrite (elem_keys e _ _ Hh).
  setoid_rewrite list_elem_of_singleton. rewrite !elem_of_cons, elem_of_nil. naive_solver.
Qed.
Lemma bdel_inj (p q : PartitionId) k j : BDel p k = BDel q j -> p = q /\ k = j.
Proof. by intros [= -> ->]. Qed.
Lemma drop_ops_dels e m c : Forall (fun o => exists q j, o = BDel q j) (drop_ops e m c).
Proof.
  unfold drop_ops, drop_entries. rewrite !Forall_app. split_and!.
  - apply Forall_fmap, Forall_forall. by do 2 eexists.
  - apply Forall_bind, Forall_forall. intros kv _. apply Forall_app. split; [|apply Forall_singleton; by do 2 eexists].
    apply Forall_fmap, Forall_forall. by do 2 eexists.
  - repeat constructor; by do 2 eexists.
Qed.

Definition unregistered_all (c : string) (m : IndexManager) : IndexManager :=
  List.filter (fun kv => negb (bool_decide (kv.1.1 = c))) m.
Lemma unregister_all_ok m (d : db) c : registry_ok m d ->
  foldl (fun m def => unregister m c (idx_name def)) m (get_indexes_for_collection m c) = unregistered_all c m.
Proof.
  intros (_ & Hr & _). rewrite Forall_forall in Hr.
  assert (Hf : forall defs m, foldl (fun m def => unregister m c (idx_name def)) m defs =
    List.filter (fun kv => negb (bool_decide (kv.1 ∈ (fun def => (c, idx_name def)) <$> defs))) m).
  { clear. intros defs; induction defs as [|def defs IH]; intros m; cbn [foldl].
    - rewrite (List.filter_ext_in _ (fun _ => true)); [|done]. induction m as [|kv m IH]; cbn; [done|]. by rewrite <- IH.
    - rewrite IH. unfold unregister. rewrite filter_filter_and. apply List.filter_ext_in. intros kv _.
      rewrite fmap_cons, <- negb_orb, <- bool_decide_or. f_equal. apply bool_decide_ext. rewrite elem_of_cons. tauto. }
  rewrite Hf. apply List.filter_ext_in. intros kv Hin. apply list_elem_of_In in Hin. f_equal. apply bool_decide_ext.
  destruct (Hr _ Hin) as (E & _). rewrite list_elem_of_fmap. split.
  - intros (def & -> & _). done.
  - intros Hc. exists (entry_def kv.2). split; [rewrite E in Hc |- *; cbn in *; by rewrite Hc|].
    unfold get_indexes_for_collection. apply list_elem_of_fmap. exists kv. split; [done|].
    apply elem_of_List_filter. split; [done|]. by apply bool_decide_eq_true.
Qed.

Lemma drop_view e m (d : db) c docs : healthy e -> view_inv (view e) m d -> d !! c = Some docs ->
  view_inv (after (view e) (drop_ops e m c)) (unregistered_all c m) (delete c d).
Proof.
  intros Hh HV Hd. pose proof HV as [V1 V2 V3 V4 V5 V6 (R1 & R2 & R3)]. pose proof R2 as R2'.
  rewrite Forall_forall in R2'. destruct (V2 _ _ Hd) as [Hc _].
  set (V' := after (view e) (drop_ops e m c)).
  assert (E : forall p k, V' p k = if decide (BDel p k ∈ drop_ops e m c) then None else view e p k).
  { intros p k. apply batch_dels, drop_ops_dels. }
  assert (Hsub : forall p k v, V' p k = Some v -> view e p k = Some v) by (intros p k v; rewrite E; by case_decide).
  assert (Hin : forall kv, kv ∈ unregistered_all c m <-> kv ∈ m /\ kv.1.1 <> c).
  { intros kv. unfold unregistered_all. by rewrite elem_of_List_filter, negb_true_iff, bool_decide_eq_false. }
  (* partitions that are neither the collection's nor the registry are untouched *)
  assert (Hother : forall p k, p <> meta_p -> p <> partition_of (docs_name c) ->
    (forall kv, kv ∈ m -> kv.1.1 = c -> entry_partition kv.2 <> p) -> V' p k = view e p k).
  { intros p k Hm Hp Hidx. rewrite E. case_decide as Ho; [|done]. exfalso.
    apply elem_drop_ops in Ho as [(j & _ & [= -> _])|[(kv & j & Hkv & Hcv & _ & [= -> _])|[(kv & _ & _ & [= -> _])|[[= -> _]|[= -> _]]]]];
      [done| |done..]. by apply (Hidx kv). }
  assert (Hdocs : forall c', docs_of (delete c d) c' = if decide (c' = c) then ∅ else docs_of d c').
  { intros c'. unfold docs_of. destruct (decide (c' = c)) as [->|]; [by rewrite lookup_delete_eq|by rewrite lookup_delete_ne]. }
  assert (Hm : forall n, partition_of (docs_name n) <> meta_p) by (intros n ?%(inj partition_of)%docs_meta_name; done).
  assert (Hmi : forall kv, kv ∈ m -> entry_partition kv.2 <> meta_p).
  { intros kv Hkv. destruct (R2' _ Hkv) as (_ & _ & -> & _). by intros ?%(inj partition_of)%index_meta_name. }
  constructor.
  - intros c' Hs k v. rewrite Hdocs. destruct (decide (c' = c)) as [->|Hne].
    + split; [|by intros (? & ? & ? & _)]. intros Hv. exfalso. rewrite E in Hv. case_decide as Ho; [done|].
      apply Ho, elem_drop_ops; [done|]. left. exists k. split; [by exists v|done].
    + rewrite Hother; [by apply V1|done| |].
      * intros E'%(inj partition_of). by apply Hne, docs_name_inj.
      * intros kv Hkv _. destruct (R2' _ Hkv) as (_ & Hs' & -> & _). intros E'%(inj partition_of).
        symmetry in E'. revert E'. by apply docs_index_name.
  - intros c' x [_ Hx]%lookup_delete_Some. by apply V2.
  - intros kv [Hkv Hne]%Hin k v. rewrite Hdocs, decide_False by done.
    rewrite Hother; [by apply V3|by apply Hmi| |].
    + destruct (R2' _ Hkv) as (_ & Hs' & -> & _). intros E'%(inj partition_of). symmetry in E'.
      revert E'. by apply docs_index_name.
    + intros kv' Hkv' Hcv' E'. apply Hne. by rewrite (partition_inj m d kv kv').
  - intros c' n k Hs Hn. destruct (V' _ k) as [v|] eqn:Ev; [|done]. exfalso.
    pose proof (Hsub _ _ _ Ev) as Hold. destruct (decide ((c', n) ∈ m.*1)) as [Hreg|Hreg]; [|by rewrite V4 in Hold].
    apply list_elem_of_fmap in Hreg as (kv & Ek & Hkv). destruct (decide (kv.1.1 = c)) as [Hcv|Hcv].
    + rewrite E in Ev. case_decide as Ho; [done|]. apply Ho, elem_drop_ops; [done|]. right. left.
      destruct (R2' _ Hkv) as (_ & _ & Hp & _). rewrite <- Ek in Hp. cbn in Hp.
      exists kv, k. rewrite Hp. split_and!; [done..|by exists v|done].
    + apply Hn, list_elem_of_fmap. exists kv. split; [done|]. by apply Hin.
  - intros k Hk. rewrite E. case_decide as Ho.
    + split; [by intros []|]. intros (c' & [x [Hne Hx]%lookup_delete_Some] & ->). exfalso.
      apply elem_drop_ops in Ho as [(j & _ & [E' _]%bdel_inj)|[(kv & j & Hkv & _ & _ & [E' _]%bdel_inj)|[(kv & _ & _ & [_ E']%bdel_inj)|[[_ E']%bdel_inj|[_ E']%bdel_inj]]]]; [| | | | |done].
      * symmetry in E'. by apply Hm in E'.
      * symmetry in E'. by apply (Hmi kv) in E'.
      * by rewrite (index_not_collection _ _ _ E') in Hk.
      * by apply collection_key_inj in E'.
      * rewrite E' in Hk. by rewrite (proj2 (ttl_not_prefixed c)) in Hk.
    + rewrite (V5 k Hk). split; intros (c' & Hs & ->); exists c'; split; try done.
      * rewrite lookup_delete_ne; [done|]. intros <-. apply Ho, elem_drop_ops; [done|]. naive_solver.
      * destruct Hs as [x [_ Hx]%lookup_delete_Some]. by exists x.
  - intros k v Hk. rewrite E. case_decide as Ho.
    + split; [done|]. intros (kv & [Hkv Hne]%Hin & -> & _). exfalso. destruct (R2' _ Hkv) as (_ & Hs & _).
      apply elem_drop_ops in Ho as [(j & _ & [E' _]%bdel_inj)|[(kv' & j & Hkv' & _ & _ & [E' _]%bdel_inj)|[(kv' & Hkv' & Hcv' & [_ E']%bdel_inj)|[[_ E']%bdel_inj|[_ E']%bdel_inj]]]]; [| | | | |done].
      * symmetry in E'. by apply Hm in E'.
      * symmetry in E'. by apply (Hmi kv') in E'.
      * apply index_key_inj in E' as [E' _]; [|done..]. done.
      * rewrite (collection_not_index _ _ E') in Hk. done.
      * rewrite E' in Hk. by rewrite (proj1 (ttl_not_prefixed c)) in Hk.
    + rewrite (V6 k v Hk). split; intros (kv & Hkv & -> & Hv); exists kv; split_and!; try done.
      * apply Hin. split; [done|]. intros Hcv. apply Ho, elem_drop_ops; [done|]. right. right. left.
        exists kv. split_and!; [done..|]. destruct (R2' _ Hkv) as (Ek & _). rewrite <- Hcv. by rewrite Ek at 2.
      * by apply Hin in Hkv as [].
  - split_and!.
    + unfold unregistered_all. clear -R1. induction m as [|kv m IH]; [constructor|]. rewrite fmap_cons in R1.
      inversion R1 as [|? ? Hkv R1']; subst. cbn. case_bool_decide; cbn; [by apply IH|].
      constructor; [|by apply IH]. intros (x & Ex & [Hx _]%elem_of_List_filter)%list_elem_of_fmap.
      apply Hkv, list_elem_of_fmap. by exists x.
    + apply Forall_forall. intros kv [Hkv _]%Hin. by apply R2'.
    + apply Forall_forall. intros kv [Hkv Hne]%Hin. rewrite lookup_delete_ne by done.
      by apply (proj1 (Forall_forall _ _) R3).
Qed.

Definition spec_drop_collection (c : string) (d : db) : res unit * db :=
  match d !! c with
  | Some _ => (Ok tt, delete c d)
  | None => (Err (CollectionNotFound c), d)
  end.

Lemma drop_collection_ok c s (d : db) : storage_inv s d ->
  exists s', drop_collection c s = ((spec_drop_collection c d).1, s') /\
    storage_inv s' (spec_drop_collection c d).2 /\
    index_manager s' = match d !! c with Some _ => unregistered_all c (index_manager s) | None => index_manager s end.
Proof.
  intros [Hi Hc]. unfold drop_collection, op_bind.
  rewrite (check_ok s d), (meta_get_ok s d) by done. pose proof (meta_collection s d c Hi) as Hiff.
  unfold spec_drop_collection. destruct (d !! c) as [docs|] eqn:Hd.
  2:{ destruct (view (eng s) meta_p (collection_key c)) as [v|] eqn:Ev; [|by exists s].
      exfalso. assert (is_Some (None : option (gmap string Value))) as []; [by apply Hiff; eauto|done]. }
  destruct (proj2 Hiff) as [v ->]; [eauto|]. cbn [is_Some negb]. rewrite bool_decide_true by eauto. cbn [negb].
  destruct (create_partition_ok s d (docs_name c) Hi) as (s1 & E1 & Hi1 & Hs1). unfold get_docs_partition. rewrite E1.
  pose proof Hi1 as [Hh _ _ _ Hview].
  unfold op_engine at 1. rewrite collect_keys_ok by done. cbn [lift_be map_err]. unfold op_gets at 1.
  unfold get_indexes_for_collection at 1.
  rewrite (stage_drops_ok s1 d) by (done || (intros kv [Hkv Hcv%bool_decide_eq_true]%elem_of_List_filter; done)).
  unfold op_gets at 1. rewrite (ci_meta _ _ Hi1). fold (drop_ops (eng s1) (index_manager s1) c).
  cbn [op_modify]. unfold op_modify. set (s2 := set_collections s1 _).
  assert (Hi2 : core_inv s2 d) by (destruct Hi1 as [A1 A2 A3 A4 A5]; constructor; try done; unfold s2; cbn; set_solver).
  destruct (view_commit (eng s1) (drop_ops (eng s1) (index_manager s1) c) Hh) as (e' & He & Hh' & Hv').
  unfold commit_batch. cbn [eng s2]. change (eng s2) with (eng s1). rewrite He.
  cbn [set_indexes index_manager set_eng s2]. change (index_manager (set_eng s2 e')) with (index_manager s1).
  rewrite (unregister_all_ok _ d) by apply (vi_registry _ _ _ Hview).
  unfold persist, op_engine. cbn [eng]. set (s3 := set_accel _ _).
  change (eng s3) with e'. rewrite (flush_spec e') by done. cbn [lift_be map_err].
  exists s3. split; [done|]. cbn [fst snd]. split; [split|].
  - constructor; try done.
    + by apply (ci_meta _ _ Hi1).
    + by apply (ci_cache _ _ Hi1).
    + intros c' Hin. change (c' ∈ collections s1 ∖ {[c]}) in Hin. apply elem_of_difference in Hin as [Hin Hne].
      rewrite lookup_delete_ne by set_solver. by apply (ci_known _ _ Hi1).
    + change (view_inv (view e') (unregistered_all c (index_manager s1)) (delete c d)).
      eapply view_inv_ext; [exact Hv'|]. by eapply drop_view.
  - intros c' x [Hne Hx]%lookup_delete_Some. change (doc_counts s3) with (counters_remove (doc_counts s1) c). unfold counters_remove.
    rewrite lookup_delete_ne by done. destruct Hs1 as (_ & -> & _). by apply Hc.
  - change (index_manager s3) with (unregistered_all c (index_manager s1)). by destruct Hs1 as (-> & _).
Qed.
End catalog.
