(* ===== verification/Indexing.v ===== *)
(** * Index creation, index removal and start-up

    [create_index] backfills the entries of the documents already stored and
    registers the index; [drop_index] undoes it; opening a data directory
    rebuilds the registry, the counters and the existence cache from what was
    committed. *)

From S2P Require Import Prelude Bytes F64 Json Errors Externals Filter Secondary Backend Index Storage Document Consistency Refinement Mutations Catalog.

Section indexing.
Context `{SerdeJson} `{!SerdeLaws} `{BackendLaws} `{StorageSerde} `{!StorageSerdeLaws} `{ScanAccelerator} `{RegexLib}.
Abbreviation keyview := (PartitionId -> bytes -> option bytes).
Abbreviation meta_p := (partition_of "_meta").

(** ** Backfill *)

Lemma backfill_fold fields def (l : list (string * Value)) acc : fields <> [] -> idx_fields def = fields ->
  Forall (fun x => get x.2 "_id" = Some (VString x.1)) l ->
  foldl (fun st x => (backfill_visit fields x.2 st).1) acc l = acc ++ omap (fun x => index_entry_key def x.1 x.2) l.
Proof.
  intros Hne Hf Hl. revert acc; induction Hl as [|x l Hx _ IH]; intros acc; cbn [foldl omap list_omap]; [by rewrite app_nil_r|].
  rewrite IH. unfold backfill_visit, index_entry_key, is_compound. rewrite Hx, Hf. cbn [mbind option_bind as_str fst].
  destruct (1 <? lenZ fields).
  - destruct (lenZ (omap _ fields) =? lenZ fields); [|done]. by rewrite <- app_assoc.
  - destruct (head fields) as [f|]; cbn; [|done]. destruct (resolve_json_path x.2 f); cbn; [|done]. by rewrite <- app_assoc.
Qed.

Definition publish_ops (p : PartitionId) (entries : list bytes) (key b : bytes) : list (batch_op PartitionId) :=
  ((fun k => BPut p k []) <$> entries) ++ [BPut meta_p key b].
Lemma publish_at (V : keyview) p entries key b q k : p <> meta_p ->
  after V (publish_ops p entries key b) q k =
  if decide (q = meta_p /\ k = key) then Some b
  else if decide (q = p /\ k ∈ entries) then Some [] else V q k.
Proof.
  intros Hp. unfold publish_ops. rewrite after_app. unfold after at 1. cbn [foldl op_effect].
  destruct (decide (meta_p = q /\ key = k)) as [[<- <-]|Hne]; [by rewrite decide_True|].
  rewrite (decide_False (P := q = meta_p /\ k = key)) by naive_solver.
  unfold after. rewrite (batch_puts q k []).
  2:{ apply Forall_fmap, Forall_forall. by do 2 eexists. }
  destruct (decide (q = p /\ k ∈ entries)) as [[-> Hin]|Hout].
  - rewrite decide_True; [done|]. by apply (list_elem_of_fmap_2 (fun k => BPut p k [])).
  - rewrite decide_False; [done|]. intros (j & [= -> ->] & Hj)%list_elem_of_fmap. by apply Hout.
Qed.

Lemma register_fresh m def p : (idx_collection def, idx_name def) ∉ m.*1 ->
  register m def p = m ++ [((idx_collection def, idx_name def), {| entry_def := def; entry_partition := p |})].
Proof.
  intros Hn. unfold register. f_equal. rewrite (List.filter_ext_in _ (fun _ => true)).
  - clear. induction m as [|kv m IH]; cbn; [done|]. by rewrite IH.
  - intros kv Hin. apply negb_true_iff, bool_decide_eq_false. intros E. apply Hn, list_elem_of_fmap.
    exists kv. split; [done|]. by apply list_elem_of_In.
Qed.

Lemma publish_view (V : keyview) m (d : db) docs def (l : list (string * Value)) b :
  let c := idx_collection def in let p := partition_of (index_name c (idx_name def)) in
  view_inv V m d -> d !! c = Some docs -> idx_fields def <> [] -> (c, idx_name def) ∉ m.*1 ->
  index_def_to_vec def = Some b -> utf8_valid (index_key c (idx_name def)) = true -> streamed docs l ->
  view_inv (after V (publish_ops p (omap (fun x => index_entry_key def x.1 x.2) l) (index_key c (idx_name def)) b))
    (register m def p) d.
Proof.
  intros c p HV Hd Hf Hn Hb Hu Hst. pose proof HV as [V1 V2 V3 V4 V5 V6 (R1 & R2 & R3)]. pose proof R2 as R2'.
  rewrite Forall_forall in R2'. destruct (V2 _ _ Hd) as [Hc Hok].
  set (entries := omap _ l). set (V' := after V _). rewrite register_fresh by done.
  assert (Hpm : p <> meta_p) by (intros ?%(inj partition_of)%index_meta_name; done).
  assert (E : forall q k, V' q k = if decide (q = meta_p /\ k = index_key c (idx_name def)) then Some b
    else if decide (q = p /\ k ∈ entries) then Some [] else V q k) by (intros; by apply publish_at).
  assert (Hsame : forall q k, q <> meta_p -> q <> p -> V' q k = V q k) by (intros; by rewrite E, !decide_False by naive_solver).
  assert (Hpart : forall kv, kv ∈ m -> entry_partition kv.2 <> p /\ entry_partition kv.2 <> meta_p).
  { intros kv Hin. destruct (R2' _ Hin) as (_ & Hs & Hp & _). rewrite Hp. split.
    - intros [E1 E2]%(inj partition_of)%index_name_inj; [|done..]. apply Hn, list_elem_of_fmap.
      exists kv. split; [|done]. destruct kv as [[] ?]; cbn in *. by subst.
    - by intros ?%(inj partition_of)%index_meta_name. }
  constructor.
  - intros c' Hs k v. rewrite Hsame; [by apply V1| |].
    + by intros ?%(inj partition_of)%docs_meta_name.
    + intros E'%(inj partition_of). revert E'. by apply docs_index_name.
  - done.
  - intros kv [Hin| ->%list_elem_of_singleton]%elem_of_app k v.
    + destruct (Hpart _ Hin). rewrite Hsame by done. by apply V3.
    + cbn [fst snd entry_partition entry_def]. change (idx_collection def) with c. rewrite (docs_of_c d c docs Hd).
      rewrite E, decide_False by naive_solver.
      assert (Hel : k ∈ entries <-> exists id doc, docs !! id = Some doc /\ index_entry_key def id doc = Some k).
      { unfold entries. rewrite list_elem_of_omap. destruct (streamed_ok docs l Hst Hok) as (_ & _ & Hl). split.
        - intros ([id doc] & Hx%Hl & Hk). eauto.
        - intros (id & doc & Hx & Hk). exists (id, doc). split; [by apply Hl|done]. }
      assert (Hpn : V p k = None) by (by apply V4). rewrite Hpn, <- Hel. case_decide; naive_solver.
  - intros c' n k Hs Hn'. rewrite fmap_app in Hn'. cbn in Hn'.
    assert ((c', n) ∉ m.*1 /\ (c', n) <> (c, idx_name def)) as [Hn1 Hn2] by set_solver.
    rewrite Hsame; [by apply V4|by intros ?%(inj partition_of)%index_meta_name|].
    intros [-> ->]%(inj partition_of)%index_name_inj; done.
  - intros k Hk. rewrite E. rewrite decide_False by (intros [_ ->]; by rewrite (index_not_collection c (idx_name def)) in Hk).
    rewrite decide_False by naive_solver. by apply V5.
  - intros k v Hk. rewrite E. destruct (decide (meta_p = meta_p /\ k = index_key c (idx_name def))) as [[_ ->]|Hne].
    + split.
      * intros [= <-]. eexists. split; [apply elem_of_app; right; by apply list_elem_of_singleton|]. done.
      * intros (kv & [Hin| ->%list_elem_of_singleton]%elem_of_app & Ek & Ev); [|by cbn in Ev; congruence].
        destruct (R2' _ Hin) as (_ & Hs & _). apply index_key_inj in Ek as [E1 E2]; [|done..]. exfalso.
        apply Hn, list_elem_of_fmap. exists kv. split; [|done]. destruct kv as [[] ?]; cbn in *. by subst.
    + rewrite decide_False by naive_solver. rewrite (V6 k v Hk). split; intros (kv & Hin & Ek & Ev); exists kv; split_and!; try done.
      * apply elem_of_app. by left.
      * apply elem_of_app in Hin as [|Hkv%list_elem_of_singleton]; [done|]. subst kv. by destruct Hne.
  - split_and!.
    + rewrite fmap_app. apply NoDup_app. split; [done|]. split; [|apply NoDup_singleton].
      intros x Hx ->%list_elem_of_singleton. done.
    + apply Forall_app. split; [done|]. apply Forall_singleton. split_and!; [done|done|done|done|by exists b|done].
    + apply Forall_app. split; [done|]. apply Forall_singleton. cbn. eauto.
Qed.

(** ** [create_index] *)

(** What the checks answer, from the registry and the collections. *)
Definition spec_create_index (now c name : string) (fields : list string) (m : IndexManager) (d : db) : res IndexDef :=
  match d !! c with
  | None => Err (CollectionNotFound c)
  | Some _ =>
      match fields with
      | [] => Err (InvalidIndex "Index must have at least one field")
      | field0 :: _ =>
          if bool_decide ((c, name) ∈ m.*1) then Err (IndexExists name) else
          if bool_decide (lenZ fields = 1) && bool_decide (is_Some (get_index_for_field m c field0))
          then Err (IndexExists ("An index on field '" +:+ field0 +:+ "' already exists"))
          else Ok (IndexDef_new name c fields now)
      end
  end.

Lemma meta_index_run s (d : db) c n : core_inv s d -> name_safe c ->
  exists o, meta_get (index_key c n) s = (Ok o, s) /\ (is_Some o <-> (c, n) ∈ (index_manager s).*1).
Proof.
  intros Hi Hc. eexists. split; [by apply (meta_get_ok s d)|]. apply (meta_index _ _ d); [|done]. by destruct Hi.
Qed.

Lemma create_index_ok current now c name fields s (d : db) : live current -> storage_inv s d ->
  utf8_valid (index_key c name) = true ->
  let out := spec_create_index now c name fields (index_manager s) d in
  exists s', create_index current now c name fields s = (out, s') /\ storage_inv s' d /\
    index_manager s' = match out with
                       | Ok def => register (index_manager s) def (partition_of (index_name c name))
                       | Err _ => index_manager s
                       end.
Proof.
  intros Hl [Hi Hcount] Hu out. unfold create_index, prepare_index, op_bind at 1 2.
  rewrite (check_ok s d) by done. unfold op_bind at 1.
  destruct (ensure_ok s d c Hi) as (s1 & E1 & Hi1 & Hs1). rewrite E1. unfold out, spec_create_index.
  destruct (d !! c) as [docs|] eqn:Hd.
  2:{ rewrite bool_decide_false by by intros []. exists s1. split; [done|]. split; [|by destruct Hs1].
      split; [done|]. by eapply same_counts. }
  rewrite bool_decide_true by eauto.
  destruct (vi_ok _ _ _ (ci_view _ _ Hi1) _ _ Hd) as [Hname Hok].
  assert (Hinv1 : storage_inv s1 d) by (split; [done|by eapply same_counts]).
  destruct fields as [|field0 fields]; [exists s1; split; [done|]; split; [done|by destruct Hs1]|].
  destruct (meta_index_run s1 d c name Hi1 Hname) as (o & Eo & Ho). unfold op_bind at 1. rewrite Eo.
  assert (Em : index_manager s1 = index_manager s) by by destruct Hs1. rewrite Em in Ho.
  destruct o as [v|].
  { rewrite (bool_decide_true ((c, name) ∈ (index_manager s).*1)) by (apply Ho; eauto). exists s1. by split_and!. }
  rewrite (bool_decide_false ((c, name) ∈ (index_manager s).*1)) by (intros Hin; by destruct (proj2 Ho Hin)).
  unfold op_bind at 1, op_gets. rewrite Em.
  destruct (bool_decide (lenZ (field0 :: fields) = 1) && _); [exists s1; by split_and!|].
  unfold op_bind at 1. destruct (create_partition_ok s1 d (index_name c name) Hi1) as (s2 & E2 & Hi2 & Hs2).
  rewrite E2. unfold op_bind at 1.
  set (def := IndexDef_new name c (field0 :: fields) now).
  destruct (for_each_core current c (backfill_visit (field0 :: fields)) [] s2 d docs) as (l & s3 & Hst & E3 & Hi3 & Hs3); [done..|].
  rewrite E3. cbn [op_ret fst snd]. unfold op_ret.
  destruct (streamed_ok docs l Hst Hok) as (_ & Hids & _).
  rewrite (backfill_fold (field0 :: fields) def) by done. rewrite app_nil_l.
  unfold publish_index, op_bind, op_lift, op_gets, op_modify. destruct (index_def_ser def) as [b Hb]. rewrite Hb. cbn [ok_or].
  assert (Em3 : index_manager s3 = index_manager s) by (destruct Hs3 as (-> & _), Hs2 as (-> & _); done).
  rewrite (ci_meta _ _ Hi3).
  pose proof Hi3 as [Hh _ _ _ Hview]. rewrite Em3 in Hview.
  set (ops := _ ++ [BPut meta_p _ b]).
  destruct (view_commit (eng s3) ops Hh) as (e' & Ee & Hh' & Hv').
  unfold commit_batch. rewrite Ee. unfold persist, op_engine. cbn [eng set_indexes set_eng].
  rewrite flush_spec by done. cbn [lift_be map_err]. eexists. split; [done|].
  split; [|cbn; by rewrite Em3]. split.
  - constructor; try done; [by apply (ci_meta _ _ Hi3)|by apply (ci_cache _ _ Hi3)|by apply (ci_known _ _ Hi3)|].
    cbn [eng set_indexes set_eng index_manager]. rewrite Em3. eapply view_inv_ext; [exact Hv'|].
    apply (publish_view _ _ d docs def); try done. intros Hin. by destruct (proj2 Ho Hin).
  - assert (Hcs : counts_ok s3 d).
    { eapply same_counts; [exact Hs3|]. eapply same_counts; [exact Hs2|]. by eapply same_counts. }
    done.
Qed.

(** ** [drop_index] *)

Definition spec_drop_index (c name : string) (m : IndexManager) (d : db) : res unit :=
  match d !! c with
  | None => Err (CollectionNotFound c)
  | Some _ => if bool_decide ((c, name) ∈ m.*1) then Ok tt else Err (IndexNotFound (c +:+ "/" +:+ name))
  end.

Lemma elem_unregister m c name kv : kv ∈ unregister m c name <-> kv ∈ m /\ kv.1 <> (c, name).
Proof. unfold unregister. by rewrite elem_of_List_filter, negb_true_iff, bool_decide_eq_false. Qed.

Lemma unregister_view e m (d : db) c name kv0 : healthy e -> view_inv (view e) m d ->
  kv0 ∈ m -> kv0.1 = (c, name) ->
  view_inv (after (view e) (((fun k => BDel (entry_partition kv0.2) k) <$> (fst <$> contents e (entry_partition kv0.2)))
    ++ [BDel meta_p (index_key c name)])) (unregister m c name) d.
Proof.
  intros Hh HV Hin0 Hk0. pose proof HV as [V1 V2 V3 V4 V5 V6 (R1 & R2 & R3)]. pose proof R2 as R2'.
  rewrite Forall_forall in R2'. set (p := entry_partition kv0.2). set (ops := _ ++ _). set (V' := after (view e) ops).
  destruct (R2' _ Hin0) as (_ & Hc0 & Hp0 & _). rewrite Hk0 in Hc0, Hp0. cbn in Hc0, Hp0.
  assert (Hpm : p <> meta_p) by (unfold p; rewrite Hp0; intros ?%(inj partition_of)%index_meta_name; done).
  assert (E : forall q k, V' q k = if decide (q = p \/ q = meta_p /\ k = index_key c name) then None else view e q k).
  { intros q k. unfold V', after. rewrite batch_dels.
    2:{ apply Forall_app. split; [|apply Forall_singleton; by do 2 eexists].
        apply Forall_fmap, Forall_forall. by do 2 eexists. }
    assert (Hel : BDel q k ∈ ops <-> q = p /\ is_Some (view e p k) \/ q = meta_p /\ k = index_key c name).
    { unfold ops. rewrite elem_of_app, list_elem_of_singleton, list_elem_of_fmap. fold p.
      setoid_rewrite (elem_keys e p _ Hh). split.
      - intros [(j & [-> ->]%bdel_inj & Hj)|[-> ->]%bdel_inj]; naive_solver.
      - intros [[-> Hj]|[-> ->]]; [left|right]; eauto. }
    case_decide as Ho; case_decide as Hq; try done.
    - apply Hel in Ho. naive_solver.
    - destruct Hq as [->|Hq]; [|exfalso; apply Ho, Hel; by right].
      destruct (view e p k) eqn:Ev; [|done]. exfalso. apply Ho, Hel. left. split; [done|]. eauto. }
  assert (Hsame : forall q k, q <> meta_p -> q <> p -> V' q k = view e q k) by (intros; by rewrite E, decide_False by naive_solver).
  assert (Hneq : forall kv, kv ∈ m -> kv.1 <> (c, name) -> entry_partition kv.2 <> p).
  { intros kv Hin Hne E'. apply Hne. rewrite <- Hk0. f_equal. by apply (partition_inj m d). }
  constructor.
  - intros c' Hs k v. rewrite Hsame; [by apply V1| |].
    + by intros ?%(inj partition_of)%docs_meta_name.
    + unfold p. rewrite Hp0. intros E'%(inj partition_of). revert E'. by apply docs_index_name.
  - done.
  - intros kv [Hin Hne]%elem_unregister k v. rewrite Hsame; [by apply V3| |by apply Hneq].
    destruct (R2' _ Hin) as (_ & _ & -> & _). by intros ?%(inj partition_of)%index_meta_name.
  - intros c' n k Hs Hn. rewrite E. case_decide as Hq; [done|]. apply V4; [done|].
    intros (kv & Ek & Hin)%list_elem_of_fmap. destruct (decide (kv.1 = (c, name))) as [Hkv|Hkv].
    + apply Hq. left. rewrite Hkv in Ek. injection Ek as -> ->. unfold p. by rewrite Hp0.
    + apply Hn, list_elem_of_fmap. exists kv. split; [done|]. by apply elem_unregister.
  - intros k Hk. rewrite E, decide_False; [by apply V5|]. intros [Eq|[_ ->]]; [done|].
    by rewrite (index_not_collection c name) in Hk.
  - intros k v Hk. rewrite E. case_decide as Hq.
    + split; [done|]. intros (kv & [Hin Hne]%elem_unregister & -> & _). exfalso. destruct Hq as [Eq|[_ Ek]]; [done|].
      destruct (R2' _ Hin) as (_ & Hs & _). apply index_key_inj in Ek as [E1 E2]; [|done..]. apply Hne.
      destruct kv as [[] ?]; cbn in *. by subst.
    + rewrite (V6 k v Hk). split; intros (kv & Hin & -> & Hv); exists kv; split_and!; try done.
      * apply elem_unregister. split; [done|]. intros Ekv. apply Hq. right. by rewrite Ekv.
      * by apply elem_unregister in Hin as [].
  - assert (Hsub : forall kv, kv ∈ unregister m c name -> kv ∈ m) by (by intros kv [? _]%elem_unregister).
    split_and!.
    + unfold unregister. clear -R1. induction m as [|kv m IH]; [constructor|]. rewrite fmap_cons in R1.
      inversion R1 as [|? ? Hkv R1']; subst. cbn. case_bool_decide; cbn; [by apply IH|].
      constructor; [|by apply IH]. intros (x & Ex & [Hx _]%elem_of_List_filter)%list_elem_of_fmap.
      apply Hkv, list_elem_of_fmap. by exists x.
    + apply Forall_forall. auto.
    + apply Forall_forall. intros kv Hkv. by apply (proj1 (Forall_forall _ _) R3), Hsub.
Qed.

Lemma drop_index_ok c name s (d : db) : storage_inv s d ->
  let out := spec_drop_index c name (index_manager s) d in
  exists s', drop_index c name s = (out, s') /\ storage_inv s' d /\
    index_manager s' = match out with Ok _ => unregister (index_manager s) c name | Err _ => index_manager s end.
Proof.
  intros [Hi Hcount] out. unfold drop_index, op_bind at 1 2. rewrite (check_ok s d) by done.
  destruct (ensure_ok s d c Hi) as (s1 & E1 & Hi1 & Hs1). rewrite E1. unfold out, spec_drop_index.
  assert (Em : index_manager s1 = index_manager s) by by destruct Hs1.
  assert (Hcount1 : counts_ok s1 d) by by eapply same_counts.
  destruct (d !! c) as [docs|] eqn:Hd; [rewrite bool_decide_true by eauto|by rewrite bool_decide_false by (by intros []); exists s1].
  pose proof Hi1 as [Hh _ _ _ Hview]. destruct (vi_ok _ _ _ Hview _ _ Hd) as [Hname Hok].
  destruct (meta_index_run s1 d c name Hi1 Hname) as (o & Eo & Ho). unfold op_bind at 1. rewrite Eo. rewrite Em in Ho.
  destruct o as [v|].
  2:{ rewrite (bool_decide_false (is_Some None)) by (by intros []). cbn [negb].
      rewrite (bool_decide_false ((c, name) ∈ (index_manager s).*1)) by (intros Hin; by destruct (proj2 Ho Hin)).
      by exists s1. }
  rewrite (bool_decide_true (is_Some (Some v))) by eauto. cbn [negb].
  assert (Hreg : (c, name) ∈ (index_manager s).*1) by (apply Ho; eauto).
  rewrite (bool_decide_true ((c, name) ∈ (index_manager s).*1)) by done.
  apply list_elem_of_fmap in Hreg as (kv & Ekv & Hkv). rewrite <- Em in Hkv.
  destruct (vi_registry _ _ _ Hview) as (Hnd & Hr & Hdom). destruct (proj1 (Forall_forall _ _) Hr kv Hkv) as (Ek & _).
  pose proof (index_partition_in _ d kv (vi_registry _ _ _ Hview) Hkv) as Ep.
  assert (Ec : c = kv.1.1 /\ name = idx_name (entry_def kv.2)) by (rewrite Ek in Ekv |- *; by injection Ekv as -> ->).
  destruct Ec as [Ec En]. rewrite <- Ec, <- En in Ep.
  unfold op_bind, op_gets, op_lift, op_modify. rewrite Ep. cbn [ok_or]. unfold op_engine at 1.
  rewrite collect_keys_ok by done. cbn [lift_be map_err]. rewrite (ci_meta _ _ Hi1).
  set (ops := _ ++ [BDel meta_p _]). destruct (view_commit (eng s1) ops Hh) as (e' & Ee & Hh' & Hv').
  unfold commit_batch. rewrite Ee. unfold persist, op_engine. cbn [eng set_indexes set_eng].
  rewrite flush_spec by done. cbn [lift_be map_err]. eexists. split; [done|].
  split; [|cbn; by rewrite Em]. split; [|done].
  constructor; try done; [by apply (ci_meta _ _ Hi1)|by apply (ci_cache _ _ Hi1)|by apply (ci_known _ _ Hi1)|].
  cbn [eng set_indexes set_eng index_manager]. eapply view_inv_ext; [exact Hv'|]. by apply unregister_view.
Qed.
End indexing.
