(* ===== verification/Recovery.v ===== *)
(** * Listing and reopening

    The registry is read back by prefix scans: [list_collections] gives every
    collection once, in name order; opening a data directory rebuilds an
    in-memory state that represents the same database. *)

From S2P Require Import Prelude Bytes F64 Json Errors Externals Filter Secondary Backend Index Storage Document Consistency Refinement Mutations Catalog.

Section recovery.
Context `{SerdeJson} `{!SerdeLaws} `{BackendLaws} `{StorageSerde} `{!StorageSerdeLaws} `{ScanAccelerator} `{RegexLib}.
Abbreviation meta_p := (partition_of "_meta").

Lemma list_choice {A B} (R : A -> B -> Prop) (l : list A) :
  (forall x, x ∈ l -> exists y, R x y) -> exists k, Forall2 R l k.
Proof.
  induction l as [|x l IH]; intros Hl; [exists []; constructor|].
  destruct (Hl x) as [y Hy]; [by left|]. destruct IH as [k Hk]; [intros z Hz; apply Hl; by right|].
  exists (y :: k). by constructor.
Qed.
Lemma Forall2_fst_eq {B} (f : B -> bytes) (l : list entry) (k : list B) :
  Forall2 (fun e y => e.1 = f y) l k -> l.*1 = f <$> k.
Proof. induction 1 as [|e y l k E _ IH]; cbn; [done|]. by rewrite E, IH. Qed.
Lemma sorted_keys_NoDup (l : list entry) : StronglySorted entry_lt l -> NoDup l.*1.
Proof.
  induction 1 as [|e l Hs IH Hx]; cbn; [constructor|]. constructor; [|done].
  intros (e' & E & Hin)%list_elem_of_fmap. rewrite Forall_forall in Hx. specialize (Hx _ Hin).
  unfold entry_lt in Hx. rewrite E in Hx. by rewrite (cmp_refl bytes_cmp) in Hx.
Qed.
Lemma prefix_entries e p q x : healthy e -> x ∈ List.filter (has_prefix q) (contents e p) <->
  view e p x.1 = Some x.2 /\ starts_with x.1 q = true.
Proof.
  intros Hh. rewrite elem_of_List_filter. destruct x as [k v]. by rewrite view_elem.
Qed.

(** ** The collection registry *)

Lemma strip_prefix_app p s : strip_prefix p (p +:+ s) = Some s.
Proof.
  unfold strip_prefix. rewrite str_bytes_app, starts_with_app, drop_app_length. by rewrite bytes_str_str_bytes.
Qed.
Lemma collection_names_ok s (d : db) : core_inv s d -> exists names,
  collection_names s = (Ok names, s) /\ StronglySorted (fun a b => str_cmp a b = Lt) names /\
  forall c, c ∈ names <-> is_Some (d !! c).
Proof.
  intros Hi. pose proof Hi as [Hh Hm _ _ Hview].
  set (L := List.filter (has_prefix (str_bytes "collection:")) (contents (eng s) meta_p)).
  assert (HL : forall x, x ∈ L -> exists c, x.1 = collection_key c /\ is_Some (d !! c)).
  { intros [k v] [Hv Hk]%prefix_entries; [|done]. cbn in *.
    destruct (proj1 (vi_cols _ _ _ Hview k Hk)) as (c & Hc & ->); [by exists v|]. by exists c. }
  destruct (list_choice (fun (x : entry) c => x.1 = collection_key c /\ is_Some (d !! c)) L HL) as [names Hf].
  assert (Hkeys : L.*1 = collection_key <$> names).
  { apply Forall2_fst_eq. eapply Forall2_impl; [exact Hf|]. by intros ?? []. }
  assert (Hsorted : StronglySorted entry_lt L) by (by apply sorted_filter, contents_sorted).
  exists names. split; [|split].
  - unfold collection_names, op_lift. rewrite Hm, scan_prefix_spec, visit_scan_ok by done. fold L.
    assert (Hfold : forall acc, fold_entries names_visit L (acc, None) = (acc ++ names, None)).
    { clear Hkeys Hsorted HL. clearbody L. induction Hf as [|[k v] c L names [Ek Hc] _ IH]; intros acc; cbn; [by rewrite app_nil_r|].
      cbn in Ek. subst k. unfold names_visit. destruct Hc as [docs Hd].
      destruct (vi_ok _ _ _ Hview _ _ Hd) as [(_ & _ & Hu) _]. unfold from_utf8. rewrite Hu.
      unfold collection_key. rewrite bytes_str_str_bytes, strip_prefix_app. cbn. by rewrite IH, <- app_assoc. }
    by rewrite (Hfold []).
  - clear -Hsorted Hf. clearbody L. induction Hf as [|x c L names [Ex _] Hf IH]; [constructor|].
    inversion Hsorted as [|? ? Hs Hx]; subst. constructor; [by apply IH|]. apply Forall_forall. intros c' Hin.
    destruct (Forall2_in_r _ _ _ _ Hf Hin) as (x' & Hx' & Ex' & _). rewrite Forall_forall in Hx.
    specialize (Hx _ Hx'). unfold entry_lt in Hx. rewrite Ex, Ex' in Hx. unfold collection_key in Hx.
    rewrite !str_bytes_app, bytes_cmp_app in Hx. exact Hx.
  - intros c. split.
    + intros Hin. by destruct (Forall2_in_r _ _ _ _ Hf Hin) as (x & _ & _ & Hd).
    + intros Hd. assert (Hv : is_Some (view (eng s) meta_p (collection_key c))) by (by apply (meta_collection s d)).
      destruct Hv as [v Hv]. assert (Hin : (collection_key c, v) ∈ L).
      { apply prefix_entries; [done|]. split; [done|apply collection_key_prefix]. }
      apply (list_elem_of_fmap_2 fst) in Hin. rewrite Hkeys in Hin. cbn in Hin.
      apply list_elem_of_fmap in Hin as (c' & ->%collection_key_inj & Hin). done.
Qed.

(** ** Loading the indexes *)

Lemma view_inv_perm V m m' (d : db) : m ≡ₚ m' -> view_inv V m d -> view_inv V m' d.
Proof.
  intros Hp [V1 V2 V3 V4 V5 V6 (R1 & R2 & R3)]. constructor; try done.
  - intros kv Hin. apply V3. by rewrite Hp.
  - intros c n k Hs Hn. apply V4; [done|]. by rewrite Hp.
  - intros k v Hk. rewrite (V6 k v Hk). by setoid_rewrite Hp.
  - split_and!; by rewrite <- Hp.
Qed.

Definition defs_scan (e : engine) (m : IndexManager) : Prop :=
  exists kvs, kvs ≡ₚ m /\
    visit_scan defs_visit (be_scan_prefix e meta_p (str_bytes "index:")) ([], None) =
    Ok ((fun kv : (string * string) * IndexEntry => entry_def kv.2) <$> kvs, None).
Lemma defs_scan_ok e m (d : db) : healthy e -> view_inv (view e) m d -> defs_scan e m.
Proof.
  intros Hh HV. pose proof HV as [_ _ _ _ _ V6 (R1 & R2 & _)]. rewrite Forall_forall in R2.
  set (L := List.filter (has_prefix (str_bytes "index:")) (contents e meta_p)).
  assert (HL : forall x, x ∈ L -> exists kv, x.1 = index_key kv.1.1 kv.1.2 /\ kv ∈ m /\ index_def_to_vec (entry_def kv.2) = Some x.2).
  { intros [k v] [Hv Hk]%prefix_entries; [|done]. cbn in *. apply (V6 k v Hk) in Hv as (kv & Hin & -> & Hb). by exists kv. }
  destruct (list_choice _ L HL) as [kvs Hf]. exists kvs. split.
  - assert (Hkeys : L.*1 = (fun kv : (string * string) * IndexEntry => index_key kv.1.1 kv.1.2) <$> kvs).
    { apply Forall2_fst_eq. eapply Forall2_impl; [exact Hf|]. by intros ?? []. }
    assert (Hnd : NoDup L.*1) by (by apply sorted_keys_NoDup, sorted_filter, contents_sorted).
    apply NoDup_Permutation.
    + rewrite Hkeys in Hnd. by apply NoDup_fmap_1 in Hnd.
    + by apply (NoDup_fmap_1 fst).
    + intros kv. split.
      * intros Hin. by destruct (Forall2_in_r _ _ _ _ Hf Hin) as (x & _ & _ & ? & _).
      * intros Hin. destruct (R2 _ Hin) as (_ & Hs & _ & _ & [b Hb] & _).
        assert (HinL : (index_key kv.1.1 kv.1.2, b) ∈ L).
        { apply prefix_entries; [done|]. split; [|apply index_key_prefix]. apply V6; [apply index_key_prefix|]. eauto. }
        apply (list_elem_of_fmap_2 fst) in HinL. rewrite Hkeys in HinL. cbn in HinL.
        apply list_elem_of_fmap in HinL as (kv' & Ek & Hin').
        destruct (Forall2_in_r _ _ _ _ Hf Hin') as (x & _ & _ & Hm' & _). destruct (R2 _ Hm') as (_ & Hs' & _).
        apply index_key_inj in Ek as [E1 E2]; [|done..]. assert (kv' = kv) as <-; [|done].
        apply (NoDup_fmap_inj_on fst m); [done..|]. destruct kv as [[] ?], kv' as [[] ?]; cbn in *. by subst.
  - rewrite scan_prefix_spec, visit_scan_ok by done. fold L. f_equal.
    assert (Hfold : forall acc, fold_entries defs_visit L (acc, None) = (acc ++ ((fun kv : (string * string) * IndexEntry => entry_def kv.2) <$> kvs), None)).
    { clear HL. clearbody L. induction Hf as [|[k v] kv L kvs (Ek & Hin & Hb) _ IH]; intros acc; cbn [fold_entries fmap list_fmap]; [by rewrite app_nil_r|].
      cbn in Ek, Hb. subst k. destruct (R2 _ Hin) as (_ & _ & _ & Hne & _ & Hu).
      unfold defs_visit at 1. unfold from_utf8. rewrite Hu, (index_def_round_trip _ _ Hb).
      destruct (idx_fields (entry_def kv.2)) as [|f fs]; [done|]. cbn [fst snd]. by rewrite IH, <- app_assoc. }
    by rewrite (Hfold []).
Qed.

Lemma registered_eq kv : registered kv ->
  kv = ((idx_collection (entry_def kv.2), idx_name (entry_def kv.2)),
    {| entry_def := entry_def kv.2;
       entry_partition := partition_of (index_name (idx_collection (entry_def kv.2)) (idx_name (entry_def kv.2))) |}).
Proof.
  destruct kv as [[a b] [def p]]. intros (Ek & _ & Ep & _). cbn in *. injection Ek as -> ->. by subst.
Qed.
Lemma load_defs_ok (kvs : IndexManager) : forall s, healthy (eng s) -> Forall registered kvs ->
  NoDup (index_manager s ++ kvs).*1 ->
  exists s', load_defs ((fun kv => entry_def kv.2) <$> kvs) s = (Ok tt, s') /\ healthy (eng s') /\
    (forall p k, view (eng s') p k = view (eng s) p k) /\ index_manager s' = index_manager s ++ kvs /\
    meta s' = meta s /\ partitions s' = partitions s /\ collections s' = collections s /\ doc_counts s' = doc_counts s.
Proof.
  induction kvs as [|kv kvs IH]; intros s Hh Hr Hnd.
  { exists s. rewrite app_nil_r. by split_and!. }
  cbn [fmap list_fmap load_defs]. unfold op_bind at 1.
  inversion Hr as [|? ? Hkv Hr']; subst. pose proof Hkv as (Ek & _).
  destruct (open_spec (eng s) (index_name (idx_collection (entry_def kv.2)) (idx_name (entry_def kv.2))) Hh) as (e' & -> & Hh' & He).
  set (s1 := set_indexes _ _).
  assert (Hreg : index_manager s1 = index_manager s ++ [kv]).
  { unfold s1. cbn. unfold register. f_equal.
    - rewrite (List.filter_ext_in _ (fun _ => true)).
      + clear. induction (index_manager s) as [|x m IH]; cbn; [done|]. by rewrite IH.
      + intros x Hx. apply negb_true_iff, bool_decide_eq_false. intros E. rewrite fmap_app in Hnd.
        apply NoDup_app in Hnd as (_ & Hnd & _). apply (Hnd x.1); [apply list_elem_of_fmap; exists x; split; [done|by apply list_elem_of_In]|].
        rewrite E, <- Ek. by left.
    - f_equal. symmetry. by apply registered_eq. }
  destruct (IH s1) as (s' & E & Hh2 & Hv & Hm & A1 & A2 & A3 & A4); [done|done|by rewrite Hreg, <- app_assoc|].
  exists s'. split; [exact E|]. split; [done|]. split.
  { intros p k. rewrite Hv. unfold s1, view. cbn. by rewrite He. }
  split; [by rewrite Hm, Hreg, <- app_assoc|]. by rewrite A1, A2, A3, A4.
Qed.

(** ** Seeding the counters *)

Lemma has_prefix_nil (l : list entry) : List.filter (has_prefix []) l = l.
Proof.
  induction l as [|e l IH]; [done|]. cbn [List.filter].
  assert (has_prefix [] e = true) as -> by (apply starts_with_spec; by exists e.1). by rewrite IH.
Qed.
Lemma seed_counts_ok (d : db) names : (forall c, c ∈ names -> is_Some (d !! c)) ->
  forall s, core_inv s d -> exists s', seed_counts names s = (Ok tt, s') /\ core_inv s' d /\
    index_manager s' = index_manager s /\
    (forall c docs, c ∈ names -> d !! c = Some docs -> doc_counts s' !! c = Some (wrap_i64 (Z.of_nat (size docs)))) /\
    (forall c, c ∉ names -> doc_counts s' !! c = doc_counts s !! c).
Proof.
  induction names as [|c names IH]; intros Hn s Hi.
  { exists s. split_and!; try done. by intros ?? ?%elem_of_nil. }
  cbn [seed_counts]. unfold op_bind at 1.
  destruct (create_partition_ok s d (docs_name c) Hi) as (s1 & E1 & Hi1 & Hs1). rewrite E1.
  destruct (Hn c ltac:(by left)) as [docs Hd]. pose proof Hi1 as [Hh _ _ _ Hview].
  destruct (vi_ok _ _ _ Hview _ _ Hd) as [Hname Hok].
  pose proof (vi_docs _ _ _ Hview c Hname) as Hdv. rewrite (docs_of_c d c docs Hd) in Hdv.
  destruct (streamed_contents _ _ _ Hh Hdv Hok) as (l & [Hp _] & Hf2).
  assert (Hlen : lenZ (contents (eng s1) (partition_of (docs_name c))) = Z.of_nat (size docs)).
  { unfold lenZ. by rewrite (Forall2_length _ _ _ Hf2), Hp, length_map_to_list. }
  unfold op_bind at 1, op_engine. rewrite count_prefix_spec, has_prefix_nil, Hlen by done. cbn [lift_be map_err].
  unfold op_bind, op_modify. set (s2 := set_collections _ _).
  assert (Hi2 : core_inv s2 d).
  { destruct Hi1 as [A1 A2 A3 A4 A5]. constructor; try done. intros c' Hin. unfold s2 in Hin. cbn in Hin.
    apply elem_of_union in Hin as [->%elem_of_singleton|Hin]; [eauto|by apply A4]. }
  destruct (IH ltac:(intros x Hx; apply Hn; by right) s2 Hi2) as (s' & E & Hi' & Hm & Hc1 & Hc2).
  exists s'. split; [exact E|]. split; [done|]. split; [rewrite Hm; by destruct Hs1|].
  assert (Hc2' : doc_counts s2 = <[c := wrap_i64 (Z.of_nat (size docs))]> (doc_counts s)) by (unfold s2; cbn; by destruct Hs1 as (_ & -> & _)).
  split.
  - intros c' docs' Hin Hd'. destruct (decide (c' ∈ names)) as [Hin'|Hout]; [by apply Hc1|].
    apply elem_of_cons in Hin as [->|]; [|done]. rewrite Hc2, Hc2', lookup_insert_eq by done. congruence.
  - intros c' Hout. rewrite Hc2, Hc2', lookup_insert_ne by set_solver. done.
Qed.

(** Reopening on what the engine holds. *)
Lemma open_ok s (d : db) marker written engine_type : core_inv s d ->
  check_engine_marker marker engine_type = Ok tt -> write_engine_marker marker written = Ok tt ->
  exists s', open_with_config marker written engine_type (Ok (eng s)) = Ok s' /\ storage_inv s' d /\
    index_manager s' ≡ₚ index_manager s.
Proof.
  intros Hi Hm Hw. pose proof Hi as [Hh _ _ _ Hview]. unfold open_with_config. rewrite Hm. cbn [mbind result_bind lift_be map_err].
  rewrite Hw. cbn [mbind result_bind].
  destruct (open_spec (eng s) "_meta" Hh) as (e1 & -> & Hh1 & He1). cbn [lift_be map_err mbind result_bind fst snd].
  set (s0 := {| eng := e1 |}).
  assert (HV1 : view_inv (view e1) (index_manager s) d).
  { eapply view_inv_ext; [|exact Hview]. intros p k. unfold view. by rewrite He1. }
  destruct (defs_scan_ok e1 _ _ Hh1 HV1) as (kvs & Hp & Hscan).
  destruct (vi_registry _ _ _ HV1) as (R1 & R2 & _).
  destruct (load_defs_ok kvs s0) as (s1 & E1 & Hh2 & Hv1 & Hm1 & A1 & A2 & A3 & A4); [done|by rewrite Hp|cbn; by rewrite Hp|].
  unfold op_bind at 1, load_indexes, op_bind at 1, op_lift. cbn [eng meta s0].
  change (meta s0) with meta_p. change (eng s0) with e1. rewrite Hscan. cbn [mbind result_bind]. rewrite E1.
  assert (Hi1 : core_inv s1 d).
  { constructor.
    - done.
    - by rewrite A1.
    - intros n p. rewrite A2. change (partitions s0) with (∅ : gmap string PartitionId). by rewrite lookup_empty.
    - intros c. rewrite A3. change (collections s0) with (∅ : gset string). by intros ?%elem_of_empty.
    - rewrite Hm1. apply (view_inv_perm _ (index_manager s)); [by symmetry|]. eapply view_inv_ext; [exact Hv1|exact HV1]. }
  unfold initialize_doc_counts, op_bind.
  destruct (collection_names_ok s1 d Hi1) as (names & En & _ & Hn). rewrite En.
  destruct (seed_counts_ok d names ltac:(intros c Hc; by apply Hn) s1 Hi1) as (s2 & E2 & Hi2 & Hm2 & Hc2 & _).
  rewrite E2. exists s2. split; [done|]. split; [|by rewrite Hm2, Hm1].
  split; [done|]. intros c docs Hd. apply Hc2; [|done]. apply Hn. eauto.
Qed.
End recovery.
