(* ===== verification/History.v ===== *)
(** * Histories of requests

    Requests one after another: the refinement of every operation, composed.
    The abstract state is the registry of indexes with the map of documents;
    [exec] runs the program, [spec] the specification. *)

From S2P Require Import Prelude Bytes F64 Json Errors Externals Filter Secondary Backend Index Storage Document Consistency Refinement Mutations Bulk Catalog Indexing Recovery.

Create HintDb keeps.

(** ** Operations that leave the registry of indexes alone *)

Section keeps.
Context `{SerdeJson} `{StorageBackend} `{StorageSerde} `{ScanAccelerator} `{RegexLib}.

Definition keeps {A} (m : Op A) : Prop := forall s, index_manager (m s).2 = index_manager s.

Lemma keeps_bind {A B} (m : Op A) (f : A -> Op B) : keeps m -> (forall a, keeps (f a)) -> keeps (op_bind m f).
Proof.
  intros Hm Hf s. unfold op_bind. specialize (Hm s). destruct (m s) as [[a|e] s']; cbn in *; [|done].
  by rewrite Hf.
Qed.
Lemma keeps_ret {A} (a : A) : keeps (op_ret a).
Proof. by intros s. Qed.
Lemma keeps_fail {A} e : keeps (op_fail (A := A) e).
Proof. by intros s. Qed.
Lemma keeps_lift {A} (r : res A) : keeps (op_lift r).
Proof. by intros s. Qed.
Lemma keeps_gets {A} (f : Storage -> A) : keeps (op_gets f).
Proof. by intros s. Qed.
Lemma keeps_engine {A} (f : engine -> BackendResult A) : keeps (op_engine f).
Proof. by intros s. Qed.
Lemma keeps_meta key : keeps (meta_get key).
Proof. by intros s. Qed.
Lemma keeps_counts f : keeps (op_modify (fun s => set_counts s (f s))).
Proof. by intros s. Qed.
Lemma keeps_accel f : keeps (op_modify (fun s => set_accel s (f s))).
Proof. by intros s. Qed.
Lemma keeps_collections f : keeps (op_modify (fun s => set_collections s (f s))).
Proof. by intros s. Qed.
Lemma keeps_check : keeps check_not_poisoned.
Proof. intros s. unfold check_not_poisoned. by destruct (is_poisoned s). Qed.
Lemma keeps_partition n : keeps (create_partition n).
Proof.
  intros s. unfold create_partition. destruct (partitions s !! n); [done|].
  by destruct (be_create_or_open_partition (eng s) n) as [[]|].
Qed.
Lemma keeps_commit ops : keeps (commit_batch ops).
Proof. intros s. unfold commit_batch. by destruct (be_commit_batch (eng s) ops). Qed.
End keeps.
#[export] Hint Resolve keeps_bind keeps_ret keeps_fail keeps_lift keeps_gets keeps_engine keeps_meta keeps_counts
  keeps_accel keeps_collections keeps_check keeps_partition keeps_commit : keeps.
(** Walks through an operation's binds and matches. *)
Ltac solve_keeps := repeat first [progress eauto with keeps | apply keeps_bind; [|intros ?] | case_match].

Section kept.
Context `{SerdeJson} `{StorageBackend} `{StorageSerde} `{ScanAccelerator} `{RegexLib}.

Lemma keeps_exists c : keeps (collection_exists c).
Proof.
  intros s. unfold collection_exists. case_bool_decide; [done|].
  apply (keeps_bind (meta_get _)); [solve_keeps|]. intros o. solve_keeps.
Qed.
Lemma keeps_ensure c : keeps (ensure_collection_exists c).
Proof. apply keeps_bind; [apply keeps_exists|]. intros. solve_keeps. Qed.
Hint Resolve keeps_ensure : keeps.
Lemma keeps_docs c : keeps (get_docs_partition c).
Proof. apply keeps_partition. Qed.
Hint Resolve keeps_docs : keeps.
Lemma keeps_get c id : keeps (get_document c id).
Proof. unfold get_document, op_get, op_parse. solve_keeps. Qed.
Lemma keeps_insert now uuid c doc : keeps (insert_document now uuid c doc).
Proof. unfold insert_document, resolve_id, op_get. solve_keeps. Qed.
Lemma keeps_read p id : keeps (read_existing p id).
Proof. unfold read_existing, op_get, op_parse. solve_keeps. Qed.
Lemma keeps_replace_loaded now c id p old doc : keeps (replace_loaded now c id p old doc).
Proof. unfold replace_loaded. solve_keeps. Qed.
Hint Resolve keeps_read keeps_replace_loaded : keeps.
Lemma keeps_replace now c id doc : keeps (replace_document now c id doc).
Proof. unfold replace_document. solve_keeps. Qed.
Lemma keeps_partial now c id patch : keeps (partial_update_document now c id patch).
Proof. unfold partial_update_document. solve_keeps. Qed.
Lemma keeps_delete c id : keeps (delete_document c id).
Proof. unfold delete_document. solve_keeps. Qed.
Lemma keeps_for_each {S} current c (visit : Value -> S -> S * control_flow) s0 :
  keeps (for_each_document current c visit s0).
Proof.
  unfold for_each_document. apply keeps_bind; [solve_keeps|]. intros _. apply keeps_bind; [solve_keeps|].
  intros p s. repeat case_match; done.
Qed.
Lemma keeps_matching current c f : keeps (matching_ids current c f).
Proof. apply keeps_for_each. Qed.
Hint Resolve keeps_matching : keeps.
Lemma keeps_chunk {A} f p (stage : string -> Value -> res (list (batch_op PartitionId) * A)) ids batch acc :
  keeps (chunk_scan f p stage ids batch acc).
Proof.
  revert batch acc; induction ids as [|id ids IH]; intros batch acc; cbn [chunk_scan]; [solve_keeps|].
  unfold op_get, op_parse. solve_keeps.
Qed.
Hint Resolve keeps_chunk : keeps.
Lemma keeps_delete_chunks c f p cs n : keeps (delete_chunks c f p cs n).
Proof. revert n; induction cs as [|chunk cs IH]; intros n; cbn [delete_chunks]; solve_keeps. Qed.
Lemma keeps_update_chunks c f fields now p cs n : keeps (update_chunks c f fields now p cs n).
Proof. revert n; induction cs as [|chunk cs IH]; intros n; cbn [update_chunks]; solve_keeps. Qed.
Hint Resolve keeps_delete_chunks keeps_update_chunks : keeps.
Lemma keeps_delete_by_query current c f : keeps (delete_by_query current c f).
Proof. unfold delete_by_query. solve_keeps. Qed.
Lemma keeps_update_by_query current now c f u : keeps (update_by_query current now c f u).
Proof. unfold update_by_query. solve_keeps. Qed.
Lemma keeps_bulk now uuid c docs : keeps (bulk_insert_documents now uuid c docs).
Proof. unfold bulk_insert_documents. solve_keeps. Qed.
Lemma keeps_create_collection now c : keeps (create_collection now c).
Proof.
  unfold create_collection. solve_keeps. intros s. cbn. by case_match.
Qed.
End kept.

(** ** Requests *)

Inductive request :=
| RCreateCollection (now c : string)
| RDropCollection (c : string)
| RInsert (now uuid c : string) (doc : Value)
| RBulkInsert (now uuid : nat -> string) (c : string) (documents : list Value)
| RGet (c id : string)
| RReplace (now c id : string) (doc : Value)
| RPartialUpdate (now c id : string) (patch : Value)
| RDelete (c id : string)
| RDeleteByQuery (c : string) (filter : Value)
| RUpdateByQuery (now c : string) (filter update : Value)
| RCreateIndex (now c name : string) (fields : list string)
| RDropIndex (c name : string).

Inductive reply :=
| AUnit (r : res unit)
| AValue (r : res Value)
| ACount (r : res Z)
| ABulk (r : res (Z * Z))
| AInfo (r : res CollectionInfo)
| AIndex (r : res IndexDef).

Section history.
Context `{SerdeJson} `{!SerdeLaws} `{BackendLaws} `{StorageSerde} `{!StorageSerdeLaws} `{ScanAccelerator} `{RegexLib}.
Context (current : option CancelToken).

Definition answer {A} (mk : res A -> reply) (m : Op A) (s : Storage) : reply * Storage :=
  let '(r, s) := m s in (mk r, s).
(** The filter of a request is parsed before the operation runs. *)
Definition exec (q : request) : Storage -> reply * Storage :=
  match q with
  | RCreateCollection now c => answer AInfo (create_collection now c)
  | RDropCollection c => answer AUnit (drop_collection c)
  | RInsert now uuid c doc => answer AValue (insert_document now uuid c doc)
  | RBulkInsert now uuid c documents =>
      answer (fun r => ABulk ((fun x => (x.1, lenZ x.2)) <$> r)) (bulk_insert_documents now uuid c documents)
  | RGet c id => answer AValue (get_document c id)
  | RReplace now c id doc => answer AValue (replace_document now c id doc)
  | RPartialUpdate now c id patch => answer AValue (partial_update_document now c id patch)
  | RDelete c id => answer AUnit (delete_document c id)
  | RDeleteByQuery c filter =>
      answer ACount (let! f := op_lift (parse_filter filter) in delete_by_query current c f)
  | RUpdateByQuery now c filter update =>
      answer ACount (let! f := op_lift (parse_filter filter) in update_by_query current now c f update)
  | RCreateIndex now c name fields => answer AIndex (create_index current now c name fields)
  | RDropIndex c name => answer AUnit (drop_index c name)
  end.
Fixpoint run (qs : list request) (s : Storage) : list reply * Storage :=
  match qs with
  | [] => ([], s)
  | q :: qs => let '(a, s) := exec q s in let '(l, s) := run qs s in (a :: l, s)
  end.

(** ** The specification of a request *)

Abbreviation adb := (IndexManager * db)%type.

Definition spec_bulk (now uuid : nat -> string) (c : string) (documents : list Value) (d : db) : res (Z * Z) * db :=
  if MAX_BULK_INSERT <? lenZ documents then
    (Err (InvalidDocument ("Bulk insert limited to " +:+ pretty MAX_BULK_INSERT +:+ " documents per request")), d)
  else on_docs c d (fun docs =>
    let out := seq_inserts now uuid 0 documents docs in
    let refused := lenZ (failing 0 out.1) in
    (Ok (lenZ documents - refused, refused), out.2)).
Definition with_filter {A} (filter : Value) (d : db) (f : FilterNode -> res A * db) : res A * db :=
  match parse_filter filter with Ok n => f n | Err e => (Err e, d) end.

Definition on_data {A} (mk : res A -> reply) (m : IndexManager) (out : res A * db) : reply * adb :=
  (mk out.1, (m, out.2)).
Definition spec (q : request) (a : adb) : reply * adb :=
  let '(m, d) := a in
  match q with
  | RCreateCollection _ c => on_data AInfo m (spec_create_collection c d)
  | RDropCollection c =>
      let out := spec_drop_collection c d in
      (AUnit out.1, (match d !! c with Some _ => unregistered_all c m | None => m end, out.2))
  | RInsert now uuid c doc => on_data AValue m (spec_insert now uuid c doc d)
  | RBulkInsert now uuid c documents => on_data ABulk m (spec_bulk now uuid c documents d)
  | RGet c id => on_data AValue m (spec_get c id d)
  | RReplace now c id doc => on_data AValue m (spec_replace now c id doc d)
  | RPartialUpdate now c id patch => on_data AValue m (spec_partial_update now c id patch d)
  | RDelete c id => on_data AUnit m (spec_delete c id d)
  | RDeleteByQuery c filter => on_data ACount m (with_filter filter d (fun f => spec_delete_by_query c f d))
  | RUpdateByQuery now c filter update =>
      on_data ACount m (with_filter filter d (fun f => spec_update_by_query now c f update d))
  | RCreateIndex now c name fields =>
      let out := spec_create_index now c name fields m d in
      (AIndex out, (match out with Ok def => register m def (partition_of (index_name c name)) | Err _ => m end, d))
  | RDropIndex c name =>
      let out := spec_drop_index c name m d in
      (AUnit out, (match out with Ok _ => unregister m c name | Err _ => m end, d))
  end.
Fixpoint spec_run (qs : list request) (a : adb) : list reply * adb :=
  match qs with
  | [] => ([], a)
  | q :: qs => let '(r, a) := spec q a in let '(l, a) := spec_run qs a in (r :: l, a)
  end.

(** What a request relies on: names as the HTTP layer validates them, text as
    UTF-8, generated identifiers fresh, and stored documents that serde_json
    reads back as they were written. *)
Definition admissible (q : request) (d : db) : Prop :=
  match q with
  | RCreateCollection _ c => name_safe c
  | RInsert now uuid c doc =>
      id_safe uuid /\ (forall docs, d !! c = Some docs -> docs !! uuid = None) /\
      (forall obj s, doc = VObject obj -> map_get "_id" obj = Some (VString s) -> utf8_valid (str_bytes s) = true) /\
      (forall doc', (spec_insert now uuid c doc d).1 = Ok doc' -> round_trip doc')
  | RBulkInsert now uuid c documents =>
      (forall j, id_safe (uuid j)) /\ (forall docs j, d !! c = Some docs -> docs !! uuid j = None) /\ Inj (=) (=) uuid /\
      Forall (custom_ok uuid) documents /\ Forall stamps_round_trip documents
  | RReplace now c id doc =>
      forall docs old doc', d !! c = Some docs -> docs !! id = Some old ->
        replacement old id now doc = Ok doc' -> round_trip doc'
  | RPartialUpdate now c id patch =>
      forall docs old doc', d !! c = Some docs -> docs !! id = Some old ->
        replacement old id now (json_merge_patch patch old) = Ok doc' -> round_trip doc'
  | RUpdateByQuery now c filter update =>
      forall f fields docs, parse_filter filter = Ok f -> parse_set_updates update = Ok fields -> d !! c = Some docs ->
        spares_id fields /\ settable fields now (map_to_list (matching f docs))
  | RCreateIndex _ c name _ => utf8_valid (index_key c name) = true
  | RDropCollection _ | RGet _ _ | RDelete _ _ | RDeleteByQuery _ _ | RDropIndex _ _ => True
  end.
Fixpoint admissible_run (qs : list request) (a : adb) : Prop :=
  match qs with
  | [] => True
  | q :: qs => admissible q a.2 /\ admissible_run qs (spec q a).2
  end.

(** The state represents an abstract one. *)
Definition represents (s : Storage) (a : adb) : Prop := index_manager s = a.1 /\ storage_inv s a.2.

Lemma answer_refines {A} (mk : res A -> reply) (m : Op A) (out : res A * db) s (a : adb) :
  keeps m -> represents s a -> (exists s', m s = (out.1, s') /\ storage_inv s' out.2) ->
  exists s', answer mk m s = (mk out.1, s') /\ represents s' (a.1, out.2).
Proof.
  intros Hk [Hm _] (s' & E & Hs'). exists s'. unfold answer. rewrite E. split; [done|]. split; [|done].
  specialize (Hk s). rewrite E in Hk. cbn in *. congruence.
Qed.

Lemma bulk_answer now uuid c documents s (a : adb) : represents s a -> admissible (RBulkInsert now uuid c documents) a.2 ->
  exists s', answer (fun r => ABulk ((fun x => (x.1, lenZ x.2)) <$> r)) (bulk_insert_documents now uuid c documents) s =
    (ABulk (spec_bulk now uuid c documents a.2).1, s') /\ represents s' (a.1, (spec_bulk now uuid c documents a.2).2).
Proof.
  destruct a as [m d]. intros [Hm Hs] (Hsafe & Hfresh & Hinj & Hcust & Hrt). cbn [fst snd] in *. unfold spec_bulk, answer.
  pose proof (keeps_bulk now uuid c documents s) as Hk.
  destruct (Z.ltb_spec MAX_BULK_INSERT (lenZ documents)) as [Hl|Hl].
  { unfold bulk_insert_documents in *. rewrite (proj2 (Z.ltb_lt _ _)) in * by done. by exists s. }
  unfold on_docs. destruct (d !! c) as [docs|] eqn:Hd.
  - destruct (bulk_ok now uuid docs Hsafe (fun j => Hfresh docs j eq_refl) Hinj c documents s d) as (errors & s' & E & Ho & _ & Hs'); [done..|].
    rewrite E in Hk |- *. exists s'. cbn [fmap result_fmap fst snd] in *. split; [|split; [cbn in *; congruence|done]].
    rewrite <- Ho. by rewrite !lenZ_fmap.
  - destruct (prefix_ok s d c Hs) as (E0 & s1 & E1 & Hs1 & _). rewrite bool_decide_false in E1 by (rewrite Hd; by intros []).
    revert Hk. unfold bulk_insert_documents, op_bind. rewrite (proj2 (Z.ltb_ge _ _)) by done. rewrite E0, E1.
    intros Hk. exists s1. split; [done|]. split; [cbn in *; congruence|done].
Qed.

Lemma exec_refines (Hlive : live current) q s (a : adb) : represents s a -> admissible q a.2 ->
  exists s', exec q s = ((spec q a).1, s') /\ represents s' (spec q a).2.
Proof.
  destruct a as [m d]. intros Hr Ha. pose proof Hr as [Hm Hs]. cbn [fst snd] in *.
  destruct q; cbn [exec spec admissible] in *; unfold on_data.
  - apply (answer_refines AInfo _ _ s (m, d)); [apply keeps_create_collection|done|]. by apply create_collection_refines_aux.
  - destruct (drop_collection_ok c s d Hs) as (s' & E & Hs' & Hi). unfold answer. rewrite E. exists s'. split; [done|].
    split; [|done]. by rewrite Hi, Hm.
  - destruct Ha as (H1' & H2' & H3' & H4').
    apply (answer_refines AValue _ _ s (m, d)); [apply keeps_insert|done|]. by apply insert_refines_aux.
  - by apply (bulk_answer now uuid c documents s (m, d)).
  - apply (answer_refines AValue _ _ s (m, d)); [apply keeps_get|done|]. by apply get_refines_aux.
  - apply (answer_refines AValue _ _ s (m, d)); [apply keeps_replace|done|].
    by apply (rewrite_refines_aux now c id (fun _ => doc)).
  - apply (answer_refines AValue _ _ s (m, d)); [apply keeps_partial|done|].
    by apply (rewrite_refines_aux now c id (json_merge_patch patch)).
  - apply (answer_refines AUnit _ _ s (m, d)); [apply keeps_delete|done|]. by apply delete_refines_aux.
  - apply (answer_refines ACount _ _ s (m, d)); [apply keeps_bind; [solve_keeps|intros; apply keeps_delete_by_query]|done|].
    unfold op_bind, op_lift, with_filter. destruct (parse_filter filter) as [f|e]; [|by exists s].
    by apply delete_by_query_refines_aux.
  - apply (answer_refines ACount _ _ s (m, d)); [apply keeps_bind; [solve_keeps|intros; apply keeps_update_by_query]|done|].
    unfold op_bind, op_lift, with_filter. destruct (parse_filter filter) as [f|e]; [|by exists s].
    apply update_by_query_refines_aux; eauto.
  - destruct (create_index_ok current now c name fields s d Hlive Hs Ha) as (s' & E & Hs' & Hi). unfold answer.
    rewrite E. exists s'. rewrite Hm. split; [done|]. split; [|done]. by rewrite Hi, Hm.
  - destruct (drop_index_ok c name s d Hs) as (s' & E & Hs' & Hi). unfold answer.
    rewrite E. exists s'. rewrite Hm. split; [done|]. split; [|done]. by rewrite Hi, Hm.
Qed.

Lemma run_refines (Hlive : live current) qs : forall s (a : adb), represents s a -> admissible_run qs a ->
  exists s', run qs s = ((spec_run qs a).1, s') /\ represents s' (spec_run qs a).2.
Proof.
  induction qs as [|q qs IH]; intros s a Hr Ha; [by exists s|]. destruct Ha as [Hq Ha].
  destruct (exec_refines Hlive q s a Hr Hq) as (s1 & E1 & Hr1). cbn [run spec_run]. rewrite E1.
  destruct (spec q a) as [r a1]. cbn [fst snd] in *. destruct (IH s1 a1 Hr1 Ha) as (s2 & E2 & Hr2). rewrite E2.
  destruct (spec_run qs a1) as [l a2]. by exists s2.
Qed.
End history.
