(* ===== verification/Concurrency.v ===== *)
(** * Interleaved requests on single documents ([engine/document.rs])

    Insertion, reading, replacement, merge patch and deletion of one document,
    run by any number of threads over the shared storage. A request runs in
    the phases of its code: the checks and the handle of the collection before
    the lock; the lock of the document's shard; the read that decides the
    write; the rest up to the commit, its counter and accelerator hooks, at
    whose end the guard is dropped. Each phase is atomic; the phases of
    different threads interleave freely. Every interleaving answers what some
    sequential order answers, and no update is lost. *)

From S2P Require Import Prelude Bytes F64 Json Errors Externals Filter Secondary Backend Index Storage Document Consistency Refinement Mutations Bulk Catalog Indexing Recovery History Locks.

Create HintDb grows.

(** ** Caches only grow *)

Section grows.
Context `{SerdeJson} `{StorageBackend} `{StorageSerde} `{ScanAccelerator} `{RegexLib}.

Definition caches_le (s s' : Storage) : Prop := collections s ⊆ collections s' /\ partitions s ⊆ partitions s'.
#[export] Instance caches_le_preorder : PreOrder caches_le.
Proof. split; [by split|]. intros s t u [A B] [A' B']. split; by etrans. Qed.
Definition grows {A} (m : Op A) : Prop := forall s, caches_le s (m s).2.

Lemma grows_bind {A B} (m : Op A) (f : A -> Op B) : grows m -> (forall a, grows (f a)) -> grows (op_bind m f).
Proof.
  intros Hm Hf s. unfold op_bind. specialize (Hm s). destruct (m s) as [[a|e] s']; cbn in *; [|done].
  etrans; [exact Hm|apply Hf].
Qed.
Lemma grows_ret {A} (a : A) : grows (op_ret a).
Proof. by intros s. Qed.
Lemma grows_fail {A} e : grows (op_fail (A := A) e).
Proof. by intros s. Qed.
Lemma grows_lift {A} (r : res A) : grows (op_lift r).
Proof. by intros s. Qed.
Lemma grows_gets {A} (f : Storage -> A) : grows (op_gets f).
Proof. by intros s. Qed.
Lemma grows_engine {A} (f : engine -> BackendResult A) : grows (op_engine f).
Proof. by intros s. Qed.
Lemma grows_meta key : grows (meta_get key).
Proof. by intros s. Qed.
Lemma grows_counts f : grows (op_modify (fun s => set_counts s (f s))).
Proof. by intros s. Qed.
Lemma grows_accel f : grows (op_modify (fun s => set_accel s (f s))).
Proof. by intros s. Qed.
Lemma grows_check : grows check_not_poisoned.
Proof. intros s. unfold check_not_poisoned. by destruct (is_poisoned s). Qed.
Lemma grows_docs c : grows (get_docs_partition c).
Proof.
  intros s. unfold get_docs_partition, create_partition. destruct (partitions s !! docs_name c) eqn:E; [done|].
  destruct (be_create_or_open_partition (eng s) (docs_name c)) as [[]|]; [|done]. split; [done|]. by apply insert_subseteq.
Qed.
Lemma grows_ensure c : grows (ensure_collection_exists c).
Proof.
  apply grows_bind; [|intros b; by destruct b]. intros s. unfold collection_exists. case_bool_decide; [done|].
  apply (grows_bind (meta_get _)); [apply grows_meta|]. intros [|]; [|by intros ?].
  intros s'. split; [|done]. cbn. apply union_subseteq_r.
Qed.
Lemma grows_commit ops : grows (commit_batch ops).
Proof. intros s. unfold commit_batch. by destruct (be_commit_batch (eng s) ops). Qed.
End grows.
#[export] Hint Resolve grows_bind grows_ret grows_fail grows_lift grows_gets grows_engine grows_meta grows_counts
  grows_accel grows_check grows_docs grows_ensure grows_commit : grows.
Ltac solve_grows := repeat first [progress eauto with grows | apply grows_bind; [|intros ?] | case_match].

(** ** Requests on one document, and their phases *)

Inductive single :=
| Insert (now uuid c : string) (doc : Value)
| Get (c id : string)
| Replace (now c id : string) (doc : Value)
| Patch (now c id : string) (patch : Value)
| Delete (c id : string).
(** What the read under the lock found. *)
Inductive loaded := LNothing | LExisting (old : Value) | LFresh (id : string).

Definition as_request (q : single) : request :=
  match q with
  | Insert now uuid c doc => RInsert now uuid c doc
  | Get c id => RGet c id
  | Replace now c id doc => RReplace now c id doc
  | Patch now c id patch => RPartialUpdate now c id patch
  | Delete c id => RDelete c id
  end.
Definition of_collection (q : single) : string :=
  match q with Insert _ _ c _ | Get c _ | Replace _ c _ _ | Patch _ c _ _ | Delete c _ => c end.
Definition failed (q : single) (e : AppError) : reply :=
  match q with Delete _ _ => AUnit (Err e) | _ => AValue (Err e) end.

Section phases.
Context `{SerdeJson} `{StorageBackend} `{StorageSerde} `{ScanAccelerator} `{RegexLib}.

(** The document an insertion locks: its own [_id], validated. *)
Definition own_id (obj : list (string * Value)) : res (option string) :=
  match map_get "_id" obj with
  | Some raw => let? id := validate_custom_id raw in Ok (Some id)
  | None => Ok None
  end.
(** Before the lock: the partition, and the document whose shard to lock. *)
Definition begin (q : single) : Op (PartitionId * option string) :=
  match q with
  | Insert _ _ c doc =>
      let! _ := check_not_poisoned in
      let! _ := ensure_collection_exists c in
      let! obj := op_lift (ok_or (as_object doc) (InvalidDocument "Document must be a JSON object")) in
      let! p := get_docs_partition c in
      let! k := op_lift (own_id obj) in
      op_ret (p, k)
  | Get c _ =>
      let! _ := ensure_collection_exists c in
      let! p := get_docs_partition c in
      op_ret (p, None)
  | Replace _ c id _ | Patch _ c id _ | Delete c id =>
      let! _ := check_not_poisoned in
      let! _ := ensure_collection_exists c in
      let! p := get_docs_partition c in
      op_ret (p, Some id)
  end.
(** Under the lock: the read that decides the write. *)
Definition load (q : single) (p : PartitionId) (k : option string) : Op loaded :=
  match q with
  | Insert _ uuid _ _ =>
      match k with
      | Some custom_id =>
          let! found := op_get p custom_id in
          if found then op_fail (DocumentConflict ("Document already exists: " +:+ custom_id))
          else op_ret (LFresh custom_id)
      | None => op_ret (LFresh uuid)
      end
  | Get _ _ => op_ret LNothing
  | Replace _ _ id _ | Patch _ _ id _ | Delete _ id => let! old := read_existing p id in op_ret (LExisting old)
  end.
(** From the read to the end. *)
Definition insert_fresh (now c id : string) (p : PartitionId) (doc : Value) : Op Value :=
  let doc := VObject (stamp_new id now (map_remove "_id" (default [] (as_object doc)))) in
  let! b := op_lift (sized_bytes doc) in
  let! m := op_gets index_manager in
  let! _ := commit_batch (add_index_entries_to_batch m [BPut p (str_bytes id) b] c id doc) in
  let! _ := op_modify (fun s => set_counts s (counters_increment (doc_counts s) c 1)) in
  let! _ := op_modify (fun s => set_accel s (on_insert (scan_accelerator s) c id doc)) in
  op_ret doc.
Definition delete_existing (c id : string) (p : PartitionId) (old : Value) : Op unit :=
  let! m := op_gets index_manager in
  let! _ := commit_batch (remove_index_entries_from_batch m [] c id old ++ [BDel p (str_bytes id)]) in
  let! _ := op_modify (fun s => set_counts s (counters_increment (doc_counts s) c (-1))) in
  let! _ := op_modify (fun s => set_accel s (on_delete (scan_accelerator s) c id old)) in
  op_ret tt.
Definition finish (q : single) (p : PartitionId) (x : loaded) (s : Storage) : reply * Storage :=
  match q, x with
  | Insert now _ c doc, LFresh id => answer AValue (insert_fresh now c id p doc) s
  | Get _ id, _ => answer AValue (let! found := op_get p id in
      match found with Some b => op_parse b | None => op_fail (DocumentNotFound id) end) s
  | Replace now c id doc, LExisting old => answer AValue (replace_loaded now c id p old doc) s
  | Patch now c id patch, LExisting old =>
      answer AValue (replace_loaded now c id p old (json_merge_patch patch old)) s
  | Delete c id, LExisting old => answer AUnit (delete_existing c id p old) s
  | _, _ => (failed q (Internal ""), s)
  end.

(** The phases, one after another, are the operation. *)
Definition in_phases (q : single) (s : Storage) : reply * Storage :=
  match begin q s with
  | (Err e, s) => (failed q e, s)
  | (Ok (p, k), s) =>
      match load q p k s with
      | (Err e, s) => (failed q e, s)
      | (Ok x, s) => finish q p x s
      end
  end.
Ltac opened := destruct (ensure_collection_exists _ _) as [[] ?]; [|done]; destruct (get_docs_partition _ _) as [[] ?]; [|done].
Ltac checked := destruct (check_not_poisoned _) as [[] ?]; [|done]; opened.
Ltac read := match goal with |- context [read_existing ?p ?id ?s] => destruct (read_existing p id s) as [[] ?]; done end.
Lemma phases_compose current q s : exec current (as_request q) s = in_phases q s.
Proof.
  unfold in_phases. destruct q; cbn [exec as_request begin load finish].
  - unfold answer, insert_document, resolve_id, insert_fresh, own_id, op_bind, op_lift, op_ret, op_fail, failed, op_gets.
    destruct (check_not_poisoned s) as [[] s1]; [|done]. destruct (ensure_collection_exists c s1) as [[] s2]; [|done].
    destruct (as_object doc) as [obj|]; [|done]. cbn [ok_or]. destruct (get_docs_partition c s2) as [[] s3]; [|done].
    cbn [default]. destruct (map_get "_id" obj) as [raw|]; cbn; [|done]. destruct (validate_custom_id raw); cbn; [|done].
    unfold op_get, op_engine. by destruct (lift_be _) as [[]|].
  - unfold answer, get_document, op_bind, op_ret, failed. by opened.
  - unfold answer, replace_document, op_bind, op_ret, failed. checked. read.
  - unfold answer, partial_update_document, op_bind, op_ret, failed. checked. read.
  - unfold answer, delete_document, delete_existing, op_bind, op_ret, failed. checked. read.
Qed.
End phases.

(** ** What each phase establishes *)

Section facts.
Context `{SerdeJson} `{!SerdeLaws} `{BackendLaws} `{StorageSerde} `{!StorageSerdeLaws} `{ScanAccelerator} `{RegexLib}.

(** [begin], the collection open: its answer is a function of the request. *)
Definition begin_answer (q : single) (p : PartitionId) : res (PartitionId * option string) :=
  match q with
  | Insert _ _ c doc =>
      let? obj := ok_or (as_object doc) (InvalidDocument "Document must be a JSON object") in
      let? k := own_id obj in Ok (p, k)
  | Get _ _ => Ok (p, None)
  | Replace _ _ id _ | Patch _ _ id _ | Delete _ id => Ok (p, Some id)
  end.
Definition begun (s : Storage) (q : single) (p : PartitionId) (k : option string) : Prop :=
  of_collection q ∈ collections s /\ partitions s !! docs_name (of_collection q) = Some p /\ begin_answer q p = Ok (p, k).
Definition loaded_ok (docs : gmap string Value) (q : single) (k : option string) (x : loaded) : Prop :=
  match q with
  | Insert _ uuid _ _ =>
      match k with Some id => docs !! id = None /\ x = LFresh id | None => x = LFresh uuid end
  | Get _ _ => x = LNothing
  | Replace _ _ id _ | Patch _ _ id _ | Delete _ id => exists old, docs !! id = Some old /\ x = LExisting old
  end.

Lemma begun_mono s s' q p k : begun s q p k -> caches_le s s' -> begun s' q p k.
Proof. intros (A & B & C) [D E]. split_and!; [by apply D|by eapply lookup_weaken|done]. Qed.

Lemma ensure_hit s c : c ∈ collections s -> ensure_collection_exists c s = (Ok tt, s).
Proof. intros Hc. unfold ensure_collection_exists, op_bind, collection_exists. by rewrite bool_decide_true. Qed.
Lemma docs_hit s c p : partitions s !! docs_name c = Some p -> get_docs_partition c s = (Ok p, s).
Proof. intros Hp. unfold get_docs_partition, create_partition. by rewrite Hp. Qed.
Lemma begin_hit s (d : db) q p k : core_inv s d -> begun s q p k -> begin q s = (Ok (p, k), s).
Proof.
  intros Hi (A & B & C). destruct q; cbn [begin of_collection begin_answer] in *; unfold op_bind, op_lift, op_ret;
    rewrite ?(check_ok s d Hi), (ensure_hit s) by done;
    try by rewrite (docs_hit s _ p) by done; simplify_eq.
  destruct (as_object doc) as [obj|]; cbn in *; [|done]. rewrite (docs_hit s _ p) by done.
  by destruct (own_id obj); simplify_eq/=.
Qed.

Lemma open_hit c s (d : db) : storage_inv s d -> exists s',
  ensure_collection_exists c s =
    (if bool_decide (is_Some (d !! c)) then Ok tt else Err (CollectionNotFound c), s') /\
  storage_inv s' d /\ index_manager s' = index_manager s /\ caches_le s s' /\
  (is_Some (d !! c) -> c ∈ collections s').
Proof.
  intros Hs. destruct (prefix_ok s d c Hs) as (_ & s' & E & Hs' & _). exists s'. split; [done|]. split; [done|].
  pose proof (keeps_ensure c s) as Hk. pose proof (grows_ensure c s) as Hg. rewrite E in Hk, Hg. split_and!; [done..|].
  intros Hc. rewrite bool_decide_true in E by done. revert E. unfold ensure_collection_exists, op_bind, collection_exists, op_ret.
  destruct (decide (c ∈ collections s)) as [Hin|Hin];
    [rewrite (bool_decide_true (c ∈ _)) by done|rewrite (bool_decide_false (c ∈ _)) by done]; cbn.
  - intros E'. by injection E' as <-.
  - destruct (lift_be _) as [[]|]; cbn; [|done..]. intros E'. injection E' as <-. cbn. set_solver.
Qed.

Lemma begin_ok q s (d : db) r s' : storage_inv s d -> begin q s = (r, s') ->
  storage_inv s' d /\ index_manager s' = index_manager s /\ caches_le s s' /\
  forall p k, r = Ok (p, k) -> begun s' q p k.
Proof.
  intros Hs. set (c := of_collection q). destruct (prefix_ok s d c Hs) as (E0 & _).
  destruct (open_hit c s d Hs) as (s1 & E1 & Hs1 & Hm1 & Hg1 & Hin).
  pose proof Hs1 as [Hi1 _]. destruct (prefix_ok s1 d c Hs1) as (_ & s1' & E1' & _ & s2 & E2 & Hs2).
  assert (Hopen : is_Some (d !! c) -> exists s2, get_docs_partition c s1 = (Ok (partition_of (docs_name c)), s2) /\
    storage_inv s2 d /\ index_manager s2 = index_manager s /\ caches_le s s2 /\ c ∈ collections s2 /\
    partitions s2 !! docs_name c = Some (partition_of (docs_name c))).
  { intros Hc. assert (s1' = s1) as ->. { rewrite ensure_hit in E1' by auto. by injection E1'. }
    exists s2. pose proof (keeps_docs c s1) as Hk. pose proof (grows_docs c s1) as Hg. rewrite E2 in Hk, Hg.
    split_and!; [done|done|cbn in Hk; congruence|by etrans|by apply Hg, Hin|].
    revert E2. unfold get_docs_partition, create_partition. destruct (partitions s1 !! docs_name c) eqn:Ep.
    - by intros [= -> <-].
    - destruct (be_create_or_open_partition _ _) as [[]|]; [|done]. intros [= -> <-]. cbn. by rewrite lookup_insert_eq. }
  clear E1' E2 Hs2. case_bool_decide as Hc.
  - destruct (Hopen Hc) as (t & E2 & Ht & Hmt & Hgt & Hct & Hpt).
    destruct q; cbn [begin of_collection] in *; subst c; unfold op_bind, op_lift, op_ret; rewrite ?E0, E1, ?E2;
      try by intros [= <- <-]; split_and!; try done; intros ? ? [= <- <-].
    destruct (as_object doc) as [obj|] eqn:Eo; cbn [ok_or]; [|by intros [= <- <-]].
    destruct (own_id obj) as [k|] eqn:Ek; cbn; intros [= <- <-]; split_and!; try done.
    intros ? ? [= <- <-]. split_and!; [done..|]. cbn [begin_answer]. rewrite Eo. cbn [ok_or mbind result_bind]. by rewrite Ek.
  - destruct q; cbn [begin of_collection] in *; subst c; unfold op_bind; rewrite ?E0, E1; by intros [= <- <-].
Qed.

Lemma load_ok q s (d : db) docs p k r s' : storage_inv s d -> d !! of_collection q = Some docs -> begun s q p k ->
  load q p k s = (r, s') -> s' = s /\ forall x, r = Ok x -> loaded_ok docs q k x.
Proof.
  intros [Hi _] Hd (_ & Hp & Hb). apply (ci_cache _ _ Hi) in Hp as ->.
  destruct q; cbn [load of_collection begin_answer loaded_ok] in *; unfold op_bind, op_ret, op_fail;
    rewrite ?(read_existing_ok s d c docs id) by done.
  - destruct k as [id|]; [|intros [= <- <-]; by split; [|intros ? [= <-]]].
    rewrite (op_get_ok s d c docs id) by done. destruct (docs !! id) as [old|] eqn:Eo; cbn.
    + destruct (vi_ok _ _ _ (ci_view _ _ Hi) _ _ Hd) as [_ Hok]. destruct (Hok _ _ Eo) as (_ & [b ->] & _).
      by intros [= <- <-].
    + intros [= <- <-]. by split; [|intros ? [= <-]].
  - intros [= <- <-]. by split; [|intros ? [= <-]].
  - destruct (docs !! id); intros [= <- <-]; by (split; [|intros ? [= <-]; eauto]).
  - destruct (docs !! id); intros [= <- <-]; by (split; [|intros ? [= <-]; eauto]).
  - destruct (docs !! id); intros [= <- <-]; by (split; [|intros ? [= <-]; eauto]).
Qed.
Lemma load_hit q s (d : db) docs p k x : storage_inv s d -> d !! of_collection q = Some docs -> begun s q p k ->
  loaded_ok docs q k x -> load q p k s = (Ok x, s).
Proof.
  intros [Hi _] Hd (_ & Hp & Hb) Hx. apply (ci_cache _ _ Hi) in Hp as ->.
  destruct q; cbn [load of_collection begin_answer loaded_ok] in *; unfold op_bind, op_ret.
  - destruct k as [id|]; [|by subst]. destruct Hx as [Ho ->]. by rewrite (op_get_ok s d c docs id), Ho by done.
  - by subst.
  - destruct Hx as (old & Ho & ->). by rewrite (read_existing_ok s d c docs id), Ho by done.
  - destruct Hx as (old & Ho & ->). by rewrite (read_existing_ok s d c docs id), Ho by done.
  - destruct Hx as (old & Ho & ->). by rewrite (read_existing_ok s d c docs id), Ho by done.
Qed.
End facts.

(** ** What a request leaves alone *)

Section frame.
Context `{SerdeJson} `{!SerdeLaws} `{BackendLaws} `{StorageSerde} `{!StorageSerdeLaws} `{ScanAccelerator} `{RegexLib}.

(** The document a request may write. *)
Definition touches (q : single) (k : option string) : option string :=
  match q with
  | Insert _ uuid _ _ => Some (default uuid k)
  | Get _ _ => None
  | Replace _ _ id _ | Patch _ _ id _ | Delete _ id => Some id
  end.
Definition docs_frame (c : string) (t : option string) (d d' : db) : Prop :=
  forall c' docs, d !! c' = Some docs -> exists docs', d' !! c' = Some docs' /\
    forall id, (c' = c -> t <> Some id) -> docs' !! id = docs !! id.
Lemma frame_refl c t (d : db) : docs_frame c t d d.
Proof. intros c' docs Hd. by exists docs. Qed.
Lemma frame_on_docs {A} c t (d : db) (f : gmap string Value -> res A * gmap string Value) :
  (forall docs id, t <> Some id -> (f docs).2 !! id = docs !! id) -> docs_frame c t d (on_docs c d f).2.
Proof.
  intros Hf. unfold on_docs. destruct (d !! c) as [docs|] eqn:Hd; [|apply frame_refl].
  specialize (Hf docs). destruct (f docs) as [r docs']. cbn in *. intros c' x Hx.
  destruct (decide (c = c')) as [<-|Hne].
  - exists docs'. rewrite lookup_insert_eq. split; [done|]. intros id Ht. rewrite Hf by auto. congruence.
  - exists x. by rewrite lookup_insert_ne.
Qed.

Lemma own_id_spec uuid obj docs k id : own_id obj = Ok k -> spec_id uuid obj docs = Ok id -> id = default uuid k.
Proof.
  unfold own_id, spec_id. destruct (map_get "_id" obj) as [raw|]; [|by intros [= <-] [= <-]].
  destruct (validate_custom_id raw) as [i|]; cbn; [|done]. destruct (docs !! i); [done|]. by intros [= <-] [= <-].
Qed.
Lemma spec_frame q m (d : db) p k : begin_answer q p = Ok (p, k) ->
  docs_frame (of_collection q) (touches q k) d (spec (as_request q) (m, d)).2.2.
Proof.
  destruct q; cbn [begin_answer as_request spec of_collection touches on_data fst snd]; intros Hb;
    apply frame_on_docs; intros docs i Hi.
  - unfold insert_docs. destruct (as_object doc) as [obj|]; [|done]. cbn in Hb.
    destruct (own_id obj) as [k'|] eqn:Ek; simplify_eq/=. destruct (spec_id uuid obj docs) as [j|] eqn:Ej; [|done].
    rewrite (own_id_spec _ _ _ _ _ Ek Ej) in *. destruct (sized_bytes _); [|done]. apply lookup_insert_ne. congruence.
  - done.
  - destruct (docs !! id); [|done]. destruct (replacement _ _ _ _); [|done].
    destruct (sized_bytes _); [|done]. apply lookup_insert_ne. congruence.
  - destruct (docs !! id); [|done]. destruct (replacement _ _ _ _); [|done].
    destruct (sized_bytes _); [|done]. apply lookup_insert_ne. congruence.
  - destruct (docs !! id); [|done]. apply lookup_delete_ne. congruence.
Qed.

Lemma on_docs_fail {A} c (d : db) (f : gmap string Value -> res A * gmap string Value) e :
  (forall docs, (f docs).1 = Err e -> (f docs).2 = docs) -> (on_docs c d f).1 = Err e -> (on_docs c d f).2 = d.
Proof.
  intros Hf. unfold on_docs. destruct (d !! c) as [docs|] eqn:Hd; [|done]. specialize (Hf docs).
  destruct (f docs) as [r docs']. cbn in *. intros Hr. rewrite Hf by done. by apply insert_id.
Qed.
Lemma spec_failed q m (d : db) e : (spec (as_request q) (m, d)).1 = failed q e -> (spec (as_request q) (m, d)).2 = (m, d).
Proof.
  destruct q; cbn; intros [= Hr]; f_equal; (eapply on_docs_fail; [|exact Hr]); intros docs; cbn.
  - unfold insert_docs. by repeat case_match.
  - done.
  - by repeat case_match.
  - by repeat case_match.
  - by repeat case_match.
Qed.
Lemma loaded_frame q p k x docs docs' : begin_answer q p = Ok (p, k) -> loaded_ok docs q k x ->
  (forall id, k = Some id -> docs' !! id = docs !! id) -> loaded_ok docs' q k x.
Proof.
  intros Hb Hx Hf. destruct q; cbn [loaded_ok begin_answer] in *; simplify_eq; try done; rewrite ?(Hf _ eq_refl); try done.
  destruct k as [id|]; [|done]. by rewrite Hf.
Qed.

Lemma spec_run_app l1 l2 a : spec_run (l1 ++ l2) a =
  let '(r1, a1) := spec_run l1 a in let '(r2, a2) := spec_run l2 a1 in (r1 ++ r2, a2).
Proof.
  revert a; induction l1 as [|q l1 IH]; intros a; cbn; [by destruct (spec_run l2 a)|].
  destruct (spec q a) as [r a']. rewrite IH. destruct (spec_run l1 a') as [r1 a1]. by destruct (spec_run l2 a1).
Qed.
Lemma admissible_run_app l1 l2 a : admissible_run (l1 ++ l2) a <-> admissible_run l1 a /\ admissible_run l2 (spec_run l1 a).2.
Proof.
  revert a; induction l1 as [|q l1 IH]; intros a; cbn; [tauto|]. rewrite IH.
  destruct (spec q a) as [r a']. cbn. destruct (spec_run l1 a'). cbn. tauto.
Qed.
End frame.

(** ** Threads *)

Section threads.
Context `{SerdeJson} `{StorageBackend} `{StorageSerde} `{ScanAccelerator} `{RegexLib}.
Context (hash : string -> string -> Z).

Inductive phase :=
| Waiting
| Ready (p : PartitionId) (k : option string)
| Locked (p : PartitionId) (k : option string)
| Loaded (p : PartitionId) (k : option string) (x : loaded)
| Done (r : reply).
Abbreviation thread := (single * phase)%type.
(** A completed request: its thread, itself, its answer. *)
Abbreviation event := (nat * single * reply)%type.

Definition holds (t : thread) : option Z :=
  match t.2 with
  | Locked _ (Some id) | Loaded _ (Some id) _ => Some (shard_index hash (of_collection t.1) id)
  | _ => None
  end.
Inductive phase_step (ts : list thread) (q : single) (s : Storage) : phase -> Storage -> phase -> Prop :=
| step_begin p k s' : begin q s = (Ok (p, k), s') -> phase_step ts q s Waiting s' (Ready p k)
| step_refused e s' : begin q s = (Err e, s') -> phase_step ts q s Waiting s' (Done (failed q e))
| step_lock p k :
    (forall id t, k = Some id -> t ∈ ts -> holds t <> Some (shard_index hash (of_collection q) id)) ->
    phase_step ts q s (Ready p k) s (Locked p k)
| step_load p k x s' : load q p k s = (Ok x, s') -> phase_step ts q s (Locked p k) s' (Loaded p k x)
| step_missing p k e s' : load q p k s = (Err e, s') -> phase_step ts q s (Locked p k) s' (Done (failed q e))
| step_finish p k x r s' : finish q p x s = (r, s') -> phase_step ts q s (Loaded p k x) s' (Done r).

Definition completed (i : nat) (q : single) (ph : phase) : list event :=
  match ph with Done r => [(i, q, r)] | _ => [] end.
(** A schedule of the threads [qs] from [s0]: the requests completed so far, in
    order, the storage and the threads. *)
Inductive schedule (qs : list single) (s0 : Storage) : list event -> Storage -> list thread -> Prop :=
| sched_start : schedule qs s0 [] s0 ((fun q => (q, Waiting)) <$> qs)
| sched_step log s ts i q ph s' ph' :
    schedule qs s0 log s ts -> ts !! i = Some (q, ph) -> phase_step ts q s ph s' ph' ->
    schedule qs s0 (log ++ completed i q ph') s' (<[i := (q, ph')]> ts).

Definition requests (log : list event) : list request := (fun x => as_request x.1.2) <$> log.
Definition replies (log : list event) : list reply := (fun x => x.2) <$> log.
End threads.

(** ** The invariant of schedules *)

Section linear.
Context `{SerdeJson} `{!SerdeLaws} `{BackendLaws} `{StorageSerde} `{!StorageSerdeLaws} `{ScanAccelerator} `{RegexLib}.
Context (hash : string -> string -> Z) (qs : list single).

(** Generated identifiers collide with no identifier a client chose. *)
Definition fresh_uuids : Prop := forall now uuid c doc q p,
  Insert now uuid c doc ∈ qs -> q ∈ qs -> begin_answer q p = Ok (p, Some uuid) -> of_collection q <> c.
Hypothesis Hfresh : fresh_uuids.

Definition thread_ok (s : Storage) (d : db) (q : single) (ph : phase) : Prop :=
  match ph with
  | Waiting | Done _ => True
  | Ready p k | Locked p k => begun s q p k
  | Loaded p k x => begun s q p k /\ exists docs, d !! of_collection q = Some docs /\ loaded_ok docs q k x
  end.
Record schedule_inv (s : Storage) (ts : list (single * phase)) (log : list (nat * single * reply)) (a : IndexManager * db) : Prop := {
  si_rep : represents s a;
  si_names : fst <$> ts = qs;
  si_threads : forall i q ph, ts !! i = Some (q, ph) -> thread_ok s a.2 q ph;
  si_mutex : forall i j t u x, ts !! i = Some t -> ts !! j = Some u -> holds hash t = Some x -> holds hash u = Some x -> i = j;
  si_done : forall i q r, ts !! i = Some (q, Done r) <-> (i, q, r) ∈ log;
  si_once : NoDup (fst ∘ fst <$> log);
}.

Lemma begun_known s a q p k : represents s a -> begun s q p k -> exists docs, a.2 !! of_collection q = Some docs.
Proof. intros [_ [Hi _]] (Hc & _). destruct (ci_known _ _ Hi _ Hc) as [docs Hd]. eauto. Qed.

(** Thread [i] moves to [ph']: what the others know must survive. *)
Lemma inv_update s ts log a i q ph s' ph' a' : schedule_inv s ts log a -> ts !! i = Some (q, ph) -> (forall r, ph <> Done r) ->
  represents s' a' -> caches_le s s' -> thread_ok s' a'.2 q ph' ->
  (forall x t, holds hash (q, ph') = Some x -> t ∈ ts -> holds hash t = Some x -> holds hash (q, ph) = Some x) ->
  (forall j q' p k x docs, j <> i -> ts !! j = Some (q', Loaded p k x) -> a.2 !! of_collection q' = Some docs ->
     loaded_ok docs q' k x -> exists docs', a'.2 !! of_collection q' = Some docs' /\ loaded_ok docs' q' k x) ->
  schedule_inv s' (<[i := (q, ph')]> ts) (log ++ completed i q ph') a'.
Proof.
  intros [Hr Hn Ht Hm Hd Ho] Hi Hph Hr' Hg Hok Hx Hstable. pose proof (lookup_lt_Some _ _ _ Hi) as Hlt.
  assert (Hnot : forall q' r, (i, q', r) ∉ log) by (intros q' r Hin%Hd; rewrite Hi in Hin; simplify_eq; by eapply Hph).
  constructor; [done|..].
  - rewrite list_fmap_insert, Hn. cbn. apply list_insert_id. by rewrite <- Hn, list_lookup_fmap, Hi.
  - intros j q' ph1. destruct (decide (j = i)) as [->|Hne]; [rewrite list_lookup_insert_eq by done; by intros [= <- <-]|].
    rewrite list_lookup_insert_ne by done. intros Hj. pose proof (Ht _ _ _ Hj) as Htj.
    destruct ph1; cbn in *; [done|by eapply begun_mono..| |done].
    destruct Htj as (Hb & docs & Hdocs & Hl). split; [by eapply begun_mono|]. by eapply Hstable.
  - intros j l t u x. destruct (decide (j = i)) as [->|Hj], (decide (l = i)) as [->|Hl]; [done|..];
      rewrite ?list_lookup_insert_eq, ?list_lookup_insert_ne by done; [| |by eauto].
    + intros [= <-] Hu Hht Hhu. eapply (Hm i l); [done..| |done].
      apply (Hx x u); [done| |done]. by eapply list_elem_of_lookup_2.
    + intros Hu [= <-] Hhu Hht. eapply (Hm j i); [done..|].
      apply (Hx x t); [done| |done]. by eapply list_elem_of_lookup_2.
  - intros j q' r. rewrite elem_of_app. destruct (decide (j = i)) as [->|Hne].
    + rewrite list_lookup_insert_eq by done. specialize (Hnot q' r). destruct ph'; cbn; rewrite ?elem_of_nil, ?list_elem_of_singleton; naive_solver.
    + rewrite list_lookup_insert_ne by done. rewrite Hd. destruct ph'; cbn; rewrite ?elem_of_nil, ?list_elem_of_singleton; naive_solver.
  - rewrite fmap_app. apply NoDup_app. split; [done|]. split.
    + intros j (((j' & q') & r) & -> & Hin)%list_elem_of_fmap. destruct ph'; cbn; rewrite ?elem_of_nil, ?list_elem_of_singleton; try tauto.
      intros ->. by eapply Hnot.
    + destruct ph'; cbn; try constructor; [apply not_elem_of_nil|constructor].
Qed.

(** A request that completes in the state [s], its phases before now passed. *)
Lemma completes current (Hlive : live current) s ts log a i q ph r s' : schedule_inv s ts log a -> ts !! i = Some (q, ph) -> (forall r, ph <> Done r) ->
  admissible (as_request q) a.2 -> exec current (as_request q) s = (r, s') -> caches_le s s' ->
  (forall j q' p k x docs, j <> i -> ts !! j = Some (q', Loaded p k x) -> a.2 !! of_collection q' = Some docs ->
     loaded_ok docs q' k x -> exists docs', (spec (as_request q) a).2.2 !! of_collection q' = Some docs' /\ loaded_ok docs' q' k x) ->
  r = (spec (as_request q) a).1 /\
  schedule_inv s' (<[i := (q, Done r)]> ts) (log ++ completed i q (Done r)) (spec (as_request q) a).2.
Proof.
  intros Hinv Hi Hph Ha He Hg Hst. destruct (exec_refines current Hlive (as_request q) s a) as (s1 & E & Hr); [apply Hinv|done|].
  rewrite He in E. injection E as -> ->. split; [done|]. by eapply inv_update.
Qed.
Lemma completes_failed current (Hlive : live current) s ts log a i q ph e s' : schedule_inv s ts log a -> ts !! i = Some (q, ph) -> (forall r, ph <> Done r) ->
  admissible (as_request q) a.2 -> exec current (as_request q) s = (failed q e, s') -> caches_le s s' ->
  failed q e = (spec (as_request q) a).1 /\
  schedule_inv s' (<[i := (q, Done (failed q e))]> ts) (log ++ completed i q (Done (failed q e))) (spec (as_request q) a).2.
Proof.
  intros Hinv Hi Hph Ha He Hg. eapply completes; try done. intros j q' p k x docs _ _ Hd Hl. exists docs. split; [|done].
  destruct (exec_refines current Hlive (as_request q) s a) as (s1 & E & Hr); [apply Hinv|done|].
  rewrite He in E. injection E as E _. destruct a as [m d]. by rewrite (spec_failed q m d e).
Qed.

Lemma own_key_spec q p k : begin_answer q p = Ok (p, k) ->
  touches q k = k \/ touches q k = None \/ exists now uuid c doc, q = Insert now uuid c doc /\ k = None /\ touches q k = Some uuid.
Proof.
  destruct q; cbn; intros Hb; simplify_eq; auto. destruct k as [id|]; [by left|]. right; right. by repeat eexists.
Qed.
(** What a thread read under its lock, no other commit changes. *)
Lemma loaded_stable s ts log a i q p0 k0 x0 j q' p k x docs :
  schedule_inv s ts log a -> ts !! i = Some (q, Loaded p0 k0 x0) -> j <> i -> ts !! j = Some (q', Loaded p k x) ->
  a.2 !! of_collection q' = Some docs -> loaded_ok docs q' k x ->
  exists docs', (spec (as_request q) a).2.2 !! of_collection q' = Some docs' /\ loaded_ok docs' q' k x.
Proof.
  intros [_ Hn Ht Hm _ _] Hi Hne Hj Hd Hl. destruct (Ht _ _ _ Hi) as [(_ & _ & Hb0) _], (Ht _ _ _ Hj) as [(_ & _ & Hb) _].
  destruct a as [m d]. destruct (spec_frame q m d p0 k0 Hb0 _ _ Hd) as (docs' & Hd' & Hsame). exists docs'. split; [done|].
  eapply loaded_frame; [done..|]. intros id ->. apply Hsame. intros Hc Hto.
  assert (Hin : forall l t, ts !! l = Some t -> t.1 ∈ qs).
  { intros l t Hlt. rewrite <- Hn. apply list_elem_of_fmap_2. by eapply list_elem_of_lookup_2. }
  destruct (own_key_spec q p0 k0 Hb0) as [E|[E|(now & uuid & c & doc & -> & _ & E)]]; rewrite E in Hto; [|done|].
  - subst k0. apply Hne. eapply Hm; [done..|reflexivity|]. cbn. by rewrite Hc.
  - injection Hto as ->. eapply Hfresh; [exact (Hin _ _ Hi)|exact (Hin _ _ Hj)|exact Hb|exact Hc].
Qed.

Lemma finish_exec current s ts log a i q p k x : schedule_inv s ts log a -> ts !! i = Some (q, Loaded p k x) ->
  exec current (as_request q) s = finish q p x s.
Proof.
  intros [Hr _ Ht _ _ _] Hi. destruct (Ht _ _ _ Hi) as [Hb (docs & Hd & Hl)]. rewrite phases_compose. unfold in_phases.
  destruct Hr as [_ Hs]. pose proof Hs as [Hc _]. rewrite (begin_hit s a.2 q p k) by done. by rewrite (load_hit q s a.2 docs p k x).
Qed.
Lemma finish_grows q p x s : caches_le s (finish q p x s).2.
Proof.
  assert (Ha : forall A (mk : res A -> reply) (m : Op A), grows m -> caches_le s (answer mk m s).2).
  { intros A mk m Hm. unfold answer. specialize (Hm s). by destruct (m s). }
  destruct q, x; cbn [finish]; try done; apply Ha; unfold insert_fresh, delete_existing, replace_loaded, op_get, op_parse; solve_grows.
Qed.

Lemma phase_step_inv current (Hlive : live current) s ts log a i q ph s' ph' : schedule_inv s ts log a ->
  ts !! i = Some (q, ph) -> phase_step hash ts q s ph s' ph' ->
  (forall r, ph' = Done r -> admissible (as_request q) a.2) ->
  let a' := match ph' with Done _ => (spec (as_request q) a).2 | _ => a end in
  (forall r, ph' = Done r -> r = (spec (as_request q) a).1) /\
  schedule_inv s' (<[i := (q, ph')]> ts) (log ++ completed i q ph') a'.
Proof.
  intros Hinv Hi Hstep Ha a'. pose proof Hinv as [[Hix Hs] _ Ht _ _ _]. specialize (Ht _ _ _ Hi).
  assert (Hst : forall j q' p k x docs, j <> i -> ts !! j = Some (q', Loaded p k x) -> a.2 !! of_collection q' = Some docs ->
    loaded_ok docs q' k x -> exists docs', a.2 !! of_collection q' = Some docs' /\ loaded_ok docs' q' k x) by eauto.
  destruct Hstep as [p k s' Hb|e s' Hb|p k Hfree|p k x s' Hl|p k e s' Hl|p k x r s' Hf]; subst a'; cbn [thread_ok] in Ht.
  - destruct (begin_ok q s a.2 _ _ Hs Hb) as (Hs' & Hix' & Hg & Hbg). split; [done|].
    eapply inv_update; try done; [split; [congruence|done]|by apply Hbg].
  - destruct (begin_ok q s a.2 _ _ Hs Hb) as (_ & _ & Hg & _).
    destruct (completes_failed current Hlive s ts log a i q Waiting e s') as [E Hinv']; try done; [by eapply Ha| |].
    { rewrite phases_compose. unfold in_phases. by rewrite Hb. }
    split; [by intros ? [= <-]|done].
  - split; [done|]. eapply inv_update; try done. intros x t Hx Hin Hht. exfalso. destruct k as [id|]; [|done].
    cbn in Hx. injection Hx as <-. by eapply Hfree.
  - destruct (begun_known s a q p k) as [docs Hd]; [done..|].
    destruct (load_ok q s a.2 docs p k _ _ Hs Hd Ht Hl) as [-> Hx]. split; [done|].
    eapply inv_update; try done. split; [done|]. exists docs. split; [done|by apply Hx].
  - destruct (begun_known s a q p k) as [docs Hd]; [done..|].
    destruct (load_ok q s a.2 docs p k _ _ Hs Hd Ht Hl) as [-> _].
    destruct (completes_failed current Hlive s ts log a i q (Locked p k) e s) as [E Hinv']; try done; [by eapply Ha| |].
    { rewrite phases_compose. unfold in_phases. pose proof Hs as [Hc _]. by rewrite (begin_hit s a.2 q p k), Hl. }
    split; [by intros ? [= <-]|done].
  - destruct (completes current Hlive s ts log a i q (Loaded p k x) r s') as [E Hinv']; try done; [by eapply Ha|..].
    + by erewrite finish_exec.
    + pose proof (finish_grows q p x s) as Hg. by rewrite Hf in Hg.
    + intros j q' p' k' x' docs Hne Hj. by eapply loaded_stable.
    + split; [by intros ? [= <-]|done].
Qed.

Lemma schedule_ok current (Hlive : live current) s0 a0 log s ts : represents s0 a0 -> schedule hash qs s0 log s ts ->
  admissible_run (requests log) a0 ->
  replies log = (spec_run (requests log) a0).1 /\ schedule_inv s ts log (spec_run (requests log) a0).2.
Proof.
  intros Hr. induction 1 as [|log s ts i q ph s' ph' _ IH Hi Hstep].
  - intros _. split; [done|]. constructor; try done; cbn.
    + rewrite <- list_fmap_compose. apply list_fmap_id.
    + intros i q ph (q' & [= -> ->] & _)%list_lookup_fmap_Some. done.
    + intros i j t u x (q' & -> & _)%list_lookup_fmap_Some. done.
    + intros i q r. split; [|by intros ?%elem_of_nil]. by intros (q' & ? & _)%list_lookup_fmap_Some.
    + constructor.
  - unfold requests, replies. rewrite !fmap_app. intros [Hlog Hone]%admissible_run_app.
    destruct (IH Hlog) as [Erep Hinv]. unfold requests, replies in *. rewrite spec_run_app, Erep.
    destruct (spec_run (_ <$> log) a0) as [r1 a1] eqn:Er. cbn [fst snd] in *.
    destruct (phase_step_inv current Hlive s ts log a1 i q ph s' ph' Hinv Hi Hstep) as [Ereply Hinv'].
    { intros r ->. cbn in Hone. by destruct Hone. }
    destruct ph'; cbn in *; try by rewrite ?app_nil_r in *.
    destruct (spec (as_request q) a1). cbn in *. by rewrite (Ereply r eq_refl) in *.
Qed.

(** A thread no lock can hold up; one that waits for its shard. *)
Definition running (t : single * phase) : bool :=
  match t.2 with Waiting | Locked _ _ | Loaded _ _ _ => true | _ => false end.
Definition waiting (t : single * phase) : bool := match t.2 with Ready _ _ => true | _ => false end.
(** Until every thread is done, one can move. *)
Lemma schedule_moves s ts : (forall i q ph, ts !! i = Some (q, ph) -> exists r, ph = Done r) \/
  exists i q ph s' ph', ts !! i = Some (q, ph) /\ phase_step hash ts q s ph s' ph'.
Proof.
  destruct (decide (Exists (fun t => running t = true) ts)) as [He|He].
  { right. apply Exists_exists in He as ([q ph] & [i Hi]%list_elem_of_lookup & Hp). exists i, q, ph. destruct ph as [|p k|p k|p k x|r]; try done.
    - destruct (begin q s) as [[[p k]|e] s'] eqn:E; do 2 eexists; (split; [done|]); by constructor.
    - destruct (load q p k s) as [[x|e] s'] eqn:E; do 2 eexists; (split; [done|]); by constructor.
    - destruct (finish q p x s) as [r s'] eqn:E; do 2 eexists; (split; [done|]); by constructor. }
  assert (Hno : forall t, t ∈ ts -> (exists r, t.2 = Done r) \/ exists p k, t.2 = Ready p k).
  { intros [q ph] Hin. destruct ph as [|p k|p k|p k x|r]; eauto; exfalso; apply He, Exists_exists; by eexists. }
  destruct (decide (Exists (fun t => waiting t = true) ts)) as [Hr|Hr].
  - right. apply Exists_exists in Hr as ([q ph] & [i Hi]%list_elem_of_lookup & Hp). destruct ph as [|p k|p k|p k x|r]; try done.
    exists i, q, (Ready p k), s, (Locked p k). split; [done|]. constructor. intros id [q' ph'] _ Hin.
    destruct (Hno _ Hin) as [[r Er]|(p' & k' & Er)]; cbn in Er; by subst.
  - left. intros i q ph Hi. apply list_elem_of_lookup_2 in Hi. destruct (Hno _ Hi) as [[r Er]|(p & k & Er)]; [by exists r|].
    exfalso. apply Hr, Exists_exists. exists (q, ph). split; [done|]. cbn in Er. by subst.
Qed.
End linear.
