(* ===== verification/Guarantees.v ===== *)
(** * What the database guarantees

    The theorems a client of the database relies on, from the refinement of
    single operations to whole histories: recovery, exact indexes, revision
    checks, bulk insertion, errors without effect, and interleaved writers.
    The module [RefStorage] instantiates every parameter with computable
    functions; the witnesses run the database on it. *)

From S2P Require Import Prelude Bytes F64 Json Errors Externals Filter Secondary Backend Index Storage Document Consistency Refinement Mutations Bulk Catalog Indexing Recovery History Locks Concurrency.

(** ** Reference instances and an empty database *)

Module RefStorage.
Import Ref.
Definition to_text `{Countable A} (a : A) : bytes := str_bytes (pos_string (encode a)).
Definition of_text `{Countable A} (b : bytes) : option A := decode (string_pos (bytes_str b)).
Lemma of_text_to_text `{Countable A} (a : A) : of_text (to_text a) = Some a.
Proof. unfold of_text, to_text. by rewrite bytes_str_str_bytes, string_pos_string, countable.decode_encode. Qed.

Definition def_tuple (d : IndexDef) := (idx_name d, idx_collection d, idx_field d, idx_fields d, idx_created_at d).
#[export] Instance storage_serde : StorageSerde := {
  collection_meta_to_vec m := Some (to_text (cm_name m, cm_created_at m));
  index_def_to_vec d := Some (to_text (def_tuple d));
  index_def_from_slice b :=
    '(n, c, f, fs, t) ← of_text b;
    Some {| idx_name := n; idx_collection := c; idx_field := f; idx_fields := fs; idx_created_at := t |};
  ttl_to_vec t := Some (to_text (retention_days t, ttl_field t, enabled t));
  ttl_from_slice b := '(n, f, e) ← of_text b; Some {| retention_days := n; ttl_field := f; enabled := e |};
  ser_error := "error";
  de_error _ := "error";
  utf8_error _ := "error";
  uuid_timestamp _ := None;
}.
#[export] Instance storage_serde_laws : StorageSerdeLaws.
Proof.
  split.
  - intros m. by eexists.
  - intros d. by eexists.
  - intros d b [= <-]. cbn. rewrite of_text_to_text. by destruct d.
Qed.
(** No accelerator. *)
#[export] Instance accelerator : ScanAccelerator := {
  accel := unit;
  accel_new := tt;
  on_insert a _ _ _ := a;
  on_update a _ _ _ _ := a;
  on_delete a _ _ _ := a;
  on_drop_collection a _ := a;
  has_columns _ := false;
  set_ready a _ := a;
}.
End RefStorage.

Section fresh.
Context `{SerdeJson} `{!SerdeLaws} `{BackendLaws} `{StorageSerde} `{!StorageSerdeLaws} `{ScanAccelerator} `{RegexLib}.

(** What [open_with_config] makes of an engine without entries. *)
Lemma empty_view (V : PartitionId -> bytes -> option bytes) : (forall p k, V p k = None) -> view_inv V [] ∅.
Proof.
  intros HV. constructor.
  - intros c _ k v. rewrite HV. split; [done|]. intros (id & doc & Hd & _). unfold docs_of in Hd.
    rewrite lookup_empty in Hd. cbn in Hd. by rewrite lookup_empty in Hd.
  - intros c docs. by rewrite lookup_empty.
  - intros kv ?%elem_of_nil. done.
  - intros c n k _ _. by rewrite HV.
  - intros k _. rewrite HV. split; [by intros []|]. intros (c & [x Hx] & _). by rewrite lookup_empty in Hx.
  - intros k v _. rewrite HV. split; [done|]. by intros (kv & ?%elem_of_nil & _).
  - split; [constructor|]. split; constructor.
Qed.
Lemma open_empty e marker written engine_type : healthy e -> (forall p, contents e p = []) ->
  check_engine_marker marker engine_type = Ok tt -> write_engine_marker marker written = Ok tt ->
  exists s, open_with_config marker written engine_type (Ok e) = Ok s /\ represents s ([], ∅).
Proof.
  intros Hh He Hm Hw.
  set (s0 := {| eng := e; meta := partition_of "_meta"; index_manager := []; doc_counts := ∅;
    scan_accelerator := accel_new; collections := ∅; partitions := ∅ |}).
  assert (Hi : core_inv s0 ∅).
  { constructor; cbn; try done. apply empty_view. intros p k. unfold view. by rewrite He. }
  destruct (open_ok s0 ∅ marker written engine_type Hi Hm Hw) as (s & E & Hs & Hp). exists s. split; [exact E|].
  split; [|done]. by apply Permutation_nil.
Qed.
End fresh.

(** ** Histories *)

Section guarantees.
Context `{SerdeJson} `{!SerdeLaws} `{BackendLaws} `{StorageSerde} `{!StorageSerdeLaws} `{ScanAccelerator} `{RegexLib}.
Context (current : option CancelToken) (Hlive : live current).

(** C2: the database implements its specification. From any state that
    represents a registry of indexes and a map of documents, any sequence of
    admissible requests (collections, documents, bulk and by-query mutations,
    indexes, in any order) answers, request by request, what the
    specification answers, errors included, and ends in a state that
    represents the specification's: documents, index entries, catalog,
    caches and counters. *)
Theorem history_refines (qs : list request) (s : Storage) (a : IndexManager * db) :
  represents s a -> admissible_run qs a ->
  exists s', run current qs s = ((spec_run qs a).1, s') /\ represents s' (spec_run qs a).2.
Proof. by apply run_refines. Qed.

(** C5: what was committed survives a restart. Reopening the engine after any
    admissible history, with the marker of the same engine type, gives a
    state that represents the same documents and the same indexes: nothing
    is rebuilt differently from what the running database had. *)
Theorem reopen_recovers (qs : list request) (s : Storage) (a : IndexManager * db)
    (marker : option (result string string)) (written : result string unit) (engine_type : string) :
  represents s a -> admissible_run qs a ->
  check_engine_marker marker engine_type = Ok tt -> write_engine_marker marker written = Ok tt ->
  let '(m, d) := (spec_run qs a).2 in
  exists s'' m'', open_with_config marker written engine_type (Ok (eng (run current qs s).2)) = Ok s'' /\
    m'' ≡ₚ m /\ represents s'' (m'', d).
Proof.
  intros Hr Ha Hm Hw. destruct (run_refines current Hlive qs s a Hr Ha) as (s' & E & Hr').
  rewrite E. destruct (spec_run qs a).2 as [m d]. destruct Hr' as [Hix [Hi _]]. cbn in *.
  destruct (open_ok s' d marker written engine_type Hi Hm Hw) as (s'' & E' & Hs'' & Hp).
  exists s'', (index_manager s''). rewrite <- Hix. done.
Qed.

(** C4: indexes never drift from the documents. After any admissible history,
    whatever was created, dropped, inserted, replaced or deleted in it, an
    equality lookup through a single-field index answers exactly the documents
    the collection then has with that value, each once, and [count_eq] their
    number; provided neither the value looked up nor any stored value of the
    field has a NUL byte in its text, which the code takes for the end of the
    value (index/secondary.rs:132). *)
Theorem index_stays_exact (qs : list request) (s : Storage) (a : IndexManager * db)
    (collection field : string) (v : Value) (def : IndexDef) (p : PartitionId) (docs : gmap string Value) :
  represents s a -> admissible_run qs a ->
  let s' := (run current qs s).2 in
  get_index_for_field (index_manager s') collection field = Some (def, p) ->
  (spec_run qs a).2.2 !! collection = Some docs ->
  (forall id doc w, docs !! id = Some doc -> resolve_json_path doc field = Some w -> index_safe w) -> index_safe v ->
  exists ids, lookup_eq current (index_manager s') (eng s') collection field v = Ok (Some ids) /\ NoDup ids /\
    count_eq (index_manager s') (eng s') collection field v = Some (lenZ ids) /\
    forall id, id ∈ ids <-> field_selects docs field (eq_total v) id.
Proof.
  intros Hr Ha s' Hf Hd Hw Hv. destruct (run_refines current Hlive qs s a Hr Ha) as (s1 & E & Hr1).
  subst s'. rewrite E in *. cbn [snd] in *. destruct (spec_run qs a).2 as [m d]. destruct Hr1 as [Hix [Hi _]]. cbn in Hd, Hix.
  pose proof Hi as [Hh _ _ _ HV]. destruct (index_for_field_in _ _ _ _ _ Hf) as (kv & Hin & Hk & <- & <-).
  pose proof (vi_idx _ _ _ HV _ Hin) as Hiv. rewrite Hk in Hiv. unfold docs_of in Hiv. cbn [snd] in Hiv. rewrite Hd in Hiv.
  apply (lookup_eq_ids current _ _ _ _ _ (entry_def kv.2) (entry_partition kv.2) docs); try done.
  - by apply index_view_holds.
  - intros id doc Hdoc. destruct (vi_ok _ _ _ HV _ _ Hd) as [_ Hok]. split; [by destruct (Hok _ _ Hdoc)|eauto].
Qed.

Definition reply_failed (r : reply) : bool :=
  match r with
  | AUnit r => is_err r | AValue r => is_err r | ACount r => is_err r
  | ABulk r => is_err r | AInfo r => is_err r | AIndex r => is_err r
  end.
Lemma on_docs_err {A} c (d : db) (f : gmap string Value -> res A * gmap string Value) :
  (forall docs, is_err (f docs).1 = true -> (f docs).2 = docs) -> is_err (on_docs c d f).1 = true -> (on_docs c d f).2 = d.
Proof. intros Hf Hr. destruct (on_docs c d f).1 as [|e] eqn:E; [done|]. eapply on_docs_fail; [|exact E]. intros docs Ef. apply Hf. by rewrite Ef. Qed.
Lemma spec_error (q : request) m (d : db) : reply_failed (spec q (m, d)).1 = true -> (spec q (m, d)).2 = (m, d).
Proof.
  destruct q; cbn [spec on_data reply_failed fst snd]; intros Hr; f_equal; try (revert Hr; apply on_docs_err; intros docs).
  all: unfold spec_create_collection, spec_drop_collection, spec_bulk, with_filter, insert_docs, spec_update_by_query in *.
  all: repeat case_match; try done; try (revert Hr; apply on_docs_err; done).
Qed.
(** a request that answers an error has no effect. In a state that
    represents a database, an admissible request whose answer is an error
    leaves a state that represents the same registry and the same documents,
    to the last index entry and counter. *)
Theorem failed_request_has_no_effect (q : request) (s : Storage) (a : IndexManager * db) :
  represents s a -> admissible q a.2 -> reply_failed (exec current q s).1 = true ->
  represents (exec current q s).2 a.
Proof.
  intros Hr Ha. destruct (exec_refines current Hlive q s a Hr Ha) as (s' & -> & Hr'). cbn [fst snd].
  destruct a as [m d]. intros Hf. by rewrite (spec_error q m d Hf) in Hr'.
Qed.

(** ** Revisions *)

Lemma rev_of_stamped id now created received n obj : 0 <= n < 2 ^ 64 ->
  rev_of (VObject (map_insert "_received_at" received (map_insert "_updated_at" now (map_insert "_created_at" created
    (map_insert "_rev" (VNumber (PosInt n)) (map_insert "_id" id obj)))))) = Some n.
Proof. intros Hn. unfold rev_of. cbn [get]. autorewrite with json. cbn. by apply num_as_u64_pos. Qed.
Lemma wrap64_range x : 0 <= wrap64 x < 2 ^ 64.
Proof. by apply Z.mod_pos_bound. Qed.
Lemma wrap64_next r : wrap64 (r + 1) <> r.
Proof.
  unfold wrap64. intros E. assert (0 <= r < 2 ^ 64) by (rewrite <- E; by apply Z.mod_pos_bound).
  destruct (decide (r + 1 = 2 ^ 64)) as [Hr|Hr]; [rewrite Hr, Z_mod_same_full in E; lia|rewrite Z.mod_small in E; lia].
Qed.
Lemma replacement_revision old id now doc new : replacement old id now doc = Ok new ->
  rev_of new = Some (wrap64 (default 0 (rev_of old) + 1)) /\
  text_of new "_created_at" = text_of old "_created_at" /\ text_of new "_received_at" = text_of old "_received_at" /\
  get new "_id" = Some (VString id) /\
  (forall r, rev_of doc = Some r -> r = default 0 (rev_of old)).
Proof.
  unfold replacement. intros (u & Hc & (obj & Hobj & [= <-])%bind_ok)%bind_ok. split_and!.
  - apply rev_of_stamped, wrap64_range.
  - unfold text_of at 1. cbn [get]. by autorewrite with json.
  - unfold text_of at 1. cbn [get]. by autorewrite with json.
  - cbn [get]. by autorewrite with json.
  - intros r Hr. rewrite Hr in Hc. destruct (Z.eqb_spec r (default 0 (rev_of old))); [done|]. done.
Qed.

(** the revision check. Replacing a stored document with one that carries
    a revision succeeds only when it is the stored one; then the new document
    has the next revision (modulo 2^64), the identifier of the request and the
    creation and receipt times of the old one, and it alone changes. A stale
    revision is refused as a conflict, without effect. *)
Theorem replace_checks_revision (now collection id : string) (doc old : Value) (r : Z) (s : Storage) (d : db)
    (docs : gmap string Value) :
  storage_inv s d -> d !! collection = Some docs -> docs !! id = Some old -> rev_of doc = Some r ->
  (forall new, replacement old id now doc = Ok new -> round_trip new) ->
  let '(res, s') := replace_document now collection id doc s in
  let current := default 0 (rev_of old) in
  match res with
  | Ok new =>
      r = current /\ rev_of new = Some (wrap64 (r + 1)) /\ get new "_id" = Some (VString id) /\
      text_of new "_created_at" = text_of old "_created_at" /\ text_of new "_received_at" = text_of old "_received_at" /\
      storage_inv s' (<[collection := <[id := new]> docs]> d)
  | Err e =>
      (r <> current -> e = DocumentConflict ("Expected rev " +:+ pretty r +:+ ", current is " +:+ pretty current)) /\
      storage_inv s' d
  end.
Proof.
  intros Hs Hd Ho Hr Hrt.
  destruct (rewrite_refines_aux now collection id (fun _ => doc) d) with (s := s) as (s' & E & Hs'); [|done|].
  { intros docs' old' new Hd' Ho'. simplify_eq. by apply Hrt. }
  change (replace_document now collection id doc s = ((spec_rewrite now collection id (fun _ => doc) d).1, s')) in E.
  rewrite E. clear E. revert Hs'. unfold spec_rewrite, on_docs. rewrite Hd, Ho.
  destruct (replacement old id now doc) as [new|e] eqn:En; cbn [fst snd].
  - destruct (replacement_revision _ _ _ _ _ En) as (A & B & C & D & F). specialize (F r Hr). subst r.
    destruct (sized_bytes new); cbn [fst snd]; [done|]. rewrite insert_id by done. by split; [|].
  - rewrite insert_id by done. split; [|done]. intros Hne. revert En. unfold replacement. rewrite Hr.
    destruct (Z.eqb_spec r (default 0 (rev_of old))); [done|]. cbn. by intros [= <-].
Qed.

(** ** Interleavings *)

Definition succeeded (r : reply) : bool := negb (reply_failed r).

(** C3: every interleaving is a sequential history. Threads that insert, get,
    replace, patch and delete single documents, their phases interleaved in
    any way the shards allow, answer exactly what the sequential
    specification answers to the same requests in the order they completed,
    and leave a state that represents its result; each thread is answered at
    most once; and while a thread is not done, some thread can move. *)
Theorem interleavings_linearize (hash : string -> string -> Z) (qs : list single) (s0 : Storage) (a0 : IndexManager * db)
    (log : list (nat * single * reply)) (s : Storage) (ts : list (single * phase)) :
  fresh_uuids qs -> represents s0 a0 -> schedule hash qs s0 log s ts -> admissible_run (requests log) a0 ->
  replies log = (spec_run (requests log) a0).1 /\ represents s (spec_run (requests log) a0).2 /\
  (forall i q r, ts !! i = Some (q, Done r) <-> (i, q, r) ∈ log) /\ NoDup (fst ∘ fst <$> log) /\
  ((forall i q ph, ts !! i = Some (q, ph) -> exists r, ph = Done r) \/
   exists i q ph s' ph', ts !! i = Some (q, ph) /\ phase_step hash ts q s ph s' ph').
Proof.
  intros Hf Hr Hsch Ha. destruct (schedule_ok hash qs Hf current Hlive s0 a0 log s ts Hr Hsch Ha) as [E [I1 _ _ _ I5 I6]].
  split_and!; [done..|]. apply schedule_moves.
Qed.

(** A replacement of one document that claims the revision [r]. *)
Definition claims (c id : string) (r : Z) (q : single) : Prop :=
  exists now doc, q = Replace now c id doc /\ rev_of doc = Some r.
Lemma stale_fail c id r l (a : IndexManager * db) docs old : Forall (fun q => exists q', q = as_request q' /\ claims c id r q') l ->
  a.2 !! c = Some docs -> docs !! id = Some old -> default 0 (rev_of old) <> r ->
  List.filter succeeded (spec_run l a).1 = [].
Proof.
  revert a docs; induction l as [|q l IH]; intros [m d] docs Hl Hd Ho Hne; [done|].
  inversion Hl as [|? ? (q' & -> & now & doc & -> & Hr) Hl']; subst. cbn in Hd.
  assert (Hf : reply_failed (spec (RReplace now c id doc) (m, d)).1 = true).
  { cbn. unfold spec_replace, spec_rewrite, on_docs. rewrite Hd, Ho. destruct (replacement old id now doc) as [new|e] eqn:En; [|done].
    destruct (replacement_revision _ _ _ _ _ En) as (_ & _ & _ & _ & F). by destruct (Hne (eq_sym (F r Hr))). }
  pose proof (spec_error _ _ _ Hf) as Ea. cbn [as_request spec_run]. destruct (spec (RReplace now c id doc) (m, d)) as [rep a'].
  cbn in Ea, Hf. subst a'. specialize (IH (m, d) docs Hl' Hd Ho Hne). destruct (spec_run l (m, d)). cbn in *.
  unfold succeeded at 1. by rewrite Hf.
Qed.
Lemma one_success c id r l (a : IndexManager * db) : Forall (fun q => exists q', q = as_request q' /\ claims c id r q') l ->
  (length (List.filter succeeded (spec_run l a).1) <= 1)%nat.
Proof.
  revert a; induction l as [|q l IH]; intros [m d] Hl; [cbn; lia|].
  inversion Hl as [|? ? (q' & -> & now & doc & -> & Hr) Hl']; subst. cbn [as_request spec_run].
  destruct (reply_failed (spec (RReplace now c id doc) (m, d)).1) eqn:Hf.
  - pose proof (spec_error _ _ _ Hf) as Ea. destruct (spec (RReplace now c id doc) (m, d)) as [rep a'].
    cbn in Ea, Hf. subst a'. specialize (IH (m, d) Hl'). destruct (spec_run l (m, d)). cbn in *. unfold succeeded at 1. by rewrite Hf.
  - assert (exists docs new, (spec (RReplace now c id doc) (m, d)).2.2 !! c = Some docs /\ docs !! id = Some new /\
      rev_of new = Some (wrap64 (r + 1))) as (docs & new & Hd' & Hn' & Hrev).
    { revert Hf. cbn. unfold spec_replace, spec_rewrite, on_docs. destruct (d !! c) as [docs|]; [|done].
      destruct (docs !! id) as [old|]; [|done]. destruct (replacement old id now doc) as [new|] eqn:En; [|done].
      destruct (sized_bytes new); [|done]. intros _. cbn. exists (<[id := new]> docs), new. rewrite !lookup_insert_eq.
      destruct (replacement_revision _ _ _ _ _ En) as (A & _ & _ & _ & F). by rewrite <- (F r Hr) in A. }
    destruct (spec (RReplace now c id doc) (m, d)) as [rep a']. cbn in Hd', Hf.
    pose proof (stale_fail c id r l a' docs new Hl' Hd' Hn') as Hz. rewrite Hrev in Hz.
    specialize (Hz (wrap64_next r)). destruct (spec_run l a') as [l1 a1]. cbn in *. rewrite Hz. destruct (succeeded rep); cbn; lia.
Qed.

(** C6: no lost update. However many threads replace one document, all
    claiming the same revision, and however they interleave, at most one is
    told that it succeeded. *)
Theorem one_revision_one_winner (hash : string -> string -> Z) (collection id : string) (r : Z) (qs : list single)
    (s0 : Storage) (a0 : IndexManager * db) (log : list (nat * single * reply)) (s : Storage) (ts : list (single * phase)) :
  Forall (claims collection id r) qs -> represents s0 a0 -> schedule hash qs s0 log s ts ->
  admissible_run (requests log) a0 ->
  (length (List.filter succeeded (replies log)) <= 1)%nat.
Proof.
  intros Hq Hr Hsch Ha. rewrite Forall_forall in Hq.
  assert (Hf : fresh_uuids qs) by (intros now uuid c doc q p Hin; by destruct (Hq _ Hin) as (? & ? & ? & _)).
  destruct (schedule_ok hash qs Hf current Hlive s0 a0 log s ts Hr Hsch Ha) as [-> [_ I2 _ _ I5 _]].
  eapply one_success. apply Forall_fmap, Forall_forall. intros [[i q] rep] Hin. exists q. split; [done|].
  apply Hq. rewrite <- I2. apply I5 in Hin. change q with (q, Done rep).1. apply list_elem_of_fmap_2. by eapply list_elem_of_lookup_2.
Qed.
End guarantees.

Section more_guarantees.
Context `{SerdeJson} `{!SerdeLaws} `{BackendLaws} `{StorageSerde} `{!StorageSerdeLaws} `{ScanAccelerator} `{RegexLib}.

(** a bulk insertion is its documents inserted one by one. Though it
    checks identifiers in two passes and commits one batch, it leaves the
    documents that single insertions in order leave, counts as inserted those
    that succeed, and reports exactly the positions that fail, ascending, each
    with a message that names its position. *)
Theorem bulk_insert_is_sequential (now uuid : nat -> string) (collection : string) (documents : list Value)
    (s : Storage) (d : db) (docs : gmap string Value) :
  lenZ documents <= MAX_BULK_INSERT -> storage_inv s d -> d !! collection = Some docs ->
  (forall j, id_safe (uuid j)) -> (forall j, docs !! uuid j = None) -> Inj (=) (=) uuid ->
  Forall (custom_ok uuid) documents -> Forall stamps_round_trip documents ->
  let out := seq_inserts now uuid 0 documents docs in
  exists messages s',
    bulk_insert_documents now uuid collection documents s =
      (Ok (lenZ documents - lenZ (failing 0 out.1), messages), s') /\
    Forall2 (fun i message => exists m, message = (doc_error i m).2) (failing 0 out.1) messages /\
    storage_inv s' (<[collection := out.2]> d).
Proof.
  intros Hlen Hs Hd Hu Hf Hinj Hc Hrt out.
  destruct (bulk_ok now uuid docs Hu Hf Hinj collection documents s d) as (errors & s' & E & Hpos & Herr & Hs'); [done..|].
  fold out in E, Hpos, Hs'. exists (sort_by error_order errors).*2, s'. split; [exact E|]. split; [|done].
  rewrite <- Hpos. apply Forall2_fmap, Forall_Forall2_diag. rewrite (sort_by_perm error_order errors).
  eapply Forall_impl; [exact Herr|]. intros [i x] [m Em]. exists m. by rewrite Em.
Qed.

(** the catalog is exact. [list_collections] names exactly the
    collections there are, each once, in the order of their names, with the
    number of documents each has (below 2^63) and the names of the indexes
    registered for it, and changes nothing. *)
Theorem list_collections_exact (s : Storage) (d : db) :
  storage_inv s d -> (forall c docs, d !! c = Some docs -> Z.of_nat (size docs) < 2 ^ 63) ->
  exists infos, list_collections s = (Ok infos, s) /\
    StronglySorted (fun a b => str_cmp a b = Lt) (ci_name <$> infos) /\
    (forall c, c ∈ ci_name <$> infos <-> is_Some (d !! c)) /\
    forall info docs, info ∈ infos -> d !! ci_name info = Some docs ->
      ci_doc_count info = Z.of_nat (size docs) /\
      ci_indexes info = idx_name <$> get_indexes_for_collection (index_manager s) (ci_name info).
Proof.
  intros [Hi Hc] Hsize. destruct (collection_names_ok s d Hi) as (names & E & Hsorted & Hn).
  exists (collection_info s <$> names). unfold list_collections, op_bind. rewrite E. split; [done|].
  assert (En : ci_name <$> (collection_info s <$> names) = names).
  { rewrite <- list_fmap_compose. apply list_fmap_id. }
  rewrite En. split_and!; [done..|]. intros info docs (c & -> & Hin)%list_elem_of_fmap Hd. split; [|done].
  cbn in *. unfold counters_get. rewrite (Hc _ _ Hd). specialize (Hsize _ _ Hd). cbn. unfold wrap_i64.
  rewrite Z.mod_small by lia. lia.
Qed.

(** Exactly these texts become identifiers: non-empty strings of at most
    512 bytes that do not start with an underscore, are no path segment ["."]
    or [".."], and hold no separator and no control character. *)
Theorem validate_custom_id_exact (v : Value) (id : string) :
  validate_custom_id v = Ok id <->
  v = VString id /\ id <> EmptyString /\ str_len id <= MAX_CUSTOM_ID_LENGTH /\
  starts_with (str_bytes id) (str_bytes "_") = false /\ id <> "." /\ id <> ".." /\
  47 ∉ str_bytes id /\ 92 ∉ str_bytes id /\ has_control (str_bytes id) = false.
Proof. rewrite validate_custom_id_iff, segment_fault_none. naive_solver. Qed.
End more_guarantees.

(** ** The database at work: witnesses *)

Module Demo.
Import Ref RefStorage RefBackend.
Definition nothing : engine := empty_db.
Definition meta_partition : PartitionId := "_meta".
Definition fresh : Storage := {| eng := nothing; meta := meta_partition; index_manager := []; doc_counts := ∅;
  scan_accelerator := accel_new; collections := ∅; partitions := ∅ |}.
Lemma fresh_represents : represents fresh ([], ∅).
Proof.
  destruct (open_empty nothing None (Ok tt) "fjall") as (s & E & Hs); [exact I|done..|].
  assert (Ef : open_with_config None (Ok tt) "fjall" (Ok nothing) = Ok fresh) by reflexivity.
  rewrite Ef in E. by injection E as <-.
Qed.
Lemma round_trips doc : round_trip doc.
Proof. intros b. apply from_slice_to_vec. Qed.

Definition obj (id : string) (n : Z) : Value := VObject [("_id", VString id); ("n", VNumber (PosInt n))].
Definition requests : list request :=
  [RCreateCollection "t0" "c"; RInsert "t1" "u1" "c" (obj "a" 7); RCreateIndex "t2" "c" "i" ["n"];
   RInsert "t3" "u3" "c" (obj "a" 8); RInsert "t4" "u4" "c" (obj "b" 8)].
Lemma safe_id u : u <> EmptyString -> bool_decide (0 ∈ str_bytes u) = false -> utf8_valid (str_bytes u) = true -> id_safe u.
Proof. intros A B C. split_and!; [done|by apply bool_decide_eq_false in B|done]. Qed.
Lemma insert_admissible now uuid id n (d : Refinement.db) : id_safe uuid -> utf8_valid (str_bytes id) = true ->
  (d !! "c" ≫= fun docs => docs !! uuid) = None -> admissible (RInsert now uuid "c" (obj id n)) d.
Proof.
  intros Hu Hid Hf. split_and!; [apply Hu..| | |intros; apply round_trips].
  - intros docs Hd. by rewrite Hd in Hf.
  - intros o s [= <-] [= <-]. done.
Qed.
Lemma admissible_requests : admissible_run requests ([], ∅).
Proof.
  unfold requests. cbn [admissible_run]. split_and!; try done;
    try (apply insert_admissible; [by apply safe_id|reflexivity|vm_compute; reflexivity]).
  split_and!; [| |reflexivity]; by apply (bool_decide_eq_false _).
Qed.
(** After them: one collection, two documents, one index. *)
Definition s1 : Storage := (run None requests fresh).2.
Definition stored (id t : string) (n : Z) : Value :=
  VObject (stamp_new id t [("n", VNumber (PosInt n))]).
Definition docs : gmap string Value := {["a" := stored "a" "t1" 7; "b" := stored "b" "t4" 8]}.
Definition d1 : Refinement.db := {["c" := docs]}.
Definition def : IndexDef := IndexDef_new "i" "c" ["n"] "t2".
Definition m1 : IndexManager := register [] def (partition_of (index_name "c" "i")).
Lemma spec_requests : (spec_run requests ([], ∅)).2 = (m1, d1).
Proof. vm_compute. reflexivity. Qed.
Lemma s1_represents : represents s1 (m1, d1).
Proof.
  destruct (run_refines None I requests fresh ([], ∅) fresh_represents admissible_requests) as (s' & E & Hs).
  rewrite spec_requests in Hs. unfold s1. by rewrite E.
Qed.
Lemma demo_docs_inv id doc : docs !! id = Some doc -> doc = stored "a" "t1" 7 \/ doc = stored "b" "t4" 8.
Proof. unfold docs. rewrite lookup_insert_Some, lookup_singleton_Some. naive_solver. Qed.
Lemma d1_inv c x : d1 !! c = Some x -> c = "c" /\ x = docs.
Proof. unfold d1. rewrite lookup_singleton_Some. naive_solver. Qed.
Lemma docs_at c : d1 !! c = if decide (c = "c") then Some docs else None.
Proof. unfold d1. case_decide; [subst; apply lookup_singleton_eq|by apply lookup_singleton_ne]. Qed.
End Demo.
Import Ref RefStorage RefBackend Demo.

Lemma history_refines_witness : exists s', run None requests fresh = ((spec_run requests ([], ∅)).1, s') /\
  represents s' (m1, d1) /\ reply_failed <$> (spec_run requests ([], ∅)).1 = [false; false; false; true; false].
Proof.
  destruct (history_refines None I requests fresh ([], ∅) fresh_represents admissible_requests) as (s' & E & Hs).
  exists s'. split; [exact E|]. rewrite spec_requests in Hs. split; [exact Hs|]. vm_compute. reflexivity.
Defined.

Lemma reopen_recovers_witness : exists s'' m'', open_with_config None (Ok tt) "fjall" (Ok (eng s1)) = Ok s'' /\
  m'' ≡ₚ m1 /\ represents s'' (m'', d1).
Proof.
  pose proof (reopen_recovers None I requests fresh ([], ∅) None (Ok tt) "fjall" fresh_represents admissible_requests
    eq_refl eq_refl) as Hr.
  rewrite spec_requests in Hr. exact Hr.
Defined.

Lemma index_stays_exact_witness :
  exists ids, lookup_eq None (index_manager s1) (eng s1) "c" "n" (VNumber (PosInt 8)) = Ok (Some ids) /\ "b" ∈ ids.
Proof.
  destruct (index_stays_exact None I requests fresh ([], ∅) "c" "n" (VNumber (PosInt 8)) def (partition_of (index_name "c" "i")) docs
    fresh_represents admissible_requests) as (ids & Hids & _ & _ & Hin).
  - vm_compute. reflexivity.
  - rewrite spec_requests. reflexivity.
  - intros id doc w [-> | ->]%demo_docs_inv Hw; revert Hw; vm_compute; by intros [= <-].
  - exact I.
  - exists ids. split; [exact Hids|]. apply Hin. exists (stored "b" "t4" 8), (VNumber (PosInt 8)).
    split; [reflexivity|]. split; vm_compute; reflexivity.
Defined.

Lemma failed_request_has_no_effect_witness :
  represents (exec None (RInsert "t5" "u5" "c" (obj "a" 9)) s1).2 (m1, d1).
Proof.
  apply (failed_request_has_no_effect None I (RInsert "t5" "u5" "c" (obj "a" 9)) s1 (m1, d1) s1_represents).
  - apply insert_admissible; [by apply safe_id|reflexivity|vm_compute; reflexivity].
  - vm_compute. reflexivity.
Defined.

Definition revision (n r : Z) : Value := VObject [("_rev", VNumber (PosInt r)); ("n", VNumber (PosInt n))].
Lemma replace_checks_revision_witness :
  let '(res, s') := replace_document "t6" "c" "a" (revision 9 1) s1 in
  match res with Ok new => rev_of new = Some 2 | Err _ => False end.
Proof.
  pose proof (replace_checks_revision "t6" "c" "a" (revision 9 1) (stored "a" "t1" 7) 1 s1 d1 docs
    (proj2 s1_represents) eq_refl eq_refl eq_refl (fun _ _ => round_trips _)) as Hr.
  assert (Hok : is_err (replace_document "t6" "c" "a" (revision 9 1) s1).1 = false) by (vm_compute; reflexivity).
  destruct (replace_document "t6" "c" "a" (revision 9 1) s1) as [[new|e] s']; [|discriminate Hok].
  exact (proj1 (proj2 Hr)).
Defined.

Definition uuids (j : nat) : string := bytes_str (replicate (S j) 117).
Lemma uuids_bytes j : str_bytes (uuids j) = replicate (S j) 117.
Proof. unfold uuids. rewrite str_bytes_bytes_str; [done|]. apply Forall_replicate. lia. Qed.
Lemma uuids_safe j : id_safe (uuids j).
Proof.
  unfold id_safe. split_and!.
  - intros E%(f_equal str_bytes). by rewrite uuids_bytes in E.
  - rewrite uuids_bytes. intros Hz%elem_of_replicate. lia.
  - rewrite uuids_bytes. cbn. induction j; [done|exact IHj].
Qed.
Lemma bulk_insert_is_sequential_witness : exists s',
  fst <$> (bulk_insert_documents (fun _ => "t7") uuids "c" [obj "z" 1; VNull; VObject []; obj "a" 2; obj "z" 3] s1).1 = Ok 2 /\
  storage_inv s' (<["c" := (seq_inserts (fun _ => "t7") uuids 0 [obj "z" 1; VNull; VObject []; obj "a" 2; obj "z" 3] docs).2]> d1).
Proof.
  destruct (bulk_insert_is_sequential (fun _ => "t7") uuids "c" [obj "z" 1; VNull; VObject []; obj "a" 2; obj "z" 3] s1 d1 docs)
    as (messages & s' & E & _ & Hs).
  - vm_compute. discriminate.
  - exact (proj2 s1_represents).
  - reflexivity.
  - exact uuids_safe.
  - intros j. destruct (docs !! uuids j) as [doc|] eqn:Hd; [|done].
    exfalso. unfold docs in Hd. apply lookup_insert_Some in Hd as [[Ej _]|[_ [Ej _]%lookup_singleton_Some]];
      apply (f_equal str_bytes) in Ej; rewrite uuids_bytes in Ej; discriminate Ej.
  - intros i j E%(f_equal str_bytes). rewrite !uuids_bytes in E. apply (f_equal length) in E. rewrite !length_replicate in E. lia.
  - repeat (apply Forall_cons; split); [..|by apply Forall_nil]; intros o t [= <-]; try discriminate; intros [= <-];
      (split; [reflexivity|]); intros j Ej%(f_equal str_bytes); rewrite uuids_bytes in Ej; discriminate Ej.
  - apply Forall_forall. intros x _ o id t _. apply round_trips.
  - exists s'. split; [rewrite E; vm_compute; reflexivity|exact Hs].
Defined.

Lemma list_collections_exact_witness : exists infos, list_collections s1 = (Ok infos, s1) /\ "c" ∈ ci_name <$> infos.
Proof.
  destruct (list_collections_exact s1 d1 (proj2 s1_represents)) as (infos & E & _ & Hn & _).
  - intros c x [_ ->]%d1_inv. vm_compute. reflexivity.
  - exists infos. split; [exact E|]. apply Hn. by exists docs.
Defined.

(** ** Two writers of one revision *)

Module Race.
Definition hash : string -> string -> Z := fun _ id => str_len id.
Definition writer (t : string) (n : Z) : single := Replace t "c" "a" (revision n 1).
Definition writers : list single := [writer "t8" 20; writer "t9" 30].

Section steps.
Context (log : list (nat * single * reply)) (s : Storage) (ts : list (single * phase)).
Context (Hs : schedule hash writers s1 log s ts).
Lemma go i q ph s' ph' : ts !! i = Some (q, ph) -> phase_step hash ts q s ph s' ph' -> completed i q ph' = [] ->
  schedule hash writers s1 log s' (<[i := (q, ph')]> ts).
Proof. intros Hi Hp Hc. pose proof (sched_step _ _ _ _ _ _ _ _ _ _ _ Hs Hi Hp) as Hn. by rewrite Hc, app_nil_r in Hn. Qed.
Lemma go_begin i q p k : ts !! i = Some (q, Waiting) -> (begin q s).1 = Ok (p, k) ->
  schedule hash writers s1 log (begin q s).2 (<[i := (q, Ready p k)]> ts).
Proof. intros Hi Hb. eapply go; [done|apply step_begin|done]. by rewrite (surjective_pairing (begin q s)), Hb. Qed.
Lemma go_lock i q p k : ts !! i = Some (q, Ready p k) -> Forall (fun t => holds hash t = None) ts ->
  schedule hash writers s1 log s (<[i := (q, Locked p k)]> ts).
Proof.
  intros Hi Hf. eapply go; [done|apply step_lock|done]. intros id t _ Hin. rewrite Forall_forall in Hf. by rewrite (Hf _ Hin).
Qed.
Lemma go_load i q p k x : ts !! i = Some (q, Locked p k) -> (load q p k s).1 = Ok x ->
  schedule hash writers s1 log (load q p k s).2 (<[i := (q, Loaded p k x)]> ts).
Proof. intros Hi Hb. eapply go; [done|apply step_load|done]. by rewrite (surjective_pairing (load q p k s)), Hb. Qed.
Lemma go_finish i q p k x : ts !! i = Some (q, Loaded p k x) ->
  schedule hash writers s1 (log ++ [(i, q, (finish q p x s).1)]) (finish q p x s).2 (<[i := (q, Done (finish q p x s).1)]> ts).
Proof. intros Hi. eapply (sched_step _ _ _ _ _ _ i q _ _ (Done _)); [done..|]. apply step_finish. by apply surjective_pairing. Qed.
End steps.

(** Both begin; the first locks, reads and commits; then the second locks,
    reads what the first wrote and is refused. *)
Lemma race : exists log s ts, schedule hash writers s1 log s ts /\
  (fun x => (x.1.1, reply_failed x.2)) <$> log = [(0%nat, false); (1%nat, true)].
Proof.
  set (p := partition_of (docs_name "c")). set (k := Some "a").
  pose proof (sched_start hash writers s1) as Hs.
  pose proof (go_begin _ _ _ Hs 0 (writer "t8" 20) p k eq_refl ltac:(vm_compute; reflexivity)) as Hs1. clear Hs.
  pose proof (go_begin _ _ _ Hs1 1 (writer "t9" 30) p k eq_refl ltac:(vm_compute; reflexivity)) as Hs2. clear Hs1.
  pose proof (go_lock _ _ _ Hs2 0 (writer "t8" 20) p k eq_refl ltac:(repeat constructor)) as Hs3. clear Hs2.
  pose proof (go_load _ _ _ Hs3 0 (writer "t8" 20) p k (LExisting (stored "a" "t1" 7)) eq_refl ltac:(vm_compute; reflexivity)) as Hs4. clear Hs3.
  pose proof (go_finish _ _ _ Hs4 0 (writer "t8" 20) p k _ eq_refl) as Hs5. clear Hs4.
  match type of Hs5 with schedule _ _ _ (_ ++ [(_, _, ?r)]) _ _ => assert (Hfst : reply_failed r = false) by (vm_compute; reflexivity) end.
  pose proof (go_lock _ _ _ Hs5 1 (writer "t9" 30) p k eq_refl ltac:(repeat constructor)) as Hs6. clear Hs5.
  match type of Hs6 with schedule _ _ _ _ ?s _ => set (s6 := s) in Hs6 end.
  assert (Hl : exists new, (load (writer "t9" 30) p k s6).1 = Ok (LExisting new) /\ rev_of new = Some 2).
  { assert (Hm : match (load (writer "t9" 30) p k s6).1 with Ok (LExisting new) => rev_of new | _ => None end = Some 2)
      by (vm_compute; reflexivity).
    destruct (load (writer "t9" 30) p k s6).1 as [[]|]; try discriminate Hm. by eexists. }
  destruct Hl as (new & Hl & Hrev).
  pose proof (go_load _ _ _ Hs6 1 (writer "t9" 30) p k _ eq_refl Hl) as Hs7. clear Hs6.
  pose proof (go_finish _ _ _ Hs7 1 (writer "t9" 30) p k _ eq_refl) as Hs8.
  match type of Hs8 with schedule _ _ _ (_ ++ [(_, _, ?r)]) _ _ => assert (Hsnd : reply_failed r = true) end.
  { cbn [finish writer]. unfold answer, replace_loaded, op_bind, op_lift, replacement. rewrite Hrev. reflexivity. }
  do 3 eexists. split; [exact Hs8|]. rewrite !fmap_app. cbn [fmap list_fmap fst snd app]. by rewrite Hfst, Hsnd.
Qed.
Lemma writers_claim : Forall (claims "c" "a" 1) writers.
Proof. repeat constructor; by do 2 eexists. Qed.
Lemma replaces_admissible log a : Forall (fun x => exists t n, x.1.2 = writer t n) log ->
  admissible_run (Concurrency.requests log) a.
Proof.
  intros Hl. revert a; induction Hl as [|[[i q] r] log (t & n & Eq) Hl IH]; intros a; [done|]. cbn in Eq. subst q.
  split; [|apply IH]. intros x old doc' _ _ _. apply round_trips.
Qed.
Lemma scheduled log s ts : schedule hash writers s1 log s ts ->
  Forall (fun x => exists t n, x.1.2 = writer t n) log /\ Forall (fun x => exists t n, x.1 = writer t n) ts.
Proof.
  induction 1 as [|log s ts i q ph s' ph' _ [IHl IHt] Hi _].
  - split; [constructor|]. repeat constructor; by do 2 eexists.
  - pose proof (Forall_lookup_1 _ _ _ _ IHt Hi) as Hq. split; [|by apply Forall_insert].
    apply Forall_app. split; [done|]. destruct ph'; repeat constructor. exact Hq.
Qed.
End Race.

Lemma interleavings_linearize_witness : exists log s ts, schedule Race.hash Race.writers s1 log s ts /\ length log = 2%nat /\
  replies log = (spec_run (Concurrency.requests log) (m1, d1)).1.
Proof.
  destruct Race.race as (log & s & ts & Hs & E). exists log, s, ts. split; [exact Hs|].
  apply (f_equal length) in E. rewrite length_fmap in E. split; [exact E|].
  refine (proj1 (interleavings_linearize None I Race.hash Race.writers s1 (m1, d1) log s ts _ s1_represents Hs _)).
  - intros now uuid c doc q p Hin. apply elem_of_cons in Hin as [Hin|Hin%list_elem_of_singleton]; discriminate Hin.
  - apply Race.replaces_admissible. exact (proj1 (Race.scheduled _ _ _ Hs)).
Defined.
Lemma one_revision_one_winner_witness : exists log s ts, schedule Race.hash Race.writers s1 log s ts /\
  (fun x => (x.1.1, reply_failed x.2)) <$> log = [(0%nat, false); (1%nat, true)] /\
  (length (List.filter succeeded (replies log)) <= 1)%nat.
Proof.
  destruct Race.race as (log & s & ts & Hs & E). exists log, s, ts. split; [exact Hs|]. split; [exact E|].
  apply (one_revision_one_winner None I Race.hash "c" "a" 1 Race.writers s1 (m1, d1) log s ts Race.writers_claim s1_represents Hs).
  apply Race.replaces_admissible. exact (proj1 (Race.scheduled _ _ _ Hs)).
Defined.
