(* ===== verification/Page.v ===== *)
(** * Page sinks ([crates/wardsondb/src/query/executor.rs])

    How a stream of matching documents becomes a page: the unsorted collector
    with its early exit, the bounded top-K selection of sorted pages, the
    shared tail that frames a page, and projection. *)

From S2P Require Import Prelude Bytes F64 Json Errors Externals Filter Secondary Sort Cursor Parser Backend.

(** ** Projection *)

Section projection.
Context `{SerdeJson}.

Definition project_fields (doc : Value) (fields : list string) : Value :=
  let result := match get doc "_id" with
    | Some id => map_insert "_id" id []
    | None => []
    end in
  VObject (foldl (fun result field =>
    match resolve_json_path doc field with
    | Some val => map_insert field val result
    | None => result
    end) result fields).

Definition apply_projection (docs : list Value) (fields : option (list string)) : list Value :=
  match fields with
  | Some fields => (fun doc => project_fields doc fields) <$> docs
  | None => docs
  end.
End projection.

(** ** Unsorted pages *)

Record UnsortedPage := {
  to_skip : Z;
  keep : Z;
  up_matches : Z;
  page : list Value;
  broke_early : bool;
}.

Definition unsorted_new (offset limit : Z) : UnsortedPage :=
  {| to_skip := offset; keep := sat_add limit 1; up_matches := 0; page := []; broke_early := false |}.

Definition unsorted_push (s : UnsortedPage) (doc : Value) : UnsortedPage * control_flow :=
  let m := up_matches s + 1 in
  if 0 <? to_skip s then
    ({| to_skip := to_skip s - 1; keep := keep s; up_matches := m; page := page s;
        broke_early := broke_early s |}, Continue)
  else
    let p := page s ++ [doc] in
    if keep s <=? lenZ p then
      ({| to_skip := to_skip s; keep := keep s; up_matches := m; page := p; broke_early := true |}, Break)
    else
      ({| to_skip := to_skip s; keep := keep s; up_matches := m; page := p;
          broke_early := broke_early s |}, Continue).

(** The page truncated to [limit], [has_more], the total if it is exact. *)
Definition unsorted_finish (s : UnsortedPage) (limit : Z) : list Value * bool * option Z :=
  let has_more := limit <? lenZ (page s) in
  (takeZ limit (page s), has_more, if broke_early s then None else Some (up_matches s)).

(** Pushing a stream of matches until the sink breaks. *)
Fixpoint unsorted_run (s : UnsortedPage) (docs : list Value) : UnsortedPage :=
  match docs with
  | [] => s
  | doc :: docs =>
      match unsorted_push s doc with
      | (s, Break) => s
      | (s, Continue) => unsorted_run s docs
      end
  end.

(** ** Bounded selection *)

Section topk.
Context `{SerdeJson}.

Record TopK := {
  k : Z;
  tk_sort : list SortField;
  buf : list (DocSortKey * Value);
  cutoff : option DocSortKey;
  tk_matches : Z;
}.

Definition topk_new (offset limit : Z) (sort : list SortField) : TopK :=
  {| k := sat_add (sat_add offset limit) 1; tk_sort := sort; buf := []; cutoff := None; tk_matches := 0 |}.

Definition row_cmp (sort : list SortField) : DocSortKey * Value -> DocSortKey * Value -> comparison :=
  fun a b => compare_decorated sort a.1 b.1.

Definition topk_compact (t : TopK) : TopK :=
  let b := takeZ (k t) (sort_by (row_cmp (tk_sort t)) (buf t)) in
  {| k := k t; tk_sort := tk_sort t; buf := b;
     cutoff := if lenZ b =? k t then fst <$> (b !! Z.to_nat (k t - 1)) else cutoff t;
     tk_matches := tk_matches t |}.

Definition topk_push (t : TopK) (doc : Value) : TopK :=
  let m := tk_matches t + 1 in
  let key := extract_sort_key doc (tk_sort t) in
  let rejected := match cutoff t with
    | Some c => match compare_decorated (tk_sort t) key c with Gt => true | _ => false end
    | None => false
    end in
  if rejected then
    {| k := k t; tk_sort := tk_sort t; buf := buf t; cutoff := cutoff t; tk_matches := m |}
  else
    let t := {| k := k t; tk_sort := tk_sort t; buf := buf t ++ [(key, doc)]; cutoff := cutoff t; tk_matches := m |} in
    if sat_mul (k t) 2 <=? lenZ (buf t) then topk_compact t else t.

(** Rows in comparator order, and the count of every match pushed. *)
Definition topk_finish (t : TopK) : list (DocSortKey * Value) * Z :=
  (sort_by (row_cmp (tk_sort t)) (buf t), tk_matches t).

(** One match of a sorted or cursor-resumed stream: counted but not kept when
    it is at or before the cursor. *)
Definition sorted_push (cursor : option Cursor) (sort : list SortField) (st : TopK * Z) (doc : Value) : TopK * Z :=
  let '(topk, pre_cursor) := st in
  match cursor with
  | Some c =>
      match compare_doc_to_cursor doc c sort with
      | Gt => (topk_push topk doc, pre_cursor)
      | _ => (topk, pre_cursor + 1)
      end
  | None => (topk_push topk doc, pre_cursor)
  end.

Context `{RegexLib} `{Base64Lib} `{PayloadSerde}.

(** The shared tail: window, [has_more], the next cursor, projection. *)
Definition finish_topk (topk : TopK) (pre_cursor : Z) (query : ParsedQuery) (collection : string)
    : list Value * option Z * bool * option string :=
  let offset := q_offset query in
  let limit := q_limit query in
  let '(rows, kept) := topk_finish topk in
  let total_count := Some (pre_cursor + kept) in
  let start := Z.min offset (lenZ rows) in
  let end_ := Z.min (sat_add start limit) (lenZ rows) in
  let has_more := sat_add offset limit <? kept in
  let next_cursor :=
    if has_more && (start <? end_) then
      '(_, doc) ← rows !! Z.to_nat (end_ - 1);
      encode_cursor doc (q_sort query) collection
    else None in
  let page := snd <$> takeZ (end_ - start) (dropZ start rows) in
  (apply_projection page (q_fields query), total_count, has_more, next_cursor).
End topk.

#[local] Arguments sort_by : simpl never.
#[local] Arguments compare_decorated : simpl never.

(** ** Facts *)

Lemma unsorted_run_skip s docs : 0 <= to_skip s -> page s = [] -> broke_early s = false -> 0 < keep s ->
  let n := Z.to_nat (to_skip s) in
  let s' := unsorted_run s docs in
  page s' = take (Z.to_nat (keep s)) (drop n docs) /\
  broke_early s' = bool_decide (keep s <= lenZ (drop n docs)) /\
  (broke_early s' = false -> up_matches s' = up_matches s + lenZ docs).
Proof.
  intros Hs Hp Hb Hk. cbv zeta.
  (* once skipping is over, the page fills up to [keep] *)
  assert (Hfill : forall docs s, to_skip s = 0 -> broke_early s = false -> lenZ (page s) < keep s ->
    page (unsorted_run s docs) = take (Z.to_nat (keep s)) (page s ++ docs) /\
    broke_early (unsorted_run s docs) = bool_decide (keep s <= lenZ (page s ++ docs)) /\
    (broke_early (unsorted_run s docs) = false -> up_matches (unsorted_run s docs) = up_matches s + lenZ docs)).
  { clear. induction docs as [|d docs IH]; intros s Hs Hb Hl; cbn [unsorted_run].
    - unfold lenZ in *. rewrite app_nil_r, take_ge by lia. rewrite bool_decide_false by lia.
      split_and!; [done|done|cbn; lia].
    - unfold unsorted_push. rewrite Hs. cbn [Z.ltb Z.compare].
      destruct (Z.leb_spec (keep s) (lenZ (page s ++ [d]))) as [Hle|Hlt].
      + cbn. unfold lenZ in *. rewrite length_app in Hle |- *. cbn in Hle |- *.
        rewrite bool_decide_true by lia. split_and!; [|done|done].
        replace (d :: docs) with ([d] ++ docs) by done. rewrite app_assoc, take_app_le, take_ge;
          rewrite ?length_app; cbn; (done || lia).
      + destruct (IH {| to_skip := 0; keep := keep s; up_matches := up_matches s + 1; page := page s ++ [d];
          broke_early := broke_early s |}) as (H1 & H2 & H3); [done|done|exact Hlt|].
        cbn in H1, H2, H3. rewrite <- app_assoc in H1, H2. split_and!; [exact H1|exact H2|].
        intros Hbe. rewrite (H3 Hbe). unfold lenZ. cbn. lia. }
  remember (Z.to_nat (to_skip s)) as n eqn:Hn.
  revert s docs Hs Hp Hb Hk Hn. induction n as [|n IH]; intros s docs Hs Hp Hb Hk Hn.
  - destruct (Hfill docs s) as (H1 & H2 & H3); [lia|done|rewrite Hp; unfold lenZ; cbn; lia|].
    rewrite Hp in H1, H2. done.
  - destruct docs as [|d docs].
    { cbn. rewrite Hp, Hb, take_nil. split_and!; [done| |unfold lenZ; cbn; lia]. by rewrite bool_decide_false by (unfold lenZ; cbn; lia). }
    cbn [unsorted_run]. unfold unsorted_push. destruct (Z.ltb_spec 0 (to_skip s)) as [_|]; [|lia].
    destruct (IH {| to_skip := to_skip s - 1; keep := keep s; up_matches := up_matches s + 1; page := page s;
      broke_early := broke_early s |} docs) as (H1 & H2 & H3); cbn; try done; [lia..|].
    cbn in H1, H2, H3. split_and!; [exact H1|exact H2|].
    intros Hbe. rewrite (H3 Hbe). unfold lenZ. cbn. lia.
Qed.

Section topk_facts.
Context `{SerdeJson} `{!SerdeLaws}.
Implicit Types (t : TopK) (docs : list Value).

#[export] Instance compare_decorated_from_order spec i sfs : CmpOrder (compare_decorated_from spec i sfs).
Proof.
  revert i; induction sfs as [|sf sfs IH]; intros i.
  - apply (cmp_dir_order _ (cmp_on id (option_cmp str_cmp))), _.
  - pose proof (then_cmp_order
      (fun a b => cmp_dir (ascending sf)
        (cmp_on (fun a => mjoin (vals a !! i)) compare_json_values a b))
      (compare_decorated_from spec (S i) sfs) _ (IH (S i))) as Ho.
    assert (Heq : forall a b, compare_decorated_from spec i (sf :: sfs) a b =
      then_cmp (cmp_dir (ascending sf) (cmp_on (fun a => mjoin (vals a !! i)) compare_json_values a b))
        (compare_decorated_from spec (S i) sfs a b)).
    { intros a b. cbn. unfold cmp_on. by destruct (cmp_dir _ _). }
    split; intros *; rewrite !Heq; [apply (@cmp_opp _ _ Ho)|apply (@cmp_le_trans _ _ Ho)].
Qed.
#[export] Instance row_cmp_order sort : CmpOrder (row_cmp sort).
Proof. apply (cmp_on_order fst (compare_decorated sort)), compare_decorated_from_order. Qed.

Definition decorate (sort : list SortField) (doc : Value) : DocSortKey * Value :=
  (extract_sort_key doc sort, doc).

(** What the selection knows after the matches [docs]: its buffer has the same
    first [k] rows, and the cut-off is not below the [k]-th of them. *)
Definition topk_inv t docs : Prop :=
  let all := sort_by (row_cmp (tk_sort t)) (decorate (tk_sort t) <$> docs) in
  0 < k t /\ tk_matches t = lenZ docs /\ (length (buf t) <= length docs)%nat /\
  take (Z.to_nat (k t)) (sort_by (row_cmp (tk_sort t)) (buf t)) = take (Z.to_nat (k t)) all /\
  match cutoff t with
  | Some c => exists row, all !! Z.to_nat (k t - 1) = Some row /\ compare_decorated (tk_sort t) row.1 c <> Gt
  | None => True
  end.

Lemma sort_by_snoc {A} (cmp : A -> A -> comparison) l x :
  sort_by cmp (l ++ [x]) = insert_by cmp x (sort_by cmp l).
Proof. by rewrite sort_by_app. Qed.

Lemma topk_compact_inv t docs : topk_inv t docs -> topk_inv (topk_compact t) docs.
Proof.
  intros (Hk & Hm & Hlen & Hb & Hc). unfold topk_inv, topk_compact. cbn.
  set (cmp := row_cmp (tk_sort t)) in *. rewrite takeZ_take.
  assert (Hs : sort_by cmp (take (Z.to_nat (k t)) (sort_by cmp (buf t))) = take (Z.to_nat (k t)) (sort_by cmp (buf t))).
  { apply sort_by_id; [apply _|]. apply (StronglySorted_app_1_l _ _ (drop (Z.to_nat (k t)) (sort_by cmp (buf t)))).
    rewrite take_drop. apply sort_by_strongly, _. }
  rewrite Hs. split_and!; [done|done| |by rewrite take_take, Nat.min_id|].
  { rewrite length_take, sort_by_perm. lia. }
  destruct (Z.eqb_spec (lenZ (take (Z.to_nat (k t)) (sort_by cmp (buf t)))) (k t)) as [Hl|]; [|done].
  rewrite Hb in Hl |- *. unfold lenZ in Hl.
  destruct (take (Z.to_nat (k t)) (sort_by cmp (decorate (tk_sort t) <$> docs)) !! Z.to_nat (k t - 1))
    as [row|] eqn:Hrow; cbn; [|done].
  exists row. rewrite lookup_take_lt in Hrow by lia. split; [done|].
  by rewrite (cmp_refl (compare_decorated (tk_sort t)) (CmpOrder0 := compare_decorated_from_order _ _ _)).
Qed.

Lemma topk_push_inv t docs d : topk_inv t docs -> topk_inv (topk_push t d) (docs ++ [d]).
Proof.
  intros (Hk & Hm & Hlen & Hb & Hc).
  assert (Hlen' : (length (buf t) + 1 <= length (docs ++ [d]))%nat) by (rewrite length_app; cbn; lia).
  assert (Hmatch : tk_matches t + 1 = lenZ (docs ++ [d])).
  { unfold lenZ in *. rewrite length_app. cbn. lia. }
  pose proof (row_cmp_order (tk_sort t)) as Ho.
  set (cmp := row_cmp (tk_sort t)) in *.
  set (all := sort_by cmp (decorate (tk_sort t) <$> docs)) in *.
  assert (Hall : sort_by cmp (decorate (tk_sort t) <$> (docs ++ [d])) = insert_by cmp (decorate (tk_sort t) d) all).
  { rewrite fmap_app. cbn. by rewrite sort_by_snoc. }
  assert (Hsorted : StronglySorted (cmp_le cmp) all) by (apply sort_by_strongly; done).
  (* the [k]-th row can only get smaller *)
  assert (Hcut : match cutoff t with
    | Some c => exists row, insert_by cmp (decorate (tk_sort t) d) all !! Z.to_nat (k t - 1) = Some row /\
        compare_decorated (tk_sort t) row.1 c <> Gt
    | None => True end).
  { destruct (cutoff t) as [c|]; [|done]. destruct Hc as (row & Hrow & Hle).
    destruct (insert_by_nth_le cmp (decorate (tk_sort t) d) all _ row Hsorted Hrow) as (z & Hz & Hzle).
    exists z. split; [done|]. pose proof (compare_decorated_from_order (tk_sort t) 0 (tk_sort t)) as Ho'.
    by apply (cmp_le_trans (compare_decorated (tk_sort t)) z.1 row.1 c). }
  unfold topk_push. destruct (match cutoff t with Some _ => _ | None => false end) eqn:Hrej.
  - unfold topk_inv; cbn. fold cmp. rewrite Hall. split_and!; [done|done|lia| |done].
    destruct (cutoff t) as [c|]; [|done]. destruct Hc as (row & Hrow & Hle).
    replace (Z.to_nat (k t)) with (S (Z.to_nat (k t - 1))) in * by lia.
    pose proof (compare_decorated_from_order (tk_sort t) 0 (tk_sort t)) as Ho'.
    assert (Hgt : compare_decorated (tk_sort t) (extract_sort_key d (tk_sort t)) c = Gt)
      by (destruct (compare_decorated (tk_sort t) (extract_sort_key d (tk_sort t)) c); congruence).
    rewrite (take_insert_by_gt cmp (Z.to_nat (k t - 1)) _ row); [done..|].
    apply (cmp_gt_lt (compare_decorated (tk_sort t))), (cmp_le_lt_trans (compare_decorated (tk_sort t)) _ c); [done|].
    by apply (cmp_gt_lt (compare_decorated (tk_sort t))).
  - assert (Hinv : topk_inv {| k := k t; tk_sort := tk_sort t; buf := buf t ++ [decorate (tk_sort t) d];
      cutoff := cutoff t; tk_matches := tk_matches t + 1 |} (docs ++ [d])).
    { unfold topk_inv; cbn. fold cmp. rewrite Hall, sort_by_snoc. split_and!; [done|done|by rewrite length_app| |done].
      by rewrite <- take_insert_by, Hb, take_insert_by. }
    destruct (sat_mul _ 2 <=? _); [by apply topk_compact_inv|exact Hinv].
Qed.

Lemma topk_run_inv t docs docs' : topk_inv t docs -> topk_inv (foldl topk_push t docs') (docs ++ docs').
Proof.
  revert t docs; induction docs' as [|d docs' IH]; intros t docs Hinv; cbn; [by rewrite app_nil_r|].
  replace (docs ++ d :: docs') with ((docs ++ [d]) ++ docs') by (by rewrite <- app_assoc).
  by apply IH, topk_push_inv.
Qed.

Lemma topk_params t docs : k (foldl topk_push t docs) = k t /\ tk_sort (foldl topk_push t docs) = tk_sort t.
Proof.
  revert t; induction docs as [|d docs IH]; intros t; cbn; [done|].
  destruct (IH (topk_push t d)) as [-> ->]. unfold topk_push.
  destruct (match cutoff t with Some _ => _ | None => false end); [done|].
  by destruct (sat_mul _ 2 <=? _).
Qed.

(** The rows of a finished selection start like the full stable sort. *)
Lemma topk_spec offset limit sort docs : 0 <= offset -> 0 <= limit ->
  let t := foldl topk_push (topk_new offset limit sort) docs in
  let n := Z.to_nat (sat_add (sat_add offset limit) 1) in
  (topk_finish t).2 = lenZ docs /\ lenZ (topk_finish t).1 <= lenZ docs /\
  take n ((topk_finish t).1) = decorate sort <$> take n (sort_by (compare_docs sort) docs).
Proof.
  intros Ho Hl t n. assert (Hinv : topk_inv t ([] ++ docs)).
  { apply topk_run_inv. unfold topk_inv, topk_new, sat_add, usize_max. cbn. split_and!; [lia|done|lia|done..]. }
  destruct (topk_params (topk_new offset limit sort) docs) as [Hk Hsort].
  fold t in Hk, Hsort. clearbody t. cbn [topk_new k tk_sort app] in Hk, Hsort, Hinv.
  destruct Hinv as (_ & Hm & Hlen & Hb & _). rewrite Hk, Hsort in Hb. fold n in Hb. clearbody n.
  unfold topk_finish. rewrite Hsort. cbn [fst snd]. split; [done|].
  split; [unfold lenZ; rewrite sort_by_perm; lia|]. rewrite Hb, fmap_take. f_equal.
  apply sort_by_fmap. intros a b. apply (compare_decorated_from_spec [] sort).
Qed.
End topk_facts.

(** ** Windows *)

Lemma window_eq {A} (o l : Z) (L : list A) : 0 <= o -> 0 <= l -> lenZ L <= usize_max ->
  let start := Z.min o (lenZ L) in
  takeZ (Z.min (sat_add start l) (lenZ L) - start) (dropZ start L) = takeZ l (dropZ o L).
Proof.
  intros Ho Hl HL start. unfold start, sat_add, lenZ in *. rewrite !takeZ_take, !dropZ_drop.
  destruct (Z.leb_spec o (Z.of_nat (length L))).
  - replace (Z.min o (Z.of_nat (length L))) with o by lia.
    assert (Hlen : length (drop (Z.to_nat o) L) = (length L - Z.to_nat o)%nat) by apply length_drop.
    destruct (Z.leb_spec (o + l) (Z.of_nat (length L))).
    + f_equal. lia.
    + rewrite !take_ge; [done|rewrite Hlen; lia..].
  - rewrite !(drop_ge L) by lia. by rewrite !take_nil.
Qed.

Lemma window_take {A} (o l n : Z) (L : list A) : 0 <= o -> 0 <= l -> (o + l <= n \/ lenZ L <= n) ->
  takeZ l (dropZ o (take (Z.to_nat n) L)) = takeZ l (dropZ o L).
Proof.
  intros Ho Hl Hn. rewrite !takeZ_take, !dropZ_drop. unfold lenZ in Hn.
  destruct Hn as [Hn|Hn].
  - rewrite !take_drop_commute, take_take. f_equal. f_equal. lia.
  - by rewrite (take_ge L) by lia.
Qed.

Lemma window_last {A} (s e : Z) (L : list A) : 0 <= s -> e <= lenZ L ->
  last (takeZ (e - s) (dropZ s L)) = if s <? e then L !! Z.to_nat (e - 1) else None.
Proof.
  intros Hs He. rewrite takeZ_take, dropZ_drop. unfold lenZ in He.
  destruct (Z.ltb_spec s e) as [H|H].
  - rewrite last_lookup, length_take, length_drop.
    replace (Nat.min (Z.to_nat (e - s)) (length L - Z.to_nat s)) with (Z.to_nat (e - s)) by lia.
    rewrite lookup_take_lt, lookup_drop by lia. f_equal. lia.
  - by replace (Z.to_nat (e - s)) with 0%nat by lia.
Qed.

Lemma unsorted_run_stop s docs more :
  broke_early s = false -> broke_early (unsorted_run s docs) = true ->
  unsorted_run s (docs ++ more) = unsorted_run s docs.
Proof.
  revert s; induction docs as [|d docs IH]; intros s Hs; cbn; [congruence|].
  unfold unsorted_push. destruct (0 <? to_skip s); [intros Hb; by apply IH|].
  destruct (keep s <=? _); [done|]. intros Hb. by apply IH.
Qed.

Section cursor_pages.
Context `{SerdeJson} `{!SerdeLaws}.

(** The documents a cursor leaves for later pages. *)
Definition beyond (cursor : option Cursor) (sort : list SortField) (doc : Value) : bool :=
  match cursor with
  | Some c => match compare_doc_to_cursor doc c sort with Gt => true | _ => false end
  | None => true
  end.

Lemma sorted_push_spec cursor sort docs t n :
  foldl (sorted_push cursor sort) (t, n) docs =
  (foldl topk_push t (List.filter (beyond cursor sort) docs),
   n + (lenZ docs - lenZ (List.filter (beyond cursor sort) docs))).
Proof.
  revert t n; induction docs as [|d docs IH]; intros t n; cbn; [f_equal; unfold lenZ; cbn; lia|].
  assert (Hstep : sorted_push cursor sort (t, n) d =
    if beyond cursor sort d then (topk_push t d, n) else (t, n + 1)).
  { unfold sorted_push, beyond. destruct cursor as [c|]; [|done]. by destruct (compare_doc_to_cursor d c sort). }
  cbn in Hstep. rewrite Hstep. destruct (beyond cursor sort d); rewrite IH; f_equal; unfold lenZ; cbn; lia.
Qed.

Lemma filter_all_false {A} (P : A -> bool) l : (forall x, x ∈ l -> P x = false) -> List.filter P l = [].
Proof.
  intros HP. induction l as [|x l IH]; cbn; [done|]. rewrite HP by (by left). apply IH.
  intros y Hy. apply HP. by right.
Qed.
Lemma filter_all_true {A} (P : A -> bool) l : (forall x, x ∈ l -> P x = true) -> List.filter P l = l.
Proof.
  intros HP. induction l as [|x l IH]; cbn; [done|]. rewrite HP by (by left). f_equal. apply IH.
  intros y Hy. apply HP. by right.
Qed.
Lemma filter_perm {A} (P : A -> bool) (l l' : list A) : l ≡ₚ l' -> List.filter P l ≡ₚ List.filter P l'.
Proof.
  induction 1 as [|x l l' Hp IH|x y l|l l' l'' Hp IH Hp' IH']; cbn; [done| | |by rewrite IH].
  - destruct (P x); by rewrite IH.
  - destruct (P x), (P y); try done. apply Permutation_swap.
Qed.

(** Sorting the documents beyond one of them is dropping up to it. *)
Lemma sort_beyond docs sfs i d id :
  ids_distinct docs -> sort_by (compare_docs sfs) docs !! i = Some d -> doc_id d = Some id ->
  sort_by (compare_docs sfs) (List.filter (beyond (Some (cursor_of d id sfs)) sfs) docs) =
  drop (S i) (sort_by (compare_docs sfs) docs).
Proof.
  intros Hnd Hi Hid. set (S0 := sort_by (compare_docs sfs) docs) in *.
  assert (Hperm : S0 ≡ₚ docs) by apply sort_by_perm.
  assert (Hsorted : StronglySorted (cmp_le (compare_docs sfs)) S0) by (apply sort_by_strongly, _).
  assert (HndS : NoDup (doc_id <$> S0)) by (unfold ids_distinct in Hnd; by rewrite Hperm).
  assert (Hinj : forall x y, x ∈ S0 -> y ∈ S0 -> compare_docs sfs x y = Eq -> x = y).
  { intros x y Hx Hy Hxy. apply compare_docs_from_eq in Hxy. by apply (NoDup_fmap_inj_on doc_id S0). }
  assert (HP : forall x, beyond (Some (cursor_of d id sfs)) sfs x =
    match compare_docs sfs x d with Gt => true | _ => false end).
  { intros x. cbn. by rewrite compare_cursor_docs. }
  rewrite <- (take_drop_middle S0 i d Hi) in Hsorted.
  assert (Hfilter : List.filter (beyond (Some (cursor_of d id sfs)) sfs) S0 = drop (S i) S0).
  { rewrite <- (take_drop_middle S0 i d Hi) at 1. rewrite List.filter_app. cbn [List.filter].
    rewrite HP, (cmp_refl (compare_docs sfs)). rewrite filter_all_false, filter_all_true; [done|..].
    - intros x Hx. rewrite HP. apply StronglySorted_app_1_r in Hsorted.
      apply StronglySorted_cons in Hsorted as [Hall _].
      rewrite Forall_forall in Hall. specialize (Hall _ Hx). unfold cmp_le in Hall.
      rewrite (cmp_opp (compare_docs sfs)). destruct (compare_docs sfs d x) eqn:E; cbn; try done.
      apply list_elem_of_lookup in Hx as [j Hj]. rewrite lookup_drop in Hj.
      assert (d = x) as <- by (apply Hinj; [by eapply list_elem_of_lookup_2..|done]).
      assert (i = S i + j)%nat; [|lia].
      apply (NoDup_lookup (doc_id <$> S0) _ _ (doc_id d)); [done|rewrite list_lookup_fmap..]; [by rewrite Hi|by rewrite Hj].
    - intros x Hx. rewrite HP.
      pose proof (StronglySorted_app_1_elem_of _ _ _ x d Hsorted Hx ltac:(by left)) as Hle.
      unfold cmp_le in Hle. by destruct (compare_docs sfs x d). }
  rewrite <- Hfilter. rewrite <- (sort_by_id (compare_docs sfs) (List.filter _ S0)).
  - apply sort_by_unique; [apply _| |apply filter_perm; by symmetry].
    intros x y [Hx _]%elem_of_List_filter [Hy _]%elem_of_List_filter. apply Hinj; by rewrite Hperm.
  - apply sorted_filter. apply sort_by_strongly, _.
Qed.
End cursor_pages.

(** ** Properties *)

Section page_properties.
Context `{SerdeJson} `{!SerdeLaws} `{RegexLib} `{Base64Lib} `{PayloadSerde}.

Lemma unsorted_page_window (offset limit : Z) (docs more : list Value) :
  0 <= offset -> 0 <= limit -> lenZ docs < usize_max ->
  unsorted_finish (unsorted_run (unsorted_new offset limit) docs) limit =
    (takeZ limit (dropZ offset docs), offset + limit <? lenZ docs,
     if offset + limit <? lenZ docs then None else Some (lenZ docs)) /\
  (offset + limit < lenZ docs ->
     unsorted_run (unsorted_new offset limit) (docs ++ more) = unsorted_run (unsorted_new offset limit) docs).
Proof.
  intros Ho Hl Hlen.
  destruct (unsorted_run_skip (unsorted_new offset limit) docs) as (Hp & Hb & Hm);
    [done|done|done|unfold unsorted_new, sat_add, usize_max; cbn; lia|].
  cbn [unsorted_new to_skip keep] in Hp, Hb.
  assert (Hlim : bool_decide (sat_add limit 1 <= lenZ (drop (Z.to_nat offset) docs)) = (offset + limit <? lenZ docs)).
  { apply eq_bool_prop_intro. rewrite bool_decide_spec, Is_true_true, Z.ltb_lt.
    unfold sat_add, lenZ in *. rewrite length_drop. lia. }
  rewrite Hlim in Hb. split.
  - unfold unsorted_finish. rewrite Hb, Hp.
    assert (Hsat : limit <= sat_add limit 1 \/ lenZ docs <= sat_add limit 1 /\ lenZ docs <= limit) by (unfold sat_add in *; lia).
    assert (Hmore : (limit <? lenZ (take (Z.to_nat (sat_add limit 1)) (drop (Z.to_nat offset) docs))) = (offset + limit <? lenZ docs)).
    { unfold sat_add, lenZ in *. rewrite length_take, length_drop.
      apply eq_bool_prop_intro. rewrite !Is_true_true, !Z.ltb_lt. lia. }
    rewrite Hmore. f_equal; [f_equal|].
    + rewrite !takeZ_take, dropZ_drop, take_take.
      destruct Hsat as [?|[? ?]]; [f_equal; lia|].
      rewrite !take_ge; [done|rewrite length_drop; unfold lenZ in *; lia..].
    + destruct (offset + limit <? lenZ docs); [done|]. by rewrite (Hm Hb).
  - intros Hlt. apply unsorted_run_stop; [done|]. rewrite Hb. by apply Z.ltb_lt.
Qed.

(** Unsorted pages are exact and stop early. Streaming the matches
    through the sink gives the window [offset, offset + limit) of the stream;
    [has_more] says exactly whether matches lie beyond it; the total is
    reported exactly when the stream ran out; and once one match beyond the
    page is seen, no further match is read. *)
Theorem unsorted_page_exact (offset limit : Z) (docs more : list Value) :
  0 <= offset -> 0 <= limit -> lenZ docs < usize_max ->
  unsorted_finish (unsorted_run (unsorted_new offset limit) docs) limit =
    (takeZ limit (dropZ offset docs), offset + limit <? lenZ docs,
     if offset + limit <? lenZ docs then None else Some (lenZ docs)) /\
  (offset + limit < lenZ docs ->
     unsorted_run (unsorted_new offset limit) (docs ++ more) = unsorted_run (unsorted_new offset limit) docs).
Proof. apply unsorted_page_window. Qed.

Lemma topk_page_sorted (docs : list Value) (pre_cursor : Z) (query : ParsedQuery) (collection : string) :
  0 <= q_offset query -> 0 <= q_limit query -> lenZ docs < usize_max ->
  let page := takeZ (q_limit query) (dropZ (q_offset query) (sort_by (compare_docs (q_sort query)) docs)) in
  let has_more := q_offset query + q_limit query <? lenZ docs in
  finish_topk (foldl topk_push (topk_new (q_offset query) (q_limit query) (q_sort query)) docs)
    pre_cursor query collection =
  (apply_projection page (q_fields query), Some (pre_cursor + lenZ docs), has_more,
   if has_more then doc ← last page; encode_cursor doc (q_sort query) collection else None).
Proof.
  intros Ho Hl Hlen. cbv zeta.
  destruct (topk_spec (q_offset query) (q_limit query) (q_sort query) docs Ho Hl) as [Hm Hrows].
  pose proof (topk_params (topk_new (q_offset query) (q_limit query) (q_sort query)) docs) as _.
  unfold finish_topk. destruct (topk_finish _) as [rows kept]. cbn [fst snd] in Hm, Hrows.
  destruct Hrows as [Hlr Hrows]. subst kept.
  set (o := q_offset query) in *. set (l := q_limit query) in *. set (n := sat_add (sat_add o l) 1) in *.
  set (sorted := sort_by (compare_docs (q_sort query)) docs) in *.
  assert (Hls : lenZ sorted = lenZ docs) by (unfold lenZ, sorted; by rewrite sort_by_perm).
  assert (Hn : o + l <= n \/ lenZ docs <= n) by (unfold n, sat_add; lia).
  assert (Hmore : (sat_add o l <? lenZ docs) = (o + l <? lenZ docs)).
  { apply eq_bool_prop_intro. rewrite !Is_true_true, !Z.ltb_lt. unfold sat_add. lia. }
  assert (Hpage : snd <$> takeZ (Z.min (sat_add (Z.min o (lenZ rows)) l) (lenZ rows) - Z.min o (lenZ rows))
      (dropZ (Z.min o (lenZ rows)) rows) = takeZ l (dropZ o sorted)).
  { rewrite window_eq by lia. rewrite <- (window_take o l n rows), Hrows by lia.
    rewrite <- (window_take o l n sorted) by lia.
    rewrite !takeZ_take, !dropZ_drop, fmap_take, fmap_drop, <- list_fmap_compose. f_equal. f_equal.
    rewrite <- (list_fmap_id (take _ sorted)) at 2. done. }
  rewrite <- Hpage, Hmore. f_equal. destruct (Z.ltb_spec (o + l) (lenZ docs)) as [Hlt|]; [cbn [andb]|done].
  rewrite fmap_last, window_last by (unfold lenZ; lia).
  destruct (Z.min o (lenZ rows) <? _); [|done]. by destruct (rows !! _) as [[key doc]|].
Qed.

(** The bounded selection of sorted pages is the full sort it replaces.
    Whatever order the matches arrive in, [TopK] and its tail answer the
    window [offset, offset + limit) of the matches stably sorted by
    [compare_docs], an exact [has_more] and total, and the cursor of the page's
    last document. *)
Theorem topk_page_is_sorted_page (docs : list Value) (pre_cursor : Z) (query : ParsedQuery) (collection : string) :
  0 <= q_offset query -> 0 <= q_limit query -> lenZ docs < usize_max ->
  let page := takeZ (q_limit query) (dropZ (q_offset query) (sort_by (compare_docs (q_sort query)) docs)) in
  let has_more := q_offset query + q_limit query <? lenZ docs in
  finish_topk (foldl topk_push (topk_new (q_offset query) (q_limit query) (q_sort query)) docs)
    pre_cursor query collection =
  (apply_projection page (q_fields query), Some (pre_cursor + lenZ docs), has_more,
   if has_more then doc ← last page; encode_cursor doc (q_sort query) collection else None).
Proof. apply topk_page_sorted. Qed.

(** Cursor pages tile the result. Let a walk be at document [d], the
    [i]-th of the matches in sort order (distinct ids), and let its token
    decode. Streaming the same matches behind that cursor, whatever their
    order, then answers exactly the next [limit] documents of the sorted
    matches, never one of the first [i + 1] again and none skipped; the total
    counts every match and [has_more] what lies beyond the page. *)
Theorem cursor_pages_tile (docs : list Value) (i : nat) (d : Value) (query : ParsedQuery)
    (collection token : string) `{!Base64Laws} :
  (forall id b, payload_to_vec (cursor_payload d id (q_sort query) collection) = Some b ->
     Forall (fun x => 0 <= x < 256) b /\ payload_from_slice b = Some (cursor_payload d id (q_sort query) collection)) ->
  encode_cursor d (q_sort query) collection = Some token ->
  decode_cursor token collection (q_sort query) = from_option Ok (Err malformed) (q_cursor query) ->
  q_offset query = 0 -> 0 <= q_limit query -> lenZ docs < usize_max -> ids_distinct docs ->
  sort_by (compare_docs (q_sort query)) docs !! i = Some d ->
  let rest := drop (S i) (sort_by (compare_docs (q_sort query)) docs) in
  let '(topk, pre_cursor) := foldl (sorted_push (q_cursor query) (q_sort query))
    (topk_new (q_offset query) (q_limit query) (q_sort query), 0) docs in
  let '(page, total, has_more, _) := finish_topk topk pre_cursor query collection in
  page = apply_projection (takeZ (q_limit query) rest) (q_fields query) /\
  total = Some (lenZ docs) /\ has_more = (q_limit query <? lenZ rest).
Proof.
  intros Hser Henc Hdec Ho Hl Hlen Hnd Hi. cbv zeta.
  apply encode_decode in Henc as (id & Hid & Hd); [|done..].
  rewrite Hd in Hdec. destruct (q_cursor query) as [c|]; [|done]. injection Hdec as <-.
  rewrite sorted_push_spec. set (rest := List.filter _ docs) in *.
  assert (Hrest : sort_by (compare_docs (q_sort query)) rest = drop (S i) (sort_by (compare_docs (q_sort query)) docs))
    by (by apply sort_beyond).
  assert (Hle : lenZ rest <= lenZ docs) by (unfold lenZ, rest; pose proof (List.filter_length_le (beyond (Some (cursor_of d id (q_sort query))) (q_sort query)) docs); lia).
  pose proof (topk_page_sorted rest (0 + (lenZ docs - lenZ rest)) query collection) as Hp.
  rewrite Ho in Hp |- *. rewrite Hp by lia. clear Hp. rewrite Hrest. cbn [dropZ].
  assert (Hlr : lenZ (drop (S i) (sort_by (compare_docs (q_sort query)) docs)) = lenZ rest)
    by (rewrite <- Hrest; unfold lenZ; by rewrite sort_by_perm).
  rewrite Hlr. split_and!; [|f_equal; lia|done].
  f_equal. f_equal. by rewrite dropZ_drop, drop_0.
Qed.
End page_properties.

(** ** Witnesses *)

Import Ref RefPayload.

Definition example_query (cursor : option Cursor) : ParsedQuery :=
  {| q_filter := None; q_sort := [by_n]; q_limit := 1; q_offset := 0; q_fields := None;
     q_count_only := false; q_cursor := cursor |}.

Lemma unsorted_page_exact_witness :
  unsorted_finish (unsorted_run (unsorted_new 1 1) example_docs) 1 =
    ([VObject [("_id", VString "a"); ("n", VNumber (PosInt 2))]], true, None).
Proof.
  rewrite (proj1 (unsorted_page_exact 1 1 example_docs [] ltac:(lia) ltac:(lia) ltac:(reflexivity))).
  vm_compute. reflexivity.
Defined.

Lemma topk_page_is_sorted_page_witness :
  fst (fst (fst (finish_topk (foldl topk_push (topk_new 0 1 [by_n]) example_docs) 0 (example_query None) "c"))) =
    [VObject [("_id", VString "b"); ("n", VNumber (PosInt 2))]].
Proof.
  pose proof (topk_page_is_sorted_page example_docs 0 (example_query None) "c"
    ltac:(cbn; lia) ltac:(cbn; lia) ltac:(reflexivity)) as Hp.
  cbn [q_offset q_limit q_sort q_fields example_query] in Hp. rewrite Hp. vm_compute. reflexivity.
Defined.

Definition example_cursor : Cursor := {| sort_values := [Present (VNumber (PosInt 2))]; last_id := "b" |}.

Lemma cursor_pages_tile_witness :
  let '(topk, pre) := foldl (sorted_push (Some example_cursor) [by_n]) (topk_new 0 1 [by_n], 0) example_docs in
  let '(page, total, has_more, _) := finish_topk topk pre (example_query (Some example_cursor)) "c" in
  page = [VObject [("_id", VString "a"); ("n", VNumber (PosInt 2))]] /\ total = Some 3 /\ has_more = true.
Proof.
  destruct (encode_cursor (VObject [("_id", VString "b"); ("n", VNumber (PosInt 2))]) [by_n] "c") as [token|] eqn:E;
    [|vm_compute in E; discriminate E].
  assert (Hdec : decode_cursor token "c" [by_n] = Ok example_cursor).
  { vm_compute in E. injection E as <-. vm_compute. reflexivity. }
  pose proof (cursor_pages_tile example_docs 0 (VObject [("_id", VString "b"); ("n", VNumber (PosInt 2))])
    (example_query (Some example_cursor)) "c" token (fun id b => round_trip _ b) E Hdec eq_refl
    ltac:(vm_compute; discriminate) ltac:(reflexivity)
    ltac:(apply (bool_decide_unpack _); vm_compute; exact I) ltac:(vm_compute; reflexivity)) as Hp.
  vm_compute in Hp |- *. exact Hp.
Defined.
