(* ===== verification/Planner.v ===== *)
(** * The query planner ([crates/wardsondb/src/query/planner.rs])

    The choice of a scan for a filter: a sorted walk of a compound index, the
    bitmap accelerator, compound equality and range prefixes, single-field
    lookups, a union of lookups for [$or], else the full scan; with the
    residual filter the executor applies to the candidates. *)

From S2P Require Import Prelude Bytes F64 Json Errors Externals Filter Secondary Sort Cursor Parser Backend Index Storage.

(** What the planner and the executor use of the bitmap accelerator: the
    bitmap of a filter in a collection with its residual filter, and the
    identifiers at its positions, in position order. *)
Class BitmapScans `{RegexLib} `{ScanAccelerator} := {
  bitmap : Type;
  bitmap_ready : accel -> bool;
  bitmap_scan : accel -> string -> FilterNode -> option (bitmap * option FilterNode);
  bitmap_len : bitmap -> Z;
  resolve_window : accel -> bitmap -> Z -> Z -> list string;
}.

(** Lower and upper bound of a field: value and inclusiveness. *)
Abbreviation vbound := (option (Value * bool)).
Abbreviation bbound := (option (bytes * bool)).

Section planner.
Context `{SerdeJson} `{StorageBackend} `{RegexLib} `{ScanAccelerator} `{!BitmapScans}.

Inductive ScanPlan :=
| FullScan
| IndexEq (index_name field : string) (value : Value)
| IndexIn (index_name field : string) (values : list Value)
| IndexRange (index_name field : string) (lower upper : vbound)
| CompoundEq (index_name : string) (prefix : bytes)
| CompoundRange (index_name : string) (eq_prefix : bytes) (lower upper : bbound)
| IndexSorted (index_name : string) (prefix : bytes) (reverse exact_tail : bool)
| BitmapScan (b : bitmap)
| OrUnion (arms : list ScanPlan).

Definition plan_name (p : ScanPlan) : string :=
  match p with
  | FullScan => "full_scan"
  | IndexEq _ _ _ => "index_eq"
  | IndexIn _ _ _ => "index_in"
  | IndexRange _ _ _ _ => "index_range"
  | CompoundEq _ _ => "compound_eq"
  | CompoundRange _ _ _ _ => "compound_range"
  | IndexSorted _ _ _ _ => "index_sorted"
  | BitmapScan _ => "bitmap"
  | OrUnion _ => "or_union"
  end.

Record QueryPlan := { scan_of : ScanPlan; post_filter : option FilterNode; original_filter : option FilterNode }.

(** The residual of an [And]: nothing, one node, or their conjunction. *)
Definition residual (remaining : list FilterNode) : option FilterNode :=
  match remaining with
  | [] => None
  | [n] => Some n
  | _ => Some (And remaining)
  end.

(** ** Conditions of a filter *)

Definition eq_pair (n : FilterNode) : option (string * Value) :=
  match n with Comparison field Eq_ value => Some (field, value) | _ => None end.
Definition eq_pairs (children : list FilterNode) : list (string * Value) := omap eq_pair children.
Definition extract_eq_pairs (filter : FilterNode) : list (string * Value) :=
  match filter with
  | And children => eq_pairs children
  | n => match eq_pair n with Some p => [p] | None => [] end
  end.

(** An equality on one of the fields [covered]. *)
Definition covered_eq (covered : list string) (n : FilterNode) : bool :=
  match n with Comparison field Eq_ _ => bool_decide (field ∈ covered) | _ => false end.
Definition uncovered (covered : list string) (children : list FilterNode) : list FilterNode :=
  List.filter (fun c => negb (covered_eq covered c)) children.
Definition build_remaining_filter (filter : FilterNode) (covered : list string) : option FilterNode :=
  match filter with
  | And children => residual (uncovered covered children)
  | n => if covered_eq covered n then None else Some n
  end.

(** The encoded values of the fields, separated; [None] when one has no
    equality. *)
Definition pair_value (pairs : list (string * Value)) (field : string) : option Value :=
  snd <$> List.find (fun p => bool_decide (p.1 = field)) pairs.
Fixpoint prefix_from (pairs : list (string * Value)) (i : nat) (fields : list string) (prefix : bytes) : option bytes :=
  match fields with
  | [] => Some prefix
  | idx_field :: fields =>
      val ← pair_value pairs idx_field;
      let prefix := if (0 <? Z.of_nat i) then prefix ++ [1] else prefix in
      prefix_from pairs (S i) fields (prefix ++ value_to_sortable_bytes val)
  end.

(** ** Sorted walks *)

Definition is_missing (v : CursorValue) : bool := match v with Missing => true | Present _ => false end.

Definition try_index_sorted (m : IndexManager) (collection : string) (filter : FilterNode)
    (sort : list SortField) (cursor : option Cursor) : option QueryPlan :=
  match sort with
  | [] => None
  | first :: _ =>
      if negb (forallb (fun s => Bool.eqb (ascending s) (ascending first)) sort) then None else
      let pairs := extract_eq_pairs filter in
      match pairs with
      | [] => None
      | _ =>
          '(idx_def, _, n_matched) ← find_compound_index m collection pairs.*1 (field <$> sort);
          let exact_tail := bool_decide ((n_matched + length sort)%nat = length (idx_fields idx_def)) in
          if match cursor with
             | Some cur => negb exact_tail || existsb is_missing (sort_values cur)
             | None => false
             end then None else
          let covered := take n_matched (idx_fields idx_def) in
          prefix ← prefix_from pairs 0 covered [];
          Some {| scan_of := IndexSorted (idx_name idx_def) (prefix ++ [1]) (negb (ascending first)) exact_tail;
                  post_filter := build_remaining_filter filter covered;
                  original_filter := Some filter |}
      end
  end.

(** ** Compound equality *)

Definition try_compound_eq (m : IndexManager) (collection : string) (children : list FilterNode)
    (original : FilterNode) : option QueryPlan :=
  let pairs := eq_pairs children in
  if bool_decide (length pairs < 2)%nat then None else
  '(idx_def, _, n_matched) ← find_compound_index m collection pairs.*1 [];
  let all_matched := bool_decide (n_matched = length (idx_fields idx_def)) in
  let covered := take n_matched (idx_fields idx_def) in
  prefix ← prefix_from pairs 0 covered [];
  Some {| scan_of := CompoundEq (idx_name idx_def) (prefix ++ [if all_matched then 0 else 1]);
          post_filter := residual (uncovered covered children);
          original_filter := Some original |}.

(** ** Ranges *)

Definition is_range (op : FilterOp) : bool :=
  match op with Gt_ | Gte | Lt_ | Lte => true | _ => false end.
Abbreviation field_bounds := (list (string * (vbound * vbound))).

(** [entry(field).or_insert((None, None))], one side replaced. *)
Fixpoint set_bound (field : string) (f : vbound * vbound -> vbound * vbound) (l : field_bounds) : field_bounds :=
  match l with
  | [] => [(field, f (None, None))]
  | (g, b) :: l => if bool_decide (g = field) then (g, f b) :: l else (g, b) :: set_bound field f l
  end.
Definition add_range (l : field_bounds) (child : FilterNode) : field_bounds :=
  match child with
  | Comparison field Gt_ value => set_bound field (fun b => (Some (value, false), b.2)) l
  | Comparison field Gte value => set_bound field (fun b => (Some (value, true), b.2)) l
  | Comparison field Lt_ value => set_bound field (fun b => (b.1, Some (value, false))) l
  | Comparison field Lte value => set_bound field (fun b => (b.1, Some (value, true))) l
  | _ => l
  end.
Definition range_bounds (children : list FilterNode) : field_bounds := foldl add_range [] children.

(** A [HashMap] is iterated in an order of its own. *)
Context (hash_order : field_bounds -> field_bounds).

Definition on_range (range_field : string) (n : FilterNode) : bool :=
  match n with Comparison field op _ => bool_decide (field = range_field) && is_range op | _ => false end.

Abbreviation range_best := (option (IndexDef * nat * string * vbound * vbound)).
Definition better_range (m : IndexManager) (collection : string) (names : list string)
    (best : range_best) (x : string * (vbound * vbound)) : range_best :=
  let '(range_field, (lower, upper)) := x in
  match find_compound_range_index m collection names range_field with
  | Some (idx_def, _, n_matched) =>
      if match best with None => true | Some (_, bm, _, _, _) => bool_decide (bm < n_matched)%nat end
      then Some (idx_def, n_matched, range_field, lower, upper) else best
  | None => best
  end.
Definition enc_bound (b : vbound) : bbound := (fun x => (value_to_sortable_bytes x.1, x.2)) <$> b.

Definition try_compound_range (m : IndexManager) (collection : string) (children : list FilterNode)
    (original : FilterNode) : option QueryPlan :=
  let pairs := eq_pairs children in
  match pairs, range_bounds children with
  | [], _ | _, [] => None
  | _, bounds =>
      '(idx_def, n_matched, range_field, lower, upper) ←
        foldl (better_range m collection pairs.*1) None (hash_order bounds);
      let covered := take n_matched (idx_fields idx_def) in
      eq_prefix ← prefix_from pairs 0 covered [];
      Some {| scan_of := CompoundRange (idx_name idx_def) (eq_prefix ++ [1]) (enc_bound lower) (enc_bound upper);
              post_filter := residual
                (List.filter (fun c => negb (covered_eq covered c) && negb (on_range range_field c)) children);
              original_filter := Some original |}
  end.

Definition try_index_comparison (m : IndexManager) (collection field : string) (op : FilterOp) (value : Value)
    : option ScanPlan :=
  '(def, _) ← get_index_for_field m collection field;
  match op with
  | Eq_ => Some (IndexEq (idx_name def) field value)
  | In => match value with
          | VArray values => Some (IndexIn (idx_name def) field values)
          | _ => None
          end
  | Gt_ => Some (IndexRange (idx_name def) field (Some (value, false)) None)
  | Gte => Some (IndexRange (idx_name def) field (Some (value, true)) None)
  | Lt_ => Some (IndexRange (idx_name def) field None (Some (value, false)))
  | Lte => Some (IndexRange (idx_name def) field None (Some (value, true)))
  | _ => None
  end.

(** The first field with both bounds and an index. *)
Definition merged_range (m : IndexManager) (collection : string) (x : string * (vbound * vbound)) : option ScanPlan :=
  match x with
  | (field, (Some lower, Some upper)) =>
      '(def, _) ← get_index_for_field m collection field;
      Some (IndexRange (idx_name def) field (Some lower) (Some upper))
  | _ => None
  end.
Definition try_range_from_and (m : IndexManager) (collection : string) (children : list FilterNode) : option ScanPlan :=
  head (omap (merged_range m collection) (hash_order (range_bounds children))).

(** The first child with a single-field index: its position and scan. *)
Fixpoint first_indexed (m : IndexManager) (collection : string) (i : nat) (children : list FilterNode)
    : option (nat * ScanPlan) :=
  match children with
  | [] => None
  | child :: children =>
      match child with
      | Comparison field op value =>
          match try_index_comparison m collection field op value with
          | Some plan => Some (i, plan)
          | None => first_indexed m collection (S i) children
          end
      | _ => first_indexed m collection (S i) children
      end
  end.
Definition without {A} (i : nat) (l : list A) : list A := take i l ++ drop (S i) l.

(** ** Unions *)

(** The ladder of an [And] without bitmap and full scan: first that serves. *)
Definition plan_or_arm (m : IndexManager) (collection : string) (arm : FilterNode) : option (ScanPlan * bool) :=
  match arm with
  | Comparison field op value => (fun scan => (scan, true)) <$> try_index_comparison m collection field op value
  | And children =>
      match try_compound_eq m collection children arm with
      | Some plan => Some (scan_of plan, bool_decide (post_filter plan = None))
      | None =>
          match try_compound_range m collection children arm with
          | Some plan => Some (scan_of plan, bool_decide (post_filter plan = None))
          | None =>
              match first_indexed m collection 0 children with
              | Some (_, scan) => Some (scan, false)
              | None => (fun scan => (scan, false)) <$> try_range_from_and m collection children
              end
          end
      end
  | _ => None
  end.
Definition try_or_union (m : IndexManager) (collection : string) (children : list FilterNode) (filter : FilterNode)
    : option QueryPlan :=
  match children with
  | [] => None
  | _ =>
      arms ← mapM (plan_or_arm m collection) children;
      let exact_all := forallb snd arms in
      Some {| scan_of := OrUnion arms.*1;
              post_filter := if exact_all then None else Some filter;
              original_filter := Some filter |}
  end.

(** ** The plan *)

Definition try_bitmap_scan (a : accel) (collection : string) (filter : FilterNode) : option QueryPlan :=
  if negb (bitmap_ready a) then None else
  '(b, r) ← bitmap_scan a collection filter;
  Some {| scan_of := BitmapScan b; post_filter := r; original_filter := Some filter |}.

Definition full_plan (filter : option FilterNode) : QueryPlan :=
  {| scan_of := FullScan; post_filter := None; original_filter := filter |}.
(** The first plan there is, else the full scan. *)
Definition or_plan (p q : option QueryPlan) : option QueryPlan := match p with Some _ => p | None => q end.

Definition plan_and (m : IndexManager) (collection : string) (children : list FilterNode) (filter : FilterNode)
    : option QueryPlan :=
  or_plan (try_compound_eq m collection children filter)
  (or_plan (try_compound_range m collection children filter)
  (or_plan
    ('(i, scan) ← first_indexed m collection 0 children;
     Some {| scan_of := scan; post_filter := residual (without i children); original_filter := Some filter |})
    (scan ← try_range_from_and m collection children;
     let range_field := match scan with IndexRange _ field _ _ => field | _ => EmptyString end in
     Some {| scan_of := scan;
             post_filter := residual (List.filter (fun c => negb (on_range range_field c)) children);
             original_filter := Some filter |}))).

(** The bitmap plan is computed at most once; it does not change meanwhile. *)
Definition plan_query (query : ParsedQuery) (m : IndexManager) (collection : string) (a : accel) : QueryPlan :=
  match q_filter query with
  | None => full_plan None
  | Some filter =>
      let sorted :=
        if negb (bool_decide (q_sort query = [])) && (q_limit query <? 2 ^ 64 - 1) && negb (q_count_only query)
        then try_index_sorted m collection filter (q_sort query) (q_cursor query) else None in
      match sorted with
      | Some plan => plan
      | None =>
          let bitmap_plan := try_bitmap_scan a collection filter in
          let counted :=
            if q_count_only query then
              match bitmap_plan with
              | Some plan => match post_filter plan with None => Some plan | Some _ => None end
              | None => None
              end
            else None in
          match counted with
          | Some plan => plan
          | None =>
              let chosen := match filter with
                | Comparison field op value =>
                    or_plan
                      (scan ← try_index_comparison m collection field op value;
                       Some {| scan_of := scan; post_filter := None; original_filter := Some filter |})
                      bitmap_plan
                | And children => or_plan (plan_and m collection children filter) bitmap_plan
                | Or children => or_plan bitmap_plan (try_or_union m collection children filter)
                | _ => bitmap_plan
                end in
              default (full_plan (Some filter)) chosen
          end
      end
  end.
End planner.
