(* ===== verification/Executor.v ===== *)
(** * The query executor ([crates/wardsondb/src/query/executor.rs])

    The execution of each plan: the full scan in its three forms, index
    scans with their counting and paging shortcuts, sorted walks, compound
    ranges, unions and bitmap candidates, and the dispatch of a query. *)

From S2P Require Import Prelude Bytes F64 Json Errors Externals Filter Secondary Sort Cursor Parser Backend Index Storage Document Page Planner.

Record QueryResult := {
  r_docs : list Value;
  total_count : option Z;
  docs_scanned : Z;
  index_used : option string;
  scan_strategy : option string;
  r_has_more : bool;
  r_next_cursor : option string;
}.

Section executor.
Context `{SerdeJson} `{StorageBackend} `{StorageSerde} `{RegexLib} `{ScanAccelerator} `{!BitmapScans}.
Context `{Base64Lib} `{PayloadSerde}.
Context (current : option CancelToken).

(** A result with a count and no documents. *)
Definition counted (n scanned : Z) (index : option string) (strategy : option string) : QueryResult :=
  {| r_docs := []; total_count := Some n; docs_scanned := scanned; index_used := index;
     scan_strategy := strategy; r_has_more := false; r_next_cursor := None |}.
Definition passes (f : option FilterNode) (doc : Value) : bool :=
  match f with Some f => matches f doc | None => true end.

(** ** Loading documents *)

Definition parsed (value : option bytes) : list Value :=
  match value ≫= from_slice with Some doc => [doc] | None => [] end.
Fixpoint load_values (values : list (option bytes)) (seen : Z) (docs : list Value) : res (Z * list Value) :=
  match values with
  | [] => Ok (seen, docs)
  | value :: values =>
      match checkpoint current seen with
      | (_, Err e) => Err e
      | (seen, Ok _) => load_values values seen (docs ++ parsed value)
      end
  end.
Fixpoint load_chunks (e : engine) (p : PartitionId) (cs : list (list string)) (seen : Z) (docs : list Value)
    : res (list Value) :=
  match cs with
  | [] => Ok docs
  | keys :: cs =>
      let? values := lift_be (be_get_many e p (str_bytes <$> keys)) in
      let? out := load_values values seen docs in
      load_chunks e p cs out.1 out.2
  end.
Definition load_docs_by_ids (p : PartitionId) (ids : list string) : Op (list Value) := fun s =>
  (load_chunks (eng s) p (chunks (Z.to_nat CHECK_EVERY) ids) 0 [], s).

(** The document of an identifier; a missing or corrupt one is skipped. *)
Definition fetch (e : engine) (p : PartitionId) (id : string) : option Value :=
  match be_get e p (str_bytes id) with
  | Ok (Some b) => from_slice b
  | _ => None
  end.
Definition hydrate_index_entry (e : engine) (p : PartitionId) (key : bytes) : option Value :=
  id ← extract_doc_id_from_key key; fetch e p id.

(** Scan after scan of one partition, the visitor's state passed on. *)
Fixpoint scan_shapes {S} (e : engine) (partition : PartitionId) (shapes : list IndexScanShape)
    (visit : bytes -> bytes -> S -> S * control_flow) (s : S) : res S :=
  match shapes with
  | [] => Ok s
  | shape :: shapes =>
      let? s := shape_scan current shape e partition visit s in
      scan_shapes e partition shapes visit s
  end.
Definition collect_ids (e : engine) (partition : PartitionId) (shapes : list IndexScanShape) : res (list string) :=
  scan_shapes e partition shapes push_id [].

(** ** Index streams *)

(** What an index visitor does with a document: nothing without one. *)
Definition on_entry {S} (e : engine) (p : PartitionId) (visit : Value -> S -> S * control_flow)
    (k _v : bytes) (st : Z * S) : (Z * S) * control_flow :=
  match hydrate_index_entry e p k with
  | None => (st, Continue)
  | Some doc => let '(s, flow) := visit doc st.2 in ((st.1 + 1, s), flow)
  end.
Definition count_doc (post : option FilterNode) (doc : Value) (n : Z) : Z * control_flow :=
  (if passes post doc then n + 1 else n, Continue).
Definition sorted_doc (post : option FilterNode) (query : ParsedQuery) (doc : Value) (st : TopK * Z)
    : (TopK * Z) * control_flow :=
  (if passes post doc then sorted_push (q_cursor query) (q_sort query) st doc else st, Continue).
Definition page_doc (post : option FilterNode) (doc : Value) (sink : UnsortedPage) : UnsortedPage * control_flow :=
  if passes post doc then unsorted_push sink doc else (sink, Continue).

Definition wants_sorted (query : ParsedQuery) : bool :=
  bool_decide (is_Some (q_cursor query)) || negb (bool_decide (q_sort query = [])).
Definition sorted_result (query : ParsedQuery) (collection : string) (scanned : Z) (st : TopK * Z)
    (index strategy : option string) : QueryResult :=
  let '(docs, total, more, next) := finish_topk st.1 st.2 query collection in
  {| r_docs := docs; total_count := total; docs_scanned := scanned; index_used := index;
     scan_strategy := strategy; r_has_more := more; r_next_cursor := next |}.
Definition unsorted_result (query : ParsedQuery) (scanned : Z) (sink : UnsortedPage) (index strategy : option string)
    : QueryResult :=
  let '(docs, more, total) := unsorted_finish sink (q_limit query) in
  {| r_docs := apply_projection docs (q_fields query); total_count := total; docs_scanned := scanned;
     index_used := index; scan_strategy := strategy; r_has_more := more; r_next_cursor := None |}.

(** Shape by shape until the page is full. *)
Fixpoint page_shapes (e : engine) (partition p : PartitionId) (post : option FilterNode) (shapes : list IndexScanShape)
    (st : Z * UnsortedPage) : res (Z * UnsortedPage) :=
  match shapes with
  | [] => Ok st
  | shape :: shapes =>
      let? st := shape_scan current shape e partition (on_entry e p (page_doc post)) st in
      if broke_early st.2 then Ok st else page_shapes e partition p post shapes st
  end.

Definition execute_index_stream (collection : string) (query : ParsedQuery) (plan : QueryPlan) (index_name : string)
    (partition : PartitionId) (shapes : list IndexScanShape) (label_docs : bool) : Op QueryResult :=
  let! p := get_docs_partition collection in
  let name := plan_name (scan_of plan) in
  let doc_strategy := if label_docs then Some name else None in
  let post := post_filter plan in
  let! e := op_gets eng in
  if q_count_only query then
    let! out := op_lift (scan_shapes e partition shapes (on_entry e p (count_doc post)) (0, 0)) in
    op_ret (counted out.2 out.1 (Some index_name) (Some name))
  else if wants_sorted query then
    let! out := op_lift (scan_shapes e partition shapes (on_entry e p (sorted_doc post query))
      (0, (topk_new (q_offset query) (q_limit query) (q_sort query), 0))) in
    op_ret (sorted_result query collection out.1 out.2 (Some index_name) doc_strategy)
  else
    let! out := op_lift (page_shapes e partition p post shapes (0, unsorted_new (q_offset query) (q_limit query))) in
    op_ret (unsorted_result query out.1 out.2 (Some index_name) doc_strategy).

(** ** Streams of identifiers *)

Fixpoint page_ids (e : engine) (p : PartitionId) (post : option FilterNode) (ids : list string) (seen : Z)
    (st : Z * UnsortedPage) : res (Z * UnsortedPage) :=
  match ids with
  | [] => Ok st
  | id :: ids =>
      match checkpoint current seen with
      | (_, Err err) => Err err
      | (seen, Ok _) =>
          match fetch e p id with
          | None => page_ids e p post ids seen st
          | Some doc =>
              match page_doc post doc st.2 with
              | (sink, Break) => Ok (st.1 + 1, sink)
              | (sink, Continue) => page_ids e p post ids seen (st.1 + 1, sink)
              end
          end
      end
  end.
Definition execute_id_stream (collection : string) (query : ParsedQuery) (plan : QueryPlan) (ids : list string)
    (index : option string) : Op QueryResult :=
  let! p := get_docs_partition collection in
  let name := plan_name (scan_of plan) in
  let post := post_filter plan in
  if q_count_only query then
    let! docs := load_docs_by_ids p ids in
    op_ret (counted (lenZ (List.filter (passes post) docs)) (lenZ docs) index (Some name))
  else if wants_sorted query then
    let! docs := load_docs_by_ids p ids in
    let st := foldl (fun st doc => (sorted_doc post query doc st).1)
      (topk_new (q_offset query) (q_limit query) (q_sort query), 0) docs in
    op_ret (sorted_result query collection (lenZ docs) st index (Some name))
  else
    let! e := op_gets eng in
    let! out := op_lift (page_ids e p post ids 0 (0, unsorted_new (q_offset query) (q_limit query))) in
    op_ret (unsorted_result query out.1 out.2 index (Some name)).

(** ** Bare pages *)

Definition bare_page (query : ParsedQuery) (post : option FilterNode) : bool :=
  negb (q_count_only query) && bool_decide (post = None) && bool_decide (q_sort query = [])
  && bool_decide (q_cursor query = None).

(** Skips [to_skip] keys, then collects ids while fewer than [limit]. *)
Definition window_visit (limit : Z) (k _v : bytes) (st : Z * list string) : (Z * list string) * control_flow :=
  let '(to_skip, ids) := st in
  if 0 <? to_skip then ((to_skip - 1, ids), Continue)
  else if limit <=? lenZ ids then (st, Break)
  else ((to_skip, match extract_doc_id_from_key k with Some id => ids ++ [id] | None => ids end), Continue).
Definition shape_count (e : engine) (partition : PartitionId) (shape : IndexScanShape) : res Z :=
  lift_be match shape with
  | ShapePrefix p => be_count_prefix e partition p
  | ShapeRange start end_ => be_count_range e partition start end_
  end.
Definition windowed_bare_page (collection : string) (query : ParsedQuery) (index_name : string)
    (partition : PartitionId) (shape : IndexScanShape) (doc_strategy : option string) : Op QueryResult :=
  let! e := op_gets eng in
  let! total := op_lift (shape_count e partition shape) in
  let! out := op_lift (shape_scan current shape e partition (window_visit (q_limit query)) (q_offset query, [])) in
  let ids := out.2 in
  let! p := get_docs_partition collection in
  let! docs := load_docs_by_ids p ids in
  op_ret {| r_docs := apply_projection docs (q_fields query); total_count := Some total; docs_scanned := lenZ ids;
            index_used := Some index_name; scan_strategy := doc_strategy;
            r_has_more := sat_add (q_offset query) (q_limit query) <? total; r_next_cursor := None |}.
Definition load_id_window (collection : string) (query : ParsedQuery) (candidate_ids : list string)
    : Op (list Value * Z * bool) :=
  let total := lenZ candidate_ids in
  let start := Z.min (q_offset query) total in
  let end_ := Z.min (sat_add start (q_limit query)) total in
  let! p := get_docs_partition collection in
  let! docs := load_docs_by_ids p (takeZ (end_ - start) (dropZ start candidate_ids)) in
  op_ret (apply_projection docs (q_fields query), end_ - start, end_ <? total).
(** A page of an identifier list, all of it candidates. *)
Definition id_page (collection : string) (query : ParsedQuery) (ids : list string) (index strategy : option string)
    : Op QueryResult :=
  let! out := load_id_window collection query ids in
  op_ret {| r_docs := out.1.1; total_count := Some (lenZ ids); docs_scanned := out.1.2; index_used := index;
            scan_strategy := strategy; r_has_more := out.2; r_next_cursor := None |}.

(** ** Full scans *)

(** The documents partition from its first key; a timeout or a document that
    does not parse fails the query. *)
Definition scan_docs {S} (p : PartitionId)
    (visit : bytes -> bytes -> Z * option AppError * S -> (Z * option AppError * S) * control_flow) (s0 : S) : Op S :=
  fun s =>
    match visit_scan visit (be_scan_full (eng s) p) (0, None, s0) with
    | Err e => (Err e, s)
    | Ok (_, Some e, _) => (Err e, s)
    | Ok (_, None, out) => (Ok out, s)
    end.
Definition scanned_doc {S} (visit : Value -> S -> S * control_flow) (doc : Value) (st : Z * S)
    : (Z * S) * control_flow :=
  let '(s, flow) := visit doc st.2 in ((st.1 + 1, s), flow).
(** Without a filter an offset entry is skipped before it is parsed. *)
Definition page_visit (filter : option FilterNode) (k v : bytes) (st : Z * option AppError * (Z * UnsortedPage))
    : (Z * option AppError * (Z * UnsortedPage)) * control_flow :=
  let '(seen, parse_err, (scanned, sink)) := st in
  match checkpoint current seen with
  | (seen, Err e) => ((seen, Some e, (scanned, sink)), Break)
  | (seen, Ok _) =>
      if bool_decide (filter = None) && (0 <? to_skip sink) then
        ((seen, parse_err, (scanned, {| to_skip := to_skip sink - 1; keep := keep sink; up_matches := up_matches sink + 1;
           page := page sink; broke_early := broke_early sink |})), Continue)
      else
        match from_slice v with
        | None => ((seen, Some (from_serde (de_error v)), (scanned, sink)), Break)
        | Some doc => let '(sink, flow) := page_doc filter doc sink in ((seen, parse_err, (scanned + 1, sink)), flow)
        end
  end.

(** Behind a cursor: the keys after its id, with one probe document. *)
Definition seek_visit (filter : option FilterNode) (limit : Z) (_k v : bytes) (st : Z * list Value)
    : (Z * list Value) * control_flow :=
  match from_slice v with
  | None => (st, Continue)
  | Some doc =>
      if negb (passes filter doc) then ((st.1 + 1, st.2), Continue) else
      let results := st.2 ++ [doc] in
      ((st.1 + 1, results), if limit <? lenZ results then Break else Continue)
  end.
Definition execute_full_scan_id_seek (collection : string) (query : ParsedQuery) (plan : QueryPlan) (cursor : Cursor)
    : Op QueryResult :=
  let! p := get_docs_partition collection in
  let limit := q_limit query in
  let lo := str_bytes (last_id cursor) ++ [0] in
  let! e := op_gets eng in
  let! out := op_lift (visit_checked current (seek_visit (original_filter plan) limit) (be_scan_range e p lo [255]) (0, [])) in
  let has_more := limit <? lenZ out.2 in
  let results := takeZ limit out.2 in
  op_ret {| r_docs := apply_projection results (q_fields query); total_count := None; docs_scanned := out.1;
            index_used := None; scan_strategy := None; r_has_more := has_more;
            r_next_cursor := if has_more then doc ← last results; encode_cursor doc [] collection else None |}.

(** The scan and its page, past the special case of the seek. *)
Definition full_scan_page (collection : string) (query : ParsedQuery) (plan : QueryPlan) : Op QueryResult :=
  let! _ := ensure_collection_exists collection in
  let! p := get_docs_partition collection in
  let filter := original_filter plan in
  if q_count_only query then
    let! out := scan_docs p (doc_visit current (scanned_doc (count_doc filter))) (0, 0) in
    op_ret (counted out.2 out.1 None (Some (plan_name (scan_of plan))))
  else if bool_decide (q_sort query = []) then
    let! out := scan_docs p (page_visit filter) (0, unsorted_new (q_offset query) (q_limit query)) in
    let '(docs, more, streamed_total) := unsorted_finish out.2 (q_limit query) in
    let! count := collection_doc_count collection in
    op_ret {| r_docs := apply_projection docs (q_fields query);
              total_count := if bool_decide (filter = None) then Some count else streamed_total;
              docs_scanned := out.1; index_used := None; scan_strategy := None; r_has_more := more;
              r_next_cursor := if more then doc ← last docs; encode_cursor doc [] collection else None |}
  else
    let! out := scan_docs p (doc_visit current (scanned_doc (sorted_doc filter query)))
      (0, (topk_new (q_offset query) (q_limit query) (q_sort query), 0)) in
    op_ret (sorted_result query collection out.1 out.2 None None).
Definition execute_full_scan (collection : string) (query : ParsedQuery) (plan : QueryPlan) : Op QueryResult :=
  match q_cursor query with
  | Some cursor =>
      if bool_decide (q_sort query = []) && negb (q_count_only query)
      then execute_full_scan_id_seek collection query plan cursor
      else full_scan_page collection query plan
  | None => full_scan_page collection query plan
  end.

(** ** Index scans *)

Definition unreachable : AppError := Internal "internal error: entered unreachable code".
Definition partition_missing (index_name : string) : AppError := Internal ("Index partition not found: " +:+ index_name).

Definition empty_index_result (index_name : string) (query : ParsedQuery) (plan : QueryPlan) (label_docs : bool)
    : QueryResult :=
  counted 0 0 (Some index_name) (if q_count_only query || label_docs then Some (plan_name (scan_of plan)) else None).

(** The counts of the distinct encodings; one that fails counts nothing. *)
Fixpoint count_in (m : IndexManager) (e : engine) (collection field : string) (values : list Value)
    (seen : list bytes) (total : Z) : Z :=
  match values with
  | [] => total
  | value :: values =>
      let enc := value_to_sortable_bytes value in
      if bool_decide (enc ∈ seen) then count_in m e collection field values seen total
      else count_in m e collection field values (enc :: seen)
             (total + default 0 (count_eq m e collection field value))
  end.

(** What an index plan comes to: an answer at once, or candidates to scan. *)
Inductive IndexCandidates :=
| Answered (r : QueryResult)
| Candidates (partition : PartitionId) (shapes : list IndexScanShape).

Definition index_candidates (m : IndexManager) (e : engine) (collection : string) (query : ParsedQuery)
    (plan : QueryPlan) : res IndexCandidates :=
  let fast_count := q_count_only query && bool_decide (post_filter plan = None) in
  let name := plan_name (scan_of plan) in
  match scan_of plan with
  | IndexEq index_name field value =>
      match (if fast_count then count_eq m e collection field value else None) with
      | Some count => Ok (Answered (counted count 0 (Some index_name) (Some name)))
      | None =>
          match eq_scan m collection field value with
          | Some (partition, prefix) => Ok (Candidates partition [ShapePrefix prefix])
          | None => Ok (Answered (empty_index_result index_name query plan false))
          end
      end
  | IndexIn index_name field values =>
      if fast_count && bool_decide (is_Some (get_index_for_field m collection field)) then
        Ok (Answered (counted (count_in m e collection field values [] 0) 0 (Some index_name) (Some name)))
      else
        match in_scan m collection field values with
        | Some (partition, prefixes) => Ok (Candidates partition (ShapePrefix <$> prefixes))
        | None => Ok (Answered (empty_index_result index_name query plan false))
        end
  | IndexRange index_name field lower upper =>
      match (if fast_count then count_range m e collection field lower upper else None) with
      | Some count => Ok (Answered (counted count 0 (Some index_name) (Some name)))
      | None =>
          match range_scan m collection field lower upper with
          | Some (partition, RangeSpan start end_) => Ok (Candidates partition [ShapeRange start end_])
          | Some (_, RangeEmpty) | None => Ok (Answered (empty_index_result index_name query plan false))
          end
      end
  | CompoundEq index_name prefix =>
      let? partition := ok_or (get_index_partition m collection index_name) (partition_missing index_name) in
      if fast_count then
        let? count := lift_be (be_count_prefix e partition prefix) in
        Ok (Answered (counted count 0 (Some index_name) (Some name)))
      else Ok (Candidates partition [ShapePrefix prefix])
  | _ => Err unreachable
  end.
Definition scan_index_name (p : ScanPlan) : string :=
  match p with
  | IndexEq n _ _ | IndexIn n _ _ | IndexRange n _ _ _ | CompoundEq n _ | CompoundRange n _ _ _
  | IndexSorted n _ _ _ => n
  | _ => EmptyString
  end.
Definition execute_index_scan (collection : string) (query : ParsedQuery) (plan : QueryPlan) : Op QueryResult :=
  let! e := op_gets eng in
  let! m := op_gets index_manager in
  let! c := op_lift (index_candidates m e collection query plan) in
  let index_name := scan_index_name (scan_of plan) in
  match c with
  | Answered r => op_ret r
  | Candidates partition shapes =>
      if bare_page query (post_filter plan) then
        match shapes with
        | [shape] => windowed_bare_page collection query index_name partition shape None
        | _ =>
            let! ids := op_lift (collect_ids e partition shapes) in
            id_page collection query ids (Some index_name) None
        end
      else execute_index_stream collection query plan index_name partition shapes false
  end.

(** ** Sorted walks *)

Definition present_values (values : list CursorValue) : list Value :=
  omap (fun cv => match cv with Present v => Some v | Missing => None end) values.
Definition index_cursor_key (prefix : bytes) (cursor : Cursor) : bytes :=
  prefix ++ make_compound_index_key (present_values (sort_values cursor)) (last_id cursor).
Definition sorted_bounds (prefix : bytes) (reverse : bool) (cursor : option Cursor) : bytes * bytes :=
  match cursor with
  | Some cursor =>
      let cursor_key := index_cursor_key prefix cursor in
      if reverse then (prefix, cursor_key) else (cursor_key ++ [0], prefix_successor prefix)
  | None => (prefix, prefix_successor prefix)
  end.

Record walk := { entry_skip : Z; skipped : Z; walked : Z; found : list Value }.
Definition walk_visit (e : engine) (p : PartitionId) (post : option FilterNode) (offset limit : Z)
    (k _v : bytes) (w : walk) : walk * control_flow :=
  if 0 <? entry_skip w then
    ({| entry_skip := entry_skip w - 1; skipped := skipped w; walked := walked w; found := found w |}, Continue)
  else
    match hydrate_index_entry e p k with
    | None => (w, Continue)
    | Some doc =>
        let w := {| entry_skip := entry_skip w; skipped := skipped w; walked := walked w + 1; found := found w |} in
        if negb (passes post doc) then (w, Continue)
        else if bool_decide (is_Some post) && (skipped w <? offset) then
          ({| entry_skip := entry_skip w; skipped := skipped w + 1; walked := walked w; found := found w |}, Continue)
        else
          let results := found w ++ [doc] in
          ({| entry_skip := entry_skip w; skipped := skipped w; walked := walked w; found := results |},
           if limit <? lenZ results then Break else Continue)
    end.
Definition execute_index_sorted (collection : string) (query : ParsedQuery) (plan : QueryPlan)
    (index_name : string) (prefix : bytes) (reverse exact_tail : bool) : Op QueryResult :=
  let! m := op_gets index_manager in
  let! partition := op_lift (ok_or (get_index_partition m collection index_name) (partition_missing index_name)) in
  let! p := get_docs_partition collection in
  let! e := op_gets eng in
  let limit := q_limit query in
  let '(lo, hi) := sorted_bounds prefix reverse (q_cursor query) in
  let w := {| entry_skip := if post_filter plan then 0 else q_offset query; skipped := 0; walked := 0; found := [] |} in
  let sc := if reverse then be_scan_range_rev e partition lo hi else be_scan_range e partition lo hi in
  let! w := op_lift (visit_checked current (walk_visit e p (post_filter plan) (q_offset query) limit) sc w) in
  let has_more := limit <? lenZ (found w) in
  let results := takeZ limit (found w) in
  op_ret {| r_docs := apply_projection results (q_fields query); total_count := None; docs_scanned := walked w;
            index_used := Some index_name; scan_strategy := Some (plan_name (scan_of plan)); r_has_more := has_more;
            r_next_cursor := if has_more && exact_tail
              then doc ← last results; encode_cursor doc (q_sort query) collection else None |}.

(** ** Compound ranges *)

Definition execute_compound_range (collection : string) (query : ParsedQuery) (plan : QueryPlan)
    (index_name : string) (eq_prefix : bytes) (lower upper : bbound) : Op QueryResult :=
  let! m := op_gets index_manager in
  let! partition := op_lift (ok_or (get_index_partition m collection index_name) (partition_missing index_name)) in
  let name := plan_name (scan_of plan) in
  match range_scan_bounds eq_prefix lower upper with
  | RangeEmpty => op_ret (counted 0 0 (Some index_name) (Some name))
  | RangeSpan start_key end_key =>
      if q_count_only query && bool_decide (post_filter plan = None) then
        let! count := op_engine (fun e => be_count_range e partition start_key end_key) in
        op_ret (counted count 0 (Some index_name) (Some name))
      else
        let shape := ShapeRange start_key end_key in
        if bare_page query (post_filter plan)
        then windowed_bare_page collection query index_name partition shape (Some name)
        else execute_index_stream collection query plan index_name partition [shape] true
  end.

(** ** Unions *)

Definition or_arm_ids (m : IndexManager) (e : engine) (collection : string) (arm : ScanPlan)
    : res (string * list string) :=
  match arm with
  | IndexEq index_name field value =>
      let? ids := lookup_eq current m e collection field value in Ok (index_name, default [] ids)
  | IndexIn index_name field values =>
      let? ids := lookup_in current m e collection field values in Ok (index_name, default [] ids)
  | IndexRange index_name field lower upper =>
      let? ids := lookup_range current m e collection field lower upper in Ok (index_name, default [] ids)
  | CompoundEq index_name prefix =>
      let? partition := ok_or (get_index_partition m collection index_name) (partition_missing index_name) in
      let? ids := collect_ids e partition [ShapePrefix prefix] in
      Ok (index_name, ids)
  | CompoundRange index_name eq_prefix lower upper =>
      match range_scan_bounds eq_prefix lower upper with
      | RangeEmpty => Ok (index_name, [])
      | RangeSpan start end_ =>
          let? partition := ok_or (get_index_partition m collection index_name) (partition_missing index_name) in
          let? ids := collect_ids e partition [ShapeRange start end_] in
          Ok (index_name, ids)
      end
  | _ => Err unreachable
  end.

(** The ids not met before, in order; the index names without repetition. *)
Definition add_new {A} `{EqDecision A} (xs : list A) (x : A) : list A :=
  if bool_decide (x ∈ xs) then xs else xs ++ [x].
Fixpoint union_arms (m : IndexManager) (e : engine) (collection : string) (arms : list ScanPlan)
    (ids names : list string) : res (list string * list string) :=
  match arms with
  | [] => Ok (ids, names)
  | arm :: arms =>
      let? out := or_arm_ids m e collection arm in
      union_arms m e collection arms (foldl add_new ids out.2) (add_new names out.1)
  end.
Definition execute_or_union (collection : string) (query : ParsedQuery) (plan : QueryPlan) (arms : list ScanPlan)
    : Op QueryResult :=
  let! e := op_gets eng in
  let! m := op_gets index_manager in
  let! out := op_lift (union_arms m e collection arms [] []) in
  let ids := sort_by str_cmp out.1 in
  let index_used := Some (String.concat "+" out.2) in
  let name := plan_name (scan_of plan) in
  if q_count_only query && bool_decide (post_filter plan = None)
  then op_ret (counted (lenZ ids) 0 index_used (Some name))
  else if bare_page query (post_filter plan) then id_page collection query ids index_used (Some name)
  else execute_id_stream collection query plan ids index_used.

(** ** Bitmap candidates *)

Definition bitmap_page (collection : string) (query : ParsedQuery) (plan : QueryPlan) (b : bitmap) : Op QueryResult :=
  let! a := op_gets scan_accelerator in
  let limit := q_limit query in
  let window := resolve_window a b (q_offset query) (sat_add limit 1) in
  let has_more := limit <? lenZ window in
  let ids := takeZ limit window in
  let! p := get_docs_partition collection in
  let! e := op_gets eng in
  op_ret {| r_docs := apply_projection (omap (fetch e p) ids) (q_fields query); total_count := Some (bitmap_len b);
            docs_scanned := lenZ ids; index_used := None; scan_strategy := Some (plan_name (scan_of plan));
            r_has_more := has_more; r_next_cursor := None |}.
Definition execute_bitmap_scan (collection : string) (query : ParsedQuery) (plan : QueryPlan) (b : bitmap)
    : Op QueryResult :=
  if q_count_only query && bool_decide (post_filter plan = None)
  then op_ret (counted (bitmap_len b) 0 None (Some (plan_name (scan_of plan))))
  else if bare_page query (post_filter plan) then bitmap_page collection query plan b
  else
    let! a := op_gets scan_accelerator in
    execute_id_stream collection query plan (resolve_window a b 0 usize_max) None.

(** ** A query *)

(** The order a [HashMap] of bounds is iterated in. *)
Context (hash_order : list (string * (option (Value * bool) * option (Value * bool))) ->
  list (string * (option (Value * bool) * option (Value * bool)))).

Definition execute_plan (collection : string) (query : ParsedQuery) (plan : QueryPlan) : Op QueryResult :=
  match scan_of plan with
  | FullScan => execute_full_scan collection query plan
  | IndexEq _ _ _ | IndexIn _ _ _ | IndexRange _ _ _ _ | CompoundEq _ _ => execute_index_scan collection query plan
  | IndexSorted index_name prefix reverse exact_tail =>
      execute_index_sorted collection query plan index_name prefix reverse exact_tail
  | CompoundRange index_name eq_prefix lower upper =>
      execute_compound_range collection query plan index_name eq_prefix lower upper
  | BitmapScan b => execute_bitmap_scan collection query plan b
  | OrUnion arms => execute_or_union collection query plan arms
  end.
Definition execute_query (collection : string) (query : ParsedQuery) : Op QueryResult :=
  let! _ := ensure_collection_exists collection in
  if q_count_only query && bool_decide (q_filter query = None) then
    let! count := collection_doc_count collection in
    op_ret (counted count 0 None (Some "doc_counter"))
  else
    let! m := op_gets index_manager in
    let! a := op_gets scan_accelerator in
    execute_plan collection query (plan_query hash_order query m collection a).
End executor.
