(* ===== verification/Compound.v ===== *)
(** * Compound index keys

    The keys of an index on several fields: the encoded values separated by
    [0x01]. Scanning a prefix of encoded values selects by the values, and a
    range behind such a prefix is the range of the field that follows. *)

From S2P Require Import Prelude Bytes F64 Json Errors Externals Filter Secondary Backend Index.

Section separators.
Context `{SerdeJson} `{!SerdeLaws}.

(** Text without the two separator bytes. *)
Definition field_safe (v : Value) : Prop :=
  match v with
  | VString s => 0 ∉ str_bytes s /\ 1 ∉ str_bytes s
  | VArray _ | VObject _ => 0 ∉ str_bytes (json_text v) /\ 1 ∉ str_bytes (json_text v)
  | _ => True
  end.
Lemma field_safe_index v : field_safe v -> index_safe v.
Proof. destruct v; cbn; tauto. Qed.

Definition is_sep (x : Z) : Prop := x = 0 \/ x = 1.
(** Neither string extends the other by a separator. *)
Definition sep_apart (a b : bytes) : Prop :=
  forall x t, is_sep x -> a <> b ++ x :: t /\ b <> a ++ x :: t.

Lemma enc_no_sep v w x t : field_safe v -> field_safe w -> is_sep x ->
  value_to_sortable_bytes v <> value_to_sortable_bytes w ++ x :: t.
Proof.
  intros Hv Hw Hx. rewrite !enc_cons. cbn. intros [= Ht Hp].
  assert (x ∈ enc_payload v) as Hin by (rewrite Hp; set_solver).
  destruct v as [|[]|n|s|l|o]; cbn in Hv, Hin; try by apply elem_of_nil in Hin.
  (* two numbers: the payloads have one width *)
  1: by destruct w as [|[]| | | |].
  all: destruct Hv as [Hv0 Hv1], Hx; subst; done.
Qed.
Lemma enc_sep_apart v w : field_safe v -> field_safe w ->
  sep_apart (value_to_sortable_bytes v) (value_to_sortable_bytes w).
Proof. intros x t Hx. split; by apply enc_no_sep. Qed.

Lemma starts_with_cons x y a b : starts_with (x :: a) (y :: b) = (x =? y) && starts_with a b.
Proof. done. Qed.
Lemma starts_with_nil l : starts_with l [] = true.
Proof. by destruct l. Qed.
Lemma starts_sep a b x y s r : sep_apart a b -> is_sep x -> is_sep y ->
  starts_with (a ++ x :: s) (b ++ y :: r) = bool_decide (a = b) && starts_with (x :: s) (y :: r).
Proof.
  intros Hap Hx Hy. apply eq_bool_prop_intro. rewrite !Is_true_true, andb_true_iff, bool_decide_eq_true, !starts_with_spec.
  split.
  - intros [t Ht]. rewrite <- app_assoc in Ht. cbn in Ht.
    destruct (lex_split_total a b) as [p u v a b Huv|p|p u a|p v b];
      rewrite <- ?app_assoc in Ht; apply app_inv_head in Ht; cbn in Ht; simplify_eq.
    + split; [done|]. by exists t.
    + exfalso. by destruct (Hap y a Hy).
    + exfalso. by destruct (Hap v b Hx).
  - intros [-> [t Ht]]. exists t. rewrite Ht, <- app_assoc. done.
Qed.
End separators.

Section prefixes.
Context `{SerdeJson} `{!SerdeLaws}.

Definition all_equal (vals ws : list Value) : bool := forallb (fun x => eq_total x.1 x.2) (zip vals ws).

Lemma compound_fields_cons v u vs :
  compound_fields (v :: u :: vs) = value_to_sortable_bytes v ++ 1 :: compound_fields (u :: vs).
Proof. done. Qed.
Lemma compound_fields_split n vs : (0 < n < length vs)%nat ->
  compound_fields vs = compound_fields (take n vs) ++ 1 :: compound_fields (drop n vs).
Proof.
  revert vs; induction n as [|[|n] IH]; intros [|v [|u vs]] Hn; cbn [length] in Hn; try lia; [done|].
  cbn [take drop]. rewrite !compound_fields_cons.
  rewrite (IH (u :: vs)) by (cbn [length]; lia). cbn [take drop]. by rewrite <- app_assoc.
Qed.
Lemma eq_total_enc v w : eq_total v w = bool_decide (value_to_sortable_bytes w = value_to_sortable_bytes v).
Proof. unfold eq_total. apply bool_decide_ext. symmetry. apply enc_eq_iff. Qed.
Lemma all_equal_enc vals ws : length vals = length ws -> all_equal vals ws = true ->
  compound_fields vals = compound_fields ws.
Proof.
  unfold all_equal. revert ws; induction vals as [|v vals IH]; intros [|w ws] Hl; try done.
  cbn [zip_with forallb]. rewrite andb_true_iff, eq_total_enc, bool_decide_eq_true. cbn [fst snd]. intros [Hv Ht].
  injection Hl as Hl. specialize (IH ws Hl Ht). destruct vals as [|v' vals], ws as [|w' ws]; try done.
  rewrite !compound_fields_cons. by rewrite Hv, IH.
Qed.

(** The keys under a prefix of values are those with these values. *)
Lemma compound_prefix ws vals id : vals <> [] -> (length vals <= length ws)%nat ->
  Forall field_safe vals -> Forall field_safe (take (length vals) ws) ->
  starts_with (compound_fields ws ++ 0 :: id)
    (compound_fields vals ++ [if bool_decide (length vals = length ws) then 0 else 1]) = all_equal vals ws.
Proof.
  unfold all_equal. revert ws; induction vals as [|v vals IH]; intros [|w ws] Hne Hl Hv Hw; cbn [length] in Hl; try done; [lia|].
  inversion Hv as [|? ? Hv1 Hv2]; subst. cbn [length take] in Hw. inversion Hw as [|? ? Hw1 Hw2]; subst.
  pose proof (enc_sep_apart w v Hw1 Hv1) as Hap. cbn [zip_with forallb fst snd length].
  rewrite eq_total_enc. destruct vals as [|v' vals], ws as [|w' ws]; cbn [length] in *; try lia.
  - rewrite bool_decide_true, starts_sep by (done || by left). by rewrite starts_with_cons, starts_with_nil.
  - rewrite bool_decide_false by lia. rewrite compound_fields_cons, <- app_assoc. cbn [compound_fields app].
    rewrite starts_sep by (done || by right). by rewrite starts_with_cons, starts_with_nil.
  - rewrite !compound_fields_cons, <- !app_assoc. cbn [app].
    rewrite starts_sep, starts_with_cons, Z.eqb_refl by (done || by right). cbn [andb].
    rewrite <- (IH (w' :: ws)) by (done || cbn; lia). do 3 f_equal. cbn [length].
    by rewrite (bool_decide_ext (S (S (length vals)) = S (S (length ws))) (S (length vals) = S (length ws))) by lia.
Qed.

(** ** Ranges behind a prefix *)

(** A window whose bounds begin with [q] holds only keys that do. *)
Lemma window_under q a b k : bytes_leb (q ++ a) k && bytes_ltb k (q ++ b) = true -> exists r, k = q ++ r.
Proof.
  unfold bytes_leb, bytes_ltb. intros [H1 H2]%andb_prop.
  destruct (lex_split_total q k) as [p x y q k Hxy|p|p x q|p y k].
  - exfalso. rewrite <- !app_assoc, bytes_cmp_app in H1, H2. cbn in H1, H2. unfold then_cmp in *.
    rewrite (Z.compare_antisym x y) in H2. destruct (x ?= y) eqn:E; [by apply Z.compare_eq in E|done..].
  - exists []. by rewrite app_nil_r.
  - exfalso. rewrite <- app_assoc in H1. rewrite <- (app_nil_r p) in H1 at 2. by rewrite bytes_cmp_app in H1.
  - by eexists.
Qed.
Context (lower upper : option (Value * bool)) (Hsome : is_Some lower \/ is_Some upper).
Abbreviation bounds q := (range_scan_bounds q (bound_bytes lower) (bound_bytes upper)).

Lemma bounds_spec q : bounds q = RangeEmpty /\ bounds [] = RangeEmpty \/
  exists a b, bounds [] = RangeSpan a b /\ bounds q = RangeSpan (q ++ a) (q ++ b).
Proof.
  assert (Hs : forall r, range_start q (bound_bytes lower) (Some r) = q ++ range_start [] (bound_bytes lower) (Some r)).
  { intros [lo hi]. destruct lower as [[v []]|]; cbn; try done. rewrite <- app_assoc.
    by rewrite (app_assoc q), !prefix_successor_sep, <- app_assoc. }
  assert (He : forall r, range_end q (bound_bytes upper) (Some r) = q ++ range_end [] (bound_bytes upper) (Some r)).
  { intros [lo hi]. destruct upper as [[v []]|]; cbn; by rewrite <- ?app_assoc. }
  unfold range_scan_bounds. destruct (bracket_of (bound_bytes lower)) as [[l|]|] eqn:El; [|by left|].
  - destruct (bracket_of (bound_bytes upper)) as [[u|]|]; [|by left|]; cbn [mjoin option_join].
    + case_bool_decide; [|by left]. right. do 2 eexists. split; [done|]. by rewrite Hs, He.
    + right. do 2 eexists. split; [done|]. by rewrite Hs, He.
  - destruct (bracket_of (bound_bytes upper)) as [[u|]|] eqn:Eu; [|by left|]; cbn [mjoin option_join].
    + right. do 2 eexists. split; [done|]. by rewrite Hs, He.
    + exfalso. destruct lower, upper; try done. by destruct Hsome as [[]|[]].
Qed.

(** The keys in the window: the prefix's values, then a value in the range. *)
Lemma compound_window vals ws w id : bounds_safe lower -> bounds_safe upper -> id_safe id -> index_safe w ->
  vals <> [] -> length vals = length ws -> Forall field_safe vals -> Forall field_safe ws ->
  in_window (bounds (compound_fields vals ++ [1])) (make_compound_index_key (ws ++ [w]) id) =
  all_equal vals ws && (lower_sem lower w && upper_sem upper w).
Proof.
  intros Hlo Hup Hid Hw Hne Hl Hv Hws. rewrite make_compound_index_key_spec.
  assert (Hpre : starts_with (compound_fields (ws ++ [w]) ++ 0 :: str_bytes id) (compound_fields vals ++ [1]) = all_equal vals ws).
  { pose proof (compound_prefix (ws ++ [w]) vals (str_bytes id) Hne) as Hp.
    rewrite length_app in Hp. cbn [length] in Hp. rewrite bool_decide_false in Hp by lia.
    rewrite Hp; [|lia|done|by rewrite Hl, take_app_length]. unfold all_equal. f_equal.
    clear -Hl. revert ws Hl; induction vals as [|v vals IH]; intros [|u ws] Hl; try done. cbn. f_equal. apply IH. cbn in Hl. lia. }
  rewrite <- Hpre. pose proof (range_window_spec lower upper w id Hsome Hlo Hup Hw Hid) as Hr.
  rewrite make_index_key_spec in Hr. destruct (starts_with _ (compound_fields vals ++ [1])) eqn:Es; cbn [andb].
  - rewrite <- Hr. clear Hr. symmetry in Hpre. apply all_equal_enc in Hpre as Hcf; [|done].
    assert (Hkey : compound_fields (ws ++ [w]) = (compound_fields vals ++ [1]) ++ value_to_sortable_bytes w).
    { rewrite Hcf. assert (0 < length ws)%nat by (rewrite <- Hl; destruct vals; [done|cbn; lia]).
      rewrite (compound_fields_split (length ws)) by (rewrite length_app; cbn; lia).
      rewrite take_app_length, drop_app_length. by rewrite <- app_assoc. }
    rewrite Hkey, <- app_assoc.
    destruct (bounds_spec (compound_fields vals ++ [1])) as [[-> ->]|(a & b & -> & ->)]; [done|]. cbn.
    unfold bytes_leb, bytes_ltb. by rewrite !bytes_cmp_app.
  - destruct (bounds_spec (compound_fields vals ++ [1])) as [[-> _]|(a & b & _ & ->)]; [done|]. cbn.
    apply not_true_iff_false. intros (r & E)%window_under.
    apply not_true_iff_false in Es. apply Es, starts_with_spec. by exists r.
Qed.
End prefixes.

(** ** The order of compound keys *)

Section key_order.
Context `{SerdeJson} `{!SerdeLaws}.

(** A string and its extension by NUL have nothing in between. *)
Lemma after_key a b : Forall is_byte b -> bytes_leb (a ++ [0]) b = match bytes_cmp b a with Gt => true | _ => false end.
Proof.
  intros Hb. unfold bytes_leb. destruct (lex_split_total a b) as [p x y a b Hxy|p|p x a|p y b].
  - rewrite <- app_assoc, !bytes_cmp_app. cbn. unfold then_cmp.
    rewrite (Z.compare_antisym x y). destruct (x ?= y) eqn:E; cbn; [|done..]. by apply Z.compare_eq in E.
  - rewrite <- (app_nil_r p) at 2. rewrite bytes_cmp_app. by rewrite (cmp_refl bytes_cmp).
  - rewrite <- app_assoc. rewrite <- (app_nil_r p) at 2 3. by rewrite !bytes_cmp_app.
  - rewrite bytes_cmp_app. rewrite <- (app_nil_r p) at 2. rewrite bytes_cmp_app.
    apply Forall_app in Hb as [_ Hb]. inversion Hb as [|? ? Hy _]; subst. unfold is_byte in Hy.
    cbn. destruct y as [|y|y]; [by destruct b|done|lia].
Qed.

Lemma enc_sep_cmp a b x y s r : Forall is_byte a -> Forall is_byte b -> sep_apart a b -> is_sep x -> is_sep y ->
  bytes_cmp (a ++ x :: s) (b ++ y :: r) = then_cmp (bytes_cmp a b) (bytes_cmp (x :: s) (y :: r)).
Proof.
  intros Ha Hb Hap Hx Hy. destruct (lex_split_total a b) as [p u v a b Huv|p|p u a|p v b].
  - rewrite <- !app_assoc, !bytes_cmp_app. cbn. destruct (u ?= v) eqn:E; try done. by apply Z.compare_eq in E.
  - by rewrite bytes_cmp_app, (cmp_refl bytes_cmp).
  - rewrite <- app_assoc, bytes_cmp_app. rewrite <- (app_nil_r p) at 2. rewrite bytes_cmp_app.
    apply Forall_app in Ha as [_ Ha]. inversion Ha as [|? ? Hu _]; subst. unfold is_byte in Hu.
    assert (u <> 0 /\ u <> 1) by (split; intros ->; [destruct (Hap 0 a)|destruct (Hap 1 a)]; unfold is_sep; tauto).
    cbn. unfold then_cmp. rewrite (proj2 (Z.compare_gt_iff u y)) by (unfold is_sep in Hy; lia). done.
  - rewrite <- app_assoc, bytes_cmp_app. rewrite <- (app_nil_r p) at 1. rewrite bytes_cmp_app.
    apply Forall_app in Hb as [_ Hb]. inversion Hb as [|? ? Hv _]; subst. unfold is_byte in Hv.
    assert (v <> 0 /\ v <> 1) by (split; intros ->; [destruct (Hap 0 b)|destruct (Hap 1 b)]; unfold is_sep; tauto).
    cbn. unfold then_cmp. rewrite (proj2 (Z.compare_lt_iff x v)) by (unfold is_sep in Hx; lia). done.
Qed.

(** Field by field in the total order. *)
Fixpoint values_cmp (ws us : list Value) : comparison :=
  match ws, us with
  | w :: ws, u :: us => then_cmp (compare_values_total w u) (values_cmp ws us)
  | _, _ => Eq
  end.
Lemma fields_cmp ws us x s r : is_sep x -> ws <> [] -> length ws = length us -> Forall field_safe ws -> Forall field_safe us ->
  bytes_cmp (compound_fields ws ++ x :: s) (compound_fields us ++ x :: r) = then_cmp (values_cmp ws us) (bytes_cmp s r).
Proof.
  intros Hx. revert us; induction ws as [|w ws IH]; intros [|u us] Hne Hl Hws Hus; try done.
  inversion Hws as [|? ? Hw Hws']; subst. inversion Hus as [|? ? Hu Hus']; subst. injection Hl as Hl.
  pose proof (enc_sep_apart w u Hw Hu) as Hap. cbn [values_cmp]. rewrite lockstep.
  assert (Hz : forall y a b, bytes_cmp (y :: a) (y :: b) = bytes_cmp a b)
    by (intros y a b; unfold bytes_cmp; cbn; by rewrite Z.compare_refl).
  destruct ws as [|w' ws], us as [|u' us]; try done.
  - cbn [compound_fields values_cmp]. rewrite enc_sep_cmp, Hz by (done || apply enc_bytes).
    by destruct (bytes_cmp (value_to_sortable_bytes w) _).
  - rewrite !compound_fields_cons, <- !app_assoc. cbn [app].
    rewrite enc_sep_cmp, Hz by (done || apply enc_bytes || by right). rewrite (IH (u' :: us)) by done.
    by destruct (bytes_cmp (value_to_sortable_bytes w) _).
Qed.
End key_order.
