(* ===== verification/Execution.v ===== *)
(** * The executor's answers

    Each execution path of [Executor], given candidates that cover a query's
    matches, answers what the definition of the query asks for: the window of
    the matches beyond the cursor, in sort order, with an exact [has_more],
    total and next cursor. *)

From S2P Require Import Prelude Bytes F64 Json Errors Externals Filter Secondary Sort Cursor Parser Backend Index Storage Document Consistency Mutations Page Planner Executor Compound.

Section answers.
Context `{SerdeJson} `{!SerdeLaws} `{RegexLib} `{Base64Lib} `{PayloadSerde}.

(** ** What a query asks for *)

(** The matches a query pages over: those beyond its cursor. *)
Definition remaining (query : ParsedQuery) (M : list Value) : list Value :=
  List.filter (beyond (q_cursor query) (q_sort query)) M.
Definition in_order (query : ParsedQuery) (M : list Value) : list Value :=
  sort_by (compare_docs (q_sort query)) (remaining query M).
Definition window {A} (query : ParsedQuery) (rows : list A) : list A :=
  takeZ (q_limit query) (dropZ (q_offset query) rows).
Definition request_ok (query : ParsedQuery) : Prop :=
  0 <= q_offset query /\ 0 <= q_limit query /\ (is_Some (q_cursor query) -> q_offset query = 0 /\ q_count_only query = false).

(** The order of the sort fields alone, ties left open. *)
Fixpoint compare_fields (sfs : list SortField) (a b : Value) : comparison :=
  match sfs with
  | [] => Eq
  | sf :: sfs =>
      then_cmp (cmp_dir (ascending sf) (compare_json_values (resolve_json_path a (field sf)) (resolve_json_path b (field sf))))
        (compare_fields sfs a b)
  end.

(** A page cut from [rows], an arrangement of the matches: ordered by the
    sort fields and, if the path is [exact], with ties in identifier order. *)
Record page_of (exact : bool) (query : ParsedQuery) (collection : string) (M rows : list Value) (r : QueryResult) : Prop := {
  po_rows : rows ≡ₚ remaining query M;
  po_sorted : StronglySorted (cmp_le (compare_fields (q_sort query))) rows;
  po_order : (exact && wants_sorted query = true \/ is_Some (r_next_cursor r)) -> rows = in_order query M;
  po_docs : r_docs r = apply_projection (window query rows) (q_fields query);
  po_more : r_has_more r = (q_offset query + q_limit query <? lenZ rows);
  po_total : total_count r = None \/ total_count r = Some (lenZ M);
  po_next : forall t, r_next_cursor r = Some t -> r_has_more r = true /\
    exists doc, last (window query rows) = Some doc /\ encode_cursor doc (q_sort query) collection = Some t;
  po_emits : exact && wants_sorted query = true -> r_has_more r = true ->
    r_next_cursor r = last (window query rows) ≫= fun doc => encode_cursor doc (q_sort query) collection;
}.
(** The answer to a query whose matches are [M]. *)
Definition answers (exact : bool) (query : ParsedQuery) (collection : string) (M : list Value) (r : QueryResult) : Prop :=
  if q_count_only query
  then r_docs r = [] /\ total_count r = Some (lenZ M) /\ r_has_more r = false /\ r_next_cursor r = None
  else exists rows, page_of exact query collection M rows r.

Lemma compare_docs_fields spec sfs a b : compare_docs_from spec sfs a b =
  then_cmp (compare_fields sfs a b) (compare_docs_from spec [] a b).
Proof.
  induction sfs as [|sf sfs IH]; [done|]. rewrite compare_docs_from_cons, IH. cbn [compare_fields].
  by destruct (cmp_dir _ _).
Qed.
Lemma in_order_fields query M : StronglySorted (cmp_le (compare_fields (q_sort query))) (in_order query M).
Proof.
  assert (Hs : StronglySorted (cmp_le (compare_docs (q_sort query))) (in_order query M)) by apply sort_by_strongly, _.
  induction Hs as [|x l Hs IH Hx]; constructor; [done|]. eapply Forall_impl; [exact Hx|].
  intros y Hy E. apply Hy. unfold compare_docs. rewrite compare_docs_fields. by rewrite E.
Qed.
Lemma not_sorted query : wants_sorted query = false -> q_sort query = [] /\ q_cursor query = None.
Proof.
  unfold wants_sorted. rewrite orb_false_iff, negb_false_iff, bool_decide_eq_true.
  intros [Hc ?]. split; [done|]. apply bool_decide_eq_false in Hc. by apply eq_None_not_Some.
Qed.
Lemma page_intro query collection M rows r :
  rows ≡ₚ remaining query M -> (wants_sorted query = true \/ is_Some (r_next_cursor r) -> rows = in_order query M) ->
  r_docs r = apply_projection (window query rows) (q_fields query) ->
  r_has_more r = (q_offset query + q_limit query <? lenZ rows) ->
  (total_count r = None \/ total_count r = Some (lenZ M)) ->
  (forall t, r_next_cursor r = Some t -> r_has_more r = true /\
    exists doc, last (window query rows) = Some doc /\ encode_cursor doc (q_sort query) collection = Some t) ->
  (wants_sorted query = true -> r_has_more r = true ->
    r_next_cursor r = last (window query rows) ≫= fun doc => encode_cursor doc (q_sort query) collection) ->
  page_of true query collection M rows r.
Proof.
  intros Hrows Hord Hd Hm Ht Hn He. constructor; try done. destruct (wants_sorted query) eqn:Hw.
  - rewrite Hord by auto. apply in_order_fields.
  - apply not_sorted in Hw as [-> _]. clear. induction rows; constructor; [done|]. by apply Forall_forall.
Qed.

(** The order of the matches does not matter. *)
Lemma in_order_perm query M M' : ids_distinct M -> M ≡ₚ M' -> in_order query M = in_order query M'.
Proof.
  intros Hnd Hp. apply sort_by_unique; [apply _| |by apply filter_perm].
  intros x y [Hx _]%elem_of_List_filter [Hy _]%elem_of_List_filter E.
  apply compare_docs_from_eq in E. by apply (NoDup_fmap_inj_on doc_id M).
Qed.
Lemma answers_perm exact query collection M M' r : ids_distinct M -> M ≡ₚ M' ->
  answers exact query collection M r -> answers exact query collection M' r.
Proof.
  intros Hnd Hp. assert (lenZ M = lenZ M') as El by (unfold lenZ; by rewrite Hp).
  unfold answers. rewrite <- El. destruct (q_count_only query); [done|].
  intros (rows & [A1 A0 A2 A3 A4 A5 A6 A7]). exists rows. constructor; try done.
  - rewrite A1. by apply filter_perm.
  - intros Hw. rewrite <- (in_order_perm query M M') by done. auto.
  - by rewrite <- El.
Qed.

(** ** The two sinks *)

Lemma remaining_length query M : lenZ (remaining query M) <= lenZ M.
Proof. unfold lenZ, remaining. pose proof (List.filter_length_le (beyond (q_cursor query) (q_sort query)) M). lia. Qed.

Lemma sorted_answers query collection M n index strategy :
  request_ok query -> q_count_only query = false -> lenZ M < usize_max ->
  answers true query collection M (sorted_result query collection n
    (foldl (sorted_push (q_cursor query) (q_sort query)) (topk_new (q_offset query) (q_limit query) (q_sort query), 0) M)
    index strategy).
Proof.
  intros (Ho & Hl & _) Hc HM. unfold answers. rewrite Hc. exists (in_order query M).
  assert (Hlen : lenZ (in_order query M) = lenZ (remaining query M))
    by (unfold lenZ, in_order; by rewrite sort_by_perm).
  unfold sorted_result. rewrite sorted_push_spec. cbn [fst snd]. fold (remaining query M).
  pose proof (remaining_length query M). rewrite topk_page_sorted by (done || lia).
  fold (in_order query M) (window query (in_order query M)). rewrite <- Hlen.
  apply page_intro; cbn [r_docs total_count r_has_more r_next_cursor]; try done.
  - apply sort_by_perm.
  - right. f_equal. lia.
  - intros t Ht. destruct (_ <? _); [|done]. split; [done|]. apply bind_Some in Ht. done.
  - intros _ ->. done.
Qed.
Lemma remaining_all query M : q_cursor query = None -> remaining query M = M.
Proof. intros Hc. unfold remaining, beyond. rewrite Hc. by apply filter_all_true. Qed.

(** A page cut from the matches as they stream. *)
Lemma window_answers query collection M r :
  q_count_only query = false -> wants_sorted query = false ->
  r_docs r = apply_projection (window query M) (q_fields query) ->
  r_has_more r = (q_offset query + q_limit query <? lenZ M) ->
  (total_count r = None \/ total_count r = Some (lenZ M)) -> r_next_cursor r = None ->
  answers true query collection M r.
Proof.
  intros Hc Hw Hd Hm Ht Hn. unfold answers. rewrite Hc. exists M.
  apply not_sorted in Hw as Hs. destruct Hs as [_ Hcur].
  apply page_intro; rewrite ?remaining_all by done; try done; rewrite ?Hn; [|done|congruence].
  intros [E|[? ?]]; [congruence|done].
Qed.
Lemma unsorted_answers query collection M n index strategy :
  request_ok query -> q_count_only query = false -> wants_sorted query = false -> lenZ M < usize_max ->
  answers true query collection M (unsorted_result query n
    (unsorted_run (unsorted_new (q_offset query) (q_limit query)) M) index strategy).
Proof.
  intros (Ho & Hl & _) Hc Hw HM. unfold unsorted_result.
  destruct (unsorted_page_window (q_offset query) (q_limit query) M [] Ho Hl HM) as [-> _].
  apply window_answers; cbn [r_docs total_count r_has_more r_next_cursor]; try done.
  destruct (_ <? _); auto.
Qed.
End answers.

(** ** Candidates and their documents *)

Section candidates.
Context `{SerdeJson} `{!SerdeLaws} `{BackendLaws} `{StorageSerde} `{RegexLib} `{ScanAccelerator} `{Base64Lib} `{PayloadSerde}.
Context (current : option CancelToken) (Hlive : live current).

(** The documents of a list of identifiers. *)
Definition documents (docs : gmap string Value) (ids : list string) : list Value := omap (fun id => docs !! id) ids.
Definition survivors (post : option FilterNode) (docs : gmap string Value) (ids : list string) : list Value :=
  List.filter (passes post) (documents docs ids).

#[local] Arguments documents : simpl never.
Lemma documents_cons docs id ids : documents docs (id :: ids) =
  match docs !! id with Some doc => doc :: documents docs ids | None => documents docs ids end.
Proof. unfold documents. cbn. by destruct (docs !! id). Qed.
Lemma documents_app docs a b : documents docs (a ++ b) = documents docs a ++ documents docs b.
Proof. apply omap_app. Qed.
Lemma documents_length docs ids : Forall (fun id => is_Some (docs !! id)) ids -> lenZ (documents docs ids) = lenZ ids.
Proof. intros Hf. unfold lenZ, documents. by rewrite length_omap_all. Qed.
Lemma documents_take docs ids n : Forall (fun id => is_Some (docs !! id)) ids ->
  documents docs (take n ids) = take n (documents docs ids).
Proof.
  intros Hf. revert n; induction Hf as [|id ids [doc Hd] _ IH]; intros [|n]; try done.
  cbn. rewrite !documents_cons, Hd. cbn. f_equal. apply IH.
Qed.
Lemma documents_drop docs ids n : Forall (fun id => is_Some (docs !! id)) ids ->
  documents docs (drop n ids) = drop n (documents docs ids).
Proof.
  intros Hf. revert n; induction Hf as [|id ids [doc Hd] _ IH]; intros [|n]; try done.
  cbn. rewrite !documents_cons, Hd. cbn. apply IH.
Qed.
Lemma documents_window docs ids o l : Forall (fun id => is_Some (docs !! id)) ids ->
  documents docs (takeZ l (dropZ o ids)) = takeZ l (dropZ o (documents docs ids)).
Proof.
  intros Hf. rewrite !takeZ_take, !dropZ_drop, documents_take, documents_drop; try done.
  by apply Forall_drop.
Qed.

(** A database whose documents the engine serves. *)
Definition serves (e : engine) (p : PartitionId) (docs : gmap string Value) : Prop :=
  healthy e /\ docs_view (view e) p docs /\ map_Forall doc_ok docs.

Lemma fetch_ok e p docs id : serves e p docs -> fetch e p id = docs !! id.
Proof.
  intros (Hh & Hv & Hok). unfold fetch. rewrite get_spec by done.
  change (key_get (str_bytes id) (contents e p)) with (view e p (str_bytes id)).
  rewrite (docs_view_lookup (view e) p docs) by done.
  destruct (docs !! id) as [doc|] eqn:Hd; [|done]. destruct (Hok _ _ Hd) as (_ & [b Hb] & Hrt & _).
  cbn. rewrite Hb. cbn. by apply Hrt.
Qed.

Lemma load_values_ok values n out : exists n',
  load_values current values n out = Ok (n', out ++ (values ≫= parsed)).
Proof.
  revert n out; induction values as [|v values IH]; intros n out; cbn [load_values].
  { exists n. by rewrite app_nil_r. }
  rewrite checkpoint_live by done. destruct (IH (n + 1) (out ++ parsed v)) as (n' & ->).
  exists n'. cbn. by rewrite <- app_assoc.
Qed.
Lemma parsed_documents e p docs ids : serves e p docs ->
  ((fun k => key_get k (contents e p)) <$> (str_bytes <$> ids)) ≫= parsed = documents docs ids.
Proof.
  intros Hs. induction ids as [|id ids IH]; cbn; [done|].
  rewrite IH, documents_cons. pose proof (fetch_ok e p docs id Hs) as Hf.
  destruct Hs as (Hh & _). unfold fetch in Hf. rewrite get_spec in Hf by done.
  unfold parsed. destruct (key_get (str_bytes id) (contents e p)) as [b|]; cbn in *; rewrite <- Hf; [|done].
  by destruct (from_slice b).
Qed.
Lemma load_chunks_ok e p docs cs n out : serves e p docs ->
  load_chunks current e p cs n out = Ok (out ++ documents docs (concat cs)).
Proof.
  intros Hs. revert n out; induction cs as [|ids cs IH]; intros n out; cbn [load_chunks concat].
  { by rewrite app_nil_r. }
  rewrite get_many_spec by apply Hs. cbn.
  destruct (load_values_ok ((fun k => key_get k (contents e p)) <$> (str_bytes <$> ids)) n out) as (n' & E).
  rewrite E. cbn. rewrite IH, (parsed_documents e p docs) by done.
  by rewrite documents_app, <- app_assoc.
Qed.
Lemma load_docs_ok p docs ids s : serves (eng s) p docs ->
  load_docs_by_ids current p ids s = (Ok (documents docs ids), s).
Proof.
  intros Hs. unfold load_docs_by_ids. rewrite (load_chunks_ok _ p docs) by done.
  by rewrite concat_chunks by (unfold CHECK_EVERY; lia).
Qed.

(** ** Folding over candidates *)

(** Entries of known documents. *)
Definition known_entries (docs : gmap string Value) (l : list entry) : Prop :=
  Forall (fun x => exists id, extract_doc_id_from_key x.1 = Some id /\ is_Some (docs !! id)) l.

Lemma known_ids docs l : known_entries docs l ->
  Forall (fun id => is_Some (docs !! id)) (entry_ids l) /\ length (entry_ids l) = length l.
Proof.
  intros Hk. split.
  - apply Forall_forall. intros id (x & Hx & E)%list_elem_of_omap.
    unfold known_entries in Hk. rewrite Forall_forall in Hk. destruct (Hk x Hx) as (id' & E' & ?). congruence.
  - apply length_omap_all. eapply Forall_impl; [exact Hk|]. intros x (id & -> & _). done.
Qed.
Lemma known_cons docs x l : known_entries docs (x :: l) -> exists id doc,
  extract_doc_id_from_key x.1 = Some id /\ docs !! id = Some doc /\ known_entries docs l /\
  entry_ids (x :: l) = id :: entry_ids l /\ documents docs (id :: entry_ids l) = doc :: documents docs (entry_ids l).
Proof.
  intros Hk. inversion Hk as [|? ? (id & E & [doc Hd]) Hk']; subst. exists id, doc.
  split_and!; try done; [unfold entry_ids; cbn; by rewrite E|unfold documents; cbn; by rewrite Hd].
Qed.
Lemma hydrate_ok e p docs k id : serves e p docs -> extract_doc_id_from_key k = Some id ->
  hydrate_index_entry e p k = docs !! id.
Proof. intros Hs E. unfold hydrate_index_entry. rewrite E. by apply fetch_ok. Qed.

(** A visitor that never breaks folds over the documents. *)
Lemma on_entry_fold {S} e p docs (visit : Value -> S -> S * control_flow) l n s :
  serves e p docs -> known_entries docs l -> (forall doc s, (visit doc s).2 = Continue) ->
  fold_entries (on_entry e p visit) l (n, s) =
  (n + lenZ l, foldl (fun s doc => (visit doc s).1) s (documents docs (entry_ids l))).
Proof.
  intros Hs Hk Hc. revert n s Hk; induction l as [|[k v] l IH]; intros n s Hk; cbn [fold_entries].
  { f_equal. unfold lenZ. cbn. lia. }
  apply known_cons in Hk as (id & doc & E & Hd & Hk & Ei & Ed). rewrite Ei, Ed.
  unfold on_entry at 1. rewrite (hydrate_ok e p docs k id), Hd by done. cbn [fst snd].
  specialize (Hc doc s). destruct (visit doc s) as [s' []] eqn:Ev; [|done]. rewrite IH by done.
  cbn [foldl]. rewrite Ev. f_equal. unfold lenZ. cbn. lia.
Qed.
Lemma page_entry_fold e p docs post l n sink :
  serves e p docs -> known_entries docs l ->
  (fold_entries (on_entry e p (page_doc post)) l (n, sink)).2 =
  unsorted_run sink (survivors post docs (entry_ids l)).
Proof.
  intros Hs Hk. revert n sink Hk; induction l as [|[k v] l IH]; intros n sink Hk; cbn [fold_entries]; [done|].
  apply known_cons in Hk as (id & doc & E & Hd & Hk & Ei & Ed). unfold survivors. rewrite Ei, Ed.
  unfold on_entry at 1. rewrite (hydrate_ok e p docs k id), Hd by done. cbn [fst snd].
  unfold page_doc at 1. cbn [List.filter]. destruct (passes post doc); [|by apply IH].
  cbn [unsorted_run]. destruct (unsorted_push sink doc) as [sink' []]; [by apply IH|done].
Qed.

Lemma count_fold post docs n :
  foldl (fun n doc => (count_doc post doc n).1) n docs = n + lenZ (List.filter (passes post) docs).
Proof.
  revert n; induction docs as [|doc docs IH]; intros n; cbn [foldl]; [unfold lenZ; cbn; lia|].
  rewrite IH. unfold count_doc. cbn. destruct (passes post doc); unfold lenZ; cbn; lia.
Qed.
Lemma sorted_fold post query docs st :
  foldl (fun st doc => (sorted_doc post query doc st).1) st docs =
  foldl (sorted_push (q_cursor query) (q_sort query)) st (List.filter (passes post) docs).
Proof.
  revert st; induction docs as [|doc docs IH]; intros st; cbn [foldl]; [done|].
  rewrite IH. unfold sorted_doc. cbn. by destruct (passes post doc).
Qed.
End candidates.

(** ** The execution paths *)

#[local] Arguments load_docs_by_ids : simpl never.
#[local] Arguments collect_ids : simpl never.

Section paths.
Context `{SerdeJson} `{!SerdeLaws} `{BackendLaws} `{StorageSerde} `{RegexLib} `{ScanAccelerator} `{!BitmapScans}.
Context `{Base64Lib} `{PayloadSerde}.
Context (current : option CancelToken) (Hlive : live current).
Abbreviation db := (gmap string (gmap string Value)).

(** The entries of a scan, and the ids of several. *)
Definition shape_sel (shape : IndexScanShape) (x : entry) : bool :=
  match shape with ShapePrefix p => has_prefix p x | ShapeRange a b => in_range a b x end.
Definition shape_list (e : engine) (p : PartitionId) (shape : IndexScanShape) : list entry :=
  List.filter (shape_sel shape) (contents e p).
Definition shape_ids (e : engine) (p : PartitionId) (shapes : list IndexScanShape) : list string :=
  shapes ≫= fun shape => entry_ids (shape_list e p shape).
#[local] Arguments shape_ids : simpl never.
Lemma shape_ids_cons e p shape shapes :
  shape_ids e p (shape :: shapes) = entry_ids (shape_list e p shape) ++ shape_ids e p shapes.
Proof. done. Qed.
Definition known_partition (e : engine) (p : PartitionId) (docs : gmap string Value) : Prop :=
  known_entries docs (contents e p).

Lemma shape_list_prefix e p q : shape_list e p (ShapePrefix q) = List.filter (has_prefix q) (contents e p).
Proof. done. Qed.
Lemma shape_list_range e p a b : shape_list e p (ShapeRange a b) = List.filter (in_range a b) (contents e p).
Proof. done. Qed.
Lemma shape_scan_ok {S} e p shape (visit : bytes -> bytes -> S -> S * control_flow) s : healthy e ->
  shape_scan current shape e p visit s = Ok (fold_entries visit (shape_list e p shape) s).
Proof.
  intros Hh. unfold shape_scan, shape_entries, shape_list.
  destruct shape; rewrite ?scan_prefix_spec, ?scan_range_spec by done; by rewrite visit_checked_live.
Qed.
Lemma shape_count_ok e p shape : healthy e -> shape_count e p shape = Ok (lenZ (shape_list e p shape)).
Proof.
  intros Hh. unfold shape_count, shape_list. destruct shape; by rewrite ?count_prefix_spec, ?count_range_spec.
Qed.
Lemma known_shape e p docs shape : known_partition e p docs -> known_entries docs (shape_list e p shape).
Proof.
  unfold known_partition, known_entries, shape_list. rewrite !Forall_forall.
  intros Hk x [Hx _]%elem_of_List_filter. by apply Hk.
Qed.
Lemma known_shape_ids e p docs shapes : known_partition e p docs ->
  Forall (fun id => is_Some (docs !! id)) (shape_ids e p shapes).
Proof.
  intros Hk. unfold shape_ids. induction shapes as [|shape shapes IH]; cbn; [constructor|].
  apply Forall_app. split; [|done]. by apply known_ids, known_shape.
Qed.

(** Engines with one view have one content. *)
Lemma contents_ext e e' p : healthy e -> healthy e' -> (forall p k, view e' p k = view e p k) ->
  contents e' p = contents e p.
Proof.
  intros Hh Hh' E. pose proof (contents_sorted e p Hh) as Hs. pose proof (contents_sorted e' p Hh') as Hs'.
  apply (StronglySorted_unique_strong entry_lt); [|done..|].
  - intros x y _ _ Hxy Hyx. unfold entry_lt in *. apply (cmp_gt_lt bytes_cmp) in Hyx. congruence.
  - apply NoDup_Permutation; [by apply sorted_NoDup..|]. intros [k v].
    rewrite !view_elem by done. by rewrite E.
Qed.

Lemma core_serves s (d : db) c docs : core_inv s d -> d !! c = Some docs ->
  serves (eng s) (partition_of (docs_name c)) docs.
Proof.
  intros [Hh _ _ _ Hv] Hc. destruct (vi_ok _ _ _ Hv _ _ Hc) as [Hs Hok].
  pose proof (vi_docs _ _ _ Hv c Hs) as Hd. by rewrite (docs_of_c d c docs Hc) in Hd.
Qed.

(** Opening the documents partition leaves everything a scan sees. *)
Lemma open_docs s (d : db) c docs : core_inv s d -> d !! c = Some docs -> exists s',
  get_docs_partition c s = (Ok (partition_of (docs_name c)), s') /\ core_inv s' d /\ same s s' /\
  serves (eng s') (partition_of (docs_name c)) docs /\ forall p, contents (eng s') p = contents (eng s) p.
Proof.
  intros Hi Hc. destruct (create_partition_ok s d (docs_name c) Hi) as (s' & E & Hi' & Hs).
  exists s'. split_and!; [done..| |].
  - by apply (core_serves s' d).
  - intros p. destruct Hi as [Hh _ _ _ _], Hi' as [Hh' _ _ _ _]. apply contents_ext; try done. apply Hs.
Qed.
Lemma shape_list_ext (e e' : engine) p shape : contents e' p = contents e p -> shape_list e' p shape = shape_list e p shape.
Proof. intros E. unfold shape_list. by rewrite E. Qed.
Lemma shape_ids_ext (e e' : engine) p shapes : contents e' p = contents e p -> shape_ids e' p shapes = shape_ids e p shapes.
Proof. intros E. unfold shape_ids, shape_list. by rewrite E. Qed.

(** An operation that answers a query of matches [M] and leaves the state. *)
Definition executes (exact : bool) (s : Storage) (d : db) (op : Op QueryResult) (query : ParsedQuery) (c : string) (M : list Value) : Prop :=
  exists r s', op s = (Ok r, s') /\ core_inv s' d /\ same s s' /\ answers exact query c M r.

(** *** Streams of index entries *)

Lemma scan_shapes_fold {S} e partition p docs (visit : Value -> S -> S * control_flow) shapes n s :
  serves e p docs -> known_partition e partition docs -> (forall doc s, (visit doc s).2 = Continue) ->
  exists n', scan_shapes current e partition shapes (on_entry e p visit) (n, s) =
    Ok (n', foldl (fun s doc => (visit doc s).1) s (documents docs (shape_ids e partition shapes))).
Proof.
  intros Hs Hk Hc. revert n s; induction shapes as [|shape shapes IH]; intros n s; cbn [scan_shapes]; [by exists n|].
  rewrite shape_scan_ok by apply Hs. rewrite (on_entry_fold e p docs) by (done || by apply known_shape).
  cbn. destruct (IH (n + lenZ (shape_list e partition shape))
    (foldl (fun s doc => (visit doc s).1) s (documents docs (entry_ids (shape_list e partition shape))))) as (n' & E).
  exists n'. by rewrite E, shape_ids_cons, documents_app, foldl_app.
Qed.
Lemma unsorted_run_app s docs more : broke_early s = false ->
  unsorted_run s (docs ++ more) =
  if broke_early (unsorted_run s docs) then unsorted_run s docs else unsorted_run (unsorted_run s docs) more.
Proof.
  intros Hb. destruct (broke_early (unsorted_run s docs)) eqn:E; [by apply unsorted_run_stop|].
  revert s Hb E; induction docs as [|doc docs IH]; intros s Hb; cbn; [done|].
  unfold unsorted_push. destruct (0 <? to_skip s); [by apply IH|].
  destruct (keep s <=? _); [done|]. by apply IH.
Qed.
Lemma page_shapes_run e partition p docs post shapes n sink :
  serves e p docs -> known_partition e partition docs -> broke_early sink = false ->
  exists n', page_shapes current e partition p post shapes (n, sink) =
    Ok (n', unsorted_run sink (survivors post docs (shape_ids e partition shapes))).
Proof.
  intros Hs Hk. revert n sink; induction shapes as [|shape shapes IH]; intros n sink Hb; cbn [page_shapes]; [by exists n|].
  rewrite shape_scan_ok by apply Hs. cbn.
  assert (Hp := page_entry_fold e p docs post (shape_list e partition shape) n sink Hs (known_shape _ _ _ shape Hk)).
  destruct (fold_entries _ _ _) as [m sink']. cbn [snd] in *. subst sink'.
  rewrite shape_ids_cons. unfold survivors. rewrite documents_app, List.filter_app, unsorted_run_app by done.
  fold (survivors post docs (entry_ids (shape_list e partition shape))).
  destruct (broke_early (unsorted_run sink _)) eqn:E; [by eexists|]. by apply IH.
Qed.

Lemma index_stream_answers s (d : db) c docs query plan index partition shapes label :
  core_inv s d -> d !! c = Some docs -> known_partition (eng s) partition docs -> request_ok query ->
  let M := survivors (post_filter plan) docs (shape_ids (eng s) partition shapes) in
  lenZ M < usize_max ->
  executes true s d (execute_index_stream current c query plan index partition shapes label) query c M.
Proof.
  intros Hi Hc Hk Hq M HM. destruct (open_docs s d c docs Hi Hc) as (s' & E & Hi' & Hss & Hs & Hcont).
  assert (Hk' : known_partition (eng s') partition docs) by (unfold known_partition; by rewrite Hcont).
  assert (HM' : M = survivors (post_filter plan) docs (shape_ids (eng s') partition shapes))
    by (unfold M; by rewrite (shape_ids_ext (eng s) (eng s'))).
  clearbody M. subst M. unfold executes, execute_index_stream, op_bind. rewrite E. cbn.
  destruct (q_count_only query) eqn:Hcount; [|destruct (wants_sorted query) eqn:Hw].
  - destruct (scan_shapes_fold (eng s') partition (partition_of (docs_name c)) docs (count_doc (post_filter plan)) shapes 0 0) as (n & ->); try done.
    cbn -[count_doc sorted_doc]. do 2 eexists. split_and!; [done..|]. unfold answers. rewrite Hcount. cbn -[count_doc]. by rewrite count_fold.
  - destruct (scan_shapes_fold (eng s') partition (partition_of (docs_name c)) docs (sorted_doc (post_filter plan) query) shapes 0
      (topk_new (q_offset query) (q_limit query) (q_sort query), 0)) as (n & ->); try done.
    cbn -[count_doc sorted_doc]. do 2 eexists. split_and!; [done..|]. rewrite sorted_fold. by apply sorted_answers.
  - destruct (page_shapes_run (eng s') partition (partition_of (docs_name c)) docs (post_filter plan) shapes 0
      (unsorted_new (q_offset query) (q_limit query))) as (n & ->); try done.
    cbn -[count_doc sorted_doc]. do 2 eexists. split_and!; [done..|]. by apply unsorted_answers.
Qed.

(** *** Bare pages *)

Lemma bare_spec query post : bare_page query post = true ->
  q_count_only query = false /\ wants_sorted query = false /\ post = None.
Proof.
  unfold bare_page, wants_sorted. rewrite !andb_true_iff, !bool_decide_eq_true, negb_true_iff.
  intros (((Hc & Hp) & Hs) & Hcur). rewrite Hcur, Hs. done.
Qed.
Lemma survivors_bare docs ids : survivors None docs ids = documents docs ids.
Proof. unfold survivors. by apply filter_all_true. Qed.
Lemma sat_add_ltb o l n : n < usize_max -> (sat_add o l <? n) = (o + l <? n).
Proof. intros. unfold sat_add. apply eq_bool_prop_intro. rewrite !Is_true_true, !Z.ltb_lt. lia. Qed.

Lemma window_fold docs limit l skip ids : 0 <= skip -> lenZ ids <= limit -> known_entries docs l ->
  (fold_entries (window_visit limit) l (skip, ids)).2 = ids ++ takeZ (limit - lenZ ids) (dropZ skip (entry_ids l)).
Proof.
  intros Hs Hl Hk. rewrite takeZ_take, dropZ_drop.
  revert skip ids Hs Hl Hk; induction l as [|[k v] l IH]; intros skip ids Hs Hl Hk; cbn [fold_entries].
  { cbn. by rewrite drop_nil, take_nil, app_nil_r. }
  apply known_cons in Hk as (id & doc & E & _ & Hk & -> & _). cbn in E. unfold window_visit at 1. cbn.
  destruct (Z.ltb_spec 0 skip).
  { rewrite IH by (done || lia). replace (Z.to_nat skip) with (S (Z.to_nat (skip - 1))) by lia. done. }
  replace (Z.to_nat skip) with 0%nat by lia. destruct (Z.leb_spec limit (lenZ ids)).
  { cbn. replace (Z.to_nat (limit - lenZ ids)) with 0%nat by lia. cbn. by rewrite app_nil_r. }
  rewrite E, IH; [|lia|rewrite lenZ_app; unfold lenZ in *; cbn; lia|done].
  rewrite lenZ_app. change (lenZ [id]) with 1.
  replace (Z.to_nat skip) with 0%nat by lia. rewrite !drop_0, <- app_assoc.
  replace (Z.to_nat (limit - lenZ ids)) with (S (Z.to_nat (limit - (lenZ ids + 1)))) by lia. done.
Qed.

Lemma windowed_answers s (d : db) c docs query index partition shape strategy :
  core_inv s d -> d !! c = Some docs -> known_partition (eng s) partition docs -> request_ok query ->
  let ids := shape_ids (eng s) partition [shape] in
  lenZ ids < usize_max -> bare_page query None = true ->
  executes true s d (windowed_bare_page current c query index partition shape strategy) query c (documents docs ids).
Proof.
  intros Hi Hc Hk (Ho & Hl & _) ids Hlen Hb. destruct (bare_spec _ _ Hb) as (Hcount & Hw & _).
  destruct (open_docs s d c docs Hi Hc) as (s' & E & Hi' & Hss & Hs & Hcont).
  pose proof Hi as [Hh _ _ _ _].
  assert (Hids : ids = entry_ids (shape_list (eng s) partition shape)) by (unfold ids; rewrite shape_ids_cons; apply app_nil_r).
  pose proof (known_shape _ _ _ shape Hk) as Hks. destruct (known_ids _ _ Hks) as [Hall Hn].
  unfold executes, windowed_bare_page, op_bind. cbn. rewrite shape_count_ok, shape_scan_ok by done. cbn.
  rewrite (window_fold docs), E by (done || unfold lenZ; cbn; lia). cbn [app].
  rewrite (load_docs_ok current Hlive _ docs) by done. do 2 eexists. split_and!; [done..|].
  change (lenZ []) with 0. rewrite Z.sub_0_r. rewrite <- Hids in *.
  assert (Hln : lenZ (shape_list (eng s) partition shape) = lenZ (documents docs ids))
    by (rewrite documents_length by done; unfold lenZ; by rewrite Hn).
  apply window_answers; cbn [r_docs total_count r_has_more r_next_cursor]; try done.
  - by rewrite documents_window.
  - rewrite Hln. rewrite sat_add_ltb; [done|]. by rewrite documents_length.
  - right. by rewrite Hln.
Qed.

Lemma id_page_answers s (d : db) c docs query ids index strategy :
  core_inv s d -> d !! c = Some docs -> Forall (fun id => is_Some (docs !! id)) ids -> request_ok query ->
  lenZ ids < usize_max -> bare_page query None = true ->
  executes true s d (id_page current c query ids index strategy) query c (documents docs ids).
Proof.
  intros Hi Hc Hall (Ho & Hl & _) Hlen Hb. destruct (bare_spec _ _ Hb) as (Hcount & Hw & _).
  destruct (open_docs s d c docs Hi Hc) as (s' & E & Hi' & Hss & Hs & Hcont).
  unfold executes, id_page, load_id_window, op_bind. rewrite E.
  rewrite (load_docs_ok current Hlive _ docs) by done. cbn. do 2 eexists. split_and!; [done..|].
  pose proof (documents_length docs ids Hall) as Hln.
  apply window_answers; cbn [r_docs total_count r_has_more r_next_cursor]; try done.
  - rewrite window_eq by (lia || done). by rewrite documents_window.
  - rewrite Hln. unfold sat_add. apply eq_bool_prop_intro. rewrite !Is_true_true, !Z.ltb_lt. lia.
  - right. by rewrite Hln.
Qed.

(** *** Streams of identifiers *)

Lemma page_ids_run e p docs post ids seen n sink : serves e p docs ->
  exists n', page_ids current e p post ids seen (n, sink) = Ok (n', unsorted_run sink (survivors post docs ids)).
Proof.
  intros Hs. revert seen n sink; induction ids as [|id ids IH]; intros seen n sink; cbn [page_ids]; [by exists n|].
  rewrite checkpoint_live by done. unfold survivors. rewrite (fetch_ok e p docs id Hs), documents_cons.
  destruct (docs !! id) as [doc|]; [|apply IH]. cbn [List.filter]. unfold page_doc at 1. cbn [fst snd].
  destruct (passes post doc); [|apply IH]. cbn [unsorted_run].
  destruct (unsorted_push sink doc) as [sink' []]; [apply IH|by eexists].
Qed.
Lemma id_stream_answers s (d : db) c docs query plan ids index :
  core_inv s d -> d !! c = Some docs -> request_ok query ->
  let M := survivors (post_filter plan) docs ids in
  lenZ M < usize_max ->
  executes true s d (execute_id_stream current c query plan ids index) query c M.
Proof.
  intros Hi Hc Hq M HM. destruct (open_docs s d c docs Hi Hc) as (s' & E & Hi' & Hss & Hs & Hcont).
  unfold executes, execute_id_stream, op_bind. rewrite E.
  destruct (q_count_only query) eqn:Hcount; [|destruct (wants_sorted query) eqn:Hw].
  - rewrite (load_docs_ok current Hlive _ docs) by done. cbn. do 2 eexists. split_and!; [done..|].
    unfold answers. by rewrite Hcount.
  - rewrite (load_docs_ok current Hlive _ docs) by done. cbn -[sorted_doc]. do 2 eexists. split_and!; [done..|].
    rewrite sorted_fold. by apply sorted_answers.
  - cbn. destruct (page_ids_run (eng s') (partition_of (docs_name c)) docs (post_filter plan) ids 0 0
      (unsorted_new (q_offset query) (q_limit query)) Hs) as (n & ->). cbn.
    do 2 eexists. split_and!; [done..|]. by apply unsorted_answers.
Qed.

(** *** Full scans *)

(** The matches of a filter, in identifier order. *)
Definition matching (filter : option FilterNode) (l : list (string * Value)) : list Value :=
  List.filter (passes filter) l.*2.
Definition parses (x : entry) (y : string * Value) : Prop := x.1 = str_bytes y.1 /\ from_slice x.2 = Some y.2.

Lemma scan_docs_fold {S} p docs (visit : Value -> S -> S * control_flow) s0 s l :
  serves (eng s) p docs -> (forall doc st, (visit doc st).2 = Continue) -> Forall2 parses (contents (eng s) p) l ->
  exists n, scan_docs p (doc_visit current (scanned_doc visit)) (0, s0) s =
    (Ok (n, foldl (fun st doc => (visit doc st).1) s0 l.*2), s).
Proof.
  intros [Hh _] Hc Hf. unfold scan_docs. rewrite scan_full_spec, visit_scan_ok by done.
  assert (Hc' : forall doc (st : Z * S), (scanned_doc visit doc st).2 = Continue).
  { intros doc st. unfold scanned_doc. specialize (Hc doc st.2). by destruct (visit doc st.2). }
  destruct (doc_visit_fold current (scanned_doc visit) _ l 0 (0, s0) Hlive Hc' Hf) as (n & ->).
  assert (Hfold : forall m (st : S), exists m', foldl (fun st x => (scanned_doc visit x.2 st).1) (m, st) l =
    (m', foldl (fun st doc => (visit doc st).1) st l.*2)); [|by destruct (Hfold 0 s0) as (m & ->); exists m].
  clear Hf. induction l as [|x l IH]; intros m st; cbn [foldl fmap list_fmap]; [by exists m|].
  unfold scanned_doc at 2. cbn [fst snd]. destruct (visit x.2 st) as [st' flow] eqn:E. cbn [fst].
  exact (IH (m + 1) st').
Qed.

Lemma page_visit_fold filter L l seen n sink : Forall2 parses L l ->
  exists seen' n', fold_entries (page_visit current filter) L (seen, None, (n, sink)) =
    (seen', None, (n', unsorted_run sink (matching filter l))).
Proof.
  intros Hf. revert seen n sink; induction Hf as [|[k v] y L l [_ Hp] Hf IH]; intros seen n sink; cbn [fold_entries].
  { by do 2 eexists. }
  unfold page_visit at 1. rewrite checkpoint_live by done. cbn in Hp. rewrite Hp.
  unfold matching. cbn [fmap list_fmap List.filter]. case_bool_decide as Hn; cbn [andb].
  - subst filter. cbn [passes]. cbn [unsorted_run]. unfold unsorted_push at 1, page_doc. cbn [passes].
    destruct (0 <? to_skip sink) eqn:E; [apply IH|]. unfold unsorted_push. rewrite E.
    destruct (keep sink <=? _); [by do 2 eexists|apply IH].
  - unfold page_doc. destruct (passes filter y.2); [|apply IH]. cbn [unsorted_run].
    destruct (unsorted_push sink y.2) as [sink' []]; [apply IH|by do 2 eexists].
Qed.

Lemma wrap_i64_small n : 0 <= n < 2 ^ 63 -> wrap_i64 n = n.
Proof. intros Hn. unfold wrap_i64. rewrite Z.mod_small; lia. Qed.
Lemma streamed_size docs l : streamed docs l -> lenZ l = Z.of_nat (size docs).
Proof. intros [Hp _]. unfold lenZ. by rewrite Hp, length_map_to_list. Qed.
Lemma doc_count_ok s (d : db) c docs : counts_ok s d -> d !! c = Some docs -> Z.of_nat (size docs) < 2 ^ 63 ->
  Z.max (counters_get (doc_counts s) c) 0 = Z.of_nat (size docs).
Proof.
  intros Hcnt Hc Hn. unfold counters_get. rewrite (Hcnt c docs Hc). cbn. rewrite wrap_i64_small by lia. lia.
Qed.

(** The stream of a collection is in the order of an empty sort. *)
Lemma streamed_docs docs l : streamed docs l -> map_Forall doc_ok docs ->
  ids_distinct l.*2 /\ StronglySorted (cmp_le (compare_docs [])) l.*2.
Proof.
  clear Hlive.
  intros Hst Hok. destruct (streamed_ok docs l Hst Hok) as (Hnd & Hids & _). destruct Hst as [_ Hs].
  assert (Hd : forall x, x ∈ l -> doc_id x.2 = Some x.1).
  { intros x Hx. rewrite Forall_forall in Hids. unfold doc_id. by rewrite (Hids x Hx). }
  split.
  - unfold ids_distinct. assert (doc_id <$> l.*2 = Some <$> l.*1) as ->; [|by apply (NoDup_fmap_2 Some)].
    rewrite <- !list_fmap_compose. apply list_fmap_ext. intros i x Hx. apply Hd. by eapply list_elem_of_lookup_2.
  - clear Hnd Hids. induction Hs as [|x l Hs IH Hx]; cbn; constructor.
    + apply IH. intros y Hy. apply Hd. by right.
    + apply Forall_fmap, Forall_forall. intros y Hy. rewrite Forall_forall in Hx. specialize (Hx _ Hy).
      unfold cmp_le, compare_docs. cbn. rewrite !Hd by set_solver. cbn. by rewrite Hx.
Qed.
Lemma matching_distinct docs l f : streamed docs l -> map_Forall doc_ok docs -> ids_distinct (matching f l).
Proof.
  clear Hlive.
  intros Hst Hok. destruct (streamed_docs docs l Hst Hok) as [Hnd _]. unfold matching, ids_distinct in *.
  clear Hst. induction l.*2 as [|x L IH]; [done|]. cbn in *. inversion Hnd as [|? ? Hx Hnd']; subst.
  destruct (passes f x); [|by apply IH]. cbn. constructor; [|by apply IH].
  intros (y & E & [Hy _]%elem_of_List_filter)%list_elem_of_fmap. apply Hx. rewrite E. by apply list_elem_of_fmap_2.
Qed.
Lemma matching_sorted docs l f : streamed docs l -> map_Forall doc_ok docs ->
  sort_by (compare_docs []) (matching f l) = matching f l.
Proof.
  clear Hlive.
  intros Hst Hok. destruct (streamed_docs docs l Hst Hok) as [_ Hs]. apply sort_by_id; [apply _|].
  by apply sorted_filter.
Qed.
Lemma matching_length docs l f : streamed docs l -> lenZ (matching f l) <= Z.of_nat (size docs).
Proof.
  clear Hlive.
  intros Hst. rewrite <- (streamed_size docs l Hst). unfold matching, lenZ.
  pose proof (List.filter_length_le (passes f) l.*2) as Hle. rewrite length_fmap in Hle. lia.
Qed.

Lemma streamed_unique docs l l' : streamed docs l -> streamed docs l' -> l = l'.
Proof.
  intros [Hp Hs] [Hp' Hs']. apply (StronglySorted_unique_strong _ l l') in Hs; [done| |done|].
  - intros x y _ _ Hxy Hyx. apply (cmp_gt_lt str_cmp) in Hyx. congruence.
  - by rewrite Hp, Hp'.
Qed.
#[local] Arguments unsorted_finish : simpl never.
#[local] Arguments unsorted_run : simpl never.
Lemma full_scan_answers s (d : db) c docs l query plan :
  storage_inv s d -> d !! c = Some docs -> streamed docs l -> request_ok query ->
  Z.of_nat (size docs) < 2 ^ 63 ->
  (q_sort query = [] -> q_count_only query = false -> q_cursor query = None) ->
  executes true s d (full_scan_page current c query plan) query c (matching (original_filter plan) l).
Proof.
  intros [Hi Hcnt] Hc Hst Hq Hn Hseek. destruct (ensure_ok s d c Hi) as (s1 & E1 & Hi1 & Hs1).
  rewrite bool_decide_true in E1 by eauto.
  destruct (open_docs s1 d c docs Hi1 Hc) as (s2 & E2 & Hi2 & Hs2 & Hsv & _).
  pose proof Hsv as (Hh & Hdv & Hok). destruct (streamed_contents _ _ _ Hh Hdv Hok) as (l' & Hst' & Hf).
  rewrite (streamed_unique docs l' l) in Hf by done. clear Hst'.
  set (M := matching (original_filter plan) l).
  assert (HM : lenZ M < usize_max) by (pose proof (matching_length docs l (original_filter plan) Hst); unfold M, usize_max in *; lia).
  assert (Hss : same s s2) by by trans s1.
  unfold executes, full_scan_page, op_bind. rewrite E1, E2.
  destruct (q_count_only query) eqn:Hcount; [|case_bool_decide as Hsort].
  - destruct (scan_docs_fold (partition_of (docs_name c)) docs (count_doc (original_filter plan)) 0 s2 l) as (n & ->);
      [done..|]. cbn -[count_doc]. do 2 eexists. split_and!; [done..|]. unfold answers. rewrite Hcount. by rewrite count_fold.
  - unfold scan_docs. rewrite scan_full_spec, visit_scan_ok by done.
    destruct (page_visit_fold (original_filter plan) _ l 0 0 (unsorted_new (q_offset query) (q_limit query)) Hf)
      as (n & n' & ->). fold M. destruct Hq as (Ho & Hl & Hcur).
    cbn -[collection_doc_count]. destruct (unsorted_page_window (q_offset query) (q_limit query) M [] Ho Hl HM) as [-> _].
    do 2 eexists. split_and!; [done..|]. unfold answers. rewrite Hcount. specialize (Hseek Hsort eq_refl).
    exists M. fold (window query M). apply page_intro; cbn [r_docs total_count r_has_more r_next_cursor].
    + by rewrite remaining_all.
    + intros _. unfold in_order. rewrite remaining_all, Hsort by done. unfold M. by rewrite (matching_sorted docs).
    + done.
    + done.
    + case_bool_decide as Hf0; [|destruct (_ <? _); auto]. right. f_equal.
      rewrite (doc_count_ok s2 d c docs) by (done || by apply (same_counts s)).
      unfold M, matching. rewrite Hf0, filter_all_true by done. by rewrite lenZ_fmap, <- (streamed_size docs l).
    + intros t. destruct (_ <? _); [|done]. intros Ht. split; [done|]. rewrite Hsort. by apply bind_Some in Ht.
    + intros _ ->. by rewrite Hsort.
  - destruct (scan_docs_fold (partition_of (docs_name c)) docs (sorted_doc (original_filter plan) query)
      (topk_new (q_offset query) (q_limit query) (q_sort query), 0) s2 l) as (n & ->); [done..|].
    cbn -[sorted_doc]. do 2 eexists. split_and!; [done..|]. rewrite sorted_fold. by apply sorted_answers.
Qed.

(** *** Resumed full scans *)

Lemma seek_range last id v : id_safe id ->
  in_range (str_bytes last ++ [0]) [255] (str_bytes id, v) =
  match str_cmp id last with Gt => true | _ => false end.
Proof.
  intros (Hne & Hnul & Hu%utf8_valid_bound). unfold in_range. cbn [fst].
  rewrite after_key by (done || apply str_bytes_range).
  assert (bytes_ltb (str_bytes id) [255] = true) as ->; [|by rewrite andb_true_r].
  unfold bytes_ltb. destruct (str_bytes id) as [|x b] eqn:E.
  - exfalso. apply Hne. by apply (inj str_bytes).
  - inversion Hu; subst. cbn. destruct (Z.compare_spec x 255); (done || lia).
Qed.

Lemma seek_fold filter limit L l n acc : Forall2 parses L l -> lenZ acc <= limit ->
  (fold_entries (seek_visit filter limit) L (n, acc)).2 =
  acc ++ takeZ (limit + 1 - lenZ acc) (matching filter l).
Proof.
  intros Hf. rewrite takeZ_take. revert n acc; induction Hf as [|[k v] y L l [_ Hp] Hf IH]; intros n acc Hacc; cbn [fold_entries].
  { cbn. by rewrite take_nil, app_nil_r. }
  unfold seek_visit at 1. cbn in Hp. rewrite Hp. unfold matching in *. cbn [fmap list_fmap List.filter].
  destruct (passes filter y.2); cbn [negb]; [|by apply IH].
  cbn [fst snd]. rewrite lenZ_app. change (lenZ [y.2]) with 1. destruct (Z.ltb_spec limit (lenZ acc + 1)).
  - replace (Z.to_nat (limit + 1 - lenZ acc)) with 1%nat by lia. done.
  - cbn [fst snd]. rewrite IH, lenZ_app by (rewrite lenZ_app; unfold lenZ in *; cbn; lia). change (lenZ [y.2]) with 1.
    rewrite <- app_assoc. f_equal. cbn.
    replace (Z.to_nat (limit + 1 - lenZ acc)) with (S (Z.to_nat (limit + 1 - (lenZ acc + 1)))) by lia. done.
Qed.
Lemma probe_page {A} limit (L : list A) : 0 <= limit ->
  takeZ limit (takeZ (limit + 1) L) = takeZ limit L /\ (limit <? lenZ (takeZ (limit + 1) L)) = (limit <? lenZ L).
Proof.
  intros Hl. rewrite !takeZ_take, take_take. split; [f_equal; lia|].
  unfold lenZ. rewrite length_take. apply eq_bool_prop_intro. rewrite !Is_true_true, !Z.ltb_lt. lia.
Qed.
Lemma filter_Forall2 {A B} (P : A -> B -> Prop) (f : A -> bool) (g : B -> bool) L l :
  Forall2 P L l -> (forall x y, x ∈ L -> y ∈ l -> P x y -> f x = g y) -> Forall2 P (List.filter f L) (List.filter g l).
Proof.
  induction 1 as [|x y L l Hxy Hf IH]; intros E; cbn; [constructor|].
  assert (IH' : Forall2 P (List.filter f L) (List.filter g l)) by (apply IH; intros ????; apply E; by right).
  rewrite (E x y) by (done || by left). destruct (g y); [by constructor|done].
Qed.

Lemma id_seek_answers s (d : db) c docs l query plan cursor :
  storage_inv s d -> d !! c = Some docs -> streamed docs l -> request_ok query ->
  q_cursor query = Some cursor -> q_sort query = [] ->
  executes true s d (execute_full_scan_id_seek current c query plan cursor) query c (matching (original_filter plan) l).
Proof.
  intros [Hi Hcnt] Hc Hst (Ho & Hl & Hreq) Hcur Hsort.
  destruct Hreq as [Hoff Hcount]; [by eauto|].
  destruct (open_docs s d c docs Hi Hc) as (s' & E & Hi' & Hss & Hsv & _).
  pose proof Hsv as (Hh & Hdv & Hok). destruct (streamed_contents _ _ _ Hh Hdv Hok) as (l' & Hst' & Hf).
  rewrite (streamed_unique docs l' l) in Hf by done. destruct (streamed_ok docs l Hst Hok) as (_ & Hids & Hin).
  set (after := List.filter (fun x : string * Value => match str_cmp x.1 (last_id cursor) with Gt => true | _ => false end) l).
  assert (Hf' : Forall2 parses (List.filter (in_range (str_bytes (last_id cursor) ++ [0]) [255])
    (contents (eng s') (partition_of (docs_name c)))) after).
  { apply filter_Forall2; [done|]. intros [k v] y _ Hy [Ek _]. cbn in Ek. subst k. apply seek_range.
    apply Hin in Hy. by destruct (Hok _ _ Hy). }
  unfold executes, execute_full_scan_id_seek, op_bind. rewrite E. cbn -[lenZ seek_visit].
  rewrite scan_range_spec, visit_checked_live by done. cbn -[lenZ seek_visit]. do 2 eexists. split_and!; [done..|].
  unfold answers. rewrite Hcount. set (filter := original_filter plan).
  assert (Hrows : remaining query (matching filter l) = matching filter after).
  { unfold remaining, matching, after, beyond. rewrite Hcur, Hsort. clear -Hids.
    induction Hids as [|x l Hx _ IH]; [done|]. cbn [fmap list_fmap List.filter].
    assert (Hgt : compare_doc_to_cursor x.2 cursor [] = str_cmp x.1 (last_id cursor))
      by (unfold compare_doc_to_cursor, doc_id; cbn; by rewrite Hx).
    destruct (passes filter x.2) eqn:Ep; cbn [List.filter]; rewrite ?Hgt; destruct (str_cmp x.1 (last_id cursor));
      cbn [fmap list_fmap List.filter]; rewrite ?Ep, ?IH; done. }
  rewrite seek_fold with (l := after) by (done || unfold lenZ; cbn; lia). change (lenZ []) with 0. rewrite Z.sub_0_r. cbn [app].
  destruct (probe_page (q_limit query) (matching filter after) Hl) as [-> ->].
  assert (Hw : window query (matching filter after) = takeZ (q_limit query) (matching filter after))
    by (unfold window; by rewrite Hoff, dropZ_drop, drop_0).
  exists (matching filter after). rewrite <- Hw. apply page_intro; cbn [r_docs total_count r_has_more r_next_cursor]; auto.
  - by rewrite Hrows.
  - intros _. unfold in_order. rewrite Hrows, Hsort. symmetry. apply sort_by_id; [apply _|].
    rewrite <- Hrows. unfold remaining. apply sorted_filter, sorted_filter. by destruct (streamed_docs docs l Hst Hok).
  - by rewrite Hoff.
  - intros t. destruct (_ <? _); [|done]. intros Ht. split; [done|]. rewrite Hsort. by apply bind_Some in Ht.
  - intros _ ->. by rewrite Hsort.
Qed.

Lemma full_scan_ok s (d : db) c docs l query plan :
  storage_inv s d -> d !! c = Some docs -> streamed docs l -> request_ok query ->
  Z.of_nat (size docs) < 2 ^ 63 ->
  executes true s d (execute_full_scan current c query plan) query c (matching (original_filter plan) l).
Proof.
  intros Hi Hc Hst Hq Hn. unfold execute_full_scan. destruct (q_cursor query) as [cursor|] eqn:Hcur.
  - case_bool_decide as Hsort; [destruct (q_count_only query) eqn:Hcount|]; cbn [andb negb].
    + apply (full_scan_answers s d c docs l); congruence.
    + by apply (id_seek_answers s d c docs l).
    + by apply (full_scan_answers s d c docs l).
  - by apply (full_scan_answers s d c docs l).
Qed.

(** *** Index scans *)

(** What an index plan scans: its partition and the windows of its keys. *)
Definition window_shapes (bounds : RangeScanBounds) : list IndexScanShape :=
  match bounds with RangeSpan a b => [ShapeRange a b] | RangeEmpty => [] end.
Definition plan_shapes (m : IndexManager) (c : string) (p : ScanPlan) : option (PartitionId * list IndexScanShape) :=
  match p with
  | IndexEq _ field value => '(partition, prefix) ← eq_scan m c field value; Some (partition, [ShapePrefix prefix])
  | IndexIn _ field values => '(partition, prefixes) ← in_scan m c field values; Some (partition, map ShapePrefix prefixes)
  | IndexRange _ field lower upper =>
      '(partition, bounds) ← range_scan m c field lower upper; Some (partition, window_shapes bounds)
  | CompoundEq name prefix => partition ← get_index_partition m c name; Some (partition, [ShapePrefix prefix])
  | CompoundRange name prefix lower upper =>
      partition ← get_index_partition m c name; Some (partition, window_shapes (range_scan_bounds prefix lower upper))
  | _ => None
  end.

Lemma empty_answers query c index strategy : request_ok query -> answers true query c [] (counted 0 0 index strategy).
Proof.
  intros (Ho & Hl & _). unfold answers. destruct (q_count_only query); [done|]. exists [].
  apply page_intro; cbn -[takeZ dropZ]; try done; try (by auto).
  - unfold window. rewrite takeZ_take, dropZ_drop, drop_nil, take_nil. unfold apply_projection. by destruct (q_fields query).
  - symmetry. apply Z.ltb_ge. unfold lenZ. cbn [length]. lia.
Qed.
Lemma counted_answers query c M n index strategy : q_count_only query = true -> n = lenZ M ->
  answers true query c M (counted n 0 index strategy).
Proof. intros Hc ->. unfold answers. by rewrite Hc. Qed.

Lemma collect_ids_ok e p shapes : healthy e -> collect_ids current e p shapes = Ok (shape_ids e p shapes).
Proof.
  intros Hh. unfold collect_ids. change (shape_ids e p shapes) with ([] ++ shape_ids e p shapes).
  generalize (@nil string) as acc. induction shapes as [|shape shapes IH]; intros acc; cbn [scan_shapes].
  { by rewrite app_nil_r. }
  rewrite shape_scan_ok by done. cbn. rewrite push_id_fold, IH, shape_ids_cons. by rewrite app_assoc.
Qed.

(** The number of entries several scans visit. *)
Definition entries_count (e : engine) (p : PartitionId) (shapes : list IndexScanShape) : Z :=
  foldr (fun shape n => lenZ (shape_list e p shape) + n) 0 shapes.
Lemma entries_count_app e p a b : entries_count e p (a ++ b) = entries_count e p a + entries_count e p b.
Proof. induction a as [|shape a IH]; cbn; [done|]. unfold entries_count in *. rewrite IH. lia. Qed.
Lemma entries_count_ids e p docs shapes : known_partition e p docs -> entries_count e p shapes = lenZ (shape_ids e p shapes).
Proof.
  intros Hk. induction shapes as [|shape shapes IH]; cbn [entries_count foldr]; [done|].
  fold (entries_count e p shapes). rewrite IH, shape_ids_cons, lenZ_app.
  destruct (known_ids docs _ (known_shape e p docs shape Hk)) as [_ Hn]. unfold lenZ. rewrite Hn. lia.
Qed.
Lemma count_in_ok m e c field def p values seen total prefixes : healthy e ->
  get_index_for_field m c field = Some (def, p) ->
  count_in m e c field values seen total =
  total + entries_count e p (ShapePrefix <$> in_prefixes (separator def) values ((fun x => x ++ [separator def]) <$> seen) prefixes)
  - entries_count e p (ShapePrefix <$> prefixes).
Proof.
  intros Hh Hm. revert seen total prefixes; induction values as [|v values IH]; intros seen total prefixes; cbn [count_in in_prefixes].
  { lia. }
  assert (Hin : value_to_sortable_bytes v ++ [separator def] ∈ (fun x => x ++ [separator def]) <$> seen <->
    value_to_sortable_bytes v ∈ seen).
  { rewrite list_elem_of_fmap. split; [by intros (x & [-> _]%app_inj_tail_iff & Hx)|]. intros Hx. by eexists. }
  rewrite (bool_decide_ext _ _ Hin). case_bool_decide; [apply IH|].
  rewrite (IH _ _ (prefixes ++ [value_to_sortable_bytes v ++ [separator def]])). rewrite fmap_cons.
  rewrite (fmap_app ShapePrefix prefixes), entries_count_app. unfold count_eq. rewrite Hm. cbn.
  rewrite count_prefix_spec by done. cbn. rewrite shape_list_prefix. lia.
Qed.

(** An index plan answers at once or comes to its scans. *)
Lemma index_candidates_ok m e c query plan partition shapes : healthy e ->
  plan_shapes m c (scan_of plan) = Some (partition, shapes) ->
  match scan_of plan with CompoundRange _ _ _ _ => False | _ => True end ->
  exists out, index_candidates m e c query plan = Ok out /\
  match out with
  | Candidates partition' shapes' => partition' = partition /\ shapes' = shapes
  | Answered r => exists index strategy,
      q_count_only query && bool_decide (post_filter plan = None) = true /\
        r = counted (entries_count e partition shapes) 0 index strategy
      \/ shapes = [] /\ r = counted 0 0 index strategy
  end.
Proof.
  intros Hh Hp Hnot. unfold index_candidates, plan_shapes in *.
  destruct (scan_of plan) as [|name field v|name field vs|name field lo up|name prefix|name q lo up| | |]; try done.
  - unfold eq_scan, count_eq in *. destruct (get_index_for_field m c field) as [[def p]|]; [|done].
    cbn in *. injection Hp as <- <-. destruct (_ && _) eqn:Hfast.
    + rewrite count_prefix_spec by done. cbn. eexists. split; [done|]. do 2 eexists. left. split; [done|].
      rewrite ?shape_list_prefix. f_equal. lia.
    + eexists. split; [done|]. done.
  - destruct (get_index_for_field m c field) as [[def p]|] eqn:Hm; [|unfold in_scan in Hp; by rewrite Hm in Hp].
    unfold in_scan in *. rewrite Hm in *. cbn in *. injection Hp as <- <-. rewrite andb_true_r.
    destruct (_ && _) eqn:Hfast.
    + eexists. split; [done|]. do 2 eexists. left. split; [done|].
      rewrite (count_in_ok m e c field def p vs [] 0 []) by done. rewrite Z.add_0_l, Z.sub_0_r. done.
    + eexists. split; [done|]. done.
  - unfold range_scan, count_range in *. destruct (get_index_for_field m c field) as [[def p]|]; [|done].
    cbn in *. injection Hp as <- <-. destruct (_ && _) eqn:Hfast.
    + destruct (range_scan_bounds _ _ _) as [|a b]; cbn.
      * eexists. split; [done|]. do 2 eexists. left. done.
      * rewrite count_range_spec by done. cbn. eexists. split; [done|]. do 2 eexists. left. split; [done|].
        rewrite shape_list_range. f_equal. lia.
    + destruct (range_scan_bounds _ _ _) as [|a b]; eexists; (split; [done|]); [|done].
      do 2 eexists. right. done.
  - destruct (get_index_partition m c name) as [p|]; [|done]. cbn in *. injection Hp as <- <-.
    destruct (_ && _) eqn:Hfast.
    + rewrite count_prefix_spec by done. cbn. eexists. split; [done|]. do 2 eexists. left. split; [done|].
      rewrite ?shape_list_prefix. f_equal. lia.
    + eexists. split; [done|]. done.
Qed.

(** What the paths below share: a state, its collection, a query and a plan. *)
Context (s : Storage) (d : db) (c : string) (docs : gmap string Value) (query : ParsedQuery).
Context (Hi : core_inv s d) (Hc : d !! c = Some docs) (Hq : request_ok query).

Lemma index_scan_answers plan partition shapes :
  plan_shapes (index_manager s) c (scan_of plan) = Some (partition, shapes) ->
  match scan_of plan with CompoundRange _ _ _ _ => False | _ => True end ->
  known_partition (eng s) partition docs ->
  let ids := shape_ids (eng s) partition shapes in
  lenZ ids < usize_max ->
  executes true s d (execute_index_scan current c query plan) query c (survivors (post_filter plan) docs ids).
Proof.
  intros Hp Hnot Hk ids Hlen. pose proof (known_shape_ids _ _ _ shapes Hk) as Hall.
  assert (Hlen' : lenZ (survivors (post_filter plan) docs ids) <= lenZ ids).
  { rewrite <- (documents_length docs ids) by done. unfold lenZ, survivors.
    pose proof (List.filter_length_le (passes (post_filter plan)) (documents docs ids)). lia. }
  pose proof Hi as [Hh _ _ _ _].
  destruct (index_candidates_ok _ (eng s) c query plan partition shapes Hh Hp Hnot) as (out & E & Hout).
  unfold executes, execute_index_scan, op_bind, op_gets, op_lift. rewrite E.
  destruct out as [r|partition' shapes'].
  - exists r, s. split_and!; [done..|]. destruct Hout as (index & strategy & [[Hfast ->]|[-> ->]]).
    + apply andb_prop in Hfast as [Hcount Hpost%bool_decide_eq_true]. apply counted_answers; [done|].
      rewrite Hpost, survivors_bare, documents_length by done. by apply entries_count_ids with docs.
    + by apply empty_answers.
  - destruct Hout as [-> ->]. destruct (bare_page query (post_filter plan)) eqn:Hb.
    + destruct (bare_spec _ _ Hb) as (_ & _ & Hpost). rewrite Hpost in *. rewrite survivors_bare.
      destruct shapes as [|shape [|shape' shapes]].
      * rewrite collect_ids_ok by done. by apply id_page_answers.
      * by apply windowed_answers.
      * rewrite collect_ids_ok by done. by apply id_page_answers.
    + apply index_stream_answers; try done. fold ids. lia.
Qed.

Lemma compound_range_answers plan name prefix lower upper partition shapes :
  plan_shapes (index_manager s) c (CompoundRange name prefix lower upper) = Some (partition, shapes) ->
  known_partition (eng s) partition docs ->
  let ids := shape_ids (eng s) partition shapes in
  lenZ ids < usize_max ->
  executes true s d (execute_compound_range current c query plan name prefix lower upper) query c
    (survivors (post_filter plan) docs ids).
Proof.
  intros Hp Hk ids Hlen. pose proof (known_shape_ids _ _ _ shapes Hk) as Hall.
  assert (Hlen' : lenZ (survivors (post_filter plan) docs ids) <= lenZ ids).
  { rewrite <- (documents_length docs ids) by done. unfold lenZ, survivors.
    pose proof (List.filter_length_le (passes (post_filter plan)) (documents docs ids)). lia. }
  pose proof Hi as [Hh _ _ _ _]. cbn in Hp.
  unfold executes, execute_compound_range, op_bind, op_gets, op_lift.
  destruct (get_index_partition (index_manager s) c name) as [p|]; [|done]. cbn in Hp. injection Hp as -> <-. cbn [ok_or].
  destruct (range_scan_bounds prefix lower upper) as [|a b]; cbn [window_shapes] in *.
  { do 2 eexists. split_and!; [done..|]. by apply empty_answers. }
  destruct (q_count_only query && bool_decide (post_filter plan = None)) eqn:Hfast.
  - unfold op_engine. rewrite count_range_spec by done. do 2 eexists. split_and!; [done..|].
    apply andb_prop in Hfast as [Hcount Hpost%bool_decide_eq_true]. apply counted_answers; [done|].
    rewrite Hpost, survivors_bare, documents_length by done. fold ids.
    unfold ids. rewrite <- (entries_count_ids _ _ docs) by done. cbn. rewrite shape_list_range. lia.
  - destruct (bare_page query (post_filter plan)) eqn:Hb.
    + destruct (bare_spec _ _ Hb) as (_ & _ & Hpost). rewrite Hpost in *. rewrite survivors_bare.
      by apply windowed_answers.
    + apply index_stream_answers; try done. fold ids. lia.
Qed.

(** *** Unions *)

Lemma or_arm_ids_ok e m arm partition shapes : healthy e -> plan_shapes m c arm = Some (partition, shapes) ->
  or_arm_ids current m e c arm = Ok (scan_index_name arm, shape_ids e partition shapes).
Proof.
  clear Hi Hc Hq.
  intros Hh Hp. unfold plan_shapes, or_arm_ids in *.
  destruct arm as [|name field v|name field vs|name field lo up|name prefix|name q lo up| | |]; try done.
  - unfold lookup_eq. destruct (eq_scan m c field v) as [[p q]|]; [|done]. cbn in *. injection Hp as -> <-.
    rewrite shape_scan_ok by done. cbn. by rewrite push_id_fold, shape_ids_cons, app_nil_r.
  - unfold lookup_in. destruct (in_scan m c field vs) as [[p qs]|]; [|done]. cbn in *. injection Hp as -> <-.
    rewrite scan_prefixes_ids by done. cbn. do 2 f_equal. induction qs as [|q qs IH]; [done|].
    cbn [map mbind list_bind]. by rewrite shape_ids_cons, <- IH.
  - unfold lookup_range. destruct (range_scan m c field lo up) as [[p [|a b]]|]; [| |done]; cbn in *; injection Hp as -> <-.
    + done.
    + rewrite shape_scan_ok by done. cbn. by rewrite push_id_fold, shape_ids_cons, app_nil_r.
  - destruct (get_index_partition m c name) as [p|]; [|done]. cbn in *. injection Hp as -> <-. by rewrite collect_ids_ok.
  - destruct (get_index_partition m c name) as [p|]; [|by destruct (range_scan_bounds q lo up)]. cbn in *. injection Hp as -> <-.
    destruct (range_scan_bounds q lo up); cbn; [done|]. by rewrite collect_ids_ok.
Qed.

Lemma add_new_NoDup {A} `{EqDecision A} (xs l : list A) : NoDup xs -> NoDup (foldl add_new xs l).
Proof.
  clear Hi Hc Hq Hlive.
  revert xs; induction l as [|x l IH]; intros xs Hnd; cbn; [done|]. apply IH. unfold add_new.
  case_bool_decide as Hx; [done|]. apply NoDup_app. split; [done|]. split; [set_solver|apply NoDup_singleton].
Qed.
Lemma elem_add_new {A} `{EqDecision A} (xs l : list A) x : x ∈ foldl add_new xs l <-> x ∈ xs \/ x ∈ l.
Proof.
  clear Hi Hc Hq Hlive.
  revert xs; induction l as [|y l IH]; intros xs; cbn; [set_solver|]. rewrite IH. unfold add_new.
  case_bool_decide; set_solver.
Qed.

(** The ids of an arm. *)
Definition arm_ids (e : engine) (m : IndexManager) (arm : ScanPlan) : list string :=
  match plan_shapes m c arm with Some (partition, shapes) => shape_ids e partition shapes | None => [] end.
Lemma union_arms_ok e m arms ids names : healthy e -> Forall (fun arm => is_Some (plan_shapes m c arm)) arms ->
  exists names', union_arms current m e c arms ids names = Ok (foldl add_new ids (arms ≫= arm_ids e m), names').
Proof.
  clear Hi Hc Hq.
  intros Hh Hall. revert ids names; induction Hall as [|arm arms [[p shapes] Hp] _ IH]; intros ids names; cbn [union_arms].
  { by eexists. }
  rewrite (or_arm_ids_ok e m arm p shapes Hh Hp). cbn. destruct (IH (foldl add_new ids (shape_ids e p shapes))
    (add_new names (scan_index_name arm))) as (names' & ->). exists names'.
  unfold arm_ids at 2. rewrite Hp. by rewrite foldl_app.
Qed.
Definition union_ids_of (e : engine) (m : IndexManager) (arms : list ScanPlan) : list string :=
  sort_by str_cmp (foldl add_new [] (arms ≫= arm_ids e m)).
Lemma union_ids_spec e m arms : NoDup (union_ids_of e m arms) /\
  forall id, id ∈ union_ids_of e m arms <-> exists arm, arm ∈ arms /\ id ∈ arm_ids e m arm.
Proof.
  clear Hi Hc Hq Hlive.
  unfold union_ids_of. split.
  - rewrite sort_by_perm. apply add_new_NoDup. constructor.
  - intros id. rewrite sort_by_perm, elem_add_new, list_elem_of_bind. set_solver.
Qed.

Lemma or_union_answers plan arms :
  Forall (fun arm => is_Some (plan_shapes (index_manager s) c arm)) arms ->
  let ids := union_ids_of (eng s) (index_manager s) arms in
  Forall (fun id => is_Some (docs !! id)) ids -> lenZ ids < usize_max ->
  executes true s d (execute_or_union current c query plan arms) query c (survivors (post_filter plan) docs ids).
Proof.
  intros Harms ids Hall Hlen. pose proof Hi as [Hh _ _ _ _].
  unfold executes, execute_or_union, op_bind, op_gets, op_lift.
  destruct (union_arms_ok (eng s) (index_manager s) arms [] [] Hh Harms) as (names & ->). cbn [fst snd].
  fold (union_ids_of (eng s) (index_manager s) arms) ids.
  destruct (q_count_only query && bool_decide (post_filter plan = None)) eqn:Hfast.
  - do 2 eexists. split_and!; [done..|].
    apply andb_prop in Hfast as [Hcount Hpost%bool_decide_eq_true]. apply counted_answers; [done|].
    by rewrite Hpost, survivors_bare, documents_length.
  - destruct (bare_page query (post_filter plan)) eqn:Hb.
    + destruct (bare_spec _ _ Hb) as (_ & _ & Hpost). rewrite Hpost in *. rewrite survivors_bare.
      by apply id_page_answers.
    + apply id_stream_answers; try done.
      pose proof (List.filter_length_le (passes (post_filter plan)) (documents docs ids)) as Hle.
      pose proof (documents_length docs ids Hall) as Hd. unfold survivors, lenZ in *. lia.
Qed.

(** *** Bitmap candidates *)

(** What the executor relies on of a bitmap: its ids are a set of the
    collection's, windows cut it, its length is its cardinality. *)
Definition bitmap_ids (a : accel) (b : bitmap) : list string := resolve_window a b 0 usize_max.
Record bitmap_ok (a : accel) (b : bitmap) : Prop := {
  bo_known : Forall (fun id => is_Some (docs !! id)) (bitmap_ids a b);
  bo_len : bitmap_len b = lenZ (bitmap_ids a b);
  bo_window : forall offset limit, 0 <= offset -> 0 <= limit ->
    resolve_window a b offset limit = takeZ limit (dropZ offset (bitmap_ids a b));
}.
Lemma bitmap_scan_answers plan b : bitmap_ok (scan_accelerator s) b ->
  let ids := bitmap_ids (scan_accelerator s) b in
  lenZ ids < usize_max ->
  executes true s d (execute_bitmap_scan current c query plan b) query c (survivors (post_filter plan) docs ids).
Proof.
  intros [Hall Hblen Hwin] ids Hlen. fold ids in Hall, Hblen, Hwin. destruct (Hq) as (Ho & Hl & _).
  unfold executes, execute_bitmap_scan.
  destruct (q_count_only query && bool_decide (post_filter plan = None)) eqn:Hfast.
  - do 2 eexists. split_and!; [done..|].
    apply andb_prop in Hfast as [Hcount Hpost%bool_decide_eq_true]. apply counted_answers; [done|].
    by rewrite Hpost, survivors_bare, documents_length.
  - destruct (bare_page query (post_filter plan)) eqn:Hb.
    + destruct (bare_spec _ _ Hb) as (Hcount & Hw & Hpost). rewrite Hpost in *. rewrite survivors_bare.
      destruct (open_docs s d c docs Hi Hc) as (s' & E & Hi' & Hss & Hs & _).
      unfold bitmap_page, op_bind, op_gets. rewrite E. do 2 eexists. split_and!; [done..|].
      rewrite Hwin by (unfold sat_add, usize_max; lia).
      assert (Hsat : lenZ ids <= sat_add (q_limit query) 1 \/ sat_add (q_limit query) 1 = q_limit query + 1)
        by (unfold sat_add; lia).
      pose proof (documents_length docs ids Hall) as Hd.
      assert (Hpage : takeZ (q_limit query) (takeZ (sat_add (q_limit query) 1) (dropZ (q_offset query) ids)) = window query ids
        /\ (q_limit query <? lenZ (takeZ (sat_add (q_limit query) 1) (dropZ (q_offset query) ids))) =
           (q_offset query + q_limit query <? lenZ ids)).
      { unfold window. rewrite !takeZ_take, !dropZ_drop, take_take. unfold lenZ in *. rewrite length_take, length_drop. split.
        - destruct Hsat as [?|Hsat]; [|f_equal; lia]. unfold sat_add in *.
          destruct (Z.leb_spec (q_limit query + 1) usize_max); [f_equal; lia|].
          rewrite !take_ge; [done|rewrite length_drop; lia..].
        - apply eq_bool_prop_intro. rewrite !Is_true_true, !Z.ltb_lt. unfold sat_add in *. lia. }
      destruct Hpage as [-> ->].
      apply window_answers; cbn [r_docs total_count r_has_more r_next_cursor]; try done.
      * f_equal. unfold window. rewrite <- documents_window by done. unfold documents.
        apply list_omap_ext. apply Forall_Forall2_diag, Forall_forall. intros id _. by apply fetch_ok.
      * by rewrite Hd.
      * right. by rewrite Hd, Hblen.
    + unfold op_bind, op_gets. apply id_stream_answers; try done.
      pose proof (List.filter_length_le (passes (post_filter plan)) (documents docs ids)) as Hle.
      pose proof (documents_length docs ids Hall) as Hd. unfold survivors, bitmap_ids, lenZ in *. fold ids. lia.
Qed.
End paths.
