(* ===== verification/Plans.v ===== *)
(** * Plans are sound

    The scans the planner chooses, with the residual filter it leaves, cover
    exactly the matches of the query's filter. *)

From S2P Require Import Prelude Bytes F64 Json Errors Externals Filter Secondary Sort Cursor Parser Backend Index Storage Document Consistency Mutations Page Planner Executor Execution Compound.

Section covers.
Context `{SerdeJson} `{!SerdeLaws} `{BackendLaws} `{StorageSerde} `{RegexLib} `{ScanAccelerator}.

(** Candidates and a residual filter that select certain documents, or the
    matches of a filter. *)
Definition selects (docs : gmap string Value) (P : Value -> bool) (post : option FilterNode) (ids : list string) : Prop :=
  NoDup ids /\ Forall (fun id => is_Some (docs !! id)) ids /\
  forall id doc, docs !! id = Some doc -> P doc = true <-> id ∈ ids /\ passes post doc = true.
Definition covers (docs : gmap string Value) (f : FilterNode) : option FilterNode -> list string -> Prop :=
  selects docs (matches f).

Definition with_id (docs : gmap string Value) (id : string) : option (string * Value) := pair id <$> docs !! id.
Lemma documents_pairs docs ids : documents docs ids = (omap (with_id docs) ids).*2.
Proof.
  unfold with_id. induction ids as [|id ids IH]; [done|]. rewrite documents_cons. cbn.
  destruct (docs !! id); cbn; by rewrite IH.
Qed.
Lemma filter_snd {A B} (P : B -> bool) (l : list (A * B)) : List.filter P l.*2 = (List.filter (fun x => P x.2) l).*2.
Proof. induction l as [|x l IH]; cbn; [done|]. destruct (P x.2); cbn; by rewrite IH. Qed.

(** The survivors of covering candidates are the matches. *)
Lemma selects_survivors docs P post ids l : selects docs P post ids -> streamed docs l -> map_Forall doc_ok docs ->
  survivors post docs ids ≡ₚ List.filter P l.*2.
Proof.
  intros (Hnd & Hall & Hcov) Hst Hok. destruct (streamed_ok docs l Hst Hok) as (Hndl & _ & Hin).
  unfold survivors. rewrite documents_pairs, !filter_snd. apply fmap_Permutation, NoDup_Permutation.
  - apply NoDup_filter_bool, NoDup_omap; [done|]. intros x y b _ _ Hx Hy. unfold with_id in *.
    apply fmap_Some in Hx as (? & _ & ->), Hy as (? & _ & [= -> _]). done.
  - apply NoDup_filter_bool. by apply (NoDup_fmap_1 fst).
  - intros [id doc]. rewrite !elem_of_List_filter, list_elem_of_omap, Hin. cbn. unfold with_id. split.
    + intros ((i & Hi & (x & Hx & [= -> ->])%fmap_Some) & Hp). split; [done|]. by apply (Hcov i).
    + intros (Hd & Hm). apply (Hcov id) in Hm as [Hi Hp]; [|done]. split; [|done]. exists id. by rewrite Hd.
Qed.

(** ** Entries of an index *)

Lemma index_known e def p docs : healthy e -> index_holds e def p docs -> map_Forall doc_ok docs ->
  known_partition e p docs.
Proof.
  intros Hh Hix Hok. apply Forall_forall. intros [k v] Hin. apply Hix in Hin as (_ & id & doc & Hd & Hk).
  exists id. destruct (Hok _ _ Hd) as (Hid & _). split; [by eapply entry_key_id|by exists doc].
Qed.
(** A selection of the entries by their documents. *)
Lemma select_ids e def p docs (sel : entry -> bool) :
  healthy e -> index_holds e def p docs -> map_Forall doc_ok docs ->
  let ids := entry_ids (List.filter sel (contents e p)) in
  NoDup ids /\ forall id, id ∈ ids <->
    exists doc k, docs !! id = Some doc /\ index_entry_key def id doc = Some k /\ sel (k, []) = true.
Proof.
  intros Hh Hix Hok ids.
  assert (Hent : forall k v id, (k, v) ∈ contents e p -> extract_doc_id_from_key k = Some id ->
    v = [] /\ exists doc, docs !! id = Some doc /\ index_entry_key def id doc = Some k).
  { intros k v id Hin E. apply Hix in Hin as (-> & i & doc & Hd & Hk). split; [done|].
    destruct (Hok _ _ Hd) as (Hid & _). rewrite (entry_key_id def i doc k Hid Hk) in E. injection E as ->. eauto. }
  split.
  - apply NoDup_omap; [by apply sorted_NoDup, sorted_filter, contents_sorted|].
    intros [k v] [k' v'] id [Hx _]%elem_of_List_filter [Hy _]%elem_of_List_filter E E'. cbn in *.
    apply (Hent _ _ id) in Hx as (-> & doc & Hd & Hk); [|done]. apply (Hent _ _ id) in Hy as (-> & doc' & Hd' & Hk'); [|done].
    congruence.
  - intros id. unfold ids, entry_ids. rewrite list_elem_of_omap. split.
    + intros ([k v] & [Hx Hs]%elem_of_List_filter & E). apply (Hent _ _ id) in Hx as (-> & doc & Hd & Hk); [|done].
      by exists doc, k.
    + intros (doc & k & Hd & Hk & HP). exists (k, []). destruct (Hok _ _ Hd) as (Hid & _).
      split; [|by apply (entry_key_id def id doc)]. apply elem_of_List_filter. split; [apply Hix; eauto|done].
Qed.

(** ** Comparisons through a single-field index *)

(** Values on which the filter's equality is that of the keys: not two
    numbers closer than [f64::EPSILON], nor the two zeros. *)
Definition eq_agrees (w v : Value) : Prop := values_equal w v = eq_total v w.
Definition stored (docs : gmap string Value) (field : string) (w : Value) : Prop :=
  exists id doc, docs !! id = Some doc /\ resolve_json_path doc field = Some w.
(** A condition on which the keys and the filter agree. *)
Definition leaf_ok (docs : gmap string Value) (field : string) (op : FilterOp) (v : Value) : Prop :=
  match op with
  | Eq_ => field_safe v /\ forall w, stored docs field w -> field_safe w /\ eq_agrees w v
  | Gt_ | Gte | Lt_ | Lte => field_safe v /\ forall w, stored docs field w -> field_safe w /\ values_agree w v
  | In => match v with
          | VArray vs => Forall field_safe vs /\ forall w, stored docs field w -> field_safe w /\ Forall (eq_agrees w) vs
          | _ => True
          end
  | _ => True
  end.
End covers.

Section comparisons.
Context `{SerdeJson} `{!SerdeLaws} `{BackendLaws} `{StorageSerde} `{RegexLib} `{ScanAccelerator} `{!BitmapScans}.
Context (s : Storage) (d : gmap string (gmap string Value)) (c : string) (docs : gmap string Value).
Context (Hi : core_inv s d) (Hc : d !! c = Some docs).
Abbreviation m := (index_manager s).

(** A scan that covers a filter up to a residual. *)
Definition scan_covers (plan : ScanPlan) (f : FilterNode) (post : option FilterNode) : Prop :=
  exists partition shapes, plan_shapes m c plan = Some (partition, shapes) /\
    known_partition (eng s) partition docs /\ covers docs f post (shape_ids (eng s) partition shapes).

Lemma docs_all_ok : map_Forall doc_ok docs.
Proof. destruct Hi as [_ _ _ _ Hv]. by destruct (vi_ok _ _ _ Hv _ _ Hc). Qed.
Lemma entry_holds kv : kv ∈ m -> kv.1.1 = c -> index_holds (eng s) (entry_def kv.2) (entry_partition kv.2) docs.
Proof.
  intros Hin Hcol. destruct Hi as [Hh _ _ _ Hv]. apply index_view_holds; [done|].
  pose proof (vi_idx _ _ _ Hv kv Hin) as Hx. rewrite Hcol in Hx. by rewrite (docs_of_c d c docs Hc) in Hx.
Qed.
Lemma field_holds field def p : get_index_for_field m c field = Some (def, p) -> index_holds (eng s) def p docs.
Proof. intros Hg. apply index_for_field_in in Hg as (kv & Hin & Hcol & <- & <-). by apply entry_holds. Qed.
Lemma stored_safe field : (forall w, stored docs field w -> field_safe w) -> docs_safe docs field.
Proof.
  intros Hs id doc Hd. destruct (docs_all_ok id doc Hd) as (Hid & _). split; [done|].
  intros w Hw. apply field_safe_index, Hs. by exists id, doc.
Qed.

(** The lookups select by value; so does the filter. *)
Lemma selects_covers field op v (P : Value -> bool) ids :
  NoDup ids -> (forall id, id ∈ ids <-> field_selects docs field P id) ->
  (forall w, stored docs field w -> evaluate_op op (Some w) v = P w) -> evaluate_op op None v = false ->
  covers docs (Comparison field op v) None ids.
Proof.
  intros Hnd Hin HP Hnone. split; [done|]. split.
  - apply Forall_forall. intros id (doc & w & Hd & _)%Hin. by exists doc.
  - intros id doc Hd. rewrite Hin. unfold field_selects. cbn [matches passes]. split.
    + intros Hm. split; [|done]. destruct (resolve_json_path doc field) as [w|] eqn:Hw; [|congruence].
      exists doc, w. rewrite <- HP by (by exists id, doc). done.
    + intros [(doc' & w & Hd' & Hw & HPw) _]. assert (doc' = doc) as -> by congruence.
      rewrite Hw, HP by (by exists id, doc). done.
Qed.

Lemma arm_covers plan f p name ids : (exists shapes, plan_shapes m c plan = Some (p, shapes)) ->
  known_partition (eng s) p docs -> or_arm_ids None m (eng s) c plan = Ok (name, ids) ->
  covers docs f None ids -> scan_covers plan f None.
Proof.
  intros (shapes & Hp) Hk E Hcov. exists p, shapes. split_and!; [done..|]. pose proof Hi as [Hh _ _ _ _].
  rewrite (or_arm_ids_ok None I c (eng s) m plan p shapes Hh Hp) in E. by injection E as _ ->.
Qed.

Lemma comparison_sound field op v plan : leaf_ok docs field op v ->
  try_index_comparison m c field op v = Some plan -> scan_covers plan (Comparison field op v) None.
Proof.
  intros Hleaf. unfold try_index_comparison.
  destruct (get_index_for_field m c field) as [[def p]|] eqn:Hg; cbn; [|done].
  pose proof Hi as [Hh _ _ _ _]. pose proof (field_holds field def p Hg) as Hix.
  assert (Hk : known_partition (eng s) p docs) by (by apply (index_known _ def); [..|apply docs_all_ok]).
  assert (Hrange : forall lower upper, (forall w, stored docs field w -> field_safe w) ->
    is_Some lower \/ is_Some upper -> bounds_safe lower -> bounds_safe upper ->
    (forall w, stored docs field w -> evaluate_op op (Some w) v = lower_sem lower w && upper_sem upper w) ->
    evaluate_op op None v = false -> scan_covers (IndexRange (idx_name def) field lower upper) (Comparison field op v) None).
  { intros lower upper Hsafe Hsome Hlo Hup HP Hnone.
    destruct (lookup_range_ids None m (eng s) c field lower upper def p docs) as (ids & E & Hnd & _ & Hin);
      [done|done|done|done|by apply stored_safe|done..|].
    eapply (arm_covers _ _ p); [unfold plan_shapes, range_scan; rewrite Hg; by eexists|done|cbn; by rewrite E|].
    by eapply selects_covers. }
  destruct op; try done; cbn in Hleaf.
  - intros [= <-]. destruct Hleaf as [Hv Hst].
    destruct (lookup_eq_ids None m (eng s) c field v def p docs) as (ids & E & Hnd & _ & Hin);
      [done|done|done|done|apply stored_safe; intros w Hw; by apply Hst|by apply field_safe_index|].
    eapply (arm_covers _ _ p); [unfold plan_shapes, eq_scan; rewrite Hg; by eexists|done|cbn; by rewrite E|].
    eapply selects_covers; [done..| |done]. intros w Hw. by apply Hst.
  - destruct Hleaf as [Hv Hst]. intros [= <-]. apply field_safe_index in Hv. apply Hrange; try (done || by eauto); intros w Hw; [by apply Hst|].
    cbn [upper_sem]. rewrite andb_true_r. destruct (Hst w Hw) as [_ Ha]. by destruct (range_ops_agree w v Ha).
  - destruct Hleaf as [Hv Hst]. intros [= <-]. apply field_safe_index in Hv. apply Hrange; try (done || by eauto); intros w Hw; [by apply Hst|].
    cbn [upper_sem]. rewrite andb_true_r. destruct (Hst w Hw) as [_ Ha]. by destruct (range_ops_agree w v Ha) as (_ & ? & _).
  - destruct Hleaf as [Hv Hst]. intros [= <-]. apply field_safe_index in Hv. apply Hrange; try (done || by eauto); intros w Hw; [by apply Hst|].
    cbn [lower_sem andb]. destruct (Hst w Hw) as [_ Ha]. by destruct (range_ops_agree w v Ha) as (_ & _ & ? & _).
  - destruct Hleaf as [Hv Hst]. intros [= <-]. apply field_safe_index in Hv. apply Hrange; try (done || by eauto); intros w Hw; [by apply Hst|].
    cbn [lower_sem andb]. destruct (Hst w Hw) as [_ Ha]. by destruct (range_ops_agree w v Ha) as (_ & _ & _ & ?).
  - destruct v as [| | | |vs|]; try done. intros [= <-]. destruct Hleaf as [Hvs Hst].
    destruct (lookup_in_ids None m (eng s) c field vs def p docs) as (ids & E & Hnd & Hin);
      [done|done|done|done|apply stored_safe; intros w Hw; by apply Hst| |].
    { eapply Forall_impl; [exact Hvs|]. apply field_safe_index. }
    eapply (arm_covers _ _ p); [unfold plan_shapes, in_scan; rewrite Hg; by eexists|done|cbn; by rewrite E|].
    eapply selects_covers; [done..| |done]. intros w Hw. destruct (Hst w Hw) as [_ Hag].
    cbn. clear -Hag. induction Hag as [|v vs Hv _ IH]; cbn; [done|]. by rewrite IH, Hv.
Qed.
End comparisons.

(** ** Conjunctions *)

Section conjunctions.
Context `{SerdeJson} `{!SerdeLaws} `{BackendLaws} `{StorageSerde} `{RegexLib} `{ScanAccelerator}.

Lemma residual_passes rest doc : passes (residual rest) doc = forallb (fun n => matches n doc) rest.
Proof. destruct rest as [|n [|n' rest]]; [done| |done]. cbn [residual passes forallb]. by rewrite andb_true_r. Qed.
Lemma residual_None (rest : list FilterNode) : residual rest = None -> rest = [].
Proof. by destruct rest as [|n [|]]. Qed.

(** A conjunction is its selected conjuncts and the others. *)
Lemma forallb_split (g : FilterNode -> bool) children doc :
  forallb (fun n => matches n doc) children =
  forallb (fun n => matches n doc) (List.filter g children) &&
  forallb (fun n => matches n doc) (List.filter (fun n => negb (g n)) children).
Proof.
  induction children as [|n children IH]; cbn; [done|]. rewrite IH.
  destruct (g n); cbn; destruct (matches n doc); cbn; by rewrite ?andb_false_r.
Qed.
Lemma filter_negb_split {A} (f g : A -> bool) (l : list A) :
  List.filter (fun n => negb (f n) && negb (g n)) l = List.filter (fun n => negb (f n || g n)) l.
Proof. apply List.filter_ext. intros n. by rewrite negb_orb. Qed.

(** Which bounds the conjuncts on a field have. *)
Definition lower_bound (n : FilterNode) : option (string * (Value * bool)) :=
  match n with Comparison f Gt_ v => Some (f, (v, false)) | Comparison f Gte v => Some (f, (v, true)) | _ => None end.
Definition upper_bound (n : FilterNode) : option (string * (Value * bool)) :=
  match n with Comparison f Lt_ v => Some (f, (v, false)) | Comparison f Lte v => Some (f, (v, true)) | _ => None end.
(** Conjuncts of which the planner drops none: one equality, one lower and
    one upper bound per field. *)
Definition one_each (children : list FilterNode) : Prop :=
  NoDup (eq_pairs children).*1 /\ NoDup (omap lower_bound children).*1 /\ NoDup (omap upper_bound children).*1.

Lemma eq_pair_spec n f v : eq_pair n = Some (f, v) <-> n = Comparison f Eq_ v.
Proof. split; [|by intros ->]. destruct n as [g [] u|?|?|?|?]; try done. by intros [= <- <-]. Qed.
Lemma elem_eq_pairs children f v : (f, v) ∈ eq_pairs children <-> Comparison f Eq_ v ∈ children.
Proof.
  unfold eq_pairs. rewrite list_elem_of_omap. split.
  - by intros (n & Hn & ->%eq_pair_spec).
  - intros Hn. by exists (Comparison f Eq_ v).
Qed.
Lemma pair_value_spec (pairs : list (string * Value)) f : NoDup pairs.*1 -> forall v, pair_value pairs f = Some v <-> (f, v) ∈ pairs.
Proof.
  intros Hnd v. unfold pair_value. split.
  - intros ([g u] & E & [= ->])%fmap_Some. apply List.find_some in E as [Hin E%bool_decide_eq_true]. cbn in *. subst.
    by apply list_elem_of_In.
  - intros Hin. destruct (List.find _ pairs) as [[g u]|] eqn:E.
    + apply List.find_some in E as [Hin' E%bool_decide_eq_true]. cbn in E. subst g. apply list_elem_of_In in Hin'.
      cbn. f_equal. assert ((f, u) = (f, v)) as [= ->]; [|done]. by apply (NoDup_fmap_inj_on fst pairs).
    + exfalso. apply list_elem_of_In in Hin. by apply (List.find_none _ _ E), bool_decide_eq_false in Hin.
Qed.

(** The prefix of the equalities on the covered fields. *)
Lemma prefix_from_S pairs i fields out vals : mapM (pair_value pairs) fields = Some vals ->
  prefix_from pairs (S i) fields out = Some (match vals with [] => out | _ => out ++ 1 :: compound_fields vals end).
Proof.
  revert i out vals; induction fields as [|f fields IH]; intros i out vals; cbn; [by intros [= <-]|].
  destruct (pair_value pairs f) as [v|]; cbn; [|done]. destruct (mapM (pair_value pairs) fields) as [vs|] eqn:E; cbn; [|done].
  intros [= <-]. rewrite (IH (S i) _ vs) by done. rewrite (proj2 (Z.ltb_lt 0 (Z.of_nat (S i)))) by lia.
  destruct vs as [|v' vs]; cbn [compound_fields]; by rewrite <- ?app_assoc.
Qed.
Lemma prefix_from_spec pairs fields vals : mapM (pair_value pairs) fields = Some vals ->
  prefix_from pairs 0 fields [] = Some (compound_fields vals).
Proof.
  destruct fields as [|f fields]; cbn; [by intros [= <-]|].
  destruct (pair_value pairs f) as [v|]; cbn; [|done]. destruct (mapM (pair_value pairs) fields) as [vs|] eqn:E; cbn; [|done].
  intros [= <-]. rewrite (prefix_from_S _ _ _ _ vs) by done. by destruct vs.
Qed.
Lemma covered_values pairs fields : (forall f, f ∈ fields -> f ∈ pairs.*1) ->
  exists vals, mapM (pair_value pairs) fields = Some vals.
Proof.
  induction fields as [|f fields IH]; intros Hf; cbn; [by eexists|].
  destruct IH as (vals & ->); [set_solver|].
  assert (is_Some (pair_value pairs f)) as [v ->]; [|by eexists].
  unfold pair_value. destruct (List.find _ pairs) as [p|] eqn:E; [by eexists|]. exfalso.
  assert (f ∈ pairs.*1) as ([g u] & -> & Hin)%list_elem_of_fmap by (apply Hf; by left).
  apply list_elem_of_In in Hin. apply (List.find_none _ _ E), bool_decide_eq_false in Hin. done.
Qed.

(** The conjuncts a prefix covers say that the fields have its values. *)
Lemma covered_conjuncts docs children fields vals id doc ws :
  NoDup (eq_pairs children).*1 -> (forall f v, Comparison f Eq_ v ∈ children -> leaf_ok docs f Eq_ v) ->
  docs !! id = Some doc -> mapM (pair_value (eq_pairs children)) fields = Some vals ->
  Forall2 (fun f w => resolve_json_path doc f = Some w) fields ws ->
  forallb (fun n => matches n doc) (List.filter (covered_eq fields) children) = all_equal vals ws.
Proof.
  intros Hnd Hleaf Hd Hvals Hws.
  assert (Heq : forall f v w, Comparison f Eq_ v ∈ children -> resolve_json_path doc f = Some w ->
    matches (Comparison f Eq_ v) doc = eq_total v w).
  { intros f v w Hin Hw. cbn. rewrite Hw. destruct (Hleaf f v Hin) as [_ Hst]. by apply Hst; exists id, doc. }
  apply mapM_Some in Hvals. apply eq_bool_prop_intro. rewrite !Is_true_true. unfold all_equal. rewrite !forallb_forall. split.
  - intros Hall [v w] Hin%list_elem_of_In. cbn.
    apply list_elem_of_lookup in Hin as (i & Hin). rewrite lookup_zip_with in Hin.
    destruct (vals !! i) as [v'|] eqn:Ev; [|done]. destruct (ws !! i) as [w'|] eqn:Ew; [|done]. injection Hin as -> ->.
    destruct (Forall2_lookup_r _ _ _ _ _ Hvals Ev) as (f & Hf & Hp). apply pair_value_spec, elem_eq_pairs in Hp; [|done].
    destruct (Forall2_lookup_l _ _ _ _ _ Hws Hf) as (w' & Hw & Hr). assert (w' = w) as -> by congruence.
    rewrite <- (Heq f v w) by done. apply Hall, List.filter_In. split; [by apply list_elem_of_In|].
    cbn. apply bool_decide_eq_true. by eapply list_elem_of_lookup_2.
  - intros Hall n [Hin Hcov]%List.filter_In. apply list_elem_of_In in Hin.
    destruct n as [f op v|?|?|?|?]; try done. destruct op; try done. cbn in Hcov. apply bool_decide_eq_true in Hcov.
    apply list_elem_of_lookup in Hcov as (i & Hf). destruct (Forall2_lookup_l _ _ _ _ _ Hvals Hf) as (v' & Ev & Hp).
    apply pair_value_spec in Hp; [|done]. apply elem_eq_pairs in Hin as Hpv.
    assert (v' = v) as ->. { assert ((f, v') = (f, v)) as [= ->]; [|done]. by apply (NoDup_fmap_inj_on fst (eq_pairs children)). }
    destruct (Forall2_lookup_l _ _ _ _ _ Hws Hf) as (w & Ew & Hr). rewrite (Heq f v w) by done.
    apply (Hall (v, w)), list_elem_of_In, list_elem_of_lookup. exists i. by rewrite lookup_zip_with, Ev, Ew.
Qed.
End conjunctions.

(** ** Bounds of a field *)

Section field_bounds.
Context `{SerdeJson} `{!SerdeLaws} `{BackendLaws} `{RegexLib}.

Fixpoint bounds_at (g : string) (l : list (string * (vbound * vbound))) : vbound * vbound :=
  match l with
  | [] => (None, None)
  | (k, b) :: l => if decide (k = g) then b else bounds_at g l
  end.
Lemma set_bound_at g h f l : bounds_at g (set_bound h f l) = if decide (g = h) then f (bounds_at h l) else bounds_at g l.
Proof.
  induction l as [|[k b] l IH]; cbn.
  - destruct (decide (h = g)), (decide (g = h)); by subst.
  - rewrite bool_decide_decide. destruct (decide (k = h)) as [->|Hk]; cbn.
    + by destruct (decide (h = g)), (decide (g = h)); subst.
    + rewrite IH. destruct (decide (k = g)), (decide (g = h)); by subst.
Qed.
Lemma set_bound_keys h f l : (set_bound h f l).*1 = if decide (h ∈ l.*1) then l.*1 else l.*1 ++ [h].
Proof.
  induction l as [|[k b] l IH]; cbn; [by rewrite decide_False by set_solver|].
  case_bool_decide as Hk; cbn; [subst; by rewrite decide_True by set_solver|]. rewrite IH.
  destruct (decide (h ∈ l.*1)); [by rewrite decide_True by set_solver|by rewrite decide_False by set_solver].
Qed.

(** One conjunct's contribution. *)
Lemma add_range_at g l n : bounds_at g (add_range l n) =
  (match lower_bound n with Some (f, b) => if decide (f = g) then Some b else (bounds_at g l).1 | None => (bounds_at g l).1 end,
   match upper_bound n with Some (f, b) => if decide (f = g) then Some b else (bounds_at g l).2 | None => (bounds_at g l).2 end).
Proof.
  destruct n as [f [] v|?|?|?|?]; cbn [add_range lower_bound upper_bound];
    try (by destruct (bounds_at g l));
    rewrite set_bound_at; destruct (decide (g = f)), (decide (f = g)); subst; try done; by destruct (bounds_at _ l).
Qed.

(** The bounds of a field come from its conjuncts, and there is one. *)
Definition bounds_from (children : list FilterNode) (l : list (string * (vbound * vbound))) : Prop :=
  NoDup l.*1 /\ forall g, (forall b, (bounds_at g l).1 = Some b -> exists n, n ∈ children /\ lower_bound n = Some (g, b)) /\
    (forall b, (bounds_at g l).2 = Some b -> exists n, n ∈ children /\ upper_bound n = Some (g, b)) /\
    (g ∈ l.*1 -> is_Some (bounds_at g l).1 \/ is_Some (bounds_at g l).2).
Lemma add_range_keys l n : (add_range l n).*1 =
  match lower_bound n, upper_bound n with
  | Some (f, _), _ | None, Some (f, _) => if decide (f ∈ l.*1) then l.*1 else l.*1 ++ [f]
  | None, None => l.*1
  end.
Proof. destruct n as [f [] v|?|?|?|?]; cbn [add_range lower_bound upper_bound]; by rewrite ?set_bound_keys. Qed.
Lemma range_bounds_from children : bounds_from children (range_bounds children).
Proof.
  unfold range_bounds. induction children as [|n children IH] using rev_ind.
  { split; [constructor|]. intros g. split_and!; try done. by intros ?%elem_of_nil. }
  rewrite foldl_app. cbn [foldl]. set (l := foldl add_range [] children) in *. destruct IH as [Hnd IH]. split.
  - rewrite add_range_keys. assert (forall f : string, NoDup (if decide (f ∈ l.*1) then l.*1 else l.*1 ++ [f])) as Hf.
    { intros f. destruct (decide (f ∈ l.*1)); [done|]. apply NoDup_app. split; [done|]. split; [set_solver|apply NoDup_singleton]. }
    destruct (lower_bound n) as [[f b]|], (upper_bound n) as [[f' b']|]; auto.
  - intros g. destruct (IH g) as (A & B & D). rewrite add_range_at, add_range_keys. cbn [fst snd]. split_and!.
    + intros b. destruct (lower_bound n) as [[f b']|] eqn:En; [destruct (decide (f = g)) as [->|]|].
      { intros [= <-]. exists n. split; [set_solver|done]. }
      all: intros (n' & Hn' & E)%A; exists n'; split; [set_solver|done].
    + intros b. destruct (upper_bound n) as [[f b']|] eqn:En; [destruct (decide (f = g)) as [->|]|].
      { intros [= <-]. exists n. split; [set_solver|done]. }
      all: intros (n' & Hn' & E)%B; exists n'; split; [set_solver|done].
    + intros Hg. destruct (lower_bound n) as [[f b]|] eqn:El, (upper_bound n) as [[f' b']|] eqn:Eu.
      1: by destruct n as [? [] ?|?|?|?|?].
      1,2: destruct (decide (_ = g)) as [->|Hne]; [by eauto|]; apply D; destruct (decide (_ ∈ l.*1)); set_solver.
      by apply D.
Qed.
Lemma range_bounds_elem children g b : (g, b) ∈ range_bounds children -> bounds_at g (range_bounds children) = b.
Proof.
  destruct (range_bounds_from children) as [Hnd _]. generalize dependent (range_bounds children).
  intros l. induction l as [|[k x] l IH]; cbn; [by intros _ ?%elem_of_nil|].
  inversion 1 as [|? ? Hk Hnd']; subst. intros [[= -> ->]|Hin]%elem_of_cons; [by rewrite decide_True|].
  rewrite decide_False; [by apply IH|]. intros ->. apply Hk. by apply (list_elem_of_fmap_2 fst) in Hin.
Qed.

(** The conjuncts on a field say that its value is within the bounds. *)
Lemma bounds_sem children g w l :
  NoDup (omap lower_bound children).*1 -> NoDup (omap upper_bound children).*1 ->
  (is_Some (bounds_at g l).1 -> g ∉ (omap lower_bound children).*1) ->
  (is_Some (bounds_at g l).2 -> g ∉ (omap upper_bound children).*1) ->
  (forall op v, Comparison g op v ∈ children -> is_range op = true -> values_agree w v) ->
  let b := bounds_at g (foldl add_range l children) in
  lower_sem b.1 w && upper_sem b.2 w =
  lower_sem (bounds_at g l).1 w && upper_sem (bounds_at g l).2 w &&
  forallb (fun n => match n with Comparison _ op v => evaluate_op op (Some w) v | _ => true end)
    (List.filter (on_range g) children).
Proof.
  revert l; induction children as [|n children IH]; intros l Hlo Hup Hl Hu Ha; cbn [foldl].
  { by rewrite andb_true_r. }
  assert (Hcase : lower_bound n = None /\ upper_bound n = None /\ on_range g n = false \/
    (exists f v i op, n = Comparison f op v /\ lower_bound n = Some (f, (v, i)) /\ upper_bound n = None /\ is_range op = true /\
       (values_agree w v -> evaluate_op op (Some w) v = lower_sem (Some (v, i)) w)) \/
    (exists f v i op, n = Comparison f op v /\ upper_bound n = Some (f, (v, i)) /\ lower_bound n = None /\ is_range op = true /\
       (values_agree w v -> evaluate_op op (Some w) v = upper_sem (Some (v, i)) w))).
  { destruct n as [f [] v|?|?|?|?]; try (left; cbn; rewrite ?andb_false_r; done).
    1,2: right; left; do 4 eexists; split_and!; [reflexivity..|]; intros Hag; by destruct (range_ops_agree w v Hag) as (E1 & E2 & E3 & E4).
    1,2: right; right; do 4 eexists; split_and!; [reflexivity..|]; intros Hag; by destruct (range_ops_agree w v Hag) as (E1 & E2 & E3 & E4). }
  assert (Ha' : forall op v, Comparison g op v ∈ children -> is_range op = true -> values_agree w v).
  { intros op v Hin. apply (Ha op v). by right. }
  destruct Hcase as [(El & Eu & Eo)|[(f & v & i & op & -> & El & Eu & Er & Es)|(f & v & i & op & -> & Eu & El & Er & Es)]];
    cbn [omap list_omap] in Hlo, Hup, Hl, Hu; rewrite El in Hlo, Hl; rewrite Eu in Hup, Hu.
  - rewrite IH; try done; rewrite ?add_range_at, ?El, ?Eu; cbn [fst snd]; [|done..].
    cbn [List.filter]. by rewrite Eo.
  - cbn [fmap list_fmap fst] in Hlo, Hl. inversion Hlo as [|? ? Hf Hlo']; subst.
    rewrite IH; try done; rewrite ?add_range_at, ?El, ?Eu; cbn [fst snd]; [|destruct (decide (f = g)) as [->|]; [done|set_solver]|done].
    cbn [List.filter on_range]. rewrite Er, andb_true_r. rewrite bool_decide_decide. destruct (decide (f = g)) as [->|Hne]; cbn [forallb].
    + assert ((bounds_at g l).1 = None) as ->. { destruct (bounds_at g l).1; [|done]. exfalso. apply Hl; [by eexists|set_solver]. }
      rewrite Es by (eapply Ha; [by left|done]). change (lower_sem None w) with true. by destruct (lower_sem _ w), (upper_sem _ w).
    + done.
  - cbn [fmap list_fmap fst] in Hup, Hu. inversion Hup as [|? ? Hf Hup']; subst.
    rewrite IH; try done; rewrite ?add_range_at, ?El, ?Eu; cbn [fst snd]; [|done|destruct (decide (f = g)) as [->|]; [done|set_solver]].
    cbn [List.filter on_range]. rewrite Er, andb_true_r. rewrite bool_decide_decide. destruct (decide (f = g)) as [->|Hne]; cbn [forallb].
    + assert ((bounds_at g l).2 = None) as ->. { destruct (bounds_at g l).2; [|done]. exfalso. apply Hu; [by eexists|set_solver]. }
      rewrite Es by (eapply Ha; [by left|done]). change (upper_sem None w) with true. by destruct (lower_sem _ w), (upper_sem _ w).
    + done.
Qed.
End field_bounds.

(** ** Compound indexes *)

Section find_compound.
Context `{SerdeJson} `{StorageBackend}.

Lemma count_matched_spec names fields : (count_matched names fields <= length fields)%nat /\
  forall f, f ∈ take (count_matched names fields) fields -> f ∈ names.
Proof.
  induction fields as [|f fields [IH1 IH2]]; cbn; [split; [done|by intros ? ?%elem_of_nil]|].
  case_bool_decide; cbn; [|split; [lia|by intros ? ?%elem_of_nil]]. split; [lia|].
  intros g [->|Hg]%elem_of_cons; auto.
Qed.
Definition found_index (m : IndexManager) (c : string) (names : list string) (def : IndexDef) (p : PartitionId) (n : nat) : Prop :=
  exists kv, kv ∈ m /\ kv.1.1 = c /\ entry_def kv.2 = def /\ entry_partition kv.2 = p /\ is_compound def = true /\
    n = count_matched names (idx_fields def) /\ n <> 0%nat.
Lemma find_compound_spec m c names sort def p n : find_compound_index m c names sort = Some (def, p, n) ->
  found_index m c names def p n /\
  (sort = [] \/ (n + length sort <= length (idx_fields def))%nat /\ take (length sort) (drop n (idx_fields def)) = sort).
Proof.
  unfold find_compound_index.
  assert (Hgen : forall l b, (forall kv, kv ∈ l -> kv ∈ m) ->
    (forall def p n, b = Some (def, p, n) -> found_index m c names def p n /\
      (sort = [] \/ (n + length sort <= length (idx_fields def))%nat /\ take (length sort) (drop n (idx_fields def)) = sort)) ->
    foldl (compound_candidate c names sort) b l = Some (def, p, n) -> found_index m c names def p n /\
      (sort = [] \/ (n + length sort <= length (idx_fields def))%nat /\ take (length sort) (drop n (idx_fields def)) = sort));
    [|by apply Hgen].
  induction l as [|[[col name] ent] l IH]; intros b Hl Hb; cbn [foldl]; [by apply Hb|]. apply IH; [intros kv Hkv; apply Hl; by right|].
  intros def' p' n'. unfold compound_candidate.
  destruct (negb (bool_decide (col = c)) || negb (is_compound (entry_def ent))) eqn:E; [by apply Hb|].
  apply orb_false_iff in E as [E1%negb_false_iff%bool_decide_eq_true E2%negb_false_iff].
  case_bool_decide as Hz; [by apply Hb|].
  assert (Hf : found_index m c names (entry_def ent) (entry_partition ent) (count_matched names (idx_fields (entry_def ent)))).
  { exists ((col, name), ent). split_and!; try done. apply Hl. by left. }
  destruct sort as [|sf sort].
  - destruct (_ && _); [|by apply Hb]. intros [= <- <- <-]. auto.
  - destruct (_ && _) eqn:Es; [|by apply Hb]. intros [= <- <- <-]. split; [done|]. right.
    apply andb_prop in Es as [[Es1%bool_decide_eq_true Es2%bool_decide_eq_true]%andb_prop _]. done.
Qed.
Lemma find_compound_range_spec m c names g def p n : find_compound_range_index m c names g = Some (def, p, n) ->
  found_index m c names def p n /\ idx_fields def !! n = Some g.
Proof.
  unfold find_compound_range_index.
  assert (Hgen : forall l b, (forall kv, kv ∈ l -> kv ∈ m) ->
    (forall def p n, b = Some (def, p, n) -> found_index m c names def p n /\ idx_fields def !! n = Some g) ->
    foldl (compound_range_candidate c names g) b l = Some (def, p, n) ->
    found_index m c names def p n /\ idx_fields def !! n = Some g); [|by apply Hgen].
  induction l as [|[[col name] ent] l IH]; intros b Hl Hb; cbn [foldl]; [by apply Hb|]. apply IH; [intros kv Hkv; apply Hl; by right|].
  intros def' p' n'. unfold compound_range_candidate.
  destruct (negb (bool_decide (col = c)) || negb (is_compound (entry_def ent))) eqn:E; [by apply Hb|].
  apply orb_false_iff in E as [E1%negb_false_iff%bool_decide_eq_true E2%negb_false_iff].
  case_bool_decide as Hz; [by apply Hb|]. destruct (_ && _) eqn:Es; [|by apply Hb]. intros [= <- <- <-].
  apply andb_prop in Es as [Es%bool_decide_eq_true _]. split; [|done].
  exists ((col, name), ent). split_and!; try done. apply Hl. by left.
Qed.

(** The key of a document in a compound index: its values, in field order. *)
Lemma compound_entry_key def id doc k : is_compound def = true ->
  index_entry_key def id doc = Some k <->
  exists ws, Forall2 (fun f w => resolve_json_path doc f = Some w) (idx_fields def) ws /\ k = make_compound_index_key ws id.
Proof.
  intros Hcomp. unfold index_entry_key. rewrite Hcomp.
  assert (Hiff : forall fields, lenZ (omap (fun f => resolve_json_path doc f) fields) = lenZ fields <->
    Forall2 (fun f w => resolve_json_path doc f = Some w) fields (omap (fun f => resolve_json_path doc f) fields)).
  { intros fields. split.
    - induction fields as [|f fields IH]; cbn; [constructor|]. pose proof (length_omap_le (fun f => resolve_json_path doc f) fields).
      unfold lenZ. destruct (resolve_json_path doc f) as [w|] eqn:E; cbn; intros Hl; [|lia].
      constructor; [done|]. apply IH. unfold lenZ. lia.
    - intros Hf. unfold lenZ. f_equal. symmetry. by eapply Forall2_length. }
  destruct (Z.eqb_spec (lenZ (omap (fun f => resolve_json_path doc f) (idx_fields def))) (lenZ (idx_fields def))) as [E|E].
  - apply Hiff in E. split.
    + intros [= <-]. eauto.
    + intros (ws & Hws & ->). do 2 f_equal. clear -E Hws. remember (omap _ _) as us eqn:Hus. clear Hus.
      revert us E; induction Hws as [|f w fs ws Hw _ IH]; intros us E; inversion E; subst; [done|]. f_equal; [congruence|]. auto.
  - split; [done|]. intros (ws & Hws & _). exfalso. apply E, Hiff.
    assert (omap (fun f => resolve_json_path doc f) (idx_fields def) = ws) as ->; [|done].
    clear -Hws. induction Hws as [|f w fs ws Hw _ IH]; cbn; [done|]. by rewrite Hw, IH.
Qed.
End find_compound.

(** ** What the plans assume of the data *)

Section assumptions.
Context `{SerdeJson} `{BackendLaws} `{RegexLib}.
Context (m : IndexManager) (c : string) (docs : gmap string Value).

(** Every document a filter selects is in every compound index. *)
Definition dense (P : Value -> bool) : Prop :=
  forall kv id doc, kv ∈ m -> kv.1.1 = c -> is_compound (entry_def kv.2) = true -> docs !! id = Some doc -> P doc = true ->
    Forall (fun g => is_Some (resolve_json_path doc g)) (idx_fields (entry_def kv.2)).
Lemma dense_mono (P Q : Value -> bool) : (forall doc, Q doc = true -> P doc = true) -> dense P -> dense Q.
Proof. intros Hpq Hd kv id doc Hin Hcol Hcomp Hdoc Hq. apply (Hd kv id doc); auto. Qed.

(** A range is only read off the last field of a compound index: behind it,
    keys of equal values do not compare as the bounds assume. *)
Definition ranges_last (children : list FilterNode) : Prop := forall kv g n, kv ∈ m -> kv.1.1 = c -> g ∈ (range_bounds children).*1 ->
  idx_fields (entry_def kv.2) !! n = Some g -> n <> 0%nat -> S n = length (idx_fields (entry_def kv.2)).

(** Filters whose conditions the indexes and the evaluation agree on. *)
Fixpoint filter_ok (f : FilterNode) : Prop :=
  let fix all l := match l with [] => True | n :: l => filter_ok n /\ all l end in
  match f with
  | Comparison field op v => leaf_ok docs field op v
  | And children => all children /\ one_each children /\ ranges_last children
  | Or children => all children
  | _ => True
  end.
Lemma filter_ok_children f n : match f with And l | Or l => n ∈ l | _ => False end -> filter_ok f -> filter_ok n.
Proof.
  assert (Hall : forall l, n ∈ l -> (fix all l := match l with [] => True | n :: l => filter_ok n /\ all l end) l -> filter_ok n).
  { induction l as [|n' l IH]; [by intros ?%elem_of_nil|]. intros [->|Hn]%elem_of_cons [Hn' Hl]; auto. }
  destruct f as [?|?|l|l|?]; try done; cbn; intros Hn; [intros [Ha _]|intros Ha]; by apply (Hall l).
Qed.
End assumptions.

Section compound_plans.
Context `{SerdeJson} `{!SerdeLaws} `{BackendLaws} `{StorageSerde} `{RegexLib} `{ScanAccelerator} `{!BitmapScans}.
Context (s : Storage) (d : gmap string (gmap string Value)) (c : string) (docs : gmap string Value).
Context (Hi : core_inv s d) (Hc : d !! c = Some docs).
Abbreviation m := (index_manager s).

Lemma found_partition names def p n : found_index m c names def p n ->
  get_index_partition m c (idx_name def) = Some p /\ known_partition (eng s) p docs /\ index_holds (eng s) def p docs.
Proof.
  intros (kv & Hin & Hcol & <- & <- & _). pose proof (entry_holds s d c docs Hi Hc kv Hin Hcol) as Hix.
  pose proof Hi as [Hh _ _ _ Hv]. destruct (vi_registry _ _ _ Hv) as (Hnd & Hreg & _).
  rewrite Forall_forall in Hreg. destruct (Hreg kv Hin) as (Hkey & _). split_and!; [|by eapply index_known; [..|apply (docs_all_ok s d c)]|done].
  unfold get_index_partition. assert (Hk : kv.1 = (c, idx_name (entry_def kv.2))) by (rewrite Hkey in Hcol |- *; cbn in Hcol; by rewrite Hcol).
  destruct (List.find _ m) as [kv'|] eqn:E; cbn.
  - apply List.find_some in E as [Hin' E%bool_decide_eq_true]. apply list_elem_of_In in Hin'. do 2 f_equal.
    enough (kv' = kv) as -> by done. apply (NoDup_fmap_inj_on fst m); try done. congruence.
  - exfalso. apply list_elem_of_In in Hin. by apply (List.find_none _ _ E), bool_decide_eq_false in Hin.
Qed.

(** A selection of keys, with a residual, that is a selection of documents. *)
Lemma compound_selects P names def p n (sel : entry -> bool) post : found_index m c names def p n -> dense m c docs P ->
  (forall id doc ws, docs !! id = Some doc -> Forall2 (fun f w => resolve_json_path doc f = Some w) (idx_fields def) ws ->
     sel (make_compound_index_key ws id, []) && passes post doc = P doc) ->
  selects docs P post (entry_ids (List.filter sel (contents (eng s) p))).
Proof.
  intros Hf Hdense Hsel. destruct (found_partition _ _ _ _ Hf) as (_ & Hk & Hix).
  destruct Hf as (kv & Hin & Hcol & <- & <- & Hcomp & _). pose proof Hi as [Hh _ _ _ _].
  destruct (select_ids (eng s) _ _ docs sel Hh Hix (docs_all_ok s d c docs Hi Hc)) as [Hnd Hids].
  split; [done|]. split.
  - apply Forall_forall. intros id (doc & k & Hd & _)%Hids. by exists doc.
  - intros id doc Hd. rewrite Hids. split.
    + intros Hm. specialize (Hdense kv id doc Hin Hcol Hcomp Hd Hm).
      assert (exists ws, Forall2 (fun f w => resolve_json_path doc f = Some w) (idx_fields (entry_def kv.2)) ws) as [ws Hws].
      { clear -Hdense. induction Hdense as [|g fs [w Hw] _ [ws IH]]; [by exists []|]. exists (w :: ws). by constructor. }
      rewrite <- (Hsel id doc ws Hd Hws) in Hm. apply andb_prop in Hm as [Hs Hp]. split; [|done].
      exists doc, (make_compound_index_key ws id). split_and!; try done. apply compound_entry_key; eauto.
    + intros [(doc' & k & Hd' & Hk' & Hs) Hp]. assert (doc' = doc) as -> by congruence.
      apply compound_entry_key in Hk' as (ws & Hws & ->); [|done]. rewrite <- (Hsel id doc ws) by done. by rewrite Hs, Hp.
Qed.

Context (children : list FilterNode).
Context (Hleaf : forall f op v, Comparison f op v ∈ children -> leaf_ok docs f op v).
Context (Hone : one_each children).
Context (Hdense : dense m c docs (matches (And children))).

(** The values and keys of the covered equalities. *)
Lemma covered_key def p n vals id doc ws : found_index m c (eq_pairs children).*1 def p n ->
  mapM (pair_value (eq_pairs children)) (take n (idx_fields def)) = Some vals ->
  docs !! id = Some doc -> Forall2 (fun f w => resolve_json_path doc f = Some w) (idx_fields def) ws ->
  vals <> [] /\ length vals = n /\ length ws = length (idx_fields def) /\ (n <= length (idx_fields def))%nat /\
  Forall field_safe vals /\ Forall field_safe (take n ws) /\
  forallb (fun n => matches n doc) (List.filter (covered_eq (take n (idx_fields def))) children) = all_equal vals (take n ws).
Proof.
  intros (kv & _ & _ & _ & _ & _ & Hn & Hn0) Hvals Hd Hws. destruct Hone as (Hnd & _).
  pose proof (count_matched_spec (eq_pairs children).*1 (idx_fields def)) as [Hle Hin]. rewrite <- Hn in Hle, Hin.
  assert (Hlen : length vals = n).
  { apply mapM_Some in Hvals. apply Forall2_length in Hvals. rewrite length_take in Hvals. lia. }
  assert (Hws' : Forall2 (fun f w => resolve_json_path doc f = Some w) (take n (idx_fields def)) (take n ws)) by by apply Forall2_take.
  assert (Hsafe : Forall2 (fun v w => field_safe v /\ field_safe w) vals (take n ws)).
  { apply mapM_Some in Hvals. clear -Hvals Hws' Hnd Hleaf Hd. revert vals Hvals.
    induction Hws' as [|f w fs us Hw _ IH]; intros vals Hvals; inversion Hvals as [|? v ? vs Hv Hvs]; subst; constructor; [|by apply IH].
    apply pair_value_spec, elem_eq_pairs, Hleaf in Hv; [|done]. destruct Hv as [Hv Hst]. split; [done|]. apply Hst. by exists id, doc. }
  split_and!; try done.
  - intros ->. cbn in Hlen. by subst n.
  - symmetry. by eapply Forall2_length.
  - clear -Hsafe. induction Hsafe as [|??????]; constructor; tauto.
  - clear -Hsafe. induction Hsafe as [|??????]; constructor; tauto.
  - eapply covered_conjuncts; try done. intros f v Hf. by apply Hleaf.
Qed.

Lemma all_equal_take vals ws : all_equal vals (take (length vals) ws) = all_equal vals ws.
Proof.
  unfold all_equal. revert ws; induction vals as [|v vals IH]; intros [|w ws]; try done. cbn. f_equal. apply IH.
Qed.

Lemma compound_eq_sound plan : try_compound_eq m c children (And children) = Some plan ->
  scan_covers s c docs (scan_of plan) (And children) (post_filter plan).
Proof.
  unfold try_compound_eq. case_bool_decide; [done|].
  destruct (find_compound_index m c (eq_pairs children).*1 []) as [[[def p] n]|] eqn:Ef; cbn; [|done].
  apply find_compound_spec in Ef as [Hf _]. destruct (found_partition _ _ _ _ Hf) as (Hp & Hk & _).
  destruct (covered_values (eq_pairs children) (take n (idx_fields def))) as (vals & Hvals).
  { destruct Hf as (kv & _ & _ & _ & _ & _ & -> & _). apply count_matched_spec. }
  rewrite (prefix_from_spec _ _ vals Hvals). cbn. intros [= <-]. cbn [scan_of post_filter].
  eexists p, _. split_and!; [unfold plan_shapes; rewrite Hp; reflexivity|done|].
  rewrite shape_ids_cons, shape_list_prefix. cbn [shape_ids]. unfold shape_ids. cbn [mbind list_bind]. rewrite app_nil_r.
  apply (compound_selects _ (eq_pairs children).*1 def p n); try done.
  intros id doc ws Hd Hws.
  destruct (covered_key def p n vals id doc ws Hf Hvals Hd Hws) as (Hne & Hl & Hlw & Hle & Hsv & Hsw & Hcov).
  rewrite residual_passes. cbn [matches]. rewrite (forallb_split (covered_eq (take n (idx_fields def))) children doc).
  unfold uncovered. f_equal. rewrite Hcov. unfold has_prefix. cbn [fst]. rewrite make_compound_index_key_spec.
  replace (take n ws) with (take (length vals) ws) by (by rewrite Hl). rewrite all_equal_take. rewrite <- (compound_prefix ws vals (str_bytes id)); [|done|lia|done|by rewrite Hl].
  by rewrite Hl, Hlw.
Qed.

(** The conjunction as equalities, a range and a rest. *)
Lemma range_split g covered doc :
  forallb (fun n => matches n doc) children =
  forallb (fun n => matches n doc) (List.filter (covered_eq covered) children) &&
  (forallb (fun n => matches n doc) (List.filter (on_range g) children) &&
   forallb (fun n => matches n doc) (List.filter (fun n => negb (covered_eq covered n) && negb (on_range g n)) children)).
Proof.
  rewrite (forallb_split (covered_eq covered) children doc), (forallb_split (on_range g) (List.filter (fun n => negb (covered_eq covered n)) children) doc).
  rewrite !filter_filter_and. do 3 f_equal. apply List.filter_ext. intros n. destruct n as [f [] v|?|?|?|?]; cbn; by rewrite ?andb_false_r, ?andb_true_r.
Qed.

(** A range conjunct is a bound, and the other way around. *)
Lemma bound_leaf g v i n : n ∈ children -> lower_bound n = Some (g, (v, i)) \/ upper_bound n = Some (g, (v, i)) ->
  exists op, n = Comparison g op v /\ is_range op = true /\ field_safe v /\
    forall w, stored docs g w -> field_safe w /\ values_agree w v.
Proof.
  intros Hn Hb. destruct n as [f op u|?|?|?|?]; [|by destruct Hb..].
  assert (E : f = g /\ u = v /\ is_range op = true) by (destruct op, Hb as [Hb|Hb]; cbn in Hb; by simplify_eq).
  destruct E as (-> & -> & Er). exists op. split; [done|]. split; [done|].
  specialize (Hleaf g op v Hn). by destruct op.
Qed.
Lemma bounds_of g : let b := bounds_at g (range_bounds children) in
  is_Some b.1 \/ is_Some b.2 -> bounds_safe b.1 /\ bounds_safe b.2 /\ forall w, stored docs g w -> field_safe w.
Proof.
  intros b Hsome. destruct (range_bounds_from children) as [_ Hfrom]. destruct (Hfrom g) as (Hlo & Hup & _). fold b in Hlo, Hup.
  destruct b as [lo up]. cbn [fst snd] in *.
  assert (Hl : forall v i, lo = Some (v, i) -> field_safe v /\ forall w, stored docs g w -> field_safe w).
  { intros v i E. destruct (Hlo (v, i) E) as (n & Hn & Eb). destruct (bound_leaf g v i n Hn (or_introl Eb)) as (_ & _ & _ & Hs & Hw).
    split; [done|]. intros w Hst. by apply Hw. }
  assert (Hu : forall v i, up = Some (v, i) -> field_safe v /\ forall w, stored docs g w -> field_safe w).
  { intros v i E. destruct (Hup (v, i) E) as (n & Hn & Eb). destruct (bound_leaf g v i n Hn (or_intror Eb)) as (_ & _ & _ & Hs & Hw).
    split; [done|]. intros w Hst. by apply Hw. }
  split_and!.
  - destruct lo as [[v i]|]; [|done]. apply field_safe_index, (proj1 (Hl v i eq_refl)).
  - destruct up as [[v i]|]; [|done]. apply field_safe_index, (proj1 (Hu v i eq_refl)).
  - destruct Hsome as [[[v i] E]|[[v i] E]]; [apply (Hl v i E)|apply (Hu v i E)].
Qed.
Lemma range_conjuncts g id doc w : docs !! id = Some doc -> resolve_json_path doc g = Some w ->
  let b := bounds_at g (range_bounds children) in
  forallb (fun n => matches n doc) (List.filter (on_range g) children) = lower_sem b.1 w && upper_sem b.2 w.
Proof.
  intros Hd Hw b. destruct Hone as (_ & Hlo & Hup).
  assert (Hag : forall op v, Comparison g op v ∈ children -> is_range op = true -> values_agree w v).
  { intros op v Hin Hr. pose proof (Hleaf g op v Hin) as Hx.
    destruct op; try done; destruct Hx as [_ Hst]; apply Hst; by exists id, doc. }
  pose proof (bounds_sem children g w [] Hlo Hup) as Hb. cbn in Hb. unfold b, range_bounds. rewrite Hb; [|by intros [? ?]..|done].
  clear -Hw. induction children as [|n l IH]; cbn; [done|].
  destruct (on_range g n) eqn:E; cbn; [|done]. rewrite IH. f_equal.
  destruct n as [f op v|?|?|?|?]; try done. cbn in E. apply andb_prop in E as [->%bool_decide_eq_true _]. cbn. by rewrite Hw.
Qed.

Context (hash_order : list (string * (vbound * vbound)) -> list (string * (vbound * vbound))).
Context (Hhash : forall l, hash_order l ≡ₚ l).
(** The field the ladder picks is one of those it tries. *)
Lemma best_range_spec l names b def n g lo up :
  foldl (better_range m c names) b l = Some (def, n, g, lo, up) ->
  b = Some (def, n, g, lo, up) \/ exists p, (g, (lo, up)) ∈ l /\ find_compound_range_index m c names g = Some (def, p, n).
Proof.
  revert b; induction l as [|[h [lo' up']] l IH]; intros b; cbn [foldl]; [by left|].
  intros [E|(p & Hin & E)]%IH; [|right; exists p; split; [by right|done]].
  unfold better_range in E. destruct (find_compound_range_index m c names h) as [[[def' p'] n']|] eqn:Ef; [|by left].
  destruct (match b with None => true | Some _ => _ end); [|by left]. injection E as <- <- <- <- <-.
  right. exists p'. split; [by left|done].
Qed.

Lemma compound_range_sound plan : ranges_last m c children -> try_compound_range hash_order m c children (And children) = Some plan ->
  scan_covers s c docs (scan_of plan) (And children) (post_filter plan).
Proof.
  intros Hlast. unfold try_compound_range. destruct (eq_pairs children) as [|e es] eqn:Ep; [done|]. rewrite <- Ep. clear Ep e es.
  destruct (range_bounds children) as [|x xs] eqn:Eb; [done|]. rewrite <- Eb. clear Eb x xs.
  destruct (foldl _ None _) as [[[[[def n] g] lo] up]|] eqn:E; cbn; [|done].
  apply best_range_spec in E as [E|(p & Hin & E)]; [done|]. rewrite Hhash in Hin.
  apply range_bounds_elem in Hin as Hb. apply (list_elem_of_fmap_2 fst) in Hin as Hg. cbn in Hg.
  apply find_compound_range_spec in E as [Hf Hgn]. destruct (found_partition _ _ _ _ Hf) as (Hp & Hk & _).
  destruct (covered_values (eq_pairs children) (take n (idx_fields def))) as (vals & Hvals).
  { destruct Hf as (kv & _ & _ & _ & _ & _ & -> & _). apply count_matched_spec. }
  rewrite (prefix_from_spec _ _ vals Hvals). cbn. intros [= <-]. cbn [scan_of post_filter].
  assert (Hsome : is_Some lo \/ is_Some up).
  { destruct (range_bounds_from children) as [_ Hfrom]. destruct (Hfrom g) as (_ & _ & Hs). rewrite Hb in Hs. by apply Hs. }
  destruct (bounds_of g) as (Hlo & Hup & Hst); rewrite ?Hb in *; [done|]. cbn [fst snd] in Hlo, Hup.
  assert (Hn : S n = length (idx_fields def)).
  { destruct Hf as (kv & Hkv & Hcol & <- & _ & _ & _ & Hn0). by eapply Hlast. }
  assert (Ebnd : enc_bound lo = bound_bytes lo /\ enc_bound up = bound_bytes up)
    by (by destruct lo as [[? ?]|], up as [[? ?]|]).
  destruct Ebnd as [-> ->]. eexists p, _. split_and!; [unfold plan_shapes; rewrite Hp; reflexivity|done|].
  set (bounds := range_scan_bounds _ _ _).
  assert (Hids : shape_ids (eng s) p (window_shapes bounds) = entry_ids (List.filter (fun x => in_window bounds x.1) (contents (eng s) p))).
  { destruct bounds as [|a b]; cbn [window_shapes].
    - unfold shape_ids. cbn. by rewrite filter_all_false.
    - rewrite shape_ids_cons, shape_list_range. unfold shape_ids. cbn [mbind list_bind]. by rewrite app_nil_r. }
  rewrite Hids. apply (compound_selects _ (eq_pairs children).*1 def p n); try done.
  intros id doc ws Hd Hws.
  destruct (covered_key def p n vals id doc ws Hf Hvals Hd Hws) as (Hne & Hl & Hlw & Hle & Hsv & Hsw & Hcov).
  destruct (Forall2_lookup_l _ _ _ _ _ Hws Hgn) as (w & Hwn & Hw).
  assert (Ews : ws = take n ws ++ [w]).
  { rewrite <- (take_drop n ws) at 1. f_equal. apply list_eq. intros [|i]; rewrite lookup_drop; cbn; [by rewrite Nat.add_0_r|].
    apply lookup_ge_None. lia. }
  rewrite residual_passes. cbn [matches]. rewrite (range_split g (take n (idx_fields def)) doc), andb_assoc. f_equal.
  rewrite Hcov, (range_conjuncts g id doc w Hd Hw). rewrite Hb. cbn [fst snd]. rewrite Ews at 1.
  apply compound_window; try done.
  - destruct (docs_all_ok s d c docs Hi Hc id doc Hd) as (? & _). done.
  - apply field_safe_index, Hst. by exists id, doc.
  - rewrite length_take. lia.
Qed.
End compound_plans.

(** ** Single conditions of a conjunction *)

Section first_indexed.
Context `{SerdeJson} `{!SerdeLaws} `{BackendLaws} `{RegexLib} `{ScanAccelerator} `{!BitmapScans}.
Context (m : IndexManager) (c : string).
Context (hash_order : list (string * (vbound * vbound)) -> list (string * (vbound * vbound))).
Context (Hhash : forall l, hash_order l ≡ₚ l).

Lemma first_indexed_spec i children j scan : first_indexed m c i children = Some (j, scan) ->
  exists k field op v, j = (i + k)%nat /\ children !! k = Some (Comparison field op v) /\
    try_index_comparison m c field op v = Some scan.
Proof.
  revert i; induction children as [|n children IH]; intros i; cbn [first_indexed]; [done|].
  assert (Hrec : first_indexed m c (S i) children = Some (j, scan) -> exists k field op v, j = (i + k)%nat /\
    (n :: children) !! k = Some (Comparison field op v) /\ try_index_comparison m c field op v = Some scan).
  { intros (k & f & op & v & -> & Hk & E)%IH. exists (S k), f, op, v. split_and!; [lia|done..]. }
  destruct n as [f op v|?|?|?|?]; try done. destruct (try_index_comparison m c f op v) as [p|] eqn:E; [|done].
  intros [= <- <-]. exists 0%nat, f, op, v. split_and!; [lia|done..].
Qed.
Lemma first_indexed_none i children field op v : first_indexed m c i children = None ->
  Comparison field op v ∈ children -> try_index_comparison m c field op v = None.
Proof.
  revert i; induction children as [|n children IH]; intros i; cbn [first_indexed]; [by intros _ ?%elem_of_nil|].
  intros E [<-|Hin]%elem_of_cons.
  - by destruct (try_index_comparison m c field op v).
  - destruct n as [f op' v'|?|?|?|?]; try (by eapply IH). destruct (try_index_comparison m c f op' v'); [done|]. by eapply IH.
Qed.

(** The merge of two bounds of a field never runs: its index would have
    served either bound before. *)
Lemma range_from_and_dead children : first_indexed m c 0 children = None -> try_range_from_and hash_order m c children = None.
Proof.
  intros Hnone. unfold try_range_from_and.
  destruct (head _) as [p|] eqn:E; [|done]. exfalso.
  assert (p ∈ omap (merged_range m c) (hash_order (range_bounds children))) as ([g [lo up]] & Hin & Hm)%list_elem_of_omap.
  { destruct (omap _ _); [done|]. injection E as ->. by left. }
  rewrite Hhash in Hin. apply range_bounds_elem in Hin as Hb. cbn in Hm. destruct lo as [[v i]|], up as [b|]; try done.
  destruct (get_index_for_field m c g) as [[def p']|] eqn:Hg; [|done].
  destruct (range_bounds_from children) as [_ Hfrom]. destruct (Hfrom g) as (Hlo & _). rewrite Hb in Hlo.
  destruct (Hlo (v, i) eq_refl) as (n & Hn & En). destruct n as [f op u|?|?|?|?]; try done.
  assert (f = g) as -> by (destruct op; cbn in En; by simplify_eq).
  pose proof (first_indexed_none 0 children g op u Hnone Hn) as Hx. unfold try_index_comparison in Hx. rewrite Hg in Hx.
  by destruct op.
Qed.

End first_indexed.

(** ** The plan of a query *)

Section planning.
Context `{SerdeJson} `{!SerdeLaws} `{BackendLaws} `{StorageSerde} `{RegexLib} `{ScanAccelerator} `{!BitmapScans}.
Context (s : Storage) (d : gmap string (gmap string Value)) (c : string) (docs : gmap string Value).
Context (Hi : core_inv s d) (Hc : d !! c = Some docs).
Context (hash_order : list (string * (vbound * vbound)) -> list (string * (vbound * vbound))).
Context (Hhash : forall l, hash_order l ≡ₚ l).
Abbreviation m := (index_manager s).

Lemma without_split {A} k (l : list A) x : l !! k = Some x -> l = take k l ++ x :: drop (S k) l.
Proof. intros Hk. symmetry. by apply take_drop_middle. Qed.
Lemma first_indexed_covers children k n ids : children !! k = Some n -> covers docs n None ids ->
  covers docs (And children) (residual (without k children)) ids.
Proof.
  intros Hk (Hnd & Hall & Hcov). split; [done|]. split; [done|]. intros id doc Hd. rewrite residual_passes. cbn [matches].
  unfold without. rewrite (without_split k children n Hk) at 1. rewrite !forallb_app. cbn [forallb].
  specialize (Hcov id doc Hd). cbn [passes] in Hcov.
  destruct (matches n doc), (forallb _ (take k children)), (forallb _ (drop (S k) children)); cbn; naive_solver.
Qed.
Lemma first_indexed_sound children j scan : filter_ok m c docs (And children) -> first_indexed m c 0 children = Some (j, scan) ->
  scan_covers s c docs scan (And children) (residual (without j children)).
Proof.
  intros Hok (k & f & op & v & -> & Hk & E)%first_indexed_spec. cbn [Nat.add].
  assert (Hleaf : leaf_ok docs f op v).
  { apply (filter_ok_children m c docs (And children) (Comparison f op v)); [by eapply list_elem_of_lookup_2|done]. }
  destruct (comparison_sound s d c docs Hi Hc f op v scan Hleaf E) as (p & shapes & Hp & Hkn & Hcov).
  exists p, shapes. split_and!; [done..|]. by apply (first_indexed_covers children k (Comparison f op v)).
Qed.

(** The ladder of a conjunction. *)
Lemma plan_and_sound children plan : filter_ok m c docs (And children) -> dense m c docs (matches (And children)) ->
  plan_and hash_order m c children (And children) = Some plan ->
  scan_covers s c docs (scan_of plan) (And children) (post_filter plan).
Proof.
  intros Hok Hdense. unfold plan_and.
  assert (Hleaf : forall f op v, Comparison f op v ∈ children -> leaf_ok docs f op v)
    by (intros f op v Hin; by apply (filter_ok_children m c docs (And children) (Comparison f op v))).
  destruct Hok as (Hok0 & Hone & Hlast) eqn:Hokq. clear Hokq.
  destruct (try_compound_eq m c children (And children)) as [p1|] eqn:E1; cbn [or_plan].
  { intros [= <-]. by apply (compound_eq_sound s d c docs Hi Hc children). }
  destruct (try_compound_range hash_order m c children (And children)) as [p2|] eqn:E2; cbn [or_plan].
  { intros [= <-]. by apply (compound_range_sound s d c docs Hi Hc children Hleaf Hone Hdense hash_order). }
  destruct (first_indexed m c 0 children) as [[j scan]|] eqn:E3; cbn.
  - intros [= <-]. cbn [scan_of post_filter]. by apply first_indexed_sound.
  - by rewrite range_from_and_dead.
Qed.

(** An arm of a union is a superset of its matches, and exact if it says so. *)
Lemma or_arm_sound arm scan exact : filter_ok m c docs arm -> dense m c docs (matches arm) ->
  plan_or_arm hash_order m c arm = Some (scan, exact) ->
  exists post, scan_covers s c docs scan arm post /\ (exact = true -> post = None).
Proof.
  intros Hok Hdense. destruct arm as [f op v|?|children|?|?]; try done; cbn [plan_or_arm].
  - destruct (try_index_comparison m c f op v) as [p|] eqn:E; [|done]. intros [= <- <-]. exists None.
    split; [|done]. by apply (comparison_sound s d c docs).
  - assert (Hleaf : forall f op v, Comparison f op v ∈ children -> leaf_ok docs f op v)
      by (intros f op v Hin; by apply (filter_ok_children m c docs (And children) (Comparison f op v))).
    pose proof Hok as (_ & Hone & Hlast).
    destruct (try_compound_eq m c children (And children)) as [p1|] eqn:E1.
    { intros [= <- <-]. exists (post_filter p1). split; [by apply (compound_eq_sound s d c docs Hi Hc children)|].
      by intros ?%bool_decide_eq_true. }
    destruct (try_compound_range hash_order m c children (And children)) as [p2|] eqn:E2.
    { intros [= <- <-]. exists (post_filter p2).
      split; [by apply (compound_range_sound s d c docs Hi Hc children Hleaf Hone Hdense hash_order)|].
      by intros ?%bool_decide_eq_true. }
    destruct (first_indexed m c 0 children) as [[j sc]|] eqn:E3.
    + intros [= <- <-]. exists (residual (without j children)). split; [by apply first_indexed_sound|done].
    + by rewrite range_from_and_dead.
Qed.

Lemma or_union_sound children plan : filter_ok m c docs (Or children) -> dense m c docs (matches (Or children)) ->
  try_or_union hash_order m c children (Or children) = Some plan ->
  exists arms, scan_of plan = OrUnion arms /\ Forall (fun arm => is_Some (plan_shapes m c arm)) arms /\
    covers docs (Or children) (post_filter plan) (union_ids_of c (eng s) m arms).
Proof.
  intros Hok Hdense. unfold try_or_union. destruct children as [|n0 children0] eqn:Ech; [done|]. rewrite <- Ech in *. clear Ech n0 children0.
  destruct (mapM (plan_or_arm hash_order m c) children) as [arms|] eqn:E; cbn; [|done]. intros [= <-]. cbn [scan_of post_filter].
  exists arms.*1. split; [done|]. apply mapM_Some in E.
  assert (Hs : Forall2 (fun n arm => exists post, scan_covers s c docs arm.1 n post /\ (arm.2 = true -> post = None)) children arms).
  { assert (Hall : forall n, n ∈ children -> filter_ok m c docs n /\ dense m c docs (matches n)).
    { intros n Hn. split; [by apply (filter_ok_children m c docs (Or children))|]. eapply dense_mono; [|exact Hdense].
      intros doc Hm. cbn [matches]. apply existsb_exists. exists n. split; [by apply list_elem_of_In|done]. }
    clear Hok Hdense. induction E as [|n [scan exact] ns arms En _ IH]; constructor.
    - destruct (Hall n) as [Hn1 Hn2]; [by left|]. by apply or_arm_sound.
    - apply IH. intros n' Hn'. apply Hall. by right. }
  assert (Hshapes : Forall (fun arm => is_Some (plan_shapes m c arm)) arms.*1).
  { apply Forall_fmap. clear -Hs. induction Hs as [|n arm ns arms (post & (p & shapes & Hp & _) & _) _ IH]; constructor; [by eexists|done]. }
  split; [done|]. destruct (union_ids_spec c (eng s) m arms.*1) as [Hnd Hin].
  assert (Harm : forall n arm post, scan_covers s c docs arm n post -> covers docs n post (arm_ids c (eng s) m arm)).
  { intros n arm post (p & shapes & Hp & _ & Hcov). unfold arm_ids. by rewrite Hp. }
  split; [done|]. split.
  - apply Forall_forall. intros id (arm1 & Harm1 & Hid)%Hin. apply list_elem_of_fmap in Harm1 as (arm & -> & Ha).
    destruct (Forall2_in_r _ _ _ _ Hs Ha) as (n & _ & post & Hsc & _).
    destruct (Harm n arm.1 post Hsc) as (_ & Hall & _). rewrite Forall_forall in Hall. by apply Hall.
  - intros id doc Hd. rewrite Hin. split.
    + intros Hm. split.
      * cbn [matches] in Hm. apply existsb_exists in Hm as (n & Hn%list_elem_of_In & Hm).
        apply list_elem_of_lookup in Hn as (k & Hk). destruct (Forall2_lookup_l _ _ _ _ _ Hs Hk) as (arm & Ha & post & Hsc & _).
        apply list_elem_of_lookup_2 in Ha. exists arm.1. split; [by apply (list_elem_of_fmap_2 fst)|].
        destruct (Harm n arm.1 post Hsc) as (_ & _ & Hcov). by apply (Hcov id doc).
      * destruct (forallb snd arms); done.
    + intros [(arm1 & Harm1 & Hid) Hp]. destruct (forallb snd arms) eqn:Eex; [|done].
      apply list_elem_of_fmap in Harm1 as (arm & -> & Ha).
      apply list_elem_of_lookup in Ha as (k & Hk). destruct (Forall2_lookup_r _ _ _ _ _ Hs Hk) as (n & Hn & post & Hsc & Hex).
      apply list_elem_of_lookup_2 in Hk as Ha. rewrite forallb_forall in Eex.
      rewrite Hex in Hsc by (apply Eex, list_elem_of_In, Ha).
      destruct (Harm n arm.1 None Hsc) as (_ & _ & Hcov).
      cbn [matches]. apply existsb_exists. exists n. split; [by apply list_elem_of_In; eapply list_elem_of_lookup_2|].
      by apply (Hcov id doc).
Qed.
End planning.
