(* ===== verification/Walks.v ===== *)
(** * Sorted walks of a compound index

    A query whose equalities and sort fields are a prefix of a compound index
    is answered by walking the index, in either direction, from the cursor's
    key on: the walk meets the matches in sort order and stops one document
    past the page. *)

From S2P Require Import Prelude Bytes F64 Json Errors Externals Filter Secondary Sort Cursor Parser Backend Index Storage Document Consistency Mutations Page Planner Executor Compound Execution Plans.

(** ** The walk *)

Section walk.
Context `{SerdeJson} `{!SerdeLaws} `{BackendLaws} `{StorageSerde} `{RegexLib} `{ScanAccelerator}.

Lemma walk_fold_bare e p docs offset limit L w :
  serves e p docs -> known_entries docs L -> 0 <= entry_skip w -> lenZ (found w) <= limit ->
  found (fold_entries (walk_visit e p None offset limit) L w) =
  found w ++ takeZ (limit + 1 - lenZ (found w)) (dropZ (entry_skip w) (documents docs (entry_ids L))).
Proof.
  intros Hs Hk. rewrite takeZ_take, dropZ_drop.
  revert w Hk; induction L as [|[k v] L IH]; intros w Hk Hskip Hlen; cbn [fold_entries].
  { cbn. by rewrite drop_nil, take_nil, app_nil_r. }
  apply known_cons in Hk as (id & doc & E & Hd & Hk & -> & ->). unfold walk_visit at 1.
  destruct (Z.ltb_spec 0 (entry_skip w)) as [Hpos|Hzero].
  { rewrite IH by (cbn; done || lia). cbn [entry_skip found].
    by replace (Z.to_nat (entry_skip w)) with (S (Z.to_nat (entry_skip w - 1))) by lia. }
  rewrite (hydrate_ok e p docs k id), Hd by done. cbn [passes negb]. rewrite bool_decide_false by (by intros []).
  cbn [andb found entry_skip skipped walked].
  replace (Z.to_nat (entry_skip w)) with 0%nat by lia. rewrite drop_0, lenZ_app. change (lenZ [doc]) with 1.
  destruct (Z.ltb_spec limit (lenZ (found w) + 1)).
  - by replace (Z.to_nat (limit + 1 - lenZ (found w))) with 1%nat by lia.
  - rewrite IH by (cbn [found entry_skip]; rewrite ?lenZ_app; done || (unfold lenZ in *; cbn; lia)).
    cbn [found entry_skip]. rewrite lenZ_app. change (lenZ [doc]) with 1.
    replace (Z.to_nat (entry_skip w)) with 0%nat by lia. rewrite drop_0, <- app_assoc.
    by replace (Z.to_nat (limit + 1 - lenZ (found w))) with (S (Z.to_nat (limit + 1 - (lenZ (found w) + 1)))) by lia.
Qed.
Lemma walk_fold_filtered e p docs f offset limit L w :
  serves e p docs -> known_entries docs L -> entry_skip w = 0 -> lenZ (found w) <= limit ->
  found (fold_entries (walk_visit e p (Some f) offset limit) L w) =
  found w ++ takeZ (limit + 1 - lenZ (found w)) (dropZ (offset - skipped w) (survivors (Some f) docs (entry_ids L))).
Proof.
  intros Hs Hk. rewrite takeZ_take, dropZ_drop.
  revert w Hk; induction L as [|[k v] L IH]; intros w Hk Hskip Hlen; cbn [fold_entries].
  { cbn. by rewrite drop_nil, take_nil, app_nil_r. }
  apply known_cons in Hk as (id & doc & E & Hd & Hk & -> & Edocs). unfold survivors in *. rewrite Edocs. unfold walk_visit at 1.
  rewrite Hskip. cbn [Z.ltb Z.compare]. rewrite (hydrate_ok e p docs k id), Hd by done. cbn [List.filter passes].
  destruct (matches f doc); cbn [negb]; [|by rewrite IH].
  rewrite bool_decide_true by by eexists. cbn [andb found entry_skip skipped walked].
  destruct (Z.ltb_spec (skipped w) offset).
  { rewrite IH by done. cbn [found skipped].
    by replace (Z.to_nat (offset - skipped w)) with (S (Z.to_nat (offset - (skipped w + 1)))) by lia. }
  replace (Z.to_nat (offset - skipped w)) with 0%nat by lia. rewrite drop_0, lenZ_app. change (lenZ [doc]) with 1.
  destruct (Z.ltb_spec limit (lenZ (found w) + 1)).
  - by replace (Z.to_nat (limit + 1 - lenZ (found w))) with 1%nat by lia.
  - rewrite IH by (cbn [found entry_skip]; rewrite ?lenZ_app; done || (unfold lenZ in *; cbn; lia)).
    cbn [found skipped]. rewrite lenZ_app. change (lenZ [doc]) with 1.
    replace (Z.to_nat (offset - skipped w)) with 0%nat by lia. rewrite drop_0, <- app_assoc.
    by replace (Z.to_nat (limit + 1 - lenZ (found w))) with (S (Z.to_nat (limit + 1 - (lenZ (found w) + 1)))) by lia.
Qed.

(** What the walk collects: the page and its probe. *)
Lemma walk_found e p docs post offset limit L :
  serves e p docs -> known_entries docs L -> 0 <= offset -> 0 <= limit ->
  found (fold_entries (walk_visit e p post offset limit) L
    {| entry_skip := if post then 0 else offset; skipped := 0; walked := 0; found := [] |}) =
  takeZ (limit + 1) (dropZ offset (survivors post docs (entry_ids L))).
Proof.
  intros Hs Hk Ho Hl. destruct post as [f|].
  - rewrite (walk_fold_filtered e p docs) by done. cbn [found skipped app]. change (lenZ []) with 0. by rewrite !Z.sub_0_r.
  - rewrite (walk_fold_bare e p docs) by done. cbn [found entry_skip app]. change (lenZ []) with 0.
    by rewrite Z.sub_0_r, survivors_bare.
Qed.
End walk.

(** ** Sort orders and key orders *)

Section sort_keys.
Context `{SerdeJson} `{!SerdeLaws}.

Definition all_dir (asc : bool) (sfs : list SortField) : Prop := Forall (fun sf => ascending sf = asc) sfs.
Definition has_values (doc : Value) (fields : list string) (ws : list Value) : Prop :=
  Forall2 (fun f w => resolve_json_path doc f = Some w) fields ws.

Lemma fields_order asc sfs a b ws us : all_dir asc sfs ->
  has_values a (field <$> sfs) ws -> has_values b (field <$> sfs) us ->
  compare_fields sfs a b = cmp_dir asc (values_cmp ws us).
Proof.
  unfold has_values. intros Hd. revert ws us; induction Hd as [|sf sfs Hsf _ IH]; intros ws us Hws Hus;
    inversion Hws as [|? w ? ws' Hw Hws']; subst; inversion Hus as [|? u ? us' Hu Hus']; subst; [by destruct asc|].
  cbn [compare_fields values_cmp]. rewrite Hw, Hu, (IH ws' us') by done. cbn [compare_json_values].
  destruct (ascending sf); cbn; by destruct (compare_values_total w u), (values_cmp ws' us').
Qed.
Lemma tiebreak_dir asc sfs : sfs <> [] -> all_dir asc sfs -> tiebreak_ascending sfs = asc.
Proof.
  intros Hne Hd. unfold tiebreak_ascending. destruct (last sfs) as [sf|] eqn:E; cbn.
  - apply last_Some_elem_of in E. by eapply (proj1 (Forall_forall _ _)) in Hd.
  - by apply last_None in E.
Qed.
Lemma docs_order asc sfs a b ws us i j : sfs <> [] -> all_dir asc sfs ->
  has_values a (field <$> sfs) ws -> has_values b (field <$> sfs) us -> doc_id a = Some i -> doc_id b = Some j ->
  compare_docs sfs a b = cmp_dir asc (then_cmp (values_cmp ws us) (str_cmp i j)).
Proof.
  intros Hne Hd Hws Hus Hia Hib. unfold compare_docs. rewrite compare_docs_fields, (fields_order asc sfs a b ws us) by done.
  cbn [compare_docs_from]. rewrite (tiebreak_dir asc) by done. rewrite Hia, Hib. cbn.
  destruct asc; cbn; by destruct (values_cmp ws us), (str_cmp i j).
Qed.
(** Where a document sits relative to a cursor of present values. *)
Lemma cursor_order asc sfs a ws i cur us : sfs <> [] -> all_dir asc sfs ->
  has_values a (field <$> sfs) ws -> doc_id a = Some i -> sort_values cur = Present <$> us -> length us = length sfs ->
  compare_doc_to_cursor a cur sfs = cmp_dir asc (then_cmp (values_cmp ws us) (str_cmp i (last_id cur))).
Proof.
  intros Hne Hd Hws Hia Hcur Hl. unfold compare_doc_to_cursor. rewrite (tiebreak_dir asc) by done. rewrite Hia, Hcur. cbn.
  clear Hne Hcur. unfold has_values in Hws. revert ws us Hws Hl; induction Hd as [|sf sfs Hsf _ IH]; intros ws us Hws Hl.
  - inversion Hws; subst. destruct us; [done|cbn in Hl; lia].
  - inversion Hws as [|? w ? ws' Hw Hws']; subst. destruct us as [|u us]; [cbn in Hl; lia|]. injection Hl as Hl.
    cbn [fmap list_fmap zip_with compare_to_values values_cmp]. rewrite Hw, (IH ws' us) by done. cbn [compare_json_values].
    destruct (ascending sf); cbn; by destruct (compare_values_total w u), (values_cmp ws' us).
Qed.

Lemma compare_fields_opp sfs a b : compare_fields sfs a b = CompOpp (compare_fields sfs b a).
Proof.
  induction sfs as [|sf sfs IH]; [done|]. cbn [compare_fields].
  rewrite IH, (cmp_opp compare_json_values (resolve_json_path a (field sf))).
  destruct (ascending sf); cbn; by destruct (compare_json_values _ _), (compare_fields sfs b a).
Qed.
Lemma sorted_Forall2 {A B} (R : relation A) (S : relation B) (Q : A -> B -> Prop) l k :
  StronglySorted R l -> Forall2 Q l k -> (forall x y a b, R x y -> Q x a -> Q y b -> S a b) -> StronglySorted S k.
Proof.
  intros Hs Hf HRS. induction Hf as [|x a l k Hxa Hf IH]; [constructor|].
  inversion Hs as [|? ? Hs' Hx]; subst. constructor; [by apply IH|]. apply Forall_forall. intros b Hb.
  destruct (Forall2_in_r _ _ _ _ Hf Hb) as (y & Hy & Hyb). rewrite Forall_forall in Hx. eauto.
Qed.
Lemma sorted_reverse {A} (R : relation A) l : StronglySorted R l -> StronglySorted (flip R) (reverse l).
Proof.
  induction 1 as [|x l Hs IH Hx]; [constructor|]. rewrite reverse_cons.
  assert (Hall : Forall (fun y => R x y) (reverse l)) by (by rewrite reverse_Permutation).
  clear Hs Hx. induction IH as [|y k Hk IHk Hy]; cbn; [repeat constructor|].
  inversion Hall as [|? ? Hxy Hall']; subst. constructor; [by apply IHk|]. apply Forall_app. split; [done|by constructor].
Qed.
End sort_keys.

(** ** Sorted plans *)

Section sorted_plans.
Context `{SerdeJson} `{!SerdeLaws} `{BackendLaws} `{StorageSerde} `{RegexLib} `{ScanAccelerator} `{!BitmapScans}.
Context `{Base64Lib} `{PayloadSerde}.
Context (current : option CancelToken) (Hlive : live current).
Context (s : Storage) (d : gmap string (gmap string Value)) (c : string) (docs : gmap string Value).
Context (Hi : core_inv s d) (Hc : d !! c = Some docs).
Abbreviation m := (index_manager s).

(** A filter as a conjunction. *)
Definition conjuncts (f : FilterNode) : list FilterNode := match f with And l => l | n => [n] end.
Lemma conjuncts_matches f doc : matches (And (conjuncts f)) doc = matches f doc.
Proof. destruct f; cbn; by rewrite ?andb_true_r. Qed.
Lemma conjuncts_pairs f : extract_eq_pairs f = eq_pairs (conjuncts f).
Proof. destruct f as [? [] ?|?|?|?|?]; done. Qed.
Lemma conjuncts_residual f covered doc :
  passes (build_remaining_filter f covered) doc = forallb (fun n => matches n doc) (uncovered covered (conjuncts f)).
Proof.
  rewrite <- residual_passes. destruct f as [g [] v|?|?|?|?]; try done. cbn. by destruct (bool_decide (g ∈ covered)).
Qed.

(** A plan's index, the values of its equalities, its sort fields. *)
Context (f : FilterNode) (def : IndexDef) (partition : PartitionId) (n : nat) (vals : list Value) (sfs : list SortField) (asc : bool).
Abbreviation children := (conjuncts f).
Context (Hleaf : forall g op v, Comparison g op v ∈ children -> leaf_ok docs g op v).
Context (Hone : one_each children) (Hdense : dense (index_manager s) c docs (matches f)).
Context (Hf : found_index m c (eq_pairs children).*1 def partition n).
Context (Hvals : mapM (pair_value (eq_pairs children)) (take n (idx_fields def)) = Some vals).
Context (Hne : sfs <> []) (Hdir : all_dir asc sfs).
Context (Hfit : (n + length sfs <= length (idx_fields def))%nat)
  (Htail : take (length sfs) (drop n (idx_fields def)) = field <$> sfs).
Context (Hsafe : forall sf w, sf ∈ sfs -> stored docs (field sf) w -> field_safe w).
Definition exact_tail : bool := bool_decide ((n + length sfs)%nat = length (idx_fields def)).
Definition prefix : bytes := compound_fields vals ++ [1].
Definition tail_sep : Z := if exact_tail then 0 else 1.

(** A walked entry and its document. *)
Definition row (x : entry) (doc : Value) : Prop := exists id t r,
  docs !! id = Some doc /\ extract_doc_id_from_key x.1 = Some id /\ has_values doc (field <$> sfs) t /\ Forall field_safe t /\
  x.1 = prefix ++ compound_fields t ++ tail_sep :: r /\ (exact_tail = true -> r = str_bytes id).

Lemma tail_values id doc ws : docs !! id = Some doc -> has_values doc (idx_fields def) ws ->
  let t := take (length sfs) (drop n ws) in
  has_values doc (field <$> sfs) t /\ Forall field_safe t /\ length ws = length (idx_fields def).
Proof.
  intros Hd Hws t. assert (Ht : has_values doc (field <$> sfs) t).
  { unfold has_values, t. rewrite <- Htail. by apply Forall2_take, Forall2_drop. }
  split; [done|]. split; [|symmetry; by eapply Forall2_length].
  unfold has_values in Ht. clear -Ht Hsafe Hd. apply Forall2_fmap_l in Ht.
  apply Forall_forall. intros w Hw. destruct (list_elem_of_lookup_1 _ _ Hw) as [i Ei].
  destruct (Forall2_lookup_r _ _ _ _ _ Ht Ei) as (sf & Esf & Hr). apply (Hsafe sf); [by eapply list_elem_of_lookup_2|]. by exists id, doc.
Qed.
(** A key under the prefix. *)
Lemma key_tail id ws : length ws = length (idx_fields def) ->
  all_equal vals (take n ws) = true -> length vals = n -> n <> 0%nat ->
  exists r, make_compound_index_key ws id = prefix ++ compound_fields (take (length sfs) (drop n ws)) ++ tail_sep :: r /\
    (exact_tail = true -> r = str_bytes id).
Proof.
  intros Hlw Heq Hl Hn0. rewrite make_compound_index_key_spec.
  assert (Hls : (0 < length sfs)%nat) by (destruct sfs; [done|cbn; lia]).
  assert (Hpre : compound_fields ws = prefix ++ compound_fields (drop n ws)).
  { rewrite (compound_fields_split n ws) by lia. unfold prefix. rewrite <- app_assoc. cbn. f_equal.
    symmetry. apply all_equal_enc; [rewrite length_take; lia|done]. }
  rewrite Hpre, <- app_assoc. unfold exact_tail, tail_sep, exact_tail. case_bool_decide as Hex.
  - exists (str_bytes id). split; [|done]. do 3 f_equal. rewrite take_ge; [done|]. rewrite length_drop. lia.
  - exists (compound_fields (drop (length sfs) (drop n ws)) ++ 0 :: str_bytes id). split; [|done].
    rewrite (compound_fields_split (length sfs) (drop n ws)) by (rewrite length_drop; lia). by rewrite <- !app_assoc.
Qed.
Lemma entry_row x : x ∈ contents (eng s) partition -> starts_with x.1 prefix = true -> exists doc, row x doc.
Proof.
  destruct x as [k v]. cbn. intros Hin Hpre. destruct (found_partition s d c docs Hi Hc _ _ _ _ Hf) as (_ & _ & Hix).
  apply Hix in Hin as (-> & id & doc & Hd & Hk). exists doc.
  destruct (docs_all_ok s d c docs Hi Hc id doc Hd) as (Hid & _).
  assert (Hcomp : is_compound def = true) by (by destruct Hf as (kv & _ & _ & _ & _ & ? & _)).
  apply (entry_key_id _ _ _ _ Hid) in Hk as He. apply compound_entry_key in Hk as (ws & Hws & ->); [|done].
  destruct (covered_key s c docs children Hleaf Hone def partition n vals id doc ws Hf Hvals Hd Hws)
    as (Hnev & Hl & Hlw & Hle & Hsv & Hsw & _).
  assert (Hls : (0 < length sfs)%nat) by (destruct sfs; [done|cbn; lia]).
  assert (Heq : all_equal vals (take n ws) = true).
  { rewrite make_compound_index_key_spec in Hpre. unfold prefix in Hpre.
    pose proof (compound_prefix ws vals (str_bytes id)) as Hp. rewrite bool_decide_false in Hp by lia.
    rewrite Hp in Hpre by (done || lia || by rewrite Hl). rewrite <- Hl. by rewrite all_equal_take. }
  destruct (tail_values id doc ws Hd Hws) as (Ht & Hts & _).
  destruct (key_tail id ws) as (r & Hkey & Hr); [done|done|done|intros ->; by destruct vals|].
  exists id, (take (length sfs) (drop n ws)), r. split_and!; try done.
Qed.

(** Keys in order are documents in sort order. *)
Lemma row_order x y a b : row x a -> row y b -> bytes_cmp x.1 y.1 = Lt ->
  cmp_dir asc (compare_fields sfs a b) <> Gt /\ (exact_tail = true -> cmp_dir asc (compare_docs sfs a b) <> Gt).
Proof.
  intros (i & t & r & Hda & _ & Ht & Hts & -> & Hr) (j & u & q & Hdb & _ & Hu & Hus & -> & Hq).
  rewrite bytes_cmp_app. pose proof (Forall2_length _ _ _ Ht) as Hlt. pose proof (Forall2_length _ _ _ Hu) as Hlu.
  rewrite length_fmap in Hlt, Hlu.
  rewrite fields_cmp; [|unfold is_sep, tail_sep; destruct exact_tail; auto|intros ->; by destruct sfs|lia|done|done].
  intros Hlt'. rewrite (fields_order asc sfs a b t u) by done. split.
  - destruct (values_cmp t u), asc; cbn in *; congruence.
  - intros Hex. rewrite (docs_order asc sfs a b t u i j); try done.
    + rewrite (Hr Hex), (Hq Hex) in Hlt'. unfold str_cmp, cmp_on. destruct (values_cmp t u), (bytes_cmp (str_bytes i) _), asc; cbn in *; congruence.
    + destruct (docs_all_ok s d c docs Hi Hc i a Hda) as (_ & _ & _ & E). unfold doc_id. by rewrite E.
    + destruct (docs_all_ok s d c docs Hi Hc j b Hdb) as (_ & _ & _ & E). unfold doc_id. by rewrite E.
Qed.

(** *** The window of the walk *)

Lemma compound_fields_bytes ws : Forall is_byte (compound_fields ws).
Proof.
  induction ws as [|w [|u ws] IH]; [constructor|apply enc_bytes|]. rewrite compound_fields_cons.
  apply Forall_app. split; [apply enc_bytes|]. constructor; [done|exact IH].
Qed.
Lemma key_bytes ws id : Forall is_byte (make_compound_index_key ws id).
Proof.
  rewrite make_compound_index_key_spec. apply Forall_app. split; [apply compound_fields_bytes|].
  constructor; [done|apply str_bytes_range].
Qed.
Lemma prefix_range k : Forall is_byte k ->
  starts_with k prefix = bytes_leb prefix k && bytes_ltb k (prefix_successor prefix).
Proof.
  intros Hk. unfold prefix. rewrite (prefix_successor_spec _ 1 0) by done.
  by apply (prefix_window_split (compound_fields vals) 1 0).
Qed.

(** A cursor of the plan: present values, on an exact index. *)
Definition cursor_ok (cursor : option Cursor) : Prop :=
  match cursor with
  | Some cur => exact_tail = true /\ exists us, sort_values cur = Present <$> us /\ length us = length sfs /\ Forall field_safe us
  | None => True
  end.
Lemma present_present us : present_values (Present <$> us) = us.
Proof. induction us as [|u us IH]; [done|]. unfold present_values in *. cbn in *. by rewrite IH. Qed.

Lemma bytes_le_app q a : bytes_leb q (q ++ a) = true.
Proof. unfold bytes_leb. rewrite <- (app_nil_r q) at 1. rewrite bytes_cmp_app. by destruct a. Qed.
Lemma bytes_leb_trans a b k : bytes_leb a b = true -> bytes_leb b k = true -> bytes_leb a k = true.
Proof.
  unfold bytes_leb. intros Hab Hbk. pose proof (cmp_le_trans bytes_cmp a b k) as Ht.
  destruct (bytes_cmp a b), (bytes_cmp b k), (bytes_cmp a k); try done; by exfalso; apply Ht.
Qed.
Lemma bytes_ltb_trans a b k : bytes_ltb a b = true -> bytes_ltb b k = true -> bytes_ltb a k = true.
Proof.
  unfold bytes_ltb. intros Hab Hbk. destruct (bytes_cmp a b) eqn:E1; try done. destruct (bytes_cmp b k) eqn:E2; try done.
  by rewrite (cmp_lt_le_trans bytes_cmp a b k) by (done || by rewrite E2).
Qed.

(** Between the bounds of the walk: the prefix's values, past the cursor. *)
Lemma walk_window cursor id doc ws : cursor_ok cursor -> docs !! id = Some doc -> has_values doc (idx_fields def) ws ->
  length vals = n -> vals <> [] -> Forall field_safe vals -> Forall field_safe (take n ws) ->
  let '(lo, hi) := sorted_bounds prefix (negb asc) cursor in
  in_range lo hi (make_compound_index_key ws id, []) = all_equal vals (take n ws) && beyond cursor sfs doc.
Proof.
  intros Hcur Hd Hws Hl Hnev Hsv Hsw. destruct (tail_values id doc ws Hd Hws) as (Ht & Hts & Hlw).
  set (k := make_compound_index_key ws id) in *. assert (Hkb : Forall is_byte k) by apply key_bytes.
  assert (Hls : (0 < length sfs)%nat) by (destruct sfs; [done|cbn; lia]).
  assert (Hpre : starts_with k prefix = all_equal vals (take n ws)).
  { unfold k, prefix. rewrite make_compound_index_key_spec. pose proof (compound_prefix ws vals (str_bytes id)) as Hp.
    rewrite bool_decide_false in Hp by lia. rewrite Hp by (done || lia || by rewrite Hl).
    rewrite <- Hl. by rewrite all_equal_take. }
  pose proof (prefix_range k Hkb) as Hr. rewrite Hpre in Hr.
  destruct cursor as [cur|]; cbn [sorted_bounds]; [|unfold in_range; cbn [fst beyond]; by rewrite andb_true_r, Hr].
  destruct Hcur as [Hex (us & Hus & Hlu & Hsu)].
  set (ck := index_cursor_key prefix cur).
  assert (Eck : ck = prefix ++ compound_fields us ++ 0 :: str_bytes (last_id cur)).
  { unfold ck, index_cursor_key. by rewrite Hus, present_present, make_compound_index_key_spec. }
  assert (Hckb : bytes_ltb ck (prefix_successor prefix) = true).
  { rewrite Eck. unfold prefix, bytes_ltb. rewrite (prefix_successor_spec _ 1 0), <- !app_assoc, bytes_cmp_app by done. done. }
  assert (Hcmp : all_equal vals (take n ws) = true ->
    beyond (Some cur) sfs doc = match cmp_dir asc (bytes_cmp k ck) with Gt => true | _ => false end).
  { intros Heq. destruct (key_tail id ws) as (r & Hkey & Hrr); [done|done|done|intros ->; by destruct vals|].
    unfold k. rewrite Hkey, Eck, bytes_cmp_app. unfold tail_sep. rewrite Hex, (Hrr Hex).
    rewrite fields_cmp; [|by left|intros E; apply Forall2_length in Ht; rewrite E, length_fmap in Ht; cbn in Ht; lia
      |apply Forall2_length in Ht; rewrite length_fmap in Ht; lia|done|done].
    cbn [beyond]. erewrite (cursor_order asc sfs doc _ id cur us); try done.
    destruct (docs_all_ok s d c docs Hi Hc id doc Hd) as (_ & _ & _ & E). unfold doc_id. by rewrite E. }
  destruct asc; cbn [negb]; unfold in_range; cbn [fst].
  - rewrite after_key by done. destruct (all_equal vals (take n ws)); cbn [andb].
    + symmetry in Hr. apply andb_prop in Hr as [_ ->]. rewrite andb_true_r, Hcmp by done. done.
    + apply not_true_iff_false. intros [Hx1 Hx2]%andb_prop.
      assert (Hle : bytes_leb prefix k = true).
      { apply (bytes_leb_trans _ ck); [rewrite Eck; apply bytes_le_app|]. unfold bytes_leb.
        rewrite (cmp_opp bytes_cmp ck k). by destruct (bytes_cmp k ck). }
      by rewrite Hle, Hx2 in Hr.
  - destruct (all_equal vals (take n ws)); cbn [andb].
    + symmetry in Hr. apply andb_prop in Hr as [-> _]. rewrite Hcmp by done. unfold bytes_ltb. cbn. by destruct (bytes_cmp k ck).
    + apply not_true_iff_false. intros [Hx1 Hx2]%andb_prop.
      rewrite Hx1, (bytes_ltb_trans k ck) in Hr by done. done.
Qed.

Lemma walk_selects cursor : cursor_ok cursor ->
  let '(lo, hi) := sorted_bounds prefix (negb asc) cursor in
  selects docs (fun doc => matches f doc && beyond cursor sfs doc)
    (build_remaining_filter f (take n (idx_fields def)))
    (entry_ids (List.filter (in_range lo hi) (contents (eng s) partition))).
Proof.
  intros Hcur. destruct (sorted_bounds prefix (negb asc) cursor) as [lo hi] eqn:Eb.
  apply (compound_selects s d c docs Hi Hc _ (eq_pairs children).*1 def partition n); [done| |].
  { eapply dense_mono; [|exact Hdense]. intros doc Hm. by apply andb_prop in Hm as [-> _]. }
  intros id doc ws Hd Hws.
  destruct (covered_key s c docs children Hleaf Hone def partition n vals id doc ws Hf Hvals Hd Hws)
    as (Hnev & Hl & Hlw & Hle & Hsv & Hsw & Hcov).
  pose proof (walk_window cursor id doc ws Hcur Hd Hws Hl Hnev Hsv Hsw) as Hw. rewrite Eb in Hw. rewrite Hw.
  rewrite <- (conjuncts_matches f doc). cbn [matches].
  rewrite (forallb_split (covered_eq (take n (idx_fields def))) children doc), Hcov, conjuncts_residual.
  unfold uncovered. by rewrite <- !andb_assoc, (andb_comm (beyond _ _ _)).
Qed.

(** *** The rows of the walk *)

Definition walked_entries (e : engine) (cursor : option Cursor) : list entry :=
  let '(lo, hi) := sorted_bounds prefix (negb asc) cursor in
  let L := List.filter (in_range lo hi) (contents e partition) in
  if asc then L else reverse L.
Definition walk_rows (cursor : option Cursor) : list Value :=
  survivors (build_remaining_filter f (take n (idx_fields def))) docs (entry_ids (walked_entries (eng s) cursor)).

Lemma entry_ids_reverse L : entry_ids (reverse L) = reverse (entry_ids L).
Proof.
  induction L as [|x L IH]; [done|]. rewrite reverse_cons. unfold entry_ids in *. rewrite omap_app, IH. cbn [omap list_omap].
  destruct (extract_doc_id_from_key x.1); [by rewrite reverse_cons|by rewrite app_nil_r].
Qed.
Lemma walk_rows_perm cursor l : cursor_ok cursor -> streamed docs l ->
  walk_rows cursor ≡ₚ List.filter (beyond cursor sfs) (matching (Some f) l).
Proof.
  intros Hcur Hst. unfold matching. rewrite filter_filter_and. cbn [passes].
  apply selects_survivors; [|done|by apply (docs_all_ok s d c)].
  pose proof (walk_selects cursor Hcur) as Hsel. unfold walked_entries.
  destruct (sorted_bounds prefix (negb asc) cursor) as [lo hi]. destruct asc; [done|]. rewrite entry_ids_reverse.
  destruct Hsel as (Hnd & Hall & Hcov). split; [by rewrite reverse_Permutation|]. split; [by rewrite reverse_Permutation|].
  intros id doc Hd. rewrite (Hcov id doc Hd). by rewrite elem_of_reverse.
Qed.

Lemma walked_rows cursor : cursor_ok cursor ->
  Forall2 row (walked_entries (eng s) cursor) (documents docs (entry_ids (walked_entries (eng s) cursor))).
Proof.
  intros Hcur. assert (Hrows : Forall (fun x => exists doc, row x doc) (walked_entries (eng s) cursor)).
  { apply Forall_forall. intros x Hx. unfold walked_entries in Hx.
    destruct (sorted_bounds prefix (negb asc) cursor) as [lo hi] eqn:Eb.
    assert (Hx' : x ∈ List.filter (in_range lo hi) (contents (eng s) partition)) by (destruct asc; [done|by rewrite elem_of_reverse in Hx]).
    apply elem_of_List_filter in Hx' as [Hin Hr]. apply entry_row; [done|].
    destruct x as [k v]. destruct (found_partition s d c docs Hi Hc _ _ _ _ Hf) as (_ & _ & Hix).
    pose proof Hin as Hin'. apply Hix in Hin' as (-> & id & doc & Hd & Hk).
    assert (Hcomp : is_compound def = true) by (by destruct Hf as (kv & _ & _ & _ & _ & ? & _)).
    apply compound_entry_key in Hk as (ws & Hws & ->); [|done].
    destruct (covered_key s c docs children Hleaf Hone def partition n vals id doc ws Hf Hvals Hd Hws)
      as (Hnev & Hl & Hlw & Hle & Hsv & Hsw & _).
    assert (Hls : (0 < length sfs)%nat) by (destruct sfs; [done|cbn; lia]).
    pose proof (walk_window cursor id doc ws Hcur Hd Hws Hl Hnev Hsv Hsw) as Hw. rewrite Eb, Hr in Hw.
    symmetry in Hw. apply andb_prop in Hw as [Heq _]. cbn [fst]. unfold prefix. rewrite make_compound_index_key_spec.
    pose proof (compound_prefix ws vals (str_bytes id)) as Hp. rewrite bool_decide_false in Hp by lia.
    rewrite Hp by (done || lia || by rewrite Hl). rewrite <- all_equal_take. by rewrite Hl. }
  induction Hrows as [|x L [doc Hrow] _ IH]; [constructor|].
  pose proof Hrow as (id & t & r & Hd & He & _). unfold entry_ids. cbn [omap list_omap]. rewrite He, documents_cons, Hd.
  by constructor.
Qed.

Lemma walk_sorted cursor : cursor_ok cursor ->
  StronglySorted (cmp_le (compare_fields sfs)) (walk_rows cursor) /\
  (exact_tail = true -> StronglySorted (cmp_le (compare_docs sfs)) (walk_rows cursor)).
Proof.
  intros Hcur. pose proof (walked_rows cursor Hcur) as Hrows. pose proof Hi as [Hh _ _ _ _].
  assert (Hsorted : StronglySorted (fun x y => bytes_cmp (if asc then x else y).1 (if asc then y else x).1 = Lt)
    (walked_entries (eng s) cursor)).
  { unfold walked_entries. destruct (sorted_bounds prefix (negb asc) cursor) as [lo hi].
    pose proof (sorted_filter entry_lt (in_range lo hi) _ (contents_sorted (eng s) partition Hh)) as Hs.
    destruct asc; [done|]. by apply sorted_reverse in Hs. }
  assert (Hcmp : forall x y a b, bytes_cmp (if asc then x else y).1 (if asc then y else x).1 = Lt -> row x a -> row y b ->
    compare_fields sfs a b <> Gt /\ (exact_tail = true -> compare_docs sfs a b <> Gt)).
  { intros x y a b Hlt Hxa Hyb. pose proof (row_order x y a b Hxa Hyb) as R1. pose proof (row_order y x b a Hyb Hxa) as R2.
    destruct asc; [by apply R1|]. destruct (R2 Hlt) as [Hfo Hex]. cbn in Hfo, Hex.
    split; [by rewrite compare_fields_opp|]. intros Hx. rewrite (cmp_opp (compare_docs sfs)). by apply Hex. }
  split; [|intros Hex]; apply sorted_filter; eapply sorted_Forall2; [exact Hsorted|exact Hrows| |exact Hsorted|exact Hrows|];
    intros x y a b Hlt Hxa Hyb; destruct (Hcmp x y a b Hlt Hxa Hyb) as [H1' H2']; [done|by apply H2'].
Qed.

(** *** The answer *)

Lemma walked_known e cursor : known_partition e partition docs -> known_entries docs (walked_entries e cursor).
Proof.
  unfold known_partition, known_entries, walked_entries. rewrite !Forall_forall. intros Hk x Hx.
  destruct (sorted_bounds prefix (negb asc) cursor) as [lo hi]. apply Hk.
  destruct asc; [|rewrite elem_of_reverse in Hx]; by apply elem_of_List_filter in Hx as [? _].
Qed.
Lemma rows_in_order query l : q_sort query = sfs -> cursor_ok (q_cursor query) -> streamed docs l ->
  exact_tail = true -> walk_rows (q_cursor query) = in_order query (matching (Some f) l).
Proof.
  intros Hsort Hcur Hst Hex. pose proof (docs_all_ok s d c docs Hi Hc) as Hok.
  unfold in_order, remaining. rewrite Hsort. rewrite <- (sort_by_id (compare_docs sfs) (walk_rows _)) by (by apply walk_sorted).
  apply sort_by_unique; [apply _| |by apply walk_rows_perm].
  assert (Hnd : ids_distinct (matching (Some f) l)) by by eapply matching_distinct.
  intros x y Hx Hy E. rewrite (walk_rows_perm _ l Hcur Hst) in Hx, Hy.
  apply elem_of_List_filter in Hx as [Hx _], Hy as [Hy _]. apply compare_docs_from_eq in E.
  by apply (NoDup_fmap_inj_on doc_id (matching (Some f) l)).
Qed.

Lemma sorted_walk_answers query l plan : q_sort query = sfs -> q_count_only query = false -> request_ok query ->
  cursor_ok (q_cursor query) -> streamed docs l ->
  post_filter plan = build_remaining_filter f (take n (idx_fields def)) ->
  executes exact_tail s d (execute_index_sorted current c query plan (idx_name def) prefix (negb asc) exact_tail) query c
    (matching (Some f) l).
Proof.
  intros Hsort Hcount (Ho & Hl & _) Hcur Hst Hpost.
  destruct (found_partition s d c docs Hi Hc _ _ _ _ Hf) as (Hp & Hk & _).
  destruct (open_docs s d c docs Hi Hc) as (s' & E & Hi' & Hss & Hsv & Hcont).
  unfold executes, execute_index_sorted, op_bind, op_gets, op_lift. rewrite Hp. cbn [ok_or]. rewrite E.
  destruct (sorted_bounds prefix (negb asc) (q_cursor query)) as [lo hi] eqn:Eb. pose proof Hsv as [Hh _].
  assert (Hscan : (if negb asc then be_scan_range_rev (eng s') partition lo hi else be_scan_range (eng s') partition lo hi) =
    (walked_entries (eng s) (q_cursor query), None)).
  { unfold walked_entries. rewrite Eb, <- Hcont. destruct asc; cbn [negb]; by rewrite ?scan_range_rev_spec, ?scan_range_spec. }
  rewrite Hscan, visit_checked_live by done. do 2 eexists. split_and!; [done..|].
  unfold answers. rewrite Hcount. exists (walk_rows (q_cursor query)).
  rewrite (walk_found (eng s') _ docs) by (done || by apply walked_known). rewrite Hpost.
  fold (walk_rows (q_cursor query)). set (rows := walk_rows (q_cursor query)).
  destruct (probe_page (q_limit query) (dropZ (q_offset query) rows) Hl) as [-> Hmore]. rewrite Hmore.
  change (takeZ (q_limit query) (dropZ (q_offset query) rows)) with (window query rows).
  constructor; cbn [r_docs total_count r_has_more r_next_cursor]; auto.
  - unfold remaining. rewrite Hsort. by apply walk_rows_perm.
  - rewrite Hsort. by apply walk_sorted.
  - intros Hor. apply rows_in_order; try done. destruct Hor as [[? _]%andb_prop|[t Ht]]; [done|].
    revert Ht. destruct exact_tail; [done|by rewrite andb_false_r].
  - rewrite dropZ_drop. unfold lenZ. rewrite length_drop. apply eq_bool_prop_intro. rewrite !Is_true_true, !Z.ltb_lt. lia.
  - intros t Ht. destruct ((q_limit query <? _) && exact_tail) eqn:Em; [|done].
    apply andb_prop in Em as [-> _]. split; [done|]. by apply bind_Some in Ht.
  - intros [-> _]%andb_prop ->. by rewrite Hsort.
Qed.
End sorted_plans.
