(* ===== verification/Queries.v ===== *)
(** * Queries are exact

    Whatever plan the planner chooses, the executor answers a query over the
    documents its filter matches: the window of the matches beyond the
    cursor, in the order of the sort fields, with an exact [has_more] and
    total. *)

From S2P Require Import Prelude Bytes F64 Json Errors Externals Filter Secondary Sort Cursor Parser Backend Index Storage Document Consistency Mutations Page Planner Executor Compound Execution Plans Walks.

Section queries.
Context `{SerdeJson} `{!SerdeLaws} `{BackendLaws} `{StorageSerde} `{RegexLib} `{ScanAccelerator} `{!BitmapScans}.
Context `{Base64Lib} `{PayloadSerde}.
Context (current : option CancelToken) (Hlive : live current).
Abbreviation db := (gmap string (gmap string Value)).

(** ** Carrying an answer over *)

Lemma executes_perm exact s (d : db) op query c M M' : ids_distinct M -> M ≡ₚ M' ->
  executes exact s d op query c M -> executes exact s d op query c M'.
Proof.
  intros Hnd Hp (r & s' & E & Hi & Hs & Ha). exists r, s'. split_and!; [done..|]. by apply (answers_perm _ _ _ M).
Qed.
(** Distinct known identifiers are no more than the documents. *)
Lemma known_length (docs : gmap string Value) ids : NoDup ids -> Forall (fun id => is_Some (docs !! id)) ids ->
  lenZ ids <= Z.of_nat (size docs).
Proof.
  intros Hnd Hall. unfold lenZ. apply inj_le. rewrite <- (size_list_to_set (C := gset string) ids) by done.
  rewrite <- size_dom. apply subseteq_size. intros id Hid. rewrite elem_of_list_to_set in Hid.
  apply elem_of_dom. by apply (proj1 (Forall_forall _ _) Hall).
Qed.

Lemma streams_exist s (d : db) c docs : core_inv s d -> d !! c = Some docs -> exists l, streamed docs l.
Proof.
  intros Hi Hc. destruct (core_serves s d c docs Hi Hc) as (Hh & Hv & Hok).
  destruct (streamed_contents _ _ _ Hh Hv Hok) as (l & Hst & _). by exists l.
Qed.
Lemma projection_length docs fields : length (apply_projection docs fields) = length docs.
Proof. unfold apply_projection. destruct fields; by rewrite ?length_fmap. Qed.
Lemma projection_app a b fields : apply_projection (a ++ b) fields = apply_projection a fields ++ apply_projection b fields.
Proof. unfold apply_projection. destruct fields; by rewrite ?fmap_app. Qed.

(** ** What a bitmap accelerator promises *)

(** The bitmap of a filter, with its residual, covers the matches. *)
Definition bitmap_contract (a : accel) (c : string) (docs : gmap string Value) (f : FilterNode) : Prop :=
  forall b r, bitmap_ready a = true -> bitmap_scan a c f = Some (b, r) -> bitmap_ok docs a b /\ covers docs f r (bitmap_ids a b).

(** ** The full scan *)

Section full_scan.
Context (hash_order : list (string * (vbound * vbound)) -> list (string * (vbound * vbound))).
Context (Hhash : forall l, hash_order l ≡ₚ l).

Ltac plan_cases := repeat (case_match || simplify_option_eq); try done.
Lemma comparison_scan m c field op v scan : try_index_comparison m c field op v = Some scan -> scan <> FullScan.
Proof. unfold try_index_comparison. intros E. plan_cases. Qed.
Lemma sorted_scan m c f sort cur plan : try_index_sorted m c f sort cur = Some plan -> scan_of plan <> FullScan.
Proof. unfold try_index_sorted. intros E. plan_cases. Qed.
Lemma bitmap_plan_scan a c f plan : try_bitmap_scan a c f = Some plan -> scan_of plan <> FullScan.
Proof. unfold try_bitmap_scan. intros E. plan_cases. Qed.
Lemma union_scan m c children f plan : try_or_union hash_order m c children f = Some plan -> scan_of plan <> FullScan.
Proof. unfold try_or_union. intros E. plan_cases. Qed.
Lemma and_scan m c children f plan : plan_and hash_order m c children f = Some plan -> scan_of plan <> FullScan.
Proof.
  unfold plan_and. destruct (try_compound_eq m c children f) as [p|] eqn:E; cbn [or_plan].
  { intros [= <-]. unfold try_compound_eq in E. plan_cases. }
  clear E. destruct (try_compound_range hash_order m c children f) as [p|] eqn:E; cbn [or_plan].
  { intros [= <-]. unfold try_compound_range in E. plan_cases. }
  clear E. destruct (first_indexed m c 0 children) as [[j scan]|] eqn:E; cbn [mbind option_bind or_plan].
  { intros [= <-]. by apply first_indexed_spec in E as (k & g & op & v & _ & _ & E%comparison_scan). }
  by rewrite (range_from_and_dead m c hash_order Hhash).
Qed.
(** The planner scans only by the full plan, *)
Lemma full_planned query m c a : scan_of (plan_query hash_order query m c a) = FullScan ->
  plan_query hash_order query m c a = full_plan (q_filter query).
Proof.
  unfold plan_query. destruct (q_filter query) as [f|]; [|done].
  destruct (if (_ : bool) then try_index_sorted m c f _ _ else None) as [plan|] eqn:Es.
  { destruct (_ && _) in Es; [|done]. by intros ?%(sorted_scan _ _ _ _ _ _ Es). }
  destruct (if q_count_only query then _ else None) as [plan|] eqn:Ec.
  { destruct (q_count_only query); [|done]. destruct (try_bitmap_scan a c f) as [p|] eqn:Eb; [|done].
    destruct (post_filter p); [done|]. injection Ec as <-. by intros ?%(bitmap_plan_scan _ _ _ _ Eb). }
  clear Es Ec. destruct (match f with Comparison _ _ _ => _ | _ => _ end) as [p|] eqn:Ep; [|done]. cbn [default from_option id].
  enough (scan_of p <> FullScan) by done.
  assert (Hor : forall q1 q2, (forall x, q1 = Some x -> scan_of x <> FullScan) -> (forall x, q2 = Some x -> scan_of x <> FullScan) ->
    or_plan q1 q2 = Some p -> scan_of p <> FullScan) by (intros [x|] q2 HA HB; cbn; [intros [= <-]|]; auto).
  assert (Hb : forall x, try_bitmap_scan a c f = Some x -> scan_of x <> FullScan) by (intros x; apply bitmap_plan_scan).
  destruct f as [g op v|g e|children|children|f]; [| by apply Hb| | |by apply Hb]; (eapply Hor; [..|exact Ep]; [|]); try done.
  - intros x (scan & E%comparison_scan & [= <-])%bind_Some. done.
  - intros x. apply and_scan.
  - intros x. apply union_scan.
Qed.
(** and if it scans for the first page, it scans for every page. *)
Definition uncursored (query : ParsedQuery) : ParsedQuery :=
  {| q_filter := q_filter query; q_sort := q_sort query; q_limit := q_limit query; q_offset := q_offset query;
     q_fields := q_fields query; q_count_only := q_count_only query; q_cursor := None |}.
Lemma uncursored_scan query m c a : scan_of (plan_query hash_order (uncursored query) m c a) = FullScan ->
  scan_of (plan_query hash_order query m c a) = FullScan.
Proof.
  unfold plan_query. cbn [uncursored q_filter q_sort q_limit q_count_only q_cursor]. destruct (q_filter query) as [f|]; [|done].
  destruct (_ && _ && _); [|done].
  destruct (try_index_sorted m c f (q_sort query) None) as [plan|] eqn:E; [by intros ?%(sorted_scan _ _ _ _ _ _ E)|].
  replace (try_index_sorted m c f (q_sort query) (q_cursor query)) with (@None QueryPlan); [done|].
  symmetry. revert E. unfold try_index_sorted. intros E. plan_cases.
Qed.
End full_scan.

(** ** The plans of a query *)

Section plans.
Context (s : Storage) (d : db) (c : string) (docs : gmap string Value) (l : list (string * Value)) (query : ParsedQuery).
Context (Hinv : storage_inv s d) (Hc : d !! c = Some docs) (Hst : streamed docs l) (Hq : request_ok query).
Context (Hsize : Z.of_nat (size docs) < 2 ^ 63).
Abbreviation m := (index_manager s).
Abbreviation a := (scan_accelerator s).

(** Ties come in identifier order unless a walk stops short of the index's
    fields. *)
Definition ties_exact (plan : QueryPlan) : bool := match scan_of plan with IndexSorted _ _ _ exact => exact | _ => true end.
(** The plan answers the query over the matches of a filter. *)
Definition plan_answers (plan : QueryPlan) (f : option FilterNode) : Prop :=
  executes (ties_exact plan) s d (execute_plan current c query plan) query c (matching f l).

Lemma covering_executes plan f ids : covers docs f (post_filter plan) ids ->
  (lenZ ids < usize_max -> executes true s d (execute_plan current c query plan) query c (survivors (post_filter plan) docs ids)) ->
  executes true s d (execute_plan current c query plan) query c (matching (Some f) l).
Proof.
  intros Hcov He. pose proof (docs_all_ok s d c docs (proj1 Hinv) Hc) as Hok.
  pose proof (selects_survivors docs (matches f) _ ids l Hcov Hst Hok) as Hp.
  eapply (executes_perm _ _ _ _ _ _ (survivors (post_filter plan) docs ids)); [|exact Hp|].
  - unfold ids_distinct. rewrite Hp. by apply (matching_distinct docs l (Some f)).
  - apply He. destruct Hcov as (Hnd & Hall & _). pose proof (known_length docs ids Hnd Hall). unfold usize_max. lia.
Qed.
Lemma scan_executes plan f : scan_covers s c docs (scan_of plan) f (post_filter plan) -> plan_answers plan (Some f).
Proof.
  intros (partition & shapes & Hp & Hk & Hcov). unfold plan_answers.
  replace (ties_exact plan) with true by (unfold ties_exact; by destruct (scan_of plan)).
  apply (covering_executes plan f _ Hcov). intros Hlen. pose proof (proj1 Hinv) as Hi. unfold execute_plan.
  destruct (scan_of plan) as [|? ? ?|? ? ?|? ? ? ?|? ?|? ? ? ?|? ? ? ?|?|?] eqn:Es; try done;
    [by apply index_scan_answers; rewrite ?Es..|by apply compound_range_answers].
Qed.
Lemma bitmap_executes f plan : bitmap_contract a c docs f -> try_bitmap_scan a c f = Some plan -> plan_answers plan (Some f).
Proof.
  intros Hb. unfold try_bitmap_scan. destruct (bitmap_ready a) eqn:Er; [|done]. cbn.
  destruct (bitmap_scan a c f) as [[b r]|] eqn:E; cbn; [|done]. intros [= <-].
  destruct (Hb b r Er E) as [Hok Hcov]. apply (covering_executes {| scan_of := BitmapScan b; post_filter := r; original_filter := Some f |} f _ Hcov).
  intros Hlen. unfold execute_plan. cbn [scan_of].
  by apply (bitmap_scan_answers current Hlive s d c docs query (proj1 Hinv) Hc Hq).
Qed.

(** *** Sorted walks *)

(** A cursor of values the keys order like the sort. *)
Definition cursor_safe : Prop := forall cur, q_cursor query = Some cur ->
  length (sort_values cur) = length (q_sort query) /\ forall u, Present u ∈ sort_values cur -> field_safe u.
Definition sort_safe : Prop := forall sf w, sf ∈ q_sort query -> stored docs (field sf) w -> field_safe w.

Lemma present_list vs : existsb is_missing vs = false -> (forall u, Present u ∈ vs -> field_safe u) ->
  exists us, vs = Present <$> us /\ length us = length vs /\ Forall field_safe us.
Proof.
  induction vs as [|v vs IH]; cbn; [by exists []|]. intros [Hv Hvs]%orb_false_iff Hs.
  destruct IH as (us & -> & Hlen & Hus); [done|intros u Hu; apply Hs; by right|]. destruct v as [|u]; [done|].
  exists (u :: us). split_and!; [done|cbn; by rewrite length_fmap|]. constructor; [apply Hs; by left|done].
Qed.
Lemma one_each_single n : one_each [n].
Proof.
  unfold one_each, eq_pairs. cbn. split_and!;
    [destruct (eq_pair n)|destruct (lower_bound n)|destruct (upper_bound n)]; cbn; try apply NoDup_singleton; constructor.
Qed.
Lemma conjuncts_ok f : filter_ok m c docs f -> extract_eq_pairs f <> [] ->
  (forall g op v, Comparison g op v ∈ conjuncts f -> leaf_ok docs g op v) /\ one_each (conjuncts f).
Proof.
  intros Hok Hne. destruct f as [g op v|g b|children|children|f]; try done; cbn [conjuncts].
  - split; [|apply one_each_single]. by intros ??? [= -> -> ->]%list_elem_of_singleton.
  - split; [|by destruct Hok as (_ & ? & _)]. intros g op v Hin. by apply (filter_ok_children m c docs (And children) (Comparison g op v)).
Qed.

Lemma sorted_executes f plan : filter_ok m c docs f -> dense m c docs (matches f) -> cursor_safe -> sort_safe ->
  q_count_only query = false -> try_index_sorted m c f (q_sort query) (q_cursor query) = Some plan -> plan_answers plan (Some f).
Proof.
  intros Hok Hdense Hcs Hss Hcount. unfold try_index_sorted.
  destruct (q_sort query) as [|first sfs] eqn:Esort; [done|]. rewrite <- Esort.
  destruct (forallb _ (q_sort query)) eqn:Edir; cbn [negb]; [|done].
  destruct (extract_eq_pairs f) as [|p0 ps] eqn:Ep; [done|]. rewrite <- Ep.
  destruct (conjuncts_ok f Hok) as [Hleaf Hone]; [by rewrite Ep|].
  destruct (find_compound_index m c (extract_eq_pairs f).*1 (field <$> q_sort query)) as [[[def p] n]|] eqn:Ef; cbn; [|done].
  rewrite conjuncts_pairs in *. apply find_compound_spec in Ef as [Hf [Hz|[Hfit Htail]]]; [by rewrite Esort in Hz|].
  destruct (covered_values (eq_pairs (conjuncts f)) (take n (idx_fields def))) as (vals & Hvals).
  { destruct Hf as (kv & _ & _ & _ & _ & _ & -> & _). apply count_matched_spec. }
  rewrite (prefix_from_spec _ _ vals Hvals). cbn. rewrite length_fmap in Hfit, Htail.
  destruct (match q_cursor query with Some cur => _ | None => false end) eqn:Ecur; [done|]. intros [= <-].
  unfold plan_answers, ties_exact, execute_plan. cbn [scan_of].
  apply (sorted_walk_answers current Hlive s d c docs (proj1 Hinv) Hc f def p n vals (q_sort query) (ascending first)); try done.
  - by rewrite Esort.
  - apply Forall_forall. intros sf Hsf. rewrite forallb_forall in Edir. by apply eqb_prop, Edir, list_elem_of_In.
  - unfold cursor_ok. destruct (q_cursor query) as [cur|] eqn:Ec; [|done]. apply orb_false_iff in Ecur as [Ex Em].
    apply negb_false_iff in Ex. split; [done|]. destruct (Hcs cur) as [Hlen Hu]; [done|].
    destruct (present_list _ Em Hu) as (us & Hus & Hl & Hsafe). exists us.
    split_and!; [done|by rewrite Hl|done].
Qed.
(** *** The choice *)

Context (hash_order : list (string * (vbound * vbound)) -> list (string * (vbound * vbound))).
Context (Hhash : forall l, hash_order l ≡ₚ l).

Lemma full_executes f : plan_answers (full_plan f) f.
Proof. by apply (full_scan_ok current Hlive s d c docs l query (full_plan f)). Qed.
Lemma union_executes children plan : filter_ok m c docs (Or children) -> dense m c docs (matches (Or children)) ->
  try_or_union hash_order m c children (Or children) = Some plan -> plan_answers plan (Some (Or children)).
Proof.
  intros Hok Hdense E. destruct (or_union_sound s d c docs (proj1 Hinv) Hc hash_order Hhash children plan) as (arms & Es & Harms & Hcov); [done..|].
  unfold plan_answers, ties_exact. rewrite Es. apply (covering_executes plan _ _ Hcov). intros Hlen.
  unfold execute_plan. rewrite Es. pose proof Hcov as (_ & Hall & _).
  by apply (or_union_answers current Hlive s d c docs query (proj1 Hinv) Hc Hq plan arms).
Qed.

(** What a plan through indexes or bitmaps assumes of a query. *)
Record index_conditions : Prop := {
  ic_cursor : cursor_safe;
  ic_sort : sort_safe;
  ic_filter : forall f, q_filter query = Some f -> filter_ok m c docs f /\ dense m c docs (matches f);
  ic_bitmap : forall f, q_filter query = Some f -> bitmap_contract a c docs f;
}.
(** What the answers assume of a query: nothing if its plan is the full scan. *)
Definition query_ok : Prop := scan_of (plan_query hash_order query m c a) = FullScan \/ index_conditions.

Lemma plan_executes : query_ok -> plan_answers (plan_query hash_order query m c a) (q_filter query).
Proof.
  intros [E|[Hcs Hss Hf Hbs]]; [rewrite full_planned by done; apply full_executes|]. unfold plan_query. destruct (q_filter query) as [f|]; [|apply full_executes].
  destruct (Hf f eq_refl) as [Hok Hdense]. pose proof (Hbs f eq_refl) as Hb.
  destruct (if (_ : bool) then try_index_sorted m c f (q_sort query) (q_cursor query) else None) as [plan|] eqn:Es.
  { destruct (_ && negb (q_count_only query)) eqn:E; [|done]. apply andb_prop in E as [_ E%negb_true_iff].
    by apply sorted_executes. }
  assert (Hbit : forall p, try_bitmap_scan a c f = Some p -> plan_answers p (Some f)) by (intros; by apply bitmap_executes).
  destruct (if q_count_only query then _ else None) as [plan|] eqn:Ecount.
  { destruct (q_count_only query); [|done]. destruct (try_bitmap_scan a c f) as [p|]; [|done].
    destruct (post_filter p); [done|]. injection Ecount as <-. by apply Hbit. }
  assert (Hone : forall p, (forall plan, p = Some plan -> plan_answers plan (Some f)) ->
    plan_answers (default (full_plan (Some f)) p) (Some f)).
  { intros [p|] Hp; [by apply Hp|apply full_executes]. }
  assert (Hor : forall p q, (forall plan, p = Some plan -> plan_answers plan (Some f)) ->
    (forall plan, q = Some plan -> plan_answers plan (Some f)) -> plan_answers (default (full_plan (Some f)) (or_plan p q)) (Some f)).
  { intros [p|] q Hp Hq'; apply Hone; [done|]. intros plan E. by apply Hq'. }
  pose proof (proj1 Hinv) as Hi.
  destruct f as [g op v|g e|children|children|f].
  - apply Hor; [|done]. intros plan E. apply bind_Some in E as (scan & E & [= <-]). apply scan_executes. by apply (comparison_sound s d).
  - by apply Hone.
  - apply Hor; [|done]. intros plan E. apply scan_executes. by apply (plan_and_sound s d c docs Hi Hc hash_order).
  - apply Hor; [done|]. intros plan E. by apply union_executes.
  - by apply Hone.
Qed.
End plans.

(** ** The query *)

(** It depends on the indexes and the accelerator alone. *)
Lemma query_ok_same s s' c docs query hash_order : index_manager s' = index_manager s -> scan_accelerator s' = scan_accelerator s ->
  query_ok s c docs query hash_order -> query_ok s' c docs query hash_order.
Proof. intros Em Ea. unfold query_ok. rewrite Em, Ea. intros [?|[]]; [by left|right; split]; by rewrite ?Em, ?Ea. Qed.

(** [execute_query] on a collection answers over the documents its filter
    matches, and leaves the database as it was. *)
Lemma execute_query_ok s (d : db) c docs l query hash_order :
  storage_inv s d -> d !! c = Some docs -> streamed docs l -> request_ok query -> Z.of_nat (size docs) < 2 ^ 63 ->
  (forall l, hash_order l ≡ₚ l) -> query_ok s c docs query hash_order ->
  executes (ties_exact (plan_query hash_order query (index_manager s) c (scan_accelerator s))) s d
    (execute_query current hash_order c query) query c (matching (q_filter query) l).
Proof.
  intros Hinv Hc Hst Hq Hsize Hhash Hok. destruct (ensure_ok s d c (proj1 Hinv)) as (s1 & E & Hi1 & Hs1).
  assert (Hinv1 : storage_inv s1 d) by (split; [done|by eapply same_counts, Hinv]).
  unfold executes, execute_query, op_bind at 1. rewrite E, bool_decide_true by by exists docs.
  destruct (q_count_only query && bool_decide (q_filter query = None)) eqn:Ecount.
  - apply andb_prop in Ecount as [Hcount Hf%bool_decide_eq_true]. do 2 eexists. split; [reflexivity|]. split_and!; [done..|].
    replace (ties_exact _) with true by (unfold plan_query; by rewrite Hf).
    apply counted_answers; [done|]. rewrite Hf, (doc_count_ok s1 d c docs) by (done || apply Hinv1).
    rewrite <- (streamed_size docs l Hst). unfold matching. rewrite filter_all_true by done. unfold lenZ. by rewrite length_fmap.
  - unfold op_bind, op_gets. destruct Hs1 as (Em & Ed & Ea & Ev).
    destruct (plan_executes s1 d c docs l query Hinv1 Hc Hst Hq Hsize hash_order Hhash) as (r & s' & Er & Hi' & Hs' & Ha).
    { by apply (query_ok_same s). }
    rewrite Er, Em, Ea in *. exists r, s'. split_and!; [done..| |done]. etransitivity; [|exact Hs']. by split_and!.
Qed.

(** ** Paging *)

(** The next request of a client: the same query from the page's cursor on. *)
Definition with_cursor (query : ParsedQuery) (cur : Cursor) : ParsedQuery :=
  {| q_filter := q_filter query; q_sort := q_sort query; q_limit := q_limit query; q_offset := 0;
     q_fields := q_fields query; q_count_only := q_count_only query; q_cursor := Some cur |}.

Section paging.
Context `{!Base64Laws} (hash_order : list (string * (vbound * vbound)) -> list (string * (vbound * vbound))).
Context (Hhash : forall l, hash_order l ≡ₚ l).

Ltac plan_cases := repeat (case_match || simplify_option_eq); try done.
Lemma comparison_ties m c field op v scan :
  try_index_comparison m c field op v = Some scan -> match scan with IndexSorted _ _ _ _ => False | _ => True end.
Proof. unfold try_index_comparison. intros E. plan_cases. Qed.
Lemma and_ties m c children f plan : plan_and hash_order m c children f = Some plan -> ties_exact plan = true.
Proof.
  unfold plan_and. destruct (try_compound_eq m c children f) as [p|] eqn:E; cbn [or_plan].
  { intros [= <-]. unfold try_compound_eq in E. plan_cases. }
  clear E. destruct (try_compound_range hash_order m c children f) as [p|] eqn:E; cbn [or_plan].
  { intros [= <-]. unfold try_compound_range in E. plan_cases. }
  clear E. destruct (first_indexed m c 0 children) as [[j scan]|] eqn:E; cbn [mbind option_bind or_plan].
  { intros [= <-]. apply first_indexed_spec in E as (k & g & op & v & _ & _ & E%comparison_ties). unfold ties_exact. cbn.
    by destruct scan. }
  by rewrite (range_from_and_dead m c hash_order Hhash).
Qed.
(** A plan from a cursor leaves no tie open. *)
Lemma cursor_ties_exact query m c a : is_Some (q_cursor query) -> ties_exact (plan_query hash_order query m c a) = true.
Proof.
  intros [cur Hcur]. unfold plan_query. destruct (q_filter query) as [f|]; [|done]. rewrite Hcur.
  destruct (if (_ : bool) then try_index_sorted m c f (q_sort query) (Some cur) else None) as [plan|] eqn:Es.
  { destruct (_ && _) in Es; [|done]. unfold try_index_sorted in Es. plan_cases. }
  assert (Hb : forall p, try_bitmap_scan a c f = Some p -> ties_exact p = true) by (unfold try_bitmap_scan; intros p E; plan_cases).
  destruct (if q_count_only query then _ else None) as [plan|] eqn:Ec.
  { destruct (q_count_only query); [|done]. destruct (try_bitmap_scan a c f) as [p|]; [|done].
    destruct (post_filter p); [done|]. injection Ec as <-. by apply Hb. }
  destruct (try_bitmap_scan a c f) as [p|] eqn:Ep; [specialize (Hb p eq_refl)|].
  all: destruct f as [g op v|g e|children|children|f]; cbn [default from_option id]; try done.
  all: try (destruct (try_index_comparison m c g op v) as [scan|] eqn:E; [apply comparison_ties in E; cbn; unfold ties_exact; cbn; by destruct scan|done]).
  all: try (destruct (plan_and hash_order m c children (And children)) as [pl|] eqn:E; [by apply and_ties in E|done]).
  cbn [or_plan]. destruct (try_or_union hash_order m c children (Or children)) as [pl|] eqn:E; [|done].
  unfold try_or_union in E. plan_cases.
Qed.

(** A client that follows the cursors until there is none. *)
Fixpoint pages (fuel : nat) (c : string) (query : ParsedQuery) (s : Storage) : option (list Value) :=
  match fuel with
  | O => None
  | S fuel =>
      match execute_query current hash_order c query s with
      | (Ok r, s') =>
          match r_next_cursor r with
          | Some token =>
              match decode_cursor token c (q_sort query) with
              | Ok cur => app (r_docs r) <$> pages fuel c (with_cursor query cur) s'
              | Err _ => None
              end
          | None => Some (r_docs r)
          end
      | (Err _, _) => None
      end
  end.

Context (d : db) (c : string) (docs : gmap string Value) (l : list (string * Value)) (f : option FilterNode) (sfs : list SortField).
Context (Hc : d !! c = Some docs) (Hst : streamed docs l) (Hsize : Z.of_nat (size docs) < 2 ^ 63).
Context (Hser : forall doc id b, payload_to_vec (cursor_payload doc id sfs c) = Some b ->
  Forall (fun x => 0 <= x < 256) b /\ payload_from_slice b = Some (cursor_payload doc id sfs c)).
Context (Henc : forall doc, doc ∈ matching f l -> is_Some (encode_cursor doc sfs c)).
Abbreviation sorted_matches := (sort_by (compare_docs sfs) (matching f l)).

(** The next request asks for what is behind the page. *)
Lemma last_window {A} (rows : list A) n : 0 < n -> n < lenZ rows -> last (takeZ n rows) = rows !! Z.to_nat (n - 1).
Proof.
  intros Hn Hlt. rewrite takeZ_take, last_lookup, lookup_take, length_take. unfold lenZ in Hlt.
  replace (Nat.pred (Z.to_nat n `min` length rows)) with (Z.to_nat (n - 1)) by lia. rewrite decide_True by lia. done.
Qed.
Lemma next_in_order query cur doc id i : q_sort query = sfs -> sorted_matches !! i = Some doc -> doc_id doc = Some id ->
  map_Forall doc_ok docs -> cur = cursor_of doc id sfs ->
  in_order (with_cursor query cur) (matching f l) = drop (S i) sorted_matches.
Proof.
  intros Hs Hi Hid Hok ->. unfold in_order, remaining. cbn [q_sort q_cursor with_cursor]. rewrite Hs.
  apply sort_beyond; [by eapply matching_distinct|done..].
Qed.
Lemma matching_elem doc : map_Forall doc_ok docs -> doc ∈ matching f l -> exists id, docs !! id = Some doc /\ doc_id doc = Some id.
Proof.
  intros Hok [Hin _]%elem_of_List_filter. apply list_elem_of_fmap in Hin as ([id x] & -> & Hin). cbn.
  destruct (streamed_ok docs l Hst Hok) as (_ & Hids & Hl). exists id. apply Hl in Hin as Hd. split; [done|].
  rewrite Forall_forall in Hids. specialize (Hids _ Hin). cbn in Hids. unfold doc_id. by rewrite Hids.
Qed.

Lemma cursor_of_safe query doc id : sort_safe docs query -> q_sort query = sfs -> docs !! id = Some doc ->
  length (sort_values (cursor_of doc id sfs)) = length sfs /\ forall u, Present u ∈ sort_values (cursor_of doc id sfs) -> field_safe u.
Proof.
  intros Hss Hs Hd. cbn. split; [by rewrite length_fmap|]. intros u (sf & Eu & Hsf)%list_elem_of_fmap.
  apply (Hss sf); [by rewrite Hs|]. exists id, doc. split; [done|]. unfold entry_value in Eu.
  destruct (resolve_json_path doc (field sf)); [by injection Eu as ->|done].
Qed.
(** What paging assumes: the same of every page. *)
Definition paging_ok (s : Storage) (query : ParsedQuery) : Prop :=
  scan_of (plan_query hash_order (uncursored query) (index_manager s) c (scan_accelerator s)) = FullScan \/ index_conditions s c docs query.
Lemma paging_query s query : paging_ok s query -> query_ok s c docs query hash_order.
Proof. intros [?%uncursored_scan|?]; [by left|by right]. Qed.
(** The next page, from the cursor of this one. *)
Lemma next_page s s' query r k : storage_inv s d -> q_filter query = f -> q_sort query = sfs ->
  paging_ok s query -> same s s' -> core_inv s' d -> 0 < q_limit query -> q_limit query < lenZ (drop k sorted_matches) ->
  r_next_cursor r = (last (takeZ (q_limit query) (drop k sorted_matches)) ≫= fun doc => encode_cursor doc sfs c) ->
  exists token cur, r_next_cursor r = Some token /\ decode_cursor token c sfs = Ok cur /\ storage_inv s' d /\
    paging_ok s' (with_cursor query cur) /\
    in_order (with_cursor query cur) (matching f l) = drop (k + Z.to_nat (q_limit query)) sorted_matches.
Proof.
  intros Hinv Hf Hs Hok Hss Hi' Hl Hlt Hemit. pose proof (docs_all_ok s d c docs (proj1 Hinv) Hc) as Hdok.
  rewrite last_window in Hemit by done. rewrite lookup_drop in Hemit.
  destruct (sorted_matches !! (k + Z.to_nat (q_limit query - 1))%nat) as [doc|] eqn:Ed.
  2: { apply lookup_ge_None in Ed. unfold lenZ in Hlt. rewrite length_drop in Hlt. lia. }
  assert (Hin : doc ∈ matching f l) by (rewrite <- (sort_by_perm (compare_docs sfs) (matching f l)); by eapply list_elem_of_lookup_2).
  destruct (Henc doc Hin) as [token Et]. cbn in Hemit. rewrite Et in Hemit.
  destruct (encode_decode doc sfs c token) as (id & Hid & Hdec); [by intros; apply Hser|done|].
  exists token, (cursor_of doc id sfs). split_and!; [done..| | |].
  - split; [done|]. by eapply same_counts, Hinv.
  - destruct Hss as (Em & _ & Ea & _). unfold paging_ok. rewrite Em, Ea.
    destruct Hok as [Hscan|[Hcs Hsafe Hfil Hbit]]; [by left|right]. split; rewrite ?Em, ?Ea; try done.
    intros cur [= <-]. cbn [with_cursor q_sort]. rewrite Hs.
    destruct (matching_elem doc Hdok Hin) as (id' & Hd & Hid'). assert (id' = id) as -> by congruence.
    by apply (cursor_of_safe query).
  - erewrite next_in_order; [|done|exact Ed|done..]. f_equal. lia.
Qed.
Lemma pages_ok fuel s query k : storage_inv s d -> q_filter query = f -> q_sort query = sfs -> sfs <> [] ->
  q_count_only query = false -> q_offset query = 0 -> 0 < q_limit query ->
  paging_ok s query -> ties_exact (plan_query hash_order query (index_manager s) c (scan_accelerator s)) = true ->
  in_order query (matching f l) = drop k sorted_matches -> (length sorted_matches - k < fuel)%nat ->
  pages fuel c query s = Some (apply_projection (drop k sorted_matches) (q_fields query)).
Proof.
  revert s query k; induction fuel as [|fuel IH]; intros s query k Hinv Hf Hs Hne Hcount Ho Hl Hok Hties Hord Hfuel; [lia|].
  cbn [pages]. assert (Hq : request_ok query) by (split_and!; [lia|lia|done]).
  destruct (execute_query_ok s d c docs l query hash_order) as (r & s' & E & Hi' & Hss & Ha); [done..|by apply paging_query|].
  rewrite E. rewrite Hties, Hf in Ha. unfold answers in Ha. rewrite Hcount in Ha.
  assert (Hw : wants_sorted query = true) by (unfold wants_sorted; rewrite Hs, (bool_decide_false (sfs = [])) by done; by rewrite ?orb_true_r).
  destruct Ha as (rows & [_ _ Horder Hdocs Hmore _ Hnext Hemit]). rewrite Hw in Horder, Hemit. cbn [andb] in Horder, Hemit.
  rewrite Horder, Hord in Hdocs, Hmore, Hemit by auto.  rewrite Hs in Hemit.
  assert (Hwin : forall R : list Value, window query R = takeZ (q_limit query) R) by (intros R; unfold window; by rewrite Ho, dropZ_drop, drop_0).
  rewrite Hwin in Hdocs, Hemit. rewrite Ho, Z.add_0_l in Hmore.
  destruct (Z.ltb_spec (q_limit query) (lenZ (drop k sorted_matches))) as [Hlt|Hge].
  - destruct (next_page s s' query r k) as (token & cur & -> & Hdec & Hinv' & Hok' & Hord'); [by auto..|].
    rewrite Hs, Hdec. rewrite (IH s' (with_cursor query cur) (k + Z.to_nat (q_limit query))%nat); try done.
    + cbn. rewrite Hdocs, <- projection_app, takeZ_take, <- drop_drop, take_drop. done.
    + by apply cursor_ties_exact.
    + unfold lenZ in Hlt. rewrite length_drop in Hlt. lia.
  - destruct (r_next_cursor r) as [t|]; [by destruct (Hnext t eq_refl); congruence|].
    rewrite Hdocs, takeZ_take, take_ge; [done|]. unfold lenZ in Hge. lia.
Qed.
End paging.
End queries.
