(* ===== verification/Answers.v ===== *)
(** * Queries: what a client can rely on

    The properties of [execute_query]: its answer is the one the documents
    define, indexes do not change it, and its cursors page through it
    completely. Each has a witness on the demo database. *)

From S2P Require Import Prelude Bytes F64 Json Errors Externals Filter Secondary Sort Cursor Parser Backend Index Storage Document Consistency Mutations Refinement History Guarantees Page Planner Executor Compound Execution Plans Walks Queries.

Section answers.
Context `{SerdeJson} `{!SerdeLaws} `{BackendLaws} `{StorageSerde} `{RegexLib} `{ScanAccelerator} `{!BitmapScans}.
Context `{Base64Lib} `{PayloadSerde}.
Context (current : option CancelToken) (Hlive : live current).
Context (hash_order : list (string * (vbound * vbound)) -> list (string * (vbound * vbound))).
Context (Hhash : forall l, hash_order l ≡ₚ l).
Abbreviation db := (gmap string (gmap string Value)).

Definition plan_for (s : Storage) (c : string) (query : ParsedQuery) : QueryPlan :=
  plan_query hash_order query (index_manager s) c (scan_accelerator s).

(** ** One query *)

(** C1: a query answers what its definition says. In a consistent state
    [execute_query] leaves the database alone and succeeds on a collection
    that is there. A count is the number of matches; a page is the window
    [offset, limit] of the matches beyond the cursor, in sort order, ties by
    identifier unless the plan walks an index that ends before it; [has_more],
    total and next cursor are those of the matches. The conditions, [query_ok]
    (outside them, see [Limits]): unless the plan is the full scan, (a) values
    stored at the filter's and sort's fields, operands and cursor values have
    no byte 0 or 1 in their text; (b) the filter's equality and order there
    are those of the keys (not so for numbers within f64::EPSILON or the two
    zeros); (c) no And gives a field two $eq, two lower or two upper bounds;
    (d) a bounded field is first or last in each compound index that has it;
    (e) every match has all fields of every compound index; (f) a ready
    accelerator answers the filter. *)
Theorem query_is_exact (s : Storage) (d : db) (c : string) (query : ParsedQuery) :
  storage_inv s d -> request_ok query ->
  (forall docs, d !! c = Some docs -> Z.of_nat (size docs) < 2 ^ 63 /\ query_ok s c docs query hash_order) ->
  exists s', core_inv s' d /\ same s s' /\
  match d !! c with
  | None => execute_query current hash_order c query s = (Err (CollectionNotFound c), s')
  | Some docs => forall l, streamed docs l -> exists r, execute_query current hash_order c query s = (Ok r, s') /\
      answers (ties_exact (plan_for s c query)) query c (matching (q_filter query) l) r
  end.
Proof.
  intros Hinv Hq Hok. destruct (d !! c) as [docs|] eqn:Hc.
  - destruct (Hok docs eq_refl) as [Hsize Hqok]. destruct (streams_exist s d c docs (proj1 Hinv) Hc) as (l0 & Hst0).
    destruct (execute_query_ok current Hlive s d c docs l0 query hash_order) as (r & s' & E & Hi & Hs & Ha); [done..|].
    exists s'. split_and!; [done..|]. intros l Hst. rewrite (streamed_unique docs l l0) by done. by exists r.
  - destruct (ensure_ok s d c (proj1 Hinv)) as (s' & E & Hi & Hs). exists s'. split_and!; [done..|].
    unfold execute_query, op_bind. rewrite E, bool_decide_false; [done|]. rewrite Hc. by intros [].
Qed.

(** ** Two databases of the same documents *)

(** C7: indexes do not change answers, under the conditions below. Two
    databases hold the same documents in a collection but have different
    indexes, accelerators and caches. The same query succeeds on both; counts
    are equal; pages say alike whether matches remain; and a page in the order
    of a sort or a cursor holds the same documents, if neither plan leaves
    ties open. For each database ([query_ok]): unless the plan is the full
    scan, (a) values stored at the filter's and sort's fields, operands and
    cursor values have no byte 0 or 1 in their text; (b) the filter's equality
    and order there are those of the keys (not so for numbers within
    f64::EPSILON or the two zeros); (c) no And gives a field two $eq, two
    lower or two upper bounds; (d) a bounded field is first or last in each
    compound index that has it; (e) every match has all fields of every
    compound index; (f) a ready accelerator answers the filter. Outside them
    an index may change it ([Limits]). *)
Theorem indexes_do_not_change_answers (s1 s2 : Storage) (d1 d2 : db) (c : string) (docs : gmap string Value) (query : ParsedQuery) :
  storage_inv s1 d1 -> storage_inv s2 d2 -> d1 !! c = Some docs -> d2 !! c = Some docs ->
  request_ok query -> Z.of_nat (size docs) < 2 ^ 63 -> query_ok s1 c docs query hash_order -> query_ok s2 c docs query hash_order ->
  exists r1 r2 s1' s2', execute_query current hash_order c query s1 = (Ok r1, s1') /\
    execute_query current hash_order c query s2 = (Ok r2, s2') /\ r_has_more r1 = r_has_more r2 /\
    length (r_docs r1) = length (r_docs r2) /\
    (q_count_only query = true -> total_count r1 = total_count r2) /\
    (wants_sorted query && ties_exact (plan_for s1 c query) && ties_exact (plan_for s2 c query) = true -> r_docs r1 = r_docs r2).
Proof.
  intros Hi1 Hi2 Hd1 Hd2 Hq Hsize Hq1 Hq2. destruct (streams_exist s1 d1 c docs (proj1 Hi1) Hd1) as (l & Hst).
  destruct (execute_query_ok current Hlive s1 d1 c docs l query hash_order) as (r1 & s1' & E1 & _ & _ & A1); [done..|].
  destruct (execute_query_ok current Hlive s2 d2 c docs l query hash_order) as (r2 & s2' & E2 & _ & _ & A2); [done..|].
  exists r1, r2, s1', s2'. split; [done|]. split; [done|]. revert A1 A2. unfold answers.
  destruct (q_count_only query).
  - intros (-> & -> & -> & _) (-> & -> & -> & _). done.
  - intros (rows1 & [P1 _ O1 D1 M1 _ _ _]) (rows2 & [P2 _ O2 D2 M2 _ _ _]).
    assert (Hperm : rows1 ≡ₚ rows2) by (by rewrite P1, P2).
    assert (Hlen : lenZ rows1 = lenZ rows2) by (unfold lenZ; by rewrite Hperm). split_and!.
    + by rewrite M1, M2, Hlen.
    + rewrite D1, D2. rewrite !projection_length. unfold window. rewrite !takeZ_take, !dropZ_drop, !length_take, !length_drop.
      by rewrite Hperm.
    + done.
    + intros [[Hw Ht1]%andb_prop Ht2]%andb_prop. rewrite D1, D2, O1, O2; [done|left|left]; unfold plan_for in *; by rewrite ?Ht1, ?Ht2, Hw.
Qed.

(** ** A client that follows the cursors *)

(** C8: cursors page through the answer completely. A client asks for sorted
    pages of at least one document and follows the next cursor: within as many
    requests as there are matches it has seen every match exactly once, in
    sort order. Provided every match's sort values fit in a cursor, cursors
    decode as encoded, the first plan leaves no tie open and the conditions
    [query_ok] hold: unless the plan is the full scan, (a) values stored at
    the filter's and sort's fields, operands and cursor values have no byte 0
    or 1 in their text; (b) the filter's equality and order there are those of
    the keys (not so for numbers within f64::EPSILON or the two zeros); (c) no
    And gives a field two $eq, two lower or two upper bounds; (d) a bounded
    field is first or last in each compound index that has it; (e) every match
    has all fields of every compound index; (f) a ready accelerator answers
    the filter. *)
Theorem cursors_page_through (s : Storage) (d : db) (c : string) (docs : gmap string Value) (l : list (string * Value))
    (query : ParsedQuery) (fuel : nat) `{!Base64Laws} :
  storage_inv s d -> d !! c = Some docs -> streamed docs l -> Z.of_nat (size docs) < 2 ^ 63 ->
  q_sort query <> [] -> q_count_only query = false -> q_offset query = 0 -> 0 < q_limit query -> q_cursor query = None ->
  query_ok s c docs query hash_order -> ties_exact (plan_for s c query) = true ->
  (forall doc id b, payload_to_vec (cursor_payload doc id (q_sort query) c) = Some b ->
     Forall (fun x => 0 <= x < 256) b /\ payload_from_slice b = Some (cursor_payload doc id (q_sort query) c)) ->
  let matches := matching (q_filter query) l in
  (forall doc, doc ∈ matches -> is_Some (encode_cursor doc (q_sort query) c)) ->
  (length matches < fuel)%nat ->
  pages current hash_order fuel c query s =
    Some (apply_projection (sort_by (compare_docs (q_sort query)) matches) (q_fields query)).
Proof.
  intros Hinv Hc Hst Hsize Hne Hcount Ho Hl Hcur Hok Hties Hser matches Henc Hfuel.
  rewrite <- (drop_0 (sort_by _ matches)).
  eapply (pages_ok current Hlive hash_order Hhash d c docs l (q_filter query) (q_sort query) Hc Hst Hsize Hser Henc); try done.
  - unfold paging_ok, query_ok in *. by replace (uncursored query) with query by (destruct query; cbn in *; by subst).
  - unfold in_order. by rewrite remaining_all, drop_0.
  - rewrite sort_by_perm. fold matches. lia.
Qed.

(** ** A branch that never runs *)

(** The planner's merge of two bounds of one field is dead code. When
    the ladder of a conjunction gets there, no condition of the conjunction
    had a single-field index, so no field has one: the merge finds none. *)
Theorem range_merge_never_plans (m : IndexManager) (c : string) (children : list FilterNode) (filter : FilterNode) :
  plan_and hash_order m c children filter =
  or_plan (try_compound_eq m c children filter)
    (or_plan (try_compound_range hash_order m c children filter)
      ('(i, scan) ← first_indexed m c 0 children;
       Some {| scan_of := scan; post_filter := residual (without i children); original_filter := Some filter |})).
Proof.
  unfold plan_and. destruct (try_compound_eq m c children filter); [done|]. cbn [or_plan].
  destruct (try_compound_range hash_order m c children filter); [done|]. cbn [or_plan].
  destruct (first_indexed m c 0 children) as [[i scan]|] eqn:E; [done|]. cbn.
  by rewrite (range_from_and_dead m c hash_order Hhash).
Qed.
End answers.

(** ** The queries at work *)

Module QueryDemo.
Import Ref RefStorage RefBackend RefPayload Demo.
(** No accelerator. *)
#[export] Instance scans : BitmapScans := {
  bitmap := unit;
  bitmap_ready _ := false;
  bitmap_scan _ _ _ := None;
  bitmap_len _ := 0;
  resolve_window _ _ _ _ := [];
}.

Definition tagged (id t : string) (n : Z) : Value :=
  VObject [("_id", VString id); ("t", VString t); ("n", VNumber (PosInt n))].
Definition inserts : list request :=
  [RCreateCollection "t0" "c"; RInsert "t1" "u1" "c" (tagged "a" "x" 8); RInsert "t2" "u2" "c" (tagged "b" "x" 7);
   RInsert "t3" "u3" "c" (tagged "e" "y" 1)].
Definition indexing : list request := inserts ++ [RCreateIndex "t4" "c" "tn" ["t"; "n"]].
Lemma tagged_admissible now uuid id t n (d : Refinement.db) : id_safe uuid -> utf8_valid (str_bytes id) = true ->
  (d !! "c" ≫= fun docs => docs !! uuid) = None -> admissible (RInsert now uuid "c" (tagged id t n)) d.
Proof.
  intros Hu Hid Hf. split_and!; [apply Hu..| | |intros; apply round_trips].
  - intros docs Hd. by rewrite Hd in Hf.
  - intros o s [= <-] [= <-]. done.
Qed.
Lemma indexing_admissible : admissible_run indexing ([], ∅).
Proof.
  unfold indexing, inserts. cbn [admissible_run app]. split_and!; try done;
    try (apply tagged_admissible; [by apply safe_id|reflexivity|vm_compute; reflexivity]).
  split_and!; [| |reflexivity]; by apply (bool_decide_eq_false _).
Qed.
Lemma inserts_admissible : admissible_run inserts ([], ∅).
Proof. pose proof indexing_admissible as Ha. cbn [admissible_run indexing inserts app] in *. tauto. Qed.

(** The same documents, without and with a compound index. *)
Definition plain : Storage := (run None inserts fresh).2.
Definition indexed : Storage := (run None indexing fresh).2.
Definition stored (id now t : string) (n : Z) : Value := VObject (stamp_new id now [("t", VString t); ("n", VNumber (PosInt n))]).
Definition docs : gmap string Value :=
  {["a" := stored "a" "t1" "x" 8; "b" := stored "b" "t2" "x" 7; "e" := stored "e" "t3" "y" 1]}.
Definition d : Refinement.db := {["c" := docs]}.
Definition m : IndexManager := register [] (IndexDef_new "tn" "c" ["t"; "n"] "t4") (partition_of (index_name "c" "tn")).
Lemma plain_represents : represents plain ([], d).
Proof.
  destruct (run_refines None I inserts fresh ([], ∅) fresh_represents inserts_admissible) as (s' & E & Hs).
  unfold plain. rewrite E. by replace (spec_run inserts ([], ∅)).2 with (@nil ((string * string) * IndexEntry), d) in Hs by (vm_compute; reflexivity).
Qed.
Lemma indexed_represents : represents indexed (m, d).
Proof.
  destruct (run_refines None I indexing fresh ([], ∅) fresh_represents indexing_admissible) as (s' & E & Hs).
  unfold indexed. rewrite E. by replace (spec_run indexing ([], ∅)).2 with (m, d) in Hs by (vm_compute; reflexivity).
Qed.
Lemma tagged_docs_inv id doc : docs !! id = Some doc ->
  doc = stored "a" "t1" "x" 8 \/ doc = stored "b" "t2" "x" 7 \/ doc = stored "e" "t3" "y" 1.
Proof. unfold docs. rewrite !lookup_insert_Some, lookup_singleton_Some. naive_solver. Qed.

(** The map of range bounds, iterated backwards. *)
Definition order : list (string * (vbound * vbound)) -> list (string * (vbound * vbound)) := reverse.
Lemma order_ok l : order l ≡ₚ l.
Proof. apply reverse_Permutation. Qed.

(** The documents tagged [x], the largest number first, one at a time. *)
Definition query : ParsedQuery :=
  {| q_filter := Some (Comparison "t" Eq_ (VString "x")); q_sort := [by_n]; q_limit := 1; q_offset := 0; q_fields := None;
     q_count_only := false; q_cursor := None |}.
Definition listed : list (string * Value) := [("a", stored "a" "t1" "x" 8); ("b", stored "b" "t2" "x" 7); ("e", stored "e" "t3" "y" 1)].
Lemma listed_streamed : streamed docs listed.
Proof.
  split; [|repeat constructor]. apply NoDup_Permutation; [|apply NoDup_map_to_list|].
  - apply (bool_decide_unpack _). vm_compute. exact I.
  - intros [i x]. rewrite elem_of_map_to_list. unfold listed, docs.
    rewrite !elem_of_cons, elem_of_nil, !lookup_insert_Some, lookup_singleton_Some. naive_solver.
Qed.
Lemma stored_t w : Plans.stored docs "t" w -> w = VString "x" \/ w = VString "y".
Proof. intros (id & doc & [->|[->| ->]]%tagged_docs_inv & Hw); revert Hw; vm_compute; intros [= <-]; auto. Qed.
Lemma stored_n w : Plans.stored docs "n" w -> exists x, w = VNumber x.
Proof. intros (id & doc & [->|[->| ->]]%tagged_docs_inv & Hw); revert Hw; vm_compute; intros [= <-]; by eexists. Qed.
Lemma demo_query_ok s : index_manager s = [] \/ index_manager s = m -> query_ok s "c" docs query order.
Proof.
  intros Hm. right. split.
  - done.
  - intros sf w ->%list_elem_of_singleton (x & ->)%stored_n. done.
  - intros f [= <-]. split.
    + split; [split; apply (bool_decide_unpack _); vm_compute; exact I|].
      intros w [->| ->]%stored_t; (split; [split; apply (bool_decide_unpack _); vm_compute; exact I|vm_compute; reflexivity]).
    + intros kv id doc Hin _ _ Hd _. destruct Hm as [E|E]; rewrite E in Hin; [by apply elem_of_nil in Hin|].
      apply list_elem_of_singleton in Hin as ->.
      apply tagged_docs_inv in Hd as [->|[->| ->]]; repeat constructor; vm_compute; by eexists.
  - by intros ????.
Qed.
Lemma plain_ok : query_ok plain "c" docs query order.
Proof. apply demo_query_ok. left. vm_compute. reflexivity. Qed.
Lemma indexed_ok : query_ok indexed "c" docs query order.
Proof. apply demo_query_ok. right. vm_compute. reflexivity. Qed.
End QueryDemo.
Import Ref RefStorage RefBackend RefPayload Demo QueryDemo.

Lemma query_is_exact_witness :
  scan_of (plan_for order indexed "c" query) = IndexSorted "tn" [4; 120; 1] true true /\
  exists r s', execute_query None order "c" query indexed = (Ok r, s') /\ core_inv s' d /\
    answers true query "c" (matching (q_filter query) listed) r.
Proof.
  split; [vm_compute; reflexivity|].
  destruct (query_is_exact None I order order_ok indexed d "c" query) as (s' & Hi & _ & Hr).
  - apply indexed_represents.
  - split_and!; [done..|by intros []].
  - intros x Hx. assert (Hd : d !! "c" = Some docs) by reflexivity. rewrite Hd in Hx. injection Hx as <-. split; [vm_compute; reflexivity|apply indexed_ok].
  - destruct (Hr listed listed_streamed) as (r & E & Ha). exists r, s'. split; [exact E|]. split; [exact Hi|].
    replace (ties_exact _) with true in Ha by (vm_compute; reflexivity). exact Ha.
Defined.

Lemma indexes_do_not_change_answers_witness :
  exists r1 r2 s1' s2', execute_query None order "c" query plain = (Ok r1, s1') /\
    execute_query None order "c" query indexed = (Ok r2, s2') /\ r_docs r1 = r_docs r2.
Proof.
  destruct (indexes_do_not_change_answers None I order order_ok plain indexed d d "c" docs query)
    as (r1 & r2 & s1' & s2' & E1 & E2 & _ & _ & _ & Hdocs).
  - apply plain_represents.
  - apply indexed_represents.
  - reflexivity.
  - reflexivity.
  - split_and!; [done..|by intros []].
  - vm_compute. reflexivity.
  - apply plain_ok.
  - apply indexed_ok.
  - exists r1, r2, s1', s2'. split; [exact E1|]. split; [exact E2|]. apply Hdocs. vm_compute. reflexivity.
Defined.

Lemma cursors_page_through_witness :
  pages None order 4 "c" query indexed = Some [stored "a" "t1" "x" 8; stored "b" "t2" "x" 7].
Proof.
  rewrite (cursors_page_through None I order order_ok indexed d "c" docs listed query 4).
  - vm_compute. reflexivity.
  - apply indexed_represents.
  - reflexivity.
  - apply listed_streamed.
  - vm_compute. reflexivity.
  - discriminate.
  - reflexivity.
  - reflexivity.
  - reflexivity.
  - reflexivity.
  - apply indexed_ok.
  - vm_compute. reflexivity.
  - intros doc i b. apply RefPayload.round_trip.
  - intros doc [Hin _]%elem_of_List_filter. revert doc Hin. apply Forall_forall.
    repeat constructor; (apply (bool_decide_unpack _); vm_compute; exact I).
  - vm_compute. lia.
Defined.

Lemma range_merge_never_plans_witness :
  plan_and order m "c" [Comparison "n" Gt_ (VNumber (PosInt 1)); Comparison "n" Lt_ (VNumber (PosInt 9))] (And []) = None.
Proof. rewrite (range_merge_never_plans order order_ok). vm_compute. reflexivity. Defined.
