(* ===== verification/Bitmap.v ===== *)
(** * The bitmap accelerator ([crates/wardsondb/src/engine/bitmap.rs])

    One bitmap of row positions per value of a tracked field, the map between
    documents and positions, the hooks that follow writes, the rebuild
    protocol and the scans. The locks and atomics are one state here: each
    function below runs alone. Logging, statistics and the snapshot files are
    left out. *)

From S2P Require Import Prelude Bytes F64 Json Errors Externals Filter Storage.
From Stdlib Require Import Ascii.

(** The [roaring] crate: compressed sets of 32-bit positions. *)
Class RoaringLib := {
  rb : Type;
  rb_new : rb;
  rb_insert : Z -> rb -> rb;
  rb_remove : Z -> rb -> rb;
  rb_and : rb -> rb -> rb;
  rb_or : rb -> rb -> rb;
  rb_sub : rb -> rb -> rb;
  rb_len : rb -> Z;
  rb_is_empty : rb -> bool;
  rb_intersection_len : rb -> rb -> Z;
  rb_iter : rb -> list Z;
  rb_serialized_size : rb -> Z;
}.

(** ** Values as keys *)

Section keys.
Context `{SerdeJson}.
Definition value_to_string_key (value : Value) : string :=
  match value with
  | VNull => "z"
  | VBool true => "t"
  | VBool false => "f"
  | VNumber n => "n" +:+ num_display n
  | VString s => "s" +:+ s
  | other => "j" +:+ default EmptyString (to_string other)
  end.
Definition string_key_to_value (key : string) : Value :=
  match key with
  | String "z"%char _ => VNull
  | String "t"%char _ => VBool true
  | String "f"%char _ => VBool false
  | String "n"%char text | String "j"%char text => default VNull (from_str text)
  | String "s"%char text => VString text
  | _ => VNull
  end.
End keys.

Section accelerator.
Context `{SerdeJson} `{RegexLib} `{RoaringLib}.

(** ** Row positions *)

Record RowPositionMap := {
  id_to_pos : gmap string Z;
  pos_to_id : list (option string);
  by_collection : gmap string rb;
  next_pos : Z;
  hole_count : Z;
}.
Definition positions_new : RowPositionMap :=
  {| id_to_pos := ∅; pos_to_id := []; by_collection := ∅; next_pos := 0; hole_count := 0 |}.

(** [vec.resize(pos + 1, None)] when [pos] is out of range, then the slot. *)
Definition set_slot (pos : Z) (x : option string) (vec : list (option string)) : list (option string) :=
  let vec := if lenZ vec <=? pos then vec ++ replicate (Z.to_nat (pos + 1 - lenZ vec)) None else vec in
  <[Z.to_nat pos := x]> vec.
Definition assign (p : RowPositionMap) (doc_id collection : string) : Z * RowPositionMap :=
  let pos := next_pos p in
  (pos,
   {| id_to_pos := <[doc_id := pos]> (id_to_pos p);
      pos_to_id := set_slot pos (Some doc_id) (pos_to_id p);
      by_collection := <[collection := rb_insert pos (default rb_new (by_collection p !! collection))]> (by_collection p);
      next_pos := wrap32 (pos + 1);
      hole_count := hole_count p |}).
Definition get_position (p : RowPositionMap) (doc_id : string) : option Z := id_to_pos p !! doc_id.
Definition get_doc_id (p : RowPositionMap) (pos : Z) : option string := pos_to_id p !! Z.to_nat pos ≫= id.
Definition positions_remove (p : RowPositionMap) (doc_id collection : string) : RowPositionMap :=
  match id_to_pos p !! doc_id with
  | None => p
  | Some pos =>
      {| id_to_pos := delete doc_id (id_to_pos p);
         pos_to_id := <[Z.to_nat pos := None]> (pos_to_id p);
         by_collection := alter (rb_remove pos) collection (by_collection p);
         next_pos := next_pos p;
         hole_count := wrap32 (hole_count p + 1) |}
  end.
Definition scope_to_collection (p : RowPositionMap) (b : rb) (collection : string) : rb :=
  match by_collection p !! collection with
  | Some members => rb_and b members
  | None => rb_new
  end.
Definition scoped_len (p : RowPositionMap) (b : rb) (collection : string) : Z :=
  default 0 (rb_intersection_len b <$> by_collection p !! collection).

(** One position of a dropped collection: its slot, its identifier, a hole. *)
Definition remove_row (st : gmap string Z * list (option string) * Z) (pos : Z) : gmap string Z * list (option string) * Z :=
  let '(ids, vec, holes) := st in
  match vec !! Z.to_nat pos ≫= id with
  | Some doc_id => (delete doc_id ids, <[Z.to_nat pos := None]> vec, wrap32 (holes + 1))
  | None => st
  end.
Definition remove_collection (p : RowPositionMap) (collection : string) : rb * RowPositionMap :=
  match by_collection p !! collection with
  | None => (rb_new, p)
  | Some removed =>
      let '(ids, vec, holes) := foldl remove_row (id_to_pos p, pos_to_id p, 0) (rb_iter removed) in
      (removed,
       {| id_to_pos := ids; pos_to_id := vec; by_collection := delete collection (by_collection p);
          next_pos := next_pos p; hole_count := wrap32 (hole_count p + holes) |})
  end.
Definition positions_len (p : RowPositionMap) : Z := wrap32 (Z.of_nat (size (id_to_pos p))).
Definition positions_clear (p : RowPositionMap) : RowPositionMap := positions_new.
Definition resolve_window (p : RowPositionMap) (positions : rb) (skip take : Z) : list string :=
  takeZ take (dropZ skip (omap (get_doc_id p) (rb_iter positions))).

(** ** Columns *)

Record BitmapColumn := {
  field_path : string;
  value_bitmaps : gmap string rb;
  exists_bitmap : rb;
  cardinality : Z;
}.
Definition BitmapColumn_new (path : string) : BitmapColumn :=
  {| field_path := path; value_bitmaps := ∅; exists_bitmap := rb_new; cardinality := 0 |}.

(** The bit of a position under a key, within the cap on distinct values. *)
Definition add_bit (max_card : Z) (key : string) (pos : Z) (bitmaps : gmap string rb) (card : Z) : gmap string rb * Z :=
  if (card <? max_card) || bool_decide (is_Some (bitmaps !! key)) then
    let is_new := bool_decide (bitmaps !! key = None) in
    let bitmaps := <[key := rb_insert pos (default rb_new (bitmaps !! key))]> bitmaps in
    (bitmaps, if is_new then wrap32 (Z.of_nat (size bitmaps)) else card)
  else (bitmaps, card).
Definition remove_bit (key : string) (pos : Z) (bitmaps : gmap string rb) (card : Z) : gmap string rb * Z :=
  match bitmaps !! key with
  | Some b =>
      let b := rb_remove pos b in
      if rb_is_empty b then (delete key bitmaps, wrap32 (card - 1)) else (<[key := b]> bitmaps, card)
  | None => (bitmaps, card)
  end.
Definition with_bits (col : BitmapColumn) (bits : gmap string rb * Z) (e : rb) : BitmapColumn :=
  {| field_path := field_path col; value_bitmaps := bits.1; exists_bitmap := e; cardinality := bits.2 |}.

(** The bodies of the hooks' loops over the columns. *)
Definition insert_column (max_card : Z) (doc : Value) (pos : Z) (field : string) (col : BitmapColumn) : BitmapColumn :=
  match resolve_json_path doc field with
  | Some value =>
      with_bits col (add_bit max_card (value_to_string_key value) pos (value_bitmaps col) (cardinality col))
        (rb_insert pos (exists_bitmap col))
  | None => col
  end.
Definition delete_column (doc : Value) (pos : Z) (field : string) (col : BitmapColumn) : BitmapColumn :=
  match resolve_json_path doc field with
  | Some value =>
      with_bits col (remove_bit (value_to_string_key value) pos (value_bitmaps col) (cardinality col))
        (rb_remove pos (exists_bitmap col))
  | None => col
  end.
Definition same_value (a b : option Value) : bool :=
  match a, b with Some a, Some b => value_eqb a b | None, None => true | _, _ => false end.
Definition update_column (max_card : Z) (old_doc new_doc : Value) (pos : Z) (field : string) (col : BitmapColumn) : BitmapColumn :=
  let old_ref := resolve_json_path old_doc field in
  let new_ref := resolve_json_path new_doc field in
  if same_value old_ref new_ref then col else
  let old_val := value_to_string_key <$> old_ref in
  let new_val := value_to_string_key <$> new_ref in
  if bool_decide (old_val = new_val) then col else
  let bits := (value_bitmaps col, cardinality col) in
  let bits := match old_val with Some key => remove_bit key pos bits.1 bits.2 | None => bits end in
  let bits := match new_val with Some key => add_bit max_card key pos bits.1 bits.2 | None => bits end in
  with_bits col bits
    (match old_val, new_val with
     | Some _, None => rb_remove pos (exists_bitmap col)
     | None, Some _ => rb_insert pos (exists_bitmap col)
     | _, _ => exists_bitmap col
     end).
Definition drop_column (removed : rb) (col : BitmapColumn) : BitmapColumn :=
  let bitmaps := omap (fun b => let b := rb_sub b removed in if rb_is_empty b then None else Some b) (value_bitmaps col) in
  with_bits col (bitmaps, wrap32 (Z.of_nat (size bitmaps))) (rb_sub (exists_bitmap col) removed).
Definition clear_column (col : BitmapColumn) : BitmapColumn := with_bits col (∅, 0) rb_new.

(** ** The cardinality profiler *)

Record CardinalityProfiler := {
  observed : gmap string (gset string);
  sample_count : Z;
  sample_target : Z;
  profiler_done : bool;
  skip : bool;
}.
Definition CardinalityProfiler_new (skip : bool) : CardinalityProfiler :=
  {| observed := ∅; sample_count := 0; sample_target := 10000; profiler_done := skip; skip := skip |}.
Definition set_sample_target (target : Z) (p : CardinalityProfiler) : CardinalityProfiler :=
  {| observed := observed p; sample_count := sample_count p; sample_target := Z.max target 1;
     profiler_done := profiler_done p; skip := skip p |}.
Definition profiler_reset (p : CardinalityProfiler) : CardinalityProfiler :=
  if skip p then p else
  {| observed := ∅; sample_count := 0; sample_target := sample_target p; profiler_done := false; skip := skip p |}.
Definition profiler_finish (p : CardinalityProfiler) : CardinalityProfiler :=
  {| observed := ∅; sample_count := sample_count p; sample_target := sample_target p; profiler_done := true; skip := skip p |}.
Definition is_system (key : string) : bool := match key with String "_"%char _ => true | _ => false end.
Definition saw (path : string) (value : Value) (m : gmap string (gset string)) : gmap string (gset string) :=
  <[path := {[value_to_string_key value]} ∪ default ∅ (m !! path)]> m.
Definition observe_inner (key : string) (m : gmap string (gset string)) (kv : string * Value) : gmap string (gset string) :=
  if is_system kv.1 then m else saw (key +:+ "." +:+ kv.1) kv.2 m.
Definition observe_field (m : gmap string (gset string)) (kv : string * Value) : gmap string (gset string) :=
  if is_system kv.1 then m else
  let m := saw kv.1 kv.2 m in
  match kv.2 with VObject inner => foldl (observe_inner kv.1) m inner | _ => m end.
Definition observe (p : CardinalityProfiler) (doc : Value) : CardinalityProfiler :=
  if profiler_done p then p else
  let count := wrap32 (sample_count p + 1) in
  {| observed := match doc with VObject obj => foldl observe_field (observed p) obj | _ => observed p end;
     sample_count := count; sample_target := sample_target p;
     profiler_done := (sample_target p <=? count) || profiler_done p; skip := skip p |}.

(** ** The accelerator *)

Inductive PendingOp :=
| PInsert (collection doc_id : string) (doc : Value)
| PDelete (collection doc_id : string) (doc : Value)
| PUpdate (collection doc_id : string) (old_doc new_doc : Value)
| PDropCollection (collection : string).

Record AcceleratorConfig := { bitmap_fields : list string; max_cardinality : Z; max_memory_bytes : Z }.
Record Accelerator := {
  columns : gmap string BitmapColumn;
  positions : RowPositionMap;
  rebuild_active : bool;
  pending : list PendingOp;
  config : AcceleratorConfig;
  ready : bool;
  profiler : CardinalityProfiler;
  over_budget : bool;
  cached_memory_bytes : Z;
}.
Definition new_columns (fields : list string) (cols : gmap string BitmapColumn) : gmap string BitmapColumn :=
  foldl (fun cols field => <[field := BitmapColumn_new field]> cols) cols fields.
Definition Accelerator_new (c : AcceleratorConfig) : Accelerator :=
  {| columns := new_columns (bitmap_fields c) ∅; positions := positions_new; rebuild_active := false; pending := [];
     config := c; ready := false; profiler := CardinalityProfiler_new (negb (bool_decide (bitmap_fields c = [])));
     over_budget := false; cached_memory_bytes := 0 |}.

Definition with_columns (a : Accelerator) (cols : gmap string BitmapColumn) : Accelerator :=
  {| columns := cols; positions := positions a; rebuild_active := rebuild_active a; pending := pending a; config := config a;
     ready := ready a; profiler := profiler a; over_budget := over_budget a; cached_memory_bytes := cached_memory_bytes a |}.
Definition with_positions (a : Accelerator) (p : RowPositionMap) : Accelerator :=
  {| columns := columns a; positions := p; rebuild_active := rebuild_active a; pending := pending a; config := config a;
     ready := ready a; profiler := profiler a; over_budget := over_budget a; cached_memory_bytes := cached_memory_bytes a |}.
Definition with_profiler (a : Accelerator) (p : CardinalityProfiler) : Accelerator :=
  {| columns := columns a; positions := positions a; rebuild_active := rebuild_active a; pending := pending a; config := config a;
     ready := ready a; profiler := p; over_budget := over_budget a; cached_memory_bytes := cached_memory_bytes a |}.
Definition with_budget (a : Accelerator) (over : bool) : Accelerator :=
  {| columns := columns a; positions := positions a; rebuild_active := rebuild_active a; pending := pending a; config := config a;
     ready := ready a; profiler := profiler a; over_budget := over; cached_memory_bytes := cached_memory_bytes a |}.
Definition with_rebuild (a : Accelerator) (active : bool) (q : list PendingOp) : Accelerator :=
  {| columns := columns a; positions := positions a; rebuild_active := active; pending := q; config := config a;
     ready := ready a; profiler := profiler a; over_budget := over_budget a; cached_memory_bytes := cached_memory_bytes a |}.
Definition with_ready (a : Accelerator) (r : bool) : Accelerator :=
  {| columns := columns a; positions := positions a; rebuild_active := rebuild_active a; pending := pending a; config := config a;
     ready := r; profiler := profiler a; over_budget := over_budget a; cached_memory_bytes := cached_memory_bytes a |}.
Definition with_config (a : Accelerator) (c : AcceleratorConfig) : Accelerator :=
  {| columns := columns a; positions := positions a; rebuild_active := rebuild_active a; pending := pending a; config := c;
     ready := ready a; profiler := profiler a; over_budget := over_budget a; cached_memory_bytes := cached_memory_bytes a |}.

Definition is_ready (a : Accelerator) : bool := ready a.
Definition has_any_columns (a : Accelerator) : bool := negb (bool_decide (columns a = ∅)).
Definition has_column (a : Accelerator) (field : string) : bool := bool_decide (is_Some (columns a !! field)).
Definition set_max_cardinality (a : Accelerator) (v : Z) : Accelerator :=
  with_config a {| bitmap_fields := bitmap_fields (config a); max_cardinality := v; max_memory_bytes := max_memory_bytes (config a) |}.
Definition set_max_memory_bytes (a : Accelerator) (v : Z) : Accelerator :=
  with_config a {| bitmap_fields := bitmap_fields (config a); max_cardinality := max_cardinality (config a); max_memory_bytes := v |}.
Definition set_sample_size (a : Accelerator) (n : Z) : Accelerator := with_profiler a (set_sample_target n (profiler a)).
Definition add_field (cols : gmap string BitmapColumn) (field : string) : gmap string BitmapColumn :=
  match cols !! field with Some _ => cols | None => <[field := BitmapColumn_new field]> cols end.
Definition configure_fields (a : Accelerator) (fields : list string) : Accelerator :=
  with_config (with_columns a (foldl add_field (columns a) fields))
    {| bitmap_fields := fields; max_cardinality := max_cardinality (config a); max_memory_bytes := max_memory_bytes (config a) |}.

(** ** The hooks *)

(** Queue the operation while a rebuild owns the maps. *)
Definition queue_or (op : PendingOp) (live : Accelerator -> Accelerator) (a : Accelerator) : Accelerator :=
  if rebuild_active a then with_rebuild a true (pending a ++ [op]) else live a.

Definition profile (a : Accelerator) (doc : Value) : Accelerator :=
  if profiler_done (profiler a) then a else
  let p := observe (profiler a) doc in
  with_profiler a (if profiler_done p && bool_decide (columns a = ∅) then profiler_finish p else p).
Definition check_budget (a : Accelerator) (pos : Z) : Accelerator :=
  if (pos mod 1000 =? 0) && (0 <? max_memory_bytes (config a))
  then with_budget a (max_memory_bytes (config a) <? cached_memory_bytes a) else a.
Definition insert_live (a : Accelerator) (collection doc_id : string) (doc : Value) : Accelerator :=
  let '(pos, p) := assign (positions a) doc_id collection in
  let a := check_budget (profile (with_positions a p) doc) pos in
  if over_budget a then a
  else with_columns a (map_imap (fun field col => Some (insert_column (max_cardinality (config a)) doc pos field col)) (columns a)).
Definition delete_live (a : Accelerator) (collection doc_id : string) (doc : Value) : Accelerator :=
  match get_position (positions a) doc_id with
  | None => a
  | Some pos =>
      let a := with_positions a (positions_remove (positions a) doc_id collection) in
      with_columns a (map_imap (fun field col => Some (delete_column doc pos field col)) (columns a))
  end.
Definition update_live (a : Accelerator) (doc_id : string) (old_doc new_doc : Value) : Accelerator :=
  match get_position (positions a) doc_id with
  | None => a
  | Some pos =>
      with_columns a (map_imap (fun field col => Some (update_column (max_cardinality (config a)) old_doc new_doc pos field col)) (columns a))
  end.
Definition drop_collection_live (a : Accelerator) (collection : string) : Accelerator :=
  let '(removed, p) := remove_collection (positions a) collection in
  let a := with_positions a p in
  if rb_is_empty removed then a else with_columns a (drop_column removed <$> columns a).

Definition hook_insert (a : Accelerator) (collection doc_id : string) (doc : Value) : Accelerator :=
  queue_or (PInsert collection doc_id doc) (fun a => insert_live a collection doc_id doc) a.
Definition hook_delete (a : Accelerator) (collection doc_id : string) (doc : Value) : Accelerator :=
  queue_or (PDelete collection doc_id doc) (fun a => delete_live a collection doc_id doc) a.
Definition hook_update (a : Accelerator) (collection doc_id : string) (old_doc new_doc : Value) : Accelerator :=
  queue_or (PUpdate collection doc_id old_doc new_doc) (fun a => update_live a doc_id old_doc new_doc) a.
Definition hook_drop_collection (a : Accelerator) (collection : string) : Accelerator :=
  queue_or (PDropCollection collection) (fun a => drop_collection_live a collection) a.

(** ** Rebuilding *)

Definition clear (a : Accelerator) : Accelerator :=
  let a := with_positions a (positions_clear (positions a)) in
  let a := with_columns a (clear_column <$> columns a) in
  with_profiler (with_budget (with_ready a false) false) (profiler_reset (profiler a)).
Definition begin_rebuild (a : Accelerator) : Accelerator :=
  clear (with_rebuild (with_ready a false) true []).
Definition replay (a : Accelerator) (op : PendingOp) : Accelerator :=
  match op with
  | PInsert coll id doc =>
      match get_position (positions a) id with None => insert_live a coll id doc | Some _ => a end
  | PDelete coll id doc => delete_live a coll id doc
  | PUpdate coll id old new =>
      match get_position (positions a) id with
      | Some _ => update_live a id old new
      | None => insert_live a coll id new
      end
  | PDropCollection coll => drop_collection_live a coll
  end.
Definition finish_rebuild (a : Accelerator) : Accelerator :=
  let a' := foldl replay a (pending a) in
  with_ready (with_rebuild a' false []) true.
Fixpoint rebuild_batch (a : Accelerator) (collection : string) (docs : list (string * Value)) : Accelerator :=
  match docs with
  | [] => a
  | (doc_id, doc) :: docs =>
      if over_budget a then a else rebuild_batch (insert_live a collection doc_id doc) collection docs
  end.
Definition rebuild_from_storage (a : Accelerator) (collection : string) (docs : list (string * Value)) : Accelerator :=
  finish_rebuild (rebuild_batch (begin_rebuild a) collection docs).

(** ** Scans *)

Definition scan_result : Type := rb * option FilterNode.
(** The children of a conjunction: bitmaps intersected, the rest residual. *)
Definition and_step (r : option scan_result) (child : FilterNode) (st : option rb * list FilterNode) : option rb * list FilterNode :=
  match r with
  | Some (bitmap, residual) =>
      (Some (match st.1 with Some existing => rb_and existing bitmap | None => bitmap end),
       match residual with Some f => st.2 ++ [f] | None => st.2 end)
  | None => (st.1, st.2 ++ [child])
  end.
Definition and_result (st : option rb * list FilterNode) : option scan_result :=
  bitmap ← st.1;
  Some (bitmap, match st.2 with [] => None | [f] => Some f | fs => Some (And fs) end).
Definition eq_bitmap (col : BitmapColumn) (value : Value) : option rb := value_bitmaps col !! value_to_string_key value.
Definition in_bitmaps (col : BitmapColumn) (values : list Value) : rb :=
  foldl (fun r v => match eq_bitmap col v with Some b => rb_or r b | None => r end) rb_new values.
Fixpoint bitmap_scan_inner (cols : gmap string BitmapColumn) (f : FilterNode) : option scan_result :=
  match f with
  | Comparison field op value =>
      match op with
      | Eq_ => column ← cols !! field; Some (default rb_new (eq_bitmap column value), None)
      | Ne =>
          column ← cols !! field;
          Some (match eq_bitmap column value with
                | Some b => rb_sub (exists_bitmap column) b
                | None => exists_bitmap column
                end, None)
      | In =>
          column ← cols !! field;
          match value with VArray values => Some (in_bitmaps column values, None) | _ => None end
      | Exists_ =>
          column ← cols !! field;
          if default true (as_bool value) then Some (exists_bitmap column, None) else None
      | _ => None
      end
  | And children =>
      and_result ((fix go children st := match children with
        | [] => st
        | child :: children => go children (and_step (bitmap_scan_inner cols child) child st)
        end) children (None, []))
  | Or children =>
      match children with
      | [] => None
      | _ =>
          (fix go children acc := match children with
           | [] => Some (acc, None)
           | child :: children =>
               match bitmap_scan_inner cols child with
               | Some (bitmap, None) => go children (rb_or acc bitmap)
               | _ => None
               end
           end) children rb_new
      end
  | _ => None
  end.
Definition accelerator_scan (a : Accelerator) (collection : string) (f : FilterNode) : option scan_result :=
  if negb (ready a) then None else
  '(bitmap, residual) ← bitmap_scan_inner (columns a) f;
  Some (scope_to_collection (positions a) bitmap collection, residual).

(** *** Counts per value *)

(** A [HashMap] is iterated in an order of its own. *)
Context (map_order : gmap string rb -> list (string * rb)).
Definition positive (kn : string * Z) : bool := 0 <? kn.2.
Definition count_by_field (a : Accelerator) (collection field : string) : option (list (string * Z)) :=
  column ← columns a !! field;
  Some (List.filter positive (prod_map id (fun b => scoped_len (positions a) b collection) <$> map_order (value_bitmaps column))).
Definition count_by_field_filtered (a : Accelerator) (field : string) (match_bitmap : rb) : option (list (string * Z)) :=
  column ← columns a !! field;
  Some (List.filter positive (prod_map id (fun b => rb_len (rb_and b match_bitmap)) <$> map_order (value_bitmaps column))).
End accelerator.
