(* ===== verification/Bitmaps.v ===== *)
(** * The bitmap accelerator is exact

    An accelerator whose positions and bits describe the documents of the
    database stays so through the hooks of inserts, updates, deletes and
    dropped collections, and its scans cover exactly the matches of a filter.
    What this takes is explicit: identifiers used in one collection only,
    room for a value's key, and filters whose equality is that of the keys. *)

From S2P Require Import Prelude Bytes F64 Json Errors Externals Filter Secondary Backend Index Storage Document Consistency Mutations Planner Executor Execution Plans Queries Bitmap.

(** What the crate documents: bitmaps are sets, iterated in order. *)
Class RoaringLaws `{RoaringLib} : Prop := {
  rb_iter_sorted : forall b, StronglySorted Z.lt (rb_iter b);
  rb_iter_range : forall b p, p ∈ rb_iter b -> 0 <= p < 2 ^ 32;
  rb_iter_new : rb_iter rb_new = [];
  rb_iter_insert : forall p b q, 0 <= p < 2 ^ 32 -> q ∈ rb_iter (rb_insert p b) <-> q = p \/ q ∈ rb_iter b;
  rb_iter_remove : forall p b q, q ∈ rb_iter (rb_remove p b) <-> q ∈ rb_iter b /\ q <> p;
  rb_iter_and : forall a b q, q ∈ rb_iter (rb_and a b) <-> q ∈ rb_iter a /\ q ∈ rb_iter b;
  rb_iter_or : forall a b q, q ∈ rb_iter (rb_or a b) <-> q ∈ rb_iter a \/ q ∈ rb_iter b;
  rb_iter_sub : forall a b q, q ∈ rb_iter (rb_sub a b) <-> q ∈ rb_iter a /\ q ∉ rb_iter b;
  rb_len_iter : forall b, rb_len b = lenZ (rb_iter b);
  rb_is_empty_iter : forall b, rb_is_empty b = true <-> rb_iter b = [];
  rb_intersection_len_and : forall a b, rb_intersection_len a b = rb_len (rb_and a b);
}.

Section bits.
Context `{SerdeJson} `{RegexLib} `{RoaringLaws}.

(** ** Bits of a column *)

Definition has_bit (bitmaps : gmap string rb) (key : string) (p : Z) : Prop := p ∈ rb_iter (default rb_new (bitmaps !! key)).
Definition key_of (doc : Value) (field : string) : option string := value_to_string_key <$> resolve_json_path doc field.

Lemma not_in_new p : p ∉ rb_iter rb_new.
Proof. rewrite rb_iter_new. apply not_elem_of_nil. Qed.
Lemma add_bit_spec max_card key p bitmaps card k q : 0 <= p < 2 ^ 32 -> card < max_card \/ is_Some (bitmaps !! key) ->
  has_bit (add_bit max_card key p bitmaps card).1 k q <-> has_bit bitmaps k q \/ (q = p /\ k = key).
Proof.
  intros Hp Hroom. unfold add_bit, has_bit.
  replace ((card <? max_card) || _) with true.
  2: { symmetry. apply orb_true_iff. destruct Hroom; [left; lia|right; by apply bool_decide_eq_true]. }
  cbn [fst]. destruct (decide (k = key)) as [->|Hk].
  - rewrite lookup_insert_eq. cbn [default from_option id]. rewrite rb_iter_insert by done. naive_solver.
  - rewrite lookup_insert_ne by done. naive_solver.
Qed.
Lemma remove_bit_spec key p bitmaps card k q :
  has_bit (remove_bit key p bitmaps card).1 k q <-> has_bit bitmaps k q /\ ~ (q = p /\ k = key).
Proof.
  unfold remove_bit, has_bit. destruct (bitmaps !! key) as [b|] eqn:Hb.
  - assert (Hkey : q ∈ rb_iter (rb_remove p b) <-> q ∈ rb_iter b /\ q <> p) by apply rb_iter_remove.
    destruct (rb_is_empty (rb_remove p b)) eqn:He; cbn [fst]; destruct (decide (k = key)) as [->|Hk].
    + rewrite lookup_delete_eq, Hb. cbn [default from_option id]. apply rb_is_empty_iter in He. rewrite He in Hkey.
      rewrite rb_iter_new. split; [by intros ?%elem_of_nil|]. intros [Hq Hne]. apply Hkey. naive_solver.
    + rewrite lookup_delete_ne by done. naive_solver.
    + rewrite lookup_insert_eq, Hb. cbn [default from_option id]. naive_solver.
    + rewrite lookup_insert_ne by done. naive_solver.
  - cbn [fst]. split; [|naive_solver]. intros Hq. split; [done|]. intros [-> ->]. rewrite Hb in Hq. by apply not_in_new in Hq.
Qed.
Lemma drop_bits_spec removed bitmaps k q :
  has_bit (omap (fun b => let b := rb_sub b removed in if rb_is_empty b then None else Some b) bitmaps) k q <->
  has_bit bitmaps k q /\ q ∉ rb_iter removed.
Proof.
  unfold has_bit. rewrite lookup_omap. destruct (bitmaps !! k) as [b|]; cbn [mbind option_bind default from_option id].
  - pose proof (rb_iter_sub b removed q) as Hs. destruct (rb_is_empty (rb_sub b removed)) eqn:He; cbn [default from_option id]; [|done].
    apply rb_is_empty_iter in He. rewrite He in Hs. rewrite rb_iter_new. exact Hs.
  - rewrite rb_iter_new. split; [by intros ?%elem_of_nil|]. by intros [?%elem_of_nil _].
Qed.

(** ** Columns that describe rows *)

(** The rows' documents by position; positions that are not rows may keep
    stale bits, but none is at [n] or above. *)
Record column_ok (n : Z) (T : gmap Z Value) (field : string) (col : BitmapColumn) : Prop := {
  co_bits : forall key p, has_bit (value_bitmaps col) key p -> p < n;
  co_exists : forall p, p ∈ rb_iter (exists_bitmap col) -> p < n;
  co_rows : forall p doc, T !! p = Some doc ->
    (p ∈ rb_iter (exists_bitmap col) <-> is_Some (key_of doc field)) /\
    (forall key, has_bit (value_bitmaps col) key p <-> key_of doc field = Some key);
}.
(** There is room for a document's key: the column is below its cap, or has
    the key. *)
Definition key_room (max_card : Z) (doc : Value) (field : string) (col : BitmapColumn) : Prop :=
  forall key, key_of doc field = Some key -> cardinality col < max_card \/ is_Some (value_bitmaps col !! key).

Lemma insert_column_ok n T max_card doc p field col : column_ok n T field col -> n <= p -> 0 <= p < 2 ^ 32 -> T !! p = None ->
  key_room max_card doc field col -> column_ok (p + 1) (<[p := doc]> T) field (insert_column max_card doc p field col).
Proof.
  intros [Hb He Hr] Hn Hp HT Hroom. unfold insert_column. unfold key_room, key_of in Hroom.
  destruct (resolve_json_path doc field) as [w|] eqn:Hw; cbn in Hroom.
  - specialize (Hroom _ eq_refl). split; cbn [with_bits value_bitmaps exists_bitmap].
    + intros key q [Hq%Hb|[-> _]]%add_bit_spec; [lia|lia|done|done].
    + intros q [->|Hq%He]%rb_iter_insert; [lia|lia|done].
    + intros q x. rewrite rb_iter_insert by done. setoid_rewrite add_bit_spec; [|done..].
      destruct (decide (q = p)) as [->|Hne].
      * rewrite lookup_insert_eq. intros [= <-]. unfold key_of. rewrite Hw. cbn. split; [naive_solver|].
        intros key. split; [|naive_solver]. intros [Hq%Hb|[_ ->]]; [lia|done].
      * rewrite lookup_insert_ne by done. intros Hx. destruct (Hr q x Hx) as [Hr1 Hr2]. split; [naive_solver|].
        intros key. rewrite <- Hr2. naive_solver.
  - split.
    + intros key q Hq%Hb. lia.
    + intros q Hq%He. lia.
    + intros q x. destruct (decide (q = p)) as [->|Hne]; [|rewrite lookup_insert_ne by done; apply Hr].
      rewrite lookup_insert_eq. intros [= <-]. unfold key_of. rewrite Hw. cbn.
      split; [split; [intros Hq%He; lia|by intros []]|]. intros key. split; [intros Hq%Hb; lia|done].
Qed.
Lemma column_forget n T T' field col : column_ok n T field col -> (forall p doc, T' !! p = Some doc -> T !! p = Some doc) ->
  column_ok n T' field col.
Proof. intros [Hb He Hr] Hsub. split; [done..|]. intros p doc Hd%Hsub. by apply Hr. Qed.
Lemma delete_column_ok n T doc p field col : column_ok n T field col ->
  column_ok n (delete p T) field (delete_column doc p field col).
Proof.
  intros Hc. apply (column_forget _ _ (delete p T)) in Hc; [|by intros q x [_ ?]%lookup_delete_Some].
  unfold delete_column. destruct (resolve_json_path doc field) as [w|]; [|done].
  destruct Hc as [Hb He Hr]. split; cbn [with_bits value_bitmaps exists_bitmap].
  - intros key q [Hq%Hb _]%remove_bit_spec. done.
  - intros q [Hq%He _]%rb_iter_remove. done.
  - intros q x Hx. pose proof Hx as [Hne _]%lookup_delete_Some. rewrite rb_iter_remove. setoid_rewrite remove_bit_spec.
    destruct (Hr q x Hx) as [Hr1 Hr2]. split; [naive_solver|]. intros key. rewrite <- Hr2. naive_solver.
Qed.
Lemma drop_column_ok n T removed field col : column_ok n T field col -> (forall p, p ∈ rb_iter removed -> T !! p = None) ->
  column_ok n T field (drop_column removed col).
Proof.
  intros [Hb He Hr] Hrem. split; cbn [drop_column with_bits value_bitmaps exists_bitmap fst].
  - intros key q [Hq%Hb _]%drop_bits_spec. done.
  - intros q [Hq%He _]%rb_iter_sub. done.
  - intros q x Hx. assert (q ∉ rb_iter removed) by (intros Hq%Hrem; congruence).
    rewrite rb_iter_sub. setoid_rewrite drop_bits_spec. destruct (Hr q x Hx) as [Hr1 Hr2]. split; [naive_solver|].
    intros key. rewrite <- Hr2. naive_solver.
Qed.

(** The counter of distinct values is their number. *)
Definition card_ok (bitmaps : gmap string rb) (card : Z) : Prop := card = Z.of_nat (size bitmaps) /\ card < 2 ^ 32.
Lemma add_bit_card max_card key p bitmaps card : max_card < 2 ^ 32 -> card_ok bitmaps card ->
  let bits := add_bit max_card key p bitmaps card in card_ok bits.1 bits.2.
Proof.
  intros Hmax [-> Hlt]. unfold add_bit, card_ok. destruct (_ || _) eqn:E; cbn [fst snd]; [|done].
  destruct (bitmaps !! key) as [b|] eqn:Hb.
  - rewrite bool_decide_false by done. rewrite map_size_insert_Some by done. done.
  - rewrite bool_decide_true by done. rewrite map_size_insert_None by done.
    rewrite bool_decide_false, orb_false_r in E by by intros []. apply Z.ltb_lt in E. unfold wrap32. rewrite Z.mod_small by lia. lia.
Qed.
Lemma remove_bit_card key p bitmaps card : card_ok bitmaps card ->
  let bits := remove_bit key p bitmaps card in card_ok bits.1 bits.2 /\ bits.2 <= card.
Proof.
  intros [-> Hlt]. unfold remove_bit, card_ok. destruct (bitmaps !! key) as [b|] eqn:Hb; [|cbn; lia].
  destruct (rb_is_empty _); cbn [fst snd].
  - assert (Hpos : (0 < size bitmaps)%nat) by (apply Nat.neq_0_lt_0; rewrite map_size_non_empty_iff; intros ->; by rewrite lookup_empty in Hb).
    rewrite map_size_delete_Some by done. unfold wrap32. rewrite Z.mod_small by lia. lia.
  - rewrite map_size_insert_Some by done. lia.
Qed.
Lemma remove_bit_keeps key key' p bitmaps card : key <> key' -> is_Some (bitmaps !! key') ->
  is_Some ((remove_bit key p bitmaps card).1 !! key').
Proof.
  intros Hne Hk. unfold remove_bit. destruct (bitmaps !! key); [|done].
  destruct (rb_is_empty _); cbn [fst]; by rewrite ?lookup_delete_ne, ?lookup_insert_ne.
Qed.
Lemma omap_size {A} (f : A -> option A) (m : gmap string A) : (size (omap f m) <= size m)%nat.
Proof.
  rewrite <- !size_dom. apply subseteq_size. intros k. rewrite !elem_of_dom, lookup_omap. destruct (m !! k); [done|by intros []].
Qed.

(** Equal values share their key. *)
Definition keys_respect (old new : Value) (field : string) : Prop :=
  same_value (resolve_json_path old field) (resolve_json_path new field) = true -> key_of old field = key_of new field.

(** The column of an update: the same, or a bit moved. *)
Lemma update_column_bits max_card old new p field col k q : 0 <= p < 2 ^ 32 -> keys_respect old new field ->
  card_ok (value_bitmaps col) (cardinality col) -> key_room max_card new field col ->
  has_bit (value_bitmaps (update_column max_card old new p field col)) k q <->
  if decide (key_of old field = key_of new field) then has_bit (value_bitmaps col) k q
  else has_bit (value_bitmaps col) k q /\ ~ (q = p /\ key_of old field = Some k) \/ q = p /\ key_of new field = Some k.
Proof.
  intros Hp Hresp Hcard Hroom. unfold update_column. unfold keys_respect in Hresp. unfold key_room in Hroom.
  destruct (same_value _ _); [by rewrite decide_True by auto|]. clear Hresp.
  fold (key_of old field) (key_of new field). case_bool_decide as Hk; [by rewrite decide_True|]. rewrite decide_False by done.
  cbn [with_bits value_bitmaps fst snd]. destruct (key_of old field) as [ko|] eqn:Ho, (key_of new field) as [kn|] eqn:Hn; try done; cbn [fst snd].
  - rewrite add_bit_spec; [|done|].
    + rewrite remove_bit_spec. naive_solver.
    + destruct (Hroom kn eq_refl) as [?|?]; [left|right].
      * destruct (remove_bit_card ko p _ _ Hcard). lia.
      * apply remove_bit_keeps; [congruence|done].
  - rewrite remove_bit_spec. naive_solver.
  - rewrite add_bit_spec by auto. naive_solver.
Qed.
Lemma update_column_exists max_card old new p field col q : 0 <= p < 2 ^ 32 -> keys_respect old new field ->
  q ∈ rb_iter (exists_bitmap (update_column max_card old new p field col)) <->
  match key_of old field, key_of new field with
  | Some _, None => q ∈ rb_iter (exists_bitmap col) /\ q <> p
  | None, Some _ => q ∈ rb_iter (exists_bitmap col) \/ q = p
  | _, _ => q ∈ rb_iter (exists_bitmap col)
  end.
Proof.
  intros Hp Hresp. unfold update_column, keys_respect in *.
  destruct (same_value _ _); [rewrite Hresp by done; by destruct (key_of new field)|]. clear Hresp.
  fold (key_of old field) (key_of new field). case_bool_decide as Hk; [rewrite Hk; by destruct (key_of new field)|].
  cbn [with_bits exists_bitmap]. destruct (key_of old field), (key_of new field); try done.
  - apply rb_iter_remove.
  - rewrite rb_iter_insert by done. naive_solver.
Qed.
Lemma update_column_ok n T max_card old new p field col : column_ok n T field col -> 0 <= p < n -> n <= 2 ^ 32 -> T !! p = Some old ->
  keys_respect old new field -> card_ok (value_bitmaps col) (cardinality col) -> key_room max_card new field col ->
  column_ok n (<[p := new]> T) field (update_column max_card old new p field col).
Proof.
  intros [Hb He Hr] Hp Hn HT Hresp Hcard Hroom. assert (Hp' : 0 <= p < 2 ^ 32) by lia. destruct (Hr p old HT) as [Hro1 Hro2]. split.
  - intros k q Hq. rewrite update_column_bits in Hq by done. destruct (decide _); [by apply Hb in Hq|].
    destruct Hq as [[Hq%Hb _]|[-> _]]; [done|lia].
  - intros q Hq. rewrite update_column_exists in Hq by done.
    destruct (key_of old field), (key_of new field); try (by apply He); [by apply He, Hq|destruct Hq as [Hq%He| ->]; [done|lia]].
  - intros q x. setoid_rewrite update_column_bits; [|done..]. rewrite update_column_exists by done.
    destruct (decide (q = p)) as [->|Hne].
    + rewrite lookup_insert_eq. intros [= <-]. split.
      * destruct (key_of old field), (key_of new field); naive_solver.
      * intros k. specialize (Hro2 k). destruct (decide _) as [E|E]; [by rewrite <- E|]. naive_solver.
    + rewrite lookup_insert_ne by done. intros Hx. destruct (Hr q x Hx) as [Hr1 Hr2]. split.
      * rewrite <- Hr1. destruct (key_of old field), (key_of new field); naive_solver.
      * intros k. rewrite <- Hr2. destruct (decide _); naive_solver.
Qed.
End bits.

(** ** Rows *)

Abbreviation db := (gmap string (gmap string Value)).

Section rows.
Context `{SerdeJson} `{RegexLib} `{RoaringLaws}.

Definition doc_at (d : db) (c id : string) : option Value := d !! c ≫= fun docs => docs !! id.
(** No identifier is used in two collections. *)
Definition ids_apart (d : db) : Prop := forall c1 c2 id, is_Some (doc_at d c1 id) -> is_Some (doc_at d c2 id) -> c1 = c2.
Definition members (p : RowPositionMap) (c : string) : list Z := rb_iter (default rb_new (by_collection p !! c)).
Definition slot (vec : list (option string)) (pos : Z) : option string := vec !! Z.to_nat pos ≫= fun x => x.

(** The two maps are inverse. *)
Definition inverse (ids : gmap string Z) (vec : list (option string)) : Prop :=
  forall id pos, ids !! id = Some pos <-> 0 <= pos /\ slot vec pos = Some id.
Lemma slot_below vec pos id : 0 <= pos -> slot vec pos = Some id -> pos < lenZ vec.
Proof. unfold slot, lenZ. intros Hp Hs. destruct (vec !! Z.to_nat pos) eqn:E; [|done]. apply lookup_lt_Some in E. lia. Qed.
Lemma slot_insert vec p q x : 0 <= p < lenZ vec -> 0 <= q -> slot (<[Z.to_nat p := x]> vec) q = if decide (q = p) then x else slot vec q.
Proof.
  unfold slot, lenZ. intros Hp Hq. destruct (decide (q = p)) as [->|Hne]; [rewrite list_lookup_insert_eq by lia; by destruct x|].
  rewrite list_lookup_insert_ne by lia. done.
Qed.
Lemma inverse_insert ids vec p id : inverse ids vec -> lenZ vec = p -> ids !! id = None ->
  inverse (<[id := p]> ids) (set_slot p (Some id) vec).
Proof.
  intros Hinv Hp Hid. assert (Hset : set_slot p (Some id) vec = <[Z.to_nat p := Some id]> (vec ++ [None])).
  { unfold set_slot. rewrite Hp, Z.leb_refl. replace (Z.to_nat (p + 1 - p)) with 1%nat by lia. done. }
  assert (Hp0 : 0 <= p) by (unfold lenZ in Hp; lia). rewrite Hset.
  assert (Hl : lenZ (vec ++ [None]) = p + 1) by (unfold lenZ in *; rewrite length_app; cbn; lia).
  assert (Happ : forall q, 0 <= q -> slot (vec ++ [None]) q = slot vec q).
  { intros q Hq. unfold slot. destruct (decide (Z.to_nat q < length vec)%nat) as [Hlt|Hge].
    - by rewrite lookup_app_l.
    - rewrite lookup_app_r, (lookup_ge_None_2 vec) by lia. cbn. by destruct (Z.to_nat q - length vec)%nat. }
  intros j q. destruct (decide (j = id)) as [->|Hj].
  - rewrite lookup_insert_eq. split.
    + intros [= <-]. split; [done|]. rewrite slot_insert by lia. by rewrite decide_True.
    + intros [Hq Hs]. rewrite slot_insert in Hs by lia. destruct (decide (q = p)) as [->|]; [done|].
      rewrite Happ in Hs by done. assert (ids !! id = Some q) by (by apply Hinv). congruence.
  - rewrite lookup_insert_ne by done. rewrite (Hinv j q). split; intros [Hq Hs]; (split; [done|]).
    + rewrite slot_insert by lia. rewrite decide_False; [by rewrite Happ|]. intros ->. apply slot_below in Hs; lia.
    + rewrite slot_insert in Hs by lia. destruct (decide (q = p)); [by injection Hs as ->|]. by rewrite Happ in Hs.
Qed.
Lemma inverse_delete ids vec p id : inverse ids vec -> ids !! id = Some p ->
  inverse (delete id ids) (<[Z.to_nat p := None]> vec).
Proof.
  intros Hinv Hid. apply Hinv in Hid as [Hp Hs]. pose proof (slot_below _ _ _ Hp Hs) as Hlt.
  intros j q. rewrite lookup_delete_Some, (Hinv j q). split.
  - intros [Hj [Hq Hsq]]. split; [done|]. rewrite slot_insert by lia. rewrite decide_False; [done|]. intros ->. congruence.
  - intros [Hq Hsq]. rewrite slot_insert in Hsq by lia. destruct (decide (q = p)); [done|]. split; [|done].
    intros ->. assert (ids !! j = Some q) by (by apply Hinv). assert (ids !! j = Some p) by (by apply Hinv). congruence.
Qed.

(** Rows and the documents at them. *)
Record rows_ok (p : RowPositionMap) (d : db) (T : gmap Z Value) : Prop := {
  ro_inverse : inverse (id_to_pos p) (pos_to_id p);
  ro_length : lenZ (pos_to_id p) = next_pos p;
  ro_range : next_pos p < 2 ^ 32;
  ro_row : forall pos doc, T !! pos = Some doc -> exists id, id_to_pos p !! id = Some pos;
  ro_id : forall id pos, id_to_pos p !! id = Some pos -> exists c, pos ∈ members p c /\ is_Some (doc_at d c id);
  ro_member : forall c pos, pos ∈ members p c -> exists id, id_to_pos p !! id = Some pos /\ is_Some (doc_at d c id);
  ro_doc : forall c id doc, doc_at d c id = Some doc ->
    exists pos, id_to_pos p !! id = Some pos /\ pos ∈ members p c /\ T !! pos = Some doc;
}.
Lemma ro_pos_range p d T id pos : rows_ok p d T -> id_to_pos p !! id = Some pos -> 0 <= pos < next_pos p.
Proof.
  intros [Hinv Hlen _ _ _ _ _] Hid. apply Hinv in Hid as [Hp Hs]. pose proof (slot_below _ _ _ Hp Hs). lia.
Qed.
Lemma positions_injective p d T i j pos : rows_ok p d T -> id_to_pos p !! i = Some pos -> id_to_pos p !! j = Some pos -> i = j.
Proof. intros [Hinv _ _ _ _ _ _] [_ Hi]%Hinv [_ Hj]%Hinv. congruence. Qed.
Lemma rows_new : rows_ok positions_new ∅ ∅.
Proof.
  split; cbn; try done.
  - intros id pos. rewrite lookup_empty. split; [done|]. intros [_ Hs]. unfold slot in Hs. by rewrite lookup_nil in Hs.
  - intros c pos Hp. unfold members in Hp. cbn in Hp. rewrite lookup_empty in Hp. by apply not_in_new in Hp.
Qed.
(** Databases with the same documents. *)
Lemma rows_ext p d d' T : rows_ok p d T -> (forall c id, doc_at d' c id = doc_at d c id) -> rows_ok p d' T.
Proof. intros [? ? ? ? Hid Hmem Hdoc] E. split; try done; intros; rewrite ?E in *; [setoid_rewrite E|setoid_rewrite E|]; eauto. Qed.

Definition put (d : db) (c id : string) (doc : Value) : db := <[c := <[id := doc]> (default ∅ (d !! c))]> d.
Definition drop_doc (d : db) (c id : string) : db := alter (delete id) c d.
Lemma doc_at_put d c id doc c' id' : doc_at (put d c id doc) c' id' =
  if decide (c' = c /\ id' = id) then Some doc else doc_at d c' id'.
Proof.
  unfold doc_at, put. destruct (decide (c' = c)) as [->|Hc].
  - rewrite lookup_insert_eq. cbn. destruct (decide (id' = id)) as [->|Hid].
    + by rewrite lookup_insert_eq, decide_True.
    + rewrite lookup_insert_ne, decide_False by naive_solver. destruct (d !! c); cbn; [done|]. by rewrite lookup_empty.
  - rewrite lookup_insert_ne, decide_False by naive_solver. done.
Qed.
Lemma doc_at_drop d c id c' id' : doc_at (drop_doc d c id) c' id' =
  if decide (c' = c /\ id' = id) then None else doc_at d c' id'.
Proof.
  unfold doc_at, drop_doc. destruct (decide (c' = c)) as [->|Hc].
  - rewrite lookup_alter_eq. destruct (d !! c) as [docs|]; cbn; [|by case_decide]. destruct (decide (id' = id)) as [->|Hid].
    + by rewrite lookup_delete_eq, decide_True.
    + by rewrite lookup_delete_ne, decide_False by naive_solver.
  - rewrite lookup_alter_ne, decide_False by naive_solver. done.
Qed.
Lemma doc_at_delete d c c' id : doc_at (delete c d) c' id = if decide (c' = c) then None else doc_at d c' id.
Proof. unfold doc_at. case_decide as Hc; [subst; by rewrite lookup_delete_eq|by rewrite lookup_delete_ne]. Qed.

(** *** Assigning, removing, dropping *)

Lemma members_assign p c id c' q : 0 <= next_pos p < 2 ^ 32 ->
  q ∈ members (assign p id c).2 c' <-> q ∈ members p c' \/ (c' = c /\ q = next_pos p).
Proof.
  intros Hp. unfold members. cbn. destruct (decide (c' = c)) as [->|Hc].
  - rewrite lookup_insert_eq. cbn. rewrite rb_iter_insert by done. naive_solver.
  - rewrite lookup_insert_ne by done. naive_solver.
Qed.
Lemma assign_ok p d T c id doc : rows_ok p d T -> (forall c', doc_at d c' id = None) -> next_pos p + 1 < 2 ^ 32 ->
  T !! next_pos p = None /\ rows_ok (assign p id c).2 (put d c id doc) (<[next_pos p := doc]> T).
Proof.
  intros Hrows Hfresh Hroom. pose proof Hrows as [Hinv Hlen Hrange Hrow Hid Hmem Hdoc].
  assert (Hn : 0 <= next_pos p < 2 ^ 32) by (rewrite <- Hlen in *; unfold lenZ in *; lia).
  assert (Hnone : id_to_pos p !! id = None).
  { destruct (id_to_pos p !! id) as [pos|] eqn:E; [|done]. destruct (Hid _ _ E) as (c' & _ & Hd). rewrite Hfresh in Hd. by destruct Hd. }
  assert (Hnew : forall pos, (exists i, id_to_pos p !! i = Some pos) -> pos <> next_pos p).
  { intros pos [i Hi]. pose proof (ro_pos_range p d T i pos Hrows Hi). lia. }
  assert (HT : T !! next_pos p = None).
  { destruct (T !! next_pos p) eqn:E; [|done]. by destruct (Hnew _ (Hrow _ _ E)). }
  assert (Hids : id_to_pos (assign p id c).2 = <[id := next_pos p]> (id_to_pos p)) by done.
  assert (Hvec : pos_to_id (assign p id c).2 = set_slot (next_pos p) (Some id) (pos_to_id p)) by done.
  assert (Hnext : next_pos (assign p id c).2 = wrap32 (next_pos p + 1)) by done.
  split; [done|]. split; rewrite ?Hids, ?Hvec, ?Hnext.
  - by apply inverse_insert.
  - unfold set_slot. rewrite Hlen, Z.leb_refl. unfold wrap32, lenZ in *. rewrite Z.mod_small by lia.
    rewrite length_insert, length_app, length_replicate. lia.
  - unfold wrap32. rewrite Z.mod_small by lia. done.
  - intros pos x [[<- _]|[_ Hx]]%lookup_insert_Some; [exists id; by rewrite lookup_insert_eq|].
    destruct (Hrow _ _ Hx) as [i Hi]. exists i. rewrite lookup_insert_ne; [done|]. intros ->. congruence.
  - intros i pos. setoid_rewrite members_assign; [|done]. setoid_rewrite doc_at_put. intros [[<- <-]|[Hne Hi]]%lookup_insert_Some.
    + exists c. rewrite decide_True by done. auto.
    + destruct (Hid _ _ Hi) as (c' & Hc' & Hd). exists c'. split; [auto|]. rewrite decide_False by naive_solver. done.
  - intros c' pos. rewrite members_assign by done. setoid_rewrite doc_at_put. intros [Hpos|[-> ->]].
    + destruct (Hmem _ _ Hpos) as (i & Hi & Hd). assert (i <> id) by congruence.
      exists i. rewrite lookup_insert_ne by done. split; [done|]. by rewrite decide_False by naive_solver.
    + exists id. rewrite lookup_insert_eq, decide_True by done. eauto.
  - intros c' i x. rewrite doc_at_put. setoid_rewrite members_assign; [|done]. case_decide as Hci.
    + destruct Hci as [-> ->]. intros [= <-]. exists (next_pos p). rewrite !lookup_insert_eq. auto.
    + intros Hx. destruct (Hdoc _ _ _ Hx) as (pos & Hi & Hm & Hp). exists pos.
      assert (i <> id) by (intros ->; by rewrite Hfresh in Hx).
      rewrite lookup_insert_ne by done. split; [done|]. split; [auto|]. rewrite lookup_insert_ne; [done|].
      intros E. by apply (Hnew pos); eauto.
Qed.

Lemma members_remove p c id pos c' q : id_to_pos p !! id = Some pos ->
  q ∈ members (positions_remove p id c) c' <-> q ∈ members p c' /\ ~ (c' = c /\ q = pos).
Proof.
  intros Hid. unfold members, positions_remove. rewrite Hid. cbn. destruct (decide (c' = c)) as [->|Hc].
  - rewrite lookup_alter_eq. destruct (by_collection p !! c) as [b|]; cbn; [rewrite rb_iter_remove; naive_solver|].
    rewrite rb_iter_new. split; [by intros ?%elem_of_nil|]. by intros [?%elem_of_nil _].
  - rewrite lookup_alter_ne by done. naive_solver.
Qed.
Lemma remove_ok p d T c id doc : rows_ok p d T -> ids_apart d -> doc_at d c id = Some doc ->
  exists pos, get_position p id = Some pos /\ T !! pos = Some doc /\
    rows_ok (positions_remove p id c) (drop_doc d c id) (delete pos T).
Proof.
  intros Hrows Hapart Hd. pose proof Hrows as [Hinv Hlen Hrange Hrow Hid Hmem Hdoc].
  destruct (Hdoc _ _ _ Hd) as (pos & Hpos & Hm & HT). exists pos. split; [done|]. split; [done|].
  assert (Hinj : forall i, id_to_pos p !! i = Some pos -> i = id) by (intros i Hi; by eapply positions_injective).
  assert (Hnext : next_pos (positions_remove p id c) = next_pos p) by (unfold positions_remove; by rewrite Hpos).
  assert (Hids : id_to_pos (positions_remove p id c) = delete id (id_to_pos p)) by (unfold positions_remove; by rewrite Hpos).
  assert (Hvec : pos_to_id (positions_remove p id c) = <[Z.to_nat pos := None]> (pos_to_id p)) by (unfold positions_remove; by rewrite Hpos).
  split; rewrite ?Hnext, ?Hids, ?Hvec.
  - by apply inverse_delete.
  - unfold lenZ in *. by rewrite length_insert.
  - done.
  - intros q x [Hne Hx]%lookup_delete_Some. destruct (Hrow _ _ Hx) as [i Hi]. exists i.
    rewrite lookup_delete_ne; [done|]. intros ->. congruence.
  - intros i q [Hne Hi]%lookup_delete_Some. setoid_rewrite members_remove; [|done]. setoid_rewrite doc_at_drop.
    destruct (Hid _ _ Hi) as (c' & Hc' & Hdi). exists c'. rewrite decide_False by naive_solver. split; [|done].
    split; [done|]. intros [_ ->]. by apply Hne, symmetry, Hinj.
  - intros c' q. rewrite members_remove by done. setoid_rewrite doc_at_drop. intros [Hq Hne].
    destruct (Hmem _ _ Hq) as (i & Hi & Hdi). exists i. assert (i <> id).
    { intros ->. assert (q = pos) by congruence. assert (c' = c) by (apply (Hapart c' c id); [done|by eexists]). naive_solver. }
    rewrite lookup_delete_ne by done. split; [done|]. by rewrite decide_False by naive_solver.
  - intros c' i x. rewrite doc_at_drop. setoid_rewrite members_remove; [|done]. case_decide as Hci; [done|]. intros Hx.
    destruct (Hdoc _ _ _ Hx) as (q & Hq & Hmq & HTq). exists q. assert (i <> id).
    { intros ->. assert (c' = c) by (apply (Hapart c' c id); by eexists). naive_solver. }
    rewrite lookup_delete_ne by done. assert (q <> pos) by (intros ->; by apply Hinj in Hq).
    split; [done|]. split; [naive_solver|]. by rewrite lookup_delete_ne.
Qed.
Lemma update_ok p d T c id old new : rows_ok p d T -> ids_apart d -> doc_at d c id = Some old ->
  exists pos, get_position p id = Some pos /\ 0 <= pos < next_pos p /\ T !! pos = Some old /\ rows_ok p (put d c id new) (<[pos := new]> T).
Proof.
  intros Hrows Hapart Hd. pose proof Hrows as [Hinv Hlen Hrange Hrow Hid Hmem Hdoc].
  destruct (Hdoc _ _ _ Hd) as (pos & Hpos & Hm & HT). exists pos. split; [done|]. split; [by eapply ro_pos_range|]. split; [done|].
  assert (Hsome : forall c' i, is_Some (doc_at (put d c id new) c' i) <-> is_Some (doc_at d c' i)).
  { intros c' i. rewrite doc_at_put. case_decide as Hci; [|done]. destruct Hci as [-> ->]. rewrite Hd. split; intros _; by eexists. }
  split; try done.
  - intros q x [[<- _]|[_ Hx]]%lookup_insert_Some; eauto.
  - intros i q Hi. setoid_rewrite Hsome. eauto.
  - intros c' q. setoid_rewrite Hsome. eauto.
  - intros c' i x. rewrite doc_at_put. case_decide as Hci.
    + destruct Hci as [-> ->]. intros [= <-]. exists pos. by rewrite lookup_insert_eq.
    + intros Hx. destruct (Hdoc _ _ _ Hx) as (q & Hq & Hmq & HTq). exists q. split; [done|]. split; [done|].
      rewrite lookup_insert_ne; [done|]. intros <-. assert (i = id) as -> by by eapply positions_injective.
      apply Hci. split; [|done]. apply (Hapart c' c id); by eexists.
Qed.

Lemma remove_rows_spec L ids vec holes : inverse ids vec -> Forall (fun p => 0 <= p) L ->
  let '(ids', vec', _) := foldl remove_row (ids, vec, holes) L in
  inverse ids' vec' /\ length vec' = length vec /\ forall id pos, ids' !! id = Some pos <-> ids !! id = Some pos /\ pos ∉ L.
Proof.
  intros Hinv HL. revert ids vec holes Hinv; induction HL as [|p L Hp _ IH]; intros ids vec holes Hinv; cbn [foldl].
  { split_and!; [done..|]. intros id pos. split; [|by intros []]. intros ?. split; [done|apply not_elem_of_nil]. }
  unfold remove_row at 2. destruct (vec !! Z.to_nat p ≫= id) as [i|] eqn:E.
  - assert (Hi : ids !! i = Some p) by (apply Hinv; done).
    specialize (IH _ _ (wrap32 (holes + 1)) (inverse_delete ids vec p i Hinv Hi)).
    destruct (foldl remove_row _ L) as [[ids' vec'] ?]. destruct IH as (A & B & C). split; [done|].
    split; [by rewrite B, length_insert|]. intros j q. rewrite C, lookup_delete_Some, not_elem_of_cons. split.
    + intros [[Hne Hj] Hq]. split_and!; try done. intros ->. apply Hinv in Hi as [_ Hi], Hj as [_ Hj]. congruence.
    + intros (Hj & Hne & Hq). split; [|done]. split; [|done]. intros ->. congruence.
  - specialize (IH _ _ holes Hinv). destruct (foldl remove_row _ L) as [[ids' vec'] ?]. destruct IH as (A & B & C).
    split_and!; [done..|]. intros j q. rewrite C, not_elem_of_cons. split; [|naive_solver].
    intros [Hj Hq]. split_and!; try done. intros ->. apply Hinv in Hj as [_ Hj]. unfold slot in Hj. unfold id in E. congruence.
Qed.
Definition without_rows (L : list Z) (T : gmap Z Value) : gmap Z Value := filter (fun kv => kv.1 ∉ L) T.
Lemma without_rows_Some L T pos doc : without_rows L T !! pos = Some doc <-> T !! pos = Some doc /\ pos ∉ L.
Proof. unfold without_rows. rewrite map_lookup_filter_Some. done. Qed.
Lemma remove_collection_ok p d T c : rows_ok p d T -> ids_apart d ->
  rb_iter (remove_collection p c).1 = members p c /\ next_pos (remove_collection p c).2 = next_pos p /\
  (forall id pos, id_to_pos (remove_collection p c).2 !! id = Some pos <-> id_to_pos p !! id = Some pos /\ pos ∉ members p c) /\
  rows_ok (remove_collection p c).2 (delete c d) (without_rows (members p c) T).
Proof.
  intros Hrows Hapart. pose proof Hrows as [Hinv Hlen Hrange Hrow Hid Hmem Hdoc].
  assert (Hnn : Forall (fun q => 0 <= q) (members p c)) by (apply Forall_forall; intros q Hq; apply rb_iter_range in Hq; lia).
  assert (Hout : forall c' q, c' <> c -> q ∈ members p c' -> q ∉ members p c).
  { intros c' q Hc' Hq Hq'. destruct (Hmem _ _ Hq) as (i & Hi & Hdi), (Hmem _ _ Hq') as (j & Hj & Hdj).
    assert (j = i) as -> by by eapply positions_injective. by apply Hc', (Hapart c' c i). }
  assert (Hspec : exists ids vec, rb_iter (remove_collection p c).1 = members p c /\
    id_to_pos (remove_collection p c).2 = ids /\ pos_to_id (remove_collection p c).2 = vec /\
    next_pos (remove_collection p c).2 = next_pos p /\ by_collection (remove_collection p c).2 = delete c (by_collection p) /\
    inverse ids vec /\ length vec = length (pos_to_id p) /\
    forall id pos, ids !! id = Some pos <-> id_to_pos p !! id = Some pos /\ pos ∉ members p c).
  { unfold remove_collection, members. destruct (by_collection p !! c) as [b|] eqn:Hb; cbn [default from_option id].
    - pose proof (remove_rows_spec (rb_iter b) (id_to_pos p) (pos_to_id p) 0 Hinv) as Hr.
      unfold members in Hnn. rewrite Hb in Hnn. specialize (Hr Hnn).
      destruct (foldl remove_row _ _) as [[ids vec] holes]. destruct Hr as (A & B & C). by exists ids, vec.
    - exists (id_to_pos p), (pos_to_id p). split_and!; try done; [by rewrite delete_id|].
      intros id pos. rewrite rb_iter_new. split; [|by intros []]. intros ?. split; [done|apply not_elem_of_nil]. }
  destruct Hspec as (ids & vec & Hrem & Eids & Evec & Enext & Eby & Hinv' & Hlen' & Hids). split; [done|]. split; [done|]. split; [by rewrite Eids|].
  assert (Hm' : forall c' q, q ∈ members (remove_collection p c).2 c' <-> c' <> c /\ q ∈ members p c').
  { intros c' q. unfold members. rewrite Eby. destruct (decide (c' = c)) as [->|Hne].
    - rewrite lookup_delete_eq. cbn. rewrite rb_iter_new. split; [by intros ?%elem_of_nil|by intros []].
    - rewrite lookup_delete_ne by done. naive_solver. }
  split; rewrite ?Eids, ?Evec, ?Enext.
  - done.
  - unfold lenZ in *. by rewrite Hlen'.
  - done.
  - intros q x [Hx Hq]%without_rows_Some. destruct (Hrow _ _ Hx) as [i Hi]. exists i. by apply Hids.
  - intros i q [Hi Hq]%Hids. destruct (Hid _ _ Hi) as (c' & Hc' & Hdi). assert (c' <> c) by naive_solver.
    exists c'. by rewrite Hm', doc_at_delete, decide_False.
  - intros c' q [Hne Hq]%Hm'. destruct (Hmem _ _ Hq) as (i & Hi & Hdi). exists i. rewrite Hids, doc_at_delete, decide_False by done.
    split; [|done]. split; [done|]. by apply (Hout c').
  - intros c' i x. rewrite doc_at_delete. case_decide as Hne; [done|]. intros Hx. destruct (Hdoc _ _ _ Hx) as (q & Hq & Hmq & HTq).
    exists q. rewrite Hids, Hm', without_rows_Some. assert (q ∉ members p c) by by apply (Hout c'). done.
Qed.
End rows.

(** ** The accelerator *)

Section exact.
Context `{SerdeJson} `{RegexLib} `{RoaringLaws}.

(** Positions and bits describe the documents. *)
Definition exact (a : Accelerator) (d : db) : Prop := exists T,
  rows_ok (positions a) d T /\ forall field col, columns a !! field = Some col ->
    column_ok (next_pos (positions a)) T field col /\ card_ok (value_bitmaps col) (cardinality col).
(** There is room for a document: a position, memory and its keys. *)
Definition keys_room (a : Accelerator) (doc : Value) : Prop := max_cardinality (config a) < 2 ^ 32 /\
  forall field col, columns a !! field = Some col -> key_room (max_cardinality (config a)) doc field col.
Definition room (a : Accelerator) (doc : Value) : Prop := next_pos (positions a) + 1 < 2 ^ 32 /\
  over_budget (check_budget a (next_pos (positions a))) = false /\ keys_room a doc.

Lemma new_columns_empty fields cols field col : new_columns fields cols !! field = Some col ->
  cols !! field = Some col \/ col = BitmapColumn_new field.
Proof.
  unfold new_columns. revert cols; induction fields as [|g fields IH]; intros cols; cbn; [by left|].
  intros [[[<- <-]|[_ ?]]%lookup_insert_Some|?]%IH; auto.
Qed.
Lemma empty_column_ok field : column_ok 0 ∅ field (BitmapColumn_new field) /\ card_ok (value_bitmaps (BitmapColumn_new field)) 0.
Proof.
  split; [|by split]. split; cbn; try done.
  - intros key p Hp. unfold has_bit in Hp. rewrite lookup_empty in Hp. by apply not_in_new in Hp.
  - by intros p ?%not_in_new.
Qed.
Lemma new_exact c : exact (Accelerator_new c) ∅.
Proof.
  exists ∅. split; [apply rows_new|]. intros field col [Hc| ->]%new_columns_empty; [by rewrite lookup_empty in Hc|].
  apply empty_column_ok.
Qed.
Lemma exact_ext a d d' : exact a d -> (forall c id, doc_at d' c id = doc_at d c id) -> exact a d'.
Proof. intros (T & Hr & Hc) E. exists T. split; [by eapply rows_ext|done]. Qed.

(** Columns walked by a hook. *)
Lemma map_columns_lookup (g : string -> BitmapColumn -> BitmapColumn) cols field col :
  map_imap (fun f c => Some (g f c)) cols !! field = Some col -> exists col0, cols !! field = Some col0 /\ col = g field col0.
Proof. rewrite map_lookup_imap. destruct (cols !! field) as [col0|]; [|done]. intros [= <-]. by exists col0. Qed.

Lemma profile_same a doc : columns (profile a doc) = columns a /\ positions (profile a doc) = positions a /\
  config (profile a doc) = config a /\ over_budget (profile a doc) = over_budget a /\ cached_memory_bytes (profile a doc) = cached_memory_bytes a
  /\ ready (profile a doc) = ready a /\ rebuild_active (profile a doc) = rebuild_active a.
Proof. unfold profile. by destruct (profiler_done _). Qed.
Lemma budget_same a pos : columns (check_budget a pos) = columns a /\ positions (check_budget a pos) = positions a /\
  config (check_budget a pos) = config a /\ ready (check_budget a pos) = ready a /\ rebuild_active (check_budget a pos) = rebuild_active a.
Proof. unfold check_budget. by destruct (_ && _). Qed.
Lemma insert_live_spec a c id doc : over_budget (check_budget a (next_pos (positions a))) = false ->
  positions (insert_live a c id doc) = (assign (positions a) id c).2 /\
  columns (insert_live a c id doc) = map_imap (fun f col => Some (insert_column (max_cardinality (config a)) doc (next_pos (positions a)) f col)) (columns a) /\
  config (insert_live a c id doc) = config a.
Proof.
  intros Hb. unfold insert_live. destruct (assign (positions a) id c) as [pos p] eqn:E.
  assert (pos = next_pos (positions a)) as -> by (unfold assign in E; congruence). cbn [snd].
  set (a1 := profile (with_positions a p) doc). destruct (profile_same (with_positions a p) doc) as (P1 & P2 & P3 & P4 & P5 & P6 & P7).
  destruct (budget_same a1 (next_pos (positions a))) as (B1 & B2 & B3 & B4 & B5). fold a1 in P1, P2, P3, P4, P5.
  assert (over_budget (check_budget a1 (next_pos (positions a))) = false) as ->.
  { rewrite <- Hb. unfold check_budget. rewrite P3, P5. cbn [config with_positions cached_memory_bytes].
    destruct (_ && _); [done|]. by rewrite P4. }
  cbn [with_columns positions columns config]. by rewrite B1, B2, B3, P1, P2, P3.
Qed.
Lemma insert_exact a d c id doc : exact a d -> (forall c', doc_at d c' id = None) -> room a doc ->
  exact (insert_live a c id doc) (put d c id doc).
Proof.
  intros (T & Hrows & Hcols) Hfresh (Hpos & Hbud & Hmax & Hkeys).
  destruct (insert_live_spec a c id doc Hbud) as (Ep & Ec & _). destruct (assign_ok _ _ _ c id doc Hrows Hfresh Hpos) as [HT Hrows'].
  exists (<[next_pos (positions a) := doc]> T). rewrite Ep, Ec. split; [done|].
  assert (Hn : 0 <= next_pos (positions a)) by (destruct Hrows as [_ <- _ _ _ _ _]; unfold lenZ; lia).
  intros field col (col0 & Hcol & ->)%map_columns_lookup. destruct (Hcols _ _ Hcol) as [Hok Hcard].
  cbn [assign snd next_pos]. unfold wrap32. rewrite Z.mod_small by lia. split.
  - eapply insert_column_ok; [exact Hok|lia|lia|done|by apply Hkeys].
  - unfold insert_column. destruct (resolve_json_path doc field); [|done]. cbn. by apply add_bit_card.
Qed.
Lemma delete_exact a d c id doc doc' : exact a d -> ids_apart d -> doc_at d c id = Some doc ->
  exact (delete_live a c id doc') (drop_doc d c id).
Proof.
  intros (T & Hrows & Hcols) Hapart Hd. destruct (remove_ok _ _ _ c id doc Hrows Hapart Hd) as (pos & Hpos & HT & Hrows').
  unfold delete_live. rewrite Hpos. exists (delete pos T). split; [done|]. cbn [with_columns with_positions columns positions].
  assert (next_pos (positions_remove (positions a) id c) = next_pos (positions a)) as ->.
  { unfold positions_remove. unfold get_position in Hpos. by rewrite Hpos. }
  intros field col (col0 & Hcol & ->)%map_columns_lookup. destruct (Hcols _ _ Hcol) as [Hok Hcard].
  split; [by apply delete_column_ok|]. unfold delete_column. destruct (resolve_json_path doc' field); [|done].
  by apply remove_bit_card.
Qed.
Lemma update_exact a d c id old new : exact a d -> ids_apart d -> doc_at d c id = Some old -> keys_room a new ->
  (forall field, is_Some (columns a !! field) -> keys_respect old new field) ->
  exact (update_live a id old new) (put d c id new).
Proof.
  intros (T & Hrows & Hcols) Hapart Hd [Hmax Hroom] Hresp.
  destruct (update_ok _ _ _ c id old new Hrows Hapart Hd) as (pos & Hpos & Hlt & HT & Hrows').
  unfold update_live. rewrite Hpos. exists (<[pos := new]> T). split; [done|]. cbn [with_columns columns positions].
  intros field col (col0 & Hcol & ->)%map_columns_lookup. destruct (Hcols _ _ Hcol) as [Hok Hcard].
  assert (Hrange : next_pos (positions a) < 2 ^ 32) by by destruct Hrows. split.
  - apply update_column_ok; try done; [lia|by apply Hresp|by apply Hroom].
  - unfold update_column. destruct (same_value _ _); [done|]. case_bool_decide; [done|]. cbn.
    destruct (key_of old field) as [ko|] eqn:Eo, (key_of new field) as [kn|] eqn:En; unfold key_of in Eo, En; rewrite Eo, En; try done.
    + apply add_bit_card; [done|]. by apply remove_bit_card.
    + by apply remove_bit_card.
    + by apply add_bit_card.
Qed.
Lemma drop_exact a d c : exact a d -> ids_apart d -> exact (drop_collection_live a c) (delete c d).
Proof.
  intros (T & Hrows & Hcols) Hapart. destruct (remove_collection_ok _ _ _ c Hrows Hapart) as (Hrem & Hnext & _ & Hrows').
  unfold drop_collection_live. destruct (remove_collection (positions a) c) as [removed p]. cbn [fst snd] in *.
  exists (without_rows (members (positions a) c) T).
  assert (Hforget : forall field col, columns a !! field = Some col ->
    column_ok (next_pos p) (without_rows (members (positions a) c) T) field col /\ card_ok (value_bitmaps col) (cardinality col)).
  { intros field col Hcol. rewrite Hnext. destruct (Hcols _ _ Hcol) as [Hok Hcard]. split; [|done].
    eapply column_forget; [exact Hok|]. by intros q x [? _]%without_rows_Some. }
  destruct (rb_is_empty removed); (split; [done|]); cbn [with_columns with_positions columns positions].
  - exact Hforget.
  - intros field col. rewrite lookup_fmap. intros (col0 & Hcol & ->)%fmap_Some. destruct (Hforget _ _ Hcol) as [Hok [Hc1 Hc2]]. split.
    + apply drop_column_ok; [done|]. rewrite Hrem. intros q Hq. destruct (without_rows _ T !! q) eqn:E; [|done].
      by apply without_rows_Some in E as [_ []].
    + cbn. unfold card_ok, wrap32. match goal with |- context [omap ?f ?m] => pose proof (omap_size f m) as Hle end.
      rewrite Z.mod_small by lia. lia.
Qed.
End exact.

(** ** Scans *)

Lemma node_induction `{RegexLib} (P : FilterNode -> Prop) : (forall field op v, P (Comparison field op v)) -> (forall field re, P (Regex field re)) ->
  (forall l, Forall P l -> P (And l)) -> (forall l, Forall P l -> P (Or l)) -> (forall n, P n -> P (Not n)) -> forall n, P n.
Proof.
  intros Hc Hr Ha Ho Hn. fix IH 1. intros [field op v|field re|l|l|n].
  - apply Hc.
  - apply Hr.
  - apply Ha. induction l; constructor; [apply IH|done].
  - apply Ho. induction l; constructor; [apply IH|done].
  - apply Hn, IH.
Qed.

Section scans.
Context `{SerdeJson} `{RegexLib} `{RoaringLaws}.

(** A query's value and a document's are equal when their keys are. *)
Definition keys_agree (w v : Value) : Prop := values_equal w v = bool_decide (value_to_string_key w = value_to_string_key v).
Fixpoint filter_keyed (docs : gmap string Value) (f : FilterNode) : Prop :=
  let fix all l := match l with [] => True | n :: l => filter_keyed docs n /\ all l end in
  match f with
  | Comparison field op v =>
      forall id doc w, docs !! id = Some doc -> resolve_json_path doc field = Some w ->
        match op, v with
        | Eq_, _ | Ne, _ => keys_agree w v
        | In, VArray vs => Forall (keys_agree w) vs
        | _, _ => True
        end
  | And l | Or l => all l
  | _ => True
  end.
Lemma filter_keyed_children docs f : match f with And l | Or l => filter_keyed docs f -> Forall (filter_keyed docs) l | _ => True end.
Proof. destruct f as [?|?|l|l|?]; try done; cbn; induction l as [|n l IH]; [constructor|intros [? ?]; constructor; auto|constructor|intros [? ?]; constructor; auto]. Qed.

Fixpoint and_fold (cols : gmap string BitmapColumn) (children : list FilterNode) (st : option rb * list FilterNode)
    : option rb * list FilterNode :=
  match children with
  | [] => st
  | child :: children => and_fold cols children (and_step (bitmap_scan_inner cols child) child st)
  end.
Fixpoint or_fold (cols : gmap string BitmapColumn) (children : list FilterNode) (acc : rb) : option scan_result :=
  match children with
  | [] => Some (acc, None)
  | child :: children =>
      match bitmap_scan_inner cols child with
      | Some (bitmap, None) => or_fold cols children (rb_or acc bitmap)
      | _ => None
      end
  end.
Lemma scan_and cols children : bitmap_scan_inner cols (And children) = and_result (and_fold cols children (None, [])).
Proof.
  cbn. f_equal. generalize (@None rb, @nil FilterNode) as st. induction children as [|child children IH]; intros st; cbn; [done|]. apply IH.
Qed.
Lemma scan_or cols children : children <> [] -> bitmap_scan_inner cols (Or children) = or_fold cols children rb_new.
Proof.
  intros Hne. destruct children as [|n l]; [done|]. cbn [bitmap_scan_inner or_fold].
  destruct (bitmap_scan_inner cols n) as [[b [r|]]|]; try done. generalize (rb_or rb_new b) as acc.
  induction l as [|n' l IH]; intros acc; cbn [or_fold]; [done|]. destruct (bitmap_scan_inner cols n') as [[b' [r'|]]|]; try done. apply IH. done.
Qed.

Context (cols : gmap string BitmapColumn) (n : Z) (T : gmap Z Value) (docs : gmap string Value).
Context (Hcols : forall field col, cols !! field = Some col -> column_ok n T field col).
Definition row_of (p : Z) (doc : Value) : Prop := T !! p = Some doc /\ exists id, docs !! id = Some doc.

(** A bitmap and a residual select the rows of a filter's matches. *)
Definition scans (f : FilterNode) (b : rb) (r : option FilterNode) : Prop :=
  forall p doc, row_of p doc -> matches f doc = true <-> p ∈ rb_iter b /\ passes r doc = true.

Lemma eq_bitmap_bit field col v p doc : cols !! field = Some col -> row_of p doc ->
  p ∈ rb_iter (default rb_new (eq_bitmap col v)) <-> key_of doc field = Some (value_to_string_key v).
Proof. intros Hcol [HT _]. by apply (Hcols _ _ Hcol). Qed.
Lemma in_bitmaps_bit field col vs p doc : cols !! field = Some col -> row_of p doc ->
  p ∈ rb_iter (in_bitmaps col vs) <-> exists v, v ∈ vs /\ key_of doc field = Some (value_to_string_key v).
Proof.
  intros Hcol Hrow. unfold in_bitmaps. assert (Hgen : forall acc, p ∈ rb_iter (foldl (fun r v => match eq_bitmap col v with Some b => rb_or r b | None => r end) acc vs) <->
    p ∈ rb_iter acc \/ exists v, v ∈ vs /\ key_of doc field = Some (value_to_string_key v)).
  { induction vs as [|v vs IH]; intros acc; cbn [foldl].
    - split; [by left|]. intros [?|(v & ?%elem_of_nil & _)]; done.
    - rewrite IH. pose proof (eq_bitmap_bit field col v p doc Hcol Hrow) as Hv. setoid_rewrite elem_of_cons.
      destruct (eq_bitmap col v) as [b|]; cbn [default from_option id] in Hv; rewrite ?rb_iter_or.
      + naive_solver.
      + assert (p ∉ rb_iter rb_new) by apply not_in_new. naive_solver. }
  rewrite Hgen. pose proof (not_in_new p). naive_solver.
Qed.

Lemma keys_agree_iff w v : keys_agree w v -> values_equal w v = true <-> value_to_string_key w = value_to_string_key v.
Proof. unfold keys_agree. intros ->. apply bool_decide_eq_true. Qed.
Lemma comparison_scans field op v b r : filter_keyed docs (Comparison field op v) ->
  bitmap_scan_inner cols (Comparison field op v) = Some (b, r) -> scans (Comparison field op v) b r.
Proof.
  intros Hkey E p doc Hrow. cbn in Hkey. pose proof Hrow as [HT [i Hd]]. cbn [matches passes].
  specialize (Hkey i doc). cbn [bitmap_scan_inner] in E.
  destruct op; try done; apply bind_Some in E as (col & Hcol & E).
  - injection E as <- <-. rewrite (eq_bitmap_bit field col v p doc) by done. unfold key_of, evaluate_op.
    destruct (resolve_json_path doc field) as [w|] eqn:Hw; cbn; [|naive_solver].
    rewrite (keys_agree_iff w v) by exact (Hkey w Hd eq_refl). clear. split; [intros E; by rewrite E|by intros [[= E] _]].
  - injection E as <- <-. pose proof (eq_bitmap_bit field col v p doc Hcol Hrow) as Hv.
    assert (Hex : p ∈ rb_iter (exists_bitmap col) <-> is_Some (key_of doc field)) by (by apply (Hcols _ _ Hcol)).
    assert (Hsel : p ∈ rb_iter (match eq_bitmap col v with Some b => rb_sub (exists_bitmap col) b | None => exists_bitmap col end) <->
      is_Some (key_of doc field) /\ key_of doc field <> Some (value_to_string_key v)).
    { rewrite <- Hex. destruct (eq_bitmap col v) as [b|]; cbn [default from_option id] in Hv; [rewrite rb_iter_sub; naive_solver|].
      pose proof (not_in_new p). naive_solver. }
    rewrite Hsel. unfold key_of, evaluate_op. destruct (resolve_json_path doc field) as [w|] eqn:Hw; cbn.
    + rewrite negb_true_iff, <- not_true_iff_false, (keys_agree_iff w v) by exact (Hkey w Hd eq_refl). clear. split; [intros E; split; [split; [by eexists|congruence]|done]|intros [[_ Hne] _] E; by rewrite E in Hne].
    + split; [done|]. by intros [[[] ?] _].
  - destruct v as [| | | |vs|]; try done. injection E as <- <-. rewrite (in_bitmaps_bit field col vs p doc) by done.
    unfold key_of, evaluate_op. destruct (resolve_json_path doc field) as [w|] eqn:Hw; cbn.
    + rewrite existsb_exists. assert (Hall : Forall (keys_agree w) vs) by exact (Hkey w Hd eq_refl). rewrite Forall_forall in Hall.
      setoid_rewrite <- list_elem_of_In. split.
      * intros (v & Hv & E%keys_agree_iff); [|by apply Hall]. split; [|done]. exists v. by rewrite E.
      * intros [(v & Hv & [= E]) _]. exists v. split; [done|]. apply keys_agree_iff; [by apply Hall|done].
    + split; [done|]. by intros [(? & _ & ?) _].
  - destruct (default true (as_bool v)) eqn:Eb; [|done]. injection E as <- <-.
    rewrite (proj1 (co_rows _ _ _ _ (Hcols _ _ Hcol) p doc HT)). unfold key_of, evaluate_op. rewrite Eb.
    destruct (resolve_json_path doc field); cbn; [split; [by eauto|done]|]. split; [done|]. by intros [[] _].
Qed.
Definition and_sem (st : option rb * list FilterNode) (p : Z) (doc : Value) : Prop :=
  match st.1 with Some b => p ∈ rb_iter b | None => True end /\ forallb (fun f => matches f doc) st.2 = true.
Lemma and_fold_sem children st p doc : row_of p doc ->
  Forall (fun f => forall b r, bitmap_scan_inner cols f = Some (b, r) -> scans f b r) children ->
  and_sem (and_fold cols children st) p doc <-> and_sem st p doc /\ forallb (fun f => matches f doc) children = true.
Proof.
  intros Hrow Hall. revert st; induction Hall as [|f children Hf _ IH]; intros st; cbn [and_fold forallb]; [naive_solver|].
  rewrite IH, andb_true_iff. assert (Hstep : and_sem (and_step (bitmap_scan_inner cols f) f st) p doc <-> and_sem st p doc /\ matches f doc = true).
  { unfold and_sem, and_step. destruct (bitmap_scan_inner cols f) as [[b r]|]; cbn [fst snd].
    - rewrite (Hf b r eq_refl p doc Hrow). destruct r as [r|]; rewrite ?forallb_app, ?andb_true_iff; cbn [forallb passes];
        destruct st.1; rewrite ?rb_iter_and, ?andb_true_r; tauto.
    - rewrite forallb_app, andb_true_iff. cbn. rewrite andb_true_r. tauto. }
  rewrite Hstep. tauto.
Qed.
Lemma or_fold_sem children acc b r p doc : row_of p doc ->
  Forall (fun f => forall b r, bitmap_scan_inner cols f = Some (b, r) -> scans f b r) children ->
  or_fold cols children acc = Some (b, r) ->
  r = None /\ (p ∈ rb_iter b <-> p ∈ rb_iter acc \/ existsb (fun f => matches f doc) children = true).
Proof.
  intros Hrow Hall. revert acc; induction Hall as [|f children Hf _ IH]; intros acc; cbn [or_fold existsb].
  - intros [= <- <-]. naive_solver.
  - destruct (bitmap_scan_inner cols f) as [[b' [r'|]]|]; try done. intros E. destruct (IH _ E) as [-> Hb]. split; [done|].
    rewrite Hb, rb_iter_or, orb_true_iff, (Hf b' None eq_refl p doc Hrow). cbn [passes]. tauto.
Qed.
Lemma scan_sound f : filter_keyed docs f -> forall b r, bitmap_scan_inner cols f = Some (b, r) -> scans f b r.
Proof.
  induction f as [field op v|field re|l IH|l IH|f IH] using node_induction; intros Hkey b r E; try done.
  - by apply comparison_scans.
  - apply (filter_keyed_children docs (And l)) in Hkey. assert (Hall : Forall (fun f => forall b r, bitmap_scan_inner cols f = Some (b, r) -> scans f b r) l).
    { rewrite Forall_forall in *. auto. }
    rewrite scan_and in E. intros p doc Hrow. pose proof (and_fold_sem l (None, []) p doc Hrow Hall) as Hs.
    destruct (and_fold cols l (None, [])) as [[b'|] fs]; [|done]. injection E as <- <-. cbn [matches]. unfold and_sem in Hs. cbn [fst snd forallb] in Hs.
    rewrite <- (residual_passes fs doc) in Hs. unfold residual in Hs. destruct fs as [|f1 [|f2 fs]]; cbn [passes] in *; naive_solver.
  - apply (filter_keyed_children docs (Or l)) in Hkey. assert (Hall : Forall (fun f => forall b r, bitmap_scan_inner cols f = Some (b, r) -> scans f b r) l).
    { rewrite Forall_forall in *. auto. }
    destruct (decide (l = [])) as [->|Hne]; [done|]. rewrite scan_or in E by done. intros p doc Hrow.
    destruct (or_fold_sem l rb_new b r p doc Hrow Hall E) as [-> Hb]. cbn [matches passes]. rewrite Hb. pose proof (not_in_new p). naive_solver.
Qed.
End scans.

(** ** The promise to the planner and the executor *)

Lemma sorted_bound l lo hi : StronglySorted Z.lt l -> Forall (fun x => lo <= x < hi) l -> lo <= hi -> lenZ l <= hi - lo.
Proof.
  intros Hs. revert lo; induction Hs as [|x l Hs IH Hx]; intros lo Hl Hle; [unfold lenZ; cbn; lia|].
  inversion Hl as [|? ? Hxb Hl']; subst. assert (lenZ l <= hi - (x + 1)).
  { apply IH; [|lia]. rewrite Forall_forall in *. intros y Hy. specialize (Hl' y Hy). specialize (Hx y Hy). lia. }
  unfold lenZ in *. cbn. lia.
Qed.
Lemma iter_length `{RoaringLaws} b : lenZ (rb_iter b) <= 2 ^ 32.
Proof.
  rewrite <- (Z.sub_0_r (2 ^ 32)). apply sorted_bound; [apply rb_iter_sorted| |lia]. apply Forall_forall, rb_iter_range.
Qed.
Lemma iter_NoDup `{RoaringLaws} b : NoDup (rb_iter b).
Proof.
  pose proof (rb_iter_sorted b) as Hs. induction Hs as [|x l Hs IH Hx]; constructor; [|done].
  intros Hin. rewrite Forall_forall in Hx. specialize (Hx x Hin). lia.
Qed.

Section promise.
Context `{SerdeJson} `{RegexLib} `{RoaringLaws} (cfg : AcceleratorConfig).

(** The accelerator the storage runs with. *)
Definition bitmap_accelerator : ScanAccelerator := {|
  accel := Accelerator;
  accel_new := Accelerator_new cfg;
  on_insert := hook_insert;
  on_update := hook_update;
  on_delete := hook_delete;
  on_drop_collection := hook_drop_collection;
  has_columns := has_any_columns;
  set_ready := with_ready;
|}.
#[local] Existing Instance bitmap_accelerator.
Definition bitmap_scans : BitmapScans := {|
  bitmap := rb;
  bitmap_ready := is_ready;
  bitmap_scan := accelerator_scan;
  bitmap_len := rb_len;
  Planner.resolve_window := fun a => Bitmap.resolve_window (positions a);
|}.
#[local] Existing Instance bitmap_scans.

Lemma scoped_rows (p : RowPositionMap) (d : db) T c docs bm q : rows_ok p d T -> d !! c = Some docs ->
  q ∈ rb_iter (scope_to_collection p bm c) <-> q ∈ rb_iter bm /\ q ∈ members p c.
Proof.
  intros _ _. unfold scope_to_collection, members. destruct (by_collection p !! c); cbn; [apply rb_iter_and|].
  pose proof (not_in_new q). naive_solver.
Qed.
Lemma member_row (p : RowPositionMap) (d : db) T c docs q : rows_ok p d T -> d !! c = Some docs -> q ∈ members p c ->
  exists id doc, get_doc_id p q = Some id /\ docs !! id = Some doc /\ T !! q = Some doc /\ id_to_pos p !! id = Some q.
Proof.
  intros Hrows Hc Hq. pose proof Hrows as [Hinv _ _ _ _ Hmem Hdoc]. destruct (Hmem _ _ Hq) as (id & Hid & [doc Hd]).
  destruct (Hdoc _ _ _ Hd) as (q' & Hid' & _ & HT). assert (q' = q) as -> by congruence. exists id, doc.
  split_and!; try done; [by apply Hinv in Hid as [_ ?]|]. unfold doc_at in Hd. by rewrite Hc in Hd.
Qed.
Lemma resolve_length p positions : lenZ (omap (get_doc_id p) (rb_iter positions)) <= 2 ^ 32.
Proof.
  pose proof (iter_length positions) as Hl. unfold lenZ in *. enough (forall l, (length (omap (get_doc_id p) l) <= length l)%nat) as Hle by (specialize (Hle (rb_iter positions)); lia).
  induction l as [|x l IH]; cbn; [done|]. destruct (get_doc_id p x); cbn; lia.
Qed.
Lemma window_all p positions : Bitmap.resolve_window p positions 0 usize_max = omap (get_doc_id p) (rb_iter positions).
Proof.
  unfold Bitmap.resolve_window. rewrite takeZ_take, dropZ_drop, drop_0, take_ge; [done|].
  pose proof (resolve_length p positions) as Hl. unfold lenZ, usize_max in *. lia.
Qed.

Lemma exact_contract (a : Accelerator) (d : db) (c : string) (docs : gmap string Value) (f : FilterNode) :
  exact a d -> d !! c = Some docs -> filter_keyed docs f -> bitmap_contract a c docs f.
Proof.
  intros (T & Hrows & Hcols) Hc Hkey b r _ E. cbn in E. unfold accelerator_scan in E. destruct (ready a); [|done]. cbn in E.
  destruct (bitmap_scan_inner (columns a) f) as [[bm r']|] eqn:Es; [|done]. cbn in E. injection E as <- <-.
  assert (Hsound : scans T docs f bm r').
  { apply (scan_sound (columns a) (next_pos (positions a)) T docs); [|done|done]. intros field col Hcol. by apply Hcols. }
  set (p := positions a) in *. set (b := scope_to_collection p bm c).
  assert (Hb : forall q, q ∈ rb_iter b <-> q ∈ rb_iter bm /\ q ∈ members p c) by (intros; by apply (scoped_rows p d T c docs)).
  assert (Hrow : forall q, q ∈ rb_iter b -> exists id doc, get_doc_id p q = Some id /\ docs !! id = Some doc /\ T !! q = Some doc /\ id_to_pos p !! id = Some q).
  { intros q [_ Hq]%Hb. by apply (member_row p d T c docs). }
  assert (Hids : bitmap_ids a b = omap (get_doc_id p) (rb_iter b)) by apply window_all.
  assert (Hknown : Forall (fun id => is_Some (docs !! id)) (bitmap_ids a b)).
  { rewrite Hids. apply Forall_forall. intros id (q & Hq & Hid)%list_elem_of_omap.
    destruct (Hrow q Hq) as (id' & doc & Hid' & Hd & _). assert (id' = id) as -> by congruence. by exists doc. }
  split.
  - split; [done| |].
    + rewrite Hids. cbn. rewrite rb_len_iter. unfold lenZ. rewrite length_omap_all; [done|].
      apply Forall_forall. intros q Hq. destruct (Hrow q Hq) as (id & doc & -> & _). done.
    + intros offset limit Ho Hl. rewrite Hids. done.
  - split; [|split; [done|]].
    + rewrite Hids. apply NoDup_omap; [apply iter_NoDup|]. intros x y id Hx Hy Hix Hiy.
      destruct (Hrow x Hx) as (ix & ? & Ex & _ & _ & Px), (Hrow y Hy) as (iy & ? & Ey & _ & _ & Py). congruence.
    + intros id doc Hd. assert (Hdoc : doc_at d c id = Some doc) by (unfold doc_at; by rewrite Hc).
      destruct (ro_doc _ _ _ Hrows _ _ _ Hdoc) as (q & Hq & Hm & HT).
      rewrite (Hsound q doc) by (split; [done|by exists id]). rewrite Hids, list_elem_of_omap. split.
      * intros [Hqb Hp]. split; [|done]. exists q. split; [by apply Hb|]. apply (ro_inverse _ _ _ Hrows) in Hq as [_ ?]. done.
      * intros [(x & Hx & Hxi) Hp]. split; [|done]. destruct (Hrow x Hx) as (i & ? & Ei & _ & _ & Pi).
        assert (x = q) as -> by congruence. by apply Hb in Hx as [? _].
Qed.
End promise.

(** ** A reference bitmap *)

Module RefRoaring.
(** A list of positions, put in order when it is read. *)
Definition in_range (p : Z) : bool := (0 <=? p) && (p <? 2 ^ 32).
Definition iter (b : list Z) : list Z := sort_by Z.compare (remove_dups (List.filter in_range b)).
Definition mem (p : Z) (b : list Z) : bool := bool_decide (p ∈ b).
#[export] Instance roaring : RoaringLib := {
  rb := list Z;
  rb_new := [];
  rb_insert := cons;
  rb_remove p b := List.filter (fun q => negb (p =? q)) b;
  rb_and a b := List.filter (fun q => mem q b) a;
  rb_or := app;
  rb_sub a b := List.filter (fun q => negb (mem q b)) a;
  rb_len b := lenZ (iter b);
  rb_is_empty b := bool_decide (iter b = []);
  rb_intersection_len a b := lenZ (iter (List.filter (fun q => mem q b) a));
  rb_iter := iter;
  rb_serialized_size b := lenZ b;
}.
Lemma elem_iter p b : p ∈ iter b <-> p ∈ b /\ 0 <= p < 2 ^ 32.
Proof.
  unfold iter. rewrite sort_by_perm, elem_of_remove_dups, elem_of_List_filter. unfold in_range.
  rewrite andb_true_iff, Z.leb_le, Z.ltb_lt. done.
Qed.
Lemma iter_sorted b : StronglySorted Z.lt (iter b).
Proof.
  assert (Hs : StronglySorted (cmp_le Z.compare) (iter b)) by apply sort_by_strongly, _.
  assert (Hnd : NoDup (iter b)) by (unfold iter; rewrite sort_by_perm; apply NoDup_remove_dups).
  induction Hs as [|x l Hs IH Hx]; constructor; inversion Hnd as [|? ? Hnin Hnd']; subst; [by apply IH|].
  rewrite Forall_forall in *. intros y Hy. specialize (Hx y Hy). unfold cmp_le in Hx.
  destruct (Z.compare_spec x y); [subst; done|done|done].
Qed.
#[export] Instance roaring_laws : RoaringLaws.
Proof.
  split; cbn [rb rb_new rb_insert rb_remove rb_and rb_or rb_sub rb_len rb_is_empty rb_intersection_len rb_iter rb_serialized_size roaring].
  - apply iter_sorted.
  - by intros b p [_ ?]%elem_iter.
  - done.
  - intros p b q Hp. rewrite !elem_iter, elem_of_cons. naive_solver.
  - intros p b q. rewrite !elem_iter, elem_of_List_filter, negb_true_iff, Z.eqb_neq. naive_solver.
  - intros a b q. rewrite !elem_iter, elem_of_List_filter. unfold mem. rewrite bool_decide_eq_true. tauto.
  - intros a b q. rewrite !elem_iter, elem_of_app. tauto.
  - intros a b q. rewrite !elem_iter, elem_of_List_filter. unfold mem. rewrite negb_true_iff, bool_decide_eq_false. tauto.
  - done.
  - intros b. apply bool_decide_eq_true.
  - done.
Qed.
End RefRoaring.
