(* ===== verification/Accelerated.v ===== *)
(** * The accelerator follows the database

    From an empty database on, every write and its hook keep the accelerator
    exact, so bitmap scans answer as the documents do. The witnesses run on a
    reference bitmap, a list of positions. *)

From S2P Require Import Prelude Bytes F64 Json Errors Externals Filter Secondary Sort Cursor Parser Backend Index Storage Document Consistency Mutations Refinement History Guarantees Page Planner Executor Execution Plans Queries Bitmap Bitmaps.

(** ** Writes and their hooks *)

Section writes.
Context `{SerdeJson} `{RegexLib} `{RoaringLaws}.

Inductive write :=
| WInsert (c id : string) (doc : Value)
| WUpdate (c id : string) (doc : Value)
| WDelete (c id : string)
| WDrop (c : string).
Definition apply_write (w : write) (d : db) : db :=
  match w with
  | WInsert c id doc | WUpdate c id doc => put d c id doc
  | WDelete c id => drop_doc d c id
  | WDrop c => delete c d
  end.
Definition call_hook (w : write) (d : db) (a : Accelerator) : Accelerator :=
  match w with
  | WInsert c id doc => hook_insert a c id doc
  | WUpdate c id doc => match doc_at d c id with Some old => hook_update a c id old doc | None => a end
  | WDelete c id => match doc_at d c id with Some old => hook_delete a c id old | None => a end
  | WDrop c => hook_drop_collection a c
  end.
(** What keeps an accelerator exact: an identifier no collection has, room
    for the new document, and no update to a value that is equal but
    written otherwise. *)
Definition write_ok (w : write) (d : db) (a : Accelerator) : Prop :=
  match w with
  | WInsert c id doc => (forall c', doc_at d c' id = None) /\ room a doc
  | WUpdate c id doc => exists old, doc_at d c id = Some old /\ keys_room a doc /\
      forall field, is_Some (columns a !! field) -> keys_respect old doc field
  | WDelete c id => is_Some (doc_at d c id)
  | WDrop c => True
  end.
Fixpoint run_writes (ws : list write) (d : db) (a : Accelerator) : db * Accelerator :=
  match ws with
  | [] => (d, a)
  | w :: ws => run_writes ws (apply_write w d) (call_hook w d a)
  end.
Fixpoint writes_ok (ws : list write) (d : db) (a : Accelerator) : Prop :=
  match ws with
  | [] => True
  | w :: ws => write_ok w d a /\ writes_ok ws (apply_write w d) (call_hook w d a)
  end.

Lemma apart_sub d d' : ids_apart d -> (forall c id, is_Some (doc_at d' c id) -> is_Some (doc_at d c id)) -> ids_apart d'.
Proof. intros Ha Hsub c1 c2 id Hd1 Hd2. by apply (Ha c1 c2 id); apply Hsub. Qed.
Lemma write_apart w d a : write_ok w d a -> ids_apart d -> ids_apart (apply_write w d).
Proof.
  intros Hok Ha. destruct w as [c id doc|c id doc|c id|c]; cbn in *.
  - destruct Hok as [Hfresh _]. intros c1 c2 i. rewrite !doc_at_put.
    destruct (decide (c1 = c /\ i = id)) as [[-> ->]|Hn1].
    + case_decide as Hn2; [by destruct Hn2 as [-> _]|]. rewrite Hfresh. by intros _ [].
    + case_decide as Hn2; [|apply Ha]. destruct Hn2 as [-> ->]. rewrite Hfresh. by intros [].
  - destruct Hok as (old & Hold & _). apply (apart_sub d); [done|]. intros c' i. rewrite doc_at_put. case_decide; [|done].
    destruct_and?; subst. by rewrite Hold.
  - apply (apart_sub d); [done|]. intros c' i. rewrite doc_at_drop. case_decide; [by intros []|done].
  - apply (apart_sub d); [done|]. intros c' i. rewrite doc_at_delete. case_decide; [by intros []|done].
Qed.
(** Hooks leave the flags alone. *)
Definition serving (a : Accelerator) : Prop := ready a = true /\ rebuild_active a = false.
Lemma insert_serving a c id doc : serving a -> serving (insert_live a c id doc).
Proof.
  intros [Hr Hb]. unfold insert_live. destruct (assign (positions a) id c) as [pos p].
  destruct (profile_same (with_positions a p) doc) as (_ & _ & _ & _ & _ & P6 & P7).
  destruct (budget_same (profile (with_positions a p) doc) pos) as (_ & _ & _ & B4 & B5).
  destruct (over_budget _); split; cbn; by rewrite ?B4, ?B5, ?P6, ?P7.
Qed.
Lemma hook_serving w d a : serving a -> serving (call_hook w d a).
Proof.
  intros Hs. pose proof Hs as [Hr Hb]. destruct w as [c id doc|c id doc|c id|c]; cbn.
  - unfold hook_insert, queue_or. rewrite Hb. by apply insert_serving.
  - destruct (doc_at d c id); [|done]. unfold hook_update, queue_or. rewrite Hb. unfold update_live. by destruct (get_position _ _).
  - destruct (doc_at d c id); [|done]. unfold hook_delete, queue_or. rewrite Hb. unfold delete_live. by destruct (get_position _ _).
  - unfold hook_drop_collection, queue_or. rewrite Hb. unfold drop_collection_live.
    destruct (remove_collection _ _) as [removed p]. by destruct (rb_is_empty removed).
Qed.
Lemma hook_exact w d a : write_ok w d a -> serving a -> ids_apart d -> exact a d -> exact (call_hook w d a) (apply_write w d).
Proof.
  intros Hok [Hr Hb] Ha Hex. destruct w as [c id doc|c id doc|c id|c]; cbn in *.
  - destruct Hok as [Hfresh Hroom]. unfold hook_insert, queue_or. rewrite Hb. by apply insert_exact.
  - destruct Hok as (old & Hold & Hroom & Hresp). rewrite Hold. unfold hook_update, queue_or. rewrite Hb. by apply update_exact.
  - destruct Hok as [old Hold]. rewrite Hold. unfold hook_delete, queue_or. rewrite Hb. by eapply delete_exact.
  - unfold hook_drop_collection, queue_or. rewrite Hb. by apply drop_exact.
Qed.
Lemma writes_exact ws d a : writes_ok ws d a -> serving a -> ids_apart d -> exact a d ->
  let '(d', a') := run_writes ws d a in serving a' /\ ids_apart d' /\ exact a' d'.
Proof.
  revert d a; induction ws as [|w ws IH]; intros d a; cbn [run_writes writes_ok]; [done|].
  intros [Hw Hws] Hs Ha He. apply IH; [done|by apply hook_serving|by eapply write_apart|by apply hook_exact].
Qed.

(** What scans owe: for a filter over a collection, document identifiers
    without repetition, as many as the bitmap's length, among them every match
    of the filter; the residual filter tells the matches apart. *)
Definition scans_answer (a : Accelerator) (d : db) : Prop :=
  forall c docs f b r, d !! c = Some docs -> filter_keyed docs f -> accelerator_scan a c f = Some (b, r) ->
  let ids := Bitmap.resolve_window (positions a) b 0 usize_max in
  NoDup ids /\ rb_len b = lenZ ids /\ Forall (fun id => is_Some (docs !! id)) ids /\
  forall id doc, docs !! id = Some doc -> matches f doc = true <-> id ∈ ids /\ passes r doc = true.
Lemma exact_scans (cfg : AcceleratorConfig) a d : serving a -> exact a d -> scans_answer a d.
Proof.
  intros [Hready _] Hex c docs f b r Hc Hkey E.
  destruct (exact_contract cfg a d c docs f Hex Hc Hkey b r Hready E) as [[Hknown Hlen _] (Hnd & _ & Hcov)]. done.
Qed.

(** C9: bitmap scans answer as the documents do, where keys tell values apart
    as the filter does. From an empty accelerator and database, through any
    writes followed by their hooks: inserts of an identifier no collection
    holds, with room for it (positions, memory, the column's cap), updates of
    a stored document with room for its values, none of which only respells an
    equal one, deletions and drops. For a filter whose $eq, $ne and $in
    operands equal a stored value exactly when their keys are equal (not 1 and
    1.0, bitmap.rs:31), what a scan of a collection returns are document
    identifiers without repetition, as many as the bitmap's length, among them
    every match of the filter, and the residual filter tells the matches
    apart. *)
Theorem bitmap_scans_are_exact (cfg : AcceleratorConfig) (ws : list write) :
  let a0 := with_ready (Accelerator_new cfg) true in
  writes_ok ws ∅ a0 -> let '(d, a) := run_writes ws ∅ a0 in scans_answer a d.
Proof.
  intros a0 Hok. pose proof (writes_exact ws ∅ a0 Hok) as Hrun. destruct (run_writes ws ∅ a0) as [d a].
  destruct Hrun as (Hs & _ & Hex); [done| |apply (new_exact cfg)|by apply (exact_scans cfg)].
  intros c1 c2 id Hd. unfold doc_at in Hd. rewrite lookup_empty in Hd. by destruct Hd.
Qed.
End writes.

(** ** The conditions, decided *)

Section decide.
Context `{SerdeJson} `{RegexLib} `{RoaringLaws}.

Definition keys_room_b (a : Accelerator) (doc : Value) : bool :=
  (max_cardinality (config a) <? 2 ^ 32) &&
  forallb (fun '(field, col) => match key_of doc field with
    | Some key => (cardinality col <? max_cardinality (config a)) || bool_decide (is_Some (value_bitmaps col !! key))
    | None => true end) (map_to_list (columns a)).
Definition write_ok_b (w : write) (d : db) (a : Accelerator) : bool :=
  match w with
  | WInsert c id doc =>
      forallb (fun '(_, docs) => bool_decide (docs !! id = None)) (map_to_list d) &&
      (next_pos (positions a) + 1 <? 2 ^ 32) && negb (over_budget (check_budget a (next_pos (positions a)))) && keys_room_b a doc
  | WUpdate c id doc =>
      match doc_at d c id with
      | Some old => keys_room_b a doc && forallb (fun '(field, _) =>
          negb (same_value (resolve_json_path old field) (resolve_json_path doc field)) ||
          bool_decide (key_of old field = key_of doc field)) (map_to_list (columns a))
      | None => false
      end
  | WDelete c id => bool_decide (is_Some (doc_at d c id))
  | WDrop c => true
  end.
Fixpoint writes_ok_b (ws : list write) (d : db) (a : Accelerator) : bool :=
  match ws with
  | [] => true
  | w :: ws => write_ok_b w d a && writes_ok_b ws (apply_write w d) (call_hook w d a)
  end.

Lemma forallb_map {A} (p : string * A -> bool) (m : gmap string A) : forallb p (map_to_list m) = true ->
  forall k x, m !! k = Some x -> p (k, x) = true.
Proof. rewrite forallb_forall. intros Hp k x Hx. apply Hp, list_elem_of_In. by apply elem_of_map_to_list. Qed.
Lemma keys_room_b_ok a doc : keys_room_b a doc = true -> keys_room a doc.
Proof.
  unfold keys_room_b. intros [Hm%Z.ltb_lt Hf]%andb_prop. split; [done|]. intros field col Hcol key Hkey.
  pose proof (forallb_map _ _ Hf _ _ Hcol) as Hb. cbn in Hb. rewrite Hkey in Hb.
  apply orb_prop in Hb as [?%Z.ltb_lt|?%bool_decide_eq_true]; auto.
Qed.
Lemma write_ok_b_ok w d a : write_ok_b w d a = true -> write_ok w d a.
Proof.
  destruct w as [c id doc|c id doc|c id|c]; cbn.
  - intros [[[Hf Hn%Z.ltb_lt]%andb_prop Hb%negb_true_iff]%andb_prop Hk%keys_room_b_ok]%andb_prop. split; [|done].
    intros c'. unfold doc_at. destruct (d !! c') as [docs|] eqn:E; [|done].
    pose proof (forallb_map _ _ Hf _ _ E) as Hx. by apply bool_decide_eq_true in Hx.
  - destruct (doc_at d c id) as [old|]; [|done]. intros [Hk%keys_room_b_ok Hf]%andb_prop. exists old. split_and!; [done..|].
    intros field [col Hcol] Hs. pose proof (forallb_map _ _ Hf _ _ Hcol) as Hx. cbn in Hx. rewrite Hs in Hx. by apply bool_decide_eq_true in Hx.
  - apply bool_decide_eq_true.
  - done.
Qed.
Lemma writes_ok_b_ok ws d a : writes_ok_b ws d a = true -> writes_ok ws d a.
Proof.
  revert d a; induction ws as [|w ws IH]; intros d a; cbn; [done|].
  intros [Hw Hws]%andb_prop. split; [by apply write_ok_b_ok|by apply IH].
Qed.
End decide.

(** ** A witness *)

Module BitmapDemo.
Import Ref RefRoaring.

Definition cfg : AcceleratorConfig := {| bitmap_fields := ["t"]; max_cardinality := 8; max_memory_bytes := 1048576 |}.
Definition tagged (t : string) : Value := VObject [("t", VString t)].
Definition writes : list write :=
  [WInsert "c" "a" (tagged "x"); WInsert "c" "b" (tagged "y"); WInsert "e" "z" (tagged "x");
   WInsert "c" "g" (tagged "x"); WUpdate "c" "b" (tagged "x"); WDelete "c" "a"; WInsert "e" "a" (tagged "x"); WDrop "e"].
Definition docs : gmap string Value := {["b" := tagged "x"; "g" := tagged "x"]}.
Definition f : FilterNode := Comparison "t" Eq_ (VString "x").
End BitmapDemo.
Import Ref RefRoaring BitmapDemo.

Lemma bitmap_scans_are_exact_witness :
  let run := run_writes writes ∅ (with_ready (Accelerator_new cfg) true) in
  let '(d, a) := run in
  d !! "c" = Some docs /\ (exists b r, accelerator_scan a "c" f = Some (b, r) /\
    NoDup (Bitmap.resolve_window (positions a) b 0 usize_max) /\
    forall id doc, docs !! id = Some doc -> matches f doc = true <->
      id ∈ Bitmap.resolve_window (positions a) b 0 usize_max /\ passes r doc = true).
Proof.
  pose proof (bitmap_scans_are_exact cfg writes) as Hex. cbn zeta in Hex |- *.
  assert (Hok : writes_ok writes ∅ (with_ready (Accelerator_new cfg) true)) by (apply writes_ok_b_ok; vm_compute; reflexivity).
  assert (Hc : (run_writes writes ∅ (with_ready (Accelerator_new cfg) true)).1 !! "c" = Some docs) by (vm_compute; reflexivity).
  assert (Hs : is_Some (accelerator_scan (run_writes writes ∅ (with_ready (Accelerator_new cfg) true)).2 "c" f))
    by (vm_compute; eexists; reflexivity).
  destruct (run_writes writes ∅ (with_ready (Accelerator_new cfg) true)) as [d a]. cbn in Hc, Hs.
  destruct Hs as [[b r] E]. split; [exact Hc|]. exists b, r.
  destruct (Hex Hok "c" docs f b r Hc) as (Hnd & _ & _ & Hm); [|exact E|split; [exact E|split; [exact Hnd|exact Hm]]].
  assert (Hk : map_Forall (fun _ doc => match resolve_json_path doc "t" with
    | Some w => values_equal w (VString "x") = bool_decide (value_to_string_key w = value_to_string_key (VString "x"))
    | None => True end) docs).
  { apply map_Forall_to_list. repeat constructor; vm_compute; reflexivity. }
  intros id doc w Hd Hw. specialize (Hk id doc Hd). cbn in Hk. rewrite Hw in Hk. exact Hk.
Defined.
