(* ===== verification/Rebuild.v ===== *)
(** * A rebuild beside writers

    [rebuild_all_accelerators] (main.rs) clears the accelerator and fills it
    from scans of the collections while writers go on: their hooks queue, and
    [finish_rebuild] replays the queue over what the scans saw. Here the scans
    and the writes interleave as the steps of a relation. *)

From S2P Require Import Prelude Bytes F64 Json Errors Externals Filter Secondary Sort Cursor Parser Backend Index Storage Document Consistency Mutations Refinement History Guarantees Page Planner Executor Execution Plans Queries Bitmap Bitmaps Accelerated.

(** ** The rebuild as steps *)

Section system.
Context `{SerdeJson} `{RegexLib} `{RoaringLib}.

Definition BATCH_SIZE : nat := Z.to_nat 10000.
Definition start_rebuild (a : Accelerator) : Accelerator :=
  let a := begin_rebuild a in
  match bitmap_fields (config a) with [] => a | fields => configure_fields a fields end.

(** The database, the accelerator, the collections to scan and the rows of
    the scan that is open. *)
Record system := {
  sdb : db;
  acc : Accelerator;
  todo : list string;
  scan : option (string * list (string * Value));
}.
Definition start_system (d : db) (a : Accelerator) (collections : list string) : system :=
  {| sdb := d; acc := start_rebuild a; todo := collections; scan := None |}.
Definition scan_row (kv : string * Value) : option (string * Value) :=
  id ← get kv.2 "_id" ≫= as_str; Some (id, kv.2).
(** A scan sees its collection as it is when it opens. *)
Definition open_scan (s : system) (c : string) (rest : list string) (l : list (string * Value)) : system :=
  {| sdb := sdb s; acc := acc s; todo := rest; scan := Some (c, omap scan_row l) |}.
Definition scan_batch (s : system) (c : string) (rows : list (string * Value)) : system :=
  let a := rebuild_batch (acc s) c (take BATCH_SIZE rows) in
  {| sdb := sdb s; acc := a; todo := todo s;
     scan := if over_budget a then None else match drop BATCH_SIZE rows with [] => None | rest => Some (c, rest) end |}.
Definition write_system (w : write) (s : system) : system :=
  {| sdb := apply_write w (sdb s); acc := call_hook w (sdb s) (acc s); todo := todo s; scan := scan s |}.
Definition done_scanning (s : system) : Prop := todo s = [] /\ scan s = None.
End system.

(** ** What a schedule keeps *)

Section rebuild.
Context `{SerdeJson} `{RegexLib} `{RoaringLaws}.
(** Every identifier has one collection, and a tracked field's values have
    few keys. *)
Context (home : string -> string) (fields : gset string) (keys : string -> gset string).

Definition homed (d : db) : Prop := forall c id, is_Some (doc_at d c id) -> home id = c.
Definition keyed (doc : Value) : Prop := forall field key, field ∈ fields -> key_of doc field = Some key -> key ∈ keys field.
Definition named (id : string) (doc : Value) : Prop := (get doc "_id" ≫= as_str) = Some id.
Definition fits (w : write) (d : db) : Prop :=
  match w with
  | WInsert c id doc => home id = c /\ doc_at d c id = None /\ keyed doc /\ named id doc
  | WUpdate c id doc => keyed doc /\ named id doc /\ exists old, doc_at d c id = Some old /\
      forall field, field ∈ fields -> keys_respect old doc field
  | WDelete c id => is_Some (doc_at d c id)
  | WDrop c => True
  end.
Inductive step : system -> system -> Prop :=
| step_write s w : fits w (sdb s) -> step s (write_system w s)
| step_open s c rest l : scan s = None -> todo s = c :: rest -> streamed (default ∅ (sdb s !! c)) l ->
    step s (open_scan s c rest l)
| step_batch s c rows : scan s = Some (c, rows) -> next_pos (positions (acc s)) + lenZ rows < 2 ^ 32 ->
    step s (scan_batch s c rows).

Definition run_db : list write -> db -> db := fold_left (fun d w => apply_write w d).
Fixpoint fits_all (ws : list write) (d : db) : Prop :=
  match ws with [] => True | w :: ws => fits w d /\ fits_all ws (apply_write w d) end.
Lemma run_db_app ws1 ws2 d : run_db (ws1 ++ ws2) d = run_db ws2 (run_db ws1 d).
Proof. apply fold_left_app. Qed.
Lemma fits_all_app ws1 ws2 d : fits_all (ws1 ++ ws2) d <-> fits_all ws1 d /\ fits_all ws2 (run_db ws1 d).
Proof. revert d; induction ws1 as [|w ws1 IH]; intros d; cbn; [tauto|]. rewrite IH. tauto. Qed.

(** *** One document among the writes *)

(** What the replay of a write does to a bit of a row that is there: a change
    of the observed value sets it, a removal frees the row. *)
Definition move (w : write) (d : db) (c id : string) (f : Value -> bool) (b : bool) : option bool :=
  match w with
  | WInsert _ _ _ => Some b
  | WUpdate c' id' new =>
      if decide (c' = c /\ id' = id) then
        match doc_at d c id with
        | Some old => Some (if bool_decide (f old = f new) then b else f new)
        | None => Some b
        end
      else Some b
  | WDelete c' id' => if decide (c' = c /\ id' = id) then None else Some b
  | WDrop c' => if decide (c' = c) then None else Some b
  end.
(** Through the writes, the bit comes to the document's, or its row goes. *)
Fixpoint settles (ws : list write) (d : db) (c id : string) (f : Value -> bool) (b : bool) : Prop :=
  match ws with
  | [] => exists doc, doc_at d c id = Some doc /\ b = f doc
  | w :: ws => match move w d c id f b with
               | Some b => settles ws (apply_write w d) c id f b
               | None => True
               end
  end.
(** Through the writes, a document without a row gets one, or is absent. *)
Fixpoint covered (ws : list write) (d : db) (c id : string) : Prop :=
  match ws with
  | [] => doc_at d c id = None
  | w :: ws =>
      match w with
      | WInsert c' id' _ | WUpdate c' id' _ => c' = c /\ id' = id \/ covered ws (apply_write w d) c id
      | _ => covered ws (apply_write w d) c id
      end
  end.

(** What a write does to a document. *)
Lemma apply_other w d c id : ~ (match w with
    | WInsert c' id' _ | WUpdate c' id' _ | WDelete c' id' => c' = c /\ id' = id
    | WDrop c' => c' = c end) -> doc_at (apply_write w d) c id = doc_at d c id.
Proof.
  intros Hw. destruct w as [c' id' doc|c' id' doc|c' id'|c']; cbn.
  - rewrite doc_at_put, decide_False; [done|]. naive_solver.
  - rewrite doc_at_put, decide_False; [done|]. naive_solver.
  - rewrite doc_at_drop, decide_False; [done|]. naive_solver.
  - rewrite doc_at_delete, decide_False; [done|]. naive_solver.
Qed.
Lemma current_settles ws d c id doc f : fits_all ws d -> doc_at d c id = Some doc -> settles ws d c id f (f doc).
Proof.
  revert d doc; induction ws as [|w ws IH]; intros d doc; cbn [fits_all settles]; [by exists doc|]. intros [Hw Hws] Hd.
  destruct w as [c' id' new|c' id' new|c' id'|c']; cbn [move fits] in *.
  - apply IH; [done|]. rewrite apply_other; [done|]. intros [-> ->]. destruct_and!. congruence.
  - case_decide as Hci.
    + destruct Hci as [-> ->]. rewrite Hd. assert (Hnew : doc_at (apply_write (WUpdate c id new) d) c id = Some new).
      { cbn. by rewrite doc_at_put, decide_True. }
      case_bool_decide as E; [rewrite E|]; by apply IH.
    + apply IH; [done|]. by rewrite apply_other.
  - case_decide; [done|]. apply IH; [done|]. by rewrite apply_other.
  - case_decide; [done|]. apply IH; [done|]. by rewrite apply_other.
Qed.
Lemma seen_settles ws1 ws2 d c id doc f : fits_all (ws1 ++ ws2) d -> doc_at (run_db ws1 d) c id = Some doc ->
  settles (ws1 ++ ws2) d c id f (f doc).
Proof.
  revert d; induction ws1 as [|w ws1 IH]; intros d; cbn [app run_db fold_left]; [apply current_settles|].
  cbn [fits_all settles]. intros [Hw Hws] Hd. destruct (move w d c id f (f doc)) as [b|] eqn:E; [|done].
  assert (b = f doc \/ exists new, doc_at (apply_write w d) c id = Some new /\ b = f new) as [->|(new & Hn & ->)].
  { destruct w as [c' id' new|c' id' new|c' id'|c']; cbn [move] in E; repeat case_decide; try (left; congruence).
    destruct (doc_at d c id) as [old|]; [|left; congruence]. case_bool_decide; [left; congruence|]. right. exists new.
    split; [|congruence]. cbn. by rewrite doc_at_put, decide_True by naive_solver. }
  - by apply IH.
  - by apply current_settles.
Qed.
Lemma absent_covered ws d c id : fits_all ws d -> doc_at d c id = None -> covered ws d c id.
Proof.
  revert d; induction ws as [|w ws IH]; intros d; cbn [fits_all covered]; [done|]. intros [Hw Hws] Hd.
  assert (Hstay : (match w with WInsert c' id' _ | WUpdate c' id' _ => ~ (c' = c /\ id' = id) | _ => True end) ->
    doc_at (apply_write w d) c id = None).
  { destruct w as [c' id' new|c' id' new|c' id'|c']; intros Hn; try (by rewrite apply_other); cbn.
    - rewrite doc_at_drop. by case_decide.
    - rewrite doc_at_delete. by case_decide. }
  destruct w as [c' id' new|c' id' new|c' id'|c']; try (apply IH; [done|by apply Hstay]);
    (destruct (decide (c' = c /\ id' = id)); [by left|right; apply IH; [done|by apply Hstay]]).
Qed.
Lemma gone_covered ws1 ws2 d c id : fits_all (ws1 ++ ws2) d -> doc_at (run_db ws1 d) c id = None -> covered (ws1 ++ ws2) d c id.
Proof.
  revert d; induction ws1 as [|w ws1 IH]; intros d; cbn [app run_db fold_left]; [apply absent_covered|].
  cbn [fits_all covered]. intros [Hw Hws] Hd. destruct w; try (right); by apply IH.
Qed.

(** *** Bits, observed *)

(** The bit of a value's key, or the bit that the field is there. *)
Definition bit (col : BitmapColumn) (o : option string) (p : Z) : bool :=
  match o with
  | None => bool_decide (p ∈ rb_iter (exists_bitmap col))
  | Some key => bool_decide (p ∈ rb_iter (default rb_new (value_bitmaps col !! key)))
  end.
Definition observed_key (field : string) (o : option string) (doc : Value) : bool :=
  match o with
  | None => bool_decide (is_Some (key_of doc field))
  | Some key => bool_decide (key_of doc field = Some key)
  end.
Record column_good (n : Z) (field : string) (col : BitmapColumn) : Prop := {
  cg_tracked : field ∈ fields;
  cg_range : column_ok n ∅ field col;
  cg_card : card_ok (value_bitmaps col) (cardinality col);
  cg_keys : dom (value_bitmaps col) ⊆ keys field;
}.

Lemma good_room n max_card field col doc : column_good n field col -> keyed doc -> Z.of_nat (size (keys field)) <= max_card ->
  key_room max_card doc field col.
Proof.
  intros [Hf _ [Hcard _] Hdom] Hdoc Hmax key Hkey. destruct (decide (is_Some (value_bitmaps col !! key))) as [|Hno]; [by right|].
  left. assert (size (dom (value_bitmaps col)) < size (keys field))%nat as Hlt; [|rewrite size_dom in Hlt; lia].
  apply subset_size. split; [done|]. intros Hsub. apply Hno, elem_of_dom, Hsub. by apply (Hdoc field).
Qed.
Lemma add_bit_dom max_card key p bitmaps card : dom (add_bit max_card key p bitmaps card).1 ⊆ {[key]} ∪ dom bitmaps.
Proof. unfold add_bit. destruct (_ || _); cbn [fst]; [rewrite dom_insert|]; set_solver. Qed.
Lemma remove_bit_dom key p bitmaps card : dom (remove_bit key p bitmaps card).1 ⊆ dom bitmaps.
Proof.
  unfold remove_bit. destruct (bitmaps !! key) as [b|] eqn:E; [|done]. destruct (rb_is_empty _); cbn [fst]; [rewrite dom_delete; set_solver|].
  rewrite dom_insert_lookup; [done|by eexists].
Qed.
Lemma good_new n field : field ∈ fields -> 0 <= n -> column_good n field (BitmapColumn_new field).
Proof.
  intros Hf Hn. destruct (empty_column_ok field) as [[Hb He Hr] Hcard]. split; [done| |done|].
  - split; [|intros p Hp%He; lia|done]. intros key p Hp%Hb. lia.
  - cbn. rewrite dom_empty. apply empty_subseteq.
Qed.

Lemma good_insert n max_card doc field col : column_good n field col -> 0 <= n < 2 ^ 32 -> max_card < 2 ^ 32 -> keyed doc ->
  Z.of_nat (size (keys field)) <= max_card ->
  column_good (n + 1) field (insert_column max_card doc n field col) /\ forall o q, 0 <= q <= n -> bit (insert_column max_card doc n field col) o q = if decide (q = n) then observed_key field o doc else bit col o q.
Proof.
  intros Hgood Hn Hmax Hdoc Hsize. pose proof (good_room n max_card field col doc Hgood Hdoc Hsize) as Hroom.
  pose proof Hgood as [Hf Hrange Hcard Hdom]. split; [split|].
  - done.
  - eapply column_forget; [eapply (insert_column_ok n ∅); [exact Hrange|done|lia|done|done]|done].
  - unfold insert_column. destruct (resolve_json_path doc field); [|done]. cbn. by apply add_bit_card.
  - unfold insert_column. destruct (resolve_json_path doc field) as [v|] eqn:E; [|done]. cbn.
    etrans; [apply add_bit_dom|]. apply union_least; [|done]. apply singleton_subseteq_l. apply (Hdoc field); [done|].
    unfold key_of. by rewrite E.
  - intros o q Hq. destruct Hrange as [Hb He _]. unfold insert_column, key_room, key_of in *. unfold observed_key, bit, key_of.
    destruct (resolve_json_path doc field) as [v|] eqn:E; cbn [fmap option_fmap option_map with_bits exists_bitmap value_bitmaps] in *.
    + destruct o as [key|]; case_decide as Hqn.
      * apply bool_decide_ext. subst q. etrans; [apply (add_bit_spec max_card _ n _ _ key n); [done|by apply Hroom]|].
        split; [intros [Hx%Hb|[_ ->]]; [lia|done]|]. intros [= <-]. by right.
      * apply bool_decide_ext. etrans; [apply (add_bit_spec max_card _ n _ _ key q); [done|by apply Hroom]|]. unfold has_bit. naive_solver.
      * subst q. rewrite !bool_decide_true; [done|by eexists|]. apply rb_iter_insert; [lia|by left].
      * apply bool_decide_ext. rewrite rb_iter_insert by done. naive_solver.
    + case_decide as Hqn; [|done]. subst q. destruct o as [key|].
      * rewrite !bool_decide_false; [done|done|]. intros Hx. specialize (Hb key n Hx). lia.
      * rewrite !bool_decide_false; [done|by intros []|]. intros Hx%He. lia.
Qed.
Lemma good_delete n doc p field col : column_good n field col ->
  column_good n field (delete_column doc p field col) /\ forall o q, q <> p -> bit (delete_column doc p field col) o q = bit col o q.
Proof.
  intros [Hf Hrange Hcard Hdom]. split; [split|].
  - done.
  - eapply column_forget; [apply delete_column_ok; exact Hrange|done].
  - unfold delete_column. destruct (resolve_json_path doc field); [|done]. by apply remove_bit_card.
  - unfold delete_column. destruct (resolve_json_path doc field); [|done]. etrans; [apply remove_bit_dom|done].
  - intros o q Hq. unfold delete_column. destruct (resolve_json_path doc field) as [v|]; [|done]. unfold bit. cbn.
    destruct o as [key|]; apply bool_decide_ext.
    + pose proof (remove_bit_spec (value_to_string_key v) p (value_bitmaps col) (cardinality col) key q). unfold has_bit in *. naive_solver.
    + rewrite rb_iter_remove. naive_solver.
Qed.
Lemma good_update n max_card old new p field col : column_good n field col -> 0 <= p < n -> n <= 2 ^ 32 -> max_card < 2 ^ 32 -> keyed new ->
  keys_respect old new field -> Z.of_nat (size (keys field)) <= max_card ->
  column_good n field (update_column max_card old new p field col) /\ forall o q, bit (update_column max_card old new p field col) o q =
    if decide (q = p) then (if bool_decide (observed_key field o old = observed_key field o new) then bit col o p else observed_key field o new)
    else bit col o q.
Proof.
  intros Hgood Hp Hn Hmax Hdoc Hresp Hsize. pose proof (good_room n max_card field col new Hgood Hdoc Hsize) as Hroom.
  assert (Hp' : 0 <= p < 2 ^ 32) by lia. pose proof Hgood as [Hf Hrange Hcard Hdom]. split; [split|].
  - done.
  - pose proof Hrange as [Hb He _]. split; [| |done].
    + intros key q Hq. rewrite update_column_bits in Hq by done. destruct (decide _); [by apply Hb in Hq|].
      destruct Hq as [[Hq%Hb _]|[-> _]]; [done|lia].
    + intros q Hq. rewrite update_column_exists in Hq by done.
      destruct (key_of old field), (key_of new field); try (by apply He); [by apply He, Hq|destruct Hq as [Hq%He| ->]; [done|lia]].
  - unfold update_column. destruct (same_value _ _); [done|]. case_bool_decide; [done|]. cbn.
    destruct (value_to_string_key <$> resolve_json_path old field), (value_to_string_key <$> resolve_json_path new field); cbn; try done.
    + apply add_bit_card; [done|]. by apply remove_bit_card.
    + by apply remove_bit_card.
    + by apply add_bit_card.
  - assert (Hnew : forall key, key_of new field = Some key -> {[key]} ⊆ keys field).
    { intros key Hk. apply singleton_subseteq_l. by apply (Hdoc field). }
    unfold update_column. destruct (same_value _ _); [done|]. fold (key_of old field) (key_of new field). case_bool_decide; [done|]. cbn.
    destruct (key_of old field), (key_of new field) as [kn|]; cbn; try done.
    + etrans; [apply add_bit_dom|]. apply union_least; [by apply Hnew|]. etrans; [apply remove_bit_dom|done].
    + etrans; [apply remove_bit_dom|done].
    + etrans; [apply add_bit_dom|]. apply union_least; [by apply Hnew|done].
  - intros o q. apply eq_true_iff_eq. unfold bit at 1, observed_key. destruct o as [key|]; rewrite bool_decide_eq_true.
    + etrans; [apply (update_column_bits max_card old new p field col key q); done|].
      unfold bit, has_bit. destruct (decide (q = p)) as [->|Hq].
      * destruct (key_of old field) as [ko|], (key_of new field) as [kn|]; repeat case_decide; repeat case_bool_decide; naive_solver.
      * rewrite bool_decide_eq_true. case_decide; naive_solver.
    + etrans; [apply (update_column_exists max_card old new p field col q); done|]. unfold bit.
      destruct (decide (q = p)) as [->|Hq].
      * destruct (key_of old field) as [ko|], (key_of new field) as [kn|]; repeat case_bool_decide; naive_solver.
      * rewrite bool_decide_eq_true. destruct (key_of old field), (key_of new field); naive_solver.
Qed.
Lemma good_drop n removed field col : column_good n field col -> column_good n field (drop_column removed col) /\ forall o q, q ∉ rb_iter removed -> bit (drop_column removed col) o q = bit col o q.
Proof.
  intros [Hf Hrange Hcard Hdom]. split; [split|].
  - done.
  - by apply drop_column_ok.
  - destruct Hcard as [Hc1 Hc2]. cbn. unfold card_ok, wrap32. match goal with |- context [omap ?f ?m] => pose proof (omap_size f m) as Hle end.
    rewrite Z.mod_small by lia. lia.
  - cbn. etrans; [|exact Hdom]. intros key. rewrite !elem_of_dom, lookup_omap. destruct (value_bitmaps col !! key); [done|by intros []].
  - intros o q Hq. unfold bit. destruct o as [key|]; apply bool_decide_ext.
    + pose proof (drop_bits_spec removed (value_bitmaps col) key q) as Hs. unfold has_bit in Hs. cbn. rewrite Hs. tauto.
    + cbn. rewrite rb_iter_sub. tauto.
Qed.

(** *** The replay *)

(** No memory pressure, and caps above the number of keys. *)
Record calm (a : Accelerator) : Prop := {
  calm_cap : max_cardinality (config a) < 2 ^ 32;
  calm_keys : forall field, field ∈ fields -> Z.of_nat (size (keys field)) <= max_cardinality (config a);
  calm_budget : over_budget a = false;
  calm_memory : (0 <? max_memory_bytes (config a)) && (max_memory_bytes (config a) <? cached_memory_bytes a) = false;
}.
Lemma calm_same a a' : config a' = config a -> over_budget a' = over_budget a -> cached_memory_bytes a' = cached_memory_bytes a ->
  calm a -> calm a'.
Proof. intros Ec Eo Em [? ? ? ?]. split; by rewrite ?Ec, ?Eo, ?Em. Qed.
Lemma calm_check a pos : calm a -> over_budget (check_budget a pos) = false /\ cached_memory_bytes (check_budget a pos) = cached_memory_bytes a.
Proof.
  intros [_ _ Hb Hm]. unfold check_budget. destruct (pos mod 1000 =? 0), (0 <? max_memory_bytes (config a)); done.
Qed.
Lemma insert_calm a c id doc : calm a -> calm (insert_live a c id doc)  /\ pending (insert_live a c id doc) = pending a /\ ready (insert_live a c id doc) = ready a  /\ rebuild_active (insert_live a c id doc) = rebuild_active a.
Proof.
  intros Hc. destruct (calm_check a (next_pos (positions a)) Hc) as [Hb _].
  destruct (insert_live_spec a c id doc Hb) as (_ & _ & Econf). unfold insert_live in *. cbn [assign] in *.
  set (a1 := profile _ doc) in *.
  assert (E : config a1 = config a /\ over_budget a1 = over_budget a /\ cached_memory_bytes a1 = cached_memory_bytes a  /\   pending a1 = pending a /\ ready a1 = ready a /\ rebuild_active a1 = rebuild_active a).
  { unfold a1, profile. by destruct (profiler_done _). }
  destruct E as (E1 & E2 & E3 & E4 & E5 & E6). assert (Hc1 : calm a1) by by apply (calm_same a).
  destruct (calm_check a1 (next_pos (positions a)) Hc1) as [Hb1 Hm1]. rewrite Hb1. set (a2 := check_budget a1 _) in *.
  assert (E' : config a2 = config a1 /\ pending a2 = pending a1 /\ ready a2 = ready a1 /\ rebuild_active a2 = rebuild_active a1).
  { unfold a2, check_budget. by destruct (_ && _). }
  destruct E' as (F1 & F4 & F5 & F6). split; [|cbn; by rewrite F4, F5, F6].
  apply (calm_same a1); cbn; [done| |done|done]. by rewrite Hb1, (calm_budget a1 Hc1).
Qed.
Lemma with_columns_calm a p cols : calm a -> calm (with_columns (with_positions a p) cols).
Proof. by apply calm_same. Qed.

Definition replay_write (a : Accelerator) (w : write) (d : db) : Accelerator :=
  match w with
  | WInsert c id doc => replay a (PInsert c id doc)
  | WUpdate c id doc => match doc_at d c id with Some old => replay a (PUpdate c id old doc) | None => a end
  | WDelete c id => match doc_at d c id with Some old => replay a (PDelete c id old) | None => a end
  | WDrop c => replay a (PDropCollection c)
  end.

(** The rows are those of [e], and their bits settle through the writes left;
    the documents without a row are covered. *)
Record tracks (ws : list write) (d : db) (a : Accelerator) (e : db) : Prop := {
  tr_rows : exists T, rows_ok (positions a) e T;
  tr_home : homed e;
  tr_columns : forall field col, columns a !! field = Some col -> column_good (next_pos (positions a)) field col;
  tr_settles : forall c id p, is_Some (doc_at e c id) -> get_position (positions a) id = Some p ->
    forall field col o, columns a !! field = Some col -> settles ws d c id (observed_key field o) (bit col o p);
  tr_present : forall c id, is_Some (doc_at e c id) -> settles ws d c id (fun _ => true) true;
  tr_calm : calm a;
}.
Definition all_covered (ws : list write) (d : db) (e : db) : Prop := forall c id, doc_at e c id = None -> covered ws d c id.
Lemma homed_apart d : homed d -> ids_apart d.
Proof. intros Hh c1 c2 id E1%Hh E2%Hh. congruence. Qed.
Lemma homed_put d c id doc : homed d -> home id = c -> homed (put d c id doc).
Proof. intros Hd Hc c' id'. rewrite doc_at_put. case_decide as Hci; [by destruct Hci as [-> ->]|apply Hd]. Qed.
Lemma homed_drop d c id : homed d -> homed (drop_doc d c id).
Proof. intros Hd c' id'. rewrite doc_at_drop. case_decide; [by intros []|apply Hd]. Qed.
Lemma homed_delete d c : homed d -> homed (delete c d).
Proof. intros Hd c' id'. rewrite doc_at_delete. case_decide; [by intros []|apply Hd]. Qed.
(** A position belongs to the document of its identifier's collection. *)
Lemma position_home a e T id p : rows_ok (positions a) e T -> homed e -> get_position (positions a) id = Some p -> is_Some (doc_at e (home id) id).
Proof. intros Hr Hh Hp. destruct (ro_id _ _ _ Hr _ _ Hp) as (c & _ & Hd). by rewrite (Hh _ _ Hd). Qed.
Lemma no_position a e T id : rows_ok (positions a) e T -> get_position (positions a) id = None -> forall c, doc_at e c id = None.
Proof.
  intros Hr Hp c. destruct (doc_at e c id) as [doc|] eqn:E; [|done]. destruct (ro_doc _ _ _ Hr _ _ _ E) as (p & Hq & _).
  unfold get_position in Hp. congruence.
Qed.
Lemma same_position a e T i j p : rows_ok (positions a) e T -> get_position (positions a) i = Some p -> get_position (positions a) j = Some p -> i = j.
Proof. intros Hr. by apply (positions_injective _ _ _ _ _ _ Hr). Qed.

(** A row is added for a document. *)
Lemma tracks_insert ws d a e c id doc : tracks ws d a e -> get_position (positions a) id = None -> home id = c -> keyed doc ->
  next_pos (positions a) + 1 < 2 ^ 32 -> (forall f, settles ws d c id f (f doc)) ->
  tracks ws d (insert_live a c id doc) (put e c id doc) /\
  next_pos (positions (insert_live a c id doc)) = next_pos (positions a) + 1.
Proof.
  intros [[T Hrows] Hhome Hcols Hset Hpres Hcalm] Hno Hc Hdoc Hroom Hnew. pose proof (no_position _ _ _ _ Hrows Hno) as Hfresh.
  destruct (calm_check a (next_pos (positions a)) Hcalm) as [Hb _]. destruct (insert_live_spec a c id doc Hb) as (Ep & Ec & _).
  destruct (assign_ok _ _ _ c id doc Hrows Hfresh Hroom) as [HT Hrows']. pose proof (ro_length _ _ _ Hrows) as Hlen.
  assert (Hn : 0 <= next_pos (positions a)) by (unfold lenZ in Hlen; lia).
  assert (Hnext : next_pos (assign (positions a) id c).2 = next_pos (positions a) + 1) by (cbn; unfold wrap32; by rewrite Z.mod_small by lia).
  assert (Hgood : forall field col, columns a !! field = Some col ->
    let col' := insert_column (max_cardinality (config a)) doc (next_pos (positions a)) field col in
    column_good (next_pos (positions a) + 1) field col' /\ forall o q, 0 <= q <= next_pos (positions a) ->
      bit col' o q = if decide (q = next_pos (positions a)) then observed_key field o doc else bit col o q).
  { intros field col Hcol. apply good_insert; try done; [by apply Hcols|lia|by apply Hcalm|]. apply Hcalm, (cg_tracked _ _ _ (Hcols _ _ Hcol)). }
  rewrite Ep. split; [|done]. split; rewrite ?Ep, ?Ec.
  - by eexists.
  - by apply homed_put.
  - rewrite Hnext. intros field col (col0 & Hcol & ->)%map_columns_lookup. by apply Hgood.
  - intros c' i p. rewrite doc_at_put. unfold get_position. cbn [assign snd id_to_pos]. intros Hd Hp field col o (col0 & Hcol & ->)%map_columns_lookup.
    destruct (Hgood _ _ Hcol) as [_ Hbit]. apply lookup_insert_Some in Hp as [[<- <-]|[Hne Hp]].
    + assert (c' = c) as ->. { case_decide as Hci; [by destruct Hci|]. rewrite Hfresh in Hd. by destruct Hd. }
      rewrite Hbit, decide_True by lia. apply Hnew.
    + rewrite decide_False in Hd by naive_solver. pose proof (ro_pos_range _ _ _ _ _ Hrows Hp) as Hlt.
      rewrite Hbit, decide_False by lia. by apply (Hset c' i).
  - intros c' i. rewrite doc_at_put. case_decide as Hci; [|apply Hpres]. destruct Hci as [-> ->]. intros _. apply (Hnew (fun _ => true)).
  - by apply insert_calm.
Qed.
(** A hook that leaves the rows alone. *)
Lemma tracks_update ws d a e id old new p : tracks (WUpdate (home id) id new :: ws) d a e -> get_position (positions a) id = Some p ->
  doc_at d (home id) id = Some old -> keyed new -> (forall field, field ∈ fields -> keys_respect old new field) ->
  tracks ws (put d (home id) id new) (update_live a id old new) e.
Proof.
  intros [[T Hrows] Hhome Hcols Hset Hpres Hcalm] Hp Hold Hnew Hresp. unfold update_live. rewrite Hp.
  pose proof (ro_pos_range _ _ _ _ _ Hrows Hp) as Hlt. pose proof (ro_range _ _ _ Hrows) as Hrange.
  assert (Hgood : forall field col, columns a !! field = Some col ->
    let col' := update_column (max_cardinality (config a)) old new p field col in
    column_good (next_pos (positions a)) field col' /\ forall o q, bit col' o q =
      if decide (q = p) then (if bool_decide (observed_key field o old = observed_key field o new) then bit col o p else observed_key field o new)
      else bit col o q).
  { intros field col Hcol. pose proof (Hcols _ _ Hcol) as Hc. pose proof (cg_tracked _ _ _ Hc) as Hf.
    apply good_update; try done; [lia|by apply Hcalm|by apply Hresp|by apply Hcalm]. }
  split; cbn [with_columns positions columns].
  - by eexists.
  - done.
  - intros field col (col0 & Hcol & ->)%map_columns_lookup. by apply Hgood.
  - intros c' i q Hd Hq field col o (col0 & Hcol & ->)%map_columns_lookup. destruct (Hgood _ _ Hcol) as [_ Hbit].
    specialize (Hset c' i q Hd Hq field col0 o Hcol). cbn [settles move] in Hset. rewrite Hbit. destruct (decide (i = id)) as [->|Hi].
    + assert (q = p) as -> by congruence. rewrite (Hhome _ _ Hd) in *. rewrite decide_True in Hset by done. rewrite Hold in Hset. by rewrite decide_True.
    + rewrite decide_False in Hset by naive_solver. rewrite decide_False; [done|]. intros ->. by apply Hi, (same_position _ _ _ _ _ _ Hrows Hq Hp).
  - intros c' i Hd. specialize (Hpres c' i Hd). cbn [settles move] in Hpres. case_decide as Hci; [|done]. destruct Hci as [<- <-]. by rewrite Hold in Hpres.
  - by apply (calm_same a).
Qed.
(** Hooks that free rows. *)
Lemma tracks_delete ws d a e id old p : tracks (WDelete (home id) id :: ws) d a e -> get_position (positions a) id = Some p ->
  tracks ws (drop_doc d (home id) id) (delete_live a (home id) id old) (drop_doc e (home id) id) /\
  next_pos (positions (delete_live a (home id) id old)) = next_pos (positions a).
Proof.
  intros [[T Hrows] Hhome Hcols Hset Hpres Hcalm] Hp. destruct (position_home _ _ _ _ _ Hrows Hhome Hp) as [x Hx].
  destruct (remove_ok _ _ _ (home id) id x Hrows (homed_apart _ Hhome) Hx) as (p' & Hp' & _ & Hrows').
  assert (Hnext : next_pos (positions_remove (positions a) id (home id)) = next_pos (positions a)).
  { unfold positions_remove. unfold get_position in Hp. by rewrite Hp. }
  assert (Hids : id_to_pos (positions_remove (positions a) id (home id)) = delete id (id_to_pos (positions a))).
  { unfold positions_remove. unfold get_position in Hp. by rewrite Hp. }
  unfold delete_live. rewrite Hp. cbn [with_columns with_positions positions columns]. split; [|done].
  split; cbn [with_columns with_positions positions columns].
  - by eexists.
  - by apply homed_drop.
  - rewrite Hnext. intros field col (col0 & Hcol & ->)%map_columns_lookup. by apply good_delete, Hcols.
  - intros c' i q. rewrite doc_at_drop. unfold get_position. rewrite Hids. intros Hd [Hi Hq]%lookup_delete_Some.
    rewrite decide_False in Hd by naive_solver. intros field col o (col0 & Hcol & ->)%map_columns_lookup.
    specialize (Hset c' i q Hd Hq field col0 o Hcol). cbn [settles move] in Hset. rewrite decide_False in Hset by naive_solver.
    destruct (good_delete _ old p _ _ (Hcols _ _ Hcol)) as [_ Hbit]. rewrite Hbit; [done|]. intros ->.
    by apply Hi, (same_position _ _ _ _ _ _ Hrows Hp Hq).
  - intros c' i. rewrite doc_at_drop. case_decide as Hci; [by intros []|]. intros Hd. specialize (Hpres c' i Hd).
    cbn [settles move] in Hpres. by rewrite decide_False in Hpres by naive_solver.
  - by apply (calm_same a).
Qed.
Lemma tracks_drop ws d a e c : tracks (WDrop c :: ws) d a e ->
  tracks ws (delete c d) (drop_collection_live a c) (delete c e) /\
  next_pos (positions (drop_collection_live a c)) = next_pos (positions a).
Proof.
  intros [[T Hrows] Hhome Hcols Hset Hpres Hcalm].
  destruct (remove_collection_ok _ _ _ c Hrows (homed_apart _ Hhome)) as (Hrem & Hnext & Hids & Hrows').
  assert (Hgood : exists g, columns (drop_collection_live a c) = g <$> columns a /\ positions (drop_collection_live a c) = (remove_collection (positions a) c).2 /\
    calm (drop_collection_live a c) /\ forall field col, columns a !! field = Some col ->
      column_good (next_pos (positions a)) field (g col) /\ forall o q, q ∉ members (positions a) c -> bit (g col) o q = bit col o q).
  { unfold drop_collection_live. destruct (remove_collection (positions a) c) as [removed p]. cbn [fst snd] in *. destruct (rb_is_empty removed).
    - exists (fun col => col). rewrite map_fmap_id. split_and!; [done|done|by apply (calm_same a)|]. intros field col Hcol. split; [by apply Hcols|done].
    - exists (drop_column removed). split_and!; [done|done|by apply (calm_same a)|]. intros field col Hcol. rewrite <- Hrem. by apply good_drop, Hcols. }
  destruct Hgood as (g & Ec & Ep & Hcalm' & Hgood). rewrite Ep. split; [|done]. split; rewrite ?Ec, ?Ep, ?Hnext.
  - by eexists.
  - by apply homed_delete.
  - intros field col. rewrite lookup_fmap. intros (col0 & Hcol & ->)%fmap_Some. by apply Hgood.
  - intros c' i q. rewrite doc_at_delete. case_decide as Hc; [by intros []|]. intros Hd [Hq Hnin]%Hids field col o.
    rewrite lookup_fmap. intros (col0 & Hcol & ->)%fmap_Some. destruct (Hgood _ _ Hcol) as [_ Hbit]. rewrite Hbit by done.
    specialize (Hset c' i q Hd Hq field col0 o Hcol). cbn [settles move] in Hset. by rewrite decide_False in Hset by naive_solver.
  - intros c' i. rewrite doc_at_delete. case_decide as Hc; [by intros []|]. intros Hd. specialize (Hpres c' i Hd).
    cbn [settles move] in Hpres. by rewrite decide_False in Hpres by naive_solver.
  - done.
Qed.

(** Any write's replay. *)
Lemma tracks_step w ws d a e : tracks (w :: ws) d a e -> all_covered (w :: ws) d e -> homed d -> fits w d -> fits_all ws (apply_write w d) ->
  next_pos (positions a) + 1 < 2 ^ 32 ->
  exists e', tracks ws (apply_write w d) (replay_write a w d) e' /\ all_covered ws (apply_write w d) e' /\
    next_pos (positions (replay_write a w d)) <= next_pos (positions a) + 1.
Proof.
  intros Htr Hcov Hd Hw Hws Hroom. pose proof Htr as [[T Hrows] Hhome Hcols Hset Hpres Hcalm].
  assert (Hpass : forall c id f b, move w d c id f b = Some b -> settles (w :: ws) d c id f b -> settles ws (apply_write w d) c id f b).
  { intros c id f b E. cbn [settles]. by rewrite E. }
  destruct w as [c id doc|c id doc|c id|c]; cbn [replay_write replay fits apply_write] in *.
  - destruct Hw as (Hc & Habs & Hdoc & _). assert (Htr' : tracks ws (put d c id doc) a e).
    { split; try done. by eexists. }
    destruct (get_position (positions a) id) as [p|] eqn:Hp.
    + exists e. split_and!; [done| |lia]. intros c' i Hi. destruct (Hcov c' i Hi) as [[<- <-]|]; [|done].
      destruct (position_home _ _ _ _ _ Hrows Hhome Hp) as [x Hx]. rewrite Hc in Hx. congruence.
    + exists (put e c id doc). destruct (tracks_insert _ _ _ _ c id doc Htr' Hp Hc Hdoc Hroom) as [Ht Hn].
      { intros f. apply current_settles; [done|]. by rewrite doc_at_put, decide_True. }
      split_and!; [done| |lia]. intros c' i. rewrite doc_at_put. case_decide as Hci; [done|]. intros Hi.
      destruct (Hcov c' i Hi) as [[<- <-]|]; [naive_solver|done].
  - destruct Hw as (Hdoc & _ & old & Hold & Hresp). rewrite Hold. assert (Hc : home id = c) by (apply Hd; by eexists). subst c. cbn [replay].
    destruct (get_position (positions a) id) as [p|] eqn:Hp.
    + exists e. split_and!; [by eapply tracks_update| |unfold update_live; rewrite Hp; cbn; lia].
      intros c' i Hi. destruct (Hcov c' i Hi) as [[<- <-]|]; [|done].
      destruct (position_home _ _ _ _ _ Hrows Hhome Hp) as [x Hx]. congruence.
    + assert (Hno := no_position _ _ _ _ Hrows Hp). assert (Htr' : tracks ws (put d (home id) id doc) a e).
      { assert (Hmove : forall c' i f b, is_Some (doc_at e c' i) -> move (WUpdate (home id) id doc) d c' i f b = Some b).
        { intros c' i f b Hi. cbn [move]. rewrite decide_False; [done|]. intros [<- <-]. rewrite Hno in Hi. by destruct Hi. }
        split; try done; [by eexists| |].
        - intros c' i p Hi Hq field col o Hcol. apply Hpass; [by apply Hmove|by apply (Hset _ _ p)].
        - intros c' i Hi. by apply Hpass, Hpres; [apply Hmove|]. }
      exists (put e (home id) id doc). destruct (tracks_insert _ _ _ _ (home id) id doc Htr' Hp eq_refl Hdoc Hroom) as [Ht Hn].
      { intros f. apply current_settles; [done|]. by rewrite doc_at_put, decide_True. }
      split_and!; [done| |lia]. intros c' i. rewrite doc_at_put. case_decide as Hci; [done|]. intros Hi.
      destruct (Hcov c' i Hi) as [[<- <-]|]; [naive_solver|done].
  - destruct Hw as [old Hold]. rewrite Hold. assert (Hc : home id = c) by (apply Hd; by eexists). subst c. cbn [replay].
    assert (Hgone : covered ws (drop_doc d (home id) id) (home id) id) by (apply absent_covered; [done|by rewrite doc_at_drop, decide_True]).
    destruct (get_position (positions a) id) as [p|] eqn:Hp.
    + exists (drop_doc e (home id) id). destruct (tracks_delete _ _ _ _ id old p Htr Hp) as [Ht Hn].
      split_and!; [done| |lia]. intros c' i. rewrite doc_at_drop. case_decide as Hci; [by destruct Hci as [-> ->]|apply Hcov].
    + exists e. unfold delete_live. rewrite Hp. split_and!; [|by intros c' i ?%Hcov|lia].
      assert (Hmove : forall c' i f b, is_Some (doc_at e c' i) -> move (WDelete (home id) id) d c' i f b = Some b).
      { intros c' i f b Hi. cbn [move]. rewrite decide_False; [done|]. intros [<- <-].
        rewrite (no_position _ _ _ _ Hrows Hp) in Hi. by destruct Hi. }
      split; try done; [by eexists| |].
      * intros c' i p Hi Hq field col o Hcol. apply Hpass; [by apply Hmove|by apply (Hset _ _ p)].
      * intros c' i Hi. by apply Hpass, Hpres; [apply Hmove|].
  - exists (delete c e). destruct (tracks_drop _ _ _ _ c Htr) as [Ht Hn]. split_and!; [done| |lia].
    intros c' i. rewrite doc_at_delete. case_decide as Hc; [|apply Hcov]. subst c'. intros _.
    apply absent_covered; [done|]. by rewrite doc_at_delete, decide_True.
Qed.
Lemma fits_homed w d : fits w d -> homed d -> homed (apply_write w d).
Proof.
  intros Hw Hd. destruct w as [c id doc|c id doc|c id|c]; cbn in *.
  - apply homed_put; [done|apply Hw].
  - destruct Hw as (_ & _ & old & Hold & _). apply homed_put; [done|]. apply Hd. by eexists.
  - by apply homed_drop.
  - by apply homed_delete.
Qed.
Fixpoint replay_all (a : Accelerator) (ws : list write) (d : db) : Accelerator :=
  match ws with [] => a | w :: ws => replay_all (replay_write a w d) ws (apply_write w d) end.
Lemma tracks_all ws d a e : tracks ws d a e -> all_covered ws d e -> homed d -> fits_all ws d ->
  next_pos (positions a) + lenZ ws < 2 ^ 32 ->
  exists e', tracks [] (run_db ws d) (replay_all a ws d) e' /\ all_covered [] (run_db ws d) e' /\ homed (run_db ws d).
Proof.
  revert d a e; induction ws as [|w ws IH]; intros d a e; cbn [replay_all run_db fold_left]; [by eauto|].
  intros Ht Hc Hd [Hw Hws] Hroom. unfold lenZ in *. cbn [length] in Hroom.
  destruct (tracks_step w ws d a e Ht Hc Hd Hw Hws) as (e' & Ht' & Hc' & Hn); [lia|].
  apply (IH _ _ e'); [done..|by apply fits_homed|done|lia].
Qed.

(** With no write left, rows and bits are the documents'. *)
Lemma rows_relabel p e T d : rows_ok p e T -> homed e -> (forall c id, is_Some (doc_at e c id) <-> is_Some (doc_at d c id)) ->
  exists T', rows_ok p d T' /\ forall pos doc, T' !! pos = Some doc ->
    exists id, id_to_pos p !! id = Some pos /\ doc_at d (home id) id = Some doc.
Proof.
  intros Hrows Hhome Hsame. pose proof Hrows as [Hinv Hlen Hrange Hrow Hid Hmem Hdoc].
  exists (map_imap (fun pos _ => i ← slot (pos_to_id p) pos; doc_at d (home i) i) T).
  assert (HT : forall pos doc, map_imap (fun pos _ => i ← slot (pos_to_id p) pos; doc_at d (home i) i) T !! pos = Some doc ->
    exists id, id_to_pos p !! id = Some pos /\ doc_at d (home id) id = Some doc).
  { intros pos doc. rewrite map_lookup_imap. intros (x & Hx & (i & Hi & Hd)%bind_Some)%bind_Some. exists i. split; [|done].
    apply Hinv. split; [|done]. destruct (Hrow _ _ Hx) as [j Hj]. by apply Hinv in Hj as [? _]. }
  split; [|done]. split; try done.
  - intros pos doc (id & Hp & _)%HT. by exists id.
  - intros id pos (c & Hc & Hd)%Hid. exists c. by rewrite <- Hsame.
  - intros c pos (id & Hp & Hd)%Hmem. exists id. by rewrite <- Hsame.
  - intros c id doc Hd. destruct (proj2 (Hsame c id)) as [x Hx]; [by eexists|]. destruct (Hdoc _ _ _ Hx) as (pos & Hp & Hm & HTp).
    exists pos. split_and!; [done..|]. rewrite map_lookup_imap, HTp. cbn. apply Hinv in Hp as [_ ->]. cbn. by rewrite (Hhome c id) by by eexists.
Qed.
Lemma tracks_exact d a e : tracks [] d a e -> all_covered [] d e -> exact a d.
Proof.
  intros [[T Hrows] Hhome Hcols Hset Hpres _] Hcov.
  assert (Hsame : forall c id, is_Some (doc_at e c id) <-> is_Some (doc_at d c id)).
  { intros c id. split; [intros (doc & Hd & _)%Hpres; by eexists|]. intros [doc Hd].
    destruct (doc_at e c id) eqn:E; [by eexists|]. apply Hcov in E. cbn in E. congruence. }
  destruct (rows_relabel _ _ _ _ Hrows Hhome Hsame) as (T' & Hrows' & HT'). exists T'. split; [done|].
  intros field col Hcol. destruct (Hcols _ _ Hcol) as [_ [Hb He _] Hcard _]. split; [|done]. split; [done..|].
  intros p doc Hp. destruct (HT' _ _ Hp) as (id & Hid & Hd).
  assert (Hbit : forall o, bit col o p = observed_key field o doc).
  { intros o. destruct (Hset (home id) id p) with (field := field) (col := col) (o := o) as (doc' & Hd' & ->); try done.
    - apply Hsame. by eexists.
    - by rewrite Hd in Hd'; injection Hd' as ->. }
  split.
  - specialize (Hbit None). cbn in Hbit. by rewrite <- !(bool_decide_eq_true (_ ∈ _)), Hbit, bool_decide_eq_true.
  - intros key. specialize (Hbit (Some key)). cbn in Hbit. unfold has_bit.
    by rewrite <- !(bool_decide_eq_true (_ ∈ _)), Hbit, bool_decide_eq_true.
Qed.

(** *** The scans *)

(** A document, or none, somewhere among the writes. *)
Definition was (ws : list write) (d : db) (c id : string) (o : option Value) : Prop :=
  exists ws1 ws2, ws = ws1 ++ ws2 /\ doc_at (run_db ws1 d) c id = o.
Lemma was_now ws d c id : was ws d c id (doc_at (run_db ws d) c id).
Proof. exists ws, []. by rewrite app_nil_r. Qed.
Lemma was_then ws w d c id o : was ws d c id o -> was (ws ++ [w]) d c id o.
Proof. intros (ws1 & ws2 & -> & E). exists ws1, (ws2 ++ [w]). by rewrite app_assoc. Qed.

Definition op_of (w : write) (d : db) : list PendingOp :=
  match w with
  | WInsert c id doc => [PInsert c id doc]
  | WUpdate c id doc => match doc_at d c id with Some old => [PUpdate c id old doc] | None => [] end
  | WDelete c id => match doc_at d c id with Some old => [PDelete c id old] | None => [] end
  | WDrop c => [PDropCollection c]
  end.
Fixpoint queue (ws : list write) (d : db) : list PendingOp :=
  match ws with [] => [] | w :: ws => op_of w d ++ queue ws (apply_write w d) end.
Lemma queue_app ws w d : queue (ws ++ [w]) d = queue ws d ++ op_of w (run_db ws d).
Proof. revert d; induction ws as [|w' ws IH]; intros d; cbn; [by rewrite app_nil_r|]. by rewrite IH, app_assoc. Qed.
Lemma replay_queue ws a d : foldl replay a (queue ws d) = replay_all a ws d.
Proof.
  revert a d; induction ws as [|w ws IH]; intros a d; cbn [queue replay_all]; [done|]. rewrite foldl_app, <- IH. f_equal.
  destruct w; cbn; try done; by destruct (doc_at d c id).
Qed.
Lemma hook_queues w d a : rebuild_active a = true -> call_hook w d a = with_rebuild a true (pending a ++ op_of w d).
Proof.
  intros Ha. assert (Hnil : with_rebuild a true (pending a ++ []) = a) by (rewrite app_nil_r; unfold with_rebuild; rewrite <- Ha; by destruct a).
  destruct w; cbn; unfold hook_insert, hook_update, hook_delete, hook_drop_collection, queue_or; rewrite ?Ha; try done; by destruct (doc_at d c id); rewrite ?Hnil.
Qed.

Definition documents (d : db) : Prop := forall c id doc, doc_at d c id = Some doc -> named id doc /\ keyed doc.
Lemma fits_documents w d : fits w d -> documents d -> documents (apply_write w d).
Proof.
  intros Hw Hd c' i x. destruct w as [c id doc|c id doc|c id|c]; cbn in *; rewrite ?doc_at_put, ?doc_at_drop, ?doc_at_delete; case_decide; try (apply Hd); try done.
  - intros [= <-]. destruct_and!. by subst.
  - intros [= <-]. destruct Hw as (? & ? & _). destruct_and!. by subst.
Qed.

(** The accelerator in the hands of the scans. *)
Record filling (a : Accelerator) (e : db) : Prop := {
  fi_exact : exact a e;
  fi_home : homed e;
  fi_columns : forall field col, columns a !! field = Some col -> column_good (next_pos (positions a)) field col;
  fi_calm : calm a;
}.
Lemma filling_same a a' e : columns a' = columns a -> positions a' = positions a -> calm a' -> filling a e -> filling a' e.
Proof. intros Ec Ep Hc [(T & Hr & Hx) Hh Hg _]. split; [|done| |done]; [exists T; by rewrite Ec, Ep|by rewrite Ec, Ep]. Qed.
Lemma filling_insert a e c id doc : filling a e -> doc_at e c id = None -> home id = c -> keyed doc -> next_pos (positions a) + 1 < 2 ^ 32 ->
  filling (insert_live a c id doc) (put e c id doc) /\ next_pos (positions (insert_live a c id doc)) = next_pos (positions a) + 1 /\
  pending (insert_live a c id doc) = pending a /\ ready (insert_live a c id doc) = ready a /\
  rebuild_active (insert_live a c id doc) = rebuild_active a.
Proof.
  intros [Hex Hh Hg Hc] Hfresh Hhome Hdoc Hroom. destruct (insert_calm a c id doc Hc) as (Hc' & E1 & E2 & E3).
  destruct (calm_check a (next_pos (positions a)) Hc) as [Hb _]. destruct (insert_live_spec a c id doc Hb) as (Ep & Ec & _).
  assert (Hn : 0 <= next_pos (positions a)).
  { destruct Hex as (T & Hr & _). pose proof (ro_length _ _ _ Hr) as Hl. unfold lenZ in Hl. lia. }
  assert (Hnext : next_pos (positions (insert_live a c id doc)) = next_pos (positions a) + 1).
  { rewrite Ep. cbn. unfold wrap32. by rewrite Z.mod_small by lia. }
  split; [|done]. split; [| | |done].
  - apply insert_exact; [done| |].
    + intros c'. destruct (doc_at e c' id) eqn:E; [|done]. assert (c' = c) as -> by (rewrite <- Hhome; symmetry; apply Hh; by eexists). congruence.
    + split; [done|]. split; [done|]. split; [by apply Hc|]. intros field col Hcol.
      eapply good_room; [by apply Hg|done|]. apply Hc, (cg_tracked _ _ _ (Hg _ _ Hcol)).
  - by apply homed_put.
  - rewrite Hnext, Ec. intros field col (col0 & Hcol & ->)%map_columns_lookup.
    apply good_insert; [by apply Hg|lia|by apply Hc|done|]. apply Hc, (cg_tracked _ _ _ (Hg _ _ Hcol)).
Qed.
Lemma filling_batch rows : forall a e c, filling a e -> NoDup rows.*1 ->
  Forall (fun row => doc_at e c row.1 = None /\ home row.1 = c /\ keyed row.2) rows -> next_pos (positions a) + lenZ rows < 2 ^ 32 ->
  exists e', filling (rebuild_batch a c rows) e' /\
    pending (rebuild_batch a c rows) = pending a /\ ready (rebuild_batch a c rows) = ready a /\
    rebuild_active (rebuild_batch a c rows) = rebuild_active a /\
    next_pos (positions (rebuild_batch a c rows)) = next_pos (positions a) + lenZ rows /\
    (forall c' id, c' <> c \/ id ∉ rows.*1 -> doc_at e' c' id = doc_at e c' id) /\
    Forall (fun row => doc_at e' c row.1 = Some row.2) rows.
Proof.
  induction rows as [|[id doc] rows IH]; intros a e c Hf Hnd Hrows Hroom; cbn [rebuild_batch].
  - exists e. split_and!; try done. unfold lenZ. cbn. lia.
  - rewrite (calm_budget _ (fi_calm _ _ Hf)). cbn in Hnd. apply NoDup_cons in Hnd as [Hnin Hnd]. apply Forall_cons in Hrows as [(Hfresh & Hhome & Hdoc) Hrows].
    cbn [fst snd] in Hfresh, Hhome, Hdoc. unfold lenZ in *. cbn [length] in Hroom.
    destruct (filling_insert a e c id doc Hf Hfresh Hhome Hdoc) as (Hf' & Hn & E1 & E2 & E3); [lia|].
    destruct (IH _ (put e c id doc) c Hf' Hnd) as (e' & Hf'' & F1 & F2 & F3 & Hn' & Hother & Hin).
    + rewrite Forall_forall in *. intros row Hrow. rewrite doc_at_put, decide_False; [by apply Hrows|].
      intros [_ <-]. apply Hnin. by apply list_elem_of_fmap_2.
    + lia.
    + exists e'. split; [exact Hf''|]. split; [congruence|]. split; [congruence|]. split; [congruence|]. split; [rewrite Hn', Hn; cbn [length]; lia|]. split.
      * intros c' i Hi. rewrite fmap_cons, not_elem_of_cons in Hi. cbn [fst] in Hi.
        rewrite Hother by tauto. rewrite doc_at_put, decide_False; [done|]. intros [-> ->]. tauto.
      * constructor; [|done]. cbn. by rewrite Hother, doc_at_put, decide_True by auto.
Qed.

(** [ws] are the writes so far, [e] the documents the scans have seen. *)
Record scanning (d0 : db) (s : system) (ws : list write) (e : db) : Prop := {
  sc_db : sdb s = run_db ws d0;
  sc_fits : fits_all ws d0;
  sc_homed : homed (sdb s);
  sc_documents : documents (sdb s);
  sc_pending : pending (acc s) = queue ws d0;
  sc_active : rebuild_active (acc s) = true;
  sc_unready : ready (acc s) = false;
  sc_filling : filling (acc s) e;
  sc_seen : forall c id doc, doc_at e c id = Some doc -> was ws d0 c id (Some doc);
  sc_nodup : NoDup (todo s);
  sc_todo : forall c id, c ∈ todo s -> doc_at e c id = None;
  sc_open : forall c rows, scan s = Some (c, rows) -> c ∉ todo s /\ NoDup rows.*1 /\
    Forall (fun row => doc_at e c row.1 = None /\ home row.1 = c /\ keyed row.2 /\ was ws d0 c row.1 (Some row.2)) rows /\
    forall id, doc_at e c id = None -> id ∈ rows.*1 \/ was ws d0 c id None;
  sc_done : forall c id, c ∉ todo s -> (forall rows, scan s <> Some (c, rows)) -> doc_at e c id = None -> was ws d0 c id None;
}.
Lemma scanning_write d0 s ws e w : scanning d0 s ws e -> fits w (sdb s) -> scanning d0 (write_system w s) (ws ++ [w]) e.
Proof.
  intros [Edb Hfits Hh Hdocs Hpend Hact Hrdy Hfill Hseen Hnd Htodo Hopen Hdone] Hw.
  assert (Hhook : call_hook w (sdb s) (acc s) = with_rebuild (acc s) true (queue (ws ++ [w]) d0)).
  { rewrite hook_queues, queue_app, Hpend, Edb by done. done. }
  split; cbn [write_system sdb acc todo scan]; rewrite ?Hhook.
  - by rewrite run_db_app, Edb.
  - rewrite fits_all_app, <- Edb. by split.
  - by apply fits_homed.
  - by apply fits_documents.
  - done.
  - done.
  - done.
  - apply (filling_same (acc s)); [done|done| |done]. by apply (calm_same (acc s)), Hfill.
  - intros c id doc Hd. by apply was_then, Hseen.
  - done.
  - done.
  - intros c rows Hs. destruct (Hopen c rows Hs) as (H1' & H2' & H3' & H4'). split_and!; [done|done| |].
    + eapply Forall_impl; [exact H3'|]. intros row (? & ? & ? & ?). split_and!; try done. by apply was_then.
    + intros id Hd. destruct (H4' id Hd); [by left|right; by apply was_then].
  - intros c id Hc Hs Hd. by apply was_then, Hdone.
Qed.
Lemma scan_rows d c l : documents d -> streamed (default ∅ (d !! c)) l ->
  omap scan_row l = l /\ NoDup l.*1 /\ forall id doc, (id, doc) ∈ l <-> doc_at d c id = Some doc.
Proof.
  intros Hd [Hp _]. assert (Hin : forall id doc, (id, doc) ∈ l <-> doc_at d c id = Some doc).
  { intros id doc. rewrite Hp, elem_of_map_to_list. unfold doc_at. destruct (d !! c); cbn; [done|]. by rewrite lookup_empty. }
  split; [|split; [|done]].
  - assert (Hall : Forall (fun kv => scan_row kv = Some kv) l).
    { apply Forall_forall. intros [id doc] Hkv%Hin. destruct (Hd _ _ _ Hkv) as [Hn _]. unfold scan_row. cbn [fst snd]. unfold named in Hn. by rewrite Hn. }
    clear Hp Hin. induction Hall as [|kv l E _ IH]; [done|]. cbn. by rewrite E, IH.
  - rewrite Hp. apply NoDup_fst_map_to_list.
Qed.
Lemma scanning_open d0 s ws e c rest l : scanning d0 s ws e -> scan s = None -> todo s = c :: rest ->
  streamed (default ∅ (sdb s !! c)) l -> scanning d0 (open_scan s c rest l) ws e.
Proof.
  intros [Edb Hfits Hh Hdocs Hpend Hact Hrdy Hfill Hseen Hnd Htodo Hopen Hdone] Hs Ht Hl.
  destruct (scan_rows _ _ _ Hdocs Hl) as (El & Hndl & Hin). rewrite Ht in *. apply NoDup_cons in Hnd as [Hc Hnd].
  split; cbn [open_scan sdb acc todo scan]; try done.
  - intros c' id Hc'. apply Htodo. by right.
  - rewrite El. intros c' rows [= <- <-]. split_and!; [done|done| |].
    + apply Forall_forall. intros [id doc] Hd%Hin. cbn [fst snd]. split_and!.
      * apply Htodo. by left.
      * apply Hh. by eexists.
      * by apply Hdocs in Hd as [_ ?].
      * rewrite <- Hd, Edb. apply was_now.
    + intros id _. destruct (doc_at (sdb s) c id) as [doc|] eqn:Hd.
      * left. apply Hin in Hd. by apply (list_elem_of_fmap_2 fst) in Hd.
      * right. rewrite <- Hd, Edb. apply was_now.
  - intros c' id Hc' Hrows. assert (c' <> c) by (intros ->; by apply (Hrows (omap scan_row l))).
    apply Hdone; [by rewrite not_elem_of_cons|]. by rewrite Hs.
Qed.
Lemma scanning_batch d0 s ws e c rows : scanning d0 s ws e -> scan s = Some (c, rows) ->
  next_pos (positions (acc s)) + lenZ rows < 2 ^ 32 -> exists e', scanning d0 (scan_batch s c rows) ws e'.
Proof.
  intros [Edb Hfits Hh Hdocs Hpend Hact Hrdy Hfill Hseen Hnd Htodo Hopen Hdone] Hs Hroom.
  destruct (Hopen c rows Hs) as (Hc & Hndr & Hrows & Habs).
  rewrite <- (take_drop BATCH_SIZE rows) in Hndr, Hrows. rewrite fmap_app in Hndr. apply NoDup_app in Hndr as (Hnd1 & Hdisj & Hnd2).
  apply Forall_app in Hrows as [Hrows1 Hrows2]. set (now := take BATCH_SIZE rows) in *. set (later := drop BATCH_SIZE rows) in *.
  destruct (filling_batch now (acc s) e c Hfill Hnd1) as (e' & Hfill' & E1 & E2 & E3 & _ & Hother & Hin).
  { eapply Forall_impl; [exact Hrows1|]. by intros row (? & ? & ? & _). }
  { assert (lenZ now <= lenZ rows) by (unfold now, lenZ; rewrite length_take; lia). lia. }
  assert (Hback : forall c' id, doc_at e' c' id = None -> doc_at e c' id = None /\ ~ (c' = c /\ id ∈ now.*1)).
  { intros c' id Hd. destruct (decide (c' = c /\ id ∈ now.*1)) as [[-> Hid]|Hn].
    - apply list_elem_of_fmap in Hid as ([id' doc] & -> & Hrow). rewrite Forall_forall in Hin. apply Hin in Hrow. cbn in *. congruence.
    - split; [|done]. rewrite <- Hother; [done|]. destruct (decide (c' = c)); [right; naive_solver|by left]. }
  exists e'. unfold scan_batch. fold now later. rewrite (calm_budget _ (fi_calm _ _ Hfill')).
  split; cbn [sdb acc todo scan]; try done; try congruence.
  - intros c' id doc Hd. destruct (decide (c' = c /\ id ∈ now.*1)) as [[-> Hid]|Hn].
    + apply list_elem_of_fmap in Hid as ([id' doc'] & -> & Hrow). rewrite Forall_forall in Hin, Hrows1. cbn [fst] in Hd.
      pose proof (Hin _ Hrow) as Hd'. cbn in Hd'. destruct (Hrows1 _ Hrow) as (_ & _ & _ & Hw). cbn in Hw. assert (doc' = doc) as -> by congruence. done.
    + apply Hseen. rewrite <- Hother; [done|]. destruct (decide (c' = c)); [right; naive_solver|by left].
  - intros c' id Hc'. rewrite Hother; [by apply Htodo|]. left. intros ->. done.
  - intros c' rows' Hs'. assert (c' = c /\ rows' = later) as [-> ->] by (destruct later; [done|]; by injection Hs' as <- <-).
    split_and!; [done|done| |].
    + rewrite Forall_forall in *. intros row Hrow. destruct (Hrows2 row Hrow) as (? & ? & ? & ?). split_and!; try done.
      rewrite Hother; [done|]. right. intros Hid. apply (Hdisj _ Hid). by apply list_elem_of_fmap_2.
    + intros id [Hd Hn]%Hback. destruct (Habs id Hd) as [Hid|]; [|by right]. left.
      rewrite <- (take_drop BATCH_SIZE rows), fmap_app, elem_of_app in Hid. fold now later in Hid. naive_solver.
  - intros c' id Hc' Hs' [Hd Hn]%Hback. destruct (decide (c' = c)) as [->|Hne].
    + assert (later = []) as El by (destruct later as [|r l]; [done|by destruct (Hs' (r :: l))]).
      destruct (Habs id Hd) as [Hid|]; [|done]. rewrite <- (take_drop BATCH_SIZE rows), fmap_app, elem_of_app in Hid. fold now later in Hid.
      rewrite El in Hid. cbn in Hid. destruct Hid as [Hid|Hid%elem_of_nil]; [naive_solver|done].
    + apply Hdone; [done| |done]. intros rows'. rewrite Hs. congruence.
Qed.
Lemma scanning_steps d0 s s' ws e : scanning d0 s ws e -> rtc step s s' -> exists ws' e', scanning d0 s' ws' e'.
Proof.
  intros Hs Hsteps. revert ws e Hs; induction Hsteps as [s|s1 s2 s3 Hstep _ IH]; intros ws e Hs; [by eauto|].
  destruct Hstep as [s w Hw|s c rest l Hsc Ht Hl|s c rows Hsc Hroom].
  - by eapply IH, scanning_write.
  - by eapply IH, scanning_open.
  - destruct (scanning_batch _ _ _ _ _ _ Hs Hsc Hroom) as [e' He']. by eapply IH.
Qed.

(** *** From the start to the end *)

(** The tracked fields are among [fields], their keys fit the cap, and the
    memory limit is not in the way. *)
Record sized (a : Accelerator) : Prop := {
  sz_fields : forall field, is_Some (columns a !! field) \/ field ∈ bitmap_fields (config a) -> field ∈ fields;
  sz_cap : max_cardinality (config a) < 2 ^ 32;
  sz_keys : forall field, field ∈ fields -> Z.of_nat (size (keys field)) <= max_cardinality (config a);
  sz_memory : (0 <? max_memory_bytes (config a)) && (max_memory_bytes (config a) <? cached_memory_bytes a) = false;
}.
Lemma clear_new col : clear_column col = BitmapColumn_new (field_path col).
Proof. done. Qed.
Lemma add_fields_new fs cols field col : foldl add_field cols fs !! field = Some col ->
  cols !! field = Some col \/ (col = BitmapColumn_new field /\ field ∈ fs).
Proof.
  revert cols; induction fs as [|g fs IH]; intros cols; cbn [foldl]; [by left|]. intros [Hc|[-> Hf]]%IH; [|right; split; [done|by right]].
  unfold add_field in Hc. destruct (cols !! g); [by left|]. apply lookup_insert_Some in Hc as [[<- <-]|[_ ?]]; [|by left].
  right. split; [done|by left].
Qed.
Lemma start_spec a : positions (start_rebuild a) = positions_new /\ rebuild_active (start_rebuild a) = true /\
  ready (start_rebuild a) = false /\ pending (start_rebuild a) = [] /\ (sized a -> calm (start_rebuild a)) /\
  forall field col, columns (start_rebuild a) !! field = Some col -> exists path, col = BitmapColumn_new path /\
    (is_Some (columns a !! field) \/ field ∈ bitmap_fields (config a)).
Proof.
  unfold start_rebuild. assert (Hcols : forall field col, columns (begin_rebuild a) !! field = Some col ->
    exists path, col = BitmapColumn_new path /\ is_Some (columns a !! field)).
  { intros field col. cbn. rewrite lookup_fmap. intros (col0 & Hcol & ->)%fmap_Some. exists (field_path col0). by rewrite Hcol. }
  assert (Hcalm : forall cols fs, sized a -> calm (with_config (with_columns (begin_rebuild a) cols)
    {| bitmap_fields := fs; max_cardinality := max_cardinality (config a); max_memory_bytes := max_memory_bytes (config a) |})).
  { intros cols fs [_ H1' H2' H3']. by split. }
  cbn [config begin_rebuild clear with_positions with_columns with_profiler with_budget with_ready with_rebuild].
  destruct (bitmap_fields (config a)) as [|f fs] eqn:Ef.
  - split_and!; try done.
    + intros Hs. apply (calm_same (with_config (with_columns (begin_rebuild a) ∅) {| bitmap_fields := []; max_cardinality := max_cardinality (config a); max_memory_bytes := max_memory_bytes (config a) |})); try done.
      * cbn. rewrite <- Ef. by destruct (config a).
      * by apply Hcalm.
    + intros field col (path & -> & Hf)%Hcols. exists path. auto.
  - split_and!; try done; [apply Hcalm|]. intros field col Hcol. cbn [configure_fields with_config with_columns columns] in Hcol.
    apply add_fields_new in Hcol as [(path & -> & Hf)%Hcols|[-> Hf]]; [exists path|exists field]; auto.
Qed.
Lemma new_column_path path path' n field : column_good n field (BitmapColumn_new path) -> column_good n field (BitmapColumn_new path').
Proof. intros [? [? ? ?] ? ?]. by split. Qed.
Lemma start_filling a : sized a -> filling (start_rebuild a) ∅.
Proof.
  intros Hs. destruct (start_spec a) as (Ep & _ & _ & _ & Hcalm & Hcols).
  assert (Hgood : forall field col, columns (start_rebuild a) !! field = Some col -> column_good 0 field col).
  { intros field col Hcol. destruct (Hcols _ _ Hcol) as (path & -> & Hf). apply (new_column_path field). apply good_new; [by apply Hs|lia]. }
  split.
  - exists ∅. rewrite Ep. split; [apply rows_new|]. intros field col Hcol. by destruct (Hgood _ _ Hcol).
  - intros c id Hd. unfold doc_at in Hd. rewrite lookup_empty in Hd. by destruct Hd.
  - rewrite Ep. done.
  - by apply Hcalm.
Qed.
Lemma scanning_start d0 a collections : sized a -> homed d0 -> documents d0 -> NoDup collections ->
  (forall c id, is_Some (doc_at d0 c id) -> c ∈ collections) -> scanning d0 (start_system d0 a collections) [] ∅.
Proof.
  intros Hs Hh Hd Hnd Hall. destruct (start_spec a) as (_ & E1 & E2 & E3 & _ & _).
  assert (Hnone : forall c id, doc_at ∅ c id = None) by (intros c id; unfold doc_at; by rewrite lookup_empty).
  split; cbn [start_system sdb acc todo scan]; try done.
  - by apply start_filling.
  - intros c id Hc _ _. exists [], []. split; [done|]. cbn. destruct (doc_at d0 c id) eqn:E; [|done]. destruct Hc. apply (Hall c id). by eexists.
Qed.
Lemma queue_length ws d : fits_all ws d -> length (queue ws d) = length ws.
Proof.
  revert d; induction ws as [|w ws IH]; intros d; cbn [queue fits_all length]; [done|]. intros [Hw Hws]. rewrite length_app, IH by done.
  destruct w as [c id doc|c id doc|c id|c]; cbn in *; try done.
  - destruct Hw as (_ & _ & old & -> & _). done.
  - by destruct Hw as [old ->].
Qed.
Lemma scanning_tracks d0 s ws e : scanning d0 s ws e -> done_scanning s -> tracks ws d0 (acc s) e /\ all_covered ws d0 e.
Proof.
  intros [Edb Hfits Hh Hdocs Hpend Hact Hrdy [(T & Hrows & Hbits) Hhome Hgood Hcalm] Hseen Hnd Htodo Hopen Hdone] [Ht Hs]. split; [split|].
  - by eexists.
  - done.
  - done.
  - intros c id p [doc Hd] Hp field col o Hcol. destruct (Hseen _ _ _ Hd) as (ws1 & ws2 & -> & Hw).
    destruct (Hbits _ _ Hcol) as [[_ _ Hrow] _]. destruct (ro_doc _ _ _ Hrows _ _ _ Hd) as (p' & Hp' & _ & HT).
    assert (p' = p) as -> by (unfold get_position in Hp; congruence). destruct (Hrow _ _ HT) as [Hex Hkey].
    replace (bit col o p) with (observed_key field o doc); [by apply seen_settles|].
    destruct o as [key|]; apply bool_decide_ext; symmetry; [apply Hkey|apply Hex].
  - intros c id [doc Hd]. destruct (Hseen _ _ _ Hd) as (ws1 & ws2 & -> & Hw). by apply (seen_settles _ _ _ _ _ doc (fun _ => true)).
  - done.
  - intros c id Hd. destruct (Hdone c id) as (ws1 & ws2 & -> & Hw); [by rewrite Ht; apply not_elem_of_nil|by rewrite Hs|done|].
    by apply gone_covered.
Qed.
Lemma finish_exact d0 s ws e : homed d0 -> scanning d0 s ws e -> done_scanning s ->
  next_pos (positions (acc s)) + lenZ (pending (acc s)) < 2 ^ 32 ->
  exact (finish_rebuild (acc s)) (sdb s) /\ serving (finish_rebuild (acc s)).
Proof.
  intros Hd0 Hs Hdone Hroom. destruct (scanning_tracks _ _ _ _ Hs Hdone) as [Ht Hc]. pose proof Hs as [Edb Hfits _ _ Hpend _ _ _ _ _ _ _ _].
  split; [|done]. rewrite Hpend in Hroom. unfold lenZ in Hroom. rewrite queue_length in Hroom by done.
  destruct (tracks_all _ _ _ _ Ht Hc Hd0 Hfits Hroom) as (e' & Ht' & Hc' & _). rewrite Edb.
  pose proof (tracks_exact _ _ _ Ht' Hc') as (T & Hr & Hb). exists T. unfold finish_rebuild. rewrite Hpend, replay_queue. done.
Qed.

(** C10: a rebuild ends exact, whatever inserts, updates, deletions and drops
    come at any time beside its scans, which see each collection as it is when
    they open it. No bitmap is served before the end, and [finish_rebuild]
    leaves an accelerator whose scans answer, as in [bitmap_scans_are_exact],
    as the documents of that moment do. Provided no collection is created
    meanwhile by [create_collection], which sets the accelerator ready early
    (collection.rs:58); the collections listed at the start are all that then
    have documents (main.rs:392 lists them earlier); no scan fails; an
    identifier is only ever in one collection; documents carry their
    identifier; updates do not respell an equal value; the keys of a tracked
    field fit its cap, positions 32 bits and the memory its limit. *)
Theorem rebuild_beside_writers (d0 : db) (a : Accelerator) (collections : list string) (s : system) :
  sized a -> homed d0 -> documents d0 -> NoDup collections ->
  (forall c id, is_Some (doc_at d0 c id) -> c ∈ collections) ->
  rtc step (start_system d0 a collections) s ->
  (forall c f, accelerator_scan (acc s) c f = None) /\
  (done_scanning s -> next_pos (positions (acc s)) + lenZ (pending (acc s)) < 2 ^ 32 ->
    serving (finish_rebuild (acc s)) /\ scans_answer (finish_rebuild (acc s)) (sdb s)).
Proof.
  intros Hsz Hh Hd Hnd Hall Hsteps. pose proof (scanning_start d0 a collections Hsz Hh Hd Hnd Hall) as H0'.
  destruct (scanning_steps _ _ _ _ _ H0' Hsteps) as (ws & e & Hs). split.
  - intros c f. unfold accelerator_scan. by rewrite (sc_unready _ _ _ _ Hs).
  - intros Hdone Hroom. destruct (finish_exact _ _ _ _ Hh Hs Hdone Hroom) as [Hex Hserv]. split; [done|].
    by apply (exact_scans (config a)).
Qed.
End rebuild.

(** ** A witness *)

Module RebuildDemo.
Import Ref RefRoaring BitmapDemo.
Definition home (id : string) : string := if bool_decide (id = "z") then "e" else "c".
Definition fields : gset string := {["t"]}.
Definition keys (field : string) : gset string := {["sx"; "sy"]}.
Definition row (id t : string) : Value := VObject [("_id", VString id); ("t", VString t)].
Definition before : Bitmaps.db := {["c" := {["a" := row "a" "x"; "b" := row "b" "y"]}; "e" := {["z" := row "z" "x"]}]}.
Definition a0 : Accelerator := Accelerator_new cfg.
Lemma row_ok id t : t = "x" \/ t = "y" -> keyed fields keys (row id t) /\ named id (row id t).
Proof.
  intros Ht. split; [|done]. intros field key ->%elem_of_singleton [= <-].
  destruct Ht as [-> | ->]; apply (bool_decide_unpack _); vm_compute; exact I.
Qed.
Lemma a0_sized : sized fields keys a0.
Proof.
  split; [|done| |done].
  - intros field [Hf|Hf]; unfold fields; rewrite elem_of_singleton.
    + destruct (decide (field = "t")); [done|]. exfalso. revert Hf. change (is_Some ((<["t" := BitmapColumn_new "t"]> ∅ : gmap string BitmapColumn) !! field) -> False).
      rewrite lookup_insert_ne, lookup_empty by done. by intros [].
    + by apply list_elem_of_singleton in Hf.
  - intros field _. by vm_compute.
Qed.
Lemma before_rows c id doc : doc_at before c id = Some doc -> c = home id /\ exists t, (t = "x" \/ t = "y") /\ doc = row id t.
Proof.
  unfold doc_at, before. intros (docs & Hc & Hid)%bind_Some. apply lookup_insert_Some in Hc as [[<- <-]|[_ Hc]].
  - apply lookup_insert_Some in Hid as [[<- <-]|[_ Hid]]; [by split; [|exists "x"; auto]|].
    apply lookup_singleton_Some in Hid as [<- <-]. by split; [|exists "y"; auto].
  - apply lookup_singleton_Some in Hc as [<- <-]. apply lookup_singleton_Some in Hid as [<- <-]. by split; [|exists "x"; auto].
Qed.
Definition before_c : list (string * Value) := [("a", row "a" "x"); ("b", row "b" "y")].
Definition before_e : list (string * Value) := [("z", row "z" "x")].
Definition s0 : system := start_system before a0 ["c"; "e"].
Definition s1 : system := open_scan s0 "c" ["e"] before_c.
Definition s2 : system := write_system (WUpdate "c" "b" (row "b" "x")) s1.
Definition s3 : system := scan_batch s2 "c" before_c.
Definition s4 : system := write_system (WDelete "c" "a") s3.
Definition s5 : system := write_system (WInsert "c" "g" (row "g" "x")) s4.
Definition s6 : system := open_scan s5 "e" [] before_e.
Definition s7 : system := scan_batch s6 "e" before_e.
Lemma streamed_here (d : Bitmaps.db) (c : string) l : default ∅ (d !! c) = list_to_map l -> NoDup l.*1 -> StronglySorted (fun a b => str_cmp a.1 b.1 = Lt) l ->
  streamed (default ∅ (d !! c)) l.
Proof. intros -> Hnd Hs. split; [|done]. by rewrite map_to_list_to_map. Qed.
Ltac run_open := apply step_open; [vm_compute; reflexivity|vm_compute; reflexivity|apply streamed_here;
  [apply (bool_decide_unpack _); vm_compute; exact I|apply (bool_decide_unpack _); vm_compute; exact I|repeat constructor]].
Ltac run_batch := apply step_batch; [vm_compute; reflexivity|vm_compute; reflexivity].
Lemma run : rtc (step home fields keys) s0 s7.
Proof.
  apply rtc_l with s1; [run_open|]. apply rtc_l with s2; [apply step_write|].
  { destruct (row_ok "b" "x") as [Hk Hn]; [by left|]. split; [exact Hk|]. split; [exact Hn|]. exists (row "b" "y"). split; [vm_compute; reflexivity|].
    intros field ->%elem_of_singleton E. vm_compute in E. discriminate. }
  apply rtc_l with s3; [run_batch|]. apply rtc_l with s4; [apply step_write; vm_compute; by eexists|].
  apply rtc_l with s5; [apply step_write|].
  { destruct (row_ok "g" "x") as [Hk Hn]; [by left|]. split; [vm_compute; reflexivity|]. split; [vm_compute; reflexivity|]. by split. }
  apply rtc_l with s6; [run_open|]. apply rtc_l with s7; [run_batch|]. apply rtc_refl.
Qed.
End RebuildDemo.
Import Ref RefRoaring BitmapDemo RebuildDemo.

Lemma rebuild_beside_writers_witness :
  let a' := finish_rebuild (acc s7) in
  scans_answer a' (sdb s7) /\ exists b r, accelerator_scan a' "c" f = Some (b, r) /\
    Bitmap.resolve_window (positions a') b 0 usize_max = ["b"; "g"] /\ r = None.
Proof.
  cbn zeta.
  assert (E : (fun br => (Bitmap.resolve_window (positions (finish_rebuild (acc s7))) br.1 0 usize_max, br.2)) <$>
    accelerator_scan (finish_rebuild (acc s7)) "c" f = Some (["b"; "g"], None)) by (vm_compute; reflexivity).
  split; [|destruct (accelerator_scan _ "c" f) as [[b r]|]; [|discriminate]; exists b, r; split; [reflexivity|];
    apply (f_equal (default ([], None))) in E; split; [exact (f_equal fst E)|exact (f_equal snd E)]].
  destruct (rebuild_beside_writers home fields keys before a0 ["c"; "e"] s7) as [_ Hend].
  - apply a0_sized.
  - intros c id [doc Hd]. destruct (before_rows c id doc Hd) as [-> _]. reflexivity.
  - intros c id doc Hd. destruct (before_rows c id doc Hd) as (-> & t & Ht & ->). destruct (row_ok id t Ht). split; assumption.
  - apply (bool_decide_unpack _). vm_compute. exact I.
  - intros c id [doc Hd]. destruct (before_rows c id doc Hd) as [-> _]. unfold home. case_bool_decide; [right|]; left.
  - apply run.
  - apply Hend; [split; vm_compute; reflexivity|vm_compute; reflexivity].
Defined.
