(* ===== verification/Aggregate.v ===== *)
(** * Aggregation ([crates/wardsondb/src/query/aggregate.rs], [distinct.rs])

    Pipelines of [$match], [$group], [$sort], [$skip] and [$limit]: the
    accumulators, the group stage as a fold over documents, the two paths that
    count groups without reading documents, and the distinct values of a
    field. *)

From S2P Require Import Prelude Bytes F64 Json Errors Externals Filter Secondary Sort Cursor Parser Backend Index Storage Document Page Planner Executor Bitmap.

Definition COLLECT_CAP : nat := 1000.
Definition MAX_PIPELINE_STAGES : Z := 100.

Record AggregateResult := {
  ag_docs : list Value;
  ag_scanned : Z;
  ag_groups : Z;
  ag_index : option string;
  ag_strategy : option string;
}.

Inductive AccumulatorDef :=
| ACount | ASum (field : string) | AAvg (field : string) | AMin (field : string) | AMax (field : string) | ACollect (field : string).
Inductive AccumulatorState :=
| SCount (c : Z)
| SSum (s : f64)
| SAvg (sum : f64) (count : Z)
| SMin (v : option Value)
| SMax (v : option Value)
| SCollect (values : gset string) (truncated : bool).
Record GroupState := { id_value : Value; g_states : list AccumulatorState }.
Record GroupAccumulator := {
  id_spec : Value;
  accumulators : list (string * AccumulatorDef);
  group_map : gmap string GroupState;
  group_order : list string;
}.

Definition stage_error (i : nat) (msg : string) : AppError := InvalidPipeline ("Stage " +:+ pretty i +:+ msg).

(** What the bitmap accelerator counts by field. *)
Class BitmapCounts `{BitmapScans} := {
  accel_has_column : accel -> string -> bool;
  counts_by_field : accel -> string -> string -> option (list (string * Z));
  counts_by_field_filtered : accel -> string -> bitmap -> option (list (string * Z));
}.

Section aggregate.
Context `{SerdeJson} `{StorageBackend} `{StorageSerde} `{RegexLib} `{ScanAccelerator} `{!BitmapScans} `{!BitmapCounts}.
Context `{Base64Lib} `{PayloadSerde}.
Context (current : option CancelToken).
Context (hash_order : list (string * (option (Value * bool) * option (Value * bool))) ->
  list (string * (option (Value * bool) * option (Value * bool)))).
(** The order a [HashSet] of texts is iterated in. *)
Context (set_order : gset string -> list string).

(** ** Stages *)

Definition stage_entry (stage : Value) (i : nat) : res (string * Value) :=
  match as_object stage with
  | None => Err (stage_error i " must be an object")
  | Some [entry] => Ok entry
  | Some _ => Err (stage_error i " must have exactly one key")
  end.
Definition parse_sort_stage (spec : Value) (i : nat) : res (list SortField) :=
  map_err (fun e => stage_error i (": $sort " +:+ e)) (parse_sort_spec spec).
(** [None] for a stage of another name. *)
Definition apply_terminal_stage (name : string) (spec : Value) (docs : list Value) (i : nat) : res (option (list Value)) :=
  if bool_decide (name = "$sort") then
    let? fields := parse_sort_stage spec i in Ok (Some (sort_documents docs fields))
  else if bool_decide (name = "$limit") then
    match as_u64 spec with
    | Some limit => Ok (Some (takeZ limit docs))
    | None => Err (stage_error i ": $limit must be a positive integer")
    end
  else if bool_decide (name = "$skip") then
    match as_u64 spec with
    | Some skip => Ok (Some (dropZ skip docs))
    | None => Err (stage_error i ": $skip must be a positive integer")
    end
  else Ok None.
Definition unknown_stage {A} (i : nat) (name : string) : res A := Err (stage_error i (": unknown stage '" +:+ name +:+ "'")).
Fixpoint apply_terminal_stages (stages : list Value) (i : nat) (docs : list Value) : res (list Value) :=
  match stages with
  | [] => Ok docs
  | stage :: stages =>
      let? (name, spec) := stage_entry stage i in
      let? out := apply_terminal_stage name spec docs i in
      match out with
      | Some docs => apply_terminal_stages stages (S i) docs
      | None => unknown_stage i name
      end
  end.

(** ** Accumulators *)

Definition field_operand (op : string) (mk : string -> AccumulatorDef) (operand : Value) (i : nat) : res AccumulatorDef :=
  match as_str operand with
  | Some field => Ok (mk field)
  | None => Err (stage_error i (": " +:+ op +:+ " requires a field path string"))
  end.
Definition parse_accumulator (value : Value) (i : nat) (field_name : string) : res AccumulatorDef :=
  match as_object value with
  | None => Err (stage_error i (": accumulator '" +:+ field_name +:+ "' must be an object"))
  | Some [(op, operand)] =>
      if bool_decide (op = "$count") then Ok ACount
      else if bool_decide (op = "$sum") then field_operand op ASum operand i
      else if bool_decide (op = "$avg") then field_operand op AAvg operand i
      else if bool_decide (op = "$min") then field_operand op AMin operand i
      else if bool_decide (op = "$max") then field_operand op AMax operand i
      else if bool_decide (op = "$collect") then field_operand op ACollect operand i
      else Err (stage_error i (": unknown accumulator '" +:+ op +:+ "'"))
  | Some _ => Err (stage_error i (": accumulator '" +:+ field_name +:+ "' must have exactly one operator"))
  end.
Definition AccumulatorState_new (def : AccumulatorDef) : AccumulatorState :=
  match def with
  | ACount => SCount 0
  | ASum _ => SSum f64_zero
  | AAvg _ => SAvg f64_zero 0
  | AMin _ => SMin None
  | AMax _ => SMax None
  | ACollect _ => SCollect ∅ false
  end.
(** The value that is first or lies beyond the one kept. *)
Definition keep_extreme (want : comparison) (val : option Value) (kept : option Value) : option Value :=
  match val, kept with
  | None, _ => kept
  | Some v, None => Some v
  | Some v, Some cur => if bool_decide (compare_values_total v cur = want) then Some v else kept
  end.
Definition serialize (what : string) (v : Value) : res string :=
  match to_string v with Some s => Ok s | None => Err (Internal ("failed to serialize " +:+ what)) end.
Definition accumulate_state (doc : Value) (def : AccumulatorDef) (state : AccumulatorState) : res AccumulatorState :=
  match state, def with
  | SCount c, ACount => Ok (SCount (wrap64 (c + 1)))
  | SSum s, ASum field =>
      Ok (SSum (match resolve_json_path doc field ≫= as_f64 with Some n => f64_add s n | None => s end))
  | SAvg sum count, AAvg field =>
      Ok (match resolve_json_path doc field ≫= as_f64 with
          | Some n => SAvg (f64_add sum n) (wrap64 (count + 1))
          | None => SAvg sum count
          end)
  | SMin kept, AMin field => Ok (SMin (keep_extreme Lt (resolve_json_path doc field) kept))
  | SMax kept, AMax field => Ok (SMax (keep_extreme Gt (resolve_json_path doc field) kept))
  | SCollect values truncated, ACollect field =>
      match resolve_json_path doc field with
      | Some v =>
          if truncated then Ok (SCollect values truncated) else
          let? key := serialize "$collect value" v in
          if (size values <? COLLECT_CAP)%nat then Ok (SCollect ({[key]} ∪ values) truncated)
          else Ok (SCollect values (negb (bool_decide (key ∈ values))))
      | None => Ok (SCollect values truncated)
      end
  | _, _ => Ok state
  end.
Definition number_or_null (x : f64) : Value := default VNull (VNumber <$> num_from_f64 x).
Definition finalize (state : AccumulatorState) : Value :=
  match state with
  | SCount c => VNumber (PosInt c)
  | SSum s => number_or_null s
  | SAvg sum count => if count =? 0 then VNull else number_or_null (f64_div sum (int_as_f64 count))
  | SMin v | SMax v => default VNull v
  | SCollect values truncated =>
      let sorted := sort_by compare_values_total (omap from_str (set_order values)) in
      if truncated then VObject (map_insert "_truncated" (VBool true) (map_insert "values" (VArray sorted) []))
      else VArray sorted
  end.

(** ** [$group] *)

Fixpoint parse_accumulators (obj : list (string * Value)) (i : nat) : res (list (string * AccumulatorDef)) :=
  match obj with
  | [] => Ok []
  | (key, value) :: obj =>
      if bool_decide (key = "_id") then parse_accumulators obj i
      else let? acc := parse_accumulator value i key in
           let? accs := parse_accumulators obj i in Ok ((key, acc) :: accs)
  end.
Definition GroupAccumulator_new (spec : Value) (i : nat) : res GroupAccumulator :=
  match as_object spec with
  | None => Err (stage_error i ": $group must be an object")
  | Some obj =>
      match map_get "_id" obj with
      | None => Err (stage_error i ": $group requires '_id' field")
      | Some id =>
          let? accs := parse_accumulators obj i in
          Ok {| id_spec := id; accumulators := accs; group_map := ∅; group_order := [] |}
      end
  end.
Definition field_or_null (doc : Value) (field : string) : Value := default VNull (resolve_json_path doc field).
Definition extract_group_key (id_spec doc : Value) : Value :=
  match id_spec with
  | VNull => VNull
  | VString field => field_or_null doc field
  | VObject obj =>
      VObject (foldl (fun result kv =>
        map_insert kv.1 (match as_str kv.2 with Some field => field_or_null doc field | None => kv.2 end) result) [] obj)
  | other => other
  end.
Fixpoint accumulate_states (doc : Value) (defs : list (string * AccumulatorDef)) (states : list AccumulatorState)
    : res (list AccumulatorState) :=
  match defs, states with
  | (_, def) :: defs, state :: states =>
      let? state := accumulate_state doc def state in
      let? states := accumulate_states doc defs states in Ok (state :: states)
  | _, _ => Ok states
  end.
Definition group_accumulate (g : GroupAccumulator) (doc : Value) : res GroupAccumulator :=
  let key := extract_group_key (id_spec g) doc in
  let? key_str := serialize "$group key" key in
  let '(state, order) :=
    match group_map g !! key_str with
    | Some state => (state, group_order g)
    | None => ({| id_value := key; g_states := (fun d => AccumulatorState_new d.2) <$> accumulators g |}, group_order g ++ [key_str])
    end in
  let? states := accumulate_states doc (accumulators g) (g_states state) in
  Ok {| id_spec := id_spec g; accumulators := accumulators g;
        group_map := <[key_str := {| id_value := id_value state; g_states := states |}]> (group_map g);
        group_order := order |}.
Fixpoint insert_results (defs : list (string * AccumulatorDef)) (states : list AccumulatorState) (doc : list (string * Value))
    : list (string * Value) :=
  match defs, states with
  | (name, _) :: defs, state :: states => insert_results defs states (map_insert name (finalize state) doc)
  | _, _ => doc
  end.
Definition group_doc (defs : list (string * AccumulatorDef)) (state : GroupState) : Value :=
  VObject (insert_results defs (g_states state) (map_insert "_id" (id_value state) [])).
(** [group_map[key]]: every key of the order is there. *)
Definition group_finish (g : GroupAccumulator) : list Value :=
  omap (fun key => group_doc (accumulators g) <$> group_map g !! key) (group_order g).
Fixpoint accumulate_docs (g : GroupAccumulator) (docs : list Value) : res GroupAccumulator :=
  match docs with
  | [] => Ok g
  | doc :: docs => let? g := group_accumulate g doc in accumulate_docs g docs
  end.
Definition execute_group (spec : Value) (docs : list Value) (i : nat) : res (list Value) :=
  let? g := GroupAccumulator_new spec i in
  let? g := accumulate_docs g docs in Ok (group_finish g).

(** ** Counting groups without documents *)

Definition single_object (v : Value) : option (list (string * Value)) :=
  match as_object v with Some [kv] => Some [kv] | _ => None end.
(** The names of the accumulators, when all of them count. *)
Fixpoint count_names (obj : list (string * Value)) : option (list string) :=
  match obj with
  | [] => Some []
  | (key, value) :: obj =>
      if bool_decide (key = "_id") then count_names obj
      else o ← single_object value; _ ← map_get "$count" o; names ← count_names obj; Some (key :: names)
  end.
Definition count_doc (names : list string) (id : Value) (count : Z) : Value :=
  VObject (foldl (fun doc name => map_insert name (VNumber (PosInt count)) doc) (map_insert "_id" id []) names).
(** One index key in the run of a value. *)
Definition run_visit (key _v : bytes) (st : list (bytes * Z) * option (bytes * Z)) : (list (bytes * Z) * option (bytes * Z)) * control_flow :=
  match rsplit_at 0 key with
  | None => (st, Continue)
  | Some (value_part, _) =>
      let '(counts, cur) := st in
      (match cur with
       | Some (cv, n) => if bool_decide (cv = value_part) then (counts, Some (cv, n + 1)) else (counts ++ [(cv, n)], Some (value_part, 1))
       | None => (counts, Some (value_part, 1))
       end, Continue)
  end.
Definition run_counts (st : list (bytes * Z) * option (bytes * Z)) : list (bytes * Z) :=
  match st.2 with Some run => st.1 ++ [run] | None => st.1 end.
Definition index_group_docs (names : list string) (counts : list (bytes * Z)) : list Value :=
  (fun vc => count_doc names (default VNull (decode_sortable_bytes vc.1)) vc.2) <$> counts.
(** The [$group] of a first stage, by one field. *)
Definition group_by_field (stage : Value) : option (list (string * Value) * string) :=
  first ← single_object stage; spec ← map_get "$group" first; obj ← as_object spec;
  id ← map_get "_id" obj; field ← as_str id; Some (obj, field).
Definition try_index_only_aggregate (collection : string) (pipeline : list Value) : Op (option AggregateResult) := fun s =>
  match head pipeline ≫= group_by_field with
  | None => (Ok None, s)
  | Some (obj, field) =>
      match count_names obj with
      | None => (Ok None, s)
      | Some names =>
          match get_index_for_field (index_manager s) collection field with
          | None => (Ok None, s)
          | Some (def, partition) =>
              if is_compound def then (Ok None, s) else
              (let? st := visit_checked current run_visit (be_scan_full (eng s) partition) ([], None) in
               let docs := index_group_docs names (run_counts st) in
               let? out := apply_terminal_stages (tail pipeline) 1 docs in
               Ok (Some {| ag_docs := out; ag_scanned := 0; ag_groups := lenZ docs; ag_index := Some (idx_name def);
                           ag_strategy := Some "index_only_aggregate" |}), s)
          end
      end
  end.

(** The filter of a leading [$match] and the position of the [$group]. *)
Definition bitmap_stages (pipeline : list Value) : res (option (option FilterNode * nat)) :=
  match head pipeline ≫= single_object with
  | None => Ok None
  | Some first =>
      match map_get "$match" first with
      | Some match_spec =>
          if (length pipeline <? 2)%nat then Ok None else let? filter := parse_filter match_spec in Ok (Some (Some filter, 1%nat))
      | None => match map_get "$group" first with Some _ => Ok (Some (None, 0%nat)) | None => Ok None end
      end
  end.
Definition try_bitmap_aggregate (collection : string) (pipeline : list Value) : Op (option AggregateResult) := fun s =>
  let a := scan_accelerator s in
  (if negb (bitmap_ready a) then Ok None else
   let? stages := bitmap_stages pipeline in
   match stages with
   | None => Ok None
   | Some (filter, group_idx) =>
       match pipeline !! group_idx ≫= group_by_field with
       | None => Ok None
       | Some (obj, field) =>
           if negb (accel_has_column a field) then Ok None else
           match count_names obj with
           | None => Ok None
           | Some names =>
               let counts :=
                 match filter with
                 | Some f => match bitmap_scan a collection f with
                             | Some (b, None) => counts_by_field_filtered a field b
                             | _ => None
                             end
                 | None => counts_by_field a collection field
                 end in
               match counts with
               | None => Ok None
               | Some counts =>
                   let docs := (fun kc => count_doc names (string_key_to_value kc.1) kc.2) <$> counts in
                   let? out := apply_terminal_stages (drop (S group_idx) pipeline) (S group_idx) docs in
                   Ok (Some {| ag_docs := out; ag_scanned := 0; ag_groups := lenZ docs; ag_index := None;
                               ag_strategy := Some (if bool_decide (is_Some filter) then "bitmap_filtered_aggregate" else "bitmap_aggregate") |})
               end
           end
       end
   end, s).

(** ** A pipeline *)

Definition match_query (filter : FilterNode) : ParsedQuery :=
  {| q_filter := Some filter; q_sort := []; q_limit := u64_max; q_offset := 0; q_fields := None; q_count_only := false; q_cursor := None |}.
Definition group_visit (doc : Value) (st : Z * GroupAccumulator * option AppError) : (Z * GroupAccumulator * option AppError) * control_flow :=
  let '(scanned, g, err) := st in
  match group_accumulate g doc with
  | Ok g => ((scanned + 1, g, err), Continue)
  | Err e => ((scanned + 1, g, Some e), Break)
  end.
(** The documents of the first stage, how many were read, the index, the
    groups, and whether the stage is done. *)
Definition first_stage (collection : string) (pipeline : list Value) : Op (list Value * Z * option string * Z * bool) :=
  match pipeline with
  | [] => op_fail (InvalidPipeline "Pipeline cannot be empty")
  | first :: _ =>
      let! (name, spec) := op_lift (stage_entry first 0) in
      if bool_decide (name = "$match") then
        let! filter := op_lift (parse_filter spec) in
        let! r := execute_query current hash_order collection (match_query filter) in
        op_ret (r_docs r, docs_scanned r, index_used r, 0, true)
      else if bool_decide (name = "$group") then
        let! g := op_lift (GroupAccumulator_new spec 0) in
        let! (scanned, g, err) := for_each_document current collection group_visit (0, g, None) in
        match err with
        | Some e => op_fail e
        | None => let docs := group_finish g in op_ret (docs, scanned, None, lenZ docs, true)
        end
      else
        let! docs := scan_all_documents current collection in
        op_ret (docs, lenZ docs, None, 0, false)
  end.
Fixpoint run_stages (stages : list Value) (i : nat) (docs : list Value) (groups : Z) : res (list Value * Z) :=
  match stages with
  | [] => Ok (docs, groups)
  | stage :: stages =>
      let? (name, spec) := stage_entry stage i in
      if bool_decide (name = "$match") then
        let? filter := parse_filter spec in run_stages stages (S i) (List.filter (matches filter) docs) groups
      else if bool_decide (name = "$group") then
        let? docs := execute_group spec docs i in run_stages stages (S i) docs (lenZ docs)
      else
        let? out := apply_terminal_stage name spec docs i in
        match out with
        | Some docs => run_stages stages (S i) docs groups
        | None => unknown_stage i name
        end
  end.
Definition execute_aggregate (collection : string) (pipeline : list Value) : Op AggregateResult :=
  if bool_decide (pipeline = []) then op_fail (InvalidPipeline "Pipeline cannot be empty") else
  let! _ := ensure_collection_exists collection in
  if MAX_PIPELINE_STAGES <? lenZ pipeline
  then op_fail (InvalidPipeline ("Pipeline limited to " +:+ pretty MAX_PIPELINE_STAGES +:+ " stages")) else
  let! fast := try_bitmap_aggregate collection pipeline in
  match fast with
  | Some r => op_ret r
  | None =>
      let! fast := try_index_only_aggregate collection pipeline in
      match fast with
      | Some r => op_ret r
      | None =>
          let! (docs, scanned, index, groups, skip_first) := first_stage collection pipeline in
          let! (docs, groups) := op_lift (if skip_first : bool then run_stages (tail pipeline) 1 docs groups else run_stages pipeline 0 docs groups) in
          op_ret {| ag_docs := docs; ag_scanned := scanned; ag_groups := groups; ag_index := index; ag_strategy := None |}
      end
  end.

(** ** Distinct values *)

Record DistinctResult := { dv_values : list Value; dv_count : Z; dv_truncated : bool; dv_scanned : Z; dv_index : option string }.
(** What has been seen, the values, whether the limit was met. *)
Definition distinct_visit (field : string) (filter : option FilterNode) (limit : Z) (doc : Value) (st : Z * gset string * list Value * bool)
    : (Z * gset string * list Value * bool) * control_flow :=
  let '(scanned, keys, values, truncated) := st in
  let scanned := scanned + 1 in
  if negb (passes filter doc) then ((scanned, keys, values, truncated), Continue) else
  match resolve_json_path doc field with
  | None => ((scanned, keys, values, truncated), Continue)
  | Some v =>
      let key := default EmptyString (to_string v) in
      if bool_decide (key ∈ keys) then ((scanned, keys, values, truncated), Continue)
      else
        let values := values ++ [v] in
        if limit <=? lenZ values then ((scanned, {[key]} ∪ keys, values, true), Break)
        else ((scanned, {[key]} ∪ keys, values, truncated), Continue)
  end.
Definition distinct_key (limit : Z) (key _v : bytes) (st : gset bytes * list Value * bool) : (gset bytes * list Value * bool) * control_flow :=
  let '(seen, values, truncated) := st in
  match rsplit_at 0 key with
  | None => (st, Continue)
  | Some (value_part, _) =>
      if bool_decide (value_part ∈ seen) then (st, Continue) else
      let seen := {[value_part]} ∪ seen in
      match decode_sortable_bytes value_part with
      | None => ((seen, values, truncated), Continue)
      | Some v =>
          let values := values ++ [v] in
          if limit <=? lenZ values then ((seen, values, true), Break) else ((seen, values, truncated), Continue)
      end
  end.
Definition try_index_only_distinct (collection field : string) (limit : Z) : Op (option DistinctResult) := fun s =>
  match get_index_for_field (index_manager s) collection field with
  | None => (Ok None, s)
  | Some (def, partition) =>
      if is_compound def then (Ok None, s) else
      (let? (_, values, truncated) := visit_checked current (distinct_key limit) (be_scan_full (eng s) partition) (∅, [], false) in
       Ok (Some {| dv_values := values; dv_count := lenZ values; dv_truncated := truncated; dv_scanned := 0; dv_index := Some (idx_name def) |}), s)
  end.
Definition execute_distinct (collection field : string) (filter : option FilterNode) (limit : Z) : Op DistinctResult :=
  let! _ := ensure_collection_exists collection in
  let! fast := (if bool_decide (filter = None) then try_index_only_distinct collection field limit else op_ret None) in
  match fast with
  | Some r => op_ret r
  | None =>
      let! (scanned, _, values, truncated) := for_each_document current collection (distinct_visit field filter limit) (0, ∅, [], false) in
      op_ret {| dv_values := values; dv_count := lenZ values; dv_truncated := truncated; dv_scanned := scanned; dv_index := None |}
  end.
End aggregate.
