(* ===== verification/Grouping.v ===== *)
(** * Groups

    The group stage cuts its documents into one class per group key, in the
    order of first appearance, and folds every accumulator over each class.
    What each accumulator computes, and which values a distinct lists. *)

From S2P Require Import Prelude Bytes F64 Json Errors Externals Filter Secondary Sort Cursor Parser Backend Index Storage Document Page Planner Executor Bitmap Aggregate.

(** ** Order of first appearance *)

Section firsts.
Context {A : Type} `{EqDecision A}.
Implicit Types (x : A) (l : list A).

Fixpoint firsts l : list A :=
  match l with
  | [] => []
  | x :: l => x :: List.filter (fun y => negb (bool_decide (y = x))) (firsts l)
  end.
Lemma elem_of_firsts x l : x ∈ firsts l <-> x ∈ l.
Proof.
  induction l as [|y l IH]; cbn; [done|].
  rewrite !elem_of_cons, elem_of_List_filter, IH, negb_true_iff, bool_decide_eq_false.
  destruct (decide (x = y)); naive_solver.
Qed.
Lemma NoDup_firsts l : NoDup (firsts l).
Proof.
  induction l as [|x l IH]; cbn; constructor; [|by apply NoDup_filter_bool].
  rewrite elem_of_List_filter, negb_true_iff, bool_decide_eq_false. by intros [_ ?].
Qed.
Lemma firsts_snoc l x : firsts (l ++ [x]) = if decide (x ∈ l) then firsts l else firsts l ++ [x].
Proof.
  induction l as [|y l IH]; cbn; [by rewrite decide_False by set_solver|]. rewrite IH.
  destruct (decide (x ∈ l)) as [Hin|Hout]; [by rewrite decide_True by set_solver|].
  rewrite List.filter_app. cbn. case_bool_decide as Hxy; cbn.
  - subst. rewrite app_nil_r. by rewrite decide_True by set_solver.
  - rewrite decide_False by set_solver. done.
Qed.
(** The elements of one kind. *)
Definition class_of {B} (f : B -> A) (k : list B) (x : A) : list B := List.filter (fun b => bool_decide (f b = x)) k.
Lemma class_snoc_eq {B} (f : B -> A) k b : class_of f (k ++ [b]) (f b) = class_of f k (f b) ++ [b].
Proof. unfold class_of. rewrite List.filter_app. cbn. by rewrite bool_decide_true. Qed.
Lemma class_snoc_ne {B} (f : B -> A) k b x : f b <> x -> class_of f (k ++ [b]) x = class_of f k x.
Proof. intros Hx. unfold class_of. rewrite List.filter_app. cbn. by rewrite bool_decide_false, app_nil_r. Qed.
Lemma classes_snoc {B} (f : B -> A) k b (xs : list A) : f b ∉ xs -> class_of f (k ++ [b]) <$> xs = class_of f k <$> xs.
Proof.
  intros Hx. apply list_fmap_ext. intros i y Hy. apply class_snoc_ne. intros <-.
  by apply Hx, (list_elem_of_lookup_2 _ i).
Qed.
Lemma elem_of_class {B} (f : B -> A) k x b : b ∈ class_of f k x <-> b ∈ k /\ f b = x.
Proof. unfold class_of. by rewrite elem_of_List_filter, bool_decide_eq_true. Qed.
Lemma class_empty {B} (f : B -> A) k x : x ∉ f <$> k -> class_of f k x = [].
Proof.
  intros Hx. destruct (class_of f k x) as [|b l] eqn:E; [done|]. destruct Hx.
  assert (b ∈ class_of f k x) as [Hb <-]%elem_of_class by (rewrite E; by left). by apply list_elem_of_fmap_2.
Qed.
(** The classes, put together, are all of the elements. *)
Lemma firsts_classes {B} (f : B -> A) (k : list B) : concat (class_of f k <$> firsts (f <$> k)) ≡ₚ k.
Proof.
  induction k as [|b k IH] using rev_ind; [done|]. rewrite fmap_app. cbn. rewrite firsts_snoc.
  destruct (decide (f b ∈ f <$> k)) as [Hin|Hout].
  - apply elem_of_firsts in Hin. pose proof (NoDup_firsts (f <$> k)) as Hnd.
    apply list_elem_of_split in Hin as (xs & ys & E). rewrite E in *.
    apply NoDup_app in Hnd as (_ & Hx & [Hy _]%NoDup_cons).
    rewrite fmap_app, fmap_cons, concat_app in *. cbn [concat] in *.
    rewrite !classes_snoc, class_snoc_eq by (done || (intros ?; eapply Hx; [done|by left])).
    rewrite <- IH at 4. solve_Permutation.
  - rewrite fmap_app, concat_app, classes_snoc, IH by by rewrite elem_of_firsts. cbn [fmap list_fmap concat].
    by rewrite class_snoc_eq, app_nil_r, class_empty.
Qed.
End firsts.

(** ** The group stage *)

Section groups.
Context `{SerdeJson}.
(** [serde_json::to_string] of a value does not fail. *)
Definition serializes : Prop := forall v, is_Some (to_string v).
Context (Hser : serializes).
Context (set_order : gset string -> list string).

Definition text (v : Value) : string := default EmptyString (to_string v).
Definition key_text (id doc : Value) : string := text (extract_group_key id doc).
Definition step_state (def : AccumulatorDef) (st : AccumulatorState) (doc : Value) : AccumulatorState :=
  match accumulate_state doc def st with Ok st => st | Err _ => st end.
(** An accumulator over documents. *)
Definition fold_state (def : AccumulatorDef) (ds : list Value) : AccumulatorState :=
  foldl (step_state def) (AccumulatorState_new def) ds.
(** The group of the documents with one key. *)
Definition group_of (id : Value) (accs : list (string * AccumulatorDef)) (docs : list Value) (k : string) : GroupState :=
  let members := class_of (key_text id) docs k in
  {| id_value := from_option (extract_group_key id) VNull (head members);
     g_states := (fun d => fold_state d.2 members) <$> accs |}.
(** A reference definition of the stage. *)
Definition groups_of (id : Value) (accs : list (string * AccumulatorDef)) (docs : list Value) : list Value :=
  (fun k => group_doc set_order accs (group_of id accs docs k)) <$> firsts (key_text id <$> docs).

Lemma serialize_text what v : serialize what v = Ok (text v).
Proof. unfold serialize, text. by destruct (Hser v) as [s ->]. Qed.
Lemma step_ok doc def st : accumulate_state doc def st = Ok (step_state def st doc).
Proof.
  unfold step_state. destruct st, def; cbn; try done. destruct (resolve_json_path doc field) as [v|]; [|done].
  destruct truncated; [done|]. rewrite serialize_text. cbn [mbind result_bind]. by destruct (size values <=? 999)%nat.
Qed.
Lemma accumulate_states_ok doc (defs : list (string * AccumulatorDef)) (f : string * AccumulatorDef -> AccumulatorState) :
  accumulate_states doc defs (f <$> defs) = Ok ((fun d => step_state d.2 (f d) doc) <$> defs).
Proof.
  induction defs as [|[n def] defs IH]; [done|]. cbn [fmap list_fmap accumulate_states].
  rewrite step_ok. cbn [mbind result_bind]. fold (f <$> defs). by rewrite IH.
Qed.
Lemma accumulate_states_total doc defs states : exists out, accumulate_states doc defs states = Ok out.
Proof.
  revert states; induction defs as [|[n def] defs IH]; intros [|st states]; [by eexists..|].
  cbn [accumulate_states]. rewrite step_ok. destruct (IH states) as [out E]. cbn. rewrite E. by eexists.
Qed.
Lemma group_accumulate_total g doc : exists g', group_accumulate g doc = Ok g'.
Proof.
  unfold group_accumulate. rewrite serialize_text. cbn [mbind result_bind].
  destruct (group_map g !! _) as [st|];
    match goal with |- context [accumulate_states ?d ?a ?s] => destruct (accumulate_states_total d a s) as [out E] end;
    cbn in *; rewrite E; by eexists.
Qed.

(** The accumulator after some documents. *)
Definition grouped (id : Value) (accs : list (string * AccumulatorDef)) (docs : list Value) (g : GroupAccumulator) : Prop :=
  id_spec g = id /\ accumulators g = accs /\ group_order g = firsts (key_text id <$> docs) /\
  forall k, group_map g !! k = if decide (k ∈ key_text id <$> docs) then Some (group_of id accs docs k) else None.
Lemma fold_state_snoc def ds d : fold_state def (ds ++ [d]) = step_state def (fold_state def ds) d.
Proof. unfold fold_state. by rewrite foldl_app. Qed.
Lemma class_cons {B A} `{EqDecision A} (f : B -> A) (k : list B) x : x ∈ f <$> k -> exists b l, class_of f k x = b :: l.
Proof.
  intros (b & -> & Hb)%list_elem_of_fmap. destruct (class_of f k (f b)) as [|b' l] eqn:E; [|by exists b', l].
  assert (b ∈ class_of f k (f b)) as Hin by by apply elem_of_class. rewrite E in Hin. by apply elem_of_nil in Hin.
Qed.
Lemma grouped_step id accs docs g doc g' : grouped id accs docs g -> group_accumulate g doc = Ok g' ->
  grouped id accs (docs ++ [doc]) g'.
Proof.
  intros (Hid & Hacc & Hord & Hmap). unfold group_accumulate. rewrite serialize_text, Hid, Hacc. cbn [mbind result_bind].
  fold (key_text id doc). set (k := key_text id doc).
  assert (Hnew : g_states (group_of id accs (docs ++ [doc]) k) =
    (fun d => step_state d.2 (fold_state d.2 (class_of (key_text id) docs k)) doc) <$> accs).
  { cbn. unfold k. rewrite class_snoc_eq. apply list_fmap_ext. intros i x _. apply fold_state_snoc. }
  assert (Hrest : forall k', k' <> k -> group_of id accs (docs ++ [doc]) k' = group_of id accs docs k').
  { intros k' Hne. unfold group_of. by rewrite class_snoc_ne by (unfold k in Hne; congruence). }
  rewrite Hmap, Hord.
  assert (Hlook : forall st order, st = group_of id accs (docs ++ [doc]) k ->
    order = (if decide (k ∈ key_text id <$> docs) then firsts (key_text id <$> docs) else firsts (key_text id <$> docs) ++ [k]) ->
    Ok {| id_spec := id; accumulators := accs; group_map := <[k := st]> (group_map g); group_order := order |} = (Ok g' : res _) ->
    grouped id accs (docs ++ [doc]) g').
  { intros st order -> -> [= <-]. unfold grouped. cbn [id_spec accumulators group_map group_order]. rewrite fmap_app. cbn [fmap list_fmap].
    rewrite firsts_snoc. fold k. split_and!; [done..|].
    intros k'. destruct (decide (k' = k)) as [->|Hne]; [rewrite lookup_insert_eq, decide_True by set_solver; done|].
    rewrite lookup_insert_ne, Hmap, Hrest by done. repeat case_decide; set_solver. }
  destruct (decide (k ∈ key_text id <$> docs)) as [Hin|Hout].
  - cbn [g_states group_of id_value]. rewrite accumulate_states_ok. cbn [mbind result_bind]. apply Hlook; [|done].
    destruct (class_cons _ _ _ Hin) as (b & l & E). unfold group_of in *. cbn in Hnew. rewrite Hnew. f_equal.
    unfold k. rewrite class_snoc_eq. fold k. by rewrite E.
  - cbn [g_states id_value]. rewrite accumulate_states_ok. cbn [mbind result_bind]. apply Hlook; [|done].
    unfold group_of in *. cbn in Hnew. rewrite Hnew. unfold k. rewrite class_snoc_eq, class_empty by done. done.
Qed.
Lemma accumulate_docs_app g l k : accumulate_docs g (l ++ k) = let? g := accumulate_docs g l in accumulate_docs g k.
Proof. revert g; induction l as [|d l IH]; intros g; [done|]. cbn. by destruct (group_accumulate g d); cbn. Qed.
Lemma accumulate_docs_grouped id accs docs g : grouped id accs [] g -> exists g', accumulate_docs g docs = Ok g' /\ grouped id accs docs g'.
Proof.
  intros Hg. induction docs as [|d docs (g1 & E & Hg1)] using rev_ind; [by exists g|].
  destruct (group_accumulate_total g1 d) as [g2 E2]. exists g2. split; [|by eapply grouped_step].
  rewrite accumulate_docs_app, E. cbn. by rewrite E2.
Qed.
Lemma grouped_finish id accs docs g : grouped id accs docs g -> group_finish set_order g = groups_of id accs docs.
Proof.
  intros (Hid & Hacc & Hord & Hmap). unfold group_finish, groups_of. rewrite Hord, Hacc. clear Hord.
  assert (Hall : Forall (fun k => k ∈ key_text id <$> docs) (firsts (key_text id <$> docs)))
    by (apply Forall_forall; intros k; by rewrite elem_of_firsts).
  induction Hall as [|k ks Hk _ IH]; [done|]. cbn. rewrite Hmap, decide_True by done. cbn. f_equal. apply IH.
Qed.
Lemma new_grouped spec i g : GroupAccumulator_new spec i = Ok g -> grouped (id_spec g) (accumulators g) [] g.
Proof.
  unfold GroupAccumulator_new. destruct (as_object spec) as [obj|]; [|done]. destruct (map_get "_id" obj); [|done].
  intros (accs & _ & [= <-])%bind_ok. split_and!; [done..|]. intros k. cbn [group_map]. rewrite lookup_empty, decide_False; [done|]. by apply not_elem_of_nil.
Qed.
Lemma execute_group_ok spec docs i : execute_group set_order spec docs i =
  (let? g := GroupAccumulator_new spec i in Ok (groups_of (id_spec g) (accumulators g) docs)).
Proof.
  unfold execute_group. destruct (GroupAccumulator_new spec i) as [g|e] eqn:E; [|done]. cbn.
  destruct (accumulate_docs_grouped _ _ docs g (new_grouped _ _ _ E)) as (g' & -> & Hg'). cbn. by rewrite (grouped_finish _ _ _ _ Hg').
Qed.
End groups.

(** ** What the accumulators compute *)

Section accumulators.
Context `{SerdeJson} `{!SerdeLaws} (Hser : serializes).

(** The values of a field, the numbers among them, in document order. *)
Definition values_at (field : string) (ds : list Value) : list Value := omap (fun d => resolve_json_path d field) ds.
Definition numbers_at (field : string) (ds : list Value) : list f64 := omap as_f64 (values_at field ds).
Lemma values_snoc field ds d : values_at field (ds ++ [d]) = values_at field ds ++ option_list (resolve_json_path d field).
Proof. unfold values_at. rewrite omap_app. cbn. by destruct (resolve_json_path d field). Qed.
Lemma numbers_snoc field ds d : numbers_at field (ds ++ [d]) = numbers_at field ds ++ option_list (resolve_json_path d field ≫= as_f64).
Proof. unfold numbers_at. rewrite values_snoc, omap_app. destruct (resolve_json_path d field) as [v|]; [|done]. cbn. by destruct (as_f64 v). Qed.

Lemma wrap_succ n : wrap64 (wrap64 n + 1) = wrap64 (n + 1).
Proof. unfold wrap64. by rewrite Zplus_mod_idemp_l. Qed.
Lemma count_state ds : fold_state ACount ds = SCount (wrap64 (lenZ ds)).
Proof.
  induction ds as [|d ds IH] using rev_ind; [done|]. rewrite fold_state_snoc, IH, lenZ_app.
  unfold step_state. cbn [accumulate_state]. by rewrite wrap_succ.
Qed.
Lemma sum_state field ds : fold_state (ASum field) ds = SSum (foldl f64_add f64_zero (numbers_at field ds)).
Proof.
  induction ds as [|d ds IH] using rev_ind; [done|]. rewrite fold_state_snoc, IH, numbers_snoc, foldl_app.
  unfold step_state. cbn [accumulate_state]. by destruct (resolve_json_path d field ≫= as_f64).
Qed.
Lemma avg_state field ds : fold_state (AAvg field) ds =
  SAvg (foldl f64_add f64_zero (numbers_at field ds)) (wrap64 (lenZ (numbers_at field ds))).
Proof.
  induction ds as [|d ds IH] using rev_ind; [done|]. rewrite fold_state_snoc, IH, numbers_snoc, foldl_app, lenZ_app.
  unfold step_state. cbn [accumulate_state]. destruct (resolve_json_path d field ≫= as_f64); cbn; [|by rewrite Z.add_0_r].
  by rewrite wrap_succ.
Qed.

(** The value kept lies at the end [want] of the values. *)
Definition extreme (want : comparison) (vs : list Value) (kept : option Value) : Prop :=
  match kept with
  | None => vs = []
  | Some m => m ∈ vs /\ Forall (fun v => compare_values_total v m <> want) vs
  end.
Lemma extreme_one want v : want <> Eq -> Forall (fun u => compare_values_total u v <> want) [v].
Proof. intros Hw. apply Forall_singleton. rewrite (cmp_refl compare_values_total). congruence. Qed.
Lemma extreme_step want vs kept v : want <> Eq -> extreme want vs kept -> extreme want (vs ++ [v]) (keep_extreme want (Some v) kept).
Proof.
  intros Hw. destruct kept as [m|]; cbn; [|intros ->; split; [by left|by apply extreme_one]].
  intros [Hm Hall]. case_bool_decide as Hv; cbn.
  - split; [set_solver|]. apply Forall_app. split; [|by apply extreme_one].
    eapply Forall_impl; [exact Hall|]. intros u Hu Hux. apply Hu. destruct want; [done| |].
    + apply (cmp_lt_le_trans compare_values_total _ v); [done|by rewrite Hv].
    + apply (cmp_gt_lt compare_values_total). apply (cmp_gt_lt compare_values_total) in Hux, Hv.
      apply (cmp_lt_le_trans compare_values_total _ v); [done|by rewrite Hux].
  - split; [set_solver|]. apply Forall_app. split; [done|by apply Forall_singleton].
Qed.
Lemma min_state field ds : exists kept, fold_state (AMin field) ds = SMin kept /\ extreme Lt (values_at field ds) kept.
Proof.
  induction ds as [|d ds (kept & IH & He)] using rev_ind; [by exists None|]. rewrite fold_state_snoc, IH, values_snoc.
  unfold step_state. cbn [accumulate_state]. eexists. split; [done|].
  destruct (resolve_json_path d field) as [v|]; cbn [option_list]; [by apply extreme_step|by rewrite app_nil_r].
Qed.
Lemma max_state field ds : exists kept, fold_state (AMax field) ds = SMax kept /\ extreme Gt (values_at field ds) kept.
Proof.
  induction ds as [|d ds (kept & IH & He)] using rev_ind; [by exists None|]. rewrite fold_state_snoc, IH, values_snoc.
  unfold step_state. cbn [accumulate_state]. eexists. split; [done|].
  destruct (resolve_json_path d field) as [v|]; cbn [option_list]; [by apply extreme_step|by rewrite app_nil_r].
Qed.

(** The texts of values, and what [$collect] keeps of them. *)
Definition texts (vs : list Value) : gset string := list_to_set (text <$> vs).
Definition collected (K S : gset string) (truncated : bool) : Prop :=
  if truncated then S ⊆ K /\ size S = COLLECT_CAP /\ (COLLECT_CAP < size K)%nat
  else S = K /\ (size K <= COLLECT_CAP)%nat.
Lemma texts_snoc vs v : texts (vs ++ [v]) = {[text v]} ∪ texts vs.
Proof. unfold texts. rewrite fmap_app, list_to_set_app_L. cbn. set_solver. Qed.
Lemma collect_step K S truncated k : collected K S truncated ->
  collected ({[k]} ∪ K) (if truncated then S else if (size S <? COLLECT_CAP)%nat then {[k]} ∪ S else S)
    (if truncated then true else if (size S <? COLLECT_CAP)%nat then false else negb (bool_decide (k ∈ S))).
Proof.
  unfold collected. destruct truncated.
  - intros (HS & Hs & HK). split_and!; [set_solver|done|]. eapply Nat.lt_le_trans; [exact HK|]. apply subseteq_size. set_solver.
  - intros [-> Hle]. destruct (Nat.ltb_spec (size K) COLLECT_CAP) as [Hlt|Hge].
    + split; [done|]. rewrite size_union_alt, size_singleton.
      pose proof (subseteq_size (K ∖ {[k]}) K ltac:(set_solver)). lia.
    + assert (size K = COLLECT_CAP) as Hs by lia. case_bool_decide as Hk; cbn.
      * replace ({[k]} ∪ K) with K by set_solver. done.
      * rewrite size_union, size_singleton by set_solver. split_and!; [set_solver|done|lia].
Qed.
Lemma collect_state field ds : exists S truncated, fold_state (ACollect field) ds = SCollect S truncated /\
  collected (texts (values_at field ds)) S truncated.
Proof.
  induction ds as [|d ds (S & truncated & IH & Hc)] using rev_ind;
    [exists ∅, false; split; [done|]; split; [done|]; change (texts _) with (∅ : gset string); rewrite size_empty; unfold COLLECT_CAP; lia|].
  rewrite fold_state_snoc, IH, values_snoc. unfold step_state. cbn [accumulate_state].
  destruct (resolve_json_path d field) as [v|]; cbn [option_list]; [|rewrite app_nil_r; by exists S, truncated].
  change (option_list (Some v)) with [v]. rewrite texts_snoc. apply (collect_step _ _ _ (text v)) in Hc. rewrite serialize_text by done. cbn [mbind result_bind].
  destruct truncated; [by do 2 eexists|]. destruct (size S <? COLLECT_CAP)%nat; by do 2 eexists.
Qed.

(** What an accumulator reports for the documents of a group. *)
Definition reports (def : AccumulatorDef) (ds : list Value) (out : Value) : Prop :=
  match def with
  | ACount => out = VNumber (PosInt (wrap64 (lenZ ds)))
  | ASum f => out = number_or_null (foldl f64_add f64_zero (numbers_at f ds))
  | AAvg f => let ns := numbers_at f ds in
      out = if bool_decide (ns = []) then VNull
            else number_or_null (f64_div (foldl f64_add f64_zero ns) (int_as_f64 (lenZ ns)))
  | AMin f => out = VNull /\ values_at f ds = [] \/ extreme Lt (values_at f ds) (Some out)
  | AMax f => out = VNull /\ values_at f ds = [] \/ extreme Gt (values_at f ds) (Some out)
  | ACollect f => exists vs, StronglySorted (cmp_le compare_values_total) vs /\ NoDup vs /\ vs ⊆ values_at f ds /\
      if (size (texts (values_at f ds)) <=? COLLECT_CAP)%nat
      then out = VArray vs /\ values_at f ds ⊆ vs
      else out = VObject [("_truncated", VBool true); ("values", VArray vs)] /\ length vs = COLLECT_CAP
  end.

Context (set_order : gset string -> list string) (Hset : forall S, set_order S ≡ₚ elements S).
Lemma read_back (vs : list Value) (ks : list string) : (forall v, v ∈ vs -> from_str (text v) = Some v) ->
  NoDup ks -> (forall k, k ∈ ks -> k ∈ text <$> vs) ->
  NoDup (omap from_str ks) /\ length (omap from_str ks) = length ks /\
  forall v, v ∈ omap from_str ks <-> v ∈ vs /\ text v ∈ ks.
Proof.
  intros Hread Hnd Hks.
  assert (Hk : forall k, k ∈ ks -> exists v, v ∈ vs /\ k = text v /\ from_str k = Some v).
  { intros k (v & -> & Hv)%Hks%list_elem_of_fmap. exists v. auto. }
  split_and!.
  - apply NoDup_omap; [done|]. intros x y v Hx Hy Ex Ey.
    destruct (Hk x Hx) as (? & _ & -> & ?), (Hk y Hy) as (? & _ & -> & ?). congruence.
  - apply length_omap_all, Forall_forall. intros k (v & _ & _ & E)%Hk. by exists v.
  - intros v. rewrite list_elem_of_omap. split.
    + intros (k & Hin & E). destruct (Hk k Hin) as (v' & Hv' & -> & E'). rewrite E' in E. injection E as ->. done.
    + intros [Hv Hin]. exists (text v). auto.
Qed.
Lemma collect_reports f ds : (forall v, v ∈ values_at f ds -> from_str (text v) = Some v) ->
  reports (ACollect f) ds (finalize set_order (fold_state (ACollect f) ds)).
Proof.
  intros Hread. destruct (collect_state f ds) as (S & truncated & E & Hc). rewrite E. cbn [finalize reports].
  assert (HS : S ⊆ texts (values_at f ds)) by (destruct truncated; [apply Hc|by destruct Hc as [-> _]]).
  destruct (read_back (values_at f ds) (set_order S) Hread) as (Hnd & Hlen & Hin).
  { rewrite Hset. apply NoDup_elements. }
  { intros k Hk. rewrite Hset, elem_of_elements in Hk. apply HS in Hk. by apply elem_of_list_to_set in Hk. }
  exists (sort_by compare_values_total (omap from_str (set_order S))).
  split; [by apply sort_by_strongly, _|]. split; [by rewrite sort_by_perm|].
  split. { intros v. rewrite sort_by_perm. rewrite Hin. by intros [? _]. }
  destruct truncated; cbn [collected] in Hc.
  - destruct Hc as (_ & Hs & HK). destruct (Nat.leb_spec (size (texts (values_at f ds))) COLLECT_CAP); [lia|].
    split; [done|]. by rewrite sort_by_perm, Hlen, Hset.
  - destruct Hc as [-> HK]. destruct (Nat.leb_spec (size (texts (values_at f ds))) COLLECT_CAP); [|lia].
    split; [done|]. intros v Hv. rewrite sort_by_perm, Hin. split; [done|].
    rewrite Hset, elem_of_elements. unfold texts. rewrite elem_of_list_to_set. by apply list_elem_of_fmap_2.
Qed.
Lemma accumulator_reports def ds : lenZ ds < 2 ^ 64 ->
  (forall f v, def = ACollect f -> v ∈ values_at f ds -> from_str (text v) = Some v) ->
  reports def ds (finalize set_order (fold_state def ds)).
Proof.
  intros Hlen Hread. destruct def as [|f|f|f|f|f]; [by rewrite count_state|by rewrite sum_state| | | |apply collect_reports; eauto].
  - rewrite avg_state. cbn [finalize reports]. unfold wrap64. rewrite Z.mod_small.
    + destruct (numbers_at f ds) as [|x ns] eqn:E; [done|]. cbn [bool_decide]. rewrite bool_decide_false by done.
      destruct (Z.eqb_spec (lenZ (x :: ns)) 0) as [E0|]; [|done]. unfold lenZ in E0. cbn in E0. lia.
    + assert (length (numbers_at f ds) <= length ds)%nat; [|unfold lenZ in *; lia].
      unfold numbers_at, values_at. etransitivity; apply length_omap_le.
  - destruct (min_state f ds) as ([m|] & -> & He); [by right|by left].
  - destruct (max_state f ds) as ([m|] & -> & He); [by right|by left].
Qed.

(** ** The documents of the groups *)

Lemma insert_results_ne (accs : list (string * AccumulatorDef)) states doc k : k ∉ accs.*1 ->
  map_get k (insert_results set_order accs states doc) = map_get k doc.
Proof.
  revert states doc; induction accs as [|[n def] accs IH]; intros [|st states] doc Hk; try done.
  apply not_elem_of_cons in Hk as [Hne Hk]. cbn [insert_results]. rewrite IH by done. by rewrite map_get_insert_ne.
Qed.
Lemma insert_results_get (accs : list (string * AccumulatorDef)) (F : string * AccumulatorDef -> AccumulatorState) doc n def :
  NoDup accs.*1 -> (n, def) ∈ accs ->
  map_get n (insert_results set_order accs (F <$> accs) doc) = Some (finalize set_order (F (n, def))).
Proof.
  revert doc; induction accs as [|[m e] accs IH]; intros doc Hnd Hin; [by apply elem_of_nil in Hin|].
  apply NoDup_cons in Hnd as [Hm Hnd]. cbn [fmap list_fmap insert_results]. fold (F <$> accs).
  apply elem_of_cons in Hin as [[= -> ->]|Hin]; [by rewrite insert_results_ne, map_get_insert_eq|by apply IH].
Qed.
Lemma parse_names obj i accs : keys_sorted obj -> parse_accumulators obj i = Ok accs ->
  NoDup accs.*1 /\ "_id" ∉ accs.*1 /\ accs.*1 ⊆ obj.*1.
Proof.
  intros Hs. revert accs; induction Hs as [|[k v] obj Hs IH Hlt]; intros accs; cbn [parse_accumulators].
  { intros [= <-]. split_and!; [constructor|by apply not_elem_of_nil|done]. }
  case_bool_decide as Hk.
  - intros E. destruct (IH accs E) as (? & ? & ?). split_and!; [done|done|set_solver].
  - intros (acc & _ & (accs' & E & [= <-])%bind_ok)%bind_ok. destruct (IH accs' E) as (Hnd & Hid & Hsub).
    cbn. split_and!; [|set_solver|set_solver]. constructor; [|done]. intros ([k' v'] & Ek & Hin)%Hsub%list_elem_of_fmap.
    cbn in Ek. subst k'. rewrite Forall_forall in Hlt. specialize (Hlt _ Hin). cbn in Hlt. by rewrite (cmp_refl str_cmp) in Hlt.
Qed.
Lemma new_names spec i g : value_wf spec -> GroupAccumulator_new spec i = Ok g ->
  NoDup (accumulators g).*1 /\ "_id" ∉ (accumulators g).*1.
Proof.
  intros Hwf. unfold GroupAccumulator_new. destruct spec as [| | | | |obj]; try done. cbn [as_object].
  destruct (map_get "_id" obj); [|done]. intros (accs & E & [= <-])%bind_ok. inversion Hwf; subst.
  by destruct (parse_names obj i accs) as (? & ? & _).
Qed.

(** A result document of the group of [members]. *)
Definition describes (id : Value) (accs : list (string * AccumulatorDef)) (members : list Value) (out : Value) : Prop :=
  (exists first rest, members = first :: rest /\ get out "_id" = Some (extract_group_key id first)) /\
  forall n def, (n, def) ∈ accs -> exists v, get out n = Some v /\ reports def members v.
Lemma class_len {B A} `{EqDecision A} (f : B -> A) (k : list B) x : lenZ (class_of f k x) <= lenZ k.
Proof. unfold lenZ, class_of. apply inj_le. induction k as [|b k IH]; cbn; [done|]. case_bool_decide; cbn; lia. Qed.
Lemma groups_describe id accs docs : NoDup accs.*1 -> "_id" ∉ accs.*1 -> lenZ docs < 2 ^ 64 ->
  (forall v f, ACollect f ∈ accs.*2 -> v ∈ values_at f docs -> from_str (text v) = Some v) ->
  Forall2 (fun k out => describes id accs (class_of (key_text id) docs k) out) (firsts (key_text id <$> docs)) (groups_of set_order id accs docs).
Proof.
  intros Hnd Hid Hlen Hread. unfold groups_of. apply Forall2_fmap_r, Forall_Forall2_diag, Forall_forall.
  intros k Hk. rewrite elem_of_firsts in Hk. destruct (class_cons _ _ _ Hk) as (first & rest & Ec). split.
  - exists first, rest. split; [done|]. cbn. rewrite insert_results_ne by done. cbn. by rewrite Ec.
  - intros n def Hin. unfold group_doc. cbn [get g_states group_of].
    rewrite (insert_results_get accs (fun d => fold_state d.2 (class_of (key_text id) docs k)) _ n def) by done.
    exists (finalize set_order (fold_state def (class_of (key_text id) docs k))). split; [done|]. apply accumulator_reports; [pose proof (class_len (key_text id) docs k); lia|].
    intros f v -> (d & Hd & Ev)%list_elem_of_omap. apply (Hread v f); [by apply (list_elem_of_fmap_2 snd) in Hin|].
    apply list_elem_of_omap. exists d. split; [|done]. by apply elem_of_class in Hd as [? _].
Qed.
End accumulators.
