(* ===== verification/Pipelines.v ===== *)
(** * Pipelines and distinct values over a collection

    The counts read from an index are those of the documents; a pipeline
    answers what its stages make of the collection; a distinct lists the
    values of a field. *)

From S2P Require Import Prelude Bytes F64 Json Errors Externals Filter Secondary Sort Cursor Parser Backend Index Storage Document Consistency Mutations Refinement History Guarantees Page Planner Executor Bitmap Compound Execution Plans Walks Queries Aggregate Grouping.

(** ** Runs of index entries *)

Section runs.
Abbreviation ble := (cmp_le bytes_cmp).
(** How often each value occurs. *)
Definition counts_of (L : list bytes) : list (bytes * Z) := (fun b => (b, lenZ (class_of Datatypes.id L b))) <$> firsts L.
Definition run_step (st : list (bytes * Z) * option (bytes * Z)) (b : bytes) : list (bytes * Z) * option (bytes * Z) :=
  match st.2 with
  | Some (cv, n) => if bool_decide (cv = b) then (st.1, Some (cv, n + 1)) else (st.1 ++ [(cv, n)], Some (b, 1))
  | None => (st.1, Some (b, 1))
  end.
Lemma class_id_firsts (L : list bytes) b : b ∉ L -> class_of Datatypes.id L b = [].
Proof. intros Hb. apply class_empty. by rewrite list_fmap_id. Qed.
Lemma count_snoc (L : list bytes) b : class_of Datatypes.id (L ++ [b]) b = class_of Datatypes.id L b ++ [b].
Proof. exact (class_snoc_eq Datatypes.id L b). Qed.
Lemma copies_map {B} (f : B -> bytes) (k : list B) b : length (class_of Datatypes.id (f <$> k) b) = length (class_of f k b).
Proof. induction k as [|x k IH]; [done|]. unfold class_of in *. cbn. change (Datatypes.id (f x)) with (f x). case_bool_decide; cbn; [f_equal|]; exact IH. Qed.
(** Equal values of a sorted list stand together. *)
Lemma sorted_last (L : list bytes) z x : StronglySorted ble (L ++ [z; x]) -> x ∈ L ++ [z] -> x = z.
Proof.
  intros Hs Hx. apply elem_of_app in Hx as [Hx|Hx%list_elem_of_singleton]; [|done].
  assert (ble x z) by (eapply (StronglySorted_app_1_elem_of ble L [z; x]); [done..|by left]).
  assert (ble z x) as Hzx by (apply (StronglySorted_app_1_r ble L) in Hs; inversion Hs as [|? ? _ Hf]; by inversion Hf).
  apply (lex_cmp_eq x z), (cmp_le_antisym bytes_cmp); done.
Qed.
Lemma runs_spec (L : list bytes) : StronglySorted ble L ->
  run_counts (foldl run_step ([], None) L) = counts_of L /\
  fst <$> (foldl run_step ([], None) L).2 = last L.
Proof.
  induction L as [|x L IH] using rev_ind; [done|]. intros Hs. rewrite foldl_app. cbn [foldl].
  destruct IH as [Hc Hl]; [by eapply StronglySorted_app_1_l|]. rewrite last_snoc.
  destruct (foldl run_step ([], None) L) as [counts [[cv n]|]]; unfold run_step, run_counts in *; cbn [fst snd fmap option_fmap option_map] in *.
  - symmetry in Hl. apply last_Some in Hl as (L' & ->).
    unfold counts_of in Hc |- *. rewrite firsts_snoc. case_bool_decide as Hx; cbn [fst snd fmap option_fmap option_map].
    + subst x. split; [|done]. rewrite decide_True by set_solver.
      pose proof (NoDup_firsts (L' ++ [cv])) as Hnd.
      destruct (firsts (L' ++ [cv])) as [|y ys _] eqn:E using rev_ind; [by destruct counts|].
      rewrite fmap_app in Hc |- *. cbn [fmap list_fmap] in *. apply app_inj_tail in Hc as [-> [= <- ->]].
      apply NoDup_app in Hnd as (_ & Hy & _).
      f_equal.
      * apply list_fmap_ext. intros i z Hz. f_equal. f_equal. symmetry. apply class_snoc_ne. unfold Datatypes.id. intros ->.
        apply list_elem_of_lookup_2 in Hz. apply (Hy _ Hz). by left.
      * do 2 f_equal. by rewrite (count_snoc (L' ++ [cv]) cv), lenZ_app.
    + assert (x ∉ L' ++ [cv]) as Hout.
      { intros Hin. apply Hx. symmetry. eapply sorted_last; [|exact Hin]. by rewrite <- app_assoc in Hs. }
      rewrite decide_False by done. split; [|done]. rewrite Hc, fmap_app. cbn [fmap list_fmap]. f_equal.
      * apply list_fmap_ext. intros i z Hz. f_equal. f_equal. symmetry. apply class_snoc_ne. unfold Datatypes.id. intros <-.
        apply list_elem_of_lookup_2 in Hz. by rewrite elem_of_firsts in Hz.
      * do 2 f_equal. by rewrite (count_snoc (L' ++ [cv]) x), class_id_firsts.
  - symmetry in Hl. apply last_None in Hl as ->. rewrite Hc. split; [|done].
    unfold counts_of, class_of. cbn. by rewrite bool_decide_true.
Qed.
End runs.

Lemma omap_sorted {A B} (R : relation A) (S : relation B) (f : A -> option B) l : StronglySorted R l ->
  (forall x y a b, x ∈ l -> y ∈ l -> R x y -> f x = Some a -> f y = Some b -> S a b) -> StronglySorted S (omap f l).
Proof.
  induction 1 as [|x l Hs IH Hx]; intros Hf; cbn; [constructor|].
  assert (StronglySorted S (omap f l)) by (apply IH; intros; eapply Hf; try done; by right).
  destruct (f x) as [a|] eqn:E; [|done]. constructor; [done|]. apply Forall_forall.
  intros b (y & Hy & Ey)%list_elem_of_omap. rewrite Forall_forall in Hx. apply (Hf x y); auto using list_elem_of_here, list_elem_of_further.
Qed.

(** ** Counts from an index *)

Section index_counts.
Context `{SerdeJson} `{!SerdeLaws} `{BackendLaws}.
Context (e : engine) (def : IndexDef) (p : PartitionId) (docs : gmap string Value) (field : string).
Context (Hh : healthy e) (Hf : idx_fields def = [field]) (Hix : index_holds e def p docs) (Hsafe : docs_safe docs field).
Context (l : list (string * Value)) (Hst : streamed docs l).

Definition value_part (en : entry) : option bytes := fst <$> rsplit_at 0 en.1.
Definition entry_of (x : string * Value) : option entry :=
  (fun w => (make_index_key w x.1, [])) <$> resolve_json_path x.2 field.
Lemma streamed_in x : x ∈ l <-> docs !! x.1 = Some x.2.
Proof. destruct Hst as [Hp _], x as [id doc]. by rewrite Hp, elem_of_map_to_list. Qed.
Lemma streamed_nodup : NoDup l.
Proof. destruct Hst as [Hp _]. rewrite Hp. apply NoDup_map_to_list. Qed.
Lemma part_of_key w id : id_safe id -> value_part (make_index_key w id, []) = Some (value_to_sortable_bytes w).
Proof. intros (_ & Hnul & _). unfold value_part. cbn [fst]. by rewrite make_index_key_spec, rsplit_at_app. Qed.
Lemma index_contents : contents e p ≡ₚ omap entry_of l.
Proof.
  apply NoDup_Permutation.
  - apply sorted_NoDup, contents_sorted, Hh.
  - apply NoDup_omap; [apply streamed_nodup|]. unfold entry_of. intros [i d] [i' d'] en Hx%streamed_in Hx'%streamed_in. cbn in *.
    intros (w & Hw & ->)%fmap_Some (w' & Hw' & E)%fmap_Some. injection E as E.
    destruct (Hsafe _ _ Hx) as [Hi _], (Hsafe _ _ Hx') as [Hi' _]. rewrite !make_index_key_spec in E.
    apply (f_equal extract_doc_id_from_key) in E. rewrite !extract_spec in E by done. injection E as <-. congruence.
  - intros [k v]. rewrite list_elem_of_omap. split.
    + intros Hin. assert (Hv := Hin). apply (index_entry_view e def p docs field) in Hv as (id & doc & w & Hd & Hw & -> & -> & _); [|done..].
      exists (id, doc). unfold entry_of. cbn. rewrite Hw. split; [|done]. by apply streamed_in.
    + intros ([id doc] & Hd%streamed_in & (w & Hw & [= -> ->])%fmap_Some). cbn in *. apply Hix. split; [done|].
      exists id, doc. by rewrite (single_entry_key def field), Hw.
Qed.
Definition parts : list bytes := omap value_part (contents e p).
Lemma parts_values : parts ≡ₚ value_to_sortable_bytes <$> values_at field l.*2.
Proof.
  unfold parts. rewrite index_contents. unfold values_at.
  assert (Hall : Forall (fun x => id_safe x.1) l)
    by (apply Forall_forall; intros x Hx%streamed_in; by destruct (Hsafe _ _ Hx)).
  clear Hst Hix. induction Hall as [|x k Hx _ IH]; [done|]. cbn. unfold entry_of at 1.
  destruct (resolve_json_path x.2 field) as [w|]; cbn; [|done]. pose proof (part_of_key w x.1 Hx) as E. unfold value_part in E at 1. cbn in E. rewrite E. by rewrite IH.
Qed.
Lemma parts_sorted : StronglySorted (cmp_le bytes_cmp) parts.
Proof.
  eapply omap_sorted; [apply contents_sorted, Hh|]. intros [k v] [k' v'] a b Hx Hy Hlt.
  apply (index_entry_view e def p docs field) in Hx as (i & d & w & Hd & Hw & -> & -> & _); [|done..].
  apply (index_entry_view e def p docs field) in Hy as (i' & d' & w' & Hd' & Hw' & -> & -> & _); [|done..].
  destruct (Hsafe _ _ Hd) as [Hi Hs], (Hsafe _ _ Hd') as [Hi' Hs']. rewrite !part_of_key by done. intros [= <-] [= <-].
  unfold entry_lt in Hlt. cbn in Hlt. rewrite !make_index_key_spec, sep_cmp in Hlt by eauto using enc_bytes, enc_apart.
  unfold cmp_le. by destruct (bytes_cmp _ _).
Qed.
Lemma run_visit_fold L st : fold_entries run_visit L st = foldl run_step st (omap value_part L).
Proof.
  revert st; induction L as [|[k v] L IH]; intros st; [done|]. cbn [fold_entries omap list_omap]. unfold run_visit at 1, value_part at 1. cbn [fst].
  destruct (rsplit_at 0 k) as [[a b]|]; cbn [fmap option_fmap option_map fst]; [|apply IH].
  destruct st as [counts [[cv n]|]]; cbn [foldl]; rewrite IH; f_equal.
Qed.

(** The counts are those of the encoded values of the field. *)
Lemma index_counts_spec : exists bs, StronglySorted (fun a b => bytes_cmp a b = Lt) bs /\
  (forall b, b ∈ bs <-> b ∈ value_to_sortable_bytes <$> values_at field l.*2) /\
  run_counts (fold_entries run_visit (contents e p) ([], None)) =
    (fun b => (b, lenZ (class_of value_to_sortable_bytes (values_at field l.*2) b))) <$> bs.
Proof.
  exists (firsts parts). rewrite run_visit_fold. destruct (runs_spec parts parts_sorted) as [E _].
  split_and!.
  - pose proof (NoDup_firsts parts) as Hnd. pose proof parts_sorted as Hs. revert Hs Hnd. generalize parts. intros L Hs _.
    clear -Hs. induction Hs as [|x L Hs IH Hx]; cbn; [constructor|]. constructor.
    + clear -IH. induction IH as [|y k _ IHk Hy]; cbn; [constructor|]. destruct (negb _); [|done]. constructor; [done|].
      apply Forall_forall. intros z [Hz _]%elem_of_List_filter. rewrite Forall_forall in Hy. by apply Hy.
    + apply Forall_forall. intros z [Hz Hne%negb_true_iff%bool_decide_eq_false]%elem_of_List_filter. rewrite elem_of_firsts in Hz.
      rewrite Forall_forall in Hx. specialize (Hx z Hz). unfold cmp_le in Hx. destruct (bytes_cmp x z) eqn:Exz; [|done..].
      by apply lex_cmp_eq in Exz.
  - intros b. rewrite elem_of_firsts. by rewrite parts_values.
  - fold parts. rewrite E. unfold counts_of. apply list_fmap_ext. intros i b _. do 2 f_equal.
    assert (Hp : class_of Datatypes.id parts b ≡ₚ class_of Datatypes.id (value_to_sortable_bytes <$> values_at field l.*2) b)
      by (apply filter_perm, parts_values). unfold lenZ. by rewrite Hp, copies_map.
Qed.
End index_counts.

(** ** Index-only counts are the scan's *)

Section counts.
Context `{SerdeJson} `{!SerdeLaws}.
Context (Hser : serializes) (set_order : gset string -> list string).

Definition has_field (field : string) (doc : Value) : bool := bool_decide (is_Some (resolve_json_path doc field)).
Lemma class_map {A B C} `{EqDecision C} (f : B -> C) (g : A -> B) (k : list A) x :
  length (class_of f (g <$> k) x) = length (class_of (fun a => f (g a)) k x).
Proof. unfold class_of. induction k as [|a k IH]; [done|]. cbn. case_bool_decide; cbn; [f_equal|]; exact IH. Qed.
Lemma values_holding field ds : values_at field ds = (fun d => field_or_null d field) <$> List.filter (has_field field) ds.
Proof.
  unfold values_at, has_field, field_or_null. induction ds as [|d ds IH]; [done|]. cbn.
  destruct (resolve_json_path d field) as [v|] eqn:E; cbn; [|exact IH]. rewrite E. cbn. f_equal. exact IH.
Qed.
Lemma count_names_accs obj i names accs : count_names obj = Some names -> parse_accumulators obj i = Ok accs ->
  accs = (fun n => (n, ACount)) <$> names.
Proof.
  revert names accs; induction obj as [|[k v] obj IH]; intros names accs; cbn [count_names parse_accumulators].
  { by intros [= <-] [= <-]. }
  case_bool_decide; [by apply IH|]. unfold single_object, parse_accumulator. destruct v as [| | | | |o]; try done. cbn [as_object].
  destruct o as [|[op operand] [|]]; try done. cbn. destruct (decide ("$count" = op)) as [<-|]; [|done]. cbn.
  destruct (count_names obj) as [ns|]; [|done]. intros [= <-]. cbn. destruct (parse_accumulators obj i) as [accs1|] eqn:E; [|done]. cbn. intros [= <-].
  cbn. f_equal. by apply IH.
Qed.
Lemma count_docs_agree names id n : group_doc set_order ((fun n => (n, ACount)) <$> names) {| id_value := id; g_states := (fun _ => SCount n) <$> ((fun n => (n, ACount)) <$> names) |} =
  count_doc names id n.
Proof.
  unfold group_doc, count_doc. f_equal. cbn [g_states id_value]. generalize (map_insert "_id" id []).
  induction names as [|m names IH]; intros doc; [done|]. cbn. apply IH.
Qed.

(** Two keys that tell the values apart, the text and another. *)
Context {K : Type} `{EqDecision K} (enc : Value -> K) (dec : K -> Value) (V : list Value).
Context (Hread : forall v, v ∈ V -> from_str (text v) = Some v) (Hdec : forall v, v ∈ V -> dec (enc v) = v).
Lemma text_inj v w : v ∈ V -> w ∈ V -> text v = text w -> v = w.
Proof. intros Hv Hw E. pose proof (Hread v Hv). pose proof (Hread w Hw). congruence. Qed.
Lemma enc_inj v w : v ∈ V -> w ∈ V -> enc v = enc w -> v = w.
Proof. intros Hv Hw E. pose proof (Hdec v Hv). pose proof (Hdec w Hw). congruence. Qed.
Definition tally (names : list string) (v : Value) : Value := count_doc names v (lenZ (class_of text V (text v))).
Lemma class_enc_text v : v ∈ V -> class_of enc V (enc v) = class_of text V (text v).
Proof.
  intros Hv. unfold class_of. assert (Hall : forall w, w ∈ V -> w ∈ V) by done. revert Hall. generalize V at 1 3 4.
  intros k. induction k as [|w k IH]; intros Hall; [done|]. cbn. assert (Hw : w ∈ V) by (apply Hall; by left).
  rewrite (bool_decide_ext (enc w = enc v) (text w = text v)).
  - rewrite IH by (intros; apply Hall; by right). done.
  - split; intros E; f_equal; [by apply enc_inj|by apply text_inj].
Qed.
Lemma tallies_agree names bs : NoDup bs -> (forall b, b ∈ bs <-> b ∈ enc <$> V) ->
  (fun b => count_doc names (dec b) (lenZ (class_of enc V b))) <$> bs ≡ₚ
  (fun k => tally names (default VNull (from_str k))) <$> firsts (text <$> V).
Proof.
  intros Hnd Hbs. transitivity (tally names <$> (dec <$> bs)).
  - rewrite <- list_fmap_compose. apply reflexive_eq, list_fmap_ext. intros i b Hb%list_elem_of_lookup_2%Hbs.
    apply list_elem_of_fmap in Hb as (v & -> & Hv). cbn. unfold tally. by rewrite class_enc_text, Hdec.
  - transitivity (tally names <$> ((fun k => default VNull (from_str k)) <$> firsts (text <$> V)));
      [|by rewrite <- list_fmap_compose].
    apply fmap_Permutation, NoDup_Permutation.
    + apply NoDup_fmap_2_strong; [|done]. intros x y Hx%Hbs Hy%Hbs.
      apply list_elem_of_fmap in Hx as (v & -> & Hv), Hy as (w & -> & Hw). rewrite !Hdec by done. congruence.
    + apply NoDup_fmap_2_strong; [|apply NoDup_firsts]. intros x y Hx Hy. rewrite elem_of_firsts in Hx, Hy.
      apply list_elem_of_fmap in Hx as (v & -> & Hv), Hy as (w & -> & Hw). rewrite !Hread by done. cbn. congruence.
    + intros v. rewrite !list_elem_of_fmap. split.
      * intros (b & -> & (w & -> & Hw)%Hbs%list_elem_of_fmap). exists (text w). rewrite Hread, Hdec by done. split; [done|].
        rewrite elem_of_firsts. by apply list_elem_of_fmap_2.
      * intros (k & -> & Hk). rewrite elem_of_firsts in Hk. apply list_elem_of_fmap in Hk as (w & -> & Hw).
        exists (enc w). rewrite Hread, Hdec by done. split; [done|]. by apply Hbs, list_elem_of_fmap_2.
Qed.
End counts.

(** ** A collection behind an index *)

Section indexed.
Context `{SerdeJson} `{!SerdeLaws} `{BackendLaws} `{StorageSerde} `{RegexLib} `{ScanAccelerator} `{!BitmapScans} `{!BitmapCounts}.
Context `{Base64Lib} `{PayloadSerde}.
Context (current : option CancelToken) (Hlive : live current).
Context (hash_order : list (string * (vbound * vbound)) -> list (string * (vbound * vbound))).
Context (Hhash : forall l, hash_order l ≡ₚ l).
Context (Hser : serializes) (set_order : gset string -> list string).
Abbreviation db := (gmap string (gmap string Value)).
Context (s : Storage) (d : db) (c : string) (docs : gmap string Value) (l : list (string * Value)).
Context (Hinv : storage_inv s d) (Hc : d !! c = Some docs) (Hst : streamed docs l) (Hsize : Z.of_nat (size docs) < 2 ^ 63).

Lemma stored_streamed field v : v ∈ values_at field l.*2 -> stored docs field v.
Proof.
  intros (doc & Hd & Hv)%list_elem_of_omap. apply list_elem_of_fmap in Hd as ([id doc'] & -> & Hin).
  destruct Hst as [Hp _]. rewrite Hp, elem_of_map_to_list in Hin. by exists id, doc'.
Qed.
Lemma streamed_len : lenZ l.*2 = Z.of_nat (size docs).
Proof. rewrite <- (streamed_size docs l Hst). unfold lenZ. by rewrite length_fmap. Qed.
(** A value that its text, and its encoding, give back. *)
Definition readable (v : Value) : Prop :=
  from_str (text v) = Some v /\ decode_sortable_bytes (value_to_sortable_bytes v) = Some v.

(** The groups of some of the documents, those that hold the field, counted. *)
Lemma counted_groups names field ds : lenZ ds < 2 ^ 64 -> (forall v, v ∈ values_at field ds -> from_str (text v) = Some v) ->
  groups_of set_order (VString field) ((fun n => (n, ACount)) <$> names) (List.filter (has_field field) ds) =
  (fun k => tally (values_at field ds) names (default VNull (from_str k))) <$> firsts (text <$> values_at field ds).
Proof.
  intros Hlen Hr. unfold groups_of.
  assert (Hkeys : key_text (VString field) <$> List.filter (has_field field) ds = text <$> values_at field ds)
    by (rewrite values_holding, <- list_fmap_compose; done).
  rewrite Hkeys. apply list_fmap_ext. intros i k Hk%list_elem_of_lookup_2. rewrite elem_of_firsts in Hk.
  assert (Hk' := Hk). rewrite <- Hkeys in Hk'. destruct (class_cons _ _ _ Hk') as (first & rest & Ec).
  apply list_elem_of_fmap in Hk as (v & -> & Hv). unfold tally. rewrite (Hr v Hv). cbn [default].
  rewrite <- (count_docs_agree set_order). f_equal. unfold group_of. rewrite Ec. cbn [head from_option].
  assert (first ∈ class_of (key_text (VString field)) (List.filter (has_field field) ds) (text v)) as Hfirst by (rewrite Ec; by left).
  apply elem_of_class in Hfirst as [[Hd Hh]%elem_of_List_filter Ht]. f_equal.
  - cbn [extract_group_key]. apply bool_decide_eq_true in Hh as [w Hw]. unfold key_text, field_or_null in Ht. cbn in Ht.
    unfold field_or_null in Ht |- *. rewrite Hw in Ht |- *. cbn in *.
    assert (w ∈ values_at field ds) as Hwv by (apply list_elem_of_omap; by exists first).
    pose proof (Hr w Hwv) as Hread'. rewrite Ht, (Hr v Hv) in Hread'. congruence.
  - rewrite <- Ec. apply list_fmap_ext. intros j [n def] Hj%list_elem_of_lookup_2.
    apply list_elem_of_fmap in Hj as (n' & [= -> ->] & _). cbn [snd]. rewrite count_state. f_equal.
    unfold wrap64. rewrite Z.mod_small.
    + unfold lenZ. f_equal. rewrite values_holding, class_map. done.
    + pose proof (class_len (key_text (VString field)) (List.filter (has_field field) ds) (text v)).
      pose proof (List.filter_length_le (has_field field) ds). unfold lenZ in *. lia.
Qed.

Lemma group_by_field_one obj field : map_get "_id" obj = Some (VString field) ->
  group_by_field (VObject [("$group", VObject obj)]) = Some (obj, field).
Proof. intros Hid. unfold group_by_field, single_object. cbn. rewrite decide_True by done. cbn. by rewrite Hid. Qed.
(** The group stage without documents. *)
Lemma index_only_run obj field names def p rest :
  map_get "_id" obj = Some (VString field) -> count_names obj = Some names ->
  get_index_for_field (index_manager s) c field = Some (def, p) ->
  (forall w, stored docs field w -> field_safe w /\ readable w) ->
  exists groups, groups ≡ₚ groups_of set_order (VString field) ((fun n => (n, ACount)) <$> names) (List.filter (has_field field) l.*2) /\
    try_index_only_aggregate current c (VObject [("$group", VObject obj)] :: rest) s =
      (let? out := apply_terminal_stages rest 1 groups in
       Ok (Some {| ag_docs := out; ag_scanned := 0; ag_groups := lenZ groups; ag_index := Some (idx_name def);
                   ag_strategy := Some "index_only_aggregate" |}), s).
Proof.
  intros Hid Hnames Hg Hsafe. pose proof (index_for_field_single _ _ _ _ _ Hg) as Hf.
  pose proof (field_holds s d c docs (proj1 Hinv) Hc field def p Hg) as Hix.
  assert (Hds : docs_safe docs field) by (eapply stored_safe; [apply Hinv|done|intros w Hw; by apply Hsafe]).
  pose proof (proj1 Hinv) as [Hh _ _ _ _].
  destruct (index_counts_spec (eng s) def p docs field Hh Hf Hix Hds l Hst) as (bs & Hs & Hin & Hrun).
  exists (index_group_docs names ((fun b => (b, lenZ (class_of value_to_sortable_bytes (values_at field l.*2) b))) <$> bs)). split.
  - assert (Hr : forall v, v ∈ values_at field l.*2 -> readable v) by (intros v Hv; by apply Hsafe, stored_streamed).
    rewrite counted_groups by (rewrite ?streamed_len; (lia || (intros v Hv; by apply Hr))). unfold index_group_docs. rewrite <- list_fmap_compose.
    eapply (tallies_agree value_to_sortable_bytes (fun b => default VNull (decode_sortable_bytes b)));
      [intros v Hv; by apply Hr|intros v Hv; destruct (Hr v Hv) as [_ ->]; done| |done].
    clear -Hs. induction Hs as [|x k Hs IH Hx]; constructor; [|done]. intros Hin. rewrite Forall_forall in Hx.
    specialize (Hx x Hin). by rewrite (cmp_refl bytes_cmp) in Hx.
  - unfold try_index_only_aggregate. cbn [head mbind option_bind]. rewrite (group_by_field_one obj field) by done.
    rewrite Hnames, Hg. unfold is_compound. rewrite Hf. cbn [length].
    rewrite scan_full_spec by done. rewrite visit_checked_live by done. cbn [mbind result_bind]. by rewrite Hrun.
Qed.
End indexed.

(** ** Pipelines *)

Section pipelines.
Context `{SerdeJson} `{!SerdeLaws} `{BackendLaws} `{StorageSerde} `{RegexLib} `{ScanAccelerator} `{!BitmapScans} `{!BitmapCounts}.
Context `{Base64Lib} `{PayloadSerde}.
Context (current : option CancelToken) (Hlive : live current).
Context (hash_order : list (string * (vbound * vbound)) -> list (string * (vbound * vbound))).
Context (Hhash : forall l, hash_order l ≡ₚ l).
Context (Hser : serializes) (set_order : gset string -> list string).
Abbreviation db := (gmap string (gmap string Value)).

(** No index counts the groups of the first stage. *)
Definition not_counted (m : IndexManager) (c : string) (pipeline : list Value) : Prop :=
  match head pipeline ≫= group_by_field with
  | Some (obj, field) => count_names obj = None \/ get_index_for_field m c field = None
  | None => True
  end.
Lemma not_counted_none s c pipeline : not_counted (index_manager s) c pipeline ->
  try_index_only_aggregate current c pipeline s = (Ok None, s).
Proof.
  unfold not_counted, try_index_only_aggregate. destruct (head pipeline ≫= group_by_field) as [[obj field]|]; [|done].
  intros [->| ->]; [done|]. by destruct (count_names obj).
Qed.
(** The stage [$match] that a pipeline may begin with. *)
Definition leading_match (pipeline : list Value) : option Value :=
  match pipeline with
  | first :: _ => match stage_entry first 0 with Ok (name, spec) => if bool_decide (name = "$match") then Some spec else None | Err _ => None end
  | [] => None
  end.

Lemma group_visit_fold g (l : list (string * Value)) g' n : accumulate_docs g l.*2 = Ok g' ->
  foldl (fun st x => (group_visit x.2 st).1) (n, g, None) l = (n + lenZ l, g', None).
Proof.
  revert g n; induction l as [|x l IH]; intros g n; cbn [foldl fmap list_fmap accumulate_docs].
  { intros [= ->]. unfold lenZ. cbn. by rewrite Z.add_0_r. }
  intros (g1 & E & Hrest)%bind_ok. unfold group_visit at 2. rewrite E. cbn [fst].
  rewrite (IH g1 (n + 1)) by done. unfold lenZ. cbn [length]. do 2 f_equal. lia.
Qed.
Lemma group_visit_continues doc st : (group_visit doc st).2 = Continue.
Proof. destruct st as [[n g] err]. cbn. destruct (group_accumulate_total Hser g doc) as [g' ->]. done. Qed.
Lemma scan_all_fold (l : list (string * Value)) acc : foldl (fun st x => (st ++ [x.2] : list Value)) acc l = acc ++ l.*2.
Proof. revert acc; induction l as [|x l IH]; intros acc; cbn; [by rewrite app_nil_r|]. by rewrite IH, <- app_assoc. Qed.
Lemma whole_window (rows : list Value) f : lenZ rows < 2 ^ 63 -> window (match_query f) rows = rows.
Proof.
  intros Hl. unfold window. cbn [q_limit q_offset match_query]. rewrite dropZ_drop, takeZ_take. cbn [Z.to_nat]. rewrite drop_0.
  apply take_ge, Nat2Z.inj_le. fold (lenZ rows). rewrite Z2Nat.id by done. unfold u64_max. lia.
Qed.
Lemma match_query_ok s (d : db) c docs l f : storage_inv s d -> d !! c = Some docs -> streamed docs l ->
  Z.of_nat (size docs) < 2 ^ 63 -> query_ok s c docs (match_query f) hash_order ->
  exists r s', execute_query current hash_order c (match_query f) s = (Ok r, s') /\ core_inv s' d /\ same s s' /\
    r_docs r ≡ₚ List.filter (matches f) l.*2.
Proof.
  intros Hinv Hc Hst Hsize Hok.
  destruct (execute_query_ok current Hlive s d c docs l (match_query f) hash_order) as (r & s' & E & Hi & Hs & Ha);
    [done..| |done|done|done|]; [split_and!; [done|done|by intros []]|].
  exists r, s'. split_and!; [done..|]. unfold answers in Ha. cbn [q_count_only match_query] in Ha.
  destruct Ha as (rows & [Hrows _ _ Hd _ _ _ _]). rewrite Hd. cbn [q_fields match_query apply_projection].
  assert (Hm : rows ≡ₚ List.filter (matches f) l.*2).
  { rewrite Hrows. unfold remaining. by rewrite filter_all_true. }
  rewrite whole_window; [done|]. rewrite <- (streamed_size docs l Hst) in Hsize. unfold lenZ in *. rewrite Hm.
  pose proof (List.filter_length_le (matches f) l.*2) as Hle. rewrite length_fmap in Hle. lia.
Qed.

(** What the first stage leaves is what the stages from the start make of the
    documents, in some order if it is a [$match]. *)
Definition first_agrees (pipeline : list Value) (l : list (string * Value)) (D : list Value)
    (out : res (list Value * Z * option string * Z * bool)) : Prop :=
  D ≡ₚ l.*2 /\ (leading_match pipeline = None -> D = l.*2) /\
  match out with
  | Ok (docs, _, _, groups, skip_first) =>
      (if skip_first then run_stages set_order (tail pipeline) 1 docs groups else run_stages set_order pipeline 0 docs groups) =
      run_stages set_order pipeline 0 D 0
  | Err e => run_stages set_order pipeline 0 D 0 = Err e
  end.
Context (s : Storage) (d : db) (c : string) (docs : gmap string Value) (l : list (string * Value)).
Context (Hinv : storage_inv s d) (Hc : d !! c = Some docs) (Hst : streamed docs l) (Hsize : Z.of_nat (size docs) < 2 ^ 63).
Context (pipeline : list Value) (Hne : pipeline <> []).
Context (Hmatch : forall spec f, leading_match pipeline = Some spec -> parse_filter spec = Ok f -> query_ok s c docs (match_query f) hash_order).
Abbreviation stage_result := (first_stage current hash_order set_order c pipeline s).

Lemma first_match spec : leading_match pipeline = Some spec -> exists D s', core_inv s' d /\ same s s' /\
  exists out, stage_result = (out, s') /\ first_agrees pipeline l D out.
Proof.
  intros Hm. assert (Hm' := Hm). destruct pipeline as [|first rest]; [done|]. cbn [leading_match] in Hm'.
  destruct (stage_entry first 0) as [[name sp]|e] eqn:Ee; [|done]. case_bool_decide as Hname; [|done]. injection Hm' as ->.
  assert (Hrun : forall D, run_stages set_order (first :: rest) 0 D 0 =
    let? f := parse_filter spec in run_stages set_order rest 1 (List.filter (matches f) D) 0).
  { intros D. cbn [run_stages]. rewrite Ee. cbn [mbind result_bind]. by rewrite bool_decide_true. }
  unfold first_agrees. rewrite Hm. cbn [tail]. revert Hrun. generalize (run_stages set_order (first :: rest) 0). intros R Hrun.
  unfold first_stage. rewrite Ee. cbn. rewrite bool_decide_true by done.
  destruct (parse_filter spec) as [f|e] eqn:Ef; cbn.
  - destruct (match_query_ok s d c docs l f Hinv Hc Hst Hsize (Hmatch spec f Hm Ef)) as (r & s' & E & Hi & Hs & Hd).
    exists (r_docs r ++ List.filter (fun x => negb (matches f x)) l.*2), s'. split_and!; [done..|].
    unfold op_bind. rewrite E. eexists. split; [reflexivity|]. split_and!; [|done|].
    + rewrite Hd. generalize l.*2. intros k. induction k as [|x k IH]; cbn; [done|].
      destruct (matches f x); cbn; [by rewrite IH|]. rewrite <- Permutation_middle. by rewrite IH.
    + rewrite Hrun. cbn. rewrite List.filter_app, filter_all_true, filter_all_false, app_nil_r; [done| |].
      * intros x [_ Hx%negb_true_iff]%elem_of_List_filter. done.
      * intros x Hx. rewrite Hd in Hx. by apply elem_of_List_filter in Hx as [_ ?].
  - exists l.*2, s. split_and!; [apply Hinv|done|]. eexists. split; [reflexivity|]. by rewrite Hrun.
Qed.
Lemma first_other : leading_match pipeline = None -> exists s', core_inv s' d /\ same s s' /\
  exists out, stage_result = (out, s') /\ first_agrees pipeline l l.*2 out.
Proof.
  intros Hm. unfold first_agrees. rewrite Hm. destruct pipeline as [|first rest]; [done|]. cbn [leading_match] in Hm. cbn [tail].
  assert (Hrun : forall D, run_stages set_order (first :: rest) 0 D 0 =
    let? (name, spec) := stage_entry first 0 in run_stages set_order (first :: rest) 0 D 0).
  { intros D. cbn [run_stages]. by destruct (stage_entry first 0) as [[? ?]|]. }
  unfold first_stage. destruct (stage_entry first 0) as [[name spec]|e] eqn:Ee.
  2:{ exists s. split_and!; [apply Hinv|done|]. eexists. split; [reflexivity|]. split_and!; [done..|]. by rewrite Hrun. }
  clear Hrun. case_bool_decide as Hname; [done|]. destruct (decide (name = "$group")) as [Hgroup|Hgroup].
  - assert (Hrun : run_stages set_order (first :: rest) 0 l.*2 0 =
      let? g := GroupAccumulator_new spec 0 in
      let docs := groups_of set_order (id_spec g) (accumulators g) l.*2 in run_stages set_order rest 1 docs (lenZ docs)).
    { cbn [run_stages]. rewrite Ee. cbn [mbind result_bind]. rewrite bool_decide_false, bool_decide_true by done.
      rewrite execute_group_ok by done. by destruct (GroupAccumulator_new spec 0). }
    revert Hrun. generalize (run_stages set_order (first :: rest) 0). intros R Hrun.
    unfold op_bind at 1, op_lift at 1. rewrite bool_decide_false, bool_decide_true by done.
    destruct (GroupAccumulator_new spec 0) as [g|e] eqn:Eg; cbn in Hrun |- *.
    2:{ exists s. split_and!; [apply Hinv|done|]. eexists. split; [reflexivity|]. by split_and!. }
    destruct (for_each_core current c group_visit (0, g, None) s d docs Hlive group_visit_continues (proj1 Hinv) Hc)
      as (l' & s' & Hst' & E & Hi & Hs). rewrite (streamed_unique docs l' l) in E by done.
    destruct (accumulate_docs_grouped Hser _ _ l.*2 g (new_grouped _ _ _ Eg)) as (g' & Ea & Hg').
    rewrite (group_visit_fold g l g' 0 Ea) in E. exists s'. split_and!; [done..|]. unfold op_bind, op_ret. cbn. rewrite E.
    eexists. split; [reflexivity|]. split_and!; [done..|]. rewrite Hrun. by rewrite (grouped_finish _ _ _ _ _ Hg').
  - generalize (run_stages set_order (first :: rest) 0). intros R.
    unfold op_bind at 1, op_lift at 1. rewrite !bool_decide_false by done.
    destruct (for_each_core current c (fun doc docs => (docs ++ [doc], Continue)) [] s d docs Hlive ltac:(done) (proj1 Hinv) Hc)
      as (l' & s' & Hst' & E & Hi & Hs). rewrite (streamed_unique docs l' l) in E by done.
    cbn [fst] in E. rewrite scan_all_fold in E. exists s'. split_and!; [done..|].
    unfold scan_all_documents, op_bind. rewrite E. eexists. split; [reflexivity|]. by split_and!.
Qed.
End pipelines.
