(* ===== verification/Distinct.v ===== *)
(** * Distinct values

    [execute_distinct] lists the values of a field, each once, up to its
    limit, whether it reads an index or the documents. *)

From S2P Require Import Prelude Bytes F64 Json Errors Externals Filter Secondary Sort Cursor Parser Backend Index Storage Document Consistency Mutations Page Planner Executor Bitmap Compound Execution Plans Walks Queries Aggregate Grouping Pipelines.

(** ** Visitors that stop *)

Section streams.
Context `{SerdeJson} `{!SerdeLaws} `{BackendLaws} `{StorageSerde} `{RegexLib} `{ScanAccelerator}.
Abbreviation db := (gmap string (gmap string Value)).

Fixpoint stream_docs {S} (visit : Value -> S -> S * control_flow) (l : list (string * Value)) (st : S) : S :=
  match l with
  | [] => st
  | x :: l => match visit x.2 st with (st, Continue) => stream_docs visit l st | (st, Break) => st end
  end.
Lemma doc_visit_stream {S} current (visit : Value -> S -> S * control_flow) L (l : list (string * Value)) n s0 : live current ->
  Forall2 (fun x y => x.1 = str_bytes y.1 /\ from_slice x.2 = Some y.2) L l ->
  exists n', fold_entries (doc_visit current visit) L (n, None, s0) = (n', None, stream_docs visit l s0).
Proof.
  intros Hl Hf. revert n s0. induction Hf as [|[k v] y L l [_ Hp] _ IH]; intros n s0; [by exists n|].
  cbn [fold_entries stream_docs]. unfold doc_visit at 1. rewrite checkpoint_live by done. cbn in Hp. rewrite Hp.
  destruct (visit y.2 s0) as [s1 []]; [apply IH|by eexists].
Qed.
Lemma for_each_stream {S} current c (visit : Value -> S -> S * control_flow) s0 s (d : db) docs l :
  live current -> core_inv s d -> d !! c = Some docs -> streamed docs l ->
  exists s', for_each_document current c visit s0 s = (Ok (stream_docs visit l s0), s') /\ core_inv s' d /\ same s s'.
Proof.
  intros Hl Hi Hd Hst. destruct (ensure_ok s d c Hi) as (s1 & E1 & Hi1 & Hs1).
  destruct (create_partition_ok s1 d (docs_name c) Hi1) as (s2 & E2 & Hi2 & Hs2).
  rewrite bool_decide_true in E1 by eauto. pose proof Hi2 as [Hh _ _ _ Hview].
  destruct (vi_ok _ _ _ Hview _ _ Hd) as [Hname Hok].
  pose proof (vi_docs _ _ _ Hview c Hname) as Hdv. rewrite (docs_of_c d c docs Hd) in Hdv.
  destruct (streamed_contents _ _ _ Hh Hdv Hok) as (l' & Hst' & Hf2). rewrite (streamed_unique docs l l') by done.
  exists s2. unfold for_each_document, op_bind, get_docs_partition. rewrite E1, E2. split; [|split; [done|by trans s1]].
  rewrite scan_full_spec by done. rewrite visit_scan_ok.
  destruct (doc_visit_stream current visit _ l' 0 s0 Hl Hf2) as (n' & E). by rewrite E.
Qed.
End streams.

(** ** Each value once *)

Section once.
Context {A K : Type} `{Countable K}.
Implicit Types (f : A -> K) (seen : gset K) (V : list A).

(** The first value of each key not seen before. *)
Fixpoint distinct_by f seen V : list A :=
  match V with
  | [] => []
  | v :: V => if decide (f v ∈ seen) then distinct_by f seen V else v :: distinct_by f ({[f v]} ∪ seen) V
  end.
Lemma distinct_by_elem f seen V v : v ∈ distinct_by f seen V -> v ∈ V.
Proof.
  revert seen; induction V as [|w V IH]; intros seen; cbn; [done|]. case_decide; [intros Hv; right; by eapply IH|].
  intros [->|Hv]%elem_of_cons; [by left|right; by eapply IH].
Qed.
Lemma distinct_by_nodup f seen V : NoDup (f <$> distinct_by f seen V) /\ forall v, v ∈ distinct_by f seen V -> f v ∉ seen.
Proof.
  revert seen; induction V as [|w V IH]; intros seen; cbn; [split; [constructor|intros v Hv; by apply elem_of_nil in Hv]|].
  case_decide as Hw; [apply IH|]. destruct (IH ({[f w]} ∪ seen)) as [Hnd Hout]. cbn. split.
  - constructor; [|done]. intros (v & Ev & Hv)%list_elem_of_fmap. apply Hout in Hv. set_solver.
  - intros v [->|Hv]%elem_of_cons; [done|]. apply Hout in Hv. set_solver.
Qed.
Lemma distinct_by_all f seen V v : v ∈ V -> f v ∉ seen -> f v ∈ f <$> distinct_by f seen V.
Proof.
  revert seen; induction V as [|w V IH]; intros seen; [by intros ?%elem_of_nil|]. intros [->|Hv]%elem_of_cons Hs; cbn.
  - rewrite decide_False by done. by left.
  - case_decide as Hw; [by apply IH|]. destruct (decide (f v = f w)) as [->|Hne]; [by left|]. right. apply IH; [done|set_solver].
Qed.
(** All the values, when the key tells them apart. *)
Lemma distinct_by_exact f V : (forall v w, v ∈ V -> w ∈ V -> f v = f w -> v = w) ->
  NoDup (distinct_by f ∅ V) /\ forall v, v ∈ distinct_by f ∅ V <-> v ∈ V.
Proof.
  intros Hinj. destruct (distinct_by_nodup f ∅ V) as [Hnd _]. split; [by eapply NoDup_fmap_1|].
  intros v. split; [apply distinct_by_elem|]. intros Hv.
  destruct (proj1 (list_elem_of_fmap _ _ _) (distinct_by_all f ∅ V v Hv ltac:(set_solver))) as (w & E & Hw).
  rewrite (Hinj v w); [done|done|by eapply distinct_by_elem|done].
Qed.
End once.

(** ** The loop of a distinct *)

Section loop.
Context {A K : Type} `{Countable K} (f : A -> K) (limit : Z).
Fixpoint once (seen : gset K) (values V : list A) : list A * bool :=
  match V with
  | [] => (values, false)
  | v :: V =>
      if decide (f v ∈ seen) then once seen values V
      else if limit <=? lenZ (values ++ [v]) then (values ++ [v], true) else once ({[f v]} ∪ seen) (values ++ [v]) V
  end.
Lemma once_spec seen values V : lenZ values < Z.max 1 limit ->
  once seen values V = (values ++ takeZ (Z.max 1 limit - lenZ values) (distinct_by f seen V),
    Z.max 1 limit <=? lenZ values + lenZ (distinct_by f seen V)).
Proof.
  assert (Hc : forall (v : A) k, lenZ (v :: k) = 1 + lenZ k) by (intros; unfold lenZ; cbn [length]; lia).
  revert seen values; induction V as [|v V IH]; intros seen values Hlen; cbn [once distinct_by].
  - cbn. rewrite app_nil_r. f_equal. symmetry. apply Z.leb_gt. unfold lenZ at 2. cbn. lia.
  - case_decide; [by apply IH|]. rewrite lenZ_app, Hc. change (lenZ []) with 0.
    assert (0 <= lenZ values) by (unfold lenZ; lia). cbn [takeZ]. rewrite Hc.
    destruct (Z.leb_spec (Z.max 1 limit - lenZ values) 0); [lia|].
    destruct (Z.leb_spec limit (lenZ values + (1 + 0))).
    + rewrite takeZ_take. replace (Z.to_nat (Z.max 1 limit - lenZ values - 1)) with 0%nat by lia. cbn. f_equal.
      symmetry. apply Z.leb_le. unfold lenZ in *. lia.
    + rewrite IH by (rewrite lenZ_app, Hc; change (lenZ []) with 0; lia). rewrite lenZ_app, Hc, <- app_assoc. change (lenZ []) with 0.
      f_equal; [do 3 f_equal; lia|f_equal; lia].
Qed.
End loop.

Section visitors.
Context `{SerdeJson} `{!SerdeLaws} `{BackendLaws} `{StorageSerde} `{RegexLib} `{ScanAccelerator} `{!BitmapScans} `{!BitmapCounts}.
Context `{Base64Lib} `{PayloadSerde}.

Lemma distinct_visit_stream field filter limit l n keys values : exists n' keys',
  stream_docs (distinct_visit field filter limit) l (n, keys, values, false) =
  (n', keys', (once text limit keys values (values_at field (matching filter l))).1,
    (once text limit keys values (values_at field (matching filter l))).2).
Proof.
  unfold matching. revert n keys values; induction l as [|x l IH]; intros n keys values; [by do 2 eexists|].
  cbn [stream_docs fmap list_fmap List.filter]. unfold distinct_visit at 1. destruct (passes filter x.2); cbn [negb]; [|apply IH].
  unfold values_at. cbn [omap list_omap]. destruct (resolve_json_path x.2 field) as [v|]; [|apply IH]. cbn [once].
  change (default EmptyString (to_string v)) with (text v). case_bool_decide as Hin.
  - rewrite decide_True by done. apply IH.
  - rewrite decide_False by done. destruct (limit <=? lenZ (values ++ [v])); [by do 2 eexists|apply IH].
Qed.
Lemma distinct_key_stream limit L W seen values : omap value_part L = value_to_sortable_bytes <$> W ->
  Forall (fun v => decode_sortable_bytes (value_to_sortable_bytes v) = Some v) W ->
  exists seen', fold_entries (distinct_key limit) L (seen, values, false) =
  (seen', (once value_to_sortable_bytes limit seen values W).1, (once value_to_sortable_bytes limit seen values W).2).
Proof.
  revert W seen values; induction L as [|[k b] L IH]; intros W seen values E Hd; cbn in E.
  { symmetry in E. apply fmap_nil_inv in E as ->. by eexists. }
  cbn [fold_entries]. unfold distinct_key at 1. unfold value_part at 1 in E. cbn [fst] in E.
  destruct (rsplit_at 0 k) as [[part id]|]; cbn in E; [|by apply IH].
  destruct W as [|w W]; [done|]. cbn in E. injection E as -> E. apply Forall_cons in Hd as [Hw Hd]. cbn [once].
  case_bool_decide as Hin; [rewrite decide_True by done; by apply IH|]. rewrite decide_False, Hw by done.
  destruct (limit <=? lenZ (values ++ [w])); [by eexists|by apply IH].
Qed.

(** ** What a distinct answers *)

(** The values, each once, cut at the limit. *)
Definition lists_distinct (V : list Value) (limit : Z) (r : DistinctResult) : Prop :=
  exists all, NoDup all /\ (forall v, v ∈ all <-> v ∈ V) /\ dv_values r = takeZ (Z.max 1 limit) all /\
    dv_count r = lenZ (dv_values r) /\ dv_truncated r = (Z.max 1 limit <=? lenZ all).
Lemma once_lists {K} `{Countable K} (f : Value -> K) V V' limit scanned idx : (forall v, v ∈ V <-> v ∈ V') ->
  (forall v w, v ∈ V -> w ∈ V -> f v = f w -> v = w) ->
  lists_distinct V' limit {| dv_values := (once f limit ∅ [] V).1; dv_count := lenZ (once f limit ∅ [] V).1;
    dv_truncated := (once f limit ∅ [] V).2; dv_scanned := scanned; dv_index := idx |}.
Proof.
  intros HV Hinj. exists (distinct_by f ∅ V). destruct (distinct_by_exact f V Hinj) as [Hnd Hin].
  rewrite once_spec by (unfold lenZ; cbn; lia). change (lenZ []) with 0. rewrite Z.sub_0_r. cbn.
  split_and!; [done|intros v; by rewrite Hin|done..].
Qed.

Context (current : option CancelToken) (Hlive : live current).
Abbreviation db := (gmap string (gmap string Value)).
Context (s : Storage) (d : db) (c field : string) (docs : gmap string Value) (l : list (string * Value)).
Context (Hi : core_inv s d) (Hc : d !! c = Some docs) (Hst : streamed docs l).

Lemma index_distinct_ok limit def p : get_index_for_field (index_manager s) c field = Some (def, p) ->
  (forall w, stored docs field w -> field_safe w /\ readable w) ->
  exists r, try_index_only_distinct current c field limit s = (Ok (Some r), s) /\
    lists_distinct (values_at field (matching None l)) limit r.
Proof.
  intros Hg Hsafe. pose proof (index_for_field_single _ _ _ _ _ Hg) as Hf.
  pose proof (field_holds s d c docs Hi Hc field def p Hg) as Hix.
  assert (Hds : docs_safe docs field) by (eapply stored_safe; [done|done|intros w Hw; by apply Hsafe]).
  pose proof Hi as [Hh _ _ _ _].
  assert (Hall : matching None l = l.*2) by (unfold matching; by rewrite filter_all_true). rewrite Hall.
  pose proof (parts_values (eng s) def p docs field Hh Hf Hix Hds l Hst) as Hp. unfold parts in Hp.
  apply Permutation_map_inv in Hp as (W & EW & HW).
  assert (Hr : forall v, v ∈ W -> readable v).
  { intros v Hv. rewrite <- HW in Hv. by apply Hsafe, (stored_streamed docs l Hst). }
  unfold try_index_only_distinct. rewrite Hg. unfold is_compound. rewrite Hf. cbn [length].
  rewrite scan_full_spec, visit_checked_live by done.
  destruct (distinct_key_stream limit (contents (eng s) p) W ∅ [] EW) as (seen & E).
  { apply Forall_forall. intros v Hv. by apply Hr. }
  cbn [mbind result_bind]. rewrite E. eexists. split; [reflexivity|]. apply once_lists.
  - intros v. by rewrite HW.
  - intros v w Hv Hw Ev. destruct (Hr v Hv) as [_ Dv], (Hr w Hw) as [_ Dw]. congruence.
Qed.
Lemma scan_distinct_ok filter limit : (forall v, stored docs field v -> from_str (text v) = Some v) ->
  exists st s', for_each_document current c (distinct_visit field filter limit) (0, ∅, [], false) s = (Ok st, s') /\
    core_inv s' d /\ same s s' /\ let '(scanned, _, values, truncated) := st in
    lists_distinct (values_at field (matching filter l)) limit
      {| dv_values := values; dv_count := lenZ values; dv_truncated := truncated; dv_scanned := scanned; dv_index := None |}.
Proof.
  intros Hread. destruct (for_each_stream current c (distinct_visit field filter limit) (0, ∅, [], false) s d docs l) as (s' & E & Hi' & Hs); [done..|].
  destruct (distinct_visit_stream field filter limit l 0 ∅ []) as (n & keys & Ev). rewrite Ev in E.
  do 2 eexists. split; [exact E|]. split_and!; [done..|]. apply once_lists; [done|].
  assert (Hin : forall v, v ∈ values_at field (matching filter l) -> from_str (text v) = Some v).
  { intros v (doc & [Hd _]%elem_of_List_filter & Hv)%list_elem_of_omap. apply Hread, (stored_streamed docs l Hst).
    apply list_elem_of_omap. by exists doc. }
  intros v w Hv%Hin Hw%Hin Et. congruence.
Qed.
End visitors.
