(* ===== verification/Reports.v ===== *)
(** * Aggregation: what a client can rely on

    The properties of [execute_aggregate] and [execute_distinct], each with a
    witness on the demo database. *)

From S2P Require Import Prelude Bytes F64 Json Errors Externals Filter Secondary Sort Cursor Parser Backend Index Storage Document Consistency Mutations Refinement History Guarantees Page Planner Executor Bitmap Compound Execution Plans Walks Queries Answers Aggregate Grouping Pipelines Distinct.

Section reports.
Context `{SerdeJson} `{!SerdeLaws} `{BackendLaws} `{StorageSerde} `{RegexLib} `{ScanAccelerator} `{!BitmapScans} `{!BitmapCounts}.
Context `{Base64Lib} `{PayloadSerde}.
Context (current : option CancelToken) (Hlive : live current).
Context (hash_order : list (string * (vbound * vbound)) -> list (string * (vbound * vbound))).
Context (Hhash : forall l, hash_order l ≡ₚ l).
Context (Hser : serializes) (set_order : gset string -> list string) (Hset : forall S, set_order S ≡ₚ elements S).
Abbreviation db := (gmap string (gmap string Value)).

(** ** The group stage *)

(** C12: the group stage cuts its documents into groups and reports each.
    Every document is in exactly one group; the groups stand in the order in
    which their keys first appear; the document of a group carries the key
    as [_id] and, under its own name, what each accumulator computes over the
    group's documents: their number, the sum and the mean of the field's
    numbers, a least and a greatest of its values, and its distinct values in
    order, cut off and flagged when there are more than [COLLECT_CAP]. *)
Theorem group_stage_is_exact (spec : Value) (docs : list Value) (i : nat) (g : GroupAccumulator) :
  value_wf spec -> GroupAccumulator_new spec i = Ok g -> lenZ docs < 2 ^ 64 ->
  (forall v f, ACollect f ∈ (accumulators g).*2 -> v ∈ values_at f docs -> from_str (text v) = Some v) ->
  let key := key_text (id_spec g) in
  concat (class_of key docs <$> firsts (key <$> docs)) ≡ₚ docs /\
  exists out, execute_group set_order spec docs i = Ok out /\
    Forall2 (fun k => describes (id_spec g) (accumulators g) (class_of key docs k)) (firsts (key <$> docs)) out.
Proof.
  intros Hwf Hnew Hlen Hread key. split; [apply firsts_classes|]. assert (NoDup (accumulators g).*1 /\ "_id" ∉ (accumulators g).*1) as [Hnd Hid] by (by eapply new_names).
  exists (groups_of set_order (id_spec g) (accumulators g) docs). rewrite execute_group_ok, Hnew by done. split; [done|].
  by apply groups_describe.
Qed.

(** counting groups from an index is counting them in the documents.
    When the pipeline begins by counting the groups of one field and a
    single-field index is on that field, the stage reads no document and
    gives, up to their order, the groups that the scan makes of the documents
    that have the field; the stages that follow run on them. Keys must be
    values that their texts and their index encodings give back. *)
Theorem index_only_counts_are_exact (s : Storage) (d : db) (c : string) (docs : gmap string Value) (l : list (string * Value))
    (obj : list (string * Value)) (field : string) (names : list string) (def : IndexDef) (p : PartitionId) (rest : list Value)
    (g : GroupAccumulator) :
  storage_inv s d -> d !! c = Some docs -> streamed docs l -> Z.of_nat (size docs) < 2 ^ 63 ->
  GroupAccumulator_new (VObject obj) 0 = Ok g -> map_get "_id" obj = Some (VString field) -> count_names obj = Some names ->
  get_index_for_field (index_manager s) c field = Some (def, p) ->
  (forall w, stored docs field w -> field_safe w /\ readable w) ->
  exists groups scan, groups ≡ₚ scan /\
    execute_group set_order (VObject obj) (List.filter (has_field field) l.*2) 0 = Ok scan /\
    try_index_only_aggregate current c (VObject [("$group", VObject obj)] :: rest) s =
      (let? out := apply_terminal_stages rest 1 groups in
       Ok (Some {| ag_docs := out; ag_scanned := 0; ag_groups := lenZ groups; ag_index := Some (idx_name def);
                   ag_strategy := Some "index_only_aggregate" |}), s).
Proof.
  intros Hinv Hc Hst Hsize Hnew Hid Hnames Hg Hsafe.
  destruct (index_only_run current Hlive set_order s d c docs l Hinv Hc Hst Hsize obj field names def p rest Hid Hnames Hg Hsafe)
    as (groups & Hp & E). exists groups. eexists. split; [exact Hp|]. split; [|exact E].
  rewrite execute_group_ok, Hnew by done. cbn. revert Hnew. unfold GroupAccumulator_new. cbn [as_object]. rewrite Hid.
  intros (accs & Ha & [= <-])%bind_ok. cbn. by rewrite (count_names_accs obj 0 names accs Hnames Ha).
Qed.

(** ** Pipelines *)

(** C11: a pipeline is its stages. Without a ready accelerator or an index
    that counts its groups, a pipeline over a collection answers, documents,
    number of groups and errors alike, what running its stages one after the
    other over the documents answers: in identifier order, or in some order
    when the first stage is a [$match], which goes through the query planner.
    A streamed [$group] is no exception. An empty or overlong pipeline and a
    missing collection are errors. The plan of a leading [$match] must meet
    the conditions of [query_is_exact]: unless it is the full scan, (a) the
    filter's operands and the values stored at its fields have no byte 0 or 1;
    (b) its equality and order are those of the keys (not so for numbers
    within f64::EPSILON or the two zeros); (c) no And gives a field two $eq,
    two lower or two upper bounds; (d) a bounded field is first or last in
    each compound index that has it; (e) every match has all fields of every
    compound index. *)
Theorem pipeline_is_its_stages (s : Storage) (d : db) (c : string) (pipeline : list Value) :
  storage_inv s d -> bitmap_ready (scan_accelerator s) = false -> not_counted (index_manager s) c pipeline ->
  (forall docs, d !! c = Some docs -> Z.of_nat (size docs) < 2 ^ 63 /\
    forall spec f, leading_match pipeline = Some spec -> parse_filter spec = Ok f -> query_ok s c docs (match_query f) hash_order) ->
  exists s', core_inv s' d /\ same s s' /\ exists answer,
  execute_aggregate current hash_order set_order c pipeline s = (answer, s') /\
  if bool_decide (pipeline = []) then answer = Err (InvalidPipeline "Pipeline cannot be empty") else
  match d !! c with
  | None => answer = Err (CollectionNotFound c)
  | Some docs =>
      if MAX_PIPELINE_STAGES <? lenZ pipeline then answer = Err (InvalidPipeline "Pipeline limited to 100 stages") else
      forall l, streamed docs l -> exists D, D ≡ₚ l.*2 /\ (leading_match pipeline = None -> D = l.*2) /\
        (fun r => (ag_docs r, ag_groups r)) <$> answer = run_stages set_order pipeline 0 D 0
  end.
Proof.
  intros Hinv Hready Hnone Hdocs. unfold execute_aggregate. case_bool_decide as Hne; [exists s; split_and!; [apply Hinv|done|]; by eexists|].
  destruct (ensure_ok s d c (proj1 Hinv)) as (s1 & E1 & Hi1 & Hs1).
  destruct (d !! c) as [docs|] eqn:Hc.
  2:{ exists s1. split_and!; [done..|]. unfold op_bind. rewrite E1, bool_decide_false by by intros []. by eexists. }
  rewrite bool_decide_true in E1 by by exists docs. unfold op_bind at 1. rewrite E1.
  destruct (MAX_PIPELINE_STAGES <? lenZ pipeline); [exists s1; split_and!; [done..|]; by eexists|].
  destruct (Hdocs docs eq_refl) as [Hsize Hok]. assert (Hs1' := Hs1). destruct Hs1' as (Hm & Hcounts & Ha & _).
  assert (Hinv1 : storage_inv s1 d) by (split; [done|by eapply same_counts, Hinv]).
  unfold op_bind at 1, try_bitmap_aggregate at 1. rewrite Ha, Hready. cbn [negb].
  unfold op_bind at 1. rewrite not_counted_none by by rewrite Hm.
  destruct (streams_exist s d c docs (proj1 Hinv) Hc) as (l & Hst).
  assert (Hfirst : exists D s' out, core_inv s' d /\ same s1 s' /\
    first_stage current hash_order set_order c pipeline s1 = (out, s') /\ first_agrees set_order pipeline l D out).
  { assert (Hok1 : forall spec f, leading_match pipeline = Some spec -> parse_filter spec = Ok f -> query_ok s1 c docs (match_query f) hash_order).
    { intros spec f Hl Hp. by apply (query_ok_same s), (Hok spec f). }
    destruct (leading_match pipeline) as [spec|] eqn:Hlead.
    - destruct (first_match current Hlive hash_order Hhash set_order s1 d c docs l Hinv1 Hc Hst Hsize pipeline Hne) with (spec := spec)
        as (D & s' & Hi' & Hs' & out & E & Hd); [by rewrite Hlead|done|by exists D, s', out].
    - destruct (first_other current Hlive hash_order Hser set_order s1 d c docs l Hinv1 Hc Hst pipeline Hne)
        as (s' & Hi' & Hs' & out & E & Hd); [by rewrite Hlead|done|by exists l.*2, s', out]. }
  destruct Hfirst as (D & s' & out & Hi' & Hs' & E & Hperm & Heq & Hout). exists s'. split; [done|]. split; [by trans s1|].
  unfold op_bind. rewrite E. destruct out as [[[[[docs1 scanned] index] groups] skip]|e].
  - unfold op_lift. rewrite Hout. destruct (run_stages set_order pipeline 0 D 0) as [[docs2 groups2]|e] eqn:Er;
      (eexists; split; [reflexivity|]; intros l' Hst'; exists D; rewrite (streamed_unique docs l' l) by done; by rewrite Er).
  - eexists. split; [reflexivity|]. intros l' Hst'. exists D. rewrite (streamed_unique docs l' l) by done. by rewrite Hout.
Qed.

(** ** Distinct *)

(** a distinct lists the values of a field. Over a collection that is
    there it succeeds, and its values are the first [limit] (at least one) of
    all the values the field has in the documents the filter matches, each
    once ([lists_distinct]); [truncated] says that the limit was met. This holds whether the
    values are read from the documents or, without a filter, from an index on
    the field; a collection that is not there is an error on both paths. *)
Theorem distinct_is_exact (s : Storage) (d : db) (c field : string) (filter : option FilterNode) (limit : Z) :
  storage_inv s d ->
  (forall docs w, d !! c = Some docs -> stored docs field w -> from_str (text w) = Some w) ->
  (forall docs w, d !! c = Some docs -> filter = None -> is_Some (get_index_for_field (index_manager s) c field) ->
    stored docs field w -> field_safe w /\ readable w) ->
  exists s', core_inv s' d /\ same s s' /\
  match d !! c with
  | None => execute_distinct current c field filter limit s = (Err (CollectionNotFound c), s')
  | Some docs => forall l, streamed docs l -> exists r,
      execute_distinct current c field filter limit s = (Ok r, s') /\
      lists_distinct (values_at field (matching filter l)) limit r
  end.
Proof.
  intros Hinv Hread Hsafe. destruct (ensure_ok s d c (proj1 Hinv)) as (s1 & E1 & Hi1 & Hs1).
  assert (Hm : index_manager s1 = index_manager s) by apply Hs1.
  destruct (d !! c) as [docs|] eqn:Hc.
  2:{ exists s1. split_and!; [done..|]. unfold execute_distinct, op_bind. by rewrite E1, bool_decide_false by by intros []. }
  rewrite bool_decide_true in E1 by by exists docs. destruct (streams_exist s d c docs (proj1 Hinv) Hc) as (l & Hst).
  assert (Hfast : (filter = None /\ exists def p, get_index_for_field (index_manager s) c field = Some (def, p)) \/
    (if bool_decide (filter = None) then try_index_only_distinct current c field limit else op_ret None) s1 = (Ok None, s1)).
  { case_bool_decide; [|by right]. destruct (get_index_for_field (index_manager s) c field) as [[def p]|] eqn:Eg; [by left; eauto|].
    right. unfold try_index_only_distinct. by rewrite Hm, Eg. }
  unfold execute_distinct, op_bind. rewrite E1. destruct Hfast as [(-> & def & p & Eg)|Hslow].
  - exists s1. split_and!; [done..|]. intros l' Hst'. rewrite (streamed_unique docs l' l) by done.
    destruct (index_distinct_ok current Hlive s1 d c field docs l Hi1 Hc Hst limit def p) as (r & E & Hr).
    { by rewrite Hm. } { intros w Hw. apply (Hsafe docs); [done..|by rewrite Eg|done]. }
    exists r. rewrite bool_decide_true by done. rewrite E. done.
  - destruct (scan_distinct_ok current Hlive s1 d c field docs l Hi1 Hc Hst filter limit) as ([[[n keys] values] truncated] & s' & E & Hi' & Hs' & Hr).
    { intros w. by apply Hread. }
    exists s'. split_and!; [done|by trans s1|]. intros l' Hst'. rewrite (streamed_unique docs l' l) by done.
    rewrite Hslow, E. by eexists.
Qed.
End reports.

(** ** The reports at work *)

Module ReportDemo.
Import Ref RefStorage RefBackend RefPayload Demo QueryDemo.
#[export] Instance counts : BitmapCounts := {
  accel_has_column _ _ := false;
  counts_by_field _ _ _ := None;
  counts_by_field_filtered _ _ _ := None;
}.
Lemma demo_serializes : serializes.
Proof. intros v. by eexists. Qed.
Lemma demo_reads v : from_str (text v) = Some v.
Proof. cbn. by rewrite string_pos_string, countable.decode_encode. Qed.
Definition set_order (S : gset string) : list string := elements S.

(** The documents, with an index on the tag. *)
Definition tag_indexing : list request := inserts ++ [RCreateIndex "t4" "c" "t_" ["t"]].
Lemma tag_indexing_admissible : admissible_run tag_indexing ([], ∅).
Proof.
  pose proof indexing_admissible as Hi. unfold tag_indexing, indexing, inserts in *. cbn [admissible_run app] in *.
  destruct Hi as (? & ? & ? & ? & _). split_and!; done.
Qed.
Definition tag_indexed : Storage := (run None tag_indexing fresh).2.
Definition tag_m : IndexManager := register [] (IndexDef_new "t_" "c" ["t"] "t4") (partition_of (index_name "c" "t_")).
Lemma tag_represents : represents tag_indexed (tag_m, d).
Proof.
  destruct (run_refines None I tag_indexing fresh ([], ∅) fresh_represents tag_indexing_admissible) as (s' & E & Hs).
  unfold tag_indexed. rewrite E. by replace (spec_run tag_indexing ([], ∅)).2 with (tag_m, d) in Hs by (vm_compute; reflexivity).
Qed.
Definition count_by_tag : list (string * Value) := [("_id", VString "t"); ("n", VObject [("$count", VObject [])])].
Definition by_tag : list (string * Value) :=
  [("_id", VString "t"); ("max", VObject [("$max", VString "n")]); ("n", VObject [("$count", VObject [])]);
   ("values", VObject [("$collect", VString "n")])].
Definition counted_pipeline : list Value :=
  [VObject [("$group", VObject by_tag)]; VObject [("$limit", VNumber (PosInt 1))]].
End ReportDemo.
Import Ref RefStorage RefBackend RefPayload Demo QueryDemo ReportDemo.

Lemma stored_tag_readable w : Plans.stored docs "t" w -> field_safe w /\ readable w.
Proof.
  intros [->| ->]%stored_t; (split; [split; apply (bool_decide_unpack _); vm_compute; exact I|]);
    (split; [apply demo_reads|vm_compute; reflexivity]).
Qed.
Definition tag_groups : GroupAccumulator :=
  {| id_spec := VString "t"; accumulators := [("max", AMax "n"); ("n", ACount); ("values", ACollect "n")]; group_map := ∅; group_order := [] |}.

Lemma group_stage_is_exact_witness :
  exists out, execute_group set_order (VObject by_tag) listed.*2 1 = Ok out /\
    Forall2 (fun k => describes (VString "t") (accumulators tag_groups) (class_of (key_text (VString "t")) listed.*2 k))
      [text (VString "x"); text (VString "y")] out.
Proof.
  destruct (group_stage_is_exact demo_serializes set_order (fun S => reflexivity (elements S)) (VObject by_tag) listed.*2 1 tag_groups)
    as [_ (out & E & Hout)].
  - repeat constructor.
  - reflexivity.
  - vm_compute. reflexivity.
  - intros v f _ _. apply demo_reads.
  - exists out. split; [exact E|].
    replace (firsts (key_text (id_spec tag_groups) <$> listed.*2)) with [text (VString "x"); text (VString "y")] in Hout
      by (vm_compute; reflexivity). exact Hout.
Defined.

Lemma index_only_counts_are_exact_witness :
  exists groups, groups ≡ₚ [VObject [("_id", VString "x"); ("n", VNumber (PosInt 2))]; VObject [("_id", VString "y"); ("n", VNumber (PosInt 1))]] /\
    try_index_only_aggregate None "c" [VObject [("$group", VObject count_by_tag)]; VObject [("$limit", VNumber (PosInt 1))]] tag_indexed =
      (Ok (Some {| ag_docs := takeZ 1 groups; ag_scanned := 0; ag_groups := 2; ag_index := Some "t_"; ag_strategy := Some "index_only_aggregate" |}),
       tag_indexed).
Proof.
  edestruct (index_only_counts_are_exact None I demo_serializes set_order tag_indexed d "c" docs listed count_by_tag "t" ["n"])
    as (groups & scan & Hp & Es & Er).
  - apply tag_represents.
  - reflexivity.
  - apply listed_streamed.
  - vm_compute. reflexivity.
  - reflexivity.
  - reflexivity.
  - reflexivity.
  - vm_compute. reflexivity.
  - apply stored_tag_readable.
  - exists groups. assert (E : Ok scan = Ok [VObject [("_id", VString "x"); ("n", VNumber (PosInt 2))]; VObject [("_id", VString "y"); ("n", VNumber (PosInt 1))]] :> res _)
      by (rewrite <- Es; vm_compute; reflexivity). injection E as ->. split; [exact Hp|].
    assert (El : lenZ groups = 2) by (unfold lenZ; rewrite Hp; reflexivity). rewrite Er, El. reflexivity.
Defined.

(** The first group of [counted_pipeline]. *)
Definition tag_group : Value :=
  VObject [("_id", VString "x"); ("max", VNumber (PosInt 8)); ("n", VNumber (PosInt 2));
    ("values", VArray [VNumber (PosInt 7); VNumber (PosInt 8)])].
Lemma pipeline_is_its_stages_witness :
  exists s' r, execute_aggregate None order set_order "c" counted_pipeline plain = (Ok r, s') /\ core_inv s' d /\
    ag_groups r = 2 /\ ag_docs r = [tag_group].
Proof.
  destruct (pipeline_is_its_stages None I order order_ok demo_serializes set_order plain d "c" counted_pipeline) as (s' & Hi & _ & answer & E & Ha).
  - apply plain_represents.
  - reflexivity.
  - vm_compute. left. reflexivity.
  - intros x Hx. assert (Hd : d !! "c" = Some docs) by reflexivity. rewrite Hd in Hx. injection Hx as <-.
    split; [vm_compute; reflexivity|intros spec f Hm; vm_compute in Hm; discriminate].
  - replace (bool_decide (counted_pipeline = [])) with false in Ha by (vm_compute; reflexivity).
    replace (d !! "c") with (Some docs) in Ha by reflexivity.
    replace (MAX_PIPELINE_STAGES <? lenZ counted_pipeline) with false in Ha by (vm_compute; reflexivity).
    destruct (Ha listed listed_streamed) as (D & _ & HD & Hrun). rewrite HD in Hrun by (vm_compute; reflexivity).
    destruct answer as [r|e]; [|exfalso; revert Hrun; vm_compute; discriminate].
    exists s', r. split; [exact E|]. split; [exact Hi|].
    replace (run_stages set_order counted_pipeline 0 listed.*2 0) with (Ok ([tag_group], 2) : res _) in Hrun by (vm_compute; reflexivity).
    injection Hrun as -> ->. split; reflexivity.
Defined.

Lemma distinct_is_exact_witness :
  exists r s', execute_distinct None "c" "t" None 10 tag_indexed = (Ok r, s') /\
    lists_distinct [VString "x"; VString "x"; VString "y"] 10 r.
Proof.
  destruct (distinct_is_exact None I tag_indexed d "c" "t" None 10) as (s' & _ & _ & Hr).
  - apply tag_represents.
  - intros x w _ _. apply demo_reads.
  - intros x w Hx _ _. assert (Hd : d !! "c" = Some docs) by reflexivity. rewrite Hd in Hx. injection Hx as <-. apply stored_tag_readable.
  - destruct (Hr listed listed_streamed) as (r & E & Hl). exists r, s'. split; [exact E|].
    replace (values_at "t" (matching None listed)) with [VString "x"; VString "x"; VString "y"] in Hl by (vm_compute; reflexivity). exact Hl.
Defined.
