(* ===== verification/Counts.v ===== *)
(** * Counts from bitmaps

    The bitmap accelerator counts the documents of each value of a column, of
    a collection or of the matches of a filter; the group stage it serves is
    the one the documents give. *)

From S2P Require Import Prelude Bytes F64 Json Errors Externals Filter Secondary Sort Cursor Parser Backend Index Storage Document Consistency Mutations Page Planner Executor Compound Execution Plans Queries Refinement History Guarantees Bitmap Bitmaps Accelerated Aggregate Grouping Pipelines.

Section counts.
Context `{SerdeJson} `{!SerdeLaws} `{RegexLib} `{RoaringLaws} (cfg : AcceleratorConfig).
Context (map_order : gmap string rb -> list (string * rb)) (Horder : forall m, map_order m ≡ₚ map_to_list m).
#[local] Existing Instance bitmap_accelerator.
#[local] Existing Instance bitmap_scans.
Abbreviation db := (gmap string (gmap string Value)).

(** The accelerator's counts behind the interface of the aggregation. *)
Definition bitmap_counts : @BitmapCounts _ (bitmap_accelerator cfg) (bitmap_scans cfg) :=
  @Build_BitmapCounts _ (bitmap_accelerator cfg) (bitmap_scans cfg) has_column (count_by_field map_order) (count_by_field_filtered map_order).

(** ** Positions are documents *)

Section rows.
Context (p : RowPositionMap) (d : db) (T : gmap Z Value) (c : string) (docs : gmap string Value) (l : list (string * Value)).
Context (Hrows : rows_ok p d T) (Hc : d !! c = Some docs) (Hst : streamed docs l).

(** Positions of the collection's rows that satisfy [P] are as many as the
    documents. *)
Lemma rows_count (P : Value -> bool) (b : rb) : (forall q, q ∈ rb_iter b -> q ∈ members p c) ->
  (forall q doc, q ∈ members p c -> T !! q = Some doc -> q ∈ rb_iter b <-> P doc = true) ->
  rb_len b = lenZ (List.filter P l.*2).
Proof.
  intros Hmem Hb. rewrite rb_len_iter. unfold lenZ.
  assert (Hrow : forall q, q ∈ rb_iter b -> exists id doc, get_doc_id p q = Some id /\ docs !! id = Some doc /\ T !! q = Some doc /\ id_to_pos p !! id = Some q)
    by (intros q Hq; apply (member_row p d T c docs); [done|done|by apply Hmem]).
  assert (Hp : omap (get_doc_id p) (rb_iter b) ≡ₚ (List.filter (fun x => P x.2) l).*1).
  { assert (Hin : forall x, x ∈ l <-> docs !! x.1 = Some x.2) by (intros [i x]; destruct Hst as [Hp _]; by rewrite Hp, elem_of_map_to_list).
    apply NoDup_Permutation.
    - apply NoDup_omap; [apply iter_NoDup|]. intros x y id Hx Hy Hix Hiy.
      destruct (Hrow x Hx) as (ix & ? & Ex & _ & _ & Px), (Hrow y Hy) as (iy & ? & Ey & _ & _ & Py). congruence.
    - assert (Hnd : NoDup l.*1) by (destruct Hst as [Hp _]; rewrite Hp; apply NoDup_fst_map_to_list). clear -Hnd.
      induction l as [|x k IH]; cbn in *; [constructor|]. apply NoDup_cons in Hnd as [Hx Hnd]. destruct (P x.2); cbn; [|by apply IH].
      constructor; [|by apply IH]. intros (y & Ey & [Hy _]%elem_of_List_filter)%list_elem_of_fmap. apply Hx. rewrite Ey. by apply list_elem_of_fmap_2.
    - intros id. rewrite list_elem_of_omap, list_elem_of_fmap. split.
      + intros (q & Hq & Hid). destruct (Hrow q Hq) as (id' & doc & Hid' & Hd & HT & _). assert (id' = id) as -> by congruence.
        exists (id, doc). split; [done|]. apply elem_of_List_filter. split; [by apply Hin|]. by apply (Hb q doc (Hmem q Hq) HT).
      + intros ([id' doc] & -> & [Hd%Hin HP]%elem_of_List_filter). cbn in *.
        assert (Hdoc : doc_at d c id' = Some doc) by (unfold doc_at; by rewrite Hc).
        destruct (ro_doc _ _ _ Hrows _ _ _ Hdoc) as (q & Hq & Hm & HT). exists q. split; [by apply (Hb q doc)|].
        by apply (ro_inverse _ _ _ Hrows) in Hq as [_ ?]. }
  rewrite <- (length_omap_all (get_doc_id p)).
  - rewrite Hp, length_fmap. f_equal. rewrite filter_snd. by rewrite length_fmap.
  - apply Forall_forall. intros q Hq. destruct (Hrow q Hq) as (id & doc & -> & _). done.
Qed.
End rows.

(** ** One column *)

Lemma class_values field k (F : Value -> bool) ds :
  length (List.filter (fun doc => bool_decide (key_of doc field = Some k) && F doc) ds) =
  length (class_of value_to_string_key (values_at field (List.filter F ds)) k).
Proof.
  induction ds as [|doc ds IH]; [done|]. cbn [List.filter].
  destruct (F doc); rewrite ?andb_true_r, ?andb_false_r; [|exact IH]. unfold values_at. cbn [omap list_omap].
  destruct (resolve_json_path doc field) as [v|] eqn:Ev.
  - rewrite (bool_decide_ext (key_of doc field = Some k) (value_to_string_key v = k))
      by (unfold key_of; rewrite Ev; cbn; split; congruence).
    unfold class_of. cbn [List.filter]. case_bool_decide; cbn [length]; [f_equal|]; exact IH.
  - rewrite bool_decide_false; [exact IH|]. unfold key_of. by rewrite Ev.
Qed.
Lemma positive_counts (m : gmap string rb) (len : rb -> Z) (N : string -> Z) :
  (forall k b, m !! k = Some b -> len b = N k) -> (forall k, m !! k = None -> N k = 0) -> (forall k, 0 <= N k) ->
  exists ks, List.filter positive (prod_map Datatypes.id len <$> map_order m) = (fun k => (k, N k)) <$> ks /\
    NoDup ks /\ forall k, k ∈ ks <-> 0 < N k.
Proof.
  intros HN Hnone Hpos. exists (List.filter (fun k => 0 <? N k) (map_order m).*1). split_and!.
  - assert (Hall : Forall (fun kb => len kb.2 = N kb.1) (map_order m)).
    { apply Forall_forall. intros [k b] Hin. rewrite Horder, elem_of_map_to_list in Hin. by apply HN. }
    induction Hall as [|[k b] kbs Hk _ IH]; [done|]. cbn in Hk |- *. unfold positive at 1. cbn. rewrite Hk.
    destruct (0 <? N k); cbn; [f_equal|]; exact IH.
  - apply NoDup_filter_bool. rewrite Horder. apply NoDup_fst_map_to_list.
  - intros k. rewrite elem_of_List_filter, Z.ltb_lt. split; [by intros [_ ?]|]. intros Hk. split; [|done].
    destruct (m !! k) as [b|] eqn:E; [|rewrite Hnone in Hk by done; lia].
    apply list_elem_of_fmap. exists (k, b). split; [done|]. by rewrite Horder, elem_of_map_to_list.
Qed.

Context (a : Accelerator) (d : db) (c : string) (docs : gmap string Value) (l : list (string * Value)).
Context (Hex : exact a d) (Hc : d !! c = Some docs) (Hst : streamed docs l).
(** Bits of the rows of a collection, or of those a filter matches, count the
    documents. *)
Lemma column_counts field col (F : Value -> bool) (scope : rb -> rb) : columns a !! field = Some col ->
  (forall b q, q ∈ rb_iter (scope b) -> q ∈ members (positions a) c) ->
  (forall T, rows_ok (positions a) d T -> (forall f col, columns a !! f = Some col -> column_ok (next_pos (positions a)) T f col) ->
    forall b q doc, q ∈ members (positions a) c -> T !! q = Some doc -> q ∈ rb_iter (scope b) <-> q ∈ rb_iter b /\ F doc = true) ->
  exists ks, List.filter positive (prod_map Datatypes.id (fun b => rb_len (scope b)) <$> map_order (value_bitmaps col)) =
      (fun k => (k, lenZ (class_of value_to_string_key (values_at field (List.filter F l.*2)) k))) <$> ks /\
    NoDup ks /\ forall k, k ∈ ks <-> k ∈ value_to_string_key <$> values_at field (List.filter F l.*2).
Proof.
  intros Hcol Hmem Hscope. destruct Hex as (T & Hrows & Hcols). destruct (Hcols field col Hcol) as [[_ _ Hbits] _].
  assert (HT : forall b q doc, q ∈ members (positions a) c -> T !! q = Some doc -> q ∈ rb_iter (scope b) <-> q ∈ rb_iter b /\ F doc = true)
    by (apply Hscope; [done|]; intros f col' Hcol'; by apply Hcols).
  assert (Hlen : forall k, lenZ (class_of value_to_string_key (values_at field (List.filter F l.*2)) k) =
    rb_len (scope (default rb_new (value_bitmaps col !! k)))).
  { intros k. unfold lenZ at 1. rewrite <- class_values. symmetry. apply (rows_count (positions a) d T c docs l Hrows Hc Hst); [apply Hmem|].
    intros q doc Hq Hqd. rewrite (HT _ q doc Hq Hqd), andb_true_iff, bool_decide_eq_true. destruct (Hbits q doc Hqd) as [_ Hbit].
    specialize (Hbit k). unfold has_bit in Hbit. tauto. }
  destruct (positive_counts (value_bitmaps col) (fun b => rb_len (scope b))
    (fun k => lenZ (class_of value_to_string_key (values_at field (List.filter F l.*2)) k))) as (ks & E & Hnd & Hks).
  - intros k b Hb. by rewrite Hlen, Hb.
  - intros k Hk. rewrite Hlen, Hk, rb_len_iter. cbn.
    destruct (rb_iter (scope rb_new)) as [|q qs] eqn:Eq; [done|]. exfalso.
    assert (Hq : q ∈ rb_iter (scope rb_new)) by (rewrite Eq; by left). assert (Hqm := Hq). apply Hmem in Hqm.
    destruct (member_row (positions a) d T c docs q Hrows Hc Hqm) as (id & doc & _ & _ & Hqd & _).
    apply (HT _ q doc Hqm Hqd) in Hq as [Hq _]. by apply not_in_new in Hq.
  - intros k. unfold lenZ. lia.
  - exists ks. split_and!; [exact E|done|]. intros k. rewrite Hks. split.
    + intros Hk. destruct (decide (k ∈ value_to_string_key <$> values_at field (List.filter F l.*2))) as [|Hn]; [done|].
      rewrite class_empty in Hk by done. unfold lenZ in Hk. cbn in Hk. lia.
    + intros (b & r & Ek)%class_cons. rewrite Ek. unfold lenZ. cbn. lia.
Qed.

Lemma collection_counts field counts : count_by_field map_order a c field = Some counts ->
  exists ks, counts = (fun k => (k, lenZ (class_of value_to_string_key (values_at field l.*2) k))) <$> ks /\
    NoDup ks /\ forall k, k ∈ ks <-> k ∈ value_to_string_key <$> values_at field l.*2.
Proof.
  unfold count_by_field. destruct (columns a !! field) as [col|] eqn:Hcol; [|done]. cbn. intros [= <-].
  destruct (column_counts field col (fun _ => true) (fun b => scope_to_collection (positions a) b c) Hcol) as (ks & E & Hnd & Hks).
  - intros b q Hq. unfold scope_to_collection, members in *. destruct (by_collection (positions a) !! c); cbn; [by apply rb_iter_and in Hq as [_ ?]|].
    by apply not_in_new in Hq.
  - intros T Hrows _ b q doc Hq _. rewrite (scoped_rows (positions a) d T c docs) by done. tauto.
  - rewrite (filter_all_true (fun _ => true)) in Hks by done. rewrite (filter_all_true (fun _ => true)) in E by done. exists ks. split_and!; [|done|done]. rewrite <- E. f_equal.
    apply list_fmap_ext. intros i [k b] _. cbn. f_equal. unfold scoped_len, scope_to_collection.
    destruct (by_collection (positions a) !! c); cbn; [apply rb_intersection_len_and|by rewrite rb_len_iter, rb_iter_new].
Qed.
Lemma match_counts field f b counts : filter_keyed docs f -> accelerator_scan a c f = Some (b, None) ->
  count_by_field_filtered map_order a field b = Some counts ->
  exists ks, counts = (fun k => (k, lenZ (class_of value_to_string_key (values_at field (List.filter (matches f) l.*2)) k))) <$> ks /\
    NoDup ks /\ forall k, k ∈ ks <-> k ∈ value_to_string_key <$> values_at field (List.filter (matches f) l.*2).
Proof.
  intros Hkey Hscan. unfold count_by_field_filtered. destruct (columns a !! field) as [col|] eqn:Hcol; [|done]. cbn. intros [= <-].
  unfold accelerator_scan in Hscan. destruct (ready a); [|done]. cbn in Hscan.
  destruct (bitmap_scan_inner (columns a) f) as [[bm r]|] eqn:Es; [|done]. cbn in Hscan. injection Hscan as <- ->.
  apply (column_counts field col (matches f) (fun b' => rb_and b' (scope_to_collection (positions a) bm c)) Hcol).
  - intros b' q [_ Hq]%rb_iter_and. unfold scope_to_collection, members in *.
    destruct (by_collection (positions a) !! c); cbn; [by apply rb_iter_and in Hq as [_ ?]|by apply not_in_new in Hq].
  - intros T Hrows Hcols b' q doc Hq Hqd. rewrite rb_iter_and, (scoped_rows (positions a) d T c docs) by done.
    destruct (member_row (positions a) d T c docs q Hrows Hc Hq) as (id & doc' & _ & Hd & Hqd' & _). assert (doc' = doc) as -> by congruence.
    pose proof (scan_sound (columns a) (next_pos (positions a)) T docs Hcols f Hkey bm None Es q doc) as Hs.
    rewrite Hs by (split; [done|by exists id]). cbn. tauto.
Qed.
End counts.

(** ** The group stage of the accelerator *)

Section group_stage.
Context `{SerdeJson} `{!SerdeLaws} `{RegexLib} `{RoaringLaws} `{StorageBackend} (cfg : AcceleratorConfig).
Context (map_order : gmap string rb -> list (string * rb)) (Horder : forall m, map_order m ≡ₚ map_to_list m).
Context (Hser : serializes) (set_order : gset string -> list string).
#[local] Instance acceleration : ScanAccelerator := bitmap_accelerator cfg.
#[local] Instance scanning : BitmapScans := bitmap_scans cfg.
#[local] Instance counting : BitmapCounts := bitmap_counts cfg map_order.
Abbreviation db := (gmap string (gmap string Value)).

(** The stage that may stand before the group. *)
Definition lead_stages (lead : option (Value * FilterNode)) : list Value :=
  match lead with Some (spec, _) => [VObject [("$match", spec)]] | None => [] end.
Definition lead_filter (lead : option (Value * FilterNode)) : option FilterNode := snd <$> lead.
Definition lead_served (a : Accelerator) (c : string) (docs : gmap string Value) (lead : option (Value * FilterNode)) : Prop :=
  match lead with
  | Some (spec, f) => parse_filter spec = Ok f /\ filter_keyed docs f /\ exists b, accelerator_scan a c f = Some (b, None)
  | None => True
  end.

Lemma group_counts (a : Accelerator) (d : db) c docs l lead field : exact a d -> d !! c = Some docs -> streamed docs l ->
  lead_served a c docs lead -> has_column a field = true ->
  let V := values_at field (matching (lead_filter lead) l) in
  exists ks, match lead with
    | Some (_, f) => accelerator_scan a c f ≫= (fun r => match r with (b, None) => count_by_field_filtered map_order a field b | _ => None end)
    | None => count_by_field map_order a c field
    end = Some ((fun k => (k, lenZ (class_of value_to_string_key V k))) <$> ks) /\
    NoDup ks /\ forall k, k ∈ ks <-> k ∈ value_to_string_key <$> V.
Proof.
  intros Hex Hc Hst Hlead [col Hcol]%bool_decide_eq_true V. destruct lead as [[spec f]|].
  - destruct Hlead as (_ & Hkey & b & Hscan). rewrite Hscan. cbn.
    destruct (count_by_field_filtered map_order a field b) as [counts|] eqn:E; [|unfold count_by_field_filtered in E; by rewrite Hcol in E].
    destruct (match_counts map_order Horder a d c docs l Hex Hc Hst field f b counts Hkey Hscan E) as (ks & -> & Hks). by exists ks.
  - destruct (count_by_field map_order a c field) as [counts|] eqn:E; [|unfold count_by_field in E; by rewrite Hcol in E].
    destruct (collection_counts map_order Horder a d c docs l Hex Hc Hst field counts E) as (ks & -> & Hks).
    exists ks. unfold V, matching. by rewrite filter_all_true.
Qed.

Lemma stages_lead a c docs lead obj rest : lead_served a c docs lead ->
  bitmap_stages (lead_stages lead ++ VObject [("$group", VObject obj)] :: rest) = Ok (Some (lead_filter lead, length (lead_stages lead))).
Proof.
  intros Hlead. unfold bitmap_stages. destruct lead as [[spec f]|]; cbn [lead_stages app head mbind option_bind].
  - destruct Hlead as [Hp _]. unfold single_object. cbn [as_object map_get]. rewrite decide_True by done. cbn. by rewrite Hp.
  - unfold single_object. cbn [as_object map_get]. rewrite decide_False, decide_True by done. done.
Qed.

(** counting groups from bitmaps is counting them in the documents. When
    the accelerator is exact and ready, a pipeline that counts the groups of a
    field with a column, after a [$match] that bitmaps answer in full or
    without one, reads no document; its stage gives, up to their order, the
    groups that the scan makes of the documents that the filter matches and
    that have the field, and the stages that follow run on them. Keys must be
    values that their texts and their bitmap keys give back. *)
Theorem bitmap_counts_are_exact (s : Storage) (d : db) (c : string) (docs : gmap string Value) (l : list (string * Value))
    (lead : option (Value * FilterNode)) (obj : list (string * Value)) (field : string) (names : list string) (rest : list Value)
    (g : GroupAccumulator) :
  let a : Accelerator := scan_accelerator s in
  exact a d -> ready a = true -> d !! c = Some docs -> streamed docs l -> Z.of_nat (size docs) < 2 ^ 63 ->
  lead_served a c docs lead -> has_column a field = true ->
  GroupAccumulator_new (VObject obj) 0 = Ok g -> map_get "_id" obj = Some (VString field) -> count_names obj = Some names ->
  (forall id doc w, docs !! id = Some doc -> resolve_json_path doc field = Some w ->
    from_str (text w) = Some w /\ string_key_to_value (value_to_string_key w) = w) ->
  exists groups scan, groups ≡ₚ scan /\
    execute_group set_order (VObject obj) (List.filter (has_field field) (matching (lead_filter lead) l)) 0 = Ok scan /\
    try_bitmap_aggregate c (lead_stages lead ++ VObject [("$group", VObject obj)] :: rest) s =
      (let? out := apply_terminal_stages rest (S (length (lead_stages lead))) groups in
       Ok (Some {| ag_docs := out; ag_scanned := 0; ag_groups := lenZ groups; ag_index := None;
                   ag_strategy := Some (if bool_decide (lead = None) then "bitmap_aggregate" else "bitmap_filtered_aggregate") |}), s).
Proof.
  intros a Hex Hready Hc Hst Hsize Hlead Hcol Hnew Hid Hnames Hkeys.
  destruct (group_counts a d c docs l lead field Hex Hc Hst Hlead Hcol) as (ks & Ecounts & Hnd & Hks).
  set (ds := matching (lead_filter lead) l) in *.
  assert (Hlen : lenZ ds < 2 ^ 64).
  { pose proof (List.filter_length_le (passes (lead_filter lead)) l.*2) as Hle. fold (matching (lead_filter lead) l) in Hle. fold ds in Hle.
    rewrite length_fmap in Hle. pose proof (streamed_size docs l Hst). unfold lenZ in *. lia. }
  assert (Hr : forall v, v ∈ values_at field ds -> from_str (text v) = Some v /\ string_key_to_value (value_to_string_key v) = v).
  { intros v (doc & [Hd _]%elem_of_List_filter & Hv)%list_elem_of_omap. apply list_elem_of_fmap in Hd as ([i doc'] & -> & Hin).
    destruct Hst as [Hp _]. rewrite Hp, elem_of_map_to_list in Hin. by apply (Hkeys i doc'). }
  eexists. exists (groups_of set_order (VString field) ((fun n => (n, ACount)) <$> names) (List.filter (has_field field) ds)). split; [|split].
  - rewrite counted_groups by (done || (intros v Hv; by apply Hr)).
    eapply (tallies_agree value_to_string_key string_key_to_value (values_at field ds)) with (bs := ks); [intros v Hv; by apply Hr..|done|done].
  - rewrite execute_group_ok, Hnew by done. cbn. revert Hnew. unfold GroupAccumulator_new. cbn [as_object]. rewrite Hid.
    intros (accs & Ha & [= <-])%bind_ok. cbn. by rewrite (count_names_accs obj 0 names accs Hnames Ha).
  - unfold try_bitmap_aggregate. assert (Er : bitmap_ready (scan_accelerator s) = true) by exact Hready.
    assert (Eh : accel_has_column (scan_accelerator s) field = true) by exact Hcol. rewrite Er. cbn [negb].
    rewrite (stages_lead a c docs) by done. cbn [mbind result_bind].
    rewrite list_lookup_middle by done. cbn [mbind option_bind]. rewrite (group_by_field_one obj field Hid).
    rewrite Eh, Hnames. cbn [negb].
    assert (Hdrop : drop (S (length (lead_stages lead))) (lead_stages lead ++ VObject [("$group", VObject obj)] :: rest) = rest)
      by by destruct lead as [[? ?]|].
    rewrite Hdrop. destruct lead as [[spec f]|]; cbn [lead_filter fmap option_fmap option_map snd] in *.
    + destruct Hlead as (_ & _ & b & Hscan). rewrite Hscan in Ecounts. cbn [mbind option_bind] in Ecounts.
      assert (Es : bitmap_scan (scan_accelerator s) c f = Some (b, None)) by exact Hscan.
      assert (Ec : counts_by_field_filtered (scan_accelerator s) field b = Some _) by exact Ecounts.
      rewrite Es, Ec, <- list_fmap_compose. reflexivity.
    + assert (Ec : counts_by_field (scan_accelerator s) c field = Some _) by exact Ecounts.
      rewrite Ec, <- list_fmap_compose. reflexivity.
Qed.
End group_stage.

(** ** Counts at work *)

Module CountDemo.
Import Ref RefBackend RefRoaring BitmapDemo.
Definition a : Accelerator := (run_writes writes ∅ (with_ready (Accelerator_new cfg) true)).2.
Definition d : gmap string (gmap string Value) := (run_writes writes ∅ (with_ready (Accelerator_new cfg) true)).1.
Definition storage : @Storage _ (bitmap_accelerator cfg) :=
  @Build_Storage _ (bitmap_accelerator cfg) (eng Demo.fresh) (meta Demo.fresh) [] ∅ a ∅ ∅.
Lemma a_exact : exact a d.
Proof.
  assert (Hok : writes_ok writes ∅ (with_ready (Accelerator_new cfg) true)) by (apply writes_ok_b_ok; vm_compute; reflexivity).
  pose proof (writes_exact writes ∅ (with_ready (Accelerator_new cfg) true) Hok) as Hrun. unfold a, d.
  destruct (run_writes writes ∅ (with_ready (Accelerator_new cfg) true)) as [d' a'].
  destruct Hrun as (_ & _ & Hex); [done| |apply (new_exact cfg)|exact Hex].
  intros c1 c2 id Hd. unfold doc_at in Hd. rewrite lookup_empty in Hd. by destruct Hd.
Qed.
Definition listed : list (string * Value) := [("b", tagged "x"); ("g", tagged "x")].
Lemma tagged_streamed : streamed docs listed.
Proof.
  split; [|repeat constructor]. apply NoDup_Permutation; [|apply NoDup_map_to_list|].
  - apply (bool_decide_unpack _). vm_compute. exact I.
  - intros [i x]. rewrite elem_of_map_to_list. unfold listed, docs.
    rewrite !elem_of_cons, elem_of_nil, !lookup_insert_Some, lookup_singleton_Some. naive_solver.
Qed.
Definition count_by_tag : list (string * Value) := [("_id", VString "t"); ("n", VObject [("$count", VObject [])])].
Definition match_x : Value := VObject [("t", VString "x")].
Lemma texts_exist : serializes.
Proof. intros v. by eexists. Qed.
End CountDemo.
Import Ref RefBackend RefRoaring BitmapDemo CountDemo.
#[local] Instance demo_acceleration : ScanAccelerator := bitmap_accelerator cfg.
#[local] Instance demo_scanning : BitmapScans := bitmap_scans cfg.
#[local] Instance demo_counting : BitmapCounts := bitmap_counts cfg map_to_list.

Lemma bitmap_counts_are_exact_witness :
  try_bitmap_aggregate "c" [VObject [("$match", match_x)]; VObject [("$group", VObject count_by_tag)]] storage =
    (Ok (Some {| ag_docs := [VObject [("_id", VString "x"); ("n", VNumber (PosInt 2))]]; ag_scanned := 0; ag_groups := 1; ag_index := None;
                 ag_strategy := Some "bitmap_filtered_aggregate" |}), storage).
Proof.
  edestruct (bitmap_counts_are_exact cfg map_to_list (fun m => reflexivity (map_to_list m)) texts_exist elements
    storage d "c" docs listed (Some (match_x, f)) count_by_tag "t" ["n"] []) as (groups & scan & Hp & Es & Er).
  - exact a_exact.
  - vm_compute. reflexivity.
  - vm_compute. reflexivity.
  - exact tagged_streamed.
  - vm_compute. reflexivity.
  - split; [vm_compute; reflexivity|]. split; [|vm_compute; eexists; reflexivity].
    intros id doc w Hd Hw.
    assert (Hk : map_Forall (fun _ doc => match resolve_json_path doc "t" with
      | Some w => values_equal w (VString "x") = bool_decide (value_to_string_key w = value_to_string_key (VString "x"))
      | None => True end) docs) by (apply map_Forall_to_list; repeat constructor; vm_compute; reflexivity).
    specialize (Hk id doc Hd). cbn in Hk. rewrite Hw in Hk. exact Hk.
  - vm_compute. reflexivity.
  - vm_compute. reflexivity.
  - reflexivity.
  - reflexivity.
  - intros id doc w Hd Hw.
    assert (Hk : map_Forall (fun _ doc => resolve_json_path doc "t" = Some (VString "x")) docs)
      by (apply map_Forall_to_list; repeat constructor; vm_compute; reflexivity).
    specialize (Hk id doc Hd). cbn in Hk. rewrite Hw in Hk. injection Hk as ->. split; vm_compute; reflexivity.
  - assert (E : Ok scan = Ok [VObject [("_id", VString "x"); ("n", VNumber (PosInt 2))]] :> res _)
      by (rewrite <- Es; vm_compute; reflexivity). injection E as ->.
    symmetry in Hp. apply Permutation_length_1_inv in Hp as ->. exact Er.
Defined.
