(* ===== verification/Arbiter.v ===== *)
(** * Write arbitration ([crates/embra-web/src/arbiter.rs])

    The web console's single-writer token: the state behind the mutex, its
    operations, and the role frames pushed to every client. Each operation
    holds the lock for its whole body, so an execution is a sequence of
    operations; the step relation adds the environment's move, a client that
    stops reading its channel. *)

From S2P Require Import Prelude Bytes F64.

Definition ClientId := Z.

(** The sending half of a client's channel: the frames that reached it, and
    whether its receiver still exists. *)
Record ClientHandle := { tx : list string; rx_alive : bool }.

(** [Inner] and the id counter. [clients] is a [BTreeMap]; only membership and
    each client's own channel matter, not the order of the sends. *)
Record Arbiter := {
  writer : option ClientId;
  clients : gmap ClientId ClientHandle;
  next_id : Z;
}.

Definition new : Arbiter := {| writer := None; clients := ∅; next_id := 1 |}.

(** [UnboundedSender::send]: an error, ignored, once the receiver is gone. *)
Definition send (h : ClientHandle) (frame : string) : ClientHandle :=
  if rx_alive h then {| tx := tx h ++ [frame]; rx_alive := true |} else h.

Definition owner (w : option ClientId) : string :=
  match w with Some w => pretty w | None => "none" end.
Definition role (w : option ClientId) (cid : ClientId) : string :=
  if bool_decide (w = Some cid) then "writer" else "observer".
Definition role_frame (w : option ClientId) (cid : ClientId) : string :=
  "{" +:+ quote +:+ "t" +:+ quote +:+ ":" +:+ quote +:+ "role" +:+ quote +:+ ","
    +:+ quote +:+ "role" +:+ quote +:+ ":" +:+ quote +:+ role w cid +:+ quote +:+ ","
    +:+ quote +:+ "owner" +:+ quote +:+ ":" +:+ quote +:+ owner w +:+ quote +:+ "}".

Definition broadcast_roles (a : Arbiter) : Arbiter :=
  {| writer := writer a;
     clients := map_imap (fun cid h => Some (send h (role_frame (writer a) cid))) (clients a);
     next_id := next_id a |}.

(** [fetch_add] wraps around at 64 bits. *)
Definition connect (a : Arbiter) : ClientId * Arbiter :=
  let id := next_id a in
  let w := match writer a with None => Some id | w => w end in
  (id, broadcast_roles {| writer := w; clients := <[id := {| tx := []; rx_alive := true |}]> (clients a);
                          next_id := wrap64 (id + 1) |}).

Definition is_writer (a : Arbiter) (id : ClientId) : bool := bool_decide (writer a = Some id).

Definition takeover (a : Arbiter) (id : ClientId) : Arbiter :=
  if bool_decide (is_Some (clients a !! id)) then
    broadcast_roles {| writer := Some id; clients := clients a; next_id := next_id a |}
  else a.

Definition disconnect (a : Arbiter) (id : ClientId) : Arbiter :=
  broadcast_roles
    {| writer := if bool_decide (writer a = Some id) then None else writer a;
       clients := delete id (clients a); next_id := next_id a |}.

(** The environment: a client's task ends and drops its receiver. *)
Definition drop_rx (a : Arbiter) (id : ClientId) : Arbiter :=
  {| writer := writer a;
     clients := alter (fun h => {| tx := tx h; rx_alive := false |}) id (clients a);
     next_id := next_id a |}.

(** ** Executions *)

Inductive action := AConnect | ATakeover (id : ClientId) | ADisconnect (id : ClientId) | ADrop (id : ClientId).

Definition step (a : Arbiter) (act : action) : Arbiter :=
  match act with
  | AConnect => (connect a).2
  | ATakeover id => takeover a id
  | ADisconnect id => disconnect a id
  | ADrop id => drop_rx a id
  end.

Inductive reachable : Arbiter -> Prop :=
| reach_new : reachable new
| reach_step a act : reachable a -> reachable (step a act).

(** ** Invariant *)

(** The writer is connected, and what every listening client heard last is
    its role now. *)
Definition informed (a : Arbiter) : Prop :=
  forall id h, clients a !! id = Some h -> rx_alive h = true ->
    last (tx h) = Some (role_frame (writer a) id).
Definition arbiter_inv (a : Arbiter) : Prop :=
  (forall w, writer a = Some w -> is_Some (clients a !! w)) /\ informed a.

Lemma broadcast_clients a id :
  clients (broadcast_roles a) !! id = (fun h => send h (role_frame (writer a) id)) <$> clients a !! id.
Proof. cbn. rewrite map_lookup_imap. by destruct (clients a !! id). Qed.

Lemma broadcast_inv a :
  (forall w, writer a = Some w -> is_Some (clients a !! w)) -> arbiter_inv (broadcast_roles a).
Proof.
  intros Hw. split.
  - intros w Hww. rewrite broadcast_clients, fmap_is_Some. by apply Hw.
  - intros id h. rewrite broadcast_clients. destruct (clients a !! id) as [h'|]; cbn; [|done].
    intros [= <-]. unfold send. destruct (rx_alive h') eqn:E; [|by rewrite E].
    intros _. cbn. by rewrite last_snoc.
Qed.

Lemma step_inv a act : arbiter_inv a -> arbiter_inv (step a act).
Proof.
  intros [Hw Hi]. destruct act as [|id|id|id]; cbn.
  - apply broadcast_inv. cbn. intros w. destruct (writer a) as [w'|] eqn:E; intros [= <-].
    + destruct (decide (next_id a = w')) as [->|]; [rewrite lookup_insert_eq; by eexists|].
      rewrite lookup_insert_ne by done. by apply Hw.
    + rewrite lookup_insert_eq. by eexists.
  - unfold takeover. case_bool_decide; [|done]. apply broadcast_inv. by intros w [= <-].
  - apply broadcast_inv. cbn. intros w. case_bool_decide as E; [done|].
    intros Hww. rewrite lookup_delete_ne by congruence. by apply Hw.
  - split; cbn.
    + intros w Hww. destruct (Hw w Hww) as [h Hh]. destruct (decide (id = w)) as [->|].
      * rewrite lookup_alter_eq, Hh. by eexists.
      * rewrite lookup_alter_ne by done. by eexists.
    + intros id' h. destruct (decide (id = id')) as [->|].
      * cbn. rewrite lookup_alter_eq. destruct (clients a !! id') as [h'|]; cbn; [|done].
        by intros [= <-].
      * cbn. rewrite lookup_alter_ne by done. apply Hi.
Qed.

Lemma reachable_inv a : reachable a -> arbiter_inv a.
Proof.
  induction 1 as [|a act Hr IH]; [|by apply step_inv].
  split; [done|]. by intros id h.
Qed.

(** ** Properties *)

(** one writer, and nobody is misled. After any sequence of connections,
    takeovers, disconnections and lost receivers, at most one client is the
    writer, it is connected, and the last frame every listening client
    received states its own role and the current owner of the token. *)
Theorem arbiter_single_writer (a : Arbiter) :
  reachable a ->
  (forall i j, is_writer a i = true -> is_writer a j = true -> i = j) /\
  (forall w, is_writer a w = true -> is_Some (clients a !! w)) /\
  (forall id h, clients a !! id = Some h -> rx_alive h = true ->
     last (tx h) = Some (role_frame (writer a) id)).
Proof.
  intros [Hw Hi]%reachable_inv. unfold is_writer. split_and!; [| |done].
  - intros i j Hii%bool_decide_eq_true Hj%bool_decide_eq_true. congruence.
  - intros w ?%bool_decide_eq_true. by apply Hw.
Qed.

(** The token moves only when its holder or its claimant acts. From any
    state, one operation changes the writer only by a new client finding the
    token free, by the explicit takeover of a connected client for itself, or
    by the writer's own disconnection, which leaves no writer (no automatic
    handoff). *)
Theorem writer_changes_only_explicitly (a : Arbiter) (act : action) :
  writer (step a act) <> writer a ->
  match act with
  | AConnect => writer a = None /\ writer (step a act) = Some (connect a).1
  | ATakeover id => is_Some (clients a !! id) /\ writer (step a act) = Some id
  | ADisconnect id => writer a = Some id /\ writer (step a act) = None
  | ADrop _ => False
  end.
Proof.
  destruct act as [|id|id|id]; cbn.
  - destruct (writer a) eqn:E; [done|]. done.
  - unfold takeover. by case_bool_decide.
  - by case_bool_decide.
  - done.
Qed.

(** ** Witnesses *)

Definition two_clients : Arbiter := step (step new AConnect) AConnect.

Lemma arbiter_single_writer_witness :
  is_Some (clients two_clients !! 1).
Proof.
  apply (arbiter_single_writer two_clients).
  - apply reach_step, reach_step, reach_new.
  - vm_compute. reflexivity.
Defined.

Lemma writer_changes_only_explicitly_witness :
  is_Some (clients two_clients !! 2) /\ writer (step two_clients (ATakeover 2)) = Some 2.
Proof.
  apply (writer_changes_only_explicitly two_clients (ATakeover 2)). vm_compute. discriminate.
Defined.
