(* ===== verification/Sse.v ===== *)
(** * Line framing of event streams ([crates/embra-brain/src/provider/sse.rs])

    [LineBuffer] turns the chunks of a provider's response into complete
    lines. The indices into [pending] are kept as the code keeps them; the
    reference is the split of the whole byte stream at its newlines. *)

From S2P Require Import Prelude Bytes.

Definition COMPACT_AT : nat := 64 * 1024.

Record LineBuffer := {
  pending : bytes;
  start : nat;
  scanned : nat;
}.
Definition default_buffer : LineBuffer := {| pending := []; start := 0; scanned := 0 |}.

Definition push (b : LineBuffer) (chunk : bytes) : LineBuffer :=
  if bool_decide (start b = length (pending b)) then
    {| pending := chunk; start := 0; scanned := 0 |}
  else if bool_decide (COMPACT_AT <= start b)%nat then
    {| pending := drop (start b) (pending b) ++ chunk; start := 0; scanned := scanned b - start b |}
  else
    {| pending := pending b ++ chunk; start := start b; scanned := scanned b |}.

(** [iter().position(|&b| b == b'\n')] *)
Fixpoint position (x : Z) (l : bytes) : option nat :=
  match l with
  | [] => None
  | y :: l => if y =? x then Some 0%nat else S <$> position x l
  end.

(** The [while let] that drops carriage returns from the end. *)
Fixpoint strip_cr_rev (r : bytes) : bytes :=
  match r with
  | 13 :: r => strip_cr_rev r
  | _ => r
  end.
Definition strip_cr (line : bytes) : bytes := reverse (strip_cr_rev (reverse line)).

(** [String::from_utf8_lossy]: a maximal ill-formed prefix becomes one
    replacement character. *)
Definition replacement : bytes := [239; 191; 189].
Definition second_ok (b0 b1 : Z) : bool :=
  if b0 =? 224 then (160 <=? b1) && (b1 <=? 191)
  else if b0 =? 237 then (128 <=? b1) && (b1 <=? 159)
  else if b0 =? 240 then (144 <=? b1) && (b1 <=? 191)
  else if b0 =? 244 then (128 <=? b1) && (b1 <=? 143)
  else utf8_cont b1.
Fixpoint lossy (l : bytes) : bytes :=
  match l with
  | [] => []
  | b0 :: l1 =>
      if (0 <=? b0) && (b0 <=? 127) then b0 :: lossy l1
      else if negb ((194 <=? b0) && (b0 <=? 244)) then replacement ++ lossy l1
      else match l1 with
      | [] => replacement
      | b1 :: l2 =>
          if negb (second_ok b0 b1) then replacement ++ lossy l1
          else if b0 <=? 223 then b0 :: b1 :: lossy l2
          else match l2 with
          | [] => replacement
          | b2 :: l3 =>
              if negb (utf8_cont b2) then replacement ++ lossy l2
              else if b0 <=? 239 then b0 :: b1 :: b2 :: lossy l3
              else match l3 with
              | [] => replacement
              | b3 :: l4 =>
                  if negb (utf8_cont b3) then replacement ++ lossy l3
                  else b0 :: b1 :: b2 :: b3 :: lossy l4
              end
          end
      end
  end.
Definition from_utf8_lossy (l : bytes) : string := bytes_str (lossy l).

Definition next_line (b : LineBuffer) : option string * LineBuffer :=
  match position 10 (drop (scanned b) (pending b)) with
  | None => (None, {| pending := pending b; start := start b; scanned := length (pending b) |})
  | Some offset =>
      let newline := (scanned b + offset)%nat in
      let line := strip_cr (take (newline - start b) (drop (start b) (pending b))) in
      (Some (from_utf8_lossy line), {| pending := pending b; start := S newline; scanned := S newline |})
  end.

(** How the parsers use it: push a chunk, then drain the lines it completed.
    A line consumes at least its newline, so [fuel] is the unread length. *)
Fixpoint drain (fuel : nat) (b : LineBuffer) : list string * LineBuffer :=
  match fuel with
  | O => ([], b)
  | S fuel =>
      match next_line b with
      | (None, b) => ([], b)
      | (Some line, b) => let '(lines, b) := drain fuel b in (line :: lines, b)
      end
  end.
Definition feed_chunk (b : LineBuffer) (chunk : bytes) : list string * LineBuffer :=
  let b := push b chunk in drain (S (length (pending b))) b.
Fixpoint feed_chunks (b : LineBuffer) (chunks : list bytes) : list string * LineBuffer :=
  match chunks with
  | [] => ([], b)
  | chunk :: chunks =>
      let '(lines, b) := feed_chunk b chunk in
      let '(lines', b) := feed_chunks b chunks in
      (lines ++ lines', b)
  end.

(** ** Reference: the lines of a whole byte stream *)

(** The complete lines and the unterminated tail. *)
Fixpoint split_lines (l : bytes) : list bytes * bytes :=
  match l with
  | [] => ([], [])
  | x :: l =>
      let '(lines, tail) := split_lines l in
      if x =? 10 then ([] :: lines, tail)
      else match lines with
           | [] => ([], x :: tail)
           | line :: lines => ((x :: line) :: lines, tail)
           end
  end.
Definition decode_line (l : bytes) : string := from_utf8_lossy (strip_cr l).

(** ** Facts *)

Definition unread (b : LineBuffer) : bytes := drop (start b) (pending b).

(** The indices are in order and no newline was missed. *)
Definition buffer_ok (b : LineBuffer) : Prop :=
  (start b <= scanned b <= length (pending b))%nat /\
  10 ∉ take (scanned b - start b) (unread b).

Lemma position_Some x l n : position x l = Some n -> exists a c, l = a ++ x :: c /\ length a = n /\ x ∉ a.
Proof.
  revert n; induction l as [|y l IH]; intros n; cbn; [done|].
  destruct (Z.eqb_spec y x) as [->|Hne].
  - intros [= <-]. exists [], l. split_and!; [done|done|apply not_elem_of_nil].
  - destruct (position x l) as [m|]; cbn; [|done]. intros [= <-].
    destruct (IH m eq_refl) as (a & c & -> & <- & Ha). exists (y :: a), c. split_and!; [done|done|].
    rewrite elem_of_cons. intros [->|?]; done.
Qed.
Lemma position_None x l : position x l = None -> x ∉ l.
Proof.
  induction l as [|y l IH]; cbn; [intros _; apply not_elem_of_nil|].
  destruct (Z.eqb_spec y x) as [|Hne]; [done|]. destruct (position x l); [done|].
  intros _. rewrite elem_of_cons. intros [->|?]; [done|by apply IH].
Qed.

Lemma split_no_newline l : 10 ∉ l -> split_lines l = ([], l).
Proof.
  induction l as [|x l IH]; cbn; [done|]. rewrite not_elem_of_cons. intros [Hx Hl].
  rewrite IH by done. destruct (Z.eqb_spec x 10); [congruence|done].
Qed.
Lemma split_line a c : 10 ∉ a -> split_lines (a ++ 10 :: c) = (a :: (split_lines c).1, (split_lines c).2).
Proof.
  induction a as [|x a IH]; cbn; [by destruct (split_lines c)|]. rewrite not_elem_of_cons. intros [Hx Ha].
  rewrite IH by done. destruct (Z.eqb_spec x 10); [congruence|done].
Qed.
Lemma split_app a c : split_lines (a ++ c) =
  ((split_lines a).1 ++ (split_lines ((split_lines a).2 ++ c)).1, (split_lines ((split_lines a).2 ++ c)).2).
Proof.
  induction a as [|x a IH]; cbn; [by destruct (split_lines c)|].
  rewrite IH. destruct (split_lines a) as [lines tail]; cbn [fst snd]. destruct (x =? 10) eqn:E; cbn [fst snd].
  - done.
  - destruct lines as [|line lines]; cbn [fst snd app split_lines]; [|done].
    rewrite E. by destruct (split_lines (tail ++ c)) as [[|] ?].
Qed.

Lemma next_line_spec b : buffer_ok b ->
  match split_lines (unread b) with
  | ([], tail) => exists b', next_line b = (None, b') /\ unread b' = tail /\ buffer_ok b' /\
      start b' = start b /\ length (pending b') = length (pending b)
  | (line :: lines, tail) => exists b', next_line b = (Some (decode_line line), b') /\
      split_lines (unread b') = (lines, tail) /\ buffer_ok b' /\
      (start b < start b' <= length (pending b'))%nat /\ length (pending b') = length (pending b)
  end.
Proof.
  intros [Hord Hno]. unfold next_line. set (k := (scanned b - start b)%nat) in *.
  assert (Hdrop : drop (scanned b) (pending b) = drop k (unread b)).
  { unfold unread. rewrite drop_drop. f_equal. unfold k. lia. }
  assert (Hlu : length (unread b) = (length (pending b) - start b)%nat) by apply length_drop.
  rewrite Hdrop. destruct (position 10 (drop k (unread b))) as [n|] eqn:Hpos.
  - apply position_Some in Hpos as (a & c & Hac & Hlen & Ha).
    assert (Hu : unread b = (take k (unread b) ++ a) ++ 10 :: c) by (by rewrite <- app_assoc, <- Hac, take_drop).
    assert (Hk : length (take k (unread b)) = k) by (rewrite length_take, Hlu; unfold k; lia).
    rewrite Hu, split_line by set_solver.
    assert (Hlb : length (take k (unread b) ++ a) = (scanned b + n - start b)%nat)
      by (rewrite length_app, Hk, Hlen; unfold k; lia).
    assert (Htake : take (scanned b + n - start b) (drop (start b) (pending b)) = take k (unread b) ++ a).
    { fold (unread b). rewrite Hu at 1. by apply take_app_length'. }
    eexists. split_and!.
    + unfold decode_line. rewrite Htake. reflexivity.
    + unfold unread at 1. cbn [start pending].
      replace (drop (S (scanned b + n)) (pending b)) with c; [by destruct (split_lines c)|].
      replace (S (scanned b + n)) with (start b + S (scanned b + n - start b))%nat by lia.
      rewrite <- drop_drop. fold (unread b). rewrite Hu, <- Hlb.
      rewrite drop_app_ge by lia. by replace (S _ - _)%nat with 1%nat by lia.
    + assert (length (unread b) = (scanned b + n - start b + S (length c))%nat).
      { rewrite Hu, length_app, Hlb. done. }
      split; cbn; [lia|]. rewrite Nat.sub_diag. apply not_elem_of_nil.
    + assert (length (unread b) = (scanned b + n - start b + S (length c))%nat).
      { rewrite Hu, length_app, Hlb. done. }
      cbn. lia.
    + cbn. assert (length (unread b) = (scanned b + n - start b + S (length c))%nat).
      { rewrite Hu, length_app, Hlb. done. }
      lia.
    + done.
  - apply position_None in Hpos.
    assert (Hnn : 10 ∉ unread b).
    { rewrite <- (take_drop k (unread b)). set_solver. }
    rewrite split_no_newline by done. eexists. split_and!; [done|done| |done|done].
    split; cbn; [lia|]. unfold unread. cbn. by rewrite take_ge by (rewrite length_drop; lia).
Qed.

Lemma drain_spec fuel b : buffer_ok b -> (length (pending b) - start b < fuel)%nat ->
  exists b', drain fuel b = (decode_line <$> (split_lines (unread b)).1, b') /\
    unread b' = (split_lines (unread b)).2 /\ buffer_ok b'.
Proof.
  revert b; induction fuel as [|fuel IH]; intros b Hok Hf; [lia|]. cbn [drain].
  pose proof (next_line_spec b Hok) as Hn. destruct (split_lines (unread b)) as [[|line lines] tail].
  - destruct Hn as (b' & -> & Hu & Hok' & _). by exists b'.
  - destruct Hn as (b' & -> & Hs & Hok' & Hst & Hlen).
    destruct (IH b' Hok' ltac:(lia)) as (b'' & -> & Hu & Hok''). rewrite Hs in Hu |- *.
    by exists b''.
Qed.

Lemma push_spec b chunk : buffer_ok b -> buffer_ok (push b chunk) /\ unread (push b chunk) = unread b ++ chunk.
Proof.
  intros [Hord Hno]. unfold push. case_bool_decide as H1; [|case_bool_decide as H2].
  - split; [split; cbn; [lia|apply not_elem_of_nil]|]. unfold unread. cbn. by rewrite H1, drop_all.
  - assert (length (unread b) = (length (pending b) - start b)%nat) by apply length_drop.
    split; [split; cbn|done].
    + fold (unread b). rewrite length_app. lia.
    + unfold unread. cbn. rewrite Nat.sub_0_r. fold (unread b). rewrite drop_0. by rewrite take_app_le by lia.
  - assert (length (unread b) = (length (pending b) - start b)%nat) by apply length_drop.
    assert (Hu : drop (start b) (pending b ++ chunk) = unread b ++ chunk) by (apply drop_app_le; lia).
    split; [split; cbn|done].
    + rewrite length_app. lia.
    + unfold unread. cbn. rewrite Hu. by rewrite take_app_le by lia.
Qed.

Lemma feed_chunks_spec b chunks : buffer_ok b -> 10 ∉ unread b ->
  exists b', feed_chunks b chunks = (decode_line <$> (split_lines (unread b ++ concat chunks)).1, b') /\
    unread b' = (split_lines (unread b ++ concat chunks)).2 /\ buffer_ok b'.
Proof.
  revert b; induction chunks as [|chunk chunks IH]; intros b Hok Hno; cbn [feed_chunks concat].
  - exists b. cbn. by rewrite app_nil_r, split_no_newline.
  - destruct (push_spec b chunk Hok) as [Hok1 Hu1].
    destruct (drain_spec (S (length (pending (push b chunk)))) _ Hok1 ltac:(lia)) as (b1 & Hd & Hu & Hok2).
    unfold feed_chunk. cbv zeta. rewrite Hd. clear Hd. rewrite Hu1 in Hu |- *.
    destruct (IH b1 Hok2) as (b2 & Hf & Hu2 & Hok3).
    { rewrite Hu. clear. induction (unread b ++ chunk) as [|x l IH]; cbn; [apply not_elem_of_nil|].
      destruct (split_lines l) as [[|line lines] tail]; cbn in *; destruct (Z.eqb_spec x 10); cbn; try done.
      by apply not_elem_of_cons. }
    rewrite Hf. exists b2. rewrite Hu in Hu2 |- *. rewrite app_assoc, (split_app (unread b ++ chunk) (concat chunks)). cbn [fst snd].
    split_and!; [by rewrite fmap_app|done|done].
Qed.

(** ** Properties *)

(** lines come out whole however the chunks were cut. Fed any sequence
    of chunks, [LineBuffer] gives exactly the lines of the concatenated bytes
    (split at each newline, trailing carriage returns dropped, each line
    decoded by itself), and keeps exactly the unterminated tail; the result does
    not depend on where the network cut the stream. *)
Theorem lines_independent_of_chunks (chunks : list bytes) :
  (feed_chunks default_buffer chunks).1 = decode_line <$> (split_lines (concat chunks)).1 /\
  unread (feed_chunks default_buffer chunks).2 = (split_lines (concat chunks)).2.
Proof.
  destruct (feed_chunks_spec default_buffer chunks) as (b & -> & Hu & _).
  - split; cbn; [lia|apply not_elem_of_nil].
  - apply not_elem_of_nil.
  - by cbn in Hu |- *.
Qed.

(** A newline never falls inside a multi-byte character: decoding line by line
    keeps well-formed text whole. *)
Lemma lossy_valid l : utf8_valid l = true -> lossy l = l.
Proof.
  revert l. fix IH 1. intros [|b0 l1]; [done|]. cbn [utf8_valid lossy].
  destruct ((0 <=? b0) && (b0 <=? 127)) eqn:H0; [intros H; f_equal; by apply IH|].
  destruct l1 as [|b1 l2]; [done|].
  destruct ((194 <=? b0) && (b0 <=? 223)) eqn:H1.
  { intros [Hc H]%andb_prop. unfold second_ok.
    replace (negb ((194 <=? b0) && (b0 <=? 244))) with false by lia.
    destruct (Z.eqb_spec b0 224), (Z.eqb_spec b0 237), (Z.eqb_spec b0 240), (Z.eqb_spec b0 244); try lia.
    rewrite Hc. cbn. replace (b0 <=? 223) with true by lia. by rewrite (IH l2 H). }
  destruct l2 as [|b2 l3]; [done|].
  destruct ((224 <=? b0) && (b0 <=? 239)) eqn:H2.
  { intros [Hc H]%andb_prop. repeat apply andb_prop in Hc as [Hc ?].
    replace (negb ((194 <=? b0) && (b0 <=? 244))) with false by lia.
    replace (negb (second_ok b0 b1)) with false.
    2:{ unfold second_ok, utf8_cont in *.
        destruct (Z.eqb_spec b0 224), (Z.eqb_spec b0 237), (Z.eqb_spec b0 240), (Z.eqb_spec b0 244); cbn in *; lia. }
    replace (b0 <=? 223) with false by lia.
    replace (utf8_cont b2) with true by done. cbn [negb]. replace (b0 <=? 239) with true by lia.
    by rewrite (IH l3 H). }
  destruct l3 as [|b3 l4]; [done|].
  intros [Hc H]%andb_prop. repeat apply andb_prop in Hc as [Hc ?].
  replace (negb ((194 <=? b0) && (b0 <=? 244))) with false by lia.
  replace (negb (second_ok b0 b1)) with false.
  2:{ unfold second_ok, utf8_cont in *.
      destruct (Z.eqb_spec b0 224), (Z.eqb_spec b0 237), (Z.eqb_spec b0 240), (Z.eqb_spec b0 244); cbn in *; lia. }
  replace (b0 <=? 223) with false by lia.
  replace (utf8_cont b2) with true by done. cbn [negb]. replace (b0 <=? 239) with false by lia.
  replace (utf8_cont b3) with true by done. cbn [negb]. by rewrite (IH l4 H).
Qed.
