(* ===== verification/Calc.v ===== *)
(** * The expression evaluator ([crates/embra-brain/src/tools/calc.rs])

    Behind the [calculate] tool: a tokenizer that is a two-state machine, the
    shunting-yard pass to reverse Polish notation, and the stack evaluator. The
    reference is a precedence grammar ([expr], [wf], [render]) with its
    compositional meaning ([denote]). The mathematical functions of the
    platform's libm and the decimal-to-float conversion are parameters. *)

From S2P Require Import Prelude Bytes F64.
From Stdlib Require Import SpecFloat.

Definition MAX_EXPRESSION_BYTES : Z := 8 * 1024.

Inductive CalcError :=
| TooLong (n : Z)
| UnexpectedToken (i : nat)
| MissingRParen (n : nat)
| MissingArgument
| UnknownVariable (name : string)
| UnknownFunction (name : string)
| WrongArity (name : string) (expected : nat).

Definition calc_error_display (e : CalcError) : string :=
  match e with
  | TooLong n => "Parse error: expression is " +:+ pretty n +:+ " bytes; the limit is " +:+ pretty MAX_EXPRESSION_BYTES +:+ "."
  | UnexpectedToken i => "Parse error: Unexpected token at byte " +:+ pretty i +:+ "."
  | MissingRParen n => "Parse error: Missing " +:+ pretty n +:+ " right parenthes" +:+ (if bool_decide (n = 1%nat) then "is" else "es") +:+ "."
  | MissingArgument => "Parse error: Missing argument at the end of expression."
  | UnknownVariable name => "Evaluation error: unknown variable `" +:+ name +:+ "`."
  | UnknownFunction name => "Evaluation error: function `" +:+ name +:+ "`: Unknown function"
  | WrongArity name expected => "Evaluation error: function `" +:+ name +:+ "`: Expected " +:+ pretty expected +:+ " arguments"
  end.

Abbreviation cres := (result CalcError).

Inductive Op := Plus | Minus | Times | Div | Rem | Pow.
#[export] Instance Op_eq_dec : EqDecision Op.
Proof. solve_decision. Defined.

Inductive Token :=
| Binary (op : Op)
| Unary (op : Op)
| LParen
| RParen
| Comma
| Number (x : f64)
| Var (name : string)
| Func (name : string) (commas : nat).

(** The platform's [f64] functions and [str::parse::<f64>]. *)
Class FloatLib := {
  parse_f64 : string -> option f64;
  f_mul : f64 -> f64 -> f64;
  f_rem : f64 -> f64 -> f64;
  f_powf : f64 -> f64 -> f64;
  f_neg : f64 -> f64;
  f_pi : f64;
  f_e : f64;
  (** the one-argument functions, by the name of the [f64] method *)
  f_unary : string -> f64 -> f64;
  f_atan2 : f64 -> f64 -> f64;
  f_max : f64 -> f64 -> f64;
  f_min : f64 -> f64 -> f64;
}.

(** ** Tokenizer *)

Definition is_space (b : Z) : bool := (b =? 32) || (b =? 9) || (b =? 13) || (b =? 10).
Definition is_digit (b : Z) : bool := (48 <=? b) && (b <=? 57).
Definition is_alpha (b : Z) : bool := ((65 <=? b) && (b <=? 90)) || ((97 <=? b) && (b <=? 122)).

(** [take_while(p).count()] *)
Fixpoint count_while (p : Z -> bool) (l : bytes) : nat :=
  match l with
  | b :: l => if p b then S (count_while p l) else 0
  | [] => 0
  end.

Definition skip_space (s : bytes) (i : nat) : nat := i + count_while is_space (drop i s).
Definition count_digits (s : bytes) (from : nat) : nat :=
  count_while is_digit (drop (Nat.min from (length s)) s).

Definition scan_number (s : bytes) (i : nat) : option nat :=
  let int_digits := count_digits s i in
  if bool_decide (int_digits = 0%nat) then None else
  let end_ := (i + int_digits)%nat in
  let end_ := if bool_decide (s !! end_ = Some 46) then (end_ + 1 + count_digits s (end_ + 1))%nat else end_ in
  if bool_decide (s !! end_ = Some 101 \/ s !! end_ = Some 69) then
    let exp := (end_ + 1)%nat in
    let exp := if bool_decide (s !! exp = Some 43 \/ s !! exp = Some 45) then (exp + 1)%nat else exp in
    let exp_digits := count_digits s exp in
    if bool_decide (exp_digits = 0%nat) then None else Some (exp + exp_digits - i)%nat
  else Some (end_ - i)%nat.

Definition scan_ident (s : bytes) (i : nat) : option nat :=
  match s !! i with
  | Some b =>
      if is_alpha b || (b =? 95)
      then Some (1 + count_while (fun b => is_alpha b || is_digit b || (b =? 95)%Z) (drop (i + 1) s))%nat
      else None
  | None => None
  end.

Inductive Expect := Operand | Operator.
Inductive Paren := Group | Call.
#[export] Instance Paren_eq_dec : EqDecision Paren.
Proof. solve_decision. Defined.

(** [&input[i..i + len]] *)
Definition slice (s : bytes) (i len : nat) : string := bytes_str (take len (drop i s)).

Definition binary_op (b : Z) : option Op :=
  if b =? 43 then Some Plus else if b =? 45 then Some Minus else if b =? 42 then Some Times
  else if b =? 47 then Some Div else if b =? 37 then Some Rem else if b =? 94 then Some Pow else None.

Section calc.
Context `{FloatLib}.

(** One token where an operand may start: its token, the state after it. *)
Definition operand_token (s : bytes) (i : nat) (parens : list Paren)
    : cres (Token * list Paren * Expect * nat) :=
  match scan_number s i with
  | Some len =>
      match parse_f64 (slice s i len) with
      | Some value => Ok (Number value, parens, Operator, i + len)%nat
      | None => Err (UnexpectedToken i)
      end
  | None =>
      match scan_ident s i with
      | Some len =>
          let name := slice s i len in
          let after := skip_space s (i + len) in
          if bool_decide (s !! after = Some 40)
          then Ok (Func name 0, Call :: parens, Operand, after + 1)%nat
          else Ok (Var name, parens, Operator, i + len)%nat
      | None =>
          match s !! i with
          | Some b =>
              if b =? 43 then Ok (Unary Plus, parens, Operand, i + 1)%nat
              else if b =? 45 then Ok (Unary Minus, parens, Operand, i + 1)%nat
              else if b =? 40 then Ok (LParen, Group :: parens, Operand, i + 1)%nat
              else Err (UnexpectedToken i)
          | None => Err (UnexpectedToken i)
          end
      end
  end.

(** One token after an operand. *)
Definition operator_token (s : bytes) (i : nat) (parens : list Paren)
    : cres (Token * list Paren * Expect * nat) :=
  let b := default 0 (s !! i) in
  match binary_op b, parens with
  | Some op, _ => Ok (Binary op, parens, Operand, i + 1)%nat
  | None, p :: parens' =>
      if b =? 41 then Ok (RParen, parens', Operator, i + 1)%nat
      else if (b =? 44) && bool_decide (p = Call) then Ok (Comma, parens, Operand, i + 1)%nat
      else Err (UnexpectedToken i)
  | None, [] => Err (UnexpectedToken i)
  end.

(** The loop: [None] is "out of fuel", never reached with a fuel above the
    unread length. *)
Fixpoint tokenize_loop (fuel : nat) (s : bytes) (i : nat) (parens : list Paren) (expect : Expect)
    (tokens : list Token) : option (cres (list Token * list Paren * Expect)) :=
  match fuel with
  | O => None
  | S fuel =>
      if bool_decide (length s <= i)%nat then Some (Ok (tokens, parens, expect)) else
      let i := skip_space s i in
      if bool_decide (length s <= i)%nat then Some (Ok (tokens, parens, expect)) else
      match (match expect with Operand => operand_token s i parens | Operator => operator_token s i parens end) with
      | Err e => Some (Err e)
      | Ok (t, parens, expect, i) => tokenize_loop fuel s i parens expect (tokens ++ [t])
      end
  end.

Definition tokenize (input : string) : option (cres (list Token)) :=
  let s := str_bytes input in
  r ← tokenize_loop (S (length s)) s 0 [] Operand [];
  Some (let? st := r in
    let '(tokens, parens, expect) := st in
    match expect, parens with
    | Operand, _ => Err MissingArgument
    | Operator, [] => Ok tokens
    | Operator, _ => Err (MissingRParen (length parens))
    end).

(** ** Shunting-yard *)

Definition precedence (op : Op) : nat * bool :=
  match op with
  | Plus | Minus => (1%nat, false)
  | Times | Div | Rem => (2%nat, false)
  | Pow => (4%nat, true)
  end.
Definition UNARY_PRECEDENCE : nat := 3.

Definition top_prec (t : Token) : nat :=
  match t with
  | Binary o => (precedence o).1
  | Unary _ => UNARY_PRECEDENCE
  | _ => 0
  end.
Definition pops (op : Op) (top : Token) : bool :=
  let '(prec, rassoc) := precedence op in
  if rassoc then bool_decide (prec < top_prec top)%nat else bool_decide (prec <= top_prec top)%nat.

(** The stack's top is the head of the list. *)
Fixpoint pop_operators (op : Op) (stack output : list Token) : list Token * list Token :=
  match stack with
  | top :: stack' =>
      if pops op top then pop_operators op stack' (output ++ [top]) else (stack, output)
  | [] => ([], output)
  end.
Fixpoint pop_rparen (stack output : list Token) : list Token * list Token :=
  match stack with
  | [] => ([], output)
  | LParen :: stack => (stack, output)
  | Func name commas :: stack => (stack, output ++ [Func name (commas + 1)])
  | other :: stack => pop_rparen stack (output ++ [other])
  end.
Fixpoint pop_comma (stack output : list Token) : list Token * list Token :=
  match stack with
  | [] => ([], output)
  | Func name commas :: stack => (Func name (commas + 1) :: stack, output)
  | other :: stack => pop_comma stack (output ++ [other])
  end.

Definition rpn_step (st : list Token * list Token) (token : Token) : list Token * list Token :=
  let '(stack, output) := st in
  match token with
  | Number _ | Var _ => (stack, output ++ [token])
  | Unary _ | LParen | Func _ _ => (token :: stack, output)
  | Binary op => let '(stack, output) := pop_operators op stack output in (token :: stack, output)
  | RParen => pop_rparen stack output
  | Comma => pop_comma stack output
  end.
Definition to_rpn (tokens : list Token) : list Token :=
  let '(stack, output) := foldl rpn_step ([], []) tokens in output ++ stack.

(** ** Evaluation *)

Definition constant (name : string) : option f64 :=
  if decide (name = "pi") then Some f_pi else if decide (name = "e") then Some f_e else None.

Definition unary_names : list string :=
  ["sqrt"; "exp"; "ln"; "abs"; "sin"; "cos"; "tan"; "asin"; "acos"; "atan"; "sinh"; "cosh"; "tanh";
   "asinh"; "acosh"; "atanh"; "floor"; "ceil"; "round"; "signum"].

Definition call (name : string) (args : list f64) : cres f64 :=
  if bool_decide (name ∈ unary_names) then
    match args with [x] => Ok (f_unary name x) | _ => Err (WrongArity name 1) end
  else if decide (name = "atan2") then
    match args with [y; x] => Ok (f_atan2 y x) | _ => Err (WrongArity name 2) end
  else if decide (name = "max") then Ok (foldl f_max f64_neg_infinity args)
  else if decide (name = "min") then Ok (foldl f_min f64_infinity args)
  else Err (UnknownFunction name).

Definition binary_value (op : Op) (l r : f64) : f64 :=
  match op with
  | Plus => f64_add l r
  | Minus => f64_sub l r
  | Times => f_mul l r
  | Div => f64_div l r
  | Rem => f_rem l r
  | Pow => f_powf l r
  end.
Definition unary_value (op : Op) (x : f64) : f64 := if decide (op = Minus) then f_neg x else x.

(** One token of the notation; the stack's top is the head, so a call's
    arguments are the first [nargs], reversed. *)
Definition eval_step (stack : list f64) (token : Token) : cres (list f64) :=
  match token with
  | Number n => Ok (n :: stack)
  | Var name => match constant name with Some v => Ok (v :: stack) | None => Err (UnknownVariable name) end
  | Binary op =>
      match stack with
      | r :: l :: stack => Ok (binary_value op l r :: stack)
      | _ => Err MissingArgument
      end
  | Unary op => match stack with x :: stack => Ok (unary_value op x :: stack) | [] => Err MissingArgument end
  | Func name nargs =>
      if bool_decide (length stack < nargs)%nat then Err MissingArgument
      else let? value := call name (reverse (take nargs stack)) in Ok (value :: drop nargs stack)
  | LParen | RParen | Comma => Err MissingArgument
  end.
Fixpoint eval_loop (rpn : list Token) (stack : list f64) : cres (list f64) :=
  match rpn with
  | [] => Ok stack
  | token :: rpn => let? stack := eval_step stack token in eval_loop rpn stack
  end.
Definition eval_rpn (rpn : list Token) : cres f64 :=
  let? stack := eval_loop rpn [] in
  match stack with [value] => Ok value | _ => Err MissingArgument end.

Definition eval (expression : string) : option (cres f64) :=
  if MAX_EXPRESSION_BYTES <? str_len expression then Some (Err (TooLong (str_len expression)))
  else r ← tokenize expression; Some (let? tokens := r in eval_rpn (to_rpn tokens)).
End calc.

(** ** Reference grammar

    [expr] with precedence levels: [+ -] 1, [* / %] 2, unary 3, [^] 4, atoms
    5. A left operand of [^] is an atom, its right operand may start with a
    sign; the other binary operators associate to the left. *)

Inductive expr :=
| ENum (x : f64)
| EVar (name : string)
| EUn (op : Op) (e : expr)
| EBin (op : Op) (l r : expr)
| EParen (e : expr)
| ECall (name : string) (args : list expr).

Definition level (e : expr) : nat :=
  match e with
  | EBin op _ _ => (precedence op).1
  | EUn _ _ => 3
  | _ => 5
  end.
Definition left_min (op : Op) : nat := match op with Plus | Minus => 1 | Times | Div | Rem => 2 | Pow => 5 end.
Definition right_min (op : Op) : nat := match op with Plus | Minus => 2 | Times | Div | Rem | Pow => 3 end.
Definition sign (op : Op) : Prop := op = Plus \/ op = Minus.

Inductive wf : expr -> Prop :=
| wf_num x : wf (ENum x)
| wf_var name : wf (EVar name)
| wf_un op e : sign op -> wf e -> (3 <= level e)%nat -> wf (EUn op e)
| wf_bin op l r : wf l -> wf r -> (left_min op <= level l)%nat -> (right_min op <= level r)%nat -> wf (EBin op l r)
| wf_paren e : wf e -> wf (EParen e)
| wf_call name args : args <> [] -> Forall wf args -> wf (ECall name args).

Fixpoint render (e : expr) : list Token :=
  match e with
  | ENum x => [Number x]
  | EVar name => [Var name]
  | EUn op e => Unary op :: render e
  | EBin op l r => render l ++ Binary op :: render r
  | EParen e => LParen :: render e ++ [RParen]
  | ECall name args =>
      Func name 0 :: (fix go args := match args with
        | [] => [RParen]
        | [a] => render a ++ [RParen]
        | a :: args => render a ++ Comma :: go args
        end) args
  end.
Fixpoint postfix (e : expr) : list Token :=
  match e with
  | ENum x => [Number x]
  | EVar name => [Var name]
  | EUn op e => postfix e ++ [Unary op]
  | EBin op l r => postfix l ++ postfix r ++ [Binary op]
  | EParen e => postfix e
  | ECall name args => concat (map postfix args) ++ [Func name (length args)]
  end.

Section expr_ind.
Context (P : expr -> Prop).
Context (Hnum : forall x, P (ENum x)) (Hvar : forall name, P (EVar name))
  (Hun : forall op e, P e -> P (EUn op e)) (Hbin : forall op l r, P l -> P r -> P (EBin op l r))
  (Hparen : forall e, P e -> P (EParen e)) (Hcall : forall name args, Forall P args -> P (ECall name args)).
Fixpoint expr_ind' (e : expr) : P e :=
  match e with
  | ENum x => Hnum x
  | EVar name => Hvar name
  | EUn op e => Hun op e (expr_ind' e)
  | EBin op l r => Hbin op l r (expr_ind' l) (expr_ind' r)
  | EParen e => Hparen e (expr_ind' e)
  | ECall name args => Hcall name args
      ((fix go args : Forall P args :=
         match args with
         | [] => @Forall_nil_2 _ P
         | a :: args => @Forall_cons_2 _ P a args (expr_ind' a) (go args)
         end) args)
  end.
End expr_ind.

(** The meaning of an expression; the first error in operand order wins. *)
Section denote.
Context `{FloatLib}.
Fixpoint denote (e : expr) : cres f64 :=
  match e with
  | ENum x => Ok x
  | EVar name => match constant name with Some v => Ok v | None => Err (UnknownVariable name) end
  | EUn op e => let? x := denote e in Ok (unary_value op x)
  | EBin op l r => let? x := denote l in let? y := denote r in Ok (binary_value op x y)
  | EParen e => denote e
  | ECall name args =>
      let? vs := (fix go args := match args with
        | [] => Ok []
        | a :: args => let? v := denote a in let? vs := go args in Ok (v :: vs)
        end) args in
      call name vs
  end.
Fixpoint denote_args (args : list expr) : cres (list f64) :=
  match args with
  | [] => Ok []
  | a :: args => let? v := denote a in let? vs := denote_args args in Ok (v :: vs)
  end.
Lemma denote_call name args : denote (ECall name args) = let? vs := denote_args args in call name vs.
Proof. reflexivity. Qed.

Lemma denote_args_length args vs : denote_args args = Ok vs -> length vs = length args.
Proof.
  revert vs; induction args as [|a args IH]; intros vs; cbn; [by intros [= <-]|].
  intros (v & _ & (vs' & Hvs & [= <-])%bind_ok)%bind_ok. cbn. by rewrite (IH _ Hvs).
Qed.

#[local] Arguments reverse : simpl never.

(** Running the notation of an expression pushes its value. *)
Lemma eval_postfix e : forall rest stack,
  eval_loop (postfix e ++ rest) stack = let? v := denote e in eval_loop rest (v :: stack).
Proof.
  induction e as [x|name|op e IH|op l r IHl IHr|e IH|name args IH] using expr_ind'; intros rest stack.
  - done.
  - cbn. by destruct (constant name).
  - cbn [postfix denote]. rewrite <- app_assoc, IH. by destruct (denote e).
  - cbn [postfix denote]. rewrite <- !app_assoc, IHl. destruct (denote l) as [x|]; [|done]. cbn.
    rewrite IHr. by destruct (denote r).
  - apply IH.
  - rewrite denote_call. cbn [postfix].
    assert (Hargs : forall acc, eval_loop (concat (map postfix args) ++ [Func name (length args + length acc)] ++ rest) (acc ++ stack) =
      let? vs := denote_args args in let? v := call name (reverse acc ++ vs) in eval_loop rest (v :: stack)).
    { induction IH as [|a args Ha Hargs IHargs]; intros acc; cbn.
      - rewrite bool_decide_false by (rewrite length_app; lia). rewrite take_app_length, app_nil_r, drop_app_length.
        by destruct (call name (reverse acc)).
      - rewrite <- app_assoc, Ha. destruct (denote a) as [v|]; [|done]. cbn.
        specialize (IHargs (v :: acc)). cbn in IHargs. rewrite <- plus_n_Sm in IHargs. rewrite IHargs.
        destruct (denote_args args); [|done]. cbn. by rewrite reverse_cons, <- app_assoc. }
    specialize (Hargs []). cbn in Hargs. rewrite Nat.add_0_r in Hargs. rewrite <- app_assoc. cbn.
    rewrite Hargs. destruct (denote_args args); [|done]. cbn. by destruct (call name _).
Qed.

(** Evaluation of a well-formed expression meets no internal error. *)
Definition semantic_error (e : CalcError) : Prop :=
  match e with UnknownVariable _ | UnknownFunction _ | WrongArity _ _ => True | _ => False end.
Lemma call_error name args e : call name args = Err e -> semantic_error e.
Proof.
  unfold call. case_bool_decide; [destruct args as [|? [|]]; intros [= <-]; exact I|].
  repeat case_decide; try (intros [= <-]; exact I); [|done..].
  destruct args as [|? [|? [|]]]; intros [= <-]; exact I.
Qed.
Lemma denote_error e : forall err, denote e = Err err -> semantic_error err.
Proof.
  induction e as [x|name|op e IH|op l r IHl IHr|e IH|name args IH] using expr_ind'; intros err.
  - done.
  - cbn. destruct (constant name); [done|]. by intros [= <-].
  - cbn. destruct (denote e); cbn; [done|]. intros [= <-]. by apply IH.
  - cbn. destruct (denote l); cbn; [|intros [= <-]; by apply IHl].
    destruct (denote r); cbn; [done|]. intros [= <-]. by apply IHr.
  - apply IH.
  - rewrite denote_call. destruct (denote_args args) as [vs|e'] eqn:E; cbn; [apply call_error|].
    intros [= <-]. revert e' E. induction IH as [|a args Ha Hargs IHargs]; cbn; [done|]. intros e'.
    destruct (denote a) as [v|ea]; cbn; [|intros [= <-]; by apply Ha].
    destruct (denote_args args); cbn; [done|]. intros [= <-]. by apply IHargs.
Qed.
End denote.

(** ** The parse behind the stack

    A stack token stands for a [frame], a piece of expression waiting for an
    operand; the output holds the notation of everything the frames and the
    current operand [cur] have read. *)

Inductive frame :=
| FBin (op : Op) (l : expr)
| FUn (op : Op)
| FParen
| FCall (name : string) (args : list expr).

Definition fr_token (f : frame) : Token :=
  match f with
  | FBin op _ => Binary op
  | FUn op => Unary op
  | FParen => LParen
  | FCall name args => Func name (length args)
  end.
Definition fr_out (f : frame) : list Token :=
  match f with
  | FBin _ l => postfix l
  | FCall _ args => concat (map postfix args)
  | _ => []
  end.
Definition fr_render (f : frame) : list Token :=
  match f with
  | FBin op l => render l ++ [Binary op]
  | FUn op => [Unary op]
  | FParen => [LParen]
  | FCall name args => Func name 0 :: concat (map (fun a => render a ++ [Comma]) args)
  end.
(** The level an operand of the frame needs, and the level the frame reduces to. *)
Definition fr_need (f : frame) : nat :=
  match f with FBin op _ => right_min op | FUn _ => 3 | _ => 0 end.
Definition fr_level (f : frame) : nat :=
  match f with FBin op _ => (precedence op).1 | FUn _ => 3 | _ => 5 end.
Definition fr_wf (f : frame) : Prop :=
  match f with
  | FBin op l => wf l /\ (left_min op <= level l)%nat
  | FUn op => sign op
  | FParen => True
  | FCall _ args => Forall wf args
  end.

Fixpoint fs_out (fs : list frame) : list Token :=
  match fs with [] => [] | f :: fs => fs_out fs ++ fr_out f end.
Fixpoint fs_render (fs : list frame) : list Token :=
  match fs with [] => [] | f :: fs => fs_render fs ++ fr_render f end.
Fixpoint fs_parens (fs : list frame) : list Paren :=
  match fs with
  | [] => []
  | FParen :: fs => Group :: fs_parens fs
  | FCall _ _ :: fs => Call :: fs_parens fs
  | _ :: fs => fs_parens fs
  end.
Definition need (fs : list frame) : nat := match fs with [] => 0 | f :: _ => fr_need f end.
Fixpoint fs_ok (fs : list frame) : Prop :=
  match fs with
  | [] => True
  | f :: fs => fr_wf f /\ (need fs <= fr_level f)%nat /\ fs_ok fs
  end.

Lemma render_call name args e :
  render (ECall name (args ++ [e])) =
  Func name 0 :: concat (map (fun a => render a ++ [Comma]) args) ++ render e ++ [RParen].
Proof.
  cbn. f_equal. induction args as [|a args IH]; [done|]. cbn.
  destruct (args ++ [e]) as [|b l] eqn:E; [by destruct args|]. rewrite IH. by rewrite <- !app_assoc.
Qed.

(** The frames and operand of a state, its wellformedness, and what it has
    read and written. *)
Definition operand_ok (fs : list frame) (cur : expr) : Prop :=
  fs_ok fs /\ wf cur /\ (need fs <= level cur)%nat.

Lemma need_le fs : (need fs <= 3)%nat.
Proof. destruct fs as [|[[] ?| | |] ?]; cbn; lia. Qed.

Lemma pop_operators_spec op fs cur :
  operand_ok fs cur -> (left_min op <= level cur)%nat ->
  exists fs' cur',
    pop_operators op (map fr_token fs) (fs_out fs ++ postfix cur) = (map fr_token fs', fs_out fs' ++ postfix cur') /\
    fs_render fs' ++ render cur' = fs_render fs ++ render cur /\ fs_parens fs' = fs_parens fs /\
    fs_ok (FBin op cur' :: fs').
Proof.
  revert cur; induction fs as [|f fs IH]; intros cur (Hfs & Hcur & Hneed) Hmin; cbn [map pop_operators].
  - exists [], cur. cbn. split_and!; (done || lia || idtac).
  - destruct Hfs as (Hf & Hlev & Hfs). destruct (pops op (fr_token f)) eqn:Hp.
    + destruct f as [op1 l|op1| |name args]; cbn in Hf, Hlev, Hneed, Hp.
      * destruct (IH (EBin op1 l cur)) as (fs' & cur' & E1 & E2 & E3 & E4).
        { split_and!; [done|by constructor; intuition|done]. }
        { cbn. unfold pops in Hp. destruct op, op1; cbn in *; (lia || done). }
        exists fs', cur'. cbn [fs_out fr_out fs_render fr_render fs_parens].
        rewrite E2, <- E1. cbn [postfix render]. by rewrite <- !app_assoc.
      * destruct (IH (EUn op1 cur)) as (fs' & cur' & E1 & E2 & E3 & E4).
        { split_and!; [done|by constructor|done]. }
        { cbn. unfold pops in Hp. destruct op; cbn in *; (lia || done). }
        exists fs', cur'. cbn [fs_out fr_out fs_render fr_render fs_parens fr_token].
        rewrite E2, <- E1. cbn [postfix render]. by rewrite app_nil_r, <- !app_assoc.
      * by destruct op.
      * by destruct op.
    + exists (f :: fs), cur. split_and!; try done. cbn. split_and!; try done.
      unfold pops in Hp. destruct f as [op1 l|op1| |]; destruct op; try destruct op1; cbn in *; (lia || done).
Qed.

Lemma pop_rparen_spec fs cur p ps :
  operand_ok fs cur -> fs_parens fs = p :: ps ->
  exists fs' cur',
    pop_rparen (map fr_token fs) (fs_out fs ++ postfix cur) = (map fr_token fs', fs_out fs' ++ postfix cur') /\
    fs_render fs' ++ render cur' = fs_render fs ++ render cur ++ [RParen] /\ fs_parens fs' = ps /\
    operand_ok fs' cur' /\ level cur' = 5%nat.
Proof.
  revert cur; induction fs as [|f fs IH]; intros cur (Hfs & Hcur & Hneed); cbn [fs_parens]; [done|].
  destruct Hfs as (Hf & Hlev & Hfs). pose proof (need_le fs) as Hn3.
  destruct f as [op1 l|op1| |name args]; cbn [map fr_token pop_rparen]; cbn in Hf, Hlev, Hneed.
  - intros Hps. destruct (IH (EBin op1 l cur)) as (fs' & cur' & E1 & E2 & E3 & E4); [|done|].
    { split_and!; [done|by constructor; intuition|done]. }
    exists fs', cur'. cbn [fs_out fr_out fs_render fr_render]. rewrite E2, <- E1. cbn [postfix render].
    by rewrite <- !app_assoc.
  - intros Hps. destruct (IH (EUn op1 cur)) as (fs' & cur' & E1 & E2 & E3 & E4); [|done|].
    { split_and!; [done|by constructor|done]. }
    exists fs', cur'. cbn [fs_out fr_out fs_render fr_render]. rewrite E2, <- E1. cbn [postfix render].
    by rewrite app_nil_r, <- !app_assoc.
  - intros [= <- <-]. exists fs, (EParen cur). cbn. rewrite app_nil_r, <- app_assoc.
    split_and!; try done. split_and!; [done|by constructor|cbn; lia].
  - intros [= <- <-]. exists fs, (ECall name (args ++ [cur])). rewrite render_call. cbn.
    rewrite map_app, concat_app, length_app. cbn. rewrite app_nil_r, <- !app_assoc.
    split_and!; try done. split_and!; [done| |cbn; lia]. constructor; [by destruct args|].
    apply Forall_app; split; [done|by repeat constructor].
Qed.

Lemma pop_comma_spec fs cur ps :
  operand_ok fs cur -> fs_parens fs = Call :: ps ->
  exists fs',
    pop_comma (map fr_token fs) (fs_out fs ++ postfix cur) = (map fr_token fs', fs_out fs') /\
    fs_render fs' = fs_render fs ++ render cur ++ [Comma] /\ fs_parens fs' = Call :: ps /\ fs_ok fs'.
Proof.
  revert cur; induction fs as [|f fs IH]; intros cur (Hfs & Hcur & Hneed); cbn [fs_parens]; [done|].
  destruct Hfs as (Hf & Hlev & Hfs).
  destruct f as [op1 l|op1| |name args]; cbn [map fr_token pop_comma]; cbn in Hf, Hlev, Hneed; [..|done|].
  - intros Hps. destruct (IH (EBin op1 l cur)) as (fs' & E1 & E2 & E3 & E4); [|done|].
    { split_and!; [done|by constructor; intuition|done]. }
    exists fs'. cbn [fs_out fr_out fs_render fr_render]. rewrite E2, <- E1. cbn [postfix render].
    by rewrite <- !app_assoc.
  - intros Hps. destruct (IH (EUn op1 cur)) as (fs' & E1 & E2 & E3 & E4); [|done|].
    { split_and!; [done|by constructor|done]. }
    exists fs'. cbn [fs_out fr_out fs_render fr_render]. rewrite E2, <- E1. cbn [postfix render].
    by rewrite app_nil_r, <- !app_assoc.
  - intros [= <-]. exists (FCall name (args ++ [cur]) :: fs). cbn.
    rewrite !map_app, !concat_app, length_app. cbn. rewrite !app_nil_r, <- !app_assoc. cbn.
    split_and!; try done; try lia. apply Forall_app; split; [done|by repeat constructor].
Qed.

(** The end of the input: the whole stack is popped. *)
Lemma flush_spec fs cur :
  operand_ok fs cur -> fs_parens fs = [] ->
  exists e, wf e /\ render e = fs_render fs ++ render cur /\
    postfix e = (fs_out fs ++ postfix cur) ++ map fr_token fs.
Proof.
  revert cur; induction fs as [|f fs IH]; intros cur (Hfs & Hcur & Hneed); cbn [fs_parens].
  - intros _. exists cur. cbn. by rewrite app_nil_r.
  - destruct Hfs as (Hf & Hlev & Hfs).
    destruct f as [op1 l|op1| |name args]; cbn in Hf, Hlev, Hneed; [..|done|done].
    + intros Hps. destruct (IH (EBin op1 l cur)) as (e & E1 & E2 & E3); [|done|].
      { split_and!; [done|by constructor; intuition|done]. }
      exists e. rewrite E2, E3. cbn. by rewrite <- !app_assoc.
    + intros Hps. destruct (IH (EUn op1 cur)) as (e & E1 & E2 & E3); [|done|].
      { split_and!; [done|by constructor|done]. }
      exists e. rewrite E2, E3. cbn. rewrite app_nil_r. by rewrite <- !app_assoc.
Qed.

(** ** What the tokenizer accepts *)

Definition tok_step (st : list Paren * Expect) (t : Token) : option (list Paren * Expect) :=
  let '(parens, expect) := st in
  match expect, t with
  | Operand, (Number _ | Var _) => Some (parens, Operator)
  | Operand, Unary (Plus | Minus) => Some (parens, Operand)
  | Operand, LParen => Some (Group :: parens, Operand)
  | Operand, Func _ 0 => Some (Call :: parens, Operand)
  | Operator, Binary _ => Some (parens, Operand)
  | Operator, RParen => match parens with _ :: ps => Some (ps, Operator) | [] => None end
  | Operator, Comma => match parens with Call :: _ => Some (parens, Operand) | _ => None end
  | _, _ => None
  end.
Fixpoint tok_run (st : list Paren * Expect) (ts : list Token) : option (list Paren * Expect) :=
  match ts with
  | [] => Some st
  | t :: ts => st ← tok_step st t; tok_run st ts
  end.

(** Any accepted token list is the rendering of a well-formed expression, and
    the shunting-yard pass gives that expression's notation. *)
Lemma shunting_yard_spec ts :
  (forall fs, fs_ok fs -> tok_run (fs_parens fs, Operand) ts = Some ([], Operator) ->
     exists e, wf e /\ render e = fs_render fs ++ ts /\
       (let '(stack, output) := foldl rpn_step (map fr_token fs, fs_out fs) ts in output ++ stack) = postfix e) /\
  (forall fs cur, operand_ok fs cur -> level cur = 5%nat -> tok_run (fs_parens fs, Operator) ts = Some ([], Operator) ->
     exists e, wf e /\ render e = fs_render fs ++ render cur ++ ts /\
       (let '(stack, output) := foldl rpn_step (map fr_token fs, fs_out fs ++ postfix cur) ts in output ++ stack) = postfix e).
Proof.
  induction ts as [|t ts [IHo IHr]]; split.
  - done.
  - intros fs cur Hok _ [= Hps]. destruct (flush_spec fs cur Hok Hps) as (e & E1 & E2 & E3).
    exists e. cbn. by rewrite app_nil_r, E2, E3.
  - intros fs Hok Hrun. pose proof (need_le fs) as Hn.
    destruct t as [op|op| | | |x|name|name [|n]]; try done.
    + destruct op; try done;
        [destruct (IHo (FUn Plus :: fs)) as (e & E1 & E2 & E3) | destruct (IHo (FUn Minus :: fs)) as (e & E1 & E2 & E3)];
        try done; try (cbn; unfold sign; intuition);
        exists e; cbn in E2, E3 |- *; rewrite <- app_assoc in E2; rewrite app_nil_r in E3; done.
    + destruct (IHo (FParen :: fs)) as (e & E1 & E2 & E3); try done; [cbn; split_and!; (done || lia)|].
      exists e. cbn in E2, E3 |- *. rewrite <- app_assoc in E2. by rewrite app_nil_r in E3.
    + destruct (IHr fs (ENum x)) as (e & E1 & E2 & E3); try done; [split_and!; try done; [constructor|cbn; lia]|].
      by exists e.
    + destruct (IHr fs (EVar name)) as (e & E1 & E2 & E3); try done; [split_and!; try done; [constructor|cbn; lia]|].
      by exists e.
    + destruct (IHo (FCall name [] :: fs)) as (e & E1 & E2 & E3); try done; [cbn; split_and!; (done || lia)|].
      exists e. cbn in E2, E3 |- *. rewrite <- app_assoc in E2. by rewrite app_nil_r in E3.
  - intros fs cur Hok Hlev Hrun. destruct t as [op|op| | | |x|name|name n]; try done; cbn in Hrun.
    + destruct (pop_operators_spec op fs cur Hok) as (fs' & cur' & P1 & P2 & P3 & P4).
      { rewrite Hlev. destruct op; cbn; lia. }
      destruct (IHo (FBin op cur' :: fs') P4) as (e & E1 & E2 & E3); [cbn; by rewrite P3|].
      exists e. cbn [foldl rpn_step]. rewrite P1. cbn in E2, E3. split_and!; [done| |done].
      rewrite E2. change (Binary op :: ts) with ([Binary op] ++ ts).
      rewrite (app_assoc (fs_render fs)), <- P2, <- !app_assoc. done.
    + destruct (fs_parens fs) as [|p ps] eqn:Hps; [done|].
      destruct (pop_rparen_spec fs cur p ps Hok Hps) as (fs' & cur' & P1 & P2 & P3 & P4 & P5).
      destruct (IHr fs' cur' P4 P5) as (e & E1 & E2 & E3); [by rewrite P3|].
      exists e. cbn [foldl rpn_step]. rewrite P1. split_and!; [done| |done].
      rewrite E2, app_assoc, P2, <- !app_assoc. done.
    + destruct (fs_parens fs) as [|[] ps] eqn:Hps; try done.
      destruct (pop_comma_spec fs cur ps Hok Hps) as (fs' & P1 & P2 & P3 & P4).
      destruct (IHo fs' P4) as (e & E1 & E2 & E3); [by rewrite P3|].
      exists e. cbn [foldl rpn_step]. rewrite P1. split_and!; [done| |done].
      rewrite E2, P2, <- !app_assoc. done.
Qed.

Section tokenizer_facts.
Context `{FloatLib}.

Lemma operand_token_spec s i parens t ps ex i' :
  operand_token s i parens = Ok (t, ps, ex, i') -> tok_step (parens, Operand) t = Some (ps, ex) /\ (i < i')%nat.
Proof.
  unfold operand_token. destruct (scan_number s i) as [len|] eqn:Hn.
  - destruct (parse_f64 _); [|done]. intros [= <- <- <- <-]. split; [done|].
    unfold scan_number in Hn. case_bool_decide as H0; [done|].
    set (e := if bool_decide (s !! (i + count_digits s i)%nat = Some 46) then _ else _) in Hn.
    assert (He : (i < e)%nat) by (clear Hn; unfold e; case_bool_decide; lia). clearbody e.
    repeat case_bool_decide; simplify_eq; lia.
  - destruct (scan_ident s i) as [len|] eqn:Hi.
    + assert (0 < len)%nat.
      { unfold scan_ident in Hi. destruct (s !! i); [|done]. destruct (is_alpha _ || _); [|done].
        injection Hi as <-. lia. }
      case_bool_decide; intros [= <- <- <- <-]; (split; [done|]); [|lia].
      unfold skip_space. lia.
    + destruct (s !! i) as [b|]; [|done].
      repeat case_match; intros [= <- <- <- <-]; split; (done || lia).
Qed.
Lemma operator_token_spec s i parens t ps ex i' :
  operator_token s i parens = Ok (t, ps, ex, i') -> tok_step (parens, Operator) t = Some (ps, ex) /\ (i < i')%nat.
Proof.
  unfold operator_token. destruct (binary_op _) as [op|].
  - intros [= <- <- <- <-]. split; [done|lia].
  - destruct parens as [|p parens]; [done|].
    destruct (default 0 (s !! i) =? 41); [intros [= <- <- <- <-]; split; [done|lia]|].
    destruct (default 0 (s !! i) =? 44); cbn; [|done].
    case_bool_decide as Hp; [|done]. subst. intros [= <- <- <- <-]. split; [done|lia].
Qed.

(** The loop ends, and appends an accepted run. *)
Lemma tokenize_loop_spec fuel s i parens expect tokens :
  (length s - i < fuel)%nat ->
  exists r, tokenize_loop fuel s i parens expect tokens = Some r /\
    match r with
    | Ok (tokens', parens', expect') =>
        exists ts, tokens' = tokens ++ ts /\ tok_run (parens, expect) ts = Some (parens', expect')
    | Err _ => True
    end.
Proof.
  revert i parens expect tokens; induction fuel as [|fuel IH]; intros i parens expect tokens Hf; [lia|].
  cbn [tokenize_loop]. case_bool_decide; [eexists; split; [done|]; exists []; by rewrite app_nil_r|].
  case_bool_decide as Hs; [eexists; split; [done|]; exists []; by rewrite app_nil_r|].
  assert (Hi : (i <= skip_space s i)%nat) by (unfold skip_space; lia).
  destruct (match expect with Operand => _ | Operator => _ end) as [[[[t ps] ex] i']|err] eqn:E; [|by eexists].
  assert (tok_step (parens, expect) t = Some (ps, ex) /\ (skip_space s i < i')%nat) as [Hstep Hlt].
  { destruct expect; [by eapply operand_token_spec|by eapply operator_token_spec]. }
  destruct (IH i' ps ex (tokens ++ [t])) as (r & Hr & Hspec); [lia|].
  exists r. split; [done|]. destruct r as [[[tokens' parens'] expect']|]; [|done].
  destruct Hspec as (ts & -> & Hrun). exists (t :: ts). rewrite <- app_assoc. split; [done|].
  cbn [tok_run]. by rewrite Hstep.
Qed.

Lemma tokenize_spec input :
  exists r, tokenize input = Some r /\
    match r with Ok ts => tok_run ([], Operand) ts = Some ([], Operator) | Err _ => True end.
Proof.
  unfold tokenize.
  destruct (tokenize_loop_spec (S (length (str_bytes input))) (str_bytes input) 0 [] Operand []) as (r & -> & Hr); [lia|].
  cbn. eexists. split; [done|]. destruct r as [[[tokens parens] expect]|]; [|done]. cbn.
  destruct Hr as (ts & -> & Hrun). destruct expect; [done|]. by destruct parens.
Qed.

(** ** Properties *)

(** C40: the evaluator implements the precedence grammar, on every input.
    [eval] always returns (its passes terminate); an input that is too long or
    that the tokenizer refuses is that error; any other input is the rendering
    of a well-formed expression of the grammar and evaluates to exactly its
    compositional meaning. So the tokenizer accepts only well-formed input and
    the two later passes never meet a malformed stack. *)
Theorem eval_implements_grammar (input : string) :
  exists r, eval input = Some r /\
    ((MAX_EXPRESSION_BYTES < str_len input /\ r = Err (TooLong (str_len input))) \/
     (exists err, tokenize input = Some (Err err) /\ r = Err err) \/
     (exists e, wf e /\ tokenize input = Some (Ok (render e)) /\ r = denote e)).
Proof.
  unfold eval. destruct (Z.ltb_spec MAX_EXPRESSION_BYTES (str_len input)) as [Hlen|Hlen]; [by eexists; split; [|left]|].
  destruct (tokenize_spec input) as (r & Ht & Hr). rewrite Ht. cbn.
  destruct r as [ts|err]; cbn; [|eexists; split; [done|]; right; left; eauto].
  destruct (shunting_yard_spec ts) as [Hparse _].
  destruct (Hparse [] I Hr) as (e & Hwf & Hren & Hpost). cbn in Hren, Hpost.
  eexists. split; [done|]. right; right. exists e. rewrite Hren. split_and!; [done|done|].
  unfold eval_rpn, to_rpn. rewrite Hpost, <- (app_nil_r (postfix e)), eval_postfix.
  by destruct (denote e).
Qed.

(** After tokenizing, only the user's names and argument counts can be
    wrong: an error of [eval] on an input the tokenizer accepts is an unknown
    variable, an unknown function or a wrong number of arguments, never an
    operand missing from the evaluator's stack. *)
Theorem eval_error_is_semantic (input : string) (ts : list Token) (err : CalcError) :
  str_len input <= MAX_EXPRESSION_BYTES -> tokenize input = Some (Ok ts) -> eval input = Some (Err err) ->
  semantic_error err.
Proof.
  intros Hlen Ht. unfold eval. destruct (Z.ltb_spec MAX_EXPRESSION_BYTES (str_len input)); [lia|].
  destruct (tokenize_spec input) as (r & Ht' & Hr). rewrite Ht in Ht'. injection Ht' as <-. rewrite Ht. cbn.
  destruct (shunting_yard_spec ts) as [Hparse _].
  destruct (Hparse [] I Hr) as (e & Hwf & Hren & Hpost). cbn in Hren, Hpost.
  unfold eval_rpn, to_rpn. rewrite Hpost, <- (app_nil_r (postfix e)), eval_postfix.
  destruct (denote e) as [v|err'] eqn:E; [done|]. intros [= <-]. by eapply denote_error.
Qed.
End tokenizer_facts.

(** ** Witnesses *)

Module RefFloat.
(** Only the parts the witness uses compute; a decimal digit string is an
    integer. *)
Fixpoint digits (acc : Z) (l : bytes) : option Z :=
  match l with
  | [] => Some acc
  | b :: l => if is_digit b then digits (10 * acc + (b - 48)) l else None
  end.
#[export] Instance float_lib : FloatLib := {
  parse_f64 s := int_as_f64 <$> digits 0 (str_bytes s);
  f_mul x y := f64_of_sf (SFmul f64_prec f64_emax (f64_to_sf x) (f64_to_sf y));
  f_rem x _ := x;
  f_powf x y := f64_of_sf (SFmul f64_prec f64_emax (f64_to_sf x) (f64_to_sf x));
  f_neg x := Z.lxor x (2 ^ 63);
  f_pi := 4614256656552045848;
  f_e := 4613303445314885481;
  f_unary _ x := x;
  f_atan2 y _ := y;
  f_max x y := if f64_lt x y then y else x;
  f_min x y := if f64_lt y x then y else x;
}.
End RefFloat.
Import RefFloat.

(** [-2 ^ 2] is [-(2 ^ 2)]; [1 - 2 - 3] associates to the left. *)
Example unary_minus_and_pow : eval "-2^2" = Some (Ok (int_as_f64 (-4))).
Proof. vm_compute. reflexivity. Qed.
Example left_assoc : eval "max(1-2-3, (1 + 2)*-3)" = Some (Ok (int_as_f64 (-4))).
Proof. vm_compute. reflexivity. Qed.

Lemma eval_error_is_semantic_witness : semantic_error (WrongArity "sqrt" 1).
Proof.
  destruct (tokenize "sqrt(1, 2)") as [[ts|]|] eqn:E; [|vm_compute in E; discriminate E..].
  apply (eval_error_is_semantic "sqrt(1, 2)" ts).
  - vm_compute. discriminate.
  - exact E.
  - vm_compute. reflexivity.
Defined.
