(* ===== verification/Text.v ===== *)
(** * Operations on text

    The methods of [str] the programs outside the database use: [trim],
    prefixes, [split_whitespace], [lines], ASCII case, hexadecimal digits. A
    text is its UTF-8 bytes, as in [Bytes]. *)

From S2P Require Import Prelude Bytes.
From Stdlib Require Import Ascii.

(** ** [str::trim] *)

(** The length of the white space a text begins with, [char::is_whitespace]
    in UTF-8. *)
Definition space_front (l : bytes) : nat :=
  match l with
  | b0 :: l =>
      if ((9 <=? b0) && (b0 <=? 13)) || (b0 =? 32) then 1%nat else
      match l with
      | b1 :: l =>
          if (b0 =? 194) && ((b1 =? 133) || (b1 =? 160)) then 2%nat else
          match l with
          | b2 :: _ =>
              if (b0 =? 225) && (b1 =? 154) && (b2 =? 128) then 3%nat
              else if (b0 =? 226) && (b1 =? 128) && (((128 <=? b2) && (b2 <=? 138)) || (b2 =? 168) || (b2 =? 169) || (b2 =? 175)) then 3%nat
              else if (b0 =? 226) && (b1 =? 129) && (b2 =? 159) then 3%nat
              else if (b0 =? 227) && (b1 =? 128) && (b2 =? 128) then 3%nat
              else 0%nat
          | [] => 0%nat
          end
      | [] => 0%nat
      end
  | [] => 0%nat
  end.
Fixpoint trim_front (fuel : nat) (l : bytes) : bytes :=
  match fuel with
  | O => l
  | S fuel => match space_front l with O => l | n => trim_front fuel (drop n l) end
  end.
(** The last character is among the last three bytes. *)
Definition space_back (l : bytes) : nat :=
  let ends n := Nat.eqb (space_front (drop (length l - n)%nat l)) n && (n <=? length l)%nat in
  if ends 1%nat then 1%nat else if ends 2%nat then 2%nat else if ends 3%nat then 3%nat else 0%nat.
Fixpoint trim_back (fuel : nat) (l : bytes) : bytes :=
  match fuel with
  | O => l
  | S fuel => match space_back l with O => l | n => trim_back fuel (take (length l - n)%nat l) end
  end.
Definition trim (s : string) : string :=
  let l := trim_front (String.length s) (str_bytes s) in
  bytes_str (trim_back (length l) l).

(** ** Prefixes and separators *)

(** [str::strip_prefix] and [str::starts_with] *)
Fixpoint str_strip (p s : string) : option string :=
  match p, s with
  | EmptyString, _ => Some s
  | String a p, String b s => if Ascii.eqb a b then str_strip p s else None
  | String _ _, EmptyString => None
  end.
Definition str_starts (s p : string) : bool := bool_decide (is_Some (str_strip p s)).

(** [find(p).map(|i| &s[i..])] *)
Fixpoint str_from (p s : string) : option string :=
  if str_starts s p then Some s else
  match s with
  | EmptyString => None
  | String _ s => str_from p s
  end.

(** [str::replace] of a non-empty pattern by the empty text. *)
Fixpoint str_remove (fuel : nat) (p s : string) : string :=
  match fuel, s with
  | S fuel, String a s' =>
      match str_strip p s with
      | Some rest => str_remove fuel p rest
      | None => String a (str_remove fuel p s')
      end
  | _, _ => s
  end.

(** [str::split_whitespace]: the maximal runs without white space. *)
Fixpoint words (fuel : nat) (l : bytes) (word : bytes) : list string :=
  let flush := match word with [] => [] | _ => [bytes_str word] end in
  match fuel with
  | O => flush
  | S fuel =>
      match l with
      | [] => flush
      | b :: l' =>
          match space_front l with
          | O => words fuel l' (word ++ [b])
          | n => flush ++ words fuel (drop n l) []
          end
      end
  end.
Definition split_whitespace (s : string) : list string := words (S (String.length s)) (str_bytes s) [].

(** [lines().next().unwrap_or("")]: up to the first line feed, without a
    carriage return before it. *)
Fixpoint before (c : ascii) (s : string) : string * bool :=
  match s with
  | EmptyString => (EmptyString, false)
  | String a s => if Ascii.eqb a c then (EmptyString, true) else let '(x, hit) := before c s in (String a x, hit)
  end.
Fixpoint drop_cr (s : string) : string :=
  match s with
  | EmptyString => EmptyString
  | String a EmptyString => if Ascii.eqb a (ascii_of 13) then EmptyString else s
  | String a s => String a (drop_cr s)
  end.
Definition first_line (s : string) : string :=
  let '(line, fed) := before (ascii_of 10) s in if fed then drop_cr line else line.

(** [eq_ignore_ascii_case] *)
Definition ascii_lower (b : Z) : Z := if (65 <=? b) && (b <=? 90) then b + 32 else b.
Definition eq_ignore_ascii_case (a b : string) : bool :=
  bool_decide (ascii_lower <$> str_bytes a = ascii_lower <$> str_bytes b).

(** [to_ascii_lowercase] and [to_ascii_uppercase] *)
Definition ascii_lowercase (s : string) : string := bytes_str (ascii_lower <$> str_bytes s).
Definition ascii_upper (b : Z) : Z := if (97 <=? b) && (b <=? 122) then b - 32 else b.
Definition ascii_uppercase (s : string) : string := bytes_str (ascii_upper <$> str_bytes s).
(** [str::ends_with] *)
Definition str_ends (s p : string) : bool := starts_with (reverse (str_bytes s)) (reverse (str_bytes p)).

(** [format!("{b:02x}")] over bytes. *)
Definition hex_digit (v : Z) : Z := if v <? 10 then 48 + v else 87 + v.
Definition hex_pair (b : Z) : bytes := [hex_digit (b `div` 16); hex_digit (b `mod` 16)].
Definition hex_of (l : bytes) : string := bytes_str (l ≫= hex_pair).

(** [str::parse::<u16>]: an optional plus sign, then digits that fit. *)
Definition parse_digits (l : bytes) : option Z :=
  match l with
  | [] => None
  | _ => foldl (fun acc b => acc ← acc; if (48 <=? b) && (b <=? 57) && (acc * 10 + (b - 48) <? 2 ^ 16) then Some (acc * 10 + (b - 48)) else None)
           (Some 0) l
  end.
Definition parse_u16 (s : string) : option Z :=
  match str_bytes s with
  | 43 :: l => parse_digits l
  | l => parse_digits l
  end.

(** ** Facts *)

Lemma str_cons_app a s t : String a s +:+ t = String a (s +:+ t).
Proof. done. Qed.
Lemma str_nil_app t : EmptyString +:+ t = t.
Proof. done. Qed.
Lemma str_app_nil_r s : s +:+ EmptyString = s.
Proof. induction s as [|a s IH]; [done|]. by rewrite str_cons_app, IH. Qed.
Lemma str_app_assoc a b c : (a +:+ b) +:+ c = a +:+ (b +:+ c).
Proof. induction a as [|x a IH]; [done|]. by rewrite !str_cons_app, IH. Qed.
Lemma str_bytes_length s : length (str_bytes s) = String.length s.
Proof. induction s as [|a s IH]; [done|]. simpl. by rewrite IH. Qed.

Lemma str_strip_spec p s r : str_strip p s = Some r <-> s = p +:+ r.
Proof.
  revert s. induction p as [|a p IH]; intros s; simpl; [rewrite str_nil_app; naive_solver|].
  rewrite str_cons_app. destruct s as [|b s]; [done|]. destruct (Ascii.eqb_spec a b) as [->|]; [rewrite IH|]; naive_solver.
Qed.
Lemma str_starts_spec s p : str_starts s p = true <-> exists r, s = p +:+ r.
Proof.
  unfold str_starts. rewrite bool_decide_eq_true. unfold is_Some. by setoid_rewrite str_strip_spec.
Qed.
Lemma str_strip_app p r : str_strip p (p +:+ r) = Some r.
Proof. by apply str_strip_spec. Qed.

(** A text that begins with no white space is its [trim] and more. *)
Lemma trim_back_prefix fuel l : exists k, trim_back fuel l = take k l.
Proof.
  revert l. induction fuel as [|fuel IH]; intros l; simpl.
  - exists (length l). by rewrite firstn_all.
  - destruct (space_back l) as [|n]; [exists (length l); by rewrite firstn_all|].
    destruct (IH (take (length l - S n)%nat l)) as [k ->]. exists (k `min` (length l - S n))%nat. by rewrite take_take.
Qed.
Lemma trim_prefix s : space_front (str_bytes s) = O -> exists t, s = trim s +:+ t.
Proof.
  intros Hs. unfold trim.
  assert (Hf : trim_front (String.length s) (str_bytes s) = str_bytes s).
  { destruct (String.length s); simpl; [done|]. by rewrite Hs. }
  rewrite Hf. destruct (trim_back_prefix (length (str_bytes s)) (str_bytes s)) as [k ->].
  exists (bytes_str (drop k (str_bytes s))). apply str_bytes_inj.
  pose proof (str_bytes_range s) as Hr.
  rewrite str_bytes_app, !str_bytes_bytes_str by (first [by apply Forall_take|by apply Forall_drop]). by rewrite take_drop.
Qed.

(** ** Splitting and joining *)

(** [str::split] on one byte against [join]: the parts hold no separator, and
    joined again they give the text. *)
Fixpoint has_char (c : ascii) (s : string) : bool :=
  match s with
  | EmptyString => false
  | String a s => Ascii.eqb a c || has_char c s
  end.
Definition sep (c : ascii) : string := String c EmptyString.

Lemma split_on_not_nil c s : split_on c s <> [].
Proof. induction s as [|a s IH]; simpl; [done|]. destruct (Ascii.eqb a c); [done|]. by destruct (split_on c s). Qed.
Lemma split_on_parts c s : Forall (fun x => has_char c x = false) (split_on c s).
Proof.
  induction s as [|a s IH]; simpl; [by repeat constructor|].
  destruct (Ascii.eqb a c) eqn:E; [by constructor|].
  destruct (split_on c s) as [|x l]; [by repeat constructor; simpl; rewrite E|].
  inv IH. constructor; [|done]. simpl. by rewrite E.
Qed.
Lemma split_on_join c s : String.concat (sep c) (split_on c s) = s.
Proof.
  induction s as [|a s IH]; [done|]. cbn [split_on].
  destruct (Ascii.eqb_spec a c) as [->|].
  - pose proof (split_on_not_nil c s). destruct (split_on c s) as [|x l] eqn:E; [done|]. change (sep c +:+ String.concat (sep c) (x :: l) = String c s). by rewrite IH.
  - pose proof (split_on_not_nil c s). destruct (split_on c s) as [|x [|y l]] eqn:E; [done| |]; simpl in *; by rewrite <-IH.
Qed.
Lemma split_on_plain c x : has_char c x = false -> split_on c x = [x].
Proof.
  induction x as [|a x IH]; simpl; [done|]. intros [Ha Hx]%orb_false_iff. by rewrite Ha, IH.
Qed.
Lemma split_on_app c x s : has_char c x = false -> split_on c (x +:+ String c s) = x :: split_on c s.
Proof.
  induction x as [|a x IH]; simpl; [by rewrite Ascii.eqb_refl|]. intros [Ha Hx]%orb_false_iff. by rewrite Ha, IH.
Qed.
Lemma join_split c l : l <> [] -> Forall (fun x => has_char c x = false) l ->
  split_on c (String.concat (sep c) l) = l.
Proof.
  induction l as [|x l IH]; [done|]. intros _ Hl. inv Hl.
  destruct l as [|y l]; [by apply split_on_plain|].
  change (split_on c (x +:+ String c (String.concat (sep c) (y :: l))) = x :: y :: l).
  rewrite split_on_app by done. by rewrite IH.
Qed.

(** ** Hexadecimal *)

Definition is_hex (b : Z) : Prop := 48 <= b <= 57 \/ 97 <= b <= 102.
Lemma hex_pair_spec b : 0 <= b < 256 -> Forall is_hex (hex_pair b).
Proof.
  intros Hb. assert (Hd : forall v, 0 <= v < 16 -> is_hex (hex_digit v)).
  { intros v Hv. unfold hex_digit, is_hex. case_match; lia. }
  pose proof (Z.mod_pos_bound b 16). pose proof (Z.div_lt_upper_bound b 16 16). pose proof (Z.div_pos b 16).
  apply Forall_cons. split; [apply Hd; lia|]. apply Forall_singleton, Hd. lia.
Qed.
Lemma hex_of_bytes l : Forall (fun b => 0 <= b < 256) l ->
  Forall is_hex (str_bytes (hex_of l)) /\ str_len (hex_of l) = 2 * lenZ l.
Proof.
  intros Hl. assert (Hh : Forall is_hex (l ≫= hex_pair)).
  { induction Hl as [|b l Hb _ IH]; [constructor|]. change ((b :: l) ≫= hex_pair) with (hex_pair b ++ (l ≫= hex_pair)).
    apply Forall_app. split; [by apply hex_pair_spec|done]. }
  unfold str_len, hex_of. rewrite str_bytes_bytes_str.
  - split; [done|]. clear. unfold lenZ. induction l as [|b l IH]; [done|].
    change ((b :: l) ≫= hex_pair) with (hex_pair b ++ (l ≫= hex_pair)). rewrite length_app. cbn [length hex_pair]. lia.
  - eapply Forall_impl; [exact Hh|]. unfold is_hex. simpl. lia.
Qed.

(** ** Text without white space *)

Definition plain_byte (b : Z) : Prop := 33 <= b < 127.
Definition plain_text (s : string) : bool := forallb (fun b => (33 <=? b) && (b <? 127)) (str_bytes s).
Lemma plain_text_spec s : plain_text s = true -> Forall plain_byte (str_bytes s).
Proof.
  unfold plain_text. rewrite forallb_forall, Forall_forall. intros H b Hb%list_elem_of_In. specialize (H b Hb). unfold plain_byte. lia.
Qed.
Lemma space_front_plain l : Forall plain_byte l -> space_front l = O.
Proof.
  intros Hl. destruct l as [|b l]; [done|]. apply Forall_cons in Hl as [Hb _]. unfold plain_byte in Hb. unfold space_front.
  replace ((9 <=? b) && (b <=? 13) || (b =? 32)) with false by lia.
  destruct l as [|c l]; [done|]. replace (b =? 194) with false by lia.
  destruct l as [|d l]; [done|].
  by replace (b =? 225) with false by lia; replace (b =? 226) with false by lia; replace (b =? 227) with false by lia.
Qed.
Lemma space_back_plain l : Forall plain_byte l -> space_back l = O.
Proof. intros Hl. unfold space_back. by rewrite !space_front_plain by (by apply Forall_drop). Qed.
Lemma trim_plain s : Forall plain_byte (str_bytes s) -> trim s = s.
Proof.
  intros Hl. unfold trim.
  assert (Hf : forall n, trim_front n (str_bytes s) = str_bytes s) by (intros [|n]; simpl; by rewrite ?space_front_plain).
  assert (Hb : forall n, trim_back n (str_bytes s) = str_bytes s) by (intros [|n]; simpl; by rewrite ?space_back_plain).
  by rewrite Hf, Hb, bytes_str_str_bytes.
Qed.
Lemma str_has_app c a b : has_char c (a +:+ b) = has_char c a || has_char c b.
Proof. induction a as [|x a IH]; [done|]. rewrite str_cons_app. simpl. by rewrite IH, orb_assoc. Qed.
Lemma has_char_bytes c s : Forall (fun b => b <> byte_of c) (str_bytes s) -> has_char c s = false.
Proof.
  induction s as [|x s IH]; simpl; [done|]. intros [Hx Hs]%Forall_cons. rewrite (IH Hs), orb_false_r.
  apply Ascii.eqb_neq. by intros ->.
Qed.

#[global] Arguments str_strip : simpl never.
