(* ===== verification/Paths.v ===== *)
(** * Paths and the file system under the tools

    [std::path] as the file tools use it, and the part of a Unix file system
    they rely on: directories, files and symbolic links by their real path,
    the kernel's walk of a path, and the calls built on it. Permissions, hard
    links and full disks are left out; paths are absolute. *)

From S2P Require Import Prelude Bytes.
From Stdlib Require Import Ascii.

(** ** [std::path] *)

Inductive component := RootDir | CurDir | ParentDir | Normal (name : string).
#[export] Instance component_eq_dec : EqDecision component.
Proof. solve_decision. Defined.

Definition slash_char : ascii := "/"%char.
Definition has_root (s : string) : bool := match s with String "/"%char _ => true | _ => false end.
(** Empty segments and [.] are skipped. *)
Definition segment (s : string) : option component :=
  if bool_decide (s = EmptyString) then None
  else if bool_decide (s = ".") then None
  else if bool_decide (s = "..") then Some ParentDir
  else Some (Normal s).
Definition components (s : string) : list component :=
  let segs := split_on slash_char s in
  (if has_root s then [RootDir] else match segs with seg :: _ => if bool_decide (seg = ".") then [CurDir] else [] | [] => [] end)
    ++ omap segment segs.
(** A text that ends in [/] or [/.] asks the kernel for a directory. *)
Definition trailing (s : string) : bool :=
  match last (split_on slash_char s) with
  | Some seg => bool_decide (seg = EmptyString) || bool_decide (seg = ".")
  | None => false
  end.

(** A [Path]: its components, and how its text ends. *)
Record path := { comps : list component; slash : bool }.
Definition path_of (s : string) : path := {| comps := components s; slash := trailing s |}.
Definition abs_path (names : list string) : path := {| comps := RootDir :: (Normal <$> names); slash := false |}.

(** [Path::starts_with], [strip_prefix], [parent], [file_name], [join]. *)
Fixpoint strip_comps (cs pre : list component) {struct pre} : option (list component) :=
  match pre, cs with
  | [], _ => Some cs
  | p :: pre, c :: cs => if bool_decide (c = p) then strip_comps cs pre else None
  | _ :: _, [] => None
  end.
Definition path_starts_with (p q : path) : bool := bool_decide (is_Some (strip_comps (comps p) (comps q))).
Definition strip_prefix (p q : path) : option (list component) := strip_comps (comps p) (comps q).
Definition path_parent (p : path) : option path :=
  match last (comps p) with
  | None | Some RootDir => None
  | Some _ => Some {| comps := removelast (comps p); slash := false |}
  end.
Definition file_name (p : path) : option string :=
  match last (comps p) with Some (Normal n) => Some n | _ => None end.
Definition path_join (p : path) (rest : list component) : path := {| comps := comps p ++ rest; slash := false |}.

(** ** Files, directories, links *)

Inductive entry := EDir | EFile (content : bytes) | ELink (target : string).
#[export] Instance entry_eq_dec : EqDecision entry.
Proof. solve_decision. Defined.
(** By real path; the root directory is the empty one. *)
Abbreviation fs_t := (gmap (list string) entry).
Inductive errno := ENOENT | ENOTDIR | ELOOP | EEXIST | EISDIR | ENOTEMPTY | EINVAL.

Definition is_dir_at (f : fs_t) (n : list string) : bool := bool_decide (f !! n = Some EDir).

(** What the walk of a path finds: an entry, a free name in a directory, or
    an error. *)
Inductive walked := Found (n : list string) | Missing (d : list string) (n : string) | Failed (e : errno).
Definition MAXSYMLINKS : nat := 40.
Fixpoint walk (links : nat) (f : fs_t) (follow : bool) : list string -> list component -> walked :=
  fix go cur cs :=
    match cs with
    | [] => Found cur
    | RootDir :: cs => go [] cs
    | CurDir :: cs => go cur cs
    | ParentDir :: cs => if is_dir_at f cur then go (removelast cur) cs else Failed ENOTDIR
    | Normal n :: cs =>
        if is_dir_at f cur then
          let next := cur ++ [n] in
          match f !! next with
          | None => match cs with [] => Missing cur n | _ => Failed ENOENT end
          | Some (ELink t) =>
              if follow || match cs with [] => false | _ => true end then
                match links with
                | O => Failed ELOOP
                | S links => walk links f follow cur (components t ++ cs)
                end
              else Found next
          | Some _ => go next cs
          end
        else Failed ENOTDIR
    end.
Definition resolve (f : fs_t) (follow : bool) (p : path) : walked :=
  match walk MAXSYMLINKS f (follow || slash p) [] (comps p) with
  | Found n => if slash p && negb (is_dir_at f n) then Failed ENOTDIR else Found n
  | w => w
  end.

(** [canonicalize], [symlink_metadata(..).is_ok()], [Path::exists],
    [Path::is_dir]. *)
Definition canonicalize (f : fs_t) (p : path) : result errno (list string) :=
  match resolve f true p with Found n => Ok n | Missing _ _ => Err ENOENT | Failed e => Err e end.
Definition lexists (f : fs_t) (p : path) : bool := match resolve f false p with Found _ => true | _ => false end.
Definition exists_at (f : fs_t) (p : path) : bool := match resolve f true p with Found _ => true | _ => false end.
Definition path_is_dir (f : fs_t) (p : path) : bool := match resolve f true p with Found n => is_dir_at f n | _ => false end.

(** ** Calls that change the tree *)

Definition mkdir (f : fs_t) (p : path) : result errno fs_t :=
  match resolve f false p with
  | Missing d n => Ok (<[d ++ [n] := EDir]> f)
  | Found _ => Err EEXIST
  | Failed e => Err e
  end.
(** [fs::create_dir_all]: [mkdir], or the parents first. *)
Fixpoint create_dir_all_fuel (fuel : nat) (f : fs_t) (p : path) : result errno unit * fs_t :=
  match mkdir f p with
  | Ok f => (Ok tt, f)
  | Err ENOENT =>
      match fuel, path_parent p with
      | S fuel, Some parent =>
          match create_dir_all_fuel fuel f parent with
          | (Ok _, f) =>
              match mkdir f p with
              | Ok f => (Ok tt, f)
              | Err e => (if path_is_dir f p then Ok tt else Err e, f)
              end
          | (Err e, f) => (Err e, f)
          end
      | _, _ => (Err ENOENT, f)
      end
  | Err e => (if path_is_dir f p then Ok tt else Err e, f)
  end.
Definition create_dir_all (f : fs_t) (p : path) : result errno unit * fs_t := create_dir_all_fuel (length (comps p)) f p.

(** [open] with [O_CREAT]: through a link to where it leads, also a free name. *)
Definition open_create (f : fs_t) (p : path) (write : bytes -> bytes) : result errno fs_t :=
  match resolve f true p with
  | Found n => match f !! n with
               | Some (EFile content) => Ok (<[n := EFile (write content)]> f)
               | _ => Err EISDIR
               end
  | Missing d n => if slash p then Err EISDIR else Ok (<[d ++ [n] := EFile (write [])]> f)
  | Failed e => Err e
  end.
Definition symlink (f : fs_t) (target : string) (p : path) : result errno fs_t :=
  match resolve f false p with
  | Missing d n => if slash p then Err ENOENT else Ok (<[d ++ [n] := ELink target]> f)
  | Found _ => Err EEXIST
  | Failed e => Err e
  end.
Definition unlink (f : fs_t) (p : path) : result errno fs_t :=
  match resolve f false p with
  | Found n => if is_dir_at f n then Err EISDIR else Ok (delete n f)
  | Missing _ _ => Err ENOENT
  | Failed e => Err e
  end.
(** The entries of a tree, by their path below it. *)
Definition below (d n : list string) : option (list string) :=
  if bool_decide (take (length d) n = d) then Some (drop (length d) n) else None.
Definition is_below (d n : list string) : bool := bool_decide (take (length d) n = d).
Definition remove_tree (f : fs_t) (d : list string) : fs_t := filter (fun kv => is_below d kv.1 = false) f.
Definition has_children (f : fs_t) (d : list string) : bool :=
  existsb (fun kv => is_below d kv.1 && negb (bool_decide (kv.1 = d))) (map_to_list f).
Definition rmdir (f : fs_t) (p : path) : result errno fs_t :=
  match resolve f false p with
  | Found [] => Err EINVAL
  | Found n => if negb (is_dir_at f n) then Err ENOTDIR else if has_children f n then Err ENOTEMPTY else Ok (delete n f)
  | Missing _ _ => Err ENOENT
  | Failed e => Err e
  end.
Definition remove_dir_all (f : fs_t) (p : path) : result errno fs_t :=
  match resolve f false p with
  | Found [] => Err EINVAL
  | Found n => if is_dir_at f n then Ok (remove_tree f n) else Err ENOTDIR
  | Missing _ _ => Err ENOENT
  | Failed e => Err e
  end.
(** [rename]: the tree at [s] becomes the tree at [d]. *)
Definition move_tree (f : fs_t) (s d : list string) : fs_t :=
  list_to_map (omap (fun kv => rest ← below s kv.1; Some (d ++ rest, kv.2)) (map_to_list f)) ∪ remove_tree (remove_tree f d) s.
Definition rename (f : fs_t) (src dst : path) : result errno fs_t :=
  match resolve f false src with
  | Found [] => Err EINVAL
  | Found s =>
      let target := match resolve f false dst with
        | Missing d n => Ok (d ++ [n])
        | Found [] => Err EINVAL
        | Found d =>
            if bool_decide (s = d) then Ok d
            else if is_dir_at f s then
              if negb (is_dir_at f d) then Err ENOTDIR else if has_children f d then Err ENOTEMPTY else Ok d
            else if is_dir_at f d then Err EISDIR else Ok d
        | Failed e => Err e
        end in
      let? d := target in
      if bool_decide (s = d) then Ok f
      else if is_below s d then Err EINVAL
      else Ok (move_tree f s d)
  | Missing _ _ => Err ENOENT
  | Failed e => Err e
  end.

(** ** What a walk finds *)

Record fs_wf (f : fs_t) : Prop := {
  wf_root : f !! [] = Some EDir;
  wf_parent : forall d n e, f !! (d ++ [n]) = Some e -> f !! d = Some EDir;
}.
Definition no_link (f : fs_t) (n : list string) : Prop := forall t, f !! n <> Some (ELink t).
(** An entry reached through directories only. *)
Definition real_entry (f : fs_t) (n : list string) : Prop := is_Some (f !! n) /\ no_link f n.

Definition wf_check (f : fs_t) : bool :=
  is_dir_at f [] && forallb (fun kv => bool_decide (kv.1 = []) || is_dir_at f (removelast kv.1)) (map_to_list f).
Lemma is_dir_at_spec f n : is_dir_at f n = true <-> f !! n = Some EDir.
Proof. apply bool_decide_eq_true. Qed.
Lemma dir_real f n : f !! n = Some EDir -> real_entry f n.
Proof. intros E. split; [by eexists|]. intros t. congruence. Qed.
Lemma removelast_app {A} (l : list A) x : removelast (l ++ [x]) = l.
Proof. apply removelast_last. Qed.
Lemma snoc_cases {A} (l : list A) : l = [] \/ exists l' x, l = l' ++ [x].
Proof. destruct l as [|y l] using rev_ind; [by left|right; eauto]. Qed.
Lemma wf_up f n : fs_wf f -> is_Some (f !! n) -> f !! removelast n = Some EDir \/ n = [].
Proof.
  intros Hwf [e He]. destruct (snoc_cases n) as [->|(d & x & ->)]; [by right|left].
  rewrite removelast_app. by apply (wf_parent f Hwf d x e).
Qed.
Lemma wf_above f d rest : fs_wf f -> rest <> [] -> is_Some (f !! (d ++ rest)) -> f !! d = Some EDir.
Proof.
  intros Hwf. induction rest as [|x rest IH] using rev_ind; [done|]. intros _ [e He]. rewrite app_assoc in He.
  apply (wf_parent f Hwf) in He. destruct (snoc_cases rest) as [->|(r & y & ->)]; [by rewrite app_nil_r in He|].
  apply IH; [by destruct r|by eexists].
Qed.

Lemma wf_check_sound f : wf_check f = true -> fs_wf f.
Proof.
  intros [Hr Hall]%andb_prop. split; [by apply is_dir_at_spec|]. intros d n e He. rewrite forallb_forall in Hall.
  specialize (Hall (d ++ [n], e) ltac:(by apply list_elem_of_In, elem_of_map_to_list)). cbn [fst] in Hall.
  rewrite bool_decide_false in Hall by by destruct d. cbn [orb] in Hall. apply is_dir_at_spec in Hall. by rewrite removelast_app in Hall.
Qed.

Section walks.
Context (f : fs_t) (Hwf : fs_wf f).

Lemma walk_outcome links follow cur cs : real_entry f cur ->
  match walk links f follow cur cs with
  | Found n => is_Some (f !! n) /\ (follow = true -> no_link f n)
  | Missing d n => f !! d = Some EDir /\ f !! (d ++ [n]) = None
  | Failed _ => True
  end.
Proof.
  revert cur cs; induction links as [|links IHl]; intros cur cs; revert cur; induction cs as [|c cs IH]; intros cur Hcur.
  1, 3: by split; [apply Hcur|intros _; apply Hcur].
  all: destruct c as [| | |n]; cbn; [by apply IH, dir_real, Hwf|by apply IH| |].
  1, 3: destruct (is_dir_at f cur) eqn:E; [|done]; apply IH; destruct (wf_up f cur Hwf (proj1 Hcur)) as [Hd| ->];
    [by apply dir_real|by apply dir_real, Hwf].
  all: destruct (is_dir_at f cur) eqn:E; [|done]; apply is_dir_at_spec in E;
    destruct (f !! (cur ++ [n])) as [[|content|t]|] eqn:En; [by apply IH, dir_real| |..|by destruct cs].
  1, 3: apply IH; split; [by eexists|intros t; congruence].
  - destruct cs; cbn; [|by rewrite orb_true_r]. rewrite orb_false_r. destruct follow; [done|]. by split; [eexists|].
  - destruct cs as [|c cs]; [rewrite orb_false_r|rewrite orb_true_r; by apply IHl].
    destruct follow; [by apply IHl|]. by split; [eexists|].
Qed.
(** A followed walk that arrives goes on from where it arrived. *)
Lemma walk_app links cur cs a rest follow : walk links f true cur cs = Found a -> rest <> [] ->
  exists links', walk links f follow cur (cs ++ rest) = walk links' f follow a rest.
Proof.
  intros Hw Hne. revert cur cs Hw; induction links as [|links IHl]; intros cur cs; revert cur; induction cs as [|c cs IH]; intros cur; cbn.
  1: intros [= <-]; by exists O.
  2: intros [= <-]; by exists (S links).
  all: destruct c as [| | |n]; cbn; [apply IH|apply IH| |].
  1, 3: destruct (is_dir_at f cur); [apply IH|done].
  all: destruct (is_dir_at f cur); [|done]; destruct (f !! (cur ++ [n])) as [[|content|t]|]; try apply IH; try by destruct cs.
  intros Hw. apply IHl in Hw as [links' Hw]. exists links'. rewrite <- Hw, app_assoc.
  replace (follow || match cs ++ rest with [] => false | _ => true end) with true; [done|].
  destruct cs, rest; try done; cbn; by rewrite orb_true_r.
Qed.
(** Where no prefix is a link, a walk stays on the names it is given; a last
    link is not followed unless asked. *)
Lemma walk_names links follow cur names :
  (forall l, l <> [] -> l `prefix_of` names -> follow = true \/ l <> names -> no_link f (cur ++ l)) ->
  match walk links f follow cur (Normal <$> names) with
  | Found n => n = cur ++ names
  | Missing d n => d ++ [n] = cur ++ names
  | Failed _ => True
  end.
Proof.
  revert cur; induction names as [|n names IH]; intros cur Hn.
  - rewrite app_nil_r. by destruct links.
  - assert (Hhere : follow = true \/ names <> [] -> no_link f (cur ++ [n])).
    { intros Hor. apply Hn; [done|by exists names|]. destruct Hor; [by left|right; congruence]. }
    assert (Hrest : match walk links f follow (cur ++ [n]) (Normal <$> names) with
      | Found m => m = (cur ++ [n]) ++ names | Missing d m => d ++ [m] = (cur ++ [n]) ++ names | Failed _ => True end).
    { apply IH. intros l Hl [k ->] Hor. rewrite <- app_assoc. apply Hn; [done|by exists k|].
      destruct Hor as [|Hne]; [by left|right]. intros [= E]. by apply Hne. }
    rewrite <- app_assoc in Hrest. cbn [app] in Hrest. cbn [fmap list_fmap].
    destruct (f !! (cur ++ [n])) as [[|content|t]|] eqn:E; [| |assert (follow = false /\ names = []) as [-> ->]|].
    3: { destruct follow; [destruct (Hhere (or_introl eq_refl) t E)|].
         destruct names as [|n' names]; [done|]. assert (Hne : n' :: names <> []) by done. by destruct (Hhere (or_intror Hne) t E). }
    3: destruct links; cbn; (destruct (is_dir_at f cur); [|done]); by rewrite E.
    1, 2: destruct links; cbn; (destruct (is_dir_at f cur); [|done]); rewrite E; exact Hrest.
    destruct links; cbn; (destruct (is_dir_at f cur); [|done]); rewrite E; by destruct names.
Qed.
End walks.

(** A path whose names are no links, however far they exist; or whose last
    name may be one that is not followed. *)
Definition clear_path (f : fs_t) (n : list string) : Prop := forall l, l `prefix_of` n -> no_link f l.
Definition clear_above (f : fs_t) (n : list string) : Prop := forall l, l `prefix_of` n -> l <> n -> no_link f l.
Lemma clear_is_above f n : clear_path f n -> clear_above f n.
Proof. intros Hc l Hl _. by apply Hc. Qed.
Lemma clear_prefix f n l : clear_path f n -> l `prefix_of` n -> clear_path f l.
Proof. intros Hc Hl k Hk. apply Hc. by trans l. Qed.
Lemma resolve_clear f (follow : bool) n : fs_wf f -> (if follow then clear_path f n else clear_above f n) ->
  match resolve f follow (abs_path n) with
  | Found m => m = n /\ is_Some (f !! n)
  | Missing d x => n = d ++ [x] /\ f !! d = Some EDir /\ f !! n = None
  | Failed _ => True
  end.
Proof.
  intros Hwf Hc. unfold resolve. cbn [abs_path slash comps]. rewrite orb_false_r.
  assert (E : forall links, walk links f follow [] (RootDir :: (Normal <$> n)) = walk links f follow [] (Normal <$> n)) by (by intros [|links]).
  rewrite E. pose proof (walk_names f MAXSYMLINKS follow [] n) as Hn. pose proof (walk_outcome f Hwf MAXSYMLINKS follow [] (Normal <$> n)) as Ho.
  cbn [app] in Hn. specialize (Ho (dir_real _ _ (wf_root f Hwf))).
  assert (Hl : forall l, l <> [] -> l `prefix_of` n -> follow = true \/ l <> n -> no_link f l).
  { intros l _ Hl Hor. destruct follow; [by apply Hc|destruct Hor; [done|by apply Hc]]. }
  specialize (Hn Hl).
  destruct (walk _ _ _ _ _) as [m|d x|e]; [|subst; cbn in *; naive_solver|done].
  cbn. subst. naive_solver.
Qed.
(** And it does arrive: on what is there, or on a free name in a directory. *)
Lemma walk_dir links f follow cur n cs : f !! cur = Some EDir -> f !! (cur ++ [n]) = Some EDir ->
  walk links f follow cur (Normal n :: cs) = walk links f follow (cur ++ [n]) cs.
Proof. intros Hc Hn. apply is_dir_at_spec in Hc. destruct links; cbn; by rewrite Hc, Hn. Qed.
Lemma walk_dirs links f follow cur d cs : fs_wf f -> f !! cur = Some EDir -> f !! (cur ++ d) = Some EDir ->
  walk links f follow cur ((Normal <$> d) ++ cs) = walk links f follow (cur ++ d) cs.
Proof.
  intros Hwf. revert cur; induction d as [|x d IH]; intros cur Hc Hd; [by rewrite app_nil_r|]. cbn [fmap list_fmap app].
  assert (Hx : f !! (cur ++ [x]) = Some EDir).
  { destruct d as [|y d]; [done|]. apply (wf_above f (cur ++ [x]) (y :: d)); [done|done|]. rewrite <- app_assoc. by eexists. }
  rewrite walk_dir by done. rewrite IH by (try done; by rewrite <- app_assoc). by rewrite <- app_assoc.
Qed.
Lemma resolve_dir f follow n : fs_wf f -> f !! n = Some EDir -> resolve f follow (abs_path n) = Found n.
Proof.
  intros Hwf Hn. unfold resolve, abs_path. cbn [comps slash]. rewrite orb_false_r.
  assert (E : walk MAXSYMLINKS f follow [] (RootDir :: (Normal <$> n)) = walk MAXSYMLINKS f follow [] ((Normal <$> n) ++ [])) by (by rewrite app_nil_r).
  rewrite E, walk_dirs by (try done; apply Hwf). done.
Qed.
Lemma resolve_last f follow d x : fs_wf f -> f !! d = Some EDir -> (follow = true -> no_link f (d ++ [x])) ->
  resolve f follow (abs_path (d ++ [x])) = match f !! (d ++ [x]) with Some _ => Found (d ++ [x]) | None => Missing d x end.
Proof.
  intros Hwf Hd Hx. unfold resolve, abs_path. cbn [comps slash]. rewrite orb_false_r, fmap_app.
  assert (E : walk MAXSYMLINKS f follow [] (RootDir :: ((Normal <$> d) ++ (Normal <$> [x]))) = walk MAXSYMLINKS f follow [] ((Normal <$> d) ++ [Normal x])) by done.
  rewrite E, walk_dirs by (try done; apply Hwf). cbn [app]. apply is_dir_at_spec in Hd. unfold MAXSYMLINKS. cbn. rewrite Hd.
  destruct (f !! (d ++ [x])) as [[|c|k]|] eqn:Ex; try done. destruct follow; [|done]. exfalso. exact (Hx eq_refl k Ex).
Qed.
(** The names a canonical path has. *)
Lemma real_clear f n : fs_wf f -> real_entry f n -> clear_path f n.
Proof.
  intros Hwf [He Hn] l [k ->]. destruct k as [|x k]; [by rewrite app_nil_r in Hn|].
  intros t Ht. pose proof (wf_above f l (x :: k) Hwf) as Hd. rewrite Hd in Ht by done. done.
Qed.
Lemma canonicalize_real f p n : fs_wf f -> canonicalize f p = Ok n -> real_entry f n.
Proof.
  intros Hwf. unfold canonicalize, resolve. cbn [orb].
  pose proof (walk_outcome f Hwf MAXSYMLINKS true [] (comps p) (dir_real _ _ (wf_root f Hwf))) as Ho.
  destruct (walk _ _ _ _ _) as [m|d x|e]; [|done|done]. destruct (_ && _); [done|]. intros [= <-]. split; naive_solver.
Qed.

(** ** What the calls change *)

Definition changes_only (P : list string -> Prop) (f f' : fs_t) : Prop := forall n, ~ P n -> f' !! n = f !! n.
Lemma changes_refl P f : changes_only P f f.
Proof. done. Qed.
Lemma changes_trans P f f' f'' : changes_only P f f' -> changes_only P f' f'' -> changes_only P f f''.
Proof. intros H H' n Hn. by rewrite H', H. Qed.
Lemma changes_weaken (P Q : list string -> Prop) f f' : changes_only P f f' -> (forall n, P n -> Q n) -> changes_only Q f f'.
Proof. intros H Hpq n Hn. apply H. auto. Qed.
Lemma insert_changes f n e : changes_only (fun m => m = n) f (<[n := e]> f).
Proof. intros m Hm. by rewrite lookup_insert_ne. Qed.

Lemma insert_wf f d n e : fs_wf f -> f !! d = Some EDir -> (f !! (d ++ [n]) = None \/ (f !! (d ++ [n]) <> Some EDir) \/ e = EDir) ->
  fs_wf (<[d ++ [n] := e]> f).
Proof.
  intros [Hroot Hpar] Hd Hold. split.
  - rewrite lookup_insert_ne; [done|]. by destruct d.
  - intros d' n' e' He. destruct (decide (d' = d ++ [n])) as [->|Hne].
    + rewrite lookup_insert_eq. rewrite lookup_insert_ne in He.
      * apply Hpar in He as He'. destruct Hold as [E|[E| ->]]; congruence.
      * intros E. apply (f_equal length) in E. rewrite !length_app in E. cbn in E. lia.
    + rewrite lookup_insert_ne by done. apply lookup_insert_Some in He as [[E _]|[_ He]]; [|by apply Hpar in He].
      apply app_inj_tail in E as [<- _]. done.
Qed.
Lemma replace_wf f n e : fs_wf f -> n <> [] -> is_Some (f !! n) -> (f !! n <> Some EDir \/ e = EDir) -> fs_wf (<[n := e]> f).
Proof.
  intros Hwf Hn [e0 He] Hold. destruct (snoc_cases n) as [|(d & x & ->)]; [done|]. apply insert_wf; [done|by apply (wf_parent f Hwf d x e0)|naive_solver].
Qed.

Lemma below_spec d n : is_below d n = true <-> exists r, n = d ++ r.
Proof.
  unfold is_below. rewrite bool_decide_eq_true. split.
  - intros E. exists (drop (length d) n). by rewrite <- E at 1; rewrite take_drop.
  - intros [r ->]. by rewrite take_app_length.
Qed.
Lemma parent_abs d x : path_parent (abs_path (d ++ [x])) = Some (abs_path d).
Proof.
  unfold path_parent, abs_path. cbn [comps]. rewrite fmap_app. cbn [fmap list_fmap]. rewrite app_comm_cons, last_snoc.
  by rewrite removelast_app.
Qed.
Lemma mkdir_spec f n : fs_wf f -> clear_above f n ->
  match mkdir f (abs_path n) with
  | Ok f' => (exists d x, n = d ++ [x] /\ f !! d = Some EDir) /\ f !! n = None /\ f' = <[n := EDir]> f
  | Err _ => True
  end.
Proof.
  intros Hwf Hc. unfold mkdir. pose proof (resolve_clear f false n Hwf Hc) as Hr. destruct (resolve _ _ _) as [m|d x|e]; [done| |done].
  destruct Hr as (-> & Hd & Hn). split_and!; [by exists d, x|done|done].
Qed.
(** The directories made are prefixes of the path. *)
Definition makes_dirs (n : list string) (f f' : fs_t) : Prop :=
  forall m, f' !! m = f !! m \/ (m `prefix_of` n /\ f !! m = None /\ f' !! m = Some EDir).
Lemma makes_clear n f f' m : makes_dirs n f f' -> clear_path f m -> clear_path f' m.
Proof. intros Hm Hc l Hl t. destruct (Hm l) as [->|(_ & _ & ->)]; [by apply Hc|done]. Qed.
Lemma makes_clear_above n f f' m : makes_dirs n f f' -> clear_above f m -> clear_above f' m.
Proof. intros Hm Hc l Hl Hne t. destruct (Hm l) as [->|(_ & _ & ->)]; [by apply Hc|done]. Qed.
Lemma made_dir f d x : fs_wf f -> f !! d = Some EDir -> f !! (d ++ [x]) = None ->
  fs_wf (<[d ++ [x] := EDir]> f) /\ makes_dirs (d ++ [x]) f (<[d ++ [x] := EDir]> f).
Proof.
  intros Hwf Hd Hn. split; [apply insert_wf; auto|]. intros m. destruct (decide (m = d ++ [x])) as [->|Hne].
  - right. by rewrite lookup_insert_eq.
  - left. by rewrite lookup_insert_ne.
Qed.
Lemma makes_weaken n n' f f' : makes_dirs n f f' -> n `prefix_of` n' -> makes_dirs n' f f'.
Proof. intros Hm Hn m. destruct (Hm m) as [|(Hp & ?)]; [by left|right]. split; [by trans n|done]. Qed.
Lemma makes_trans n f f' f'' : makes_dirs n f f' -> makes_dirs n f' f'' -> makes_dirs n f f''.
Proof.
  intros H H' m. destruct (H' m) as [E|(Hp & Hn & E)]; [destruct (H m) as [E'|(Hp' & Hn' & E')]; [left; congruence|right; split_and!; [done|done|congruence]]|].
  destruct (H m) as [E'|(_ & _ & E')]; [right; split_and!; [done|congruence|done]|congruence].
Qed.
Lemma create_dir_all_spec f n : fs_wf f -> clear_path f n ->
  let '(_, f') := create_dir_all f (abs_path n) in fs_wf f' /\ makes_dirs n f f'.
Proof.
  unfold create_dir_all. generalize (length (comps (abs_path n))) as fuel. intros fuel; revert n; induction fuel as [|fuel IH]; intros n Hwf Hc; cbn [create_dir_all_fuel].
  - pose proof (mkdir_spec f n Hwf (clear_is_above _ _ Hc)) as Hm. destruct (mkdir f (abs_path n)) as [f'|[]]; try (by split; [|left]).
    destruct Hm as ((d & x & -> & Hd) & Hn & ->). by apply made_dir.
  - pose proof (mkdir_spec f n Hwf (clear_is_above _ _ Hc)) as Hm. destruct (mkdir f (abs_path n)) as [f'|[]]; try (by split; [|left]).
    { destruct Hm as ((d & x & -> & Hd) & Hn & ->). by apply made_dir. }
    destruct (snoc_cases n) as [->|(d & x & ->)]; [by split; [|left]|]. rewrite parent_abs.
    assert (Hd : clear_path f d) by (eapply clear_prefix; [exact Hc|by exists [x]]).
    specialize (IH d Hwf Hd). destruct (create_dir_all_fuel fuel f (abs_path d)) as [[[]|e] f1]; destruct IH as [Hwf1 Hm1].
    + assert (Hc1 : clear_path f1 (d ++ [x])) by (by eapply makes_clear).
      assert (Hm1' : makes_dirs (d ++ [x]) f f1) by (eapply makes_weaken; [exact Hm1|by exists [x]]).
      pose proof (mkdir_spec f1 _ Hwf1 (clear_is_above _ _ Hc1)) as Hm'. destruct (mkdir f1 (abs_path (d ++ [x]))) as [f'|e']; [|done].
      destruct Hm' as ((d' & x' & E & Hd') & Hn & ->). rewrite E in *. destruct (made_dir f1 d' x' Hwf1 Hd' Hn) as [Hwf2 Hm2].
      split; [done|]. by eapply makes_trans.
    + split; [done|]. eapply makes_weaken; [exact Hm1|by exists [x]].
Qed.

(** *** One entry *)

Lemma no_children f n e d x : fs_wf f -> f !! n = Some e -> e <> EDir -> f !! (n ++ x :: d) = None.
Proof.
  intros Hwf Hn He. destruct (f !! (n ++ x :: d)) as [e'|] eqn:E; [|done].
  assert (f !! n = Some EDir) by (apply (wf_above f n (x :: d)); [done|done|by eexists]). congruence.
Qed.
Lemma delete_wf f n : fs_wf f -> n <> [] -> (forall x d, f !! (n ++ x :: d) = None) -> fs_wf (delete n f).
Proof.
  intros [Hroot Hpar] Hn Hc. split; [by rewrite lookup_delete_ne|]. intros d x e [Hne He]%lookup_delete_Some.
  destruct (decide (d = n)) as [->|Hd]; [by rewrite Hc in He|]. rewrite lookup_delete_ne by done. by apply Hpar in He.
Qed.
Lemma open_create_spec f n write : fs_wf f -> clear_path f n ->
  match open_create f (abs_path n) write with
  | Ok f' => fs_wf f' /\ changes_only (fun m => m = n) f f'
  | Err _ => True
  end.
Proof.
  intros Hwf Hc. unfold open_create. pose proof (resolve_clear f true n Hwf Hc) as Hr. destruct (resolve _ _ _) as [m|d x|e]; [| |done].
  - destruct Hr as [-> Hn]. destruct (f !! n) as [[|content|t]|] eqn:E; try done. split; [|apply insert_changes].
    apply replace_wf; [done|intros ->; by rewrite (wf_root f Hwf) in E|done|left; congruence].
  - destruct Hr as (-> & Hd & Hn). cbn [slash abs_path]. split; [apply insert_wf; auto|apply insert_changes].
Qed.
Lemma symlink_spec f n target : fs_wf f -> clear_above f n ->
  match symlink f target (abs_path n) with
  | Ok f' => fs_wf f' /\ changes_only (fun m => m = n) f f'
  | Err _ => True
  end.
Proof.
  intros Hwf Hc. unfold symlink. pose proof (resolve_clear f false n Hwf Hc) as Hr. destruct (resolve _ _ _) as [m|d x|e]; [done| |done].
  destruct Hr as (-> & Hd & Hn). cbn [slash abs_path]. split; [apply insert_wf; auto|apply insert_changes].
Qed.
Lemma unlink_spec f n : fs_wf f -> clear_above f n ->
  match unlink f (abs_path n) with
  | Ok f' => fs_wf f' /\ changes_only (fun m => m = n) f f' /\ f' = delete n f
  | Err _ => True
  end.
Proof.
  intros Hwf Hc. unfold unlink. pose proof (resolve_clear f false n Hwf Hc) as Hr. destruct (resolve _ _ _) as [m|d x|e]; [|done|done].
  destruct Hr as [-> [e He]]. destruct (is_dir_at f n) eqn:E; [done|]. assert (e <> EDir) by (intros ->; by apply is_dir_at_spec in He; rewrite He in E).
  split_and!; [|by intros m Hm; rewrite lookup_delete_ne|done]. apply delete_wf; [done|intros ->; rewrite (wf_root f Hwf) in He; congruence|].
  intros x d. by apply (no_children f n e).
Qed.

(** *** Trees *)

Lemma remove_tree_lookup f d n : remove_tree f d !! n = if is_below d n then None else f !! n.
Proof.
  unfold remove_tree. destruct (is_below d n) eqn:E.
  - apply map_lookup_filter_None. right. intros e _. cbn. congruence.
  - destruct (f !! n) as [e|] eqn:En; [by apply map_lookup_filter_Some|]. apply map_lookup_filter_None. by left.
Qed.
Lemma below_trans d n x : is_below d n = true -> is_below d (n ++ [x]) = true.
Proof. rewrite !below_spec. intros [r ->]. exists (r ++ [x]). by rewrite app_assoc. Qed.
Lemma below_refl d : is_below d d = true.
Proof. apply below_spec. exists []. by rewrite app_nil_r. Qed.
Lemma below_up d n x : is_below d (n ++ [x]) = true -> is_below d n = true \/ d = n ++ [x].
Proof.
  rewrite !below_spec. intros [r E]. destruct (snoc_cases r) as [->|(r' & y & ->)]; [right; by rewrite app_nil_r in E|left].
  rewrite app_assoc in E. apply app_inj_tail in E as [-> _]. by exists r'.
Qed.
Lemma remove_tree_wf f d : fs_wf f -> d <> [] -> fs_wf (remove_tree f d).
Proof.
  intros [Hroot Hpar] Hd. split.
  - rewrite remove_tree_lookup. replace (is_below d []) with false; [done|]. symmetry. apply not_true_iff_false. rewrite below_spec. by intros [r E]; destruct d.
  - intros n x e. rewrite !remove_tree_lookup. destruct (is_below d (n ++ [x])) eqn:E; [done|]. intros He%Hpar.
    destruct (is_below d n) eqn:E'; [|done]. apply (below_trans _ _ x) in E'. congruence.
Qed.
Lemma rmdir_spec f n : fs_wf f -> clear_above f n ->
  match rmdir f (abs_path n) with
  | Ok f' => fs_wf f' /\ changes_only (fun m => m = n) f f'
  | Err _ => True
  end.
Proof.
  intros Hwf Hc. unfold rmdir. pose proof (resolve_clear f false n Hwf Hc) as Hr. destruct (resolve _ _ _) as [m|d x|e]; [|done|done].
  destruct Hr as [-> Hn]. destruct n as [|x n]; [done|]. destruct (negb _); [done|]. destruct (has_children f (x :: n)) eqn:E; [done|].
  split; [|by intros m Hm; rewrite lookup_delete_ne]. apply delete_wf; [done|done|]. intros y d.
  destruct (f !! ((x :: n) ++ y :: d)) as [e|] eqn:Ed; [|done]. unfold has_children in E. apply not_true_iff_false in E. destruct E.
  apply existsb_exists. exists ((x :: n) ++ y :: d, e). split; [by apply list_elem_of_In, elem_of_map_to_list|]. apply andb_true_iff. split.
  - apply below_spec. by exists (y :: d).
  - apply negb_true_iff, bool_decide_eq_false. cbn [fst]. intros E'. apply (f_equal length) in E'. rewrite length_app in E'. cbn in E'. lia.
Qed.
Lemma remove_dir_all_spec f n : fs_wf f -> clear_above f n ->
  match remove_dir_all f (abs_path n) with
  | Ok f' => fs_wf f' /\ changes_only (fun m => is_below n m = true) f f'
  | Err _ => True
  end.
Proof.
  intros Hwf Hc. unfold remove_dir_all. pose proof (resolve_clear f false n Hwf Hc) as Hr. destruct (resolve _ _ _) as [m|d x|e]; [|done|done].
  destruct Hr as [-> Hn]. destruct n as [|x n]; [done|]. destruct (is_dir_at _ _); [|done]. split; [by apply remove_tree_wf|].
  intros m Hm. rewrite remove_tree_lookup. by destruct (is_below _ m).
Qed.

Lemma below_Some d n r : below d n = Some r <-> n = d ++ r.
Proof.
  unfold below. case_bool_decide as E.
  - split; [intros [= <-]; rewrite <- E at 1; by rewrite take_drop|]. intros ->. by rewrite drop_app_length.
  - split; [done|]. intros ->. by rewrite take_app_length in E.
Qed.
Lemma move_lookup f s d n : move_tree f s d !! n =
  match below d n with
  | Some r => f !! (s ++ r)
  | None => if is_below s n then None else f !! n
  end.
Proof.
  unfold move_tree. set (l := omap _ _).
  assert (Hin : forall m e, (m, e) ∈ l <-> exists r, m = d ++ r /\ f !! (s ++ r) = Some e).
  { intros m e. unfold l. rewrite list_elem_of_omap. split.
    - intros ([k x] & Hk & (r & Hr & [= <- <-])%bind_Some). apply elem_of_map_to_list in Hk. cbn in *. apply below_Some in Hr as ->. by exists r.
    - intros (r & -> & Hr). exists (s ++ r, e). split; [by apply elem_of_map_to_list|]. cbn. by rewrite (proj2 (below_Some s (s ++ r) r)). }
  assert (Hfun : forall m e e', (m, e) ∈ l -> (m, e') ∈ l -> e = e').
  { intros m e e' (r & -> & Hr)%Hin (r' & Er & Hr')%Hin. apply app_inv_head in Er as <-. congruence. }
  destruct (below d n) as [r|] eqn:Eb.
  - apply below_Some in Eb as ->. destruct (f !! (s ++ r)) as [e|] eqn:Er.
    + assert (He : (d ++ r, e) ∈ l) by (apply Hin; eauto). apply lookup_union_Some_l, elem_of_list_to_map_1'; [|done].
      intros e' He'. by apply (Hfun (d ++ r)).
    + apply lookup_union_None. split.
      * apply not_elem_of_list_to_map_1. intros ([m e] & E0 & Hm)%list_elem_of_fmap. cbn in E0. subst m. apply Hin in Hm as (r' & E & Hr'). apply app_inv_head in E as <-. congruence.
      * assert (Hb : is_below d (d ++ r) = true) by (apply below_spec; by exists r). rewrite !remove_tree_lookup, Hb. by destruct (is_below s _).
  - assert (Hn : (list_to_map l : fs_t) !! n = None).
    { apply not_elem_of_list_to_map_1. intros ([m e] & E0 & Hm)%list_elem_of_fmap. cbn in E0. subst m. apply Hin in Hm as (r' & E & Hr').
      apply below_Some in E. congruence. }
    rewrite lookup_union_r by done. rewrite !remove_tree_lookup. destruct (is_below s n); [done|].
    destruct (is_below d n) eqn:E; [|done]. apply below_spec in E as [r E]. apply below_Some in E. congruence.
Qed.

(** A file moved where no directory is. *)
Lemma nothing_below f n r : fs_wf f -> f !! n <> Some EDir -> r <> [] -> f !! (n ++ r) = None.
Proof. intros Hwf Hn Hr. destruct (f !! (n ++ r)) eqn:E; [|done]. destruct Hn. by apply (wf_above f n r); [..|eexists]. Qed.
Lemma move_file f s n e : fs_wf f -> f !! s = Some e -> e <> EDir -> f !! n <> Some EDir -> s <> n ->
  move_tree f s n = <[n := e]> (delete s f).
Proof.
  intros Hwf Hs He Hn Hne. apply map_eq. intros m. rewrite move_lookup. destruct (below n m) as [r|] eqn:E.
  - apply below_Some in E as ->. destruct (decide (r = [])) as [->|Hr]; [by rewrite !app_nil_r, lookup_insert_eq|].
    rewrite nothing_below by (done || congruence). rewrite lookup_insert_ne.
    + symmetry. apply lookup_delete_None. right. by apply nothing_below.
    + intros E. apply (f_equal length) in E. rewrite length_app in E. destruct r; [done|]. cbn in E. lia.
  - assert (m <> n) by (intros ->; by rewrite (proj2 (below_Some n n [])) in E by (by rewrite app_nil_r)).
    rewrite lookup_insert_ne by done. destruct (is_below s m) eqn:Eb.
    + apply below_spec in Eb as [r ->]. symmetry. apply lookup_delete_None. destruct (decide (r = [])) as [->|Hr]; [left; by rewrite app_nil_r|right].
      apply nothing_below; [done|congruence|done].
    + rewrite lookup_delete_ne; [done|]. intros ->. by rewrite below_refl in Eb.
Qed.

(** A tree moved into a directory outside itself. *)
Lemma move_wf f s d n : fs_wf f -> s <> [] -> is_Some (f !! s) -> f !! d = Some EDir -> is_below s (d ++ [n]) = false ->
  fs_wf (move_tree f s (d ++ [n])).
Proof.
  intros Hwf Hs Hsome Hd Hbel. pose proof Hwf as [Hroot Hpar]. assert (Hdd : forall k, k `prefix_of` d -> is_below s k = false).
  { intros k [r ->]. apply not_true_iff_false. intros [q Hq]%below_spec. apply not_true_iff_false in Hbel. destruct Hbel.
    apply below_spec. exists (q ++ r ++ [n]). by rewrite Hq, !app_assoc. }
  assert (Hnil : below (d ++ [n]) [] = None) by (unfold below; case_bool_decide as E; [by destruct d|done]).
  split.
  - rewrite move_lookup, Hnil, Hdd; [done|]. apply prefix_nil.
  - intros m x e. rewrite !move_lookup. destruct (below (d ++ [n]) (m ++ [x])) as [r|] eqn:E1.
    + apply below_Some in E1. intros He. destruct (snoc_cases r) as [->|(r' & y & ->)].
      * rewrite app_nil_r in E1. apply app_inj_tail in E1 as [-> ->]. assert (Hnb : below (d ++ [n]) d = None).
        { unfold below. case_bool_decide as E; [|done]. apply (f_equal length) in E. rewrite length_take, length_app in E. cbn in E. lia. }
        rewrite Hnb, Hdd by done. done.
      * rewrite app_assoc in E1. apply app_inj_tail in E1 as [-> ->]. rewrite (proj2 (below_Some _ _ r')) by done.
        rewrite app_assoc in He. by apply Hpar in He.
    + destruct (is_below s (m ++ [x])) eqn:E2; [done|]. intros He%Hpar. destruct (below (d ++ [n]) m) as [r|] eqn:E3.
      { apply below_Some in E3 as ->. assert (below (d ++ [n]) (((d ++ [n]) ++ r) ++ [x]) = Some (r ++ [x])) as E by (apply below_Some; by rewrite !app_assoc). congruence. }
      destruct (is_below s m) eqn:E4; [|done]. apply (below_trans _ _ x) in E4. congruence.
Qed.
Lemma rename_spec f s d : fs_wf f -> clear_above f s -> clear_above f d ->
  match rename f (abs_path s) (abs_path d) with
  | Ok f' => fs_wf f' /\ changes_only (fun m => is_below s m = true \/ is_below d m = true) f f'
  | Err _ => True
  end.
Proof.
  intros Hwf Hs Hd. unfold rename. pose proof (resolve_clear f false s Hwf Hs) as Hr. destruct (resolve f false (abs_path s)) as [m|? ?|e]; [|done|done].
  destruct Hr as [-> Hsome]. destruct (decide (s = [])) as [->|Hne]; [done|].
  pose proof (resolve_clear f false d Hwf Hd) as Hr. set (target := match resolve f false (abs_path d) with Missing _ _ => _ | Found _ => _ | Failed _ => _ end).
  assert (Htarget : forall t, target = Ok t -> t = d /\ (exists p x, d = p ++ [x] /\ f !! p = Some EDir)).
  { unfold target. destruct (resolve f false (abs_path d)) as [m|p x|e]; [| |done].
    - destruct Hr as [-> Hdd]. destruct (snoc_cases d) as [->|(p & x & ->)]; [done|]. intros t Ht.
      assert (t = p ++ [x]) as ->. { destruct (p ++ [x]) eqn:Ep; [by destruct p|]. rewrite <- Ep in *. repeat case_match; congruence. }
      split; [done|]. exists p, x. split; [done|]. destruct Hdd as [e He]. by apply (wf_parent f Hwf p x e).
    - destruct Hr as (-> & Hp & _). intros t [= <-]. eauto. }
  clearbody target. destruct s as [|s0 s1]; [done|]. destruct target as [t|e]; [|done]. cbn [mbind result_bind].
  destruct (Htarget t eq_refl) as [-> (p & x & -> & Hp)]. case_bool_decide as E; [done|].
  destruct (is_below (s0 :: s1) (p ++ [x])) eqn:Eb; [done|]. split; [by apply move_wf|].
  intros m Hm. rewrite move_lookup. destruct (below (p ++ [x]) m) as [r|] eqn:Er.
  - destruct Hm. right. apply below_spec. exists r. by apply below_Some.
  - destruct (is_below (s0 :: s1) m) eqn:Es; [|done]. destruct Hm. by left.
Qed.
