(* ===== verification/Jail.v ===== *)
(** * The workspace jail

    [tools/jail.rs] and the read list of [media/store.rs]: which paths the
    file tools of the agent accept and what they resolve to. Messages are
    reduced to their kind. *)

From S2P Require Import Prelude Bytes Text Paths.
From Stdlib Require Import Ascii.

(** ** [jail.rs] *)

(** [trim_start_matches("./")] *)
Fixpoint strip_dot_slash (s : string) : string :=
  match s with
  | String "."%char (String "/"%char s) => strip_dot_slash s
  | _ => s
  end.

Inductive JailError :=
| HasDotDot | Outside | NoRoot (e : errno) | DanglingLink (at_ : path) | Unresolved (e : errno)
| LeavesRoot (real : list string) | NoEntry | TheRoot | InGit | InSsh | InGitConfig | InGuardian.

Definition lexical (root raw : string) : result JailError string :=
  let trimmed := trim raw in
  let resolved :=
    if bool_decide (trimmed = EmptyString) then root
    else if has_root trimmed then trimmed
    else root +:+ "/" +:+ strip_dot_slash trimmed in
  if existsb (fun seg => bool_decide (seg = "..")) (split_on slash_char resolved) then Err HasDotDot
  else if negb (path_starts_with (path_of resolved) (path_of root)) then Err Outside
  else Ok resolved.

Definition within (canonical root : list string) : bool := path_starts_with (abs_path canonical) (abs_path root).

(** Up to the first path that exists, links not followed. *)
Fixpoint nearest_existing_ancestor_fuel (fuel : nat) (f : fs_t) (cur : path) : path :=
  if lexists f cur then cur else
  match fuel, path_parent cur with
  | S fuel, Some parent => if bool_decide (comps parent = []) then abs_path [] else nearest_existing_ancestor_fuel fuel f parent
  | _, _ => abs_path []
  end.
Definition nearest_existing_ancestor (f : fs_t) (p : path) : path := nearest_existing_ancestor_fuel (length (comps p)) f p.

Record Real := { r_root : list string; r_ancestor : list string; r_path : path }.
Definition real (f : fs_t) (root lex : path) : result JailError Real :=
  let? root_canon := map_err NoRoot (canonicalize f root) in
  let anc := nearest_existing_ancestor f lex in
  let? ancestor := map_err (fun e => match e with ENOENT => DanglingLink anc | e => Unresolved e end) (canonicalize f anc) in
  if negb (within ancestor root_canon) then Err (LeavesRoot ancestor) else
  let p := match strip_prefix lex anc with
           | Some (c :: rest) => path_join (abs_path ancestor) (c :: rest)
           | _ => abs_path ancestor
           end in
  Ok {| r_root := root_canon; r_ancestor := ancestor; r_path := p |}.
Definition real_parent (f : fs_t) (root lex : path) : result JailError (list string * path) :=
  match path_parent lex, file_name lex with
  | Some parent, Some name =>
      if negb (path_starts_with parent root) then Err TheRoot else
      let? parent := real f root parent in
      Ok (r_root parent, path_join (r_path parent) [Normal name])
  | _, _ => Err NoEntry
  end.

Definition GIT_DIR : string := ".git".
Definition SSH_DIR : list component := [Normal ".ssh"].
Definition GIT_CONFIG_DIR : list component := [Normal ".config"; Normal "git"].
Definition GUARDIAN_DIR : list component := [Normal ".guardian"].
Definition fence_git_dir (p : path) : result JailError unit :=
  if existsb (fun c => bool_decide (c = Normal GIT_DIR)) (comps p) then Err InGit else Ok tt.
Definition fence_owned_dirs (root p : path) : result JailError unit :=
  let? _ := fence_git_dir p in
  if path_starts_with p (path_join root SSH_DIR) then Err InSsh
  else if path_starts_with p (path_join root GIT_CONFIG_DIR) then Err InGitConfig
  else if path_starts_with p (path_join root GUARDIAN_DIR) then Err InGuardian
  else Ok tt.

Definition jailed_write_path (f : fs_t) (root raw : string) : result JailError path :=
  let? lex := lexical root raw in
  let? _ := fence_owned_dirs (path_of root) (path_of lex) in
  let? r := real f (path_of root) (path_of lex) in
  let? _ := fence_owned_dirs (abs_path (r_root r)) (r_path r) in
  Ok (r_path r).
Definition jailed_remove_path (f : fs_t) (root raw : string) : result JailError path :=
  let? lex := lexical root raw in
  let? _ := fence_owned_dirs (path_of root) (path_of lex) in
  let? (root_canon, p) := real_parent f (path_of root) (path_of lex) in
  let? _ := fence_owned_dirs (abs_path root_canon) p in
  Ok p.

(** *** The read jail *)

Definition WORKSPACE_ROOT : string := "/embra/workspace".
Inductive ReadRefusal := NotFound | Denied (reason : string) | Io (e : errno).
Definition STATE_READABLE_DIRS : list string := ["ca-certificates"; "seed-knowledge"; "imported-intelligence"; "models"].
Definition STATE_READABLE_FILES : list string := ["halt_reason"; "timezone"; "api_provider"; "guardian_declined"].
Definition read_denied (p : path) : option string :=
  if path_starts_with p (path_of "/proc") then Some "the process tables"
  else if path_starts_with p (path_of "/embra/data/wardsondb") then Some "the database files"
  else if bool_decide (comps p = components "/embra/workspace/.ssh/id_ed25519") then Some "the workspace SSH key"
  else match strip_prefix p (path_of "/embra/state") with
  | Some rest =>
      let readable := match rest with
        | Normal name :: parts =>
            bool_decide (name ∈ STATE_READABLE_DIRS) ||
            (bool_decide (name ∈ STATE_READABLE_FILES) && bool_decide (parts = []))
        | _ => false
        end in
      if readable then None else Some "the operator's STATE partition"
  | None => None
  end.
Definition resolve_read_path (raw : string) : path :=
  let trimmed := trim raw in
  if has_root trimmed then path_of trimmed
  else let rel := strip_dot_slash trimmed in
       if has_root rel then path_of rel else path_of (WORKSPACE_ROOT +:+ "/" +:+ rel).
Definition readable (f : fs_t) (raw : string) : result ReadRefusal (list string) :=
  let lex := resolve_read_path raw in
  match read_denied lex with
  | Some reason => Err (Denied reason)
  | None =>
      match canonicalize f lex with
      | Err ENOENT => Err NotFound
      | Err e => Err (Io e)
      | Ok canonical =>
          match read_denied (abs_path canonical) with
          | Some reason => Err (Denied reason)
          | None => Ok canonical
          end
      end
  end.

(** ** What the jail promises *)

Lemma strip_comps_spec cs pre r : strip_comps cs pre = Some r <-> cs = pre ++ r.
Proof.
  revert cs; induction pre as [|p pre IH]; intros cs; [split; [by intros [= ->]|by intros ->]|].
  destruct cs as [|c cs]; [by split|]. cbn. case_bool_decide as E.
  - subst c. rewrite IH. split; [by intros ->|by intros [= ->]].
  - split; [done|]. intros [= ? _]. by destruct E.
Qed.
Lemma path_starts_spec p q : path_starts_with p q = true <-> exists r, comps p = comps q ++ r.
Proof.
  unfold path_starts_with. rewrite bool_decide_eq_true. split; [intros [r Hr]|intros [r Hr]]; exists r; by apply strip_comps_spec.
Qed.
Lemma normal_inj (l l' : list string) : Normal <$> l = Normal <$> l' -> l = l'.
Proof. apply list_fmap_eq_inj. by intros x y [= ->]. Qed.
Lemma within_spec a r : within a r = is_below r a.
Proof.
  apply eq_true_iff_eq. unfold within. rewrite path_starts_spec, below_spec. cbn [abs_path comps]. split.
  - intros [k [= Hk]]. apply fmap_app_inv in Hk as (l1 & l2 & E1%normal_inj & E2 & ->). subst. by exists l2.
  - intros [k ->]. exists (Normal <$> k). by rewrite fmap_app.
Qed.

(** The lexical check leaves plain names under the root. *)
Definition absolute (root : string) (r0 : list string) : Prop := components root = RootDir :: (Normal <$> r0).
Lemma segments_normal segs : existsb (fun seg => bool_decide (seg = "..")) segs = false -> exists m, omap segment segs = Normal <$> m.
Proof.
  induction segs as [|s segs IH]; cbn [existsb]; [by exists []|]. intros [Hs Hsegs]%orb_false_iff. destruct (IH Hsegs) as [m Hm].
  apply bool_decide_eq_false in Hs. cbn. unfold segment at 1. case_bool_decide; [by exists m|]. case_bool_decide; [by exists m|].
  rewrite bool_decide_false by done. cbn. rewrite Hm. by exists (s :: m).
Qed.
Lemma components_normal s cs : existsb (fun seg => bool_decide (seg = "..")) (split_on slash_char s) = false ->
  components s = RootDir :: cs -> exists m, cs = Normal <$> m.
Proof.
  intros Hs. apply segments_normal in Hs as [m Hm]. unfold components. rewrite Hm. destruct (has_root s); [cbn; intros [= <-]; by exists m|].
  destruct (split_on slash_char s); [by destruct m|]. by destruct (bool_decide _), m.
Qed.
Lemma lexical_names root r0 raw text : absolute root r0 -> lexical root raw = Ok text ->
  exists rest, comps (path_of text) = RootDir :: (Normal <$> r0 ++ rest).
Proof.
  intros Hroot. unfold lexical. set (resolved := if bool_decide _ then _ else _). destruct (existsb _ _) eqn:Edots; [done|].
  destruct (path_starts_with _ _) eqn:Est; [|done]. intros [= <-]. apply path_starts_spec in Est as [r Hr]. cbn [path_of comps] in *.
  rewrite Hroot in Hr. cbn [app] in Hr. destruct (components_normal resolved _ Edots Hr) as [m Hm].
  pose proof Hm as Hm'. symmetry in Hm'. apply fmap_app_inv in Hm' as (l1 & l2 & E1%normal_inj & E2 & ->). subst l1. exists l2. by rewrite Hr, Hm.
Qed.

(** A path of plain names, with or without a slash at its end. *)
Definition plain (m : list string) (s : bool) : path := {| comps := RootDir :: (Normal <$> m); slash := s |}.
Lemma plain_eta p m : comps p = RootDir :: (Normal <$> m) -> p = plain m (slash p).
Proof. destruct p as [c s]. cbn. by intros ->. Qed.
Lemma parent_plain d x s : path_parent (plain (d ++ [x]) s) = Some (abs_path d).
Proof.
  unfold path_parent, plain, abs_path. cbn [comps]. rewrite fmap_app. cbn [fmap list_fmap]. rewrite app_comm_cons, last_snoc.
  by rewrite removelast_app.
Qed.
Lemma file_name_plain d x s : file_name (plain (d ++ [x]) s) = Some x.
Proof. unfold file_name, plain. cbn [comps]. rewrite fmap_app. cbn [fmap list_fmap]. by rewrite app_comm_cons, last_snoc. Qed.

(** The ancestor found is a prefix that is there; the name after it is not. *)
Lemma nearest_spec f m s : fs_wf f -> exists m1 m2,
  m = m1 ++ m2 /\
  match m2 with
  | [] => nearest_existing_ancestor f (plain m s) = plain m s /\ lexists f (plain m s) = true
  | x :: m2 => nearest_existing_ancestor f (plain m s) = abs_path m1 /\ lexists f (abs_path m1) = true /\
      lexists f (plain (m1 ++ [x]) (bool_decide (m2 = []) && s)) = false
  end.
Proof.
  intros Hwf. unfold nearest_existing_ancestor. assert (Hlen : (length m <= length (comps (plain m s)))%nat) by (cbn; rewrite length_fmap; lia).
  revert Hlen. generalize (length (comps (plain m s))) as fuel. revert s. induction m as [|x d IH] using rev_ind; intros s fuel Hfuel.
  - exists [], []. split; [done|]. assert (Hl : lexists f (plain [] s) = true).
    { unfold lexists, resolve. cbn. unfold is_dir_at. rewrite (wf_root f Hwf), bool_decide_true by done. by rewrite andb_false_r. }
    destruct fuel; cbn [nearest_existing_ancestor_fuel]; by rewrite Hl.
  - rewrite length_app in Hfuel. cbn in Hfuel. destruct fuel as [|fuel]; [lia|]. cbn [nearest_existing_ancestor_fuel].
    destruct (lexists f (plain (d ++ [x]) s)) eqn:El; [by exists (d ++ [x]), []; rewrite app_nil_r|]. rewrite parent_plain, bool_decide_false by done.
    destruct (IH false fuel ltac:(lia)) as (m1 & m2 & -> & Hm). exists m1, (m2 ++ [x]). split; [by rewrite app_assoc|].
    destruct m2 as [|y m2]; cbn [app].
    + rewrite app_nil_r in *. destruct Hm. split_and!; [done|done|]. by rewrite bool_decide_true by done.
    + destruct Hm as (Hm & Hl & Hy). split_and!; [done|done|]. rewrite andb_false_r in Hy. by rewrite bool_decide_false by by destruct m2.
Qed.

Lemma prefix_deep (a m2 l : list string) x : l `prefix_of` a ++ x :: m2 -> l `prefix_of` a \/ exists l', l = a ++ x :: l'.
Proof.
  intros [k Hk]. symmetry in Hk. apply app_eq_app in Hk as [j [[-> Hj]|[-> Hj]]]; [destruct j as [|y j]|].
  - left. exists []. by rewrite !app_nil_r.
  - right. injection Hj as -> _. by exists j.
  - left. by exists j.
Qed.
(** Names under one that is free are no links. *)
Lemma free_clear f a x m2 : fs_wf f -> clear_path f a -> f !! (a ++ [x]) = None -> clear_path f (a ++ x :: m2).
Proof.
  intros Hwf Hc Hn l [Hl|[l' ->]]%prefix_deep; [by apply Hc|]. intros t Ht. replace (a ++ x :: l') with ((a ++ [x]) ++ l') in Ht by by rewrite <- app_assoc.
  destruct l' as [|y l']; [rewrite app_nil_r in Ht; congruence|]. rewrite nothing_below in Ht by (done || congruence). done.
Qed.
Lemma last_clear f a x : clear_path f a -> clear_above f (a ++ [x]).
Proof.
  intros Hc l Hl Hne. destruct (prefix_deep _ _ _ _ Hl) as [Hl'|[l' ->]]; [by apply Hc|].
  destruct Hl as [k Hk]. rewrite <- app_assoc in Hk. apply app_inv_head in Hk. destruct l' as [|y l']; [done|]. by destruct l'.
Qed.
(** A name not found beyond a path that resolves is free there. *)
Lemma name_free f m1 x a : fs_wf f -> canonicalize f (abs_path m1) = Ok a -> lexists f (plain (m1 ++ [x]) false) = false -> f !! (a ++ [x]) = None.
Proof.
  intros Hwf Ea Hx. unfold canonicalize, resolve in Ea. cbn [slash abs_path orb andb] in Ea.
  destruct (walk MAXSYMLINKS f true [] (comps (abs_path m1))) as [a'| |] eqn:Ewalk; [|done|done]. injection Ea as ->.
  destruct (walk_app f MAXSYMLINKS [] _ a [Normal x] false Ewalk ltac:(done)) as [links Hw].
  unfold lexists, resolve in Hx. cbn [plain slash orb andb comps] in Hx.
  replace (RootDir :: (Normal <$> m1 ++ [x])) with (comps (abs_path m1) ++ [Normal x]) in Hx by (cbn; by rewrite fmap_app).
  rewrite Hw in Hx. destruct (f !! (a ++ [x])) as [e|] eqn:Ee; [|done].
  assert (Hd : f !! a = Some EDir) by (by eapply wf_parent). apply is_dir_at_spec in Hd.
  destruct links; cbn in Hx; rewrite Hd, Ee in Hx; by destruct e.
Qed.

(** The real path: names that are no links, under the canonical ancestor. *)
Lemma real_spec f root m s r : fs_wf f -> real f root (plain m s) = Ok r ->
  canonicalize f root = Ok (r_root r) /\
  exists n, r_path r = abs_path n /\ is_below (r_root r) n = true /\ clear_above f n /\ (s = false -> clear_path f n).
Proof.
  intros Hwf. unfold real. destruct (canonicalize f root) as [rc|e]; [|done]. cbn [map_err mbind result_bind].
  destruct (nearest_spec f m s Hwf) as (m1 & m2 & -> & Hm). set (anc := nearest_existing_ancestor f (plain (m1 ++ m2) s)) in *.
  destruct (canonicalize f anc) as [a|e] eqn:Ea; [|done]. cbn [map_err mbind result_bind].
  destruct (within a rc) eqn:Ew; [|done]. cbn [negb]. intros [= <-]. cbn [r_root r_path]. split; [done|].
  pose proof (canonicalize_real f anc a Hwf Ea) as Ha. pose proof (real_clear f a Hwf Ha) as Hc. rewrite within_spec in Ew.
  destruct m2 as [|x m2].
  - destruct Hm as [Hm _]. rewrite Hm, app_nil_r. unfold strip_prefix. rewrite (proj2 (strip_comps_spec _ _ [])) by by rewrite app_nil_r.
    exists a. split_and!; [done|done|by apply clear_is_above|done].
  - destruct Hm as (Hanc & _ & Hx). rewrite Hanc in *. unfold strip_prefix.
    rewrite (proj2 (strip_comps_spec _ _ (Normal <$> (x :: m2)))) by (cbn [plain abs_path comps]; by rewrite fmap_app).
    exists (a ++ x :: m2). split; [unfold path_join, abs_path; cbn [comps]; by rewrite fmap_app|].
    split; [apply below_spec in Ew as [k ->]; apply below_spec; exists (k ++ x :: m2); by rewrite app_assoc|].
    assert (Hfree : bool_decide (m2 = []) && s = false -> clear_path f (a ++ x :: m2)).
    { intros E. rewrite E in Hx. apply free_clear; [done|done|]. by eapply name_free. }
    split; [|intros ->; apply Hfree, andb_false_r].
    destruct (bool_decide (m2 = [])) eqn:Em; [|by apply clear_is_above, Hfree].
    apply bool_decide_eq_true in Em as ->. by apply last_clear.
Qed.

Definition owned_dirs : list (list string) := [[".ssh"]; [".config"; "git"]; [".guardian"]].
Lemma fence_spec rc n : fence_owned_dirs (abs_path rc) (abs_path n) = Ok tt <->
  GIT_DIR ∉ n /\ Forall (fun d => is_below (rc ++ d) n = false) owned_dirs.
Proof.
  unfold fence_owned_dirs, fence_git_dir.
  assert (Hj : forall d, path_join (abs_path rc) (Normal <$> d) = abs_path (rc ++ d)) by (intros d; unfold path_join, abs_path; cbn [comps]; by rewrite fmap_app).
  assert (Hs : forall d, path_starts_with (abs_path n) (path_join (abs_path rc) (Normal <$> d)) = is_below (rc ++ d) n).
  { intros d. rewrite Hj. apply (within_spec n (rc ++ d)). }
  change SSH_DIR with (Normal <$> [".ssh"]). change GIT_CONFIG_DIR with (Normal <$> [".config"; "git"]). change GUARDIAN_DIR with (Normal <$> [".guardian"]).
  rewrite (Hs [".ssh"]), (Hs [".config"; "git"]), (Hs [".guardian"]).
  assert (Hg : existsb (fun c => bool_decide (c = Normal GIT_DIR)) (comps (abs_path n)) = bool_decide (GIT_DIR ∈ n)).
  { apply eq_true_iff_eq. rewrite existsb_exists, bool_decide_eq_true. cbn [abs_path comps]. split.
    - intros (c & Hc & E%bool_decide_eq_true). subst c. destruct Hc as [|Hc]; [done|]. apply list_elem_of_In, list_elem_of_fmap in Hc as (x & [= ->] & Hx). done.
    - intros Hn. exists (Normal GIT_DIR). split; [|by apply bool_decide_eq_true]. right. apply list_elem_of_In, list_elem_of_fmap. by exists GIT_DIR. }
  rewrite Hg. unfold owned_dirs. rewrite !Forall_cons. case_bool_decide as E; cbn [mbind result_bind]; [split; [done|by intros [? _]]|].
  destruct (is_below (rc ++ [".ssh"]) n), (is_below (rc ++ [".config"; "git"]) n), (is_below (rc ++ [".guardian"]) n); naive_solver.
Qed.

Lemma real_plain_path f root m s p : fs_wf f -> jailed_write_path f root m = Ok p -> absolute root s -> exists r text rest,
  lexical root m = Ok text /\ real f (path_of root) (plain (s ++ rest) (trailing text)) = Ok r /\ r_path r = p /\
  fence_owned_dirs (abs_path (r_root r)) p = Ok tt.
Proof.
  intros Hwf. unfold jailed_write_path. destruct (lexical root m) as [text|e] eqn:El; [|done]. cbn [mbind result_bind].
  destruct (fence_owned_dirs _ _); [|done]. cbn [mbind result_bind]. destruct (real _ _ _) as [r|e] eqn:Er; [|done]. cbn [mbind result_bind].
  destruct (fence_owned_dirs (abs_path (r_root r)) (r_path r)) as [[]|e] eqn:Ef; [|done]. intros [= <-] Hroot.
  destruct (lexical_names root s m text Hroot El) as [rest Hrest]. exists r, text, rest. split_and!; [done| |done|done].
  pose proof (plain_eta _ _ Hrest) as E. change (slash (path_of text)) with (trailing text) in E. by rewrite <- E.
Qed.

(** what the write jail accepts. The path it returns is absolute, lies
    at or under the canonical root, reaches its last name through no symbolic
    link whatever the tree holds, has no [.git] name and is outside the
    directories that ssh, git and the Guardian own. The last name is no link
    either, unless the text given ends in a slash. *)
Theorem write_jail_sound f root r0 raw p :
  fs_wf f -> absolute root r0 -> jailed_write_path f root raw = Ok p ->
  exists rc n text, canonicalize f (path_of root) = Ok rc /\ lexical root raw = Ok text /\
    p = abs_path n /\ is_below rc n = true /\ clear_above f n /\ (trailing text = false -> clear_path f n) /\
    GIT_DIR ∉ n /\ Forall (fun d => is_below (rc ++ d) n = false) owned_dirs.
Proof.
  intros Hwf Hroot Hp. destruct (real_plain_path _ _ _ _ _ Hwf Hp Hroot) as (r & text & rest & El & Er & <- & Ef).
  destruct (real_spec _ _ _ _ _ Hwf Er) as (Hc & n & Hn & Hb & Ha & Hl). rewrite Hn in *. apply fence_spec in Ef as [Hg Ho].
  by exists (r_root r), n, text.
Qed.

(** The jail of what is removed: the last name is kept as it is given, the
    directory it is in is real; the root itself is refused. *)
Lemma real_parent_spec f root r0 rest s rc p : fs_wf f -> absolute root r0 ->
  real_parent f (path_of root) (plain (r0 ++ rest) s) = Ok (rc, p) ->
  exists a x, canonicalize f (path_of root) = Ok rc /\ p = abs_path (a ++ [x]) /\ is_below rc a = true /\ clear_path f a.
Proof.
  intros Hwf Hroot. destruct (snoc_cases rest) as [->|(d & x & ->)].
  - unfold real_parent. rewrite app_nil_r. destruct (snoc_cases r0) as [->|(d & x & ->)]; [done|]. rewrite parent_plain, file_name_plain.
    destruct (path_starts_with (abs_path d) (path_of root)) eqn:E; [|done]. exfalso. apply path_starts_spec in E as [k E].
    cbn [path_of comps abs_path] in E. rewrite Hroot in E. injection E as E. apply (f_equal length) in E. rewrite length_app, !length_fmap, length_app in E. cbn in E. lia.
  - unfold real_parent. rewrite app_assoc, parent_plain, file_name_plain. destruct (path_starts_with _ _); [|done]. cbn [negb].
    destruct (real f (path_of root) (abs_path (r0 ++ d))) as [r|e] eqn:Er; [|done]. cbn [mbind result_bind]. intros [= <- <-].
    destruct (real_spec f _ (r0 ++ d) false r Hwf Er) as (Hc & a & Ha & Hb & _ & Hcl). exists a, x. rewrite Ha. split_and!; [done| |done|by apply Hcl].
    unfold path_join, abs_path. cbn [comps]. by rewrite fmap_app.
Qed.
Lemma remove_jail_spec f root r0 raw p : fs_wf f -> absolute root r0 -> jailed_remove_path f root raw = Ok p ->
  exists rc a x, canonicalize f (path_of root) = Ok rc /\ p = abs_path (a ++ [x]) /\ is_below rc a = true /\ clear_path f a /\
    GIT_DIR ∉ a ++ [x] /\ Forall (fun d => is_below (rc ++ d) (a ++ [x]) = false) owned_dirs.
Proof.
  intros Hwf Hroot. unfold jailed_remove_path. destruct (lexical root raw) as [text|e] eqn:El; [|done]. cbn [mbind result_bind].
  destruct (fence_owned_dirs _ _); [|done]. cbn [mbind result_bind]. destruct (lexical_names root r0 raw text Hroot El) as [rest Hrest].
  rewrite (plain_eta _ _ Hrest). destruct (real_parent _ _ _) as [[rc q]|e] eqn:Er; [|done]. cbn [mbind result_bind].
  destruct (fence_owned_dirs (abs_path rc) q) as [[]|e] eqn:Ef; [|done]. intros [= <-].
  destruct (real_parent_spec f root r0 rest _ rc q Hwf Hroot Er) as (d & x & Hc & -> & Hb & Hcl). apply fence_spec in Ef as [Hg Ho]. by exists rc, d, x.
Qed.

(** A path without links is its own real path. *)
Lemma lexists_real f m : fs_wf f -> clear_path f m -> lexists f (abs_path m) = true -> canonicalize f (abs_path m) = Ok m.
Proof.
  intros Hwf Hc. unfold lexists, canonicalize. pose proof (resolve_clear f false m Hwf (clear_is_above _ _ Hc)) as Hr.
  destruct (resolve f false _) as [n| |]; try done. destruct Hr as [-> [e He]]. intros _.
  destruct (snoc_cases m) as [->|(d & x & ->)]; [by rewrite resolve_dir by (exact Hwf || apply (wf_root f Hwf))|].
  rewrite resolve_last by first [exact Hwf|by eapply wf_parent|by intros _; apply Hc]. by rewrite He.
Qed.
Lemma resolve_dir_slash f follow n s : fs_wf f -> f !! n = Some EDir -> resolve f follow (plain n s) = Found n.
Proof.
  intros Hwf Hn. unfold resolve, plain. cbn [comps slash].
  assert (E : walk MAXSYMLINKS f (follow || s) [] (RootDir :: (Normal <$> n)) = walk MAXSYMLINKS f (follow || s) [] ((Normal <$> n) ++ [])) by (by rewrite app_nil_r).
  rewrite E, walk_dirs by (exact Hwf || exact Hn || apply (wf_root f Hwf)). cbn. apply is_dir_at_spec in Hn. by rewrite Hn, andb_false_r.
Qed.
(** The first name missing is below a directory on the way. *)
Lemma nearest_below f r0 rest m1 x m2 s : fs_wf f -> f !! r0 = Some EDir -> r0 ++ rest = m1 ++ x :: m2 ->
  lexists f (plain (m1 ++ [x]) s) = false -> is_below r0 m1 = true.
Proof.
  intros Hwf Hdir E Hx. apply below_spec. apply app_eq_app in E as [j [[-> Hj]|[-> Hj]]]; [|by exists j].
  destruct j as [|y j]; [exists []; by rewrite !app_nil_r|]. injection Hj as <- Hj.
  assert (Hm : f !! (m1 ++ [x]) = Some EDir).
  { destruct j as [|y j]; [done|]. apply (wf_above f (m1 ++ [x]) (y :: j)); [done|done|]. rewrite <- app_assoc. by eexists. }
  unfold lexists in Hx. by rewrite resolve_dir_slash in Hx.
Qed.
Lemma write_jail_accepts f root r0 raw text rest : fs_wf f -> absolute root r0 -> f !! r0 = Some EDir ->
  lexical root raw = Ok text -> comps (path_of text) = RootDir :: (Normal <$> r0 ++ rest) -> trailing text = false ->
  clear_path f (r0 ++ rest) -> GIT_DIR ∉ r0 ++ rest -> Forall (fun d => is_below (r0 ++ d) (r0 ++ rest) = false) owned_dirs ->
  jailed_write_path f root raw = Ok (abs_path (r0 ++ rest)).
Proof.
  intros Hwf Hroot Hdir El Ht Htr Hc Hg Ho. unfold jailed_write_path. rewrite El. cbn [mbind result_bind].
  pose proof (plain_eta _ _ Ht) as E. change (slash (path_of text)) with (trailing text) in E. rewrite Htr in E. rewrite E.
  pose proof (plain_eta (path_of root) r0 Hroot) as Er.
  assert (Hf : forall s, fence_owned_dirs (plain r0 s) (plain (r0 ++ rest) false) = Ok tt).
  { intros s. change (fence_owned_dirs (abs_path r0) (abs_path (r0 ++ rest)) = Ok tt). by apply fence_spec. }
  rewrite Er, Hf. cbn [mbind result_bind]. unfold real. 
  assert (Hcr : canonicalize f (plain r0 (slash (path_of root))) = Ok r0).
  { unfold canonicalize. by rewrite resolve_dir_slash. }
  rewrite Hcr. cbn [map_err mbind result_bind]. destruct (nearest_spec f (r0 ++ rest) false Hwf) as (m1 & m2 & Em & Hm).
  assert (Hanc : nearest_existing_ancestor f (plain (r0 ++ rest) false) = abs_path m1 /\ canonicalize f (abs_path m1) = Ok m1 /\ is_below r0 m1 = true).
  { destruct m2 as [|x m2]; [destruct Hm as [Hm Hl]|destruct Hm as (Hm & Hl & Hx)]; rewrite Hm.
    - rewrite app_nil_r in Em. subst m1. split_and!; [done|by apply lexists_real|apply below_spec; by exists rest].
    - split_and!; [done| |by eapply nearest_below]. apply lexists_real; [done| |done]. eapply clear_prefix; [exact Hc|]. rewrite Em. by exists (x :: m2). }
  destruct Hanc as (-> & -> & Hb). cbn [map_err mbind result_bind]. rewrite within_spec, Hb. cbn [negb mbind result_bind r_root r_path].
  unfold strip_prefix. rewrite (proj2 (strip_comps_spec _ _ (Normal <$> m2))) by (cbn [plain abs_path comps]; by rewrite Em, fmap_app).
  assert (Hp : match Some (Normal <$> m2) with Some (c :: cs) => path_join (abs_path m1) (c :: cs) | _ => abs_path m1 end = abs_path (r0 ++ rest)).
  { rewrite Em. destruct m2 as [|x m2]; [by rewrite app_nil_r|]. unfold path_join, abs_path. cbn [comps fmap list_fmap]. by rewrite fmap_app. }
  rewrite Hp. assert (Hf' : fence_owned_dirs (abs_path r0) (abs_path (r0 ++ rest)) = Ok tt) by (by apply fence_spec). by rewrite Hf'.
Qed.

(** what the read jail lets through. The path is an existing real path,
    in none of the places that hold secrets: not in the process tables, not
    among the database files, not the workspace's private key, and in STATE
    only under the operator's drop-in directories or one of the four plain
    files. *)
Theorem read_jail_sound f raw n : fs_wf f -> readable f raw = Ok n ->
  real_entry f n /\ clear_path f n /\
  is_below ["proc"] n = false /\ is_below ["embra"; "data"; "wardsondb"] n = false /\
  n <> ["embra"; "workspace"; ".ssh"; "id_ed25519"] /\
  forall rest, n = ["embra"; "state"] ++ rest -> exists name parts, rest = name :: parts /\
    (name ∈ STATE_READABLE_DIRS \/ name ∈ STATE_READABLE_FILES /\ parts = []).
Proof.
  intros Hwf. unfold readable. destruct (read_denied (resolve_read_path raw)); [done|].
  destruct (canonicalize f (resolve_read_path raw)) as [m|e] eqn:Ec; [|by destruct e]. destruct (read_denied (abs_path m)) eqn:Ed; [done|].
  intros [= <-]. pose proof (canonicalize_real _ _ _ Hwf Ec) as Hr. split_and!; [done|by apply real_clear| | | |].
  all: unfold read_denied in Ed.
  - replace (path_starts_with (abs_path m) (path_of "/proc")) with (is_below ["proc"] m) in Ed by (symmetry; apply (within_spec m ["proc"])).
    by destruct (is_below ["proc"] m).
  - destruct (path_starts_with (abs_path m) (path_of "/proc")); [done|].
    replace (path_starts_with (abs_path m) (path_of "/embra/data/wardsondb")) with (is_below ["embra"; "data"; "wardsondb"] m) in Ed
      by (symmetry; apply (within_spec m ["embra"; "data"; "wardsondb"])). by destruct (is_below _ m).
  - intros ->. vm_compute in Ed. done.
  - intros rest ->. repeat (case_match; [done|]). destruct (strip_prefix _ _) as [cs|] eqn:Es.
    + apply strip_comps_spec in Es. injection Es as Es. destruct rest as [|name parts]; [by subst cs|]. cbn in Es. subst cs.
      exists name, parts. split; [done|]. cbn in Ed. destruct (bool_decide (name ∈ STATE_READABLE_DIRS)) eqn:E1; [left; by apply bool_decide_eq_true in E1|right].
      destruct (bool_decide (name ∈ STATE_READABLE_FILES)) eqn:E2; [|done]. apply bool_decide_eq_true in E2. split; [done|]. by destruct parts.
    + exfalso. unfold strip_prefix in Es. change (comps (path_of "/embra/state")) with [RootDir; Normal "embra"; Normal "state"] in Es. by cbn in Es.
Qed.

(** ** A workspace with a link out of it *)

Definition sample : fs_t := list_to_map
  [([], EDir); (["w"], EDir); (["w"; "a"], EFile [97; 98; 97]); (["w"; "out"], ELink "/etc"); (["etc"], EDir); (["etc"; "p"], EFile [1])].
Lemma sample_wf : fs_wf sample.
Proof. apply wf_check_sound. vm_compute. reflexivity. Qed.
Lemma write_jail_sound_witness :
  jailed_write_path sample "/w" "out/p" = Err (LeavesRoot ["etc"; "p"]) /\ jailed_write_path sample "/w" "x/.git/hooks" = Err InGit /\
  jailed_write_path sample "/w" " ./x/y" = Ok (abs_path ["w"; "x"; "y"]) /\ clear_above sample ["w"; "x"; "y"].
Proof.
  split_and!; [vm_compute; reflexivity..|].
  destruct (write_jail_sound sample "/w" ["w"] " ./x/y" (abs_path ["w"; "x"; "y"]) sample_wf ltac:(vm_compute; reflexivity) ltac:(vm_compute; reflexivity))
    as (rc & n & text & _ & _ & E & _ & Hc & _).
  injection E as E. apply (normal_inj ["w"; "x"; "y"] n) in E as <-. exact Hc.
Defined.
Lemma read_jail_sound_witness :
  readable sample "/w/out/p" = Ok ["etc"; "p"] /\ readable sample "/proc/1/environ" = Err (Denied "the process tables") /\ real_entry sample ["etc"; "p"].
Proof.
  split_and!; [vm_compute; reflexivity..|]. apply (read_jail_sound sample "/w/out/p" ["etc"; "p"] sample_wf). vm_compute. reflexivity.
Defined.
