(* ===== verification/Atomic.v ===== *)
(** * The atomic writer

    [apply_atomic_inner], [commit_temp] and [temp_path_for] of
    [tools/file_patch.rs]: a temporary file beside the target, written and
    flushed, given the target's mode, renamed over it. Every call may fail;
    the states of the tree between the calls are the ones a crash can leave. *)

From S2P Require Import Prelude Bytes Paths.

(** Which of the calls fail, and how much of a failing write is done. *)
Record faults := {
  bad_stat : bool;
  bad_create : bool;
  bad_write : option nat;
  bad_sync : bool;
  bad_perms : bool;
  bad_chown : bool;
  bad_rename : bool;
  bad_cleanup : bool;
}.
Definition no_faults : faults :=
  {| bad_stat := false; bad_create := false; bad_write := None; bad_sync := false; bad_perms := false; bad_chown := false;
     bad_rename := false; bad_cleanup := false |}.
Inductive WriteError := NoParent | StatFailed | CreateFailed | WriteFailed | SyncFailed | PermsFailed | ChownFailed | Injected | RenameFailed.

Definition TMP_TAG : string := "embra-patch".
Definition temp_name (fname tag pid seq : string) : string := "." +:+ fname +:+ "." +:+ tag +:+ "." +:+ pid +:+ "." +:+ seq +:+ ".tmp".
Definition temp_path_for (target : path) (tag pid seq : string) : result WriteError path :=
  match path_parent target, file_name target with
  | Some dir, Some fname =>
      if bool_decide (comps dir = []) then Err NoParent else Ok (path_join dir [Normal (temp_name fname tag pid seq)])
  | _, _ => Err NoParent
  end.
Definition remove_temp (o : faults) (f : fs_t) (tmp : path) : fs_t :=
  if bad_cleanup o then f else match unlink f tmp with Ok f => f | Err _ => f end.

(** The result with the states passed through, the last one first. *)
Definition commit_temp (o : faults) (f : fs_t) (tmp target : path) (prior fail_before_rename : bool) : result WriteError unit * list fs_t :=
  let renamed :=
    if prior && bad_perms o then Err PermsFailed
    else if prior && bad_chown o then Err ChownFailed
    else if fail_before_rename then Err Injected
    else if bad_rename o then Err RenameFailed
    else map_err (fun _ => RenameFailed) (rename f tmp target) in
  match renamed with
  | Ok f' => (Ok tt, [f'; f])
  | Err e => (Err e, [remove_temp o f tmp; f])
  end.
Definition stat_target (o : faults) (f : fs_t) (target : path) (require_existing : bool) : result WriteError bool :=
  if bad_stat o then Err StatFailed else
  match resolve f true target with
  | Found _ => Ok true
  | Missing _ _ | Failed ENOENT => if require_existing then Err StatFailed else Ok false
  | Failed _ => Err StatFailed
  end.
Definition create_temp (o : faults) (f : fs_t) (tmp : path) : result WriteError fs_t :=
  if bad_create o then Err CreateFailed else map_err (fun _ => CreateFailed) (open_create f tmp (fun _ => [])).
Definition write_temp (o : faults) (f : fs_t) (tmp : path) (content : bytes) : result WriteError unit * fs_t :=
  let put content := match open_create f tmp (fun _ => content) with Ok f => f | Err _ => f end in
  match bad_write o with
  | Some n => (Err WriteFailed, put (take n content))
  | None => (if bad_sync o then Err SyncFailed else Ok tt, put content)
  end.
(** [pid] and [seq] are the process and the counter that name the temporary
    file. *)
Definition apply_atomic_inner (o : faults) (pid seq : string) (f : fs_t) (target : path) (content : bytes)
    (fail_before_rename require_existing : bool) : result WriteError unit * list fs_t :=
  match temp_path_for target TMP_TAG pid seq with
  | Err e => (Err e, [f])
  | Ok tmp =>
      match stat_target o f target require_existing with
      | Err e => (Err e, [remove_temp o f tmp; f])
      | Ok prior =>
          match create_temp o f tmp with
          | Err e => (Err e, [remove_temp o f tmp; f])
          | Ok f1 =>
              match write_temp o f1 tmp content with
              | (Err e, f2) => (Err e, [remove_temp o f2 tmp; f2; f1; f])
              | (Ok _, f2) => let '(r, states) := commit_temp o f2 tmp target prior fail_before_rename in (r, states ++ [f1; f])
              end
          end
      end
  end.
Definition apply_atomic o pid seq f target content := apply_atomic_inner o pid seq f target content false true.
Definition write_atomic_create o pid seq f target content := apply_atomic_inner o pid seq f target content false false.

(** ** All or nothing *)

Lemma temp_path_abs d x tag pid seq : temp_path_for (abs_path (d ++ [x])) tag pid seq = Ok (abs_path (d ++ [temp_name x tag pid seq])).
Proof.
  unfold temp_path_for, file_name. rewrite parent_abs. unfold abs_path at 1. cbn [comps]. rewrite fmap_app. cbn [fmap list_fmap].
  rewrite app_comm_cons, last_snoc. rewrite bool_decide_false by done. unfold path_join, abs_path. cbn [comps]. by rewrite fmap_app.
Qed.
Lemma string_app_length s s' : String.length (s +:+ s') = (String.length s + String.length s')%nat.
Proof. induction s as [|a s IH]; [done|]. change (S (String.length (s +:+ s')) = S (String.length s + String.length s')%nat). by rewrite IH. Qed.
Lemma temp_name_longer x tag pid seq : x <> temp_name x tag pid seq.
Proof. intros E. apply (f_equal String.length) in E. unfold temp_name in E. rewrite !string_app_length in E. cbn in E. lia. Qed.

Section atomic.
Context (f : fs_t) (n d : list string) (t : string) (content : bytes).
Context (Hwf : fs_wf f) (Hclear : clear_above f n) (Hd : clear_path f d).
Let tmp : list string := d ++ [t].
Context (Hfresh : f !! tmp = None) (Hne : n <> tmp).

Lemma temp_clear g : (forall m, m <> tmp -> g !! m = f !! m) -> no_link g tmp -> clear_path g tmp.
Proof.
  clear Hclear Hne. intros Hg Ht l Hl. destruct (decide (l = tmp)) as [->|Hn]; [done|]. intros k Hk. rewrite Hg in Hk by done. revert k Hk. apply Hd.
  destruct Hl as [r Hr]. destruct (snoc_cases r) as [->|(r' & x & ->)]; [by rewrite app_nil_r in Hr|].
  unfold tmp in Hr. rewrite app_assoc in Hr. apply app_inj_tail in Hr as [-> _]. by exists r'.
Qed.
Lemma tmp_ne_dir : tmp <> d.
Proof. intros E. apply (f_equal length) in E. unfold tmp in E. rewrite length_app in E. cbn in E. lia. Qed.
(** The tree with the temporary file at some content. *)
Definition staged (g : fs_t) (c : bytes) : Prop := fs_wf g /\ f !! d = Some EDir /\ g = <[tmp := EFile c]> f.
Lemma create_staged o g : create_temp o f (abs_path tmp) = Ok g -> staged g [].
Proof.
  clear Hclear Hne. unfold create_temp, open_create. destruct (bad_create o); [done|]. assert (Hc : clear_path f tmp) by (apply temp_clear; [done|by intros k; rewrite Hfresh]).
  pose proof (resolve_clear f true tmp Hwf Hc) as Hr. destruct (resolve _ _ _) as [m|p x|e]; [destruct Hr as [_ [? ?]]; congruence| |done].
  destruct Hr as (E & Hp & _). unfold tmp in E. apply app_inj_tail in E as [<- <-]. cbn. intros [= <-].
  split; [apply insert_wf; auto|done].
Qed.
Lemma restage g c c' : staged g c -> open_create g (abs_path tmp) (fun _ => c') = Ok (<[tmp := EFile c']> f) /\ staged (<[tmp := EFile c']> f) c'.
Proof.
  clear Hclear Hne. intros (Hg & Hdir & ->). assert (Hs : staged (<[tmp := EFile c']> f) c') by (split; [apply insert_wf; auto|done]). split; [|done].
  assert (Hc : clear_path (<[tmp := EFile c]> f) tmp).
  { apply temp_clear; [intros m Hm; by rewrite lookup_insert_ne|intros k; by rewrite lookup_insert_eq]. }
  unfold open_create, tmp. rewrite resolve_last; [|done| |].
  - fold tmp. rewrite !lookup_insert_eq. by rewrite insert_insert_eq.
  - rewrite lookup_insert_ne; [done|]. intros E. apply (f_equal length) in E. unfold tmp in E. rewrite length_app in E. cbn in E. lia.
  - intros _ k. fold tmp. by rewrite lookup_insert_eq.
Qed.
Lemma write_staged o g c : staged g c -> let '(r, g') := write_temp o g (abs_path tmp) content in
  exists c', staged g' c' /\ (r = Ok tt -> c' = content).
Proof.
  intros Hs. unfold write_temp. destruct (bad_write o) as [k|].
  - destruct (restage g c (take k content) Hs) as [-> Hs']. by exists (take k content).
  - destruct (restage g c content Hs) as [-> Hs']. by exists content.
Qed.
Lemma unlink_staged g c : staged g c -> unlink g (abs_path tmp) = Ok f.
Proof.
  clear Hclear Hne. intros (Hg & Hdir & ->). unfold unlink, tmp. rewrite resolve_last; [|done| |done].
  - fold tmp. rewrite lookup_insert_eq. unfold is_dir_at. rewrite lookup_insert_eq, bool_decide_false by done.
    rewrite delete_insert_id by done. done.
  - rewrite lookup_insert_ne; [done|]. intros E. apply (f_equal length) in E. unfold tmp in E. rewrite length_app in E. cbn in E. lia.
Qed.
Lemma remove_staged o g c : staged g c -> remove_temp o g (abs_path tmp) = f \/ remove_temp o g (abs_path tmp) = g /\ bad_cleanup o = true.
Proof. intros Hs. unfold remove_temp. destruct (bad_cleanup o); [by right|left]. by rewrite (unlink_staged g c Hs). Qed.
Lemma rename_staged g c g' : staged g c -> rename g (abs_path tmp) (abs_path n) = Ok g' -> g' = <[n := EFile c]> f /\ fs_wf g'.
Proof.
  intros (Hg & Hdir & ->). intros Hren.
  assert (Hdg : (<[tmp := EFile c]> f) !! d = Some EDir) by (rewrite lookup_insert_ne; [done|apply tmp_ne_dir]).
  assert (Htmp : resolve (<[tmp := EFile c]> f) false (abs_path tmp) = Found tmp).
  { unfold tmp. rewrite resolve_last by done. fold tmp. by rewrite lookup_insert_eq. }
  assert (Hab : clear_above (<[tmp := EFile c]> f) n).
  { intros l Hl Hln k. destruct (decide (l = tmp)) as [->|Hl']; [by rewrite lookup_insert_eq|]. rewrite lookup_insert_ne by done. by apply Hclear. }
  split.
  2: { assert (Hat : clear_above (<[tmp := EFile c]> f) tmp).
       { apply clear_is_above, temp_clear; [intros m Hm; by rewrite lookup_insert_ne|intros k; by rewrite lookup_insert_eq]. }
       pose proof (rename_spec _ tmp n Hg Hat Hab) as Hspec. rewrite Hren in Hspec. apply Hspec. }
  revert Hren. pose proof (resolve_clear _ false n Hg Hab) as Hr.
  assert (Hshape : exists t0 t1, tmp = t0 :: t1) by (unfold tmp; destruct d; cbn; eauto). destruct Hshape as (t0 & t1 & Et).
  unfold rename. rewrite Htmp. assert (Hfile : is_dir_at (<[tmp := EFile c]> f) tmp = false) by (unfold is_dir_at; by rewrite lookup_insert_eq, bool_decide_false).
  rewrite Hfile. rewrite Et at 1.
  assert (Hmove : (<[tmp := EFile c]> f) !! n <> Some EDir -> move_tree (<[tmp := EFile c]> f) tmp n = <[n := EFile c]> f).
  { intros Hnd. rewrite (move_file _ tmp n (EFile c)) by (done || (by rewrite lookup_insert_eq) || congruence). by rewrite delete_insert_id. }
  destruct (resolve _ false (abs_path n)) as [m|p x|e]; [| |done].
  - destruct Hr as [-> Hn]. destruct n as [|n0 n1] eqn:En; [done|]. rewrite <- En in *. rewrite bool_decide_false by congruence.
    destruct (is_dir_at _ n) eqn:Edir; [done|]. cbn [mbind result_bind]. rewrite bool_decide_false by congruence.
    destruct (is_below tmp n) eqn:Eb; [done|]. intros [= <-]. apply Hmove. rewrite <- is_dir_at_spec. congruence.
  - destruct Hr as (E & Hp & Hn). cbn [mbind result_bind]. rewrite <- E, bool_decide_false by congruence.
    destruct (is_below tmp n) eqn:Eb; [done|]. intros [= <-]. apply Hmove. congruence.
Qed.

Definition kept_or_written (g : fs_t) : Prop :=
  fs_wf g /\ (g !! n = f !! n \/ g = <[n := EFile content]> f) /\ forall m, m <> n -> m <> tmp -> g !! m = f !! m.
Lemma staged_kept g c : staged g c -> kept_or_written g.
Proof. intros (Hg & _ & ->). split_and!; [done|left; by rewrite lookup_insert_ne|]. intros m _ Hm. by rewrite lookup_insert_ne. Qed.
Lemma same_kept : kept_or_written f.
Proof. split_and!; [done|by left|done]. Qed.
Lemma remove_kept o g c : staged g c -> kept_or_written (remove_temp o g (abs_path tmp)).
Proof. intros Hs. destruct (remove_staged o g c Hs) as [->|[-> _]]; [apply same_kept|by eapply staged_kept]. Qed.
(** Nothing was created. *)
Lemma remove_fresh o : remove_temp o f (abs_path tmp) = f.
Proof.
  unfold remove_temp. destruct (bad_cleanup o); [done|]. unfold unlink.
  pose proof (resolve_clear f false tmp Hwf) as Hr. destruct (resolve f false (abs_path tmp)) as [m|p x|e]; [|done|done].
  destruct Hr as [_ [? ?]]; [|congruence]. apply clear_is_above, temp_clear; [done|]. intros k. by rewrite Hfresh.
Qed.
(** What a run is worth: how it ended, and every state it passed through. *)
Definition atomic_run (o : faults) (r : result WriteError unit) (states : list fs_t) : Prop :=
  (forall g, g ∈ states -> kept_or_written g) /\
  match r, head states with
  | Ok _, Some final => final = <[n := EFile content]> f
  | Err _, Some final => final = f \/ bad_cleanup o = true /\ exists c, final = <[tmp := EFile c]> f
  | _, None => False
  end.
Lemma commit_run o g prior fail rest : staged g content -> (forall h, h ∈ rest -> kept_or_written h) ->
  let '(r, states) := commit_temp o g (abs_path tmp) (abs_path n) prior fail in atomic_run o r (states ++ rest).
Proof.
  intros Hs Hrest. unfold commit_temp. set (renamed := if prior && _ then _ else _).
  destruct renamed as [g'|e] eqn:E.
  - assert (Hr : rename g (abs_path tmp) (abs_path n) = Ok g').
    { unfold renamed in E. repeat (case_match; [done|]). unfold map_err in E. by case_match; simplify_eq. }
    apply (rename_staged g content) in Hr as [-> Hg']; [|done]. split; [|done]. cbn. intros h [-> |[-> |Hh]%elem_of_cons]%elem_of_cons.
    + split_and!; [done|by right|]. intros m Hm _. by rewrite lookup_insert_ne.
    + by eapply staged_kept.
    + by apply Hrest.
  - split.
    + cbn. intros h [-> |[-> |Hh]%elem_of_cons]%elem_of_cons; [by eapply remove_kept|by eapply staged_kept|by apply Hrest].
    + cbn. destruct (remove_staged o g content Hs) as [->|[-> Hb]]; [by left|right]. split; [done|]. exists content. apply Hs.
Qed.
End atomic.

Lemma atomic_run_spec o pid seq f d x content fail require :
  let n := d ++ [x] in let tmp := d ++ [temp_name x TMP_TAG pid seq] in
  fs_wf f -> clear_above f n -> f !! tmp = None ->
  let '(r, states) := apply_atomic_inner o pid seq f (abs_path n) content fail require in
  atomic_run f n d (temp_name x TMP_TAG pid seq) content o r states.
Proof.
  intros n tmp Hwf Hc Hfresh. set (t := temp_name x TMP_TAG pid seq) in *.
  assert (Hd : clear_path f d). { intros l [k E]. apply Hc; [by exists (k ++ [x]); unfold n; rewrite E, app_assoc|].
    intros ->. apply (f_equal length) in E. unfold n in E. rewrite !length_app in E. cbn in E. lia. }
  assert (Hne : n <> d ++ [t]). { unfold n. intros [_ E]%app_inj_tail. by apply (temp_name_longer x TMP_TAG pid seq). }
  assert (Hself : kept_or_written f n d t content f) by (by apply same_kept). unfold apply_atomic_inner, n. rewrite temp_path_abs. fold n t.
  assert (Hstart : forall e, atomic_run f n d t content o (Err e) [remove_temp o f (abs_path (d ++ [t])); f]).
  { intros e. rewrite remove_fresh by done. split; [|by left]. by intros g [->|[->|[]%elem_of_nil]%elem_of_cons]%elem_of_cons. }
  destruct (stat_target _ _ _ _) as [prior|e]; [|apply Hstart]. destruct (create_temp _ _ _) as [f1|e] eqn:E1; [|apply Hstart].
  apply create_staged in E1; [|done..]. assert (Hk1 : kept_or_written f n d t content f1) by (by eapply staged_kept).
  assert (Hw : let '(r, g') := write_temp o f1 (abs_path (d ++ [t])) content in exists c', staged f d t g' c' /\ (r = Ok tt -> c' = content)) by (by eapply write_staged).
  destruct (write_temp _ _ _ _) as [[[]|e] f2]; destruct Hw as (c & Hs & Hcontent).
  - rewrite (Hcontent eq_refl) in Hs. 
    assert (Hrest : forall h, h ∈ [f1; f] -> kept_or_written f n d t content h) by by intros h [->|[->|[]%elem_of_nil]%elem_of_cons]%elem_of_cons.
    assert (Hrun : let '(r, states) := commit_temp o f2 (abs_path (d ++ [t])) (abs_path n) prior fail in atomic_run f n d t content o r (states ++ [f1; f]))
      by (by eapply commit_run).
    by destruct (commit_temp _ _ _ _ _ _).
  - split.
    + intros g [->|[->|[->|[->|[]%elem_of_nil]%elem_of_cons]%elem_of_cons]%elem_of_cons]%elem_of_cons; try done; [by eapply remove_kept|by eapply staged_kept].
    + cbn. assert (Hrem : remove_temp o f2 (abs_path (d ++ [t])) = f \/ remove_temp o f2 (abs_path (d ++ [t])) = f2 /\ bad_cleanup o = true) by (by eapply remove_staged).
      destruct Hrem as [->|[-> Hb]]; [by left|right]. split; [done|]. exists c. apply Hs.
Qed.

(** With nothing failing, the write happens: a file is there, or may be
    created, in a directory that exists. *)
Lemma atomic_no_faults pid seq f d x content require :
  let n := d ++ [x] in let tmp := d ++ [temp_name x TMP_TAG pid seq] in
  fs_wf f -> clear_path f n -> f !! tmp = None -> f !! d = Some EDir ->
  (exists old, f !! n = Some (EFile old)) \/ f !! n = None /\ require = false ->
  (apply_atomic_inner no_faults pid seq f (abs_path n) content false require).1 = Ok tt.
Proof.
  intros n tmp Hwf Hc Hfresh Hd Hn. unfold apply_atomic_inner, n. rewrite temp_path_abs.
  assert (Hlast : forall (g : fs_t) follow y, fs_wf g -> g !! d = Some EDir -> (follow = true -> no_link g (d ++ [y])) ->
    resolve g follow (abs_path (d ++ [y])) = match g !! (d ++ [y]) with Some _ => Found (d ++ [y]) | None => Missing d y end) by (intros; by apply resolve_last).
  assert (Hstat : exists prior, stat_target no_faults f (abs_path (d ++ [x])) require = Ok prior).
  { unfold stat_target. cbn [no_faults bad_stat]. rewrite Hlast by (done || (intros _; by apply Hc)). fold n.
    destruct Hn as [[o ->]|[-> ->]]; eauto. }
  destruct Hstat as [prior ->].
  assert (Hnt : n <> tmp) by (unfold n, tmp; intros [_ E]%app_inj_tail; by apply (temp_name_longer x TMP_TAG pid seq)).
  assert (Hwf1 : forall c, fs_wf (<[tmp := EFile c]> f)) by (intros c; apply insert_wf; auto).
  assert (Hd1 : forall c, (<[tmp := EFile c]> f) !! d = Some EDir).
  { intros c. rewrite lookup_insert_ne; [done|]. intros E. apply (f_equal length) in E. unfold tmp in E. rewrite length_app in E. cbn in E. lia. }
  assert (Hput : forall c, open_create (<[tmp := EFile c]> f) (abs_path tmp) (fun _ => content) = Ok (<[tmp := EFile content]> f)).
  { intros c. unfold open_create, tmp. rewrite Hlast by (done || (intros _ k; fold tmp; by rewrite lookup_insert_eq)). fold tmp.
    rewrite !lookup_insert_eq. by rewrite insert_insert_eq. }
  unfold create_temp. cbn [no_faults bad_create]. assert (Ho : open_create f (abs_path tmp) (fun _ => []) = Ok (<[tmp := EFile []]> f)).
  { unfold open_create, tmp. rewrite Hlast by (done || (intros _ k; fold tmp; by rewrite Hfresh)). fold tmp. by rewrite Hfresh. }
  fold tmp. rewrite Ho. cbn [map_err]. unfold write_temp. cbn [no_faults bad_write bad_sync]. rewrite Hput.
  unfold commit_temp. cbn [no_faults bad_perms bad_chown bad_rename]. rewrite !andb_false_r.
  assert (Hren : exists g, rename (<[tmp := EFile content]> f) (abs_path tmp) (abs_path n) = Ok g).
  { assert (Hrt : resolve (<[tmp := EFile content]> f) false (abs_path tmp) = Found tmp).
    { unfold tmp. rewrite (Hlast _ false) by done. fold tmp. by rewrite lookup_insert_eq. }
    assert (Hrn : resolve (<[tmp := EFile content]> f) false (abs_path n) = match f !! n with Some _ => Found n | None => Missing d x end).
    { unfold n. rewrite (Hlast _ false) by done. fold n. by rewrite lookup_insert_ne. }
    unfold rename. rewrite Hrt, Hrn. assert (Hb : is_below tmp n = false).
    { apply not_true_iff_false. intros [r Hr]%below_spec. pose proof (f_equal length Hr) as E. unfold n, tmp in E. rewrite !length_app in E. cbn in E.
      destruct r; [|cbn in E; lia]. by rewrite app_nil_r in Hr. }
    assert (Hdir : is_dir_at (<[tmp := EFile content]> f) tmp = false) by (unfold is_dir_at; by rewrite lookup_insert_eq, bool_decide_false).
    assert (Hne : exists t0 t1, tmp = t0 :: t1) by (unfold tmp; destruct d; cbn; eauto). destruct Hne as (t0 & t1 & Et). rewrite Hdir, Et, <- Et.
    destruct Hn as [[o Ho']|[Ho' _]]; rewrite Ho'.
    - assert (Hne : exists t0 t1, n = t0 :: t1) by (unfold n; destruct d; cbn; eauto). destruct Hne as (n0 & n1 & En). rewrite En, <- En.
      rewrite bool_decide_false by congruence. assert (Hdn : is_dir_at (<[tmp := EFile content]> f) n = false).
      { unfold is_dir_at. by rewrite lookup_insert_ne, Ho', bool_decide_false by done. }
      rewrite Hdn. cbn [mbind result_bind]. rewrite bool_decide_false by congruence. rewrite Hb. eauto.
    - cbn [mbind result_bind]. fold n. rewrite bool_decide_false by congruence. rewrite Hb. eauto. }
  fold n. destruct Hren as [g ->]. done.
Qed.

(** C36: [apply_atomic_inner] is all or nothing, on a target no directory
    above which is a link and beside which nothing has the name of the
    temporary file (a link planted there is followed, file_patch.rs:596).
    Whatever fails and wherever the run is cut, in every state the tree is
    well formed, the target holds its old entry or the whole new content, and
    nothing but the target and the temporary file differs. A run that succeeds
    ends in the tree with the content in place and no temporary file; one that
    fails ends in the tree it started from, or, when the cleanup fails too, in
    that tree with the temporary file beside the target. With nothing failing
    it succeeds on a file, and on a free name where the target may be created.
    *)
Theorem atomic_all_or_nothing o pid seq f d x content fail require :
  let n := d ++ [x] in let tmp := d ++ [temp_name x TMP_TAG pid seq] in
  fs_wf f -> clear_above f n -> f !! tmp = None ->
  let '(r, states) := apply_atomic_inner o pid seq f (abs_path n) content fail require in
  (forall g, g ∈ states -> fs_wf g /\ (g !! n = f !! n \/ g !! n = Some (EFile content)) /\ forall m, m <> n -> m <> tmp -> g !! m = f !! m) /\
  match r, head states with
  | Ok _, Some final => final = <[n := EFile content]> f
  | Err _, Some final => final = f \/ bad_cleanup o = true /\ exists c, final = <[tmp := EFile c]> f
  | _, None => False
  end /\
  (o = no_faults -> fail = false -> clear_path f n -> f !! d = Some EDir ->
   (exists old, f !! n = Some (EFile old)) \/ f !! n = None /\ require = false -> r = Ok tt).
Proof.
  intros n tmp Hwf Hc Hfresh. pose proof (atomic_run_spec o pid seq f d x content fail require Hwf Hc Hfresh) as Hrun.
  pose proof (fun Hp Hd => atomic_no_faults pid seq f d x content require Hwf Hp Hfresh Hd) as Hgood. cbn zeta in Hrun, Hgood. fold n in Hrun, Hgood.
  destruct (apply_atomic_inner o pid seq f (abs_path n) content fail require) as [r states] eqn:E. destruct Hrun as [Hall Hend]. split_and!; [|done|].
  - intros g Hg. destruct (Hall g Hg) as (Hw & Hn & Hm). split_and!; [done| |done]. destruct Hn as [|E']; [by left|right]. subst g. by rewrite lookup_insert_eq.
  - intros -> -> Hp Hd Hn. specialize (Hgood Hp Hd Hn). by rewrite E in Hgood.
Qed.
Lemma atomic_all_or_nothing_witness :
  let f : fs_t := <[["w"; "a"] := EFile [1]]> (<[["w"] := EDir]> {[[] := EDir]}) in
  (apply_atomic_inner no_faults "1" "7" f (abs_path ["w"; "a"]) [2; 3] false true).1 = Ok tt /\
  let '(r, states) := apply_atomic_inner no_faults "1" "7" f (abs_path (["w"] ++ ["a"])) [2; 3] false true in
  forall g, g ∈ states -> g !! ["w"; "a"] = Some (EFile [1]) \/ g !! ["w"; "a"] = Some (EFile [2; 3]).
Proof.
  intros f. split; [vm_compute; reflexivity|].
  assert (Hwf : fs_wf f).
  { split; [done|]. intros d n e He. unfold f in *. rewrite !lookup_insert_Some in He. destruct He as [[E _]|[_ [[E _]|[_ E]]]].
    - destruct d as [|d0 [|d1 [|]]]; try done. by injection E as <- <-.
    - destruct d as [|d0 [|]]; try done.
    - apply lookup_singleton_Some in E as [E _]. by destruct d. }
  assert (Hc : clear_above f (["w"] ++ ["a"])).
  { intros l [k E] _ t Ht. unfold f in Ht. rewrite !lookup_insert_Some in Ht. destruct Ht as [[_ ?]|[_ [[_ ?]|[_ Ht]]]]; [done|done|].
    by apply lookup_singleton_Some in Ht as [_ ?]. }
  pose proof (atomic_all_or_nothing no_faults "1" "7" f ["w"] "a" [2; 3] false true Hwf Hc ltac:(vm_compute; reflexivity)) as H.
  destruct (apply_atomic_inner _ _ _ _ _ _ _ _) as [r states]. destruct H as [H _]. intros g Hg. destruct (H g Hg) as (_ & [E|E] & _); [left|by right].
  etrans; [exact E|]. vm_compute. reflexivity.
Defined.
