(* ===== verification/Patch.v ===== *)
(** * Exact-string patching

    The planning core of [tools/file_patch.rs]: every edit is matched against
    the original bytes, the matches must not overlap, and the output replaces
    exactly them. Errors carry what their text names. *)

From stdpp Require Import sorting.
From S2P Require Import Prelude Bytes Sse.

(** ** Matching *)

Definition slice_at (h : bytes) (s n : nat) : bytes := take n (drop s h).
Fixpoint find_from (fuel : nat) (haystack needle : bytes) (first : Z) (last_start i : nat) : list nat :=
  match fuel with
  | O => []
  | S fuel =>
      if (i <=? last_start)%nat then
        match position first (slice_at haystack i (S last_start - i)) with
        | None => []
        | Some off =>
            let s := (i + off)%nat in
            if bool_decide (slice_at haystack s (length needle) = needle)
            then s :: find_from fuel haystack needle first last_start (s + length needle)
            else find_from fuel haystack needle first last_start (s + 1)
        end
      else []
  end.
Definition find_all (haystack needle : bytes) : list nat :=
  match needle with
  | [] => []
  | first :: _ =>
      if (length haystack <? length needle)%nat then []
      else find_from (S (length haystack)) haystack needle first (length haystack - length needle) 0
  end.

(** ** The plan *)

Record Edit := {
  old : bytes;
  new : bytes;
  (** What the other escape mode would look for, and the [raw] it needs. *)
  alt_old : option (bytes * bool);
  replace_all : bool;
  expect_count : option Z;
  note : option (list (list Z));
}.
Record EditReport := { spans : list nat; old_len : nat; new_len : nat; report_note : option (list (list Z)) }.
Record PatchPlan := { output : bytes; reports : list EditReport; total_replacements : nat }.
Inductive PatchError :=
| NoEdits
| EmptyOld (idx : nat)
| ZeroMatch (idx : nat)
| CountMismatch (idx : nat) (expected : Z) (count : nat)
| Ambiguous (idx count : nat)
| Overlapping (i1 i2 : nat).

(** A match: start, end, index of the edit. *)
Definition span : Type := nat * nat * nat.
Definition s_start (s : span) : nat := s.1.1.
Definition s_end (s : span) : nat := s.1.2.
Definition s_edit (s : span) : nat := s.2.
(** The order of tuples. *)
Definition span_le (a b : span) : Prop :=
  (s_start a < s_start b)%nat \/ s_start a = s_start b /\ ((s_end a < s_end b)%nat \/ s_end a = s_end b /\ (s_edit a <= s_edit b)%nat).
#[export] Instance span_le_dec a b : Decision (span_le a b).
Proof. unfold span_le. solve_decision. Defined.

Definition match_edit (buffer : bytes) (idx : nat) (edit : Edit) : result PatchError (list nat) :=
  if bool_decide (old edit = []) then Err (EmptyOld idx) else
  let spans := find_all buffer (old edit) in
  let count := length spans in
  if (count =? 0)%nat then Err (ZeroMatch idx) else
  match expect_count edit with
  | Some expected =>
      if negb (Z.of_nat count =? expected) then Err (CountMismatch idx expected count)
      else if (1 <? count)%nat && negb (replace_all edit) then Err (Ambiguous idx count) else Ok spans
  | None => if (1 <? count)%nat && negb (replace_all edit) then Err (Ambiguous idx count) else Ok spans
  end.
Fixpoint match_edits (buffer : bytes) (idx : nat) (edits : list Edit) : result PatchError (list (list nat)) :=
  match edits with
  | [] => Ok []
  | edit :: edits =>
      let? spans := match_edit buffer idx edit in
      let? kept := match_edits buffer (S idx) edits in
      Ok (spans :: kept)
  end.
Definition edit_spans (idx : nat) (edit : Edit) (starts : list nat) : list span :=
  map (fun s => (s, s + length (old edit), idx)%nat) starts.
Fixpoint spans_of (idx : nat) (edits : list Edit) (kept : list (list nat)) : list span :=
  match edits, kept with
  | edit :: edits, starts :: kept => edit_spans idx edit starts ++ spans_of (S idx) edits kept
  | _, _ => []
  end.
(** [windows(2)] *)
Fixpoint check_overlap (spans : list span) : result PatchError unit :=
  match spans with
  | a :: ((b :: _) as rest) => if (s_start b <? s_end a)%nat then Err (Overlapping (s_edit a) (s_edit b)) else check_overlap rest
  | _ => Ok tt
  end.
Fixpoint replace_spans (buffer : bytes) (edits : list Edit) (cursor : nat) (spans : list span) : bytes :=
  match spans with
  | [] => drop cursor buffer
  | s :: spans =>
      slice_at buffer cursor (s_start s - cursor)
        ++ match edits !! s_edit s with Some e => new e | None => [] end
        ++ replace_spans buffer edits (s_end s) spans
  end.
Fixpoint report_edits (edits : list Edit) (kept : list (list nat)) : list EditReport :=
  match edits, kept with
  | edit :: edits, starts :: kept =>
      {| spans := starts; old_len := length (old edit); new_len := length (new edit); report_note := note edit |} :: report_edits edits kept
  | _, _ => []
  end.
Definition plan_patch (buffer : bytes) (edits : list Edit) : result PatchError PatchPlan :=
  if bool_decide (edits = []) then Err NoEdits else
  let? kept := match_edits buffer 0 edits in
  let all_spans := merge_sort span_le (spans_of 0 edits kept) in
  let? _ := check_overlap all_spans in
  Ok {| output := replace_spans buffer edits 0 all_spans; reports := report_edits edits kept; total_replacements := length all_spans |}.

#[export] Instance edit_eq_dec : EqDecision Edit.
Proof. solve_decision. Defined.

(** ** What the matches are *)

(** The occurrences a left-to-right scan takes, none overlapping the one
    before: the reference. *)
Definition occurs_at (h n : bytes) (s : nat) : Prop := (s + length n <= length h)%nat /\ slice_at h s (length n) = n.
Inductive scan (h n : bytes) : nat -> list nat -> Prop :=
| scan_none i : (forall s, (i <= s)%nat -> ~ occurs_at h n s) -> scan h n i []
| scan_next i s l : (i <= s)%nat -> occurs_at h n s -> (forall s', (i <= s' < s)%nat -> ~ occurs_at h n s') ->
    scan h n (s + length n) l -> scan h n i (s :: l).
Lemma scan_unique h n i l l' : scan h n i l -> scan h n i l' -> l = l'.
Proof.
  intros H. revert l'. induction H as [i Hn|i s l Hi Ho Hn Hs IH]; intros l' H'; inversion H' as [? Hn'|? s' k Hi' Ho' Hn' Hs']; subst.
  - done.
  - by destruct (Hn s' Hi').
  - by destruct (Hn' s Hi).
  - assert (s = s') as ->; [|by rewrite (IH k)].
    destruct (lt_eq_lt_dec s s') as [[Hlt|]|Hlt]; [by destruct (Hn' s)|done|by destruct (Hn s')].
Qed.
Lemma scan_shift h n i j l : (i <= j)%nat -> (forall s, (i <= s < j)%nat -> ~ occurs_at h n s) -> scan h n j l -> scan h n i l.
Proof.
  intros Hij Hno Hs. inversion Hs as [? Hn|? s k Hj Ho Hn Hk]; subst.
  - apply scan_none. intros s Hs'. destruct (le_lt_dec j s); [apply Hn; lia|apply Hno; lia].
  - apply scan_next; [lia|done| |done]. intros s' Hs'. destruct (le_lt_dec j s'); [apply Hn; lia|apply Hno; lia].
Qed.
(** An occurrence starts with the first byte of the needle. *)
Lemma occurs_first h x n s : occurs_at h (x :: n) s -> h !! s = Some x.
Proof.
  intros [Hl Hs]. unfold slice_at in Hs. cbn in Hl. assert (E : take (length (x :: n)) (drop s h) !! 0%nat = Some x) by by rewrite Hs.
  rewrite lookup_take_lt in E by (cbn; lia). by rewrite lookup_drop, Nat.add_0_r in E.
Qed.
Lemma slice_lookup h i len k : (k < len)%nat -> slice_at h i len !! k = h !! (i + k)%nat.
Proof. intros Hk. unfold slice_at. by rewrite lookup_take_lt, lookup_drop. Qed.
Lemma position_first x h i len off : position x (slice_at h i len) = Some off ->
  (off < len)%nat /\ forall s, (i <= s < i + off)%nat -> h !! s <> Some x.
Proof.
  intros (a & c & E & Hl & Ha)%position_Some. assert (Hlen : (off < length (slice_at h i len))%nat) by (rewrite E, length_app; cbn; lia).
  assert (Hoff : (off < len)%nat) by (unfold slice_at in Hlen; rewrite length_take in Hlen; lia). split; [done|].
  intros s Hs Hx. apply Ha. apply (list_elem_of_lookup_2 _ (s - i)). rewrite <- (lookup_app_l a (x :: c)) by lia.
  rewrite <- E, slice_lookup by lia. by replace (i + (s - i))%nat with s by lia.
Qed.
Lemma position_never x h i len : position x (slice_at h i len) = None -> forall s, (i <= s < i + len)%nat -> h !! s <> Some x.
Proof.
  intros Hn%position_None s Hs Hx. apply Hn. apply (list_elem_of_lookup_2 _ (s - i)). rewrite slice_lookup by lia.
  by replace (i + (s - i))%nat with s by lia.
Qed.
Lemma find_all_scan h n : n <> [] -> scan h n 0 (find_all h n).
Proof.
  destruct n as [|x n]; [done|]. intros _. unfold find_all. destruct (Nat.ltb_spec (length h) (length (x :: n))) as [Hlt|Hle].
  - apply scan_none. intros s _ [Hl _]. lia.
  - set (last := (length h - length (x :: n))%nat).
    assert (Hlast : forall s, occurs_at h (x :: n) s -> (s <= last)%nat) by (intros s [Hl _]; unfold last; lia).
    assert (Hgen : forall fuel i, (length h < fuel + i)%nat -> scan h (x :: n) i (find_from fuel h (x :: n) x last i)); [|by apply Hgen; lia].
    induction fuel as [|fuel IH]; intros i Hf; cbn [find_from].
    + apply scan_none. intros s Hs [Hl _]. cbn in Hl. lia.
    + destruct (Nat.leb_spec i last) as [Hi|Hi]; [|apply scan_none; intros s Hs Ho; apply Hlast in Ho; lia].
      destruct (position x (slice_at h i (S last - i))) as [off|] eqn:Ep.
      * apply position_first in Ep as [Hoff Hno].
        assert (Hskip : forall s, (i <= s < i + off)%nat -> ~ occurs_at h (x :: n) s) by (intros s Hs Ho%occurs_first; by destruct (Hno s)).
        case_bool_decide as E.
        -- apply scan_next; [lia|split; [unfold last in *; lia|done]|done|apply IH; cbn; lia].
        -- apply (scan_shift _ _ _ (i + off + 1)); [lia| |apply IH; lia]. intros s Hs Ho. destruct (decide (s = i + off)%nat) as [->|]; [by destruct Ho|].
           apply (Hskip s); [lia|done].
      * apply scan_none. intros s Hs Ho. pose proof (Hlast s Ho). by destruct (position_never _ _ _ _ Ep s ltac:(lia) (occurs_first _ _ _ _ Ho)).
Qed.

(** ** What a plan is *)

(** An edit whose matches may be replaced. *)
Record edit_ok (buffer : bytes) (e : Edit) : Prop := {
  ok_old : old e <> [];
  ok_found : find_all buffer (old e) <> [];
  ok_count : forall k, expect_count e = Some k -> Z.of_nat (length (find_all buffer (old e))) = k;
  ok_unique : replace_all e = true \/ length (find_all buffer (old e)) = 1%nat;
}.
(** The stretches of the buffer to replace, each with its new content. *)
Definition place : Type := nat * nat * bytes.
Definition p_start (p : place) : nat := p.1.1.
Definition p_end (p : place) : nat := p.1.2.
Definition edit_places (buffer : bytes) (e : Edit) : list place := map (fun s => (s, s + length (old e), new e)%nat) (find_all buffer (old e)).
Definition places (buffer : bytes) (edits : list Edit) : list place := edits ≫= edit_places buffer.
Definition apart (a b : place) : Prop := (p_end a <= p_start b \/ p_end b <= p_start a)%nat.
Definition all_apart (l : list place) : Prop := forall i j a b, l !! i = Some a -> l !! j = Some b -> i <> j -> apart a b.

Lemma match_edit_ok buffer idx e l : match_edit buffer idx e = Ok l <-> edit_ok buffer e /\ l = find_all buffer (old e).
Proof.
  unfold match_edit. case_bool_decide as Eo; [split; [done|by intros [[] _]]|]. set (fs := find_all buffer (old e)).
  destruct (Nat.eqb_spec (length fs) 0) as [Ez|Ez].
  { split; [done|]. intros [Hok _]. destruct (ok_found _ _ Hok). by apply nil_length_inv in Ez. }
  assert (Hf : fs <> []) by (intros ->; done).
  assert (Htail : forall k, (forall n, k = Some n -> Z.of_nat (length fs) = n) -> expect_count e = k ->
    (if (1 <? length fs)%nat && negb (replace_all e) then Err (Ambiguous idx (length fs)) else Ok fs) = Ok l <-> edit_ok buffer e /\ l = fs).
  { intros k Hk Ek. destruct (replace_all e) eqn:Er; cbn [negb]; [rewrite andb_false_r|rewrite andb_true_r].
    - split; [intros [= <-]|by intros [_ ->]]. split; [|done]. split; [done|done|by rewrite Ek|by left].
    - destruct (Nat.ltb_spec 1 (length fs)); [split; [done|]|].
      + intros [Hok _]. destruct (ok_unique _ _ Hok) as [|Hu]; [congruence|]. fold fs in Hu. lia.
      + split; [intros [= <-]|by intros [_ ->]]. split; [|done]. split; [done|done|by rewrite Ek|right; fold fs; lia]. }
  destruct (expect_count e) as [k|] eqn:Ek; [|by apply (Htail None)]. destruct (Z.eqb_spec (Z.of_nat (length fs)) k) as [E|E]; cbn [negb].
  - apply (Htail (Some k)); [by intros n [= <-]|done].
  - split; [done|]. intros [Hok _]. by destruct E, (ok_count _ _ Hok k).
Qed.
Lemma match_edits_ok buffer idx edits kept : match_edits buffer idx edits = Ok kept <->
  Forall (edit_ok buffer) edits /\ kept = map (fun e => find_all buffer (old e)) edits.
Proof.
  revert idx kept; induction edits as [|e edits IH]; intros idx kept; cbn [match_edits map]; [split; [by intros [= <-]|by intros [_ ->]]|].
  rewrite Forall_cons. destruct (match_edit buffer idx e) as [l|er] eqn:E; cbn [mbind result_bind].
  - apply match_edit_ok in E as [Hok ->]. destruct (match_edits buffer (S idx) edits) as [k|er] eqn:E'; cbn [mbind result_bind].
    + apply IH in E' as [Hall ->]. split; [by intros [= <-]|by intros [_ ->]].
    + split; [done|]. intros [[_ Hall] ->]. assert (Err er = Ok (map (fun e => find_all buffer (old e)) edits)) as [=].
      rewrite <- E'. by apply IH.
  - split; [done|]. intros [[Hok _] _]. assert (Err er = Ok (find_all buffer (old e))) as [=]. rewrite <- E. by apply match_edit_ok.
Qed.

(** The spans are the places, named by their edit. *)
Definition tag (edits : list Edit) (s : span) : place := (s.1, match edits !! s_edit s with Some e => new e | None => [] end).
Lemma tag_places buffer pre edits :
  map (tag (pre ++ edits)) (spans_of (length pre) edits (map (fun e => find_all buffer (old e)) edits)) = places buffer edits.
Proof.
  revert pre; induction edits as [|e edits IH]; intros pre; [done|]. cbn [spans_of map]. rewrite map_app. unfold places. cbn. f_equal.
  - unfold edit_spans, edit_places. rewrite map_map. apply map_ext. intros s. unfold tag, s_edit. cbn.
    by rewrite list_lookup_middle.
  - specialize (IH (pre ++ [e])). rewrite <- app_assoc, length_app in IH. cbn in IH. rewrite Nat.add_comm in IH. apply IH.
Qed.

Lemma sorted_lookup {A} (R : relation A) l i j a b : StronglySorted R l -> l !! i = Some a -> l !! j = Some b -> (i < j)%nat -> R a b.
Proof.
  intros Hs. revert i j. induction Hs as [|x l Hs IH Hx]; intros i j Ha Hb Hij; [done|]. destruct j as [|j]; [lia|]. destruct i as [|i].
  - injection Ha as ->. rewrite Forall_forall in Hx. apply Hx. by eapply list_elem_of_lookup_2.
  - apply (IH i j); [done|done|lia].
Qed.
Lemma lookup_sorted {A} (R : relation A) l : (forall i j a b, l !! i = Some a -> l !! j = Some b -> (i < j)%nat -> R a b) -> StronglySorted R l.
Proof.
  induction l as [|x l IH]; intros Hl; constructor.
  - apply IH. intros i j a b Ha Hb Hij. apply (Hl (S i) (S j)); [done|done|lia].
  - apply Forall_forall. intros y [j Hj]%list_elem_of_lookup_1. apply (Hl 0%nat (S j)); [done|done|lia].
Qed.
Lemma Forall_map_iff {A B} (f : A -> B) (P : B -> Prop) l : Forall (fun a => P (f a)) l <-> Forall P (map f l).
Proof. induction l as [|x l IH]; [by split; constructor|]. cbn. by rewrite !Forall_cons, IH. Qed.
Lemma sorted_map {A B} (f : A -> B) (R : relation B) l : StronglySorted (fun a b => R (f a) (f b)) l <-> StronglySorted R (map f l).
Proof.
  induction l as [|x l IH]; [by split; constructor|]. cbn. split; intros Hs; inversion Hs as [|? ? Hl Hx]; subst; constructor.
  - by apply IH.
  - exact (proj1 (Forall_map_iff f (R (f x)) l) Hx).
  - by apply IH.
  - exact (proj2 (Forall_map_iff f (R (f x)) l) Hx).
Qed.

Definition s_before (a b : span) : Prop := (s_end a <= s_start b)%nat.
Definition p_before (a b : place) : Prop := (p_end a <= p_start b)%nat.
#[export] Instance span_le_total : Total span_le.
Proof. intros a b. unfold span_le. lia. Qed.
#[export] Instance span_le_trans : Transitive span_le.
Proof. intros a b c. unfold span_le. lia. Qed.
Lemma check_before l : Forall (fun s => (s_start s < s_end s)%nat) l -> check_overlap l = Ok tt <-> StronglySorted s_before l.
Proof.
  induction l as [|a l IH]; [by split; [constructor|]|]. intros [Ha Hl]%Forall_cons. specialize (IH Hl). destruct l as [|b l].
  - split; [|done]. intros _. by repeat constructor.
  - change (check_overlap (a :: b :: l)) with (if (s_start b <? s_end a)%nat then Err (Overlapping (s_edit a) (s_edit b)) else check_overlap (b :: l)).
    apply Forall_cons in Hl as [Hb Hl]. destruct (Nat.ltb_spec (s_start b) (s_end a)) as [Hlt|Hle].
    + split; [done|]. intros Hs. inversion Hs as [|? ? _ Hx]; subst. apply Forall_cons in Hx as [Hx _]. unfold s_before in Hx. lia.
    + rewrite IH. split; [|by inversion 1]. intros Hs. constructor; [done|]. constructor; [done|]. inversion Hs as [|? ? _ Hx]; subst.
      eapply Forall_impl; [exact Hx|]. unfold s_before. intros c. lia.
Qed.
Lemma apart_before l (f : span -> place) : (forall s, (f s).1 = s.1) -> Forall (fun s => (s_start s < s_end s)%nat) l -> StronglySorted span_le l ->
  StronglySorted s_before l <-> all_apart (map f l).
Proof.
  intros Hf Hlen Hs. assert (Hi : forall i a, map f l !! i = Some a -> exists s, l !! i = Some s /\ a = f s).
  { intros i a Ha. rewrite list_lookup_fmap in Ha. by apply fmap_Some in Ha. }
  assert (Hst : forall s, p_start (f s) = s_start s /\ p_end (f s) = s_end s) by (intros s; unfold p_start, p_end; by rewrite Hf).
  split.
  - intros Hb i j a b (s & Hi1 & ->)%Hi (t & Hj1 & ->)%Hi Hij. unfold apart. destruct (Hst s) as [-> ->], (Hst t) as [-> ->].
    destruct (decide (i < j)%nat); [left; apply (sorted_lookup _ l i j s t Hb); done|right; apply (sorted_lookup _ l j i t s Hb); [done|done|lia]].
  - intros Ha. apply lookup_sorted. intros i j s t Hi1 Hj1 Hij. pose proof (sorted_lookup _ l i j s t Hs Hi1 Hj1 Hij) as Hle.
    assert (Hap : apart (f s) (f t)). { apply (Ha i j); [by rewrite list_lookup_fmap, Hi1|by rewrite list_lookup_fmap, Hj1|lia]. }
    rewrite Forall_lookup in Hlen. pose proof (Hlen j t Hj1). pose proof (Hlen i s Hi1). unfold apart in Hap. destruct (Hst s) as [E1 E2], (Hst t) as [E3 E4].
    rewrite E1, E2, E3, E4 in Hap. unfold s_before, span_le in *. lia.
Qed.
Lemma apart_perm l l' : l ≡ₚ l' -> all_apart l -> all_apart l'.
Proof.
  intros [_ (f & Hf & Hl)]%symmetry%Permutation_inj Ha i j a b Hi Hj Hij. rewrite Hl in Hi, Hj. apply (Ha (f i) (f j)); [done|done|]. by intros ?%(inj f).
Qed.
#[export] Instance apart_proper : Proper ((≡ₚ) ==> iff) all_apart.
Proof. intros l l' Hl. split; apply apart_perm; [done|by symmetry]. Qed.
#[export] Instance places_proper buffer : Proper ((≡ₚ) ==> (≡ₚ)) (places buffer).
Proof. apply bind_Permutation. Qed.

(** The replacement on places, and the shape of a plan. *)
Fixpoint replace_places (buffer : bytes) (cursor : nat) (l : list place) : bytes :=
  match l with
  | [] => drop cursor buffer
  | p :: l => slice_at buffer cursor (p_start p - cursor) ++ p.2 ++ replace_places buffer (p_end p) l
  end.
Lemma replace_tag buffer edits cursor l : replace_spans buffer edits cursor l = replace_places buffer cursor (map (tag edits) l).
Proof. revert cursor; induction l as [|s l IH]; intros cursor; cbn; [done|]. by rewrite IH. Qed.
Lemma spans_wide buffer edits idx : Forall (edit_ok buffer) edits ->
  Forall (fun s => (s_start s < s_end s)%nat) (spans_of idx edits (map (fun e => find_all buffer (old e)) edits)).
Proof.
  intros Hok. revert idx; induction Hok as [|e edits He _ IH]; intros idx; cbn [spans_of map]; [constructor|]. apply Forall_app. split; [|apply IH].
  apply Forall_fmap. apply Forall_true. intros s. unfold s_start, s_end. cbn. pose proof (ok_old _ _ He). destruct (old e); [done|]. cbn. lia.
Qed.
Lemma place_wide buffer edits p : Forall (edit_ok buffer) edits -> p ∈ places buffer edits -> (p_start p < p_end p)%nat.
Proof.
  intros Hok (e & Hp & He)%list_elem_of_bind. apply list_elem_of_In, in_map_iff in Hp as (s & <- & _). rewrite Forall_forall in Hok.
  pose proof (ok_old _ _ (Hok e He)). unfold p_start, p_end. cbn. destruct (old e); [done|]. cbn. lia.
Qed.
Definition plan_of (buffer : bytes) (edits : list Edit) (p : PatchPlan) : Prop := exists l,
  l ≡ₚ places buffer edits /\ StronglySorted p_before l /\ output p = replace_places buffer 0 l /\ total_replacements p = length l.
Lemma plan_patch_shape buffer edits : edits <> [] ->
  match plan_patch buffer edits with
  | Ok p => Forall (edit_ok buffer) edits /\ all_apart (places buffer edits) /\ plan_of buffer edits p
  | Err _ => ~ (Forall (edit_ok buffer) edits /\ all_apart (places buffer edits))
  end.
Proof.
  intros Hne. unfold plan_patch. rewrite bool_decide_false by done. destruct (match_edits buffer 0 edits) as [kept|e] eqn:Em; cbn [mbind result_bind].
  2: { intros [Hok _]. assert (Err e = Ok (map (fun e => find_all buffer (old e)) edits)) as [=]. rewrite <- Em. by apply match_edits_ok. }
  apply match_edits_ok in Em as [Hok ->]. set (sp := spans_of 0 edits _). set (l := merge_sort span_le sp).
  assert (Hp : l ≡ₚ sp) by apply merge_sort_Permutation. assert (Hs : StronglySorted span_le l) by (apply StronglySorted_merge_sort; apply _).
  assert (Hw : Forall (fun s => (s_start s < s_end s)%nat) l) by (rewrite Hp; by apply spans_wide).
  assert (Ht : map (tag edits) l ≡ₚ places buffer edits) by (rewrite <- (tag_places buffer [] edits); by apply Permutation_map).
  pose proof (check_before l Hw) as Hc. pose proof (apart_before l (tag edits) (fun s => eq_refl) Hw Hs) as Ha.
  destruct (check_overlap l) as [[]|e]; cbn [mbind result_bind].
  - assert (Hb : StronglySorted s_before l) by by apply Hc. split_and!; [done|eapply apart_perm; [exact Ht|by apply Ha]|].
    exists (map (tag edits) l). split_and!; [done| |apply replace_tag|by rewrite length_map]. by apply (sorted_map (tag edits) p_before).
  - intros [_ Hap]. assert (Err e = Ok tt) as [=]. apply Hc, Ha. eapply apart_perm; [symmetry; exact Ht|done].
Qed.

(** when a patch is accepted. [plan_patch] succeeds exactly when there is
    an edit and every edit's old text is not empty, occurs, as often as it
    was said to if it was, and only once unless all its occurrences are to
    be replaced, and no two occurrences of any edits overlap. *)
Theorem plan_accepts_exactly buffer edits :
  (exists p, plan_patch buffer edits = Ok p) <->
  edits <> [] /\ Forall (edit_ok buffer) edits /\ all_apart (places buffer edits).
Proof.
  destruct (decide (edits = [])) as [->|Hne]; [split; [by intros [p [=]]|by intros [[] _]]|].
  pose proof (plan_patch_shape buffer edits Hne) as Hs. destruct (plan_patch buffer edits) as [p|e].
  - destruct Hs as (? & ? & _). split; [done|by exists p].
  - split; [by intros [p [=]]|]. intros (_ & Hok). by destruct Hs.
Qed.

(** the order in which the edits are given does not matter: edits are
    matched against the original bytes, so a permutation of them is accepted
    alike and gives the same output. *)
Theorem plan_order_irrelevant buffer edits edits' : edits ≡ₚ edits' ->
  match plan_patch buffer edits, plan_patch buffer edits' with
  | Ok p, Ok p' => output p = output p' /\ total_replacements p = total_replacements p'
  | Err _, Err _ => True
  | _, _ => False
  end.
Proof.
  intros Hp. destruct (decide (edits = [])) as [->|Hne]; [by apply Permutation_nil_l in Hp as <-|].
  assert (Hne' : edits' <> []) by (intros ->; by apply Permutation_nil_r in Hp).
  pose proof (plan_patch_shape buffer edits Hne) as Hs. pose proof (plan_patch_shape buffer edits' Hne') as Hs'.
  assert (Hiff : Forall (edit_ok buffer) edits /\ all_apart (places buffer edits) <-> Forall (edit_ok buffer) edits' /\ all_apart (places buffer edits')) by by rewrite Hp.
  destruct (plan_patch buffer edits) as [p|], (plan_patch buffer edits') as [p'|]; [|naive_solver..|done].
  destruct Hs as (Hok & _ & l & Hl & Hb & -> & ->), Hs' as (_ & _ & l' & Hl' & Hb' & -> & ->).
  assert (l = l') as ->; [|done]. apply (StronglySorted_unique_strong p_before); [|done|done|by rewrite Hl, Hl', Hp].
  intros a b Ha Hb2. rewrite Hl in Ha. rewrite Hl', <- Hp in Hb2. apply place_wide in Ha, Hb2; [|done..]. unfold p_before. lia.
Qed.

(** *** What is replaced, and what stays *)

(** Stretches that stay, with the places between them. *)
Definition weave (field : place -> bytes) (segs : list (bytes * place)) (tail : bytes) : bytes :=
  foldr (fun s acc => s.1 ++ field s.2 ++ acc) tail segs.
Lemma weave_cons field g q segs tail : weave field ((g, q) :: segs) tail = g ++ field q ++ weave field segs tail.
Proof. done. Qed.
Definition text_at (buffer : bytes) (q : place) : bytes := slice_at buffer (p_start q) (p_end q - p_start q).
Lemma weave_places buffer l cursor : StronglySorted p_before l -> Forall (fun q => (p_start q < p_end q <= length buffer)%nat) l ->
  Forall (fun q => (cursor <= p_start q)%nat) l -> exists segs tail,
    map snd segs = l /\ drop cursor buffer = weave (text_at buffer) segs tail /\ replace_places buffer cursor l = weave snd segs tail /\
    forall segs1 g q segs2, segs = segs1 ++ (g, q) :: segs2 -> p_start q = (cursor + length (weave (text_at buffer) segs1 g))%nat.
Proof.
  intros Hs. revert cursor; induction Hs as [|q l _ IH Hq]; intros cursor Hw Hc.
  - exists [], (drop cursor buffer). split_and!; [done|done|done|]. by intros [].
  - apply Forall_cons in Hw as [[Hw1 Hw2] Hw], Hc as [Hc _]. destruct (IH (p_end q) Hw Hq) as (segs & tail & Hm & Hd & Hr & Hpos).
    set (gap := slice_at buffer cursor (p_start q - cursor)). exists ((gap, q) :: segs), tail. split_and!.
    + cbn. by rewrite Hm.
    + rewrite weave_cons, <- Hd. unfold text_at, slice_at, gap.
      replace (drop (p_end q) buffer) with (drop (p_end q - p_start q) (drop (p_start q) buffer)) by (rewrite drop_drop; f_equal; lia).
      rewrite take_drop. replace (drop (p_start q) buffer) with (drop (p_start q - cursor) (drop cursor buffer)) by (rewrite drop_drop; f_equal; lia).
      unfold slice_at. by rewrite take_drop.
    + rewrite weave_cons, <- Hr. done.
    + assert (Hgap : length gap = (p_start q - cursor)%nat) by (unfold gap, slice_at; rewrite length_take, length_drop; lia).
      intros [|[g1 q1] segs1] g q' segs2 E; cbn in E.
      * injection E as <- <- _. cbn. lia.
      * injection E as <- <- E. specialize (Hpos _ _ _ _ E). rewrite weave_cons, !length_app. rewrite Hpos, Hgap.
        assert (length (text_at buffer q) = p_end q - p_start q)%nat as ->; [|lia]. unfold text_at, slice_at. rewrite length_take, length_drop. lia.
Qed.
Lemma scan_occurs h n i l s : scan h n i l -> s ∈ l -> occurs_at h n s.
Proof. induction 1 as [|? ? ? ? ? ? ? IH]; [by intros ?%elem_of_nil|]. intros [->|]%elem_of_cons; auto. Qed.
Lemma place_text buffer edits q : Forall (edit_ok buffer) edits -> q ∈ places buffer edits ->
  (p_start q < p_end q <= length buffer)%nat /\ exists e, e ∈ edits /\ text_at buffer q = old e /\ q.2 = new e.
Proof.
  intros Hok Hq. pose proof (place_wide _ _ _ Hok Hq) as Hw. apply list_elem_of_bind in Hq as (e & Hq & He).
  apply list_elem_of_In, in_map_iff in Hq as (s & <- & Hs). apply list_elem_of_In in Hs. rewrite Forall_forall in Hok.
  destruct (scan_occurs _ _ _ _ s (find_all_scan buffer (old e) (ok_old _ _ (Hok e He))) Hs) as [Hlen Ht].
  split; [unfold p_start, p_end in *; cbn in *; lia|]. exists e. split_and!; [done| |done]. etrans; [|exact Ht]. unfold text_at, p_start, p_end. cbn [fst snd]. by rewrite Nat.add_comm, Nat.add_sub.
Qed.

(** C37: what a patch does. The original bytes are stretches that stay with
    the places to replace between them, each at the offset it was found at;
    the output is the same stretches with the new texts between them. The
    places are all the matches of all the edits, each edit's being the
    left-to-right occurrences of its old text, and nothing else. *)
Theorem plan_replaces_exactly buffer edits p : plan_patch buffer edits = Ok p -> exists segs tail,
  buffer = weave (text_at buffer) segs tail /\ output p = weave snd segs tail /\
  (forall segs1 g q segs2, segs = segs1 ++ (g, q) :: segs2 -> p_start q = length (weave (text_at buffer) segs1 g)) /\
  total_replacements p = length segs /\ map snd segs ≡ₚ places buffer edits /\
  (forall q, q ∈ map snd segs -> exists e, e ∈ edits /\ text_at buffer q = old e /\ q.2 = new e) /\
  (forall e, e ∈ edits -> scan buffer (old e) 0 (find_all buffer (old e))).
Proof.
  intros Hp. assert (Hne : edits <> []) by by intros ->. pose proof (plan_patch_shape buffer edits Hne) as Hs. rewrite Hp in Hs.
  destruct Hs as (Hok & _ & l & Hl & Hb & Ho & Ht).
  assert (Hq : forall q, q ∈ l -> (p_start q < p_end q <= length buffer)%nat /\ exists e, e ∈ edits /\ text_at buffer q = old e /\ q.2 = new e).
  { intros q Hq. rewrite Hl in Hq. by apply place_text. }
  destruct (weave_places buffer l 0 Hb) as (segs & tail & Hm & Hd & Hr & Hpos).
  - apply Forall_forall. intros q Hin. by apply Hq.
  - apply Forall_true. lia.
  - exists segs, tail. rewrite Ho, Hr, Ht, Hm. split_and!; [done|done|done|by rewrite <- Hm, length_map|done|intros q Hin; by apply Hq|].
    intros e He. apply find_all_scan. rewrite Forall_forall in Hok. by apply Hok.
Qed.

(** ** Where an old text stops matching *)

Definition DIVERGE_CONTEXT : nat := 24.
(** The binary search of [prefix_divergence]; [occurs] looks a prefix up. *)
Definition occurs (buffer needle : bytes) (len : nat) : option nat := head (find_all buffer (take len needle)).
Fixpoint divergence (fuel : nat) (buffer needle : bytes) (lo hi : nat) : nat :=
  match fuel with
  | O => lo
  | S fuel =>
      if (1 <? hi - lo)%nat then
        let mid := (lo + Nat.div (hi - lo) 2)%nat in
        match occurs buffer needle mid with
        | Some _ => divergence fuel buffer needle mid hi
        | None => divergence fuel buffer needle lo mid
        end
      else lo
  end.
Record Divergence := { matching : nat; at_byte : nat; file_has : nat * nat; given : nat * nat }.
(** The bounds of the two snippets shown, in the file and in the old text. *)
Definition prefix_divergence (buffer needle : bytes) : option Divergence :=
  let lo := divergence (length needle) buffer needle 0 (length needle) in
  if (lo =? 0)%nat then None else
  match occurs buffer needle lo with
  | None => None
  | Some pos =>
      let ctx_start := (lo - 12)%nat in
      Some {| matching := lo; at_byte := pos;
              file_has := (pos + ctx_start, (pos + lo + DIVERGE_CONTEXT) `min` length buffer)%nat;
              given := (ctx_start, (lo + DIVERGE_CONTEXT) `min` length needle)%nat |}
  end.

Lemma find_none h n : n <> [] -> find_all h n = [] <-> forall s, ~ occurs_at h n s.
Proof.
  intros Hn. pose proof (find_all_scan h n Hn) as Hs. split; [intros E s; rewrite E in Hs; inversion Hs as [? Hno|]; apply Hno; lia|].
  intros Hno. inversion Hs as [|? s l _ Ho]; [done|]. by destruct (Hno s).
Qed.
Lemma occurs_spec buffer needle len : (0 < len <= length needle)%nat ->
  match occurs buffer needle len with
  | Some s => occurs_at buffer (take len needle) s
  | None => forall s, ~ occurs_at buffer (take len needle) s
  end.
Proof.
  intros Hlen. assert (Hne : take len needle <> []) by (destruct needle, len; cbn in *; by try lia). unfold occurs.
  pose proof (find_all_scan buffer _ Hne) as Hs. destruct (find_all buffer (take len needle)) as [|s l] eqn:E; cbn.
  - by apply find_none.
  - eapply scan_occurs; [exact Hs|by left].
Qed.
(** Occurrence is monotone in the length of the prefix. *)
Lemma occurs_shorter h n k len s : (k <= len)%nat -> occurs_at h (take len n) s -> occurs_at h (take k n) s.
Proof.
  intros Hk [Hl Hs]. replace (take k n) with (take k (take len n)) by (rewrite take_take; f_equal; lia). split.
  - rewrite length_take. lia.
  - unfold slice_at in *. rewrite length_take. rewrite <- Hs at 2. by rewrite take_take.
Qed.

Lemma divergence_spec buffer needle fuel lo hi : (hi - lo <= fuel)%nat -> (lo < hi <= length needle)%nat ->
  (lo = 0%nat \/ is_Some (occurs buffer needle lo)) -> (forall s, ~ occurs_at buffer (take hi needle) s) ->
  let k := divergence fuel buffer needle lo hi in
  (lo <= k < hi)%nat /\ (k = 0%nat \/ is_Some (occurs buffer needle k)) /\ forall s, ~ occurs_at buffer (take (S k) needle) s.
Proof.
  revert lo hi; induction fuel as [|fuel IH]; intros lo hi Hf Hlh Hlo Hhi; cbn [divergence]; [lia|].
  destruct (Nat.ltb_spec 1 (hi - lo)) as [Hgt|Hle].
  - set (mid := (lo + (hi - lo) `div` 2)%nat).
    assert (Hmid : (lo < mid < hi)%nat).
    { unfold mid. pose proof (Nat.Div0.div_le_mono 2 (hi - lo) 2 ltac:(lia)) as Hd. pose proof (Nat.div_lt (hi - lo) 2 ltac:(lia) ltac:(lia)).
      change (2 `div` 2)%nat with 1%nat in Hd. lia. }
    pose proof (occurs_spec buffer needle mid ltac:(lia)) as Hm. destruct (occurs buffer needle mid) as [p|] eqn:Eo.
    + destruct (IH mid hi ltac:(lia) ltac:(lia) (or_intror (ex_intro _ p Eo)) Hhi) as (? & ? & ?). split_and!; [lia|lia|done|done].
    + destruct (IH lo mid ltac:(lia) ltac:(lia) Hlo Hm) as (? & ? & ?). split_and!; [lia|lia|done|done].
  - assert (hi = S lo) as -> by lia. split_and!; [lia|lia|done|done].
Qed.

(** the diagnostic of an old text that does not occur. The binary search
    ends on the longest prefix of it that occurs in the file: none longer
    does. The report names it exactly when it is not empty, with its first
    occurrence, and the snippets it shows lie inside the file and the text. *)
Theorem divergence_is_longest buffer needle : needle <> [] -> find_all buffer needle = [] ->
  let lo := divergence (length needle) buffer needle 0 (length needle) in
  (lo < length needle)%nat /\
  (forall k s, (lo < k <= length needle)%nat -> ~ occurs_at buffer (take k needle) s) /\
  match prefix_divergence buffer needle with
  | Some d => matching d = lo /\ occurs_at buffer (take lo needle) (at_byte d) /\
      (forall s, (s < at_byte d)%nat -> ~ occurs_at buffer (take lo needle) s) /\
      ((file_has d).1 <= (file_has d).2 <= length buffer)%nat /\ ((given d).1 <= (given d).2 <= length needle)%nat
  | None => lo = 0%nat
  end.
Proof.
  intros Hn Hf lo. assert (Hlen : (0 < length needle)%nat) by (destruct needle; [done|cbn; lia]).
  assert (Hno : forall s, ~ occurs_at buffer (take (length needle) needle) s) by (rewrite take_ge by done; by apply find_none).
  destruct (divergence_spec buffer needle (length needle) 0 (length needle) ltac:(lia) ltac:(lia) (or_introl eq_refl) Hno) as (Hlo & Hat & Hbeyond).
  fold lo in Hlo, Hat, Hbeyond. split_and!; [lia| |].
  - intros k s Hk Ho. eapply Hbeyond, occurs_shorter; [|exact Ho]. lia.
  - unfold prefix_divergence. fold lo. destruct (Nat.eqb_spec lo 0) as [|Hne]; [done|]. destruct Hat as [|[pos Ep]]; [done|].
    pose proof (occurs_spec buffer needle lo ltac:(lia)) as Ho. rewrite Ep in *. cbn [matching at_byte file_has given fst snd].
    assert (Hfirst : forall s, (s < pos)%nat -> ~ occurs_at buffer (take lo needle) s).
    { assert (Hne' : take lo needle <> []) by (destruct needle, lo; cbn in *; by try lia). unfold occurs in Ep.
      pose proof (find_all_scan buffer _ Hne') as Hs. destruct (find_all buffer (take lo needle)) as [|s l]; [done|]. injection Ep as ->.
      inversion Hs as [|? ? ? _ _ Hfree _]; subst. intros s' Hs'. apply Hfree. lia. }
    pose proof Ho as [Hl _]. rewrite length_take in Hl. split_and!; try done; unfold DIVERGE_CONTEXT; lia.
Qed.

(** ** At work *)

Definition plain_edit (o n : bytes) (all : bool) : Edit :=
  {| old := o; new := n; alt_old := None; replace_all := all; expect_count := None; note := None |}.
Lemma plan_replaces_exactly_witness :
  output <$> (match plan_patch [1; 2; 3; 1; 2] [plain_edit [1; 2] [9] true; plain_edit [3] [] false] with Ok p => Some p | Err _ => None end) = Some [9; 9] /\
  exists segs tail, [1; 2; 3; 1; 2] = weave (text_at [1; 2; 3; 1; 2]) segs tail /\ [9; 9] = weave snd segs tail /\ length segs = 3%nat.
Proof.
  split; [vm_compute; reflexivity|].
  destruct (plan_patch [1; 2; 3; 1; 2] [plain_edit [1; 2] [9] true; plain_edit [3] [] false]) as [p|e] eqn:E; [|vm_compute in E; discriminate E].
  destruct (plan_replaces_exactly _ _ p E) as (segs & tail & Hb & Ho & _ & Ht & _). exists segs, tail.
  vm_compute in E. injection E as <-. split_and!; [exact Hb|exact Ho|symmetry; exact Ht].
Defined.
Lemma plan_order_irrelevant_witness :
  let e1 := plain_edit [1; 2] [9] true in let e2 := plain_edit [3] [7; 7] false in
  match plan_patch [1; 2; 3; 1; 2] [e1; e2], plan_patch [1; 2; 3; 1; 2] [e2; e1] with
  | Ok p, Ok p' => output p = [9; 7; 7; 9] /\ output p = output p'
  | _, _ => False
  end.
Proof.
  intros e1 e2. pose proof (plan_order_irrelevant [1; 2; 3; 1; 2] [e1; e2] [e2; e1] (Permutation_swap e2 e1 [])) as H.
  destruct (plan_patch [1; 2; 3; 1; 2] [e1; e2]) as [p|e] eqn:E; [|vm_compute in E; discriminate E].
  destruct (plan_patch [1; 2; 3; 1; 2] [e2; e1]) as [p'|e] eqn:E'; [|vm_compute in E'; discriminate E'].
  split; [|apply H]. vm_compute in E. injection E as <-. reflexivity.
Defined.
Lemma divergence_is_longest_witness :
  (exists d, prefix_divergence [1; 2; 3; 4] [2; 3; 9] = Some d /\ matching d = 2%nat /\ at_byte d = 1%nat) /\
  forall s, ~ occurs_at [1; 2; 3; 4] (take 3 [2; 3; 9]) s.
Proof.
  split; [eexists; split; [vm_compute; reflexivity|by split]|]. intros s.
  apply (divergence_is_longest [1; 2; 3; 4] [2; 3; 9] ltac:(discriminate) ltac:(vm_compute; reflexivity)). vm_compute. lia.
Defined.
