(* ===== verification/Escapes.v ===== *)
(** * The arguments of file_patch

    [expand_escapes_json], [lingering_escapes] and [effective_edits] of
    [tools/file_patch.rs]: what the two forms of the arguments mean as
    edits, and what their escapes stand for. A text is the list of its
    characters, a character its code point. *)

From S2P Require Import Prelude Bytes Patch.

Abbreviation text := (list Z).
Definition is_char (c : Z) : bool := (0 <=? c) && (c <=? 1114111) && negb ((55296 <=? c) && (c <=? 57343)).
(** [String::into_bytes] *)
Definition utf8_char (c : Z) : bytes :=
  if c <? 128 then [c]
  else if c <? 2048 then [192 + Z.shiftr c 6; 128 + Z.land c 63]
  else if c <? 65536 then [224 + Z.shiftr c 12; 128 + Z.land (Z.shiftr c 6) 63; 128 + Z.land c 63]
  else [240 + Z.shiftr c 18; 128 + Z.land (Z.shiftr c 12) 63; 128 + Z.land (Z.shiftr c 6) 63; 128 + Z.land c 63].
Definition utf8_encode (t : text) : bytes := t ≫= utf8_char.

(** ** Escapes *)

(** [char::to_digit(16)] *)
Definition to_digit16 (c : Z) : option Z :=
  if (48 <=? c) && (c <=? 57) then Some (c - 48)
  else if (97 <=? c) && (c <=? 102) then Some (c - 87)
  else if (65 <=? c) && (c <=? 70) then Some (c - 55)
  else None.
Definition hex4 (chars : text) : option Z :=
  match chars with
  | a :: b :: c :: d :: _ =>
      a ← to_digit16 a; b ← to_digit16 b; c ← to_digit16 c; d ← to_digit16 d;
      Some (Z.lor (Z.shiftl (Z.lor (Z.shiftl (Z.lor (Z.shiftl (Z.lor (Z.shiftl 0 4) a) 4) b) 4) c) 4) d)
  | _ => None
  end.
Definition char_from_u32 (cp : Z) : option Z := if is_char cp then Some cp else None.
(** The second half of a surrogate pair. *)
Definition low_half (rest : text) : option Z :=
  match rest with
  | 92 :: 117 :: rest => l ← hex4 rest; if (56320 <=? l) && (l <=? 57343) then Some l else None
  | _ => None
  end.
(** What follows a backslash: the character it stands for, and how many
    characters it takes; or the backslash itself. *)
Definition unicode_escape (rest : text) : option (Z * nat) :=
  match hex4 rest with
  | Some cp =>
      if (55296 <=? cp) && (cp <=? 56319) then
        match low_half (drop 4 rest) with
        | Some lo => c ← char_from_u32 (65536 + Z.shiftl (cp - 55296) 10 + (lo - 56320)); Some (c, 12%nat)
        | None => None
        end
      else if (56320 <=? cp) && (cp <=? 57343) then None
      else c ← char_from_u32 cp; Some (c, 6%nat)
  | None => None
  end.
Fixpoint expand_from (fuel : nat) (chars : text) : text :=
  match fuel, chars with
  | S fuel, 92 :: ((next :: rest) as after) =>
      if next =? 110 then 10 :: expand_from fuel rest
      else if next =? 116 then 9 :: expand_from fuel rest
      else if next =? 92 then 92 :: expand_from fuel rest
      else if next =? 117 then
        match unicode_escape rest with
        | Some (c, n) => c :: expand_from fuel (drop n chars)
        | None => 92 :: expand_from fuel after
        end
      else 92 :: next :: expand_from fuel rest
  | S fuel, c :: rest => c :: expand_from fuel rest
  | _, _ => []
  end.
Definition expand_escapes_json (s : text) : text := expand_from (length s) s.

(** The escape-looking texts left, at most three of them. *)
Fixpoint lingering_from (fuel : nat) (found : list text) (chars : text) : list text :=
  match fuel, chars with
  | S fuel, c :: ((next :: rest) as after) =>
      if (c =? 92) && existsb (Z.eqb next) [110; 116; 114; 117; 92] then
        let sample := take 6 chars in
        let found := if bool_decide (sample ∈ found) then found else found ++ [sample] in
        if (length found =? 3)%nat then found else lingering_from fuel found rest
      else lingering_from fuel found after
  | _, _ => found
  end.
Definition lingering_escapes (s : text) : list text := lingering_from (length s) [] s.

(** ** The two forms *)

Record PatchEdit := { old_string : option text; new_string : option text; e_replace_all : bool; e_expect_count : option Z }.
Record FilePatchArgs := {
  path_arg : string;
  edits : option (list PatchEdit);
  f_old_string : option text;
  f_new_string : option text;
  f_replace_all : option bool;
  f_expect_count : option Z;
  dry_run : bool;
  raw : bool;
}.
Inductive ArgsError := BothForms | EmptyEdits | OldRequired | NewRequired | OldMissing (idx : nat) | NewMissing (idx : nat) | OldEmpty (idx : nat).

Definition effective_edit (raw : bool) (idx : nat) (e : PatchEdit) : result ArgsError Edit :=
  match old_string e, new_string e with
  | None, _ => Err (OldMissing idx)
  | _, None => Err (NewMissing idx)
  | Some old_str, Some new_str =>
      if bool_decide (old_str = []) then Err (OldEmpty idx) else
      let expanded_old := expand_escapes_json old_str in
      let expanded_new := expand_escapes_json new_str in
      let differs := negb (bool_decide (expanded_old = old_str)) in
      let written := if raw then new_str else expanded_new in
      let lingering := lingering_escapes written in
      Ok {| old := utf8_encode (if raw then old_str else expanded_old);
            new := utf8_encode written;
            alt_old := if differs then Some (if raw then (utf8_encode expanded_old, false) else (utf8_encode old_str, true)) else None;
            replace_all := e_replace_all e;
            expect_count := e_expect_count e;
            note := if bool_decide (lingering = []) then None else Some lingering |}
  end.
Fixpoint effective_list (raw : bool) (idx : nat) (l : list PatchEdit) : result ArgsError (list Edit) :=
  match l with
  | [] => Ok []
  | e :: l => let? e := effective_edit raw idx e in let? l := effective_list raw (S idx) l in Ok (e :: l)
  end.
Definition effective_edits (args : FilePatchArgs) : result ArgsError (list Edit) :=
  let flat_given := bool_decide (is_Some (f_old_string args)) || bool_decide (is_Some (f_new_string args)) ||
                    bool_decide (is_Some (f_replace_all args)) || bool_decide (is_Some (f_expect_count args)) in
  let? raw_edits :=
    match edits args with
    | Some list =>
        if flat_given then Err BothForms else if bool_decide (list = []) then Err EmptyEdits else Ok list
    | None =>
        match f_old_string args, f_new_string args with
        | None, _ => Err OldRequired
        | _, None => Err NewRequired
        | o, n => Ok [{| old_string := o; new_string := n; e_replace_all := default false (f_replace_all args); e_expect_count := f_expect_count args |}]
        end
    end in
  effective_list (raw args) 0 raw_edits.


(** ** Round trip *)

(** The ways a text may be escaped: any character as itself unless it is a
    backslash, newline, tab and backslash by their letter, any character by
    its code, those above U+FFFF as a surrogate pair. *)
Definition quad (v : Z) (q : text) : Prop := exists a b c d w x y z, q = [a; b; c; d] /\
  to_digit16 a = Some w /\ to_digit16 b = Some x /\ to_digit16 c = Some y /\ to_digit16 d = Some z /\ v = 4096 * w + 256 * x + 16 * y + z.
Inductive escapes : text -> text -> Prop :=
| esc_done : escapes [] []
| esc_self c s e : c <> 92 -> escapes s e -> escapes (c :: s) (c :: e)
| esc_newline s e : escapes s e -> escapes (10 :: s) (92 :: 110 :: e)
| esc_tab s e : escapes s e -> escapes (9 :: s) (92 :: 116 :: e)
| esc_backslash s e : escapes s e -> escapes (92 :: s) (92 :: 92 :: e)
| esc_code c q s e : is_char c = true -> quad c q -> escapes s e -> escapes (c :: s) (92 :: 117 :: q ++ e)
| esc_pair hi lo q r s e : 55296 <= hi <= 56319 -> 56320 <= lo <= 57343 -> quad hi q -> quad lo r -> escapes s e ->
    escapes ((65536 + 1024 * (hi - 55296) + (lo - 56320)) :: s) (92 :: 117 :: q ++ 92 :: 117 :: r ++ e).

Lemma to_digit16_range c v : to_digit16 c = Some v -> 0 <= v < 16.
Proof. unfold to_digit16. repeat case_match; intros [= <-]; lia. Qed.
Lemma lor_digit v d : 0 <= d < 16 -> Z.lor (Z.shiftl v 4) d = 16 * v + d.
Proof.
  intros Hd. assert (Hno : Z.land (Z.shiftl v 4) d = 0).
  { apply Z.bits_inj'. intros i Hi. rewrite Z.land_spec, Z.bits_0. destruct (Z.ltb_spec i 4).
    - by rewrite Z.shiftl_spec_low.
    - rewrite (Z.bits_above_log2 d i), andb_false_r; [done|lia|]. destruct (decide (d = 0)) as [->|]; [cbn; lia|].
      apply Z.log2_lt_pow2; [lia|]. assert (2 ^ 4 <= 2 ^ i) by (apply Z.pow_le_mono_r; lia). lia. }
  rewrite <- Z.lxor_lor, <- Z.add_nocarry_lxor, Z.shiftl_mul_pow2 by (done || lia). lia.
Qed.
Lemma quad_hex4 v q rest : quad v q -> hex4 (q ++ rest) = Some v.
Proof.
  intros (a & b & c & d & w & x & y & z & -> & Ha & Hb & Hc & Hd & ->). cbn [app hex4].
  rewrite Ha, Hb, Hc, Hd. cbn [mbind option_bind]. apply to_digit16_range in Ha, Hb, Hc, Hd. f_equal.
  rewrite !lor_digit by done. lia.
Qed.
Lemma quad_drop v q rest n : quad v q -> drop (4 + n) (q ++ rest) = drop n rest.
Proof. by intros (a & b & c & d & w & x & y & z & -> & _). Qed.
Lemma quad_length v q : quad v q -> length q = 4%nat.
Proof. by intros (a & b & c & d & w & x & y & z & -> & _). Qed.
Lemma unicode_code c q e : is_char c = true -> quad c q -> unicode_escape (q ++ e) = Some (c, 6%nat).
Proof.
  intros Hc Hq. unfold unicode_escape, char_from_u32. rewrite (quad_hex4 _ _ _ Hq), Hc. unfold is_char in Hc.
  replace ((55296 <=? c) && (c <=? 56319)) with false by lia. by replace ((56320 <=? c) && (c <=? 57343)) with false by lia.
Qed.
Lemma unicode_pair hi lo q r e : 55296 <= hi <= 56319 -> 56320 <= lo <= 57343 -> quad hi q -> quad lo r ->
  unicode_escape (q ++ 92 :: 117 :: r ++ e) = Some (65536 + 1024 * (hi - 55296) + (lo - 56320), 12%nat).
Proof.
  intros Hhi Hlo Hq Hr. unfold unicode_escape, char_from_u32. rewrite (quad_hex4 _ _ _ Hq).
  replace ((55296 <=? hi) && (hi <=? 56319)) with true by lia. rewrite (quad_drop _ _ _ 0 Hq). cbn [drop]. unfold low_half.
  rewrite (quad_hex4 _ _ _ Hr). cbn [mbind option_bind]. replace ((56320 <=? lo) && (lo <=? 57343)) with true by lia.
  rewrite Z.shiftl_mul_pow2 by lia. change (2 ^ 10) with 1024. rewrite (Z.mul_comm 1024).
  by replace (is_char _) with true by (unfold is_char; lia).
Qed.

Lemma expand_self fuel c e : c <> 92 -> expand_from (S fuel) (c :: e) = c :: expand_from fuel e.
Proof. intros Hc. destruct c as [|p|p]; try done. repeat (destruct p as [p|p|]; try done). Qed.

(** the escapes of file_patch say what they mean. However a text is
    escaped, expanding it in one pass gives the text back; a text without
    backslashes is left as it is. *)
Theorem expand_inverts_escaping s e : escapes s e -> expand_escapes_json e = s.
Proof.
  unfold expand_escapes_json. intros H. assert (Hgen : forall fuel, (length e <= fuel)%nat -> expand_from fuel e = s); [|by apply Hgen].
  induction H as [|c s e Hc H IH|s e H IH|s e H IH|s e H IH|c q s e Hc Hq H IH|hi lo q r s e Hhi Hlo Hq Hr H IH]; intros [|fuel] Hf; cbn in Hf; try lia; try done.
  - rewrite expand_self by done. by rewrite IH by lia.
  - cbn. by rewrite IH by lia.
  - cbn. by rewrite IH by lia.
  - cbn. by rewrite IH by lia.
  - cbn [expand_from]. rewrite length_app in Hf. rewrite (unicode_code _ _ _ Hc Hq). cbn [Z.eqb Pos.eqb]. pose proof (quad_drop c q e 0 Hq) as Hd. cbn in Hd |- *.
    rewrite Hd. by rewrite IH by lia.
  - cbn [expand_from]. rewrite length_app in Hf. cbn in Hf. rewrite length_app in Hf. rewrite (unicode_pair _ _ _ _ _ Hhi Hlo Hq Hr). cbn [Z.eqb Pos.eqb].
    pose proof (quad_drop hi q (92 :: 117 :: r ++ e) 6 Hq) as Hd. pose proof (quad_drop lo r e 0 Hr) as Hd'. cbn in Hd, Hd' |- *.
    rewrite Hd, Hd'. by rewrite IH by lia.
Qed.
(** U+1F600 as a pair, then a backslash and an [n]. *)
Lemma expand_inverts_escaping_witness :
  expand_escapes_json ([92; 117; 100; 56; 51; 100; 92; 117; 68; 69; 48; 48] ++ [92; 92; 110]) = [128512; 92; 110].
Proof.
  apply expand_inverts_escaping. apply (esc_pair 55357 56832 [100; 56; 51; 100] [68; 69; 48; 48] [92; 110] [92; 92; 110]); [lia|lia|..].
  - exists 100, 56, 51, 100, 13, 8, 3, 13. split_and!; reflexivity.
  - exists 68, 69, 48, 48, 13, 14, 0, 0. split_and!; reflexivity.
  - apply esc_backslash, esc_self; [discriminate|apply esc_done].
Defined.
