(* ===== verification/FileTools.v ===== *)
(** * The tools that write

    The writer family of [tools/engineering/files.rs] and [file_patch]:
    each goes through the jail and then works on the path it answered. Every
    tool is a function from a tree to its answer and the tree it leaves. *)

From S2P Require Import Prelude Bytes Text Paths Jail Atomic Patch Escapes.

(** How a call may go wrong, the process and the counter that name its
    temporary file. *)
Record env := { e_faults : faults; e_pid : string; e_seq : string }.
Inductive ToolError :=
| Jailed (e : JailError) | NoDirectory (e : errno) | NotWritten (e : WriteError) | NotOpened (e : errno) | Cut
| NotFoundHere | Exists | IsDirectory | IsNotDirectory | NotRemoved (e : errno) | NotMoved (e : errno) | NotLinked (e : errno) | IsWorkspace
| TooLarge | BadArgs (e : ArgsError) | NoPatch (e : PatchError) | NotResolved (e : errno) | EmptyArg.
Inductive Answer := Done | AlreadyThere | DryRun (p : PatchPlan) | Patched (p : PatchPlan).
Definition outcome : Type := result ToolError Answer * fs_t.

Definition ensure_parent_dirs (f : fs_t) (p : path) : result errno unit * fs_t :=
  match path_parent p with
  | Some parent => if exists_at f parent then (Ok tt, f) else create_dir_all f parent
  | None => (Ok tt, f)
  end.
Definition last_state (f : fs_t) (states : list fs_t) : fs_t := default f (head states).
Definition write_at (v : env) (f : fs_t) (p : path) (content : bytes) : outcome :=
  match ensure_parent_dirs f p with
  | (Err e, f) => (Err (NoDirectory e), f)
  | (Ok _, f) =>
      let '(r, states) := write_atomic_create (e_faults v) (e_pid v) (e_seq v) f p content in
      (match r with Ok _ => Ok Done | Err e => Err (NotWritten e) end, last_state f states)
  end.
Definition file_write_in (v : env) (f : fs_t) (root raw_path : string) (content : bytes) : outcome :=
  match jailed_write_path f root raw_path with
  | Err e => (Err (Jailed e), f)
  | Ok p => write_at v f p content
  end.
Definition append_at (v : env) (f : fs_t) (p : path) (content : bytes) : outcome :=
  match ensure_parent_dirs f p with
  | (Err e, f) => (Err (NoDirectory e), f)
  | (Ok _, f) =>
      let written := match bad_write (e_faults v) with Some n => take n content | None => content end in
      match open_create f p (fun old => old ++ written) with
      | Err e => (Err (NotOpened e), f)
      | Ok f => (match bad_write (e_faults v) with Some _ => Err Cut | None => Ok Done end, f)
      end
  end.
Definition file_append_in (v : env) (f : fs_t) (root raw_path : string) (content : bytes) : outcome :=
  match jailed_write_path f root raw_path with
  | Err e => (Err (Jailed e), f)
  | Ok p => append_at v f p content
  end.
Definition mkdir_in (f : fs_t) (root raw_path : string) : outcome :=
  match jailed_write_path f root raw_path with
  | Err e => (Err (Jailed e), f)
  | Ok p =>
      if lexists f p then (Ok AlreadyThere, f) else
      match create_dir_all f p with
      | (Ok _, f) => (Ok Done, f)
      | (Err e, f) => (Err (NoDirectory e), f)
      end
  end.
Definition file_symlink_in (f : fs_t) (root raw_target raw_link : string) : outcome :=
  match lexical root raw_target with
  | Err e => (Err (Jailed e), f)
  | Ok target =>
      match jailed_write_path f root raw_link with
      | Err e => (Err (Jailed e), f)
      | Ok link =>
          match jailed_write_path f root raw_target with
          | Err e => (Err (Jailed e), f)
          | Ok _ =>
              if lexists f link then (Err Exists, f) else
              match symlink f target link with
              | Ok f => (Ok Done, f)
              | Err e => (Err (NotLinked e), f)
              end
          end
      end
  end.
(** [symlink_metadata] of the entry named, then [remove_file]. *)
Definition file_delete_in (f : fs_t) (root raw_path : string) : outcome :=
  match jailed_remove_path f root raw_path with
  | Err e => (Err (Jailed e), f)
  | Ok p =>
      match resolve f false p with
      | Missing _ _ | Failed ENOENT => (Err NotFoundHere, f)
      | Failed e => (Err (NotRemoved e), f)
      | Found n =>
          if is_dir_at f n then (Err IsDirectory, f) else
          match unlink f p with
          | Ok f => (Ok Done, f)
          | Err e => (Err (NotRemoved e), f)
          end
      end
  end.
Definition file_move_in (f : fs_t) (root raw_src raw_dst : string) : outcome :=
  match jailed_remove_path f root raw_src with
  | Err e => (Err (Jailed e), f)
  | Ok src =>
      match jailed_write_path f root raw_dst with
      | Err e => (Err (Jailed e), f)
      | Ok dst =>
          if negb (lexists f src) then (Err NotFoundHere, f)
          else if lexists f dst then (Err Exists, f)
          else match ensure_parent_dirs f dst with
          | (Err e, f) => (Err (NoDirectory e), f)
          | (Ok _, f) =>
              match rename f src dst with
              | Ok f => (Ok Done, f)
              | Err e => (Err (NotMoved e), f)
              end
          end
      end
  end.
Definition dir_delete_in (f : fs_t) (root raw_path : string) (force : bool) : outcome :=
  match lexical root raw_path with
  | Err e => (Err (Jailed e), f)
  | Ok lex =>
      match fence_owned_dirs (path_of root) (path_of lex) with
      | Err e => (Err (Jailed e), f)
      | Ok _ =>
          if bool_decide (comps (path_of lex) = comps (path_of root)) then (Err IsWorkspace, f) else
          match real_parent f (path_of root) (path_of lex) with
          | Err e => (Err (Jailed e), f)
          | Ok (root_canon, p) =>
              match fence_owned_dirs (abs_path root_canon) p with
              | Err e => (Err (Jailed e), f)
              | Ok _ =>
                  match resolve f false p with
                  | Missing _ _ | Failed ENOENT => (Err NotFoundHere, f)
                  | Failed e => (Err (NotRemoved e), f)
                  | Found n =>
                      if negb (is_dir_at f n) then (Err IsNotDirectory, f) else
                      match (if force then remove_dir_all f p else rmdir f p) with
                      | Ok f => (Ok Done, f)
                      | Err e => (Err (NotRemoved e), f)
                      end
                  end
              end
          end
      end
  end.

(** *** [file_patch] *)

Definition FILE_PATCH_MAX_TARGET : Z := 64 * 1024 * 1024.
Definition patch_at (v : env) (f : fs_t) (target : path) (edits : list Edit) (dry_run : bool) : outcome :=
  match resolve f true target with
  | Missing _ _ | Failed ENOENT => (Err NotFoundHere, f)
  | Failed e => (Err (NotResolved e), f)
  | Found n =>
      match f !! n with
      | Some (EFile buffer) =>
          if FILE_PATCH_MAX_TARGET <? lenZ buffer then (Err TooLarge, f) else
          match plan_patch buffer edits with
          | Err e => (Err (NoPatch e), f)
          | Ok plan =>
              if dry_run then (Ok (DryRun plan), f) else
              let '(r, states) := apply_atomic (e_faults v) (e_pid v) (e_seq v) f target (output plan) in
              (match r with Ok _ => Ok (Patched plan) | Err e => Err (NotWritten e) end, last_state f states)
          end
      | _ => (Err IsDirectory, f)
      end
  end.
Definition file_patch_in (v : env) (f : fs_t) (root : string) (args : FilePatchArgs) : outcome :=
  match lexical root (path_arg args) with
  | Err e => (Err (Jailed e), f)
  | Ok resolved =>
      match fence_owned_dirs (path_of root) (path_of resolved) with
      | Err e => (Err (Jailed e), f)
      | Ok _ =>
          match canonicalize f (path_of resolved) with
          | Err ENOENT => (Err NotFoundHere, f)
          | Err e => (Err (NotResolved e), f)
          | Ok canonical =>
              match canonicalize f (path_of root) with
              | Err e => (Err (NotResolved e), f)
              | Ok root_canon =>
                  if negb (within canonical root_canon) then (Err (Jailed (LeavesRoot canonical)), f) else
                  match fence_owned_dirs (abs_path root_canon) (abs_path canonical) with
                  | Err e => (Err (Jailed e), f)
                  | Ok _ =>
                      match effective_edits args with
                      | Err e => (Err (BadArgs e), f)
                      | Ok edits => patch_at v f (abs_path canonical) edits (dry_run args)
                      end
                  end
              end
          end
      end
  end.

(** ** What the model can call *)

Inductive call :=
| Write (path : string) (content : bytes) | Append (path : string) (content : bytes) | Mkdir (path : string)
| Symlink (target link : string) | Delete (path : string) | Move (src dst : string) | DirDelete (path : string) (force : bool)
| PatchFile (args : FilePatchArgs).
(** The [run] of each tool's arguments, under a root. *)
Definition run_call (v : env) (root : string) (f : fs_t) (c : call) : outcome :=
  match c with
  | Write p content => file_write_in v f root (trim p) content
  | Append p content => file_append_in v f root (trim p) content
  | Mkdir p => mkdir_in f root (trim p)
  | Symlink target link =>
      if bool_decide (trim target = EmptyString) || bool_decide (trim link = EmptyString) then (Err EmptyArg, f)
      else file_symlink_in f root (trim target) (trim link)
  | Delete p => file_delete_in f root (trim p)
  | Move src dst => file_move_in f root (trim src) (trim dst)
  | DirDelete p force => dir_delete_in f root (trim p) force
  | PatchFile args => file_patch_in v f root args
  end.

(** ** Where the tools reach *)

(** Strictly under the workspace, outside what ssh and the Guardian own. *)
Definition tool_area (r0 : list string) (m : list string) : Prop :=
  exists x k, m = r0 ++ x :: k /\ x <> ".ssh" /\ x <> ".guardian".
Definition workspace (root : string) (r0 : list string) (f : fs_t) : Prop := fs_wf f /\ absolute root r0 /\ f !! r0 = Some EDir.
Definition reaches (r0 : list string) (f f' : fs_t) : Prop := fs_wf f' /\ changes_only (tool_area r0) f f'.

Lemma area_below r0 n m : tool_area r0 n -> is_below n m = true -> tool_area r0 m.
Proof. intros (x & k & -> & Hx) [r ->]%below_spec. exists x, (k ++ r). by rewrite <- app_assoc. Qed.
Lemma area_not_root r0 : ~ tool_area r0 r0.
Proof. intros (x & k & E & _). apply (f_equal length) in E. rewrite length_app in E. cbn in E. lia. Qed.
Lemma area_of r0 n : is_below r0 n = true -> Forall (fun d => is_below (r0 ++ d) n = false) owned_dirs -> n = r0 \/ tool_area r0 n.
Proof.
  intros [r ->]%below_spec Ho. destruct r as [|x k]; [left; by rewrite app_nil_r|right]. exists x, k. split; [done|].
  unfold owned_dirs in Ho. apply Forall_cons in Ho as [Hs Ho], Ho as [_ Ho], Ho as [Hg _].
  assert (Hb : is_below (r0 ++ [x]) (r0 ++ x :: k) = true) by (apply below_spec; exists k; by rewrite <- app_assoc).
  split; intros ->; congruence.
Qed.
Lemma reaches_refl r0 f : fs_wf f -> reaches r0 f f.
Proof. by split. Qed.
Lemma reaches_trans r0 f f' f'' : reaches r0 f f' -> reaches r0 f' f'' -> reaches r0 f f''.
Proof. intros [_ H] [Hwf H']. split; [done|by eapply changes_trans]. Qed.
Lemma reaches_weaken r0 f f' P : fs_wf f' /\ changes_only P f f' -> (forall m, P m -> tool_area r0 m) -> reaches r0 f f'.
Proof. intros [Hwf H] HP. split; [done|by eapply changes_weaken]. Qed.
Lemma reaches_root r0 f f' : reaches r0 f f' -> f !! r0 = Some EDir -> f' !! r0 = Some EDir.
Proof. intros [_ H] Hr. rewrite H; [done|apply area_not_root]. Qed.
Lemma made_area r0 n f f' : fs_wf f -> f !! r0 = Some EDir -> n = r0 \/ tool_area r0 n -> fs_wf f' /\ makes_dirs n f f' -> reaches r0 f f'.
Proof.
  intros Hwf Hr Hn [Hwf' Hm]. split; [done|]. intros m Ha. destruct (Hm m) as [|([k E] & Hnone & _)]; [done|]. destruct Ha.
  assert (Hlong : forall j, r0 = m ++ j -> False).
  { intros j ->. destruct j as [|y j]; [rewrite app_nil_r in Hr; congruence|]. rewrite (wf_above f m (y :: j)) in Hnone by (done || by eexists). done. }
  destruct Hn as [->|(x & l & -> & Hx)]; [by destruct (Hlong k)|]. apply app_eq_app in E as [j [[-> Hj]|[-> Hj]]]; [by destruct (Hlong j)|].
  destruct j as [|y j]; [by destruct (Hlong []); rewrite ?app_nil_r|]. injection Hj as <- ->. by exists x, j.
Qed.

Section calls.
Context (root : string) (r0 : list string) (f : fs_t) (Hw : workspace root r0 f).

Lemma root_real : canonicalize f (path_of root) = Ok r0.
Proof.
  destruct Hw as (Hwf & Ha & Hr). rewrite (plain_eta (path_of root) r0 Ha). unfold canonicalize. by rewrite resolve_dir_slash.
Qed.
Definition no_slash (raw : string) : Prop := forall text, lexical root raw = Ok text -> trailing text = false.
Lemma write_area raw p : no_slash raw -> jailed_write_path f root raw = Ok p ->
  exists n, p = abs_path n /\ clear_path f n /\ (n = r0 \/ tool_area r0 n).
Proof.
  intros Hns Hp. destruct Hw as (Hwf & Ha & Hr). destruct (real_plain_path _ _ _ _ _ Hwf Hp Ha) as (r & text & rest & El & Er & <- & Ef).
  destruct (real_spec _ _ _ _ _ Hwf Er) as (Hc & n & Hn & Hb & _ & Hl). rewrite root_real in Hc. injection Hc as Hc. rewrite Hn, <- Hc in *.
  apply fence_spec in Ef as [_ Ho]. exists n. split_and!; [done|apply Hl; by apply Hns|by apply area_of].
Qed.
Lemma remove_area raw p : jailed_remove_path f root raw = Ok p -> exists n, p = abs_path n /\ clear_above f n /\ tool_area r0 n.
Proof.
  intros Hp. destruct Hw as (Hwf & Ha & Hr). destruct (remove_jail_spec f root r0 raw p Hwf Ha Hp) as (rc & a & x & Hc & -> & Hb & Hcl & _ & Ho).
  rewrite root_real in Hc. injection Hc as <-. exists (a ++ [x]). split_and!; [done|by apply last_clear|].
  destruct (area_of r0 (a ++ [x])) as [E|]; [apply below_spec in Hb as [k ->]; apply below_spec; exists (k ++ [x]); by rewrite app_assoc|done| |done].
  exfalso. apply below_spec in Hb as [k Hk]. apply (f_equal length) in E. rewrite Hk, !length_app in E. cbn in E. lia.
Qed.
End calls.

Definition fresh (v : env) (f : fs_t) : Prop := forall d x, f !! (d ++ [temp_name x TMP_TAG (e_pid v) (e_seq v)]) = None.

(** *** Each call *)

Lemma ensure_spec f n : fs_wf f -> clear_path f n ->
  let '(_, f') := ensure_parent_dirs f (abs_path n) in fs_wf f' /\ makes_dirs (removelast n) f f'.
Proof.
  intros Hwf Hc. unfold ensure_parent_dirs. destruct (snoc_cases n) as [->|(d & x & ->)]; [by split; [|left]|]. rewrite parent_abs, removelast_app.
  destruct (exists_at f (abs_path d)); [by split; [|left]|]. apply create_dir_all_spec; [done|]. eapply clear_prefix; [exact Hc|by exists [x]].
Qed.
Lemma ensure_keeps n f f' m : makes_dirs (removelast n) f f' -> (length n <= length m)%nat -> n <> [] -> f' !! m = f !! m.
Proof.
  intros Hm Hl Hn. destruct (Hm m) as [|([k E] & _)]; [done|]. destruct (snoc_cases n) as [->|(d & x & ->)]; [done|].
  rewrite removelast_app in E. subst d. rewrite !length_app in Hl. cbn in Hl. lia.
Qed.
Lemma temp_area r0 d x v : tool_area r0 (d ++ [x]) -> tool_area r0 (d ++ [temp_name x TMP_TAG (e_pid v) (e_seq v)]).
Proof.
  intros (y & k & E & Hy). destruct (snoc_cases k) as [->|(j & z & ->)].
  - apply app_inj_tail in E as [-> <-]. exists (temp_name x TMP_TAG (e_pid v) (e_seq v)), []. split; [done|].
    assert (Hl : (18 <= String.length (temp_name x TMP_TAG (e_pid v) (e_seq v)))%nat) by (unfold temp_name; rewrite !string_app_length; cbn; lia).
    split; intros E'; rewrite E' in Hl; cbn in Hl; lia.
  - rewrite app_comm_cons, app_assoc in E. apply app_inj_tail in E as [-> <-]. exists y, (j ++ [temp_name x TMP_TAG (e_pid v) (e_seq v)]).
    by rewrite <- app_assoc.
Qed.
Definition temp_free (v : env) (f : fs_t) (n : list string) : Prop := forall d x, n = d ++ [x] -> f !! (d ++ [temp_name x TMP_TAG (e_pid v) (e_seq v)]) = None.
Lemma atomic_reaches v r0 f n content require : fs_wf f -> clear_above f n -> tool_area r0 n -> temp_free v f n ->
  reaches r0 f (last_state f (apply_atomic_inner (e_faults v) (e_pid v) (e_seq v) f (abs_path n) content false require).2).
Proof.
  intros Hwf Hc Ha Hf. destruct (snoc_cases n) as [->|(d & x & ->)]; [by destruct Ha as (y & k & E & _); destruct r0|].
  pose proof (atomic_run_spec (e_faults v) (e_pid v) (e_seq v) f d x content false require Hwf Hc (Hf d x eq_refl)) as Hrun.
  destruct (apply_atomic_inner _ _ _ _ _ _ _ _) as [r [|g states]]; [by destruct Hrun as [_ Hr]; destruct r|]. cbn.
  destruct Hrun as [Hall _]. destruct (Hall g ltac:(by left)) as (Hg & Hn & Hm). split; [done|]. intros m Hna. apply Hm.
  - by intros ->.
  - intros ->. by apply Hna, temp_area.
Qed.

Section reach.
Context (root : string) (r0 : list string) (f : fs_t) (Hw : workspace root r0 f).
Let Hwf : fs_wf f := proj1 Hw.
Let Hroot : f !! r0 = Some EDir := proj2 (proj2 Hw).

Lemma ensure_reaches n : clear_path f n -> n = r0 \/ tool_area r0 n ->
  let '(_, f') := ensure_parent_dirs f (abs_path n) in reaches r0 f f' /\ makes_dirs (removelast n) f f' /\ clear_path f' n.
Proof.
  intros Hc Hn. pose proof (ensure_spec f n Hwf Hc) as He. destruct (ensure_parent_dirs f (abs_path n)) as [r f']. destruct He as [Hwf' Hm].
  split_and!; [|done|by eapply makes_clear]. apply (made_area r0 n); [done|done|done|]. split; [done|]. eapply makes_weaken; [exact Hm|].
  destruct (snoc_cases n) as [->|(d & x & ->)]; [done|]. rewrite removelast_app. by exists [x].
Qed.
Lemma write_at_reaches v n content : clear_path f n -> tool_area r0 n -> fresh v f -> reaches r0 f (write_at v f (abs_path n) content).2.
Proof.
  intros Hc Hn Hf. unfold write_at. pose proof (ensure_reaches n Hc (or_intror Hn)) as He.
  destruct (ensure_parent_dirs f (abs_path n)) as [[[]|e] f1]; destruct He as (Hr & Hm & Hc1); [|done]. unfold write_atomic_create.
  assert (Ht : temp_free v f1 n).
  { intros d x ->. rewrite (ensure_keeps (d ++ [x]) f f1); [apply Hf|done|rewrite !length_app; done|by destruct d]. }
  pose proof (atomic_reaches v r0 f1 n content false (proj1 Hr) (clear_is_above _ _ Hc1) Hn Ht) as Ha.
  destruct (apply_atomic_inner _ _ _ _ _ _ _ _) as [r states]. by eapply reaches_trans.
Qed.
Lemma append_at_reaches v n content : clear_path f n -> n = r0 \/ tool_area r0 n -> reaches r0 f (append_at v f (abs_path n) content).2.
Proof.
  intros Hc Hn. unfold append_at. pose proof (ensure_reaches n Hc Hn) as He.
  destruct (ensure_parent_dirs f (abs_path n)) as [[[]|e] f1]; destruct He as (Hr & Hm & Hc1); [|done]. set (w := fun old => old ++ _).
  pose proof (open_create_spec f1 n w (proj1 Hr) Hc1) as Ho. destruct (open_create f1 (abs_path n) w) as [f2|e] eqn:E; [|done]. cbn [snd].
  destruct Hn as [->|Hn].
  - exfalso. unfold open_create in E. pose proof (reaches_root r0 f f1 Hr Hroot) as Hd. by rewrite (resolve_dir f1 true r0 (proj1 Hr) Hd), Hd in E.
  - eapply reaches_trans; [exact Hr|]. eapply reaches_weaken; [exact Ho|]. by intros m ->.
Qed.
Lemma root_exists : lexists f (abs_path r0) = true.
Proof. unfold lexists. by rewrite resolve_dir. Qed.
Lemma mkdir_reaches raw : no_slash root raw -> reaches r0 f (mkdir_in f root raw).2.
Proof.
  intros Hs. unfold mkdir_in. destruct (jailed_write_path f root raw) as [p|e] eqn:Ej; [|by apply reaches_refl].
  destruct (write_area root r0 f Hw raw p Hs Ej) as (n & -> & Hc & Hn). destruct (lexists _ _); [by apply reaches_refl|].
  pose proof (create_dir_all_spec f n Hwf Hc) as Hm. destruct (create_dir_all f (abs_path n)) as [[[]|e] f']; by apply (made_area r0 n).
Qed.
Lemma symlink_reaches target raw : no_slash root raw -> reaches r0 f (file_symlink_in f root target raw).2.
Proof.
  intros Hs. unfold file_symlink_in. destruct (lexical root target) as [t|e]; [|by apply reaches_refl].
  destruct (jailed_write_path f root raw) as [p|e] eqn:Ej; [|by apply reaches_refl]. destruct (write_area root r0 f Hw raw p Hs Ej) as (n & -> & Hc & Hn).
  destruct (jailed_write_path f root target); [|by apply reaches_refl]. destruct (lexists f (abs_path n)) eqn:El; [by apply reaches_refl|].
  destruct Hn as [->|Hn]; [by rewrite root_exists in El|]. pose proof (symlink_spec f n t Hwf (clear_is_above _ _ Hc)) as Hsp.
  destruct (symlink f t (abs_path n)); [|by apply reaches_refl]. eapply reaches_weaken; [exact Hsp|]. by intros m ->.
Qed.
Lemma delete_reaches raw : reaches r0 f (file_delete_in f root raw).2.
Proof.
  unfold file_delete_in. destruct (jailed_remove_path f root raw) as [p|e] eqn:Ej; [|by apply reaches_refl].
  destruct (remove_area root r0 f Hw raw p Ej) as (n & -> & Hc & Hn). destruct (resolve _ _ _) as [m|d x|[]]; try by apply reaches_refl.
  destruct (is_dir_at f m); [by apply reaches_refl|]. pose proof (unlink_spec f n Hwf Hc) as Hu. destruct (unlink f (abs_path n)); [|by apply reaches_refl].
  destruct Hu as (Hf & Hch & _). eapply reaches_weaken; [split; [exact Hf|exact Hch]|]. by intros k ->.
Qed.
Lemma move_reaches src dst : no_slash root dst -> reaches r0 f (file_move_in f root src dst).2.
Proof.
  intros Hs. unfold file_move_in. destruct (jailed_remove_path f root src) as [p|e] eqn:Ej; [|by apply reaches_refl].
  destruct (remove_area root r0 f Hw src p Ej) as (s & -> & Hcs & Hns). destruct (jailed_write_path f root dst) as [q|e] eqn:Ed; [|by apply reaches_refl].
  destruct (write_area root r0 f Hw dst q Hs Ed) as (d & -> & Hcd & Hnd). destruct (negb _); [by apply reaches_refl|].
  destruct (lexists f (abs_path d)) eqn:El; [by apply reaches_refl|]. destruct Hnd as [->|Hnd]; [by rewrite root_exists in El|].
  pose proof (ensure_reaches d Hcd (or_intror Hnd)) as He. destruct (ensure_parent_dirs f (abs_path d)) as [[[]|e] f1]; destruct He as (Hr & Hm & Hc1); [|done].
  pose proof (rename_spec f1 s d (proj1 Hr) (makes_clear_above _ _ _ _ Hm Hcs) (clear_is_above _ _ Hc1)) as Hren.
  destruct (rename f1 (abs_path s) (abs_path d)); [|done]. eapply reaches_trans; [exact Hr|]. eapply reaches_weaken; [exact Hren|].
  intros m [Hb|Hb]; [by apply (area_below r0 s)|by apply (area_below r0 d)].
Qed.
Lemma dir_delete_reaches raw force : reaches r0 f (dir_delete_in f root raw force).2.
Proof.
  unfold dir_delete_in. destruct (lexical root raw) as [lex|e] eqn:El; [|by apply reaches_refl].
  destruct (fence_owned_dirs (path_of root) (path_of lex)) as [[]|e] eqn:Ef; [|by apply reaches_refl]. case_bool_decide; [by apply reaches_refl|].
  destruct (real_parent f (path_of root) (path_of lex)) as [[rc p]|e] eqn:Er; [|by apply reaches_refl].
  destruct (fence_owned_dirs (abs_path rc) p) as [[]|e] eqn:Eg; [|by apply reaches_refl].
  assert (Ej : jailed_remove_path f root raw = Ok p).
  { unfold jailed_remove_path. rewrite El. cbn [mbind result_bind]. rewrite Ef. cbn [mbind result_bind]. rewrite Er. cbn [mbind result_bind]. by rewrite Eg. }
  destruct (remove_area root r0 f Hw raw p Ej) as (n & -> & Hc & Hn). destruct (resolve _ _ _) as [m|d x|[]]; try by apply reaches_refl.
  destruct (negb _); [by apply reaches_refl|]. destruct force.
  - pose proof (remove_dir_all_spec f n Hwf Hc) as Hd. destruct (remove_dir_all f (abs_path n)); [|by apply reaches_refl].
    eapply reaches_weaken; [exact Hd|]. intros k Hk. by apply (area_below r0 n).
  - pose proof (rmdir_spec f n Hwf Hc) as Hd. destruct (rmdir f (abs_path n)); [|by apply reaches_refl].
    eapply reaches_weaken; [exact Hd|]. by intros k ->.
Qed.
Lemma patch_reaches v args : fresh v f -> reaches r0 f (file_patch_in v f root args).2.
Proof.
  intros Hf. unfold file_patch_in. destruct (lexical root _) as [lex|e]; [|by apply reaches_refl].
  destruct (fence_owned_dirs (path_of root) (path_of lex)); [|by apply reaches_refl].
  destruct (canonicalize f (path_of lex)) as [n|[]] eqn:Ec; try by apply reaches_refl. rewrite (root_real root r0 f Hw).
  destruct (within n r0) eqn:Ew; [|by apply reaches_refl]. cbn [negb]. destruct (fence_owned_dirs (abs_path r0) (abs_path n)) as [[]|e] eqn:Ef; [|by apply reaches_refl].
  destruct (effective_edits args) as [edits|e]; [|by apply reaches_refl]. unfold patch_at.
  pose proof (canonicalize_real f _ n Hwf Ec) as Hre. pose proof (real_clear f n Hwf Hre) as Hc.
  pose proof (resolve_clear f true n Hwf Hc) as Hr. destruct (resolve f true (abs_path n)) as [m|d x|[]]; try by apply reaches_refl. destruct Hr as [-> _].
  destruct (f !! n) as [[|buffer|t]|] eqn:En; try by apply reaches_refl. destruct (_ <? _); [by apply reaches_refl|].
  destruct (plan_patch buffer edits) as [plan|e]; [|by apply reaches_refl]. destruct (dry_run args); [by apply reaches_refl|].
  rewrite within_spec in Ew. apply fence_spec in Ef as [_ Ho]. destruct (area_of r0 n Ew Ho) as [->|Hn]; [congruence|].
  assert (Ht : temp_free v f n) by (intros d x _; apply Hf). unfold apply_atomic.
  pose proof (atomic_reaches v r0 f n (output plan) true Hwf (clear_is_above _ _ Hc) Hn Ht) as Ha.
  by destruct (apply_atomic_inner _ _ _ _ _ _ _ _) as [r states].
Qed.
End reach.

(** ** Any number of calls *)

(** Paths that are written end in no slash, and the workspace itself is not
    given to [file_write]. *)
Definition proper_call (root : string) (r0 : list string) (f : fs_t) (c : call) : Prop :=
  match c with
  | Write p _ => no_slash root (trim p) /\ jailed_write_path f root (trim p) <> Ok (abs_path r0)
  | Append p _ | Mkdir p | Symlink _ p | Move _ p => no_slash root (trim p)
  | Delete _ | DirDelete _ _ | PatchFile _ => True
  end.
Lemma call_reaches v root r0 f c : workspace root r0 f -> fresh v f -> proper_call root r0 f c -> reaches r0 f (run_call v root f c).2.
Proof.
  intros Hw Hf Hc. destruct c as [p content|p content|p|t p|p|s p|p force|args]; cbn [run_call proper_call] in *.
  - destruct Hc as [Hs Hne]. unfold file_write_in. destruct (jailed_write_path f root (trim p)) as [q|e] eqn:Ej; [|by apply reaches_refl, Hw].
    destruct (write_area root r0 f Hw (trim p) q Hs Ej) as (n & -> & Hcl & [->|Hn]); [done|]. by apply (write_at_reaches root).
  - unfold file_append_in. destruct (jailed_write_path f root (trim p)) as [q|e] eqn:Ej; [|by apply reaches_refl, Hw].
    destruct (write_area root r0 f Hw (trim p) q Hc Ej) as (n & -> & Hcl & Hn). by apply (append_at_reaches root).
  - by apply mkdir_reaches.
  - destruct (_ || _); [by apply reaches_refl, Hw|by apply symlink_reaches].
  - by apply delete_reaches.
  - by apply move_reaches.
  - by apply dir_delete_reaches.
  - by apply patch_reaches.
Qed.
Inductive calls (root : string) (r0 : list string) (f : fs_t) : fs_t -> Prop :=
| calls_none : calls root r0 f f
| calls_more f' v c : calls root r0 f f' -> fresh v f' -> proper_call root r0 f' c -> calls root r0 f (run_call v root f' c).2.
Lemma calls_reach root r0 f f' : workspace root r0 f -> calls root r0 f f' -> reaches r0 f f'.
Proof.
  intros Hw H. induction H as [|f' v c _ IH Hf Hc]; [apply reaches_refl, Hw|]. eapply reaches_trans; [exact IH|].
  apply call_reaches; [|done|done]. destruct Hw as (? & ? & ?). split_and!; [apply IH|done|by eapply reaches_root].
Qed.


(** The outcome of [file_patch]. *)
Definition patch_outcome (v : env) (r0 : list string) (args : FilePatchArgs) (f : fs_t) (o : outcome) : Prop :=
  match o with
  | (Ok (Patched plan), f') => exists n buffer edits, f !! n = Some (EFile buffer) /\ tool_area r0 n /\
      effective_edits args = Ok edits /\ plan_patch buffer edits = Ok plan /\ dry_run args = false /\ f' = <[n := EFile (output plan)]> f
  | (Ok (DryRun plan), f') => exists n buffer edits, f !! n = Some (EFile buffer) /\ tool_area r0 n /\
      effective_edits args = Ok edits /\ plan_patch buffer edits = Ok plan /\ dry_run args = true /\ f' = f
  | (Ok _, _) => False
  | (Err _, f') => f' = f \/ bad_cleanup (e_faults v) = true /\ exists tmp c, f !! tmp = None /\ tool_area r0 tmp /\ f' = <[tmp := EFile c]> f
  end.

(** C35: [file_patch] patches one file or nothing, where the workspace is a
    directory at an absolute path and nothing in the tree already has the name
    of its temporary file, made of process id and counter (a link planted
    there is followed, file_patch.rs:596). When it reports a patch, the tree
    is the one before with the content of one existing file under the
    workspace replaced by the plan's output for the edits the arguments mean;
    a dry run gives the same plan and leaves the tree; any error leaves the
    tree, but for the temporary file when removing it fails too. *)
Theorem file_patch_exact v root r0 f args : workspace root r0 f -> fresh v f ->
  patch_outcome v r0 args f (file_patch_in v f root args).
Proof.
  intros Hw Hf. pose proof (proj1 Hw) as Hwf. unfold file_patch_in. destruct (lexical root _) as [lex|e]; [|by left].
  destruct (fence_owned_dirs (path_of root) (path_of lex)); [|by left].
  destruct (canonicalize f (path_of lex)) as [n|[]] eqn:Ec; try by left. rewrite (root_real root r0 f Hw).
  destruct (within n r0) eqn:Ew; [|by left]. cbn [negb]. destruct (fence_owned_dirs (abs_path r0) (abs_path n)) as [[]|e] eqn:Ef; [|by left].
  destruct (effective_edits args) as [edits|e] eqn:Ea; [|by left]. unfold patch_at.
  pose proof (real_clear f n Hwf (canonicalize_real f _ n Hwf Ec)) as Hc.
  pose proof (resolve_clear f true n Hwf Hc) as Hr. destruct (resolve f true (abs_path n)) as [m|d x|[]]; try by left. destruct Hr as [-> _].
  destruct (f !! n) as [[|buffer|t]|] eqn:En; try by left. destruct (_ <? _); [by left|].
  destruct (plan_patch buffer edits) as [plan|e] eqn:Ep; [|by left].
  rewrite within_spec in Ew. apply fence_spec in Ef as [_ Ho]. destruct (area_of r0 n Ew Ho) as [->|Hn]; [by destruct Hw as (_ & _ & Hd); congruence|].
  destruct (dry_run args) eqn:Edry; [by exists n, buffer, edits|]. unfold apply_atomic.
  destruct (snoc_cases n) as [->|(d & x & ->)]; [by rewrite (wf_root f Hwf) in En|].
  pose proof (atomic_run_spec (e_faults v) (e_pid v) (e_seq v) f d x (output plan) false true Hwf (clear_is_above _ _ Hc) (Hf d x)) as Hrun.
  destruct (apply_atomic_inner _ _ _ _ _ _ _ _) as [[[]|e] [|g states]]; destruct Hrun as [_ Hrun]; try by destruct Hrun.
  - cbn in Hrun |- *. by exists (d ++ [x]), buffer, edits.
  - cbn in Hrun |- *. destruct Hrun as [->|[Hb [c ->]]]; [by left|right]. split; [done|]. exists (d ++ [temp_name x TMP_TAG (e_pid v) (e_seq v)]), c.
    split_and!; [apply Hf|by apply temp_area|done].
Qed.

(** *** A workspace with a link out of it *)

Definition fresh_check (f : fs_t) : bool :=
  forallb (fun kv => match last kv.1 with Some x => (String.length x <? 18)%nat | None => true end) (map_to_list f).
Lemma fresh_check_sound v f : fresh_check f = true -> fresh v f.
Proof.
  intros Hc d x. destruct (f !! _) as [e|] eqn:E; [|done]. unfold fresh_check in Hc. rewrite forallb_forall in Hc.
  specialize (Hc _ ltac:(apply list_elem_of_In, elem_of_map_to_list; exact E)). cbn [fst] in Hc. rewrite last_snoc in Hc.
  apply Nat.ltb_lt in Hc. unfold temp_name in Hc. rewrite !string_app_length in Hc. cbn in Hc. lia.
Qed.
Definition sample_env : env := {| e_faults := no_faults; e_pid := "1"; e_seq := "7" |}.
Lemma sample_workspace : workspace "/w" ["w"] sample.
Proof. split_and!; [apply wf_check_sound; vm_compute; reflexivity|vm_compute; reflexivity|vm_compute; reflexivity]. Qed.
Lemma sample_fresh : fresh sample_env sample.
Proof. apply fresh_check_sound. vm_compute. reflexivity. Qed.
Definition sample_patch : FilePatchArgs :=
  {| path_arg := "a"; edits := None; f_old_string := Some [97]; f_new_string := Some [92; 110]; f_replace_all := Some true;
     f_expect_count := Some 2; dry_run := false; raw := false |}.
Lemma file_patch_exact_witness :
  (exists plan, file_patch_in sample_env sample "/w" sample_patch = (Ok (Patched plan), <[["w"; "a"] := EFile [10; 98; 10]]> sample)) /\
  patch_outcome sample_env ["w"] sample_patch sample (file_patch_in sample_env sample "/w" sample_patch).
Proof.
  split; [eexists; vm_compute; reflexivity|]. apply (file_patch_exact sample_env "/w" ["w"] sample sample_patch sample_workspace sample_fresh).
Defined.
Definition sample_after : fs_t := (run_call sample_env "/w" sample (Append "out/p" [2])).2.
Lemma no_slash_check root raw : match lexical root raw with Ok text => trailing text = false | Err _ => True end -> no_slash root raw.
Proof. intros H text E. by rewrite E in H. Qed.
Definition sample_moved : fs_t := (run_call sample_env "/w" sample_after (Move "a" "n/b")).2.
