(* ===== verification/ReadWindow.v ===== *)
(** * The windows of file_read

    The file branch of [file_read] in [tools/engineering/files.rs], with
    [cut_character_len] and [decode_within]: which bytes a call reads, what
    they are shown as, and where the trailer says to go on. *)

From S2P Require Import Prelude Bytes Sse Text Paths Jail.

Definition MAX_TOOL_RESULT_SIZE : Z := 2097152.
Definition TOOL_RESULT_ENVELOPE : Z := 4096.
Definition FILE_READ_MAX : Z := MAX_TOOL_RESULT_SIZE - TOOL_RESULT_ENVELOPE.

(** ** [<[u8]>::utf8_chunks] *)

(** The first sequence: whether it is a character, and its length. *)
Definition seq_of (l : bytes) : bool * nat :=
  match l with
  | [] => (true, 0%nat)
  | b0 :: l1 =>
      if (0 <=? b0) && (b0 <=? 127) then (true, 1%nat)
      else if negb ((194 <=? b0) && (b0 <=? 244)) then (false, 1%nat)
      else match l1 with
      | [] => (false, 1%nat)
      | b1 :: l2 =>
          if negb (second_ok b0 b1) then (false, 1%nat)
          else if b0 <=? 223 then (true, 2%nat)
          else match l2 with
          | [] => (false, 2%nat)
          | b2 :: l3 =>
              if negb (utf8_cont b2) then (false, 2%nat)
              else if b0 <=? 239 then (true, 3%nat)
              else match l3 with
              | [] => (false, 3%nat)
              | b3 :: _ => if negb (utf8_cont b3) then (false, 3%nat) else (true, 4%nat)
              end
          end
      end
  end.
Fixpoint valid_up_to (fuel : nat) (l : bytes) : nat :=
  match fuel, l with
  | S fuel, _ :: _ => let '(ok, n) := seq_of l in if ok then (n + valid_up_to fuel (drop n l))%nat else 0%nat
  | _, _ => 0%nat
  end.
(** Each chunk: characters, then the ill-formed sequence after them. *)
Fixpoint utf8_chunks (fuel : nat) (l : bytes) : list (bytes * bytes) :=
  match fuel, l with
  | S fuel, _ :: _ =>
      let v := valid_up_to (length l) l in
      let rest := drop v l in
      let bad := match rest with [] => 0%nat | _ => (seq_of rest).2 end in
      (take v l, take bad rest) :: utf8_chunks fuel (drop bad rest)
  | _, _ => []
  end.

(** ** [decode_within] *)

Definition is_char_boundary (s : bytes) (i : nat) : bool :=
  (i =? 0)%nat || (i =? length s)%nat || match s !! i with Some b => negb (utf8_cont b) | None => false end.
Fixpoint floor_boundary (s : bytes) (e : nat) : nat :=
  if is_char_boundary s e then e else match e with O => O | S e => floor_boundary s e end.
Record Decoded := { d_text : bytes; raw_len : nat; replaced : nat }.
Fixpoint decode_chunks (budget : nat) (chunks : list (bytes * bytes)) (d : Decoded) : Decoded :=
  match chunks with
  | [] => d
  | (valid, invalid) :: chunks =>
      let room := (budget - length (d_text d))%nat in
      if (room <? length valid)%nat then
        let e := floor_boundary valid room in
        {| d_text := d_text d ++ take e valid; raw_len := raw_len d + e; replaced := replaced d |}
      else
        let d := {| d_text := d_text d ++ valid; raw_len := raw_len d + length valid; replaced := replaced d |} in
        match invalid with
        | [] => decode_chunks budget chunks d
        | _ =>
            if (budget - length (d_text d) <? length replacement)%nat then d
            else decode_chunks budget chunks
              {| d_text := d_text d ++ replacement; raw_len := raw_len d + length invalid; replaced := S (replaced d) |}
        end
  end.
Definition decode_within (window : bytes) (budget : nat) : Decoded :=
  decode_chunks budget (utf8_chunks (length window) window) {| d_text := []; raw_len := 0; replaced := 0 |}.

(** ** [cut_character_len] *)

(** [back] bytes from the end, [more] of them still to look at. *)
Fixpoint cut_from (window : bytes) (back more : nat) : nat :=
  match more with
  | O => 0%nat
  | S more =>
      let b := default 0 (window !! (length window - back)%nat) in
      if (128 <=? b) && (b <=? 191) then cut_from window (S back) more
      else
        let need := if (192 <=? b) && (b <=? 223) then 2%nat
                    else if (224 <=? b) && (b <=? 239) then 3%nat
                    else if (240 <=? b) && (b <=? 247) then 4%nat
                    else 0%nat in
        if (back <? need)%nat then back else 0%nat
  end.
Definition cut_character_len (window : bytes) : nat := cut_from window 1 (length window `min` 3).

(** ** One call *)

Inductive Shown :=
| PastEnd (size : Z)
| Overflowed
| Binary (size : Z)
| Slice (content : bytes) (size offset read_end : Z) (replaced : nat) (more : option Z).
Definition checked_sub (a b : Z) : option Z := if a <? b then None else Some (a - b).
Definition read_slice (data : bytes) (offset limit : Z) : Shown :=
  let limit := Z.min limit FILE_READ_MAX in
  let size := lenZ data in
  if (size <=? offset) && (0 <? size) then PastEnd size else
  let window_end := Z.min (offset + limit) size in
  match checked_sub window_end offset with
  | None => Overflowed
  | Some read_bytes =>
      let buf := take (Z.to_nat read_bytes) (drop (Z.to_nat offset) data) in
      if existsb (Z.eqb 0) (take 1024 buf) then Binary size else
      let buf := if window_end <? size then
                   let cut := cut_character_len buf in
                   if (cut <? length buf)%nat then take (length buf - cut) buf else buf
                 else buf in
      let decoded := decode_within buf (Z.to_nat FILE_READ_MAX) in
      let read_end := offset + Z.of_nat (raw_len decoded) in
      Slice (d_text decoded) size offset read_end (replaced decoded) (if read_end <? size then Some (size - read_end) else None)
  end.
Definition read_window (offset limit : option Z) : Z * Z := (default 0 offset, Z.min (default FILE_READ_MAX limit) FILE_READ_MAX).
Inductive FileRead := EmptyPath | NotRead (e : ReadRefusal) | Listing (names : list string) | Read (s : Shown).
(** [read_dir] lists in an order of its own; past [DIR_LIST_MAX] a line says so. *)
Definition DIR_LIST_MAX : nat := 1000.
Definition entry_names (f : fs_t) (n : list string) : list string :=
  take DIR_LIST_MAX $ omap (fun kv => match below n kv.1 with Some [x] => Some x | _ => None end) (map_to_list f).
Definition file_read (f : fs_t) (raw_path : string) (offset limit : option Z) : FileRead :=
  let '(offset, limit) := read_window offset limit in
  let raw_path := trim raw_path in
  if bool_decide (raw_path = EmptyString) then EmptyPath else
  match readable f raw_path with
  | Err e => NotRead e
  | Ok n => match f !! n with
            | Some (EFile data) => Read (read_slice data offset limit)
            | _ => Listing (entry_names f n)
            end
  end.
(** A read that goes on where each trailer says. *)
Fixpoint read_on (fuel : nat) (data : bytes) (offset limit : Z) : option bytes :=
  match fuel with
  | O => None
  | S fuel =>
      match read_slice data offset limit with
      | Slice content _ _ read_end _ None => Some content
      | Slice content _ _ read_end _ (Some _) => rest ← read_on fuel data read_end limit; Some (content ++ rest)
      | _ => None
      end
  end.

(** ** Sequences *)

Lemma seq_pos l : l <> [] -> (1 <= (seq_of l).2 <= length l)%nat.
Proof.
  destruct l as [|b0 l1]; [done|]. intros _. cbn. repeat (case_match; cbn; try lia).
Qed.
Lemma lossy_seq l : l <> [] -> lossy l = (if (seq_of l).1 then take (seq_of l).2 l else replacement) ++ lossy (drop (seq_of l).2 l).
Proof.
  destruct l as [|b0 l1]; [done|]. intros _. cbn [lossy seq_of]. repeat (case_match; cbn; try done).
Qed.
(** Where whole sequences end. *)
Inductive upto : bytes -> nat -> Prop :=
| upto_here l : upto l 0
| upto_seq l n : l <> [] -> upto (drop (seq_of l).2 l) n -> upto l ((seq_of l).2 + n).
Lemma upto_le l n : upto l n -> (n <= length l)%nat.
Proof. induction 1 as [|l n Hl _ IH]; [lia|]. pose proof (seq_pos l Hl). rewrite length_drop in IH. lia. Qed.
(** What follows a sequence does not matter to it. *)
Lemma seq_take l n : ((seq_of l).2 <= n)%nat -> l <> [] -> seq_of (take n l) = seq_of l.
Proof.
  intros Hn Hl. destruct l as [|b0 [|b1 [|b2 [|b3 l4]]]]; [done|..]; destruct n as [|[|[|[|n]]]]; cbn in *;
    repeat (case_match; cbn in *; try lia; try done).
Qed.
Lemma upto_take l n : upto l n -> lossy (take n l) ++ lossy (drop n l) = lossy l.
Proof.
  induction 1 as [l|l n Hl H IH]; [done|]. pose proof (seq_pos l Hl) as Hp. pose proof (upto_le _ _ H) as Hle. rewrite length_drop in Hle.
  set (k := (seq_of l).2) in *. rewrite (lossy_seq l Hl). fold k.
  assert (Hne : take (k + n) l <> []) by (destruct l, k; cbn in *; by try lia).
  rewrite (lossy_seq (take (k + n) l) Hne). rewrite seq_take by (done || (unfold k; lia)). fold k.
  rewrite take_take, Nat.min_l by lia. rewrite <- app_assoc. f_equal. by rewrite <- IH, drop_drop, take_drop_commute.
Qed.
Lemma upto_trans l n k : upto l n -> upto (drop n l) k -> upto l (n + k).
Proof.
  induction 1 as [l|l n Hl H IH]; intros Hk; [done|]. rewrite <- Nat.add_assoc. apply upto_seq; [done|]. apply IH. by rewrite drop_drop.
Qed.
(** Sequence ends of a part that is itself whole. *)
Lemma upto_part l n k : upto l n -> upto (take n l) k -> upto l k.
Proof.
  intros H. revert k. induction H as [l|l n Hl H IH]; intros k Hk; [by inversion Hk; [constructor|]|].
  inversion Hk as [|? m Hne Hm]; subst; [constructor|]. pose proof (seq_take l ((seq_of l).2 + n) ltac:(lia) Hl) as E. rewrite E in *.
  apply upto_seq; [done|]. apply IH. by rewrite take_drop_commute.
Qed.

(** ** Where a window may end *)

Lemma second_ok_cont b0 b1 : second_ok b0 b1 = true -> utf8_cont b1 = true.
Proof. unfold second_ok, utf8_cont. repeat case_match; lia. Qed.
(** A sequence that runs past the window goes on with a continuation byte,
    and the window is seen to cut it. *)
Lemma seq_over a c : a <> [] -> (length a < (seq_of (a ++ c)).2)%nat ->
  (exists b c', c = b :: c' /\ utf8_cont b = true) /\ (0 < cut_character_len a)%nat.
Proof.
  intros Ha Hl. destruct a as [|b0 a]; [done|]. cbn [app seq_of] in Hl.
  destruct ((0 <=? b0) && (b0 <=? 127)) eqn:E0; [cbn in Hl; lia|]. destruct ((194 <=? b0) && (b0 <=? 244)) eqn:E1; cbn [negb] in Hl; [|cbn in Hl; lia].
  assert (Hc0 : (128 <=? b0) && (b0 <=? 191) = false) by lia.
  assert (Hn : forall w k m, w !! (length w - k)%nat = Some b0 -> (k < 2)%nat \/ (k < 3)%nat /\ 224 <= b0 \/ (k < 4)%nat /\ 240 <= b0 -> (0 < k)%nat -> (0 < cut_from w k (S m))%nat).
  { intros w k m Hw Hk Hpos. cbn [cut_from]. rewrite Hw. cbn [from_option id]. rewrite Hc0.
    destruct ((192 <=? b0) && (b0 <=? 223)) eqn:N1; [destruct (Nat.ltb_spec k 2); lia|].
    destruct ((224 <=? b0) && (b0 <=? 239)) eqn:N2; [destruct (Nat.ltb_spec k 3); lia|].
    replace ((240 <=? b0) && (b0 <=? 247)) with true by lia. destruct (Nat.ltb_spec k 4); lia. }
  assert (Hskip : forall w k m b, w !! (length w - k)%nat = Some b -> utf8_cont b = true -> cut_from w k (S m) = cut_from w (S k) m).
  { intros w k m b Hw Hb. cbn [cut_from]. rewrite Hw. cbn [from_option id]. unfold utf8_cont in Hb. by rewrite Hb. }
  destruct a as [|b1 a]; cbn [app] in Hl.
  { destruct c as [|b1 c]; [cbn in Hl; lia|]. destruct (second_ok b0 b1) eqn:S1; cbn [negb] in Hl; [|cbn in Hl; lia].
    split; [exists b1, c; split; [done|by eapply second_ok_cont]|]. apply (Hn [b0] 1%nat 0%nat); [done|lia|lia]. }
  destruct (second_ok b0 b1) eqn:S1; cbn [negb] in Hl; [|cbn in Hl; lia]. apply second_ok_cont in S1.
  destruct (Z.leb_spec b0 223); [cbn in Hl; lia|]. destruct a as [|b2 a]; cbn [app] in Hl.
  { destruct c as [|b2 c]; [cbn in Hl; lia|]. destruct (utf8_cont b2) eqn:S2; cbn [negb] in Hl; [|cbn in Hl; lia].
    split; [by exists b2, c|]. change (0 < cut_from [b0; b1] 1 2)%nat. rewrite (Hskip [b0; b1] 1%nat 1%nat b1) by done. apply Hn; [done|lia|lia]. }
  destruct (utf8_cont b2) eqn:S2; cbn [negb] in Hl; [|cbn in Hl; lia]. destruct (Z.leb_spec b0 239); [cbn in Hl; lia|].
  destruct a as [|b3 a]; cbn [app] in Hl; [|repeat case_match; cbn in Hl; lia].
  destruct c as [|b3 c]; [cbn in Hl; lia|]. destruct (utf8_cont b3) eqn:S3; cbn [negb] in Hl; [|cbn in Hl; lia].
  split; [by exists b3, c|]. change (0 < cut_from [b0; b1; b2] 1 3)%nat.
  rewrite (Hskip [b0; b1; b2] 1%nat 2%nat b2), (Hskip [b0; b1; b2] 2%nat 1%nat b1) by done. apply Hn; [done|lia|lia].
Qed.
Lemma cut_from_app s a back m m' : (0 < back)%nat -> (back + m <= S (length a))%nat -> (0 < cut_from a back m)%nat ->
  cut_from (s ++ a) back (m + m') = cut_from a back m.
Proof.
  revert back; induction m as [|m IH]; intros back Hb Hm; cbn [cut_from Nat.add]; [lia|].
  assert (E : (s ++ a) !! (length (s ++ a) - back)%nat = a !! (length a - back)%nat).
  { rewrite length_app, lookup_app_r by lia. f_equal. lia. }
  rewrite E. destruct ((128 <=? _) && _); [apply IH; lia|done].
Qed.
Lemma cut_app s a : (0 < cut_character_len a)%nat -> (0 < cut_character_len (s ++ a))%nat.
Proof.
  unfold cut_character_len. intros H. replace (length (s ++ a) `min` 3)%nat with (length a `min` 3 + (length (s ++ a) `min` 3 - length a `min` 3))%nat
    by (rewrite length_app; lia).
  rewrite cut_from_app; [done|lia|lia|done].
Qed.
Definition boundary (a c : bytes) : Prop := cut_character_len a = 0%nat \/ match c with [] => True | b :: _ => utf8_cont b = false end.
Lemma boundary_upto a c : boundary a c -> upto (a ++ c) (length a).
Proof.
  remember (length a) as n eqn:En. revert a En. induction (lt_wf n) as [n _ IH]. intros a -> Hb.
  destruct a as [|x a'] eqn:Ea; [constructor|]. rewrite <- Ea in *. assert (Hne : a <> []) by by rewrite Ea. clear x a' Ea.
  assert (Hap : a ++ c <> []) by by destruct a. pose proof (seq_pos (a ++ c) Hap) as Hp. set (k := (seq_of (a ++ c)).2) in *.
  destruct (le_lt_dec k (length a)) as [Hk|Hk].
  - replace (length a) with (k + length (drop k a))%nat by (rewrite length_drop; lia). apply upto_seq; [done|]. fold k.
    rewrite drop_app_le by done. apply (IH (length (drop k a))); [rewrite length_drop; lia|done|]. destruct Hb as [Hb|Hb]; [left|by right].
    destruct (cut_character_len (drop k a)) eqn:E; [done|]. pose proof (cut_app (take k a) (drop k a)) as Hc. rewrite take_drop, Hb, E in Hc. lia.
  - exfalso. destruct (seq_over a c Hne Hk) as [(b & c' & -> & Hbc) Hcut]. destruct Hb as [Hb|Hb]; [lia|congruence].
Qed.
(** What the cut takes off begins with no continuation byte. *)
Lemma cut_from_lead w back m : (0 < back)%nat -> (back + m <= S (length w))%nat -> let k := cut_from w back m in
  (0 < k)%nat -> (k < back + m)%nat /\ exists b, w !! (length w - k)%nat = Some b /\ utf8_cont b = false.
Proof.
  revert back; induction m as [|m IH]; intros back Hb Hm; cbn [cut_from]; [lia|].
  destruct (lookup_lt_is_Some_2 w (length w - back) ltac:(lia)) as [b E]. rewrite E. cbn [from_option id].
  destruct ((128 <=? b) && (b <=? 191)) eqn:Ec; [intros Hk; destruct (IH (S back) ltac:(lia) ltac:(lia) Hk); split; [lia|done]|].
  intros Hk. destruct (back <? _)%nat; [|lia]. split; [lia|]. by exists b.
Qed.
Lemma cut_boundary w c : (cut_character_len w < length w)%nat ->
  let a := take (length w - cut_character_len w) w in (cut_character_len w <= 3)%nat /\ upto (w ++ c) (length a).
Proof.
  intros Hl a. destruct (decide (cut_character_len w = 0%nat)) as [E|E].
  - split; [lia|]. unfold a. rewrite E, Nat.sub_0_r, take_ge by done. apply boundary_upto. by left.
  - destruct (cut_from_lead w 1 (length w `min` 3) ltac:(lia) ltac:(lia) ltac:(unfold cut_character_len in E; lia)) as (Hk & b & Hb & Hc).
    fold (cut_character_len w) in *. split; [lia|]. replace (w ++ c) with (a ++ drop (length w - cut_character_len w) w ++ c) by (unfold a; by rewrite app_assoc, take_drop).
    apply boundary_upto. right. rewrite (drop_S _ b) by done. done.
Qed.

(** ** What a window decodes to *)

Lemma upto_cut l a m : upto l a -> (a <= m)%nat -> upto (take m l) a.
Proof.
  intros H. revert m. induction H as [l|l n Hl H IH]; intros m Hm; [constructor|]. pose proof (seq_pos l Hl).
  rewrite <- (seq_take l m ltac:(lia) Hl). apply upto_seq; [destruct l, m; cbn in *; by try lia|].
  rewrite (seq_take l m ltac:(lia) Hl). replace m with ((seq_of l).2 + (m - (seq_of l).2))%nat by lia. rewrite <- take_drop_commute.
  apply IH. lia.
Qed.
Lemma lossy_take l a b : upto l a -> lossy (take (a + b) l) = lossy (take a l) ++ lossy (take b (drop a l)).
Proof.
  intros H. rewrite <- (upto_take (take (a + b) l) a) by (apply upto_cut; [done|lia]). rewrite take_take, Nat.min_l by lia.
  by rewrite take_drop_commute.
Qed.
Lemma upto_single l : l <> [] -> upto l (seq_of l).2.
Proof. intros Hl. rewrite <- (Nat.add_0_r (seq_of l).2). apply upto_seq; [done|constructor]. Qed.
Lemma lossy_bad l : l <> [] -> (seq_of l).1 = false -> lossy (take (seq_of l).2 l) = replacement.
Proof.
  intros Hl Hb. pose proof (seq_pos l Hl) as Hp. assert (Hne : take (seq_of l).2 l <> []) by (destruct l; [done|]; destruct (seq_of _).2; [lia|done]).
  rewrite (lossy_seq _ Hne), seq_take by done. rewrite Hb, drop_ge by (rewrite length_take; lia). cbn. done.
Qed.
Lemma lossy_ok l : l <> [] -> (seq_of l).1 = true -> lossy (take (seq_of l).2 l) = take (seq_of l).2 l.
Proof.
  intros Hl Hb. pose proof (seq_pos l Hl) as Hp. assert (Hne : take (seq_of l).2 l <> []) by (destruct l; [done|]; destruct (seq_of _).2; [lia|done]).
  rewrite (lossy_seq _ Hne), seq_take by done. rewrite Hb, drop_ge, app_nil_r by (rewrite length_take; lia). by rewrite take_take, Nat.min_id.
Qed.
(** Inside a character are continuation bytes, and none begins one. *)
Lemma seq_inside l i : (seq_of l).1 = true -> (0 < i < (seq_of l).2)%nat -> exists b, l !! i = Some b /\ utf8_cont b = true.
Proof.
  destruct l as [|b0 [|b1 l]]; cbn; [lia|repeat (case_match; cbn; try lia)|].
  destruct ((0 <=? b0) && (b0 <=? 127)); [cbn; lia|]. destruct (negb _); [done|]. destruct (second_ok b0 b1) eqn:S1; [|done]. apply second_ok_cont in S1. cbn [negb].
  destruct (b0 <=? 223); [cbn; intros _ Hi; exists b1; by replace i with 1%nat by lia|]. destruct l as [|b2 l]; [done|].
  destruct (utf8_cont b2) eqn:S2; [|done]. cbn [negb].
  destruct (b0 <=? 239); [cbn; intros _ Hi; destruct i as [|[|[|]]]; [lia|by exists b1|by exists b2|lia]|]. destruct l as [|b3 l]; [done|].
  destruct (utf8_cont b3) eqn:S3; [|done]. cbn. intros _ Hi. destruct i as [|[|[|[|]]]]; [lia|by exists b1|by exists b2|by exists b3|lia].
Qed.
Lemma seq_begins b l : (seq_of (b :: l)).1 = true -> utf8_cont b = false.
Proof. cbn. unfold utf8_cont. repeat (case_match; cbn; try lia); intros; lia. Qed.

Lemma valid_spec fuel l : (length l <= fuel)%nat -> let v := valid_up_to fuel l in
  upto l v /\
  (forall e, (e <= v)%nat -> is_char_boundary (take v l) e = true -> upto l e /\ lossy (take e l) = take e l) /\
  (drop v l = [] \/ (seq_of (drop v l)).1 = false) /\
  (l <> [] -> (seq_of l).1 = true -> is_char_boundary (take v l) (seq_of l).2 = true /\ ((seq_of l).2 <= v)%nat).
Proof.
  revert l; induction fuel as [|fuel IH]; intros l Hf; cbv zeta.
  - destruct l; [|cbn in Hf; lia]. split_and!; [apply upto_here| |by left|done]. intros e He _. replace e with 0%nat by (cbn in He; lia).
    split; [apply upto_here|done].
  - destruct l as [|b l'] eqn:El; [split_and!; [apply upto_here| |by left|done]; intros e He _; replace e with 0%nat by (cbn in He; lia); split; [apply upto_here|done]|].
    rewrite <- El in *. assert (Hl : l <> []) by by rewrite El. assert (Ev : valid_up_to (S fuel) l = let '(ok, n) := seq_of l in if ok then (n + valid_up_to fuel (drop n l))%nat else 0%nat) by by rewrite El.
    rewrite Ev. pose proof (seq_pos l Hl) as Hp. destruct (seq_of l) as [ok n] eqn:Es. cbn [snd fst] in *. destruct ok.
    2: { split_and!; [apply upto_here| |right; change (drop 0 l) with l; by rewrite Es|done]. intros e He _. replace e with 0%nat by lia. split; [apply upto_here|done]. }
    destruct (IH (drop n l)) as (Hu & Hb & Hr & Hnext); [rewrite length_drop; lia|]. set (v' := valid_up_to fuel (drop n l)) in *.
    pose proof (upto_le _ _ Hu) as Hle. rewrite length_drop in Hle.
    assert (Hsn : upto l n) by (pose proof (upto_single l Hl) as H; by rewrite Es in H).
    assert (Hok : lossy (take n l) = take n l) by (pose proof (lossy_ok l Hl) as H; rewrite Es in H; by apply H).
    assert (Hlook : forall i, (i < v')%nat -> take (n + v') l !! (n + i)%nat = take v' (drop n l) !! i).
    { intros i Hi. rewrite !lookup_take_lt by lia. by rewrite lookup_drop. }
    split_and!; [by apply upto_trans| |by rewrite <- drop_drop|].
    + intros e He Hbd. destruct (decide (e = 0)%nat) as [->|He0]; [split; [apply upto_here|done]|]. destruct (le_lt_dec n e) as [Hne|Hne].
      * replace e with (n + (e - n))%nat by lia. destruct (Hb (e - n)%nat ltac:(lia)) as [Hue Hte].
        { unfold is_char_boundary in *. rewrite length_take in *. rewrite length_drop. destruct (Nat.eqb_spec (e - n) 0); [done|]. cbn [orb].
          destruct (Nat.eqb_spec e 0); [lia|]. cbn [orb] in Hbd. destruct (Nat.eqb_spec (e - n) (v' `min` (length l - n))); [done|]. cbn [orb].
          destruct (Nat.eqb_spec e ((n + v') `min` length l)); [lia|]. cbn [orb] in Hbd. rewrite <- Hlook by lia. by replace (n + (e - n))%nat with e by lia. }
        split; [by apply upto_trans|]. rewrite lossy_take by done. rewrite Hok, Hte. apply take_take_drop.
      * exfalso. assert (Hin : exists b, l !! e = Some b /\ utf8_cont b = true) by (apply seq_inside; by rewrite Es; cbn; lia).
        destruct Hin as (c & Hc & Hcc). unfold is_char_boundary in Hbd. rewrite lookup_take_lt, Hc, Hcc in Hbd by lia. rewrite length_take in Hbd.
        destruct (Nat.eqb_spec e 0); [lia|]. destruct (Nat.eqb_spec e ((n + v') `min` length l)); [lia|]. done.
    + intros _ _. split; [|lia]. unfold is_char_boundary. rewrite length_take. destruct (Nat.eqb_spec n 0); [lia|].
      destruct (Nat.eqb_spec n ((n + v') `min` length l)) as [|Hnl]; [done|]. cbn [orb].
      assert (Hv' : (0 < v')%nat) by lia. pose proof (Hlook 0%nat Hv') as E. rewrite Nat.add_0_r in E. rewrite E.
      destruct (drop n l) as [|b' l''] eqn:Ed; [apply (f_equal length) in Ed; rewrite length_drop in Ed; cbn in Ed; lia|].
      assert (Hok' : (seq_of (b' :: l'')).1 = true).
      { clear - Hv' Ed. subst v'. rewrite ?Ed in Hv'. destruct fuel; cbn [valid_up_to] in Hv'; [lia|]. destruct (seq_of (b' :: l'')) as [[] k]; [done|lia]. }
      destruct v'; [lia|]. cbn. by rewrite (seq_begins b' l'' Hok').
Qed.
Lemma floor_spec s e : is_char_boundary s (floor_boundary s e) = true /\ (floor_boundary s e <= e)%nat /\
  forall k, (k <= e)%nat -> is_char_boundary s k = true -> (k <= floor_boundary s e)%nat.
Proof.
  induction e as [|e (IH1 & IH2 & IH3)]; cbn [floor_boundary].
  - destruct (is_char_boundary s 0) eqn:E; [split_and!; [done|lia|lia]|done].
  - destruct (is_char_boundary s (S e)) eqn:E; [split_and!; [done|lia|lia]|]. split_and!; [done|lia|]. intros k Hk Hb.
    destruct (decide (k = S e)) as [->|]; [congruence|]. apply IH3; [lia|done].
Qed.
Lemma seq_length l : ((seq_of l).2 <= 4)%nat.
Proof. destruct l as [|b0 l1]; cbn; repeat case_match; cbn; lia. Qed.

Lemma decode_spec budget fuel l d0 : (length l <= fuel)%nat -> (length (d_text d0) <= budget)%nat -> exists r,
  let d := decode_chunks budget (utf8_chunks fuel l) d0 in
  upto l r /\ raw_len d = (raw_len d0 + r)%nat /\ d_text d = d_text d0 ++ lossy (take r l) /\ (length (d_text d) <= budget)%nat /\
  (l <> [] -> (4 <= budget - length (d_text d0))%nat -> (0 < r)%nat).
Proof.
  revert l d0; induction fuel as [|fuel IH]; intros l d0 Hf Hb.
  { destruct l; [|cbn in Hf; lia]. exists 0%nat. split_and!; [constructor|by rewrite Nat.add_0_r|by rewrite app_nil_r|done|done]. }
  destruct l as [|b0 l1] eqn:El.
  { exists 0%nat. split_and!; [constructor|by rewrite Nat.add_0_r|by rewrite app_nil_r|done|done]. }
  rewrite <- El in *. assert (Hl : l <> []) by by rewrite El.
  destruct (valid_spec (length l) l (le_n _)) as (Hu & Hbd & Hrest & Hfirst). set (v := valid_up_to (length l) l) in *.
  assert (Ec : utf8_chunks (S fuel) l = (take v l, take (match drop v l with [] => 0%nat | _ => (seq_of (drop v l)).2 end) (drop v l))
    :: utf8_chunks fuel (drop (match drop v l with [] => 0%nat | _ => (seq_of (drop v l)).2 end) (drop v l))) by (unfold v; by rewrite El).
  rewrite Ec. clear Ec El b0 l1. pose proof (upto_le _ _ Hu) as Hle. cbn [decode_chunks].
  assert (Hlen : length (take v l) = v) by (rewrite length_take; lia). rewrite Hlen.
  assert (Htv : lossy (take v l) = take v l). { apply Hbd; [done|]. unfold is_char_boundary. rewrite Hlen, Nat.eqb_refl. by rewrite orb_true_r. }
  destruct (Nat.ltb_spec (budget - length (d_text d0)) v) as [Hroom|Hroom].
  { destruct (floor_spec (take v l) (budget - length (d_text d0))) as (F1 & F2 & F3). set (e := floor_boundary _ _) in *.
    destruct (Hbd e ltac:(lia) F1) as [Hue Hte]. exists e. cbn [raw_len d_text]. rewrite take_take, Nat.min_l, Hte by lia.
    split_and!; [done|done|done|rewrite length_app, length_take; lia|]. intros _ Hbig. destruct (seq_of l) as [ok n] eqn:Es.
    pose proof (seq_pos l Hl) as Hp. pose proof (seq_length l) as H4. rewrite Es in Hp, H4. cbn in Hp, H4. destruct ok.
    - destruct (Hfirst Hl eq_refl) as [Hn Hnv]. cbn in Hn, Hnv. specialize (F3 n ltac:(lia) Hn). lia.
    - exfalso. unfold v in Hroom. destruct l as [|b l]; [done|]. cbn [length valid_up_to] in Hroom. rewrite Es in Hroom. lia. }
  cbn [d_text raw_len replaced].
  destruct (drop v l) as [|b rest] eqn:Ed.
  { exists v. cbn. replace (decode_chunks budget (utf8_chunks fuel []) _) with {| d_text := d_text d0 ++ take v l; raw_len := raw_len d0 + v; replaced := replaced d0 |} by by destruct fuel.
    cbn. split_and!; [done|done|by rewrite Htv|rewrite length_app, Hlen; lia|]. intros _ _.
    apply (f_equal length) in Ed. rewrite length_drop in Ed. cbn in Ed. destruct l; [done|]. cbn in *. lia. }
  rewrite <- Ed in Hrest |- *. assert (Hne : drop v l <> []) by by rewrite Ed. destruct Hrest as [|Hbad]; [congruence|]. pose proof (seq_pos _ Hne) as Hp. clear Ed b rest.
  set (n := (seq_of (drop v l)).2) in *. assert (Hln : length (take n (drop v l)) = n) by (rewrite length_take; lia).
  destruct (take n (drop v l)) as [|c cs] eqn:Et; [cbn in Hln; lia|]. rewrite <- Et in *. clear Et c cs.
  set (d1 := {| d_text := d_text d0 ++ take v l; raw_len := raw_len d0 + v; replaced := replaced d0 |}).
  destruct (Nat.ltb_spec (budget - length (d_text d0 ++ take v l)) (length replacement)) as [Hno|Hfit].
  { exists v. cbn. split_and!; [done|done|by rewrite Htv|rewrite length_app, Hlen; lia|]. intros _ Hbig. rewrite length_app, Hlen in Hno. cbn in Hno. lia. }
  cbn [d_text raw_len replaced]. rewrite Hln.
  destruct (IH (drop n (drop v l)) {| d_text := (d_text d0 ++ take v l) ++ replacement; raw_len := raw_len d0 + v + n; replaced := S (replaced d0) |}) as (r & Hr1 & Hr2 & Hr3 & Hr4 & _).
  { rewrite !length_drop in *. lia. }
  { cbn [d_text]. rewrite !length_app, Hlen in *. lia. }
  cbn [d_text raw_len] in *. exists (v + (n + r))%nat. rewrite Hr2, Hr3. split_and!.
  - apply upto_trans; [done|]. by apply upto_seq.
  - lia.
  - rewrite lossy_take by done. rewrite lossy_take by (by apply upto_single). pose proof (lossy_bad _ Hne Hbad) as Hlb. fold n in Hlb. rewrite Hlb, Htv. by rewrite <- !app_assoc.
  - by rewrite <- Hr3.
  - lia.
Qed.
Lemma decode_within_spec w budget : (4 <= budget)%nat -> w <> [] -> let d := decode_within w budget in
  upto w (raw_len d) /\ d_text d = lossy (take (raw_len d) w) /\ (length (d_text d) <= budget)%nat /\ (0 < raw_len d)%nat.
Proof.
  intros Hb Hw. destruct (decode_spec budget (length w) w {| d_text := []; raw_len := 0; replaced := 0 |} ltac:(lia) ltac:(cbn; lia)) as (r & Hu & Hr & Ht & Hl & Hp).
  cbv zeta. cbn in Hr, Ht. fold (decode_within w budget) in *. rewrite Hr. split_and!; [done|done|done|]. apply Hp; [done|cbn; lia].
Qed.

(** ** Reading on *)

Lemma existsb_zero l : 0 ∉ l -> existsb (Z.eqb 0) l = false.
Proof.
  intros H. apply not_true_iff_false. intros (b & Hb & E)%existsb_exists. apply Z.eqb_eq in E as <-. by apply H, list_elem_of_In.
Qed.
Lemma not_in_window (x : Z) a b c data : x ∉ data -> x ∉ take a (take b (drop c data)).
Proof.
  intros H (i & Hi & _)%elem_of_take. apply lookup_take_Some in Hi as [Hi _]. rewrite lookup_drop in Hi. by apply H; eapply list_elem_of_lookup_2.
Qed.
(** One call in the middle of a file that is text. *)
Lemma read_slice_spec data offset limit : 4 <= limit -> 0 <= offset < lenZ data -> 0 ∉ data ->
  let rest := drop (Z.to_nat offset) data in
  exists r n, (0 < r)%nat /\ upto rest r /\ lenZ (lossy (take r rest)) <= FILE_READ_MAX /\ (r <= Z.to_nat limit)%nat /\
  read_slice data offset limit = Slice (lossy (take r rest)) (lenZ data) offset (offset + Z.of_nat r) n
    (if offset + Z.of_nat r <? lenZ data then Some (lenZ data - (offset + Z.of_nat r)) else None).
Proof.
  intros Hlim Hoff Hz rest. unfold read_slice. replace ((lenZ data <=? offset) && (0 <? lenZ data)) with false by lia.
  set (lim := Z.min limit FILE_READ_MAX). assert (Hl4 : 4 <= lim) by (unfold lim, FILE_READ_MAX, MAX_TOOL_RESULT_SIZE, TOOL_RESULT_ENVELOPE; lia).
  set (we := Z.min (offset + lim) (lenZ data)). unfold checked_sub. replace (we <? offset) with false by lia.
  fold rest. set (len := Z.to_nat (we - offset)). assert (Hrest : length rest = Z.to_nat (lenZ data - offset)) by (unfold rest, lenZ in *; rewrite length_drop; lia).
  assert (Hlen : length (take len rest) = len) by (rewrite length_take; unfold len, we; lia).
  rewrite existsb_zero by by apply not_in_window.
  set (buf := if we <? lenZ data then _ else _).
  assert (Hbuf : exists k, (0 < k <= len)%nat /\ buf = take k rest /\ upto rest k).
  { unfold buf. destruct (Z.ltb_spec we (lenZ data)) as [Hwe|Hwe].
    - assert (Hlim' : len = Z.to_nat lim) by (unfold len, we in *; lia).
      assert (Hcut : (cut_character_len (take len rest) <= 3)%nat).
      { unfold cut_character_len. destruct (decide (cut_from (take len rest) 1 (length (take len rest) `min` 3) = 0%nat)) as [->|]; [lia|].
        destruct (cut_from_lead (take len rest) 1 (length (take len rest) `min` 3)) as [Hc _]; lia. }
      destruct (cut_boundary (take len rest) (drop len rest)) as [_ Hu]; [lia|]. destruct (Nat.ltb_spec (cut_character_len (take len rest)) (length (take len rest))); [|lia].
      rewrite take_drop, take_take, length_take in Hu. set (cut := cut_character_len _) in *. exists (len - cut)%nat. rewrite Hlen in *. split_and!; [lia|lia| |].
      + rewrite take_take. f_equal. lia.
      + replace (len - cut)%nat with ((len - cut) `min` len `min` length rest)%nat; [done|]. rewrite length_take in Hlen. lia.
    - exists len. split_and!; [lia|lia|done|]. replace rest with (rest ++ []) by by rewrite app_nil_r.
      replace len with (length rest) by (unfold len, we in *; lia). apply boundary_upto. by right. }
  destruct Hbuf as (k & Hk & -> & Hu).
  assert (Hne : take k rest <> []) by (intros E; apply (f_equal length) in E; rewrite length_take in E; cbn in E; rewrite length_take in Hlen; lia).
  destruct (decode_within_spec (take k rest) (Z.to_nat FILE_READ_MAX) ltac:(unfold FILE_READ_MAX, MAX_TOOL_RESULT_SIZE, TOOL_RESULT_ENVELOPE; lia) Hne) as (Hd1 & Hd2 & Hd3 & Hd4).
  set (d := decode_within _ _) in *. pose proof (upto_le _ _ Hd1) as Hdl. rewrite length_take in Hdl.
  exists (raw_len d), (replaced d). rewrite take_take, Nat.min_l in Hd2 by lia.
  split_and!; [done|by eapply upto_part|rewrite <- Hd2; unfold lenZ; lia|unfold len, we, lim in *; lia|]. by rewrite Hd2.
Qed.

Lemma read_on_spec fuel data offset limit : 4 <= limit -> 0 <= offset < lenZ data -> 0 ∉ data -> lenZ data - offset <= Z.of_nat fuel ->
  read_on fuel data offset limit = Some (lossy (drop (Z.to_nat offset) data)).
Proof.
  intros Hlim. revert offset; induction fuel as [|fuel IH]; intros offset Hoff Hz Hf; [lia|]. cbn [read_on].
  destruct (read_slice_spec data offset limit Hlim Hoff Hz) as (r & n & Hr & Hu & _ & _ & ->). set (rest := drop (Z.to_nat offset) data) in *.
  pose proof (upto_le _ _ Hu) as Hle. unfold rest in Hle. rewrite length_drop in Hle. unfold lenZ in *.
  destruct (Z.ltb_spec (offset + Z.of_nat r) (Z.of_nat (length data))) as [Hlt|Hge].
  - rewrite IH by (done || lia). cbn. f_equal. rewrite <- (upto_take rest r Hu). f_equal. unfold rest. rewrite drop_drop. f_equal. f_equal. lia.
  - rewrite take_ge; [done|]. unfold rest. rewrite length_drop. lia.
Qed.

(** reading a file in windows is reading the file. For any file that is
    not empty and holds no zero byte, and any limit of at least four bytes,
    a call at the start and then at the offset each trailer names ends at the
    end of the file after at most as many calls as it has bytes, and the
    texts put together are what one lossy decoding of the whole file gives,
    whatever characters the windows would have cut and whatever is not
    UTF-8. Each call shows at most [FILE_READ_MAX] bytes of text and reads
    at least one byte and at most the limit. *)
Theorem windows_read_the_file data limit : 4 <= limit -> data <> [] -> 0 ∉ data ->
  read_on (length data) data 0 limit = Some (lossy data) /\
  forall offset, 0 <= offset < lenZ data -> exists content read_end n more,
    read_slice data offset limit = Slice content (lenZ data) offset read_end n more /\
    lenZ content <= FILE_READ_MAX /\ offset < read_end <= offset + limit /\ (more = None <-> read_end = lenZ data).
Proof.
  intros Hlim Hne Hz. assert (Hlen : 0 < lenZ data) by (destruct data; [done|unfold lenZ; cbn; lia]). split.
  - apply (read_on_spec _ data 0); [done|lia|done|unfold lenZ; lia].
  - intros offset Hoff. destruct (read_slice_spec data offset limit Hlim Hoff Hz) as (r & n & Hr & Hu & Ht & Hrl & ->).
    pose proof (upto_le _ _ Hu) as Hle. rewrite length_drop in Hle. eexists _, _, _, _. split; [done|]. split_and!; [done|lia|lia|].
    unfold lenZ in *. destruct (Z.ltb_spec (offset + Z.of_nat r) (Z.of_nat (length data))); split; intros; try done; lia.
Qed.
(** U+20AC twice and a stray byte, four bytes at a time. *)
Lemma windows_read_the_file_witness :
  read_slice [226; 130; 172; 226; 130; 172; 255] 0 4 = Slice [226; 130; 172] 7 0 3 0 (Some 4) /\
  read_on 7 [226; 130; 172; 226; 130; 172; 255] 0 4 = Some [226; 130; 172; 226; 130; 172; 239; 191; 189].
Proof.
  split; [vm_compute; reflexivity|]. etrans; [apply (windows_read_the_file [226; 130; 172; 226; 130; 172; 255] 4); [lia|discriminate|]|vm_compute; reflexivity].
  rewrite !elem_of_cons. intros [E|[E|[E|[E|[E|[E|[E|E]]]]]]]; try discriminate E. by apply elem_of_nil in E.
Defined.
