(* ===== verification/Limits.v ===== *)
(** * What the code does not promise

    Closed computations, on the reference instances, of behaviours the
    theorems exclude by a hypothesis: an index created while a document is
    inserted, partition names shared by a collection and an index, a [$set] of
    the identifier, and answers of compound indexes and of the bitmap
    accelerator that differ from the scan's. The module [ToolLimits] has
    inputs on which the jail, the atomic writer and [file_read] do what their
    comments say they do not, each run on a concrete tree. *)

From S2P Require Import Prelude Bytes F64 Json Errors Externals Filter Secondary Backend Index Storage Document Consistency Refinement History Concurrency Guarantees Cursor Parser Sort Page Planner Executor Execution Plans Queries Answers Bitmap Bitmaps Accelerated Rebuild.
Import Ref RefStorage RefBackend RefPayload Demo QueryDemo.

(** [create_index] scans the collection, then commits and registers, and holds
    no document lock: a document inserted in between is in no index entry. *)
Definition after_race : Storage :=
  match prepare_index None "c" "j" ["k"] s1 with
  | (Ok (p, entries), s) =>
      let s := (insert_document "t5" "u5" "c" (VObject [("_id", VString "z"); ("k", VBool true)]) s).2 in
      (publish_index (IndexDef_new "j" "c" ["k"] "t6") p entries s).2
  | (Err _, s) => s
  end.
Lemma index_misses_concurrent_insert :
  lookup_eq None (index_manager after_race) (eng after_race) "c" "k" (VBool true) = Ok (Some []) /\
  ((fun doc => get doc "k") <$> (get_document "c" "z" after_race).1) = Ok (Some (VBool true)).
Proof. split; vm_compute; reflexivity. Qed.

(** A collection name may hold ['#']: the documents of one collection and an
    index of another then share a partition. *)
Lemma partition_names_collide : docs_name "a#idx" = index_name "a" "docs".
Proof. reflexivity. Qed.

(** A [$set] of [_id] changes the field and not the key. *)
Lemma set_overwrites_id : exists doc,
  apply_set [("_id", VString "other")] "t7" (Demo.stored "a" "t1" 7) = doc /\ get doc "_id" = Some (VString "other").
Proof. eexists. split; [reflexivity|]. vm_compute. reflexivity. Qed.

(** ** Queries over compound indexes *)

(** The identifiers a query answers, without and with a compound index. *)
Definition doc_tnk (id : string) (fields : list (string * Value)) : request :=
  RInsert "t1" "u" "c" (VObject (("_id", VString id) :: fields)).
Definition num (n : Z) : Value := VNumber (PosInt n).
Definition answer (rs : list request) (q : ParsedQuery) : list (option Value) :=
  match (execute_query None order "c" q (run None rs fresh).2).1 with
  | Ok r => (fun doc => get doc "_id") <$> r_docs r
  | Err _ => []
  end.
Definition filtered (f : FilterNode) (sort : list SortField) : ParsedQuery :=
  {| q_filter := Some f; q_sort := sort; q_limit := 10; q_offset := 0; q_fields := None; q_count_only := false; q_cursor := None |}.
Definition base : list request :=
  [RCreateCollection "t0" "c"; doc_tnk "a" [("t", VString "x"); ("n", num 7); ("k", num 1)]; doc_tnk "b" [("t", VString "x"); ("k", num 1)]].
Definition tnk (fields : list string) : list request := base ++ [RCreateIndex "t2" "c" "i" fields].

(** A document without the sort field is in the answer, until an index holds
    the filter's field and the sort field. *)
Lemma sorted_walk_omits_missing :
  answer base (filtered (Comparison "t" Eq_ (VString "x")) [by_n]) = [Some (VString "a"); Some (VString "b")] /\
  answer (tnk ["t"; "n"]) (filtered (Comparison "t" Eq_ (VString "x")) [by_n]) = [Some (VString "a")].
Proof. split; vm_compute; reflexivity. Qed.
(** So does a compound equality on the first fields of an index. *)
Definition both : FilterNode := And [Comparison "t" Eq_ (VString "x"); Comparison "k" Eq_ (num 1)].
Lemma compound_eq_omits_missing :
  answer base (filtered both []) = [Some (VString "a"); Some (VString "b")] /\
  answer (tnk ["t"; "k"; "n"]) (filtered both []) = [Some (VString "a")].
Proof. split; vm_compute; reflexivity. Qed.
(** A strict bound on a field before the last one of an index lets equal
    values in. *)
Definition above : FilterNode := And [Comparison "t" Eq_ (VString "x"); Comparison "n" Gt_ (num 7)].
Lemma compound_range_admits_equal :
  answer base (filtered above []) = [] /\ answer (tnk ["t"; "n"; "k"]) (filtered above []) = [Some (VString "a")].
Proof. split; vm_compute; reflexivity. Qed.
Definition at_most : FilterNode := And [Comparison "t" Eq_ (VString "x"); Comparison "n" Lte (num 7)].
Lemma compound_range_drops_equal :
  answer base (filtered at_most []) = [Some (VString "a")] /\ answer (tnk ["t"; "n"; "k"]) (filtered at_most []) = [].
Proof. split; vm_compute; reflexivity. Qed.
(** Two equalities on one field: a compound index honours only the first. *)
Definition contradiction : FilterNode :=
  And [Comparison "t" Eq_ (VString "x"); Comparison "t" Eq_ (VString "y"); Comparison "n" Eq_ (num 7)].
Lemma compound_eq_forgets_duplicates :
  answer base (filtered contradiction []) = [] /\ answer (tnk ["t"; "n"]) (filtered contradiction []) = [Some (VString "a")].
Proof. split; vm_compute; reflexivity. Qed.

(** ** The bitmap accelerator outside its conditions *)

Module AcceleratorLimits.
Import RefRoaring BitmapDemo.
(** What a scan of a collection for a value of [t] finds, and what it leaves
    to the residual filter. *)
Definition scanned (config : AcceleratorConfig) (ws : list write) (c : string) (v : Value) : option (list string * bool) :=
  let a := (run_writes ws ∅ (with_ready (Accelerator_new config) true)).2 in
  '(b, r) ← accelerator_scan a c (Comparison "t" Eq_ v);
  Some (Bitmap.resolve_window (positions a) b 0 usize_max, match r with Some _ => true | None => false end).

(** Positions are kept by identifier alone: a delete in one collection hides
    the document of the same identifier in another. *)
Lemma shared_identifier_hidden :
  scanned cfg [WInsert "c" "a" (tagged "x"); WInsert "e" "a" (tagged "x"); WDelete "e" "a"] "c" (VString "x") = Some (["a"], false) /\
  scanned cfg [WInsert "e" "a" (tagged "x"); WInsert "c" "a" (tagged "x"); WDelete "e" "a"] "c" (VString "x") = Some ([], false).
Proof. split; vm_compute; reflexivity. Qed.
(** A value that comes when the column is full has no bit, and its documents
    are in no answer. *)
Definition narrow : AcceleratorConfig := {| bitmap_fields := ["t"]; max_cardinality := 1; max_memory_bytes := 1048576 |}.
Lemma full_column_hides :
  scanned narrow [WInsert "c" "a" (tagged "x"); WInsert "c" "b" (tagged "y")] "c" (VString "y") = Some ([], false).
Proof. vm_compute. reflexivity. Qed.
(** Numbers are told apart by how they are written. *)
Definition counted (v : Value) : Value := VObject [("t", v)].
Definition one : Value := VNumber (PosInt 1).
Definition one_float : Value := VNumber (Float f64_one).
Lemma spelling_hides :
  matches (Comparison "t" Eq_ one_float) (counted one) = true /\
  scanned cfg [WInsert "c" "a" (counted one)] "c" one_float = Some ([], false).
Proof. split; vm_compute; reflexivity. Qed.
End AcceleratorLimits.

Module RebuildLimits.
Import RefRoaring BitmapDemo RebuildDemo.
Definition found (a : Accelerator) : option (list string * Z) :=
  '(b, _) ← accelerator_scan a "c" f; Some (Bitmap.resolve_window (positions a) b 0 usize_max, rb_len b).
(** [create_collection] sets [ready] whenever there are columns: in the middle
    of a rebuild it serves what the scans have not seen yet as absent. *)
Lemma early_ready_hides : found (with_ready (acc s0) true) = Some ([], 0).
Proof. vm_compute. reflexivity. Qed.
(** The collections are listed before the maps are cleared: one that is made
    and filled in between is not scanned, and its hooks are cleared away. *)
Lemma unlisted_collection_hides : found (finish_rebuild (acc (start_system before a0 ["e"]))) = Some ([], 0).
Proof. vm_compute. reflexivity. Qed.
(** A hook that found no rebuild under way but inserts after its start takes a
    second position for the document: the bitmap counts it twice. *)
Definition late_hook : Accelerator :=
  finish_rebuild (rebuild_batch (insert_live (start_rebuild a0) "c" "a" (row "a" "x")) "c" before_c).
Lemma late_hook_counts_twice : found late_hook = Some (["a"; "a"], 2).
Proof. vm_compute. reflexivity. Qed.
End RebuildLimits.

(** ** The file tools *)

From S2P Require Import Prelude Bytes Sse Text Paths Jail Atomic Patch Escapes FileTools ReadWindow.

Module ToolLimits.
(** A link to a file outside, named with a slash at its end: its ancestor is
    taken to be the workspace, and the append goes through the link. *)
Definition linked : fs_t := list_to_map
  [([], EDir); (["w"], EDir); (["w"; "out"], ELink "/etc/p"); (["etc"], EDir); (["etc"; "p"], EFile [1])].
Lemma slash_escapes_the_jail :
  jailed_write_path linked "/w" "out" = Err (LeavesRoot ["etc"; "p"]) /\
  jailed_write_path linked "/w" "out/" = Ok (abs_path ["w"; "out"]) /\
  (file_append_in sample_env linked "/w" "out/" [2]).2 !! ["etc"; "p"] = Some (EFile [1; 2]).
Proof. split_and!; vm_compute; reflexivity. Qed.
(** And a dangling one is written through. *)
Definition dangling : fs_t := list_to_map [([], EDir); (["w"], EDir); (["w"; "out"], ELink "/etc/new"); (["etc"], EDir)].
Lemma slash_creates_outside :
  (exists p, jailed_write_path dangling "/w" "out" = Err (DanglingLink p)) /\
  (file_append_in sample_env dangling "/w" "out/" [2]).2 !! ["etc"; "new"] = Some (EFile [2]).
Proof. split; [eexists|]; vm_compute; reflexivity. Qed.

(** The fence names [.config/git] by prefix: [.config] itself may be moved in
    or removed. *)
Definition staged_config : fs_t := list_to_map
  [([], EDir); (["w"], EDir); (["w"; "g"], EDir); (["w"; "g"; "git"], EDir); (["w"; "g"; "git"; "attributes"], EFile [1])].
Lemma config_is_moved_in :
  (file_write_in sample_env staged_config "/w" ".config/git/attributes" [1]).1 = Err (Jailed InGitConfig) /\
  (file_move_in staged_config "/w" "g" ".config").2 !! ["w"; ".config"; "git"; "attributes"] = Some (EFile [1]).
Proof. split; vm_compute; reflexivity. Qed.
Definition with_config : fs_t := (file_move_in staged_config "/w" "g" ".config").2.
Lemma config_is_removed :
  (dir_delete_in with_config "/w" ".config/git" true).1 = Err (Jailed InGitConfig) /\
  (dir_delete_in with_config "/w" ".config" true).2 !! ["w"; ".config"; "git"; "attributes"] = None.
Proof. split; vm_compute; reflexivity. Qed.

(** A link under the name the temporary file will have is followed, and then
    renamed over the target. *)
Definition planted : fs_t := list_to_map
  [([], EDir); (["w"], EDir); (["w"; "a"], EFile [1]); (["w"; temp_name "a" TMP_TAG "1" "7"], ELink "/etc/p"); (["etc"], EDir); (["etc"; "p"], EFile [1])].
Lemma planted_temp_is_followed :
  (file_write_in sample_env planted "/w" "a" [2; 3]).1 = Ok Done /\
  (file_write_in sample_env planted "/w" "a" [2; 3]).2 !! ["etc"; "p"] = Some (EFile [2; 3]) /\
  (file_write_in sample_env planted "/w" "a" [2; 3]).2 !! ["w"; "a"] = Some (ELink "/etc/p").
Proof. split_and!; vm_compute; reflexivity. Qed.

(** An empty path is the workspace: its temporary file is made beside it. *)
Lemma root_write_stages_outside :
  (file_write_in sample_env sample "/w" "" [5]).1 = Err (NotWritten RenameFailed) /\
  ((write_atomic_create no_faults "1" "7" sample (abs_path ["w"]) [5]).2 !! 1%nat ≫= fun g => g !! [temp_name "w" TMP_TAG "1" "7"]) = Some (EFile [5]).
Proof. split; vm_compute; reflexivity. Qed.

(** An empty file read from an offset takes a larger number from a smaller. *)
Lemma empty_file_underflows : read_slice [] 1 10 = Overflowed.
Proof. vm_compute. reflexivity. Qed.
(** Windows of fewer than four bytes cut characters. *)
Lemma small_windows_cut : read_on 3 [226; 130; 172] 0 1 = Some (replacement ++ replacement ++ replacement) /\ lossy [226; 130; 172] = [226; 130; 172].
Proof. split; vm_compute; reflexivity. Qed.
End ToolLimits.
