(* ===== verification/Soul.v ===== *)
(** * The soul gate of the boot

    The verification of the sealed soul by embra-trustd ([embra-trustd/src/
    soul.rs] and the handlers of [main.rs]) and what embrad does with its
    report ([soul_decision], [verify_soul] of [embrad/src/supervisor.rs]).
    The two programs share a sentence: the report of a first boot is told from
    every other failure by its text. SHA-256 and the serialization of a JSON
    value are parameters; what the database, the hash file and the RPC answer
    is the [World]. *)

From S2P Require Import Prelude Bytes F64 Json Text.

(** [sha2::Sha256] over bytes, and [serde_json::to_string_pretty]. *)
Class SoulLib := {
  sha256 : bytes -> bytes;
  to_string_pretty : Value -> option string;
}.

(** ** [embra-trustd/src/soul.rs] *)

Definition NO_SOUL_ERROR : string := "Soul document not found — no soul exists (first run or data loss)".
Definition SEALED_HASH_WITHOUT_SOUL_ERROR : string := "Soul document missing but a sealed hash is stored".
Definition SOUL_FIELD_MISSING_ERROR : string :=
  "The stored soul document lacks its soul field; the seal cannot be checked".

(** What [GET …/soul.invariant/docs/soul] gives: no connection, or a status
    and a body, [None] when the body is no JSON. *)
Inductive reply := NoAnswer | Answered (status : Z) (body : option Value).
(** What [metadata] of the hash file gives. *)
Inductive presence := Present | Absent | Untold (e : string).
Record World := {
  db : reply;
  hash_stat : presence;
  hash_text : option string; (** [read_to_string], [None] for an error *)
  hash_path : string;
}.

(** [value[key]]: [Null] where there is nothing. *)
Definition index (v : Value) (k : string) : Value := default VNull (get v k).

Definition read_soul_from_db (w : World) : result string (option Value) :=
  match db w with
  | NoAnswer => Err "Failed to connect to WardSONDB"
  | Answered status body =>
      if status =? 404 then Ok None else
      match body with
      | None => Err "Failed to parse WardSONDB response"
      | Some envelope =>
          if negb (default false (as_bool (index envelope "ok")))
          then Err ("WardSONDB error: " +:+ default "unknown error" (as_str (index (index envelope "error") "message")))
          else if is_null (index envelope "data") then Err "Soul document is null"
          else Ok (Some (index envelope "data"))
      end
  end.

Definition stored_hash_is_present (w : World) : result string bool :=
  match hash_stat w with Present => Ok true | Absent => Ok false | Untold e => Err e end.

(** [exists] is [metadata(…).is_ok()]. *)
Definition read_stored_hash (w : World) : result string string :=
  match hash_stat w with
  | Present =>
      match hash_text w with
      | None => Err "Failed to read stored soul hash"
      | Some text =>
          let hash := trim text in
          if bool_decide (hash = EmptyString) then Err "Stored soul hash is empty" else Ok hash
      end
  | _ => Err ("No stored soul hash at " +:+ hash_path w +:+
              " while a soul document exists — restore STATE, or remove the soul with seed-state.sh --wipe data to start over")
  end.

Section verify.
Context `{SoulLib}.

Definition compute_hash (soul_json : Value) : result string string :=
  match get soul_json "soul" with
  | None => Err SOUL_FIELD_MISSING_ERROR
  | Some soul_content =>
      match to_string_pretty soul_content with
      | None => Err "The stored soul document does not serialize; the seal cannot be checked"
      | Some canonical => Ok (hex_of (sha256 (str_bytes canonical)))
      end
  end.

Definition verify_inner (w : World) : result string (string * string) :=
  match read_soul_from_db w with
  | Err e => Err e
  | Ok None =>
      match stored_hash_is_present w with
      | Ok false => Err NO_SOUL_ERROR
      | Ok true => Err (SEALED_HASH_WITHOUT_SOUL_ERROR +:+ " at " +:+ hash_path w +:+
                        " — restore DATA, or remove the hash to start over")
      | Err e => Err ("Soul document missing and the seal hash at " +:+ hash_path w +:+
                      " could not be checked (" +:+ e +:+ ") — fix STATE, or remove the hash to start over")
      end
  | Ok (Some soul_json) =>
      match compute_hash soul_json with
      | Err e => Err e
      | Ok computed =>
          match read_stored_hash w with
          | Err e => Err e
          | Ok stored => Ok (computed, stored)
          end
      end
  end.

Record Verdict := { valid : bool; error : string; computed_hash : string; stored_hash : string }.

(** [SoulVerifier::verify], the tuple as a record. *)
Definition verify (w : World) : Verdict :=
  match verify_inner w with
  | Ok (computed, stored) =>
      if bool_decide (computed = stored)
      then {| valid := true; error := EmptyString; computed_hash := computed; stored_hash := stored |}
      else {| valid := false; error := "Hash mismatch"; computed_hash := computed; stored_hash := stored |}
  | Err msg => {| valid := false; error := msg; computed_hash := EmptyString; stored_hash := EmptyString |}
  end.

(** ** The handlers of [embra-trustd/src/main.rs] *)

Definition apply_expected_hash (expected : string) (v : Verdict) : Verdict :=
  if bool_decide (expected <> EmptyString) && bool_decide (computed_hash v <> expected)
  then {| valid := false;
          error := "Expected hash " +:+ expected +:+ " but computed " +:+ computed_hash v;
          computed_hash := computed_hash v; stored_hash := stored_hash v |}
  else v.
Definition rpc_verify_soul (expected : string) (w : World) : Verdict := apply_expected_hash expected (verify w).

Record SoulStatus := { sealed : bool; sha : string; verified : bool }.
Definition get_soul_status (w : World) : SoulStatus :=
  let v := verify w in
  {| sealed := negb (bool_decide (stored_hash v = EmptyString)); sha := computed_hash v; verified := valid v |}.
End verify.

(** ** [embrad/src/supervisor.rs] *)

Definition NO_SOUL_REPORT : string := "Soul document not found — no soul exists (first run or data loss)".
Definition is_first_run (reason : string) : bool := bool_decide (trim reason = NO_SOUL_REPORT).

Inductive SoulDecision := Pass | FirstRun | Halt (reason : string).
Definition soul_decision (valid : bool) (error computed stored : string) : SoulDecision :=
  if valid then Pass else
  let reason := if bool_decide (error = EmptyString)
                then "Soul hash mismatch: computed=" +:+ computed +:+ ", stored=" +:+ stored
                else error in
  if is_first_run reason then FirstRun else Halt reason.

(** [verify_soul]: the boot goes on, fails with an error, or the machine
    halts. The connection and the call may fail. *)
Inductive gate := Go (d : SoulDecision) | BootError (msg : string) | HaltSystem (reason : string).
Definition verify_soul (connect : result string unit) (call : result string Verdict) : gate :=
  match connect with
  | Err e => BootError ("Failed to connect to embra-trustd: " +:+ e)
  | Ok _ =>
      match call with
      | Err e => BootError ("Soul verification RPC failed: " +:+ e)
      | Ok r =>
          match soul_decision (valid r) (error r) (computed_hash r) (stored_hash r) with
          | Halt reason => HaltSystem ("Soul verification failed: " +:+ reason)
          | d => Go d
          end
      end
  end.

(** ** The gate end to end *)

Section gate_spec.
Context `{SoulLib}.

(** The database answers the soul with its field, and the hash file holds
    the digest of that field, white space around it ignored. *)
Definition seal_matches (w : World) : Prop :=
  exists doc soul canonical text,
    read_soul_from_db w = Ok (Some doc) /\ get doc "soul" = Some soul /\ to_string_pretty soul = Some canonical /\
    hash_stat w = Present /\ hash_text w = Some text /\
    trim text = hex_of (sha256 (str_bytes canonical)) /\ trim text <> EmptyString.

(** The database says there is no such document, and there is no hash file. *)
Definition never_sealed (w : World) : Prop :=
  (exists body, db w = Answered 404 body) /\ hash_stat w = Absent.

(** The boot with both programs up. *)
Definition boot_gate (w : World) : gate := verify_soul (Ok tt) (Ok (rpc_verify_soul EmptyString w)).
End gate_spec.

(** ** Facts *)

(** Only a report that begins with the shared sentence reads as a first run. *)
Lemma is_first_run_prefix reason : space_front (str_bytes reason) = O -> is_first_run reason = true ->
  exists t, reason = NO_SOUL_REPORT +:+ t.
Proof.
  intros Hs Hr%bool_decide_eq_true. destruct (trim_prefix reason Hs) as [t Ht]. exists t. by rewrite <-Hr.
Qed.
Lemma first_run_starts reason : space_front (str_bytes reason) = O ->
  str_strip "Soul document not" reason = None -> is_first_run reason = false.
Proof.
  intros Hs Hn. destruct (is_first_run reason) eqn:Hr; [|done].
  destruct (is_first_run_prefix reason Hs Hr) as [t ->].
  change (NO_SOUL_REPORT +:+ t) with ("Soul document not" +:+ (" found — no soul exists (first run or data loss)" +:+ t)) in Hn.
  by rewrite str_strip_app in Hn.
Qed.
Ltac other_report := apply first_run_starts; reflexivity.

Section facts.
Context `{SoulLib}.

Lemma compute_hash_err doc e : compute_hash doc = Err e -> is_first_run e = false /\ e <> EmptyString.
Proof. unfold compute_hash. repeat case_match; intros [= <-]; (split; [other_report|discriminate]). Qed.
Lemma read_stored_hash_err w e : read_stored_hash w = Err e -> is_first_run e = false /\ e <> EmptyString.
Proof.
  unfold read_stored_hash. destruct (hash_stat w); [destruct (hash_text w); [case_match|]| |];
    intros [= <-]; (split; [other_report|discriminate]).
Qed.
Lemma read_soul_err w e : read_soul_from_db w = Err e -> is_first_run e = false /\ e <> EmptyString.
Proof.
  unfold read_soul_from_db. destruct (db w) as [|status [v|]]; try case_match; try done;
    try (intros [= <-]; split; [other_report|discriminate]).
  case_match; [|case_match; [|done]]; intros [= <-]; (split; [other_report|discriminate]).
Qed.
Lemma read_soul_none w : read_soul_from_db w = Ok None <-> exists body, db w = Answered 404 body.
Proof.
  unfold read_soul_from_db. destruct (db w) as [|status body]; [naive_solver|].
  destruct (Z.eqb_spec status 404) as [->|Hne].
  - split; [by eexists|done].
  - split; [|naive_solver]. destruct body; [|done]. by repeat case_match.
Qed.

(** An error of the verification reads as a first run exactly when nothing
    was ever sealed. *)
Lemma verify_err w e : verify_inner w = Err e -> e <> EmptyString /\ (is_first_run e = true <-> never_sealed w).
Proof.
  unfold verify_inner, never_sealed. rewrite <-read_soul_none. intros Hv.
  destruct (read_soul_from_db w) as [[doc|]|e'] eqn:Hr.
  - assert (Hf : is_first_run e = false /\ e <> EmptyString).
    { destruct (compute_hash doc) eqn:Hc; [|injection Hv as <-; by apply compute_hash_err in Hc].
      destruct (read_stored_hash w) eqn:Hh; [done|]. injection Hv as <-. by apply read_stored_hash_err in Hh. }
    destruct Hf as [-> ?]. split; [done|]. naive_solver.
  - unfold stored_hash_is_present in Hv. destruct (hash_stat w); injection Hv as <-.
    + split; [discriminate|]. replace (is_first_run _) with false by (symmetry; other_report). naive_solver.
    + split; [discriminate|]. by vm_compute.
    + split; [discriminate|]. replace (is_first_run _) with false by (symmetry; other_report). naive_solver.
  - injection Hv as <-. apply read_soul_err in Hr as [-> ?]. split; [done|]. naive_solver.
Qed.

Lemma seal_matches_verify w : seal_matches w <-> exists h, verify_inner w = Ok (h, h).
Proof.
  unfold seal_matches, verify_inner, compute_hash, read_stored_hash. split.
  - intros (doc & soul & canonical & text & -> & -> & -> & -> & -> & E & Hne).
    rewrite bool_decide_eq_false_2 by done. eexists. by rewrite E.
  - intros [h Hv]. destruct (read_soul_from_db w) as [[doc|]|]; [|by repeat case_match|done].
    destruct (get doc "soul") as [soul|] eqn:Hsoul; [|done]. destruct (to_string_pretty soul) as [canonical|] eqn:Hp; [|done].
    destruct (hash_stat w); [|done..]. destruct (hash_text w) as [text|]; [|done].
    case_bool_decide as Hne; [done|]. injection Hv as Hc <-. by exists doc, soul, canonical, text.
Qed.

Lemma verified_was_sealed w hs : verify_inner w = Ok hs -> ~ never_sealed w.
Proof.
  intros Hv [[body Hb] Hs]. unfold verify_inner in Hv. rewrite (proj2 (read_soul_none w)) in Hv by eauto.
  unfold stored_hash_is_present in Hv. by rewrite Hs in Hv.
Qed.
Lemma boot_gate_value w : boot_gate w =
  match verify_inner w with
  | Ok (computed, stored) =>
      if bool_decide (computed = stored) then Go Pass else HaltSystem "Soul verification failed: Hash mismatch"
  | Err e => if is_first_run e then Go FirstRun else HaltSystem ("Soul verification failed: " +:+ e)
  end.
Proof.
  unfold boot_gate, rpc_verify_soul, apply_expected_hash, verify.
  destruct (verify_inner w) as [[computed stored]|e] eqn:Hv; simpl.
  - case_bool_decide; simpl; [done|]. by replace (is_first_run "Hash mismatch") with false by (by vm_compute).
  - destruct (verify_err w e Hv) as [Hne _]. unfold soul_decision. rewrite (bool_decide_eq_false_2 (e = _)) by done.
    by destruct (is_first_run e).
Qed.
Lemma boot_gate_open w v : boot_gate w = Go v -> seal_matches w \/ never_sealed w.
Proof.
  rewrite boot_gate_value, seal_matches_verify. destruct (verify_inner w) as [[computed stored]|e] eqn:Hv.
  - case_bool_decide as E; [|done]. subst. eauto.
  - destruct (verify_err w e Hv) as [_ Hf]. destruct (is_first_run e); [|done]. intros _. right. by apply Hf.
Qed.
End facts.

(** ** The property *)

(** C29: embrad goes on with the boot exactly when the soul in the database
    hashes to the digest on STATE, and enters Learning Mode exactly when the
    database has no soul and STATE no hash file; in every other case, whatever
    the database, the files or their errors say, the machine halts. *)
Theorem soul_gate_is_exact `{SoulLib} (w : World) :
  (boot_gate w = Go Pass <-> seal_matches w) /\
  (boot_gate w = Go FirstRun <-> never_sealed w) /\
  (seal_matches w \/ never_sealed w \/ exists reason, boot_gate w = HaltSystem reason).
Proof.
  rewrite seal_matches_verify, boot_gate_value.
  destruct (verify_inner w) as [[computed stored]|e] eqn:Hv.
  - pose proof (verified_was_sealed w _ Hv) as Hn. case_bool_decide as E.
    + subst stored. split; [|split]; [|done|left]; naive_solver.
    + split; [|split]; naive_solver.
  - destruct (verify_err w e Hv) as [_ Hf]. split; [by destruct (is_first_run e); naive_solver|].
    destruct (is_first_run e); [|naive_solver]. pose proof (proj1 Hf eq_refl). naive_solver.
Qed.

(** A reference digest and serialization, and the three outcomes. *)
Definition plain_soul : SoulLib := {| sha256 := fun l => take 4 l; to_string_pretty := as_str |}.
Definition soul_world (data : Value) (stat : presence) (text : option string) : World :=
  {| db := Answered 200 (Some (VObject [("data", data); ("ok", VBool true)])); hash_stat := stat; hash_text := text;
     hash_path := "/embra/state/soul.sha256" |}.

Lemma soul_gate_is_exact_witness :
  let sealed := soul_world (VObject [("soul", VString "kind")]) Present (Some "6b696e64 ") in
  let fresh := {| db := Answered 404 None; hash_stat := Absent; hash_text := None; hash_path := "h" |} in
  let lost := {| db := Answered 404 None; hash_stat := Present; hash_text := None; hash_path := "h" |} in
  boot_gate (H := plain_soul) sealed = Go Pass /\ seal_matches (H := plain_soul) sealed /\
  boot_gate (H := plain_soul) fresh = Go FirstRun /\ never_sealed fresh /\
  exists reason, boot_gate (H := plain_soul) lost = HaltSystem reason.
Proof.
  assert (E1 : boot_gate (H := plain_soul) (soul_world (VObject [("soul", VString "kind")]) Present (Some "6b696e64 ")) = Go Pass)
    by (by vm_compute).
  assert (E2 : boot_gate (H := plain_soul)
    {| db := Answered 404 None; hash_stat := Absent; hash_text := None; hash_path := "h" |} = Go FirstRun) by (by vm_compute).
  split; [exact E1|]. split; [exact (proj1 (proj1 (soul_gate_is_exact (H := plain_soul) _)) E1)|].
  split; [exact E2|]. split; [exact (proj1 (proj1 (proj2 (soul_gate_is_exact (H := plain_soul) _))) E2)|].
  eexists. vm_compute. reflexivity.
Defined.

(** ** The status report *)

(** [sealed] is meant to say that a hash is stored. It does so only while the
    verification gets that far: a stored hash whose soul is gone is reported
    as on a machine that was never sealed. *)
Lemma lost_soul_reports_unsealed `{SoulLib} w body : db w = Answered 404 body ->
  get_soul_status w = {| sealed := false; sha := EmptyString; verified := false |}.
Proof.
  intros Hb. unfold get_soul_status, verify, verify_inner. rewrite (proj2 (read_soul_none w)) by eauto.
  by destruct (stored_hash_is_present w) as [[]|].
Qed.
