(* ===== verification/Supervisor.v ===== *)
(** * The service supervisor ([crates/embrad/src/supervisor.rs])

    The services of the machine and what the supervisor does with each:
    starting, health checks, the restart budget, stopping. An [async] method
    is cut at its [await]s into the segments that run without interruption,
    and composed of them; what the kernel and the network answer is an
    argument of the segment that asks. Durations and instants are nanoseconds. *)

From S2P Require Import Prelude Bytes Text.
From Stdlib Require Import Ascii.

Definition Duration := Z.
Definition from_secs (s : Z) : Duration := s * 10 ^ 9.
Definition from_millis (ms : Z) : Duration := ms * 10 ^ 6.
(** [Duration::MAX]: a 64-bit count of seconds and less than one second. *)
Definition DURATION_MAX : Duration := 2 ^ 64 * 10 ^ 9 - 1.

Inductive HealthCheck :=
| Http (url : string) (timeout : Duration)
| Grpc (port : Z) (timeout : Duration)
| ProcessAlive.

Record RestartPolicy := {
  max_restarts : Z;
  backoff_base : Duration;
  backoff_max : Duration;
  stable_after : Duration;
}.

Definition default_policy : RestartPolicy :=
  {| max_restarts := 10; backoff_base := from_secs 1; backoff_max := from_secs 30; stable_after := from_secs 60 |}.

Record ServiceDef := {
  name : string;
  binary : string;
  args : list string;
  env : list (string * string);
  health_check : HealthCheck;
  restart_policy : RestartPolicy;
}.

Definition restart_budget_reset_due (restart_count : Z) (running_for stable_after : Duration) : bool :=
  (0 <? restart_count) && (stable_after <=? running_for).

(** [2u32.saturating_pow] *)
Definition saturating_pow2 (n : Z) : Z := Z.min (2 ^ n) (2 ^ 32 - 1).
(** [Duration * u32] panics when the product overflows. *)
Definition duration_mul (d : Duration) (k : Z) : option Duration :=
  if d * k <=? DURATION_MAX then Some (d * k) else None.
Definition backoff_for (policy : RestartPolicy) (restart_count : Z) : option Duration :=
  d ← duration_mul (backoff_base policy) (saturating_pow2 restart_count);
  Some (Z.min d (backoff_max policy)).

(** ** Children *)

Inductive ExitStatus := ExitCode (code : Z) | Signalled (signal : Z).
Definition success (s : ExitStatus) : bool := match s with ExitCode 0 => true | _ => false end.
(** What [waitpid] answers to [try_wait]. *)
Inductive Wait := Exited (s : ExitStatus) | StillRunning | WaitError (e : string).

(** [tokio::process::Child]: its pid, and its exit once collected. *)
Record Child := { pid_of : Z; collected : option ExitStatus }.
Definition try_wait (c : Child) (answer : Wait) : Wait * Child :=
  match collected c with
  | Some s => (Exited s, c)
  | None => match answer with
            | Exited s => (Exited s, {| pid_of := pid_of c; collected := Some s |})
            | _ => (answer, c)
            end
  end.
(** [Child::id] *)
Definition child_id (c : Child) : option Z := match collected c with None => Some (pid_of c) | Some _ => None end.

Inductive ServiceStatus := Stopped | Starting | Running | Failed (msg : string) | Halted.
#[export] Instance ServiceStatus_eq : EqDecision ServiceStatus.
Proof. solve_decision. Defined.
Definition is_failed (s : ServiceStatus) : bool := match s with Failed _ => true | _ => false end.

Record ServiceState := {
  def : ServiceDef;
  child : option Child;
  pid : option Z;
  started_at : option Z;
  restart_count : Z;
  status : ServiceStatus;
}.
Definition set_status (s : ServiceStatus) (svc : ServiceState) : ServiceState :=
  {| def := def svc; child := child svc; pid := pid svc; started_at := started_at svc; restart_count := restart_count svc; status := s |}.
Definition set_child (c : option Child) (svc : ServiceState) : ServiceState :=
  {| def := def svc; child := c; pid := pid svc; started_at := started_at svc; restart_count := restart_count svc; status := status svc |}.
Definition set_count (n : Z) (svc : ServiceState) : ServiceState :=
  {| def := def svc; child := child svc; pid := pid svc; started_at := started_at svc; restart_count := n; status := status svc |}.

(** [add_service] *)
Definition registered (d : ServiceDef) : ServiceState :=
  {| def := d; child := None; pid := None; started_at := None; restart_count := 0; status := Stopped |}.

(** ** [start_service] *)

(** Where the streams of a child go. *)
Inductive Stdio := Inherit | Null | LogFile (path : string) | Kept (fd : Z).
Record Command := { program : string; arguments : list string; environment : list (string * string);
                    stdin : option Stdio; stdout : Stdio; stderr : Stdio }.
(** [log_file] says how far opening the log got: not at all, or open with or
    without a second handle. [boot_stdio] is what [try_clone] gave of it. *)
Inductive log_open := NotOpened | OpenedOnce | OpenedTwice.
Definition command (d : ServiceDef) (boot_stdio : option (Z * Z)) (log_file : log_open) : Command :=
  let is_console := bool_decide (name d = "embra-console") in
  let log_path := "/embra/ephemeral/" +:+ name d +:+ ".log" in
  let '(inp, out, err) :=
    if is_console then
      let '(i, o) := match boot_stdio with Some (i, o) => (Kept i, Kept o) | None => (Inherit, Inherit) end in
      (Some i, o, match log_file with NotOpened => Null | _ => LogFile log_path end)
    else match log_file with
         | OpenedTwice => (None, LogFile log_path, LogFile log_path)
         | OpenedOnce => (None, LogFile log_path, Null)
         | NotOpened => (None, Null, Null)
         end in
  {| program := binary d; arguments := args d; environment := env d; stdin := inp; stdout := out; stderr := err |}.

(** Up to [spawn] and its bookkeeping, at the instant [now]. *)
Definition spawn_service (spawned : result string Z) (now : Z) (svc : ServiceState) : result string unit * ServiceState :=
  let svc := set_status Starting svc in
  match spawned with
  | Err e => let msg := "Failed to spawn " +:+ name (def svc) +:+ ": " +:+ e in (Err msg, set_status (Failed msg) svc)
  | Ok p =>
      (Ok tt, {| def := def svc; child := Some {| pid_of := p; collected := None |}; pid := Some p; started_at := Some now;
                 restart_count := restart_count svc; status := Starting |})
  end.

(** The [Debug] text of an exit status is a parameter of the messages. *)
Section messages.
Context (show_exit : ExitStatus -> string).

(** After the first half second: a child that has exited is a failure. *)
Definition settle (answer : Wait) (svc : ServiceState) : result string unit * ServiceState :=
  match child svc with
  | None => (Ok tt, svc)
  | Some c =>
      let '(w, c) := try_wait c answer in
      match w with
      | Exited s => let msg := name (def svc) +:+ " exited immediately with status: " +:+ show_exit s in
                    (Err msg, set_child None (set_status (Failed msg) svc))
      | _ => (Ok tt, set_child (Some c) svc)
      end
  end.
End messages.

(** ** [wait_for_health] *)

Definition is_http_200 (response : string) : bool :=
  match split_whitespace (first_line response) with
  | version :: code :: _ => str_starts version "HTTP/" && bool_decide (code = "200")
  | _ => false
  end.

Definition health_addr (url : string) : string :=
  default "127.0.0.1:8090" (head (split_on "/"%char (str_remove (String.length url) "http://" url))).
Definition health_path (url : string) : string := default "/_health" (str_from "/_" url).

(** One turn of a probing loop: the instant at its condition, whether the
    connection opened, whether the request was written, and what one [read]
    gave; a read that never completes holds the loop. *)
Inductive read_result := ReadText (response : string) | ReadError | NeverReads.
Record Probe := { at_ : Z; connected : bool; written : bool; got : read_result }.

Inductive health := Healthy | TimedOut (msg : string) | Waiting.

Fixpoint http_loop (deadline : Z) (msg : string) (probes : list Probe) : health :=
  match probes with
  | [] => Waiting
  | p :: probes =>
      if negb (at_ p <? deadline) then TimedOut msg
      else if connected p && written p then
        match got p with
        | ReadText response => if is_http_200 response then Healthy else http_loop deadline msg probes
        | ReadError => http_loop deadline msg probes
        | NeverReads => Waiting
        end
      else http_loop deadline msg probes
  end.
Fixpoint grpc_loop (deadline : Z) (msg : string) (probes : list Probe) : health :=
  match probes with
  | [] => Waiting
  | p :: probes =>
      if negb (at_ p <? deadline) then TimedOut msg
      else if connected p then Healthy else grpc_loop deadline msg probes
  end.

(** [start] is the first [Instant::now()]; the messages' durations are left
    out. *)
Definition wait_for_health (d : ServiceDef) (start : Z) (probes : list Probe) : health :=
  match health_check d with
  | Http url timeout => http_loop (start + timeout) (name d +:+ " failed health check (HTTP " +:+ url +:+ ")") probes
  | Grpc port timeout => grpc_loop (start + timeout) (name d +:+ " failed health check (gRPC port " +:+ pretty port +:+ ")") probes
  | ProcessAlive => Healthy
  end.

(** What the wait returns, when it does. *)
Definition health_result (h : health) : option (result string unit) :=
  match h with Healthy => Some (Ok tt) | TimedOut msg => Some (Err msg) | Waiting => None end.

(** The end of [start_service], once the wait is over. A failed check asks
    the child once more, for the diagnosis. *)
Definition finish_start (outcome : result string unit) (answer : Wait) (svc : ServiceState) : result string unit * ServiceState :=
  match outcome with
  | Ok _ => (Ok tt, set_status Running svc)
  | Err e => (Err e, match child svc with Some c => set_child (Some (try_wait c answer).2) svc | None => svc end)
  end.

(** ** [check_service], [restart_service] *)

Section messages.
Context (show_exit : ExitStatus -> string).

Definition check_service (answer : Wait) (now : Z) (svc : ServiceState) : bool * ServiceState :=
  match child svc with
  | None => (false, svc)
  | Some c =>
      let '(w, c) := try_wait c answer in
      match w with
      | Exited s =>
          let detail := if success s then "Exited cleanly (status 0)" else "Exited: " +:+ show_exit s in
          (false, set_child None (set_status (Failed detail) svc))
      | StillRunning =>
          let svc := set_child (Some c) svc in
          (true, match started_at svc with
                 | Some t => if restart_budget_reset_due (restart_count svc) (now - t) (stable_after (restart_policy (def svc)))
                             then set_count 0 svc else svc
                 | None => svc
                 end)
      | WaitError _ => (false, svc)
      end
  end.
End messages.

(** [restart_service] up to its sleep: nothing to do, an error, or a backoff
    to wait out; [None] is the overflow panic of [backoff_for]. *)
Inductive restart := NoRestart | RestartError (msg : string) | BackOff (d : Duration).
Definition begin_restart (svc : ServiceState) : option restart * ServiceState :=
  let policy := restart_policy (def svc) in
  if bool_decide (status svc = Halted) then (Some NoRestart, svc)
  else if max_restarts policy <=? restart_count svc
  then (Some (RestartError (name (def svc) +:+ " permanently failed")), set_status Halted svc)
  else match backoff_for policy (restart_count svc) with
       | None => (None, svc)
       | Some d => (Some (BackOff d), set_count (restart_count svc + 1) svc)
       end.

(** ** [stop_all], [child_pids] *)

Definition stop_service (svc : ServiceState) : ServiceState := set_child None (set_status Stopped svc).
Definition stop_all (services : list ServiceState) : list ServiceState := stop_service <$> services.
Definition child_pids (services : list ServiceState) : list Z :=
  omap (fun svc => c ← child svc; child_id c) services.

(** What [stop_one] does to a child: the signals it gets, and whether a
    status is collected. [wait] is what happens within the grace period. *)
Inductive grace_end := GraceExit (s : ExitStatus) | GraceError (e : string) | GraceElapsed.
Definition SIGTERM : Z := 15.
Definition SIGKILL : Z := 9.
Definition stop_one (c : Child) (wait : grace_end) (after_kill : Wait) : list Z * option ExitStatus :=
  let term := match child_id c with Some _ => [SIGTERM] | None => [] end in
  match wait with
  | GraceExit s => (term, Some s)
  | GraceError _ => (term, None)
  | GraceElapsed => (term ++ [SIGKILL], match (try_wait c after_kill).1 with Exited s => Some s | _ => None end)
  end.
