(* ===== verification/Reconcile.v ===== *)
(** * The reconciliation loop ([crates/embrad/src/reconcile.rs])

    One pass over the services as a function of what the kernel and the
    network answer, and the loop as a step relation whose steps are the
    segments between two [await]s, so that a shutdown signal may fall between
    any two of them. The theorems: no service ever has a second process, the
    restart count stays within its budget, and the budget is a limit on the
    failures since the last stable run. *)

From S2P Require Import Prelude Bytes Text Supervisor.

(** What one pass sees of one service: the check, and the restart if any. *)
Record Tick := {
  t_now : Z;
  t_wait : Wait;
  t_spawn : result string Z;
  t_spawn_at : Z;
  t_settle : Wait;
  t_health_from : Z;
  t_probes : list Probe;
  t_diag : Wait;
}.

Section reconcile.
Context (show_exit : ExitStatus -> string).

(** An asynchronous call: it returns, waits for ever, or panics. *)
Inductive run (A : Type) := Done (a : A) | Hung (svc : ServiceState) | Panicked (svc : ServiceState).
Arguments Done {A}. Arguments Hung {A}. Arguments Panicked {A}.

(** [None] while the health check waits. *)
Definition start_service (tk : Tick) (svc : ServiceState) : option (result string unit) * ServiceState :=
  match spawn_service (t_spawn tk) (t_spawn_at tk) svc with
  | (Err e, svc) => (Some (Err e), svc)
  | (Ok _, svc) =>
      match settle show_exit (t_settle tk) svc with
      | (Err e, svc) => (Some (Err e), svc)
      | (Ok _, svc) =>
          match health_result (wait_for_health (def svc) (t_health_from tk) (t_probes tk)) with
          | Some h => let '(r, svc) := finish_start h (t_diag tk) svc in (Some r, svc)
          | None => (None, svc)
          end
      end
  end.

Definition restart_service (tk : Tick) (svc : ServiceState) : run (result string unit * ServiceState) :=
  match begin_restart svc with
  | (None, svc) => Panicked svc
  | (Some NoRestart, svc) => Done (Ok tt, svc)
  | (Some (RestartError e), svc) => Done (Err e, svc)
  | (Some (BackOff _), svc) =>
      match start_service tk svc with
      | (Some r, svc) => Done (r, svc)
      | (None, svc) => Hung svc
      end
  end.

(** The body of the loop of [reconcile_once]; an error is logged. *)
Definition reconcile_one (tk : Tick) (svc : ServiceState) : run ServiceState :=
  if bool_decide (status svc = Halted) then Done svc else
  let '(alive, svc) := check_service show_exit (t_wait tk) (t_now tk) svc in
  if negb alive && is_failed (status svc) then
    match restart_service tk svc with
    | Done (_, svc) => Done svc
    | Hung svc => Hung svc
    | Panicked svc => Panicked svc
    end
  else Done svc.

(** [reconcile_once] over the services left; one that hangs or panics keeps
    the rest as they are. *)
Fixpoint reconcile_once (ticks : list Tick) (services : list ServiceState) : option (run unit) * list ServiceState :=
  match services, ticks with
  | [], _ => (Some (Done tt), [])
  | _ :: _, [] => (None, services)
  | svc :: services, tk :: ticks =>
      match reconcile_one tk svc with
      | Done svc => let '(r, rest) := reconcile_once ticks services in (r, svc :: rest)
      | Hung svc' => (Some (Hung svc'), svc' :: services)
      | Panicked svc' => (Some (Panicked svc'), svc' :: services)
      end
  end.

(** ** The loop as a step relation *)

(** Where the supervisor's task stands: at the [select!] of the loop, before
    the check of a service, in one of the three waits of a restart, out of
    the loop, after [stop_all], or dead by a panic. *)
Inductive Phase :=
| Idle
| Checking (i : nat)
| BackingOff (i : nat)
| Settling (i : nat)
| Probing (i : nat)
| Leaving
| Down
| Dead.

Record Loop := { services : list ServiceState; phase : Phase }.
Definition at_phase (l : list ServiceState) (p : Phase) : Loop := {| services := l; phase := p |}.

(** The phases a shutdown signal is awaited in. *)
Definition awaits (p : Phase) : bool :=
  match p with Idle | BackingOff _ | Settling _ | Probing _ => true | _ => false end.

Inductive step : Loop -> Loop -> Prop :=
| step_tick l : step (at_phase l Idle) (at_phase l (Checking 0))
| step_end l i : (length l <= i)%nat -> step (at_phase l (Checking i)) (at_phase l Idle)
| step_skip l i svc : l !! i = Some svc -> status svc = Halted ->
    step (at_phase l (Checking i)) (at_phase l (Checking (S i)))
| step_alive l i svc o now svc' alive : l !! i = Some svc -> status svc <> Halted ->
    check_service show_exit o now svc = (alive, svc') -> negb alive && is_failed (status svc') = false ->
    step (at_phase l (Checking i)) (at_phase (<[i := svc']> l) (Checking (S i)))
| step_failed l i svc o now svc' alive d svc'' : l !! i = Some svc -> status svc <> Halted ->
    check_service show_exit o now svc = (alive, svc') -> negb alive && is_failed (status svc') = true ->
    begin_restart svc' = (Some (BackOff d), svc'') ->
    step (at_phase l (Checking i)) (at_phase (<[i := svc'']> l) (BackingOff i))
| step_exhausted l i svc o now svc' alive r svc'' : l !! i = Some svc -> status svc <> Halted ->
    check_service show_exit o now svc = (alive, svc') -> negb alive && is_failed (status svc') = true ->
    begin_restart svc' = (Some r, svc'') -> (forall d, r <> BackOff d) ->
    step (at_phase l (Checking i)) (at_phase (<[i := svc'']> l) (Checking (S i)))
| step_panic l i svc o now svc' alive svc'' : l !! i = Some svc -> status svc <> Halted ->
    check_service show_exit o now svc = (alive, svc') -> negb alive && is_failed (status svc') = true ->
    begin_restart svc' = (None, svc'') ->
    step (at_phase l (Checking i)) (at_phase (<[i := svc'']> l) Dead)
| step_spawn l i svc spawned now r svc' : l !! i = Some svc ->
    spawn_service spawned now svc = (r, svc') ->
    step (at_phase l (BackingOff i)) (at_phase (<[i := svc']> l) (if is_ok r then Settling i else Checking (S i)))
| step_settle l i svc o r svc' : l !! i = Some svc -> settle show_exit o svc = (r, svc') ->
    step (at_phase l (Settling i)) (at_phase (<[i := svc']> l) (if is_ok r then Probing i else Checking (S i)))
| step_probed l i svc from probes h o svc' : l !! i = Some svc ->
    health_result (wait_for_health (def svc) from probes) = Some h -> (finish_start h o svc).2 = svc' ->
    step (at_phase l (Probing i)) (at_phase (<[i := svc']> l) (Checking (S i)))
| step_shutdown l p : awaits p = true -> step (at_phase l p) (at_phase l Leaving)
| step_stop l : step (at_phase l Leaving) (at_phase (stop_all l) Down).

(** ** The invariant *)

(** The count within the budget, a process exactly while the status says so,
    and a halt only once the budget is used up. *)
Definition svc_ok (svc : ServiceState) : Prop :=
  0 <= restart_count svc <= max_restarts (restart_policy (def svc)) /\
  match status svc with
  | Running | Starting => is_Some (child svc)
  | Stopped | Failed _ => child svc = None
  | Halted => child svc = None /\ restart_count svc = max_restarts (restart_policy (def svc))
  end.
Definition phase_ok (s : Loop) : Prop :=
  match phase s with
  | BackingOff i => exists svc, services s !! i = Some svc /\ is_failed (status svc) = true
  | Settling i | Probing i => exists svc, services s !! i = Some svc /\ status svc = Starting
  | Down => Forall (fun svc => status svc = Stopped /\ child svc = None) (services s)
  | _ => True
  end.
Definition loop_ok (s : Loop) : Prop := Forall svc_ok (services s) /\ phase_ok s.

(** ** Each segment keeps the invariant *)

#[local] Arguments svc_ok !svc /.
Ltac svc_cases := unfold svc_ok in *; simpl in *; repeat case_match; simplify_eq/=; try done; try naive_solver lia.

Lemma registered_ok d : 0 <= max_restarts (restart_policy d) -> svc_ok (registered d).
Proof. by unfold svc_ok; simpl. Qed.
Lemma checked_ok o now svc : svc_ok svc -> svc_ok (check_service show_exit o now svc).2.
Proof.
  intros Hs. unfold check_service. destruct (child svc) as [c|] eqn:Hc; [|done].
  destruct (try_wait c o) as [[s| |e] c'] eqn:Hw; simpl; [| |done].
  - unfold svc_ok in *. simpl. tauto.
  - assert (Hs' : svc_ok (set_child (Some c') svc)).
    { unfold svc_ok in *. simpl. destruct (status svc); rewrite ?Hc in Hs; naive_solver. }
    destruct (started_at svc); [|done]. case_match; [|done].
    unfold svc_ok in *. simpl in *. destruct (status svc); naive_solver lia.
Qed.
Lemma begun_ok svc : svc_ok svc -> child svc = None -> svc_ok (begin_restart svc).2.
Proof.
  intros Hs Hc. unfold begin_restart. case_bool_decide; [done|].
  destruct (Z.leb_spec (max_restarts (restart_policy (def svc))) (restart_count svc)).
  - unfold svc_ok in *. simpl. split; [lia|]. split; [done|lia].
  - destruct (backoff_for _ _); [|done]. unfold svc_ok in *. simpl in *. destruct (status svc); naive_solver lia.
Qed.

Lemma begin_failed svc r svc' : is_failed (status svc) = true -> begin_restart svc = (r, svc') ->
  match r with Some (BackOff _) => is_failed (status svc') = true | Some NoRestart => False | _ => True end.
Proof.
  intros Hf. unfold begin_restart. case_bool_decide as Hh; [by rewrite Hh in Hf|].
  case_match; [by intros [= <- <-]|]. destruct (backoff_for _ _); by intros [= <- <-].
Qed.
Lemma spawn_ok spawned now svc : svc_ok svc -> child svc = None ->
  let '(r, svc') := spawn_service spawned now svc in svc_ok svc' /\ (is_ok r = true -> status svc' = Starting).
Proof. intros [Hr _] Hc. unfold spawn_service. destruct spawned; simpl; (split; [|done]); split; done. Qed.
Lemma settle_ok o svc : svc_ok svc -> status svc = Starting ->
  let '(r, svc') := settle show_exit o svc in svc_ok svc' /\ (is_ok r = true -> status svc' = Starting).
Proof.
  intros [Hr Hs] Hst. rewrite Hst in Hs. destruct Hs as [c Hc]. unfold settle. rewrite Hc.
  destruct (try_wait c o) as [[s| |e] c']; simpl; (split; [|done]); split; simpl; try done; by rewrite Hst.
Qed.
Lemma finish_ok h o svc : svc_ok svc -> status svc = Starting -> svc_ok (finish_start h o svc).2.
Proof.
  intros Hs Hst. unfold svc_ok in *. rewrite Hst in Hs. destruct Hs as [Hr [c Hc]]. destruct h; simpl; rewrite Hc; simpl; [done|].
  by rewrite Hst.
Qed.
Lemma stop_ok svc : svc_ok svc -> svc_ok (stop_service svc).
Proof. by intros [Hr _]. Qed.

Lemma failed_childless svc : svc_ok svc -> is_failed (status svc) = true -> child svc = None.
Proof. intros [_ Hs]. by destruct (status svc). Qed.

Lemma check_keeps o now svc alive svc' : svc_ok svc -> check_service show_exit o now svc = (alive, svc') -> svc_ok svc'.
Proof. intros Hs Hc. pose proof (checked_ok o now svc Hs) as H. by rewrite Hc in H. Qed.
(** A service checked, found failed, and about to be restarted. *)
Lemma restart_keeps o now svc alive svc' r svc'' : svc_ok svc -> check_service show_exit o now svc = (alive, svc') ->
  negb alive && is_failed (status svc') = true -> begin_restart svc' = (r, svc'') ->
  svc_ok svc'' /\ is_failed (status svc') = true.
Proof.
  intros Hs Hc [_ Hf]%andb_true_iff Hb. apply check_keeps in Hc; [|done]. split; [|done].
  pose proof (begun_ok svc' Hc (failed_childless _ Hc Hf)) as H. by rewrite Hb in H.
Qed.

Lemma updated_ok l i svc : Forall svc_ok l -> svc_ok svc -> Forall svc_ok (<[i := svc]> l).
Proof. intros Hl Hs. by apply Forall_insert. Qed.
Lemma updated_at {A} (l : list A) i x y : l !! i = Some x -> <[i := y]> l !! i = Some y.
Proof. intros H. apply list_lookup_insert_eq. by eapply lookup_lt_Some. Qed.

Lemma step_keeps s s' : step s s' -> loop_ok s -> loop_ok s'.
Proof.
  intros Hs [Hl Hp].
  destruct Hs as [l|l i Hi|l i svc Hi Hh|l i svc o now svc' alive Hi Hh Hc Hn|l i svc o now svc' alive d svc'' Hi Hh Hc Hn Hb
    |l i svc o now svc' alive r svc'' Hi Hh Hc Hn Hb Hr|l i svc o now svc' alive svc'' Hi Hh Hc Hn Hb
    |l i svc spawned now r svc' Hi Hc|l i svc o r svc' Hi Hc|l i svc from probes h o svc' Hi Hh Hc|l p Hp'|l];
    unfold loop_ok, phase_ok in *; simpl in *; try pose proof (Forall_lookup_1 _ _ _ _ Hl Hi) as Hsvc; try done.
  - split; [|done]. apply updated_ok; [done|]. by eapply check_keeps.
  - destruct (restart_keeps _ _ _ _ _ _ _ Hsvc Hc Hn Hb) as [Hk Hf]. split; [by apply updated_ok|].
    exists svc''. by rewrite (updated_at _ _ _ _ Hi), (begin_failed _ _ _ Hf Hb).
  - destruct (restart_keeps _ _ _ _ _ _ _ Hsvc Hc Hn Hb). split; [by apply updated_ok|done].
  - destruct (restart_keeps _ _ _ _ _ _ _ Hsvc Hc Hn Hb). split; [by apply updated_ok|done].
  - destruct Hp as (svc0 & E & Hf). assert (svc0 = svc) as -> by congruence. pose proof (spawn_ok spawned now svc Hsvc (failed_childless _ Hsvc Hf)) as Hk.
    rewrite Hc in Hk. destruct Hk as [Hk Hst]. split; [by apply updated_ok|].
    destruct (is_ok r); [|done]. exists svc'. by rewrite (updated_at _ _ _ _ Hi), (Hst eq_refl).
  - destruct Hp as (svc0 & E & Hf). assert (svc0 = svc) as -> by congruence. pose proof (settle_ok o svc Hsvc Hf) as Hk.
    rewrite Hc in Hk. destruct Hk as [Hk Hst]. split; [by apply updated_ok|].
    destruct (is_ok r); [|done]. exists svc'. by rewrite (updated_at _ _ _ _ Hi), (Hst eq_refl).
  - destruct Hp as (svc0 & E & Hf). assert (svc0 = svc) as -> by congruence. split; [|done]. apply updated_ok; [done|]. rewrite <-Hc. by apply finish_ok.
  - split; [|by apply Forall_fmap, Forall_true]. apply Forall_fmap. eapply Forall_impl; [exact Hl|]. apply stop_ok.
Qed.

Definition reachable (l : list ServiceState) (s : Loop) : Prop := rtc step (at_phase l Idle) s.
Lemma steps_keep s s' : rtc step s s' -> loop_ok s -> loop_ok s'.
Proof. induction 1; eauto using step_keeps. Qed.
Lemma reachable_ok l s : Forall svc_ok l -> reachable l s -> loop_ok s.
Proof. intros Hl Hr. by apply (steps_keep _ _ Hr). Qed.

(** A halted service stays as it is until the machine stops. *)
Definition settled (i : nat) (svc : ServiceState) (s : Loop) : Prop :=
  match phase s with
  | Down => True
  | BackingOff j | Settling j | Probing j => j <> i /\ services s !! i = Some svc
  | _ => services s !! i = Some svc
  end.
Lemma halted_kept i svc s s' : status svc = Halted -> step s s' -> loop_ok s -> settled i svc s -> settled i svc s'.
Proof.
  intros Hh Hs [_ Hp] Hset. unfold phase_ok in Hp.
  destruct Hs; unfold settled in *; simpl in *; try done.
  all: try (assert (i0 <> i) by (intros ->; congruence)).
  all: try (by rewrite list_lookup_insert_ne).
  - destruct Hset. rewrite list_lookup_insert_ne by done. by destruct (is_ok r).
  - destruct Hset. rewrite list_lookup_insert_ne by done. by destruct (is_ok r).
  - destruct Hset. by rewrite list_lookup_insert_ne.
  - destruct p; naive_solver.
Qed.

(** ** A pass is a run of the loop *)

Lemma start_steps l i svc tk r svc' : l !! i = Some svc -> start_service tk svc = (Some r, svc') ->
  rtc step (at_phase l (BackingOff i)) (at_phase (<[i := svc']> l) (Checking (S i))).
Proof.
  unfold start_service. intros Hi. destruct (spawn_service (t_spawn tk) (t_spawn_at tk) svc) as [r1 s1] eqn:H1.
  pose proof (step_spawn _ _ _ _ _ _ _ Hi H1) as S1. destruct r1 as [[]|e]; simpl in S1; [|intros [= <- <-]; by apply rtc_once].
  destruct (settle show_exit (t_settle tk) s1) as [r2 s2] eqn:H2.
  pose proof (step_settle _ _ _ _ _ _ (updated_at _ _ _ s1 Hi) H2) as S2. rewrite list_insert_insert_eq in S2.
  destruct r2 as [[]|e]; simpl in S2; [|intros [= <- <-]; by do 2 (eapply rtc_l; [done|])].
  destruct (health_result _) as [h|] eqn:H3; [|done].
  pose proof (step_probed _ _ _ _ _ h (t_diag tk) _ (updated_at _ _ _ s2 Hi) H3 eq_refl) as S3.
  rewrite list_insert_insert_eq in S3. destruct (finish_start h (t_diag tk) s2) as [r3 s3]. intros [= -> ->]. simpl in S3. do 3 (eapply rtc_l; [done|]). done.
Qed.

Lemma one_steps l i svc tk svc' : l !! i = Some svc -> reconcile_one tk svc = Done svc' ->
  rtc step (at_phase l (Checking i)) (at_phase (<[i := svc']> l) (Checking (S i))).
Proof.
  intros Hi. unfold reconcile_one. case_bool_decide as Hh.
  { intros [= <-]. rewrite list_insert_id by done. by eapply rtc_once, step_skip. }
  destruct (check_service _ _ _ svc) as [alive s1] eqn:Hc. destruct (negb alive && is_failed (status s1)) eqn:Hf.
  - unfold restart_service. destruct (begin_restart s1) as [[r|] s2] eqn:Hb; [|done]. destruct r as [|e|d].
    1,2: intros [= <-]; by eapply rtc_once, step_exhausted.
    destruct (start_service tk s2) as [[r|] s3] eqn:Hs; [|done]. intros [= <-].
    eapply rtc_l; [by eapply step_failed|]. rewrite <-(list_insert_insert_eq l i s3 s2). eapply start_steps; [by eapply updated_at|done].
  - intros [= <-]. by eapply rtc_once, step_alive.
Qed.

Lemma once_steps pre ticks l l' : reconcile_once ticks l = (Some (Done tt), l') ->
  rtc step (at_phase (pre ++ l) (Checking (length pre))) (at_phase (pre ++ l') Idle).
Proof.
  revert pre ticks l'. induction l as [|svc l IH]; intros pre ticks l'.
  - destruct ticks; intros [= <-]; apply rtc_once, step_end; rewrite app_nil_r; lia.
  - destruct ticks as [|tk ticks]; [done|]. simpl. destruct (reconcile_one tk svc) as [s1| |] eqn:H1; [|done..].
    destruct (reconcile_once ticks l) as [r rest] eqn:Hr. intros [= -> <-].
    etrans; [eapply (one_steps _ _ svc); [by rewrite lookup_app_r, Nat.sub_diag by lia|exact H1]|].
    rewrite insert_app_r_alt, Nat.sub_diag by lia. simpl.
    specialize (IH (pre ++ [s1]) ticks rest Hr). rewrite length_app, Nat.add_comm, <-!app_assoc in IH. exact IH.
Qed.

(** ** The restart budget as a burst limit *)

(** What a pass finds of a service: dead, up for the stability window, or
    neither. *)
Inductive Event := Failure | Stable | Quiet.
Definition event (tk : Tick) (svc : ServiceState) : Event :=
  match child svc with
  | None => if is_failed (status svc) then Failure else Quiet
  | Some c =>
      match (try_wait c (t_wait tk)).1, started_at svc with
      | Exited _, _ => Failure
      | StillRunning, Some t => if stable_after (restart_policy (def svc)) <=? t_now tk - t then Stable else Quiet
      | _, _ => Quiet
      end
  end.

(** The failures since the last stable run, and the most there ever were. *)
Definition burst_step (b : Z * Z) (e : Event) : Z * Z :=
  match e with
  | Failure => (b.1 + 1, Z.max b.2 (b.1 + 1))
  | Stable => (0, b.2)
  | Quiet => b
  end.
Definition bursts (b : Z * Z) (events : list Event) : Z * Z := foldl burst_step b events.

(** Passes over one service, with what they found. *)
Fixpoint history (ticks : list Tick) (svc : ServiceState) : option (list Event * ServiceState) :=
  match ticks with
  | [] => Some ([], svc)
  | tk :: ticks =>
      match reconcile_one tk svc with
      | Done svc' => '(events, last) ← history ticks svc'; Some (event tk svc :: events, last)
      | _ => None
      end
  end.

(** Nothing in the pass waits for ever, and no backoff overflows. *)
Definition answers (d : ServiceDef) (tk : Tick) : Prop :=
  is_Some (health_result (wait_for_health d (t_health_from tk) (t_probes tk))).
Definition no_overflow (d : ServiceDef) : Prop := backoff_base (restart_policy d) * (2 ^ 32 - 1) <= DURATION_MAX.

Lemma backoff_defined d n : 0 <= backoff_base (restart_policy d) -> no_overflow d ->
  is_Some (backoff_for (restart_policy d) n).
Proof.
  unfold no_overflow, backoff_for, duration_mul, saturating_pow2. intros H0 Hd.
  assert (backoff_base (restart_policy d) * Z.min (2 ^ n) (2 ^ 32 - 1) <= DURATION_MAX) as H by nia.
  apply Z.leb_le in H. rewrite H. by eexists.
Qed.

Lemma start_result tk svc : answers (def svc) tk -> exists r svc', start_service tk svc = (Some r, svc') /\
  def svc' = def svc /\ restart_count svc' = restart_count svc /\ status svc' <> Halted.
Proof.
  intros [h Hh]. unfold start_service, spawn_service. destruct (t_spawn tk) as [p|e]; [|by do 2 eexists].
  unfold settle. simpl. destruct (t_settle tk); simpl; [by do 2 eexists| |]; rewrite Hh; destruct h; by do 2 eexists.
Qed.

Lemma check_result tk svc alive svc' : svc_ok svc -> status svc <> Halted ->
  check_service show_exit (t_wait tk) (t_now tk) svc = (alive, svc') ->
  def svc' = def svc /\ status svc' <> Halted /\ negb alive && is_failed (status svc') = (if event tk svc is Failure then true else false) /\
  restart_count svc' = (if event tk svc is Stable then 0 else restart_count svc).
Proof.
  intros [Hr Hs] Hh. unfold check_service, event. destruct (child svc) as [c|].
  - assert (Hf : is_failed (status svc) = false) by (destruct (status svc); [done..| |]; naive_solver).
    destruct (try_wait c (t_wait tk)) as [[s| |e] c']; simpl.
    + by intros [= <- <-].
    + intros [= <- <-]. destruct (started_at svc) as [t|]; [|done]. unfold restart_budget_reset_due.
      destruct (stable_after _ <=? _); rewrite ?andb_true_r, ?andb_false_r; [|done].
      destruct (Z.ltb_spec 0 (restart_count svc)); simpl; [done|]. split_and!; [done..|lia].
    + intros [= <- <-]. by rewrite Hf.
  - intros [= <- <-]. by destruct (is_failed (status svc)).
Qed.

Lemma begin_result svc : status svc <> Halted -> 0 <= backoff_base (restart_policy (def svc)) -> no_overflow (def svc) ->
  if max_restarts (restart_policy (def svc)) <=? restart_count svc
  then exists e, begin_restart svc = (Some (RestartError e), set_status Halted svc)
  else exists d, begin_restart svc = (Some (BackOff d), set_count (restart_count svc + 1) svc).
Proof.
  intros Hh H0 Hd. unfold begin_restart. rewrite bool_decide_eq_false_2 by done.
  case_match; [by eexists|]. destruct (backoff_defined (def svc) (restart_count svc) H0 Hd) as [d ->]. by eexists.
Qed.

Lemma one_event tk svc : svc_ok svc -> status svc <> Halted -> 0 <= backoff_base (restart_policy (def svc)) ->
  no_overflow (def svc) -> answers (def svc) tk ->
  exists svc', reconcile_one tk svc = Done svc' /\ def svc' = def svc /\
    match event tk svc with
    | Failure => if max_restarts (restart_policy (def svc)) <=? restart_count svc then status svc' = Halted
                 else status svc' <> Halted /\ restart_count svc' = restart_count svc + 1
    | Stable => status svc' <> Halted /\ restart_count svc' = 0
    | Quiet => status svc' <> Halted /\ restart_count svc' = restart_count svc
    end.
Proof.
  intros Hs Hh H0 Hd Ha. unfold reconcile_one. rewrite bool_decide_eq_false_2 by done.
  destruct (check_service _ _ _ svc) as [alive s1] eqn:Hc.
  destruct (check_result tk svc alive s1 Hs Hh Hc) as (Ed & Hh1 & Hf & Hn). rewrite Hf.
  destruct (event tk svc); [|by exists s1..].
  unfold restart_service. pose proof (begin_result s1 Hh1) as Hb. rewrite Ed, Hn in Hb. specialize (Hb H0 Hd).
  case_match.
  - destruct Hb as [e ->]. by eexists.
  - destruct Hb as [d ->]. destruct (start_result tk (set_count (restart_count svc + 1) s1)) as (r & s2 & -> & E1 & E2 & E3).
    { simpl. by rewrite Ed. }
    exists s2. simpl in *. split_and!; congruence.
Qed.

Lemma one_keeps tk svc svc' : reconcile_one tk svc = Done svc' -> svc_ok svc -> svc_ok svc'.
Proof.
  intros H Hs. pose proof (one_steps [svc] 0 svc tk svc' eq_refl H) as Hr. simpl in Hr.
  assert (Hl : loop_ok (at_phase [svc] (Checking 0))) by (split; [by apply Forall_singleton|done]).
  destruct (steps_keep _ _ Hr Hl) as [Hl' _]. by apply (Forall_singleton svc_ok svc').
Qed.

(** The budget of a service against the bursts [b] so far. *)
Definition matches (svc : ServiceState) (b : Z * Z) : Prop :=
  (status svc = Halted <-> max_restarts (restart_policy (def svc)) < b.2) /\
  (status svc <> Halted -> restart_count svc = b.1).
Definition restartable (d : ServiceDef) : Prop := 0 <= backoff_base (restart_policy d) /\ no_overflow d.

Lemma one_matches tk svc b : svc_ok svc -> restartable (def svc) -> answers (def svc) tk -> matches svc b ->
  exists svc', reconcile_one tk svc = Done svc' /\ def svc' = def svc /\ matches svc' (burst_step b (event tk svc)).
Proof.
  intros Hs [H0 Hd] Ha [Hb Hc]. destruct (decide (status svc = Halted)) as [Hh|Hh].
  - exists svc. unfold reconcile_one. rewrite bool_decide_eq_true_2 by done. split_and!; [done..|].
    destruct Hs as [_ Hs]. rewrite Hh in Hs. unfold event. destruct Hs as [-> _]. by rewrite Hh.
  - destruct (one_event tk svc Hs Hh H0 Hd Ha) as (svc' & Hr & Ed & He). exists svc'. split_and!; [done..|].
    specialize (Hc Hh). destruct Hs as [Hr' _]. unfold matches. rewrite Ed.
    assert (Hw : ~ max_restarts (restart_policy (def svc)) < b.2) by tauto.
    destruct (event tk svc); simpl; [|destruct He; split; [tauto|lia]..].
    destruct (Z.leb_spec (max_restarts (restart_policy (def svc))) (restart_count svc)); [|destruct He];
      (split; [split; [lia || done|]|]); try done; try lia.
Qed.

Lemma history_matches ticks svc b : svc_ok svc -> restartable (def svc) -> Forall (answers (def svc)) ticks ->
  matches svc b -> exists events last, history ticks svc = Some (events, last) /\ def last = def svc /\
    matches last (bursts b events).
Proof.
  revert svc b. induction ticks as [|tk ticks IH]; intros svc b Hs Hd Ha Hm; [by exists [], svc|].
  apply Forall_cons in Ha as [Hk Ha]. destruct (one_matches tk svc b Hs Hd) as (s1 & H1 & Ed & Hm1); [done..|]. simpl. rewrite H1.
  rewrite <-Ed in Hd. destruct (IH s1 (burst_step b (event tk svc)) (one_keeps _ _ _ H1 Hs) Hd) as (events & last & -> & E & Hl).
  - by rewrite Ed.
  - done.
  - exists (event tk svc :: events), last. split_and!; [done|congruence|done].
Qed.

End reconcile.
Arguments Done {A}. Arguments Hung {A}. Arguments Panicked {A}.

(** ** The properties *)

(** C31: In any state of the loop, a shutdown signal possible at every wait,
    no service exceeds its budget, a service has a process exactly while its
    status says it runs or starts (so a restart never makes a second one), a
    service halts only with its budget used up and then stays as it is, and
    after the shutdown every service is stopped and has no process. *)
Theorem supervisor_invariant show_exit l s : Forall svc_ok l -> reachable show_exit l s ->
  Forall (fun svc => 0 <= restart_count svc <= max_restarts (restart_policy (def svc)) /\
    (is_Some (child svc) <-> status svc = Running \/ status svc = Starting)) (services s) /\
  (forall i, phase s = BackingOff i -> exists svc, services s !! i = Some svc /\ child svc = None) /\
  (forall i svc s', services s !! i = Some svc -> status svc = Halted -> rtc (step show_exit) s s' ->
     restart_count svc = max_restarts (restart_policy (def svc)) /\
     (phase s' = Down \/ services s' !! i = Some svc)) /\
  (phase s = Down -> Forall (fun svc => status svc = Stopped /\ child svc = None) (services s)).
Proof.
  intros Hl Hr. pose proof (reachable_ok _ _ _ Hl Hr) as [Hs Hp]. unfold phase_ok in Hp. split_and!.
  - eapply Forall_impl; [exact Hs|]. intros svc [Hc Hst]. split; [done|].
    destruct (status svc); [..|destruct Hst as [Hst _]]; rewrite ?Hst in *; (split; [|by intros [|]]); try (by left); try (by right); by intros [? [=]].
  - intros i E. rewrite E in Hp. destruct Hp as (svc & Hi & Hf). exists svc. split; [done|].
    apply failed_childless; [by eapply Forall_lookup_1|done].
  - intros i svc s' Hi Hh Hss. pose proof (Forall_lookup_1 _ _ _ _ Hs Hi) as [Hc Hst]. rewrite Hh in Hst.
    split; [by destruct Hst|].
    assert (Hset : settled i svc s).
    { unfold settled. clear Hr. destruct (phase s) as [| |j|j|j| | |]; try done; (split; [|done]); intros ->;
        destruct Hp as (svc' & E & H'); assert (svc' = svc) as -> by congruence; by rewrite Hh in H'. }
    assert (Hset' : settled i svc s').
    { clear Hi Hp. assert (Hok : loop_ok s) by (exact (reachable_ok _ _ _ Hl Hr)). clear Hr Hs. induction Hss; [done|].
      apply IHHss; eauto using halted_kept, step_keeps. }
    unfold settled in Hset'. destruct (phase s'); naive_solver.
  - intros E. by rewrite E in Hp.
Qed.

(** C32: The restart budget is a limit on bursts: whatever the passes find,
    as long as each health check ends, every pass returns, and a service is
    halted exactly when at some point the failures since its last stable run
    exceeded the maximum; until then its count is that number of failures. *)
Theorem restart_budget_is_a_burst_limit show_exit ticks svc :
  svc_ok svc -> status svc <> Halted -> restart_count svc = 0 -> restartable (def svc) ->
  Forall (answers (def svc)) ticks ->
  exists events last, history show_exit ticks svc = Some (events, last) /\
    (status last = Halted <-> max_restarts (restart_policy (def svc)) < (bursts (0, 0) events).2) /\
    (status last <> Halted -> restart_count last = (bursts (0, 0) events).1).
Proof.
  intros Hs Hh Hc Hd Ha. destruct (history_matches show_exit ticks svc (0, 0) Hs Hd Ha) as (events & last & Hr & E & Hm).
  - split; [|done]. destruct Hs. simpl. split; [done|lia].
  - exists events, last. rewrite <-E. by destruct Hm.
Qed.

(** A service whose health check timed out in a restart is only watched for
    its exit: found alive, it stays as started, and may even earn its budget
    back. *)
Lemma unhealthy_restart_is_left show_exit tk svc c : status svc = Starting -> child svc = Some c -> collected c = None ->
  t_wait tk = StillRunning -> exists svc', reconcile_one show_exit tk svc = Done svc' /\ status svc' = Starting /\ child svc' = Some c.
Proof.
  intros Hs Hc Hn Hw. unfold reconcile_one. rewrite bool_decide_eq_false_2 by congruence.
  unfold check_service, try_wait. rewrite Hc, Hn, Hw.
  eexists. split; [reflexivity|]. simpl. destruct (started_at svc); [destruct (restart_budget_reset_due _ _ _)|]; by split.
Qed.

(** ** A service on the default policy *)

Definition probe_def : ServiceDef :=
  {| name := "probe"; binary := "/usr/bin/probe"; args := []; env := []; health_check := Grpc 50001 (from_secs 15);
     restart_policy := default_policy |}.
Definition running_probe : ServiceState :=
  {| def := probe_def; child := Some {| pid_of := 100; collected := None |}; pid := Some 100; started_at := Some 0;
     restart_count := 0; status := Running |}.
(** A pass that finds the process dead and starts it again, its port open at
    the second look; and one that finds it up after a minute. *)
Definition refused : Probe := {| at_ := 0; connected := false; written := false; got := ReadError |}.
Definition accepted : Probe := {| at_ := from_millis 500; connected := true; written := true; got := ReadError |}.
Definition crash : Tick :=
  {| t_now := 0; t_wait := Exited (ExitCode 1); t_spawn := Ok 101; t_spawn_at := 0; t_settle := StillRunning;
     t_health_from := 0; t_probes := [refused; accepted]; t_diag := StillRunning |}.
Definition minute_up : Tick :=
  {| t_now := from_secs 60; t_wait := StillRunning; t_spawn := Ok 101; t_spawn_at := 0; t_settle := StillRunning;
     t_health_from := 0; t_probes := [accepted]; t_diag := StillRunning |}.
Definition no_text (s : ExitStatus) : string := EmptyString.

Lemma supervisor_invariant_witness :
  exists s, reachable no_text [running_probe] s /\ phase s = BackingOff 0 /\
    exists svc, services s !! 0%nat = Some svc /\ child svc = None /\ restart_count svc = 1.
Proof.
  assert (Hl : Forall svc_ok [running_probe]).
  { apply Forall_singleton. vm_compute. split; [by split|by eexists]. }
  set (svc := set_count 1 (set_child None (set_status (Failed "Exited: ") running_probe))).
  assert (Hr : reachable no_text [running_probe] (at_phase [svc] (BackingOff 0))).
  { eapply rtc_l; [apply step_tick|]. eapply rtc_once.
    eapply (step_failed no_text [running_probe] 0 running_probe (Exited (ExitCode 1)) 0 (set_child None (set_status (Failed "Exited: ") running_probe)) false (from_secs 1) svc); done. }
  exists (at_phase [svc] (BackingOff 0)). split; [exact Hr|]. split; [done|].
  destruct (proj1 (proj2 (supervisor_invariant no_text _ _ Hl Hr)) 0%nat eq_refl) as (svc' & E & Hc).
  exists svc'. split; [exact E|]. split; [exact Hc|]. simpl in E. by injection E as <-.
Defined.

Lemma restart_budget_is_a_burst_limit_witness :
  (exists last, history no_text (replicate 11 crash) running_probe = Some (replicate 11 Failure, last) /\ status last = Halted) /\
  (exists last, history no_text (replicate 10 crash) running_probe = Some (replicate 10 Failure, last) /\ restart_count last = 10) /\
  (exists last, history no_text (replicate 9 crash ++ [minute_up] ++ replicate 9 crash) running_probe =
     Some (replicate 9 Failure ++ [Stable] ++ replicate 9 Failure, last) /\ restart_count last = 9).
Proof.
  assert (T : forall ticks, Forall (answers probe_def) ticks ->
    exists events last, history no_text ticks running_probe = Some (events, last) /\
      (status last = Halted <-> 10 < (bursts (0, 0) events).2) /\ (status last <> Halted -> restart_count last = (bursts (0, 0) events).1)).
  { intros ticks Ha. apply (restart_budget_is_a_burst_limit no_text ticks running_probe); try done.
    vm_compute. split; [by split|by eexists]. }
  assert (A1 : answers probe_def crash) by (by eexists).
  assert (E : forall ticks events, fst <$> history no_text ticks running_probe = Some events -> Forall (answers probe_def) ticks ->
    exists last, history no_text ticks running_probe = Some (events, last) /\
      (status last = Halted <-> 10 < (bursts (0, 0) events).2) /\ (status last <> Halted -> restart_count last = (bursts (0, 0) events).1)).
  { intros ticks events Hf Ha. destruct (T ticks Ha) as (events' & last & H & Hm). rewrite H in Hf. injection Hf as ->. by exists last. }
  split_and!.
  - destruct (E (replicate 11 crash) (replicate 11 Failure)) as (last & H & Hh & _);
      [by vm_compute|by apply Forall_replicate|]. exists last. split; [done|]. by apply Hh.
  - destruct (E (replicate 10 crash) (replicate 10 Failure)) as (last & H & Hh & Hc);
      [by vm_compute|by apply Forall_replicate|]. exists last. split; [done|]. apply Hc. intros Hl. apply Hh in Hl. by vm_compute in Hl.
  - destruct (E (replicate 9 crash ++ [minute_up] ++ replicate 9 crash) (replicate 9 Failure ++ [Stable] ++ replicate 9 Failure)) as (last & H & Hh & Hc);
      [by vm_compute| |].
    { apply Forall_app_2; [by apply Forall_replicate|]. apply Forall_cons. split; [by eexists|]. by apply Forall_replicate. }
    exists last. split; [done|]. apply Hc. intros Hl. apply Hh in Hl. by vm_compute in Hl.
Defined.
