(* ===== verification/Boot.v ===== *)
(** * The boot of the machine ([crates/embrad])

    [register_services] and [start_all] of [supervisor.rs], [run] and the
    halt reasons of [main.rs], the orphan reaper of [reconcile.rs]. What the
    boot reads (the kernel command line, the files on STATE, the environment,
    the random device) is an argument. The property joins the two programs of
    the gate: past embra-trustd nothing starts unless the soul verified. *)

From S2P Require Import Prelude Bytes Text Json Soul Supervisor Reconcile.
From Stdlib Require Import Ascii.

Record Sources := {
  cmdline : string;                  (** [/proc/cmdline], empty when unreadable *)
  file : string -> option string;    (** [read_to_string] *)
  var : string -> option string;     (** [std::env::var] *)
  engine : option string;            (** [EMBRA_STORAGE_ENGINE] at build time *)
  urandom : result string bytes;     (** sixteen bytes, or the error of reading them *)
}.

(** ** The kernel command line *)

Definition terminal_size (src : Sources) : Z * Z :=
  foldl (fun '(cols, rows) param =>
    let cols := match str_strip "embra.cols=" param with Some v => default 80 (parse_u16 v) | None => cols end in
    let rows := match str_strip "embra.rows=" param with Some v => default 24 (parse_u16 v) | None => rows end in
    (cols, rows)) (80, 24) (split_whitespace (cmdline src)).
Definition has_param (src : Sources) (p : string) : bool :=
  existsb (fun q => bool_decide (q = p)) (split_whitespace (cmdline src)).
Definition web_mode_enabled (src : Sources) : bool := has_param src "embra.web=1".
Definition db_verbose_enabled (src : Sources) : bool := has_param src "embra.dbverbose=1".
Definition find_param (src : Sources) (key : string) : option string :=
  match head (omap (str_strip key) (split_whitespace (cmdline src))) with
  | Some s => if bool_decide (s = EmptyString) then None else Some s
  | None => None
  end.
Definition brain_log_spec (src : Sources) : option string := find_param src "embra.loglevel=".
Definition console_graphics_mode (src : Sources) : option string := find_param src "embra.graphics=".

(** [read_to_string(…).or_else(…).unwrap_or_default().trim()] *)
Definition setting (choices : list (option string)) : string := trim (default EmptyString (head (omap id choices))).

Definition boot_token (src : Sources) : result string string :=
  match urandom src with Ok b => Ok (hex_of b) | Err e => Err e end.
Definition console_url (token : string) : string := "https://localhost:3345/embraOS?token=" +:+ token.

(** ** [register_services] *)

Definition wardsondb_def (src : Sources) : ServiceDef :=
  {| name := "wardsondb"; binary := "/usr/bin/wardsondb";
     args := ["--storage-engine"; default "rocksdb" (engine src); "--bind"; "127.0.0.1"; "--port"; "8090";
              "--data-dir"; "/embra/data/wardsondb"; "--log-file"; "/embra/ephemeral/wardsondb.log"]
             ++ (if db_verbose_enabled src then ["--verbose"] else []);
     env := []; health_check := Http "http://127.0.0.1:8090/_health" (from_secs 30); restart_policy := default_policy |}.

Definition trustd_def : ServiceDef :=
  {| name := "embra-trustd"; binary := "/usr/bin/embra-trustd";
     args := ["--bind"; "127.0.0.1"; "--port"; "50001"; "--state-dir"; "/embra/state";
              "--wardsondb-url"; "http://127.0.0.1:8090"];
     env := []; health_check := Grpc 50001 (from_secs 15); restart_policy := default_policy |}.

Definition apid_def : ServiceDef :=
  {| name := "embra-apid"; binary := "/usr/bin/embra-apid";
     args := ["--grpc-port"; "50000"; "--rest-port"; "8443"; "--brain-addr"; "http://127.0.0.1:50002";
              "--trust-addr"; "http://127.0.0.1:50001"];
     env := []; health_check := Grpc 50000 (from_secs 15); restart_policy := default_policy |}.

Definition api_provider (src : Sources) : string := setting [file src "/embra/state/api_provider"; var src "EMBRA_PROVIDER"].
Definition api_key (src : Sources) : string :=
  let provider := api_provider src in
  if bool_decide (provider = "ollama") || bool_decide (provider = "lm_studio") then EmptyString
  else if bool_decide (provider = "gemini")
  then setting [file src "/embra/state/api_key_gemini"; file src "/embra/state/api_key"; var src "GEMINI_API_KEY"]
  else setting [file src "/embra/state/api_key_anthropic"; file src "/embra/state/api_key"; var src "ANTHROPIC_API_KEY"].
Definition github_token (src : Sources) : string := setting [file src "/embra/state/github_token"].

(** An option with its value, unless the value is empty. *)
Definition flag (f value : string) : list string := if bool_decide (value = EmptyString) then [] else [f; value].
Definition env_entry (k value : string) : list (string * string) := if bool_decide (value = EmptyString) then [] else [(k, value)].

Definition brain_def (src : Sources) : ServiceDef :=
  {| name := "embra-brain"; binary := "/usr/bin/embra-brain";
     args := ["--port"; "50002"; "--wardsondb-url"; "http://127.0.0.1:8090"]
             ++ flag "--api-key" (api_key src) ++ flag "--api-provider" (api_provider src)
             ++ flag "--github-token" (github_token src);
     env := env_entry "EMBRA_OLLAMA_BEARER" (setting [file src "/embra/state/bearer_ollama"; var src "EMBRA_OLLAMA_BEARER"])
            ++ env_entry "EMBRA_LM_STUDIO_BEARER"
                 (setting [file src "/embra/state/bearer_lm_studio"; var src "EMBRA_LM_STUDIO_BEARER"])
            ++ match brain_log_spec src with Some spec => [("EMBRA_LOG", spec)] | None => [] end;
     health_check := Grpc 50002 (from_secs 30); restart_policy := default_policy |}.

Definition web_def (token : string) : ServiceDef :=
  {| name := "embra-web"; binary := "/usr/bin/embra-web";
     args := ["--port"; "3345"; "--apid-addr"; "http://127.0.0.1:50000"; "--trust-addr"; "http://127.0.0.1:50001";
              "--console-bin"; "/usr/bin/embra-console"];
     env := [("EMBRA_WEB_TOKEN", token)];
     health_check := Grpc 3345 (from_secs 45); restart_policy := default_policy |}.

Definition console_def (src : Sources) : ServiceDef :=
  let '(cols, rows) := terminal_size src in
  {| name := "embra-console"; binary := "/usr/bin/embra-console";
     args := ["--apid-addr"; "http://127.0.0.1:50000"; "--device"; "/dev/ttyS0"; "--columns"; pretty cols; "--rows"; pretty rows];
     env := match console_graphics_mode src with Some mode => [("EMBRA_TUI_GRAPHICS", mode)] | None => [] end;
     health_check := ProcessAlive; restart_policy := default_policy |}.

Record Machine := {
  web_token : option string;
  boot_stdio : option (Z * Z);
  running : list ServiceState;
}.

(** The operator's front end: the web console behind its token, or the
    serial console; neither when no token could be minted. *)
Definition front_end (src : Sources) : option string * list ServiceDef :=
  if web_mode_enabled src then
    match boot_token src with
    | Err _ => (None, [])
    | Ok token => (Some token, [web_def token])
    end
  else (None, [console_def src]).
Definition register_services (src : Sources) : Machine :=
  let '(token, front) := front_end src in
  {| web_token := token; boot_stdio := None;
     running := registered <$> [wardsondb_def src; trustd_def; apid_def; brain_def src] ++ front |}.

(** ** [start_all] and [run] *)

Inductive boot := Booted | BootFailed (e : string) | BootHalts (reason : string) | BootWaits.

Section boot.
Context (show_exit : ExitStatus -> string) (pid1 : bool) (kept : option (Z * Z)) (g : gate).

(** [kept] is what [keep_boot_stdio] returns, [g] the end of [verify_soul]. *)
Fixpoint start_all (launches : list Tick) (stdio : option (Z * Z)) (todo : list ServiceState)
  : boot * option (Z * Z) * list ServiceState :=
  match todo, launches with
  | [], _ => (Booted, stdio, [])
  | _ :: _, [] => (BootWaits, stdio, todo)
  | svc :: todo, tk :: launches =>
      match start_service show_exit tk svc with
      | (None, svc) => (BootWaits, stdio, svc :: todo)
      | (Some (Err e), svc) => (BootFailed e, stdio, svc :: todo)
      | (Some (Ok _), svc) =>
          let n := name (def svc) in
          let stdio := if (bool_decide (n = "embra-console") || bool_decide (n = "embra-web")) && pid1 then kept else stdio in
          let continue_ := let '(b, stdio, rest) := start_all launches stdio todo in (b, stdio, svc :: rest) in
          if bool_decide (n = "embra-trustd") then
            match g with
            | Go _ => continue_
            | BootError e => (BootFailed e, stdio, svc :: todo)
            | HaltSystem reason => (BootHalts reason, stdio, svc :: todo)
            end
          else continue_
      end
  end.

Definition boot_machine (src : Sources) (launches : list Tick) : boot * Machine :=
  let m := register_services src in
  let '(b, stdio, l) := start_all launches (boot_stdio m) (running m) in
  (b, {| web_token := web_token m; boot_stdio := stdio; running := l |}).
End boot.

(** [fatal_reason] and [panic_reason] *)
Definition fatal_reason (e : string) : string := "boot failed: " +:+ e.
Definition panic_reason (message : option string) (location : option (string * Z)) : string :=
  let message := default "no message" message in
  match location with
  | Some (file, line) => "panic: " +:+ message +:+ " (" +:+ file +:+ ":" +:+ pretty line +:+ ")"
  | None => "panic: " +:+ message
  end.

(** How [main] goes on after the boot: PID 1 halts with the reason of a
    failure and otherwise enters the loop; another process returns the error,
    or exits on a halt. *)
Inductive ending := Reconciles | HaltsWith (reason : string) | Returns (e : string) | NeverEnds.
Definition after_boot (pid1 : bool) (b : boot) : ending :=
  match b with
  | Booted => Reconciles
  | BootFailed e => if pid1 then HaltsWith (fatal_reason e) else Returns e
  | BootHalts reason => HaltsWith reason
  | BootWaits => NeverEnds
  end.

(** ** The orphan reaper *)

(** The exited children of the process in the order the kernel shows them,
    each with whether [waitpid] then collects it. The pids reaped. *)
Fixpoint reap_orphans (supervised : list Z) (exited : list (Z * bool)) : list Z :=
  match exited with
  | [] => []
  | (pid, collected) :: exited =>
      if bool_decide (pid ∈ supervised) then []
      else if collected then pid :: reap_orphans supervised exited else []
  end.

Lemma reaped_are_orphans supervised exited : Forall (fun pid => pid ∉ supervised) (reap_orphans supervised exited).
Proof.
  induction exited as [|[pid []] exited IH]; simpl; [done|..]; case_bool_decide; try done. by constructor.
Qed.

(** ** Facts *)

Lemma start_keeps show_exit tk svc o svc' : svc_ok svc -> child svc = None -> start_service show_exit tk svc = (o, svc') ->
  svc_ok svc' /\ def svc' = def svc /\ (forall u, o = Some (Ok u) -> status svc' = Running).
Proof.
  intros Hs Hc. unfold start_service. pose proof (spawn_ok (t_spawn tk) (t_spawn_at tk) svc Hs Hc) as H1.
  assert (Ed : def (spawn_service (t_spawn tk) (t_spawn_at tk) svc).2 = def svc) by (by unfold spawn_service; destruct (t_spawn tk)).
  destruct (spawn_service (t_spawn tk) (t_spawn_at tk) svc) as [[[]|e] s1]; simpl in Ed; destruct H1 as [H1 S1];
    [|by intros [= <- <-]]. specialize (S1 eq_refl).
  pose proof (settle_ok show_exit (t_settle tk) s1 H1 S1) as H2.
  assert (Ed2 : def (settle show_exit (t_settle tk) s1).2 = def s1).
  { unfold settle. destruct (child s1) as [c|]; [|done]. by destruct (try_wait c (t_settle tk)) as [[] ?]. }
  destruct (settle show_exit (t_settle tk) s1) as [[[]|e] s2]; simpl in Ed2; destruct H2 as [H2 S2];
    [|intros [= <- <-]; split_and!; [done|congruence|done]]. specialize (S2 eq_refl).
  destruct (health_result _) as [h|]; [|intros [= <- <-]; split_and!; [done|congruence|done]].
  pose proof (finish_ok h (t_diag tk) s2 H2 S2) as H3.
  assert (Ed3 : def (finish_start h (t_diag tk) s2).2 = def s2) by (by destruct h; simpl; [|destruct (child s2)]).
  assert (S3 : forall u, (finish_start h (t_diag tk) s2).1 = Ok u -> status (finish_start h (t_diag tk) s2).2 = Running) by (by destruct h).
  destruct (finish_start h (t_diag tk) s2) as [r s3]. intros [= <- <-]. simpl in *. split_and!; [done|congruence|naive_solver].
Qed.

(** A service as registered: stopped, without a process. *)
Definition fresh (svc : ServiceState) : Prop := svc = registered (def svc) /\ 0 <= max_restarts (restart_policy (def svc)).
Lemma fresh_ok svc : fresh svc -> svc_ok svc /\ child svc = None.
Proof. intros [-> H]. split; [by apply registered_ok|done]. Qed.

Section boot_facts.
Context (show_exit : ExitStatus -> string) (pid1 : bool) (kept : option (Z * Z)) (g : gate).

Lemma start_all_booted launches stdio todo b stdio' l : Forall fresh todo ->
  start_all show_exit pid1 kept g launches stdio todo = (b, stdio', l) ->
  Forall svc_ok l /\ (def <$> l = def <$> todo) /\ (b = Booted -> Forall (fun svc => status svc = Running) l).
Proof.
  revert launches stdio b stdio' l. induction todo as [|svc todo IH]; intros launches stdio b stdio' l Hf.
  { destruct launches; intros [= <- <- <-]; by split_and!. }
  assert (Hok : Forall svc_ok todo /\ svc_ok svc /\ child svc = None).
  { apply Forall_cons in Hf as [H1 H2]. split; [|by apply fresh_ok]. eapply Forall_impl; [exact H2|]. intros x Hx. by apply fresh_ok. }
  destruct Hok as (Hrest & Hs & Hc). apply Forall_cons in Hf as [_ Hf].
  destruct launches as [|tk launches]; simpl.
  { intros [= <- <- <-]. by split_and!; [constructor|..]. }
  destruct (start_service show_exit tk svc) as [o s1] eqn:Hst. destruct (start_keeps _ _ _ _ _ Hs Hc Hst) as (H1 & Ed & Hrun).
  assert (Hstop : forall b1, b1 <> Booted -> Forall svc_ok (s1 :: todo) /\ def <$> s1 :: todo = def <$> svc :: todo /\
    (b1 = Booted -> Forall (fun svc => status svc = Running) (s1 :: todo))).
  { intros b1 Hb. split_and!; [by constructor|by rewrite !fmap_cons, Ed|done]. }
  destruct o as [[u|e]|]; [|by intros [= <- <- <-]; apply Hstop..]. set (stdio1 := if _ && pid1 then _ else _).
  destruct (start_all _ _ _ _ launches stdio1 todo) as [[b1 stdio2] rest] eqn:Hr.
  destruct (IH _ _ _ _ _ Hf Hr) as (Hok & Ed' & Hb).
  assert (Hgo : Forall svc_ok (s1 :: rest) /\ def <$> s1 :: rest = def <$> svc :: todo /\
    (b1 = Booted -> Forall (fun svc => status svc = Running) (s1 :: rest))).
  { split_and!; [by constructor|by rewrite !fmap_cons, Ed, Ed'|]. intros E. constructor; [by eapply Hrun|auto]. }
  case_bool_decide; [destruct g|]; intros [= <- <- <-]; (exact Hgo || by apply Hstop).
Qed.

(** What a closed gate leaves: the services after embra-trustd as they were. *)
Lemma start_all_gated launches stdio pre d todo b stdio' l : name d = "embra-trustd" -> (forall v, g <> Go v) ->
  start_all show_exit pid1 kept g launches stdio (pre ++ registered d :: todo) = (b, stdio', l) ->
  Forall fresh (pre ++ registered d :: todo) -> drop (S (length pre)) l = todo.
Proof.
  intros Hd Hg. revert launches stdio b stdio' l. induction pre as [|svc pre IH]; intros launches stdio b stdio' l Hr Hf.
  - destruct launches as [|tk launches]; simpl in Hr; [by injection Hr as <- <- <-|].
    simpl in Hf. apply Forall_cons in Hf as [Hf _]. destruct (fresh_ok _ Hf) as [Hs Hc].
    destruct (start_service show_exit tk (registered d)) as [o s1] eqn:Hst.
    destruct (start_keeps _ _ _ _ _ Hs Hc Hst) as (_ & Ed & _).
    destruct o as [[u|e]|]; [|by injection Hr as <- <- <-..].
    rewrite Ed in Hr. change (name (def (registered d))) with (name d) in Hr.
    rewrite Hd, (bool_decide_eq_true_2 ("embra-trustd" = "embra-trustd")) in Hr by done.
    destruct g as [v| |]; [by destruct (Hg v)|by injection Hr as <- <- <-..].
  - assert (Hdrop : forall x, drop (S (length (svc :: pre))) (x :: pre ++ registered d :: todo) = todo).
    { intros x. change (drop (S (length pre)) (pre ++ registered d :: todo) = todo).
      rewrite drop_app, drop_ge by lia. by replace (S (length pre) - length pre)%nat with 1%nat by lia. }
    destruct launches as [|tk launches]; simpl in Hr; [injection Hr as <- <- <-; apply Hdrop|].
    destruct (start_service show_exit tk svc) as [[[u|e]|] s1]; [|by injection Hr as <- <- <-; apply Hdrop..].
    set (stdio1 := if _ && pid1 then _ else _) in Hr.
    destruct (start_all _ _ _ _ launches stdio1 (pre ++ registered d :: todo)) as [[b1 stdio2] rest] eqn:Hrec.
    simpl in Hf. apply Forall_cons in Hf as [_ Hf]. pose proof (IH _ _ _ _ _ Hrec Hf) as Hrest.
    case_bool_decide; [destruct g as [v| |]; [by destruct (Hg v)|..]|]; injection Hr as <- <- <-; by try apply Hdrop.
Qed.
End boot_facts.

Lemma registered_fresh src : Forall fresh (running (register_services src)).
Proof.
  unfold register_services. destruct (front_end src) as [token front] eqn:Hf. simpl.
  assert (Hfront : Forall (fun d => 0 <= max_restarts (restart_policy d)) front).
  { unfold front_end in Hf. destruct (web_mode_enabled src); [destruct (boot_token src)|]; injection Hf as <- <-;
      repeat constructor; try done. unfold console_def. by destruct (terminal_size src). }
  repeat (apply Forall_cons; split; [done|]). apply Forall_fmap. eapply Forall_impl; [exact Hfront|]. done.
Qed.

Lemma gate_open `{SoulLib} connect call w v : call = Ok (rpc_verify_soul EmptyString w) \/ (exists e, call = Err e) ->
  verify_soul connect call = Go v -> seal_matches w \/ never_sealed w.
Proof.
  intros Hc Hv. assert (Hb : boot_gate w = Go v).
  { unfold verify_soul in Hv. destruct connect; [|done]. destruct Hc as [->|[e ->]]; [exact Hv|done]. }
  by eapply boot_gate_open.
Qed.

(** C30: Past embra-trustd nothing is started, and the boot does not complete,
    unless the soul verified or was never sealed: the services registered
    after it stay as registered. Whatever the outcome every service is in a
    consistent state, and a completed boot leaves them all running. *)
Theorem boot_is_gated `{SoulLib} show_exit pid1 kept src launches connect call w b m :
  call = Ok (rpc_verify_soul EmptyString w) \/ (exists e, call = Err e) ->
  boot_machine show_exit pid1 kept (verify_soul connect call) src launches = (b, m) ->
  (seal_matches w \/ never_sealed w \/ drop 2 (running m) = drop 2 (running (register_services src)) /\ b <> Booted) /\
  Forall svc_ok (running m) /\
  (b = Booted -> Forall (fun svc => status svc = Running) (running m)).
Proof.
  intros Hcall. unfold boot_machine. set (g := verify_soul connect call).
  destruct (start_all show_exit pid1 kept g launches _ _) as [[b1 stdio] l] eqn:Hr. intros [= <- <-]. simpl.
  pose proof (registered_fresh src) as Hf. destruct (start_all_booted _ _ _ _ _ _ _ _ _ _ Hf Hr) as (Hok & Ed & Hrun).
  split_and!; [|done..]. destruct g as [v|e|r] eqn:Hg; subst g.
  { destruct (gate_open _ _ _ _ Hcall Hg); tauto. }
  all: right; right; unfold register_services in *; destruct (front_end src) as [token front]; simpl in *;
    assert (Hd : drop 2 l = registered apid_def :: registered (brain_def src) :: (registered <$> front))
      by (by refine (start_all_gated _ _ _ _ _ _ [registered (wardsondb_def src)] trustd_def _ _ _ _ _ _ Hr Hf));
    (split; [exact Hd|]); intros Hb; specialize (Hrun Hb);
    assert (Hx : registered apid_def ∈ l) by (rewrite <-(take_drop 2 l), Hd; set_solver);
    by pose proof (proj1 (Forall_forall _ _) Hrun _ Hx).
Qed.

(** ** A boot with the serial console *)

Definition plain_sources : Sources :=
  {| cmdline := "console=ttyS0 embra.cols=120 embra.rows=40"; file := fun _ => None; var := fun _ => None; engine := None;
     urandom := Err "none" |}.
Definition launch (p : Z) : Tick :=
  {| t_now := 0; t_wait := StillRunning; t_spawn := Ok p; t_spawn_at := 0; t_settle := StillRunning; t_health_from := 0;
     t_probes := [refused; {| at_ := from_millis 500; connected := true; written := true; got := ReadText "HTTP/1.0 200 OK" |}];
     t_diag := StillRunning |}.
Definition sealed_boot (stored : string) : boot * Machine :=
  boot_machine no_text true (Some (3, 4))
    (verify_soul (Ok tt) (Ok (rpc_verify_soul (H := plain_soul) EmptyString
      (soul_world (VObject [("soul", VString "kind")]) Present (Some stored)))))
    plain_sources (launch <$> [101; 102; 103; 104; 105]).

Lemma boot_is_gated_witness :
  ((sealed_boot "6b696e64").1 = Booted /\
   Forall (fun svc => status svc = Running) (running (sealed_boot "6b696e64").2) /\
   boot_stdio (sealed_boot "6b696e64").2 = Some (3, 4)) /\
  exists reason, (sealed_boot "00").1 = BootHalts reason /\ Forall svc_ok (running (sealed_boot "00").2).
Proof.
  pose proof (fun stored => boot_is_gated (H := plain_soul) no_text true (Some (3, 4)) plain_sources (launch <$> [101; 102; 103; 104; 105])
    (Ok tt) _ (soul_world (VObject [("soul", VString "kind")]) Present (Some stored)) _ _ (or_introl eq_refl)
    (surjective_pairing (sealed_boot stored))) as T.
  split_and!.
  - by vm_compute.
  - apply (T "6b696e64"). by vm_compute.
  - by vm_compute.
  - eexists. split; [by vm_compute|]. apply (T "00").
Defined.
