(* ===== verification/Access.v ===== *)
(** * The gate of the web console ([crates/embra-web/src/access.rs])

    The per-boot token and the origin rule: which requests the console
    answers, where the first visit is sent, and what the refusals are. A
    request is its method, its URI's parts and its headers in order, names in
    lower case and values as bytes. *)

From S2P Require Import Prelude Bytes Text.
From Stdlib Require Import Ascii.

Inductive Method := GET | HEAD | OtherMethod (name : string).
Record Uri := { path : string; query : option string; authority : option string }.
Definition HeaderMap := list (string * bytes).
(** [HeaderMap::get] and [get_all] *)
Definition get_all (headers : HeaderMap) (key : string) : list bytes :=
  omap (fun kv => if bool_decide (kv.1 = key) then Some kv.2 else None) headers.
Definition get_header (headers : HeaderMap) (key : string) : option bytes := head (get_all headers key).
(** [HeaderValue::to_str]: visible ASCII and the tab. *)
Definition visible (b : Z) : bool := ((32 <=? b) && (b <? 127)) || (b =? 9).
Definition to_str (v : bytes) : option string := if forallb visible v then Some (bytes_str v) else None.

Definition COOKIE : string := "embra_token".
Definition REFUSAL : string :=
  "embraOS web console: open the URL printed on the serial console at boot; it carries this boot's access token.
".
Definition ORIGIN_REFUSAL : string :=
  "embraOS web console: refused — the request came from a page on another origin; the console answers the pages it serves itself.
".

(** [generate_token] from the bytes read, if they were. *)
Definition generate_token (urandom : result string bytes) : result string string :=
  match urandom with Ok b => Ok (hex_of b) | Err e => Err e end.

Definition startup_line (from_env : bool) (port : Z) (token : string) : string :=
  if from_env then "access token: from the environment; the URL is on the serial console"
  else "web console: https://localhost:" +:+ pretty port +:+ "/embraOS?token=" +:+ token.

Definition constant_time_eq (a b : bytes) : bool :=
  if negb (Nat.eqb (length a) (length b)) then false
  else foldl (fun diff xy => Z.lor diff (Z.lxor xy.1 xy.2)) 0 (zip a b) =? 0.

Definition token_param : string := "token=".
Definition query_token (uri : Uri) : option string :=
  q ← query uri; head (omap (str_strip token_param) (split_on "&"%char q)).

(** The candidates of [cookie_token], then its loop. *)
Definition cookie_candidates (headers : HeaderMap) : list string :=
  omap (str_strip (COOKIE +:+ "="))
    (trim <$> (omap to_str (get_all headers "cookie") ≫= split_on ";"%char)).
Fixpoint first_match (expected : string) (first : option string) (candidates : list string) : option string :=
  match candidates with
  | [] => first
  | c :: candidates =>
      if constant_time_eq (str_bytes c) (str_bytes expected) then Some c
      else first_match expected (match first with None => Some c | _ => first end) candidates
  end.
Definition cookie_token (headers : HeaderMap) (expected : string) : option string :=
  first_match expected None (cookie_candidates headers).

Definition origin_allowed (origin host : option string) : bool :=
  match origin, host with
  | None, _ => true
  | Some origin, Some host => eq_ignore_ascii_case origin ("https://" +:+ host)
  | Some _, None => false
  end.

Definition is_websocket_upgrade (headers : HeaderMap) : bool :=
  match v ← get_header headers "upgrade"; to_str v with
  | Some v => eq_ignore_ascii_case v "websocket"
  | None => false
  end.
Definition origin_gated (method : Method) (headers : HeaderMap) : bool :=
  is_websocket_upgrade headers || match method with GET | HEAD => false | _ => true end.

Definition request_host (uri : Uri) (headers : HeaderMap) : option string :=
  match v ← get_header headers "host"; to_str v with
  | Some h => Some h
  | None => authority uri
  end.

Definition keeps_pair (pair : string) : bool :=
  negb (bool_decide (pair = EmptyString)) && negb (str_starts pair token_param).
Definition clean_location (path : string) (query : option string) : string :=
  match List.filter keeps_pair (split_on "&"%char (default EmptyString query)) with
  | [] => path
  | rest => path +:+ "?" +:+ String.concat "&" rest
  end.

Inductive Decision :=
| Pass
| SetCookieAndRedirect (location set_cookie : string)
| Refuse
| RefuseOrigin.

Definition direct (path : string) : bool := str_starts path "/ws/" || str_starts path "/api/".
Definition cookie_line (expected : string) : string :=
  COOKIE +:+ "=" +:+ expected +:+ "; Path=/; Secure; HttpOnly; SameSite=Strict".
Definition decide_request (path : string) (query query_token cookie_token : option string) (expected : string) : Decision :=
  let ok candidate :=
    match candidate with Some c => constant_time_eq (str_bytes c) (str_bytes expected) | None => false end in
  if ok cookie_token then Pass
  else if ok query_token then
    if direct path then Pass
    else SetCookieAndRedirect (clean_location path query) (cookie_line expected)
  else Refuse.

Definition header_text (headers : HeaderMap) (key : string) : option string := v ← get_header headers key; to_str v.
Definition admit_request (method : Method) (uri : Uri) (headers : HeaderMap) (expected : string) : Decision :=
  match decide_request (path uri) (query uri) (query_token uri) (cookie_token headers expected) expected with
  | Pass =>
      if origin_gated method headers then
        if origin_allowed (header_text headers "origin") (request_host uri headers) then Pass else RefuseOrigin
      else Pass
  | decision => decision
  end.

(** [require_token]: the request goes on, or a response of its own. *)
Inductive answer := Forward | Respond (status : Z) (headers : list (string * string)) (body : string).
Definition refusal (status : Z) (notice : string) : answer :=
  Respond status [("content-type", "text/plain; charset=utf-8"); ("cache-control", "no-store")] notice.
(** [well_formed] says whether the builder accepts the two header values. *)
Definition require_token (well_formed : bool) (d : Decision) : answer :=
  match d with
  | Pass => Forward
  | SetCookieAndRedirect location set_cookie =>
      if well_formed then Respond 303 [("location", location); ("set-cookie", set_cookie); ("cache-control", "no-store")] EmptyString
      else Respond 500 [] EmptyString
  | Refuse => refusal 401 REFUSAL
  | RefuseOrigin => refusal 403 ORIGIN_REFUSAL
  end.

(** ** What a request carries *)

(** A [Cookie] header of the request has the pair of this token. *)
Definition has_cookie (headers : HeaderMap) (expected : string) : Prop :=
  exists value text pair, ("cookie", value) ∈ headers /\ to_str value = Some text /\
    pair ∈ split_on ";"%char text /\ trim pair = COOKIE +:+ "=" +:+ expected.
(** The first [token] parameter of the query is this token. *)
Definition has_query (uri : Uri) (expected : string) : Prop :=
  exists q pre post, query uri = Some q /\ split_on "&"%char q = pre ++ (token_param +:+ expected) :: post /\
    Forall (fun x => str_strip token_param x = None) pre.
(** A gated request names the console it reached, or names no origin. *)
Definition same_origin (method : Method) (uri : Uri) (headers : HeaderMap) : Prop :=
  origin_gated method headers = true -> forall origin, header_text headers "origin" = Some origin ->
  exists host, request_host uri headers = Some host /\ eq_ignore_ascii_case origin ("https://" +:+ host) = true.

(** ** Facts *)

Lemma diff_zero l d : foldl (fun diff xy => Z.lor diff (Z.lxor xy.1 xy.2)) d l = 0 <->
  d = 0 /\ Forall (fun xy => xy.1 = xy.2) l.
Proof.
  revert d. induction l as [|[x y] l IH]; intros d; simpl; [naive_solver|].
  rewrite IH, Z.lor_eq_0_iff, Z.lxor_eq_0_iff, Forall_cons. naive_solver.
Qed.
Lemma zip_diagonal (a b : bytes) : length a = length b -> (Forall (fun xy => xy.1 = xy.2) (zip a b) <-> a = b).
Proof.
  revert b. induction a as [|x a IH]; intros [|y b]; simpl; try done. intros [= H]. rewrite Forall_cons, (IH b H). naive_solver.
Qed.
Lemma constant_time_eq_spec a b : constant_time_eq a b = true <-> a = b.
Proof.
  unfold constant_time_eq. destruct (Nat.eqb_spec (length a) (length b)) as [E|E]; simpl.
  - rewrite Z.eqb_eq, diff_zero, (zip_diagonal _ _ E). naive_solver.
  - split; [done|]. by intros ->.
Qed.
Lemma token_eq_spec c expected : constant_time_eq (str_bytes c) (str_bytes expected) = true <-> c = expected.
Proof. rewrite constant_time_eq_spec. split; [apply (inj _)|by intros ->]. Qed.

Definition is_token (expected : string) (candidate : option string) : bool :=
  match candidate with Some c => constant_time_eq (str_bytes c) (str_bytes expected) | None => false end.
Lemma is_token_spec expected o : is_token expected o = true <-> o = Some expected.
Proof. destruct o; simpl; [rewrite token_eq_spec|]; naive_solver. Qed.

Lemma first_match_spec expected first l : first <> Some expected ->
  (first_match expected first l = Some expected <-> expected ∈ l).
Proof.
  revert first. induction l as [|c l IH]; intros first Hf; simpl; [set_solver|].
  rewrite elem_of_cons. pose proof (token_eq_spec c expected) as Hc.
  destruct (constant_time_eq (str_bytes c) (str_bytes expected)).
  - assert (c = expected) as -> by (by apply Hc). naive_solver.
  - assert (Hne : c <> expected) by (intros E; by apply Hc in E). rewrite IH; [naive_solver|]. destruct first; naive_solver.
Qed.

Lemma cookie_token_spec headers expected : cookie_token headers expected = Some expected <-> has_cookie headers expected.
Proof.
  unfold cookie_token, has_cookie, cookie_candidates, get_all. rewrite first_match_spec by done.
  rewrite list_elem_of_omap. setoid_rewrite str_strip_spec. setoid_rewrite list_elem_of_fmap. setoid_rewrite list_elem_of_bind.
  setoid_rewrite list_elem_of_omap. setoid_rewrite list_elem_of_omap. split.
  - intros (t & (pair & -> & text & Hp & value & ([k v] & Hh & Hk) & Ht) & E). simpl in Hk.
    case_bool_decide; [|done]. simplify_eq/=. exists value, text, pair. by rewrite E, str_app_assoc.
  - intros (value & text & pair & Hh & Ht & Hp & E). exists (trim pair). split; [|by rewrite E, str_app_assoc].
    exists pair. split; [done|]. exists text. split; [done|]. exists value. split; [|done].
    exists ("cookie", value). split; [done|]. by simpl.
Qed.

(** The first value of a list of pairs with a prefix. *)
Lemma head_omap_spec {A B} (f : A -> option B) l y : head (omap f l) = Some y <->
  exists pre x post, l = pre ++ x :: post /\ Forall (fun x => f x = None) pre /\ f x = Some y.
Proof.
  split.
  - induction l as [|x l IH]; simpl; [done|]. destruct (f x) eqn:E; simpl.
    + intros [= ->]. by exists [], x, l.
    + intros (pre & z & post & -> & Hp & Hz)%IH. exists (x :: pre), z, post. by split_and!; [|constructor|].
  - intros (pre & x & post & -> & Hp & Hx). induction Hp as [|z pre Hz Hp IH]; simpl; [by rewrite Hx|by rewrite Hz].
Qed.
Lemma query_token_spec uri expected : query_token uri = Some expected <-> has_query uri expected.
Proof.
  unfold query_token, has_query. destruct (query uri) as [q|]; simpl; [|naive_solver].
  rewrite head_omap_spec. split.
  - intros (pre & x & post & E & Hp & Hx%str_strip_spec). subst x. by exists q, pre, post.
  - intros (q' & pre & post & [= <-] & E & Hp). eexists pre, _, post. split_and!; [done..|]. apply str_strip_app.
Qed.

Lemma same_origin_spec method uri headers : same_origin method uri headers <->
  (if origin_gated method headers then origin_allowed (header_text headers "origin") (request_host uri headers) else true) = true.
Proof.
  unfold same_origin, origin_allowed. destruct (origin_gated method headers); [|done].
  destruct (header_text headers "origin") as [o|]; [|naive_solver].
  destruct (request_host uri headers) as [h|]; naive_solver.
Qed.

(** [decide] in the terms of the request. *)
Lemma decide_cases uri headers expected :
  let d := decide_request (path uri) (query uri) (query_token uri) (cookie_token headers expected) expected in
  (has_cookie headers expected \/ has_query uri expected /\ direct (path uri) = true) /\ d = Pass \/
  (~ has_cookie headers expected /\ has_query uri expected /\ direct (path uri) = false) /\
    d = SetCookieAndRedirect (clean_location (path uri) (query uri)) (cookie_line expected) \/
  (~ has_cookie headers expected /\ ~ has_query uri expected) /\ d = Refuse.
Proof.
  pose proof (is_token_spec expected (cookie_token headers expected)) as Hc. rewrite cookie_token_spec in Hc.
  pose proof (is_token_spec expected (query_token uri)) as Hq. rewrite query_token_spec in Hq.
  cbv zeta. unfold decide_request.
  fold (is_token expected (cookie_token headers expected)) (is_token expected (query_token uri)).
  destruct (is_token expected (cookie_token headers expected)), (is_token expected (query_token uri)), (direct (path uri)); naive_solver.
Qed.

(** The redirect keeps the other parameters, in order, and no token. *)
Lemma keeps_pair_spec x : keeps_pair x = true <-> x <> EmptyString /\ str_strip token_param x = None.
Proof.
  unfold keeps_pair, str_starts. rewrite andb_true_iff, !negb_true_iff, !bool_decide_eq_false, <-eq_None_not_Some. done.
Qed.
Lemma join_kept l : Forall (fun x => has_char "&"%char x = false) l -> List.filter keeps_pair l <> [] ->
  split_on "&"%char (String.concat "&" (List.filter keeps_pair l)) = List.filter keeps_pair l.
Proof.
  intros Hl Hn. apply (join_split "&"%char); [done|]. rewrite Forall_forall in *. intros x [Hx _]%elem_of_List_filter. by apply Hl.
Qed.
Lemma clean_location_spec path q : let kept := List.filter keeps_pair (split_on "&"%char q) in
  (kept = [] /\ clean_location path (Some q) = path) \/
  (exists q', clean_location path (Some q) = path +:+ "?" +:+ q' /\ split_on "&"%char q' = kept /\
    forall h a, query_token {| Access.path := h; query := Some q'; authority := a |} = None).
Proof.
  unfold clean_location. simpl. destruct (List.filter keeps_pair (split_on "&"%char q)) as [|x rest] eqn:E; [by left|right].
  exists (String.concat "&" (x :: rest)).
  assert (Hs : split_on "&"%char (String.concat "&" (x :: rest)) = x :: rest).
  { rewrite <-E. apply join_kept; [apply split_on_parts|by rewrite E]. }
  split; [done|]. split; [done|]. intros h a. unfold query_token. cbn [query mbind option_bind]. rewrite Hs.
  assert (Hall : Forall (fun y => str_strip token_param y = None) (x :: rest)).
  { rewrite <-E, Forall_forall. intros y [_ Hy]%elem_of_List_filter. by apply keeps_pair_spec in Hy as [_ Hy]. }
  clear -Hall. induction Hall as [|y l Hy _ IH]; simpl; [done|]. by rewrite Hy.
Qed.

(** ** A browser's cookie *)

(** The header a browser sends back for the cookie the gate sets. *)
Definition browser_cookie (expected : string) : HeaderMap := [("cookie", str_bytes (COOKIE +:+ "=" +:+ expected))].

Lemma cookie_plain expected : Forall is_hex (str_bytes expected) -> Forall plain_byte (str_bytes (COOKIE +:+ "=" +:+ expected)).
Proof.
  intros He. rewrite !str_bytes_app. apply Forall_app_2; [|apply Forall_app_2].
  - by apply plain_text_spec.
  - by apply plain_text_spec.
  - eapply Forall_impl; [exact He|]. unfold is_hex, plain_byte. simpl. lia.
Qed.
Lemma browser_cookie_spec expected : Forall is_hex (str_bytes expected) -> has_cookie (browser_cookie expected) expected.
Proof.
  intros He. pose proof (cookie_plain expected He) as Hp.
  exists (str_bytes (COOKIE +:+ "=" +:+ expected)), (COOKIE +:+ "=" +:+ expected), (COOKIE +:+ "=" +:+ expected).
  split_and!.
  - by left.
  - unfold to_str. rewrite bytes_str_str_bytes. replace (forallb visible _) with true; [done|]. symmetry.
    apply forallb_forall. intros b Hb%list_elem_of_In. apply (proj1 (Forall_forall _ _) Hp) in Hb.
    unfold plain_byte, visible in *. lia.
  - rewrite split_on_plain; [by left|]. rewrite !str_has_app. apply orb_false_iff. split; [done|].
    apply orb_false_iff. split; [done|]. apply has_char_bytes. eapply Forall_impl; [exact He|].
    unfold is_hex. intros b Hb ->. vm_compute in Hb. naive_solver.
  - by apply trim_plain.
Qed.

(** ** The properties *)

Ltac cases := split; [|split; [|split; [intros ? ?|]]]; split; intuition (discriminate || congruence).

(** C33: The console answers a request exactly when it carries this boot's
    token, in a cookie, or in the query of a socket or API path, and names the
    console's own origin where the rule applies; from another origin it is
    refused as such; a first visit with the token in its query is sent to the
    clean address with the cookie set; everything else is refused. *)
Theorem admit_is_exact method uri headers expected :
  let passes := has_cookie headers expected \/ has_query uri expected /\ direct (path uri) = true in
  let d := admit_request method uri headers expected in
  (d = Pass <-> passes /\ same_origin method uri headers) /\
  (d = RefuseOrigin <-> passes /\ ~ same_origin method uri headers) /\
  (forall location set_cookie, d = SetCookieAndRedirect location set_cookie <->
     ~ has_cookie headers expected /\ has_query uri expected /\ direct (path uri) = false /\
     location = clean_location (path uri) (query uri) /\ set_cookie = cookie_line expected) /\
  (d = Refuse <-> ~ has_cookie headers expected /\ ~ has_query uri expected).
Proof.
  cbv zeta. rewrite same_origin_spec. unfold admit_request.
  destruct (decide_cases uri headers expected) as [[Hp ->]|[[Hp ->]|[Hp ->]]].
  - destruct (origin_gated method headers); [destruct (origin_allowed _ _)|]; cases.
  - cases; congruence.
  - cases.
Qed.

(** The first visit ends well: the address it is sent to has the same
    path and the other parameters in order and no token, and following it
    with the cookie that was set is answered, whatever else it asks for. *)
Theorem first_visit_completes uri headers expected location set_cookie method q :
  Forall is_hex (str_bytes expected) -> query uri = Some q -> method = GET \/ method = HEAD ->
  admit_request method uri headers expected = SetCookieAndRedirect location set_cookie ->
  set_cookie = COOKIE +:+ "=" +:+ expected +:+ "; Path=/; Secure; HttpOnly; SameSite=Strict" /\
  (location = path uri /\ List.filter keeps_pair (split_on "&"%char q) = [] \/
   exists q', location = path uri +:+ "?" +:+ q' /\ split_on "&"%char q' = List.filter keeps_pair (split_on "&"%char q) /\
     query_token {| path := path uri; query := Some q'; authority := authority uri |} = None) /\
  forall next, admit_request GET next (browser_cookie expected) expected = Pass.
Proof.
  intros He Hq Hm Ha. unfold admit_request in Ha. destruct (decide_cases uri headers expected) as [[_ E]|[[_ E]|[_ E]]]; rewrite E in Ha.
  - destruct (origin_gated _ _); [by destruct (origin_allowed _ _)|done].
  - injection Ha as <- <-. split; [done|]. rewrite Hq. split.
    + destruct (clean_location_spec (path uri) q) as [[Hk ->]|(q' & -> & Hs & Hn)]; [by left|right; by exists q'].
    + intros next. unfold admit_request.
      destruct (decide_cases next (browser_cookie expected) expected) as [[_ ->]|[[[Hn _] _]|[[Hn _] _]]];
        [done|destruct Hn; by apply browser_cookie_spec..].
  - done.
Qed.

Definition a_token : string := "0123456789abcdef".
Definition entry : Uri := {| path := "/embraOS"; query := Some "x=1&token=0123456789abcdef&&y=2"; authority := None |}.

Lemma first_visit_completes_witness :
  admit_request GET entry [] a_token = SetCookieAndRedirect "/embraOS?x=1&y=2" (cookie_line a_token) /\
  admit_request GET {| path := "/ws/terminal"; query := None; authority := None |} (browser_cookie a_token) a_token = Pass /\
  admit_request (OtherMethod "POST") entry (("origin", str_bytes "https://evil:3345") :: ("host", str_bytes "embraos:3345") :: browser_cookie a_token) a_token
    = RefuseOrigin.
Proof.
  assert (E : admit_request GET entry [] a_token = SetCookieAndRedirect "/embraOS?x=1&y=2" (cookie_line a_token)) by (by vm_compute).
  split; [exact E|]. split; [|by vm_compute].
  refine (proj2 (proj2 (first_visit_completes entry [] a_token _ _ GET _ _ eq_refl (or_introl eq_refl) E)) _).
  repeat (apply Forall_cons_2; [vm_compute; intuition discriminate|]). apply Forall_nil_2.
Defined.
