(* ===== verification/Edges.v ===== *)
(** * The edges of the knowledge graph ([crates/embra-brain/src/knowledge])

    The edge types and the parse of stored edges ([types.rs],
    [traversal.rs]), the filters of a hop, the query of each of its arms, and
    the window an arm pair is merged into. The queries are those of the
    database modelled in [Filter] and [Sort]; the property says that merging
    the windows of two arms gives the window of their union. *)

From S2P Require Import Prelude Bytes F64 Json Errors Externals Filter Secondary Sort Text.
From Stdlib Require Import Ascii.

(** ** [types.rs] *)

Inductive EdgeType :=
| SameSession | Temporal | TagOverlap
| DerivedFrom | Enables | Contradicts | Refines | DependsOn | Supersedes | RelatedTo
| Other (relation : string).
#[export] Instance EdgeType_eq : EqDecision EdgeType.
Proof. solve_decision. Defined.

Definition edge_type_str (t : EdgeType) : string :=
  match t with
  | SameSession => "same_session"
  | Temporal => "temporal"
  | TagOverlap => "tag_overlap"
  | DerivedFrom => "derived_from"
  | Enables => "enables"
  | Contradicts => "contradicts"
  | Refines => "refines"
  | DependsOn => "depends_on"
  | Supersedes => "supersedes"
  | RelatedTo => "related_to"
  | Other s => s
  end.
Definition built_in : list EdgeType :=
  [SameSession; Temporal; TagOverlap; DerivedFrom; Enables; Contradicts; Refines; DependsOn; Supersedes; RelatedTo].

(** [to_lowercase] matters only against the built-in names, which are ASCII
    letters other than k and underscores: no other character's lower case is
    one of those, so ASCII case is enough. *)
Definition edge_type_from_str (s : string) : option EdgeType :=
  let name := ascii_lowercase (trim s) in
  List.find (fun t => bool_decide (edge_type_str t = name)) built_in.
Definition parse_lossy (s : string) : option EdgeType :=
  let trimmed := trim s in
  if bool_decide (trimmed = EmptyString) then None
  else Some (default (Other trimmed) (edge_type_from_str trimmed)).

Definition is_brain_created (t : EdgeType) : bool :=
  match t with Enables | Contradicts | Refines | DependsOn | Supersedes | RelatedTo => true | _ => false end.
Definition is_auto_derived (t : EdgeType) : bool :=
  match t with SameSession | Temporal | TagOverlap => true | _ => false end.
Definition is_symmetric (t : EdgeType) : bool :=
  match t with SameSession | Temporal | TagOverlap | RelatedTo => true | _ => false end.

Record KnowledgeEdge := {
  e_id : option string;
  source_id : string;
  source_collection : string;
  target_id : string;
  target_collection : string;
  e_type : EdgeType;
  weight : f64;
  metadata : Value;
  created_at : string;
}.

(** How the graph addresses a node: collection and id. *)
Abbreviation NodeKey := (string * string)%type.

Section edges.
Context `{SerdeJson}.

(** ** Parsing and endpoints ([traversal.rs]) *)

Definition str_field (v : Value) (k : string) : option string := get v k ≫= as_str.
Definition parse_edge (v : Value) : option KnowledgeEdge :=
  text ← str_field v "edge_type";
  t ← parse_lossy text;
  sid ← str_field v "source_id";
  scoll ← str_field v "source_collection";
  tid ← str_field v "target_id";
  tcoll ← str_field v "target_collection";
  Some {| e_id := str_field v "_id"; source_id := sid; source_collection := scoll; target_id := tid;
          target_collection := tcoll; e_type := t; weight := default f64_zero (get v "weight" ≫= as_f64);
          metadata := default VNull (get v "metadata"); created_at := default EmptyString (str_field v "created_at") |}.

Definition neighbor_of (edge : KnowledgeEdge) (coll id : string) : NodeKey :=
  if bool_decide (source_collection edge = coll) && bool_decide (source_id edge = id)
  then (target_collection edge, target_id edge)
  else (source_collection edge, source_id edge).

(** ** The filters of an arm *)

Definition AUTO_EDGE_TYPE_NAMES : list string := ["same_session"; "temporal"; "tag_overlap"].
Definition MEANINGFUL_EDGE_LIMIT : Z := 2000.

(** [json!(w)] of a float: [null] for one that is no JSON number. *)
Definition json_f64 (w : f64) : Value := match num_from_f64 w with Some n => VNumber n | None => VNull end.
Definition json_strings (l : list string) : Value := VArray (VString <$> l).

Definition weight_constraint (filter : list (string * Value)) (min_weight : option f64) : list (string * Value) :=
  match min_weight with
  | Some w => map_insert "weight" (VObject [("$gte", json_f64 w)]) filter
  | None => filter
  end.
Definition append_common_constraints (filter : list (string * Value)) (types : option (list EdgeType))
    (min_weight : option f64) : list (string * Value) :=
  let filter := match types with
                | Some types => map_insert "edge_type" (VObject [("$in", json_strings (edge_type_str <$> types))]) filter
                | None => filter
                end in
  weight_constraint filter min_weight.

Definition source_arm_filter (coll id : string) (types : option (list EdgeType)) (min_weight : option f64) :=
  append_common_constraints (map_insert "source_collection" (VString coll) (map_insert "source_id" (VString id) []))
    types min_weight.
Definition target_arm_filter (coll id : string) (types : option (list EdgeType)) (min_weight : option f64) :=
  append_common_constraints (map_insert "target_collection" (VString coll) (map_insert "target_id" (VString id) []))
    types min_weight.
Definition nin_auto (filter : list (string * Value)) : list (string * Value) :=
  map_insert "edge_type" (VObject [("$nin", json_strings AUTO_EDGE_TYPE_NAMES)]) filter.
Definition source_arm_filter_nin_auto (coll id : string) (min_weight : option f64) :=
  weight_constraint (nin_auto (map_insert "source_collection" (VString coll) (map_insert "source_id" (VString id) [])))
    min_weight.
Definition target_arm_filter_nin_auto (coll id : string) (min_weight : option f64) :=
  weight_constraint (nin_auto (map_insert "target_collection" (VString coll) (map_insert "target_id" (VString id) [])))
    min_weight.

Definition edge_sort : Value :=
  VArray [VObject [("weight", VString "desc")]; VObject [("created_at", VString "desc")]].
Definition edge_query_body (filter : list (string * Value)) (limit : Z) : Value :=
  VObject [("filter", VObject filter); ("limit", VNumber (PosInt limit)); ("sort", edge_sort)].

Inductive MeaningfulTypes := NinAuto | InTypes (types : list EdgeType) | Skip.
Definition partition_edge_types (filter : option (list EdgeType)) : option (list EdgeType) * MeaningfulTypes :=
  match filter with
  | None => (Some [SameSession; Temporal; TagOverlap], NinAuto)
  | Some l =>
      let auto := List.filter is_auto_derived l in
      let meaningful := List.filter (fun t => negb (is_auto_derived t)) l in
      (match auto with [] => None | _ => Some auto end,
       match meaningful with [] => Skip | _ => InTypes meaningful end)
  end.

(** ** The merge of two windows *)

(** [window_saturated] of [db/client.rs]. *)
Definition window_saturated (returned limit : Z) : bool := (0 <? limit) && (limit <=? returned).

(** The comparator of the merge: weight, date and id, each descending. *)
Definition edge_cmp (a b : KnowledgeEdge) : comparison :=
  then_cmp (default Eq (f64_partial_cmp (weight b) (weight a)))
    (then_cmp (str_cmp (created_at b) (created_at a)) (option_cmp str_cmp (e_id b) (e_id a))).

Fixpoint dedupe (seen : gset string) (docs : list Value) : list KnowledgeEdge :=
  match docs with
  | [] => []
  | doc :: docs =>
      match parse_edge doc with
      | None => dedupe seen docs
      | Some edge =>
          match e_id edge with
          | Some id => if decide (id ∈ seen) then dedupe seen docs else edge :: dedupe ({[id]} ∪ seen) docs
          | None => edge :: dedupe seen docs
          end
      end
  end.
Definition merge_arm_edges (src_docs tgt_docs : list Value) (limit : Z) : list KnowledgeEdge * bool :=
  let arm_saturated := window_saturated (lenZ src_docs) limit || window_saturated (lenZ tgt_docs) limit in
  let merged := sort_by edge_cmp (dedupe ∅ (src_docs ++ tgt_docs)) in
  let overflow := limit <? lenZ merged in
  (takeZ limit merged, arm_saturated || overflow).
End edges.

(** ** Stored edges and the server's window *)

Section window.
Context `{SerdeJson} `{!SerdeLaws}.

(** The sort of an arm's query, as the database parses it. *)
Definition edge_sort_fields : list SortField :=
  [{| field := "weight"; ascending := false |}; {| field := "created_at"; ascending := false |}].
Lemma edge_sort_parses : parse_sort_spec edge_sort = Ok edge_sort_fields.
Proof. done. Qed.

(** What the writers of edges store: every field the parse reads, a weight
    that is a number, not negative zero. *)
Definition stored_edge (doc : Value) (e : KnowledgeEdge) : Prop :=
  (exists m, doc = VObject m) /\ parse_edge doc = Some e /\ is_Some (e_id e) /\
  (exists n x, get doc "weight" = Some (VNumber n) /\ num_as_f64 n = Some x /\ f64_is_nan x = false /\ x <> 2 ^ 63) /\
  (exists s, get doc "created_at" = Some (VString s)).
Definition is_stored (doc : Value) : Prop := exists e, stored_edge doc e.

(** A window of the database: the documents a filter selects, sorted, cut at
    the limit. *)
Definition server_window (docs : list Value) (limit : Z) : list Value :=
  takeZ limit (sort_documents docs edge_sort_fields).

(** ** The two comparators agree *)

Lemma f64_zero_bits x : f64_wf x -> f64_is_zero x = true -> x <> 2 ^ 63 -> x = 0.
Proof.
  unfold f64_is_zero, f64_wf. intros Hx Hz%Z.eqb_eq Hn. unfold f64_mag in Hz. destruct (Z.leb_spec (2 ^ 63) x); lia.
Qed.
Lemma weights_agree x y : f64_wf x -> f64_wf y -> f64_is_nan x = false -> f64_is_nan y = false ->
  x <> 2 ^ 63 -> y <> 2 ^ 63 -> default Eq (f64_partial_cmp x y) = f64_total_cmp x y.
Proof.
  intros Hx Hy Nx Ny Zx Zy. destruct (f64_is_zero x && f64_is_zero y) eqn:Hz.
  - apply andb_true_iff in Hz as [H1 H2]. by rewrite (f64_zero_bits x), (f64_zero_bits y) by done.
  - by rewrite f64_partial_total.
Qed.

Lemma plain_path m k : count_char dot k = 0 -> resolve_json_path (VObject m) k = get (VObject m) k.
Proof. intros E. unfold resolve_json_path. by rewrite E. Qed.

Lemma parse_edge_fields doc e : parse_edge doc = Some e ->
  e_id e = str_field doc "_id" /\ weight e = default f64_zero (get doc "weight" ≫= as_f64) /\
  created_at e = default EmptyString (str_field doc "created_at").
Proof.
  unfold parse_edge. intros Hp. repeat (apply bind_Some in Hp as (? & _ & Hp)). by injection Hp as <-.
Qed.

Lemma edge_cmp_agrees d1 e1 d2 e2 : stored_edge d1 e1 -> stored_edge d2 e2 ->
  compare_docs edge_sort_fields d1 d2 = edge_cmp e1 e2.
Proof.
  intros ([m1 ->] & P1 & _ & (n1 & x1 & G1 & N1 & F1 & Z1) & (s1 & C1)) ([m2 ->] & P2 & _ & (n2 & x2 & G2 & N2 & F2 & Z2) & (s2 & C2)).
  destruct (parse_edge_fields _ _ P1) as (I1 & W1 & T1), (parse_edge_fields _ _ P2) as (I2 & W2 & T2).
  unfold str_field in *. rewrite G1, C1 in *. rewrite G2, C2 in *. cbn in W1, W2, T1, T2. rewrite N1 in W1. rewrite N2 in W2.
  unfold compare_docs, edge_cmp, edge_sort_fields. rewrite !compare_docs_from_cons. unfold cmp_on. cbn [field ascending cmp_dir].
  rewrite !plain_path, G1, G2, C1, C2 by done. cbn [compare_json_values compare_values_total].
  rewrite W1, W2, T1, T2, I1, I2. cbn [default].
  rewrite weights_agree by (done || by eapply num_as_f64_wf).
  f_equal; [|f_equal].
  - unfold num_f64. rewrite N1, N2. cbn. unfold f64_total_cmp. symmetry. apply Z.compare_antisym.
  - symmetry. apply (cmp_opp str_cmp).
  - cbn [compare_docs_from]. unfold tiebreak_ascending, compare_ids, doc_id. cbn [last ascending fmap option_fmap option_map default cmp_dir].
    symmetry. apply (cmp_opp (option_cmp str_cmp)).
Qed.

(** ** Sorting and cutting related lists *)

Lemma insert_by_Forall2 {A B} (R : A -> B -> Prop) cmp cmp' x y l k :
  (forall a b a' b', R a b -> R a' b' -> cmp a a' = cmp' b b') -> R x y -> Forall2 R l k ->
  Forall2 R (insert_by cmp x l) (insert_by cmp' y k).
Proof.
  intros Hc Hx. induction 1 as [|a b l k Hab Hl IH]; cbn; [by repeat constructor|].
  rewrite (Hc x y a b) by done. destruct (cmp' y b); by repeat constructor.
Qed.
Lemma sort_by_Forall2 {A B} (R : A -> B -> Prop) cmp cmp' l k :
  (forall a b a' b', R a b -> R a' b' -> cmp a a' = cmp' b b') -> Forall2 R l k ->
  Forall2 R (sort_by cmp l) (sort_by cmp' k).
Proof.
  intros Hc Hl. unfold sort_by, insert_all. assert (Hn : Forall2 R [] []) by constructor.
  revert Hn. generalize (@nil A) (@nil B). induction Hl as [|x y l k Hxy Hl IH]; intros acc acc' Ha; cbn; [done|].
  apply IH. by apply insert_by_Forall2.
Qed.

(** The first [n] of two sorted windows together are the first [n] of all. *)
Lemma take_sorted_windows {A} (cmp : A -> A -> comparison) `{!CmpOrder cmp} n (l k : list A) :
  (forall x y, x ∈ l ++ k -> y ∈ l ++ k -> cmp x y = Eq -> x = y) ->
  take n (sort_by cmp (take n (sort_by cmp l) ++ take n (sort_by cmp k))) = take n (sort_by cmp (l ++ k)).
Proof.
  intros Hu. assert (Hone : forall l k, take n (sort_by cmp (take n (sort_by cmp l) ++ k)) = take n (sort_by cmp (l ++ k))).
  { clear l k Hu. intros l k. rewrite !sort_by_app.
    rewrite (sort_by_id cmp (take n (sort_by cmp l))); [apply take_insert_all|].
    pose proof (sort_by_strongly cmp l) as Hs. rewrite <-(take_drop n (sort_by cmp l)) in Hs.
    by apply StronglySorted_app_1_l in Hs. }
  assert (Hsub : forall x l, x ∈ take n (sort_by cmp l) -> x ∈ l).
  { intros x m Hx. apply elem_of_take in Hx as (i & Hi & _). apply list_elem_of_lookup_2 in Hi. by rewrite sort_by_perm in Hi. }
  rewrite Hone.
  transitivity (take n (sort_by cmp (take n (sort_by cmp k) ++ l))).
  - f_equal. apply sort_by_unique; [done| |apply Permutation_app_comm].
    intros x y Hx Hy. apply Hu; set_solver.
  - rewrite Hone. f_equal. apply sort_by_unique; [done| |apply Permutation_app_comm].
    intros x y Hx Hy. apply Hu; set_solver.
Qed.

Lemma stored_unique d1 e1 d2 e2 : stored_edge d1 e1 -> stored_edge d2 e2 -> doc_id d1 = doc_id d2 <-> e_id e1 = e_id e2.
Proof.
  intros (_ & P1 & _) (_ & P2 & _). destruct (parse_edge_fields _ _ P1) as [-> _], (parse_edge_fields _ _ P2) as [-> _]. done.
Qed.
Lemma dedupe_stored docs edges seen : Forall2 stored_edge docs edges -> NoDup (doc_id <$> docs) ->
  (forall d id, d ∈ docs -> doc_id d = Some id -> id ∉ seen) -> dedupe seen docs = edges.
Proof.
  intros Hd. revert seen. induction Hd as [|d e docs edges Hde Hd IH]; intros seen Hn Hs; [done|].
  rewrite fmap_cons in Hn. apply NoDup_cons in Hn as [Hx Hn]. destruct Hde as (_ & Hp & [id Hid] & _).
  cbn. rewrite Hp, Hid. destruct (parse_edge_fields _ _ Hp) as [Hi _].
  assert (Hdoc : doc_id d = Some id) by (by rewrite <-Hid, Hi).
  rewrite decide_False by (eapply Hs; [by left|done]). f_equal. apply IH; [done|].
  intros d' id' Hin Hd' [->%elem_of_singleton|Hin']%elem_of_union.
  - apply Hx. rewrite Hdoc, <-Hd'. by apply list_elem_of_fmap_2.
  - by apply (Hs d' id'); [right|..].
Qed.
End window.

(** ** The property *)

Section merge.
Context `{SerdeJson} `{!SerdeLaws}.

Lemma server_window_take docs limit :
  server_window docs limit = take (Z.to_nat limit) (sort_by (compare_docs edge_sort_fields) docs).
Proof. apply takeZ_take. Qed.
Lemma sorted_ids docs : NoDup (doc_id <$> docs) ->
  forall x y, x ∈ docs -> y ∈ docs -> compare_docs edge_sort_fields x y = Eq -> x = y.
Proof. intros Hn x y Hx Hy E%compare_docs_from_eq. by apply (NoDup_fmap_inj_on doc_id docs). Qed.
Lemma window_subset docs limit : exists l, server_window docs limit ++ l ≡ₚ docs.
Proof.
  exists (drop (Z.to_nat limit) (sort_by (compare_docs edge_sort_fields) docs)). rewrite server_window_take, take_drop.
  apply sort_by_perm.
Qed.
Lemma window_length docs limit : 0 <= limit -> lenZ (server_window docs limit) = Z.min limit (lenZ docs).
Proof. intros Hl. rewrite server_window_take. unfold lenZ. rewrite length_take, sort_by_perm. lia. Qed.

(** Fetching the edges that leave a node and those that arrive as two
    ranked windows and merging them gives exactly the ranked window of all of
    them, ties included; and a merge that reports no saturation has dropped
    no edge. *)
Lemma arm_windows_merge src tgt limit :
  Forall is_stored (src ++ tgt) -> NoDup (doc_id <$> src ++ tgt) -> 0 < limit ->
  let '(window, saturated) := merge_arm_edges (server_window src limit) (server_window tgt limit) limit in
  Forall2 stored_edge (server_window (src ++ tgt) limit) window /\
  (saturated = false -> server_window (src ++ tgt) limit ≡ₚ src ++ tgt).
Proof.
  intros Hs Hn Hl. set (cmp := compare_docs edge_sort_fields).
  destruct (window_subset src limit) as [rs Ps], (window_subset tgt limit) as [rt Pt].
  pose proof (window_length src limit) as Ls. pose proof (window_length tgt limit) as Lt'.
  pose proof (take_sorted_windows cmp (Z.to_nat limit) src tgt (sorted_ids _ Hn)) as Hwin. unfold cmp in Hwin at 1 2 3.
  rewrite <-!server_window_take in Hwin.
  generalize dependent (server_window tgt limit). generalize dependent (server_window src limit). intros ws Ps Ls wt Pt Lt' Hwin.
  assert (Hsub : (ws ++ wt) ++ rs ++ rt ≡ₚ src ++ tgt) by (rewrite <-Ps, <-Pt; solve_Permutation).
  assert (Hst : Forall is_stored (ws ++ wt)).
  { rewrite <-Hsub in Hs. by apply Forall_app in Hs as [? _]. }
  apply Forall_exists_Forall2_l in Hst as [edges He].
  assert (Hnd : NoDup (doc_id <$> ws ++ wt)).
  { rewrite <-Hsub, fmap_app in Hn. by apply NoDup_app in Hn as [? _]. }
  unfold merge_arm_edges. rewrite (dedupe_stored _ _ ∅ He Hnd) by set_solver.
  pose proof (sort_by_Forall2 stored_edge cmp edge_cmp _ _ edge_cmp_agrees He) as Hsort.
  split.
  - rewrite takeZ_take, <-Hwin, server_window_take. by apply Forall2_take.
  - intros [[Ha Hb]%orb_false_iff Hc]%orb_false_iff. unfold window_saturated in Ha, Hb.
    pose proof (Forall2_length _ _ _ Hsort) as Hlen. rewrite sort_by_perm in Hlen.
    assert (Hrs : rs = [] /\ rt = []).
    { apply Permutation_length in Ps, Pt. rewrite length_app in Ps, Pt. unfold lenZ in *.
      split; apply length_zero_iff_nil; lia. }
    destruct Hrs as [-> ->]. rewrite <-Hwin, server_window_take, take_ge.
    + rewrite sort_by_perm. by rewrite <-Hsub, app_nil_r.
    + rewrite sort_by_perm. unfold lenZ in *. rewrite <-Hlen in Hc. lia.
Qed.
End merge.

(** ** What the arms of a hop select *)

Section arms.
Context `{SerdeJson} `{!SerdeLaws} `{RegexLib}.

(** The four filters of a hop; a skipped partition has none. *)
Definition auto_filter (arm : string -> string -> option (list EdgeType) -> option f64 -> list (string * Value))
    (auto : option (list EdgeType)) (coll id : string) (min_weight : option f64) : option (list (string * Value)) :=
  (fun types => arm coll id (Some types) min_weight) <$> auto.
Definition meaningful_filter (arm : string -> string -> option (list EdgeType) -> option f64 -> list (string * Value))
    (arm_nin : string -> string -> option f64 -> list (string * Value))
    (meaningful : MeaningfulTypes) (coll id : string) (min_weight : option f64) : option (list (string * Value)) :=
  match meaningful with
  | NinAuto => Some (arm_nin coll id min_weight)
  | InTypes types => Some (arm coll id (Some types) min_weight)
  | Skip => None
  end.
Definition selects (filter : option (list (string * Value))) (doc : Value) : bool :=
  match filter with Some f => filter_sem doc (VObject f) | None => false end.

(** What a caller asks for. *)
Definition type_allowed (types : option (list EdgeType)) (t : EdgeType) : bool :=
  match types with Some l => bool_decide (t ∈ l) | None => true end.
Definition weight_allowed (min_weight : option f64) (doc : Value) : bool :=
  match min_weight with Some w => evaluate_op Gte (get doc "weight") (json_f64 w) | None => true end.

(** The type is stored as its name, as every writer of edges does. *)
Definition named_edge (doc : Value) (e : KnowledgeEdge) : Prop :=
  (exists m, doc = VObject m) /\ parse_edge doc = Some e /\ str_field doc "edge_type" = Some (edge_type_str (e_type e)).

Lemma forallb_map_insert (f : string * Value -> bool) k v m : map_get k m = None ->
  forallb f (map_insert k v m) = f (k, v) && forallb f m.
Proof.
  induction m as [|[j w] m IH]; cbn; [done|]. case_decide as E; [done|]. intros Hm.
  destruct (str_cmp k j) eqn:C; cbn; [|done|].
  - apply str_cmp_eq in C. congruence.
  - rewrite IH by done. by destruct (f (k, v)), (f (j, w)).
Qed.

(** An entry on a plain key reads the field. *)
Lemma entry_plain m k v : count_char dot k = 0 -> k <> "$and" -> k <> "$or" -> k <> "$not" ->
  entry_sem (VObject m) (k, v) = field_sem v (get (VObject m) k).
Proof. intros Hd Ha Ho Hn. unfold entry_sem. rewrite !decide_False by done. by rewrite plain_path. Qed.

Lemma str_field_get doc k s : str_field doc k = Some s <-> get doc k = Some (VString s).
Proof.
  unfold str_field. split; [|by intros ->]. destruct (get doc k) as [[]|]; cbn; naive_solver.
Qed.
Lemma strings_in s l : existsb (fun v => values_equal (VString s) v) (VString <$> l) = bool_decide (s ∈ l).
Proof.
  induction l as [|x l IH]; [done|]. rewrite fmap_cons. cbn [existsb]. rewrite IH. cbn.
  repeat case_bool_decide; set_solver.
Qed.

(** A type that a parse can give: no free relation spelled like a built-in. *)
Definition proper_type (t : EdgeType) : Prop := forall s, t = Other s -> edge_type_from_str s = None.
Lemma edge_type_str_inj t u : proper_type t -> proper_type u -> edge_type_str t = edge_type_str u -> t = u.
Proof.
  intros Ht Hu E. destruct t, u; try done; cbn in E; subst; first [by specialize (Ht _ eq_refl)|by specialize (Hu _ eq_refl)|done].
Qed.
Lemma types_named t l : proper_type t -> Forall proper_type l ->
  bool_decide (edge_type_str t ∈ edge_type_str <$> l) = bool_decide (t ∈ l).
Proof.
  intros Ht Hl. apply bool_decide_ext. split; [|apply list_elem_of_fmap_2].
  intros (u & E & Hu)%list_elem_of_fmap. rewrite (edge_type_str_inj t u); [done..| |done].
  by apply (proj1 (Forall_forall _ _) Hl).
Qed.

(** The four filters in the terms of the edge. *)
Definition in_types (t : EdgeType) (types : list EdgeType) : bool := bool_decide (t ∈ types).
Lemma arm_selects k1 v1 k2 v2 kt m ops doc min_weight :
  (exists o, doc = VObject o) ->
  (k1, k2) = ("source_id", "source_collection") \/ (k1, k2) = ("target_id", "target_collection") ->
  kt = "edge_type" -> m = map_insert kt (VObject ops) (map_insert k2 (VString v2) (map_insert k1 (VString v1) [])) ->
  filter_sem doc (VObject (weight_constraint m min_weight)) =
    weight_allowed min_weight doc && (field_sem (VObject ops) (get doc "edge_type") &&
      (bool_decide (str_field doc k2 = Some v2) && bool_decide (str_field doc k1 = Some v1))).
Proof.
  intros [o ->] Hk -> ->. rewrite filter_sem_object.
  assert (Hw : forall m, map_get "weight" m = None ->
    forallb (entry_sem (VObject o)) (weight_constraint m min_weight) = weight_allowed min_weight (VObject o) && forallb (entry_sem (VObject o)) m).
  { intros m Hm. destruct min_weight as [w|]; [|done]. cbn [weight_constraint]. rewrite forallb_map_insert by done.
    f_equal. rewrite entry_plain by done. cbn [field_sem forallb]. by rewrite andb_true_r. }
  assert (Hs : forall k v, evaluate_op Eq_ (get (VObject o) k) (VString v) = bool_decide (str_field (VObject o) k = Some v)).
  { intros k v. unfold str_field. destruct (get (VObject o) k) as [[]|]; cbn; try done; try (by rewrite bool_decide_eq_false_2 by done).
    apply bool_decide_ext. naive_solver. }
  assert (Hp : forall k v, k = k1 \/ k = k2 -> entry_sem (VObject o) (k, VString v) = bool_decide (str_field (VObject o) k = Some v)).
  { intros k v Hin. rewrite <-Hs. destruct Hk as [ [= -> ->] | [= -> ->] ], Hin as [-> | ->]; by rewrite entry_plain. }
  rewrite Hw by (by destruct Hk as [ [= -> ->] | [= -> ->] ]). f_equal.
  rewrite forallb_map_insert by (by destruct Hk as [ [= -> ->] | [= -> ->] ]). rewrite entry_plain by done. f_equal.
  rewrite forallb_map_insert by (by destruct Hk as [ [= -> ->] | [= -> ->] ]). rewrite Hp by (by right). f_equal.
  cbn [map_insert forallb]. rewrite Hp by (by left). by rewrite andb_true_r.
Qed.

Lemma in_field l doc s : get doc "edge_type" = Some (VString s) ->
  field_sem (VObject [("$in", json_strings l)]) (get doc "edge_type") = bool_decide (s ∈ l).
Proof. intros ->. cbn [field_sem forallb]. rewrite andb_true_r. apply strings_in. Qed.
Lemma nin_field l doc s : get doc "edge_type" = Some (VString s) ->
  field_sem (VObject [("$nin", json_strings l)]) (get doc "edge_type") = negb (bool_decide (s ∈ l)).
Proof. intros ->. cbn [field_sem forallb]. rewrite andb_true_r.
  change (negb (existsb (fun v => values_equal (VString s) v) (VString <$> l)) = negb (bool_decide (s ∈ l))). by rewrite strings_in.
Qed.
Lemma auto_named t : proper_type t -> bool_decide (edge_type_str t ∈ AUTO_EDGE_TYPE_NAMES) = is_auto_derived t.
Proof.
  intros Ht. change AUTO_EDGE_TYPE_NAMES with (edge_type_str <$> [SameSession; Temporal; TagOverlap]).
  rewrite types_named by (done || by repeat (apply Forall_cons; split; [by intros ? [=]|]); constructor).
  destruct t; cbn; case_bool_decide; set_solver.
Qed.

(** An arm, by its two keys. *)
Definition is_arm (k1 k2 : string) (arm : string -> string -> option (list EdgeType) -> option f64 -> list (string * Value))
    (arm_nin : string -> string -> option f64 -> list (string * Value)) : Prop :=
  ((k1, k2) = ("source_id", "source_collection") \/ (k1, k2) = ("target_id", "target_collection")) /\
  (forall coll id l w, arm coll id (Some l) w = weight_constraint (map_insert "edge_type"
     (VObject [("$in", json_strings (edge_type_str <$> l))]) (map_insert k2 (VString coll) (map_insert k1 (VString id) []))) w) /\
  (forall coll id w, arm_nin coll id w = weight_constraint (map_insert "edge_type"
     (VObject [("$nin", json_strings AUTO_EDGE_TYPE_NAMES)]) (map_insert k2 (VString coll) (map_insert k1 (VString id) []))) w).
Lemma source_is_arm : is_arm "source_id" "source_collection" source_arm_filter source_arm_filter_nin_auto.
Proof. split; [by left|done]. Qed.
Lemma target_is_arm : is_arm "target_id" "target_collection" target_arm_filter target_arm_filter_nin_auto.
Proof. split; [by right|done]. Qed.

Lemma arm_partition k1 k2 arm arm_nin types coll id min_weight doc e :
  is_arm k1 k2 arm arm_nin -> named_edge doc e -> proper_type (e_type e) -> (forall l, types = Some l -> Forall proper_type l) ->
  let '(auto, meaningful) := partition_edge_types types in
  let touches := bool_decide (str_field doc k2 = Some coll) && bool_decide (str_field doc k1 = Some id) in
  let a := selects (auto_filter arm auto coll id min_weight) doc in
  let m := selects (meaningful_filter arm arm_nin meaningful coll id min_weight) doc in
  a = is_auto_derived (e_type e) && (weight_allowed min_weight doc && type_allowed types (e_type e) && touches) /\
  m = negb (is_auto_derived (e_type e)) && (weight_allowed min_weight doc && type_allowed types (e_type e) && touches).
Proof.
  intros (Hk & Harm & Hnin) (Hm & Hp & Ht%str_field_get) Hpt Hpl.
  assert (Hin : forall l, Forall proper_type l -> filter_sem doc (VObject (arm coll id (Some l) min_weight)) =
    weight_allowed min_weight doc && (bool_decide (e_type e ∈ l) &&
      (bool_decide (str_field doc k2 = Some coll) && bool_decide (str_field doc k1 = Some id)))).
  { intros l Hl. erewrite Harm, arm_selects by done. by erewrite in_field, types_named by done. }
  assert (Hno : filter_sem doc (VObject (arm_nin coll id min_weight)) =
    weight_allowed min_weight doc && (negb (is_auto_derived (e_type e)) &&
      (bool_decide (str_field doc k2 = Some coll) && bool_decide (str_field doc k1 = Some id)))).
  { erewrite Hnin, arm_selects by done. by erewrite nin_field, auto_named by done. }
  set (w := weight_allowed min_weight doc) in *. set (b := bool_decide _ && bool_decide _) in *.
  assert (Hsub : forall l f, Forall proper_type l -> Forall proper_type (List.filter f l)).
  { intros l f Hl. rewrite Forall_forall in *. intros x [Hx _]%elem_of_List_filter. by apply Hl. }
  assert (Hmem : forall f l, bool_decide (e_type e ∈ List.filter f l) = f (e_type e) && bool_decide (e_type e ∈ l)).
  { intros f l. rewrite (bool_decide_ext _ _ (elem_of_List_filter f (e_type e) l)). rewrite bool_decide_and.
    destruct (f (e_type e)); cbn; repeat case_bool_decide; naive_solver. }
  destruct types as [l|]; cbn [partition_edge_types type_allowed].
  - specialize (Hpl l eq_refl). split.
    + assert (E : selects (auto_filter arm (match List.filter is_auto_derived l with [] => None | _ => Some (List.filter is_auto_derived l) end) coll id min_weight) doc =
        w && (bool_decide (e_type e ∈ List.filter is_auto_derived l) && b)).
      { destruct (List.filter is_auto_derived l) eqn:El; [by rewrite bool_decide_eq_false_2, andb_false_r by set_solver|].
        cbn [auto_filter fmap option_fmap option_map selects]. rewrite <-El. by apply Hin, Hsub. }
      etransitivity; [exact E|]. rewrite Hmem. by destruct w, (is_auto_derived (e_type e)), (bool_decide _).
    + set (f := fun t => negb (is_auto_derived t)).
      assert (E : selects (meaningful_filter arm arm_nin (match List.filter f l with [] => Skip | _ => InTypes (List.filter f l) end) coll id min_weight) doc =
        w && (bool_decide (e_type e ∈ List.filter f l) && b)).
      { destruct (List.filter f l) eqn:El; [by rewrite bool_decide_eq_false_2, andb_false_r by set_solver|].
        cbn [meaningful_filter selects]. rewrite <-El. by apply Hin, Hsub. }
      etransitivity; [exact E|]. rewrite Hmem. unfold f. by destruct w, (is_auto_derived (e_type e)), (bool_decide _).
  - cbn [auto_filter meaningful_filter fmap option_fmap option_map selects]. rewrite Hin, Hno.
    + change (bool_decide (e_type e ∈ [SameSession; Temporal; TagOverlap])) with (in_types (e_type e) [SameSession; Temporal; TagOverlap]).
      replace (in_types _ _) with (is_auto_derived (e_type e)); [by destruct w, (is_auto_derived (e_type e))|].
      unfold in_types. destruct (e_type e); cbn; case_bool_decide; set_solver.
    + repeat (apply Forall_cons; split; [by intros ? [=]|]); constructor.
Qed.
End arms.
