(* ===== verification/Traversal.v ===== *)
(** * The walk of the knowledge graph ([crates/embra-brain/src/knowledge])

    [traverse_multi] of [traversal.rs] with the node store of
    [node_store.rs]: a breadth-first walk, level by level, over the merged
    windows of each node. The database is two functions, the query of an arm
    and the read of a document; within one walk they do not change. *)

From S2P Require Import Prelude Bytes F64 Json Errors Externals Filter Secondary Sort Text Edges.
From Stdlib Require Import Ascii.

(** ** Nodes ([types.rs], [node_store.rs]) *)

Inductive SemanticCategory := Fact_ | Preference | Decision_ | Observation | Pattern.
Definition category_str (c : SemanticCategory) : string :=
  match c with Fact_ => "fact" | Preference => "preference" | Decision_ => "decision" | Observation => "observation"
             | Pattern => "pattern" end.
Definition all_categories : list SemanticCategory := [Fact_; Preference; Decision_; Observation; Pattern].
(** None of the names has a letter that is the lower case of another than its
    capital, as for the edge types. *)
Definition category_from_str (s : string) : option SemanticCategory :=
  let name := ascii_lowercase (trim s) in List.find (fun c => bool_decide (category_str c = name)) all_categories.

Inductive NodeType :=
| Episodic | Semantic (category : SemanticCategory) | Procedural (title : string) | Identity_ (node_type : string).
Record GraphNode := { g_id : string; g_collection : string; content_preview_ : string; g_type : NodeType; depth : Z }.

(** The length of the character a text begins with, by its first byte. *)
Definition char_len (b : Z) : nat := if b <? 128 then 1 else if b <? 224 then 2 else if b <? 240 then 3 else 4.
Fixpoint take_chars (n : nat) (l : bytes) : bytes :=
  match n, l with
  | S n, b :: _ => take (char_len b) l ++ take_chars n (drop (char_len b) l)
  | _, _ => []
  end.
Definition content_preview (s : string) (max_chars : nat) : string :=
  let trimmed := take_chars max_chars (str_bytes s) in
  if (length trimmed <? length (str_bytes s))%nat then bytes_str trimmed +:+ "…" else bytes_str trimmed.

Definition IDENTITY_COLLECTION : string := "identity.graph".
Definition text_field (doc : Value) (k : string) : string := default EmptyString (str_field doc k).
Definition classify_knowledge_node (doc : Value) (collection : string) : option (string * NodeType) :=
  if bool_decide (collection = "memory.semantic") then
    Some (text_field doc "content", Semantic (default Fact_ (str_field doc "category" ≫= category_from_str)))
  else if bool_decide (collection = "memory.procedural") then
    Some (text_field doc "description", Procedural (text_field doc "title"))
  else if bool_decide (collection = IDENTITY_COLLECTION) then
    Some (text_field doc "content", Identity_ (text_field doc "node_type"))
  else None.
Definition graph_node_from_doc (doc : Value) (collection id : string) (depth : Z) : GraphNode :=
  let '(preview_source, node_type) :=
    match classify_knowledge_node doc collection with
    | Some classified => classified
    | None => if bool_decide (collection = "memory.entries") then (text_field doc "content", Episodic) else (EmptyString, Episodic)
    end in
  {| g_id := id; g_collection := collection; content_preview_ := content_preview preview_source 200; g_type := node_type;
     depth := depth |}.

(** [NodeStore]: the documents at hand, by collection and id. *)
Abbreviation NodeStore := (gmap NodeKey Value).
Definition insert_docs (collection : string) (docs : list Value) (store : NodeStore) : NodeStore :=
  foldl (fun store doc => match str_field doc "_id" with
                          | Some id => <[(collection, id) := doc]> store
                          | None => store
                          end) store docs.

Record TraversalResult := {
  nodes : list GraphNode;
  edges : list KnowledgeEdge;
  depth_reached : Z;
  nodes_visited : Z;
  truncated : bool;
}.
Record Config := { depth_ceiling : Z; edge_limit : Z; node_budget : Z }.

(** ** The walk *)

Definition seed_step (s : gset NodeKey * list NodeKey) (k : NodeKey) : gset NodeKey * list NodeKey :=
  if decide (k ∈ s.1) then s else ({[k]} ∪ s.1, s.2 ++ [k]).
Definition seed_level (starts : list NodeKey) : gset NodeKey * list NodeKey := foldl seed_step (∅, []) starts.

(** The loop of [expand_node_edges]: what is admitted, in order. *)
Fixpoint admit_edges (coll id : string) (l : list KnowledgeEdge) (visited : gset NodeKey)
  : list (KnowledgeEdge * NodeKey) * gset NodeKey :=
  match l with
  | [] => ([], visited)
  | edge :: l =>
      let key := neighbor_of edge coll id in
      if decide (key ∈ visited) then admit_edges coll id l visited
      else let '(admitted, visited) := admit_edges coll id l ({[key]} ∪ visited) in ((edge, key) :: admitted, visited)
  end.
(** [len() as u32] keeps the low 32 bits. *)
Definition expand_node_edges (coll id : string) (l : list KnowledgeEdge) (visited : gset NodeKey) (budget : Z)
  : list (KnowledgeEdge * NodeKey) * bool * gset NodeKey :=
  if budget <=? wrap32 (Z.of_nat (size visited)) then ([], true, visited)
  else let '(admitted, visited) := admit_edges coll id l visited in (admitted, false, visited).

Section walk.
Context `{SerdeJson}.
(** [db.query("memory.edges", body)] and [db.read(collection, id)]. *)
Context (db_query : Value -> result string (list Value)) (db_read : string -> string -> option Value).
Context (config : Config) (types : option (list EdgeType)) (min_weight : option f64).

Definition get_or_fetch (store : NodeStore) (k : NodeKey) : option Value * NodeStore :=
  match store !! k with
  | Some doc => (Some doc, store)
  | None => match db_read k.1 k.2 with
            | Some doc => (Some doc, <[k := doc]> store)
            | None => (None, store)
            end
  end.

Definition run_arm (body : option Value) : result string (list Value) :=
  match body with Some b => db_query b | None => Ok [] end.

(** The four queries of a node, and their windows: the meaningful edges, then
    the automatic ones. [None] when a query failed: the node is skipped. *)
Definition arm_body (filter : option (list (string * Value))) (limit : Z) : option Value :=
  (fun f => edge_query_body f limit) <$> filter.
Definition fetch_hop (k : NodeKey) : option (list KnowledgeEdge) :=
  let '(coll, id) := k in
  let '(auto, meaningful) := partition_edge_types types in
  let a_src := run_arm (arm_body (auto_filter source_arm_filter auto coll id min_weight) (edge_limit config)) in
  let a_tgt := run_arm (arm_body (auto_filter target_arm_filter auto coll id min_weight) (edge_limit config)) in
  let m_src := run_arm (arm_body (meaningful_filter source_arm_filter source_arm_filter_nin_auto meaningful coll id min_weight)
                         MEANINGFUL_EDGE_LIMIT) in
  let m_tgt := run_arm (arm_body (meaningful_filter target_arm_filter target_arm_filter_nin_auto meaningful coll id min_weight)
                         MEANINGFUL_EDGE_LIMIT) in
  match a_src, a_tgt, m_src, m_tgt with
  | Ok a_src, Ok a_tgt, Ok m_src, Ok m_tgt =>
      Some ((merge_arm_edges m_src m_tgt MEANINGFUL_EDGE_LIMIT).1 ++ (merge_arm_edges a_src a_tgt (edge_limit config)).1)
  | _, _, _, _ => None
  end.

(** What the walk has so far. *)
Record Walk := {
  visited : gset NodeKey;
  store : NodeStore;
  w_nodes : list GraphNode;
  w_edges : list KnowledgeEdge;
  w_depth : Z;
  w_truncated : bool;
}.

(** The start nodes, at depth 0. *)
Definition seed_nodes (level : list NodeKey) (store : NodeStore) : list GraphNode * NodeStore :=
  foldl (fun '(nodes, store) k =>
    let '(doc, store) := get_or_fetch store k in
    (match doc with Some doc => nodes ++ [graph_node_from_doc doc k.1 k.2 0] | None => nodes end, store)) ([], store) level.

(** The loop over what an expansion admitted: a neighbour whose document is
    there joins the result and the next level. *)
Fixpoint take_admitted (next_depth : Z) (admitted : list (KnowledgeEdge * NodeKey)) (w : Walk) (next : list NodeKey)
  : Walk * list NodeKey :=
  match admitted with
  | [] => (w, next)
  | (edge, k) :: admitted =>
      let '(doc, st) := get_or_fetch (store w) k in
      match doc with
      | Some doc =>
          take_admitted next_depth admitted
            {| visited := visited w; store := st; w_nodes := w_nodes w ++ [graph_node_from_doc doc k.1 k.2 next_depth];
               w_edges := w_edges w ++ [edge]; w_depth := Z.max next_depth (w_depth w); w_truncated := w_truncated w |}
            (next ++ [k])
      | None =>
          take_admitted next_depth admitted
            {| visited := visited w; store := st; w_nodes := w_nodes w; w_edges := w_edges w; w_depth := w_depth w;
               w_truncated := w_truncated w |} next
      end
  end.

(** The loop over the fetches of one level. *)
Fixpoint process_level (d : Z) (level : list NodeKey) (w : Walk) (next : list NodeKey) : Walk * list NodeKey :=
  match level with
  | [] => (w, next)
  | k :: level =>
      match fetch_hop k with
      | None => process_level d level w next
      | Some l =>
          let '(admitted, budget_hit, seen) := expand_node_edges k.1 k.2 l (visited w) (node_budget config) in
          if budget_hit then
            ({| visited := seen; store := store w; w_nodes := w_nodes w; w_edges := w_edges w; w_depth := w_depth w;
                w_truncated := true |}, next)
          else
            let '(w, next) := take_admitted (d + 1) admitted
              {| visited := seen; store := store w; w_nodes := w_nodes w; w_edges := w_edges w; w_depth := w_depth w;
                 w_truncated := w_truncated w |} next in
            process_level d level w next
      end
  end.

(** The [while] loop; [remaining] is what remains of the depth. *)
Fixpoint walk_levels (remaining : nat) (d : Z) (level : list NodeKey) (w : Walk) : Walk :=
  match remaining, level with
  | S remaining, _ :: _ =>
      if w_truncated w then w
      else let '(w, next) := process_level d level w [] in walk_levels remaining (d + 1) next w
  | _, _ => w
  end.

Definition traverse_multi (starts : list NodeKey) (max_depth : Z) (st : NodeStore) : TraversalResult * NodeStore :=
  let max_depth := Z.min max_depth (depth_ceiling config) in
  let '(seen, level) := seed_level starts in
  let '(seeds, st) := seed_nodes level st in
  let w := walk_levels (Z.to_nat max_depth) 0 level
             {| visited := seen; store := st; w_nodes := seeds; w_edges := []; w_depth := 0; w_truncated := false |} in
  ({| nodes := w_nodes w; edges := w_edges w; depth_reached := w_depth w; nodes_visited := Z.of_nat (size (visited w));
      truncated := w_truncated w |}, store w).
End walk.

(** ** The graph a walk sees *)

Section graph.
Context `{SerdeJson}.
Context (db_query : Value -> result string (list Value)) (db_read : string -> string -> option Value).
Context (config : Config) (types : option (list EdgeType)) (min_weight : option f64).
Context (starts : list NodeKey) (st0 : NodeStore).

#[local] Abbreviation hop := (fetch_hop db_query config types min_weight).
#[local] Abbreviation fetch := (get_or_fetch db_read).

(** The document of a node, wherever it is read from. *)
Definition doc_of (st : NodeStore) (k : NodeKey) : option Value :=
  match st !! k with Some doc => Some doc | None => db_read k.1 k.2 end.
Definition live (k : NodeKey) : Prop := is_Some (doc_of st0 k).
(** An edge of the windows of [p] leads to [k]. *)
Definition leads (p : NodeKey) (e : KnowledgeEdge) (k : NodeKey) : Prop :=
  exists l, hop p = Some l /\ e ∈ l /\ neighbor_of e p.1 p.2 = k.
Definition linked (p k : NodeKey) : Prop := exists e, leads p e k.
(** A node in so many steps from the starts, over nodes that exist. *)
Inductive reach : nat -> NodeKey -> Prop :=
| reach_start k : k ∈ starts -> reach 0 k
| reach_step d p k : reach d p -> linked p k -> live k -> reach (S d) k.
(** Its distance. *)
Definition dist (d : nat) (k : NodeKey) : Prop := reach d k /\ forall d', (d' < d)%nat -> ~ reach d' k.
(** What the walk has looked at once a level is done. *)
Definition seen (d : nat) (k : NodeKey) : Prop :=
  (exists d', (d' <= d)%nat /\ reach d' k) \/ (exists d' p, (d' < d)%nat /\ reach d' p /\ linked p k).

Definition node_key (n : GraphNode) : NodeKey := (g_collection n, g_id n).
Definition keyed (n : GraphNode) : NodeKey * Z := (node_key n, depth n).

(** Distances are found one step at a time. *)
Lemma dist_unique d d' k : dist d k -> dist d' k -> d = d'.
Proof.
  intros [H1 M1] [H2 M2]. destruct (Nat.lt_trichotomy d d') as [L|[E|L]]; [by destruct (M2 d L)|done|by destruct (M1 d' L)].
Qed.
(** The nodes in [d] steps, as a list: reaching is decidable. *)
Definition neighbors (p : NodeKey) : list NodeKey :=
  (fun e => neighbor_of e p.1 p.2) <$> default [] (hop p).
Fixpoint layer (d : nat) : list NodeKey :=
  match d with
  | O => starts
  | S d => List.filter (fun k => bool_decide (is_Some (doc_of st0 k))) (layer d ≫= neighbors)
  end.
Lemma linked_neighbors p k : linked p k <-> k ∈ neighbors p.
Proof.
  unfold linked, leads, neighbors. rewrite list_elem_of_fmap. split.
  - intros (e & l & Hl & He & Hk). exists e. rewrite Hl. by split.
  - intros (e & Hk & He). destruct (hop p) as [l|]; cbn in He; [|by apply elem_of_nil in He]. by exists e, l.
Qed.
Lemma reach_layer d k : reach d k <-> k ∈ layer d.
Proof.
  revert k. induction d as [|d IH]; intros k; cbn [layer].
  - split; [by inversion 1|by constructor].
  - rewrite elem_of_List_filter, bool_decide_eq_true, list_elem_of_bind. split.
    + inversion 1 as [|? p ? Hp Hl Hk]; subst. split; [|done]. exists p. by rewrite <-IH, <-linked_neighbors.
    + intros [(p & Hk & Hp) Hl]. apply (reach_step d p); [by apply IH|by apply linked_neighbors|done].
Qed.
#[local] Instance reach_dec d k : Decision (reach d k).
Proof. refine (cast_if (decide (k ∈ layer d))); by rewrite reach_layer. Defined.

Lemma reach_dist d k : reach d k -> exists d', (d' <= d)%nat /\ dist d' k.
Proof.
  induction d as [d IH] using lt_wf_ind. intros Hr.
  destruct (decide (Exists (fun d' => reach d' k) (seq 0 d))) as [He|He].
  - apply Exists_exists in He as (d' & [_ Hlt]%elem_of_seq & Hr'). destruct (IH d') as (d'' & ? & ?); [lia|done|]. exists d''. split; [lia|done].
  - exists d. split; [done|]. split; [done|]. intros d' Hlt Hr'. apply He, Exists_exists. exists d'. split; [|done]. apply elem_of_seq. lia.
Qed.

(** ** One level in terms of the graph *)

Lemma seen_next d k : seen (S d) k <-> seen d k \/ exists p, dist d p /\ linked p k.
Proof.
  split.
  - intros [(d' & Hle & Hr)|(d' & p & Hlt & Hr & Hl)].
    + destruct (decide (d' = S d)) as [->|]; [|left; left; exists d'; split; [lia|done]].
      inversion Hr as [|? p ? Hp Hl Hk]; subst. destruct (reach_dist d p Hp) as (d' & Hle' & Hd).
      destruct (decide (d' = d)) as [->|]; [right; by exists p|]. left; right. exists d', p. split; [lia|]. by destruct Hd.
    + destruct (reach_dist d' p Hr) as (d'' & Hle' & Hd). destruct (decide (d'' = d)) as [->|]; [right; by exists p|].
      left; right. exists d'', p. split; [lia|]. by destruct Hd.
  - intros [[(d' & Hle & Hr)|(d' & p & Hlt & Hr & Hl)]|(p & [Hd _] & Hl)].
    + left. exists d'. split; [lia|done].
    + right. exists d', p. split; [lia|done].
    + right. exists d, p. by split; [lia|].
Qed.
Lemma dist_next d k : dist (S d) k <-> live k /\ ~ seen d k /\ exists p, dist d p /\ linked p k.
Proof.
  split.
  - intros [Hr Hm]. inversion Hr as [|? p ? Hp Hl Hk]; subst. split; [done|]. split.
    + intros [(d' & Hle & Hr')|(d' & q & Hlt & Hr' & Hl')]; [apply (Hm d'); [lia|done]|].
      apply (Hm (S d')); [lia|]. by apply (reach_step d' q).
    + exists p. split; [|done]. split; [done|]. intros d' Hlt Hr'. apply (Hm (S d')); [lia|]. by apply (reach_step d' p).
  - intros (Hk & Hs & p & [Hp _] & Hl). split; [by apply (reach_step d p)|].
    intros d' Hlt Hr. apply Hs. left. exists d'. split; [lia|done].
Qed.
Lemma dist_stops d d' k : (forall k, ~ dist d k) -> dist (d + d') k -> False.
Proof.
  intros Hn. revert k. induction d' as [|d' IH]; intros k Hd; [rewrite Nat.add_0_r in Hd; by apply (Hn k)|].
  rewrite Nat.add_succ_r in Hd. apply dist_next in Hd as (_ & _ & p & Hp & _). by apply (IH p).
Qed.

(** ** The operations of the walk *)

(** The store answers as at the start, whatever has been cached. *)
Definition same_docs (st : NodeStore) : Prop := forall k, doc_of st k = doc_of st0 k.
Lemma fetch_spec st k doc st' : same_docs st -> fetch st k = (doc, st') -> doc = doc_of st0 k /\ same_docs st'.
Proof.
  unfold same_docs, get_or_fetch. intros Hs. pose proof (Hs k) as Hk. unfold doc_of in Hk at 1.
  destruct (st !! k) as [d|] eqn:E; [by intros [= <- <-]|].
  destruct (db_read k.1 k.2) as [d|] eqn:R; intros [= <- <-]; [|by split].
  split; [done|]. intros k'. unfold doc_of at 1. destruct (decide (k' = k)) as [->|].
  - by rewrite lookup_insert_eq.
  - rewrite lookup_insert_ne by done. apply Hs.
Qed.

Lemma graph_node_keyed doc k d : keyed (graph_node_from_doc doc k.1 k.2 d) = (k, d).
Proof. unfold graph_node_from_doc. case_match. by destruct k. Qed.

Lemma seed_level_spec : let '(vis, level) := seed_level starts in
  NoDup level /\ (forall k, k ∈ level <-> k ∈ starts) /\ (forall k, k ∈ vis <-> k ∈ starts).
Proof.
  unfold seed_level.
  assert (Hgen : forall l (vis : gset NodeKey) level, NoDup level -> (forall k, k ∈ vis <-> k ∈ level) ->
    let '(vis', level') := foldl seed_step (vis, level) l in
    NoDup level' /\ (forall k, k ∈ level' <-> k ∈ level \/ k ∈ l) /\ (forall k, k ∈ vis' <-> k ∈ level')).
  { induction l as [|x l IH]; intros vis level Hn Hv; cbn [foldl].
    - split_and!; [done| |done]. set_solver.
    - unfold seed_step at 2. cbn [fst snd]. case_decide as Hx.
      + specialize (IH vis level Hn Hv). destruct (foldl seed_step (vis, level) l) as [vis' level'].
        destruct IH as (Hn' & Hl & Hv'). split_and!; [done| |done]. apply Hv in Hx. set_solver.
      + assert (Hn1 : NoDup (level ++ [x])).
        { apply NoDup_app. split_and!; [done| |apply NoDup_singleton]. intros y Hy ->%list_elem_of_singleton. apply Hx. by apply Hv. }
        assert (Hv1 : forall k, k ∈ {[x]} ∪ vis <-> k ∈ level ++ [x]) by set_solver.
        specialize (IH _ _ Hn1 Hv1). destruct (foldl seed_step ({[x]} ∪ vis, level ++ [x]) l) as [vis' level'].
        destruct IH as (Hn' & Hl & Hv'). split_and!; [done| |done]. set_solver. }
  specialize (Hgen starts ∅ [] (NoDup_nil_2) ltac:(set_solver)).
  destruct (foldl seed_step (∅, []) starts) as [vis level]. destruct Hgen as (Hn & Hl & Hv). split_and!; [done|set_solver..].
Qed.

Lemma admit_spec coll id l vis adm vis' : admit_edges coll id l vis = (adm, vis') ->
  NoDup (adm.*2) /\ (forall k, k ∈ adm.*2 <-> k ∉ vis /\ exists e, e ∈ l /\ neighbor_of e coll id = k) /\
  Forall (fun x => x.1 ∈ l /\ neighbor_of x.1 coll id = x.2) adm /\
  (forall k, k ∈ vis' <-> k ∈ vis \/ exists e, e ∈ l /\ neighbor_of e coll id = k).
Proof.
  revert vis adm vis'. induction l as [|e l IH]; intros vis adm vis'; cbn [admit_edges].
  { intros [= <- <-]. split_and!; [constructor| |constructor|]; set_solver. }
  case_decide as Hk.
  - intros (Hn & Hi & Hf & Hv)%IH. split_and!.
    + done.
    + intros k. rewrite Hi. set_solver.
    + eapply Forall_impl; [exact Hf|]. intros x [? ?]. split; [by right|done].
    + intros k. rewrite Hv. set_solver.
  - destruct (admit_edges coll id l ({[neighbor_of e coll id]} ∪ vis)) as [adm1 vis1] eqn:E. intros [= <- <-].
    destruct (IH _ _ _ E) as (Hn & Hi & Hf & Hv). split_and!.
    + rewrite fmap_cons. apply NoDup_cons. split; [|done]. rewrite Hi. set_solver.
    + intros k. rewrite fmap_cons, elem_of_cons, Hi. cbn. split.
      * intros [->|[Hnk (e' & ? & ?)]]; [split; [done|]; exists e; split; [by left|done]|].
        split; [set_solver|]. exists e'. split; [by right|done].
      * intros [Hnk (e' & [->|Hin]%elem_of_cons & <-)]; [by left|].
        destruct (decide (neighbor_of e' coll id = neighbor_of e coll id)) as [E'|]; [by left|right].
        split; [set_solver|]. by exists e'.
    + constructor; [by split; [left|]|]. eapply Forall_impl; [exact Hf|]. intros x [? ?]. split; [by right|done].
    + intros k. rewrite Hv. set_solver.
Qed.

Definition greatest (l : list Z) : Z := foldr Z.max 0 l.
Lemma greatest_app l k : greatest (l ++ k) = Z.max (greatest l) (greatest k).
Proof.
  assert (H0 : forall l, 0 <= greatest l) by (induction l0; simpl; lia).
  induction l as [|x l IH]; cbn; [specialize (H0 k); fold (greatest k); lia|]. fold (greatest (l ++ k)) (greatest l). lia.
Qed.

(** The admitted pairs whose node exists. *)
Definition existing (adm : list (KnowledgeEdge * NodeKey)) : list (KnowledgeEdge * NodeKey) :=
  List.filter (fun x => bool_decide (is_Some (doc_of st0 x.2))) adm.

(** A result in progress: the store is sound and the depth is the greatest. *)
Definition walk_ok (w : Walk) : Prop := same_docs (store w) /\ w_depth w = greatest ((keyed <$> w_nodes w).*2).

Lemma take_admitted_spec d adm w next w' next' : 0 <= d -> walk_ok w ->
  take_admitted db_read d adm w next = (w', next') ->
  walk_ok w' /\ visited w' = visited w /\ w_truncated w' = w_truncated w /\
  keyed <$> w_nodes w' = (keyed <$> w_nodes w) ++ ((fun x => (x.2, d)) <$> existing adm) /\
  w_edges w' = w_edges w ++ (existing adm).*1 /\ next' = next ++ (existing adm).*2.
Proof.
  intros H0. revert w next. induction adm as [|[e k] adm IH]; intros w next [Hs Hd]; cbn [take_admitted].
  { intros [= <- <-]. by rewrite !app_nil_r. }
  destruct (fetch (store w) k) as [doc st] eqn:Hf. destruct (fetch_spec _ _ _ _ Hs Hf) as [-> Hs'].
  unfold existing. cbn [List.filter snd]. fold (existing adm). destruct (doc_of st0 k) as [doc|] eqn:Hk.
  - rewrite bool_decide_eq_true_2 by eauto. intros Hr.
    apply IH in Hr as (Hok & Hv & Ht & Hn & He & Hx); last first.
    { split; [done|]. cbn [w_depth w_nodes]. rewrite fmap_app, fmap_app, greatest_app, <-Hd. cbn [fmap list_fmap].
      rewrite graph_node_keyed. cbn. lia. }
    cbn [visited w_truncated w_nodes w_edges] in *.
    rewrite Hn, He, Hx, fmap_app, <-!app_assoc. cbn [fmap list_fmap]. by rewrite graph_node_keyed.
  - rewrite bool_decide_eq_false_2 by (by intros [? ?]). intros Hr. by apply IH in Hr.
Qed.

(** Part of a level done: [p] of it are expanded. *)
Record level_done (seen0 : gset NodeKey) (p : list NodeKey) (vis : gset NodeKey) (next : list NodeKey) : Prop := {
  ld_visited : forall k, k ∈ vis <-> k ∈ seen0 \/ exists q, q ∈ p /\ linked q k;
  ld_nodup : NoDup next;
  ld_next : forall k, k ∈ next <-> live k /\ k ∉ seen0 /\ exists q, q ∈ p /\ linked q k;
}.

(** Expanding one more node. *)
Lemma level_step seen0 p q l adm vis vis' next : level_done seen0 p vis next -> hop q = Some l ->
  admit_edges q.1 q.2 l vis = (adm, vis') -> level_done seen0 (p ++ [q]) vis' (next ++ (existing adm).*2).
Proof.
  intros [Hv Hn Hx] Hl (Ha & Hi & _ & Hv')%admit_spec.
  assert (Hq : forall k, linked q k <-> exists e, e ∈ l /\ neighbor_of e q.1 q.2 = k).
  { intros k. unfold linked, leads. rewrite Hl. naive_solver. }
  assert (Hp : forall k, (exists q', q' ∈ p ++ [q] /\ linked q' k) <-> (exists q', q' ∈ p /\ linked q' k) \/ linked q k).
  { intros k. setoid_rewrite elem_of_app. setoid_rewrite list_elem_of_singleton. naive_solver. }
  assert (Hex : forall k, k ∈ (existing adm).*2 <-> live k /\ k ∈ adm.*2).
  { intros k. unfold existing, live. rewrite !list_elem_of_fmap. setoid_rewrite elem_of_List_filter.
    setoid_rewrite bool_decide_eq_true. naive_solver. }
  split.
  - intros k. rewrite Hv', Hv, Hp, <-Hq. tauto.
  - apply NoDup_app. split_and!; [done| |].
    + intros k Hk [_ Hk']%Hex. apply Hi in Hk' as [Hk' _]. apply Hx in Hk as (_ & _ & Hk). apply Hk', Hv. by right.
    + unfold existing. clear -Ha. induction adm as [|x adm IH]; cbn; [constructor|]. rewrite fmap_cons in Ha.
      apply NoDup_cons in Ha as [Hx Ha]. specialize (IH Ha). destruct (bool_decide _); [|done]. rewrite fmap_cons. apply NoDup_cons.
      split; [|done]. intros (y & E & Hy)%list_elem_of_fmap. apply elem_of_List_filter in Hy as [Hy _]. apply Hx. rewrite E. by apply list_elem_of_fmap_2.
  - intros k. rewrite elem_of_app, Hx, Hex, Hi, Hp, Hv, <-Hq.
    destruct (decide (k ∈ seen0)); [tauto|].
    assert (Hdec : (exists q', q' ∈ p /\ linked q' k) \/ ~ exists q', q' ∈ p /\ linked q' k).
    { destruct (decide (Exists (fun q' => k ∈ neighbors q') p)) as [He|He]; rewrite Exists_exists in He; setoid_rewrite <-linked_neighbors in He; tauto. }
    tauto.
Qed.
Lemma level_skip seen0 p q vis next : level_done seen0 p vis next -> hop q = None -> level_done seen0 (p ++ [q]) vis next.
Proof.
  intros [Hv Hn Hx] Hq.
  assert (Hp : forall k, (exists q', q' ∈ p ++ [q] /\ linked q' k) <-> (exists q', q' ∈ p /\ linked q' k)).
  { intros k. setoid_rewrite elem_of_app. setoid_rewrite list_elem_of_singleton. split.
    - intros (q' & [Hin| ->] & Hl); [by exists q'|]. destruct Hl as (e & l & Hl & _). congruence.
    - intros (q' & Hin & Hl). exists q'. split; [by left|done]. }
  split; [|done|]; intros k; by rewrite Hp.
Qed.

(** The edge that found a node at a step from the nodes [q]. *)
Definition found_from (q : list NodeKey) (e : KnowledgeEdge) (k : NodeKey) : Prop := exists p, p ∈ q /\ leads p e k.

(** What a level adds: [q] of it are expanded, [k] are the new nodes. *)
Record level_adds (seen0 : gset NodeKey) (p q : list NodeKey) (d : Z) (w w' : Walk) (k : list NodeKey) (next next' : list NodeKey)
  : Prop := {
  la_done : level_done seen0 (p ++ q) (visited w') next';
  la_ok : walk_ok w';
  la_next : next' = next ++ k;
  la_nodes : keyed <$> w_nodes w' = (keyed <$> w_nodes w) ++ ((., d) <$> k);
  la_edges : exists es, w_edges w' = w_edges w ++ es /\ Forall2 (found_from q) es k;
  la_budget : w_truncated w' = true -> node_budget config <= wrap32 (Z.of_nat (size (visited w')));
}.

Lemma admitted_found q l vis adm vis' : hop q = Some l -> admit_edges q.1 q.2 l vis = (adm, vis') ->
  Forall2 (found_from [q]) (existing adm).*1 (existing adm).*2.
Proof.
  intros Hl (_ & _ & Hf & _)%admit_spec.
  induction Hf as [|[e k] adm [He Hk] Hf IH]; [constructor|]. unfold existing. cbn [List.filter]. fold (existing adm).
  destruct (bool_decide _); [|done]. rewrite !fmap_cons. constructor; [|done]. exists q. split; [by left|by exists l].
Qed.
Lemma found_from_mono q q' es ks : q ⊆ q' -> Forall2 (found_from q) es ks -> Forall2 (found_from q') es ks.
Proof. intros Hq Hf. eapply Forall2_impl; [exact Hf|]. intros e k (p & Hp & Hl). exists p. split; [by apply Hq|done]. Qed.

Lemma process_level_spec seen0 d level p w next w' next' : 0 <= d ->
  level_done seen0 p (visited w) next -> walk_ok w -> w_truncated w = false ->
  process_level db_query db_read config types min_weight d level w next = (w', next') ->
  exists q k, level_adds seen0 p q (d + 1) w w' k next next' /\ q ⊆ level /\ (w_truncated w' = false -> q = level).
Proof.
  intros Hd. revert p w next. induction level as [|x level IH]; intros p w next Hdone Hok Htr; cbn [process_level].
  { intros [= <- <-]. exists [], []. split; [|done]. split; rewrite ?app_nil_r; try done.
    - exists []. by rewrite app_nil_r.
    - by rewrite Htr. }
  destruct (hop x) as [l|] eqn:Hl.
  2:{ intros Hr. destruct (IH _ _ _ (level_skip _ _ x _ _ Hdone Hl) Hok Htr Hr) as (q & k & [A1 A2 A3 A4 A5 A6] & Hq & Hfull).
      exists (x :: q), k. split; [|split; [set_solver|intros Ht'; f_equal; by apply Hfull]].
      split; try done; [by rewrite cons_middle, app_assoc|]. destruct A5 as (es & He & Hf). exists es. split; [done|].
      eapply found_from_mono, Hf. set_solver. }
  unfold expand_node_edges. destruct (Z.leb_spec (node_budget config) (wrap32 (Z.of_nat (size (visited w))))) as [Hb|Hb]; cbn beta iota zeta.
  { intros [= <- <-]. exists [], []. split; [|split; [set_solver|done]]. split; rewrite ?app_nil_r; cbn; try done.
    - exists []. by rewrite app_nil_r. }
  destruct (admit_edges x.1 x.2 l (visited w)) as [adm vis] eqn:Ha. cbn beta iota zeta.
  destruct (take_admitted db_read (d + 1) adm _ next) as [w1 next1] eqn:Ht. intros Hr.
  pose proof (level_step _ _ _ _ _ _ _ _ Hdone Hl Ha) as Hstep. pose proof (admitted_found _ _ _ _ _ Hl Ha) as Hf1.
  apply take_admitted_spec in Ht as (Hok1 & Hv1 & Ht1 & Hn1 & He1 & Hx1); [|lia|done].
  cbn [visited w_truncated w_nodes w_edges] in *. subst next1. rewrite <-Hv1 in Hstep. rewrite Htr in Ht1.
  destruct (IH _ _ _ Hstep Hok1 Ht1 Hr) as (q & k & [A1 A2 A3 A4 A5 A6] & Hq & Hfull).
  exists (x :: q), ((existing adm).*2 ++ k). split; [|split; [set_solver|intros Ht'; f_equal; by apply Hfull]].
  split; try done.
  - by rewrite cons_middle, app_assoc.
  - by rewrite app_assoc.
  - rewrite A4, Hn1, fmap_app, <-app_assoc. by rewrite <-list_fmap_compose.
  - destruct A5 as (es & He & Hf). exists ((existing adm).*1 ++ es). rewrite He, He1, app_assoc. split; [done|].
    apply Forall2_app; eapply found_from_mono; [|exact Hf1| |exact Hf]; set_solver.
Qed.

(** ** The walk, level by level *)

(** An edge from a node one step nearer. *)
Definition spans (e : KnowledgeEdge) (x : NodeKey * Z) : Prop :=
  exists d p, dist d p /\ x.2 = Z.of_nat d + 1 /\ leads p e x.1.

(** What a walk has found is sound up to distance [d]. *)
Record walk_sound (d : nat) (w : Walk) : Prop := {
  ws_ok : walk_ok w;
  ws_nodup : NoDup (keyed <$> w_nodes w).*1;
  ws_sound : forall k z, (k, z) ∈ keyed <$> w_nodes w -> live k /\ exists d', (d' <= d)%nat /\ z = Z.of_nat d' /\ dist d' k;
  ws_edges : exists seeds rest, keyed <$> w_nodes w = seeds ++ rest /\ Forall (fun x => x.2 = 0) seeds /\
    Forall2 spans (w_edges w) rest;
  ws_budget : w_truncated w = true -> node_budget config <= wrap32 (Z.of_nat (size (visited w)));
}.
Definition found_all (d : nat) (w : Walk) : Prop :=
  forall d' k, (d' <= d)%nat -> dist d' k -> live k -> (k, Z.of_nat d') ∈ keyed <$> w_nodes w.
(** The level a walk has come to. *)
Record at_level (d : nat) (level : list NodeKey) (w : Walk) : Prop := {
  al_level : forall k, k ∈ level <-> dist d k;
  al_visited : forall k, k ∈ visited w <-> seen d k;
  al_found : found_all d w;
}.

Lemma dist_seen d d' k : (d' <= d)%nat -> dist d' k -> seen d k.
Proof. intros Hle [Hr _]. left. by exists d'. Qed.
Lemma walk_sound_mono d d' w : (d <= d')%nat -> walk_sound d w -> walk_sound d' w.
Proof.
  intros Hle [A1 A2 A3 A4 A5]. split; try done. intros k z (Hk & e & He & Hz)%A3. split; [done|]. exists e. split; [lia|done].
Qed.
Lemma pair_fst (l : list NodeKey) (z : Z) : ((., z) <$> l).*1 = l.
Proof. induction l as [|x l IH]; [done|]. rewrite !fmap_cons, IH. done. Qed.
Lemma level_start vis : level_done vis [] vis [].
Proof. split; [set_solver|constructor|set_solver]. Qed.

(** A whole or part of a level keeps the walk sound; a whole one comes to the
    next level. *)
Lemma level_sound d level w w' next : walk_sound d w -> at_level d level w -> w_truncated w = false ->
  process_level db_query db_read config types min_weight (Z.of_nat d) level w [] = (w', next) ->
  walk_sound (S d) w' /\ (w_truncated w' = false -> at_level (S d) next w').
Proof.
  intros [B1 B2 B3 (seeds & rest & Hsplit & Hseeds & Hspan) B5] [C1 C2 C3] Htr Hp.
  destruct (process_level_spec (visited w) (Z.of_nat d) level [] w [] w' next) as (q & k & [A1 A2 A3 A4 A5 A6] & Hq & Hfull);
    [lia|apply level_start|done..|].
  destruct A1 as [D1 D2 D3]. cbn [app] in *. subst next.
  assert (Hdist : forall x, x ∈ k -> live x /\ dist (S d) x).
  { intros x Hx. apply D3 in Hx as (Hl & Hv & p & Hp' & Hlink). split; [done|]. apply dist_next. split; [done|].
    split; [by rewrite <-C2|]. exists p. split; [|done]. by apply C1, Hq. }
  split.
  - split; try done.
    + rewrite A4, fmap_app, pair_fst.
      apply NoDup_app. split_and!; [done| |done].
      intros x (y & -> & Hy)%list_elem_of_fmap Hx. apply D3 in Hx as (_ & Hv & _). apply Hv, C2. destruct y as [y z].
      apply B3 in Hy as (_ & d' & Hle & _ & Hd). by apply (dist_seen d d').
    + intros x z. rewrite A4, elem_of_app. intros [Hx|(y & [= -> ->] & Hy)%list_elem_of_fmap].
      * apply B3 in Hx as (Hl & d' & Hle & Hz). split; [done|]. exists d'. split; [lia|done].
      * apply Hdist in Hy as [Hl Hy]. split; [done|]. exists (S d). split_and!; [lia|lia|done].
    + destruct A5 as (es & He & Hf). exists seeds, (rest ++ ((., Z.of_nat d + 1) <$> k)).
      rewrite A4, Hsplit, He, <-app_assoc. split_and!; [done..|]. apply Forall2_app; [done|]. apply Forall2_fmap_r.
      eapply Forall2_impl; [exact Hf|]. intros e x (p & Hp' & Hl). exists d, p. split_and!; [by apply C1, Hq|done..].
  - intros Ht. rewrite (Hfull Ht) in *. split.
    + intros x. rewrite D3, dist_next, C2. setoid_rewrite C1. done.
    + intros x. rewrite D1, seen_next, C2. setoid_rewrite C1. done.
    + intros d' x Hle Hd Hl. rewrite A4, elem_of_app. destruct (decide (d' = S d)) as [->|].
      * right. apply list_elem_of_fmap. exists x. split; [f_equal; lia|]. apply D3. apply dist_next in Hd as (_ & Hs & p & Hp' & Hlink).
        split_and!; [done|by rewrite C2|]. exists p. split; [by apply C1|done].
      * left. apply C3; [lia|done..].
Qed.

Lemma walk_levels_spec remaining d level w : walk_sound d w -> at_level d level w -> w_truncated w = false ->
  let w' := walk_levels db_query db_read config types min_weight remaining (Z.of_nat d) level w in
  walk_sound (d + remaining) w' /\ (w_truncated w' = false -> found_all (d + remaining) w').
Proof.
  revert d level w. induction remaining as [|n IH]; intros d level w Hs Ha Ht; cbn [walk_levels].
  { rewrite Nat.add_0_r. split; [done|]. intros _. apply Ha. }
  destruct level as [|x level].
  { split; [eapply walk_sound_mono, Hs; lia|]. intros _ d' k Hle Hd Hl. destruct Ha as [C1 C2 C3].
    destruct (decide (d' <= d)%nat) as [|Hgt]; [by apply C3|]. exfalso.
    apply (dist_stops d (d' - d) k); [intros y Hy%C1; by apply elem_of_nil in Hy|]. by replace (d + (d' - d))%nat with d' by lia. }
  rewrite Ht. destruct (process_level _ _ _ _ _ _ _ _ _) as [w' next] eqn:Hp.
  destruct (level_sound _ _ _ _ _ Hs Ha Ht Hp) as [Hs' Ha']. replace (Z.of_nat d + 1) with (Z.of_nat (S d)) by lia.
  rewrite <-Nat.add_succ_comm. destruct (w_truncated w') eqn:Ht'; [|by apply IH; [|apply Ha'|]].
  assert (Hstop : walk_levels db_query db_read config types min_weight n (Z.of_nat (S d)) next w' = w').
  { destruct n, next; cbn [walk_levels]; try done. by rewrite Ht'. }
  rewrite Hstop, Ht'. split; [eapply walk_sound_mono, Hs'; lia|done].
Qed.

Lemma seed_nodes_spec level st nodes st' : same_docs st -> seed_nodes db_read level st = (nodes, st') ->
  same_docs st' /\ keyed <$> nodes = (., 0) <$> List.filter (fun k => bool_decide (is_Some (doc_of st0 k))) level.
Proof.
  unfold seed_nodes. intros Hs.
  assert (Hgen : forall acc, same_docs st -> foldl (fun '(nodes, store) k =>
      let '(doc, store) := fetch store k in
      (match doc with Some doc => nodes ++ [graph_node_from_doc doc k.1 k.2 0] | None => nodes end, store)) (acc, st) level
      = (nodes, st') -> same_docs st' /\
    keyed <$> nodes = (keyed <$> acc) ++ ((., 0) <$> List.filter (fun k => bool_decide (is_Some (doc_of st0 k))) level)).
  { clear Hs. revert st. induction level as [|k level IH]; intros st acc Hs; cbn [foldl].
    - intros [= <- <-]. by rewrite app_nil_r.
    - destruct (fetch st k) as [doc st1] eqn:Hf. destruct (fetch_spec _ _ _ _ Hs Hf) as [-> Hs'].
      cbn [List.filter]. intros (? & ->)%(IH st1); [|done]. split; [done|]. destruct (doc_of st0 k) as [doc|].
      + rewrite bool_decide_eq_true_2 by eauto. rewrite fmap_app, <-app_assoc. cbn [fmap list_fmap app].
        by rewrite graph_node_keyed.
      + by rewrite bool_decide_eq_false_2 by (by intros [? ?]). }
  intros Hr. by apply (Hgen [] Hs) in Hr.
Qed.

Lemma walk_starts vis level nodes st' : seed_level starts = (vis, level) -> seed_nodes db_read level st0 = (nodes, st') ->
  let w := {| visited := vis; store := st'; w_nodes := nodes; w_edges := []; w_depth := 0; w_truncated := false |} in
  walk_sound 0 w /\ at_level 0 level w.
Proof.
  intros Hl Hn. pose proof seed_level_spec as Hspec. rewrite Hl in Hspec. destruct Hspec as (S1 & S2 & S3).
  apply seed_nodes_spec in Hn as (Hs & Hk); [|by intros k].
  assert (Hr : forall k, reach 0 k <-> k ∈ starts) by (intros k; split; [by inversion 1|by constructor]).
  assert (Hd : forall k, dist 0 k <-> k ∈ starts).
  { intros k. rewrite <-Hr. split; [by intros [? _]|]. intros H0. split; [done|]. lia. }
  assert (Hin : forall k z, (k, z) ∈ keyed <$> nodes <-> z = 0 /\ live k /\ k ∈ starts).
  { intros k z. rewrite Hk, list_elem_of_fmap. setoid_rewrite elem_of_List_filter. setoid_rewrite bool_decide_eq_true.
    setoid_rewrite S2. unfold live. naive_solver. }
  split; split; cbn [w_nodes w_edges visited w_depth w_truncated store].
  - split; [done|]. cbn [w_depth w_nodes]. rewrite Hk. generalize (List.filter (fun k => bool_decide (is_Some (doc_of st0 k))) level).
    induction l as [|x l IH]; [done|]. cbn in *. fold (greatest (((., 0) <$> l).*2)). lia.
  - rewrite Hk, pair_fst. by apply NoDup_ListNoDup, List.NoDup_filter, NoDup_ListNoDup.
  - intros k z (-> & Hl' & Hk')%Hin. split; [done|]. exists 0%nat. split_and!; [lia|done|by apply Hd].
  - exists (keyed <$> nodes), []. split_and!; [by rewrite app_nil_r| |constructor].
    apply Forall_forall. intros [k z] (-> & _)%Hin. done.
  - done.
  - intros k. by rewrite S2, Hd.
  - intros k. rewrite S3, <-Hr. split.
    + intros H0. left. by exists 0%nat.
    + intros [(d' & Hle & H0)|(d' & p & Hlt & _)]; [|lia]. by replace d' with 0%nat in H0 by lia.
  - intros d' k Hle Hd' Hl'. replace d' with 0%nat in * by lia. apply Hin. split_and!; [done..|by apply Hd].
Qed.

(** C13: A walk of the knowledge graph is a breadth-first search. No node is
    listed twice; every node listed exists, at its distance from the starts
    in the graph of the windows, within the bound; every node but a start
    comes with the edge that found it, from a node one step nearer; the
    depth reported is the greatest; the cache still answers as before. A walk
    that is not cut short lists every existing node within the bound, and one
    that is cut short had used its budget. *)
Theorem bfs_exact max_depth :
  let '(r, st') := traverse_multi db_query db_read config types min_weight starts max_depth st0 in
  let bound := Z.to_nat (Z.min max_depth (depth_ceiling config)) in
  NoDup (node_key <$> nodes r) /\
  (forall n, n ∈ nodes r -> live (node_key n) /\
     exists d, (d <= bound)%nat /\ depth n = Z.of_nat d /\ dist d (node_key n)) /\
  (exists seeds rest, keyed <$> nodes r = seeds ++ rest /\ Forall (fun x => x.2 = 0) seeds /\ Forall2 spans (edges r) rest) /\
  depth_reached r = greatest (depth <$> nodes r) /\
  (forall k, doc_of st' k = doc_of st0 k) /\
  (truncated r = false -> forall d k, (d <= bound)%nat -> dist d k -> live k ->
     exists n, n ∈ nodes r /\ node_key n = k /\ depth n = Z.of_nat d) /\
  (truncated r = true -> node_budget config <= wrap32 (nodes_visited r)).
Proof.
  unfold traverse_multi. destruct (seed_level starts) as [vis level] eqn:Hl.
  destruct (seed_nodes db_read level st0) as [seeds st1] eqn:Hn. cbn beta iota zeta.
  destruct (walk_starts _ _ _ _ Hl Hn) as [Hs Ha].
  pose proof (walk_levels_spec (Z.to_nat (Z.min max_depth (depth_ceiling config))) 0 level _ Hs Ha eq_refl) as Hw.
  cbn beta zeta in Hw. change (Z.of_nat 0) with 0 in Hw. set (w := walk_levels _ _ _ _ _ _ _ _ _) in *.
  destruct Hw as [[B1 B2 B3 B4 B5] Hfound]. rewrite Nat.add_0_l in *.
  cbn [nodes edges depth_reached nodes_visited truncated].
  split_and!; [|intros n Hin|done| |apply B1| |done].
  - by rewrite <-list_fmap_compose in B2.
  - by apply (list_elem_of_fmap_2 keyed), B3 in Hin as (? & d & ? & ? & ?); split; [|exists d].
  - destruct B1 as [_ ->]. by rewrite <-list_fmap_compose.
  - intros Ht d k Hle Hd Hk. destruct (proj1 (list_elem_of_fmap _ _ _) (Hfound Ht d k Hle Hd Hk)) as (n & E & Hin).
    unfold keyed in E. injection E as -> ->. by exists n.
Qed.

(** ** How much a walk looks at *)

Lemma admit_size coll id l vis adm vis' : admit_edges coll id l vis = (adm, vis') -> (size vis' <= size vis + length l)%nat.
Proof.
  revert vis adm vis'. induction l as [|e l IH]; intros vis adm vis'; cbn [admit_edges length]; [intros [= <- <-]; lia|].
  case_decide as Hk; [intros H0%IH; lia|].
  destruct (admit_edges coll id l _) as [adm1 vis1] eqn:E. intros [= <- <-]. apply IH in E.
  rewrite size_union, size_singleton in E by set_solver. lia.
Qed.
Lemma merged_length src tgt limit : 0 <= limit -> lenZ (merge_arm_edges src tgt limit).1 <= limit.
Proof. intros Hl. unfold merge_arm_edges. cbn [fst]. rewrite takeZ_take. unfold lenZ. rewrite length_take. lia. Qed.
Lemma hop_length k l : 0 <= edge_limit config -> hop k = Some l -> Z.of_nat (length l) <= edge_limit config + MEANINGFUL_EDGE_LIMIT.
Proof.
  intros He. unfold fetch_hop. destruct k as [coll id], (partition_edge_types types) as [auto m].
  destruct (run_arm db_query _) as [a1|]; [|done]. destruct (run_arm db_query _) as [a2|]; [|done].
  destruct (run_arm db_query _) as [a3|]; [|done]. destruct (run_arm db_query _) as [a4|]; [|done].
  intros [= <-]. rewrite length_app. pose proof (merged_length a1 a2 (edge_limit config) He).
  pose proof (merged_length a3 a4 MEANINGFUL_EDGE_LIMIT ltac:(done)). unfold lenZ, MEANINGFUL_EDGE_LIMIT in *. cbn [merge_arm_edges fst] in *. lia.
Qed.

Section bound.
Context (limit : Z).
Context (Hedge : 0 <= edge_limit config) (Hfit : limit < 2 ^ 32)
        (Hlimit : node_budget config + edge_limit config + MEANINGFUL_EDGE_LIMIT <= limit + 1).
Definition within (w : Walk) : Prop := Z.of_nat (size (visited w)) <= limit.

Lemma take_admitted_visited d adm w next : visited (take_admitted db_read d adm w next).1 = visited w.
Proof.
  revert w next. induction adm as [|[e k] adm IH]; intros w next; cbn [take_admitted]; [done|].
  destruct (fetch (store w) k) as [[doc|] st]; by rewrite IH.
Qed.
Lemma process_level_within d level w next : within w ->
  within (process_level db_query db_read config types min_weight d level w next).1.
Proof.
  revert w next. induction level as [|k level IH]; intros w next Hw; cbn [process_level]; [done|].
  destruct (hop k) as [l|] eqn:Hl; [|by apply IH]. unfold expand_node_edges.
  destruct (Z.leb_spec (node_budget config) (wrap32 (Z.of_nat (size (visited w))))) as [Hb|Hb]; cbn beta iota zeta; [done|].
  destruct (admit_edges k.1 k.2 l (visited w)) as [adm vis] eqn:Ha; cbn beta iota zeta.
  pose proof (take_admitted_visited (d + 1) adm {| visited := vis; store := store w; w_nodes := w_nodes w; w_edges := w_edges w;
    w_depth := w_depth w; w_truncated := w_truncated w |} next) as Hv.
  destruct (take_admitted _ _ _ _ _) as [w1 next1]. apply IH. unfold within in *. cbn [fst visited] in Hv. rewrite Hv.
  apply admit_size in Ha. apply hop_length in Hl; [|done]. unfold wrap32 in Hb. rewrite Z.mod_small in Hb by lia. lia.
Qed.
Lemma walk_levels_within n d level w : within w -> within (walk_levels db_query db_read config types min_weight n d level w).
Proof.
  revert d level w. induction n as [|n IH]; intros d level w Hw; cbn [walk_levels]; [done|].
  destruct level as [|k level]; [done|]. destruct (w_truncated w); [done|].
  pose proof (process_level_within d (k :: level) w [] Hw) as Hp. destruct (process_level _ _ _ _ _ _ _ _ _) as [w' next]. by apply IH.
Qed.
End bound.

(** C15: A walk looks at no more nodes than its starts, or its budget and one
    node's two windows of edges, whatever the graph. *)
Theorem walk_is_bounded max_depth : 0 <= edge_limit config ->
  lenZ starts < 2 ^ 32 -> node_budget config + edge_limit config + MEANINGFUL_EDGE_LIMIT <= 2 ^ 32 ->
  nodes_visited (traverse_multi db_query db_read config types min_weight starts max_depth st0).1 <=
    Z.max (lenZ starts) (node_budget config + edge_limit config + MEANINGFUL_EDGE_LIMIT - 1).
Proof.
  intros He Hs Hb. unfold traverse_multi. pose proof seed_level_spec as Hspec.
  destruct (seed_level starts) as [vis level]. destruct Hspec as (_ & _ & Hv).
  destruct (seed_nodes db_read level st0) as [seeds st1]. cbn [fst nodes_visited].
  apply walk_levels_within; [done|unfold lenZ in *; lia..|]. unfold within. cbn [visited].
  assert (vis = list_to_set starts) as -> by (apply set_eq; intros k; rewrite Hv; set_solver).
  assert (Hsize : (size (list_to_set starts : gset NodeKey) <= length starts)%nat).
  { clear. induction starts as [|k l IH]; [done|]. cbn [list_to_set length].
    pose proof (size_union_alt {[k]} (list_to_set l : gset NodeKey)) as ->. rewrite size_singleton.
    pose proof (subseteq_size (list_to_set l ∖ {[k]} : gset NodeKey) (list_to_set l) ltac:(set_solver)). lia. }
  unfold lenZ. lia.
Qed.
End graph.
