(* ===== verification/Hops.v ===== *)
(** * A hop of the walk against the database

    The four queries of a hop ([Edges], [Traversal]) are answered by the
    filter and the sort of the database ([Filter], [Sort]): what the hop gives
    is the ranked window of the edges that touch the node. The concrete
    instances of the walk's properties are here too. *)

From S2P Require Import Prelude Bytes F64 Json Errors Externals Filter Secondary Sort Text Edges Traversal.

Section database.
Context `{SerdeJson} `{!SerdeLaws} `{RegexLib}.
Context (docs : list Value) (db_query : Value -> result string (list Value)).
Context (config : Config) (types : option (list EdgeType)) (min_weight : option f64).

(** The collection of edges, as the database serves it: what a filter that
    parses matches, sorted and cut at the limit. *)
Definition serves : Prop := forall filter limit n, parse_filter (VObject filter) = Ok n ->
  db_query (edge_query_body filter limit) = Ok (server_window (List.filter (matches n) docs) limit).

(** An edge as its writers store it, between two different nodes. *)
Definition proper_edge (doc : Value) (e : KnowledgeEdge) : Prop :=
  stored_edge doc e /\ named_edge doc e /\ proper_type (e_type e) /\
  (source_collection e, source_id e) <> (target_collection e, target_id e).

Definition touches (k : NodeKey) (e : KnowledgeEdge) : bool :=
  bool_decide ((source_collection e, source_id e) = k) || bool_decide ((target_collection e, target_id e) = k).
(** The edges a hop from [k] asks for, the automatic ones or the others. *)
Definition wanted (auto : bool) (k : NodeKey) (doc : Value) : bool :=
  match parse_edge doc with
  | Some e => eqb (is_auto_derived (e_type e)) auto && type_allowed types (e_type e) && weight_allowed min_weight doc && touches k e
  | None => false
  end.

Context (Hserves : serves) (Hproper : Forall (fun d => exists e, proper_edge d e) docs) (Hids : NoDup (doc_id <$> docs))
        (Htypes : forall l, types = Some l -> Forall proper_type l).

(** The database takes the filters of a hop. *)
Definition parses (filter : option (list (string * Value))) : Prop :=
  forall f, filter = Some f -> exists n, parse_filter (VObject f) = Ok n.
Lemma arms_parse k1 k2 arm arm_nin coll id : is_arm k1 k2 arm arm_nin ->
  let '(auto, meaningful) := partition_edge_types types in
  parses (auto_filter arm auto coll id min_weight) /\ parses (meaningful_filter arm arm_nin meaningful coll id min_weight).
Proof.
  intros (Hk & Harm & Hnin). destruct (partition_edge_types types) as [auto meaningful].
  assert (Hin : forall l, parses (Some (arm coll id (Some l) min_weight))).
  { intros l f [= <-]. rewrite Harm. destruct Hk as [ [= -> ->] | [= -> ->] ], min_weight; by eexists. }
  assert (Hno : parses (Some (arm_nin coll id min_weight))).
  { intros f [= <-]. rewrite Hnin. destruct Hk as [ [= -> ->] | [= -> ->] ], min_weight; by eexists. }
  split; [destruct auto as [l|]|destruct meaningful as [|l|]]; first [exact (Hin l)|exact Hno|by intros f].
Qed.

Lemma arm_answer filter limit : parses filter ->
  run_arm db_query (arm_body filter limit) = Ok (server_window (List.filter (selects filter) docs) limit).
Proof.
  intros Hp. destruct filter as [f|]; cbn.
  - destruct (Hp f eq_refl) as [n Hn]. rewrite (Hserves f limit n Hn).
    assert (List.filter (matches n) docs = List.filter (selects (Some f)) docs) as ->; [|done]. apply List.filter_ext. intros d.
    by apply (parse_filter_node_sem d (VObject f) 0).
  - assert (List.filter (fun _ => false) docs = []) as E by (clear; induction docs; [done|by cbn]).
    change (selects None) with (fun _ : Value => false). by rewrite E.
Qed.

Lemma filter_split {A} (p q1 q2 : A -> bool) l : (forall x, x ∈ l -> p x = q1 x || q2 x) ->
  (forall x, x ∈ l -> q1 x = true -> q2 x = true -> False) -> List.filter q1 l ++ List.filter q2 l ≡ₚ List.filter p l.
Proof.
  induction l as [|x l IH]; intros Hp Hd; [done|]. cbn [List.filter].
  assert (Hl : List.filter q1 l ++ List.filter q2 l ≡ₚ List.filter p l).
  { apply IH; intros y Hy; [apply Hp|apply Hd]; by right. }
  rewrite (Hp x) by (by left). specialize (Hd x ltac:(by left)).
  destruct (q1 x) eqn:E1, (q2 x) eqn:E2; cbn; [by destruct Hd|by constructor| |done].
  rewrite <-Permutation_middle. by constructor.
Qed.
Lemma window_perm l k limit : l ≡ₚ k -> NoDup (doc_id <$> l) -> server_window l limit = server_window k limit.
Proof.
  intros Hp Hn. rewrite !server_window_take. f_equal. apply sort_by_unique; [typeclasses eauto|by apply sorted_ids|done].
Qed.
Lemma filter_ids (p : Value -> bool) : NoDup (doc_id <$> List.filter p docs).
Proof.
  clear -Hids. induction docs as [|d l IH]; [constructor|]. rewrite fmap_cons in Hids. apply NoDup_cons in Hids as [Hd Hl].
  cbn [List.filter]. destruct (p d); [|by apply IH]. rewrite fmap_cons. apply NoDup_cons. split; [|by apply IH].
  intros (x & E & [Hx _]%elem_of_List_filter)%list_elem_of_fmap. apply Hd. rewrite E. by apply list_elem_of_fmap_2.
Qed.

(** The two arms of a part select its wanted edges, each once. *)
Lemma arm_wanted k1 k2 arm arm_nin coll id doc e : is_arm k1 k2 arm arm_nin -> proper_edge doc e ->
  let '(auto, meaningful) := partition_edge_types types in
  let touch := bool_decide (str_field doc k2 = Some coll) && bool_decide (str_field doc k1 = Some id) in
  let allowed := type_allowed types (e_type e) && weight_allowed min_weight doc in
  selects (auto_filter arm auto coll id min_weight) doc = eqb (is_auto_derived (e_type e)) true && allowed && touch /\
  selects (meaningful_filter arm arm_nin meaningful coll id min_weight) doc = eqb (is_auto_derived (e_type e)) false && allowed && touch.
Proof.
  intros Harm (_ & Hn & Hp & _). pose proof (arm_partition k1 k2 arm arm_nin types coll id min_weight doc e Harm Hn Hp Htypes) as Ha.
  destruct (partition_edge_types types) as [auto m]. destruct Ha as [-> ->].
  destruct (is_auto_derived (e_type e)), (type_allowed types (e_type e)), (weight_allowed min_weight doc); by destruct (bool_decide _).
Qed.
Lemma edge_endpoints doc e : parse_edge doc = Some e ->
  str_field doc "source_collection" = Some (source_collection e) /\ str_field doc "source_id" = Some (source_id e) /\
  str_field doc "target_collection" = Some (target_collection e) /\ str_field doc "target_id" = Some (target_id e).
Proof.
  unfold parse_edge. intros (? & _ & (? & _ & (? & E1 & (? & E2 & (? & E3 & (? & E4 & [= <-])%bind_Some)%bind_Some)%bind_Some)%bind_Some)%bind_Some)%bind_Some.
  done.
Qed.
Lemma pair_decide (a b c d : string) : bool_decide (Some a = Some c) && bool_decide (Some b = Some d) = bool_decide ((a, b) = (c, d)).
Proof. repeat case_bool_decide; naive_solver. Qed.

Lemma arms_wanted part k : let '(auto, meaningful) := partition_edge_types types in
  let f arm arm_nin := if part : bool then auto_filter arm auto k.1 k.2 min_weight
                       else meaningful_filter arm arm_nin meaningful k.1 k.2 min_weight in
  List.filter (selects (f source_arm_filter source_arm_filter_nin_auto)) docs ++
  List.filter (selects (f target_arm_filter target_arm_filter_nin_auto)) docs ≡ₚ List.filter (wanted part k) docs.
Proof.
  destruct (partition_edge_types types) as [auto meaningful] eqn:Hpart. cbn zeta.
  assert (Harms : forall d, d ∈ docs -> exists e, parse_edge d = Some e /\
    (source_collection e, source_id e) <> (target_collection e, target_id e) /\
    let base := eqb (is_auto_derived (e_type e)) part && (type_allowed types (e_type e) && weight_allowed min_weight d) in
    selects (if part then auto_filter source_arm_filter auto k.1 k.2 min_weight
             else meaningful_filter source_arm_filter source_arm_filter_nin_auto meaningful k.1 k.2 min_weight) d =
      base && bool_decide ((source_collection e, source_id e) = k) /\
    selects (if part then auto_filter target_arm_filter auto k.1 k.2 min_weight
             else meaningful_filter target_arm_filter target_arm_filter_nin_auto meaningful k.1 k.2 min_weight) d =
      base && bool_decide ((target_collection e, target_id e) = k)).
  { intros d Hd. destruct (proj1 (Forall_forall _ _) Hproper d Hd) as [e He]. exists e. pose proof He as (_ & (_ & Hp & _) & _ & Hne).
    split; [done|]. split; [done|]. destruct (edge_endpoints d e Hp) as (E1 & E2 & E3 & E4).
    pose proof (arm_wanted _ _ _ _ k.1 k.2 d e source_is_arm He) as Hs. pose proof (arm_wanted _ _ _ _ k.1 k.2 d e target_is_arm He) as Ht.
    rewrite Hpart in Hs, Ht. cbn zeta in Hs, Ht. rewrite E1, E2, pair_decide, <-surjective_pairing in Hs.
    rewrite E3, E4, pair_decide, <-surjective_pairing in Ht. destruct Hs, Ht. by destruct part. }
  apply filter_split.
  - intros d Hd. destruct (Harms d Hd) as (e & Hp & _ & -> & ->). unfold wanted, touches. rewrite Hp.
    destruct (eqb (is_auto_derived (e_type e)) part), (type_allowed types (e_type e)), (weight_allowed min_weight d); cbn; by rewrite ?orb_false_r.
  - intros d Hd. destruct (Harms d Hd) as (e & _ & Hne & -> & ->). intros [_ ?%bool_decide_eq_true]%andb_true_iff [_ ?%bool_decide_eq_true]%andb_true_iff.
    congruence.
Qed.

(** The merged windows of one part. *)
Lemma part_window part k limit : 0 < limit -> let '(auto, meaningful) := partition_edge_types types in
  let f arm arm_nin := if part : bool then auto_filter arm auto k.1 k.2 min_weight
                       else meaningful_filter arm arm_nin meaningful k.1 k.2 min_weight in
  Forall2 stored_edge (server_window (List.filter (wanted part k) docs) limit)
    (merge_arm_edges (server_window (List.filter (selects (f source_arm_filter source_arm_filter_nin_auto)) docs) limit)
                     (server_window (List.filter (selects (f target_arm_filter target_arm_filter_nin_auto)) docs) limit) limit).1.
Proof.
  intros Hl. pose proof (arms_wanted part k) as Hp. destruct (partition_edge_types types) as [auto meaningful]. cbn zeta in *.
  set (src := List.filter (selects _) docs) in *. set (tgt := List.filter (selects _) docs) in Hp |- *.
  assert (Hn : NoDup (doc_id <$> src ++ tgt)) by (rewrite Hp; apply filter_ids).
  pose proof (arm_windows_merge src tgt limit) as Hm. destruct (merge_arm_edges _ _ limit) as [window sat].
  rewrite (window_perm _ (src ++ tgt)); [|done|by rewrite Hp in Hn].
  apply Hm; [|done..]. rewrite Hp. apply Forall_forall. intros d [Hd _]%elem_of_List_filter.
  destruct (proj1 (Forall_forall _ _) Hproper d Hd) as (e & He & _). by exists e.
Qed.

(** C14: Against the database, a hop gives the highest ranked of the
    meaningful edges that touch the node and then the highest ranked of the
    automatic ones, each as one query over both directions would rank and cut
    them: splitting the hop into four indexed queries changes nothing. *)
Theorem hop_is_ranked_window k : 0 < edge_limit config ->
  exists meaningful auto, fetch_hop db_query config types min_weight k = Some (meaningful ++ auto) /\
    Forall2 stored_edge (server_window (List.filter (wanted false k) docs) MEANINGFUL_EDGE_LIMIT) meaningful /\
    Forall2 stored_edge (server_window (List.filter (wanted true k) docs) (edge_limit config)) auto.
Proof.
  intros Hl. destruct k as [coll id]. pose proof (part_window false (coll, id) MEANINGFUL_EDGE_LIMIT ltac:(done)) as Hm.
  pose proof (part_window true (coll, id) (edge_limit config) Hl) as Ha.
  pose proof (arms_parse _ _ _ _ coll id source_is_arm) as Hs. pose proof (arms_parse _ _ _ _ coll id target_is_arm) as Ht.
  unfold fetch_hop. destruct (partition_edge_types types) as [auto meaningful]. destruct Hs, Ht.
  rewrite !arm_answer by done. eexists _, _. split; [done|]. by split.
Qed.
End database.

(** ** A concrete graph *)

Module HopDemo.
Import Ref.
Definition edge (id src tgt type : string) (w : Z) : Value :=
  VObject [("_id", VString id); ("created_at", VString "2026"); ("edge_type", VString type);
           ("source_collection", VString "memory.semantic"); ("source_id", VString src);
           ("target_collection", VString "memory.semantic"); ("target_id", VString tgt); ("weight", VNumber (PosInt w))].
Definition graph : list Value :=
  [edge "1" "a" "b" "same_session" 5; edge "2" "b" "c" "enables" 2; edge "3" "c" "a" "temporal" 1; edge "4" "c" "d" "mentors" 3;
   edge "5" "d" "gone" "refines" 1].
Definition server (body : Value) : result string (list Value) :=
  match body with
  | VObject [(_, filter); (_, VNumber (PosInt limit)); _] =>
      match parse_filter filter with
      | Ok n => Ok (server_window (List.filter (matches n) graph) limit)
      | Err _ => Err "bad filter"
      end
  | _ => Err "bad query"
  end.
Definition read (coll id : string) : option Value :=
  if bool_decide (id = "gone") then None else Some (VObject [("content", VString id)]).
Definition config : Config := {| depth_ceiling := 5; edge_limit := 10; node_budget := 50 |}.
Definition node (id : string) : NodeKey := ("memory.semantic", id).
Definition parsed (doc : Value) : KnowledgeEdge :=
  default {| e_id := None; source_id := ""; source_collection := ""; target_id := ""; target_collection := ""; e_type := Temporal;
             weight := 0; metadata := VNull; created_at := "" |} (parse_edge doc).

(** From [a], the ring [a], [b], [c], and [d] behind it; the document of the
    last node is gone. *)
Definition walk (depth : Z) : TraversalResult :=
  (traverse_multi server read config None None [node "a"; node "a"] depth ∅).1.
Example walk_two : keyed <$> nodes (walk 2) = [(node "a", 0); (node "b", 1); (node "c", 1); (node "d", 2)] /\
  e_id <$> edges (walk 2) = [Some "1"; Some "3"; Some "4"].
Proof. vm_compute. split; reflexivity. Qed.

Lemma server_serves : serves graph server.
Proof. intros filter limit n Hn. unfold server, edge_query_body. by rewrite Hn. Qed.
Lemma weight_small w : bool_decide (w ∈ [5; 2; 1; 3]) = true ->
  f64_is_nan (as_f64 (PosInt w)) = false /\ as_f64 (PosInt w) <> 2 ^ 63.
Proof. intros Hw%bool_decide_eq_true. repeat (apply elem_of_cons in Hw as [->|Hw]; [vm_compute; split; [reflexivity|discriminate]|]). set_solver. Qed.
Lemma graph_proper : Forall (fun d => exists e, proper_edge d e) graph.
Proof.
  repeat (apply Forall_cons; split; [match goal with |- exists e, proper_edge ?d e => exists (parsed d) end|]); [..|constructor]; unfold proper_edge, stored_edge, named_edge.
  all: split_and!; [eexists; reflexivity|vm_compute; reflexivity|eexists; vm_compute; reflexivity| |eexists; reflexivity
                   |eexists; reflexivity|vm_compute; reflexivity|vm_compute; reflexivity| |vm_compute; congruence].
  all: first [match goal with |- context [edge _ _ _ _ ?w] => exists (PosInt w), (as_f64 (PosInt w)) end;
              split; [reflexivity|split; [reflexivity|apply weight_small; vm_compute; reflexivity]]
             |intros s E; vm_compute in E; first [discriminate E|injection E as <-; vm_compute; reflexivity]].
Qed.

Lemma hop_is_ranked_window_witness :
  exists meaningful auto, fetch_hop server config None None (node "c") = Some (meaningful ++ auto) /\
    e_id <$> meaningful = [Some "4"; Some "2"] /\ e_id <$> auto = [Some "3"].
Proof.
  destruct (hop_is_ranked_window graph server config None None server_serves graph_proper
    ltac:(apply (bool_decide_unpack _); vm_compute; exact I) ltac:(intros ? [=]) (node "c") ltac:(vm_compute; reflexivity))
    as (m & a & Hhop & Hm & Ha).
  exists m, a. split; [exact Hhop|]. apply Forall2_length in Hm, Ha. vm_compute in Hhop, Hm, Ha.
  destruct m as [|m1 [|m2 [|m3 m]]]; [discriminate Hm..| |discriminate Hm].
  destruct a as [|a1 [|a2 a]]; [discriminate Ha| |discriminate Ha].
  injection Hhop as <- <- <-. split; reflexivity.
Defined.

Lemma walk_is_bounded_witness :
  nodes_visited (walk 2) = 4 /\ nodes_visited (walk 3) <= 2059.
Proof.
  split; [vm_compute; reflexivity|].
  refine (Z.le_trans _ _ _ (walk_is_bounded server read config None None [node "a"; node "a"] ∅ 3 _ _ _) _); vm_compute; discriminate || reflexivity.
Defined.
End HopDemo.
