(* ===== verification/Addresses.v ===== *)
(** * Network addresses and the egress classes ([embra-guardian/src/caps.rs])

    The addresses of [std::net] with their text form and the predicates the
    guard uses, and the class of an address. The property reads the classes
    off the table of ranges the code documents. *)

From S2P Require Import Prelude Bytes Text.
From Stdlib Require Import Btauto.

(** ** [std::net] *)

(** The octets of an IPv4 address, the 16-bit segments of an IPv6 address. *)
Inductive Ipv4Addr := V4Addr (a b c d : Z).
Inductive Ipv6Addr := V6Addr (s0 s1 s2 s3 s4 s5 s6 s7 : Z).
Inductive IpAddr := V4 (v : Ipv4Addr) | V6 (v : Ipv6Addr).
#[export] Instance Ipv4Addr_eq : EqDecision Ipv4Addr.
Proof. solve_decision. Defined.
#[export] Instance Ipv6Addr_eq : EqDecision Ipv6Addr.
Proof. solve_decision. Defined.
#[export] Instance IpAddr_eq : EqDecision IpAddr.
Proof. solve_decision. Defined.

Definition octet (x : Z) : Prop := 0 <= x < 256.
Definition segment (x : Z) : Prop := 0 <= x < 65536.
Definition v4_wf (v : Ipv4Addr) : Prop := let '(V4Addr a b c d) := v in octet a /\ octet b /\ octet c /\ octet d.
Definition v6_wf (v : Ipv6Addr) : Prop :=
  let '(V6Addr s0 s1 s2 s3 s4 s5 s6 s7) := v in Forall segment [s0; s1; s2; s3; s4; s5; s6; s7].
Definition ip_wf (ip : IpAddr) : Prop := match ip with V4 v => v4_wf v | V6 v => v6_wf v end.

Definition is_loopback (v : Ipv4Addr) : bool := let '(V4Addr a _ _ _) := v in a =? 127.
Definition is_unspecified (v : Ipv4Addr) : bool := bool_decide (v = V4Addr 0 0 0 0).
Definition is_link_local (v : Ipv4Addr) : bool := let '(V4Addr a b _ _) := v in (a =? 169) && (b =? 254).
Definition is_multicast (v : Ipv4Addr) : bool := let '(V4Addr a _ _ _) := v in (224 <=? a) && (a <=? 239).
Definition is_private (v : Ipv4Addr) : bool :=
  let '(V4Addr a b _ _) := v in
  (a =? 10) || ((a =? 172) && ((16 <=? b) && (b <=? 31))) || ((a =? 192) && (b =? 168)).
Definition is_broadcast (v : Ipv4Addr) : bool := bool_decide (v = V4Addr 255 255 255 255).
Definition is_documentation (v : Ipv4Addr) : bool :=
  let '(V4Addr a b c _) := v in
  ((a =? 192) && (b =? 0) && (c =? 2)) || ((a =? 198) && (b =? 51) && (c =? 100)) || ((a =? 203) && (b =? 0) && (c =? 113)).
Definition to_ipv4_mapped (v : Ipv6Addr) : option Ipv4Addr :=
  let '(V6Addr s0 s1 s2 s3 s4 s5 s6 s7) := v in
  if forallb (Z.eqb 0) [s0; s1; s2; s3; s4] && (s5 =? 65535)
  then Some (V4Addr (s6 `div` 256) (s6 `mod` 256) (s7 `div` 256) (s7 `mod` 256)) else None.

(** *** [parse::<IpAddr>()]: the parser of [core::net] over the bytes left *)

Definition to_digit (radix b : Z) : option Z :=
  let d := if (48 <=? b) && (b <=? 57) then b - 48
           else if (97 <=? b) && (b <=? 122) then b - 87
           else if (65 <=? b) && (b <=? 90) then b - 55 else 99 in
  if d <? radix then Some d else None.
Fixpoint read_digits (radix : Z) (l : bytes) (acc count : Z) : Z * Z * bytes :=
  match l with
  | b :: rest => match to_digit radix b with
                 | Some d => read_digits radix rest (acc * radix + d) (count + 1)
                 | None => (acc, count, l)
                 end
  | [] => (acc, count, l)
  end.
Definition read_number (radix max_digits bound : Z) (allow_zero_prefix : bool) (l : bytes) : option (Z * bytes) :=
  let '(n, count, rest) := read_digits radix l 0 0 in
  let leading_zero := match l with 48 :: _ => true | _ => false end in
  if (count =? 0) || (max_digits <? count) || (negb allow_zero_prefix && leading_zero && (1 <? count)) || (bound <=? n)
  then None else Some (n, rest).
Definition read_char (c : Z) (l : bytes) : option bytes :=
  match l with b :: rest => if b =? c then Some rest else None | [] => None end.
Definition read_octet (l : bytes) : option (Z * bytes) := read_number 10 3 256 false l.
Definition read_ipv4 (l : bytes) : option (Ipv4Addr * bytes) :=
  '(a, l) ← read_octet l; l ← read_char 46 l;
  '(b, l) ← read_octet l; l ← read_char 46 l;
  '(c, l) ← read_octet l; l ← read_char 46 l;
  '(d, l) ← read_octet l; Some (V4Addr a b c d, l).
(** [read_separator(':', index, …)] *)
Definition after_colon (first : bool) (l : bytes) : option bytes := if first then Some l else read_char 58 l.
(** [read_groups] with room for [limit] more groups: the groups, whether they
    end in an IPv4 address, and what is left. *)
Fixpoint read_groups (limit : nat) (first : bool) (l : bytes) : list Z * bool * bytes :=
  match limit with
  | O => ([], false, l)
  | S n =>
      let v4 := match n with O => None | S _ => l ← after_colon first l; read_ipv4 l end in
      match v4 with
      | Some (V4Addr a b c d, l) => ([a * 256 + b; c * 256 + d], true, l)
      | None =>
          match (l ← after_colon first l; read_number 16 4 65536 true l) with
          | Some (g, l) => let '(gs, v4, l) := read_groups n false l in (g :: gs, v4, l)
          | None => ([], false, l)
          end
      end
  end.
Definition read_ipv6 (l : bytes) : option (Ipv6Addr * bytes) :=
  let '(head, head_v4, l) := read_groups 8 true l in
  let of_groups gs l := match gs with
                        | [s0; s1; s2; s3; s4; s5; s6; s7] => Some (V6Addr s0 s1 s2 s3 s4 s5 s6 s7, l)
                        | _ => None
                        end in
  if (length head =? 8)%nat then of_groups head l
  else if head_v4 then None
  else
    l ← read_char 58 l; l ← read_char 58 l;
    let '(tail, _, l) := read_groups (8 - (length head + 1))%nat true l in
    of_groups (head ++ replicate (8 - (length head + length tail)) 0 ++ tail) l.
Definition parse_ip (s : string) : option IpAddr :=
  let l := str_bytes s in
  let read := match read_ipv4 l with
              | Some (v, l) => Some (V4 v, l)
              | None => '(v, l) ← read_ipv6 l; Some (V6 v, l)
              end in
  match read with Some (ip, []) => Some ip | _ => None end.

(** ** The classes *)

Inductive AddressClass := Public | Private | Loopback | LinkLocal | Multicast | Reserved.
#[export] Instance AddressClass_eq : EqDecision AddressClass.
Proof. solve_decision. Defined.

Definition classify_v4 (v : Ipv4Addr) : AddressClass :=
  let '(V4Addr a b _ _) := v in
  if is_loopback v || is_unspecified v then Loopback
  else if is_link_local v then LinkLocal
  else if is_multicast v then Multicast
  else if is_private v || ((a =? 100) && ((64 <=? b) && (b <=? 127))) then Private
  else if is_broadcast v || is_documentation v || (a =? 0) || (240 <=? a) || ((a =? 198) && ((b =? 18) || (b =? 19))) then Reserved
  else Public.
Definition classify (ip : IpAddr) : AddressClass :=
  match ip with
  | V4 v => classify_v4 v
  | V6 (V6Addr s0 s1 s2 s3 s4 s5 s6 s7 as v) =>
      if bool_decide (v = V6Addr 0 0 0 0 0 0 0 1) || bool_decide (v = V6Addr 0 0 0 0 0 0 0 0) then Loopback
      else match to_ipv4_mapped v with
      | Some v4 => classify_v4 v4
      | None =>
          if Z.land s0 65280 =? 65280 then Multicast
          else if forallb (Z.eqb 0) [s0; s1; s2; s3; s4; s5] then Reserved
          else if ((s0 =? 100) && (s1 =? 65435) && forallb (Z.eqb 0) [s2; s3; s4; s5]) || (s0 =? 8194) then Reserved
          else if (Z.land s0 65024 =? 64512) || (Z.land s0 65472 =? 65216) then Private
          else if Z.land s0 65472 =? 65152 then LinkLocal
          else Public
      end
  end.
Definition is_blocked_ip (ip : IpAddr) : bool := negb (bool_decide (classify ip = Public)).

(** ** The table *)

Definition v4_number (v : Ipv4Addr) : Z := let '(V4Addr a b c d) := v in ((a * 256 + b) * 256 + c) * 256 + d.
Definition v6_number (v : Ipv6Addr) : Z :=
  let '(V6Addr s0 s1 s2 s3 s4 s5 s6 s7) := v in
  foldl (fun n s => n * 65536 + s) 0 [s0; s1; s2; s3; s4; s5; s6; s7].
(** A range: the addresses of [width] bits that share the first [len] with [base]. *)
Definition in_range (width : Z) (r : Z * Z) (n : Z) : bool := let '(base, len) := r in n / 2 ^ (width - len) =? base / 2 ^ (width - len).
Definition class_in (width : Z) (table : list (Z * Z * AddressClass)) (n : Z) : AddressClass :=
  match List.find (fun '(r, _) => in_range width r n) table with Some (_, c) => c | None => Public end.

Definition ip4 (a b c d : Z) : Z := v4_number (V4Addr a b c d).
Definition v4_table : list (Z * Z * AddressClass) :=
  [(ip4 127 0 0 0, 8, Loopback); (ip4 0 0 0 0, 32, Loopback);
   (ip4 169 254 0 0, 16, LinkLocal);
   (ip4 224 0 0 0, 4, Multicast);
   (ip4 10 0 0 0, 8, Private); (ip4 172 16 0 0, 12, Private); (ip4 192 168 0 0, 16, Private); (ip4 100 64 0 0, 10, Private);
   (ip4 0 0 0 0, 8, Reserved); (ip4 240 0 0 0, 4, Reserved); (ip4 192 0 2 0, 24, Reserved); (ip4 198 51 100 0, 24, Reserved);
   (ip4 203 0 113 0, 24, Reserved); (ip4 198 18 0 0, 15, Reserved)].
Definition ip6 (s0 s1 : Z) : Z := (s0 * 65536 + s1) * 2 ^ 96.
Definition v6_table : list (Z * Z * AddressClass) :=
  [(1, 128, Loopback); (0, 128, Loopback);
   (ip6 65280 0, 8, Multicast);
   (0, 96, Reserved); (ip6 100 65435, 96, Reserved); (ip6 8194 0, 16, Reserved);
   (ip6 64512 0, 7, Private); (ip6 65216 0, 10, Private);
   (ip6 65152 0, 10, LinkLocal)].
(** [::ffff:0:0/96], the addresses that carry an IPv4 address. *)
Definition mapped_range : Z * Z := (65535 * 2 ^ 32, 96).
Definition documented_class (ip : IpAddr) : AddressClass :=
  match ip with
  | V4 v => class_in 32 v4_table (v4_number v)
  | V6 v => if in_range 128 mapped_range (v6_number v) then class_in 32 v4_table (v6_number v mod 2 ^ 32)
            else class_in 128 v6_table (v6_number v)
  end.

(** ** The table and the code *)

Lemma in_range_bounds width base len n : 0 <= width - len ->
  in_range width (base, len) n =
    let k := 2 ^ (width - len) in (base / k * k <=? n) && (n <? base / k * k + k).
Proof.
  intros Hk. unfold in_range. cbn zeta. assert (Hp : 0 < 2 ^ (width - len)) by lia. revert Hp. generalize (2 ^ (width - len)). intros k Hp.
  apply eq_true_iff_eq. rewrite Z.eqb_eq, andb_true_iff, Z.leb_le, Z.ltb_lt.
  pose proof (Z.div_mod n k). pose proof (Z.mod_pos_bound n k). split; [intros <-; nia|]. intros [H1 H2].
  symmetry. apply (Z.div_unique n k _ (n - base / k * k)); nia.
Qed.

Section v4.
Context (a b c d : Z) (Ha : octet a) (Hb : octet b) (Hc : octet c) (Hd : octet d).
#[local] Abbreviation n := (v4_number (V4Addr a b c d)).

Lemma v4_ranges (base : Z * Z) lo hi : (let k := 2 ^ (32 - base.2) in (base.1 / k * k, base.1 / k * k + k)) = (lo, hi) ->
  0 <= 32 - base.2 -> in_range 32 base n = (lo <=? n) && (n <? hi).
Proof. intros [= <- <-] Hk. destruct base as [base len]. by rewrite in_range_bounds. Qed.
Ltac v4_range lo hi := rewrite (v4_ranges _ lo hi) by (reflexivity || (cbn; lia)); unfold is_loopback, is_link_local, is_multicast, v4_number, octet in *; lia.

Lemma range_loopback : in_range 32 (ip4 127 0 0 0, 8) n = is_loopback (V4Addr a b c d).
Proof. v4_range 2130706432 2147483648. Qed.
Lemma range_unspecified : in_range 32 (ip4 0 0 0 0, 32) n = is_unspecified (V4Addr a b c d).
Proof.
  rewrite (v4_ranges _ 0 1) by (reflexivity || (cbn; lia)). unfold is_unspecified, v4_number, octet in *.
  case_bool_decide as E; [injection E as -> -> -> ->; lia|].
  destruct (Z.leb_spec 0 (((a * 256 + b) * 256 + c) * 256 + d)), (Z.ltb_spec (((a * 256 + b) * 256 + c) * 256 + d) 1); try done.
  exfalso. apply E. f_equal; lia.
Qed.
Lemma range_link_local : in_range 32 (ip4 169 254 0 0, 16) n = is_link_local (V4Addr a b c d).
Proof. v4_range 2851995648 2852061184. Qed.
Lemma range_multicast : in_range 32 (ip4 224 0 0 0, 4) n = is_multicast (V4Addr a b c d).
Proof. v4_range 3758096384 4026531840. Qed.
Lemma range_10 : in_range 32 (ip4 10 0 0 0, 8) n = (a =? 10).
Proof. v4_range 167772160 184549376. Qed.
Lemma range_172 : in_range 32 (ip4 172 16 0 0, 12) n = (a =? 172) && ((16 <=? b) && (b <=? 31)).
Proof. v4_range 2886729728 2887778304. Qed.
Lemma range_192 : in_range 32 (ip4 192 168 0 0, 16) n = (a =? 192) && (b =? 168).
Proof. v4_range 3232235520 3232301056. Qed.
Lemma range_100 : in_range 32 (ip4 100 64 0 0, 10) n = (a =? 100) && ((64 <=? b) && (b <=? 127)).
Proof. v4_range 1681915904 1686110208. Qed.
Lemma range_0 : in_range 32 (ip4 0 0 0 0, 8) n = (a =? 0).
Proof. v4_range 0 16777216. Qed.
Lemma range_240 : in_range 32 (ip4 240 0 0 0, 4) n = (240 <=? a).
Proof. v4_range 4026531840 4294967296. Qed.
Lemma range_192_0_2 : in_range 32 (ip4 192 0 2 0, 24) n = (a =? 192) && (b =? 0) && (c =? 2).
Proof. v4_range 3221225984 3221226240. Qed.
Lemma range_198_51_100 : in_range 32 (ip4 198 51 100 0, 24) n = (a =? 198) && (b =? 51) && (c =? 100).
Proof. v4_range 3325256704 3325256960. Qed.
Lemma range_203_0_113 : in_range 32 (ip4 203 0 113 0, 24) n = (a =? 203) && (b =? 0) && (c =? 113).
Proof. v4_range 3405803776 3405804032. Qed.
Lemma range_198_18 : in_range 32 (ip4 198 18 0 0, 15) n = (a =? 198) && ((b =? 18) || (b =? 19)).
Proof. v4_range 3323068416 3323199488. Qed.

Lemma classify_v4_table : classify_v4 (V4Addr a b c d) = class_in 32 v4_table n.
Proof.
  unfold class_in, v4_table. cbn [List.find].
  rewrite range_loopback, range_unspecified, range_link_local, range_multicast, range_10, range_172, range_192, range_100, range_0,
    range_240, range_192_0_2, range_198_51_100, range_203_0_113, range_198_18.
  assert (Hbc : is_broadcast (V4Addr a b c d) = true -> (240 <=? a) = true).
  { unfold is_broadcast. by intros [= -> -> -> ->]%bool_decide_eq_true. }
  unfold classify_v4. destruct (is_loopback (V4Addr a b c d)); [done|]. destruct (is_unspecified (V4Addr a b c d)); [done|]. cbn [orb].
  destruct (is_link_local (V4Addr a b c d)); [done|]. destruct (is_multicast (V4Addr a b c d)); [done|]. unfold is_private.
  destruct (a =? 10); [done|]. destruct ((a =? 172) && ((16 <=? b) && (b <=? 31))); [done|].
  destruct ((a =? 192) && (b =? 168)); [done|]. cbn [orb]. destruct ((a =? 100) && ((64 <=? b) && (b <=? 127))); [done|].
  unfold is_documentation. destruct (240 <=? a); [by destruct (a =? 0); rewrite !orb_true_r|].
  destruct (is_broadcast (V4Addr a b c d)); [by discriminate (Hbc eq_refl)|].
  destruct (a =? 0); [by rewrite !orb_true_r|]. destruct ((a =? 192) && (b =? 0) && (c =? 2)); [done|].
  destruct ((a =? 198) && (b =? 51) && (c =? 100)); [done|]. destruct ((a =? 203) && (b =? 0) && (c =? 113)); [done|].
  by destruct ((a =? 198) && ((b =? 18) || (b =? 19))).
Qed.
End v4.

Lemma high_byte s : segment s -> octet (s / 256).
Proof. unfold segment, octet. intros Hs. split; [apply Z.div_pos|apply Z.div_lt_upper_bound]; lia. Qed.
Lemma low_byte s : octet (s mod 256).
Proof. unfold octet. pose proof (Z.mod_pos_bound s 256). lia. Qed.

Section v6.
Context (s0 s1 s2 s3 s4 s5 s6 s7 : Z).
#[local] Abbreviation v := (V6Addr s0 s1 s2 s3 s4 s5 s6 s7).
#[local] Abbreviation n := (v6_number v).
Context (Hs : v6_wf v).

Lemma v6_segments : segment s0 /\ segment s1 /\ segment s2 /\ segment s3 /\ segment s4 /\ segment s5 /\ segment s6 /\ segment s7.
Proof. unfold v6_wf in Hs. rewrite !Forall_cons in Hs. tauto. Qed.

Lemma v6_ranges (base : Z * Z) lo hi : (let k := 2 ^ (128 - base.2) in (base.1 / k * k, base.1 / k * k + k)) = (lo, hi) ->
  0 <= 128 - base.2 -> in_range 128 base n = (lo <=? n) && (n <? hi).
Proof. intros [= <- <-] Hk. destruct base as [base len]. by rewrite in_range_bounds. Qed.

(** A mask that keeps the high bits keeps the multiple of a power of two. *)
Lemma land_high s k m c : segment s -> 0 <= k <= 16 -> m = Z.ldiff (Z.ones 16) (Z.ones k) ->
  (Z.land s m =? c) = (s / 2 ^ k * 2 ^ k =? c).
Proof.
  intros Hseg Hk ->. f_equal. transitivity (Z.ldiff s (Z.ones k)).
  - transitivity (Z.ldiff (Z.land s (Z.ones 16)) (Z.ones k)).
    + apply Z.bits_inj'. intros i Hi. rewrite !Z.land_spec, !Z.ldiff_spec, !Z.land_spec. btauto.
    + f_equal. rewrite Z.land_ones by lia. apply Z.mod_small. exact Hseg.
  - rewrite Z.ldiff_ones_r by lia. by rewrite Z.shiftl_mul_pow2, Z.shiftr_div_pow2 by lia.
Qed.
Ltac v6_range lo hi := rewrite (v6_ranges _ lo hi) by (reflexivity || (cbn; lia));
  pose proof v6_segments as Hseg; unfold v6_number, segment in *; cbn [foldl].

(** The number by its first segment. *)
Lemma v6_first : exists r, n = s0 * 2 ^ 112 + r /\ 0 <= r < 2 ^ 112.
Proof.
  exists (foldl (fun n s => n * 65536 + s) 0 [s1; s2; s3; s4; s5; s6; s7]). pose proof v6_segments as Hseg. unfold v6_number, segment in *.
  cbn [foldl]. split; lia.
Qed.
Ltac v6_first_range lo hi := rewrite (v6_ranges _ lo hi) by (reflexivity || (cbn; lia));
  destruct v6_first as (r & -> & Hr); pose proof v6_segments as Hseg; unfold segment in *;
  repeat match goal with |- context [s0 / 2 ^ ?k] => let q := fresh "q" in
    pose proof (Z.div_mod s0 (2 ^ k)); pose proof (Z.mod_pos_bound s0 (2 ^ k)); set (q := s0 / 2 ^ k) in * end.
Lemma range6_one : in_range 128 (1, 128) n = bool_decide (v = V6Addr 0 0 0 0 0 0 0 1).
Proof.
  v6_range 1 2. case_bool_decide as E; [by injection E as -> -> -> -> -> -> -> ->|].
  match goal with |- ?b = false => destruct b eqn:Eb; [exfalso; apply E|done] end. f_equal; lia.
Qed.
Lemma range6_zero : in_range 128 (0, 128) n = bool_decide (v = V6Addr 0 0 0 0 0 0 0 0).
Proof.
  v6_range 0 1. case_bool_decide as E; [by injection E as -> -> -> -> -> -> -> ->|].
  match goal with |- ?b = false => destruct b eqn:Eb; [exfalso; apply E|done] end. f_equal; lia.
Qed.
Lemma range6_multicast : in_range 128 (ip6 65280 0, 8) n = (Z.land s0 65280 =? 65280).
Proof.
  rewrite (land_high _ 8) by (apply v6_segments || lia || reflexivity).
  v6_first_range 338953138925153547590470800371487866880 340282366920938463463374607431768211456. lia.
Qed.
Lemma range6_compat : in_range 128 (0, 96) n = forallb (Z.eqb 0) [s0; s1; s2; s3; s4; s5].
Proof. v6_range 0 4294967296. cbn [forallb]. lia. Qed.
Lemma range6_nat64 : in_range 128 (ip6 100 65435, 96) n = (s0 =? 100) && (s1 =? 65435) && forallb (Z.eqb 0) [s2; s3; s4; s5].
Proof. v6_range 524413980667603649783483181312245760 524413980667603649783483185607213056. cbn [forallb]. lia. Qed.
Lemma range6_6to4 : in_range 128 (ip6 8194 0, 16) n = (s0 =? 8194).
Proof. v6_first_range 42545680458834377588178886921629466624 42550872755692912415807417417958686720. lia. Qed.
Lemma range6_ula : in_range 128 (ip6 64512 0, 7) n = (Z.land s0 65024 =? 64512).
Proof.
  rewrite (land_high _ 9) by (apply v6_segments || lia || reflexivity).
  v6_first_range 334965454937798799971759379190646833152 337623910929368631717566993311207522304. lia.
Qed.
Lemma range6_site : in_range 128 (ip6 65216 0, 10) n = (Z.land s0 65472 =? 65216).
Proof.
  rewrite (land_high _ 6) by (apply v6_segments || lia || reflexivity).
  v6_first_range 338620831926207318622244848606417780736 338953138925153547590470800371487866880. lia.
Qed.
Lemma range6_link : in_range 128 (ip6 65152 0, 10) n = (Z.land s0 65472 =? 65152).
Proof.
  rewrite (land_high _ 6) by (apply v6_segments || lia || reflexivity).
  v6_first_range 338288524927261089654018896841347694592 338620831926207318622244848606417780736. lia.
Qed.
Lemma range6_mapped : in_range 128 mapped_range n = forallb (Z.eqb 0) [s0; s1; s2; s3; s4] && (s5 =? 65535).
Proof. v6_range 281470681743360 281474976710656. cbn [forallb]. lia. Qed.

Lemma mapped_number : in_range 128 mapped_range n = true ->
  n mod 2 ^ 32 = v4_number (V4Addr (s6 `div` 256) (s6 `mod` 256) (s7 `div` 256) (s7 `mod` 256)).
Proof.
  rewrite range6_mapped. cbn [forallb]. intros Hm. assert (s0 = 0 /\ s1 = 0 /\ s2 = 0 /\ s3 = 0 /\ s4 = 0 /\ s5 = 65535) as (E0 & E1 & E2 & E3 & E4 & E5) by lia.
  pose proof v6_segments as Hseg. unfold v6_number, v4_number, segment in *. cbn [foldl].
  rewrite E0, E1, E2, E3, E4, E5. 
  assert (Hd : forall s, s `div` 256 * 256 + s `mod` 256 = s) by (intros s; pose proof (Z.div_mod s 256); lia).
  symmetry. apply (Z.mod_unique_pos _ _ 65535); [|cbn; pose proof (Hd s6); pose proof (Hd s7); lia].
  pose proof (Z.mod_pos_bound s6 256). pose proof (Z.mod_pos_bound s7 256). pose proof (Hd s6). pose proof (Hd s7). lia.
Qed.
End v6.

(** C25: The class of an address is that of the ranges the code documents:
    loopback 127.0.0.0/8, ::1 and the unspecified addresses; link-local;
    multicast; private RFC 1918, carrier-grade NAT, unique and site-local;
    reserved, the documentation and benchmark ranges and the IPv6 transition
    forms among them; an IPv6 address that carries an IPv4 address has that
    one's class; every other address is public. *)
Theorem address_classes_are_documented ip : ip_wf ip -> classify ip = documented_class ip.
Proof.
  destruct ip as [[a b c d]|[s0 s1 s2 s3 s4 s5 s6 s7]]; cbn [ip_wf documented_class classify].
  - intros (Ha & Hb & Hc & Hd). by apply classify_v4_table.
  - intros Hs. pose proof (mapped_number _ _ _ _ _ _ _ _ Hs) as Hm. rewrite (range6_mapped _ _ _ _ _ _ _ _ Hs) in *.
    unfold to_ipv4_mapped. rewrite <-(range6_one _ _ _ _ _ _ _ _ Hs), <-(range6_zero _ _ _ _ _ _ _ _ Hs).
    destruct (forallb (Z.eqb 0) [s0; s1; s2; s3; s4] && (s5 =? 65535)) eqn:Em.
    + rewrite (Hm eq_refl), <-classify_v4_table by (apply high_byte || apply low_byte; apply (v6_segments _ _ _ _ _ _ _ _ Hs)).
      rewrite (range6_one _ _ _ _ _ _ _ _ Hs), (range6_zero _ _ _ _ _ _ _ _ Hs). cbn [forallb] in Em.
      rewrite !bool_decide_eq_false_2; [done|intros E; injection E as -> -> -> -> -> -> -> ->; discriminate Em..].
    + unfold class_in, v6_table. cbn [List.find].
      rewrite (range6_multicast _ _ _ _ _ _ _ _ Hs), (range6_compat _ _ _ _ _ _ _ _ Hs), (range6_nat64 _ _ _ _ _ _ _ _ Hs),
        (range6_6to4 _ _ _ _ _ _ _ _ Hs), (range6_ula _ _ _ _ _ _ _ _ Hs), (range6_site _ _ _ _ _ _ _ _ Hs), (range6_link _ _ _ _ _ _ _ _ Hs).
      destruct (in_range 128 (1, 128) _); [done|]. destruct (in_range 128 (0, 128) _); [done|]. cbn [orb].
      destruct (Z.land s0 65280 =? 65280); [done|]. destruct (forallb (Z.eqb 0) [s0; s1; s2; s3; s4; s5]); [done|].
      destruct ((s0 =? 100) && (s1 =? 65435) && forallb (Z.eqb 0) [s2; s3; s4; s5]); [done|].
      destruct (s0 =? 8194); [done|]. destruct (Z.land s0 65024 =? 64512); [done|]. destruct (Z.land s0 65472 =? 65216); [done|].
      by destruct (Z.land s0 65472 =? 65152).
Qed.

Lemma address_classes_are_documented_witness :
  documented_class (V4 (V4Addr 169 254 169 254)) = LinkLocal /\ documented_class (V6 (V6Addr 0 0 0 0 0 65535 2560 1)) = Private.
Proof.
  split; (rewrite <-address_classes_are_documented; [vm_compute; reflexivity|]).
  - cbn. unfold octet. lia.
  - cbn. repeat apply Forall_cons_2; try constructor; unfold segment; lia.
Defined.
