(* ===== verification/Secrets.v ===== *)
(** * Stored secrets ([embra-tools-core])

    The operator's secrets in the forms they could take on the wire, the
    search and redaction of a text ([lib.rs]), and the masking of command
    lines and of header values in records ([mask.rs]). *)

From S2P Require Import Prelude Bytes F64 Json Text.
From Stdlib Require Import Ascii.

(** ** Encoders *)

Definition in_byte_range (lo hi b : Z) : bool := (lo <=? b) && (b <=? hi).
(** The unreserved characters of RFC 3986. *)
Definition unreserved (b : Z) : bool :=
  in_byte_range 65 90 b || in_byte_range 97 122 b || in_byte_range 48 57 b || (b =? 45) || (b =? 46) || (b =? 95) || (b =? 126).
Definition upper_hex (v : Z) : Z := if v <? 10 then 48 + v else 55 + v.
Definition percent_byte (b : Z) : bytes := if unreserved b then [b] else [37; upper_hex (b / 16); upper_hex (b mod 16)].
Definition percent_encode (s : string) : string := bytes_str (str_bytes s ≫= percent_byte).

(** An alphabet, by the value of a digit. *)
Definition standard_alphabet : bytes := str_bytes "ABCDEFGHIJKLMNOPQRSTUVWXYZabcdefghijklmnopqrstuvwxyz0123456789+/".
Definition url_alphabet : bytes := str_bytes "ABCDEFGHIJKLMNOPQRSTUVWXYZabcdefghijklmnopqrstuvwxyz0123456789-_".
Definition digit_at (alphabet : bytes) (v : Z) : Z := default 0 (alphabet !! Z.to_nat v).
(** The chunks of three bytes; the digits of one are those of its 24 bits,
    the missing bytes zero. *)
Definition digits_of (alphabet : bytes) (n : Z) (count : nat) : bytes :=
  digit_at alphabet <$> take count [Z.land (Z.shiftr n 18) 63; Z.land (Z.shiftr n 12) 63; Z.land (Z.shiftr n 6) 63; Z.land n 63].
Definition chunk_bits (a b c : Z) : Z := Z.lor (Z.lor (Z.shiftl a 16) (Z.shiftl b 8)) c.
Fixpoint base64_with (alphabet : bytes) (l : bytes) : bytes :=
  match l with
  | [] => []
  | [a] => digits_of alphabet (chunk_bits a 0 0) 2
  | [a; b] => digits_of alphabet (chunk_bits a b 0) 3
  | a :: b :: c :: l => digits_of alphabet (chunk_bits a b c) 4 ++ base64_with alphabet l
  end.
Definition base64_standard_unpadded (l : bytes) : string := bytes_str (base64_with standard_alphabet l).
Definition base64_url_unpadded (l : bytes) : string := bytes_str (base64_with url_alphabet l).

(** ** The set of secrets *)

Record SecretEntry := { kind : string; forms : list string }.
Abbreviation SecretSet := (list SecretEntry).
Definition SECRET_MIN_BYTES : Z := 8.

(** [split_once(char::is_whitespace)] *)
Fixpoint split_space (fuel : nat) (l word : bytes) : option (bytes * bytes) :=
  match fuel, l with
  | S fuel, b :: l' => match space_front l with O => split_space fuel l' (word ++ [b]) | n => Some (word, drop n l) end
  | _, _ => None
  end.
Definition bare_bearer_token (value : string) : option string :=
  '(scheme, token) ← split_space (String.length value) (str_bytes value) [];
  if eq_ignore_ascii_case (bytes_str scheme) "bearer" then
    let token := trim (bytes_str token) in
    if bool_decide (token = EmptyString) then None else Some token
  else None.

Definition forms_of (v : string) : list string :=
  [v; percent_encode v; base64_standard_unpadded (str_bytes v); base64_url_unpadded (str_bytes v)].
Definition add_form (forms : list string) (form : string) : list string :=
  if (SECRET_MIN_BYTES <=? str_len form) && negb (bool_decide (form ∈ forms)) then forms ++ [form] else forms.
Definition secret_texts (value : string) : list string :=
  value :: match bare_bearer_token value with Some token => [token] | None => [] end.
Definition add (set : SecretSet) (kind value : string) : SecretSet :=
  let value := trim value in
  if str_len value <? SECRET_MIN_BYTES then set
  else set ++ [{| kind := kind; forms := foldl add_form [] (secret_texts value ≫= forms_of) |}].

(** [str::contains] *)
Definition contains (text form : string) : bool := bool_decide (is_Some (str_from form text)).
Definition found_in (set : SecretSet) (text : string) : option string :=
  kind <$> List.find (fun e => existsb (contains text) (forms e)) set.

(** [str::replace] of a text that is not empty: the occurrences, left to
    right and apart. *)
Fixpoint replace_in (fuel : nat) (p t s : string) : string :=
  match fuel, s with
  | S fuel, String a s' =>
      match str_strip p s with
      | Some rest => t +:+ replace_in fuel p t rest
      | None => String a (replace_in fuel p t s')
      end
  | _, _ => s
  end.
Definition replace (s p t : string) : string := replace_in (String.length s) p t s.
Definition redacted (e : SecretEntry) : string := "[" +:+ kind e +:+ " redacted]".
Definition redact_form (e : SecretEntry) (text : string) (out : option string) (form : string) : option string :=
  let current := default text out in
  if contains current form then Some (replace current form (redacted e)) else out.
Definition redact (set : SecretSet) (text : string) : option string :=
  foldl (fun out e => foldl (redact_form e text) out (forms e)) None set.

(** ** Masking a command line ([mask.rs])

    A line is its characters here, as scalar values: the code cuts it at
    character boundaries only. *)

Abbreviation chars := (list Z).
Definition MASK_CHAR : Z := 8226.
Definition is_whitespace (c : Z) : bool :=
  in_byte_range 9 13 c || (c =? 32) || (c =? 133) || (c =? 160) || (c =? 5760) || in_byte_range 8192 8202 c || (c =? 8232) ||
  (c =? 8233) || (c =? 8239) || (c =? 8287) || (c =? 12288).
Definition word (s : string) : chars := str_bytes s.
Definition SECRET_FORMS : list (list chars * nat) :=
  [([word "/github-token"], 1%nat); ([word "/git-token"], 2%nat); ([word "/image-provider"; word "key"], 2%nat);
   ([word "/guardian"; word "secret"], 4%nat); ([word "/guardian"; word "key"; word "brave"], 3%nat)].

(** The tokens with where they stand: [i] characters are read, a token may
    have begun at [start]. *)
Fixpoint token_spans_from (i : nat) (start : option nat) (line : chars) : list (nat * nat) :=
  match line with
  | [] => match start with Some s => [(s, i)] | None => [] end
  | c :: line =>
      match is_whitespace c, start with
      | false, None => token_spans_from (S i) (Some i) line
      | true, Some s => (s, i) :: token_spans_from (S i) None line
      | _, _ => token_spans_from (S i) start line
      end
  end.
Definition token_spans (line : chars) : list (nat * nat) := token_spans_from 0 None line.
Definition slice (line : chars) (s e : nat) : chars := take (e - s) (drop s line).
Definition word_at (line : chars) (tokens : list (nat * nat)) (i : nat) : option chars :=
  '(s, e) ← tokens !! i; Some (slice line s e).
Fixpoint secret_span_in (line : chars) (tokens : list (nat * nat)) (table : list (list chars * nat)) : option (nat * nat) :=
  match table with
  | [] => None
  | (lead, at_) :: table =>
      if forallb (fun '(i, w) => bool_decide (word_at line tokens i = Some w)) (imap pair lead) then
        '(start, e) ← tokens !! at_;
        if bool_decide (slice line start e = word "remove") then None
        else '(_, stop) ← last tokens; Some (start, stop)
      else secret_span_in line tokens table
  end.
Definition secret_span (line : chars) : option (nat * nat) := secret_span_in line (token_spans line) SECRET_FORMS.
Definition mask_with (line : chars) (mask : chars -> chars) : chars :=
  match secret_span line with
  | Some (s, e) => take s line ++ mask (slice line s e) ++ drop e line
  | None => line
  end.
Definition mask_secret_argument (line : chars) : chars := mask_with line (fun _ => replicate 4 MASK_CHAR).
Definition mask_secret_argument_keeping_length (line : chars) : chars :=
  mask_with line (fun v => replicate (length v) MASK_CHAR).

(** ** Masking header values in a record *)

Definition CREDENTIAL_HEADERS : list string := ["authorization"; "proxy-authorization"; "cookie"].
Definition MASKED_HEADERS : list string :=
  ["authorization"; "proxy-authorization"; "cookie"; "x-api-key"; "api-key"; "x-auth-token"; "private-token"].
Definition MASKED_VALUE : string := "[masked]".
Definition masked_name (name : string) : bool := existsb (eq_ignore_ascii_case name) MASKED_HEADERS.
Definition mask_header (h : string * Value) : string * Value * bool :=
  let '(name, v) := h in
  if masked_name name && negb (is_null v) then (name, VString MASKED_VALUE, true) else (name, v, false).
Fixpoint mask_credential_headers (value : Value) : Value * bool :=
  match value with
  | VObject map =>
      let entries := List.map (fun '(key, child) =>
        match eq_ignore_ascii_case key "headers", child with
        | true, VObject headers =>
            let masked := mask_header <$> headers in (key, VObject (masked.*1), existsb snd masked)
        | _, _ => let '(child, moved) := mask_credential_headers child in (key, child, moved)
        end) map in
      (VObject (entries.*1), existsb snd entries)
  | VArray items =>
      let results := List.map mask_credential_headers items in (VArray (results.*1), existsb snd results)
  | _ => (value, false)
  end.

(** ** The encoders lose nothing *)

(** The decoders of RFC 4648 and RFC 3986, for reference. *)
Fixpoint index_of (c : Z) (l : bytes) : option Z :=
  match l with
  | [] => None
  | x :: l => if x =? c then Some 0 else Z.succ <$> index_of c l
  end.
Fixpoint join_digits (l : list Z) : bytes :=
  match l with
  | a :: b :: c :: d :: l =>
      let n := ((a * 64 + b) * 64 + c) * 64 + d in [n / 65536; n / 256 mod 256; n mod 256] ++ join_digits l
  | [a; b; c] => let n := (a * 64 + b) * 64 + c in [n / 1024; n / 4 mod 256]
  | [a; b] => [(a * 64 + b) / 16]
  | _ => []
  end.
Definition base64_decode (alphabet : bytes) (l : bytes) : option bytes := join_digits <$> mapM (fun c => index_of c alphabet) l.

Definition hex_value (b : Z) : option Z := if in_byte_range 48 57 b then Some (b - 48) else if in_byte_range 65 70 b then Some (b - 55) else None.
Fixpoint percent_decode (l : bytes) : option bytes :=
  match l with
  | [] => Some []
  | 37 :: h :: k :: l => h ← hex_value h; k ← hex_value k; rest ← percent_decode l; Some (h * 16 + k :: rest)
  | b :: l => rest ← percent_decode l; Some (b :: rest)
  end.

Definition good_alphabet (alphabet : bytes) : Prop := forall v, 0 <= v < 64 -> index_of (digit_at alphabet v) alphabet = Some v.
Lemma check_alphabet alphabet :
  forallb (fun n => bool_decide (index_of (digit_at alphabet (Z.of_nat n)) alphabet = Some (Z.of_nat n))) (seq 0 64) = true ->
  good_alphabet alphabet.
Proof.
  rewrite forallb_forall. intros H v Hv. specialize (H (Z.to_nat v)). rewrite Z2Nat.id in H by lia.
  apply (bool_decide_eq_true_1 _), H, in_seq. lia.
Qed.
Lemma standard_good : good_alphabet standard_alphabet.
Proof. apply check_alphabet. by vm_compute. Qed.
Lemma url_good : good_alphabet url_alphabet.
Proof. apply check_alphabet. by vm_compute. Qed.

Definition byte (b : Z) : Prop := 0 <= b < 256.
Lemma lor_low v k d : 0 <= k -> 0 <= d < 2 ^ k -> Z.lor (Z.shiftl v k) d = v * 2 ^ k + d.
Proof.
  intros Hk Hd. assert (Hno : Z.land (Z.shiftl v k) d = 0).
  { apply Z.bits_inj'. intros i Hi. rewrite Z.land_spec, Z.bits_0. destruct (Z.ltb_spec i k).
    - by rewrite Z.shiftl_spec_low.
    - destruct (decide (d = 0)) as [->|]; [by rewrite Z.testbit_0_l, andb_false_r|].
      rewrite (Z.bits_above_log2 d i), andb_false_r; [done|lia|].
      apply Z.log2_lt_pow2; [lia|]. apply (Z.lt_le_trans _ (2 ^ k)); [apply Hd|apply Z.pow_le_mono_r; lia]. }
  by rewrite <-Z.lxor_lor, <-Z.add_nocarry_lxor, Z.shiftl_mul_pow2 by (done || lia).
Qed.
Lemma chunk_bits_value a b c : byte a -> byte b -> byte c -> chunk_bits a b c = (a * 256 + b) * 256 + c.
Proof.
  unfold byte, chunk_bits. intros Ha Hb Hc.
  rewrite (lor_low a 16 (Z.shiftl b 8)) by (rewrite ?Z.shiftl_mul_pow2; lia).
  replace (a * 2 ^ 16 + Z.shiftl b 8) with (Z.shiftl (a * 2 ^ 8 + b) 8) by (rewrite !Z.shiftl_mul_pow2; lia).
  rewrite lor_low by lia. lia.
Qed.
Lemma digit_value n k : 0 <= k -> Z.land (Z.shiftr n k) 63 = n / 2 ^ k mod 64.
Proof. intros Hk. rewrite Z.shiftr_div_pow2 by lia. change 63 with (Z.ones 6). by rewrite Z.land_ones by lia. Qed.

Section base64.
Context (alphabet : bytes) (Ha : good_alphabet alphabet).
(** The digits read back. *)
Lemma digits_read n k : (k <= 4)%nat -> mapM (fun c => index_of c alphabet) (digits_of alphabet n k) =
  Some (take k [n / 2 ^ 18 mod 64; n / 2 ^ 12 mod 64; n / 2 ^ 6 mod 64; n mod 64]).
Proof.
  intros Hk. unfold digits_of. rewrite !digit_value by lia. change (Z.land n 63) with (Z.land (Z.shiftr n 0) 63).
  rewrite digit_value, Z.div_1_r by lia.
  assert (Hd : forall x, index_of (digit_at alphabet (x mod 64)) alphabet = Some (x mod 64)).
  { intros x. apply Ha. apply Z.mod_pos_bound. lia. }
  destruct k as [|[|[|[|[|k]]]]]; cbn [take fmap list_fmap mapM]; rewrite ?Hd; cbn; rewrite ?Hd; try done.
Qed.
Lemma mapM_some_app {A B} (f : A -> option B) l k x y : mapM f l = Some x -> mapM f k = Some y -> mapM f (l ++ k) = Some (x ++ y).
Proof. intros Hx Hy. apply mapM_Some_2, Forall2_app; by apply mapM_Some_1. Qed.

Lemma join_four n l : 0 <= n < 2 ^ 24 ->
  join_digits (n / 2 ^ 18 mod 64 :: n / 2 ^ 12 mod 64 :: n / 2 ^ 6 mod 64 :: n mod 64 :: l) =
  [n / 65536; n / 256 mod 256; n mod 256] ++ join_digits l.
Proof.
  intros Hn. cbn [join_digits]. assert (E : ((n / 2 ^ 18 mod 64 * 64 + n / 2 ^ 12 mod 64) * 64 + n / 2 ^ 6 mod 64) * 64 + n mod 64 = n).
  { cbn. Z.to_euclidean_division_equations. lia. }
  by rewrite E.
Qed.
Lemma base64_round l : Forall byte l -> base64_decode alphabet (base64_with alphabet l) = Some l.
Proof.
  unfold base64_decode.
  assert (Hbytes : forall a b c, byte a -> byte b -> byte c -> let n := (a * 256 + b) * 256 + c in
    n / 65536 = a /\ n / 256 mod 256 = b /\ n mod 256 = c /\ 0 <= n < 2 ^ 24).
  { unfold byte. intros a b c H1 H2 H3. cbn zeta. split_and!; [Z.to_euclidean_division_equations; lia..|lia|lia]. }
  assert (Hind : forall n l, (length l <= n)%nat -> Forall byte l -> join_digits <$> mapM (fun c => index_of c alphabet) (base64_with alphabet l) = Some l).
  { clear l. induction n as [|n IH]; intros l Hn Hl; [by destruct l; [|cbn in Hn; lia]|].
    destruct l as [|a [|b [|c l]]]; cbn [base64_with].
    - done.
    - apply Forall_cons in Hl as [H1 _]. rewrite digits_read, chunk_bits_value by (done || unfold byte; lia). cbn [take fmap option_fmap option_map join_digits].
      do 2 f_equal. unfold byte in H1. cbn. Z.to_euclidean_division_equations. lia.
    - apply Forall_cons in Hl as [H1 [H2 _]%Forall_cons]. rewrite digits_read, chunk_bits_value by (done || unfold byte; lia). cbn [take fmap option_fmap option_map join_digits].
      unfold byte in *. f_equal. cbn. f_equal; [|f_equal]; Z.to_euclidean_division_equations; lia.
    - apply Forall_cons in Hl as [H1 [H2 [H3 Hl]%Forall_cons]%Forall_cons].
      specialize (IH l ltac:(cbn in Hn; lia) Hl). destruct (mapM _ (base64_with alphabet l)) as [rest|] eqn:Er; [|done]. injection IH as IH.
      rewrite (mapM_some_app _ _ _ _ _ (digits_read _ 4 ltac:(lia)) Er). cbn [take app fmap option_fmap option_map]. f_equal.
      rewrite chunk_bits_value by done. destruct (Hbytes a b c H1 H2 H3) as (E1 & E2 & E3 & E4).
      rewrite join_four by done. by rewrite E1, E2, E3, IH. }
  apply (Hind (length l)). lia.
Qed.
End base64.

Lemma hex_round v : 0 <= v < 16 -> hex_value (upper_hex v) = Some v.
Proof. intros Hv. unfold hex_value, upper_hex, in_byte_range. destruct (Z.ltb_spec v 10); repeat case_match; try lia; f_equal; lia. Qed.
Lemma percent_round l : Forall byte l -> percent_decode (l ≫= percent_byte) = Some l.
Proof.
  induction 1 as [|b l Hb _ IH]; [done|]. change ((b :: l) ≫= percent_byte) with (percent_byte b ++ (l ≫= percent_byte)).
  assert (percent_byte b = if unreserved b then [b] else [37; upper_hex (b / 16); upper_hex (b mod 16)]) as -> by done.
  destruct (unreserved b) eqn:Eu.
  - assert (b <> 37) by (intros ->; done). cbn [app percent_decode]. rewrite IH. cbn [mbind option_bind].
    destruct b as [|p|p]; try done. do 6 (destruct p as [p|p|]; try done).
  - cbn [app percent_decode]. unfold byte in Hb. rewrite (hex_round (b / 16)) by (Z.to_euclidean_division_equations; lia).
    rewrite (hex_round (b mod 16)) by (Z.to_euclidean_division_equations; lia). cbn [mbind option_bind]. rewrite IH. cbn [mbind option_bind].
    do 2 f_equal. pose proof (Z.div_mod b 16). lia.
Qed.

(** C28: The forms a secret is searched in carry it whole: each of the base64
    texts decodes to its bytes and the percent-encoded text to the secret, so
    no two secrets share a form and a form that is found is the secret. *)
Theorem encoders_lose_nothing v :
  base64_decode standard_alphabet (str_bytes (base64_standard_unpadded (str_bytes v))) = Some (str_bytes v) /\
  base64_decode url_alphabet (str_bytes (base64_url_unpadded (str_bytes v))) = Some (str_bytes v) /\
  percent_decode (str_bytes (percent_encode v)) = Some (str_bytes v).
Proof.
  pose proof (str_bytes_range v) as Hv.
  assert (Hb : Forall byte (str_bytes v)) by (eapply Forall_impl; [exact Hv|]; unfold byte; lia).
  assert (Hd : forall alphabet n k, Forall byte alphabet -> Forall byte (digits_of alphabet n k)).
  { intros al n k Hal. unfold digits_of. apply Forall_fmap, Forall_true. intros x. unfold digit_at, compose.
    destruct (al !! Z.to_nat x) as [y|] eqn:E; [|done]. by apply (Forall_lookup_1 _ _ _ _ Hal E). }
  assert (Hw : forall alphabet l, Forall byte alphabet -> Forall byte (base64_with alphabet l)).
  { intros al l Hal. assert (Hind : forall n l, (length l <= n)%nat -> Forall byte (base64_with al l)).
    { clear l. induction n as [|n IH]; intros l Hn; [by destruct l; [|cbn in Hn; lia]|].
      destruct l as [|a [|b [|c l]]]; cbn [base64_with]; [done|by apply Hd|by apply Hd|]. apply Forall_app. split; [by apply Hd|].
      apply IH. cbn in Hn. lia. }
    by apply (Hind (length l)). }
  assert (Hp : Forall byte (str_bytes v ≫= percent_byte)).
  { clear -Hb. induction Hb as [|b l Hb _ IH]; [constructor|]. change ((b :: l) ≫= percent_byte) with (percent_byte b ++ (l ≫= percent_byte)).
    apply Forall_app. split; [|done]. unfold percent_byte, byte in *. case_match; [by apply Forall_singleton|].
    pose proof (Z.mod_pos_bound b 16). assert (0 <= b / 16 < 16) by (Z.to_euclidean_division_equations; lia).
    assert (Hx : forall x, 0 <= x < 16 -> 0 <= upper_hex x < 256) by (intros x Hx; unfold upper_hex; case_match; lia).
    repeat (apply Forall_cons; split); [lia|by apply Hx|apply Hx; lia|constructor]. }
  unfold base64_standard_unpadded, base64_url_unpadded, percent_encode. split_and!.
  - rewrite str_bytes_bytes_str by exact (Hw _ _ (str_bytes_range _)). by apply base64_round; [apply standard_good|].
  - rewrite str_bytes_bytes_str by exact (Hw _ _ (str_bytes_range _)). by apply base64_round; [apply url_good|].
  - rewrite str_bytes_bytes_str by exact Hp. by apply percent_round.
Qed.

(** ** Redaction *)

Definition occurs (f t : bytes) : Prop := exists a b, t = a ++ f ++ b.
Lemma occurs_cons f c t : occurs f (c :: t) <-> (exists b, c :: t = f ++ b) \/ occurs f t.
Proof.
  split.
  - intros ([|x a] & b & E); [left; by exists b|]. injection E as -> E. right. by exists a, b.
  - intros [(b & E)|(a & b & ->)]; [by exists [], b|by exists (c :: a), b].
Qed.
Lemma occurs_app_r f a t : occurs f t -> occurs f (a ++ t).
Proof. intros (p & q & ->). exists (a ++ p), q. by rewrite app_assoc. Qed.
(** A text without the separator lies on one side of it. *)
Lemma occurs_sep f c a b : c ∉ f -> occurs f (a ++ c :: b) -> occurs f a \/ occurs f b.
Proof.
  intros Hc. induction a as [|x a IH]; cbn [app].
  - rewrite occurs_cons. intros [(q & E)|]; [|by right]. destruct f as [|y f]; [left; by exists [], []|].
    injection E as -> E. exfalso. apply Hc. by left.
  - rewrite !occurs_cons. intros [(q & E)|Ho]; [|destruct (IH Ho); tauto].
    left. left. clear IH. destruct f as [|y f]; [by exists (x :: a)|]. injection E as -> E.
    assert (Hf : c ∉ f) by (intros Hin; apply Hc; by right). clear Hc.
    revert f E Hf. induction a as [|z a IH]; intros f E Hf.
    + destruct f as [|y' f]; [by exists []|]. injection E as -> E. exfalso. apply Hf. by left.
    + destruct f as [|y' f]; [by exists (z :: a)|]. injection E as -> E.
      destruct (IH f E) as [r Er]; [intros Hin; apply Hf; by right|]. exists r. cbn in *. by injection Er as ->.
Qed.

Lemma str_length_app a b : String.length (a +:+ b) = (String.length a + String.length b)%nat.
Proof. induction a as [|x a IH]; [done|]. rewrite str_cons_app. cbn. by rewrite IH. Qed.
Lemma strip_prefix_bytes p s b : str_bytes s = str_bytes p ++ b -> is_Some (str_strip p s).
Proof.
  intros E. exists (bytes_str b). apply str_strip_spec, str_bytes_inj. rewrite str_bytes_app, str_bytes_bytes_str; [done|].
  pose proof (str_bytes_range s) as Hr. rewrite E in Hr. by apply Forall_app in Hr as [_ ?].
Qed.
Lemma occurs_prefix p r : occurs p (p ++ r).
Proof. by exists [], r. Qed.
Lemma contains_spec text f : contains text f = true <-> occurs (str_bytes f) (str_bytes text).
Proof.
  unfold contains. rewrite bool_decide_eq_true. induction text as [|a s IH]; cbn [str_from].
  - unfold str_starts. destruct (str_strip f EmptyString) as [r|] eqn:E.
    + rewrite bool_decide_eq_true_2 by eauto. split; [|by eauto]. intros _. apply str_strip_spec in E. rewrite E, str_bytes_app. apply occurs_prefix.
    + rewrite bool_decide_eq_false_2 by (by intros [? ?]). split; [by intros [? ?]|]. intros (p & q & Eo). cbn in Eo.
      symmetry in Eo. apply app_eq_nil in Eo as [-> [Eo ->]%app_eq_nil]. by destruct f.
  - unfold str_starts. destruct (str_strip f (String a s)) as [r|] eqn:E.
    + rewrite bool_decide_eq_true_2 by eauto. split; [|by eauto]. intros _. apply str_strip_spec in E. rewrite E, str_bytes_app. apply occurs_prefix.
    + rewrite bool_decide_eq_false_2 by (by intros [? ?]). rewrite IH. cbn [str_bytes]. rewrite occurs_cons. split; [by right|].
      intros [(b & Eb)|]; [|done]. exfalso.
      destruct (strip_prefix_bytes f (String a s) b Eb) as [r Er]. by rewrite Er in E.
Qed.

Section replace.
Context (m p : string) (Hp : p <> EmptyString).
#[local] Abbreviation t := ("[" +:+ m +:+ "]").
Definition bracket_free (f : bytes) : Prop := f <> [] /\ 91 ∉ f /\ 93 ∉ f.

(** Output without brackets is copied. *)
Lemma replace_prefix fuel s g : (91 ∉ g) -> forall b, str_bytes (replace_in fuel p t s) = g ++ b -> exists b', str_bytes s = g ++ b'.
Proof.
  revert fuel s. induction g as [|c g IH]; intros fuel s Hg b E; [by exists (str_bytes s)|].
  destruct fuel as [|fuel]; cbn [replace_in] in E; [by exists b|]. destruct s as [|a s]; [done|].
  destruct (str_strip p (String a s)) as [rest|].
  - rewrite str_bytes_app in E. cbn in E. injection E as <- _. exfalso. apply Hg. by left.
  - cbn [str_bytes] in *. injection E as <- E. destruct (IH fuel s) with (b := b) as [b' ->]; [intros Hin; apply Hg; by right|done|]. by exists b'.
Qed.
Lemma replace_absent fuel s g : (String.length s <= fuel)%nat -> bracket_free g -> ~ occurs g (str_bytes m) ->
  (~ occurs g (str_bytes s) \/ g = str_bytes p) -> ~ occurs g (str_bytes (replace_in fuel p t s)).
Proof.
  intros Hf (Hne & H1 & H2) Hm. revert s Hf. induction fuel as [|fuel IH]; intros s Hf Hs; cbn [replace_in].
  { destruct s; [|cbn in Hf; lia]. intros (a & b & E). symmetry in E. by apply app_eq_nil in E as [_ [? _]%app_eq_nil]. }
  destruct s as [|a s]; [intros (x & y & E); symmetry in E; by apply app_eq_nil in E as [_ [? _]%app_eq_nil]|].
  destruct (str_strip p (String a s)) as [rest|] eqn:E.
  - apply str_strip_spec in E. rewrite !str_bytes_app. cbn [str_bytes app]. intros [(b & Eb)|Ho]%occurs_cons.
    { destruct g as [|c g]; [done|]. injection Eb as <- _. apply H1. by left. }
    rewrite <-app_assoc in Ho. cbn [app] in Ho. apply occurs_sep in Ho as [Ho|Ho]; [done| |done]. revert Ho.
    apply IH.
    + rewrite E, str_length_app in Hf. destruct p; [done|]. cbn in Hf. lia.
    + destruct Hs as [Hs|]; [left|by right]. intros Ho. apply Hs. rewrite E, str_bytes_app. by apply occurs_app_r.
  - cbn [str_bytes]. rewrite occurs_cons. intros [(b & Eb)|Ho].
    + destruct g as [|c g]; [done|]. injection Eb as <- Eb.
      destruct (replace_prefix fuel s g) with (b := b) as [b' Es]; [intros Hin; apply H1; by right|done|].
      assert (Ea : str_bytes (String a s) = (byte_of a :: g) ++ b') by (cbn; by rewrite Es).
      destruct Hs as [Hs|Hs]; [apply Hs; rewrite Ea; apply occurs_prefix|]. rewrite Hs in Ea.
      destruct (strip_prefix_bytes p (String a s) b' Ea) as [r Er]. by rewrite Er in E.
    + revert Ho. apply IH; [cbn in Hf; lia|]. destruct Hs as [Hs|]; [left|by right]. intros Ho. apply Hs. cbn [str_bytes]. apply occurs_cons. by right.
Qed.
End replace.

(** A form that redaction can remove: it holds no bracket and is no part of
    what replaces it. *)
Definition removable (set : SecretSet) (f : string) : Prop :=
  bracket_free (str_bytes f) /\ forall e, e ∈ set -> contains (kind e +:+ " redacted") f = false.

(** A text is clear of the secrets when it holds none of their forms. *)
Lemma found_in_none set t : found_in set t = None <-> forall e f, e ∈ set -> f ∈ forms e -> contains t f = false.
Proof.
  unfold found_in. split.
  - intros Hn e f He Hf. destruct (List.find _ set) eqn:Ef; [done|]. apply not_true_is_false. intros Hc.
    pose proof (List.find_none _ _ Ef e (proj1 (list_elem_of_In _ _) He)) as Hx. cbn beta in Hx. rewrite <-not_true_iff_false in Hx. apply Hx, existsb_exists.
    exists f. split; [by apply list_elem_of_In|done].
  - intros Hn. destruct (List.find _ set) as [e|] eqn:Ef; [|done]. apply List.find_some in Ef as [He (f & Hf & Hc)%existsb_exists].
    by rewrite (Hn e f) in Hc by (by apply list_elem_of_In).
Qed.

Lemma redacted_text e : redacted e = "[" +:+ (kind e +:+ " redacted") +:+ "]".
Proof. unfold redacted. by rewrite str_app_assoc. Qed.
Lemma redact_form_absent set e text out form g : removable set form -> removable set g -> e ∈ set ->
  contains (default text out) g = false \/ g = form -> contains (default text (redact_form e text out form)) g = false.
Proof.
  intros [Hf _] [Hg Hm] He Hd. unfold redact_form. destruct (contains (default text out) form) eqn:Hc.
  - cbn. apply not_true_is_false. rewrite contains_spec. specialize (Hm e He). apply not_true_iff_false in Hm. rewrite contains_spec in Hm.
    rewrite redacted_text. unfold replace. apply replace_absent; try done.
    + intros ->. by destruct Hf.
    + destruct Hd as [Hd| ->]; [left|by right]. apply not_true_iff_false in Hd. by rewrite contains_spec in Hd.
  - destruct Hd as [|Heq]; [done|by rewrite Heq].
Qed.
Lemma redact_entry_absent set e text fs out g : (forall f, f ∈ fs -> removable set f) -> removable set g -> e ∈ set ->
  contains (default text out) g = false \/ g ∈ fs -> contains (default text (foldl (redact_form e text) out fs)) g = false.
Proof.
  intros Hfs Hg He. revert out. induction fs as [|f fs IH]; intros out Hd; cbn [foldl].
  - destruct Hd as [|Hd]; [done|]. by apply elem_of_nil in Hd.
  - apply IH; [intros f' Hf'; apply Hfs; by right|].
    destruct Hd as [Hd|[->|]%elem_of_cons]; [left|left|by right]; apply (redact_form_absent set); eauto; apply Hfs; by left.
Qed.

(** C26: A redacted text carries no stored secret in any of its forms,
    provided no form holds a bracket or is part of the words put in its
    place; a text that carries none is left as it is. *)
Theorem redaction_leaves_no_secret set text :
  (forall e f, e ∈ set -> f ∈ forms e -> removable set f) ->
  found_in set (default text (redact set text)) = None /\ (found_in set text = None <-> redact set text = None).
Proof.
  intros Hset. pose proof (found_in_none set) as Hfound.
  assert (Habs : forall l out g, l ⊆ set -> removable set g -> contains (default text out) g = false \/ (exists e, e ∈ l /\ g ∈ forms e) ->
    contains (default text (foldl (fun out e => foldl (redact_form e text) out (forms e)) out l)) g = false).
  { induction l as [|e l IH]; intros out g Hl Hg Hd; cbn [foldl].
    - destruct Hd as [|(e & He & _)]; [done|]. by apply elem_of_nil in He.
    - assert (He : e ∈ set) by (apply Hl; by left). apply IH; [intros x Hx; apply Hl; by right|done|].
      destruct Hd as [Hd|(e' & [->|Hin]%elem_of_cons & Hf)]; [left|left|right; by exists e'];
        apply (redact_entry_absent set); eauto. }
  split.
  - apply Hfound. intros e f He Hf. apply Habs; [done|by apply (Hset e)|]. right. by exists e.
  - rewrite Hfound. unfold redact. split.
    + intros Hn. assert (Hsub : set ⊆ set) by done. revert Hsub. generalize set at 1 3. intros l.
      induction l as [|e l IH]; intros Hl; [done|]. cbn [foldl].
      assert (Hk : forall fs, fs ⊆ forms e -> foldl (redact_form e text) None fs = None).
      { induction fs as [|f fs IHf]; intros Hfs; [done|]. cbn [foldl]. unfold redact_form at 2. cbn [default].
        rewrite (Hn e f) by first [apply Hl; by left|apply Hfs; by left]. apply IHf. intros x Hx. apply Hfs. by right. }
      rewrite Hk by done. apply IH. intros x Hx. apply Hl. by right.
    + intros Hr e f He Hf. pose proof (Habs set None f ltac:(done) (Hset e f He Hf) (or_intror (ex_intro _ e (conj He Hf)))) as Hc.
      by rewrite Hr in Hc.
Qed.

(** ** A masked line does not depend on the secret *)

(** Reading a stretch of a line: the tokens it closes and the one it leaves
    open. *)
Fixpoint scan (i : nat) (start : option nat) (line : chars) : list (nat * nat) * option nat :=
  match line with
  | [] => ([], start)
  | c :: line =>
      match is_whitespace c, start with
      | false, None => scan (S i) (Some i) line
      | true, Some s => let '(closed, open) := scan (S i) None line in ((s, i) :: closed, open)
      | _, _ => scan (S i) start line
      end
  end.
Lemma spans_app i start a b :
  token_spans_from i start (a ++ b) = (scan i start a).1 ++ token_spans_from (i + length a) (scan i start a).2 b.
Proof.
  revert i start. induction a as [|c a IH]; intros i start; cbn [app scan length]; [by rewrite Nat.add_0_r|].
  rewrite <-Nat.add_succ_comm. cbn [token_spans_from].
  destruct (is_whitespace c), start as [s|]; rewrite IH; try done. by destruct (scan (S i) None a).
Qed.

Definition all_space (l : chars) : Prop := Forall (fun c => is_whitespace c = true) l.
Lemma spans_space i start t : all_space t -> token_spans_from i start t = match start with Some s => [(s, i)] | None => [] end.
Proof.
  intros Ht. revert i start. induction Ht as [|c t Hc Ht IH]; intros i start; cbn [token_spans_from]; [done|].
  rewrite Hc. destruct start; by rewrite IH.
Qed.
(** A stretch that ends in white space leaves no token open, one that ends
    in anything else does. *)
Lemma scan_last i start a c : (scan i start (a ++ [c])).2 = None <-> is_whitespace c = true.
Proof.
  revert i start. induction a as [|x a IH]; intros i start; cbn [app scan].
  - destruct (is_whitespace c), start; cbn; naive_solver.
  - destruct (is_whitespace x), start; try apply IH. specialize (IH (S i) None). by destruct (scan (S i) None (a ++ [c])).
Qed.
(** Closed tokens end within what was read. *)
Lemma scan_closed i start a : match start with Some s => (s <= i)%nat | None => True end ->
  Forall (fun x => (x.1 <= x.2 < i + length a)%nat) (scan i start a).1.
Proof.
  revert i start. induction a as [|c a IH]; intros i start Hs; cbn [scan length]; [constructor|]. rewrite <-Nat.add_succ_comm.
  destruct (is_whitespace c), start as [s|]; [|apply IH; lia..].
  specialize (IH (S i) None I). destruct (scan (S i) None a) as [cl op]. apply Forall_cons. split; [cbn; lia|done].
Qed.

Definition opened (i : nat) (start : option nat) : nat := match start with Some s => s | None => i end.
(** The word a stretch begins with is its first token. *)
Fixpoint first_word (l : chars) : chars :=
  match l with
  | c :: l => if is_whitespace c then [] else c :: first_word l
  | [] => []
  end.
Lemma spans_open i s l : exists rest, token_spans_from i (Some s) l = (s, (i + length (first_word l))%nat) :: rest /\
  Forall (fun x => (i <= x.1)%nat) rest.
Proof.
  assert (Hfrom : forall l i start, (opened i start <= i)%nat -> Forall (fun x => (opened i start <= x.1)%nat) (token_spans_from i start l)).
  { clear. induction l as [|c l IH]; intros i start Hs; cbn [token_spans_from].
    - destruct start; by repeat constructor.
    - destruct (is_whitespace c), start as [s|]; unfold opened in *.
      + apply Forall_cons. split; [done|]. eapply Forall_impl; [apply (IH (S i) None); unfold opened; lia|]. intros x. unfold opened. lia.
      + eapply Forall_impl; [apply (IH (S i) None); unfold opened; lia|]. intros x. unfold opened. lia.
      + apply (IH (S i) (Some s)). unfold opened. lia.
      + apply (IH (S i) (Some i)). unfold opened. lia. }
  revert i. induction l as [|c l IH]; intros i; cbn [token_spans_from first_word].
  - exists []. cbn. rewrite Nat.add_0_r. by split.
  - destruct (is_whitespace c).
    + exists (token_spans_from (S i) None l). cbn. rewrite Nat.add_0_r. split; [done|].
      eapply Forall_impl; [apply (Hfrom l (S i) None); cbn; lia|]. intros x. cbn. lia.
    + destruct (IH (S i)) as (rest & -> & Hr). exists rest. cbn [length]. rewrite Nat.add_succ_comm. split; [done|].
      eapply Forall_impl; [exact Hr|]. cbn. lia.
Qed.
Lemma first_word_slice l : slice l 0 (length (first_word l)) = first_word l.
Proof.
  unfold slice. rewrite Nat.sub_0_r, drop_0. induction l as [|c l IH]; [done|]. cbn. destruct (is_whitespace c); [done|]. cbn. by rewrite IH.
Qed.

(** A value as it stands on a line: it neither begins nor ends with white
    space. *)
Definition a_value (v : chars) : Prop :=
  (exists c l, v = c :: l /\ is_whitespace c = false) /\ (exists l c, v = l ++ [c] /\ is_whitespace c = false).

Section line.
Context (p t : chars) (Hp : exists l c, p = l ++ [c] /\ is_whitespace c = true) (Ht : all_space t).
#[local] Abbreviation before := (scan 0 None p).1.

Lemma value_spans v : a_value v -> exists rest, token_spans (p ++ v ++ t) = before ++ (length p, (length p + length (first_word (v ++ t)))%nat) :: rest /\
  Forall (fun x => (length p < x.1)%nat) rest /\ (snd <$> last (token_spans (p ++ v ++ t))) = Some (length p + length v)%nat.
Proof.
  intros [(c & l & -> & Hc) (l' & c' & E & Hc')]. unfold token_spans.
  assert (Hopen : (scan 0 None p).2 = None) by (destruct Hp as (l0 & c0 & -> & H0); by apply scan_last).
  rewrite spans_app, Hopen. cbn [Nat.add].
  assert (Hhead : exists rest, token_spans_from (length p) None ((c :: l) ++ t) = (length p, (length p + length (first_word ((c :: l) ++ t)))%nat) :: rest /\
    Forall (fun x => (length p < x.1)%nat) rest).
  { cbn [app token_spans_from first_word]. rewrite Hc. destruct (spans_open (S (length p)) (length p) (l ++ t)) as (rest & -> & Hr).
    exists rest. cbn [length]. rewrite Nat.add_succ_comm. split; [done|]. eapply Forall_impl; [exact Hr|]. cbn. lia. }
  destruct Hhead as (rest & Hh & Hr). exists rest. rewrite Hh. split_and!; [done|done|].
  rewrite <-Hh, spans_app, spans_space by done. destruct (scan (length p) None (c :: l)).2 as [s|] eqn:Es.
  - by rewrite app_assoc, last_snoc.
  - rewrite E in Es. apply scan_last in Es. congruence.
Qed.

Lemma value_word v j : a_value v -> (j < length before)%nat -> word_at (p ++ v ++ t) (token_spans (p ++ v ++ t)) j = word_at p before j.
Proof.
  intros Hv Hj. destruct (value_spans v Hv) as (rest & -> & _). unfold word_at. rewrite lookup_app_l by done.
  destruct (before !! j) as [[s e]|] eqn:E; [|done]. cbn. f_equal. unfold slice.
  pose proof (Forall_lookup_1 _ _ _ _ (scan_closed 0 None p I) E) as Hb. cbn in Hb.
  rewrite drop_app_le by lia. by rewrite take_app_le by (rewrite length_drop; lia).
Qed.
Lemma value_token v : a_value v -> token_spans (p ++ v ++ t) !! length before = Some (length p, (length p + length (first_word (v ++ t)))%nat).
Proof. intros Hv. destruct (value_spans v Hv) as (rest & -> & _). by rewrite lookup_app_r, Nat.sub_diag by done. Qed.
Lemma value_index v k e : a_value v -> token_spans (p ++ v ++ t) !! k = Some (length p, e) -> k = length before.
Proof.
  intros Hv. destruct (value_spans v Hv) as (rest & -> & Hr & _). intros Hk. destruct (decide (k < length before)%nat) as [Hlt|].
  - rewrite lookup_app_l in Hk by done. pose proof (Forall_lookup_1 _ _ _ _ (scan_closed 0 None p I) Hk) as Hb. cbn in Hb. lia.
  - rewrite lookup_app_r in Hk by lia. destruct (k - length before)%nat as [|m] eqn:E; [lia|]. cbn in Hk.
    pose proof (Forall_lookup_1 _ _ _ _ Hr Hk) as Hb. cbn in Hb. lia.
Qed.
Lemma value_slice v : slice (p ++ v ++ t) (length p) (length p + length (first_word (v ++ t))) = first_word (v ++ t).
Proof.
  unfold slice. rewrite drop_app_length. replace (length p + length (first_word (v ++ t)) - length p)%nat with (length (first_word (v ++ t)) - 0)%nat by lia.
  apply first_word_slice.
Qed.

#[local] Abbreviation spans_of v := (token_spans (p ++ v ++ t)).
(** The words that lead a form stand before its secret, and before that of
    every later form. *)
Fixpoint leads_first (table : list (list chars * nat)) : Prop :=
  match table with
  | [] => True
  | (lead, at_) :: table => (length lead <= at_)%nat /\ Forall (fun f => (length lead <= f.2)%nat) table /\ leads_first table
  end.
Definition leads (line : chars) (tokens : list (nat * nat)) (lead : list chars) : bool :=
  forallb (fun '(i, w) => bool_decide (word_at line tokens i = Some w)) (imap pair lead).
Lemma leads_same v v' lead : a_value v -> a_value v' -> (length lead <= length before)%nat ->
  leads (p ++ v ++ t) (spans_of v) lead = leads (p ++ v' ++ t) (spans_of v') lead.
Proof.
  intros Hv Hv' Hl. unfold leads.
  assert (Hin : forall x, x ∈ imap pair lead -> (x.1 < length before)%nat).
  { intros x (i & Hx)%list_elem_of_lookup. rewrite list_lookup_imap in Hx. destruct (lead !! i) as [w|] eqn:E; [|done]. injection Hx as <-. cbn.
    apply lookup_lt_Some in E. lia. }
  induction (imap pair lead) as [|[i w] l IH]; [done|]. cbn [forallb].
  rewrite !value_word by (done || apply (Hin (i, w)); by left). f_equal. apply IH. intros x Hx. apply Hin. by right.
Qed.

Lemma span_at v table stop : a_value v -> secret_span_in (p ++ v ++ t) (spans_of v) table = Some (length p, stop) ->
  exists f, f ∈ table /\ f.2 = length before.
Proof.
  intros Hv. induction table as [|[lead at_] table IH]; [done|]. cbn [secret_span_in]. case_match.
  - intros (x & Hx & Hs)%bind_Some. destruct x as [s e]. case_bool_decide; [done|]. apply bind_Some in Hs as ([s' e'] & Hl & [= -> ->]).
    exists (lead, at_). split; [by left|]. by eapply value_index.
  - intros (f & Hf & Hk)%IH. exists f. split; [by right|done].
Qed.
Lemma same_span v v' table stop : leads_first table -> a_value v -> a_value v' -> first_word (v' ++ t) <> word "remove" ->
  secret_span_in (p ++ v ++ t) (spans_of v) table = Some (length p, stop) ->
  secret_span_in (p ++ v' ++ t) (spans_of v') table = Some (length p, (length p + length v')%nat).
Proof.
  intros Hok Hv Hv' Hr. induction table as [|[lead at_] table IH]; [done|]. destruct Hok as (Hl & Hlater & Hok).
  cbn [secret_span_in]. fold (leads (p ++ v ++ t) (spans_of v) lead) (leads (p ++ v' ++ t) (spans_of v') lead). intros Hspan.
  assert (Hlead : (length lead <= length before)%nat).
  { destruct (leads (p ++ v ++ t) (spans_of v) lead).
    - apply bind_Some in Hspan as ([s e] & Hx & Hs). case_bool_decide; [done|]. apply bind_Some in Hs as ([s' e'] & _ & [= -> ->]).
      apply value_index in Hx; [|done]. by rewrite <-Hx.
    - apply span_at in Hspan as (f & Hf & <-); [|done]. by apply (proj1 (Forall_forall _ _) Hlater). }
  rewrite <-(leads_same v v') by done. destruct (leads (p ++ v ++ t) (spans_of v) lead); [|by apply IH].
  apply bind_Some in Hspan as ([s e] & Hx & Hs). case_bool_decide; [done|]. apply bind_Some in Hs as ([s' e'] & _ & [= -> ->]).
  apply value_index in Hx; [|done]. rewrite Hx, value_token by done. cbn [mbind option_bind]. rewrite value_slice, bool_decide_eq_false_2 by done.
  destruct (value_spans v' Hv') as (_ & _ & _ & Hlast). destruct (last (spans_of v')) as [[s2 e2]|]; [|done]. injection Hlast as ->. done.
Qed.
End line.

Lemma forms_lead_first : leads_first SECRET_FORMS.
Proof. unfold SECRET_FORMS, leads_first. cbn. split_and!; try lia; repeat (apply Forall_cons; split; [cbn; lia|]); constructor. Qed.

(** C27: A masked line says nothing about the secret. When a line is one of
    the forms that carry a secret, the row shown is the line before the
    secret, four mask characters and the white space after it, and any other
    value in its place, of whatever length and with whatever spaces, gives
    the same row. *)
Theorem masked_line_hides_secret p v t stop :
  (exists l c, p = l ++ [c] /\ is_whitespace c = true) -> all_space t -> a_value v ->
  secret_span (p ++ v ++ t) = Some (length p, stop) ->
  forall v', a_value v' -> first_word (v' ++ t) <> word "remove" ->
  mask_secret_argument (p ++ v' ++ t) = p ++ replicate 4 MASK_CHAR ++ t.
Proof.
  intros Hp Ht Hv Hspan v' Hv' Hr. unfold mask_secret_argument, mask_with, secret_span.
  rewrite (same_span p t Hp Ht v v' SECRET_FORMS stop forms_lead_first Hv Hv' Hr Hspan).
  rewrite take_app_length. do 2 f_equal. rewrite app_assoc, <-length_app. apply drop_app_length.
Qed.

Definition secret_line : chars := word "/guardian secret api.example.com Authorization ".
Lemma masked_line_hides_secret_witness :
  mask_secret_argument (secret_line ++ word "Bearer token-9" ++ word " ") = secret_line ++ replicate 4 MASK_CHAR ++ word " ".
Proof.
  apply (masked_line_hides_secret secret_line (word "x") (word " ") (S (length secret_line))).
  - exists (word "/guardian secret api.example.com Authorization"), 32. split; vm_compute; reflexivity.
  - repeat constructor.
  - split; [exists 120, []|exists [], 120]; split; vm_compute; reflexivity.
  - vm_compute. reflexivity.
  - split; [exists 66, (word "earer token-9")|exists (word "Bearer token-"), 57]; split; vm_compute; reflexivity.
  - vm_compute. discriminate.
Defined.

(** ** The values of masked headers *)

(** No value stands under a masked name in a [headers] object. *)
Fixpoint headers_masked (value : Value) : bool :=
  match value with
  | VObject map =>
      forallb (fun '(key, child) =>
        match eq_ignore_ascii_case key "headers", child with
        | true, VObject headers => forallb (fun '(name, v) => negb (masked_name name) || is_null v || bool_decide (as_str v = Some MASKED_VALUE)) headers
        | _, _ => headers_masked child
        end) map
  | VArray items => forallb headers_masked items
  | _ => true
  end.

Definition header_masked (h : string * Value) : bool :=
  let '(name, v) := h in negb (masked_name name) || is_null v || bool_decide (as_str v = Some MASKED_VALUE).
Lemma mask_header_spec h : header_masked (mask_header h).1 = true /\ ((mask_header h).2 = false -> (mask_header h).1 = h).
Proof.
  destruct h as [name v]. unfold mask_header, header_masked. destruct (masked_name name) eqn:Hn, (is_null v) eqn:Hv; cbn [andb negb fst snd]; rewrite Hn, ?Hv; done.
Qed.
(** A list whose elements are each masked, and unchanged where nothing moved. *)
Lemma mask_list {A} (f : A -> A * bool) (ok : A -> bool) l :
  Forall (fun x => ok (f x).1 = true /\ ((f x).2 = false -> (f x).1 = x)) l ->
  forallb ok ((List.map f l).*1) = true /\ (existsb snd (List.map f l) = false -> (List.map f l).*1 = l).
Proof.
  induction 1 as [|x l [H1 H2] _ [IH1 IH2]]; [done|]. cbn [List.map existsb]. rewrite fmap_cons. cbn [forallb]. rewrite H1. split; [done|].
  intros [Ha Hb]%orb_false_iff. by rewrite H2, IH2.
Qed.

(** After masking, a record holds no value under a credential header's
    name in any [headers] object it reaches, and a record in which nothing
    moved is left as it is. *)
Theorem header_values_are_masked value :
  headers_masked (mask_credential_headers value).1 = true /\
  ((mask_credential_headers value).2 = false -> (mask_credential_headers value).1 = value).
Proof.
  induction value as [| | | |items IH|map IH] using Value_ind'; cbn [mask_credential_headers]; try done.
  - cbn [fst snd headers_masked]. destruct (mask_list mask_credential_headers headers_masked items IH) as [H1 H2].
    split; [done|]. intros Hm. by rewrite H2.
  - cbn [fst snd headers_masked]. match goal with |- context [List.map ?f map] => match goal with |- context [forallb ?ok] =>
      destruct (mask_list f ok map) as [H1 H2] end end; [|split; [done|intros Hm; by rewrite H2]].
    eapply Forall_impl; [exact IH|]. intros [key child] [H1 H2]. cbn [fst snd] in *.
    destruct (eq_ignore_ascii_case key "headers") eqn:Hk.
    2:{ destruct (mask_credential_headers child) as [c moved]. cbn [fst snd] in *. rewrite Hk. split; [done|]. intros Hm. by rewrite H2. }
    destruct child as [| | | |items|headers]; cbn [fst snd]; rewrite ?Hk.
    1-5: destruct (mask_credential_headers _) as [c moved] eqn:Hc; cbn [fst snd] in *; rewrite Hk; cbn in Hc; injection Hc as <- <-; split; [done|intros Hm; f_equal; by apply H2].
    destruct (mask_list mask_header header_masked headers) as [H3 H4]; [by apply Forall_true, mask_header_spec|].
    split; [exact H3|]. intros Hm. f_equal. f_equal. by apply H4.
Qed.

(** An object under another name inside a [headers] object is not visited. *)
Lemma nested_headers_kept (s : string) :
  let record := VObject [("headers", VObject [("x", VObject [("headers", VObject [("cookie", VString s)])])])] in
  mask_credential_headers record = (record, false).
Proof. done. Qed.

Definition two_secrets : SecretSet := add (add [] "the GitHub token" "ghp_0123456789") "a git host token" "Bearer glpat-0123456789".
Lemma two_secrets_removable e f : e ∈ two_secrets -> f ∈ forms e -> removable two_secrets f.
Proof.
  assert (Hall : Forall (fun e => Forall (fun f => (str_bytes f <> [] /\ 91 ∉ str_bytes f /\ 93 ∉ str_bytes f) /\
    Forall (fun e => contains (kind e +:+ " redacted") f = false) two_secrets) (forms e)) two_secrets).
  { apply (bool_decide_unpack _). vm_compute. exact I. }
  intros He Hf. rewrite Forall_forall in Hall. specialize (Hall e He). rewrite Forall_forall in Hall. destruct (Hall f Hf) as [Hb Hk].
  split; [exact Hb|]. by apply Forall_forall.
Qed.
Lemma redaction_leaves_no_secret_witness :
  redact two_secrets "x ghp_0123456789 Z2xwYXQtMDEyMzQ1Njc4OQ==" = Some "x [the GitHub token redacted] [a git host token redacted]==" /\
  found_in two_secrets "x [the GitHub token redacted] [a git host token redacted]==" = None.
Proof.
  assert (E : redact two_secrets "x ghp_0123456789 Z2xwYXQtMDEyMzQ1Njc4OQ==" = Some "x [the GitHub token redacted] [a git host token redacted]==") by (vm_compute; reflexivity).
  split; [exact E|]. pose proof (redaction_leaves_no_secret two_secrets "x ghp_0123456789 Z2xwYXQtMDEyMzQ1Njc4OQ==" two_secrets_removable) as [H _].
  rewrite E in H. exact H.
Defined.
