(* ===== verification/HtmlText.v ===== *)
(** * HTML reduced to text ([embra-guardian/src/guest/html_text.rs])

    The reducer every guest tool ships with, over the UTF-8 bytes of a page.
    A position in the page is what is left of it. The properties say that the
    output is words with single spaces, and that a page without markup is
    its own words. *)

From S2P Require Import Prelude Bytes Text Escapes.

Definition ends_space (out : bytes) : bool := match last out with Some b => b =? 32 | None => false end.
Definition push_space (out : bytes) : bytes :=
  match out with
  | [] => out
  | _ => if ends_space out then out else out ++ [32]
  end.
(** A character, as its bytes. *)
Definition push_collapsible (out ch : bytes) : bytes := match space_front ch with O => out ++ ch | _ => push_space out end.

(** [memchr] and [find_sub]: what is after the first occurrence. *)
Fixpoint after_byte (c : Z) (l : bytes) : option bytes :=
  match l with
  | [] => None
  | b :: l => if b =? c then Some l else after_byte c l
  end.
Fixpoint find_sub (needle l : bytes) : option bytes :=
  if starts_with l needle then Some l
  else match l with [] => None | _ :: l => find_sub needle l end.

(** The end of a tag, from what follows its [<]: [plain] is the rule for a
    quote that never closes. *)
Fixpoint tag_scan (fuel : nat) (plain l : bytes) : bytes :=
  match fuel, l with
  | S fuel, c :: rest =>
      if c =? 62 then rest
      else if (c =? 34) || (c =? 39) then
        match after_byte c rest with
        | Some r => tag_scan fuel plain r
        | None => plain
        end
      else tag_scan fuel plain rest
  | _, _ => []
  end.
Definition tag_end (l : bytes) : bytes :=
  if starts_with l (str_bytes "<!--") then
    match find_sub (str_bytes "-->") (drop 4 l) with Some r => drop 3 r | None => [] end
  else
    let rest := drop 1 l in tag_scan (length rest) (default [] (after_byte 62 rest)) rest.

Definition is_ascii_whitespace (b : Z) : bool := (b =? 32) || (b =? 9) || (b =? 10) || (b =? 12) || (b =? 13).
(** The end of an element of that name that opens here; [lower] is the page
    in lower case. *)
Definition skip_element (lower name : bytes) : option bytes :=
  if starts_with (drop 1 lower) name then
    match drop (1 + length name) lower with
    | c :: _ =>
        if (c =? 62) || (c =? 47) || is_ascii_whitespace c then
          match tag_end lower with
          | [] => Some []
          | inside => match find_sub (60 :: 47 :: name) inside with Some p => Some (tag_end p) | None => Some [] end
          end
        else None
    | [] => None
    end
  else None.

Definition ENTITIES : list (string * Z) :=
  [("&amp;", 38); ("&lt;", 60); ("&gt;", 62); ("&quot;", 34); ("&apos;", 39); ("&#39;", 39); ("&nbsp;", 32)].
(** [u32::from_str_radix]: an optional plus sign and digits that fit. *)
Definition radix_digit (radix b : Z) : option Z :=
  let d := if (48 <=? b) && (b <=? 57) then b - 48
           else if (97 <=? b) && (b <=? 122) then b - 87
           else if (65 <=? b) && (b <=? 90) then b - 55 else radix in
  if d <? radix then Some d else None.
Definition from_str_radix (radix : Z) (l : bytes) : option Z :=
  let digits := match l with 43 :: d => d | _ => l end in
  match digits with
  | [] => None
  | _ => foldl (fun acc b => acc ← acc; d ← radix_digit radix b; let n := acc * radix + d in if n <? 2 ^ 32 then Some n else None)
           (Some 0) digits
  end.
Fixpoint index_byte (c : Z) (l : bytes) : option nat :=
  match l with
  | [] => None
  | b :: l => if b =? c then Some O else S <$> index_byte c l
  end.
Definition numeric_entity (l : bytes) : option (Z * nat) :=
  if starts_with l (str_bytes "&#") then
    let body := drop 2 l in
    semi ← index_byte 59 body;
    if (semi =? 0)%nat || (8 <? semi)%nat then None
    else
      let '(digits, radix) := match body with
                              | 120 :: hex | 88 :: hex => (take (semi - 1) hex, 16)
                              | _ => (take semi body, 10)
                              end in
      code ← from_str_radix radix digits; ch ← char_from_u32 code; Some (ch, (2 + semi + 1)%nat)
  else None.
(** The character an entity stands for and its length. *)
Definition entity (l : bytes) : option (Z * nat) :=
  match List.find (fun '(name, _) => starts_with l (str_bytes name)) ENTITIES with
  | Some (name, ch) => Some (ch, String.length name)
  | None => numeric_entity l
  end.
Definition decode_entity (l out : bytes) : option (nat * bytes) :=
  '(ch, used) ← entity l; Some (used, push_collapsible out (utf8_char ch)).

Definition utf8_len (first : Z) : nat := if first <? 128 then 1 else if first <? 224 then 2 else if first <? 240 then 3 else 4.

(** The loop: what is left and its lower case, of one length. *)
Fixpoint reduce (fuel : nat) (l lower out : bytes) : bytes :=
  match fuel, l with
  | S fuel, c :: rest =>
      if c =? 60 then
        let skipped := match skip_element lower (str_bytes "script") with
                       | Some j => Some j
                       | None => skip_element lower (str_bytes "style")
                       end in
        match skipped with
        | Some j => reduce fuel (drop (length l - length j) l) j (push_space out)
        | None => let j := tag_end l in reduce fuel j (drop (length l - length j) lower) (push_space out)
        end
      else
        match (if c =? 38 then decode_entity l out else None) with
        | Some (used, out) => reduce fuel (drop used l) (drop used lower) out
        | None =>
            let n := utf8_len c in
            reduce fuel (drop n l) (drop n lower) (push_collapsible out (take n l))
        end
  | _, _ => out
  end.
Fixpoint drop_spaces (l : bytes) : bytes :=
  match l with
  | 32 :: l => drop_spaces l
  | _ => l
  end.
Definition to_text (html : string) : string :=
  let l := str_bytes html in
  bytes_str (reverse (drop_spaces (reverse (reduce (length l) l (ascii_lower <$> l) [])))).

(** ** A page without markup *)

(** A character of valid UTF-8: its bytes after the first are no white space
    and the rest is valid. *)
Lemma valid_char c l : utf8_valid (c :: l) = true ->
  Forall (fun b => space_front (b :: []) = O /\ utf8_cont b = true) (take (utf8_len c - 1) l) /\
  utf8_valid (drop (utf8_len c - 1) l) = true /\ length (take (utf8_len c - 1) l) = (utf8_len c - 1)%nat.
Proof.
  assert (Hc : forall b, utf8_cont b = true -> space_front [b] = O /\ utf8_cont b = true).
  { intros b Hb. split; [|done]. unfold utf8_cont, space_front in *. by replace (_ || _) with false by lia. }
  unfold utf8_len. cbn [utf8_valid]. destruct ((0 <=? c) && (c <=? 127)) eqn:E1.
  { intros Hl. replace (c <? 128) with true by lia. cbn. by repeat constructor. }
  destruct l as [|b1 l]; [done|]. destruct ((194 <=? c) && (c <=? 223)) eqn:E2.
  { intros [H1 Hl]%andb_true_iff. replace (c <? 128) with false by lia. replace (c <? 224) with true by lia. cbn.
    split_and!; [|done|done]. repeat constructor; by apply Hc. }
  destruct l as [|b2 l]; [done|]. destruct ((224 <=? c) && (c <=? 239)) eqn:E3.
  { rewrite !andb_true_iff. intros [[[[H1 H2] _] _] Hl]. replace (c <? 128) with false by lia. replace (c <? 224) with false by lia.
    replace (c <? 240) with true by lia. cbn. split_and!; [|done|done]. repeat constructor; by apply Hc. }
  destruct l as [|b3 l]; [done|]. rewrite !andb_true_iff. intros [[[[[[[H0 H0'] H1] H2] H3] _] _] Hl].
  replace (c <? 128) with false by lia. replace (c <? 224) with false by lia.
  replace (c <? 240) with false by lia. cbn. split_and!; [|done|done]. repeat constructor; by apply Hc.
Qed.
(** White space is one whole character. *)
Lemma space_front_char c l n : space_front (c :: l) = S n -> utf8_valid (c :: l) = true -> S n = utf8_len c.
Proof.
  unfold space_front, utf8_len. intros Hs Hv. repeat case_match; simplify_eq; try lia; cbn in Hv; repeat case_match; try lia; try done.
Qed.
Lemma space_front_cont b l : utf8_cont b = true -> space_front (b :: l) = O.
Proof.
  unfold utf8_cont, space_front. intros Hb. replace (((9 <=? b) && (b <=? 13)) || (b =? 32)) with false by lia.
  destruct l as [|b1 l]; [done|]. replace ((b =? 194) && _) with false by lia. destruct l as [|b2 l]; [done|].
  replace ((b =? 225) && _ && _) with false by lia. replace ((b =? 226) && _ && _) with false by lia.
  replace ((b =? 226) && _ && _) with false by lia. by replace ((b =? 227) && _ && _) with false by lia.
Qed.

(** The words done, each with its space, and the word under way. *)
Definition shown (ws : list bytes) (w : bytes) : bytes := (ws ≫= (fun w => w ++ [32])) ++ w.
Definition is_word (w : bytes) : Prop := w <> [] /\ ends_space w = false.

Lemma ends_space_app a b : b <> [] -> ends_space (a ++ b) = ends_space b.
Proof.
  intros Hb. unfold ends_space. rewrite last_app. destruct (last b) eqn:E; [done|]. by apply last_None in E.
Qed.
Lemma push_space_word ws w : is_word w -> push_space (shown ws w) = shown (ws ++ [w]) [].
Proof.
  intros [Hw Hs]. unfold shown. rewrite bind_app, app_nil_r. cbn [mbind list_bind]. rewrite app_nil_r, app_assoc. unfold push_space.
  rewrite ends_space_app, Hs by done. destruct (_ ++ w) eqn:E; [|done]. apply app_eq_nil in E as [_ ->]. done.
Qed.
Lemma push_space_none ws : push_space (shown ws []) = shown ws [].
Proof.
  unfold shown. rewrite app_nil_r. destruct ws as [|w ws] using rev_ind; [done|]. clear IHws. rewrite bind_app. cbn [mbind list_bind]. rewrite app_nil_r.
  unfold push_space. rewrite app_assoc, ends_space_app by done. cbn. by destruct (_ ++ [32]).
Qed.

Definition finish (ws : list bytes) (w : bytes) : list bytes := ws ++ match w with [] => [] | _ => [w] end.
Lemma bytes_str_app a b : bytes_str (a ++ b) = bytes_str a +:+ bytes_str b.
Proof. induction a as [|x a IH]; [done|]. cbn [app bytes_str]. by rewrite IH, str_cons_app. Qed.
Lemma shown_concat ws w : bytes_str (shown ws w) = String.concat " " (bytes_str <$> ws ++ [w]).
Proof.
  unfold shown. induction ws as [|v ws IH]; [done|].
  change ((v :: ws) ≫= (fun w => w ++ [32])) with ((v ++ [32]) ++ (ws ≫= (fun w => w ++ [32]))). rewrite <-!app_assoc, bytes_str_app.
  rewrite (bytes_str_app [32]), IH. cbn [app fmap list_fmap]. destruct (ws ++ [w]) eqn:E; [by destruct ws|]. done.
Qed.
(** The spaces at the end are dropped. *)
Lemma drop_spaces_word l : ends_space l = false -> reverse (drop_spaces (reverse l)) = l.
Proof.
  destruct l as [|x l] using rev_ind; [done|]. clear IHl. unfold ends_space. rewrite last_snoc, reverse_snoc. intros Hx%Z.eqb_neq.
  assert (Hd : drop_spaces (x :: reverse l) = x :: reverse l).
  { cbn. destruct x as [|p|p]; try done. do 6 (destruct p as [p|p|]; try done). }
  by rewrite Hd, reverse_cons, reverse_involutive.
Qed.
Lemma final_words ws w : Forall is_word ws -> w = [] \/ is_word w ->
  bytes_str (reverse (drop_spaces (reverse (shown ws w)))) = String.concat " " (bytes_str <$> finish ws w).
Proof.
  intros Hws [->|Hw].
  - unfold finish. rewrite app_nil_r. destruct ws as [|v ws] using rev_ind; [done|]. clear IHws. apply Forall_app in Hws as [_ [[Hv Hs] _]%Forall_cons].
    assert (Eq : shown (ws ++ [v]) [] = shown ws v ++ [32]).
    { unfold shown. rewrite bind_app, app_nil_r. cbn [mbind list_bind]. by rewrite app_nil_r, app_assoc. }
    rewrite Eq, reverse_snoc. cbn [drop_spaces]. rewrite drop_spaces_word; [apply shown_concat|].
    unfold shown. by rewrite ends_space_app.
  - destruct Hw as [Hw Hs]. rewrite drop_spaces_word by (unfold shown; by rewrite ends_space_app). rewrite shown_concat. by destruct w.
Qed.

Lemma words_cont fuel conts rest w : Forall (fun b => space_front [b] = O /\ utf8_cont b = true) conts ->
  words (length conts + fuel) (conts ++ rest) w = words fuel rest (w ++ conts).
Proof.
  intros Hc. revert w. induction Hc as [|b conts [_ Hb] _ IH]; intros w; [by rewrite app_nil_r|].
  cbn [length app Nat.add words]. rewrite space_front_cont by done. rewrite IH, <-app_assoc. done.
Qed.
Lemma words_fuel l w n k : (length l < n)%nat -> (length l < k)%nat -> words n l w = words k l w.
Proof.
  revert l w k. induction n as [|n IH]; intros l w k Hn Hk; [lia|]. destruct k as [|k]; [lia|]. cbn [words].
  destruct l as [|b l]; [done|]. cbn [length] in *. destruct (space_front (b :: l)) as [|m] eqn:E; [apply IH; lia|].
  f_equal. cbn [drop]. apply IH; rewrite length_drop; lia.
Qed.

Lemma space_front_app l r n : space_front l = S n -> space_front (l ++ r) = S n.
Proof.
  destruct l as [|b0 [|b1 [|b2 l]]]; cbn [app]; unfold space_front; [done| | |done].
  - intros H. destruct (((9 <=? b0) && (b0 <=? 13)) || (b0 =? 32)); [done|]. done.
  - intros H. destruct (((9 <=? b0) && (b0 <=? 13)) || (b0 =? 32)); [done|]. by destruct ((b0 =? 194) && ((b1 =? 133) || (b1 =? 160))).
Qed.
Lemma space_front_take l n : space_front l = S n -> space_front (take (S n) l) = S n.
Proof.
  destruct l as [|b0 l]; [done|]. unfold space_front. intros H.
  destruct (((9 <=? b0) && (b0 <=? 13)) || (b0 =? 32)) eqn:E0; [injection H as <-; cbn; by rewrite E0|].
  destruct l as [|b1 l]; [done|]. destruct ((b0 =? 194) && ((b1 =? 133) || (b1 =? 160))) eqn:E1; [injection H as <-; cbn [take]; by rewrite E0, E1|].
  destruct l as [|b2 l]; [done|]. assert (n = 2%nat) as -> by (repeat case_match; congruence). cbn [take]. rewrite E0, E1. exact H.
Qed.
(** Whether a character is white space shows in its own bytes. *)
Lemma space_char c l m : utf8_valid (c :: l) = true -> utf8_len c = S m -> space_front (c :: take m l) = space_front (c :: l).
Proof.
  intros Hv Em. destruct (space_front (c :: l)) as [|k] eqn:E.
  - destruct (space_front (c :: take m l)) as [|k] eqn:E'; [done|]. apply space_front_app with (r := drop m l) in E'.
    cbn [app] in E'. rewrite take_drop in E'. congruence.
  - pose proof (space_front_char _ _ _ E Hv) as Hk. rewrite Em in Hk. injection Hk as ->. by apply (space_front_take (c :: l)).
Qed.
Lemma word_char w c conts : w = [] \/ is_word w -> space_front (c :: conts) = O -> Forall (fun b => space_front [b] = O /\ utf8_cont b = true) conts ->
  is_word (w ++ c :: conts).
Proof.
  intros _ Hs Hc. split; [by destruct w|]. rewrite ends_space_app by done. unfold ends_space. destruct conts as [|b conts _] using rev_ind.
  - cbn. destruct (Z.eqb_spec c 32) as [->|]; [done|done].
  - rewrite app_comm_cons, last_snoc. apply Forall_app in Hc as [_ [[_ Hb] _]%Forall_cons]. unfold utf8_cont in Hb. lia.
Qed.

Lemma words_plain n c l w : space_front (c :: l) = O -> words (S n) (c :: l) w = words n l (w ++ [c]).
Proof. intros E. cbn [words]. by rewrite E. Qed.
Lemma words_space n c l w k : space_front (c :: l) = S k ->
  words (S n) (c :: l) w = match w with [] => [] | _ => [bytes_str w] end ++ words n (drop k l) [].
Proof. intros E. cbn [words]. by rewrite E. Qed.
Lemma plain_loop n l lower ws w : (length l <= n)%nat -> utf8_valid l = true -> Forall (fun b => b <> 60 /\ b <> 38) l ->
  Forall is_word ws -> w = [] \/ is_word w ->
  exists ws' w', reduce n l lower (shown ws w) = shown ws' w' /\ Forall is_word ws' /\ (w' = [] \/ is_word w') /\
    bytes_str <$> finish ws' w' = (bytes_str <$> ws) ++ words (S (length l)) l w.
Proof.
  revert l lower ws w. induction n as [|n IH]; intros l lower ws w Hn Hv Hp Hws Hw.
  { destruct l; [|cbn in Hn; lia]. exists ws, w. split_and!; [done..|]. unfold finish. rewrite fmap_app. f_equal. by destruct w. }
  destruct l as [|c l]; [exists ws, w; split_and!; [done..|]; unfold finish; rewrite fmap_app; f_equal; by destruct w|].
  cbn [reduce]. apply Forall_cons in Hp as [[H1 H2] Hp]. rewrite (proj2 (Z.eqb_neq c 60)), (proj2 (Z.eqb_neq c 38)) by done.
  destruct (valid_char c l Hv) as (Hcont & Hrest & Hlen).
  assert (Hone : (1 <= utf8_len c)%nat) by (unfold utf8_len; repeat case_match; lia).
  destruct (utf8_len c) as [|m] eqn:Em; [lia|]. cbn [drop take]. replace (S m - 1)%nat with m in * by lia.
  assert (Hp' : Forall (fun b => b <> 60 /\ b <> 38) (drop m l)) by (by apply Forall_drop).
  assert (Hn' : (length (drop m l) <= n)%nat) by (rewrite length_drop; cbn in Hn; lia).
  unfold push_collapsible. rewrite (space_char c l m Hv Em). destruct (space_front (c :: l)) as [|k] eqn:Es.
  - assert (Hw' : is_word (w ++ c :: take m l)) by (apply word_char; [done|by rewrite (space_char c l m Hv Em)|done]).
    replace (shown ws w ++ c :: take m l) with (shown ws (w ++ c :: take m l)) by (unfold shown; by rewrite app_assoc).
    destruct (IH (drop m l) (drop (S m) lower) ws (w ++ c :: take m l) Hn' Hrest Hp' Hws (or_intror Hw')) as (ws' & w' & -> & H3 & H4 & H5).
    exists ws', w'. split_and!; [done..|]. rewrite H5. f_equal. cbn [length]. rewrite (words_plain _ _ _ _ Es).
    transitivity (words (length (take m l) + S (length (drop m l))) (take m l ++ drop m l) (w ++ [c])).
    + rewrite words_cont by done. by rewrite <-app_assoc.
    + rewrite take_drop. apply words_fuel; [|lia]. rewrite <-(take_drop m l) at 1. rewrite length_app. lia.
  - pose proof (space_front_char _ _ _ Es Hv) as Hk. rewrite Em in Hk. injection Hk as ->.
    assert (Hwords : words (S (length (c :: l))) (c :: l) w = match w with [] => [] | _ => [bytes_str w] end ++ words (S (length (drop m l))) (drop m l) []).
    { cbn [length]. rewrite (words_space _ _ _ _ _ Es). f_equal. apply words_fuel; rewrite ?length_drop; lia. }
    rewrite Hwords. destruct Hw as [->|Hw].
    + rewrite push_space_none.
      destruct (IH (drop m l) (drop (S m) lower) ws [] Hn' Hrest Hp' Hws (or_introl eq_refl)) as (ws' & w' & -> & H3 & H4 & H5).
      by exists ws', w'.
    + rewrite push_space_word by done.
      destruct (IH (drop m l) (drop (S m) lower) (ws ++ [w]) [] Hn' Hrest Hp') as (ws' & w' & -> & H3 & H4 & H5);
        [by apply Forall_app; split; [|apply Forall_singleton]|by left|].
      exists ws', w'. split_and!; [done..|]. rewrite H5, fmap_app, <-app_assoc. destruct Hw as [Hw _]. by destruct w.
Qed.

(** A page without markup is its own words, one space between them: a
    text that holds no tag and no entity loses only the white space around
    its words. *)
Theorem plain_text_is_its_words html : utf8_valid (str_bytes html) = true ->
  Forall (fun b => b <> 60 /\ b <> 38) (str_bytes html) -> to_text html = String.concat " " (split_whitespace html).
Proof.
  intros Hv Hp. unfold to_text.
  destruct (plain_loop (length (str_bytes html)) (str_bytes html) (ascii_lower <$> str_bytes html) [] []) as (ws & w & Hr & Hws & Hw & Hf);
    [lia|done|done|constructor|by left|].
  change (shown [] []) with (@nil Z) in Hr. rewrite Hr, final_words, Hf by done. unfold split_whitespace. by rewrite str_bytes_length.
Qed.
Lemma plain_text_is_its_words_witness : String.concat " " (split_whitespace "  two   words ") = "two words".
Proof.
  rewrite <-(plain_text_is_its_words "  two   words "); [vm_compute; reflexivity..|].
  apply (bool_decide_unpack _). vm_compute. exact I.
Defined.
