(* ===== verification/Caps.v ===== *)
(** * The capability broker ([embra-guardian/src/caps.rs])

    The guards between a sandboxed tool and the network: [http_get],
    [http_request] and [web_search]. The transport, the resolver, the clock,
    the file store and the search backend answer by call number; the crate
    [url] is the class [UrlLib]. A guard gives the JSON handed back to the
    guest and the calls it made. *)

From S2P Require Import Prelude Bytes F64 Json Text Sse Addresses Secrets HtmlText.
From Stdlib Require Import Ascii.

(** ** Parameters *)

(** The crate [url]. *)
Class UrlLib := {
  Url : Type;
  url_parse : string -> result string Url;
  url_scheme : Url -> string;
  url_username : Url -> string;
  url_password : Url -> option string;
  url_host_str : Url -> option string;
  url_port : Url -> option Z;
  url_port_or_known_default : Url -> option Z;
  url_join : Url -> string -> result string Url;
  url_append_pairs : Url -> list (string * string) -> Url;
  url_to_string : Url -> string;
}.

(** ** Data *)

Inductive Method := Get | Head | Post | Put | Patch_ | Delete_.
#[export] Instance Method_eq : EqDecision Method.
Proof. solve_decision. Defined.
Definition method_str (m : Method) : string :=
  match m with Get => "GET" | Head => "HEAD" | Post => "POST" | Put => "PUT" | Patch_ => "PATCH" | Delete_ => "DELETE" end.
Definition parse_method (s : string) : option Method :=
  let s := ascii_uppercase (trim s) in
  List.find (fun m => bool_decide (method_str m = s)) [Get; Head; Post; Put; Patch_; Delete_].
Definition follows_redirects (m : Method) : bool := match m with Get | Head => true | _ => false end.

Abbreviation Headers := (list (string * string)).
(** Durations are nanoseconds. *)
Record HttpRequest := {
  method : Method;
  req_url : string;
  req_headers : Headers;
  req_body : option bytes;
  timeout : Z;
  max_bytes : Z;
  save_to : option string;
}.
Record HttpResponse := {
  status : Z;
  content_type : string;
  resp_body : bytes;
  location : option string;
  resp_headers : Headers;
}.
Record SavedFile := { saved_path : string; saved_bytes : Z }.
Record SecretHeader := { secret_host : string; secret_name : string; secret_value : string }.
Record EgressPolicy := {
  allow_domains : option (list string);
  private_hosts : list string;
  policy_max_bytes : Z;
  policy_timeout : Z;
}.
Definition MILLIS : Z := 1000000.
Definition SECONDS : Z := 1000000000.
Definition default_policy : EgressPolicy :=
  {| allow_domains := None; private_hosts := []; policy_max_bytes := 256 * 1024; policy_timeout := 10 * SECONDS |}.
(** What a tool was granted. *)
Record Capabilities := {
  http : bool;
  http_policy : EgressPolicy;
  secrets : list SecretHeader;
  search : bool;
  files : bool;
  outbound_secrets : list SecretEntry;
}.

(** [json!({…})]: the fields in any order. *)
Definition json_obj (fields : list (string * Value)) : Value :=
  VObject (foldl (fun m '(k, v) => map_insert k v m) [] fields).
Definition json_int (n : Z) : Value := VNumber (PosInt n).
Definition set_field (v : Value) (k : string) (x : Value) : Value :=
  match v with VObject m => VObject (map_insert k x m) | _ => v end.
Definition err_json (msg : string) : Value := json_obj [("ok", VBool false); ("error", VString msg)].

(** [{:?}] of a [Duration]. *)
Fixpoint frac_digits (n : nat) (v scale : Z) : bytes :=
  match n with
  | O => []
  | S n => if v =? 0 then [] else (48 + v / scale) :: frac_digits n (v mod scale) (scale / 10)
  end.
Definition decimal (int frac scale : Z) : string :=
  pretty int +:+ match frac_digits 9 frac scale with [] => EmptyString | d => "." +:+ bytes_str d end.
Definition duration_debug (ns : Z) : string :=
  if 0 <? ns / SECONDS then decimal (ns / SECONDS) (ns mod SECONDS) 100000000 +:+ "s"
  else if MILLIS <=? ns then decimal (ns / MILLIS) (ns mod MILLIS) 100000 +:+ "ms"
  else if 1000 <=? ns then decimal (ns / 1000) (ns mod 1000) 100 +:+ "µs"
  else pretty ns +:+ "ns".

(** ** The checks *)

(** The outbound secret guard over several texts. *)
Fixpoint carries_secret (outbound : list SecretEntry) (texts : list string) : result string unit :=
  match texts with
  | [] => Ok tt
  | text :: texts =>
      match found_in outbound text with
      | Some kind => Err ("refused: the request carries " +:+ kind +:+
          "; a stored credential is sent only by /guardian secret, never in a tool's input")
      | None => carries_secret outbound texts
      end
  end.

Definition host_matches (host entry : string) : bool :=
  let entry := ascii_lowercase (trim entry) in
  if bool_decide (entry = EmptyString) then false
  else if bool_decide (is_Some (parse_ip host)) || bool_decide (is_Some (parse_ip entry)) then bool_decide (host = entry)
  else bool_decide (host = entry) || str_ends host ("." +:+ entry).

Definition refuse_class (class : AddressClass) (private_ok : bool) (verb : string) : result string unit :=
  match class with
  | Public => Ok tt
  | Private =>
      if private_ok then Ok tt
      else Err ("destination " +:+ verb +:+ " a private address (SSRF blocked; not on the egress allowlist — /guardian egress allow <host>)")
  | Loopback => Err ("destination " +:+ verb +:+ " a loopback address (SSRF blocked; refused always)")
  | LinkLocal => Err ("destination " +:+ verb +:+ " a link-local address (SSRF blocked; refused always)")
  | Multicast => Err ("destination " +:+ verb +:+ " a multicast address (SSRF blocked; refused always)")
  | Reserved => Err ("destination " +:+ verb +:+ " a reserved address (SSRF blocked; refused always)")
  end.
Definition MAX_REDIRECTS : nat := 3.

(** The loop over the addresses a name resolves to. *)
Fixpoint check_addresses (private_ok : bool) (addrs : list IpAddr) : result string unit :=
  match addrs with
  | [] => Ok tt
  | a :: addrs => let? _ := refuse_class (classify a) private_ok "resolves to" in check_addresses private_ok addrs
  end.
Definition domain_allowed (host d : string) : bool := bool_decide (host = d) || str_ends host ("." +:+ d).
Definition private_allowed (policy : EgressPolicy) (host : string) : bool :=
  existsb (host_matches (ascii_lowercase host)) (private_hosts policy).

Definition is_redirect (status : Z) : bool := bool_decide (status ∈ [301; 302; 303; 307; 308]).

(** ** The request of a guest *)

Definition HTTP_REQUEST_BODY_MAX : Z := 256 * 1024.
Definition HTTP_RESPONSE_MAX_BYTES : Z := 1024 * 1024.
Definition HTTP_SAVE_MAX_BYTES : Z := 12 * 1024 * 1024.
Definition HTTP_HEADERS_MAX : Z := 32.
Definition HTTP_HEADERS_BYTES_MAX : Z := 8 * 1024.
Definition TRANSPORT_HEADERS : list string :=
  ["host"; "content-length"; "transfer-encoding"; "connection"; "expect"; "upgrade"; "te"; "keep-alive"].
Definition HIDDEN_RESPONSE_HEADERS : list string := ["set-cookie"; "set-cookie2"].

Definition is_ascii_alphanumeric (b : Z) : bool :=
  in_byte_range 48 57 b || in_byte_range 65 90 b || in_byte_range 97 122 b.
Definition is_header_token (name : string) : bool :=
  negb (bool_decide (name = EmptyString)) &&
  forallb (fun b => is_ascii_alphanumeric b || bool_decide (b ∈ str_bytes "!#$%&'*+-.^_`|~")) (str_bytes name).

Definition without (name : string) (headers : Headers) : Headers := List.filter (fun '(n, _) => negb (bool_decide (n = name))) headers.
(** The loop over the guest's headers. *)
Fixpoint add_headers (l : list (string * Value)) (headers : Headers) : result string Headers :=
  match l with
  | [] => Ok headers
  | (name, val) :: l =>
      let? value := ok_or (as_str val) ("header '" +:+ name +:+ "' must be a string") in
      let lname := ascii_lowercase (trim name) in
      if negb (is_header_token lname) then Err ("header '" +:+ name +:+ "' is not a valid header name")
      else if has_char (ascii_of 13) value || has_char (ascii_of 10) value then Err ("header '" +:+ name +:+ "' must not contain a line break")
      else if bool_decide (lname ∈ CREDENTIAL_HEADERS) then
        Err ("header '" +:+ name +:+ "' is a credential: set it with /guardian secret <host> " +:+ name +:+ " <value>, never in a request")
      else if bool_decide (lname ∈ TRANSPORT_HEADERS) then add_headers l headers
      else add_headers l (without lname headers ++ [(lname, value)])
  end.
Definition headers_size (headers : Headers) : Z := foldr (fun '(n, v) acc => str_len n + str_len v + acc) 0 headers.

Definition media_type (content_type : string) : string :=
  ascii_lowercase (trim (default EmptyString (head (split_on (ascii_of 59) content_type)))).
Definition request_content_type_allowed (content_type : string) : bool :=
  let mt := media_type content_type in
  bool_decide (mt = EmptyString) || str_starts mt "text/" || bool_decide (mt = "application/json") ||
  bool_decide (mt = "application/xml") || bool_decide (mt = "application/x-ndjson") ||
  bool_decide (mt = "application/x-www-form-urlencoded") ||
  (str_starts mt "application/" && (str_ends mt "+json" || str_ends mt "+xml")).

(** The response headers a guest sees. *)
Fixpoint guest_headers_from (l : Headers) (out : list (string * Value)) (size : Z) : list (string * Value) :=
  match l with
  | [] => out
  | (name, value) :: l =>
      let lname := ascii_lowercase name in
      if bool_decide (lname ∈ HIDDEN_RESPONSE_HEADERS) then guest_headers_from l out size
      else if (HTTP_HEADERS_MAX <=? lenZ out) || (HTTP_HEADERS_BYTES_MAX <? size + str_len lname + str_len value) then out
      else guest_headers_from l (map_insert lname (VString value) out) (size + (str_len lname + str_len value))
  end.
Definition guest_headers (headers : Headers) : list (string * Value) := guest_headers_from headers [] 0.

Section broker.
Context `{SerdeJson} `{UrlLib}.
(** The texts of serde_json's errors. *)
Context (from_str_error : string -> string) (to_vec_error : string).

Definition query_text (kv : string * Value) : result string (string * string) :=
  match kv.2 with
  | VString s => Ok (kv.1, s)
  | VNumber n => Ok (kv.1, num_display n)
  | VBool b => Ok (kv.1, if b then "true" else "false")
  | _ => Err ("query '" +:+ kv.1 +:+ "' must be a string, a number or a boolean")
  end.
Definition clampZ (lo hi x : Z) : Z := Z.max lo (Z.min hi x).

Definition parse_http_request (input : string) (policy : EgressPolicy) : result string HttpRequest :=
  let? v := ok_or (from_str input) ("request must be a JSON object: " +:+ from_str_error input) in
  let? obj := ok_or (as_object v) "request must be a JSON object" in
  let get k := map_get k obj in
  let? url := match trim <$> (get "url" ≫= as_str) with
              | Some u => if bool_decide (u = EmptyString) then Err "url is required" else Ok u
              | None => Err "url is required"
              end in
  let? method := match get "method" with
                 | None | Some VNull => Ok Get
                 | Some m => ok_or (as_str m ≫= parse_method) "method must be one of GET, HEAD, POST, PUT, PATCH, DELETE"
                 end in
  let? parsed := map_err (fun e => "invalid url: " +:+ e) (url_parse url) in
  let? parsed := match get "query" with
                 | None => Ok parsed
                 | Some query =>
                     let? pairs := ok_or (as_object query) "query must be an object of scalars" in
                     let? texts := mapM query_text pairs in Ok (url_append_pairs parsed texts)
                 end in
  let headers := match get "accept" ≫= as_str with Some accept => [("accept", accept)] | None => [] end in
  let? headers := match get "headers" with
                  | None => Ok headers
                  | Some h => let? map := ok_or (as_object h) "headers must be an object of strings" in add_headers map headers
                  end in
  if (HTTP_HEADERS_MAX <? lenZ headers) || (HTTP_HEADERS_BYTES_MAX <? headers_size headers) then
    Err ("too many request headers (at most " +:+ pretty HTTP_HEADERS_MAX +:+ ", " +:+ pretty HTTP_HEADERS_BYTES_MAX +:+ " bytes)")
  else
  let? (body, headers) := match get "body", get "json" with
      | Some _, Some _ => Err "give body or json, not both"
      | Some (VString b), None => Ok (Some (str_bytes b), headers)
      | Some VNull, None | None, None => Ok (None, headers)
      | Some _, None => Err "body must be a string (use json for a JSON value)"
      | None, Some j =>
          let headers := if existsb (fun '(n, _) => bool_decide (n = "content-type")) headers then headers
                         else headers ++ [("content-type", "application/json")] in
          let? b := ok_or (to_vec j) to_vec_error in Ok (Some b, headers)
      end in
  let? _ := match body with
            | None => Ok tt
            | Some b =>
                if bool_decide (method = Get) || bool_decide (method = Head) then Err ("a " +:+ method_str method +:+ " carries no body")
                else if HTTP_REQUEST_BODY_MAX <? lenZ b then
                  Err ("request body is " +:+ pretty (lenZ b) +:+ " bytes; the cap is " +:+ pretty HTTP_REQUEST_BODY_MAX)
                else Ok tt
            end in
  let? save_to := match get "save_to" with
                  | None | Some VNull => Ok None
                  | Some (VString s) =>
                      let s := trim s in
                      if bool_decide (s = EmptyString) || has_char (ascii_of 0) s
                      then Err "save_to must be a non-empty path (a file under the workspace)" else Ok (Some s)
                  | Some _ => Err "save_to must be a string path"
                  end in
  if bool_decide (is_Some save_to) && bool_decide (method = Head) then Err "a HEAD has no body to save"
  else
  let '(ceiling, default_max) := match save_to with
                                 | Some _ => (HTTP_SAVE_MAX_BYTES, HTTP_SAVE_MAX_BYTES)
                                 | None => (HTTP_RESPONSE_MAX_BYTES, policy_max_bytes policy)
                                 end in
  let max_bytes := default default_max (clampZ 1 ceiling <$> (get "max_bytes" ≫= as_u64)) in
  let timeout := default (policy_timeout policy)
                   ((fun ms => clampZ MILLIS (policy_timeout policy) (ms * MILLIS)) <$> (get "timeout_ms" ≫= as_u64)) in
  Ok {| method := method; req_url := url_to_string parsed; req_headers := headers; req_body := body; timeout := timeout;
        max_bytes := max_bytes; save_to := save_to |}.

(** ** One call of a guard *)

(** The answers from outside, by the number of the call: the addresses of a
    name, the time since the guard began, the response to a request, the
    file store. *)
Context (resolve : nat -> string -> Z -> result string (list IpAddr)) (elapsed : nat -> Z)
        (transport : nat -> HttpRequest -> result string HttpResponse)
        (sink_check : string -> result string unit) (sink_save : string -> bytes -> string -> result string SavedFile).
Context (caps : Capabilities).

Definition check_url (n : nat) (url : string) : result string Url :=
  let? parsed := map_err (fun e => "invalid url: " +:+ e) (url_parse url) in
  if negb (bool_decide (url_scheme parsed = "https")) then Err "only https:// destinations are allowed"
  else if negb (bool_decide (url_username parsed = EmptyString)) || bool_decide (is_Some (url_password parsed)) then
    Err "url userinfo (user:pass@) is not allowed"
  else
  let? host := ok_or (url_host_str parsed) "url has no host" in
  let? _ := match allow_domains (http_policy caps) with
            | Some allow => if existsb (domain_allowed host) allow then Ok tt else Err "destination domain is not in the allowlist"
            | None => Ok tt
            end in
  let private_ok := private_allowed (http_policy caps) host in
  let? _ := match parse_ip host with Some ip => refuse_class (classify ip) private_ok "is" | None => Ok tt end in
  let port := default 443 (url_port_or_known_default parsed) in
  let? addrs := map_err (fun e => "dns resolution failed: " +:+ e) (resolve n host port) in
  let? _ := check_addresses private_ok addrs in
  match addrs with
  | [] => Err "destination did not resolve"
  | _ => Ok parsed
  end.

Definition spent_error (budget : Z) : Value := err_json ("fetch budget of " +:+ duration_debug budget +:+ " spent").
Definition get_request (url : string) (timeout max_bytes : Z) : HttpRequest :=
  {| method := Get; req_url := url; req_headers := []; req_body := None; timeout := timeout; max_bytes := max_bytes; save_to := None |}.
Definition with_redirects (hops : nat) (env : Value) : Value :=
  match hops with O => env | _ => set_field env "redirects" (json_int (Z.of_nat hops)) end.
(** The target of a redirect to follow or to report. *)
Definition redirect_of (resp : HttpResponse) : option string := if is_redirect (status resp) then location resp else None.

Definition get_answer (hops : nat) (current : string) (resp : HttpResponse) : Value :=
  let ct := ascii_lowercase (content_type resp) in
  if negb (bool_decide (ct = EmptyString) || str_starts ct "text/" || str_starts ct "application/json") then
    err_json ("response content-type '" +:+ content_type resp +:+ "' is not allowed")
  else
    let body := takeZ (policy_max_bytes (http_policy caps)) (resp_body resp) in
    with_redirects hops
      (json_obj [("ok", VBool true); ("status", json_int (status resp)); ("url", VString current);
                 ("content_type", VString (content_type resp)); ("body", VString (from_utf8_lossy body))]).
(** The loop of [guarded_http_get] with [more] redirects still allowed. *)
Fixpoint get_loop (more hops : nat) (current : string) : list HttpRequest * Value :=
  match check_url hops current with
  | Err e => ([], err_json e)
  | Ok parsed =>
      let budget := policy_timeout (http_policy caps) in
      if budget <=? elapsed hops then ([], spent_error budget)
      else
        let req := get_request current (budget - elapsed hops) (policy_max_bytes (http_policy caps)) in
        match transport hops req with
        | Err e => ([req], err_json e)
        | Ok resp =>
            match redirect_of resp, more with
            | Some loc, S more =>
                match url_join parsed loc with
                | Ok next => let '(sent, answer) := get_loop more (S hops) (url_to_string next) in (req :: sent, answer)
                | Err e => ([req], err_json ("invalid redirect target: " +:+ e))
                end
            | Some loc, O =>
                ([req], json_obj [("ok", VBool true); ("status", json_int (status resp)); ("url", VString current);
                                  ("redirects", json_int (Z.of_nat hops)); ("redirect", VString loc);
                                  ("content_type", VString (content_type resp)); ("body", VString EmptyString)])
            | None, _ => ([req], get_answer hops current resp)
            end
        end
  end.
Definition guarded_http_get (url : string) : list HttpRequest * Value :=
  if negb (http caps) then ([], err_json "capability 'http_get' not granted to this tool")
  else match carries_secret (outbound_secrets caps) [url] with
       | Err e => ([], err_json e)
       | Ok _ => get_loop MAX_REDIRECTS 0 url
       end.

(** *** [http_request] *)

Definition secret_hosts_of (parsed : Url) : list string :=
  let host := ascii_lowercase (default EmptyString (url_host_str parsed)) in
  [host; match url_port parsed with Some port => host +:+ ":" +:+ pretty port | None => host end].
(** The secrets of the hop's host, over any header of the same name. *)
Definition inject (parsed : Url) (headers : Headers) : Headers :=
  foldl (fun hs s => without (secret_name s) hs ++ [(secret_name s, secret_value s)]) headers
    (List.filter (fun s => bool_decide (secret_host s ∈ secret_hosts_of parsed)) (secrets caps)).
Definition hop_request (req : HttpRequest) (parsed : Url) (current : string) (remaining : Z) : HttpRequest :=
  {| method := method req; req_url := current; req_headers := inject parsed (req_headers req); req_body := req_body req;
     timeout := remaining; max_bytes := max_bytes req; save_to := save_to req |}.

Record Outcome := { sent : list HttpRequest; saved : list (string * bytes); answer : Value }.
Definition refused (e : string) : Outcome := {| sent := []; saved := []; answer := err_json e |}.

(** What follows the last response; the file saved, if any. *)
Definition request_answer (req : HttpRequest) (hops : nat) (current : string) (resp : HttpResponse) : list (string * bytes) * Value :=
  let saving := match save_to req with
                | Some dest => if (200 <=? status resp) && (status resp <? 300) then Some dest else None
                | None => None
                end in
  match saving with
  | Some dest =>
      if max_bytes req <? lenZ (resp_body resp) then
        ([], err_json ("the body is larger than the save cap of " +:+ pretty HTTP_SAVE_MAX_BYTES +:+ " bytes; nothing written"))
      else match sink_save dest (resp_body resp) (content_type resp) with
           | Err e => ([(dest, resp_body resp)], err_json ("save_to: " +:+ e))
           | Ok s => ([(dest, resp_body resp)],
               with_redirects hops
                 (json_obj [("ok", VBool true); ("status", json_int (status resp)); ("url", VString current);
                            ("content_type", VString (content_type resp)); ("headers", VObject (guest_headers (resp_headers resp)));
                            ("saved", json_obj [("path", VString (saved_path s)); ("bytes", json_int (saved_bytes s))])]))
           end
  | None =>
      if negb (request_content_type_allowed (content_type resp)) then
        ([], err_json ("response content-type '" +:+ content_type resp +:+ "' is not allowed (text, JSON, XML, NDJSON and form data are)"))
      else
        let text_cap := Z.min (max_bytes req) HTTP_RESPONSE_MAX_BYTES in
        let env := with_redirects hops
          (json_obj [("ok", VBool true); ("status", json_int (status resp)); ("url", VString current);
                     ("content_type", VString (content_type resp)); ("headers", VObject (guest_headers (resp_headers resp)));
                     ("body", VString (from_utf8_lossy (takeZ text_cap (resp_body resp))))]) in
        ([], if text_cap <? lenZ (resp_body resp) then set_field env "truncated_at" (json_int text_cap) else env)
  end.
(** The loop of [guarded_http_request]. *)
Fixpoint request_loop (req : HttpRequest) (more hops : nat) (current : string) : Outcome :=
  match check_url hops current with
  | Err e => refused e
  | Ok parsed =>
      if timeout req <=? elapsed hops then {| sent := []; saved := []; answer := spent_error (timeout req) |}
      else
        let hop := hop_request req parsed current (timeout req - elapsed hops) in
        match transport hops hop with
        | Err e => {| sent := [hop]; saved := []; answer := err_json e |}
        | Ok resp =>
            match redirect_of resp with
            | Some loc =>
                match follows_redirects (method req), more with
                | true, S more =>
                    match url_join parsed loc with
                    | Ok next =>
                        let o := request_loop req more (S hops) (url_to_string next) in
                        {| sent := hop :: sent o; saved := saved o; answer := answer o |}
                    | Err e => {| sent := [hop]; saved := []; answer := err_json ("invalid redirect target: " +:+ e) |}
                    end
                | _, _ =>
                    {| sent := [hop]; saved := [];
                       answer := json_obj [("ok", VBool true); ("status", json_int (status resp)); ("url", VString current);
                                           ("redirects", json_int (Z.of_nat hops)); ("redirect", VString loc);
                                           ("content_type", VString (content_type resp));
                                           ("headers", VObject (guest_headers (resp_headers resp))); ("body", VString EmptyString)] |}
                end
            | None => let '(saved, answer) := request_answer req hops current resp in
                      {| sent := [hop]; saved := saved; answer := answer |}
            end
        end
  end.
(** The texts of a request the secret guard reads. *)
Definition outbound_texts (input : string) (req : HttpRequest) : list string :=
  [input; req_url req] ++ (req_headers req).*2 ++ match req_body req with Some b => [from_utf8_lossy b] | None => [] end.
Definition guarded_http_request (input : string) : Outcome :=
  if negb (http caps) then refused "capability 'http_request' not granted to this tool"
  else match parse_http_request input (http_policy caps) with
  | Err e => refused e
  | Ok req =>
      match carries_secret (outbound_secrets caps) (outbound_texts input req) with
      | Err e => refused e
      | Ok _ =>
          match save_to req with
          | None => request_loop req MAX_REDIRECTS 0 (req_url req)
          | Some dest =>
              if negb (files caps) then refused "save_to needs the workspace, which this tool was not granted"
              else match sink_check dest with
                   | Err e => refused ("save_to: " +:+ e)
                   | Ok _ => request_loop req MAX_REDIRECTS 0 (req_url req)
                   end
          end
      end
  end.

(** ** [web_search] *)

Record SearchRequest := {
  q : string;
  freshness : option string;
  offset : Z;
  count : Z;
  exclude : list string;
  extra_snippets : bool;
}.
Record SearchResult := { title : string; result_url : string; description : string; age : option string; snippets : list string }.
Record SearchResponse := { results : list SearchResult; infobox : option Value }.

Definition is_ymd (l : bytes) : bool :=
  (length l =? 10)%nat &&
  forallb (fun '(i, c) => if (i =? 4)%nat || (i =? 7)%nat then c =? 45 else in_byte_range 48 57 c) (imap pair l).
(** [split_once("to")] *)
Fixpoint split_once_in (p s before : string) : option (string * string) :=
  match str_strip p s with
  | Some rest => Some (before, rest)
  | None => match s with EmptyString => None | String a s => split_once_in p s (before +:+ String a EmptyString) end
  end.
Definition is_date_range (s : string) : bool :=
  match split_once_in "to" s EmptyString with
  | Some (a, b) => is_ymd (str_bytes a) && is_ymd (str_bytes b)
  | None => false
  end.
Definition normalize_freshness (s : string) : option string :=
  let s := ascii_lowercase (trim s) in
  if bool_decide (s ∈ ["day"; "pd"]) then Some "pd"
  else if bool_decide (s ∈ ["week"; "pw"]) then Some "pw"
  else if bool_decide (s ∈ ["month"; "pm"]) then Some "pm"
  else if bool_decide (s ∈ ["year"; "py"]) then Some "py"
  else if is_date_range s then Some s else None.

(** [trim_start_matches] *)
Fixpoint trim_start_matches (fuel : nat) (p s : string) : string :=
  match fuel with
  | O => s
  | S fuel => match str_strip p s with Some rest => trim_start_matches fuel p rest | None => s end
  end.
Definition domain_byte (b : Z) : bool := is_ascii_alphanumeric b || (b =? 46) || (b =? 45).
Definition sanitize_domain (s : string) : option string :=
  let d := trim s in
  let d := trim_start_matches (String.length d) "https://" d in
  let d := trim_start_matches (String.length d) "http://" d in
  let d := ascii_lowercase (default EmptyString (head (split_on (ascii_of 47) d))) in
  if negb (bool_decide (d = EmptyString)) && (str_len d <=? 253) && has_char (ascii_of 46) d && forallb domain_byte (str_bytes d)
  then Some d else None.

Definition plain_query (input : string) : SearchRequest :=
  {| q := trim input; freshness := None; offset := 0; count := 10; exclude := []; extra_snippets := false |}.
Definition parse_request (input : string) : SearchRequest :=
  match from_str input with
  | Some (VObject m) =>
      let get k := map_get k m in
      {| q := trim (default EmptyString (get "q" ≫= as_str));
         freshness := (get "freshness" ≫= as_str) ≫= normalize_freshness;
         offset := default 0 ((fun n => Z.min n 9) <$> (get "offset" ≫= as_u64));
         count := default 10 (clampZ 1 20 <$> (get "count" ≫= as_u64));
         exclude := default [] ((fun arr : list Value => take 10 (omap sanitize_domain (omap as_str arr))) <$> (get "exclude" ≫= as_array));
         extra_snippets := default false (get "extra_snippets" ≫= as_bool) |}
  | _ => plain_query input
  end.

(** [is_char_boundary] looks at the byte there. *)
Definition is_char_boundary (l : bytes) (i : nat) : bool := match l !! i with Some b => negb (utf8_cont b) | None => true end.
Fixpoint floor_boundary (l : bytes) (i : nat) : nat :=
  match i with
  | O => O
  | S j => if is_char_boundary l i then i else floor_boundary l j
  end.
Definition truncate (s : string) (cap : Z) : string :=
  if str_len s <=? cap then s
  else bytes_str (take (floor_boundary (str_bytes s) (Z.to_nat cap)) (str_bytes s)) +:+ "…".
Definition text_field (s : string) (cap : Z) : string := truncate (to_text s) cap.

Definition result_json (r : SearchResult) : Value :=
  json_obj ([("title", VString (truncate (title r) 300)); ("url", VString (result_url r));
             ("description", VString (text_field (description r) 1000))] ++
            match age r with Some a => if bool_decide (a = EmptyString) then [] else [("age", VString a)] | None => [] end ++
            match snippets r with
            | [] => []
            | l => [("snippets", VArray ((fun s => VString (truncate s 500)) <$> take 5 l))]
            end).
Definition search_items (req : SearchRequest) (l : list SearchResult) : list Value :=
  result_json <$> takeZ (Z.min (count req) 20) (List.filter (fun r => str_starts (result_url r) "https://") l).
Definition rendered (v : Value) : string := default EmptyString (to_string v).

(** The backend's answer, and the guard with the requests it made. *)
Context (provider : SearchRequest -> result string SearchResponse).
Definition guarded_web_search (input : string) : list SearchRequest * Value :=
  if negb (search caps) then ([], err_json "search capability not configured (no Brave API key set)")
  else match carries_secret (outbound_secrets caps) [input] with
  | Err e => ([], err_json e)
  | Ok _ =>
      let req := parse_request input in
      if bool_decide (q req = EmptyString) then ([], err_json "empty search query")
      else match provider req with
           | Err e => ([req], err_json e)
           | Ok resp =>
               let items := search_items req (results resp) in
               let env := json_obj [("ok", VBool true); ("query", VString (q req)); ("count", json_int (lenZ items)); ("results", VArray items)] in
               ([req], match infobox resp with
                       | Some ib => if negb (is_null ib) && (str_len (rendered ib) <=? 8 * 1024) then set_field env "infobox" ib else env
                       | None => env
                       end)
           end
  end.

(** *** The Brave backend: the parameters of its request, the answer read *)

Definition brave_query (req : SearchRequest) : string := foldl (fun s d => s +:+ " -site:" +:+ d) (q req) (exclude req).
Definition brave_params (req : SearchRequest) : list (string * string) :=
  [("q", brave_query req); ("count", pretty (clampZ 1 20 (count req))); ("offset", pretty (Z.min (offset req) 9))] ++
  match freshness req with Some f => [("freshness", f)] | None => [] end ++
  (if extra_snippets req then [("extra_snippets", "1")] else []).

Definition str_of (v : Value) (k : string) : option string := Json.get v k ≫= as_str.
Definition nonempty (s : option string) : option string := s ≫= fun s => if bool_decide (s = EmptyString) then None else Some s.
Definition trim_infobox (v : Value) : option Value :=
  ib ← Json.get v "infobox";
  let entity := default ib ((Json.get ib "results" ≫= as_array) ≫= head) in
  obj ← as_object entity;
  let keep k out := match nonempty (map_get k obj ≫= as_str) with Some s => map_insert k (VString (truncate s 200)) out | None => out end in
  let out := foldl (fun out k => keep k out) [] ["type"; "subtype"; "label"; "title"; "category"] in
  let desc := match map_get "long_desc" obj with Some d => Some d | None => map_get "description" obj end in
  let out := match nonempty (desc ≫= as_str) with Some d => map_insert "description" (VString (truncate d 2000)) out | None => out end in
  let out := match map_get "url" obj ≫= as_str with
             | Some u => if str_starts u "https://" then map_insert "url" (VString u) out else out
             | None => out
             end in
  match out with
  | [] => if str_len (rendered (VObject obj)) <=? 4 * 1024 then Some (VObject obj) else None
  | _ => Some (VObject out)
  end.
Definition brave_result (r : Value) : SearchResult :=
  {| title := default EmptyString (str_of r "title");
     result_url := default EmptyString (str_of r "url");
     description := default EmptyString (str_of r "description");
     age := nonempty (match str_of r "age" with Some a => Some a | None => str_of r "page_age" end);
     snippets := default [] ((fun l : list Value => omap as_str l) <$> (Json.get r "extra_snippets" ≫= as_array)) |}.
Definition parse_brave_response (v : Value) : result string SearchResponse :=
  match v with
  | VObject _ =>
      let arr := default [] ((Json.get v "web" ≫= (fun w => Json.get w "results")) ≫= as_array) in
      Ok {| results := brave_result <$> arr; infobox := trim_infobox v |}
  | _ => Err "unexpected brave response shape"
  end.
End broker.
