(* ===== verification/Egress.v ===== *)
(** * What leaves through the broker

    The guards of [Caps]: every request they send has passed the policy, no
    stored secret leaves in one, and what a search sends is vetted. *)

From S2P Require Import Prelude Bytes F64 Json Externals Text Sse Addresses Secrets HtmlText Caps.
From Stdlib Require Import Ascii.

Section egress.
Context `{SerdeJson} `{UrlLib}.
Context (from_str_error : string -> string) (to_vec_error : string).
Context (resolve : nat -> string -> Z -> result string (list IpAddr)) (elapsed : nat -> Z)
        (transport : nat -> HttpRequest -> result string HttpResponse)
        (sink_check : string -> result string unit) (sink_save : string -> bytes -> string -> result string SavedFile).
Context (caps : Capabilities).
#[local] Abbreviation policy := (http_policy caps).
#[local] Abbreviation check n url := (check_url resolve caps n url).
#[local] Abbreviation get_run := (get_loop resolve elapsed transport caps).
#[local] Abbreviation run := (request_loop resolve elapsed transport sink_save caps).

(** ** One hop *)

(** An address a request may reach. *)
Definition reachable (host : string) (a : IpAddr) : Prop :=
  classify a = Public \/ classify a = Private /\ private_allowed policy host = true.
(** A URL the policy lets through at the [n]-th look-up. *)
Record url_allowed (n : nat) (url : string) (u : Url) (host : string) : Prop := {
  ua_parse : url_parse url = Ok u;
  ua_scheme : url_scheme u = "https";
  ua_user : url_username u = EmptyString /\ url_password u = None;
  ua_host : url_host_str u = Some host;
  ua_domain : forall allow, allow_domains policy = Some allow -> exists d, d ∈ allow /\ domain_allowed host d = true;
  ua_literal : forall a, parse_ip host = Some a -> reachable host a;
  ua_resolved : exists addrs, resolve n host (default 443 (url_port_or_known_default u)) = Ok addrs /\ addrs <> [] /\ Forall (reachable host) addrs;
}.

Lemma refuse_class_ok a host verb x : refuse_class (classify a) (private_allowed policy host) verb = Ok x -> reachable host a.
Proof.
  unfold reachable. destruct (classify a) eqn:E; cbn; try done; [by left|]. destruct (private_allowed policy host); [by right|done].
Qed.
Lemma check_addresses_ok host addrs x : check_addresses (private_allowed policy host) addrs = Ok x -> Forall (reachable host) addrs.
Proof.
  induction addrs as [|a addrs IH]; [constructor|]. cbn [check_addresses]. intros (y & Ha & Hr)%bind_ok.
  constructor; [by eapply refuse_class_ok|by apply IH].
Qed.
Lemma map_err_ok {A E F} (f : E -> F) (r : result E A) a : map_err f r = Ok a -> r = Ok a.
Proof. by destruct r; [intros [= ->]|]. Qed.
Lemma ok_or_ok {A E} (o : option A) (e : E) a : ok_or o e = Ok a -> o = Some a.
Proof. by destruct o; [intros [= ->]|]. Qed.

Lemma check_url_ok n url u : check n url = Ok u -> exists host, url_allowed n url u host.
Proof.
  unfold check_url. intros (p & Hp%map_err_ok & Hr)%bind_ok.
  destruct (bool_decide_reflect (url_scheme p = "https")) as [Hs|]; cbn [negb] in Hr; [|done].
  destruct (bool_decide_reflect (url_username p = EmptyString)) as [Hu|]; cbn [negb orb] in Hr; [|done].
  destruct (bool_decide_reflect (is_Some (url_password p))) as [|Hpw]; [done|].
  apply bind_ok in Hr as (host & Hh%ok_or_ok & Hr). apply bind_ok in Hr as (y1 & Hd & Hr). apply bind_ok in Hr as (y2 & Hl & Hr).
  apply bind_ok in Hr as (addrs & Ha%map_err_ok & Hr). apply bind_ok in Hr as (y3 & Hc & Hr).
  assert (addrs <> [] /\ p = u) as [Hne ->] by (destruct addrs; [done|split; [done|by injection Hr]]).
  exists host. split; try done.
  - split; [done|]. destruct (url_password u); [|done]. exfalso. apply Hpw. eauto.
  - intros allow E. rewrite E in Hd. destruct (existsb (domain_allowed host) allow) eqn:Ex; [|done].
    apply existsb_exists in Ex as (d & Hd' & Hok). exists d. split; [by apply list_elem_of_In|done].
  - intros a E. rewrite E in Hl. by eapply refuse_class_ok.
  - exists addrs. split; [done|]. split; [done|]. by eapply check_addresses_ok.
Qed.

(** ** The headers of a hop *)

Lemma elem_without name headers x : x ∈ without name headers -> x ∈ headers /\ x.1 <> name.
Proof.
  unfold without. destruct x as [n v]. rewrite elem_of_List_filter. intros [Hx Hn]. split; [done|].
  apply negb_true_iff, bool_decide_eq_false in Hn. done.
Qed.
(** A header of a hop is a secret of its host or one of the request's. *)
Lemma inject_elem u headers x : x ∈ inject caps u headers ->
  (exists s, s ∈ secrets caps /\ secret_host s ∈ secret_hosts_of u /\ x = (secret_name s, secret_value s)) \/ x ∈ headers.
Proof.
  unfold inject. assert (Hs : forall s, s ∈ List.filter (fun s => bool_decide (secret_host s ∈ secret_hosts_of u)) (secrets caps) ->
    s ∈ secrets caps /\ secret_host s ∈ secret_hosts_of u).
  { intros s [Hs Hh]%elem_of_List_filter. split; [done|]. by apply bool_decide_eq_true in Hh. }
  revert Hs headers. induction (List.filter _ (secrets caps)) as [|s l IH]; intros Hs headers; cbn [foldl]; [by right|].
  intros Hx. apply IH in Hx as [Hx|Hx]; [by left| |intros s' Hs'; apply Hs; by right].
  apply elem_of_app in Hx as [[Hx _]%elem_without|Hx%list_elem_of_singleton]; [by right|]. left. exists s.
  destruct (Hs s) as [? ?]; [by left|]. by split.
Qed.

(** A header a guest may set. *)
Definition guest_header (x : string * string) : Prop :=
  is_header_token x.1 = true /\ x.1 ∉ CREDENTIAL_HEADERS /\ x.1 ∉ TRANSPORT_HEADERS.
Lemma add_headers_ok l headers out : Forall guest_header headers -> add_headers l headers = Ok out -> Forall guest_header out.
Proof.
  revert headers. induction l as [|[name val] l IH]; intros headers Hh; cbn [add_headers]; [by intros [= <-]|].
  intros (value & _ & Hr)%bind_ok. destruct (is_header_token (ascii_lowercase (trim name))) eqn:Ht; cbn [negb] in Hr; [|done].
  destruct (_ || _) in Hr; [done|]. case_bool_decide as Hc; [done|]. case_bool_decide as Htr; [by apply (IH headers)|].
  apply (IH _) in Hr; [done|]. apply Forall_app. split; [|by apply Forall_singleton].
  apply Forall_forall. intros x [Hx _]%elem_without. by apply (proj1 (Forall_forall _ _) Hh).
Qed.

(** The request a guest's input parses to. *)
Record vetted (req : HttpRequest) : Prop := {
  ve_headers : Forall guest_header (req_headers req);
  ve_count : lenZ (req_headers req) <= HTTP_HEADERS_MAX + 1;
  ve_body : forall b, req_body req = Some b -> method req <> Get /\ method req <> Head /\ lenZ b <= HTTP_REQUEST_BODY_MAX;
  ve_timeout : MILLIS <= policy_timeout policy -> MILLIS <= timeout req <= policy_timeout policy;
  ve_max : match save_to req with
           | Some _ => max_bytes req <= HTTP_SAVE_MAX_BYTES
           | None => max_bytes req <= Z.max HTTP_RESPONSE_MAX_BYTES (policy_max_bytes policy)
           end;
}.
Lemma parse_vetted input req : parse_http_request from_str_error to_vec_error input policy = Ok req -> vetted req.
Proof.
  unfold parse_http_request. intros (v & _ & Hr)%bind_ok. apply bind_ok in Hr as (obj & _ & Hr). apply bind_ok in Hr as (url & _ & Hr).
  apply bind_ok in Hr as (m & _ & Hr). apply bind_ok in Hr as (p & _ & Hr). apply bind_ok in Hr as (p' & _ & Hr).
  set (h0 := match map_get "accept" obj ≫= as_str with Some accept => [("accept", accept)] | None => [] end) in *.
  assert (H0' : Forall guest_header h0).
  { unfold h0. destruct (map_get "accept" obj ≫= as_str); [|constructor]. apply Forall_singleton. apply (bool_decide_unpack _). vm_compute. exact I. }
  clearbody h0. apply bind_ok in Hr as (hs & Hh & Hr).
  assert (Hhs : Forall guest_header hs).
  { destruct (map_get "headers" obj); [|by injection Hh as <-]. apply bind_ok in Hh as (map & _ & Hh). by eapply add_headers_ok. }
  clear Hh H0'. destruct ((HTTP_HEADERS_MAX <? lenZ hs) || _) eqn:Hmax in Hr; [done|]. apply orb_false_iff in Hmax as [Hmax _].
  apply bind_ok in Hr as ([body hs'] & Hb & Hr).
  assert (Hhs' : Forall guest_header hs' /\ lenZ hs' <= HTTP_HEADERS_MAX + 1).
  { assert (Hsame : Forall guest_header hs /\ lenZ hs <= HTTP_HEADERS_MAX + 1) by (split; [done|lia]).
    destruct (map_get "body" obj) as [[]|], (map_get "json" obj); try done; try (by injection Hb as <- <-).
    destruct (existsb _ hs) in Hb; apply bind_ok in Hb as (b & _ & [= <- <-]); [done|]. split.
    - apply Forall_app. split; [done|]. apply Forall_singleton. apply (bool_decide_unpack _). vm_compute. exact I.
    - unfold lenZ in *. rewrite length_app. cbn. lia. }
  clear Hb Hhs Hmax. apply bind_ok in Hr as (y & Hbody & Hr). apply bind_ok in Hr as (save & _ & Hr).
  destruct (bool_decide (is_Some save) && _) in Hr; [done|].
  assert (Hlen : forall b, body = Some b -> m <> Get /\ m <> Head /\ lenZ b <= HTTP_REQUEST_BODY_MAX).
  { intros b ->. destruct (bool_decide_reflect (m = Get)); [done|]. destruct (bool_decide_reflect (m = Head)); [done|].
    cbn [orb] in Hbody. destruct (Z.ltb_spec HTTP_REQUEST_BODY_MAX (lenZ b)); [done|]. split_and!; [done..|lia]. }
  assert (Htime : forall o : option Z, MILLIS <= policy_timeout policy ->
    MILLIS <= default (policy_timeout policy) ((fun ms => clampZ MILLIS (policy_timeout policy) (ms * MILLIS)) <$> o) <= policy_timeout policy).
  { intros [ms|] Hp; cbn; [unfold clampZ; lia|lia]. }
  destruct Hhs' as [Hg Hc]. destruct save as [dest|]; injection Hr as <-; split; cbn [req_headers req_body method timeout max_bytes save_to]; try done; try apply Htime.
  - destruct (map_get "max_bytes" obj ≫= as_u64); cbn; unfold clampZ, HTTP_SAVE_MAX_BYTES; lia.
  - destruct (map_get "max_bytes" obj ≫= as_u64); cbn; unfold clampZ, HTTP_RESPONSE_MAX_BYTES; lia.
Qed.

(** ** The loops *)

Lemma run_sent req more hops current n r : sent (run req more hops current) !! n = Some r ->
  exists current' u, check (hops + n) current' = Ok u /\ elapsed (hops + n)%nat < timeout req /\
    r = hop_request caps req u current' (timeout req - elapsed (hops + n)%nat).
Proof.
  revert hops current n. induction more as [|more IH]; intros hops current n; cbn [request_loop].
  all: destruct (check hops current) as [u|e] eqn:Hc; [|done].
  all: destruct (Z.leb_spec (timeout req) (elapsed hops)) as [|Ht]; [done|].
  all: assert (Hfirst : forall r, [hop_request caps req u current (timeout req - elapsed hops)] !! n = Some r ->
         exists current' u, check (hops + n) current' = Ok u /\ elapsed (hops + n)%nat < timeout req /\
           r = hop_request caps req u current' (timeout req - elapsed (hops + n)%nat))
    by (intros r'; destruct n as [|n]; [|done]; intros [= <-]; rewrite Nat.add_0_r; eauto).
  all: destruct (transport hops _) as [resp|e]; [|apply Hfirst].
  all: destruct (redirect_of resp) as [loc|]; [|destruct (request_answer _ _ _ _ _); apply Hfirst].
  all: destruct (follows_redirects (method req)); [|apply Hfirst].
  - apply Hfirst.
  - destruct (url_join u loc) as [next|e]; [|apply Hfirst]. cbn [sent]. destruct n as [|n]; [intros [= <-]; rewrite Nat.add_0_r; eauto|].
    cbn [lookup list_lookup]. intros Hn. apply IH in Hn. by rewrite Nat.add_succ_comm in Hn.
Qed.
Lemma run_length req more hops current :
  (length (sent (run req more hops current)) <= if follows_redirects (method req) then S more else 1)%nat.
Proof.
  revert hops current. induction more as [|more IH]; intros hops current; cbn [request_loop].
  all: destruct (check hops current) as [u|e]; [|apply Nat.le_0_l].
  all: destruct (timeout req <=? elapsed hops); [apply Nat.le_0_l|].
  all: destruct (transport hops _) as [resp|e]; [|cbn; destruct (follows_redirects (method req)); lia].
  all: destruct (redirect_of resp) as [loc|]; [|destruct (request_answer _ _ _ _ _); cbn; destruct (follows_redirects (method req)); lia].
  all: destruct (follows_redirects (method req)); [|cbn; lia].
  - cbn. lia.
  - destruct (url_join u loc) as [next|e]; [|cbn; lia]. cbn [sent length]. specialize (IH (S hops) (url_to_string next)). lia.
Qed.
Lemma carries_secret_ok outbound texts x : carries_secret outbound texts = Ok x -> Forall (fun t => found_in outbound t = None) texts.
Proof.
  induction texts as [|t texts IH]; [constructor|]. cbn [carries_secret]. destruct (found_in outbound t) eqn:E; [done|].
  intros Hr. constructor; [done|by apply IH].
Qed.

#[local] Abbreviation guarded := (guarded_http_request from_str_error to_vec_error resolve elapsed transport sink_check sink_save caps).
Lemma guarded_sent input n r : sent (guarded input) !! n = Some r ->
  http caps = true /\ exists req, parse_http_request from_str_error to_vec_error input policy = Ok req /\
    Forall (fun t => found_in (outbound_secrets caps) t = None) (outbound_texts input req) /\
    sent (guarded input) = sent (run req MAX_REDIRECTS 0 (req_url req)) /\
    (forall dest, save_to req = Some dest -> files caps = true /\ is_ok (sink_check dest) = true).
Proof.
  unfold guarded_http_request. destruct (http caps); cbn [negb]; [|done]. destruct (parse_http_request _ _ _ _) as [req|e]; [|done].
  destruct (carries_secret _ _) as [x|e] eqn:Hs; [|done]. apply carries_secret_ok in Hs. destruct (save_to req) as [dest|] eqn:Hsave.
  - destruct (files caps); cbn [negb]; [|done]. destruct (sink_check dest) as [y|e] eqn:Hk; [|done]. intros _. split; [done|]. exists req.
    split_and!; [done..|]. intros d Hd. assert (d = dest) as -> by congruence. by rewrite Hk.
  - intros _. split; [done|]. exists req. split_and!; [done..|]. by rewrite Hsave.
Qed.

(** A request of [guarded_http_request]. *)
Lemma request_is_guarded input n r : sent (guarded input) !! n = Some r ->
  exists req u host,
    parse_http_request from_str_error to_vec_error input policy = Ok req /\
    url_allowed n (req_url r) u host /\
    Forall (fun t => found_in (outbound_secrets caps) t = None) (outbound_texts input req) /\
    method r = method req /\ req_body r = req_body req /\
    (forall x, x ∈ req_headers r ->
       guest_header x /\ x ∈ req_headers req \/
       exists s, s ∈ secrets caps /\ secret_host s ∈ secret_hosts_of u /\ x = (secret_name s, secret_value s)) /\
    0 < timeout r /\
    (length (sent (guarded input)) <= if follows_redirects (method r) then S MAX_REDIRECTS else 1)%nat.
Proof.
  intros Hn. destruct (guarded_sent input n r Hn) as (Hg & req & Hp & Hs & Hsent & _). rewrite Hsent in Hn |- *.
  destruct (run_sent _ _ _ _ _ _ Hn) as (current & u & Hc & Ht & ->). destruct (check_url_ok _ _ _ Hc) as [host Hu].
  exists req, u, host. cbn [hop_request req_url method req_body req_headers timeout]. split_and!; try done; [|lia|apply run_length].
  intros x [Hx|Hx]%inject_elem; [by right|left]. split; [|done]. by apply (proj1 (Forall_forall _ _) (ve_headers _ (parse_vetted _ _ Hp))).
Qed.

(** The fetch guard sends plain GETs under the same policy. *)
Lemma get_sent more hops current n r : (get_run more hops current).1 !! n = Some r ->
  exists u host, url_allowed (hops + n) (req_url r) u host /\ method r = Get /\ req_headers r = [] /\ req_body r = None /\ 0 < timeout r.
Proof.
  revert hops current n. induction more as [|more IH]; intros hops current n; cbn [get_loop].
  all: destruct (check hops current) as [u|e] eqn:Hc; [|done].
  all: destruct (Z.leb_spec (policy_timeout policy) (elapsed hops)) as [|Ht]; [done|].
  all: assert (Hfirst : forall r, [get_request current (policy_timeout policy - elapsed hops) (policy_max_bytes policy)] !! n = Some r ->
         exists u host, url_allowed (hops + n) (req_url r) u host /\ method r = Get /\ req_headers r = [] /\ req_body r = None /\ 0 < timeout r)
    by (intros r'; destruct n as [|n]; [|done]; intros [= <-]; rewrite Nat.add_0_r; destruct (check_url_ok _ _ _ Hc) as [host Hu];
        exists u, host; cbn; split_and!; done || lia).
  all: destruct (transport hops _) as [resp|e]; [|apply Hfirst].
  all: destruct (redirect_of resp) as [loc|]; [|apply Hfirst].
  - apply Hfirst.
  - destruct (url_join u loc) as [next|e]; [|apply Hfirst]. specialize (IH (S hops) (url_to_string next)).
    destruct (get_run more (S hops) (url_to_string next)) as [l v]. cbn [fst] in *. destruct n as [|n]; [apply (Hfirst r)|].
    cbn [lookup list_lookup]. intros Hn. apply IH in Hn. by rewrite Nat.add_succ_comm in Hn.
Qed.
Lemma fetch_is_guarded url n r : (guarded_http_get resolve elapsed transport caps url).1 !! n = Some r ->
  exists u host, url_allowed n (req_url r) u host /\ found_in (outbound_secrets caps) url = None /\
    method r = Get /\ req_headers r = [] /\ req_body r = None /\ 0 < timeout r.
Proof.
  unfold guarded_http_get. destruct (http caps); cbn [negb]; [|done]. destruct (carries_secret _ _) as [x|e] eqn:Hs; [|done].
  apply carries_secret_ok in Hs. apply Forall_cons in Hs as [Hs _]. intros (u & host & ? & ? & ? & ? & ?)%get_sent. by exists u, host.
Qed.
(** C24: What [guarded_http_request] and [guarded_http_get] send for a guest has
    passed the policy. The URL is https without user information, its host is
    on the domain list where there is one, and the host resolved, at that hop,
    to public addresses only, or to private ones when the operator allowed the
    host; a redirect goes through the same checks. The raw input of a request,
    and the URL, header values and body parsed from it, or the URL of a fetch,
    held none of the operator's secrets; the names of headers are not looked
    at, and neither is what a redirect adds. A header of a request is the
    guest's, and then no credential or transport header, or a secret the
    operator stored for that hop's host; a fetch is a GET without headers or
    body. A GET or HEAD of a request sends at most four requests, any other
    method one, each while time of the budget is left. *)
Theorem egress_is_guarded :
  (forall input n r, sent (guarded input) !! n = Some r ->
  exists req u host,
    parse_http_request from_str_error to_vec_error input policy = Ok req /\
    url_allowed n (req_url r) u host /\
    Forall (fun t => found_in (outbound_secrets caps) t = None) (outbound_texts input req) /\
    method r = method req /\ req_body r = req_body req /\
    (forall x, x ∈ req_headers r ->
       guest_header x /\ x ∈ req_headers req \/
       exists s, s ∈ secrets caps /\ secret_host s ∈ secret_hosts_of u /\ x = (secret_name s, secret_value s)) /\
    0 < timeout r /\
    (length (sent (guarded input)) <= if follows_redirects (method r) then S MAX_REDIRECTS else 1)%nat) /\
  (forall url n r, (guarded_http_get resolve elapsed transport caps url).1 !! n = Some r ->
   exists u host, url_allowed n (req_url r) u host /\ found_in (outbound_secrets caps) url = None /\
     method r = Get /\ req_headers r = [] /\ req_body r = None /\ 0 < timeout r).
Proof. split; [exact request_is_guarded|exact fetch_is_guarded]. Qed.
End egress.

(** ** What the guest is told *)

(** The headers handed back: at most thirty-two, none of them a cookie, no
    more bytes than the cap, each as the response has it. *)
Definition entries_size (l : list (string * Value)) : Z :=
  foldr (fun '(k, v) acc => str_len k + match v with VString s => str_len s | _ => 0 end + acc) 0 l.
Lemma entries_size_nonneg l : 0 <= entries_size l.
Proof. induction l as [|[k v] l IH]; cbn; [lia|]. fold (entries_size l). unfold str_len, lenZ. destruct v; lia. Qed.
Lemma map_insert_size k s m : entries_size (map_insert k (VString s) m) <= entries_size m + (str_len k + str_len s) /\
  lenZ (map_insert k (VString s) m) <= lenZ m + 1.
Proof.
  induction m as [|[j v] m [IH1 IH2]]; cbn [map_insert]; [unfold lenZ; cbn; lia|].
  destruct (str_cmp k j) eqn:E; unfold lenZ in *; cbn [entries_size foldr length] in *; fold (entries_size m) in *;
    fold (entries_size (map_insert k (VString s) m)) in *.
  - assert (0 <= match v with VString s => str_len s | _ => 0 end) by (unfold str_len, lenZ; destruct v; lia).
    apply str_cmp_eq in E as ->. unfold str_len, lenZ in *. lia.
  - lia.
  - lia.
Qed.
Lemma guest_headers_bounded headers :
  lenZ (guest_headers headers) <= HTTP_HEADERS_MAX /\ entries_size (guest_headers headers) <= HTTP_HEADERS_BYTES_MAX /\
  forall k v, (k, v) ∈ guest_headers headers -> k ∉ HIDDEN_RESPONSE_HEADERS /\
    exists name value, (name, value) ∈ headers /\ k = ascii_lowercase name /\ v = VString value.
Proof.
  unfold guest_headers. set (ok := fun '(k, v) => k ∉ HIDDEN_RESPONSE_HEADERS /\ exists name value, (name, value) ∈ headers /\ k = ascii_lowercase name /\ v = VString value).
  assert (Hgen : forall l out size, l ⊆ headers -> lenZ out <= HTTP_HEADERS_MAX -> entries_size out <= size <= HTTP_HEADERS_BYTES_MAX ->
    Forall ok out -> let r := guest_headers_from l out size in
    lenZ r <= HTTP_HEADERS_MAX /\ entries_size r <= HTTP_HEADERS_BYTES_MAX /\ Forall ok r).
  { induction l as [|[name value] l IH]; intros out size Hl Hn Hs Ho; cbn [guest_headers_from]; [split_and!; [done|lia|done]|].
    case_bool_decide as Hh; [apply IH; try done; set_solver|].
    destruct ((HTTP_HEADERS_MAX <=? lenZ out) || _) eqn:Hb; [split_and!; [done|lia|done]|]. apply orb_false_iff in Hb as [Hb1 Hb2].
    destruct (map_insert_size (ascii_lowercase name) value out) as [Hi1 Hi2].
    apply IH; [set_solver|lia|lia|]. apply Forall_forall. intros [k v] Hkv.
    assert (Hins : (k, v) = (ascii_lowercase name, VString value) \/ (k, v) ∈ out).
    { clear -Hkv. induction out as [|[j w] out IH]; cbn [map_insert] in Hkv; [apply list_elem_of_singleton in Hkv; by left|].
      destruct (str_cmp (ascii_lowercase name) j).
      - apply elem_of_cons in Hkv as [->|Hkv]; [by left|right; by right].
      - apply elem_of_cons in Hkv as [->|Hkv]; [by left|by right].
      - apply elem_of_cons in Hkv as [->|Hkv]; [right; by left|]. destruct (IH Hkv) as [->|]; [by left|right; by right]. }
    destruct Hins as [[= -> ->]|Hin]; [|by apply (proj1 (Forall_forall _ _) Ho)]. split; [done|]. exists name, value. split; [|done]. apply Hl. by left. }
  destruct (Hgen headers [] 0) as (H1 & H2 & H3); [done|done|done|constructor|]. split_and!; [done|done|].
  intros k v Hkv. by apply (proj1 (Forall_forall _ _) H3 (k, v)).
Qed.

(** A body within the cap may be three times as long as text: each byte that
    is no UTF-8 becomes the replacement character. *)
Lemma lossy_triples n : length (lossy (replicate n 255)) = (3 * n)%nat.
Proof.
  induction n as [|n IH]; [done|]. change (lossy (replicate (S n) 255)) with (replacement ++ lossy (replicate n 255)).
  rewrite length_app, IH. cbn. lia.
Qed.

(** ** Searches *)

Section searches.
Context `{SerdeJson} `{!SerdeLaws}.
Context (caps : Capabilities) (provider : SearchRequest -> result string SearchResponse).

(** A host name: letters, digits, dots and dashes, so no operator of the
    query and no space. *)
Definition domain_text (d : string) : Prop :=
  d <> EmptyString /\ str_len d <= 253 /\ has_char (ascii_of 46) d = true /\ Forall (fun b => domain_byte b = true) (str_bytes d).
Record vetted_search (req : SearchRequest) : Prop := {
  vs_query : q req <> EmptyString;
  vs_count : 1 <= count req <= 20;
  vs_offset : 0 <= offset req <= 9;
  vs_exclude : (length (exclude req) <= 10)%nat /\ Forall domain_text (exclude req);
  vs_freshness : forall f, freshness req = Some f -> f ∈ ["pd"; "pw"; "pm"; "py"] \/ is_date_range f = true;
}.

Lemma sanitize_domain_text s d : sanitize_domain s = Some d -> domain_text d.
Proof.
  unfold sanitize_domain. generalize (ascii_lowercase (default EmptyString (head (split_on (ascii_of 47)
    (trim_start_matches (String.length (trim_start_matches (String.length (trim s)) "https://" (trim s))) "http://"
       (trim_start_matches (String.length (trim s)) "https://" (trim s))))))). intros x.
  destruct (negb _ && _ && _ && _) eqn:E; [|done]. intros [= <-]. rewrite !andb_true_iff in E. destruct E as [[[E1 E2] E3] E4].
  split; [|split; [lia|split; [done|]]]; [by intros ->|]. apply Forall_forall. intros b Hb. rewrite forallb_forall in E4. by apply E4, list_elem_of_In.
Qed.
Lemma normalize_freshness_ok s f : normalize_freshness s = Some f -> f ∈ ["pd"; "pw"; "pm"; "py"] \/ is_date_range f = true.
Proof. unfold normalize_freshness. repeat case_match; intros [= <-]; try (left; set_solver). by right. Qed.

Lemma parse_request_vetted input : q (parse_request input) <> EmptyString -> vetted_search (parse_request input).
Proof.
  unfold parse_request. assert (Hplain : q (plain_query input) <> EmptyString -> vetted_search (plain_query input)).
  { intros Hq. split; cbn; [done|lia|lia| |done]. split; [lia|constructor]. }
  destruct (from_str input) as [[| | | | |m]|]; try done. clear Hplain. intros Hq. split; [done|..]; cbn [count offset exclude freshness].
  - destruct (map_get "count" m ≫= as_u64); cbn; unfold clampZ; lia.
  - destruct (map_get "offset" m ≫= as_u64) as [n|] eqn:E; cbn; [|lia].
    apply bind_Some in E as (v & _ & E). destruct v; try done. apply num_as_u64_range in E. lia.
  - destruct (map_get "exclude" m ≫= as_array) as [arr|]; cbn; [|split; [lia|constructor]]. split; [rewrite length_take; lia|].
    apply Forall_take, Forall_forall. intros d (s & _ & Hd)%list_elem_of_omap. by eapply sanitize_domain_text.
  - intros f (s & _ & Hf)%bind_Some. by eapply normalize_freshness_ok.
Qed.

Lemma map_get_insert_other k j v m : k <> j -> map_get k (map_insert j v m) = map_get k m.
Proof.
  intros Hne. induction m as [|[i w] m IH]; cbn; [by rewrite decide_False|]. destruct (str_cmp j i) eqn:E; cbn.
  - apply str_cmp_eq in E as ->. by rewrite !decide_False.
  - by rewrite decide_False by done.
  - by rewrite IH.
Qed.
Lemma result_url_kept r : get (result_json r) "url" = Some (VString (result_url r)).
Proof.
  unfold result_json, json_obj. rewrite foldl_app. cbn [get].
  set (m := foldl _ [] [_; _; _]). assert (Hm : map_get "url" m = Some (VString (result_url r))) by done. clearbody m.
  assert (Hf : forall l m, (forall k v, (k, v) ∈ l -> k <> "url") -> map_get "url" m = Some (VString (result_url r)) ->
    map_get "url" (foldl (fun m '(k, v) => map_insert k v m) m l) = Some (VString (result_url r))).
  { clear. induction l as [|[k v] l IH]; intros m Hl Hm; [done|]. cbn [foldl]. apply IH; [intros k' v' Hin; apply (Hl k' v'); by right|].
    rewrite map_get_insert_other; [done|]. intros <-. by apply (Hl "url" v); [left|]. }
  apply Hf; [|done]. intros k v [Hin|Hin]%elem_of_app.
  - destruct (age r); [|by apply elem_of_nil in Hin]. case_bool_decide; [by apply elem_of_nil in Hin|].
    apply list_elem_of_singleton in Hin. by injection Hin as -> _.
  - destruct (snippets r); [by apply elem_of_nil in Hin|]. apply list_elem_of_singleton in Hin. by injection Hin as -> _.
Qed.

(** A search sends at most one request, and only for an input clear of
    the stored secrets. Whatever the guest wrote, the request has a query,
    one to twenty results, a page from zero to nine, at most ten excluded
    hosts, each plain host text that can add no other operator, and a
    freshness the backend knows; of the answer the guest sees at most twenty
    results, all of them https. *)
Theorem searches_are_vetted input req : req ∈ (guarded_web_search caps provider input).1 ->
  (guarded_web_search caps provider input).1 = [req] /\ found_in (outbound_secrets caps) input = None /\ vetted_search req /\
  forall resp, provider req = Ok resp ->
    (length (search_items req (results resp)) <= 20)%nat /\
    forall v, v ∈ search_items req (results resp) -> exists u, get v "url" = Some (VString u) /\ str_starts u "https://" = true.
Proof.
  unfold guarded_web_search. destruct (search caps); cbn [negb]; [|intros Hin; by apply elem_of_nil in Hin].
  destruct (carries_secret _ _) as [x|e] eqn:Hs; [|intros Hin; by apply elem_of_nil in Hin].
  apply carries_secret_ok in Hs. apply Forall_cons in Hs as [Hs _]. case_bool_decide as Hq; [intros Hin; by apply elem_of_nil in Hin|].
  assert (Hreq : req ∈ [parse_request input] -> req = parse_request input) by (by intros ?%list_elem_of_singleton).
  assert (Hitems : forall resp, (length (search_items (parse_request input) (results resp)) <= 20)%nat /\
    forall v, v ∈ search_items (parse_request input) (results resp) -> exists u, get v "url" = Some (VString u) /\ str_starts u "https://" = true).
  { intros resp. unfold search_items. rewrite takeZ_take. split; [rewrite length_fmap, length_take; lia|].
    intros v (r & -> & Hr)%list_elem_of_fmap. exists (result_url r). split; [apply result_url_kept|].
    apply elem_of_take in Hr as (i & Hr & _). apply list_elem_of_lookup_2, elem_of_List_filter in Hr. by destruct Hr. }
  destruct (provider (parse_request input)) as [resp|e] eqn:Hp; cbn [fst]; intros ->%Hreq.
  all: split_and!; [done|done|by apply parse_request_vetted|]; intros resp' _; apply Hitems.
Qed.

(** The secret guard of a search reads the raw input: what an escape in it
    stands for is sent unread. *)
Lemma search_reads_raw_input input m s : search caps = true -> found_in (outbound_secrets caps) input = None ->
  from_str input = Some (VObject m) -> map_get "q" m = Some (VString s) -> trim s <> EmptyString ->
  exists req, (guarded_web_search caps provider input).1 = [req] /\ q req = trim s.
Proof.
  intros Hg Hf Hi Hm Hs. unfold guarded_web_search. rewrite Hg. cbn [negb carries_secret]. rewrite Hf.
  assert (Hq : q (parse_request input) = trim s) by (unfold parse_request; rewrite Hi; cbn; by rewrite Hm).
  rewrite Hq, bool_decide_eq_false_2 by done. exists (parse_request input). split; [|done]. by destruct (provider (parse_request input)).
Qed.
End searches.

(** ** A concrete broker *)

Module EgressDemo.
Import Ref.
(** URLs that are a host. *)
#[export] Instance host_urls : UrlLib := {
  Url := string;
  url_parse s := match str_strip "https://" s with Some host => Ok host | None => Err "not a host" end;
  url_scheme _ := "https";
  url_username _ := EmptyString;
  url_password _ := None;
  url_host_str u := Some u;
  url_port _ := None;
  url_port_or_known_default _ := Some 443;
  url_join _ loc := match str_strip "https://" loc with Some host => Ok host | None => Err "not a host" end;
  url_append_pairs u _ := u;
  url_to_string u := "https://" +:+ u;
}.
Definition text (v : Value) : string := default EmptyString (to_string v).
Definition input : string := text (VObject [("headers", VObject [("X-A", VString "1")]); ("url", VString "https://api.example")]).
(** The first answer redirects to another host. *)
Definition transport (n : nat) (req : HttpRequest) : result string HttpResponse :=
  match n with
  | O => Ok {| status := 302; content_type := ""; resp_body := []; location := Some "https://other.example"; resp_headers := [] |}
  | _ => Ok {| status := 200; content_type := "text/plain"; resp_body := [104; 105]; location := None; resp_headers := [] |}
  end.
Definition granted : Capabilities :=
  {| http := true; http_policy := default_policy;
     secrets := [{| secret_host := "api.example"; secret_name := "authorization"; secret_value := "Bearer t-0123456789" |}];
     search := true; files := false; outbound_secrets := add [] "the GitHub token" "ghp_0123456789" |}.
Definition outcome : Outcome :=
  guarded_http_request (fun _ => EmptyString) EmptyString (fun _ _ _ => Ok [V4 (V4Addr 93 184 216 34)]) (fun n => 1000 * Z.of_nat n) transport
    (fun _ => Ok tt) (fun _ _ _ => Err "") granted input.
Definition second_hop : HttpRequest := {| method := Get; req_url := "https://other.example"; req_headers := [("x-a", "1")]; req_body := None;
  timeout := 10 * SECONDS - 1000; max_bytes := 262144; save_to := None |}.

Example secret_rides_one_hop :
  req_headers <$> sent outcome = [[("x-a", "1"); ("authorization", "Bearer t-0123456789")]; [("x-a", "1")]].
Proof. vm_compute. reflexivity. Qed.
Lemma egress_is_guarded_witness :
  sent outcome !! 1%nat = Some second_hop /\
  exists u host, url_allowed (fun _ _ _ => Ok [V4 (V4Addr 93 184 216 34)]) granted 1 "https://other.example" u host.
Proof.
  assert (E : sent outcome !! 1%nat = Some second_hop) by (vm_compute; reflexivity). split; [exact E|].
  destruct (egress_is_guarded (fun _ => EmptyString) EmptyString (fun _ _ _ => Ok [V4 (V4Addr 93 184 216 34)]) (fun n => 1000 * Z.of_nat n) transport
    (fun _ => Ok tt) (fun _ _ _ => Err "") granted) as [Hreq _].
  destruct (Hreq input 1%nat second_hop E) as (req & u & host & _ & Hu & _).
  exists u, host. exact Hu.
Defined.

Definition answers (req : SearchRequest) : result string SearchResponse :=
  Ok {| results := [{| title := "t"; result_url := "https://a.example"; description := "d"; age := None; snippets := [] |};
                    {| title := "t"; result_url := "http://b.example"; description := "d"; age := None; snippets := [] |}]; infobox := None |}.
Definition search_input : string :=
  text (VObject [("count", VNumber (PosInt 900)); ("exclude", VArray [VString "https://Bad.example/x"; VString "a b.c"]); ("q", VString "cats")]).
Definition search_sent : SearchRequest :=
  {| q := "cats"; freshness := None; offset := 0; count := 20; exclude := ["bad.example"]; extra_snippets := false |}.
Lemma searches_are_vetted_witness :
  (guarded_web_search granted answers search_input).1 = [search_sent] /\ vetted_search search_sent.
Proof.
  assert (E : (guarded_web_search granted answers search_input).1 = [search_sent]) by (vm_compute; reflexivity). split; [exact E|].
  destruct (searches_are_vetted granted answers search_input search_sent) as (_ & _ & Hv & _); [rewrite E; by left|exact Hv].
Defined.

(** The instance's JSON text spells no string out: a query that is a stored
    secret goes through. *)
Example escaped_secret_is_sent :
  let input := text (VObject [("q", VString "ghp_0123456789")]) in
  found_in (outbound_secrets granted) input = None /\ q <$> (guarded_web_search granted answers input).1 = ["ghp_0123456789"].
Proof. vm_compute. split; reflexivity. Qed.
End EgressDemo.
