(* ===== verification/ToolStore.v ===== *)
(** * Records of guest tools ([embra-guardian/src/store.rs] and the pure part
    of [embra-brain/src/guardian/mod.rs])

    One record per tool in the collection [guardian.tools], its identifier
    the name of the tool; the live overlay of compiled tools; and what the
    agent decides from a record: whether the tool can run, whether a rebuild
    builds it, what the boot does about a tool the image ships. *)

From S2P Require Import Prelude Bytes F64 Json Text.
From Stdlib Require Import Ascii.

(** ** [store.rs] *)

Inductive ToolStatus := Proposed | Building | Ready | Failed.
#[export] Instance ToolStatus_eq : EqDecision ToolStatus.
Proof. solve_decision. Defined.

Record ReplicantRecord := {
  rr_verdict : string;
  rr_touched_lines : list string;
  rr_rationale : string;
  rr_model : string;
  rr_judged_at : string;
}.
Record ShippedRecord := { sr_sha256 : string; sr_installed_at : string }.

(** [ValidatedModule] ([validator.rs]). *)
Record ValidatedModule := {
  m_name : string;
  m_description : string;
  m_input_schema : Value;
  m_caps : list string;
  m_source : string;
}.

Definition TOOL_DOC_FORMAT : Z := 1.
Record ToolDoc := {
  format_version : Z;
  td_name : string;
  td_description : string;
  td_input_schema : Value;
  td_source : string;
  td_caps : list string;
  td_status : ToolStatus;
  td_toolchain : string;
  td_source_sha256 : string;
  td_log_tail : string;
  td_artifact_sha256 : option string;
  td_replicant : option ReplicantRecord;
  td_shipped : option ShippedRecord;
  td_created_at : string;
  td_updated_at : string;
}.

(** The assignments of fields the handlers make. *)
Definition set_status (d : ToolDoc) (st : ToolStatus) : ToolDoc :=
  {| format_version := format_version d; td_name := td_name d; td_description := td_description d;
     td_input_schema := td_input_schema d; td_source := td_source d; td_caps := td_caps d; td_status := st;
     td_toolchain := td_toolchain d; td_source_sha256 := td_source_sha256 d; td_log_tail := td_log_tail d;
     td_artifact_sha256 := td_artifact_sha256 d; td_replicant := td_replicant d; td_shipped := td_shipped d;
     td_created_at := td_created_at d; td_updated_at := td_updated_at d |}.
Definition set_updated (d : ToolDoc) (now : string) : ToolDoc :=
  {| format_version := format_version d; td_name := td_name d; td_description := td_description d;
     td_input_schema := td_input_schema d; td_source := td_source d; td_caps := td_caps d; td_status := td_status d;
     td_toolchain := td_toolchain d; td_source_sha256 := td_source_sha256 d; td_log_tail := td_log_tail d;
     td_artifact_sha256 := td_artifact_sha256 d; td_replicant := td_replicant d; td_shipped := td_shipped d;
     td_created_at := td_created_at d; td_updated_at := now |}.
Definition set_log (d : ToolDoc) (log : string) : ToolDoc :=
  {| format_version := format_version d; td_name := td_name d; td_description := td_description d;
     td_input_schema := td_input_schema d; td_source := td_source d; td_caps := td_caps d; td_status := td_status d;
     td_toolchain := td_toolchain d; td_source_sha256 := td_source_sha256 d; td_log_tail := log;
     td_artifact_sha256 := td_artifact_sha256 d; td_replicant := td_replicant d; td_shipped := td_shipped d;
     td_created_at := td_created_at d; td_updated_at := td_updated_at d |}.
Definition set_replicant (d : ToolDoc) (r : option ReplicantRecord) : ToolDoc :=
  {| format_version := format_version d; td_name := td_name d; td_description := td_description d;
     td_input_schema := td_input_schema d; td_source := td_source d; td_caps := td_caps d; td_status := td_status d;
     td_toolchain := td_toolchain d; td_source_sha256 := td_source_sha256 d; td_log_tail := td_log_tail d;
     td_artifact_sha256 := td_artifact_sha256 d; td_replicant := r; td_shipped := td_shipped d;
     td_created_at := td_created_at d; td_updated_at := td_updated_at d |}.
Definition set_shipped (d : ToolDoc) (r : option ShippedRecord) : ToolDoc :=
  {| format_version := format_version d; td_name := td_name d; td_description := td_description d;
     td_input_schema := td_input_schema d; td_source := td_source d; td_caps := td_caps d; td_status := td_status d;
     td_toolchain := td_toolchain d; td_source_sha256 := td_source_sha256 d; td_log_tail := td_log_tail d;
     td_artifact_sha256 := td_artifact_sha256 d; td_replicant := td_replicant d; td_shipped := r;
     td_created_at := td_created_at d; td_updated_at := td_updated_at d |}.

(** The crate [sha2] with [hex]. *)
Class Sha256 := sha256_hex_bytes : bytes -> string.

Section docs.
Context `{Sha256}.

Definition sha256_hex (s : string) : string := sha256_hex_bytes (str_bytes s).
Definition source_matches (d : ToolDoc) (disk_source : string) : bool := bool_decide (td_source_sha256 d = sha256_hex disk_source).
Definition building (m : ValidatedModule) (toolchain_version now : string) : ToolDoc :=
  {| format_version := TOOL_DOC_FORMAT; td_name := m_name m; td_description := m_description m;
     td_input_schema := m_input_schema m; td_source := m_source m; td_caps := m_caps m; td_status := Building;
     td_toolchain := toolchain_version; td_source_sha256 := sha256_hex (m_source m); td_log_tail := EmptyString;
     td_artifact_sha256 := None; td_replicant := None; td_shipped := None; td_created_at := now; td_updated_at := now |}.
Definition artifact_check (d : ToolDoc) (wasm : bytes) : result string unit :=
  match td_artifact_sha256 d with
  | None => Err "was built before artifacts were recorded, so its bytes cannot be checked"
  | Some expected =>
      if bool_decide (expected = sha256_hex_bytes wasm) then Ok tt
      else Err "is not the one the record names (sha256 differs)"
  end.
End docs.

(** ** [valid_tool_name] ([validator.rs]) *)

Definition is_lower (b : Z) : bool := (97 <=? b) && (b <=? 122).
Definition is_digit (b : Z) : bool := (48 <=? b) && (b <=? 57).
Definition valid_tool_name (name : string) : bool :=
  let b := str_bytes name in
  (3 <=? str_len name) && (str_len name <=? 40) && match b with b0 :: _ => is_lower b0 | [] => false end &&
  forallb (fun c => is_lower c || is_digit c || (c =? 95)) b.

(** ** What can run *)

Inductive Availability :=
| Callable
| ToolchainMismatch (built_with current : string)
| ArtifactNotLoaded
| AProposed
| ABuilding
| AFailed.
#[export] Instance Availability_eq : EqDecision Availability.
Proof. solve_decision. Defined.

Definition availability (d : ToolDoc) (current_toolchain : string) (loaded : bool) : Availability :=
  if loaded then Callable
  else match td_status d with
       | Ready => if bool_decide (td_toolchain d = current_toolchain) then ArtifactNotLoaded
                  else ToolchainMismatch (td_toolchain d) current_toolchain
       | Proposed => AProposed
       | Building => ABuilding
       | Failed => AFailed
       end.

(** Why a proposal may not take a name that has a record. *)
Definition proposal_is_blocked_by (st : ToolStatus) : option string :=
  match st with
  | Ready | Building => Some "already exists; choose a different name, or ask the operator to /guardian delete it first"
  | Proposed => Some "is a pending proposal; the operator decides it with /guardian approve or /guardian reject before another is made under this name"
  | Failed => None
  end.

Inductive RebuildDecision := Rebuild | UpToDate | AwaitingApproval | AlreadyBuilding.
#[export] Instance RebuildDecision_eq : EqDecision RebuildDecision.
Proof. solve_decision. Defined.
Definition rebuild_decision (d : ToolDoc) (current_toolchain : string) (loaded : bool) : RebuildDecision :=
  match td_status d with
  | Proposed => AwaitingApproval
  | Building => AlreadyBuilding
  | Failed => Rebuild
  | Ready => if loaded && bool_decide (td_toolchain d = current_toolchain) then UpToDate else Rebuild
  end.

Inductive RebuildTarget := All | One (name : string) | Usage.
Definition parse_rebuild_target (arg : string) : RebuildTarget :=
  match split_whitespace arg with
  | [w] => if bool_decide (w = "--all") then All else if str_starts w "-" then Usage else One w
  | _ => Usage
  end.

(** ** Tools the image ships *)

Record ShippedTool := { st_name : string; st_source : string }.
Definition stored_source (t : ShippedTool) : string := trim (st_source t).
Definition source_sha256 `{Sha256} (t : ShippedTool) : string := sha256_hex (stored_source t).

Inductive ShippedDecision := Install | Declined | SUpToDate | SUpdate | Adopt | LeaveEdited | LeaveOperator.
#[export] Instance ShippedDecision_eq : EqDecision ShippedDecision.
Proof. solve_decision. Defined.
Definition shipped_decision (existing : option ToolDoc) (current_sha : string) (known : list string) (declined loaded : bool)
  : ShippedDecision :=
  match existing with
  | None => if declined then Declined else Install
  | Some d =>
      match td_shipped d with
      | Some rec =>
          if negb (bool_decide (td_source_sha256 d = sr_sha256 rec)) then LeaveEdited
          else if negb (bool_decide (sr_sha256 rec = current_sha)) || negb (bool_decide (td_status d = Ready)) || negb loaded
          then SUpdate else SUpToDate
      | None => if bool_decide (td_source_sha256 d ∈ known) then Adopt else LeaveOperator
      end
  end.

(** The file of declined names. *)
Definition newline : ascii := ascii_of 10.
Definition declined_names (file : option string) : list string :=
  List.filter (fun l => negb (bool_decide (l = EmptyString))) (trim <$> split_on newline (default EmptyString file)).
Definition join_lines (l : list string) : string :=
  match l with [] => EmptyString | x :: l => foldl (fun acc y => acc +:+ sep newline +:+ y) x l end.
Definition record_decline (file : option string) (name : string) : string :=
  let names := declined_names file in
  let names := if bool_decide (name ∈ names) then names else names ++ [name] in
  join_lines names +:+ sep newline.

(** ** The overlay ([overlay.rs]) *)

Record CompiledTool := {
  ct_name : string;
  ct_description : string;
  ct_schema : Value;
  ct_caps : list string;
  ct_wasm : bytes;
}.
(** [None] until the runtime is initialised. *)
Definition Overlay := option (gmap string CompiledTool).
Definition overlay_get (o : Overlay) (name : string) : option CompiledTool := o ≫= (fun m => m !! name).
Definition is_loaded (o : Overlay) (name : string) : bool := bool_decide (is_Some (overlay_get o name)).
Definition overlay_remove (o : Overlay) (name : string) : Overlay := delete name <$> o.
