(* ===== verification/Lifecycle.v ===== *)
(** * The life of a guest tool ([embra-brain/src/guardian/mod.rs])

    The commands of the operator, the proposals of the agent, the builds and
    batches they start, and the reconciliation at boot, over the records, the
    overlay and the file of declined names. A command that asks the replicant
    check waits for a model call: it is cut there into two steps, and anything
    may happen in between. A build runs beside the commands and ends in a
    step of its own. The database answers each call with a success or a
    fault. *)

From S2P Require Import Prelude Bytes F64 Json Text ToolStore.
From Stdlib Require Import Ascii.

(** ** Answers of the environment *)

(** A write may be lost, or done without an answer. *)
Inductive Write := Stored | Lost | Unacknowledged.
#[export] Instance Write_eq : EqDecision Write.
Proof. solve_decision. Defined.
Record Answers := {
  a_read : bool;
  a_write : Write;
  a_delete : bool;
  a_config : result string unit;
  a_decline : result string unit;
  a_now : string;
  a_created : string -> string;
}.
Record ReplicantVerdict := { v_verdict : string; v_touched_lines : list string; v_rationale : string }.
Definition is_refuse (v : ReplicantVerdict) : bool := bool_decide (v_verdict v = "refuse").
Definition is_escalate (v : ReplicantVerdict) : bool := bool_decide (v_verdict v = "escalate").
(** What the replicant check reads: the soul, whether a hash is stored, the
    model of the configured provider, and its verdict. *)
Record SoulAnswers := {
  s_soul : result string (option Value);
  s_hash_is_stored : result string bool;
  s_provider : result string string;
  s_verdict : result string ReplicantVerdict;
}.
Definition SOUL_HASH_PATH : string := "/embra/state/soul.sha256".
Definition run_replicant_check (s : SoulAnswers) : result string (option (ReplicantVerdict * string)) :=
  match s_soul s with
  | Ok (Some _) =>
      let? model := map_err (fun e => "replicant check could not run — " +:+ e) (s_provider s) in
      let? verdict := map_err (fun e => "replicant check could not complete (" +:+ e +:+ ")") (s_verdict s) in
      Ok (Some (verdict, model))
  | Ok None =>
      match s_hash_is_stored s with
      | Ok false => Ok None
      | Ok true => Err ("the soul document is missing but a sealed hash is stored at " +:+ SOUL_HASH_PATH
                          +:+ " — restore DATA, or remove the hash to start over")
      | Err e => Err ("the stored soul hash at " +:+ SOUL_HASH_PATH +:+ " could not be checked — " +:+ e)
      end
  | Err e => Err ("soul read failed — " +:+ e)
  end.
(** The lines a refusal names. *)
Definition touched_text (v : ReplicantVerdict) : string :=
  match v_touched_lines v with
  | [] => EmptyString
  | x :: l => " (touched: " +:+ foldl (fun acc y => acc +:+ "; " +:+ y) x l +:+ ")"
  end.
Definition replicant_record (v : ReplicantVerdict) (model now : string) : ReplicantRecord :=
  {| rr_verdict := v_verdict v; rr_touched_lines := v_touched_lines v; rr_rationale := v_rationale v;
     rr_model := model; rr_judged_at := now |}.

(** ** State *)

(** The image that runs: the toolchain it carries, the names of its own
    tools. *)
Record Image := { toolchain_version : string; reserved_names : list string }.

(** Commands that wait for the replicant check. *)
Inductive PendingCheck :=
| CheckDefine (m : ValidatedModule) (now : string)
| CheckPropose (m : ValidatedModule)
| CheckApprove (d : ToolDoc) (m : ValidatedModule) (now : string)
| CheckRebuild (d : ToolDoc) (m : ValidatedModule) (in_batch : bool).

(** The task behind [REBUILD_BATCH]: what is left of its queue. *)
Inductive Batch := RebuildQueue (names : list string) | ShippedQueue (queue : list ShippedTool) (declined : list string).

Record Brain := {
  records : gmap string ToolDoc;
  overlay : Overlay;
  declined_file : option string;
  image : Image;
  checks : list PendingCheck;
  builds : list (ValidatedModule * bool);
  rebuild_batch : option Batch;
}.
Definition set_records (s : Brain) (r : gmap string ToolDoc) : Brain :=
  {| records := r; overlay := overlay s; declined_file := declined_file s; image := image s; checks := checks s;
     builds := builds s; rebuild_batch := rebuild_batch s |}.
Definition set_overlay (s : Brain) (o : Overlay) : Brain :=
  {| records := records s; overlay := o; declined_file := declined_file s; image := image s; checks := checks s;
     builds := builds s; rebuild_batch := rebuild_batch s |}.
Definition set_declined (s : Brain) (f : option string) : Brain :=
  {| records := records s; overlay := overlay s; declined_file := f; image := image s; checks := checks s;
     builds := builds s; rebuild_batch := rebuild_batch s |}.
Definition set_checks (s : Brain) (l : list PendingCheck) : Brain :=
  {| records := records s; overlay := overlay s; declined_file := declined_file s; image := image s; checks := l;
     builds := builds s; rebuild_batch := rebuild_batch s |}.
Definition set_builds (s : Brain) (l : list (ValidatedModule * bool)) : Brain :=
  {| records := records s; overlay := overlay s; declined_file := declined_file s; image := image s; checks := checks s;
     builds := l; rebuild_batch := rebuild_batch s |}.
Definition set_batch (s : Brain) (b : option Batch) : Brain :=
  {| records := records s; overlay := overlay s; declined_file := declined_file s; image := image s; checks := checks s;
     builds := builds s; rebuild_batch := b |}.

Definition upsert (w : Write) (d : ToolDoc) (s : Brain) : Brain * bool :=
  match w with
  | Stored => (set_records s (<[td_name d := d]> (records s)), true)
  | Unacknowledged => (set_records s (<[td_name d := d]> (records s)), false)
  | Lost => (s, false)
  end.
(** A fault of the read is no record. *)
Definition load_doc (read : bool) (s : Brain) (name : string) : option ToolDoc :=
  if read then records s !! name else None.
Definition remove_doc (applied : bool) (name : string) (s : Brain) : Brain :=
  if applied then set_records s (delete name (records s)) else s.
(** [WardsonDbClient::fetch_collection]: the newest records, by the stamps
    [created] of the server, the oldest first. *)
Definition TOOL_COLLECTION_WINDOW : nat := 10 ^ 3.
Definition newer (created : string -> string) (a b : ToolDoc) : comparison :=
  then_cmp (str_cmp (created (td_name b)) (created (td_name a))) (str_cmp (td_name b) (td_name a)).
Definition fetch_collection (created : string -> string) (docs : list ToolDoc) : list ToolDoc :=
  rev (take TOOL_COLLECTION_WINDOW (sort_by (newer created) docs)).
Definition all_docs (read : bool) (created : string -> string) (s : Brain) : list ToolDoc :=
  if read then sort_by (fun a b => str_cmp (td_name a) (td_name b)) (fetch_collection created (map_to_list (records s)).*2) else [].
(** [tokio::spawn(build_and_register)]. *)
Definition spawn_build (m : ValidatedModule) (in_batch : bool) (s : Brain) : Brain := set_builds s (builds s ++ [(m, in_batch)]).
Definition await_check (c : PendingCheck) (s : Brain) : Brain := set_checks s (checks s ++ [c]).
Definition loaded (s : Brain) (name : string) : bool := is_loaded (overlay s) name.

(** Answers, by kind. *)
Inductive Reply :=
| REmpty | RInvalid (e : string) | RBlocked (e : string) | RNoConfig (e : string) | RRefused (e : string) | RNoSoul
| RCheckFailed (e : string) | RNotPersisted | RChanged | RNotFound | RNotApprovable (st : ToolStatus) | RNotPending (st : ToolStatus)
| RBatchRunning | RNothing | RUpToDate | RAwaiting | RAlready | RStopped (why : string) | RBadName
| RWaiting | RBuilding (escalated : bool) | RProposed (escalated : bool) | RRejected | RDeleted | RDeletedDeclined | RDeletedNoDecline (e : string)
| RBatch (names : list string) | RDone.

(** [chars().take(n)]. *)
Fixpoint take_chars (n : nat) (l : bytes) : bytes :=
  match l with
  | [] => []
  | b :: l => if utf8_cont b then b :: take_chars n l
              else match n with O => [] | S n => b :: take_chars n l end
  end.
Definition LOG_CHARS : Z := 8 * 1024.
Definition cut_log (s : string) : string := bytes_str (take_chars (Z.to_nat LOG_CHARS) (str_bytes s)).

(** ** Parts not modelled *)

(** The validator of sources, as far as the life of a tool relies on it: the
    module it gives carries the source it was given and a proper name, and the
    reserved names decide only whether there is one. *)
Class Validator := validate : string -> list string -> result string ValidatedModule.
Class ValidatorLaws `{Validator} := {
  validate_source : forall source reserved m, validate source reserved = Ok m -> m_source m = source;
  validate_name : forall source reserved m, validate source reserved = Ok m -> valid_tool_name (m_name m) = true;
  validate_stable : forall source reserved reserved' m m',
    validate source reserved = Ok m -> validate source reserved' = Ok m' -> m = m';
}.
(** [wasmtime]'s compilation of a module. *)
Class Wasm := precompile : bytes -> result string unit.

Section lifecycle.
Context `{Sha256} `{Validator} `{Wasm}.
(** [SHIPPED] and [known_sha256s] ([shipped.rs]). *)
Context (shipped : list ShippedTool) (known_sha256s : string -> list string).

Definition compile_insert (name description : string) (schema : Value) (caps : list string) (wasm : bytes) (o : gmap string CompiledTool)
  : result string (gmap string CompiledTool) :=
  let? _ := precompile wasm in
  Ok (<[name := {| ct_name := name; ct_description := description; ct_schema := schema; ct_caps := caps; ct_wasm := wasm |}]> o).

(** ** Builds *)

Definition mark (m : ValidatedModule) (st : ToolStatus) (log : string) (artifact : option string) (a : Answers) (s : Brain) : Brain :=
  let tv := toolchain_version (image s) in
  let d := default (building m tv (a_now a)) (load_doc (a_read a) s (m_name m)) in
  (upsert (a_write a)
    {| format_version := format_version d; td_name := td_name d; td_description := td_description d;
       td_input_schema := td_input_schema d; td_source := td_source d; td_caps := td_caps d; td_status := st;
       td_toolchain := tv; td_source_sha256 := td_source_sha256 d; td_log_tail := cut_log log;
       td_artifact_sha256 := artifact; td_replicant := td_replicant d; td_shipped := td_shipped d;
       td_created_at := td_created_at d; td_updated_at := a_now a |} s).1.
Definition mark_failed (m : ValidatedModule) (why : string) (a : Answers) (s : Brain) : Brain := mark m Failed why None a s.

(** What scaffold and cargo answer. *)
Inductive BuildOutcome := BuiltWasm (wasm : bytes) (log : string) | BuildError (why : string).
Definition build_and_register (m : ValidatedModule) (o : BuildOutcome) (a : Answers) (s : Brain) : Brain :=
  match o with
  | BuildError why => mark_failed m why a s
  | BuiltWasm wasm log =>
      match overlay s with
      | None => mark_failed m "overlay not initialized" a s
      | Some tools =>
          match compile_insert (m_name m) (m_description m) (m_input_schema m) (m_caps m) wasm tools with
          | Ok tools => mark m Ready log (Some (sha256_hex_bytes wasm)) a (set_overlay s (Some tools))
          | Err e => mark_failed m ("wasm load: " +:+ e) a s
          end
      end
  end.

(** ** Commands *)

Definition define (source : string) (a : Answers) (s : Brain) : Brain * Reply :=
  if bool_decide (trim source = EmptyString) then (s, REmpty)
  else match validate source (reserved_names (image s)) with
       | Err e => (s, RInvalid e)
       | Ok m => match a_config a with
                 | Err e => (s, RNoConfig e)
                 | Ok _ => (await_check (CheckDefine m (a_now a)) s, RWaiting)
                 end
       end.
Definition define_judged (m : ValidatedModule) (now : string) (soul : SoulAnswers) (a : Answers) (s : Brain) : Brain * Reply :=
  match run_replicant_check soul with
  | Err e => (s, RCheckFailed e)
  | Ok judged =>
      if match judged with Some (v, _) => is_refuse v | None => false end then
        (s, RRefused (match judged with Some (v, _) => v_rationale v | None => EmptyString end))
      else
        let record := (fun '(v, model) => replicant_record v model now) <$> judged in
        let d := set_replicant (building m (toolchain_version (image s)) now) record in
        match upsert (a_write a) d s with
        | (s, false) => (s, RNotPersisted)
        | (s, true) => (spawn_build m false s, RBuilding (match judged with Some (v, _) => is_escalate v | None => false end))
        end
  end.

Definition propose (source : string) (a : Answers) (s : Brain) : Brain * Reply :=
  if bool_decide (trim source = EmptyString) then (s, REmpty)
  else match validate source (reserved_names (image s)) with
       | Err e => (s, RInvalid e)
       | Ok m => match load_doc (a_read a) s (m_name m) ≫= (fun d => proposal_is_blocked_by (td_status d)) with
                 | Some why => (s, RBlocked why)
                 | None => (await_check (CheckPropose m) s, RWaiting)
                 end
       end.
Definition propose_judged (m : ValidatedModule) (soul : SoulAnswers) (a : Answers) (s : Brain) : Brain * Reply :=
  match run_replicant_check soul with
  | Err e => (s, RCheckFailed e)
  | Ok None => (s, RNoSoul)
  | Ok (Some (v, model)) =>
      if is_refuse v then (s, RRefused (v_rationale v))
      else
        let d := set_replicant (set_status (building m (toolchain_version (image s)) (a_now a)) Proposed)
                   (Some (replicant_record v model (a_now a))) in
        match upsert (a_write a) d s with
        | (s, false) => (s, RNotPersisted)
        | (s, true) => (s, RProposed (is_escalate v))
        end
  end.

Definition approve (name : string) (a : Answers) (s : Brain) : Brain * Reply :=
  if bool_decide (name = EmptyString) then (s, REmpty)
  else match load_doc (a_read a) s name with
       | None => (s, RNotFound)
       | Some d =>
           match td_status d with
           | Ready | Building | Failed => (s, RNotApprovable (td_status d))
           | Proposed =>
               match validate (td_source d) (reserved_names (image s)) with
               | Err e => (s, RInvalid e)
               | Ok m =>
                   if negb (source_matches d (td_source d)) then (s, RChanged)
                   else match a_config a with
                        | Err e => (s, RNoConfig e)
                        | Ok _ => (await_check (CheckApprove d m (a_now a)) s, RWaiting)
                        end
               end
           end
       end.
Definition approve_judged (d : ToolDoc) (m : ValidatedModule) (now : string) (soul : SoulAnswers) (a : Answers) (s : Brain)
  : Brain * Reply :=
  match run_replicant_check soul with
  | Err e => (s, RCheckFailed e)
  | Ok None => (s, RNoSoul)
  | Ok (Some (v, model)) =>
      if is_refuse v then (s, RRefused (v_rationale v))
      else
        let d := set_updated (set_replicant (set_status d Building) (Some (replicant_record v model now))) now in
        match upsert (a_write a) d s with
        | (s, false) => (s, RNotPersisted)
        | (s, true) => (spawn_build m false s, RBuilding (is_escalate v))
        end
  end.

Definition reject (name : string) (a : Answers) (s : Brain) : Brain * Reply :=
  if bool_decide (name = EmptyString) then (s, REmpty)
  else match load_doc (a_read a) s name with
       | Some d => if bool_decide (td_status d = Proposed) then (remove_doc (a_delete a) name s, RRejected)
                   else (s, RNotPending (td_status d))
       | None => (s, RNotFound)
       end.

(** [safe_tool_dir] refuses what is not a tool name. *)
Definition delete_tool (name : string) (a : Answers) (s : Brain) : Brain * Reply :=
  if bool_decide (name = EmptyString) then (s, REmpty)
  else if negb (valid_tool_name name) then (s, RBadName)
  else
    let s := remove_doc (a_delete a) name (set_overlay s (overlay_remove (overlay s) name)) in
    if negb (existsb (fun t => bool_decide (st_name t = name)) shipped) then (s, RDeleted)
    else match a_decline a with
         | Ok _ => (set_declined s (Some (record_decline (declined_file s) name)), RDeletedDeclined)
         | Err e => (s, RDeletedNoDecline e)
         end.

(** ** Rebuilds *)

Definition record_rebuild_stopped (d : ToolDoc) (why : string) (a : Answers) (s : Brain) : Brain :=
  (upsert (a_write a) (set_updated (set_log d (cut_log ("not rebuilt: " +:+ why))) (a_now a)) s).1.
(** The gates up to the check, and from its answer on. *)
Definition rebuild_gates (d : ToolDoc) (a : Answers) (s : Brain) : result string ValidatedModule :=
  let? m := map_err (fun e => "the stored module no longer validates (" +:+ e +:+ ")") (validate (td_source d) (reserved_names (image s))) in
  if negb (bool_decide (m_name m = td_name d)) then
    Err ("the stored module names itself '" +:+ m_name m +:+ "', not '" +:+ td_name d +:+ "'")
  else
    let? _ := map_err (fun e => "could not load config for the replicant check (" +:+ e +:+ ")") (a_config a) in
    Ok m.
Definition rebuild_judged_record (soul : SoulAnswers) (now : string) : result string (option ReplicantRecord) :=
  let? judged := run_replicant_check soul in
  match judged with
  | Some (v, model) =>
      if is_refuse v then Err ("it did not pass the replicant check" +:+ touched_text v +:+ " — " +:+ v_rationale v)
      else Ok (Some (replicant_record v model now))
  | None => Ok None
  end.
Definition begin_rebuild (d : ToolDoc) (record : option ReplicantRecord) (a : Answers) (s : Brain) : Brain * bool :=
  let d := set_updated (set_status d Building) (a_now a) in
  upsert (a_write a) (match record with Some _ => set_replicant d record | None => d end) s.

(** The part [rebuild_named] and [rebuild_in_batch] share. *)
Definition start_rebuild (d : ToolDoc) (in_batch : bool) (a : Answers) (s : Brain) : Brain * Reply :=
  match rebuild_gates d a s with
  | Err why => (record_rebuild_stopped d why a s, RStopped why)
  | Ok m => (await_check (CheckRebuild d m in_batch) s, RWaiting)
  end.
Definition rebuild_judged (d : ToolDoc) (m : ValidatedModule) (in_batch : bool) (soul : SoulAnswers) (a : Answers) (s : Brain)
  : Brain * Reply :=
  match rebuild_judged_record soul (a_now a) with
  | Err why => (record_rebuild_stopped d why a s, RStopped why)
  | Ok record =>
      match begin_rebuild d record a s with
      | (s, false) => (s, RNotPersisted)
      | (s, true) => (spawn_build m in_batch s, RBuilding (match record with Some r => bool_decide (rr_verdict r = "escalate") | None => false end))
      end
  end.

Definition rebuild_named (name : string) (a : Answers) (s : Brain) : Brain * Reply :=
  match rebuild_batch s with
  | Some _ => (s, RBatchRunning)
  | None =>
      match load_doc (a_read a) s name with
      | None => (s, RNotFound)
      | Some d =>
          match rebuild_decision d (toolchain_version (image s)) (loaded s name) with
          | UpToDate => (s, RUpToDate)
          | AwaitingApproval => (s, RAwaiting)
          | AlreadyBuilding => (s, RAlready)
          | Rebuild => start_rebuild d false a s
          end
      end
  end.
Definition rebuild_queue (read : bool) (created : string -> string) (s : Brain) : list string :=
  td_name <$> List.filter (fun d => bool_decide (rebuild_decision d (toolchain_version (image s)) (loaded s (td_name d)) = Rebuild)) (all_docs read created s).
Definition rebuild_all (a : Answers) (s : Brain) : Brain * Reply :=
  let queue := sort_by str_cmp (rebuild_queue (a_read a) (a_created a) s) in
  match queue, rebuild_batch s with
  | [], _ => (s, RNothing)
  | _, Some _ => (s, RBatchRunning)
  | _, None => (set_batch s (Some (RebuildQueue queue)), RBatch queue)
  end.
Definition rebuild_in_batch (name : string) (a : Answers) (s : Brain) : Brain :=
  match load_doc (a_read a) s name with
  | None => s
  | Some d =>
      if bool_decide (rebuild_decision d (toolchain_version (image s)) (loaded s name) = Rebuild)
      then (start_rebuild d true a s).1 else s
  end.

(** ** Shipped tools *)

Definition ensure_shipped_tools (s : Brain) : Brain * Reply :=
  match rebuild_batch s with
  | Some _ => (s, RBatchRunning)
  | None => (set_batch s (Some (ShippedQueue shipped (declined_names (declined_file s)))), RDone)
  end.
(** The record an update or an adoption writes before its build. *)
Definition updated_doc (d : ToolDoc) (m : ValidatedModule) (current now : string) : ToolDoc :=
  {| format_version := format_version d; td_name := td_name d; td_description := m_description m;
     td_input_schema := m_input_schema m; td_source := m_source m; td_caps := m_caps m; td_status := Building;
     td_toolchain := td_toolchain d; td_source_sha256 := current; td_log_tail := EmptyString;
     td_artifact_sha256 := td_artifact_sha256 d; td_replicant := td_replicant d;
     td_shipped := Some {| sr_sha256 := current; sr_installed_at := now |};
     td_created_at := td_created_at d; td_updated_at := now |}.
Definition build_shipped (d : ToolDoc) (m : ValidatedModule) (a : Answers) (s : Brain) : Brain :=
  match upsert (a_write a) d s with
  | (s, false) => s
  | (s, true) => spawn_build m true s
  end.
Definition ensure_shipped_tool (tool : ShippedTool) (declined : list string) (a : Answers) (s : Brain) : Brain :=
  match validate (stored_source tool) (reserved_names (image s)) with
  | Err _ => s
  | Ok m =>
      let current := source_sha256 tool in
      let existing := load_doc (a_read a) s (st_name tool) in
      let decision := shipped_decision existing current (known_sha256s (st_name tool)) (bool_decide (st_name tool ∈ declined))
                        (loaded s (st_name tool)) in
      match decision, existing with
      | (SUpToDate | Declined | LeaveEdited | LeaveOperator), _ => s
      | Install, _ =>
          build_shipped (set_shipped (building m (toolchain_version (image s)) (a_now a))
                           (Some {| sr_sha256 := current; sr_installed_at := a_now a |})) m a s
      | (Adopt | SUpdate), None => s
      | (Adopt | SUpdate), Some d =>
          let d := if bool_decide (decision = Adopt)
                   then set_shipped d (Some {| sr_sha256 := td_source_sha256 d; sr_installed_at := a_now a |}) else d in
          if negb (bool_decide (td_source_sha256 d = current)) || negb (bool_decide (td_status d = Ready)) || negb (loaded s (st_name tool))
          then build_shipped (updated_doc d m current (a_now a)) m a s
          else (upsert (a_write a) d s).1
      end
  end.

(** The task goes on once nothing of it is pending. *)
Definition batch_idle (s : Brain) : bool :=
  negb (existsb (fun c => match c with CheckRebuild _ _ true => true | _ => false end) (checks s)) &&
  negb (existsb snd (builds s)).
Definition batch_next (a : Answers) (s : Brain) : Brain :=
  if negb (batch_idle s) then s
  else match rebuild_batch s with
       | None => s
       | Some (RebuildQueue []) | Some (ShippedQueue [] _) => set_batch s None
       | Some (RebuildQueue (name :: q)) => rebuild_in_batch name a (set_batch s (Some (RebuildQueue q)))
       | Some (ShippedQueue (tool :: q) declined) => ensure_shipped_tool tool declined a (set_batch s (Some (ShippedQueue q declined)))
       end.

(** ** Boot *)

(** The files of the target directory and the writes of one boot. *)
Record BootAnswers := {
  b_init : bool;
  b_read : bool;
  b_artifact : string -> option bytes;
  b_write : string -> Write;
  b_now : string;
  b_created : string -> string;
}.
Definition interrupted (d : ToolDoc) (now : string) : ToolDoc :=
  set_updated (set_log (set_status d Failed) ("build interrupted by a restart — /guardian rebuild " +:+ td_name d +:+ " retries it")) now.
Definition reconcile_doc (b : BootAnswers) (s : Brain) (d : ToolDoc) : Brain :=
  match td_status d with
  | Building => (upsert (b_write b (td_name d)) (interrupted d (b_now b)) s).1
  | Proposed | Failed => s
  | Ready =>
      if negb (bool_decide (td_toolchain d = toolchain_version (image s))) then s
      else match b_artifact b (td_name d), overlay s with
           | Some wasm, Some tools =>
               match artifact_check d wasm with
               | Err _ => s
               | Ok _ =>
                   match compile_insert (td_name d) (td_description d) (td_input_schema d) (td_caps d) wasm tools with
                   | Ok tools => set_overlay s (Some tools)
                   | Err _ => s
                   end
               end
           | _, _ => s
           end
  end.
Definition reconcile_on_boot (b : BootAnswers) (s : Brain) : Brain := foldl (reconcile_doc b) s (all_docs (b_read b) (b_created b) s).
(** A restart: what ran is gone; without a runtime nothing is reconciled. *)
Definition boot (img : Image) (b : BootAnswers) (s : Brain) : Brain :=
  let s := {| records := records s; overlay := if b_init b then Some ∅ else None; declined_file := declined_file s; image := img;
              checks := []; builds := []; rebuild_batch := None |} in
  if b_init b then reconcile_on_boot b s else s.

(** ** Steps *)

Inductive Request :=
| Define (source : string) | Propose (source : string) | Approve (name : string) | Reject (name : string)
| DeleteTool (name : string) | RebuildOne (name : string) | RebuildAll | EnsureShipped.
Inductive Step :=
| Begin (r : Request) (a : Answers)
| Judged (i : nat) (soul : SoulAnswers) (a : Answers)
| BuildDone (i : nat) (o : BuildOutcome) (a : Answers)
| BatchNext (a : Answers)
| Boot (img : Image) (b : BootAnswers).

Definition begin (r : Request) (a : Answers) (s : Brain) : Brain * Reply :=
  match r with
  | Define source => define source a s
  | Propose source => propose source a s
  | Approve name => approve name a s
  | Reject name => reject name a s
  | DeleteTool name => delete_tool name a s
  | RebuildOne name => rebuild_named name a s
  | RebuildAll => rebuild_all a s
  | EnsureShipped => ensure_shipped_tools s
  end.
Definition judged (c : PendingCheck) (soul : SoulAnswers) (a : Answers) (s : Brain) : Brain * Reply :=
  match c with
  | CheckDefine m now => define_judged m now soul a s
  | CheckPropose m => propose_judged m soul a s
  | CheckApprove d m now => approve_judged d m now soul a s
  | CheckRebuild d m in_batch => rebuild_judged d m in_batch soul a s
  end.
Definition step (s : Brain) (st : Step) : Brain :=
  match st with
  | Begin r a => (begin r a s).1
  | Judged i soul a =>
      match checks s !! i with Some c => (judged c soul a (set_checks s (delete i (checks s)))).1 | None => s end
  | BuildDone i o a =>
      match builds s !! i with Some (m, _) => build_and_register m o a (set_builds s (delete i (builds s))) | None => s end
  | BatchNext a => batch_next a s
  | Boot img b => boot img b s
  end.
Definition run (s : Brain) (l : list Step) : Brain := foldl step s l.
End lifecycle.
