(* ===== verification/Approval.v ===== *)
(** * Only authorised tools run

    What the life of a guest tool keeps: every build and every loaded tool
    comes from a source the operator pasted or approved, or the image ships;
    the replicant check gates every build; a boot loads exactly what the
    records name. The first needs that nothing else is asked of a tool while
    a check of it is pending and that no tool is redefined or deleted while
    it builds; [UnapprovedDemo] runs what happens otherwise. *)

From S2P Require Import Prelude Bytes F64 Json Text ToolStore Lifecycle.
From Stdlib Require Import Ascii.

Section approval.
Context `{Sha256} `{ValidatorLaws} `{Wasm}.
Context (shipped : list ShippedTool) (known_sha256s : string -> list string).

#[local] Abbreviation step := (step shipped known_sha256s).

(** ** What was authorised and built *)

(** The sources a step puts to the operator: pasted, or approved. *)
Definition authorises (s : Brain) (st : Step) : list string :=
  match st with
  | Begin (Define source) _ => [source]
  | Begin (Approve name) _ =>
      match records s !! name with
      | Some d => if bool_decide (td_status d = Proposed) then [td_source d] else []
      | None => []
      end
  | _ => []
  end.
(** What a build that ends has made. *)
Definition produces (s : Brain) (st : Step) : list (ValidatedModule * bytes) :=
  match st with
  | BuildDone i (BuiltWasm wasm _) _ => match builds s !! i with Some (m, _) => [(m, wasm)] | None => [] end
  | _ => []
  end.
Fixpoint authorised (s : Brain) (l : list Step) : list string :=
  match l with [] => [] | st :: l => authorises s st ++ authorised (step s st) l end.
Fixpoint built (s : Brain) (l : list Step) : list (ValidatedModule * bytes) :=
  match l with [] => [] | st :: l => produces s st ++ built (step s st) l end.

(** ** One thing at a time *)

Definition check_name (c : PendingCheck) : string :=
  match c with CheckDefine m _ | CheckPropose m | CheckApprove _ m _ | CheckRebuild _ m _ => m_name m end.
Definition checked_names (s : Brain) : list string := check_name <$> checks s.
Definition building_names (s : Brain) : list string := (fun b => m_name b.1) <$> builds s.
(** The tool a step is about. *)
Definition target (s : Brain) (st : Step) : option string :=
  match st with
  | Begin (Define source | Propose source) _ =>
      match validate source (reserved_names (image s)) with Ok m => Some (m_name m) | Err _ => None end
  | Begin (Approve name | Reject name | DeleteTool name | RebuildOne name) _ => Some name
  | BatchNext _ =>
      match rebuild_batch s with
      | Some (RebuildQueue (name :: _)) => Some name
      | Some (ShippedQueue (tool :: _) _) => Some (st_name tool)
      | _ => None
      end
  | _ => None
  end.
(** Steps that do not look whether the tool is being built. *)
Definition heedless (s : Brain) (st : Step) : bool :=
  match st with
  | Begin (Define _ | DeleteTool _) _ => true
  | Begin _ a => negb (a_read a)
  | BatchNext a => negb (a_read a) || match rebuild_batch s with Some (ShippedQueue _ _) => true | _ => false end
  | _ => false
  end.
Definition quiet (s : Brain) (st : Step) : Prop :=
  forall n, target s st = Some n -> n ∉ checked_names s /\ (heedless s st = true -> n ∉ building_names s).
Fixpoint orderly (s : Brain) (l : list Step) : Prop :=
  match l with [] => True | st :: l => quiet s st /\ orderly (step s st) l end.

(** ** The invariant *)

Definition allowed (au : list string) (source : string) : Prop := source ∈ au \/ source ∈ stored_source <$> shipped.
Definition valid (m : ValidatedModule) : Prop := exists reserved, validate (m_source m) reserved = Ok m.
(** The record carries what the module of its source declares. *)
Definition doc_of (m : ValidatedModule) (d : ToolDoc) : Prop :=
  valid m /\ td_source d = m_source m /\ td_name d = m_name m /\ td_caps d = m_caps m.

Context (shipped_names : forall tool reserved m, tool ∈ shipped -> validate (stored_source tool) reserved = Ok m -> m_name m = st_name tool).

Section ghost.
Context (au : list string) (out : list (ValidatedModule * bytes)).

Definition doc_ok (d : ToolDoc) : Prop := exists m, doc_of m d /\
  (td_status d <> Proposed -> allowed au (m_source m)) /\
  (td_status d = Ready -> forall h, td_artifact_sha256 d = Some h -> exists w, (m, w) ∈ out /\ sha256_hex_bytes w = h).
Definition check_ok (c : PendingCheck) : Prop :=
  match c with
  | CheckDefine m _ => valid m /\ allowed au (m_source m)
  | CheckPropose m => valid m
  | CheckApprove d m _ | CheckRebuild d m _ => doc_of m d /\ doc_ok d /\ allowed au (m_source m)
  end.
Definition build_ok (s : Brain) (b : ValidatedModule * bool) : Prop :=
  valid b.1 /\ allowed au (m_source b.1) /\
  exists d, records s !! m_name b.1 = Some d /\ td_status d = Building /\ doc_of b.1 d.
Definition tool_ok (n : string) (t : CompiledTool) : Prop :=
  exists m w, (m, w) ∈ out /\ valid m /\ allowed au (m_source m) /\ m_name m = n /\ ct_caps t = m_caps m /\
    sha256_hex_bytes (ct_wasm t) = sha256_hex_bytes w.

Record Inv (s : Brain) : Prop := {
  i_records : forall n d, records s !! n = Some d -> td_name d = n /\ doc_ok d;
  i_overlay : forall n t, overlay_get (overlay s) n = Some t -> tool_ok n t;
  i_checks : Forall check_ok (checks s);
  i_builds : Forall (build_ok s) (builds s);
  i_names : NoDup (checked_names s ++ building_names s);
  i_queue : forall q declined, rebuild_batch s = Some (ShippedQueue q declined) -> q ⊆ shipped;
}.

Lemma valid_same m m' : valid m -> valid m' -> m_source m = m_source m' -> m = m'.
Proof. intros (r & Hm) (r' & Hm') E. rewrite E in Hm. eapply validate_stable; eauto. Qed.
Lemma validated_valid source reserved m : validate source reserved = Ok m -> valid m /\ m_source m = source.
Proof. intros Hv. pose proof (validate_source _ _ _ Hv) as E. split; [|done]. exists reserved. by rewrite E. Qed.
Lemma doc_of_same m d m' reserved : doc_of m d -> validate (td_source d) reserved = Ok m' -> m' = m.
Proof. intros (Hm & E & _) [Hm' E']%validated_valid. eapply valid_same; eauto. congruence. Qed.

(** A write of a proper record of a tool that is not being built. *)
Lemma inv_write s w d : Inv s -> doc_ok d -> td_name d ∉ building_names s -> Inv (upsert w d s).1.
Proof.
  intros Hi Hd Hn. assert (Hw : Inv (set_records s (<[td_name d := d]> (records s)))); [|destruct w; [exact Hw|exact Hi|exact Hw]].
  constructor; [|by apply Hi|by apply Hi| |by apply Hi|by apply Hi]; cbn [records set_records].
  - intros n d'. destruct (decide (td_name d = n)) as [<-|Hne].
    + rewrite lookup_insert_eq. by intros [= <-].
    + rewrite lookup_insert_ne by done. apply Hi.
  - apply Forall_forall. intros b Hb. destruct (proj1 (Forall_forall _ _) (i_builds _ Hi) b Hb) as (Hv & Ha & d' & Hl & Hrest).
    split_and!; [done..|]. exists d'. split; [|done]. cbn [records set_records]. rewrite lookup_insert_ne; [done|].
    intros E. apply Hn. rewrite E. apply list_elem_of_fmap. by exists b.
Qed.
Lemma upsert_stored w d s s' : upsert w d s = (s', true) -> s' = set_records s (<[td_name d := d]> (records s)).
Proof. destruct w; cbn; by intros [= <-]. Qed.

(** A removal. *)
Lemma inv_remove s applied n : Inv s -> n ∉ building_names s -> Inv (remove_doc applied n s).
Proof.
  intros Hi Hn. destruct applied; [|done].
  constructor; [|by apply Hi|by apply Hi| |by apply Hi|by apply Hi]; cbn [records remove_doc set_records].
  - intros n' d [_ Hl]%lookup_delete_Some. by apply Hi.
  - apply Forall_forall. intros b Hb. destruct (proj1 (Forall_forall _ _) (i_builds _ Hi) b Hb) as (Hv & Ha & d' & Hl & Hrest).
    split_and!; [done..|]. exists d'. split; [|done]. cbn [records set_records]. rewrite lookup_delete_ne; [done|].
    intros ->. apply Hn, list_elem_of_fmap. by exists b.
Qed.

(** A build begins once its record says so. *)
Lemma inv_spawn s m d in_batch : Inv s -> allowed au (m_source m) -> m_name m ∉ checked_names s ++ building_names s ->
  doc_ok d -> doc_of m d -> td_status d = Building ->
  Inv (spawn_build m in_batch (set_records s (<[td_name d := d]> (records s)))).
Proof.
  intros Hi Ha Hn Hd Hmd Hst. pose proof Hmd as (Hv & _ & E & _).
  assert (Hw : Inv (set_records s (<[td_name d := d]> (records s)))).
  { apply (inv_write s Stored d); [done..|]. rewrite E. set_solver. }
  constructor; [by apply Hw|by apply Hw|by apply Hw| | |by apply Hw]; cbn [builds spawn_build set_builds].
  - apply Forall_app. split; [apply Hw|]. apply Forall_singleton. split_and!; [done..|]. exists d.
    cbn [records spawn_build set_builds set_records fst]. by rewrite <-E, lookup_insert_eq.
  - unfold building_names. cbn [builds spawn_build set_builds set_records]. rewrite fmap_app, app_assoc. apply NoDup_app.
    split_and!; [apply Hi| |apply NoDup_singleton]. cbn. intros x Hx Hx'. apply list_elem_of_singleton in Hx' as ->. by apply Hn.
Qed.

(** A command waits for its check. *)
Lemma inv_await s c : Inv s -> check_ok c -> check_name c ∉ checked_names s ++ building_names s -> Inv (await_check c s).
Proof.
  intros Hi Hc Hn. constructor; [by apply Hi|by apply Hi| |by apply Hi| |by apply Hi]; cbn [checks await_check set_checks].
  - apply Forall_app. split; [apply Hi|by apply Forall_singleton].
  - unfold checked_names. cbn [checks await_check set_checks]. rewrite fmap_app, <-app_assoc. cbn.
    rewrite <-Permutation_middle. apply NoDup_cons. split; [exact Hn|apply Hi].
Qed.

(** A check is answered. *)
Lemma inv_answered s i c : Inv s -> checks s !! i = Some c ->
  Inv (set_checks s (delete i (checks s))) /\ check_ok c /\
  check_name c ∉ checked_names (set_checks s (delete i (checks s))) ++ building_names s.
Proof.
  intros Hi Hl. pose proof (delete_Permutation _ _ _ Hl) as Hp. split_and!.
  - constructor; [by apply Hi|by apply Hi| |by apply Hi| |by apply Hi]; cbn [checks set_checks].
    + pose proof (i_checks _ Hi) as Hc. rewrite Hp in Hc. by apply Forall_cons in Hc as [_ ?].
    + pose proof (i_names _ Hi) as Hn. unfold checked_names in Hn. rewrite Hp in Hn. cbn in Hn. by apply NoDup_cons in Hn as [_ ?].
  - apply (proj1 (Forall_lookup _ _) (i_checks _ Hi) _ _ Hl).
  - pose proof (i_names _ Hi) as Hn. unfold checked_names in Hn. rewrite Hp in Hn. cbn in Hn. by apply NoDup_cons in Hn as [? _].
Qed.

(** A build ends. *)
Lemma inv_ended s i b : Inv s -> builds s !! i = Some b ->
  Inv (set_builds s (delete i (builds s))) /\ build_ok s b /\
  m_name b.1 ∉ building_names (set_builds s (delete i (builds s))).
Proof.
  intros Hi Hl. pose proof (delete_Permutation _ _ _ Hl) as Hp. split_and!.
  - constructor; [by apply Hi|by apply Hi|by apply Hi| | |by apply Hi]; cbn [builds set_builds].
    + pose proof (i_builds _ Hi) as Hb. rewrite Hp in Hb at 1. by apply Forall_cons in Hb as [_ ?].
    + pose proof (i_names _ Hi) as Hn. unfold building_names in Hn. rewrite Hp in Hn. cbn in Hn. rewrite <-Permutation_middle in Hn. by apply NoDup_cons in Hn as [_ ?].
  - apply (proj1 (Forall_lookup _ _) (i_builds _ Hi) _ _ Hl).
  - pose proof (i_names _ Hi) as Hn. unfold building_names in Hn. rewrite Hp in Hn. cbn in Hn. rewrite <-Permutation_middle in Hn.
    apply NoDup_cons in Hn as [Hn _]. set_solver.
Qed.

(** Steps of the overlay, the file and the batch. *)
Lemma inv_overlay s tools n t : Inv s -> overlay s = Some tools -> tool_ok n t -> Inv (set_overlay s (Some (<[n := t]> tools))).
Proof.
  intros Hi Ho Ht. constructor; [by apply Hi| |by apply Hi..]. intros n' t'. cbn [overlay set_overlay overlay_get mbind option_bind].
  destruct (decide (n = n')) as [<-|Hne].
  - rewrite lookup_insert_eq. by intros [= <-].
  - rewrite lookup_insert_ne by done. intros Hl. apply Hi. by rewrite Ho.
Qed.
Lemma inv_unload s n : Inv s -> Inv (set_overlay s (overlay_remove (overlay s) n)).
Proof.
  intros Hi. constructor; [by apply Hi| |by apply Hi..]. intros n' t'. cbn [overlay set_overlay].
  destruct (overlay s) as [o|] eqn:Ho; [|done]. cbn. intros [_ Hl]%lookup_delete_Some. apply Hi. by rewrite Ho.
Qed.
Lemma inv_declined s f : Inv s -> Inv (set_declined s f).
Proof. intros Hi. by constructor; apply Hi. Qed.
Lemma inv_batch s b : Inv s -> (forall q declined, b = Some (ShippedQueue q declined) -> q ⊆ shipped) -> Inv (set_batch s b).
Proof. intros Hi Hb. constructor; [by apply Hi..|done]. Qed.

(** ** Each command keeps it *)

Lemma building_ok m tv now : valid m -> doc_of m (building m tv now).
Proof. intros Hv. unfold doc_of. by split_and!. Qed.
Lemma loaded_doc s read n d : load_doc read s n = Some d -> records s !! n = Some d.
Proof. by destruct read. Qed.

Lemma inv_mark s m d st log artifact a : Inv s -> valid m -> allowed au (m_source m) -> m_name m ∉ building_names s ->
  records s !! m_name m = Some d -> doc_of m d ->
  (st = Ready -> forall h, artifact = Some h -> exists w, (m, w) ∈ out /\ sha256_hex_bytes w = h) ->
  Inv (mark m st log artifact a s).
Proof.
  intros Hi Hv Ha Hn Hl Hd Hst. unfold mark.
  assert (Hm : doc_of m (default (building m (toolchain_version (image s)) (a_now a)) (load_doc (a_read a) s (m_name m)))).
  { destruct (load_doc _ _ _) as [d'|] eqn:E; [|by apply building_ok]. apply loaded_doc in E. rewrite E in Hl. injection Hl as ->. done. }
  destruct Hm as (_ & E1 & E2 & E3). apply inv_write; cbn [td_name]; [done| |by rewrite E2].
  exists m. unfold doc_of. by split_and!.
Qed.
Lemma inv_build_done s i m in_batch o a : Inv s -> builds s !! i = Some (m, in_batch) ->
  (forall wasm log, o = BuiltWasm wasm log -> (m, wasm) ∈ out) ->
  Inv (build_and_register m o a (set_builds s (delete i (builds s)))).
Proof.
  intros Hi Hl Ho. destruct (inv_ended _ _ _ Hi Hl) as (Hi' & (Hv & Ha & d & Hd & _ & Hmd) & Hn). cbn [fst] in *.
  assert (Hf : forall why, Inv (mark_failed m why a (set_builds s (delete i (builds s))))).
  { intros why. eapply inv_mark; eauto; done. }
  unfold build_and_register. destruct o as [wasm log|why]; [|apply Hf].
  destruct (overlay (set_builds _ _)) as [tools|] eqn:Eo; [|apply Hf].
  unfold compile_insert. destruct (precompile wasm); cbn [mbind result_bind]; [|apply Hf].
  specialize (Ho wasm log eq_refl). eapply inv_mark; eauto.
  - apply inv_overlay; [done..|]. by exists m, wasm.
  - intros _ h [= <-]. by exists wasm.
Qed.

Lemma inv_define_judged s m now soul a : Inv s -> valid m -> allowed au (m_source m) -> m_name m ∉ checked_names s ++ building_names s ->
  Inv (define_judged m now soul a s).1.
Proof.
  intros Hi Hv Ha Hn. unfold define_judged. destruct (run_replicant_check soul) as [j|e]; [|done].
  destruct (match j with Some (v, _) => is_refuse v | None => false end); [done|].
  set (d := set_replicant _ _). assert (Hmd : doc_of m d) by (unfold doc_of; by split_and!).
  assert (Hd : doc_ok d) by (by exists m).
  destruct (upsert (a_write a) d s) as [s' [|]] eqn:E; cbn [fst].
  - apply upsert_stored in E as ->. by apply inv_spawn.
  - replace s' with (upsert (a_write a) d s).1 by (by rewrite E). apply inv_write; [done..|]. cbn. set_solver.
Qed.
Lemma inv_propose_judged s m soul a : Inv s -> valid m -> m_name m ∉ checked_names s ++ building_names s ->
  Inv (propose_judged m soul a s).1.
Proof.
  intros Hi Hv Hn. unfold propose_judged. destruct (run_replicant_check soul) as [[[v model]|]|e]; [|done..].
  destruct (is_refuse v); [done|]. set (d := set_replicant _ _). assert (Hd : doc_ok d) by (exists m; unfold doc_of; by split_and!).
  assert (Hw : Inv (upsert (a_write a) d s).1) by (apply inv_write; [done..|]; cbn; set_solver).
  by destruct (upsert (a_write a) d s) as [s' [|]].
Qed.
Lemma inv_approve_judged s d m now soul a : Inv s -> doc_of m d -> allowed au (m_source m) -> m_name m ∉ checked_names s ++ building_names s ->
  Inv (approve_judged d m now soul a s).1.
Proof.
  intros Hi Hmd Ha Hn. unfold approve_judged. destruct (run_replicant_check soul) as [[[v model]|]|e]; [|done..].
  destruct (is_refuse v); [done|]. set (d' := set_updated _ _). assert (Hmd' : doc_of m d') by exact Hmd.
  assert (Hd : doc_ok d') by (by exists m).
  destruct (upsert (a_write a) d' s) as [s' [|]] eqn:E; cbn [fst].
  - apply upsert_stored in E as ->. by apply inv_spawn.
  - replace s' with (upsert (a_write a) d' s).1 by (by rewrite E). apply inv_write; [done..|]. destruct Hmd as (_ & _ & En & _). cbn. rewrite En. set_solver.
Qed.
Lemma inv_stopped s d m why a : Inv s -> doc_ok d -> doc_of m d -> m_name m ∉ building_names s -> Inv (record_rebuild_stopped d why a s).
Proof.
  intros Hi (m' & Hd) (_ & _ & En & _) Hn. unfold record_rebuild_stopped. apply inv_write; [done|by exists m'|]. cbn. by rewrite En.
Qed.
Lemma inv_rebuild_judged s d m in_batch soul a : Inv s -> doc_of m d -> doc_ok d -> allowed au (m_source m) ->
  m_name m ∉ checked_names s ++ building_names s -> Inv (rebuild_judged d m in_batch soul a s).1.
Proof.
  intros Hi Hmd Hd Ha Hn. unfold rebuild_judged. destruct (rebuild_judged_record soul (a_now a)) as [record|why]; cbn [fst].
  2: { eapply inv_stopped; eauto. set_solver. }
  unfold begin_rebuild. set (d1 := set_updated (set_status d Building) (a_now a)).
  set (d' := match record with Some _ => set_replicant d1 record | None => d1 end).
  assert (Hst : td_status d' = Building) by (by destruct record).
  assert (Hmd' : doc_of m d') by (by destruct record).
  assert (Hd' : doc_ok d') by (exists m; by rewrite Hst).
  destruct (upsert (a_write a) d' s) as [s' [|]] eqn:E; cbn [fst].
  - apply upsert_stored in E as ->. by apply inv_spawn.
  - replace s' with (upsert (a_write a) d' s).1 by (by rewrite E). apply inv_write; [done..|].
    destruct Hmd' as (_ & _ & En & _). rewrite En. set_solver.
Qed.
Lemma inv_judged s i c soul a : Inv s -> checks s !! i = Some c -> Inv (judged c soul a (set_checks s (delete i (checks s)))).1.
Proof.
  intros Hi Hl. destruct (inv_answered _ _ _ Hi Hl) as (Hi' & Hc & Hn).
  destruct c as [m now|m|d m now|d m in_batch]; cbn [judged check_ok check_name] in *.
  - by apply inv_define_judged; [|apply Hc..|].
  - by apply inv_propose_judged.
  - destruct Hc as (? & ? & ?). by apply inv_approve_judged.
  - destruct Hc as (? & ? & ?). by apply inv_rebuild_judged.
Qed.

(** A command that finds its tool free. *)
Definition free (s : Brain) (heedless : bool) (n : string) : Prop := n ∉ checked_names s /\ (heedless = true -> n ∉ building_names s).
Lemma free_names s n : free s true n -> n ∉ checked_names s ++ building_names s.
Proof. intros [? Hb]. specialize (Hb eq_refl). set_solver. Qed.
(** A tool that builds has a record that says so. *)
Lemma read_free s read n d : Inv s -> free s (negb read) n -> load_doc read s n = Some d -> td_status d <> Building ->
  n ∉ checked_names s ++ building_names s.
Proof.
  intros Hi [Hc Hb] Hl Hst. destruct read; [|done]. rewrite elem_of_app. intros [|Hn]; [done|].
  apply list_elem_of_fmap in Hn as (b & -> & Hin). destruct (proj1 (Forall_forall _ _) (i_builds _ Hi) b Hin) as (_ & _ & d' & Hl' & Hst' & _).
  cbn in Hl. congruence.
Qed.
Lemma doc_of_record s n d : Inv s -> records s !! n = Some d -> exists m, doc_of m d /\ m_name m = n.
Proof. intros Hi Hl. destruct (i_records _ Hi _ _ Hl) as (<- & m & Hmd & _). exists m. split; [done|]. by destruct Hmd as (_ & _ & -> & _). Qed.

Lemma inv_define s source a : Inv s -> allowed au source -> (forall m, validate source (reserved_names (image s)) = Ok m -> free s true (m_name m)) ->
  Inv (define source a s).1.
Proof.
  intros Hi Ha Hq. unfold define. case_bool_decide; [done|]. destruct (validate source _) as [m|e] eqn:E; [|done].
  destruct (a_config a); [|done]. destruct (validated_valid _ _ _ E) as [Hv Hs]. apply inv_await; [done| |by apply free_names, Hq].
  by rewrite <-Hs in Ha.
Qed.
Lemma inv_propose s source a : Inv s -> (forall m, validate source (reserved_names (image s)) = Ok m -> free s (negb (a_read a)) (m_name m)) ->
  Inv (propose source a s).1.
Proof.
  intros Hi Hq. unfold propose. case_bool_decide; [done|]. destruct (validate source _) as [m|e] eqn:E; [|done].
  specialize (Hq m eq_refl). destruct (load_doc (a_read a) s (m_name m) ≫= _) as [why|] eqn:Eb; [done|].
  apply inv_await; [done|by apply (validated_valid _ _ _ E)|].
  destruct (a_read a) eqn:Er; [|by apply free_names].
  destruct Hq as [Hc _]. cbn [check_name]. rewrite elem_of_app. intros [|Hn]; [done|].
  apply list_elem_of_fmap in Hn as (b & Hb & Hin). destruct (proj1 (Forall_forall _ _) (i_builds _ Hi) b Hin) as (_ & _ & d & Hl & Hst & _).
  cbn in Eb. rewrite Hb, Hl in Eb. cbn in Eb. by rewrite Hst in Eb.
Qed.
Lemma inv_approve s name a : Inv s -> free s (negb (a_read a)) name ->
  (forall d, records s !! name = Some d -> td_status d = Proposed -> allowed au (td_source d)) -> Inv (approve name a s).1.
Proof.
  intros Hi Hq Ha. unfold approve. case_bool_decide; [done|]. destruct (load_doc _ _ _) as [d|] eqn:El; [|done].
  destruct (td_status d) eqn:Est; [|done..]. destruct (validate (td_source d) _) as [m|e] eqn:E; [|done].
  destruct (source_matches d (td_source d)); [|done]. cbn [negb]. destruct (a_config a); [|done].
  pose proof (loaded_doc _ _ _ _ El) as Hl. destruct (doc_of_record _ _ _ Hi Hl) as (m' & Hmd & Hn).
  rewrite (doc_of_same _ _ _ _ Hmd E). apply inv_await; [done| |].
  - cbn [check_ok]. split_and!; [done|by apply (i_records _ Hi _ _ Hl)|]. rewrite <-(proj1 (proj2 Hmd)). by apply Ha.
  - cbn [check_name]. rewrite Hn. eapply read_free; eauto. by rewrite Est.
Qed.
Lemma inv_reject s name a : Inv s -> free s (negb (a_read a)) name -> Inv (reject name a s).1.
Proof.
  intros Hi Hq. unfold reject. case_bool_decide; [done|]. destruct (load_doc _ _ _) as [d|] eqn:El; [|done].
  case_bool_decide as Hst; [|done]. apply inv_remove; [done|].
  pose proof (read_free _ _ _ _ Hi Hq El ltac:(by rewrite Hst)). set_solver.
Qed.
Lemma inv_delete s name a : Inv s -> free s true name -> Inv (delete_tool shipped name a s).1.
Proof.
  intros Hi [_ Hq]. unfold delete_tool. case_bool_decide; [done|]. destruct (negb (valid_tool_name name)); [done|].
  assert (Hr : Inv (remove_doc (a_delete a) name (set_overlay s (overlay_remove (overlay s) name)))).
  { apply inv_remove; [by apply inv_unload|by apply Hq]. }
  destruct (negb _); [exact Hr|]. destruct (a_decline a); [by apply inv_declined|exact Hr].
Qed.

(** ** Rebuilds, shipped tools, boot *)

Lemma inv_start_rebuild s d in_batch a : Inv s -> records s !! td_name d = Some d -> td_status d <> Proposed ->
  td_name d ∉ checked_names s ++ building_names s -> Inv (start_rebuild d in_batch a s).1.
Proof.
  intros Hi Hl Hst Hn. destruct (i_records _ Hi _ _ Hl) as [_ Hok]. pose proof Hok as (m & Hmd & Ha & _).
  pose proof Hmd as (_ & _ & En & _). unfold start_rebuild. destruct (rebuild_gates d a s) as [m'|why] eqn:E; cbn [fst].
  - unfold rebuild_gates in E. apply bind_ok in E as (m1 & E1 & E). destruct (validate (td_source d) _) as [m2|] eqn:Ev; [|done].
    injection E1 as ->. pose proof (doc_of_same _ _ _ _ Hmd Ev) as ->. destruct (negb _); [done|].
    apply bind_ok in E as (_ & _ & [= <-]). apply inv_await; [done|split_and!; [done|done|by apply Ha]|]. cbn [check_name]. by rewrite <-En.
  - eapply inv_stopped; [done|done|exact Hmd|]. rewrite <-En. set_solver.
Qed.
Lemma rebuild_status d tv ld : rebuild_decision d tv ld = Rebuild -> td_status d <> Proposed /\ td_status d <> Building.
Proof. unfold rebuild_decision. destruct (td_status d); done. Qed.
Lemma loaded_rebuild s read n d : Inv s -> free s (negb read) n -> load_doc read s n = Some d ->
  rebuild_decision d (toolchain_version (image s)) (loaded s n) = Rebuild ->
  td_name d = n /\ records s !! td_name d = Some d /\ td_status d <> Proposed /\ td_name d ∉ checked_names s ++ building_names s.
Proof.
  intros Hi Hq El Er. apply rebuild_status in Er as [Hp Hb]. pose proof (read_free _ _ _ _ Hi Hq El Hb) as Hn.
  apply loaded_doc in El. destruct (i_records _ Hi _ _ El) as [<- _]. done.
Qed.
Lemma inv_rebuild_named s name a : Inv s -> free s (negb (a_read a)) name -> Inv (rebuild_named name a s).1.
Proof.
  intros Hi Hq. unfold rebuild_named. destruct (rebuild_batch s); [done|]. destruct (load_doc _ _ _) as [d|] eqn:El; [|done].
  destruct (rebuild_decision _ _ _) eqn:Er; [|done..]. destruct (loaded_rebuild _ _ _ _ Hi Hq El Er) as (_ & Hl & Hp & Hn).
  by apply inv_start_rebuild.
Qed.
Lemma inv_rebuild_in_batch s name a : Inv s -> free s (negb (a_read a)) name -> Inv (rebuild_in_batch name a s).
Proof.
  intros Hi Hq. unfold rebuild_in_batch. destruct (load_doc _ _ _) as [d|] eqn:El; [|done]. case_bool_decide as Er; [|done].
  destruct (loaded_rebuild _ _ _ _ Hi Hq El Er) as (_ & Hl & Hp & Hn). by apply inv_start_rebuild.
Qed.
Lemma inv_rebuild_all s a : Inv s -> Inv (rebuild_all a s).1.
Proof.
  intros Hi. unfold rebuild_all. destruct (sort_by _ _); [done|]. destruct (rebuild_batch s); [done|]. by apply inv_batch.
Qed.

Lemma inv_build_shipped s m d a : Inv s -> allowed au (m_source m) -> doc_of m d -> td_status d = Building -> free s true (m_name m) ->
  Inv (build_shipped d m a s).
Proof.
  intros Hi Ha Hmd Hst Hq. assert (Hd : doc_ok d) by (exists m; by rewrite Hst). pose proof (free_names _ _ Hq) as Hn.
  unfold build_shipped. destruct (upsert (a_write a) d s) as [s' [|]] eqn:E.
  - apply upsert_stored in E as ->. by apply inv_spawn.
  - replace s' with (upsert (a_write a) d s).1 by (by rewrite E). apply inv_write; [done..|].
    destruct Hmd as (_ & _ & -> & _). set_solver.
Qed.
Lemma inv_ensure_shipped s tool dl a : Inv s -> tool ∈ shipped -> free s true (st_name tool) ->
  Inv (ensure_shipped_tool known_sha256s tool dl a s).
Proof.
  intros Hi Ht Hq. unfold ensure_shipped_tool. destruct (validate (stored_source tool) _) as [m|e] eqn:Ev; [|done].
  destruct (validated_valid _ _ _ Ev) as [Hv Hs]. pose proof (shipped_names _ _ _ Ht Ev) as En.
  assert (Ha : allowed au (m_source m)) by (right; rewrite Hs; apply list_elem_of_fmap; by exists tool).
  assert (Hb : forall d, td_source d = m_source m -> td_caps d = m_caps m -> td_name d = st_name tool -> td_status d = Building ->
    Inv (build_shipped d m a s)).
  { intros d E1 E2 E3 E4. apply inv_build_shipped; [done|done| |done|by rewrite En]. split_and!; [done|done| |done]. by rewrite E3, En. }
  set (dec := shipped_decision _ _ _ _ _). set (existing := load_doc _ _ _).
  assert (Hg : forall d, existing = Some d -> td_name d = st_name tool /\ doc_ok d).
  { intros d E. apply (i_records _ Hi). by apply loaded_doc in E. }
  assert (Hu : forall d r, existing = Some d -> Inv (upsert (a_write a) (set_shipped d r) s).1 /\ Inv (upsert (a_write a) d s).1).
  { intros d r E. destruct (Hg d E) as [E' Hok]. destruct Hq as [_ Hq]. specialize (Hq eq_refl).
    split; (apply inv_write; [done|exact Hok|cbn; by rewrite E']). }
  destruct dec; [|done|done| | |done|done]; [by apply Hb|..]; (destruct existing as [d|]; [|done]);
    destruct (Hg d eq_refl) as [E' _].
  - rewrite (bool_decide_eq_false_2 (SUpdate = Adopt)) by done. destruct (_ || _); [by apply Hb|]. by apply (Hu d None).
  - rewrite (bool_decide_eq_true_2 (Adopt = Adopt)) by done. destruct (_ || _); [by apply Hb|]. apply (proj1 (Hu d _ eq_refl)).
Qed.

Lemma fetched_some created docs : exists others, fetch_collection created docs ++ others ≡ₚ docs.
Proof.
  exists (drop TOOL_COLLECTION_WINDOW (sort_by (newer created) docs)). unfold fetch_collection. rewrite <-Permutation_rev, take_drop. apply sort_by_perm.
Qed.
Lemma fetched_all created docs : (length docs <= TOOL_COLLECTION_WINDOW)%nat -> fetch_collection created docs ≡ₚ docs.
Proof. intros Hl. unfold fetch_collection. rewrite <-Permutation_rev, take_ge; [apply sort_by_perm|]. by rewrite sort_by_perm. Qed.
Lemma all_docs_some read created s : exists others, all_docs read created s ++ others ≡ₚ (map_to_list (records s)).*2.
Proof.
  destruct read; [|by exists (map_to_list (records s)).*2]. destruct (fetched_some created (map_to_list (records s)).*2) as [l Hl]. exists l.
  unfold all_docs. by rewrite sort_by_perm.
Qed.
Lemma all_docs_in read created s d : d ∈ all_docs read created s -> exists n, records s !! n = Some d.
Proof.
  intros Hd. destruct (all_docs_some read created s) as [l Hl]. assert (Hin : d ∈ (map_to_list (records s)).*2) by (rewrite <-Hl; apply elem_of_app; by left).
  apply list_elem_of_fmap in Hin as ((n & d') & -> & Hin). exists n. by apply elem_of_map_to_list in Hin.
Qed.
(** Nothing is asked for at boot. *)
Definition at_rest (s : Brain) : Prop := checks s = [] /\ builds s = [] /\ rebuild_batch s = None.
Lemma inv_reconcile_doc b s d : Inv s -> at_rest s -> doc_ok d -> Inv (reconcile_doc b s d) /\ at_rest (reconcile_doc b s d).
Proof.
  intros Hi Hr Hd. pose proof Hr as (_ & Hb & _). unfold reconcile_doc. destruct (td_status d) eqn:Est; [done| | |done].
  - split; [|by destruct (b_write b (td_name d))]. apply inv_write; [done| |unfold building_names; rewrite Hb; apply not_elem_of_nil].
    destruct Hd as (m & Hmd & Ha & _). exists m. split_and!; [exact Hmd| |done]. intros _. apply Ha. by rewrite Est.
  - destruct (negb _); [done|]. destruct (b_artifact b _) as [wasm|]; [|done]. destruct (overlay s) as [tools|] eqn:Eo; [|done].
    destruct (artifact_check d wasm) as [u|] eqn:Ec; [|done]. unfold compile_insert. destruct (precompile wasm); cbn [mbind result_bind]; [|done].
    split; [|done]. apply inv_overlay; [done..|]. destruct Hd as (m & (Hv & _ & En & Ecaps) & Ha & Hw).
    unfold artifact_check in Ec. destruct (td_artifact_sha256 d) as [h|] eqn:Eh; [|done]. case_bool_decide as Eh'; [|done].
    destruct (Hw Est h eq_refl) as (w & Hin & Ew). exists m, w. split_and!; [done|done|apply Ha; by rewrite Est|done|done|]. cbn [ct_wasm]. congruence.
Qed.
Lemma inv_boot img b s : Inv s -> Inv (boot img b s).
Proof.
  intros Hi. unfold boot. set (s0 := {| records := _ |}).
  assert (Hs0 : Inv s0 /\ at_rest s0).
  { split; [|done]. constructor; cbn; [apply Hi| |done|done|constructor|done]. intros n t. destruct (b_init b); cbn; [|done]. by rewrite lookup_empty. }
  destruct (b_init b); [|apply Hs0]. unfold reconcile_on_boot.
  assert (Hl : Forall doc_ok (all_docs (b_read b) (b_created b) s0)).
  { apply Forall_forall. intros d (n & Hl)%all_docs_in. by apply (i_records _ Hi _ _ Hl). }
  revert Hl. generalize (all_docs (b_read b) (b_created b) s0). intros l Hl. revert Hs0. generalize s0. induction Hl as [|d l Hd _ IH]; intros s1 [Hi1 Hr1]; [done|]. cbn [foldl]. apply IH. by apply inv_reconcile_doc.
Qed.

Lemma inv_batch_next s a : Inv s -> quiet s (BatchNext a) -> Inv (batch_next known_sha256s a s).
Proof.
  intros Hi Hq. unfold batch_next. destruct (negb (batch_idle s)); [done|].
  unfold quiet, target, heedless in Hq. destruct (rebuild_batch s) as [[[|name q]|[|tool q] dl]|] eqn:Eb; [by apply inv_batch| | | |done].
  - apply inv_rebuild_in_batch; [by apply inv_batch|]. destruct (Hq _ eq_refl) as [Hc Hn]. split; [done|]. intros Hh. apply Hn. by rewrite Hh.
  - by apply inv_batch.
  - pose proof (i_queue _ Hi _ _ Eb) as Hsub. apply inv_ensure_shipped; [|set_solver|].
    + apply inv_batch; [done|]. intros q' dl' [= <- <-]. set_solver.
    + destruct (Hq _ eq_refl) as [Hc Hn]. split; [done|]. intros _. apply Hn. by rewrite orb_true_r.
Qed.
End ghost.

Lemma inv_mono au au' out out' s : au ⊆ au' -> out ⊆ out' -> Inv au out s -> Inv au' out' s.
Proof.
  intros Hau Hout Hi. assert (Ha : forall x, allowed au x -> allowed au' x) by (intros x [|]; [left; set_solver|by right]).
  assert (Hd : forall d, doc_ok au out d -> doc_ok au' out' d).
  { intros d (m & Hm & Hal & Hw). exists m. split_and!; [done|naive_solver|]. intros Hr h Hh. destruct (Hw Hr h Hh) as (w & ? & ?). exists w. set_solver. }
  constructor; [| | | |by apply Hi|by apply Hi].
  - intros n d Hl. destruct (i_records _ _ _ Hi _ _ Hl). eauto.
  - intros n t Hl. destruct (i_overlay _ _ _ Hi _ _ Hl) as (m & w & ? & ? & ? & ?). exists m, w. split_and!; try done; [set_solver|naive_solver..].
  - eapply Forall_impl; [apply Hi|]. intros [m now|m|d m now|d m ib]; cbn; naive_solver.
  - eapply Forall_impl; [apply Hi|]. intros x (? & ? & ?). split_and!; eauto.
Qed.

Lemma life_step_inv au out s st : Inv au out s -> quiet s st -> Inv (au ++ authorises s st) (out ++ produces s st) (step s st).
Proof.
  intros Hi Hq. assert (Hi' : Inv (au ++ authorises s st) (out ++ produces s st) s) by (eapply inv_mono; [..|exact Hi]; set_solver).
  destruct st as [r a|i soul a|i o a|a|img b]; cbn [Lifecycle.step].
  - assert (Hf : forall n, target s (Begin r a) = Some n -> free s (heedless s (Begin r a)) n) by exact Hq.
    destruct r; cbn [begin] in *.
    + apply inv_define; [done|left; set_solver|]. intros m E. apply Hf. cbn. by rewrite E.
    + apply inv_propose; [done|]. intros m E. apply (Hf (m_name m)). cbn. by rewrite E.
    + apply inv_approve; [done|by apply (Hf name)|]. intros d E Est. left. cbn. rewrite E, bool_decide_eq_true_2 by done. set_solver.
    + apply inv_reject; [done|by apply (Hf name)].
    + apply inv_delete; [done|by apply (Hf name)].
    + apply inv_rebuild_named; [done|by apply (Hf name)].
    + by apply inv_rebuild_all.
    + unfold ensure_shipped_tools. destruct (rebuild_batch s); [done|]. apply inv_batch; [done|]. by intros q dl [= <- <-].
  - destruct (checks s !! i) as [c|] eqn:El; [|done]. by apply inv_judged.
  - destruct (builds s !! i) as [[m ib]|] eqn:El; [|done]. eapply inv_build_done; [done|done|].
    intros wasm log ->. cbn. rewrite El. set_solver.
  - by apply inv_batch_next.
  - by apply inv_boot.
Qed.
Lemma life_run_inv au out s l : Inv au out s -> orderly s l -> Inv (au ++ authorised s l) (out ++ built s l) (run shipped known_sha256s s l).
Proof.
  revert au out s. induction l as [|st l IH]; intros au out s Hi Ho; cbn [authorised built].
  { by rewrite !app_nil_r. }
  destruct Ho as [Hq Ho]. rewrite !app_assoc. apply (IH _ _ (step s st)); [by apply life_step_inv|done].
Qed.

(** ** The properties *)

(** A machine that has no tools yet. *)
Definition fresh (img : Image) (declined : option string) : Brain :=
  {| records := ∅; overlay := None; declined_file := declined; image := img; checks := []; builds := []; rebuild_batch := None |}.
Lemma fresh_inv img dl : Inv [] [] (fresh img dl).
Proof. constructor; cbn; [by intros n d ?%lookup_empty_Some|done|done|done|constructor|done]. Qed.

(** What a boot loads for a record. *)
Definition bootable (img : Image) (b : BootAnswers) (d : ToolDoc) : option CompiledTool :=
  wasm ← b_artifact b (td_name d);
  if bool_decide (td_status d = Ready) && bool_decide (td_toolchain d = toolchain_version img) &&
     bool_decide (td_artifact_sha256 d = Some (sha256_hex_bytes wasm)) && is_ok (precompile wasm)
  then Some {| ct_name := td_name d; ct_description := td_description d; ct_schema := td_input_schema d; ct_caps := td_caps d; ct_wasm := wasm |}
  else None.
(** The record it leaves. *)
Definition left_record (b : BootAnswers) (d : ToolDoc) : ToolDoc :=
  if bool_decide (td_status d = Building) && negb (bool_decide (b_write b (td_name d) = Lost)) then interrupted d (b_now b) else d.

Lemma reconcile_doc_spec b s d tools : overlay s = Some tools -> records s !! td_name d = Some d ->
  reconcile_doc b s d =
    set_overlay (set_records s (<[td_name d := left_record b d]> (records s)))
      (Some (match bootable (image s) b d with Some t => <[td_name d := t]> tools | None => tools end)).
Proof.
  intros Ho Hl. destruct s as [r o f i c bs bt]. cbn in Ho, Hl. subst o. unfold reconcile_doc, bootable, left_record, artifact_check, compile_insert. cbn [overlay image].
  destruct (td_status d) eqn:Est; cbn [overlay records image].
  - rewrite (bool_decide_eq_false_2 (Proposed = Building)), (bool_decide_eq_false_2 (Proposed = Ready)) by done. cbn [andb]. rewrite insert_id by done. by destruct (b_artifact b _).
  - rewrite (bool_decide_eq_true_2 (Building = Building)), (bool_decide_eq_false_2 (Building = Ready)) by done. cbn [andb].
    destruct (b_write b (td_name d)) eqn:Ew; cbn [upsert fst]; [rewrite bool_decide_eq_false_2 by done|rewrite bool_decide_eq_true_2 by done|rewrite bool_decide_eq_false_2 by done];
      cbn [negb]; [by destruct (b_artifact b _)|rewrite insert_id by done; by destruct (b_artifact b _)|by destruct (b_artifact b _)].
  - rewrite (bool_decide_eq_false_2 (Ready = Building)), (bool_decide_eq_true_2 (Ready = Ready)) by done. cbn [andb negb]. rewrite insert_id by done.
    case_bool_decide as Et; cbn [negb andb]; [|by destruct (b_artifact b _)]. destruct (b_artifact b _) as [wasm|]; [|done]. cbn [mbind option_bind].
    destruct (td_artifact_sha256 d) as [h|]; [|by rewrite bool_decide_eq_false_2].
    destruct (decide (h = sha256_hex_bytes wasm)) as [->|Hne].
    + rewrite !bool_decide_eq_true_2 by done. cbn [andb]. by destruct (precompile wasm).
    + rewrite !bool_decide_eq_false_2 by congruence. done.
  - rewrite (bool_decide_eq_false_2 (Failed = Building)), (bool_decide_eq_false_2 (Failed = Ready)) by done. cbn [andb]. rewrite insert_id by done. by destruct (b_artifact b _).
Qed.

Lemma reconcile_docs b l s tools : overlay s = Some tools -> NoDup (td_name <$> l) -> Forall (fun d => records s !! td_name d = Some d) l ->
  exists tools', overlay (foldl (reconcile_doc b) s l) = Some tools' /\
    (forall d, d ∈ l -> tools' !! td_name d = match bootable (image s) b d with Some t => Some t | None => tools !! td_name d end /\
       records (foldl (reconcile_doc b) s l) !! td_name d = Some (left_record b d)) /\
    (forall n, n ∉ td_name <$> l -> tools' !! n = tools !! n /\ records (foldl (reconcile_doc b) s l) !! n = records s !! n).
Proof.
  revert s tools. induction l as [|d l IH]; intros s tools Ho Hn Hf; cbn [foldl].
  { exists tools. split_and!; [done|by intros d ?%elem_of_nil|done]. }
  rewrite fmap_cons in Hn. apply NoDup_cons in Hn as [Hd Hn]. apply Forall_cons in Hf as [Hl Hf].
  rewrite (reconcile_doc_spec b s d tools Ho Hl). set (s1 := set_overlay _ _).
  assert (Hne : forall d', d' ∈ l -> td_name d <> td_name d').
  { intros d' Hin E. apply Hd. rewrite E. apply list_elem_of_fmap. by exists d'. }
  destruct (IH s1 _ eq_refl Hn) as (tools' & E & Hin & Hout).
  { apply Forall_forall. intros d' Hd'. cbn. rewrite lookup_insert_ne by (by apply Hne). by apply (proj1 (Forall_forall _ _) Hf). }
  exists tools'. split_and!; [done| |].
  - intros d' [->|Hd']%elem_of_cons.
    + destruct (Hout (td_name d) Hd) as [-> ->]. cbn. rewrite lookup_insert_eq. split; [|done].
      destruct (bootable _ _ _); [by rewrite lookup_insert_eq|done].
    + destruct (Hin d' Hd') as [-> ->]. split; [|done]. cbn [image s1 set_overlay set_records]. destruct (bootable (image s) b d'); [done|].
      destruct (bootable _ _ d); [|done]. by rewrite lookup_insert_ne by (by apply Hne).
  - intros n Hnn. rewrite fmap_cons, not_elem_of_cons in Hnn. destruct Hnn as [Hx Hnn]. destruct (Hout n Hnn) as [-> ->]. cbn.
    rewrite lookup_insert_ne by done. split; [|done]. destruct (bootable _ _ _); [by rewrite lookup_insert_ne|done].
Qed.

(** The records a boot reads: none without a runtime or when the read fails,
    else those of the window. *)
Definition boot_reads (b : BootAnswers) (s : Brain) : list string :=
  if b_init b then td_name <$> all_docs (b_read b) (b_created b) s else [].

Lemma boot_spec img b s : (forall n d, records s !! n = Some d -> td_name d = n) ->
  (forall n, overlay_get (overlay (boot img b s)) n = if bool_decide (n ∈ boot_reads b s) then records s !! n ≫= bootable img b else None) /\
  (forall n, records (boot img b s) !! n = if bool_decide (n ∈ boot_reads b s) then left_record b <$> records s !! n else records s !! n).
Proof.
  intros Hkey. unfold boot, boot_reads. destruct (b_init b); [|by split]. unfold reconcile_on_boot. set (s0 := {| records := _ |}).
  change (all_docs (b_read b) (b_created b) s) with (all_docs (b_read b) (b_created b) s0).
  destruct (all_docs_some (b_read b) (b_created b) s0) as [others Hperm]. pose proof (all_docs_in (b_read b) (b_created b) s0) as Hin0.
  set (l := all_docs _ _ s0) in *. change (records s0) with (records s) in Hin0, Hperm.
  assert (Hin : forall d, d ∈ l -> records s !! td_name d = Some d).
  { intros d [n Hn]%Hin0. by rewrite (Hkey _ _ Hn). }
  assert (Hnd : NoDup (td_name <$> l)).
  { assert (Hn : td_name <$> (map_to_list (records s)).*2 = (map_to_list (records s)).*1).
    { rewrite <-list_fmap_compose. apply list_fmap_ext. intros i [n d] Hd. cbn. apply Hkey, elem_of_map_to_list. by eapply list_elem_of_lookup_2. }
    assert (Ha : NoDup ((td_name <$> l) ++ (td_name <$> others))) by (rewrite <-fmap_app, Hperm, Hn; apply NoDup_fst_map_to_list).
    by apply NoDup_app in Ha as [? _]. }
  destruct (reconcile_docs b l s0 ∅ eq_refl Hnd) as (tools' & E & Hdoc & Hother); [by apply Forall_forall|].
  split; intros n; (case_bool_decide as Hn; [apply list_elem_of_fmap in Hn as (d & -> & Hd); destruct (Hdoc d Hd) as [Ho Hr]|destruct (Hother n Hn) as [Ho Hr]]).
  - rewrite E, (Hin d Hd). cbn [overlay_get mbind option_bind]. rewrite Ho. cbn [image s0]. rewrite lookup_empty. by destruct (bootable img b d).
  - rewrite E. cbn [overlay_get mbind option_bind]. by rewrite Ho, lookup_empty.
  - by rewrite Hr, (Hin d Hd).
  - by rewrite Hr.
Qed.


(** ** The gates of a build *)

(** The check let a build through: a verdict other than a refusal, or, for a
    definition or a rebuild, a machine on which no soul was ever sealed. *)
Definition check_passed (c : PendingCheck) (soul : SoulAnswers) : Prop :=
  (exists v x, s_soul soul = Ok (Some x) /\ s_verdict soul = Ok v /\ is_refuse v = false) \/
  (s_soul soul = Ok None /\ s_hash_is_stored soul = Ok false /\ match c with CheckDefine _ _ | CheckRebuild _ _ _ => True | _ => False end).
Definition builds_after (c : PendingCheck) (b : ValidatedModule * bool) : Prop :=
  match c with
  | CheckDefine m _ | CheckApprove _ m _ => b = (m, false)
  | CheckRebuild _ m in_batch => b = (m, in_batch)
  | CheckPropose _ => False
  end.
(** A tool of the image that, by the record read, the operator has not edited,
    or, with none read, has not declined. *)
Definition unclaimed (tool : ShippedTool) (declined : list string) (existing : option ToolDoc) : Prop :=
  match existing with
  | None => st_name tool ∉ declined
  | Some d => match td_shipped d with
              | Some rec => td_source_sha256 d = sr_sha256 rec
              | None => td_source_sha256 d ∈ known_sha256s (st_name tool)
              end
  end.

Lemma upsert_builds w d s : builds (upsert w d s).1 = builds s.
Proof. by destruct w. Qed.
Lemma upsert_pair w d s : upsert w d s = ((upsert w d s).1, (upsert w d s).2).
Proof. by destruct (upsert w d s). Qed.
Lemma spawned b m ib s w d : b ∈ builds (spawn_build m ib (upsert w d s).1) -> b ∈ builds s \/ b = (m, ib).
Proof. cbn. rewrite upsert_builds, elem_of_app, list_elem_of_singleton. done. Qed.
Lemma check_ok_answer soul j : run_replicant_check soul = Ok j ->
  match j with
  | Some (v, _) => exists x, s_soul soul = Ok (Some x) /\ s_verdict soul = Ok v
  | None => s_soul soul = Ok None /\ s_hash_is_stored soul = Ok false
  end.
Proof.
  unfold run_replicant_check. destruct (s_soul soul) as [[x|]|e]; [| |done].
  - destruct (s_provider soul) as [model|]; [|done]. destruct (s_verdict soul) as [v|]; [|done]. intros [= <-]. by exists x.
  - destruct (s_hash_is_stored soul) as [[|]|]; [done| |done]. by intros [= <-].
Qed.

Lemma begin_builds r a s : builds (begin shipped r a s).1 = builds s.
Proof.
  destruct r; cbn [begin].
  - unfold define. repeat case_match; done.
  - unfold propose. repeat case_match; done.
  - unfold approve. repeat case_match; done.
  - unfold reject. repeat case_match; try done. cbn. by destruct (a_delete a).
  - unfold delete_tool. repeat case_match; try done; cbn; by destruct (a_delete a).
  - unfold rebuild_named, start_rebuild. repeat case_match; try done. apply upsert_builds.
  - unfold rebuild_all. repeat case_match; done.
  - unfold ensure_shipped_tools. repeat case_match; done.
Qed.
Lemma judged_builds c soul a s b : b ∈ builds (judged c soul a s).1 -> b ∈ builds s \/ builds_after c b /\ check_passed c soul.
Proof.
  destruct c as [m now|m|d m now|d m ib]; cbn [judged builds_after].
  - unfold define_judged. destruct (run_replicant_check soul) as [j|e] eqn:Ej; [|by left]. apply check_ok_answer in Ej.
    destruct (match j with Some (v, _) => is_refuse v | None => false end) eqn:Er; [by left|].
    rewrite upsert_pair. destruct (upsert _ _ _).2; [|cbn [fst]; rewrite upsert_builds; by left]. intros [|]%spawned; [by left|right]. split; [done|].
    destruct j as [[v model]|]; [left|right]; [destruct Ej as (x & ? & ?); by exists v, x|by destruct Ej].
  - unfold propose_judged. destruct (run_replicant_check soul) as [[[v model]|]|e]; [|by left..]. destruct (is_refuse v); [by left|].
    rewrite upsert_pair. destruct (upsert _ _ _).2; (cbn [fst]; rewrite upsert_builds; by left).
  - unfold approve_judged. destruct (run_replicant_check soul) as [[[v model]|]|e] eqn:Ej; [|by left..]. apply check_ok_answer in Ej.
    destruct (is_refuse v) eqn:Er; [by left|]. rewrite upsert_pair. destruct (upsert _ _ _).2; [|cbn [fst]; rewrite upsert_builds; by left].
    intros [|]%spawned; [by left|right]. split; [done|]. left. destruct Ej as (x & ? & ?). by exists v, x.
  - unfold rebuild_judged. destruct (rebuild_judged_record soul (a_now a)) as [record|why] eqn:Ej; [|cbn [fst]; unfold record_rebuild_stopped; rewrite upsert_builds; by left].
    unfold begin_rebuild. rewrite upsert_pair. destruct (upsert _ _ _).2; [|cbn [fst]; rewrite upsert_builds; by left].
    intros [|]%spawned; [by left|right]. split; [done|]. unfold rebuild_judged_record in Ej. apply bind_ok in Ej as (j & Ej & Hr). apply check_ok_answer in Ej.
    destruct j as [[v model]|]; [|right; by destruct Ej]. destruct (is_refuse v) eqn:Er; [done|]. left. destruct Ej as (x & ? & ?). by exists v, x.
Qed.
Lemma mark_builds m st log artifact a s : builds (mark m st log artifact a s) = builds s.
Proof. apply upsert_builds. Qed.
Lemma register_builds m o a s : builds (build_and_register m o a s) = builds s.
Proof. unfold build_and_register, mark_failed. repeat case_match; by rewrite mark_builds. Qed.
Lemma boot_builds img b s : builds (boot img b s) = [].
Proof.
  unfold boot. destruct (b_init b); [|done]. unfold reconcile_on_boot. set (s0 := {| records := _ |}).
  assert (Hs : builds s0 = []) by done. revert Hs. generalize (all_docs (b_read b) (b_created b) s0). intros l. generalize s0. clear.
  induction l as [|d l IH]; intros s1 Hs; [done|]. cbn [foldl]. apply IH. unfold reconcile_doc. repeat case_match; try done. by rewrite upsert_builds.
Qed.
Lemma shipped_builds tool dl a s b : b ∈ builds (ensure_shipped_tool known_sha256s tool dl a s) -> b ∈ builds s \/
  b.2 = true /\ validate (stored_source tool) (reserved_names (image s)) = Ok b.1 /\ unclaimed tool dl (load_doc (a_read a) s (st_name tool)).
Proof.
  unfold ensure_shipped_tool. destruct (validate (stored_source tool) _) as [m|e]; [|by left].
  assert (Hb : forall d, b ∈ builds (build_shipped d m a s) -> b ∈ builds s \/ b = (m, true)).
  { intros d. unfold build_shipped. rewrite upsert_pair. destruct (upsert _ _ _).2; [apply spawned|rewrite upsert_builds; by left]. }
  unfold shipped_decision, unclaimed. destruct (load_doc _ _ _) as [d|].
  - destruct (td_shipped d) as [rec|].
    + destruct (bool_decide (td_source_sha256 d = sr_sha256 rec)) eqn:E; cbn [negb]; [apply bool_decide_eq_true in E|by left].
      destruct (_ || _); [|by left]. destruct (_ || _); [|cbn [fst]; rewrite upsert_builds; by left]. intros [| ->]%Hb; [by left|by right].
    + case_bool_decide; [|by left]. destruct (_ || _); [|cbn [fst]; rewrite upsert_builds; by left]. intros [| ->]%Hb; [by left|by right].
  - case_bool_decide; [by left|]. intros [| ->]%Hb; [by left|by right].
Qed.

(** C21: Nothing is built that a gate refused. A build starts only when the
    replicant check of a pasted, approved or rebuilt source has answered with
    a verdict other than a refusal, or, for a definition or a rebuild but no
    approval, when no soul was ever sealed; when the check cannot run nothing
    starts. A proposal alone starts nothing. The one other builder is the
    batch of shipped tools: it builds a valid tool of the image that, by the
    record it read, the operator has not edited, or, reading none, has not
    declined. A read that fails counts as no record: then an edited tool is
    built over ([fault_overwrites_edited_tool]). *)
Theorem every_build_passed_the_gates s st b : b ∈ builds (step s st) ->
  b ∈ builds s \/
  (exists i c soul a, st = Judged i soul a /\ checks s !! i = Some c /\ builds_after c b /\ check_passed c soul) \/
  (exists a tool q declined, st = BatchNext a /\ rebuild_batch s = Some (ShippedQueue (tool :: q) declined) /\ b.2 = true /\
     validate (stored_source tool) (reserved_names (image s)) = Ok b.1 /\ unclaimed tool declined (load_doc (a_read a) s (st_name tool))).
Proof.
  destruct st as [r a|i soul a|i o a|a|img ba]; cbn [Lifecycle.step].
  - rewrite begin_builds. by left.
  - destruct (checks s !! i) as [c|] eqn:El; [|by left]. intros [|[? ?]]%judged_builds; [by left|right; left]. by exists i, c, soul, a.
  - destruct (builds s !! i) as [[m ib]|]; [|by left]. rewrite register_builds. cbn [builds set_builds]. intros Hb. left. by eapply elem_of_sublist, sublist_delete.
  - unfold batch_next. destruct (negb (batch_idle s)); [by left|].
    destruct (rebuild_batch s) as [[[|name q]|[|tool q] dl]|] eqn:Eb; [by left| |by left| |by left].
    + unfold rebuild_in_batch, start_rebuild, record_rebuild_stopped. repeat case_match; cbn [fst]; rewrite ?upsert_builds; by left.
    + intros [|(? & ? & ?)]%shipped_builds; [by left|right; right]. by exists a, tool, q, dl.
  - rewrite boot_builds. by intros ?%elem_of_nil.
Qed.
End approval.

(** ** A concrete machine *)

Module ToolDemo.
(** Hashes that are the bytes, a validator that names every tool [abc] and
    reads one capability off its source, and modules that always load. *)
#[export] Instance demo_sha : Sha256 := bytes_str.
#[export] Instance demo_validator : Validator := fun source reserved =>
  if bool_decide ("abc" ∈ reserved) then Err "reserved"
  else Ok {| m_name := "abc"; m_description := "d"; m_input_schema := VNull;
             m_caps := if str_starts source "net" then ["http_request"] else []; m_source := source |}.
#[export] Instance demo_wasm : Wasm := fun _ => Ok tt.
#[export] Instance demo_laws : ValidatorLaws.
Proof.
  constructor; unfold validate, demo_validator.
  - intros source reserved m. case_bool_decide; [done|]. by intros [= <-].
  - intros source reserved m. case_bool_decide; [done|]. by intros [= <-].
  - intros source r r' m m'. repeat case_bool_decide; try done. intros [= <-] [= <-]. done.
Qed.

Definition img : Image := {| toolchain_version := "1"; reserved_names := [] |}.
Definition img2 : Image := {| toolchain_version := "2"; reserved_names := [] |}.
Definition fine : Answers :=
  {| a_read := true; a_write := Stored; a_delete := true; a_config := Ok tt; a_decline := Ok tt; a_now := "now"; a_created _ := "t" |}.
Definition allow : SoulAnswers :=
  {| s_soul := Ok (Some VNull); s_hash_is_stored := Ok true; s_provider := Ok "model";
     s_verdict := Ok {| v_verdict := "allow"; v_touched_lines := []; v_rationale := EmptyString |} |}.
Definition disk (wasm : bytes) : BootAnswers :=
  {| b_init := true; b_read := true; b_artifact _ := Some wasm; b_write _ := Stored; b_now := "boot"; b_created _ := "t" |}.
Definition machine (l : list Step) : Brain := run [] (fun _ => []) (fresh img None) l.

(** A proposal, approved and built. *)
Definition approved_run : list Step :=
  [Boot img (disk []); Begin (Propose "net tool") fine; Judged 0 allow fine; Begin (Approve "abc") fine; Judged 0 allow fine;
   BuildDone 0 (BuiltWasm [1; 2] "log") fine].

Definition net_tool : ValidatedModule :=
  {| m_name := "abc"; m_description := "d"; m_input_schema := VNull; m_caps := ["http_request"]; m_source := "net tool" |}.
Lemma every_build_passed_the_gates_witness :
  let s := machine (take 4 approved_run) in
  builds (Lifecycle.step [] (fun _ => []) s (Judged 0 allow fine)) = [(net_tool, false)] /\
  exists i c soul a, Judged 0 allow fine = Judged i soul a /\ checks s !! i = Some c /\ check_passed c soul.
Proof.
  cbv zeta. set (s := machine (take 4 approved_run)).
  assert (Hb : builds (Lifecycle.step [] (fun _ => []) s (Judged 0 allow fine)) = [(net_tool, false)]) by (vm_compute; reflexivity).
  split; [exact Hb|].
  destruct (every_build_passed_the_gates [] (fun _ => []) s (Judged 0 allow fine) (net_tool, false))
    as [Hin|[(i & c & soul & a & E & Hc & _ & Hp)|(a & tool & q & dl & E & _)]].
  - rewrite Hb. left.
  - exfalso. vm_compute in Hin. inversion Hin.
  - by exists i, c, soul, a.
  - discriminate E.
Defined.


(** Without order: the tool is deleted while it builds, the agent proposes
    another source under its name, and the end of the build makes the proposal
    a ready tool. The next image rebuilds it: a source that nobody approved
    runs, with the capability it asks for. *)
Definition unapproved_run : list Step :=
  [Boot img (disk []); Begin (Define "plain") fine; Judged 0 allow fine; Begin (DeleteTool "abc") fine;
   Begin (Propose "net proposal") fine; Judged 0 allow fine; BuildDone 0 (BuiltWasm [1] "log") fine;
   Boot img2 (disk [1]); Begin (RebuildOne "abc") fine; Judged 0 allow fine; BuildDone 0 (BuiltWasm [2] "log") fine].
Example unapproved_source_runs :
  ct_caps <$> overlay_get (overlay (machine unapproved_run)) "abc" = Some ["http_request"] /\
  ct_wasm <$> overlay_get (overlay (machine unapproved_run)) "abc" = Some [2] /\
  authorised [] (fun _ => []) (fresh img None) unapproved_run = ["plain"].
Proof. vm_compute. split_and!; reflexivity. Qed.
(** A tool deleted while it builds is back when the build ends. *)
Example deleted_tool_is_back :
  let s := machine [Boot img (disk []); Begin (Define "plain") fine; Judged 0 allow fine; Begin (DeleteTool "abc") fine;
                    BuildDone 0 (BuiltWasm [1] "log") fine] in
  loaded s "abc" = true /\ td_status <$> records s !! "abc" = Some Ready.
Proof. vm_compute. split; reflexivity. Qed.
(** The operator has edited a tool of the image. A boot whose read of the
    record fails installs the image's source over it. *)
Example fault_overwrites_edited_tool :
  let unread := {| a_read := false; a_write := Stored; a_delete := true; a_config := Ok tt; a_decline := Ok tt; a_now := "now"; a_created _ := "t" |} in
  let image_tools := [{| st_name := "abc"; st_source := "of the image" |}] in
  let source a := td_source <$> records (run image_tools (fun _ => []) (fresh img None)
    [Boot img (disk []); Begin (Define "edited") fine; Judged 0 allow fine; BuildDone 0 (BuiltWasm [1] "log") fine;
     Boot img (disk [1]); Begin EnsureShipped fine; BatchNext a]) !! "abc" in
  source fine = Some "edited" /\ source unread = Some "of the image".
Proof. vm_compute. split; reflexivity. Qed.
(** Two builds of one tool: the record names the second source and the bytes
    of the first. *)
Example record_of_another_build :
  let s := machine [Boot img (disk []); Begin (Define "first") fine; Judged 0 allow fine; Begin (Define "second") fine; Judged 0 allow fine;
                    BuildDone 0 (BuiltWasm [1] "log") fine] in
  td_source <$> records s !! "abc" = Some "second" /\ td_artifact_sha256 <$> records s !! "abc" = Some (Some (sha256_hex_bytes [1])) /\
  td_status <$> records s !! "abc" = Some Ready.
Proof. vm_compute. split_and!; reflexivity. Qed.
(** A failed read of the record is taken for no record: the proposal replaces
    a ready tool. *)
Example fault_lets_proposal_through :
  let unread := {| a_read := false; a_write := Stored; a_delete := true; a_config := Ok tt; a_decline := Ok tt; a_now := "now"; a_created _ := "t" |} in
  td_status <$> records (machine (approved_run ++ [Begin (Propose "other") unread; Judged 0 allow fine])) !! "abc" = Some Proposed.
Proof. vm_compute. reflexivity. Qed.
End ToolDemo.
