(* ===== verification/Invoke.v ===== *)
(** * Calling a guest tool ([guardian_call] of [embra-brain/src/guardian/mod.rs],
    [embra-brain/src/secrets.rs])

    What a call is granted: the capabilities its source declares, the egress
    policy of the operator, and the set of every stored secret, which the
    broker of [Caps] then keeps from leaving. *)

From S2P Require Import Prelude Bytes F64 Json Externals Text Sse Addresses Secrets HtmlText Caps Egress ToolStore Lifecycle Approval.
From Stdlib Require Import Ascii.

(** ** The configuration a call reads *)

(** [Option<BTreeMap<…>>]: the entries in order. *)
Abbreviation HostMap A := (option (list (string * A))).
Record SystemConfig := {
  cfg_api_key : string;
  cfg_anthropic_api_key : option string;
  cfg_gemini_api_key : option string;
  cfg_github_token : option string;
  cfg_git_tokens : HostMap string;
  cfg_guardian_secrets : HostMap (list (string * string));
  cfg_guardian_private_hosts : option (list string);
}.

Definition CAP_HTTP_GET : string := "http_get".
Definition CAP_WEB_SEARCH : string := "web_search".
Definition CAP_HTTP_REQUEST : string := "http_request".
Definition HTTP_TIMEOUT_MAX : Z := 60 * SECONDS.
Definition DEFAULT_DEADLINE : Z := 5 * SECONDS.
Definition deadline_for_budget (budget : Z) : Z := budget + DEFAULT_DEADLINE.

Definition fetch_budget `{SerdeJson} (input : Value) : Z :=
  let default_ := policy_timeout default_policy in
  match Json.get input "timeout_ms" ≫= as_u64 with
  | Some ms => clampZ default_ HTTP_TIMEOUT_MAX (ms * MILLIS)
  | None => default_
  end.
Definition secrets_from (cfg : SystemConfig) : list SecretHeader :=
  default [] (cfg_guardian_secrets cfg) ≫= (fun '(host, headers) =>
    (fun '(name, value) => {| secret_host := ascii_lowercase host; secret_name := ascii_lowercase name; secret_value := value |}) <$> headers).

(** ** [secrets.rs] *)

(** [resolve_image_key], the key of the search backend, the environment. *)
Record SecretSources := {
  image_key : SystemConfig -> option string;
  brave_key : option string;
  env_var : string -> option string;
}.
Definition add_opt (set : SecretSet) (kind : string) (value : option string) : SecretSet :=
  match value with Some v => add set kind v | None => set end.
Definition add_all (set : SecretSet) (kind : string) (values : list string) : SecretSet := foldl (fun set v => add set kind v) set values.
Definition collect (src : SecretSources) (cfg : option SystemConfig) : SecretSet :=
  let set := match cfg with
    | None => []
    | Some cfg =>
        let set := add [] "the provider API key" (cfg_api_key cfg) in
        let set := add_opt (add_opt set "the provider API key" (cfg_anthropic_api_key cfg)) "the provider API key" (cfg_gemini_api_key cfg) in
        let set := add_opt set "the GitHub token" (cfg_github_token cfg) in
        let set := add_all set "a git host token" (default [] (cfg_git_tokens cfg)).*2 in
        let set := add_all set "a /guardian secret" (default [] (cfg_guardian_secrets cfg) ≫= (fun h => h.2.*2)) in
        add_opt set "the image key" (image_key src cfg)
    end in
  let set := add_opt set "the Brave key" (brave_key src) in
  foldl (fun set '(var, kind) => add_opt set kind (env_var src var)) set
    [("GITHUB_TOKEN", "the GitHub token"); ("ANTHROPIC_API_KEY", "the provider API key"); ("EMBRA_IMAGE_API_KEY", "the image key");
     ("EMBRA_OLLAMA_BEARER", "a provider bearer"); ("EMBRA_LM_STUDIO_BEARER", "a provider bearer")].

(** ** The call *)

(** What the environment answers a call: the configuration, and whether the
    HTTP client and the search client start. *)
Record CallAnswers := {
  c_config : option SystemConfig;
  c_http : result string unit;
  c_search : result string unit;
  c_sources : SecretSources;
}.
Definition no_capabilities : Capabilities :=
  {| http := false; http_policy := default_policy; secrets := []; search := false; files := false; outbound_secrets := [] |}.
Definition declares (caps : list string) (c : string) : bool := existsb (fun x => bool_decide (x = c)) caps.
Definition call_budget `{SerdeJson} (declared : list string) (input : Value) : Z :=
  if declares declared CAP_HTTP_REQUEST then fetch_budget input else policy_timeout default_policy.
Definition grant `{SerdeJson} (declared : list string) (input : Value) (c : CallAnswers) : result string Capabilities :=
  let wants_http := declares declared CAP_HTTP_GET in
  let wants_request := declares declared CAP_HTTP_REQUEST in
  let wants_search := declares declared CAP_WEB_SEARCH in
  let cfg := if wants_http || wants_request || wants_search then c_config c else None in
  let? caps := (if wants_http || wants_request then
      let? _ := map_err (fun e => "guardian: http capability init failed: " +:+ e) (c_http c) in
      Ok {| http := true;
            http_policy := {| allow_domains := allow_domains default_policy;
                              private_hosts := default [] (cfg ≫= cfg_guardian_private_hosts);
                              policy_max_bytes := policy_max_bytes default_policy; policy_timeout := call_budget declared input |};
            secrets := if wants_request then match cfg with Some cfg => secrets_from cfg | None => [] end else [];
            search := false; files := wants_request; outbound_secrets := [] |}
    else Ok no_capabilities) in
  let? caps := (if wants_search then
      match brave_key (c_sources c) with
      | Some _ =>
          let? _ := map_err (fun e => "guardian: web_search capability init failed: " +:+ e) (c_search c) in
          Ok {| http := http caps; http_policy := http_policy caps; secrets := secrets caps; search := true; files := files caps;
                outbound_secrets := outbound_secrets caps |}
      | None => Ok caps
      end
    else Ok caps) in
  Ok (if wants_http || wants_request || wants_search then
        {| http := http caps; http_policy := http_policy caps; secrets := secrets caps; search := search caps; files := files caps;
           outbound_secrets := collect (c_sources c) cfg |}
      else caps).
Definition call_deadline `{SerdeJson} (declared : list string) (input : Value) : Z :=
  if declares declared CAP_HTTP_GET || declares declared CAP_HTTP_REQUEST then deadline_for_budget (call_budget declared input)
  else DEFAULT_DEADLINE.

(** The guest that runs, its grant and its deadline. *)
Record Invocation := { inv_tool : CompiledTool; inv_caps : Capabilities; inv_deadline : Z }.
Definition invoke `{SerdeJson} (s : Brain) (tool : string) (input : Value) (c : CallAnswers) : result string Invocation :=
  match overlay s with
  | None => Err "guardian: runtime not initialized"
  | Some tools =>
      match tools !! tool with
      | None => Err ("guardian: tool '" +:+ tool +:+ "' is not callable")
      | Some t =>
          let? caps := grant (ct_caps t) input c in
          Ok {| inv_tool := t; inv_caps := caps; inv_deadline := call_deadline (ct_caps t) input |}
      end
  end.

(** ** What a grant is *)

Lemma declares_in caps c : declares caps c = true <-> c ∈ caps.
Proof.
  unfold declares. rewrite existsb_exists. split.
  - intros (x & Hx%list_elem_of_In & E%bool_decide_eq_true). by subst.
  - intros Hc. exists c. rewrite bool_decide_eq_true. split; [by apply list_elem_of_In|done].
Qed.

(** A grant holds what the tool declares and nothing else. *)
Record granted (declared : list string) (c : CallAnswers) (caps : Capabilities) : Prop := {
  g_http : http caps = true -> CAP_HTTP_GET ∈ declared \/ CAP_HTTP_REQUEST ∈ declared;
  g_files : files caps = true -> CAP_HTTP_REQUEST ∈ declared;
  g_search : search caps = true -> CAP_WEB_SEARCH ∈ declared;
  g_secrets : forall h, h ∈ secrets caps -> CAP_HTTP_REQUEST ∈ declared /\ exists cfg, c_config c = Some cfg /\ h ∈ secrets_from cfg;
  g_hosts : forall h, h ∈ private_hosts (http_policy caps) -> exists cfg, c_config c = Some cfg /\ h ∈ default [] (cfg_guardian_private_hosts cfg);
  g_outbound : http caps = true \/ search caps = true -> outbound_secrets caps = collect (c_sources c) (c_config c);
}.

Section invoke.
Context `{SerdeJson}.

Lemma grant_granted declared input c caps : grant declared input c = Ok caps -> granted declared c caps.
Proof.
  unfold grant. intros (caps1 & H1 & (caps2 & H2 & [= <-])%bind_ok)%bind_ok.
  assert (Hs : http caps2 = http caps1 /\ files caps2 = files caps1 /\ secrets caps2 = secrets caps1 /\ http_policy caps2 = http_policy caps1 /\
    outbound_secrets caps2 = outbound_secrets caps1 /\ (search caps2 = true -> search caps1 = true \/ declares declared CAP_WEB_SEARCH = true)).
  { destruct (declares declared CAP_WEB_SEARCH); [|injection H2 as <-; split_and!; eauto].
    destruct (brave_key (c_sources c)); [|injection H2 as <-; split_and!; eauto]. apply bind_ok in H2 as (_ & _ & [= <-]). split_and!; eauto. }
  destruct Hs as (E1 & E2 & E3 & E4 & _ & E6). setoid_rewrite declares_in in E6. clear H2.
  destruct (declares declared CAP_HTTP_GET || declares declared CAP_HTTP_REQUEST) eqn:Ew; cbn [orb] in *.
  - apply bind_ok in H1 as (_ & _ & [= <-]). cbn in *.
    apply orb_true_iff in Ew. rewrite !declares_in in Ew.
    constructor; cbn; rewrite ?E1, ?E2, ?E3, ?E4; cbn; try done.
    + apply declares_in.
    + intros Hsr. by destruct (E6 Hsr).
    + intros h Hh. destruct (declares declared CAP_HTTP_REQUEST) eqn:Er; [|by apply elem_of_nil in Hh]. apply declares_in in Er.
      destruct (c_config c) as [cfg|]; [|by apply elem_of_nil in Hh]. eauto.
    + intros h Hh. destruct (c_config c) as [cfg|]; [|by apply elem_of_nil in Hh]. cbn in Hh. by exists cfg.
  - injection H1 as <-. destruct (declares declared CAP_WEB_SEARCH) eqn:Es; constructor; cbn; rewrite ?E1, ?E2, ?E3, ?E4; cbn; try done;
      try (by intros h ?%elem_of_nil); try (by intros _; apply declares_in).
    + intros Hsr. by destruct (E6 Hsr).
    + intros [|Hsr]; [done|]. destruct (E6 Hsr) as [|Hd]; [done|]. apply declares_in in Hd. congruence.
Qed.
End invoke.

(** ** The secrets of a call *)

Lemma add_keeps set k v e : e ∈ set -> e ∈ add set k v.
Proof. intros He. unfold add. case_match; [done|]. apply elem_of_app. by left. Qed.
Lemma add_opt_keeps set k v e : e ∈ set -> e ∈ add_opt set k v.
Proof. destruct v; [apply add_keeps|done]. Qed.
Lemma add_all_keeps set k l e : e ∈ set -> e ∈ add_all set k l.
Proof. revert set. induction l as [|v l IH]; [done|]. intros set He. apply IH, add_keeps, He. Qed.
Lemma add_form_in l out f : f ∈ out \/ f ∈ l /\ SECRET_MIN_BYTES <= str_len f -> f ∈ foldl add_form out l.
Proof.
  revert out. induction l as [|x l IH]; intros out Hf; cbn [foldl].
  { destruct Hf as [|[Hf _]]; [done|]. by apply elem_of_nil in Hf. }
  apply IH. unfold add_form. destruct Hf as [Hf|[[->|Hf]%elem_of_cons Hl]]; [left; case_match; set_solver| |by right].
  left. rewrite (proj2 (Z.leb_le _ _)) by done. cbn [andb]. case_bool_decide; cbn; [done|set_solver].
Qed.
(** The forms a stored value is looked for in. *)
Definition form_of (value f : string) : Prop := f ∈ (secret_texts (trim value) ≫= forms_of) /\ SECRET_MIN_BYTES <= str_len f.
Definition guards (set : SecretSet) (value : string) : Prop := forall f, form_of value f -> exists e, e ∈ set /\ f ∈ forms e.
Lemma guards_mono set set' v : (forall e, e ∈ set -> e ∈ set') -> guards set v -> guards set' v.
Proof. intros Hs Hg f Hf. destruct (Hg f Hf) as (e & ? & ?). eauto. Qed.
Lemma add_guards set k v : SECRET_MIN_BYTES <= str_len (trim v) -> guards (add set k v) v.
Proof.
  intros Hl f [Hf Hm]. unfold add. rewrite (proj2 (Z.ltb_ge _ _)) by done. eexists. split; [apply elem_of_app; right; by apply list_elem_of_singleton|].
  cbn [forms]. apply add_form_in. by right.
Qed.
Lemma add_all_guards set k l v : v ∈ l -> SECRET_MIN_BYTES <= str_len (trim v) -> guards (add_all set k l) v.
Proof.
  revert set. induction l as [|x l IH]; intros set Hv Hl; [by apply elem_of_nil in Hv|]. apply elem_of_cons in Hv as [<-|Hv]; [|by apply IH].
  cbn. apply (guards_mono (add set k v)); [intros e; apply add_all_keeps|by apply add_guards].
Qed.
Lemma collect_guards src cfg h : h ∈ secrets_from cfg -> SECRET_MIN_BYTES <= str_len (trim (secret_value h)) ->
  guards (collect src (Some cfg)) (secret_value h).
Proof.
  intros Hh Hl. unfold collect. set (set4 := add_all _ "a git host token" _).
  assert (Hg : guards (add_all set4 "a /guardian secret" (default [] (cfg_guardian_secrets cfg) ≫= (fun h => h.2.*2))) (secret_value h)).
  { apply add_all_guards; [|done]. unfold secrets_from in Hh. apply list_elem_of_bind in Hh as ([host headers] & Hh & Hin).
    apply list_elem_of_fmap in Hh as ([n v] & -> & Hv). apply list_elem_of_bind. exists (host, headers). split; [|done].
    apply list_elem_of_fmap. by exists (n, v). }
  revert Hg. apply guards_mono. intros e He. cbn [foldl]. repeat apply add_opt_keeps. exact He.
Qed.

Lemma guarded_text set v t : guards set v -> found_in set t = None -> forall f, form_of v f -> contains t f = false.
Proof. intros Hg Hf f Hform. destruct (Hg f Hform) as (e & He & Hin). by apply (proj1 (found_in_none _ _) Hf e f). Qed.

Section secrets.
Context `{SerdeJson} `{UrlLib}.
Context (from_str_error : string -> string) (to_vec_error : string).
Context (resolve : nat -> string -> Z -> result string (list IpAddr)) (elapsed : nat -> Z)
        (transport : nat -> HttpRequest -> result string HttpResponse)
        (sink_check : string -> result string unit) (sink_save : string -> bytes -> string -> result string SavedFile)
        (provider : SearchRequest -> result string SearchResponse).

(** C23: In a call of any guest tool with a configuration loaded (without one no
    secret of a host is guarded or granted), a fetch is sent only when its URL,
    a search only when its raw input, and a request only when its raw input,
    its URL, its header values and its body hold no secret stored for a host,
    nor the token of a bearer header, plain, percent-encoded or in base64,
    provided the secret and that form have at least eight bytes. Header names
    and the query of a search once its JSON is read are not checked: a secret
    escaped there is sent ([EgressDemo.escaped_secret_is_sent]). The broker
    itself adds a stored secret only to a request of a tool that declares
    requests, only as its own header and only at a hop whose host it is
    stored for; every other header is the guest's. *)
Theorem stored_secrets_stay_home s tool input c inv cfg h f :
  invoke s tool input c = Ok inv -> c_config c = Some cfg -> h ∈ secrets_from cfg ->
  SECRET_MIN_BYTES <= str_len (trim (secret_value h)) -> form_of (secret_value h) f ->
  (forall url, (guarded_http_get resolve elapsed transport (inv_caps inv) url).1 <> [] -> contains url f = false) /\
  (forall text, (guarded_web_search (inv_caps inv) provider text).1 <> [] -> contains text f = false) /\
  (forall text r, r ∈ sent (guarded_http_request from_str_error to_vec_error resolve elapsed transport sink_check sink_save (inv_caps inv) text) ->
     exists req u, parse_http_request from_str_error to_vec_error text (http_policy (inv_caps inv)) = Ok req /\ url_parse (req_url r) = Ok u /\
       (forall t, t ∈ outbound_texts text req -> contains t f = false) /\
       (forall x, x ∈ req_headers r -> x ∈ req_headers req \/
          CAP_HTTP_REQUEST ∈ ct_caps (inv_tool inv) /\
          exists k, k ∈ secrets_from cfg /\ x = (secret_name k, secret_value k) /\ secret_host k ∈ secret_hosts_of u)).
Proof.
  intros Hinv Hc Hh Hl Hf. unfold invoke in Hinv. destruct (overlay s) as [tools|]; [|done]. destruct (tools !! tool) as [t|]; [|done].
  apply bind_ok in Hinv as (caps & Hg%grant_granted & [= <-]). cbn [inv_caps inv_tool].
  assert (Hguard : http caps = true \/ search caps = true -> guards (outbound_secrets caps) (secret_value h)).
  { intros Hs. rewrite (g_outbound _ _ _ Hg Hs), Hc. by apply collect_guards. }
  split_and!.
  - intros url Hne. destruct (guarded_http_get _ _ _ caps url).1 as [|r l] eqn:E; [done|].
    destruct (fetch_is_guarded resolve elapsed transport caps url 0 r) as (_ & _ & _ & Hn & _); [by rewrite E|].
    eapply guarded_text; [apply Hguard; left|exact Hn|exact Hf]. unfold guarded_http_get in E. by destruct (http caps).
  - intros text Hne. destruct (guarded_web_search caps provider text).1 as [|r l] eqn:E; [done|].
    unfold guarded_web_search in E. destruct (search caps) eqn:Es; [|done]. cbn [negb] in E. destruct (carries_secret _ _) as [x|e] eqn:Hs; [|done].
    apply carries_secret_ok in Hs. apply Forall_cons in Hs as [Hs _]. eapply guarded_text; [apply Hguard; by right|exact Hs|exact Hf].
  - intros text r (n & Hn)%list_elem_of_lookup. destruct (guarded_sent _ _ _ _ _ _ _ _ _ _ _ Hn) as (Hhttp & req & Hp & Hs & Hsent & _).
    rewrite Hsent in Hn. destruct (run_sent _ _ _ _ _ _ _ _ _ _ _ Hn) as (current & u & Hu & _ & ->).
    destruct (check_url_ok _ _ _ _ _ Hu) as [host Ha]. exists req, u. split_and!; [done|apply (ua_parse _ _ _ _ _ _ Ha)| |].
    + intros x Hx. eapply guarded_text; [apply Hguard; by left| |exact Hf]. by apply (proj1 (Forall_forall _ _) Hs).
    + intros x [(k & Hk & Hhost & ->)|Hx]%inject_elem; [right|by left].
      destruct (g_secrets _ _ _ Hg k Hk) as (Hd & cfg' & Hc' & Hin). split; [done|]. exists k. split_and!; [|done|done]. congruence.
Qed.
End secrets.

(** ** What runs *)

Section calls.
Context `{SerdeJson} `{Sha256} `{ValidatorLaws} `{Wasm}.
Context (shipped : list ShippedTool) (known_sha256s : string -> list string).
Context (shipped_names : forall tool reserved m, tool ∈ shipped -> validate (stored_source tool) reserved = Ok m -> m_name m = st_name tool).

(** C20: A call runs what was authorised. However commands, proposals, builds,
    batches, database faults and restarts follow each other, as long as nothing
    else is asked of a tool while a check of it is pending and, while it
    builds, nothing that does not look at its record (no redefinition, no
    deletion, no request whose read of the record fails), the guest a call
    runs hashes to what a build made of a valid module of that name whose
    source the operator pasted or approved, or the image ships; and its grant
    holds only the capabilities that source declares. *)
Theorem a_call_runs_what_was_authorised img declined l tool input c inv :
  let s := fresh img declined in
  orderly shipped known_sha256s s l ->
  invoke (run shipped known_sha256s s l) tool input c = Ok inv ->
  exists m w reserved,
    (m, w) ∈ built shipped known_sha256s s l /\ sha256_hex_bytes (ct_wasm (inv_tool inv)) = sha256_hex_bytes w /\
    validate (m_source m) reserved = Ok m /\ m_name m = tool /\
    (m_source m ∈ authorised shipped known_sha256s s l \/ m_source m ∈ stored_source <$> shipped) /\
    granted (m_caps m) c (inv_caps inv).
Proof.
  cbv zeta. intros Ho Hinv. pose proof (life_run_inv shipped known_sha256s shipped_names _ _ _ _ (fresh_inv shipped img declined) Ho) as Hi.
  rewrite !app_nil_l in Hi. unfold invoke in Hinv. destruct (overlay (run _ _ _ _)) as [tools|] eqn:Eo; [|done].
  destruct (tools !! tool) as [t|] eqn:Et; [|done]. apply bind_ok in Hinv as (caps & Hg%grant_granted & [= <-]).
  destruct (i_overlay _ _ _ _ Hi tool t) as (m & w & Hb & [reserved Hv] & Ha & Hn & Hc & Hs); [by rewrite Eo|].
  exists m, w, reserved. split_and!; [done..|]. by rewrite <-Hc.
Qed.
End calls.

(** ** A concrete call *)

Module CallDemo.
Import Ref EgressDemo ToolDemo.

Definition config : SystemConfig :=
  {| cfg_api_key := "sk-0123456789"; cfg_anthropic_api_key := None; cfg_gemini_api_key := None; cfg_github_token := None;
     cfg_git_tokens := None; cfg_guardian_secrets := Some [("api.example", [("Authorization", "Bearer t-0123456789")])];
     cfg_guardian_private_hosts := None |}.
Definition answers : CallAnswers :=
  {| c_config := Some config; c_http := Ok tt; c_search := Ok tt;
     c_sources := {| image_key _ := None; brave_key := None; env_var _ := None |} |}.
Definition stored : SecretHeader := {| secret_host := "api.example"; secret_name := "authorization"; secret_value := "Bearer t-0123456789" |}.
Definition granted_caps : Capabilities :=
  {| http := true; http_policy := default_policy; secrets := [stored]; search := false; files := true;
     outbound_secrets := collect (c_sources answers) (Some config) |}.
Definition call : Invocation :=
  {| inv_tool := {| ct_name := "abc"; ct_description := "d"; ct_schema := VNull; ct_caps := ["http_request"]; ct_wasm := [1; 2] |};
     inv_caps := granted_caps; inv_deadline := 15 * SECONDS |}.

Lemma a_call_runs_what_was_authorised_witness :
  invoke (machine approved_run) "abc" VNull answers = Ok call /\
  exists m w reserved, (m, w) ∈ built [] (fun _ => []) (fresh img None) approved_run /\ validate (m_source m) reserved = Ok m /\
    m_source m ∈ authorised [] (fun _ => []) (fresh img None) approved_run.
Proof.
  assert (E : invoke (machine approved_run) "abc" VNull answers = Ok call) by (vm_compute; reflexivity). split; [exact E|].
  destruct (a_call_runs_what_was_authorised [] (fun _ => []) ltac:(intros tool r m Hin; inversion Hin) img None approved_run "abc" VNull answers call)
    as (m & w & reserved & Hb & _ & Hv & _ & [Ha|Ha] & _).
  - cbn [orderly approved_run]. split_and!; [..|exact I]; intros n Hn; vm_compute in Hn; try discriminate Hn; injection Hn as <-;
      (split; [vm_compute; intros Hin; inversion Hin|vm_compute; intros Hh; first [discriminate Hh|intros Hin; inversion Hin]]).
  - exact E.
  - by exists m, w, reserved.
  - inversion Ha.
Defined.

Definition request : string := text (VObject [("url", VString "https://api.example")]).
Lemma stored_secrets_stay_home_witness :
  let resolve := fun _ _ _ => Ok [V4 (V4Addr 93 184 216 34)] in
  let outcome := guarded_http_request (fun _ => EmptyString) EmptyString resolve (fun _ => 0) transport (fun _ => Ok tt) (fun _ _ _ => Err "")
                   granted_caps request in
  req_headers <$> sent outcome = [[("authorization", "Bearer t-0123456789")]; []] /\
  exists req, parse_http_request (fun _ => EmptyString) EmptyString request default_policy = Ok req /\
    forall t, t ∈ outbound_texts request req -> contains t "t-0123456789" = false.
Proof.
  cbv zeta. set (resolve := fun (_ : nat) (_ : string) (_ : Z) => @Ok string _ [V4 (V4Addr 93 184 216 34)]).
  set (outcome := guarded_http_request _ _ _ _ _ _ _ _ _).
  assert (E : req_headers <$> sent outcome = [[("authorization", "Bearer t-0123456789")]; []]) by (vm_compute; reflexivity).
  split; [exact E|].
  destruct (stored_secrets_stay_home (fun _ => EmptyString) EmptyString resolve (fun _ => 0) transport (fun _ => Ok tt) (fun _ _ _ => Err "")
    (fun _ => Err "") (machine approved_run) "abc" VNull answers call config stored "t-0123456789") as (_ & _ & Hreq).
  - vm_compute. reflexivity.
  - reflexivity.
  - left.
  - vm_compute. discriminate.
  - split; [apply (bool_decide_unpack _); vm_compute; exact I|vm_compute; discriminate].
  - assert (Hin : exists r, r ∈ sent outcome).
    { destruct (sent outcome) as [|r l]; [discriminate E|]. exists r. left. }
    destruct Hin as [r Hr]. destruct (Hreq request r Hr) as (req & u & Hp & _ & Ht & _). exists req. split; [exact Hp|exact Ht].
Defined.
(** Without a configuration the same call runs, and what the configuration
    guards may be sent. *)
Example no_config_no_guard :
  let unloaded := {| c_config := None; c_http := Ok tt; c_search := Ok tt; c_sources := c_sources answers |} in
  (fun inv => (outbound_secrets (inv_caps inv), secrets (inv_caps inv))) <$> invoke (machine approved_run) "abc" VNull unloaded = Ok ([], []) /\
  found_in (outbound_secrets granted_caps) "x=sk-0123456789" <> None.
Proof. split; [vm_compute; reflexivity|vm_compute; discriminate]. Qed.
End CallDemo.
