(* ===== verification/Client.v ===== *)
(** * The agent's database client ([crates/embra-brain/src/db/client.rs])

    The calls the agent makes, over the database as its specification has it
    ([Refinement], [Bulk], [Mutations], and the window a query answers). A
    call can meet what a network brings: the request is lost, or its reply is
    lost after the server acted; and between two calls other clients act.
    What happens at each call is given by a schedule of moments. *)

From S2P Require Import Prelude Bytes F64 Json Errors Externals Filter Secondary Sort Backend Storage Document Refinement Mutations Bulk History Text.
From Stdlib Require Import Ascii.

(** ** Names in a URL *)

Inductive Segment := Fixed (s : string) | Collection (s : string) | Id (s : string).
Definition SEGMENT_MAX_BYTES : Z := 512.

(** Some character of a text is white space. *)
Fixpoint has_space (l : bytes) : bool :=
  match l with [] => false | _ :: k => negb (space_front l =? 0)%nat || has_space k end.
Definition segment_fault (collection : bool) (s : string) : option string :=
  let l := str_bytes s in
  if bool_decide (s = EmptyString) then Some "it is empty"
  else if SEGMENT_MAX_BYTES <? lenZ l then Some "it is longer than 512 bytes"
  else if bool_decide (s = ".") || bool_decide (s = "..") then Some "it is a dot segment"
  else if existsb (fun b => bool_decide (b ∈ str_bytes "/\?#%")) l then Some "it contains one of / \ ? # %"
  else if has_space l || has_control l then Some "it contains whitespace or a control character"
  else if collection && str_starts s "_" then Some "a collection name cannot start with '_'"
  else None.
Definition segment_ok (seg : Segment) : result string unit :=
  let check kind collection s :=
    match segment_fault collection s with
    | None => Ok tt
    | Some why => Err (kind +:+ " '" +:+ s +:+ "' is not a valid name: " +:+ why)
    end in
  match seg with
  | Fixed _ => Ok tt
  | Collection s => check "collection" true s
  | Id s => check "document id" false s
  end.

(** ** The schedule *)

Inductive Fate := Answered | Undelivered (why : string) | Unanswered (why : string).
(** One call: the server's clock and the identifiers it draws (those of a
    generator that never repeats depend on what is stored), what others
    did to the database since the call before, and what becomes of it. *)
Record Moment := { clock : string; fresh_ids : db -> nat -> string; others : db -> db; fate : Fate }.
Record World := { database : db; moment : nat }.

Definition Client (E A : Type) : Type := World -> result E A * World.
#[export] Instance client_ret {E} : MRet (Client E) := fun A a w => (Ok a, w).
#[export] Instance client_bind {E} : MBind (Client E) := fun A B f m w =>
  match m w with (Ok a, w) => f a w | (Err e, w) => (Err e, w) end.
Definition client_lift {E A} (r : result E A) : Client E A := fun w => (r, w).
(** A failure that is handled. *)
Definition client_try {E F A} (m : Client E A) : Client F (result E A) := fun w => let '(r, w) := m w in (Ok r, w).
Definition client_err {E F A} (f : E -> F) (m : Client E A) : Client F A := fun w => let '(r, w) := m w in (map_err f r, w).

(** [WardsonDbClient::url] refuses a segment that is no name. *)
Definition url (segments : list Segment) : result string unit := let? _ := mapM segment_ok segments in Ok tt.

Section client.
Context `{SerdeJson} `{StorageSerde} `{RegexLib}.
(** The text of a refusal, and the schedule. *)
Context (refusal : AppError -> string) (moments : nat -> Moment) (max_query_limit : Z).

Definition utc_now {E} : Client E string := fun w => (Ok (clock (moments (moment w))), w).

Definition exchange {A} (spec : Moment -> db -> res A * db) : Client string A := fun w =>
  let m := moments (moment w) in
  let d := others m (database w) in
  let '(r, d') := spec m d in
  match fate m with
  | Answered => (map_err refusal r, {| database := d'; moment := S (moment w) |})
  | Undelivered why => (Err why, {| database := d; moment := S (moment w) |})
  | Unanswered why => (Err why, {| database := d'; moment := S (moment w) |})
  end.
Definition request {A} (segments : list Segment) (spec : Moment -> db -> res A * db) : Client string A :=
  client_lift (url segments) ≫= fun _ => exchange spec.

(** ** The calls *)

(** The documents of a collection in the order of their identifiers. *)
Definition stored_docs (docs : gmap string Value) : list Value := (sort_by (cmp_on fst str_cmp) (map_to_list docs)).*2.
(** The window of a query with a filter, a sort and a limit. *)
Definition query_window (body : Value) (docs : gmap string Value) : res (list Value) :=
  let? filter := match get body "filter" with
                 | Some f => let? n := parse_filter f in Ok (Some n)
                 | None => Ok None
                 end in
  let? sort := match get body "sort" with
               | Some s => map_err (fun e => InvalidQuery ("sort " +:+ e)) (parse_sort_spec s)
               | None => Ok []
               end in
  let passes doc := match filter with Some n => matches n doc | None => true end in
  Ok (takeZ (Z.min (default 100 (get body "limit" ≫= as_u64)) max_query_limit)
        (sort_documents (List.filter passes (stored_docs docs)) sort)).

Definition db_query (coll : string) (body : Value) : Client string (list Value) :=
  request [Collection coll; Fixed "query"] (fun _ d => on_docs coll d (fun docs => (query_window body docs, docs))).
Definition db_read (coll id : string) : Client string Value :=
  request [Collection coll; Fixed "docs"; Id id] (fun _ => spec_get coll id).
Definition db_patch (coll id : string) (patch : Value) : Client string unit :=
  r ← request [Collection coll; Fixed "docs"; Id id] (fun m => spec_partial_update (clock m) coll id patch);
  mret tt.
Definition db_delete (coll id : string) : Client string unit :=
  request [Collection coll; Fixed "docs"; Id id] (fun _ => spec_delete coll id).
Definition db_delete_by_query (coll : string) (filter : Value) : Client string Z :=
  request [Collection coll; Fixed "docs"; Fixed "_delete_by_query"]
    (fun _ d => with_filter filter d (fun f => spec_delete_by_query coll f d)).
(** How many of the documents were inserted. *)
Definition db_bulk_write (coll : string) (documents : list Value) : Client string Z :=
  counts ← request [Collection coll; Fixed "docs"; Fixed "_bulk"]
    (fun m d => spec_bulk (fun _ => clock m) (fresh_ids m d) coll documents d);
  mret counts.1.
End client.

(** ** What a window holds *)

Section windows.
Context `{SerdeJson} `{!SerdeLaws} `{StorageSerde} `{RegexLib}.
Context (refusal : AppError -> string) (moments : nat -> Moment) (max_query_limit : Z).

Definition at_doc (d : db) (c id : string) : option Value := d !! c ≫= (.!! id).

Lemma stored_docs_elem docs doc : doc ∈ stored_docs docs <-> exists id, docs !! id = Some doc.
Proof.
  unfold stored_docs. rewrite list_elem_of_fmap. split.
  - intros ([id doc'] & -> & Hin). rewrite sort_by_perm in Hin. exists id. by apply elem_of_map_to_list.
  - intros [id Hd]. exists (id, doc). split; [done|]. rewrite sort_by_perm. by apply elem_of_map_to_list.
Qed.

(** A window that did not fill holds every document the filter selects, and
    nothing else. *)
Lemma window_complete body docs l filter n : query_window max_query_limit body docs = Ok l ->
  get body "filter" = Some filter -> get body "limit" = Some (VNumber (PosInt n)) -> 0 <= n < 2 ^ 64 -> n <= max_query_limit ->
  lenZ l < n -> forall doc, doc ∈ l <-> (exists id, docs !! id = Some doc) /\ filter_sem doc filter = true.
Proof.
  intros Hw Hf Hl Hn Hm Hlen doc. unfold query_window in Hw. rewrite Hf, Hl in Hw. cbn in Hw.
  apply bind_ok in Hw as (fo & (node & Hp & [= <-])%bind_ok & Hw). apply bind_ok in Hw as (sort & _ & [= <-]).
  rewrite num_as_u64_pos in Hlen |- * by done. cbn in Hlen |- *. rewrite Z.min_l in Hlen |- * by done.
  rewrite takeZ_take in Hlen |- *. rewrite take_ge; [|unfold lenZ in Hlen; rewrite length_take in Hlen; lia].
  rewrite sort_documents_perm, elem_of_List_filter, stored_docs_elem. by rewrite (parse_filter_node_sem doc filter 0 node).
Qed.

(** What a successful query saw. *)
Lemma query_inv c body w l w' : db_query refusal moments max_query_limit c body w = (Ok l, w') ->
  exists docs, others (moments (moment w)) (database w) !! c = Some docs /\ query_window max_query_limit body docs = Ok l /\
    database w' = others (moments (moment w)) (database w).
Proof.
  unfold db_query, request, mbind, client_bind, client_lift. destruct (url _) as [u|]; [|done]. unfold exchange, on_docs.
  set (d := others _ _). destruct (d !! c) as [docs|] eqn:Hc; [|by destruct (fate _)].
  destruct (query_window _ _ docs) as [l'|] eqn:Hq; destruct (fate _); intros [= -> <-]; exists docs; cbn; by rewrite insert_id.
Qed.
End windows.

(** ** Databases that only grow *)

Create HintDb adds.

(** Every document is as it was, and a new one is as [P] says. *)
Definition adds (P : string -> string -> Value -> Prop) (d d' : db) : Prop :=
  (forall c id doc, at_doc d c id = Some doc -> at_doc d' c id = Some doc) /\
  (forall c id doc, at_doc d' c id = Some doc -> at_doc d c id = None -> P c id doc).

Lemma adds_refl P d : adds P d d.
Proof. split; [done|]. intros c id doc -> [=]. Qed.
Lemma adds_trans P d1 d2 d3 : adds P d1 d2 -> adds P d2 d3 -> adds P d1 d3.
Proof.
  intros [K1 N1] [K2 N2]. split; [by auto|]. intros c id doc H3 H1. destruct (at_doc d2 c id) as [doc'|] eqn:E.
  - rewrite (K2 _ _ _ E) in H3. injection H3 as <-. by apply N1.
  - by apply N2.
Qed.
Lemma adds_weaken (P Q : string -> string -> Value -> Prop) d d' : (forall c id doc, P c id doc -> Q c id doc) -> adds P d d' -> adds Q d d'.
Proof. intros HPQ [K N]. split; [done|]. intros c id doc H1 H2. by apply HPQ, N. Qed.

Lemma at_insert d c docs c' id : at_doc (<[c := docs]> d) c' id = if decide (c = c') then docs !! id else at_doc d c' id.
Proof.
  unfold at_doc. destruct (decide (c = c')) as [->|E]; [by rewrite lookup_insert_eq|by rewrite lookup_insert_ne].
Qed.
Lemma at_on_docs {A} c (d : db) (f : gmap string Value -> res A * gmap string Value) :
  (forall docs, (f docs).2 = docs) -> (on_docs c d f).2 = d.
Proof.
  intros Hf. unfold on_docs. destruct (d !! c) as [docs|] eqn:E; [|done]. specialize (Hf docs). destruct (f docs) as [r docs'].
  cbn in *. subst. by apply insert_id.
Qed.

Section grows.
Context `{SerdeJson} `{StorageSerde} `{RegexLib}.
Context (refusal : AppError -> string) (moments : nat -> Moment).
Context (P : string -> string -> Value -> Prop).

Definition grows {E A} (m : Client E A) : Prop := forall w, adds P (database w) (database (m w).2).
Lemma adds_ret {E A} (a : A) : grows (E := E) (mret a).
Proof. intros w. apply adds_refl. Qed.
Lemma adds_lift {E A} (r : result E A) : grows (client_lift r).
Proof. intros w. apply adds_refl. Qed.
Lemma adds_bind {E A B} (m : Client E A) (f : A -> Client E B) : grows m -> (forall a, grows (f a)) -> grows (m ≫= f).
Proof.
  intros Hm Hf w. unfold mbind, client_bind. specialize (Hm w). destruct (m w) as [[a|e] w']; [|done].
  by eapply adds_trans, Hf.
Qed.
Lemma adds_try {E F A} (m : Client E A) : grows m -> grows (client_try (F := F) m).
Proof. intros Hm w. unfold client_try. specialize (Hm w). by destruct (m w). Qed.
Lemma adds_err {E F A} (f : E -> F) (m : Client E A) : grows m -> grows (client_err f m).
Proof. intros Hm w. unfold client_err. specialize (Hm w). by destruct (m w). Qed.
Lemma adds_now {E} : grows (utc_now (E := E) moments).
Proof. intros w. apply adds_refl. Qed.

Context (Hothers : forall k d, adds P d (others (moments k) d)).
Lemma adds_request {A} segments (spec : Moment -> db -> res A * db) :
  (forall k d, adds P d (spec (moments k) d).2) -> grows (request refusal moments segments spec).
Proof.
  intros Hs. apply adds_bind; [apply adds_lift|]. intros _ w. unfold exchange. specialize (Hs (moment w) (others (moments (moment w)) (database w))).
  pose proof (Hothers (moment w) (database w)) as Ho. destruct (spec _ _) as [r d'].
  destruct (fate _); cbn; [by eapply adds_trans|done|by eapply adds_trans].
Qed.
Lemma adds_query limit c body : grows (db_query refusal moments limit c body).
Proof. apply adds_request. intros k d. rewrite at_on_docs; [apply adds_refl|done]. Qed.
Lemma adds_read c id : grows (db_read refusal moments c id).
Proof. apply adds_request. intros k d. unfold spec_get. rewrite at_on_docs; [apply adds_refl|done]. Qed.
End grows.
#[export] Hint Resolve adds_ret adds_lift adds_bind adds_try adds_err adds_now adds_query adds_read : adds.
