(* ===== verification/Derive.v ===== *)
(** * Derivation of automatic edges ([crates/embra-brain/src/knowledge/edges.rs])

    What a new document is linked to when it is written: the documents of its
    session, of its time, and those that share its tags, found through the
    database client ([Client]); the pairs of edges planned for them, and the
    check against the edges already stored. The lemmas say what a derivation
    can do to a database: it adds automatic edges of the new document, none to
    the document left out, and changes nothing else. *)

From S2P Require Import Prelude Bytes F64 Json Errors Externals Filter Secondary Sort Backend Storage Document Refinement Mutations Bulk History Text Edges Caps Guarantees Client.

Definition MEMORY_COLLECTIONS : list string := ["memory.entries"; "memory.semantic"; "memory.procedural"].
Definition EDGES : string := "memory.edges".

Record Candidate := { c_id : string; c_collection : string; c_created_at : string; c_tags : list string }.
(** The fields of [SystemConfig] a derivation reads. *)
Record DeriveConfig := { kg_edge_candidate_limit : Z; kg_temporal_window_secs : Z }.

(** [text.rs]: the strings of an array field. *)
Definition string_array (doc : Value) (key : string) : list string :=
  match get doc key ≫= as_array with Some arr => omap as_str arr | None => [] end.

(** Both are [(collection, id)]. *)
Definition skips (c : Candidate) (new_doc : NodeKey) (except : option NodeKey) : bool :=
  let key := (c_collection c, c_id c) in
  bool_decide (key = new_doc) || match except with Some x => bool_decide (key = x) | None => false end.
Definition doc_to_candidate (collection : string) (doc : Value) : option Candidate :=
  id ← get doc "_id" ≫= as_str;
  Some {| c_id := id; c_collection := collection; c_created_at := default EmptyString (get doc "created_at" ≫= as_str);
          c_tags := string_array doc "tags" |}.
(** The candidates of one kind that get edges: the first of each document
    that is not skipped. *)
Fixpoint distinct (new_doc : NodeKey) (except : option NodeKey) (seen : gset NodeKey) (l : list Candidate) : list Candidate :=
  match l with
  | [] => []
  | c :: l =>
      let key := (c_collection c, c_id c) in
      if skips c new_doc except then distinct new_doc except seen l
      else if decide (key ∈ seen) then distinct new_doc except seen l
      else c :: distinct new_doc except ({[key]} ∪ seen) l
  end.

Section derive.
Context `{SerdeJson} `{StorageSerde} `{RegexLib}.
Context (refusal : AppError -> string) (moments : nat -> Moment) (max_query_limit : Z).
(** chrono: an instant in nanoseconds from its text, and back. *)
Context (parse_rfc3339 : string -> option Z) (to_rfc3339 : Z -> string).

(** ** The edges planned *)

Definition edge_doc (a_id a_coll b_id b_coll : string) (t : EdgeType) (w : f64) (meta : Value) (created : string) : Value :=
  json_obj [("source_id", VString a_id); ("source_collection", VString a_coll); ("target_id", VString b_id);
            ("target_collection", VString b_coll); ("edge_type", VString (edge_type_str t)); ("weight", json_f64 w);
            ("metadata", meta); ("created_at", VString created)].
Definition push_bidirectional (new_doc : NodeKey) (c : Candidate) (t : EdgeType) (w : f64) (meta : Value) (now : string)
  : list Value :=
  [edge_doc new_doc.2 new_doc.1 (c_id c) (c_collection c) t w meta now;
   edge_doc (c_id c) (c_collection c) new_doc.2 new_doc.1 t w meta now].

(** [num_seconds] of a difference, as a distance: whole seconds. *)
Definition distance (a b : Z) : Z := Z.abs (Z.quot (a - b) (10 ^ 9)).
Definition f64_le_zero (w : f64) : bool :=
  match f64_partial_cmp w f64_zero with Some Lt | Some Eq => true | _ => false end.
Definition temporal_weight (ts window : Z) (c : Candidate) : option (Z * f64) :=
  other ← parse_rfc3339 (c_created_at c);
  let dist := distance ts other in
  if (window <=? dist) || (window =? 0) then None
  else
    let w := f64_sub f64_one (f64_div (int_as_f64 dist) (int_as_f64 window)) in
    if f64_le_zero w then None else Some (dist, w).
Definition tag_weight (tags : list string) (c : Candidate) : option (Z * f64) :=
  let new_set : gset string := list_to_set tags in
  let other_set : gset string := list_to_set (c_tags c) in
  let overlap := Z.of_nat (size (new_set ∩ other_set)) in
  if overlap =? 0 then None
  else Some (overlap, f64_div (int_as_f64 overlap) (int_as_f64 (Z.max (Z.of_nat (size new_set)) (Z.of_nat (size other_set))))).

Definition plan_edges (new_doc : NodeKey) (except : option NodeKey) (session : string) (tags : list string) (new_ts : option Z)
    (window : Z) (now : string) (by_session by_time by_tag : list Candidate) : list Value :=
  (distinct new_doc except ∅ by_session ≫= fun c =>
     push_bidirectional new_doc c SameSession f64_one (json_obj [("session", VString session)]) now) ++
  match new_ts with
  | Some ts =>
      distinct new_doc except ∅ by_time ≫= fun c =>
        match temporal_weight ts window c with
        | Some (dist, w) => push_bidirectional new_doc c Temporal w
                              (json_obj [("distance_secs", json_int dist); ("window_secs", json_int window)]) now
        | None => []
        end
  | None => []
  end ++
  (distinct new_doc except ∅ by_tag ≫= fun c =>
     match tag_weight tags c with
     | Some (overlap, w) => push_bidirectional new_doc c TagOverlap w (json_obj [("overlap_count", json_int overlap)]) now
     | None => []
     end).

(** ** The edges stored *)

(** Source, target and type; not the collections. *)
Definition edge_key (edge : Value) : string * string * string :=
  let field key := default EmptyString (get edge key ≫= as_str) in
  (field "source_id", field "target_id", field "edge_type").
Definition other_ends (doc_id : string) (planned : list Value) : list string :=
  sort_by str_cmp (remove_dups (omap (fun edge =>
    source ← get edge "source_id" ≫= as_str;
    target ← get edge "target_id" ≫= as_str;
    Some (if bool_decide (source = doc_id) then target else source)) planned)).

Abbreviation query := (db_query refusal moments max_query_limit).
Definition existing_arm (arm : string) (filter : Value) (limit : Z) : Client string (list Value) :=
  docs ← query EDGES (json_obj [("filter", filter); ("limit", json_int limit)]);
  if limit <=? lenZ docs
  then client_lift (Err ("the window of " +:+ pretty limit +:+ " stored edges filled on the " +:+ arm +:+ " arm"))
  else mret docs.
Definition existing_edges (doc_id : string) (ends : list string) (planned : Z)
  : Client string (gset (string * string * string)) :=
  let limit := planned + 1 in
  out ← existing_arm "out" (json_obj [("source_id", VString doc_id); ("target_id", json_obj [("$in", json_strings ends)])]) limit;
  inn ← existing_arm "in" (json_obj [("source_id", json_obj [("$in", json_strings ends)]); ("target_id", VString doc_id)]) limit;
  mret (list_to_set (edge_key <$> out ++ inn)).

(** ** The derivation *)

(** A read that fails finds nothing. *)
Definition found (coll : string) (filter : Value) (config : DeriveConfig) : Client string (list Candidate) :=
  r ← client_try (query coll (json_obj [("filter", filter); ("sort", VArray [json_obj [("created_at", VString "desc")]]);
                                        ("limit", json_int (kg_edge_candidate_limit config))]));
  mret (match r with Ok docs => omap (doc_to_candidate coll) docs | Err _ => [] end).
Fixpoint found_by_tags (coll : string) (tags : list string) (config : DeriveConfig) : Client string (list Candidate) :=
  match tags with
  | [] => mret []
  | tag :: tags =>
      if bool_decide (tag = EmptyString) then found_by_tags coll tags config
      else
        l ← found coll (json_obj [("tags", json_obj [("$contains", VString tag)])]) config;
        k ← found_by_tags coll tags config;
        mret (l ++ k)
  end.
Definition found_by_time (coll : string) (new_ts : option Z) (config : DeriveConfig) : Client string (list Candidate) :=
  match new_ts with
  | Some ts =>
      let reach := as_i64 (kg_temporal_window_secs config) * 10 ^ 9 in
      found coll (json_obj [("created_at", json_obj [("$gte", VString (to_rfc3339 (ts - reach)));
                                                     ("$lte", VString (to_rfc3339 (ts + reach)))])]) config
  | None => mret []
  end.
Fixpoint gather (colls : list string) (session : string) (tags : list string) (new_ts : option Z) (config : DeriveConfig)
  : Client string (list Candidate * list Candidate * list Candidate) :=
  match colls with
  | [] => mret ([], [], [])
  | coll :: colls =>
      let session_field := if bool_decide (coll = "memory.entries") then "session" else "source_session" in
      s ← found coll (json_obj [(session_field, VString session)]) config;
      t ← found_by_time coll new_ts config;
      g ← found_by_tags coll tags config;
      rest ← gather colls session tags new_ts config;
      mret (s ++ rest.1.1, t ++ rest.1.2, g ++ rest.2)
  end.

(** A failure of the last two reads or of the write is logged, and nothing
    counts as written. *)
Definition derive_edges_inner (new_doc : NodeKey) (session : string) (tags : list string) (created : string)
    (config : DeriveConfig) (except : option NodeKey) : Client string Z :=
  let new_ts := parse_rfc3339 created in
  candidates ← gather MEMORY_COLLECTIONS session tags new_ts config;
  now ← utc_now moments;
  let planned := plan_edges new_doc except session tags new_ts (as_i64 (kg_temporal_window_secs config)) now
                   candidates.1.1 candidates.1.2 candidates.2 in
  match planned with
  | [] => mret 0
  | _ =>
      r ← client_try (existing_edges new_doc.2 (other_ends new_doc.2 planned) (lenZ planned));
      match r with
      | Err _ => mret 0
      | Ok stored =>
          match List.filter (fun edge => negb (bool_decide (edge_key edge ∈ stored))) planned with
          | [] => mret 0
          | new_edges =>
              w ← client_try (db_bulk_write refusal moments EDGES new_edges);
              mret (match w with Ok n => n | Err _ => 0 end)
          end
      end
  end.
Definition derive_edges_except (new_doc : NodeKey) (session : string) (tags : list string) (created : string)
    (config : DeriveConfig) (except : option NodeKey) : Client string Z :=
  r ← client_try (derive_edges_inner new_doc session tags created config except);
  mret (match r with Ok n => n | Err _ => 0 end).
Definition derive_edges (new_doc : NodeKey) (session : string) (tags : list string) (created : string) (config : DeriveConfig) :=
  derive_edges_except new_doc session tags created config None.
End derive.

(** ** What a derivation plans *)

Section planned.
Context `{SerdeJson} `{!SerdeLaws} `{StorageSerde} `{RegexLib}.
Context (parse_rfc3339 : string -> option Z).

(** An automatic edge between two documents. *)
Definition auto_edge (doc : Value) (a b : NodeKey) : Prop :=
  exists t w meta now, doc = edge_doc a.2 a.1 b.2 b.1 t w meta now /\ is_auto_derived t = true.
(** An edge between the new document and one that is neither it nor the one
    left out. *)
Definition planned_edge (new_doc : NodeKey) (except : option NodeKey) (doc : Value) : Prop :=
  exists k, k <> new_doc /\ Some k <> except /\ (auto_edge doc new_doc k \/ auto_edge doc k new_doc).

Lemma distinct_ok new_doc except seen l c : c ∈ distinct new_doc except seen l -> skips c new_doc except = false.
Proof.
  revert seen; induction l as [|x l IH]; intros seen; cbn; [by intros ?%elem_of_nil|].
  destruct (skips x new_doc except) eqn:E; [apply IH|]. case_decide; [apply IH|]. intros [->|Hc]%elem_of_cons; [done|by eapply IH].
Qed.
Lemma skips_false c new_doc except : skips c new_doc except = false ->
  (c_collection c, c_id c) <> new_doc /\ Some (c_collection c, c_id c) <> except.
Proof.
  unfold skips. intros [?%bool_decide_eq_false E]%orb_false_iff. split; [done|]. destruct except; [|done].
  apply bool_decide_eq_false in E. congruence.
Qed.
Lemma push_planned new_doc except seen l c t w meta now doc :
  c ∈ distinct new_doc except seen l -> doc ∈ push_bidirectional new_doc c t w meta now -> is_auto_derived t = true -> planned_edge new_doc except doc.
Proof.
  intros [Hn He]%distinct_ok%skips_false Hd Ht. exists (c_collection c, c_id c). split_and!; [done..|].
  unfold push_bidirectional in Hd. rewrite elem_of_cons, list_elem_of_singleton in Hd.
  destruct Hd as [->| ->]; [left|right]; by exists t, w, meta, now.
Qed.
Lemma plan_planned new_doc except session tags ts window now s t g :
  Forall (planned_edge new_doc except) (plan_edges parse_rfc3339 new_doc except session tags ts window now s t g).
Proof.
  apply Forall_forall. intros doc. unfold plan_edges. rewrite !elem_of_app.
  intros [(c & Hd & Hc)%list_elem_of_bind|[Ht|(c & Hd & Hc)%list_elem_of_bind] ].
  - by eapply (push_planned _ _ _ _ _ _ _ _ _ _ Hc Hd).
  - destruct ts as [ts|]; [|by apply elem_of_nil in Ht]. apply list_elem_of_bind in Ht as (c & Hd & Hc).
    destruct (temporal_weight _ _ _ _) as [ [] |]; [|by apply elem_of_nil in Hd]. by eapply (push_planned _ _ _ _ _ _ _ _ _ _ Hc Hd).
  - destruct (tag_weight _ _) as [ [] |]; [|by apply elem_of_nil in Hd]. by eapply (push_planned _ _ _ _ _ _ _ _ _ _ Hc Hd).
Qed.

(** A planned edge as the database stores it, and as it is read. *)
Lemma auto_edge_parses doc a b id now : auto_edge doc a b -> exists obj e, doc = VObject obj /\ map_get "_id" obj = None /\
  parse_edge (VObject (stamp_new id now (map_remove "_id" obj))) = Some e /\ e_id e = Some id /\ is_auto_derived (e_type e) = true /\
  (source_collection e, source_id e) = a /\ (target_collection e, target_id e) = b.
Proof.
  intros (t & w & meta & created & -> & Ht). destruct a, b. destruct t; try discriminate Ht; eexists _, _; by split_and!.
Qed.
Lemma auto_edge_key doc a b id now obj : auto_edge doc a b -> doc = VObject obj ->
  edge_key (VObject (stamp_new id now (map_remove "_id" obj))) = edge_key doc /\ (edge_key doc).1 = (a.2, b.2).
Proof.
  intros (t & w & meta & created & -> & Ht) E. unfold edge_doc, json_obj in *. injection E as <-. done.
Qed.
End planned.

(** ** What a derivation writes *)

Section writes.
Context `{SerdeJson} `{!SerdeLaws} `{StorageSerde} `{RegexLib}.

Lemma seq_inserts_adds (now uuid : nat -> string) documents : forall i docs, Inj (=) (=) uuid ->
  (forall j, (i <= j)%nat -> docs !! uuid j = None) ->
  Forall (fun doc => exists obj, doc = VObject obj /\ map_get "_id" obj = None) documents ->
  let docs' := (seq_inserts now uuid i documents docs).2 in
  docs ⊆ docs' /\ forall id doc, docs' !! id = Some doc -> docs !! id = None ->
    exists obj j, VObject obj ∈ documents /\ doc = VObject (stamp_new id (now j) (map_remove "_id" obj)).
Proof.
  induction documents as [|doc documents IH]; intros i docs Hinj Hf Hd; cbn [seq_inserts].
  { split; [done|]. cbn. congruence. }
  apply Forall_cons in Hd as [(obj & -> & Hid) Hd].
  destruct (insert_docs (now i) (uuid i) (VObject obj) docs) as [r docs1] eqn:E.
  assert (Hc1 : docs1 = docs \/ docs1 = <[uuid i := VObject (stamp_new (uuid i) (now i) (map_remove "_id" obj))]> docs).
  { revert E. unfold insert_docs, spec_id. cbn [as_object]. rewrite Hid. destruct (sized_bytes _); intros [= <- <-]; auto. }
  assert (Hf1 : forall j, (S i <= j)%nat -> docs1 !! uuid j = None).
  { intros j Hj. destruct Hc1 as [->| ->]; [apply Hf; lia|]. rewrite lookup_insert_ne; [apply Hf; lia|]. intros ?%Hinj. lia. }
  specialize (IH (S i) docs1 Hinj Hf1 Hd). destruct (seq_inserts now uuid (S i) documents docs1) as [rs docs2]. cbn in *.
  destruct IH as [Hs Hn]. assert (Hs1 : docs ⊆ docs1).
  { destruct Hc1 as [->| ->]; [done|]. apply insert_subseteq, Hf. lia. }
  split; [by etransitivity|]. intros id doc Hc2 Hc0. destruct (docs1 !! id) as [doc'|] eqn:Ed1.
  - rewrite (lookup_weaken docs1 docs2 id doc') in Hc2 by done. injection Hc2 as <-.
    destruct Hc1 as [->| ->]; [congruence|]. destruct (decide (uuid i = id)) as [<-|Hne].
    + rewrite lookup_insert_eq in Ed1. injection Ed1 as <-. exists obj, i. split; [by left|done].
    + rewrite lookup_insert_ne in Ed1 by done. congruence.
  - destruct (Hn id doc Hc2 Ed1) as (obj' & j & Hin & ->). exists obj', j. split; [by right|done].
Qed.

(** A generator of identifiers that never repeats one. *)
Definition fresh (m : Moment) : Prop := forall d, Inj (=) (=) (fresh_ids m d) /\ forall c n, at_doc d c (fresh_ids m d n) = None.

Lemma bulk_adds (P : string -> string -> Value -> Prop) m c documents d : fresh m ->
  Forall (fun doc => exists obj, doc = VObject obj /\ map_get "_id" obj = None /\
            forall id now, P c id (VObject (stamp_new id now (map_remove "_id" obj)))) documents ->
  adds P d (spec_bulk (fun _ => clock m) (fresh_ids m d) c documents d).2.
Proof.
  intros Hf Hd. destruct (Hf d) as [Hinj Hnew]. unfold spec_bulk, on_docs. destruct (_ <? _); [apply adds_refl|].
  destruct (d !! c) as [docs|] eqn:Hc; [|apply adds_refl]. cbn [snd].
  destruct (seq_inserts_adds (fun _ => clock m) (fresh_ids m d) documents 0 docs Hinj) as [Hs Hn].
  { intros j _. specialize (Hnew c j). unfold at_doc in Hnew. by rewrite Hc in Hnew. }
  { eapply Forall_impl; [exact Hd|]. intros doc (obj & -> & Ho & _). eauto. }
  split; intros c' id doc; rewrite at_insert; (case_decide as E; [subst c'|congruence]); unfold at_doc; rewrite Hc; cbn.
  - intros Hid. by eapply lookup_weaken.
  - intros Hc1 Hc0. destruct (Hn id doc Hc1 Hc0) as (obj & j & Hin & ->). rewrite Forall_forall in Hd.
    destruct (Hd _ Hin) as (obj' & [= <-] & _ & HP). apply HP.
Qed.
End writes.

Section derived.
Context `{SerdeJson} `{!SerdeLaws} `{StorageSerde} `{RegexLib}.
Context (refusal : AppError -> string) (moments : nat -> Moment) (max_query_limit : Z).
Context (parse_rfc3339 : string -> option Z) (to_rfc3339 : Z -> string).
Context (P : string -> string -> Value -> Prop) (Hothers : forall k d, adds P d (others (moments k) d)).

Lemma grows_found coll filter config : grows P (found refusal moments max_query_limit coll filter config).
Proof. unfold found. auto with adds. Qed.
Hint Resolve grows_found : adds.
Lemma grows_tags coll tags config : grows P (found_by_tags refusal moments max_query_limit coll tags config).
Proof. induction tags as [|tag tags IH]; cbn; [auto with adds|]. case_bool_decide; auto 6 with adds. Qed.
Lemma grows_time coll ts config : grows P (found_by_time refusal moments max_query_limit to_rfc3339 coll ts config).
Proof. unfold found_by_time. destruct ts; auto with adds. Qed.
Hint Resolve grows_tags grows_time : adds.
Lemma grows_gather colls session tags ts config :
  grows P (gather refusal moments max_query_limit to_rfc3339 colls session tags ts config).
Proof. induction colls as [|coll colls IH]; cbn; auto 10 with adds. Qed.
Lemma grows_arm arm filter limit : grows P (existing_arm refusal moments max_query_limit arm filter limit).
Proof. unfold existing_arm. apply adds_bind; [auto with adds|]. intros l. destruct (_ <=? _); auto with adds. Qed.
Hint Resolve grows_arm : adds.
Lemma grows_existing doc_id ends n : grows P (existing_edges refusal moments max_query_limit doc_id ends n).
Proof. unfold existing_edges. auto 6 with adds. Qed.

(** The derivation writes at most some of the edges it plans. *)
Lemma grows_derive new_doc session tags created config except : (forall k, fresh (moments k)) ->
  (forall obj id now, planned_edge new_doc except (VObject obj) -> P EDGES id (VObject (stamp_new id now (map_remove "_id" obj)))) ->
  grows P (derive_edges_except refusal moments max_query_limit parse_rfc3339 to_rfc3339 new_doc session tags created config except).
Proof.
  intros Hf HP. unfold derive_edges_except. apply adds_bind; [|auto with adds]. apply adds_try. unfold derive_edges_inner.
  apply adds_bind; [apply grows_gather|]. intros [[s t] g]. apply adds_bind; [auto with adds|]. intros now. cbn [fst snd].
  pose proof (plan_planned parse_rfc3339 new_doc except session tags (parse_rfc3339 created) (as_i64 (kg_temporal_window_secs config)) now s t g) as Hp.
  destruct (plan_edges _ _ _ _ _ _ _ _ _ _ _) as [|p planned]; [auto with adds|].
  apply adds_bind; [apply adds_try, grows_existing|]. intros [stored|]; [|auto with adds].
  assert (Hn : Forall (planned_edge new_doc except) (List.filter (fun edge => negb (bool_decide (edge_key edge ∈ stored))) (p :: planned))).
  { rewrite Forall_forall in *. intros x [Hx _]%elem_of_List_filter. by apply Hp. }
  destruct (List.filter _ _) as [|e edges]; [auto with adds|]. apply adds_bind; [|auto with adds]. apply adds_try.
  unfold db_bulk_write. apply adds_bind; [|auto with adds]. apply adds_request; [done|]. intros k d. apply bulk_adds; [done|].
  eapply Forall_impl; [exact Hn|]. intros doc Hd. pose proof Hd as (b & _ & _ & [Ha|Ha]);
    destruct (auto_edge_parses doc _ _ EmptyString EmptyString Ha) as (obj & _ & -> & Ho & _); exists obj; auto.
Qed.
End derived.

(** ** No edge twice *)

Section duplicates.
Context `{SerdeJson} `{!SerdeLaws} `{StorageSerde} `{RegexLib}.
Context (refusal : AppError -> string) (moments : nat -> Moment) (max_query_limit : Z).
Context (parse_rfc3339 : string -> option Z) (to_rfc3339 : Z -> string).
Context (Hmax : max_query_limit < 2 ^ 64).
(** The other clients may add documents, of some kind, at any time. *)
Context (O : string -> string -> Value -> Prop) (Hothers : forall k d, adds O d (others (moments k) d)).

(** *** How many edges are planned *)

Lemma query_length body docs l n : query_window max_query_limit body docs = Ok l ->
  get body "limit" = Some (VNumber (PosInt n)) -> 0 <= n < 2 ^ 64 -> lenZ l <= n.
Proof.
  intros Hw Hl Hn. unfold query_window in Hw. rewrite Hl in Hw. cbn in Hw.
  apply bind_ok in Hw as (fo & _ & Hw). apply bind_ok in Hw as (sort & _ & [= <-]). rewrite num_as_u64_pos by done. cbn.
  rewrite takeZ_take. unfold lenZ. rewrite length_take. lia.
Qed.
Context (config : DeriveConfig) (Hlimit : 0 <= kg_edge_candidate_limit config < 2 ^ 64).
Lemma found_length coll filter w l w' : found refusal moments max_query_limit coll filter config w = (Ok l, w') ->
  lenZ l <= kg_edge_candidate_limit config.
Proof.
  unfold found, mbind, client_bind, client_try. destruct (db_query _ _ _ _ _ w) as [[docs|e] w1] eqn:E; intros [= <- <-]; [|unfold lenZ; cbn [length]; lia].
  destruct (query_inv _ _ _ _ _ _ _ _ E) as (stored & _ & Hq & _). apply (query_length _ _ _ (kg_edge_candidate_limit config)) in Hq; [|done..].
  pose proof (length_omap_le (doc_to_candidate coll) docs). unfold lenZ in *. lia.
Qed.
Lemma bind_inv {E A B} (m : Client E A) (f : A -> Client E B) w b w' : (m ≫= f) w = (Ok b, w') ->
  exists a w1, m w = (Ok a, w1) /\ f a w1 = (Ok b, w').
Proof. unfold mbind, client_bind. destruct (m w) as [[a|e] w1]; [eauto|done]. Qed.
Lemma tags_length coll tags w l w' : found_by_tags refusal moments max_query_limit coll tags config w = (Ok l, w') ->
  lenZ l <= lenZ tags * kg_edge_candidate_limit config.
Proof.
  revert w l w'. induction tags as [|tag tags IH]; intros w l w'; cbn; [intros [= <- <-]; unfold lenZ; cbn [length]; lia|].
  case_bool_decide.
  - intros E%IH. unfold lenZ in *. cbn [length]. lia.
  - intros (l1 & w1 & E1%found_length & (l2 & w2 & E2%IH & [= <- <-])%bind_inv)%bind_inv.
    rewrite lenZ_app. unfold lenZ in *. cbn [length]. lia.
Qed.
Lemma gather_length colls session tags ts w s t g w' :
  gather refusal moments max_query_limit to_rfc3339 colls session tags ts config w = (Ok (s, t, g), w') ->
  lenZ s + lenZ t + lenZ g <= lenZ colls * (2 + lenZ tags) * kg_edge_candidate_limit config.
Proof.
  revert w s t g w'. induction colls as [|coll colls IH]; intros w s t g w'; cbn [gather]; [intros [= <- <- <- <-]; unfold lenZ; cbn [length]; lia|].
  intros (s1 & w1 & E1%found_length & (t1 & w2 & E2 & (g1 & w3 & E3%tags_length & ([[s2 t2] g2] & w4 & E4%IH & [= <- <- <- <-])%bind_inv)%bind_inv)%bind_inv)%bind_inv.
  assert (lenZ t1 <= kg_edge_candidate_limit config).
  { destruct ts; cbn in E2; [by apply found_length in E2|]. injection E2 as <- <-. unfold lenZ. cbn [length]. lia. }
  cbn [fst snd]. rewrite !lenZ_app. unfold lenZ in *. cbn [length]. nia.
Qed.
Lemma distinct_length new_doc except seen l : (length (distinct new_doc except seen l) <= length l)%nat.
Proof.
  revert seen; induction l as [|c l IH]; intros seen; cbn; [lia|]. destruct (skips _ _ _); [specialize (IH seen); lia|].
  case_decide; cbn; [specialize (IH seen)|specialize (IH ({[(c_collection c, c_id c)]} ∪ seen))]; lia.
Qed.
Lemma bind_length {A B} (f : A -> list B) l n : (forall x, length (f x) <= n)%nat -> (length (l ≫= f) <= n * length l)%nat.
Proof. intros Hf. induction l as [|x l IH]; cbn; [lia|]. rewrite length_app. specialize (Hf x). lia. Qed.
Lemma plan_length new_doc except session tags ts window now s t g :
  lenZ (plan_edges parse_rfc3339 new_doc except session tags ts window now s t g) <= 2 * (lenZ s + lenZ t + lenZ g).
Proof.
  assert (Hb : forall (f : Candidate -> list Value) l, (forall c, length (f c) <= 2)%nat -> (length (distinct new_doc except ∅ l ≫= f) <= 2 * length l)%nat).
  { intros f l Hf. pose proof (bind_length f (distinct new_doc except ∅ l) 2 Hf). pose proof (distinct_length new_doc except ∅ l). lia. }
  unfold plan_edges. rewrite !lenZ_app. unfold lenZ.
  assert (Ht : (length (match ts with Some ts => distinct new_doc except ∅ t ≫= fun c =>
      match temporal_weight parse_rfc3339 ts window c with
      | Some (dist, w) => push_bidirectional new_doc c Temporal w (json_obj [("distance_secs", json_int dist); ("window_secs", json_int window)]) now
      | None => [] end | None => [] end) <= 2 * length t)%nat).
  { destruct ts; [|unfold lenZ; cbn [length]; lia]. apply Hb. intros c. destruct (temporal_weight _ _ _ _) as [[]|]; cbn; lia. }
  pose proof (Hb (fun c => push_bidirectional new_doc c SameSession f64_one (json_obj [("session", VString session)]) now) s ltac:(intros ?; cbn; lia)).
  match goal with |- context [distinct new_doc except ∅ g ≫= ?f] => pose proof (Hb f g) as Hg end.
  assert (length _ <= 2 * length g)%nat as Hg' by (apply Hg; intros c; destruct (tag_weight _ _) as [[]|]; cbn; lia).
  lia.
Qed.

(** *** What the check sees *)

Lemma eq_entry m k s : count_char dot k = 0 -> k <> "$and" -> k <> "$or" -> k <> "$not" ->
  get (VObject m) k = Some (VString s) -> entry_sem (VObject m) (k, VString s) = true.
Proof. intros ???? Hg. rewrite entry_plain by done. rewrite Hg. cbn. by rewrite bool_decide_true. Qed.
Lemma in_entry m k s ends : count_char dot k = 0 -> k <> "$and" -> k <> "$or" -> k <> "$not" ->
  get (VObject m) k = Some (VString s) -> s ∈ ends -> entry_sem (VObject m) (k, json_obj [("$in", json_strings ends)]) = true.
Proof.
  intros ???? Hg Hs. rewrite entry_plain by done. rewrite Hg. cbn [json_obj foldl map_insert field_sem forallb]. rewrite andb_true_r.
  change (existsb (fun v => values_equal (VString s) v) (VString <$> ends) = true). rewrite strings_in. by apply bool_decide_eq_true.
Qed.

Lemma bind_run {E A B} (m : Client E A) (f : A -> Client E B) w :
  ((m ≫= f) w).2 = match m w with (Ok a, w1) => (f a w1).2 | (Err _, w1) => w1 end.
Proof. unfold mbind, client_bind. by destruct (m w) as [[a|e] w1]. Qed.
Lemma try_run {E F A B} (m : Client E A) (f : result E A -> B) w :
  ((client_try (F := F) m ≫= fun r => mret (f r)) w).2 = (m w).2.
Proof. unfold mbind, client_bind, client_try. by destruct (m w). Qed.

Lemma arm_complete arm filter n w l w' : existing_arm refusal moments max_query_limit arm filter n w = (Ok l, w') ->
  0 <= n <= max_query_limit ->
  forall id m, at_doc (database w) EDGES id = Some (VObject m) -> filter_sem (VObject m) filter = true -> VObject m ∈ l.
Proof.
  intros (docs & w1 & E & Hl)%bind_inv Hn. destruct (Z.leb_spec n (lenZ docs)); [done|]. injection Hl as <- <-.
  destruct (query_inv _ _ _ _ _ _ _ _ E) as (stored & Hs & Hq & _).
  intros id m Hm%(proj1 (Hothers (moment w) (database w))) Hf. unfold at_doc in Hm. rewrite Hs in Hm.
  eapply (window_complete _ _ _ _ filter n Hq); [done|done|lia..|]. eauto.
Qed.
Lemma existing_complete doc_id ends n w stored w' :
  existing_edges refusal moments max_query_limit doc_id ends n w = (Ok stored, w') -> 0 <= n -> n + 1 <= max_query_limit ->
  forall id m s t, at_doc (database w) EDGES id = Some (VObject m) ->
    get (VObject m) "source_id" = Some (VString s) -> get (VObject m) "target_id" = Some (VString t) ->
    (s = doc_id /\ t ∈ ends) \/ (s ∈ ends /\ t = doc_id) -> edge_key (VObject m) ∈ stored.
Proof.
  intros (out & w1 & E1 & (inn & w2 & E2 & [= <- <-])%bind_inv)%bind_inv Hpos Hn.
  pose proof (arm_complete _ _ _ _ _ _ E1 ltac:(lia)) as C1. pose proof (arm_complete _ _ _ _ _ _ E2 ltac:(lia)) as C2.
  intros id m s t Hm Hs Ht Hd. apply elem_of_list_to_set, list_elem_of_fmap. exists (VObject m). split; [done|].
  apply elem_of_app. destruct Hd as [ [-> Hin] | [Hin ->] ].
  - left. eapply C1; [done|].
    change (forallb (entry_sem (VObject m)) [("source_id", VString doc_id); ("target_id", json_obj [("$in", json_strings ends)])] = true).
    cbn [forallb]. by rewrite (eq_entry m _ _), (in_entry m _ t).
  - right. eapply (C2 id).
    { pose proof (grows_arm refusal moments max_query_limit O Hothers "out" (json_obj [("source_id", VString doc_id); ("target_id", json_obj [("$in", json_strings ends)])]) (n + 1) w) as [K _].
      rewrite E1 in K. by apply K. }
    change (forallb (entry_sem (VObject m)) [("source_id", json_obj [("$in", json_strings ends)]); ("target_id", VString doc_id)] = true).
    cbn [forallb]. by rewrite (eq_entry m _ _), (in_entry m _ s).
Qed.

Lemma edge_doc_ends a_id a_coll b_id b_coll t w meta now :
  get (edge_doc a_id a_coll b_id b_coll t w meta now) "source_id" = Some (VString a_id) /\
  get (edge_doc a_id a_coll b_id b_coll t w meta now) "target_id" = Some (VString b_id).
Proof. done. Qed.
Lemma other_end_in new_doc except planned doc k : Forall (planned_edge new_doc except) planned -> doc ∈ planned ->
  auto_edge doc new_doc k \/ auto_edge doc k new_doc -> k.2 ∈ other_ends new_doc.2 planned.
Proof.
  intros _ Hin Hd. unfold other_ends. rewrite sort_by_perm, elem_of_remove_dups, list_elem_of_omap. exists doc. split; [done|].
  destruct Hd as [(t & w & meta & now & -> & _)|(t & w & meta & now & -> & _)]; clear -k;
    match goal with |- context [edge_doc ?a ?b ?c ?d t w meta now] => destruct (edge_doc_ends a b c d t w meta now) as [-> ->] end;
    cbn; case_bool_decide; congruence.
Qed.

(** What a stored edge that parses is made of. *)
Lemma parsed_fields doc e : parse_edge doc = Some e -> exists m, doc = VObject m /\
  get doc "source_id" = Some (VString (source_id e)) /\ get doc "target_id" = Some (VString (target_id e)).
Proof.
  unfold parse_edge. intros (? & E0 & (? & _ & (? & E1%str_field_get & (? & E2 & (? & E3%str_field_get & (? & E4 & [= <-])%bind_Some)%bind_Some)%bind_Some)%bind_Some)%bind_Some)%bind_Some.
  destruct doc; try discriminate E1. eauto.
Qed.

Context (Hfresh : forall k, fresh (moments k)).
(** C19: A derivation adds only new automatic edges of its document. Whatever
    calls fail and whatever documents other clients add meanwhile (as long as
    none changes or removes one), every document stays as it was; every new
    one is another client's or an edge of one of the three automatic types
    between the new document and one that is neither it nor the one left out;
    and no edge stored before has the same end identifiers and type, provided
    the window of the duplicate check cannot be clamped: six times the
    candidate limit, for the session, the time and each tag, stays below the
    server's max_query_limit. The identifiers the server draws are new. *)
Theorem derivation_only_adds (new_doc : NodeKey) (session : string) (tags : list string) (created : string)
    (except : option NodeKey) (w : World) :
  let w' := (derive_edges_except refusal moments max_query_limit parse_rfc3339 to_rfc3339 new_doc session tags created config except w).2 in
  adds (fun c id doc => O c id doc \/ c = EDGES /\ exists e k, parse_edge doc = Some e /\ e_id e = Some id /\ is_auto_derived (e_type e) = true /\
      k <> new_doc /\ Some k <> except /\
      ((source_collection e, source_id e, (target_collection e, target_id e)) = (new_doc, k) \/
       (source_collection e, source_id e, (target_collection e, target_id e)) = (k, new_doc)) /\
      (6 * (2 + lenZ tags) * kg_edge_candidate_limit config < max_query_limit ->
       forall id0 doc0 e0, at_doc (database w) EDGES id0 = Some doc0 -> parse_edge doc0 = Some e0 -> edge_key doc0 <> edge_key doc))
    (database w) (database w').
Proof.
  cbn zeta. set (Q := fun c id doc => _). set (d0 := database w).
  assert (HO : forall d d', adds O d d' -> adds Q d d') by (intros d d'; apply adds_weaken; intros c id doc; by left).
  unfold derive_edges_except. rewrite try_run. unfold derive_edges_inner. rewrite bind_run.
  pose proof (grows_gather refusal moments max_query_limit to_rfc3339 O Hothers MEMORY_COLLECTIONS session tags
    (parse_rfc3339 created) config w) as Hg.
  destruct (gather _ _ _ _ _ _ _ _ _ w) as [[[[s t] g]|e] w1] eqn:Eg; [|by apply HO]. apply gather_length in Eg.
  rewrite bind_run. cbn [utc_now fst snd] in *. set (now := clock _). set (window := as_i64 _).
  pose proof (plan_planned parse_rfc3339 new_doc except session tags (parse_rfc3339 created) window now s t g) as Hp.
  pose proof (plan_length new_doc except session tags (parse_rfc3339 created) window now s t g) as Hl.
  assert (Hn : 6 * (2 + lenZ tags) * kg_edge_candidate_limit config < max_query_limit ->
    lenZ (plan_edges parse_rfc3339 new_doc except session tags (parse_rfc3339 created) window now s t g) + 1 <= max_query_limit).
  { change (lenZ MEMORY_COLLECTIONS) with 3 in Eg. lia. }
  clear Eg Hl. destruct (plan_edges _ _ _ _ _ _ _ _ _ _ _) as [|p planned]; [by apply HO|]. set (all := p :: planned) in *.
  rewrite bind_run. unfold client_try at 1.
  pose proof (grows_existing refusal moments max_query_limit O Hothers new_doc.2 (other_ends new_doc.2 all) (lenZ all) w1) as Hx.
  destruct (existing_edges _ _ _ _ _ _ w1) as [[stored|e] w2] eqn:Ex; [|by apply HO; eapply adds_trans]. cbn [snd] in Hx.
  pose proof (existing_complete _ _ _ _ _ _ Ex ltac:(unfold lenZ; lia)) as Hstored.
  destruct (List.filter _ all) as [|e edges] eqn:Hnew; [by apply HO; eapply adds_trans|].
  rewrite try_run. eapply adds_trans; [apply HO; eapply adds_trans; [exact Hg|exact Hx]|].
  assert (Hwrite : grows Q (db_bulk_write refusal moments EDGES (e :: edges))).
  { unfold db_bulk_write. apply adds_bind; [|auto with adds]. apply adds_request; [by auto|]. intros k d. apply bulk_adds; [done|].
    rewrite <-Hnew. apply Forall_forall. intros doc [Hin Hkey]%elem_of_List_filter. apply negb_true_iff, bool_decide_eq_false in Hkey.
    rewrite Forall_forall in Hp. destruct (Hp doc Hin) as (b & Hb & Hb' & Hd).
    assert (Hcase : exists x y, auto_edge doc x y /\ ((x, y) = (new_doc, b) \/ (x, y) = (b, new_doc))) by (destruct Hd; eauto).
    destruct Hcase as (x & y & Hxy & Hc). destruct (auto_edge_parses doc x y EmptyString EmptyString Hxy) as (obj & _ & -> & Ho & _).
    exists obj. split_and!; [done..|]. intros id now'. destruct (auto_edge_parses _ x y id now' Hxy) as (obj' & ed & [= <-] & _ & Hparse & Hid & Ha & Hs & Ht).
    right. split; [done|]. exists ed, b. rewrite Hs, Ht. split_and!; [done..|]. intros Hsize id0 doc0 e0 Hat Hp0.
    destruct (auto_edge_key _ x y id now' obj Hxy eq_refl) as [-> Hends]. intros Eq. apply Hkey. rewrite <-Eq.
    destruct (parsed_fields _ _ Hp0) as (m & -> & Fs & Ft).
    assert (Hst : (source_id e0, target_id e0) = (x.2, y.2)).
    { rewrite <-Hends, <-Eq. unfold edge_key. rewrite Fs, Ft. done. }
    injection Hst as Es Et. rewrite Es in Fs. rewrite Et in Ft.
    pose proof (other_end_in new_doc except all _ b (proj2 (Forall_forall _ _) Hp) Hin Hd) as Hend.
    apply (Hstored (Hn Hsize) id0 m x.2 y.2); [by apply (proj1 Hg)|done..|].
    destruct Hc as [ [= -> ->] | [= -> ->] ]; eauto. }
  exact (Hwrite w2).
Qed.
End duplicates.

(** ** A concrete database *)

Module DeriveDemo.
Import Ref Guarantees.RefStorage.

(** Identifiers longer than any in use. *)
Definition longest (d : db) : nat := max_list (String.length <$> ((map_to_list d).*2 ≫= fun docs => (map_to_list docs).*1)).
Fixpoint marks (n : nat) : string := match n with O => "u" | S n => "u" +:+ marks n end.
Definition next_ids (d : db) (n : nat) : string := marks (longest d + n).
Lemma marks_length n : String.length (marks n) = S n.
Proof. induction n as [|n IH]; [done|]. cbn [marks]. by rewrite str_cons_app, str_nil_app; cbn; rewrite IH. Qed.
Lemma next_ids_fresh why k : fresh {| clock := "t"; fresh_ids := next_ids; others := k; fate := why |}.
Proof.
  intros d. cbn. split.
  - intros i j E. apply (f_equal String.length) in E. unfold next_ids in E. rewrite !marks_length in E. lia.
  - intros c n. unfold at_doc. destruct (d !! c) as [docs|] eqn:Hc; [|done]. cbn. destruct (docs !! next_ids d n) as [doc|] eqn:Hd; [|done].
    exfalso. assert (Hle : (String.length (next_ids d n) <= longest d)%nat).
    { unfold longest. eapply max_list_elem_of_le, list_elem_of_fmap_2, list_elem_of_bind. exists docs. split.
      - apply list_elem_of_fmap. exists (next_ids d n, doc). split; [done|]. by apply elem_of_map_to_list.
      - apply list_elem_of_fmap. exists (c, docs). split; [done|]. by apply elem_of_map_to_list. }
    unfold next_ids in Hle. rewrite marks_length in Hle. lia.
Qed.

Definition quiet (n : nat) : Moment := {| clock := "t"; fresh_ids := next_ids; others := fun d => d; fate := Answered |}.
Definition instant (s : string) : option Z := Some (Z.of_nat (String.length s) * 10 ^ 9).
Definition node (id session created tag : string) : Value :=
  VObject [("_id", VString id); ("created_at", VString created); ("source_session", VString session); ("tags", json_strings [tag])].
Definition stored_edge (id src tgt type : string) (w : Z) : Value :=
  VObject [("_id", VString id); ("edge_type", VString type); ("source_collection", VString "memory.semantic"); ("source_id", VString src);
           ("target_collection", VString "memory.semantic"); ("target_id", VString tgt); ("weight", VNumber (PosInt w))].
(** [a] is new; [b] is of its session and has its tag, [c] has its tag, and
    [a] is linked to [b] already. *)
Definition nodes : gmap string Value :=
  list_to_map [("a", node "a" "s" "2026" "x"); ("b", node "b" "s" "202" "x"); ("c", node "c" "r" "20" "x"); ("d", node "d" "r" "2" "y")].
Definition before : World :=
  {| database := list_to_map [("memory.semantic", nodes);
       (EDGES, list_to_map [("e1", stored_edge "e1" "a" "b" "same_session" 1)])]; moment := 0 |}.
Definition config : DeriveConfig := {| kg_edge_candidate_limit := 50; kg_temporal_window_secs := 0 |}.
Definition derive (except : option NodeKey) : result string Z * World :=
  derive_edges_except app_error_display quiet 100000 instant pretty ("memory.semantic", "a") "s" ["x"] "2026" config except before.
Definition ends (w : World) : list (string * string * string) :=
  edge_key <$> stored_docs (default ∅ (database w !! EDGES)).
(** Its session with [b], once; its tag with [b] and, unless left out, [c]. *)
Example derive_all : (derive None).1 = Ok 5 /\ ends (derive None).2 =
  [("a", "b", "same_session"); ("b", "a", "same_session"); ("a", "b", "tag_overlap"); ("b", "a", "tag_overlap");
   ("a", "c", "tag_overlap"); ("c", "a", "tag_overlap")].
Proof. vm_compute. split; reflexivity. Qed.
Example derive_except : ends (derive (Some ("memory.semantic", "c"))).2 =
  [("a", "b", "same_session"); ("b", "a", "same_session"); ("a", "b", "tag_overlap"); ("b", "a", "tag_overlap")].
Proof. vm_compute. reflexivity. Qed.

(** The window of the check holds one edge more than are planned, of any
    type: three links from [a] to [b] fill it, and their session goes
    unrecorded. *)
Definition linked : World :=
  {| database := list_to_map [("memory.semantic", list_to_map [("a", node "a" "s" "2026" "x"); ("b", node "b" "s" "202" "y")]);
       (EDGES, list_to_map [("e1", stored_edge "e1" "a" "b" "refines" 1); ("e2", stored_edge "e2" "a" "b" "enables" 1);
                            ("e3", stored_edge "e3" "a" "b" "related_to" 1)])]; moment := 0 |}.
Example links_fill_the_window : let '(r, w) := derive_edges_except app_error_display quiet 100000 instant pretty ("memory.semantic", "a") "s" ["x"]
    "2026" config None linked in
  r = Ok 0 /\ ends w = [("a", "b", "refines"); ("a", "b", "enables"); ("a", "b", "related_to")].
Proof. vm_compute. repeat split. Qed.

Lemma derivation_only_adds_witness : 6 * (2 + lenZ ["x"]) * kg_edge_candidate_limit config < 100000 /\
  forall id doc, at_doc (database (derive None).2) EDGES id = Some doc -> at_doc (database before) EDGES id = None ->
    edge_key doc <> ("a", "b", "same_session").
Proof.
  assert (Hsize : 6 * (2 + lenZ ["x"]) * kg_edge_candidate_limit config < 100000) by reflexivity. split; [exact Hsize|].
  intros id doc Hd Hn.
  pose proof (derivation_only_adds app_error_display quiet 100000 instant pretty ltac:(reflexivity) (fun _ _ _ => False) (fun k d => adds_refl _ d) config
    ltac:(split; [discriminate|reflexivity]) (fun k => next_ids_fresh Answered (fun d => d)) ("memory.semantic", "a") "s" ["x"] "2026" None before) as [_ Hadds].
  destruct (Hadds EDGES id doc Hd Hn) as [[]|(_ & e & k & _ & _ & _ & _ & _ & _ & Hnew)].
  intros E. apply (Hnew Hsize "e1" (stored_edge "e1" "a" "b" "same_session" 1) _ ltac:(vm_compute; reflexivity) ltac:(vm_compute; reflexivity)). by rewrite E.
Defined.
End DeriveDemo.
