(* ===== verification/Merge.v ===== *)
(** * The merge of two knowledge nodes ([crates/embra-brain/src/knowledge/merge.rs])

    [knowledge_merge]: the plan, which classifies every edge of the node that
    goes and resolves its conflicts with the edges of the node that stays, and
    the seven steps that carry it out through the database client ([Client]),
    with the re-embedding of [embedding/write.rs]. A report is the JSON value
    that is rendered. The theorems are in
    [Decided] (the plan) and [Merged] (the runs). *)

From S2P Require Import Prelude Bytes F64 Json Errors Externals Filter Secondary Sort Backend Storage Document Refinement Mutations Bulk History Text Edges Caps Client Derive.

Definition MERGE_EDGE_ARM_LIMIT : Z := 10000.
Definition MERGE_DELETE_CHUNK : nat := 100.
Definition merged_from_marker (source : string) : string := "## Merged from " +:+ source.

Definition newline : string := String (Ascii.ascii_of_nat 10) EmptyString.

(** ** Arguments *)

Inductive MergeStrategy := KeepTarget | MergeTags | MergeContent.
#[export] Instance MergeStrategy_eq : EqDecision MergeStrategy.
Proof. solve_decision. Defined.
Definition strategy_str (s : MergeStrategy) : string :=
  match s with KeepTarget => "keep_target" | MergeTags => "merge_tags" | MergeContent => "merge_content" end.
Record KnowledgeMergeArgs := {
  a_source_collection : string;
  a_source_id : string;
  a_target_collection : string;
  a_target_id : string;
  strategy : MergeStrategy;
  dry_run : bool;
}.

(** [to_lowercase] against names without k: ASCII case is enough to accept;
    in the message of a refusal other letters keep their case here. *)
Definition resolve_kg_collection (name : string) : result string string :=
  let n := ascii_lowercase (trim name) in
  if bool_decide (n ∈ ["semantic"; "memory.semantic"]) then Ok "memory.semantic"
  else if bool_decide (n ∈ ["procedural"; "memory.procedural"]) then Ok "memory.procedural"
  else Err ("collection '" +:+ n +:+ "' not supported — only memory.semantic or memory.procedural (identity.graph is projection-managed; use forget for memory.entries)").
Definition rejected (e : string) : string := "knowledge_merge rejected: " +:+ e.
Definition validate_merge_args (args : KnowledgeMergeArgs) : result string (string * string * string) :=
  let? src_coll := map_err rejected (resolve_kg_collection (a_source_collection args)) in
  let? tgt_coll := map_err rejected (resolve_kg_collection (a_target_collection args)) in
  if negb (bool_decide (src_coll = tgt_coll)) then
    Err (rejected ("cross-kind merge (" +:+ src_coll +:+ " → " +:+ tgt_coll +:+ ") — semantic and procedural nodes cannot be merged into each other"))
  else
    let src_id := trim (a_source_id args) in
    let tgt_id := trim (a_target_id args) in
    if bool_decide (src_id = EmptyString) || bool_decide (tgt_id = EmptyString) then Err (rejected "source_id and target_id are required")
    else if bool_decide (src_id = tgt_id) then Err (rejected "self-merge (source and target are the same node)")
    else if bool_decide (strategy args = MergeContent) && bool_decide (src_coll = "memory.procedural") then
      Err (rejected "merge_content is not supported for memory.procedural (structured steps cannot be textually merged) — fold what you need into the target with knowledge_update first, then merge with keep_target")
    else Ok (src_coll, src_id, tgt_id).

(** The edge leaves the node; the other end; the type. *)
Abbreviation ConflictKey := (bool * (string * (string * string)))%type.

Section plan.
Context `{SerdeJson}.

(** ** Patches and filters *)

Definition merge_arm_bodies (coll id : string) : Value * Value :=
  (edge_query_body (source_arm_filter coll id None None) MERGE_EDGE_ARM_LIMIT,
   edge_query_body (target_arm_filter coll id None None) MERGE_EDGE_ARM_LIMIT).
Definition redirect_patch (src_side_is_source : bool) (tgt : NodeKey) : Value :=
  if src_side_is_source then json_obj [("source_id", VString tgt.2); ("source_collection", VString tgt.1)]
  else json_obj [("target_id", VString tgt.2); ("target_collection", VString tgt.1)].
Definition promoted_repair_patch (tgt : NodeKey) : Value :=
  json_obj [("promoted_to", json_obj [("collection", VString tgt.1); ("id", VString tgt.2)])].
Definition edge_ids_delete_filter (chunk : list string) : Value := json_obj [("_id", json_obj [("$in", json_strings chunk)])].

Definition union_tags (tgt src : list string) : list string * list string :=
  foldl (fun '(unioned, added) t => if bool_decide (t ∈ unioned) then (unioned, added) else (unioned ++ [t], added ++ [t]))
    (tgt, []) src.
Definition contains (s p : string) : bool := bool_decide (is_Some (str_from p s)).
Definition plan_content (tgt_content src_content src_id : string) : option string * option string :=
  let marker := merged_from_marker src_id in
  if contains tgt_content marker then
    (None, Some ("target already contains " +:+ quote +:+ marker +:+ quote +:+ " — content append skipped (re-run guard)"))
  else (Some (tgt_content +:+ newline +:+ newline +:+ marker +:+ newline +:+ newline +:+ src_content), None).

(** ** The classification of the edges *)

Record EdgeDisposition := {
  redirects : list (string * Value);
  delete_conflict_target : list string;
  drop_ids : list string;
  drop_auto : Z;
  drop_self_pair : Z;
  drop_conflict_source : Z;
  derived_from_entry_ids : list string;
  warnings : list string;
}.
Definition no_disposition : EdgeDisposition :=
  {| redirects := []; delete_conflict_target := []; drop_ids := []; drop_auto := 0; drop_self_pair := 0; drop_conflict_source := 0;
     derived_from_entry_ids := []; warnings := [] |}.
(** The pushes of the loops; a dropped edge counts as one of three kinds. *)
Definition warn (d : EdgeDisposition) (text : string) : EdgeDisposition :=
  {| redirects := redirects d; delete_conflict_target := delete_conflict_target d; drop_ids := drop_ids d; drop_auto := drop_auto d;
     drop_self_pair := drop_self_pair d; drop_conflict_source := drop_conflict_source d;
     derived_from_entry_ids := derived_from_entry_ids d; warnings := warnings d ++ [text] |}.
Definition drop (d : EdgeDisposition) (id : string) (auto pair conflict : Z) : EdgeDisposition :=
  {| redirects := redirects d; delete_conflict_target := delete_conflict_target d; drop_ids := drop_ids d ++ [id];
     drop_auto := drop_auto d + auto; drop_self_pair := drop_self_pair d + pair; drop_conflict_source := drop_conflict_source d + conflict;
     derived_from_entry_ids := derived_from_entry_ids d; warnings := warnings d |}.
Definition push_entry (d : EdgeDisposition) (id : string) : EdgeDisposition :=
  {| redirects := redirects d; delete_conflict_target := delete_conflict_target d; drop_ids := drop_ids d; drop_auto := drop_auto d;
     drop_self_pair := drop_self_pair d; drop_conflict_source := drop_conflict_source d;
     derived_from_entry_ids := derived_from_entry_ids d ++ [id]; warnings := warnings d |}.
Definition redirect (d : EdgeDisposition) (id : string) (patch : Value) (loser : option string) : EdgeDisposition :=
  {| redirects := redirects d ++ [(id, patch)];
     delete_conflict_target := delete_conflict_target d ++ match loser with Some x => [x] | None => [] end;
     drop_ids := drop_ids d; drop_auto := drop_auto d; drop_self_pair := drop_self_pair d;
     drop_conflict_source := drop_conflict_source d; derived_from_entry_ids := derived_from_entry_ids d; warnings := warnings d |}.

Definition is_source_side (e : KnowledgeEdge) (key : NodeKey) : bool :=
  bool_decide (source_collection e = key.1) && bool_decide (source_id e = key.2).
(** The end of an edge of the node [key] that is not that node. *)
Definition counterpart (e : KnowledgeEdge) (key : NodeKey) : NodeKey :=
  if is_source_side e key then (target_collection e, target_id e) else (source_collection e, source_id e).
Definition conflict_key (e : KnowledgeEdge) (key : NodeKey) : ConflictKey :=
  (is_source_side e key, ((counterpart e key).1, ((counterpart e key).2, edge_type_str (e_type e)))).

(** The target's edges: of each key the heaviest, the first of equals. *)
Definition existing_step (src tgt : NodeKey) (existing : gmap ConflictKey (string * f64)) (e : KnowledgeEdge)
  : gmap ConflictKey (string * f64) :=
  match e_id e with
  | None => existing
  | Some eid =>
      if bool_decide (counterpart e tgt = src) then existing
      else
        let key := conflict_key e tgt in
        let entry := default (eid, weight e) (existing !! key) in
        <[key := if f64_lt entry.2 (weight e) then (eid, weight e) else entry]> existing
  end.

Record MergeCandidate := { m_key : ConflictKey; m_weight : f64; m_edge_id : string; m_patch : Value }.
Definition classify_step (src tgt : NodeKey) (s : EdgeDisposition * list MergeCandidate) (e : KnowledgeEdge)
  : EdgeDisposition * list MergeCandidate :=
  let '(disp, candidates) := s in
  match e_id e with
  | None => (warn disp "edge doc without _id skipped (cannot be rewritten)", candidates)
  | Some eid =>
      if bool_decide (counterpart e src = tgt) then (drop disp eid 0 1 0, candidates)
      else if is_auto_derived (e_type e) then (drop disp eid 1 0 0, candidates)
      else
        let disp := if bool_decide (e_type e = DerivedFrom) && is_source_side e src && bool_decide (target_collection e = "memory.entries")
                    then push_entry disp (target_id e) else disp in
        (disp, candidates ++ [{| m_key := conflict_key e src; m_weight := weight e; m_edge_id := eid;
                                 m_patch := redirect_patch (is_source_side e src) tgt |}])
  end.

Definition bool_cmp (a b : bool) : comparison := match a, b with false, true => Lt | true, false => Gt | _, _ => Eq end.
Definition key_cmp (a b : ConflictKey) : comparison :=
  then_cmp (bool_cmp a.1 b.1)
    (then_cmp (str_cmp a.2.1 b.2.1) (then_cmp (str_cmp a.2.2.1 b.2.2.1) (str_cmp a.2.2.2 b.2.2.2))).
Definition candidate_cmp (a b : MergeCandidate) : comparison :=
  then_cmp (key_cmp (m_key a) (m_key b))
    (then_cmp (f64_total_cmp (m_weight b) (m_weight a)) (str_cmp (m_edge_id a) (m_edge_id b))).

Definition resolve_step (existing : gmap ConflictKey (string * f64)) (s : EdgeDisposition * option ConflictKey) (c : MergeCandidate)
  : EdgeDisposition * option ConflictKey :=
  let '(disp, last_key) := s in
  if bool_decide (last_key = Some (m_key c)) then (drop disp (m_edge_id c) 0 0 1, last_key)
  else
    (match existing !! m_key c with
     | Some (existing_id, existing_w) =>
         if f64_lt existing_w (m_weight c) then redirect disp (m_edge_id c) (m_patch c) (Some existing_id)
         else drop disp (m_edge_id c) 0 0 1
     | None => redirect disp (m_edge_id c) (m_patch c) None
     end, Some (m_key c)).

Definition classify_and_resolve (src_edges tgt_edges : list KnowledgeEdge) (src tgt : NodeKey) : EdgeDisposition :=
  let existing := foldl (existing_step src tgt) ∅ tgt_edges in
  let '(disp, candidates) := foldl (classify_step src tgt) (no_disposition, []) src_edges in
  (foldl (resolve_step existing) (disp, None) (sort_by candidate_cmp candidates)).1.

(** ** Edges that arrive late *)

Record LateEdges := { late_drop_ids : list string; to_redirect : Z }.
Definition late_step (src tgt : NodeKey) (late : LateEdges) (e : KnowledgeEdge) : LateEdges :=
  match e_id e with
  | None => late
  | Some eid =>
      if bool_decide (counterpart e src = tgt) || is_auto_derived (e_type e)
      then {| late_drop_ids := late_drop_ids late ++ [eid]; to_redirect := to_redirect late |}
      else {| late_drop_ids := late_drop_ids late; to_redirect := to_redirect late + 1 |}
  end.
Definition late_edges (edges : list KnowledgeEdge) (src tgt : NodeKey) : LateEdges :=
  foldl (late_step src tgt) {| late_drop_ids := []; to_redirect := 0 |} edges.

(** ** The plan *)

Record MergePlan := {
  disposition : EdgeDisposition;
  repairs : list string;
  tags_to_add : list string;
  unioned_tags : list string;
  new_content : option string;
}.
Definition merge_moves_the_embeddable_text (plan : MergePlan) : bool := bool_decide (is_Some (new_content plan)).
End plan.

(** ** The tool *)

Section merge.
Context `{SerdeJson} `{StorageSerde} `{RegexLib}.
Context (refusal : AppError -> string) (moments : nat -> Moment) (max_query_limit : Z).
Context (parse_rfc3339 : string -> option Z) (to_rfc3339 : Z -> string) (config : DeriveConfig).
(** The embedding model of the instance, if it has one: a text's vector as
    it is stored, and the name of the model. *)
Context (provider : option (string -> result string (string * string))).

Abbreviation query := (db_query refusal moments max_query_limit).
Abbreviation read := (db_read refusal moments).
Abbreviation patch_document := (db_patch refusal moments).
Abbreviation delete_by_query := (db_delete_by_query refusal moments).

Definition seen_ids (l : list KnowledgeEdge) : gset string := list_to_set (omap e_id l).
(** The edges of one arm that are not in the list yet; one without an
    identifier is left. *)
Fixpoint add_arm (docs : list Value) (out : list KnowledgeEdge) : list KnowledgeEdge :=
  match docs with
  | [] => out
  | d :: docs =>
      match parse_edge d with
      | None => add_arm docs out
      | Some e =>
          match e_id e with
          | None => add_arm docs out
          | Some eid => add_arm docs (if decide (eid ∈ seen_ids out) then out else out ++ [e])
          end
      end
  end.
Definition fetch_arm (key : NodeKey) (body : Value) (out : list KnowledgeEdge) : Client string (list KnowledgeEdge) :=
  docs ← client_err (fun e => "knowledge_merge aborted: edge fetch for " +:+ key.1 +:+ ":" +:+ key.2 +:+ " failed: " +:+ e) (query EDGES body);
  if MERGE_EDGE_ARM_LIMIT <=? lenZ docs then
    client_lift (Err ("knowledge_merge aborted: " +:+ key.1 +:+ ":" +:+ key.2 +:+ "'s edge window saturated (" +:+ pretty MERGE_EDGE_ARM_LIMIT
      +:+ " per direction) — refusing to plan a destructive merge on partial data; this node is too edge-dense to merge safely (knowledge_unlink_node is the escape hatch)"))
  else mret (add_arm docs out).
Definition fetch_node_edges (key : NodeKey) : Client string (list KnowledgeEdge) :=
  let '(src_body, tgt_body) := merge_arm_bodies key.1 key.2 in
  out ← fetch_arm key src_body [];
  fetch_arm key tgt_body out.

(** *** The plan *)

Definition points_to (entry : Value) (key : NodeKey) : bool :=
  match get entry "promoted_to" with
  | Some p => match get p "collection" ≫= as_str, get p "id" ≫= as_str with
              | Some c, Some i => bool_decide (c = key.1) && bool_decide (i = key.2)
              | _, _ => false
              end
  | None => false
  end.
Fixpoint plan_repairs (src tgt : NodeKey) (entries : list string) : Client string (list string * list string) :=
  match entries with
  | [] => mret ([], [])
  | entry_id :: entries =>
      r ← client_try (read "memory.entries" entry_id);
      rest ← plan_repairs src tgt entries;
      mret match r with
           | Ok entry =>
               if points_to entry src then (entry_id :: rest.1, rest.2)
               else if points_to entry tgt then rest
               else (rest.1, ("entry " +:+ entry_id +:+ " promoted_to does not point at the source — left untouched") :: rest.2)
           | Err _ => (rest.1, ("entry " +:+ entry_id +:+ " (derived_from target) not found — its edge still redirects; knowledge_sweep_orphans territory if it stays missing") :: rest.2)
           end
  end.
Definition content_of (doc : Value) : string := default EmptyString (get doc "content" ≫= as_str).
Definition build_merge_plan (src tgt : NodeKey) (src_doc tgt_doc : Value) (s : MergeStrategy) : Client string MergePlan :=
  src_edges ← fetch_node_edges src;
  tgt_edges ← fetch_node_edges tgt;
  let disp := classify_and_resolve src_edges tgt_edges src tgt in
  checked ← plan_repairs src tgt (derived_from_entry_ids disp);
  let disp := foldl warn disp checked.2 in
  let '(unioned, added) := union_tags (string_array tgt_doc "tags") (string_array src_doc "tags") in
  let '(content, note) := if bool_decide (s = MergeContent) then plan_content (content_of tgt_doc) (content_of src_doc) src.2
                          else (None, None) in
  mret {| disposition := match note with Some n => warn disp n | None => disp end; repairs := checked.1; tags_to_add := added;
          unioned_tags := unioned; new_content := content |}.

(** *** Reports *)

Record ExecCounters := {
  entries_repointed : Z;
  target_edges_deleted_conflict : Z;
  edges_redirected : Z;
  source_edges_deleted : Z;
  edges_regenerated : Z;
  edges_swept_post_derive : Z;
}.
Definition no_counters : ExecCounters := Build_ExecCounters 0 0 0 0 0 0.
Definition count (c : ExecCounters) (repointed conflict redirected deleted regenerated swept : Z) : ExecCounters :=
  {| entries_repointed := entries_repointed c + repointed;
     target_edges_deleted_conflict := target_edges_deleted_conflict c + conflict;
     edges_redirected := edges_redirected c + redirected; source_edges_deleted := source_edges_deleted c + deleted;
     edges_regenerated := edges_regenerated c + regenerated; edges_swept_post_derive := edges_swept_post_derive c + swept |}.
Definition counters_json (c : ExecCounters) : Value :=
  json_obj [("entries_repointed", json_int (entries_repointed c));
            ("target_edges_deleted_conflict", json_int (target_edges_deleted_conflict c));
            ("edges_redirected", json_int (edges_redirected c)); ("source_edges_deleted", json_int (source_edges_deleted c));
            ("edges_regenerated", json_int (edges_regenerated c)); ("edges_swept_post_derive", json_int (edges_swept_post_derive c))].
Definition node_json (key : NodeKey) : Value := json_obj [("collection", VString key.1); ("id", VString key.2)].
Definition abort_json (at_step : string) (c : ExecCounters) (error action : string) : Value :=
  json_obj [("merged", VBool false); ("aborted_at", VString at_step); ("completed", counters_json c); ("error", VString error);
            ("action", VString action)].
Definition render_dry_run (plan : MergePlan) (src tgt : NodeKey) (s : MergeStrategy) : Value :=
  let d := disposition plan in
  json_obj [("merged", VBool false); ("dry_run", VBool true); ("source", node_json src); ("target", node_json tgt);
            ("strategy", VString (strategy_str s));
            ("preview", json_obj
               [("edges_would_redirect", json_int (lenZ (redirects d)));
                ("edges_would_drop_duplicate", json_int (drop_conflict_source d));
                ("edges_would_drop_auto", json_int (drop_auto d)); ("edges_would_drop_self_pair", json_int (drop_self_pair d));
                ("target_edges_would_delete_conflict", json_int (lenZ (delete_conflict_target d)));
                ("entries_would_repoint", json_int (lenZ (repairs plan))); ("tags_would_add", json_strings (tags_to_add plan));
                ("content_would_append", VBool (bool_decide (is_Some (new_content plan)))); ("source_would_be_deleted", VBool true)]);
            ("warnings", json_strings (warnings d))].
Definition render_success (plan : MergePlan) (c : ExecCounters) (src tgt : NodeKey) (s : MergeStrategy) : Value :=
  let d := disposition plan in
  json_obj [("merged", VBool true); ("source", node_json src); ("target", node_json tgt); ("strategy", VString (strategy_str s));
            ("edges_redirected", json_int (edges_redirected c)); ("edges_dropped_duplicate", json_int (drop_conflict_source d));
            ("edges_dropped_auto", json_int (drop_auto d)); ("edges_dropped_self_pair", json_int (drop_self_pair d));
            ("target_edges_deleted_conflict", json_int (target_edges_deleted_conflict c));
            ("edges_regenerated", json_int (edges_regenerated c));
            ("edges_swept_post_derive", json_int (edges_swept_post_derive c));
            ("entries_repointed", json_int (entries_repointed c)); ("tags_added_to_target", json_strings (tags_to_add plan));
            ("content_appended", VBool (bool_decide (is_Some (new_content plan)))); ("warnings", json_strings (warnings d))].

(** *** The steps *)

Definition RERUN_ACTION : string := "re-run knowledge_merge with the same arguments — completed steps are idempotent and skip themselves".
Definition aborting {A} (at_step : string) (c : ExecCounters) (what : string) (m : Client string A) : Client Value A :=
  client_err (fun e => abort_json at_step c (what +:+ e) RERUN_ACTION) m.

(** Step 1. *)
Definition update_target (plan : MergePlan) (tgt : NodeKey) : Client Value unit :=
  let fields := match tags_to_add plan with [] => [] | _ => [("tags", json_strings (unioned_tags plan))] end ++
                match new_content plan with Some content => [("content", VString content)] | None => [] end in
  match fields with
  | [] => mret tt
  | _ =>
      now ← utc_now moments;
      aborting "step_1_target_update" no_counters "target patch failed: "
        (patch_document tgt.1 tgt.2 (json_obj (fields ++ [("updated_at", VString now)])))
  end.
(** Step 2. *)
Fixpoint repair_entries (tgt : NodeKey) (entries : list string) (c : ExecCounters) : Client Value ExecCounters :=
  match entries with
  | [] => mret c
  | entry_id :: entries =>
      _ ← aborting "step_2_promoted_to_repairs" c ("repairing entry " +:+ entry_id +:+ " failed: ")
            (patch_document "memory.entries" entry_id (promoted_repair_patch tgt));
      repair_entries tgt entries (count c 1 0 0 0 0 0)
  end.
(** Deletion of edges, a chunk at a time. *)
Fixpoint delete_edges (at_step what : string) (bump : ExecCounters -> Z -> ExecCounters) (ids : list (list string)) (c : ExecCounters)
  : Client Value ExecCounters :=
  match ids with
  | [] => mret c
  | chunk :: ids =>
      n ← aborting at_step c what (delete_by_query EDGES (edge_ids_delete_filter chunk));
      delete_edges at_step what bump ids (bump c n)
  end.
Definition delete_losers (ids : list string) (c : ExecCounters) : Client Value ExecCounters :=
  delete_edges "step_3_conflict_deletes" "deleting conflict-losing target edges failed: " (fun c n => count c 0 n 0 0 0 0)
    (chunks MERGE_DELETE_CHUNK ids) c.
(** Step 3, after its deletions. *)
Fixpoint redirect_edges (l : list (string * Value)) (c : ExecCounters) : Client Value ExecCounters :=
  match l with
  | [] => mret c
  | (edge_id, patch) :: l =>
      _ ← aborting "step_3_redirects" c ("redirecting edge " +:+ edge_id +:+ " failed: ") (patch_document EDGES edge_id patch);
      redirect_edges l (count c 0 0 1 0 0 0)
  end.
(** Step 4. *)
Definition drop_edges (ids : list string) (c : ExecCounters) : Client Value ExecCounters :=
  delete_edges "step_4_source_edge_drops" "dropping source edges failed: " (fun c n => count c 0 0 0 n 0 0)
    (chunks MERGE_DELETE_CHUNK ids) c.
Definition steps_1_to_5 (plan : MergePlan) (src tgt : NodeKey) (tgt_doc : Value) : Client Value ExecCounters :=
  let d := disposition plan in
  _ ← update_target plan tgt;
  c ← repair_entries tgt (repairs plan) no_counters;
  c ← delete_losers (delete_conflict_target d) c;
  c ← redirect_edges (redirects d) c;
  c ← drop_edges (drop_ids d) c;
  n ← client_try (derive_edges_except refusal moments max_query_limit parse_rfc3339 to_rfc3339 tgt
                    (default EmptyString (get tgt_doc "source_session" ≫= as_str)) (unioned_tags plan)
                    (default EmptyString (get tgt_doc "created_at" ≫= as_str)) config (Some src));
  mret (count c 0 0 0 0 match n with Ok n => n | Err _ => 0 end 0).
(** Step 6. *)
Definition sweep (src tgt : NodeKey) (c : ExecCounters) : Client Value ExecCounters :=
  edges ← aborting "step_6_post_derive_sweep" c EmptyString (fetch_node_edges src);
  let late := late_edges edges src tgt in
  if 0 <? to_redirect late then
    client_lift (Err (abort_json "step_6_post_derive_sweep" c
      (pretty (to_redirect late) +:+ " edge(s) were linked to the source after the merge was planned") RERUN_ACTION))
  else
    delete_edges "step_6_post_derive_sweep" "removing the edges that reached the source failed: " (fun c n => count c 0 0 0 0 0 n)
      (chunks MERGE_DELETE_CHUNK (late_drop_ids late)) c.
(** Step 7. *)
Definition delete_source (src : NodeKey) (c : ExecCounters) : Client Value unit :=
  client_err (fun e => abort_json "step_7_source_delete" c ("source node delete failed: " +:+ e)
    "all edges are redirected — re-run knowledge_merge (converges), or knowledge_unlink_node the source")
    (db_delete refusal moments src.1 src.2).

(** *** The vector of the target ([embedding/write.rs]) *)

Definition some_text (s : string) : list string := if bool_decide (trim s = EmptyString) then [] else [s].
Definition embed_text (doc : Value) (coll : string) : string :=
  if negb (bool_decide (coll = "memory.procedural")) then content_of doc
  else
    String.concat newline
      ((["title"; "description"] ≫= fun key => match get doc key ≫= as_str with Some s => some_text s | None => [] end) ++
       (match get doc "preconditions" ≫= as_array with Some l => omap as_str l ≫= some_text | None => [] end) ++
       (match get doc "steps" ≫= as_array with
        | Some l => l ≫= fun s => match get s "action" ≫= as_str with Some a => some_text a | None => [] end
        | None => []
        end)).
(** The index in memory is not modelled; a failure is logged. *)
Definition embed_node (key : NodeKey) (doc : Value) : Client Value unit :=
  match provider with
  | None => mret tt
  | Some embed =>
      let text := embed_text doc key.1 in
      if bool_decide (trim text = EmptyString) then mret tt
      else
        match embed text with
        | Err _ => mret tt
        | Ok (vector, model) =>
            now ← utc_now moments;
            r ← client_try (patch_document key.1 key.2
                  (json_obj [("embedding", VString vector); ("embedding_model", VString model); ("embedding_updated_at", VString now)]));
            mret tt
        end
  end.
Definition refresh_vector (plan : MergePlan) (tgt : NodeKey) : Client Value unit :=
  if merge_moves_the_embeddable_text plan then
    r ← client_try (read tgt.1 tgt.2);
    match r with Ok merged => embed_node tgt merged | Err _ => mret tt end
  else mret tt.

Definition merge_steps (plan : MergePlan) (src tgt : NodeKey) (tgt_doc : Value) (s : MergeStrategy) : Client Value Value :=
  c ← steps_1_to_5 plan src tgt tgt_doc;
  c ← sweep src tgt c;
  _ ← delete_source src c;
  _ ← refresh_vector plan tgt;
  mret (render_success plan c src tgt s).
(** An abort is a report too. *)
Definition execute_merge_plan (plan : MergePlan) (src tgt : NodeKey) (tgt_doc : Value) (s : MergeStrategy) : Client string Value :=
  fun w => match merge_steps plan src tgt tgt_doc s w with (Ok report, w) => (Ok report, w) | (Err report, w) => (Ok report, w) end.

Definition run_knowledge_merge (args : KnowledgeMergeArgs) : Client string Value :=
  ids ← client_lift (validate_merge_args args);
  let '(coll, src_id, tgt_id) := ids in
  src_doc ← client_err (fun _ => rejected ("source node " +:+ coll +:+ ":" +:+ src_id
      +:+ " not found — if a previous merge run reported failure only at the final delete step, the merge already completed")) (read coll src_id);
  tgt_doc ← client_err (fun _ => rejected ("target node " +:+ coll +:+ ":" +:+ tgt_id +:+ " not found")) (read coll tgt_id);
  plan ← build_merge_plan (coll, src_id) (coll, tgt_id) src_doc tgt_doc (strategy args);
  if dry_run args then mret (render_dry_run plan (coll, src_id) (coll, tgt_id) (strategy args))
  else execute_merge_plan plan (coll, src_id) (coll, tgt_id) tgt_doc (strategy args).
End merge.
