(* ===== verification/Decided.v ===== *)
(** * The plan of a merge ([crates/embra-brain/src/knowledge/merge.rs])

    What [classify_and_resolve] of [Merge] decides: every edge of the source
    once, and of each conflict the heavier edge. *)

From S2P Require Import Prelude Bytes F64 Json Errors Externals Filter Secondary Sort Backend Storage Document Refinement Mutations Bulk History Text Edges Caps Guarantees Client Derive Merge.

(** ** Weights *)

Definition nice (w : f64) : Prop := f64_wf w /\ f64_is_nan w = false /\ w <> 2 ^ 63.
Definition no_heavier (a b : f64) : Prop := f64_total_cmp a b <> Gt.
#[export] Instance f64_total_order : CmpOrder f64_total_cmp := cmp_on_order f64_total_key Z.compare Z_compare_order.

Lemma lt_total a b : nice a -> nice b -> f64_lt a b = true <-> f64_total_cmp a b = Lt.
Proof.
  intros (A1 & A2 & A3) (B1 & B2 & B3). pose proof (weights_agree a b A1 B1 A2 B2 A3 B3) as E. unfold f64_lt.
  destruct (f64_partial_cmp a b) as [[]|]; cbn in E; rewrite <-E; naive_solver.
Qed.
Lemma not_lt_no_heavier a b : nice a -> nice b -> f64_lt a b = false -> no_heavier b a.
Proof. intros Ha Hb E. unfold no_heavier. rewrite (cmp_gt_lt f64_total_cmp). rewrite <-lt_total by done. by rewrite E. Qed.
Lemma lt_no_heavier a b : nice a -> nice b -> f64_lt a b = true -> no_heavier a b.
Proof. intros Ha Hb E%lt_total; [|done..]. unfold no_heavier. by rewrite E. Qed.
Lemma no_heavier_trans a b c : no_heavier a b -> no_heavier b c -> no_heavier a c.
Proof. apply (cmp_le_trans f64_total_cmp). Qed.
Lemma no_heavier_refl a : no_heavier a a.
Proof. unfold no_heavier. by rewrite (cmp_refl f64_total_cmp). Qed.

(** ** The order of the candidates *)

#[export] Instance bool_cmp_order : CmpOrder bool_cmp.
Proof. split; [by intros [] []|by intros [] [] []]. Qed.
#[export] Instance key_cmp_order : CmpOrder key_cmp.
Proof.
  unfold key_cmp. apply then_cmp_order; [exact (cmp_on_order fst bool_cmp _)|].
  apply then_cmp_order; [exact (cmp_on_order (fun k : ConflictKey => k.2.1) str_cmp _)|].
  apply then_cmp_order; [exact (cmp_on_order (fun k : ConflictKey => k.2.2.1) str_cmp _)|].
  exact (cmp_on_order (fun k : ConflictKey => k.2.2.2) str_cmp _).
Qed.
Lemma then_cmp_eq a b : then_cmp a b = Eq <-> a = Eq /\ b = Eq.
Proof. destruct a, b; cbn; naive_solver. Qed.
Lemma key_cmp_eq a b : key_cmp a b = Eq -> a = b.
Proof.
  destruct a as (a1 & a2 & a3 & a4), b as (b1 & b2 & b3 & b4). unfold key_cmp. cbn.
  rewrite !then_cmp_eq. intros (E1 & ->%str_cmp_eq & ->%str_cmp_eq & ->%str_cmp_eq). by destruct a1, b1.
Qed.
Lemma cmp_flip_order {A} (cmp : A -> A -> comparison) `{!CmpOrder cmp} : CmpOrder (fun a b => cmp b a).
Proof. split; [intros a b; apply (cmp_opp cmp)|]. intros a b c Hab Hbc. by apply (cmp_le_trans cmp c b a). Qed.
#[export] Instance candidate_cmp_order : CmpOrder candidate_cmp.
Proof.
  unfold candidate_cmp. apply then_cmp_order; [exact (cmp_on_order m_key key_cmp _)|].
  apply then_cmp_order; [exact (cmp_flip_order (cmp_on m_weight f64_total_cmp))|exact (cmp_on_order m_edge_id str_cmp _)].
Qed.

Lemma candidate_le_key a b : candidate_cmp a b <> Gt -> key_cmp (m_key a) (m_key b) <> Gt.
Proof. unfold candidate_cmp. by destruct (key_cmp _ _). Qed.
Lemma candidate_le_weight a b : candidate_cmp a b <> Gt -> m_key a = m_key b -> no_heavier (m_weight b) (m_weight a).
Proof.
  unfold candidate_cmp, no_heavier. intros Hc E. rewrite E, (cmp_refl key_cmp) in Hc. cbn in Hc. by destruct (f64_total_cmp _ _).
Qed.

(** ** The loop over the candidates *)

Section resolve.
Context `{SerdeJson}.
Context (existing : gmap ConflictKey (string * f64)) (base : EdgeDisposition) (Hbase : redirects base = [] /\ delete_conflict_target base = []).
Context (Hone : forall k k' x w w', existing !! k = Some (x, w) -> existing !! k' = Some (x, w') -> k = k').

(** What has been decided of the candidates so far: each once; a redirected
    one is the heaviest of its key and heavier than the target's edge, which
    goes; any other has a redirected one or an edge that stays above it. *)
Record resolved (pre : list MergeCandidate) (disp : EdgeDisposition) : Prop := {
  rs_once : (redirects disp).*1 ++ drop_ids disp ≡ₚ drop_ids base ++ (m_edge_id <$> pre);
  rs_won : forall r, r ∈ redirects disp -> exists c, c ∈ pre /\ r = (m_edge_id c, m_patch c) /\
    (forall c', c' ∈ pre -> m_key c' = m_key c -> no_heavier (m_weight c') (m_weight c)) /\
    (forall x w, existing !! m_key c = Some (x, w) -> f64_lt w (m_weight c) = true /\ x ∈ delete_conflict_target disp);
  rs_lost : forall x, x ∈ delete_conflict_target disp -> exists c w, c ∈ pre /\ (m_edge_id c, m_patch c) ∈ redirects disp /\
    existing !! m_key c = Some (x, w) /\ f64_lt w (m_weight c) = true;
  rs_kept : forall c, c ∈ pre ->
    (exists c', c' ∈ pre /\ (m_edge_id c', m_patch c') ∈ redirects disp /\ m_key c' = m_key c /\ no_heavier (m_weight c) (m_weight c')) \/
    (exists x w, existing !! m_key c = Some (x, w) /\ no_heavier (m_weight c) w /\ x ∉ delete_conflict_target disp);
  rs_drops : forall id, id ∈ drop_ids base -> id ∈ drop_ids disp;
}.

Lemma resolved_nil : resolved [] base.
Proof.
  destruct Hbase as [E1 E2]. constructor; rewrite ?E1, ?E2; try (by intros ? ?%elem_of_nil); [|done].
  cbn. by rewrite app_nil_r.
Qed.

(** The candidate is of the key just decided. *)
Lemma resolved_same pre disp l c : resolved pre disp -> l ∈ pre -> m_key l = m_key c -> no_heavier (m_weight c) (m_weight l) ->
  (forall c', c' ∈ pre -> candidate_cmp c' c <> Gt) -> resolved (pre ++ [c]) (drop disp (m_edge_id c) 0 0 1).
Proof.
  intros [R1 R2 R3 R4 R5] Hl Hk Hw Hs. constructor; cbn.
  - rewrite app_assoc, R1, fmap_app, app_assoc. done.
  - intros r Hr. destruct (R2 r Hr) as (c1 & Hc1 & -> & Hmax & Hex). exists c1. split_and!; [set_solver|done| |done].
    intros c' [Hc'|Hc'%list_elem_of_singleton]%elem_of_app E; [by apply Hmax|]. subst c'.
    apply (candidate_le_weight c1 c); [by apply Hs|done].
  - intros x Hx. destruct (R3 x Hx) as (c1 & w & ? & ? & ? & ?). exists c1, w. set_solver.
  - intros c0 [Hc0|Hc0%list_elem_of_singleton]%elem_of_app.
    + destruct (R4 c0 Hc0) as [(c1 & ? & ? & ? & ?)|?]; [left; exists c1; set_solver|by right].
    + subst c0. destruct (R4 l Hl) as [(c1 & ? & ? & ? & ?)|(x & w & ? & ? & ?)].
      * left. exists c1. split_and!; [set_solver|done|congruence|by eapply no_heavier_trans].
      * right. exists x, w. rewrite <-Hk. split_and!; [done| |done]. by eapply no_heavier_trans.
  - set_solver.
Qed.

(** The first candidate of its key. *)
Lemma resolved_new pre disp c : resolved pre disp -> (forall c', c' ∈ pre -> m_key c' <> m_key c) ->
  nice (m_weight c) -> (forall x w, existing !! m_key c = Some (x, w) -> nice w) ->
  resolved (pre ++ [c])
    match existing !! m_key c with
    | Some (existing_id, existing_w) =>
        if f64_lt existing_w (m_weight c) then redirect disp (m_edge_id c) (m_patch c) (Some existing_id)
        else drop disp (m_edge_id c) 0 0 1
    | None => redirect disp (m_edge_id c) (m_patch c) None
    end.
Proof.
  intros [R1 R2 R3 R4 R5] Hk Hn Hx.
  assert (Hwin : forall loser, (forall x w, existing !! m_key c = Some (x, w) -> loser = Some x /\ f64_lt w (m_weight c) = true) ->
    (existing !! m_key c = None -> loser = None) -> resolved (pre ++ [c]) (redirect disp (m_edge_id c) (m_patch c) loser)).
  { intros loser Hlose Hnone. constructor; cbn.
    - rewrite fmap_app, <-app_assoc, (Permutation_app_comm _ (drop_ids disp)), app_assoc, R1, fmap_app, app_assoc. done.
    - intros r [Hr|Hr%list_elem_of_singleton]%elem_of_app.
      + destruct (R2 r Hr) as (c1 & Hc1 & -> & Hmax & Hex). exists c1. split_and!; [set_solver|done| |].
        * intros c' [Hc'|Hc'%list_elem_of_singleton]%elem_of_app E; [by apply Hmax|]. subst c'. by destruct (Hk c1).
        * intros x w E. destruct (Hex x w E). split; [done|]. apply elem_of_app. by left.
      + exists c. subst r. split_and!; [set_solver|done| |].
        * intros c' [Hc'|Hc'%list_elem_of_singleton]%elem_of_app E; [by destruct (Hk c')|]. subst c'. apply no_heavier_refl.
        * intros x w E. destruct (Hlose x w E) as [-> ?]. split; [done|]. set_solver.
    - intros x [Hx'|Hx']%elem_of_app.
      + destruct (R3 x Hx') as (c1 & w & ? & ? & ? & ?). exists c1, w. set_solver.
      + destruct (existing !! m_key c) as [[y w]|] eqn:E; [|rewrite Hnone in Hx' by done; by apply elem_of_nil in Hx'].
        destruct (Hlose y w eq_refl) as [-> Hlt]. apply list_elem_of_singleton in Hx'. subst y. exists c, w. set_solver.
    - intros c0 [Hc0|Hc0%list_elem_of_singleton]%elem_of_app.
      + destruct (R4 c0 Hc0) as [(c1 & ? & ? & ? & ?)|(x & w & E & Hw & Hx')]; [left; exists c1; set_solver|]. right. exists x, w.
        split_and!; [done..|]. intros [?|Hin]%elem_of_app; [done|]. destruct (existing !! m_key c) as [[y w']|] eqn:E'.
        * destruct (Hlose y w' eq_refl) as [-> _]. apply list_elem_of_singleton in Hin. subst y. by apply (Hk c0 Hc0), (Hone _ _ x w w').
        * rewrite Hnone in Hin by done. by apply elem_of_nil in Hin.
      + subst c0. left. exists c. split_and!; [set_solver..|done|apply no_heavier_refl].
    - done. }
  destruct (existing !! m_key c) as [[x w]|] eqn:E; [destruct (f64_lt w (m_weight c)) eqn:Hlt|].
  - apply Hwin; [|done]. by intros ?? [= <- <-].
  - constructor; cbn.
    + rewrite app_assoc, R1, fmap_app, app_assoc. done.
    + intros r Hr. destruct (R2 r Hr) as (c1 & Hc1 & -> & Hmax & Hex). exists c1. split_and!; [set_solver|done| |done].
      intros c' [Hc'|Hc'%list_elem_of_singleton]%elem_of_app E'; [by apply Hmax|]. subst c'. by destruct (Hk c1).
    + intros y Hy. destruct (R3 y Hy) as (c1 & w' & ? & ? & ? & ?). exists c1, w'. set_solver.
    + intros c0 [Hc0|Hc0%list_elem_of_singleton]%elem_of_app.
      * destruct (R4 c0 Hc0) as [(c1 & ? & ? & ? & ?)|?]; [left; exists c1; set_solver|by right].
      * subst c0. right. exists x, w. split_and!; [done|apply not_lt_no_heavier; by eauto|].
        intros Hy. destruct (R3 x Hy) as (c1 & w' & Hc1 & _ & E' & _). by apply (Hk c1 Hc1), (Hone _ _ x w' w).
    + set_solver.
  - by apply Hwin.
Qed.

Lemma resolve_loop suf : forall pre disp, resolved pre disp -> StronglySorted (cmp_le candidate_cmp) (pre ++ suf) ->
  (forall c, c ∈ pre ++ suf -> nice (m_weight c) /\ forall x w, existing !! m_key c = Some (x, w) -> nice w) ->
  resolved (pre ++ suf) (foldl (resolve_step existing) (disp, m_key <$> last pre) suf).1.
Proof.
  induction suf as [|c suf IH]; intros pre disp Hr Hs Hn; [by rewrite app_nil_r|]. cbn [foldl].
  assert (Hle : forall c', c' ∈ pre -> candidate_cmp c' c <> Gt).
  { intros c' Hc'. apply (StronglySorted_app_1_elem_of (cmp_le candidate_cmp) pre (c :: suf)); [done..|by left]. }
  assert (Hstep : resolved (pre ++ [c]) (resolve_step existing (disp, m_key <$> last pre) c).1 /\
    (resolve_step existing (disp, m_key <$> last pre) c).2 = m_key <$> last (pre ++ [c])).
  { rewrite last_snoc. cbn. case_bool_decide as Hk; cbn.
    - split; [|done]. destruct (last pre) as [l|] eqn:El; [|done]. cbn in Hk. injection Hk as Hk.
      pose proof (last_Some_elem_of _ _ El) as Hl. apply (resolved_same pre disp l c); [done..| |done].
      apply (candidate_le_weight l c); [by apply Hle|done].
    - split; [|done]. destruct (Hn c) as [Hn1 Hn2]; [set_solver|]. apply resolved_new; [done| |done..].
      intros c' Hc' E. apply Hk. destruct (last pre) as [l|] eqn:El; [|apply last_None in El; subst; by apply elem_of_nil in Hc'].
      cbn. f_equal. apply key_cmp_eq.
      apply last_Some in El as [pre' ->]. assert (H1 : key_cmp (m_key c') (m_key l) <> Gt).
      { apply elem_of_app in Hc' as [Hc'|Hc'%list_elem_of_singleton]; [|subst; by rewrite (cmp_refl key_cmp)].
        apply candidate_le_key. rewrite <-app_assoc in Hs. apply (StronglySorted_app_1_elem_of (cmp_le candidate_cmp) pre' ([l] ++ c :: suf)); [done..|by left]. }
      assert (H2 : key_cmp (m_key l) (m_key c) <> Gt) by (apply candidate_le_key, Hle; set_solver).
      rewrite E in H1. rewrite (cmp_opp key_cmp) in H1. destruct (key_cmp (m_key l) (m_key c)); naive_solver. }
  destruct (resolve_step _ _ c) as [disp' last']. cbn in Hstep. destruct Hstep as [Hr' ->].
  specialize (IH (pre ++ [c]) disp' Hr'). rewrite <-app_assoc in IH. by apply IH.
Qed.
End resolve.

(** ** The plan, edge by edge *)

Section decided.
Context `{SerdeJson} `{!SerdeLaws}.
Context (src tgt : NodeKey).

(** What a stored edge is, as it is read. *)
Definition fine (e : KnowledgeEdge) : Prop :=
  is_Some (e_id e) /\ proper_type (e_type e) /\ (is_auto_derived (e_type e) = false -> nice (weight e)).
(** An edge of the source that the plan would redirect, and an edge of the
    target that may be in its way. *)
Definition movable (e : KnowledgeEdge) : bool := negb (bool_decide (counterpart e src = tgt)) && negb (is_auto_derived (e_type e)).
Definition in_the_way (t : KnowledgeEdge) : Prop := counterpart t tgt <> src.

Record decided (src_edges tgt_edges : list KnowledgeEdge) (disp : EdgeDisposition) : Prop := {
  dc_once : (redirects disp).*1 ++ drop_ids disp ≡ₚ omap e_id src_edges;
  dc_redirect : forall id patch, (id, patch) ∈ redirects disp -> exists e, e ∈ src_edges /\ e_id e = Some id /\ movable e = true /\
    patch = redirect_patch (is_source_side e src) tgt /\
    (forall e', e' ∈ src_edges -> movable e' = true -> conflict_key e' src = conflict_key e src -> no_heavier (weight e') (weight e)) /\
    (forall t, t ∈ tgt_edges -> in_the_way t -> conflict_key t tgt = conflict_key e src -> f64_lt (weight t) (weight e) = true);
  dc_loser : forall x, x ∈ delete_conflict_target disp -> exists t e id patch, t ∈ tgt_edges /\ e_id t = Some x /\ in_the_way t /\
    e ∈ src_edges /\ e_id e = Some id /\ movable e = true /\ (id, patch) ∈ redirects disp /\
    conflict_key t tgt = conflict_key e src /\ f64_lt (weight t) (weight e) = true;
  dc_kept : forall e, e ∈ src_edges -> movable e = true ->
    (exists e' id patch, e' ∈ src_edges /\ e_id e' = Some id /\ (id, patch) ∈ redirects disp /\ movable e' = true /\
       conflict_key e' src = conflict_key e src /\ no_heavier (weight e) (weight e')) \/
    (exists t x, t ∈ tgt_edges /\ e_id t = Some x /\ in_the_way t /\ conflict_key t tgt = conflict_key e src /\
       no_heavier (weight e) (weight t) /\ x ∉ delete_conflict_target disp);
}.

(** *** The target's edges *)

Definition meaningful_key (k : ConflictKey) : Prop := k.2.2.2 ∉ AUTO_EDGE_TYPE_NAMES.
Lemma meaningful_edge e key : fine e -> meaningful_key (conflict_key e key) <-> is_auto_derived (e_type e) = false.
Proof.
  intros (_ & Hp & _). unfold meaningful_key, conflict_key. cbn. rewrite <-(auto_named (e_type e)) by done.
  rewrite bool_decide_eq_false. done.
Qed.

Lemma existing_spec tgt_edges : Forall fine tgt_edges ->
  let existing := foldl (existing_step src tgt) ∅ tgt_edges in
  (forall k x w, existing !! k = Some (x, w) -> exists t, t ∈ tgt_edges /\ e_id t = Some x /\ weight t = w /\ in_the_way t /\ conflict_key t tgt = k) /\
  (forall t, t ∈ tgt_edges -> in_the_way t -> meaningful_key (conflict_key t tgt) ->
     exists x w, existing !! conflict_key t tgt = Some (x, w) /\ no_heavier (weight t) w).
Proof.
  induction tgt_edges as [|e l IH] using rev_ind; intros Hf; cbn zeta.
  { cbn [foldl]. split; [by intros k x w; rewrite lookup_empty|]. by intros t ?%elem_of_nil. }
  apply Forall_app in Hf as [Hf He]. rewrite Forall_singleton in He. specialize (IH Hf). cbn zeta in IH. destruct IH as [Hin Hmax].
  rewrite foldl_app. cbn [foldl]. set (existing := foldl _ _ l) in *. unfold existing_step. pose proof He as ([eid Heid] & _ & Hne).
  rewrite Heid. case_bool_decide as Hc.
  { split.
    - intros k x w E. destruct (Hin k x w E) as (t & Ht & Hrest). exists t. split; [by apply elem_of_app; left|done].
    - intros t [Ht|Ht%list_elem_of_singleton]%elem_of_app; [by apply Hmax|]. subst. by intros ?. }
  set (key := conflict_key e tgt). set (entry := default (eid, weight e) (existing !! key)). split.
  - intros k x w. destruct (decide (key = k)) as [<-|Hk].
    + rewrite lookup_insert_eq. intros E. assert (Hcase : (x, w) = (eid, weight e) \/ existing !! key = Some (x, w)).
      { destruct (f64_lt _ _); [left; congruence|]. unfold entry in E. destruct (existing !! key) as [p|]; cbn in E; [right|left]; congruence. }
      destruct Hcase as [[= -> ->]|E']; [exists e; split_and!; [apply elem_of_app; right; by left|done..]|]. destruct (Hin _ _ _ E') as (t & Ht & Hrest). exists t. split; [by apply elem_of_app; left|done].
    + rewrite lookup_insert_ne by done. intros E. destruct (Hin k x w E) as (t & Ht & Hrest). exists t. split; [by apply elem_of_app; left|done].
  - intros t Ht Hway Hm. destruct (decide (key = conflict_key t tgt)) as [Hk|Hk].
    + rewrite <-Hk in *. rewrite lookup_insert_eq. unfold key in Hm. apply meaningful_edge in Hm; [|done]. specialize (Hne Hm).
      assert (Hent : nice entry.2 /\ (existing !! key = None -> entry.2 = weight e)).
      { unfold entry. destruct (existing !! key) as [[x w]|] eqn:E; cbn; [|done]. split; [|done].
        destruct (Hin _ _ _ E) as (u & Hu & _ & <- & _ & Hku). rewrite Forall_forall in Hf. destruct (Hf u Hu) as (Hu1 & Hu2 & Hu3). apply Hu3.
        apply (meaningful_edge u tgt); [done|]. rewrite Hku. by apply meaningful_edge. }
      assert (Hold : t ∈ l -> no_heavier (weight t) entry.2).
      { intros Hl. destruct (Hmax t Hl Hway) as (x & w & E & Hw); [rewrite <-Hk; by apply meaningful_edge|].
        unfold entry. rewrite Hk, E. done. }
      apply elem_of_app in Ht as [Ht|Ht%list_elem_of_singleton].
      * destruct (f64_lt entry.2 (weight e)) eqn:Hlt; [|destruct entry as [x w]; eauto]. eexists _, _. split; [done|].
        eapply no_heavier_trans; [by apply Hold|]. apply lt_no_heavier; tauto.
      * subst t. destruct (f64_lt entry.2 (weight e)) eqn:Hlt; [eexists _, _; split; [done|apply no_heavier_refl]|].
        destruct entry as [x w]. eexists _, _. split; [done|]. apply not_lt_no_heavier; tauto.
    + rewrite lookup_insert_ne by done. apply elem_of_app in Ht as [Ht|Ht%list_elem_of_singleton]; [by apply Hmax|]. by subst.
Qed.

(** *** The source's edges *)

Definition candidate_of (e : KnowledgeEdge) : option MergeCandidate :=
  eid ← e_id e;
  if movable e then Some {| m_key := conflict_key e src; m_weight := weight e; m_edge_id := eid; m_patch := redirect_patch (is_source_side e src) tgt |}
  else None.
Lemma classify_spec src_edges : Forall fine src_edges ->
  let '(disp, candidates) := foldl (classify_step src tgt) (no_disposition, []) src_edges in
  candidates = omap candidate_of src_edges /\ redirects disp = [] /\ delete_conflict_target disp = [] /\
  drop_ids disp = omap (fun e => if movable e then None else e_id e) src_edges.
Proof.
  induction src_edges as [|e l IH] using rev_ind; intros Hf; [done|]. apply Forall_app in Hf as [Hf He].
  rewrite Forall_singleton in He. destruct He as ([eid He] & _). specialize (IH Hf). rewrite foldl_app. cbn [foldl].
  destruct (foldl _ _ l) as [disp cands]. destruct IH as (-> & Hr & Hl & Hd). rewrite !omap_app. cbn.
  unfold candidate_of, movable. rewrite He. cbn. case_bool_decide; cbn.
  { rewrite app_nil_r. split_and!; [done..|]. by rewrite Hd. }
  destruct (is_auto_derived (e_type e)); cbn.
  { rewrite app_nil_r. split_and!; [done..|]. by rewrite Hd. }
  rewrite app_nil_r. by destruct (_ && _); cbn.
Qed.
Lemma ids_split (l : list KnowledgeEdge) : Forall fine l ->
  omap (fun e => if movable e then None else e_id e) l ++ (m_edge_id <$> omap candidate_of l) ≡ₚ omap e_id l.
Proof.
  induction l as [|e l IH]; intros Hf; [done|]. apply Forall_cons in Hf as [([eid He] & _) Hf]. specialize (IH Hf).
  cbn. unfold candidate_of at 1. rewrite He. cbn. destruct (movable e); cbn.
  - rewrite <-Permutation_middle. by constructor.
  - by constructor.
Qed.

Lemma candidate_of_elem (l : list KnowledgeEdge) (c : MergeCandidate) : c ∈ omap candidate_of l <-> exists e, e ∈ l /\ e_id e = Some (m_edge_id c) /\ movable e = true /\
  m_key c = conflict_key e src /\ m_weight c = weight e /\ m_patch c = redirect_patch (is_source_side e src) tgt.
Proof.
  rewrite list_elem_of_omap. unfold candidate_of. split.
  - intros (e & He & E). apply bind_Some in E as (eid & Hid & E). destruct (movable e) eqn:Hm; [|done]. injection E as <-. by exists e.
  - intros (e & He & Hid & Hm & Hk & Hw & Hp). exists e. split; [done|]. rewrite Hid, Hm. cbn. destruct c; cbn in *. by subst.
Qed.
Lemma movable_meaningful e : fine e -> movable e = true -> nice (weight e) /\ meaningful_key (conflict_key e src).
Proof.
  unfold movable. intros Hf [_ Ha%negb_true_iff]%andb_true_iff. split; [by apply Hf|]. by apply meaningful_edge.
Qed.

Lemma omap_NoDup_inj {A B} (f : A -> option B) (l : list A) x y b : NoDup (omap f l) -> x ∈ l -> y ∈ l -> f x = Some b -> f y = Some b -> x = y.
Proof.
  induction l as [|z l IH]; [by intros _ ?%elem_of_nil|]. cbn. intros Hn Hx Hy Ex Ey.
  assert (Hz : forall v, v ∈ l -> f v = Some b -> f z = Some b -> False).
  { intros v Hv E1 E2. rewrite E2 in Hn. apply NoDup_cons in Hn as [Hn _]. apply Hn, list_elem_of_omap. eauto. }
  assert (Hl : NoDup (omap f l)) by (destruct (f z); [by apply NoDup_cons in Hn as [_ ?]|done]).
  apply elem_of_cons in Hx as [->|Hx], Hy as [->|Hy]; [done|by destruct (Hz y)|by destruct (Hz x)|by apply IH].
Qed.
Lemma plan_decides src_edges tgt_edges : Forall fine src_edges -> Forall fine tgt_edges -> NoDup (omap e_id tgt_edges) ->
  decided src_edges tgt_edges (classify_and_resolve src_edges tgt_edges src tgt).
Proof.
  intros Hs Ht Hn. unfold classify_and_resolve. pose proof (classify_spec src_edges Hs) as Hc.
  destruct (foldl (classify_step src tgt) _ src_edges) as [base cands]. destruct Hc as (-> & Hb1 & Hb2 & Hb3).
  destruct (existing_spec tgt_edges Ht) as [Ein Emax]. set (existing := foldl (existing_step src tgt) ∅ tgt_edges) in *.
  assert (Hids : forall t u x, t ∈ tgt_edges -> u ∈ tgt_edges -> e_id t = Some x -> e_id u = Some x -> t = u).
  { intros t u x Hin Hin' E1 E2. eapply (omap_NoDup_inj e_id tgt_edges); eauto. }
  assert (Hone : forall k k' x w w', existing !! k = Some (x, w) -> existing !! k' = Some (x, w') -> k = k').
  { intros k k' x w w' E1 E2. destruct (Ein _ _ _ E1) as (t & T1 & T2 & _ & _ & <-). destruct (Ein _ _ _ E2) as (u & U1 & U2 & _ & _ & <-).
    by rewrite (Hids t u x). }
  set (sorted := sort_by candidate_cmp (omap candidate_of src_edges)).
  assert (Hperm : sorted ≡ₚ omap candidate_of src_edges) by apply sort_by_perm.
  destruct (resolve_loop existing base (conj Hb1 Hb2) Hone sorted [] base) as [R1 R2 R3 R4 _].
  { by apply resolved_nil. }
  { apply sort_by_strongly, _. }
  { cbn. intros c Hc. rewrite Hperm in Hc. apply candidate_of_elem in Hc as (e & He & _ & Hm & Hk & Hw & _). rewrite Forall_forall in Hs, Ht.
    destruct (movable_meaningful e (Hs e He) Hm) as [Hnice Hkey]. rewrite Hk, Hw. split; [done|].
    intros x w E. destruct (Ein _ _ _ E) as (t & Hin & _ & <- & _ & Hkt). apply (Ht t Hin), (meaningful_edge t tgt); [by apply Ht|]. by rewrite Hkt. }
  cbn [app last fmap option_fmap option_map] in *. set (disp := (foldl (resolve_step existing) (base, None) sorted).1) in *.
  assert (Hcand : forall c, c ∈ sorted -> exists e, e ∈ src_edges /\ e_id e = Some (m_edge_id c) /\ movable e = true /\
    m_key c = conflict_key e src /\ m_weight c = weight e /\ m_patch c = redirect_patch (is_source_side e src) tgt).
  { intros c Hc. rewrite Hperm in Hc. by apply candidate_of_elem. }
  assert (Hedge : forall e, e ∈ src_edges -> movable e = true -> exists c, c ∈ sorted /\ e_id e = Some (m_edge_id c) /\
    m_key c = conflict_key e src /\ m_weight c = weight e).
  { intros e He Hm. rewrite Forall_forall in Hs. destruct (Hs e He) as ([eid Hid] & _).
    exists {| m_key := conflict_key e src; m_weight := weight e; m_edge_id := eid; m_patch := redirect_patch (is_source_side e src) tgt |}.
    split; [|done]. rewrite Hperm. apply candidate_of_elem. by exists e. }
  assert (Hway : forall t e, t ∈ tgt_edges -> in_the_way t -> e ∈ src_edges -> movable e = true -> conflict_key t tgt = conflict_key e src ->
    exists x w, existing !! conflict_key e src = Some (x, w) /\ no_heavier (weight t) w /\ nice w /\ nice (weight t) /\ nice (weight e)).
  { intros t e Hin Hw He Hm Hk. rewrite Forall_forall in Hs, Ht. destruct (movable_meaningful e (Hs e He) Hm) as [Hne Hmk].
    destruct (Emax t Hin Hw) as (x & w & E & Hh); [by rewrite Hk|]. exists x, w. rewrite <-Hk. destruct (Ein _ _ _ E) as (u & Hu & _ & <- & _ & Hku).
    rewrite <-Hk in Hmk. split_and!; [done..| | |done].
    - apply (Ht u Hu), (meaningful_edge u tgt); [by apply Ht|]. by rewrite Hku.
    - by apply (Ht t Hin), (meaningful_edge t tgt); [apply Ht|]. }
  constructor.
  - rewrite R1, Hb3, Hperm. by apply ids_split.
  - intros id patch Hr. destruct (R2 _ Hr) as (c & Hc & [= -> ->] & Hmax & Hex). destruct (Hcand c Hc) as (e & He & Hid & Hm & Hk & Hw & Hp).
    exists e. split_and!; [done..| |].
    + intros e' He' Hm' Hk'. destruct (Hedge e' He' Hm') as (c' & Hc' & _ & Hkc & Hwc). rewrite <-Hw, <-Hwc. apply Hmax; [done|]. congruence.
    + intros t Hin Htw Hkt. destruct (Hway t e) as (x & w & E & Hh & N1 & N2 & N3); [done..|]. rewrite <-Hk in E. destruct (Hex x w E) as [Hlt _].
      rewrite Hw in Hlt. apply lt_total; [done..|]. apply lt_total in Hlt; [|done..]. by eapply (cmp_le_lt_trans f64_total_cmp).
  - intros x Hx. destruct (R3 x Hx) as (c & w & Hc & Hr & E & Hlt). destruct (Hcand c Hc) as (e & He & Hid & Hm & Hk & Hw & Hp).
    destruct (Ein _ _ _ E) as (t & Hin & Hidt & <- & Htw & Hkt). exists t, e, (m_edge_id c), (m_patch c). rewrite <-Hw. split_and!; try done. congruence.
  - intros e He Hm. destruct (Hedge e He Hm) as (c & Hc & _ & Hk & Hw).
    destruct (R4 c Hc) as [(c' & Hc' & Hr & Hk' & Hh)|(x & w & E & Hh & Hx)].
    + left. destruct (Hcand c' Hc') as (e' & He' & Hid' & Hm' & Hk2 & Hw2 & _). exists e', (m_edge_id c'), (m_patch c').
      rewrite <-Hw, <-Hw2. split_and!; try done. congruence.
    + right. destruct (Ein _ _ _ E) as (t & Hin & Hidt & <- & Htw & Hkt). exists t, x. rewrite <-Hw. split_and!; try done. congruence.
Qed.

(** C18: The plan of a merge decides every edge of the source once, and keeps
    of each conflict the heaviest. The identifiers redirected and dropped are
    those of the source's edges, each once. A redirected edge is neither
    automatic nor between the two nodes, only the end at the source is
    rewritten, it is the heaviest of the source's edges with its direction,
    other end and type, and it outweighs every such edge of the target. An
    edge of the target goes only for a redirected edge that is heavier. And
    any other edge of the source that is no automatic one and not between the
    two gives way to one that is as heavy and stays. *)
Theorem every_edge_is_decided_once (src_edges tgt_edges : list KnowledgeEdge) :
  Forall fine src_edges -> Forall fine tgt_edges -> NoDup (omap e_id tgt_edges) ->
  decided src_edges tgt_edges (classify_and_resolve src_edges tgt_edges src tgt).
Proof. apply plan_decides. Qed.
End decided.
