(* ===== verification/Merged.v ===== *)
(** * The runs of a merge ([crates/embra-brain/src/knowledge/merge.rs])

    The theorems on [run_knowledge_merge] of [Merge]: no run loses a relation,
    wherever it is cut, and one that ends well leaves no edge of the source.
    The module [MergeDemo] has concrete runs, aborted ones included. *)

From S2P Require Import Prelude Bytes F64 Json Errors Externals Filter Secondary Sort Backend Storage Document Refinement Mutations Bulk History Text Edges Caps Guarantees Client Derive Merge Decided.

Create HintDb keeps_inv.

(** ** Stored edges *)

Section stored.
Context `{SerdeJson} `{!SerdeLaws} `{StorageSerde} `{RegexLib}.

(** A document of the edge collection: an object under its own identifier,
    its weight a number other than negative zero, unless it is automatic. *)
Definition good (id : string) (doc : Value) : Prop :=
  (exists m, doc = VObject m) /\ str_field doc "_id" = Some id /\
  forall t, str_field doc "edge_type" ≫= parse_lossy = Some t -> is_auto_derived t = false ->
    nice (default f64_zero (get doc "weight" ≫= as_f64)).
Definition good_edges (d : db) : Prop := forall id doc, at_doc d EDGES id = Some doc -> good id doc.
(** What others may write. *)
Definition good_write (c id : string) (doc : Value) : Prop := c = EDGES -> good id doc.

Lemma good_adds d d' : adds good_write d d' -> good_edges d -> good_edges d'.
Proof.
  intros [K N] Hg id doc Hd. destruct (at_doc d EDGES id) as [doc'|] eqn:E; [|by apply (N EDGES)].
  rewrite (K _ _ _ E) in Hd. injection Hd as <-. by apply Hg.
Qed.

Lemma parse_lossy_proper s t : parse_lossy s = Some t -> proper_type t.
Proof.
  unfold parse_lossy. case_bool_decide; [done|]. intros [= <-] s' E. destruct (edge_type_from_str (trim s)) as [u|] eqn:Eu; cbn in E; [|congruence].
  exfalso. unfold edge_type_from_str in Eu. apply find_some in Eu as [Hin _]. subst u. cbn in Hin. naive_solver.
Qed.
Lemma parse_edge_inv doc e : parse_edge doc = Some e -> (str_field doc "edge_type" ≫= parse_lossy) = Some (e_type e) /\
  str_field doc "source_id" = Some (source_id e) /\ str_field doc "source_collection" = Some (source_collection e) /\
  str_field doc "target_id" = Some (target_id e) /\ str_field doc "target_collection" = Some (target_collection e) /\
  e_id e = str_field doc "_id" /\ weight e = default f64_zero (get doc "weight" ≫= as_f64).
Proof.
  unfold parse_edge.
  intros (? & E0 & (? & E & (? & E1 & (? & E2 & (? & E3 & (? & E4 & [= <-])%bind_Some)%bind_Some)%bind_Some)%bind_Some)%bind_Some)%bind_Some.
  rewrite E0. cbn. by rewrite E.
Qed.
Lemma good_fine id doc e : good id doc -> parse_edge doc = Some e -> fine e /\ e_id e = Some id.
Proof.
  intros (_ & Hid & Hw) (Ht & _ & _ & _ & _ & Hi & Hwe)%parse_edge_inv. rewrite Hi, Hid. split; [|done].
  split; [by rewrite Hi, Hid|]. split.
  - apply bind_Some in Ht as (s & _ & Ht). by eapply parse_lossy_proper.
  - rewrite Hwe. by apply Hw.
Qed.

(** ** The ends of an edge *)

Definition from_end (e : KnowledgeEdge) : NodeKey := (source_collection e, source_id e).
Definition to_end (e : KnowledgeEdge) : NodeKey := (target_collection e, target_id e).
Definition touches_node (key : NodeKey) (e : KnowledgeEdge) : Prop := from_end e = key \/ to_end e = key.
Lemma is_source_side_spec e key : is_source_side e key = bool_decide (from_end e = key).
Proof. unfold is_source_side, from_end. destruct key. repeat case_bool_decide; naive_solver. Qed.
Lemma counterpart_spec e key : counterpart e key = if bool_decide (from_end e = key) then to_end e else from_end e.
Proof. unfold counterpart. by rewrite is_source_side_spec. Qed.

(** ** What an arm reads *)

Lemma eq_entry_spec m k s : count_char dot k = 0 -> k <> "$and" -> k <> "$or" -> k <> "$not" ->
  entry_sem (VObject m) (k, VString s) = bool_decide (str_field (VObject m) k = Some s).
Proof.
  intros. rewrite entry_plain by done. unfold str_field. destruct (get (VObject m) k) as [[]|]; cbn; try done;
    try (by rewrite bool_decide_eq_false_2 by done). apply bool_decide_ext. naive_solver.
Qed.
Lemma source_arm_sem m e key : parse_edge (VObject m) = Some e ->
  filter_sem (VObject m) (VObject (source_arm_filter key.1 key.2 None None)) = true <-> from_end e = key.
Proof.
  intros (_ & E1 & E2 & _)%parse_edge_inv. change (source_arm_filter key.1 key.2 None None) with
    [("source_collection", VString key.1); ("source_id", VString key.2)].
  rewrite filter_sem_object. cbn [forallb]. rewrite !eq_entry_spec, E1, E2 by done. rewrite andb_true_r, andb_true_iff, !bool_decide_eq_true.
  unfold from_end. destruct key. cbn. naive_solver.
Qed.
Lemma target_arm_sem m e key : parse_edge (VObject m) = Some e ->
  filter_sem (VObject m) (VObject (target_arm_filter key.1 key.2 None None)) = true <-> to_end e = key.
Proof.
  intros (_ & _ & _ & E1 & E2 & _)%parse_edge_inv. change (target_arm_filter key.1 key.2 None None) with
    [("target_collection", VString key.1); ("target_id", VString key.2)].
  rewrite filter_sem_object. cbn [forallb]. rewrite !eq_entry_spec, E1, E2 by done. rewrite andb_true_r, andb_true_iff, !bool_decide_eq_true.
  unfold to_end. destruct key. cbn. naive_solver.
Qed.

(** The loop that collects the edges of an arm. *)
Lemma add_arm_elem docs : forall out e, e ∈ add_arm docs out -> e ∈ out \/ exists doc, doc ∈ docs /\ parse_edge doc = Some e.
Proof.
  induction docs as [|doc docs IH]; intros out e; cbn; [by left|]. destruct (parse_edge doc) as [x|] eqn:Hp.
  - destruct (e_id x) as [id|]; [|intros [?|(y & ? & ?)]%IH; [by left|right; exists y; set_solver]].
    intros [Hin|(y & ? & ?)]%IH; [|right; exists y; set_solver]. case_decide; [by left|].
    apply elem_of_app in Hin as [?|Hin%list_elem_of_singleton]; [by left|]. subst. right. exists doc. set_solver.
  - intros [?|(y & ? & ?)]%IH; [by left|right; exists y; set_solver].
Qed.
Lemma add_arm_mono docs : forall out e, e ∈ out -> e ∈ add_arm docs out.
Proof.
  induction docs as [|doc docs IH]; intros out e He; cbn; [done|]. destruct (parse_edge doc) as [x|]; [|by apply IH].
  destruct (e_id x); [|by apply IH]. apply IH. case_decide; [done|]. apply elem_of_app. by left.
Qed.
Lemma seen_ids_elem id l : id ∈ seen_ids l <-> exists e, e ∈ l /\ e_id e = Some id.
Proof. unfold seen_ids. rewrite elem_of_list_to_set, list_elem_of_omap. done. Qed.
Lemma add_arm_complete docs : forall out doc e id, doc ∈ docs -> parse_edge doc = Some e -> e_id e = Some id ->
  exists e', e' ∈ add_arm docs out /\ e_id e' = Some id.
Proof.
  induction docs as [|x docs IH]; intros out doc e id Hin Hp Hid; [by apply elem_of_nil in Hin|]. cbn. apply elem_of_cons in Hin as [<-|Hin].
  - rewrite Hp, Hid. case_decide as Hs.
    + apply seen_ids_elem in Hs as (e' & ? & ?). exists e'. split; [by apply add_arm_mono|done].
    + exists e. split; [|done]. apply add_arm_mono, elem_of_app. right. by left.
  - destruct (parse_edge x) as [y|]; [|by eapply IH]. destruct (e_id y); by eapply IH.
Qed.
Lemma add_arm_NoDup docs : forall out, NoDup (omap e_id out) -> NoDup (omap e_id (add_arm docs out)).
Proof.
  induction docs as [|doc docs IH]; intros out Hn; cbn; [done|]. destruct (parse_edge doc) as [x|]; [|by apply IH].
  destruct (e_id x) as [id|] eqn:Hid; [|by apply IH]. apply IH. case_decide as Hs; [done|]. rewrite omap_app. cbn. rewrite Hid.
  apply NoDup_app. split_and!; [done| |apply NoDup_singleton]. intros y (e & He & Hy)%list_elem_of_omap Hy'%list_elem_of_singleton. subst y.
  apply Hs, seen_ids_elem. eauto.
Qed.
End stored.

(** ** What a fetch reads *)

Section fetch.
Context `{SerdeJson} `{!SerdeLaws} `{StorageSerde} `{RegexLib}.
Context (refusal : AppError -> string) (moments : nat -> Moment) (max_query_limit : Z).
Context (Hmax : MERGE_EDGE_ARM_LIMIT <= max_query_limit).
Context (Hothers : forall k d, adds good_write d (others (moments k) d)).

Lemma fetch_arm_spec key filter out w l w' :
  fetch_arm refusal moments max_query_limit key (edge_query_body filter MERGE_EDGE_ARM_LIMIT) out w = (Ok l, w') ->
  adds good_write (database w) (database w') /\ exists docs, l = add_arm docs out /\
    forall doc, doc ∈ docs <-> (exists id, at_doc (database w') EDGES id = Some doc) /\ filter_sem doc (VObject filter) = true.
Proof.
  intros (docs & w1 & E & Hl)%bind_inv. destruct (Z.leb_spec MERGE_EDGE_ARM_LIMIT (lenZ docs)); [done|]. injection Hl as <- <-.
  unfold client_err in E. destruct (db_query _ _ _ _ _ w) as [[docs'|] w2] eqn:Eq; [|done]. injection E as -> ->.
  destruct (query_inv _ _ _ _ _ _ _ _ Eq) as (stored & Hs & Hq & Hw). rewrite Hw. split; [apply Hothers|]. exists docs. split; [done|].
  intros doc. unfold at_doc. rewrite Hs. cbn [mbind option_bind]. apply (window_complete max_query_limit _ _ _ (VObject filter) MERGE_EDGE_ARM_LIMIT Hq); done.
Qed.

Lemma fetch_edges_spec key w l w' : good_edges (database w) ->
  fetch_node_edges refusal moments max_query_limit key w = (Ok l, w') ->
  adds good_write (database w) (database w') /\ NoDup (omap e_id l) /\
  (forall e, e ∈ l -> exists id doc, e_id e = Some id /\ at_doc (database w') EDGES id = Some doc /\ parse_edge doc = Some e /\ touches_node key e) /\
  (forall id doc e, at_doc (database w) EDGES id = Some doc -> parse_edge doc = Some e -> touches_node key e -> e ∈ l).
Proof.
  intros Hg. unfold fetch_node_edges, merge_arm_bodies. intros (out & w1 & E1 & E2)%bind_inv.
  apply fetch_arm_spec in E1 as [A1 (docs1 & -> & D1)]. apply fetch_arm_spec in E2 as [A2 (docs2 & -> & D2)].
  pose proof (good_adds _ _ A1 Hg) as G1. pose proof (good_adds _ _ A2 G1) as G2. destruct A1 as [K1 N1], A2 as [K2 N2].
  (* what an arm gave is in the collection at the end *)
  assert (Hin : forall e, e ∈ add_arm docs2 (add_arm docs1 []) ->
    exists id doc, e_id e = Some id /\ at_doc (database w') EDGES id = Some doc /\ parse_edge doc = Some e /\ touches_node key e).
  { intros e [[He|(doc & Hd & Hp)]%add_arm_elem|(doc & Hd & Hp)]%add_arm_elem; [by apply elem_of_nil in He| |].
    - apply D1 in Hd as [[id Hid] Hf]. destruct (G1 _ _ Hid) as ([m ->] & _). apply (source_arm_sem m e key Hp) in Hf.
      exists id, (VObject m). destruct (good_fine id _ _ (G1 _ _ Hid) Hp) as [_ ?]. split_and!; [done|by apply K2|done|by left].
    - apply D2 in Hd as [[id Hid] Hf]. destruct (G2 _ _ Hid) as ([m ->] & _). apply (target_arm_sem m e key Hp) in Hf.
      exists id, (VObject m). destruct (good_fine id _ _ (G2 _ _ Hid) Hp) as [_ ?]. split_and!; [done..|by right]. }
  split_and!; [eapply adds_trans; by split| |done|].
  - apply add_arm_NoDup, add_arm_NoDup, NoDup_nil_2.
  - intros id doc e Hat Hp Ht. destruct (good_fine id doc e (Hg _ _ Hat) Hp) as [_ Hid]. destruct (Hg _ _ Hat) as ([m ->] & _).
    assert (He : exists e', e' ∈ add_arm docs2 (add_arm docs1 []) /\ e_id e' = Some id).
    { destruct Ht as [Ht|Ht].
      - destruct (add_arm_complete docs1 [] (VObject m) e id) as (e' & He' & ?); [|done..|].
        + apply D1. split; [exists id; by apply K1|]. by apply (source_arm_sem m e key Hp).
        + exists e'. split; [by apply add_arm_mono|done].
      - apply (add_arm_complete docs2 _ (VObject m) e id); [|done..].
        apply D2. split; [exists id; by apply K2, K1|]. by apply (target_arm_sem m e key Hp). }
    destruct He as (e' & He' & Hid'). destruct (Hin e' He') as (id' & doc' & E1 & E2 & E3 & _). rewrite Hid' in E1. injection E1 as <-.
    rewrite (K2 _ _ _ (K1 _ _ _ Hat)) in E2. injection E2 as <-. congruence.
Qed.
End fetch.

(** ** What the writes of a merge do to the edges *)

Section effects.
Context `{SerdeJson} `{!SerdeLaws} `{StorageSerde} `{RegexLib}.

Lemma patch_at now c id patch d c' id' :
  at_doc (spec_partial_update now c id patch d).2 c' id' = at_doc d c' id' \/
  (c', id') = (c, id) /\ exists old doc, at_doc d c id = Some old /\ replacement old id now (json_merge_patch patch old) = Ok doc /\
    at_doc (spec_partial_update now c id patch d).2 c id = Some doc.
Proof.
  unfold spec_partial_update, spec_rewrite, on_docs. destruct (d !! c) as [docs|] eqn:Hc; [|by left].
  assert (Hsame : <[c := docs]> d = d) by by apply insert_id.
  destruct (docs !! id) as [old|] eqn:Hold; cbn; [|left; by rewrite Hsame].
  destruct (replacement _ _ _ _) as [doc|] eqn:Hr; cbn; [|left; by rewrite Hsame]. destruct (sized_bytes doc); cbn; [|left; by rewrite Hsame].
  rewrite at_insert. case_decide as Ec; [subst c'|by left]. destruct (decide (id = id')) as [<-|Hi].
  - right. split; [done|]. exists old, doc. rewrite at_insert, decide_True by done. unfold at_doc. rewrite Hc. cbn. by rewrite lookup_insert_eq.
  - left. rewrite lookup_insert_ne by done. unfold at_doc. by rewrite Hc.
Qed.
Lemma patch_other now c id patch d id' : c <> EDGES ->
  at_doc (spec_partial_update now c id patch d).2 EDGES id' = at_doc d EDGES id'.
Proof. intros Hc. destruct (patch_at now c id patch d EDGES id') as [?|[[= ? _] _]]; [done|congruence]. Qed.
Lemma delete_other c id d id' : c <> EDGES -> at_doc (spec_delete c id d).2 EDGES id' = at_doc d EDGES id'.
Proof.
  intros Hc. unfold spec_delete, on_docs. destruct (d !! c) as [docs|]; [|done]. destruct (docs !! id); cbn; by rewrite at_insert, decide_False.
Qed.

(** An edge with the end it had at the source moved to the target. *)
Definition moved (tgt : NodeKey) (source_side : bool) (e : KnowledgeEdge) : KnowledgeEdge :=
  if source_side then
    {| e_id := e_id e; source_id := tgt.2; source_collection := tgt.1; target_id := target_id e; target_collection := target_collection e;
       e_type := e_type e; weight := weight e; metadata := metadata e; created_at := created_at e |}
  else
    {| e_id := e_id e; source_id := source_id e; source_collection := source_collection e; target_id := tgt.2; target_collection := tgt.1;
       e_type := e_type e; weight := weight e; metadata := metadata e; created_at := created_at e |}.

Lemma str_field_insert_eq m k s : str_field (VObject (map_insert k (VString s) m)) k = Some s.
Proof. unfold str_field. cbn. by rewrite map_get_insert_eq. Qed.
Lemma get_insert_ne m k k' v : k <> k' -> get (VObject (map_insert k v m)) k' = get (VObject m) k'.
Proof. intros. cbn. by rewrite map_get_insert_ne. Qed.
Lemma str_field_insert_ne m k k' v : k <> k' -> str_field (VObject (map_insert k v m)) k' = str_field (VObject m) k'.
Proof. intros. unfold str_field. by rewrite get_insert_ne. Qed.
(** Reads a field through the insertions of a patch. *)
Ltac read_fields := repeat first [rewrite str_field_insert_eq | rewrite str_field_insert_ne by done | rewrite get_insert_ne by done].

Lemma redirect_doc id now tgt b doc doc' : good id doc -> replacement doc id now (json_merge_patch (redirect_patch b tgt) doc) = Ok doc' ->
  good id doc' /\ forall e, parse_edge doc = Some e -> parse_edge doc' = Some (moved tgt b e).
Proof.
  intros ([m ->] & Hid & Hw) Hr. unfold replacement in Hr. apply bind_ok in Hr as (u & _ & Hr).
  set (k1 := if b then "source_collection" else "target_collection"). set (k2 := if b then "source_id" else "target_id").
  assert (Hp : json_merge_patch (redirect_patch b tgt) (VObject m) =
    VObject (map_insert k2 (VString tgt.2) (map_insert k1 (VString tgt.1) m))) by (by destruct b).
  rewrite Hp in Hr. cbn [as_object ok_or] in Hr. cbn [mbind result_bind] in Hr. injection Hr as <-. clear Hp.
  split.
  - split; [by eexists|]. split; [by read_fields|]. intros t. destruct b; subst k1 k2; cbv iota; read_fields; apply Hw.
  - intros e. unfold parse_edge. destruct b; subst k1 k2; cbv iota; read_fields.
    all: intros (? & -> & (? & E & (? & E1 & (? & E2 & (? & E3 & (? & E4 & [= <-])%bind_Some)%bind_Some)%bind_Some)%bind_Some)%bind_Some)%bind_Some.
    all: cbn [mbind option_bind]; rewrite E; cbn [mbind option_bind]; rewrite ?E1, ?E2, ?E3, ?E4; cbn [mbind option_bind]; by rewrite Hid.
Qed.

Lemma delete_edges_at chunk d : good_edges d ->
  let out := with_filter (edge_ids_delete_filter chunk) d (fun f => spec_delete_by_query EDGES f d) in
  (forall c id, at_doc out.2 c id = at_doc d c id \/ c = EDGES /\ id ∈ chunk /\ at_doc out.2 c id = None) /\
  (is_ok out.1 = true -> forall id, id ∈ chunk -> at_doc out.2 EDGES id = None).
Proof.
  intros Hg out. unfold with_filter in out. destruct (parse_filter _) as [f|e] eqn:Hf; [|subst out; split; [by left|done]].
  assert (Hmatch : forall id doc, at_doc d EDGES id = Some doc -> matches f doc = bool_decide (id ∈ chunk)).
  { intros id doc Hd. destruct (Hg _ _ Hd) as ([m ->] & Hid%str_field_get & _). rewrite (parse_filter_node_sem _ _ 0 f Hf).
    change (edge_ids_delete_filter chunk) with (VObject [("_id", VObject [("$in", json_strings chunk)])]).
    rewrite filter_sem_object. cbn [forallb]. rewrite andb_true_r, entry_plain by done. rewrite Hid. cbn [field_sem forallb].
    rewrite andb_true_r. apply (strings_in id chunk). }
  subst out. unfold spec_delete_by_query, on_docs. destruct (d !! EDGES) as [docs|] eqn:Hd; [|split; [by left|done]]. cbn [fst snd is_ok].
  assert (Hdocs : forall id, at_doc d EDGES id = docs !! id) by (intros id; unfold at_doc; by rewrite Hd).
  assert (Hone : forall id, filter (fun x : string * Value => matches f x.2 = false) docs !! id =
    if bool_decide (id ∈ chunk) then None else docs !! id).
  { intros id. destruct (docs !! id) as [doc|] eqn:Hid.
    - specialize (Hmatch id doc ltac:(by rewrite Hdocs)). case_bool_decide.
      + apply map_lookup_filter_None. right. intros doc' E. rewrite Hid in E. injection E as <-. cbn. by rewrite Hmatch.
      + by apply map_lookup_filter_Some.
    - destruct (bool_decide _); apply map_lookup_filter_None; by left. }
  split.
  - intros c id. rewrite at_insert. case_decide as Ec; [subst c|by left]. rewrite Hone. case_bool_decide; [by right|]. left. by rewrite Hdocs.
  - intros _ id Hin. rewrite at_insert, decide_True by done. rewrite Hone. by rewrite bool_decide_eq_true_2.
Qed.
End effects.

(** ** Invariants of a client *)

Section keeping.
Context `{SerdeJson} `{StorageSerde} `{RegexLib}.
Context (refusal : AppError -> string) (moments : nat -> Moment).
(** From a moment on, others keep the invariant. *)
Context (n0 : nat) (I : db -> Prop) (Hothers : forall k d, (n0 <= k)%nat -> I d -> I (others (moments k) d)).

Definition keeps_inv {E A} (m : Client E A) : Prop := forall w, (n0 <= moment w)%nat -> I (database w) ->
  (n0 <= moment (m w).2)%nat /\ I (database (m w).2).
Lemma keeps_inv_ret {E A} (a : A) : keeps_inv (E := E) (mret a).
Proof. by intros w. Qed.
Lemma keeps_inv_lift {E A} (r : result E A) : keeps_inv (client_lift r).
Proof. by intros w. Qed.
Lemma keeps_inv_now {E} : keeps_inv (utc_now (E := E) moments).
Proof. by intros w. Qed.
Lemma keeps_inv_bind {E A B} (m : Client E A) (f : A -> Client E B) : keeps_inv m -> (forall a, keeps_inv (f a)) -> keeps_inv (m ≫= f).
Proof.
  intros Hm Hf w Hk Hw. unfold mbind, client_bind. specialize (Hm w Hk Hw). destruct (m w) as [[a|e] w1]; [|done].
  destruct Hm as [Hk1 Hw1]. exact (Hf a w1 Hk1 Hw1).
Qed.
Lemma keeps_inv_try {E F A} (m : Client E A) : keeps_inv m -> keeps_inv (client_try (F := F) m).
Proof. intros Hm w Hk Hw. unfold client_try. specialize (Hm w Hk Hw). by destruct (m w). Qed.
Lemma keeps_inv_err {E F A} (f : E -> F) (m : Client E A) : keeps_inv m -> keeps_inv (client_err f m).
Proof. intros Hm w Hk Hw. unfold client_err. specialize (Hm w Hk Hw). by destruct (m w). Qed.
Lemma keeps_inv_request {A} segments (spec : Moment -> db -> res A * db) :
  (forall k d, I d -> I (spec (moments k) d).2) -> keeps_inv (request refusal moments segments spec).
Proof.
  intros Hs. apply keeps_inv_bind; [apply keeps_inv_lift|]. intros _ w Hk Hw. unfold exchange.
  pose proof (Hothers (moment w) _ Hk Hw) as Ho. specialize (Hs (moment w) _ Ho). destruct (spec _ _) as [r d]. destruct (fate _); cbn; (split; [lia|done]).
Qed.
Lemma keeps_inv_query limit c body : keeps_inv (db_query refusal moments limit c body).
Proof. apply keeps_inv_request. intros k d Hd. by rewrite at_on_docs. Qed.
Lemma keeps_inv_read c id : keeps_inv (db_read refusal moments c id).
Proof. apply keeps_inv_request. intros k d Hd. unfold spec_get. by rewrite at_on_docs. Qed.
End keeping.
#[export] Hint Resolve keeps_inv_ret keeps_inv_lift keeps_inv_now keeps_inv_bind keeps_inv_try keeps_inv_err keeps_inv_query keeps_inv_read : keeps_inv.

Lemma keeps_inv_grows {E A} (I : db -> Prop) P (m : Client E A) : (forall d d', adds P d d' -> I d -> I d') -> grows P m -> keeps_inv 0 I m.
Proof. intros HP Hm w _ Hw. split; [lia|]. by eapply HP. Qed.
Lemma chunks_elem {A} n (l : list A) x : (0 < n)%nat -> x ∈ l <-> exists c, c ∈ chunks n l /\ x ∈ c.
Proof.
  intros Hn. rewrite <-(concat_chunks n l Hn) at 1. rewrite list_elem_of_In, in_concat. setoid_rewrite list_elem_of_In. naive_solver.
Qed.

(** ** No relation is lost *)

(** The relation an edge of either node stands for, when it does not join the
    two: whether it leaves them, its other end, its type. *)
Definition relation (src tgt : NodeKey) (e : KnowledgeEdge) : option ConflictKey :=
  let own k := bool_decide (k = src) || bool_decide (k = tgt) in
  match own (from_end e), own (to_end e) with
  | true, false => Some (true, (target_collection e, (target_id e, edge_type_str (e_type e))))
  | false, true => Some (false, (source_collection e, (source_id e, edge_type_str (e_type e))))
  | _, _ => None
  end.
(** The document stands for a relation that is not an automatic one. *)
Definition relates `{SerdeJson} (src tgt : NodeKey) (doc : Value) (k : ConflictKey) (w : f64) : Prop :=
  exists e, parse_edge doc = Some e /\ is_auto_derived (e_type e) = false /\ relation src tgt e = Some k /\ weight e = w.
(** Every relation of the first database is in the second, as heavy. *)
Definition covers `{SerdeJson} (src tgt : NodeKey) (d d' : db) : Prop := forall id doc k w,
  at_doc d EDGES id = Some doc -> relates src tgt doc k w ->
  exists id' doc' w', at_doc d' EDGES id' = Some doc' /\ relates src tgt doc' k w' /\ no_heavier w w'.
Lemma covers_refl `{SerdeJson} src tgt d : covers src tgt d d.
Proof. intros id doc k w Hd Hr. exists id, doc, w. split_and!; [done..|apply no_heavier_refl]. Qed.
Lemma covers_trans `{SerdeJson} src tgt d1 d2 d3 : covers src tgt d1 d2 -> covers src tgt d2 d3 -> covers src tgt d1 d3.
Proof.
  intros C1 C2 id doc k w Hd Hr. destruct (C1 _ _ _ _ Hd Hr) as (id2 & doc2 & w2 & H2 & R2 & L2).
  destruct (C2 _ _ _ _ H2 R2) as (id3 & doc3 & w3 & H3 & R3 & L3). exists id3, doc3, w3. split_and!; [done..|by eapply no_heavier_trans].
Qed.
Lemma covers_adds `{SerdeJson} P src tgt d d' : adds P d d' -> covers src tgt d d'.
Proof. intros [K _] id doc k w Hd Hr. exists id, doc, w. split_and!; [by apply K|done|apply no_heavier_refl]. Qed.

Section lossless.
Context `{SerdeJson} `{!SerdeLaws} `{StorageSerde} `{RegexLib}.
Context (src tgt : NodeKey) (Hne : src <> tgt).

Lemma movable_relation e : touches_node src e -> movable src tgt e = true ->
  relation src tgt e = if bool_decide (counterpart e src = src) then None else Some (conflict_key e src).
Proof.
  unfold movable, relation, conflict_key, touches_node. rewrite is_source_side_spec, counterpart_spec.
  intros Ht [Hc%negb_true_iff%bool_decide_eq_false _]%andb_true_iff. unfold from_end, to_end in *.
  repeat (case_bool_decide; cbn); naive_solver.
Qed.
Lemma in_the_way_relation t : touches_node tgt t -> in_the_way src tgt t ->
  relation src tgt t = if bool_decide (counterpart t tgt = tgt) then None else Some (conflict_key t tgt).
Proof.
  unfold in_the_way, relation, conflict_key, touches_node. rewrite is_source_side_spec, counterpart_spec. unfold from_end, to_end in *.
  intros Ht Hw. repeat (case_bool_decide; cbn); naive_solver.
Qed.
Lemma moved_ends (b : bool) e : from_end (moved tgt b e) = (if b then tgt else from_end e) /\ to_end (moved tgt b e) = (if b then to_end e else tgt).
Proof. by destruct tgt, b. Qed.
Lemma own_target : bool_decide (tgt = src) || bool_decide (tgt = tgt) = true.
Proof. rewrite (bool_decide_eq_true_2 (tgt = tgt)) by done. apply orb_true_r. Qed.
Lemma moved_relation e : touches_node src e -> relation src tgt e <> None ->
  relation src tgt (moved tgt (is_source_side e src) e) = relation src tgt e.
Proof.
  rewrite is_source_side_spec. unfold relation. cbn zeta. intros Ht _. destruct (decide (from_end e = src)) as [Hf|Hf].
  - rewrite (bool_decide_eq_true_2 (from_end e = src)) by done. destruct (moved_ends true e) as [-> ->]. by rewrite own_target.
  - destruct Ht as [?|Ht]; [done|]. rewrite (bool_decide_eq_false_2 (from_end e = src)) by done.
    destruct (moved_ends false e) as [-> ->]. rewrite own_target, (bool_decide_eq_true_2 (to_end e = src)) by done. cbn.
    by rewrite (bool_decide_eq_false_2 (from_end e = src)).
Qed.
Lemma moved_touches e : touches_node src (moved tgt (is_source_side e src) e) -> touches_node src e -> relation src tgt e = None.
Proof.
  rewrite is_source_side_spec. unfold touches_node, relation. cbn zeta. destruct (decide (from_end e = src)) as [Hf|Hf].
  - rewrite (bool_decide_eq_true_2 (from_end e = src)) by done. destruct (moved_ends true e) as [-> ->]. intros [?|Ht] _; [congruence|].
    by rewrite (bool_decide_eq_true_2 (to_end e = src)).
  - rewrite (bool_decide_eq_false_2 (from_end e = src)) by done. destruct (moved_ends false e) as [-> ->]. intros [?|?]; congruence.
Qed.
Lemma pair_relation e : touches_node src e -> counterpart e src = tgt -> relation src tgt e = None.
Proof.
  rewrite counterpart_spec. unfold touches_node, relation, from_end, to_end. intros Ht. repeat (case_bool_decide; cbn); naive_solver.
Qed.

(** *** What the steps leave of the edges of the plan *)

Context (d1 : db) (src_edges tgt_edges : list KnowledgeEdge) (disp : EdgeDisposition).
(** The plan, and the database it was made on. *)
Definition read_from (key : NodeKey) (e : KnowledgeEdge) : Prop :=
  exists id doc, e_id e = Some id /\ at_doc d1 EDGES id = Some doc /\ parse_edge doc = Some e /\ touches_node key e.
Context (Hsrc : forall e, e ∈ src_edges -> read_from src e) (Htgt : forall e, e ∈ tgt_edges -> read_from tgt e)
        (Hsrc_all : forall id doc e, at_doc d1 EDGES id = Some doc -> parse_edge doc = Some e -> touches_node src e -> e ∈ src_edges)
        (Hgood : good_edges d1) (Hids : NoDup (omap e_id src_edges)) (Hdec : decided src tgt src_edges tgt_edges disp).

(** A document the steps may delete: a loser, a dropped edge, or one that
    stands for no relation. *)
Definition settled (id : string) : Prop :=
  id ∈ delete_conflict_target disp \/ id ∈ drop_ids disp \/
  forall doc e, at_doc d1 EDGES id = Some doc -> parse_edge doc = Some e -> is_auto_derived (e_type e) = true \/ relation src tgt e = None.
(** Every edge of the plan's database is as it was, redirected, or settled. *)
Definition on_course (d : db) : Prop := good_edges d /\ forall id doc0, at_doc d1 EDGES id = Some doc0 ->
  at_doc d EDGES id = Some doc0 \/
  (exists patch e0 doc, (id, patch) ∈ redirects disp /\ parse_edge doc0 = Some e0 /\ at_doc d EDGES id = Some doc /\
     parse_edge doc = Some (moved tgt (is_source_side e0 src) e0)) \/
  settled id.

Lemma src_edge id doc e e' : at_doc d1 EDGES id = Some doc -> parse_edge doc = Some e -> e' ∈ src_edges -> e_id e' = Some id -> e' = e.
Proof. intros Hd Hp He' Hid. destruct (Hsrc e' He') as (id' & doc' & E1 & E2 & E3 & _). rewrite Hid in E1. injection E1 as <-. congruence. Qed.
Lemma tgt_edge id doc e e' : at_doc d1 EDGES id = Some doc -> parse_edge doc = Some e -> e' ∈ tgt_edges -> e_id e' = Some id -> e' = e.
Proof. intros Hd Hp He' Hid. destruct (Htgt e' He') as (id' & doc' & E1 & E2 & E3 & _). rewrite Hid in E1. injection E1 as <-. congruence. Qed.
Lemma not_in_the_way e : touches_node src e -> touches_node tgt e -> in_the_way src tgt e -> False.
Proof.
  unfold in_the_way. rewrite counterpart_spec. unfold touches_node. intros Hs Ht Hw. case_bool_decide; destruct Hs, Ht; congruence.
Qed.
Lemma redirected_once id patch : (id, patch) ∈ redirects disp -> id ∉ drop_ids disp.
Proof.
  intros Hr Hd. pose proof Hids as Hn. rewrite <-(dc_once _ _ _ _ _ Hdec) in Hn. apply NoDup_app in Hn as (_ & Hn & _).
  apply (Hn id); [|done]. apply list_elem_of_fmap. by exists (id, patch).
Qed.

(** A redirected edge is there, wherever it points. *)
Lemma redirected_stays d e id patch k : on_course d -> e ∈ src_edges -> e_id e = Some id -> (id, patch) ∈ redirects disp ->
  is_auto_derived (e_type e) = false -> relation src tgt e = Some k ->
  exists doc, at_doc d EDGES id = Some doc /\ relates src tgt doc k (weight e).
Proof.
  intros [_ Hd] He Hid Hr Ha Hk. destruct (Hsrc e He) as (id' & doc0 & Hid' & Hat1 & Hp & Ht). rewrite Hid in Hid'. injection Hid' as <-.
  destruct (Hd id doc0 Hat1) as [Hat|[(patch' & e0 & doc & _ & Hp0 & Hat & Hpm)|Hs]].
  - exists doc0. split; [done|]. by exists e.
  - exists doc. split; [done|]. rewrite Hp in Hp0. injection Hp0 as <-. eexists. split; [exact Hpm|].
    split; [by destruct (is_source_side e src)|]. split; [|by destruct (is_source_side e src)].
    rewrite moved_relation; [done..|]. by rewrite Hk.
  - exfalso. destruct Hs as [Hs|[Hs|Hs]].
    + destruct (dc_loser _ _ _ _ _ Hdec id Hs) as (t & e' & id' & patch' & Hin & Hidt & Hw & _).
      assert (Et : t = e) by (by eapply tgt_edge). subst t. destruct (Htgt e Hin) as (? & ? & _ & _ & _ & Htt). by eapply not_in_the_way.
    + by eapply redirected_once.
    + destruct (Hs doc0 e Hat1 Hp); congruence.
Qed.

Lemma read_fine key e : read_from key e -> fine e.
Proof. intros (id & doc & _ & Hat & Hp & _). by apply (good_fine id doc e (Hgood _ _ Hat)). Qed.
Lemma same_counterpart e e' key key' : conflict_key e key = conflict_key e' key' -> counterpart e key = counterpart e' key'.
Proof. unfold conflict_key. destruct (counterpart e key), (counterpart e' key'). cbn. congruence. Qed.
Lemma on_course_covers d : on_course d -> covers src tgt d1 d.
Proof.
  intros Hd id doc0 k w Hat1 (e & Hp & Ha & Hk & <-). pose proof Hd as [_ Hc].
  assert (Hpresent : forall e id, e ∈ src_edges -> e_id e = Some id -> (exists patch, (id, patch) ∈ redirects disp) ->
    is_auto_derived (e_type e) = false -> relation src tgt e = Some k -> exists doc, at_doc d EDGES id = Some doc /\ relates src tgt doc k (weight e)).
  { intros e' id' He Hid [patch Hr] ??. by eapply redirected_stays. }
  assert (Hmv : forall e', e' ∈ src_edges -> movable src tgt e' = true -> conflict_key e' src = k ->
    counterpart e' src <> src -> is_auto_derived (e_type e') = false /\ relation src tgt e' = Some k).
  { intros e' He' Hm Hk' Hcp. destruct (Hsrc e' He') as (_ & _ & _ & _ & _ & Ht'). split.
    - unfold movable in Hm. by apply andb_true_iff in Hm as [_ ?%negb_true_iff].
    - rewrite movable_relation by done. rewrite bool_decide_eq_false_2 by done. by rewrite Hk'. }
  destruct (Hc id doc0 Hat1) as [Hat|[(patch & e0 & doc & Hr & Hp0 & Hat & Hpm)|Hs]].
  - exists id, doc0, (weight e). split_and!; [done| |apply no_heavier_refl]. by exists e.
  - rewrite Hp in Hp0. injection Hp0 as <-.
    destruct (dc_redirect _ _ _ _ _ Hdec id patch Hr) as (e' & He' & Hid' & _). assert (e' = e) by (by eapply src_edge). subst e'.
    destruct (Hpresent e id) as (doc' & ? & ?); [by eauto..|]. exists id, doc', (weight e). split_and!; [done..|apply no_heavier_refl].
  - destruct Hs as [Hs|[Hs|Hs]]; [| |by destruct (Hs doc0 e Hat1 Hp); congruence].
    + destruct (dc_loser _ _ _ _ _ Hdec id Hs) as (t & e' & id' & patch & Hin & Hidt & Hw & He' & Hid' & Hm' & Hr & Hkk & Hlt).
      assert (t = e) by (by eapply tgt_edge). subst t. destruct (Htgt e Hin) as (_ & _ & _ & _ & _ & Htt).
      pose proof (in_the_way_relation e Htt Hw) as Hrel. rewrite Hk in Hrel. case_bool_decide as Hcp; [done|]. injection Hrel as ->.
      assert (Hcp' : counterpart e' src <> src).
      { intros E. apply Hw. by rewrite (same_counterpart e e' tgt src). }
      destruct (Hmv e' He' Hm' (eq_sym Hkk) Hcp') as [Ha' Hk']. destruct (Hpresent e' id') as (doc' & Hat' & Hrel'); [by eauto..|].
      exists id', doc', (weight e'). split_and!; [done..|].
      apply lt_no_heavier; [apply (read_fine tgt e); auto..|apply (read_fine src e'); auto|done].
    + assert (He : e ∈ src_edges).
      { assert (Hin : id ∈ omap e_id src_edges) by (rewrite <-(dc_once _ _ _ _ _ Hdec); apply elem_of_app; by right).
        apply list_elem_of_omap in Hin as (e' & He' & Hid'). assert (e' = e) by (by eapply src_edge). by subst. }
      destruct (Hsrc e He) as (_ & _ & _ & _ & _ & Ht). destruct (movable src tgt e) eqn:Hm.
      2: { exfalso. unfold movable in Hm. rewrite Ha in Hm. case_bool_decide as Hcp; [|done]. by rewrite pair_relation in Hk. }
      pose proof (movable_relation e Ht Hm) as Hrel. rewrite Hk in Hrel. case_bool_decide as Hcp; [done|]. injection Hrel as ->.
      destruct (dc_kept _ _ _ _ _ Hdec e He Hm) as [(e' & id' & patch & He' & Hid' & Hr & Hm' & Hkk & Hle)|(t & x & Hin & Hidt & Hw & Hkk & Hle & Hx)].
      * assert (Hcp' : counterpart e' src <> src) by (by rewrite (same_counterpart e' e src src)).
        destruct (Hmv e' He' Hm' Hkk Hcp') as [Ha' Hk']. destruct (Hpresent e' id') as (doc' & Hat' & Hrel'); [by eauto..|].
        exists id', doc', (weight e'). by split_and!.
      * destruct (Htgt t Hin) as (x' & doct & Hidt' & Hatx & Hpt & Htt). rewrite Hidt in Hidt'. injection Hidt' as <-.
        assert (Hrt : relates src tgt doct (conflict_key e src) (weight t)).
        { exists t. split_and!; [done| | |done].
          - apply (meaningful_edge t tgt); [by apply (read_fine tgt), Htgt|]. rewrite Hkk. apply meaningful_edge; [by apply (read_fine src), Hsrc|done].
          - rewrite in_the_way_relation by done. rewrite bool_decide_eq_false_2; [by rewrite Hkk|]. rewrite (same_counterpart t e tgt src) by done.
            unfold movable in Hm. apply andb_true_iff in Hm as [Hm%negb_true_iff%bool_decide_eq_false _]. done. }
        assert (Hnot : forall e', e' ∈ src_edges -> e_id e' = Some x -> False).
        { intros e' He' Hid'. assert (e' = t) by (by eapply src_edge). subst e'. destruct (Hsrc t He') as (_ & _ & _ & _ & _ & Hts).
          by eapply not_in_the_way. }
        exists x, doct, (weight t). split_and!; [|done..]. destruct (Hc x doct Hatx) as [Hat|[(patch & e0 & doc & Hr & _)|Hs']]; [done|exfalso..].
        -- destruct (dc_redirect _ _ _ _ _ Hdec x patch Hr) as (e' & He' & Hid' & _). by eapply Hnot.
        -- destruct Hs' as [Hs'|[Hs'|Hs']]; [done| |].
           ++ assert (Hin' : x ∈ omap e_id src_edges) by (rewrite <-(dc_once _ _ _ _ _ Hdec); apply elem_of_app; by right).
              apply list_elem_of_omap in Hin' as (e' & He' & Hid'). by eapply Hnot.
           ++ destruct Hrt as (t' & Hpt' & Hat' & Hkt' & _). destruct (Hs' doct t' Hatx Hpt'); congruence.
Qed.

(** *** Every step stays on course *)

Lemma on_course_adds d d' : adds good_write d d' -> on_course d -> on_course d'.
Proof.
  intros Ha [Hg Hc]. split; [by eapply good_adds|]. destruct Ha as [K N]. intros id doc0 Hd.
  destruct (Hc id doc0 Hd) as [?|[(patch & e0 & doc & ? & ? & ? & ?)|?]]; [left; auto|right; left|by right; right].
  exists patch, e0, doc. split_and!; auto.
Qed.
Lemma on_course_same d d' : (forall id, at_doc d' EDGES id = at_doc d EDGES id) -> on_course d -> on_course d'.
Proof.
  intros E [Hg Hc]. split; [intros id doc; rewrite E; apply Hg|]. intros id doc0 Hd.
  destruct (Hc id doc0 Hd) as [?|[(patch & e0 & doc & ? & ? & ? & ?)|?]]; [left; by rewrite E|right; left|by right; right].
  exists patch, e0, doc. by rewrite E.
Qed.
Lemma on_course_delete chunk d : Forall settled chunk -> on_course d ->
  on_course (with_filter (edge_ids_delete_filter chunk) d (fun f => spec_delete_by_query EDGES f d)).2.
Proof.
  intros Hs Hd. pose proof Hd as [Hg Hc]. destruct (delete_edges_at chunk d Hg) as [Ha _]. set (d' := (with_filter _ _ _).2) in *.
  split.
  - intros id doc E. destruct (Ha EDGES id) as [E'|(_ & _ & E')]; [|congruence]. apply Hg. congruence.
  - intros id doc0 Hat. destruct (Ha EDGES id) as [->|(_ & Hin & _)]; [by apply Hc|]. right; right. by apply (proj1 (Forall_forall _ _) Hs).
Qed.
Lemma on_course_redirect now id patch d : (id, patch) ∈ redirects disp -> on_course d ->
  on_course (spec_partial_update now EDGES id patch d).2.
Proof.
  intros Hr [Hg Hc]. destruct (dc_redirect _ _ _ _ _ Hdec id patch Hr) as (e & He & Hid & _ & -> & _).
  set (d' := (spec_partial_update _ _ _ _ _).2).
  assert (Hcase : forall id', at_doc d' EDGES id' = at_doc d EDGES id' \/ id' = id /\ exists old doc, at_doc d EDGES id = Some old /\
    at_doc d' EDGES id = Some doc /\ good id doc /\ forall e', parse_edge old = Some e' -> parse_edge doc = Some (moved tgt (is_source_side e src) e')).
  { intros id'. destruct (patch_at now EDGES id (redirect_patch (is_source_side e src) tgt) d EDGES id') as [?|([= ->] & old & doc & Ho & Hp & Hd')]; [by left|].
    right. split; [done|]. destruct (redirect_doc id now tgt _ old doc (Hg _ _ Ho) Hp) as [? ?]. by exists old, doc. }
  split.
  - intros id' doc E. destruct (Hcase id') as [E'|(-> & old & doc' & _ & E' & ? & _)]; [apply Hg; congruence|]. rewrite E in E'. by injection E' as ->.
  - intros id' doc0 Hat. destruct (Hcase id') as [->|(-> & old & doc & Ho & Hd' & _ & Hp)]; [by apply Hc|].
    destruct (Hsrc e He) as (id' & doc0' & Hid' & Hat' & Hp0 & _). rewrite Hid in Hid'. injection Hid' as <-. rewrite Hat in Hat'. injection Hat' as <-.
    destruct (Hc id doc0 Hat) as [E|[(patch & e0 & doc1 & _ & Hp1 & E & Hp2)|?]]; [right; left..|by right; right].
    + rewrite Ho in E. injection E as ->. eexists _, e, doc. split_and!; [exact Hr|done..|]. by apply Hp.
    + rewrite Ho in E. injection E as ->. rewrite Hp0 in Hp1. injection Hp1 as <-. eexists _, e, doc. split_and!; [exact Hr|done..|].
      rewrite (Hp _ Hp2). by destruct (is_source_side e src).
Qed.

Lemma late_spec edges id : id ∈ late_drop_ids (late_edges edges src tgt) ->
  exists e, e ∈ edges /\ e_id e = Some id /\ (counterpart e src = tgt \/ is_auto_derived (e_type e) = true).
Proof.
  unfold late_edges. induction edges as [|e l IH] using rev_ind; [by intros ?%elem_of_nil|]. rewrite foldl_app. cbn [foldl]. unfold late_step at 1.
  assert (Hold : id ∈ late_drop_ids (foldl (late_step src tgt) {| late_drop_ids := []; to_redirect := 0 |} l) ->
    exists e', e' ∈ l ++ [e] /\ e_id e' = Some id /\ (counterpart e' src = tgt \/ is_auto_derived (e_type e') = true)).
  { intros (e' & ? & ?)%IH. exists e'. split; [by apply elem_of_app; left|done]. }
  destruct (e_id e) as [eid|] eqn:Hid; [|done]. destruct (bool_decide _ || _) eqn:Hd; [|done]. cbn [late_drop_ids].
  intros [?|Hin%list_elem_of_singleton]%elem_of_app; [by apply Hold|]. subst. exists e. split; [apply elem_of_app; right; by left|].
  split; [done|]. apply orb_true_iff in Hd as [?%bool_decide_eq_true|?]; [by left|by right].
Qed.
(** What the sweep of a database on course takes away is settled. *)
Lemma late_settled d edges : on_course d ->
  (forall e, e ∈ edges -> exists id doc, e_id e = Some id /\ at_doc d EDGES id = Some doc /\ parse_edge doc = Some e /\ touches_node src e) ->
  Forall settled (late_drop_ids (late_edges edges src tgt)).
Proof.
  intros [_ Hc] Hin. apply Forall_forall. intros id (e & He & Hid & Hlate)%late_spec.
  destruct (Hin e He) as (id' & doc & Hid' & Hat & Hp & Ht). rewrite Hid in Hid'. injection Hid' as <-.
  destruct (at_doc d1 EDGES id) as [doc0|] eqn:E1; [|right; right; congruence].
  assert (Hnone : forall e, touches_node src e -> counterpart e src = tgt \/ is_auto_derived (e_type e) = true ->
    is_auto_derived (e_type e) = true \/ relation src tgt e = None).
  { intros e' Ht' [Hcp|?]; [right; by apply pair_relation|by left]. }
  destruct (Hc id doc0 E1) as [E|[(patch & e0 & doc' & Hr & Hp0 & E & Hpm)|?]]; [| |done]; right; right; intros doc2 e2 E2 Hp2;
    rewrite E1 in E2; injection E2 as <-; rewrite Hat in E; injection E as <-.
  - rewrite Hp in Hp2. injection Hp2 as <-. by apply Hnone.
  - rewrite Hp0 in Hp2. injection Hp2 as <-. rewrite Hp in Hpm. injection Hpm as ->. right.
    destruct (dc_redirect _ _ _ _ _ Hdec id patch Hr) as (e' & He' & Hid' & _). assert (e' = e0) by (by eapply src_edge). subst e'.
    destruct (Hsrc e0 He') as (_ & _ & _ & _ & _ & Ht0). by apply moved_touches.
Qed.
End lossless.

(** ** The steps *)

Section steps.
Context `{SerdeJson} `{!SerdeLaws} `{StorageSerde} `{RegexLib}.
Context (refusal : AppError -> string) (moments : nat -> Moment) (max_query_limit : Z).
Context (parse_rfc3339 : string -> option Z) (to_rfc3339 : Z -> string) (config : DeriveConfig).
Context (provider : option (string -> result string (string * string))).
Context (Hmax : MERGE_EDGE_ARM_LIMIT <= max_query_limit) (Hfresh : forall k, fresh (moments k)).
Context (Hothers : forall k d, adds good_write d (others (moments k) d)).

(** A derivation adds edges as good as those of others. *)
Lemma grows_refresh new_doc session tags created except :
  grows good_write (derive_edges_except refusal moments max_query_limit parse_rfc3339 to_rfc3339 new_doc session tags created config except).
Proof.
  apply grows_derive; [done..|]. intros obj id now (k & _ & _ & Hp) _.
  assert (Hx : exists a b, auto_edge (VObject obj) a b) by (destruct Hp; eauto). destruct Hx as (a & b & Hab).
  destruct (auto_edge_parses _ a b id now Hab) as (obj' & e & [= <-] & _ & Hparse & Hid & Ha & _).
  apply parse_edge_inv in Hparse as (Ht & _ & _ & _ & _ & Hi & _). split; [by eexists|]. split; [by rewrite <-Hi|].
  intros t Ht' Hat. rewrite Ht in Ht'. injection Ht' as <-. congruence.
Qed.

Lemma keeps_refresh n0 (I : db -> Prop) plan tgt : (forall k d, (n0 <= k)%nat -> I d -> I (others (moments k) d)) ->
  (forall now patch d, I d -> I (spec_partial_update now tgt.1 tgt.2 patch d).2) ->
  keeps_inv n0 I (refresh_vector refusal moments provider plan tgt).
Proof.
  intros Hkeep Hpatch. assert (Hp : forall patch, keeps_inv n0 I (db_patch refusal moments tgt.1 tgt.2 patch)).
  { intros patch. apply keeps_inv_bind; [|auto with keeps_inv]. apply keeps_inv_request; [done|]. intros k d. apply Hpatch. }
  unfold refresh_vector. destruct (merge_moves_the_embeddable_text plan); [|auto with keeps_inv].
  apply keeps_inv_bind; [auto with keeps_inv|]. intros [doc|]; [|auto with keeps_inv]. unfold embed_node.
  destruct provider as [embed|]; [|auto with keeps_inv]. case_bool_decide; [auto with keeps_inv|].
  destruct (embed _) as [[v m]|]; [|auto with keeps_inv]. apply keeps_inv_bind; [auto with keeps_inv|]. intros now.
  apply keeps_inv_bind; auto with keeps_inv.
Qed.

(** An invariant that writes to other collections, additions and the
    deletions of a given set of edges keep. *)
Section invariant.
Context (n0 : nat) (I : db -> Prop) (Hsame : forall d d', (forall id, at_doc d' EDGES id = at_doc d EDGES id) -> I d -> I d')
        (Hkeep : forall k d, (n0 <= k)%nat -> I d -> I (others (moments k) d)).
Hint Resolve Hkeep : keeps_inv.

Lemma inv_aborting {A} at_step c what (m : Client string A) : keeps_inv n0 I m -> keeps_inv n0 I (aborting at_step c what m).
Proof. apply keeps_inv_err. Qed.
Hint Resolve inv_aborting : keeps_inv.
Lemma inv_patch c id patch : c <> EDGES -> keeps_inv n0 I (db_patch refusal moments c id patch).
Proof.
  intros Hc. apply keeps_inv_bind; [|auto with keeps_inv]. apply keeps_inv_request; [auto with keeps_inv|]. intros k d.
  apply Hsame. intros id'. by apply patch_other.
Qed.
Hint Resolve inv_patch : keeps_inv.
Lemma inv_target plan tgt : tgt.1 <> EDGES -> keeps_inv n0 I (update_target refusal moments plan tgt).
Proof. intros Ht. unfold update_target. destruct (_ ++ _); auto with keeps_inv. Qed.
Lemma inv_repair tgt entries : forall c, keeps_inv n0 I (repair_entries refusal moments tgt entries c).
Proof. induction entries as [|e l IH]; intros c; cbn; [auto with keeps_inv|]. apply keeps_inv_bind; [|auto]. apply inv_aborting, inv_patch. done. Qed.
Lemma inv_delete_edges at_step what bump ids :
  (forall chunk d, chunk ∈ ids -> I d -> I (with_filter (edge_ids_delete_filter chunk) d (fun f => spec_delete_by_query EDGES f d)).2) ->
  forall c, keeps_inv n0 I (delete_edges refusal moments at_step what bump ids c).
Proof.
  induction ids as [|chunk ids IH]; intros Hd c; cbn [delete_edges]; [auto with keeps_inv|]. apply keeps_inv_bind.
  - apply inv_aborting. apply keeps_inv_request; [auto with keeps_inv|]. intros k d. apply Hd. by left.
  - intros n. apply IH. intros chunk' d Hc. apply Hd. by right.
Qed.
Lemma inv_redirects l : (forall id patch now d, (id, patch) ∈ l -> I d -> I (spec_partial_update now EDGES id patch d).2) ->
  forall c, keeps_inv n0 I (redirect_edges refusal moments l c).
Proof.
  induction l as [|[id patch] l IH]; intros Hr c; cbn [redirect_edges]; [auto with keeps_inv|]. apply keeps_inv_bind.
  - apply inv_aborting. apply keeps_inv_bind; [|auto with keeps_inv]. apply keeps_inv_request; [auto with keeps_inv|]. intros k d. apply Hr. by left.
  - intros _. apply IH. intros id' patch' now d Hin. apply Hr. by right.
Qed.
Lemma inv_fetch key : keeps_inv n0 I (fetch_node_edges refusal moments max_query_limit key).
Proof.
  assert (Harm : forall body out, keeps_inv n0 I (fetch_arm refusal moments max_query_limit key body out)).
  { intros body out. apply keeps_inv_bind; [auto with keeps_inv|]. intros docs. destruct (_ <=? _); auto with keeps_inv. }
  unfold fetch_node_edges. apply keeps_inv_bind; auto.
Qed.
Lemma inv_delete_source src c : src.1 <> EDGES -> keeps_inv n0 I (delete_source refusal moments src c).
Proof. intros Hs. apply keeps_inv_err, keeps_inv_request; [auto with keeps_inv|]. intros k d. apply Hsame. intros id. by apply delete_other. Qed.
Lemma inv_refresh plan tgt : tgt.1 <> EDGES -> keeps_inv n0 I (refresh_vector refusal moments provider plan tgt).
Proof. intros Ht. apply keeps_refresh; [done|]. intros now patch d. apply Hsame. intros id. by apply patch_other. Qed.
End invariant.

(** *** A whole run *)

Lemma steps_on_course src tgt d1 src_edges tgt_edges plan tgt_doc s : src <> tgt -> src.1 <> EDGES -> tgt.1 <> EDGES ->
  (forall e, e ∈ src_edges -> read_from d1 src e) -> (forall e, e ∈ tgt_edges -> read_from d1 tgt e) -> good_edges d1 ->
  NoDup (omap e_id src_edges) -> decided src tgt src_edges tgt_edges (disposition plan) ->
  keeps_inv 0 (on_course src tgt d1 (disposition plan))
    (merge_steps refusal moments max_query_limit parse_rfc3339 to_rfc3339 config provider plan src tgt tgt_doc s).
Proof.
  intros Hne Hs Ht Hsrc Htgt Hgood Hids Hdec. set (I := on_course src tgt d1 (disposition plan)).
  assert (Hsame : forall d d', (forall id, at_doc d' EDGES id = at_doc d EDGES id) -> I d -> I d') by apply on_course_same.
  assert (Hadd : forall d d', adds good_write d d' -> I d -> I d') by apply on_course_adds.
  assert (Hkeep : forall k d, (0 <= k)%nat -> I d -> I (others (moments k) d)) by (intros k d _; apply Hadd, Hothers).
  assert (Hdel : forall at_step what bump ids c, Forall (settled src tgt d1 (disposition plan)) ids ->
    keeps_inv 0 I (delete_edges refusal moments at_step what bump (chunks MERGE_DELETE_CHUNK ids) c)).
  { intros at_step what bump ids c Hset. apply inv_delete_edges; [done|]. intros chunk d Hc. apply on_course_delete; [done..|].
    apply Forall_forall. intros id Hid. apply (proj1 (Forall_forall _ _) Hset), (chunks_elem MERGE_DELETE_CHUNK); [unfold MERGE_DELETE_CHUNK; lia|eauto]. }
  unfold merge_steps. apply keeps_inv_bind; [|intros c; apply keeps_inv_bind; [|intros c'; apply keeps_inv_bind; [|intros _; apply keeps_inv_bind]]].
  - unfold steps_1_to_5. apply keeps_inv_bind; [by apply inv_target|]. intros _. apply keeps_inv_bind; [by apply inv_repair|]. intros c.
    apply keeps_inv_bind; [apply Hdel, Forall_forall; intros id ?; by left|]. intros c2.
    apply keeps_inv_bind; [apply inv_redirects; [done|]; intros id patch now d Hr; by eapply on_course_redirect|]. intros c3.
    apply keeps_inv_bind; [apply Hdel, Forall_forall; intros id ?; right; by left|]. intros c4.
    apply keeps_inv_bind; [apply keeps_inv_try; apply (keeps_inv_grows I good_write); [done|]; apply grows_refresh|]. intros n. apply keeps_inv_ret.
  - intros w Hk Hw. unfold sweep. rewrite bind_run. unfold aborting, client_err.
    pose proof (inv_fetch 0 I Hkeep src w Hk Hw) as Hf. destruct (fetch_node_edges _ _ _ src w) as [[edges|e] w1] eqn:E; cbn in Hf; [|done]. cbn [map_err].
    destruct (fetch_edges_spec refusal moments max_query_limit Hmax Hothers src w edges w1 (proj1 Hw) E) as (_ & _ & Hin & _).
    destruct Hf as [Hk1 Hw1]. destruct (0 <? _); [done|]. apply Hdel; [|done..]. by eapply late_settled.
  - by apply inv_delete_source.
  - by apply inv_refresh.
  - intros _. apply keeps_inv_ret.
Qed.

Lemma decided_warn src tgt src_edges tgt_edges disp text : decided src tgt src_edges tgt_edges disp ->
  decided src tgt src_edges tgt_edges (warn disp text).
Proof. intros [D1 D2 D3 D4]. by constructor. Qed.
Lemma decided_warnings src tgt src_edges tgt_edges texts : forall disp, decided src tgt src_edges tgt_edges disp ->
  decided src tgt src_edges tgt_edges (foldl warn disp texts).
Proof. induction texts as [|text texts IH]; intros disp Hd; cbn; [done|]. by apply IH, decided_warn. Qed.

Lemma grows_fetch key : grows good_write (fetch_node_edges refusal moments max_query_limit key).
Proof.
  intros w. apply (inv_fetch 0 (adds good_write (database w))); [|lia|apply adds_refl]. intros k d _ Hd. by eapply adds_trans.
Qed.
Lemma grows_repairs src tgt entries : grows good_write (plan_repairs refusal moments src tgt entries).
Proof. induction entries as [|e l IH]; cbn [plan_repairs]; auto 6 with adds. Qed.

(** The plan that is carried out was made on edges that are all there. *)
Lemma build_spec src tgt src_doc tgt_doc s w plan w' : good_edges (database w) ->
  build_merge_plan refusal moments max_query_limit src tgt src_doc tgt_doc s w = (Ok plan, w') ->
  adds good_write (database w) (database w') /\ exists src_edges tgt_edges,
  (forall e, e ∈ src_edges -> read_from (database w') src e) /\ (forall e, e ∈ tgt_edges -> read_from (database w') tgt e) /\
  NoDup (omap e_id src_edges) /\ decided src tgt src_edges tgt_edges (disposition plan).
Proof.
  intros Hg (src_edges & w1 & E1 & (tgt_edges & w2 & E2 & (checked & w3 & E3 & E4)%bind_inv)%bind_inv)%bind_inv.
  destruct (fetch_edges_spec refusal moments max_query_limit Hmax Hothers src w _ _ Hg E1) as (A1 & N1 & I1 & _).
  pose proof (good_adds _ _ A1 Hg) as G1.
  destruct (fetch_edges_spec refusal moments max_query_limit Hmax Hothers tgt w1 _ _ G1 E2) as (A2 & N2 & I2 & _).
  pose proof (grows_repairs src tgt (derived_from_entry_ids (classify_and_resolve src_edges tgt_edges src tgt)) w2) as A3. rewrite E3 in A3. cbn in A3.
  assert (Hplan : w' = w3 /\ exists disp texts, disposition plan = foldl warn (classify_and_resolve src_edges tgt_edges src tgt) texts /\ disp = texts).
  { destruct (union_tags _ _) as [unioned added]. destruct (if bool_decide _ then _ else _) as [content [note|]]; injection E4 as <- <-; (split; [done|]).
    - exists (checked.2 ++ [note]), (checked.2 ++ [note]). by rewrite foldl_app.
    - by exists checked.2, checked.2. }
  destruct Hplan as (-> & _ & texts & -> & _). split; [by eapply adds_trans, adds_trans|]. exists src_edges, tgt_edges.
  assert (R1 : forall e, e ∈ src_edges -> read_from (database w3) src e).
  { intros e He. destruct (I1 e He) as (id & doc & ? & Hat & ? & ?). exists id, doc. split_and!; [done|by apply A3, A2|done..]. }
  assert (R2 : forall e, e ∈ tgt_edges -> read_from (database w3) tgt e).
  { intros e He. destruct (I2 e He) as (id & doc & ? & Hat & ? & ?). exists id, doc. split_and!; [done|by apply A3|done..]. }
  assert (G3 : good_edges (database w3)) by (by eapply good_adds, good_adds).
  split_and!; [done..|]. apply decided_warnings, plan_decides; [apply Forall_forall..|done]; intros e He.
  - by apply (read_fine (database w3) G3 src), R1.
  - by apply (read_fine (database w3) G3 tgt), R2.
Qed.

Lemma validate_ok args coll s t : validate_merge_args args = Ok (coll, s, t) -> s <> t /\ coll <> EDGES.
Proof.
  unfold validate_merge_args. intros (c1 & E1 & (c2 & _ & E)%bind_ok)%bind_ok. destruct (negb _); [done|].
  destruct (_ || _); [done|]. case_bool_decide; [done|]. destruct (_ && _); [done|]. injection E as <- <- <-. split; [done|].
  unfold resolve_kg_collection in E1. case_bool_decide; [by injection E1 as <-|]. case_bool_decide; [by injection E1 as <-|done].
Qed.

Abbreviation run := (run_knowledge_merge refusal moments max_query_limit parse_rfc3339 to_rfc3339 config provider).
Lemma run_covers args coll s t w : validate_merge_args args = Ok (coll, s, t) -> good_edges (database w) ->
  good_edges (database (run args w).2) /\ covers (coll, s) (coll, t) (database w) (database (run args w).2).
Proof.
  intros Hv Hg. destruct (validate_ok args coll s t Hv) as [Hst Hcoll].
  assert (Hadds : forall w', adds good_write (database w) (database w') -> good_edges (database w') /\ covers (coll, s) (coll, t) (database w) (database w')).
  { intros w' Ha. split; [by eapply good_adds|by eapply covers_adds]. }
  unfold run_knowledge_merge. rewrite Hv. unfold client_lift. rewrite bind_run. cbn beta iota.
  assert (Hread : forall f id, grows good_write (client_err (F := string) f (db_read refusal moments coll id))) by auto with adds.
  rewrite bind_run. pose proof (Hread (fun _ => rejected ("source node " +:+ coll +:+ ":" +:+ s
      +:+ " not found — if a previous merge run reported failure only at the final delete step, the merge already completed")) s w) as A1.
  destruct (client_err _ (db_read _ _ coll s) w) as [[src_doc|e] w1]; [|by apply Hadds]. cbn [snd] in A1.
  rewrite bind_run. pose proof (Hread (fun _ => rejected ("target node " +:+ coll +:+ ":" +:+ t +:+ " not found")) t w1) as A2.
  destruct (client_err _ (db_read _ _ coll t) w1) as [[tgt_doc|e] w2]; [|by eapply Hadds, adds_trans]. cbn [snd] in A2.
  pose proof (adds_trans _ _ _ _ A1 A2) as A12. pose proof (good_adds _ _ A12 Hg) as G2. rewrite bind_run.
  destruct (build_merge_plan _ _ _ _ _ _ _ _ w2) as [[plan|e] w3] eqn:Eb.
  2: { apply Hadds. eapply adds_trans; [exact A12|]. change w3 with (@Err string MergePlan e, w3).2. rewrite <-Eb.
       unfold build_merge_plan. apply adds_bind; [apply grows_fetch|]. intros l. apply adds_bind; [apply grows_fetch|]. intros l'.
       apply adds_bind; [apply grows_repairs|]. intros c. destruct (union_tags _ _). destruct (if bool_decide _ then _ else _). auto with adds. }
  destruct (build_spec _ _ _ _ _ _ _ _ G2 Eb) as (A3 & src_edges & tgt_edges & R1 & R2 & Hn & Hdec).
  pose proof (adds_trans _ _ _ _ A12 A3) as A13. pose proof (good_adds _ _ A13 Hg) as G3.
  destruct (dry_run args); [by apply Hadds|]. unfold execute_merge_plan.
  pose proof (steps_on_course (coll, s) (coll, t) (database w3) src_edges tgt_edges plan tgt_doc (strategy args)
    ltac:(congruence) Hcoll Hcoll R1 R2 G3 Hn Hdec w3) as Hrun.
  assert (Hstart : on_course (coll, s) (coll, t) (database w3) (disposition plan) (database w3)) by (split; [done|by left]).
  destruct (Hrun (Nat.le_0_l _) Hstart) as [_ Hend]. clear Hrun. destruct (merge_steps _ _ _ _ _ _ _ plan _ _ tgt_doc _ w3) as [[report|report] w4]; cbn [snd] in Hend |- *.
  all: split; [apply Hend|]; eapply covers_trans; [by eapply covers_adds|]; eapply (on_course_covers (coll, s) (coll, t)); [congruence|exact R1|exact R2|done..].
Qed.

(** C16: No run of a merge loses a relation, wherever it is cut and however
    often it is repeated. Whatever calls are lost, answered too late or
    refused, and whatever edges others add meanwhile, after any number of
    runs every relation of the two nodes with a third one that was stored,
    other than an automatic one, is stored still between one of the two and
    the same third node, in the same direction and of the same type, at least
    as heavy. *)
Theorem no_relation_is_lost (args : KnowledgeMergeArgs) (coll s t : string) (w : World) (n : nat) :
  validate_merge_args args = Ok (coll, s, t) -> good_edges (database w) ->
  covers (coll, s) (coll, t) (database w) (database (Nat.iter n (fun w => (run args w).2) w)).
Proof.
  intros Hv Hg. assert (Hboth : good_edges (database (Nat.iter n (fun w => (run args w).2) w)) /\
    covers (coll, s) (coll, t) (database w) (database (Nat.iter n (fun w => (run args w).2) w))); [|tauto].
  induction n as [|n [IHg IHc]]; cbn; [by split; [|apply covers_refl]|].
  destruct (run_covers args coll s t _ Hv IHg) as [? ?]. split; [done|]. by eapply covers_trans.
Qed.

(** *** The end of a run *)

Lemma late_complete src tgt edges : let late := late_edges edges src tgt in 0 <= to_redirect late /\
  (to_redirect late <= 0 -> forall e id, e ∈ edges -> e_id e = Some id -> id ∈ late_drop_ids late).
Proof.
  cbn zeta. unfold late_edges. induction edges as [|e l IH] using rev_ind; [cbn; split; [lia|]; by intros _ e id ?%elem_of_nil|].
  rewrite foldl_app. cbn [foldl]. destruct IH as [Hp IH]. set (late := foldl _ _ l) in *. unfold late_step.
  destruct (e_id e) as [eid|] eqn:Hid; [destruct (bool_decide _ || _)|]; cbn [to_redirect late_drop_ids]; (split; [lia|]); intros Hz e' id [He|He%list_elem_of_singleton]%elem_of_app Hid'.
  - apply elem_of_app. left. by eapply IH.
  - subst e'. rewrite Hid in Hid'. injection Hid' as <-. apply elem_of_app. right. by left.
  - lia.
  - lia.
  - by eapply IH.
  - subst e'. congruence.
Qed.
Lemma request_ok {A} segments (spec : Moment -> db -> res A * db) w a w' : request refusal moments segments spec w = (Ok a, w') ->
  let out := spec (moments (moment w)) (others (moments (moment w)) (database w)) in
  out.1 = Ok a /\ database w' = out.2 /\ moment w' = S (moment w).
Proof.
  unfold request, mbind, client_bind, client_lift, exchange. destruct (url _); [|done]. destruct (spec _ _) as [[r|r] d']; by destruct (fate _); intros [= <- <-].
Qed.
Lemma err_ok {E F A} (f : E -> F) (m : Client E A) w a w' : client_err f m w = (Ok a, w') -> m w = (Ok a, w').
Proof. unfold client_err. destruct (m w) as [[x|x] w1]; by intros [= <- <-]. Qed.

Section quiet.
Context (n0 : nat) (Hquiet : forall k d, (n0 <= k)%nat -> others (moments k) d = d).
Lemma quiet_deletes at_step what bump ids : forall c w c' w', (n0 <= moment w)%nat -> good_edges (database w) ->
  delete_edges refusal moments at_step what bump ids c w = (Ok c', w') -> (n0 <= moment w')%nat /\
  (forall c id doc, at_doc (database w') c id = Some doc -> at_doc (database w) c id = Some doc) /\
  (forall id, id ∈ concat ids -> at_doc (database w') EDGES id = None).
Proof.
  induction ids as [|chunk ids IH]; intros c w c' w' Hk Hg; cbn [delete_edges concat].
  { intros [= <- <-]. split_and!; [done..|]. by intros id ?%elem_of_nil. }
  intros (n & w1 & E1%err_ok%request_ok & E2)%bind_inv. cbn zeta in E1. rewrite Hquiet in E1 by done. destruct E1 as (Hok & Hdb & Hm).
  destruct (delete_edges_at chunk (database w) Hg) as [Hat Hgone]. rewrite Hok in Hgone. rewrite <-Hdb in Hat, Hgone.
  assert (Hless : forall c id doc, at_doc (database w1) c id = Some doc -> at_doc (database w) c id = Some doc).
  { intros c0 id doc E. destruct (Hat c0 id) as [E'|(_ & _ & E')]; congruence. }
  destruct (IH (bump c n) w1 c' w') as (Hk' & Hless' & Hgone'); [lia| |done|]. { intros id doc E. by apply Hg, Hless. }
  split_and!; [done|by auto|]. intros id [Hin|Hin]%elem_of_app; [|by auto].
  destruct (at_doc (database w') EDGES id) as [doc|] eqn:E; [|done]. apply Hless' in E. rewrite Hgone in E; done.
Qed.
Lemma quiet_fetch key w l w' : (n0 <= moment w)%nat -> fetch_node_edges refusal moments max_query_limit key w = (Ok l, w') ->
  database w' = database w /\ (n0 <= moment w')%nat.
Proof.
  intros Hk E. pose proof (inv_fetch n0 (fun d => d = database w)) as Hf. unfold keeps_inv in Hf.
  destruct (Hf ltac:(intros k d Hk' ->; by apply Hquiet) key w Hk eq_refl) as [H1' H2']. rewrite E in H1', H2'. done.
Qed.
End quiet.

(** C17: A merge that ends well leaves no edge of the source. When the steps
    up to the refresh are done, whatever happened until then, and nobody else
    writes from there on, a merge that reports success has deleted the source
    and leaves no stored edge that names it, those included that others wrote
    while it ran. *)
Theorem merge_leaves_no_edge (plan : MergePlan) (src tgt : NodeKey) (tgt_doc : Value) (s : MergeStrategy)
    (w w5 w' : World) (c : ExecCounters) (report : Value) :
  src <> tgt -> src.1 <> EDGES -> tgt.1 <> EDGES ->
  steps_1_to_5 refusal moments max_query_limit parse_rfc3339 to_rfc3339 config plan src tgt tgt_doc w = (Ok c, w5) ->
  good_edges (database w5) -> (forall k d, (moment w5 <= k)%nat -> others (moments k) d = d) ->
  merge_steps refusal moments max_query_limit parse_rfc3339 to_rfc3339 config provider plan src tgt tgt_doc s w = (Ok report, w') ->
  at_doc (database w') src.1 src.2 = None /\
  forall id doc e, at_doc (database w') EDGES id = Some doc -> parse_edge doc = Some e -> ~ touches_node src e.
Proof.
  intros Hne Hs Ht Hsteps Hg Hquiet (c5 & w5' & E5 & (c6 & w6 & E6 & (u & w7 & E7 & (v & w8 & E8 & [= <- <-])%bind_inv)%bind_inv)%bind_inv)%bind_inv.
  rewrite Hsteps in E5. injection E5 as <- <-.
  (* step 6 *)
  destruct (bind_inv _ _ _ _ _ E6) as (edges & wf & Ef%err_ok & Ed).
  destruct (quiet_fetch _ Hquiet src w5 edges wf ltac:(lia) Ef) as [Hdb Hkf].
  destruct (fetch_edges_spec refusal moments max_query_limit Hmax Hothers src w5 edges wf Hg Ef) as (_ & _ & _ & Hall).
  cbn zeta in Ed. destruct (Z.ltb_spec 0 (to_redirect (late_edges edges src tgt))) as [|Hz]; [done|].
  destruct (quiet_deletes _ Hquiet _ _ _ _ _ wf c6 w6 Hkf ltac:(by rewrite Hdb) Ed) as (Hk6 & Hless & Hgone). rewrite concat_chunks in Hgone by (unfold MERGE_DELETE_CHUNK; lia).
  assert (H6 : forall id doc e, at_doc (database w6) EDGES id = Some doc -> parse_edge doc = Some e -> ~ touches_node src e).
  { intros id doc e Hat Hp Htouch. pose proof (Hless _ _ _ Hat) as Hat5. rewrite Hdb in Hat5. pose proof (Hall id doc e Hat5 Hp Htouch) as Hin.
    destruct (good_fine id doc e (Hg _ _ Hat5) Hp) as [_ Hid]. rewrite (Hgone id) in Hat; [done|].
    by apply (proj2 (late_complete src tgt edges) Hz e id). }
  (* step 7 *)
  apply err_ok, request_ok in E7. cbn zeta in E7. rewrite Hquiet in E7 by lia. destruct E7 as (Hok & Hdb7 & Hm7).
  assert (H7 : at_doc (database w7) src.1 src.2 = None /\ forall id, at_doc (database w7) EDGES id = at_doc (database w6) EDGES id).
  { rewrite Hdb7. split; [|intros id; by apply delete_other]. revert Hok. unfold spec_delete, on_docs. destruct (database w6 !! src.1) as [docs|] eqn:E; [|done].
    destruct (docs !! src.2); [|done]. cbn. intros _. rewrite at_insert, decide_True by done. apply lookup_delete_eq. }
  (* the vector *)
  set (I := fun d => at_doc d src.1 src.2 = None /\ forall id, at_doc d EDGES id = at_doc (database w6) EDGES id).
  assert (H8 : I (database w8)).
  { assert (spared : forall now patch d, I d -> I (spec_partial_update now tgt.1 tgt.2 patch d).2).
    { intros now patch d [Hi1 Hi2]. split; [|intros id; by rewrite patch_other].
      destruct (patch_at now tgt.1 tgt.2 patch d src.1 src.2) as [->|[[= Ec Ei] _]]; [done|]. destruct Hne. destruct src, tgt. cbn in *. congruence. }
    pose proof (keeps_refresh (moment w5) I plan tgt) as Hr. unfold keeps_inv in Hr.
    destruct (Hr ltac:(intros k d Hk Hi; by rewrite Hquiet) ltac:(intros now patch d; by apply spared) w7 ltac:(lia) H7) as [_ H8]. by rewrite E8 in H8. }
  destruct H8 as [H8 H8']. split; [done|]. intros id doc e. rewrite H8'. apply H6.
Qed.
End steps.

(** ** Concrete runs *)

Module MergeDemo.
Import Ref Guarantees.RefStorage DeriveDemo.

(** [a] is merged into [b]; [c] and [d] are their neighbours. *)
Definition note (id content tag : string) : Value :=
  VObject [("_id", VString id); ("content", VString content); ("created_at", VString id); ("source_session", VString id);
           ("tags", json_strings [tag])].
Definition edge_docs : list (string * Value) :=
  [("e1", stored_edge "e1" "a" "c" "refines" 5); ("e2", stored_edge "e2" "b" "c" "refines" 3); ("e3", stored_edge "e3" "a" "b" "related_to" 1);
   ("e4", stored_edge "e4" "d" "a" "enables" 2); ("e5", stored_edge "e5" "b" "d" "refines" 1); ("e6", stored_edge "e6" "a" "d" "same_session" 1);
   ("e7", stored_edge "e7" "a" "d" "refines" 1)].
Definition graph : db := list_to_map
  [("memory.semantic", list_to_map [("a", note "a" "one" "x"); ("b", note "b" "two" "y"); ("c", note "c" "three" "x"); ("d", note "d" "four" "z")]);
   ("memory.entries", ∅); ("memory.procedural", ∅); (EDGES, list_to_map edge_docs)].
Definition start : World := {| database := graph; moment := 0 |}.
Definition args (s : MergeStrategy) : KnowledgeMergeArgs :=
  {| a_source_collection := "semantic"; a_source_id := " a "; a_target_collection := "Semantic"; a_target_id := "b"; strategy := s; dry_run := false |}.
(** The vector of a text is the text. *)
Definition embedder : option (string -> result string (string * string)) := Some (fun text => Ok (text, "m")).
Definition merge (moments : nat -> Moment) (s : MergeStrategy) (w : World) : result string Value * World :=
  run_knowledge_merge app_error_display moments 100000 instant pretty config embedder (args s) w.
Definition merged (r : result string Value) : option bool := match r with Ok report => get report "merged" ≫= as_bool | Err _ => None end.
Definition field_of (w : World) (id key : string) : option string := at_doc (database w) "memory.semantic" id ≫= fun doc => str_field doc key.
Definition meaningful (w : World) : list (string * string * string) :=
  List.filter (fun k => negb (bool_decide (k.2 ∈ AUTO_EDGE_TYPE_NAMES))) (ends w).

(** The heavier edge to [c] is kept, the tie with [d] keeps the target's, and
    the target gets an automatic edge for the tag it takes over. *)
Example merge_all : let '(r, w) := merge quiet KeepTarget start in
  merged r = Some true /\ meaningful w = [("b", "c", "refines"); ("d", "b", "enables"); ("b", "d", "refines")] /\
  List.filter (fun k => bool_decide (k.2 ∈ AUTO_EDGE_TYPE_NAMES)) (ends w) = [("b", "c", "tag_overlap"); ("c", "b", "tag_overlap")] /\
  field_of w "a" "_id" = None.
Proof. vm_compute. repeat split. Qed.

(** Whichever call is lost, or only its reply, a second run ends with the
    same edges, unless the source was deleted already. *)
Definition losing (k : nat) (f : Fate) (n : nat) : Moment :=
  {| clock := "t"; fresh_ids := next_ids; others := fun d => d; fate := if (n =? k)%nat then f else Answered |}.
Definition twice (k : nat) (f : Fate) : bool :=
  let w1 := (merge (losing k f) KeepTarget start).2 in
  let '(r, w2) := merge (losing k f) KeepTarget w1 in
  (bool_decide (merged r = Some true) || bool_decide (field_of w1 "a" "_id" = None)) &&
  bool_decide (meaningful w2 = meaningful (merge quiet KeepTarget start).2).
Example rerun_converges : forallb (fun k => twice k (Undelivered "lost") && twice k (Unanswered "lost")) (seq 0 30) = true.
Proof. vm_compute. reflexivity. Qed.

(** The last call deletes the source. An edge another client writes between
    the read of the sweep and that call is left without its node. *)
Definition calls : nat := moment (merge quiet KeepTarget start).2.
Definition racing (n : nat) : Moment :=
  {| clock := "t"; fresh_ids := next_ids; fate := Answered;
     others := fun d => if (n =? calls - 1)%nat then partial_alter (fun docs => Some (<["e8" := stored_edge "e8" "c" "a" "refines" 1]> (default ∅ docs))) EDGES d else d |}.
Example late_edge_dangles : let '(r, w) := merge racing KeepTarget start in
  merged r = Some true /\ field_of w "a" "_id" = None /\ bool_decide (("c", "a", "refines") ∈ ends w) = true.
Proof. vm_compute. repeat split. Qed.

(** A run that stops after its first step has appended the content. The run
    that completes it skips the append, and with it the new vector. *)
Example content_embedded : let '(r, w) := merge quiet MergeContent start in
  merged r = Some true /\ field_of w "b" "embedding" = field_of w "b" "content".
Proof. vm_compute. repeat split. Qed.
Definition stopped : World := (merge (losing 7 (Undelivered "lost")) MergeContent start).2.
Example rerun_leaves_old_vector : let '(r, w) := merge (losing 7 (Undelivered "lost")) MergeContent stopped in
  merged (merge (losing 7 (Undelivered "lost")) MergeContent start).1 = Some false /\ merged r = Some true /\
  field_of w "b" "content" = field_of (merge quiet MergeContent start).2 "b" "content" /\ field_of w "b" "embedding" = None.
Proof. vm_compute. repeat split. Qed.

(** The guard of the append looks for the marker anywhere: a node merged
    before whose identifier begins with this one's hides it. *)
Example marker_of_another : plan_content ("text" +:+ newline +:+ merged_from_marker "n10") "lost" "n1" =
  (None, Some ("target already contains " +:+ quote +:+ "## Merged from n1" +:+ quote +:+ " — content append skipped (re-run guard)")).
Proof. vm_compute. reflexivity. Qed.

(** *** Witnesses *)

Definition nice_b (w : f64) : bool := (0 <=? w) && (w <? 2 ^ 64) && negb (f64_is_nan w) && negb (w =? 2 ^ 63).
Definition good_b (id : string) (doc : Value) : bool :=
  bool_decide (is_Some (as_object doc)) && bool_decide (str_field doc "_id" = Some id) &&
  match str_field doc "edge_type" ≫= parse_lossy with
  | Some t => is_auto_derived t || nice_b (default f64_zero (get doc "weight" ≫= Json.as_f64))
  | None => true
  end.
Lemma good_b_ok id doc : good_b id doc = true -> good id doc.
Proof.
  unfold good_b. intros [[Ho Hid%bool_decide_eq_true]%andb_true_iff Hw]%andb_true_iff. split; [destruct doc; try done; by eexists|]. split; [done|].
  intros t Ht Ha. rewrite Ht, Ha in Hw. cbn in Hw. unfold nice_b in Hw.
  apply andb_true_iff in Hw as [[[?%Z.leb_le ?%Z.ltb_lt]%andb_true_iff ?%negb_true_iff]%andb_true_iff ?%negb_true_iff%Z.eqb_neq].
  by split_and!.
Qed.
Definition good_db (d : db) : bool := forallb (fun x => good_b x.1 x.2) (map_to_list (default ∅ (d !! EDGES))).
Lemma good_db_ok d : good_db d = true -> good_edges d.
Proof.
  unfold good_db, good_edges, at_doc. intros Hf id doc Hat. apply good_b_ok. destruct (d !! EDGES) as [docs|]; [|done]. cbn in Hat.
  rewrite forallb_forall in Hf. apply (Hf (id, doc)), list_elem_of_In. by apply elem_of_map_to_list.
Qed.

Definition a : NodeKey := ("memory.semantic", "a").
Definition b : NodeKey := ("memory.semantic", "b").
Definition parsed_edges (ids : list string) : list KnowledgeEdge := omap (fun id => at_doc graph EDGES id ≫= parse_edge) ids.
Lemma parsed_fine ids : Forall fine (parsed_edges ids).
Proof.
  apply Forall_forall. intros e (id & _ & Hp)%list_elem_of_omap. apply bind_Some in Hp as (doc & Hat & Hp).
  apply (good_fine id doc e); [|done]. by apply (good_db_ok graph).
Qed.
Lemma every_edge_is_decided_once_witness :
  let disp := classify_and_resolve (parsed_edges ["e1"; "e3"; "e4"; "e6"; "e7"]) (parsed_edges ["e2"; "e3"; "e5"]) a b in
  (redirects disp).*1 ++ drop_ids disp ≡ₚ ["e1"; "e3"; "e4"; "e6"; "e7"] /\ delete_conflict_target disp = ["e2"].
Proof.
  intros disp. split; [|vm_compute; reflexivity].
  apply (every_edge_is_decided_once a b (parsed_edges ["e1"; "e3"; "e4"; "e6"; "e7"]) (parsed_edges ["e2"; "e3"; "e5"])); try apply parsed_fine.
  apply (bool_decide_unpack _). vm_compute. exact I.
Defined.

Definition failing := losing 17 (Unanswered "lost").
Lemma no_relation_is_lost_witness : covers a b graph
  (database (Nat.iter 2 (fun w => (run_knowledge_merge app_error_display failing 100000 instant pretty config embedder (args KeepTarget) w).2) start)).
Proof.
  apply (no_relation_is_lost app_error_display failing 100000 instant pretty config embedder ltac:(discriminate)
    ltac:(intros k; exact (next_ids_fresh _ _)) ltac:(intros k d; exact (adds_refl _ d)) (args KeepTarget) "memory.semantic" "a" "b" start 2);
    [vm_compute; reflexivity|]. apply good_db_ok. vm_compute. reflexivity.
Defined.

Definition planned : option (MergePlan * World) :=
  match build_merge_plan app_error_display quiet 100000 a b (note "a" "one" "x") (note "b" "two" "y") KeepTarget start with
  | (Ok plan, w) => Some (plan, w) | (Err _, _) => None end.
Definition no_plan : MergePlan := {| disposition := no_disposition; repairs := []; tags_to_add := []; unioned_tags := []; new_content := None |}.
Definition the_plan : MergePlan := (default (no_plan, start) planned).1.
Definition at_plan : World := (default (no_plan, start) planned).2.
Definition five := steps_1_to_5 app_error_display quiet 100000 instant pretty config the_plan a b (note "b" "two" "y") at_plan.
Definition seven := merge_steps app_error_display quiet 100000 instant pretty config embedder the_plan a b (note "b" "two" "y") KeepTarget at_plan.
Definition counted_ : ExecCounters := match five.1 with Ok c => c | Err _ => no_counters end.
Definition report_ : Value := match seven.1 with Ok r => r | Err _ => VNull end.
Lemma merge_leaves_no_edge_witness : at_doc (database seven.2) "memory.semantic" "a" = None.
Proof.
  refine (proj1 (merge_leaves_no_edge app_error_display quiet 100000 instant pretty config embedder ltac:(discriminate)
    ltac:(intros k d; exact (adds_refl _ d)) the_plan a b (note "b" "two" "y") KeepTarget at_plan five.2 seven.2 counted_ report_
    ltac:(discriminate) ltac:(discriminate) ltac:(discriminate) _ _ _ _)).
  - vm_compute. reflexivity.
  - apply good_db_ok. vm_compute. reflexivity.
  - reflexivity.
  - vm_compute. reflexivity.
Defined.
End MergeDemo.
